(* ===== verification/_CoqProject ===== *)
-Q . S2P
Prelude.v
Mem.v
CString.v
Riscv.v
Spinlock.v
Kalloc.v
Vm.v
VmSpec.v
VmCopy.v
VmUser.v
VmFree.v
VmSpace.v
Machine.v
Asm.v
AsmSpec.v
KernelVec.v
Boot.v
Space.v
Proc.v
ProcSpec.v
Exec.v
ExecSpec.v
ExecStack.v
Trap.v
TrapSpec.v
KTrap.v
ProcTree.v
ProcSleep.v
DList.v
Ring.v
Pipe.v
Console.v
ConsoleSpec.v
Ulib.v
Printf.v
Sh.v
ShSpec.v
ShParse.v
ShRun.v
Syscall.v
SyscallSpec.v
BlockCache.v
Bio.v
BioSpec.v
Virtio.v
VirtioSpec.v
VirtioInv.v
VirtioSafe.v
Log.v
LogSpec.v
LogTxn.v
TxnStore.v
LogStore.v
Fs.v
FsBlock.v
FsInode.v
FsFile.v
Mkfs.v
MkfsSpec.v
MkfsImage.v
FsWrite.v
FsPath.v
FsCrash.v
Grep.v
Umalloc.v
File.v
SysFile.v
FileSpec.v
FdSpec.v
FdSafe.v
