(* ===== verification/Prelude.v ===== *)
(** * A verification of an xv6 kernel with a system call audit

    The program is a teaching operating system for RISC-V: the kernel under
    src/kernel, the program that builds its disk image under src/mkfs, and
    user programs under src/user.  This library translates its C and assembly
    into Rocq functions and proves what they are for.  Statements and
    definitions are about the source as it is, its mistakes included.

    ** How code is modelled

    A function of the kernel is a computation [K S A] of this file: from a
    state of type [S] to an [outcome], which is a result, a call of panic, a
    sleep, an access outside of an object, or a loop whose bound was too
    small.  [runs m s Q] says that [m] returns in a state that satisfies [Q];
    it excludes every other outcome, so each theorem stated with it includes
    termination.  A function of one component runs in the state of another by
    [zoom].  Integers are [Z] kept in the range of their C type by [u8] to
    [u64] and [s16], [s32]; memory is bytes (Mem).  A loop is [iter] with a
    bound that is computed from the state (the number of buffers, of table
    entries, of bytes left) or a parameter that a theorem shows to be enough;
    no statement assumes that a bound suffices.

    Code runs under the locks of the source.  Where only one process can act
    at a time a lock is a flag that must be free to be taken, and a function
    that sleeps is cut at its sleeps into segments, each one computation.
    Where the interleaving is the point (the spin lock, sleep and wakeup, the
    disk driver with the device) the atomic steps are a relation, and the
    theorems quantify over all its sequences.

    ** The parts, from the hardware up

    - Machine: the hart, riscv.h, traps and Sv39 translation.  Asm: each
      instruction of trampoline.S, swtch.S, kernelvec.S and entry.S.  AsmSpec,
      KernelVec: what these routines do to the registers and to memory.
      Boot: start.c.
    - Mem, CString, Riscv: memory, string.c, the constants and macros of
      riscv.h, memlayout.h and param.h.
    - Spinlock: spinlock.c, sleeplock.c.  Kalloc: kalloc.c.  Vm: vm.c, with
      its proofs in VmSpec, VmCopy, VmUser, VmFree (freewalk) and VmSpace (a
      user address space as a list of pages, its life from proc_pagetable to
      proc_freepagetable).  Space: what the tables of vm.c mean to the
      hardware of Machine.
    - Proc: proc.c and sysproc.c, over Vm and the interface [FileOps]; proofs
      in ProcSpec, ProcTree and ProcSleep.  Exec: exec.c and sys_exec, over
      Proc, Vm and the interface [ExecFs] of the file system; proofs in
      ExecSpec (the segments of the program) and ExecStack (the stack and the
      arguments).  Trap: trap.c, plic.c and forkret,
      which join Machine and Proc; proofs in TrapSpec and KTrap.
    - Syscall: the dispatcher of syscall.c, audit_source.c and the audit calls;
      proofs in SyscallSpec.
    - DList: list.c.  Ring: the technique of the ring buffers, used by Pipe
      (pipe.c) and Console (uart.c, console.c; proofs in ConsoleSpec).
    - Virtio: virtio_disk.c; VirtioSpec is the driver together with the device,
      VirtioInv its invariant, VirtioSafe the theorems.
    - BlockCache is the interface of the buffer cache, which Bio (bio.c)
      implements (BioSpec).  Log (log.c) is written over the interface and
      proved in LogSpec and LogTxn.  TxnStore is the interface of a
      transaction, which log.c over bio.c implements (LogStore).  Fs (fs.c) is
      written over TxnStore; proofs in FsBlock, FsInode, FsFile, FsWrite,
      FsPath, and FsCrash for the whole stack.  Mkfs: mkfs.c, with MkfsSpec and
      MkfsImage.
    - File (file.c, file_helper.c, pipealloc) and SysFile (sysfile.c) are over
      Fs; FileSpec, FdSpec and FdSafe are about descriptors.
    - Ulib, Printf, Umalloc, Grep and Sh: ulib.c, the two printf.c, umalloc.c,
      grep.c and sh.c (ShSpec, ShParse, ShRun).

    ** What is proved

    Crash safety: a commit, a transaction of log_write, any computation of the
    file system and a writei in particular happen as a whole or not at all,
    whichever disk write the crash comes after and however often recovery is
    interrupted (LogTxn, FsCrash); a crash during recovery is a crash after
    some of the writes that the model of initlog itself performs ([crashes]).  Files: writei and readi round-trip, balloc
    and the image of mkfs are exact, and the kernel reads the image
    (FsWrite, FsBlock, MkfsImage).  The disk: each request is performed once
    and completes (VirtioSafe).  Memory: pages are never shared, mappings and
    copies are exact (Kalloc, VmSpec, VmUser, VmCopy), the heap of user
    programs is sound for requests of at most 2^31 - 32 bytes and not beyond
    (Umalloc).  Processes: on one hart, while the process counter does not
    overflow, the processes form a tree under init with at most one of them
    running, no wake-up is lost, the scheduler passes over no ready
    process (ProcTree, ProcSleep, ProcSpec).  Traps: interrupts are invisible
    to user and kernel code, system calls return to the next instruction with
    the registers of the trapframe, other traps kill, new processes start as
    their creator said, the timer keeps ticking, swtch resumes what it left
    (TrapSpec, KTrap, Boot, AsmSpec).  Descriptors: every reference count is
    the number of descriptors, and the calls on them give and take the
    descriptors that they promise (FdSafe).
    Devices: pipes and the console deliver bytes in order (Pipe, ConsoleSpec).
    Programs: the shell parses its grammar and connects its commands, grep
    selects the matching lines, printf prints what the format says (ShRun,
    Grep, Printf).  The audit: which calls a mask selects (SyscallSpec).

    ** Assumptions

    What is not source is an argument: the symbols of the linker, the answers
    of devices, the pieces in which read returns a file, and the memory that
    sbrk grants.  The virtio device behaves as its specification says.  The
    hart has no TLB, superpages, or accessed and dirty bits.  In Trap, what the
    device handlers and the other processes must leave alone is stated as a
    hypothesis on the interface [TrapOps] and on the computation [away].

    ** Not modelled

    - main.c, which only calls the initialisation functions in order, and
      ramdisk.c, which is not built.
    - procdump and the debugging output of syscall.c.
    - initcode.S and usys.S, which load a call number and trap.
    - The small programs cat, echo, init, kill, ln, ls, mkdir, rm, wc, zombie
      and audit, and the test programs (usertests, grind, forktest, stressfs and
      others), which are tests of the system and not part of it. *)

From stdpp Require Export base gmap strings list fin_maps.
From Stdlib Require Export ZArith Lia.

#[export] Set Default Goal Selector "!".

(** ** Machine integers

    A C integer is a [Z] kept in the range of its type; the functions below
    are the conversions the source performs on assignment. *)

Definition u8 (x : Z) : Z := x mod 2 ^ 8.
Definition u16 (x : Z) : Z := x mod 2 ^ 16.
Definition u32 (x : Z) : Z := x mod 2 ^ 32.
Definition u64 (x : Z) : Z := x mod 2 ^ 64.
Definition s16 (x : Z) : Z := (x + 2 ^ 15) mod 2 ^ 16 - 2 ^ 15.
Definition s32 (x : Z) : Z := (x + 2 ^ 31) mod 2 ^ 32 - 2 ^ 31.

(** ** Outcomes of kernel code

    [Ok a s]: the function returned [a] in state [s].  [Panic msg]: it called
    [panic(msg)], which never returns.  [Blocked chan s]: it put the process
    to sleep on [chan].  [UB what]: it performed an access that is outside
    the object it names.  [NoFuel]: the bound given to a loop was too small. *)

Inductive outcome (S A : Type) : Type :=
| Ok (a : A) (s : S)
| Panic (msg : string)
| Blocked (chan : Z) (s : S)
| UB (what : string)
| NoFuel.
Arguments Ok {S A} _ _.
Arguments Panic {S A} _.
Arguments Blocked {S A} _ _.
Arguments UB {S A} _.
Arguments NoFuel {S A}.

(** The kernel monad over a component's state. *)
Definition K (S A : Type) : Type := S → outcome S A.

Section Monad.
Context {S : Type}.

Definition ret {A} (a : A) : K S A := λ s, Ok a s.

Definition bind {A B} (m : K S A) (f : A → K S B) : K S B := λ s,
  match m s with
  | Ok a s' => f a s'
  | Panic msg => Panic msg
  | Blocked c s' => Blocked c s'
  | UB w => UB w
  | NoFuel => NoFuel
  end.

Definition get : K S S := λ s, Ok s s.
Definition gets {A} (f : S → A) : K S A := λ s, Ok (f s) s.
Definition modify (f : S → S) : K S unit := λ s, Ok tt (f s).
Definition panic {A} (msg : string) : K S A := λ _, Panic msg.
Definition ub {A} (w : string) : K S A := λ _, UB w.
Definition sleep_on {A} (c : Z) : K S A := λ s, Blocked c s.

(** C loops: the body either continues with a new value of the loop
    variables ([inl]) or leaves the loop with a result ([inr]). *)
Fixpoint iter {A B} (fuel : nat) (body : A → K S (A + B)) (a : A) : K S B :=
  match fuel with
  | O => λ _, NoFuel
  | Datatypes.S fuel' =>
      bind (body a) (λ r, match r with inl a' => iter fuel' body a' | inr b => ret b end)
  end.

(** [runs m s Q]: [m] started in [s] returns, with a value and a state that
    satisfy [Q] (total correctness: no panic, no undefined behaviour, no
    missing fuel). *)
Definition runs {A} (m : K S A) (s : S) (Q : A → S → Prop) : Prop :=
  match m s with Ok a s' => Q a s' | _ => False end.

Lemma runs_ret {A} (a : A) s (Q : A → S → Prop) : Q a s → runs (ret a) s Q.
Proof. done. Qed.

Lemma runs_bind {A B} (m : K S A) (f : A → K S B) s Q :
  runs m s (λ a s', runs (f a) s' Q) → runs (bind m f) s Q.
Proof. unfold runs, bind. by destruct (m s). Qed.

Lemma runs_get s (Q : S → S → Prop) : Q s s → runs get s Q.
Proof. done. Qed.
Lemma runs_gets {A} (f : S → A) s (Q : A → S → Prop) : Q (f s) s → runs (gets f) s Q.
Proof. done. Qed.
Lemma runs_modify f s (Q : unit → S → Prop) : Q tt (f s) → runs (modify f) s Q.
Proof. done. Qed.

Lemma runs_bind_inv {A B} (m : K S A) (f : A → K S B) s Q :
  runs (bind m f) s Q → runs m s (λ a s', runs (f a) s' Q).
Proof. unfold runs, bind. by destruct (m s). Qed.

Lemma runs_mono {A} (m : K S A) s (P Q : A → S → Prop) :
  runs m s P → (∀ a s', P a s' → Q a s') → runs m s Q.
Proof. unfold runs. destruct (m s); naive_solver. Qed.

Lemma runs_Ok {A} (m : K S A) s a s' (Q : A → S → Prop) :
  m s = Ok a s' → Q a s' → runs m s Q.
Proof. unfold runs. by intros ->. Qed.

Lemma runs_elim {A} (m : K S A) s (Q : A → S → Prop) :
  runs m s Q → ∃ a s', m s = Ok a s' ∧ Q a s'.
Proof. unfold runs. destruct (m s); naive_solver. Qed.

Lemma bind_Ok {A B} (m : K S A) (f : A → K S B) s a s' :
  m s = Ok a s' → bind m f s = f a s'.
Proof. unfold bind. by intros ->. Qed.

Lemma bind_Ok_inv {A B} (m : K S A) (f : A → K S B) s b s'' :
  bind m f s = Ok b s'' → ∃ a s', m s = Ok a s' ∧ f a s' = Ok b s''.
Proof. unfold bind. destruct (m s); naive_solver. Qed.

(** The loop rule: an invariant indexed by a measure bounded by the fuel. *)
Lemma runs_iter {A B} (body : A → K S (A + B)) (I : nat → A → S → Prop)
    (Q : B → S → Prop) :
  (∀ n a s, I n a s →
     runs (body a) s (λ r s',
       match r with
       | inl a' => ∃ n', (n' < n)%nat ∧ I n' a' s'
       | inr b => Q b s'
       end)) →
  ∀ n fuel a s, I n a s → (n < fuel)%nat → runs (iter fuel body a) s Q.
Proof.
  intros Hbody n fuel. revert n.
  induction fuel as [|fuel IH]; intros n a s HI Hlt; [lia|].
  simpl. apply runs_bind. eapply runs_mono; [by apply Hbody|].
  intros [a'|b] s' H; simpl in *; [|done].
  destruct H as (n' & ? & ?). eapply IH; [done|lia].
Qed.
End Monad.

(** [okays m s Q]: if [m] started in [s] returns, [Q] holds of the result
    (partial correctness). *)

Definition okays {S A} (m : K S A) (s : S) (Q : A → S → Prop) : Prop :=
  match m s with Ok a s' => Q a s' | _ => True end.

Section Okays.
Context {S : Type}.
Lemma okays_ret {A} (a : A) (s : S) (Q : A → S → Prop) : Q a s → okays (ret a) s Q.
Proof. done. Qed.
Lemma okays_gets {A} (f : S → A) (s : S) (Q : A → S → Prop) : Q (f s) s → okays (gets f) s Q.
Proof. done. Qed.
Lemma okays_modify f (s : S) (Q : unit → S → Prop) : Q tt (f s) → okays (modify f) s Q.
Proof. done. Qed.
Lemma okays_panic {A} msg (s : S) (Q : A → S → Prop) : okays (panic msg) s Q.
Proof. done. Qed.
Lemma okays_bind {A B} (m : K S A) (f : A → K S B) s Q :
  okays m s (λ a s', okays (f a) s' Q) → okays (bind m f) s Q.
Proof. unfold okays, bind. by destruct (m s). Qed.
Lemma okays_mono {A} (m : K S A) s (P Q : A → S → Prop) :
  okays m s P → (∀ a s', P a s' → Q a s') → okays m s Q.
Proof. unfold okays. destruct (m s); naive_solver. Qed.
Lemma okays_iter {A B} fuel (body : A → K S (A + B)) (I : A → S → Prop) a s (Q : B → S → Prop) :
  (∀ a s, I a s → okays (body a) s (λ r s', match r with inl a' => I a' s' | inr b => Q b s' end)) →
  I a s → okays (iter fuel body a) s Q.
Proof.
  intros Hb. revert a s. induction fuel as [|fuel IH]; intros a s HI; [done|]. simpl. apply okays_bind.
  eapply okays_mono; [by apply Hb|]. intros [a'|b] s' H; [by apply IH|done].
Qed.
Lemma okays_Ok {A} (m : K S A) s a s' (Q : A → S → Prop) : okays m s Q → m s = Ok a s' → Q a s'.
Proof. unfold okays. intros H E. by rewrite E in H. Qed.
Lemma runs_okays_and {A} (m : K S A) s (R Q : A → S → Prop) : runs m s (λ a s', R a s' → Q a s') → okays m s R → runs m s Q.
Proof. unfold runs, okays. destruct (m s); naive_solver. Qed.
Lemma runs_okays {A} (m : K S A) s (Q : A → S → Prop) : runs m s Q → okays m s Q.
Proof. unfold runs, okays. by destruct (m s). Qed.
End Okays.

(** A computation on a component of a larger state. *)
Definition zoom {S T A} (get : S → T) (set : T → S → S) (m : K T A) : K S A := λ s,
  match m (get s) with
  | Ok a t => Ok a (set t s)
  | Panic msg => Panic msg
  | Blocked c t => Blocked c (set t s)
  | UB w => UB w
  | NoFuel => NoFuel
  end.

Lemma runs_zoom {S T A} (get : S → T) (set : T → S → S) (m : K T A) s Q :
  runs m (get s) (λ a t, Q a (set t s)) → runs (zoom get set m) s Q.
Proof. unfold runs, zoom. by destruct (m (get s)). Qed.

Declare Scope kernel_scope.
Delimit Scope kernel_scope with K.
Notation "x <- c ;;; k" := (bind c (λ x, k))
  (at level 100, c at next level, right associativity) : kernel_scope.
Notation "'let*' pat := c 'in' k" := (bind c (λ x, match x with pat => k end))
  (at level 10, pat pattern, c at level 200, k at level 200) : kernel_scope.
Notation "c1 ;;; c2" := (bind c1 (λ _, c2))
  (at level 100, right associativity) : kernel_scope.

Create HintDb kernel.
#[export] Hint Resolve runs_ret runs_get runs_gets runs_modify : kernel.

(** Runs the leading primitive operations of a monadic program. *)
Ltac kred :=
  repeat (cbv beta;
    match goal with
    | |- runs (bind _ _) _ _ => apply runs_bind
    | |- runs (ret _) _ _ => apply runs_ret
    | |- runs get _ _ => apply runs_get
    | |- runs (gets _) _ _ => apply runs_gets
    | |- runs (modify _) _ _ => apply runs_modify
    end).

(** ** Integer facts shared by the components *)

Open Scope Z_scope.

(** The length of a list as an integer. *)
Abbreviation zlen l := (Z.of_nat (length l)).

Ltac zdm := Z.div_mod_to_equations; lia.

(** Case analysis on the boolean tests of the modelled code. *)
Ltac bcase :=
  match goal with
  | |- context [Z.eqb ?a ?b] => destruct (Z.eqb_spec a b)
  | |- context [Z.ltb ?a ?b] => destruct (Z.ltb_spec a b)
  | |- context [Z.leb ?a ?b] => destruct (Z.leb_spec a b)
  | |- context [Z.gtb ?a ?b] => rewrite (Z.gtb_ltb a b)
  | |- context [Z.geb ?a ?b] => rewrite (Z.geb_leb a b)
  end.
Ltac bcase_in H :=
  match type of H with
  | context [Z.eqb ?a ?b] => destruct (Z.eqb_spec a b)
  | context [Z.ltb ?a ?b] => destruct (Z.ltb_spec a b)
  | context [Z.leb ?a ?b] => destruct (Z.leb_spec a b)
  end.

Lemma u64_small x : 0 <= x < 2 ^ 64 → u64 x = x.
Proof. apply Z.mod_small. Qed.
Lemma u32_small x : 0 <= x < 2 ^ 32 → u32 x = x.
Proof. apply Z.mod_small. Qed.
Lemma u64_range x : 0 <= u64 x < 2 ^ 64.
Proof. by apply Z.mod_pos_bound. Qed.
Lemma u32_range x : 0 <= u32 x < 2 ^ 32.
Proof. by apply Z.mod_pos_bound. Qed.
Lemma u8_range x : 0 <= u8 x < 256.
Proof. by apply Z.mod_pos_bound. Qed.
Lemma u8_small x : 0 <= x < 256 → u8 x = x.
Proof. apply Z.mod_small. Qed.
Lemma s32_small x : - 2 ^ 31 <= x < 2 ^ 31 → s32 x = x.
Proof. intros. unfold s32. rewrite Z.mod_small; lia. Qed.
Lemma s32_range x : - 2 ^ 31 <= s32 x < 2 ^ 31.
Proof.
  unfold s32. pose proof (Z.mod_pos_bound (x + 2 ^ 31) (2 ^ 32)). lia.
Qed.

Lemma s16_small x : - 2 ^ 15 <= x < 2 ^ 15 → s16 x = x.
Proof. intros. unfold s16. rewrite Z.mod_small; lia. Qed.
Lemma s16_range x : - 2 ^ 15 <= s16 x < 2 ^ 15.
Proof. unfold s16. pose proof (Z.mod_pos_bound (x + 2 ^ 15) (2 ^ 16)). lia. Qed.
Lemma s16_u16 x : s16 (u16 x) = s16 x.
Proof. unfold s16, u16. by rewrite Zplus_mod_idemp_l. Qed.

(** Storing an [int] and loading it again. *)
Lemma s32_u32 x : s32 (u32 x) = s32 x.
Proof. unfold s32, u32. by rewrite Zplus_mod_idemp_l. Qed.

#[export] Hint Resolve u64_range u32_range u8_range s32_range : kernel.

(** A position of an updated list is the updated one or an old one. *)
Lemma list_insert_cases {A} (l : list A) i x j y :
  <[i := x]> l !! j = Some y → (j = i ∧ y = x) ∨ (j ≠ i ∧ l !! j = Some y).
Proof. intros [(-> & <- & _)|[? ?]]%list_lookup_insert_Some; [by left|right; by split]. Qed.

Lemma size_list_le (l : list Z) : (size (list_to_set l : gset Z) <= length l)%nat.
Proof.
  induction l as [|x l IH]; [done|]. rewrite list_to_set_cons, size_union_alt, size_singleton. simpl.
  apply le_n_S. etrans; [|exact IH]. apply subseteq_size. set_solver.
Qed.
