(* ===== verification/Mem.v ===== *)
(** Byte-addressed physical memory and little-endian accesses.

    The kernel runs with RAM mapped one to one, so a C pointer is the
    physical address it holds.  Memory is a finite map from addresses to
    cells; an address with no cell reads as 0, and a read returns the cell
    as an unsigned byte.  A [uint64] access is eight byte accesses, least
    significant first, as on RISC-V. *)

From S2P Require Import Prelude.

Abbreviation mem := (gmap Z Z).

Definition rd8 (m : mem) (a : Z) : Z := u8 (default 0 (m !! a)).
Definition wr8 (m : mem) (a v : Z) : mem := <[a := u8 v]> m.

Fixpoint rd_le (m : mem) (a : Z) (n : nat) : Z :=
  match n with
  | O => 0
  | S n' => rd8 m a + 256 * rd_le m (a + 1) n'
  end.

Fixpoint wr_le (m : mem) (a : Z) (n : nat) (v : Z) : mem :=
  match n with
  | O => m
  | S n' => wr_le (wr8 m a v) (a + 1) n' (v / 256)
  end.

Definition rd16 (m : mem) (a : Z) : Z := rd_le m a 2.
Definition wr16 (m : mem) (a v : Z) : mem := wr_le m a 2 v.
Definition rd32 (m : mem) (a : Z) : Z := rd_le m a 4.
Definition wr32 (m : mem) (a v : Z) : mem := wr_le m a 4 v.
Definition rd64 (m : mem) (a : Z) : Z := rd_le m a 8.
Definition wr64 (m : mem) (a v : Z) : mem := wr_le m a 8 v.

(** Two memories agree on the [n] bytes from [a]. *)
Definition agree (m m' : mem) (a n : Z) : Prop :=
  ∀ b, a <= b < a + n → rd8 m' b = rd8 m b.

(** Two memories agree outside the [n] bytes from [a]. *)
Definition agree_out (m m' : mem) (a n : Z) : Prop :=
  ∀ b, ¬ (a <= b < a + n) → rd8 m' b = rd8 m b.

(** Two memories agree outside [D]. *)
Definition agree_off (D : Z → Prop) (m m' : mem) : Prop := ∀ b, ¬ D b → rd8 m' b = rd8 m b.

Lemma rd8_range m a : 0 <= rd8 m a < 256.
Proof. apply u8_range. Qed.

Lemma rd8_wr8 m a v b : rd8 (wr8 m a v) b = if decide (a = b) then u8 v else rd8 m b.
Proof.
  unfold rd8, wr8. rewrite lookup_insert. case_decide; simpl; [|done].
  apply u8_small, u8_range.
Qed.

Lemma rd_le_ext m m' a n :
  (∀ b, a <= b < a + Z.of_nat n → rd8 m' b = rd8 m b) → rd_le m' a n = rd_le m a n.
Proof.
  revert a. induction n as [|n IH]; intros a H; [done|].
  cbn [rd_le]. rewrite IH; [rewrite H; [done|lia]|]. intros b ?. apply H. lia.
Qed.

Lemma rd_le_range m a n : 0 <= rd_le m a n < 256 ^ Z.of_nat n.
Proof.
  revert a. induction n as [|n IH]; intros a; cbn [rd_le]; [lia|].
  rewrite Nat2Z.inj_succ, Z.pow_succ_r by lia.
  pose proof (IH (a + 1)). pose proof (rd8_range m a). lia.
Qed.

Lemma rd8_wr_le m a n v b :
  rd8 (wr_le m a n v) b =
    if decide (a <= b < a + Z.of_nat n) then u8 (v / 256 ^ (b - a)) else rd8 m b.
Proof.
  revert m a v. induction n as [|n IH]; intros m a v.
  { cbn [wr_le]. rewrite decide_False by lia. done. }
  cbn [wr_le]. rewrite IH, rd8_wr8.
  destruct (decide (a = b)) as [->|Hne].
  - rewrite decide_False by lia. rewrite decide_True by lia.
    by rewrite Z.sub_diag, Z.pow_0_r, Z.div_1_r.
  - destruct (decide (a <= b < a + Z.of_nat (S n))) as [Hin|Hout].
    + rewrite decide_True by lia.
      rewrite Z.div_div by lia. rewrite <- Z.pow_succ_r by lia. do 3 f_equal. lia.
    + by rewrite decide_False by lia.
Qed.

Lemma rd_le_wr_le_same m a n v : rd_le (wr_le m a n v) a n = v mod 256 ^ Z.of_nat n.
Proof.
  revert m a v. induction n as [|n IH]; intros m a v.
  { cbn. by rewrite Z.mod_1_r. }
  cbn [wr_le rd_le]. rewrite IH, rd8_wr_le, decide_False, rd8_wr8, decide_True by (done || lia).
  rewrite Nat2Z.inj_succ, Z.pow_succ_r, Z.rem_mul_r by lia. done.
Qed.

Lemma rd_le_wr_le_ne m a n v b k :
  b + Z.of_nat k <= a ∨ a + Z.of_nat n <= b → rd_le (wr_le m a n v) b k = rd_le m b k.
Proof.
  intros H. apply rd_le_ext. intros c ?. rewrite rd8_wr_le, decide_False by lia. done.
Qed.

Lemma rd64_range m a : 0 <= rd64 m a < 2 ^ 64.
Proof. apply rd_le_range. Qed.

Lemma rd64_empty a : rd64 ∅ a = 0.
Proof. unfold rd64. generalize 8%nat. intros n. revert a. by induction n; intros; simpl; rewrite ?IHn. Qed.

Lemma rd64_wr64_same m a v : rd64 (wr64 m a v) a = u64 v.
Proof. apply (rd_le_wr_le_same m a 8). Qed.

Lemma rd64_wr64_ne m a v b : b + 8 <= a ∨ a + 8 <= b → rd64 (wr64 m a v) b = rd64 m b.
Proof. intros. apply rd_le_wr_le_ne. lia. Qed.

Lemma rd16_wr16_same m a v : rd16 (wr16 m a v) a = u16 v.
Proof. apply (rd_le_wr_le_same m a 2). Qed.
Lemma rd16_wr16_ne m a v b : b + 2 <= a ∨ a + 2 <= b → rd16 (wr16 m a v) b = rd16 m b.
Proof. intros. apply rd_le_wr_le_ne. lia. Qed.
Lemma rd16_wr32_ne m a v b : b + 2 <= a ∨ a + 4 <= b → rd16 (wr32 m a v) b = rd16 m b.
Proof. intros. apply rd_le_wr_le_ne. lia. Qed.
Lemma rd32_wr16_ne m a v b : b + 4 <= a ∨ a + 2 <= b → rd32 (wr16 m a v) b = rd32 m b.
Proof. intros. apply rd_le_wr_le_ne. lia. Qed.
Lemma rd32_range m a : 0 <= rd32 m a < 2 ^ 32.
Proof. apply (rd_le_range m a 4). Qed.
Lemma rd16_range m a : 0 <= rd16 m a < 2 ^ 16.
Proof. apply (rd_le_range m a 2). Qed.

Lemma rd32_empty a : rd32 ∅ a = 0.
Proof. done. Qed.
Lemma rd32_wr32_same m a v : rd32 (wr32 m a v) a = u32 v.
Proof. apply (rd_le_wr_le_same m a 4). Qed.
Lemma rd32_wr32_ne m a v b : b + 4 <= a ∨ a + 4 <= b → rd32 (wr32 m a v) b = rd32 m b.
Proof. intros. apply rd_le_wr_le_ne. lia. Qed.

Lemma rd64_ext m m' a : agree m m' a 8 → rd64 m' a = rd64 m a.
Proof. intros H. apply rd_le_ext. intros b ?. apply H. lia. Qed.

Lemma wr64_agree_out m a v : agree_out m (wr64 m a v) a 8.
Proof. intros b ?. unfold wr64. by rewrite rd8_wr_le, decide_False by lia. Qed.

Lemma agree_refl m a n : agree m m a n.
Proof. by intros b _. Qed.
Lemma agree_out_refl m a n : agree_out m m a n.
Proof. by intros b _. Qed.
Lemma agree_trans m1 m2 m3 a n : agree m1 m2 a n → agree m2 m3 a n → agree m1 m3 a n.
Proof. intros H1 H2 b ?. rewrite H2 by done. by apply H1. Qed.
Lemma agree_off_refl {D} m : agree_off D m m. Proof. done. Qed.
Lemma agree_off_trans {D} m1 m2 m3 : agree_off D m1 m2 → agree_off D m2 m3 → agree_off D m1 m3.
Proof. intros H1 H2 b Hb. rewrite H2 by done. by apply H1. Qed.
Lemma agree_off_weaken (D D' : Z → Prop) m m' : (∀ b, D b → D' b) → agree_off D m m' → agree_off D' m m'.
Proof. intros HD H b Hb. apply H. by intros ?%HD. Qed.
Lemma agree_out_agree m m' a n b k :
  agree_out m m' a n → b + k <= a ∨ a + n <= b → agree m m' b k.
Proof. intros H ? c ?. apply H. lia. Qed.
Lemma agree_sub m m' a n b k : agree m m' a n → a <= b → b + k <= a + n → agree m m' b k.
Proof. intros H ?? c ?. apply H. lia. Qed.
Lemma agree_out_sub m m' a n b k : agree_out m m' b k → a <= b → b + k <= a + n → agree_out m m' a n.
Proof. intros H ?? c ?. apply H. lia. Qed.

#[export] Hint Resolve agree_refl agree_out_refl rd64_range rd8_range : kernel.

#[global] Arguments rd_le : simpl never.
#[global] Arguments wr_le : simpl never.

(** The bytes [l] stored from [a]. *)
Fixpoint wr_bytes (m : mem) (a : Z) (l : list Z) : mem :=
  match l with
  | [] => m
  | c :: l' => wr_bytes (wr8 m a c) (a + 1) l'
  end.

Lemma rd8_wr_bytes m a l b :
  rd8 (wr_bytes m a l) b =
    if decide (a <= b < a + zlen l) then u8 (default 0 (l !! Z.to_nat (b - a))) else rd8 m b.
Proof.
  revert m a. induction l as [|c l IH]; intros m a; cbn [wr_bytes length].
  { by rewrite decide_False by lia. }
  rewrite IH, rd8_wr8. destruct (decide (a = b)) as [->|Hne].
  - rewrite decide_False, decide_True by lia. by rewrite Z.sub_diag.
  - destruct (decide (a + 1 <= b < a + 1 + zlen l)).
    + rewrite decide_True by lia. do 2 f_equal.
      replace (Z.to_nat (b - a)) with (S (Z.to_nat (b - (a + 1)))) by lia. done.
    + by rewrite decide_False by lia.
Qed.
