(* ===== verification/CString.v ===== *)
(** kernel/string.c: the kernel's own memory and string routines.

    Every routine is a function from memory to memory (and its result).  The
    loops run on the byte count converted to [nat]; [strlen], whose loop has
    no count, takes a bound on the length it scans. *)

From S2P Require Import Prelude Mem.

Fixpoint memset_loop (m : mem) (cdst c i : Z) (n : nat) : mem :=
  match n with
  | O => m
  | S n' => memset_loop (wr8 m (cdst + i) c) cdst c (i + 1) n'
  end.
Definition memset (m : mem) (dst c n : Z) : mem :=
  memset_loop m dst c 0 (Z.to_nat n).

Fixpoint memcmp_loop (m : mem) (s1 s2 : Z) (n : nat) : Z :=
  match n with
  | O => 0
  | S n' =>
      if negb (rd8 m s1 =? rd8 m s2) then rd8 m s1 - rd8 m s2
      else memcmp_loop m (s1 + 1) (s2 + 1) n'
  end.
Definition memcmp (m : mem) (v1 v2 n : Z) : Z := memcmp_loop m v1 v2 (Z.to_nat n).

Fixpoint move_backward (m : mem) (d s : Z) (n : nat) : mem :=
  match n with
  | O => m
  | S n' => move_backward (wr8 m (d - 1) (rd8 m (s - 1))) (d - 1) (s - 1) n'
  end.
Fixpoint move_forward (m : mem) (d s : Z) (n : nat) : mem :=
  match n with
  | O => m
  | S n' => move_forward (wr8 m d (rd8 m s)) (d + 1) (s + 1) n'
  end.
Definition memmove (m : mem) (dst src n : Z) : mem :=
  if n =? 0 then m
  else if (src <? dst) && (src + n >? dst) then
    move_backward m (dst + n) (src + n) (Z.to_nat n)
  else move_forward m dst src (Z.to_nat n).

Definition memcpy (m : mem) (dst src n : Z) : mem := memmove m dst src n.

Fixpoint strncmp_loop (m : mem) (p q : Z) (n : nat) : Z :=
  match n with
  | O => 0
  | S n' =>
      if negb (rd8 m p =? 0) && (rd8 m p =? rd8 m q)
      then strncmp_loop m (p + 1) (q + 1) n'
      else rd8 m p - rd8 m q
  end.
Definition strncmp (m : mem) (p q n : Z) : Z := strncmp_loop m p q (Z.to_nat n).

Fixpoint strncpy_pad (m : mem) (s : Z) (n : nat) : mem :=
  match n with
  | O => m
  | S n' => strncpy_pad (wr8 m s 0) (s + 1) n'
  end.
Fixpoint strncpy_loop (m : mem) (s t : Z) (n : nat) : mem :=
  match n with
  | O => m
  | S n' =>
      let c := rd8 m t in
      if negb (c =? 0) then strncpy_loop (wr8 m s c) (s + 1) (t + 1) n'
      else strncpy_pad (wr8 m s c) (s + 1) n'
  end.
Definition strncpy (m : mem) (s t n : Z) : mem := strncpy_loop m s t (Z.to_nat n).

Fixpoint safestrcpy_loop (m : mem) (s t : Z) (n : nat) : mem :=
  match n with
  | O => wr8 m s 0
  | S n' =>
      let c := rd8 m t in
      if negb (c =? 0) then safestrcpy_loop (wr8 m s c) (s + 1) (t + 1) n'
      else wr8 (wr8 m s c) (s + 1) 0
  end.
Definition safestrcpy (m : mem) (s t n : Z) : mem :=
  if n <=? 0 then m else safestrcpy_loop m s t (Z.to_nat (n - 1)).

Fixpoint strlen_loop (fuel : nat) (m : mem) (s n : Z) : option Z :=
  match fuel with
  | O => None
  | S fuel' => if negb (rd8 m (s + n) =? 0) then strlen_loop fuel' m s (n + 1) else Some n
  end.
Definition strlen (fuel : nat) (m : mem) (s : Z) : option Z := strlen_loop fuel m s 0.

(** ** Specification vocabulary *)

(** The [n] bytes stored from [a]. *)
Fixpoint rd_bytes (m : mem) (a : Z) (n : nat) : list Z :=
  match n with
  | O => []
  | S n' => rd8 m a :: rd_bytes m (a + 1) n'
  end.

(** A NUL-terminated string with the characters [l] starts at [a]. *)
Fixpoint cstr (m : mem) (a : Z) (l : list Z) : Prop :=
  match l with
  | [] => rd8 m a = 0
  | c :: l' => rd8 m a = c ∧ c ≠ 0 ∧ cstr m (a + 1) l'
  end.

(** ** Correctness *)

Lemma rd8_memset_loop m d c i n a :
  rd8 (memset_loop m d c i n) a =
    if decide (d + i <= a < d + i + Z.of_nat n) then u8 c else rd8 m a.
Proof.
  revert m i. induction n as [|n IH]; intros m i; cbn [memset_loop].
  { by rewrite decide_False by lia. }
  rewrite IH, rd8_wr8. repeat case_decide; done || lia.
Qed.

Lemma rd8_memset m d c n a :
  rd8 (memset m d c n) a = if decide (d <= a < d + n) then u8 c else rd8 m a.
Proof.
  unfold memset. rewrite rd8_memset_loop. repeat case_decide; done || lia.
Qed.

Lemma memset_agree_out m d c n : agree_out m (memset m d c n) d n.
Proof. intros b ?. by rewrite rd8_memset, decide_False. Qed.

Lemma rd_le_zero m a n :
  (∀ b, a <= b < a + Z.of_nat n → rd8 m b = 0) → rd_le m a n = 0.
Proof.
  intros H. transitivity (rd_le (∅ : mem) a n).
  { apply rd_le_ext. intros b ?. by rewrite H. }
  clear H. revert a. induction n as [|n IH]; intros a; [done|].
  unfold rd_le; fold rd_le. by rewrite IH.
Qed.

Lemma rd64_memset_0 m d n a : d <= a → a + 8 <= d + n → rd64 (memset m d 0 n) a = 0.
Proof. intros. apply rd_le_zero. intros b ?. by rewrite rd8_memset, decide_True by lia. Qed.

Lemma rd8_move_backward m d s n a :
  (s <= d)%Z →
  rd8 (move_backward m d s n) a =
    if decide (d - Z.of_nat n <= a < d) then rd8 m (a - d + s) else rd8 m a.
Proof.
  revert m d s. induction n as [|n IH]; intros m d s Hlt; cbn [move_backward].
  { by rewrite decide_False by lia. }
  rewrite IH by lia. rewrite !rd8_wr8.
  repeat case_decide; try lia; try done.
  - f_equal. lia.
  - subst a. rewrite u8_small by apply rd8_range. f_equal. lia.
Qed.

Lemma rd8_move_forward m d s n a :
  (d <= s ∨ s + Z.of_nat n <= d)%Z →
  rd8 (move_forward m d s n) a =
    if decide (d <= a < d + Z.of_nat n) then rd8 m (a - d + s) else rd8 m a.
Proof.
  revert m d s. induction n as [|n IH]; intros m d s Hle; cbn [move_forward].
  { by rewrite decide_False by lia. }
  rewrite IH by lia. rewrite !rd8_wr8.
  repeat case_decide; try lia; try done.
  - f_equal. lia.
  - subst a. rewrite u8_small by apply rd8_range. f_equal. lia.
Qed.

Lemma rd8_memmove m dst src n a :
  0 <= n →
  rd8 (memmove m dst src n) a =
    if decide (dst <= a < dst + n) then rd8 m (src + (a - dst)) else rd8 m a.
Proof.
  intros Hn. unfold memmove. rewrite Z.gtb_ltb.
  destruct (Z.eqb_spec n 0) as [->|]; [by rewrite decide_False by lia|].
  destruct (Z.ltb_spec src dst), (Z.ltb_spec dst (src + n)); simpl;
    rewrite ?rd8_move_backward, ?rd8_move_forward by lia;
    repeat case_decide; try lia; try done; f_equal; lia.
Qed.

Lemma memmove_agree_out m d s n : 0 <= n → agree_out m (memmove m d s n) d n.
Proof. intros ? b ?. by rewrite rd8_memmove, decide_False. Qed.

Lemma lookup_rd_bytes m a n k : (k < n)%nat → rd_bytes m a n !! k = Some (rd8 m (a + Z.of_nat k)).
Proof.
  revert a k. induction n as [|n IH]; intros a [|k] Hk; simpl; try lia.
  - by rewrite Z.add_0_r.
  - rewrite IH by lia. do 2 f_equal. lia.
Qed.

Lemma rd_bytes_ext m m' a b n :
  (∀ i, 0 <= i < Z.of_nat n → rd8 m (a + i) = rd8 m' (b + i)) →
  rd_bytes m a n = rd_bytes m' b n.
Proof.
  revert a b. induction n as [|n IH]; intros a b H; [done|]. cbn [rd_bytes]. f_equal.
  - specialize (H 0). rewrite !Z.add_0_r in H. apply H. lia.
  - apply IH. intros i ?. rewrite <-!Z.add_assoc. apply H. lia.
Qed.

Lemma length_rd_bytes m a n : length (rd_bytes m a n) = n.
Proof. revert a. induction n as [|n IH]; intros a; simpl; [done|by rewrite IH]. Qed.

Lemma memcmp_loop_spec m a b n :
  memcmp_loop m a b n = 0 ↔ rd_bytes m a n = rd_bytes m b n.
Proof.
  revert a b. induction n as [|n IH]; intros a b; cbn [memcmp_loop rd_bytes]; [done|].
  destruct (Z.eqb_spec (rd8 m a) (rd8 m b)) as [E|E]; simpl.
  - rewrite IH, E. split; [by intros ->|by intros [=]].
  - split; [lia|]. intros [=]. done.
Qed.

Lemma cstr_app_inv m a l : cstr m a l → rd8 m (a + zlen l) = 0.
Proof.
  revert a. induction l as [|c l IH]; intros a; cbn [cstr length].
  - by rewrite Z.add_0_r.
  - intros (_ & _ & H). apply IH in H. rewrite <-H. f_equal. lia.
Qed.

Lemma strncmp_loop_spec m p q lp lq n :
  cstr m p lp → cstr m q lq →
  strncmp_loop m p q n = 0 ↔ take n lp = take n lq.
Proof.
  revert p q lp lq. induction n as [|n IH]; intros p q lp lq Hp Hq; [done|].
  cbn [strncmp_loop]. destruct lp as [|c lp], lq as [|d lq]; cbn [cstr] in *; cbn [take].
  - rewrite Hp, Hq. done.
  - destruct Hq as (Hq & Hd & _). rewrite Hp, Hq. simpl. split; [lia|done].
  - destruct Hp as (Hp & Hc & _). rewrite Hp, Hq.
    destruct (Z.eqb_spec c 0); simpl; [done|]. split; [lia|done].
  - destruct Hp as (Hp & Hc & Hp'), Hq as (Hq & Hd & Hq'). rewrite Hp, Hq.
    destruct (Z.eqb_spec c 0); [done|]. destruct (Z.eqb_spec c d) as [->|]; simpl.
    + rewrite IH by done. split; [by intros ->|by intros [=]].
    + split; [lia|]. intros [=]. done.
Qed.

Lemma cstr_ext m m' a l : cstr m a l → agree m m' a (zlen l + 1) → cstr m' a l.
Proof.
  revert a. induction l as [|c l IH]; intros a; cbn [cstr length]; intros H Hag.
  - rewrite <-H. apply Hag. lia.
  - destruct H as (H1 & H2 & H3). split_and!; [rewrite <-H1; apply Hag; lia|done|].
    apply IH; [done|]. eapply agree_sub; [done|lia|lia].
Qed.

Lemma rd8_strncpy_pad m s n a :
  rd8 (strncpy_pad m s n) a = if decide (s <= a < s + Z.of_nat n) then 0 else rd8 m a.
Proof.
  revert m s. induction n as [|n IH]; intros m s; cbn [strncpy_pad].
  { by rewrite decide_False by lia. }
  rewrite IH, rd8_wr8. repeat case_decide; done || lia.
Qed.

Lemma rd8_strncpy_loop m s t l n a :
  cstr m t l →
  s + Z.of_nat n <= t ∨ t + zlen l + 1 <= s →
  rd8 (strncpy_loop m s t n) a =
    if decide (s <= a < s + Z.of_nat n) then nth (Z.to_nat (a - s)) l 0 else rd8 m a.
Proof.
  revert m s t l. induction n as [|n IH]; intros m s t l Hl Hdis; cbn [strncpy_loop].
  { by rewrite decide_False by lia. }
  destruct l as [|c l]; cbn [cstr length] in *.
  - rewrite Hl. simpl. rewrite rd8_strncpy_pad, rd8_wr8.
    repeat case_decide; try lia; try done; by destruct (Z.to_nat (a - s)).
  - destruct Hl as (Hc & Hc0 & Hl). rewrite Hc.
    destruct (Z.eqb_spec c 0); [done|]. simpl negb. cbv iota.
    rewrite (IH _ _ _ l); [| |lia].
    + rewrite rd8_wr8. repeat case_decide; try lia; try done.
      * by replace (Z.to_nat (a - s)) with (S (Z.to_nat (a - (s + 1)))) by lia.
      * subst a. rewrite Z.sub_diag. simpl. rewrite <-Hc. apply u8_small, rd8_range.
    + eapply cstr_ext; [done|]. intros b ?. rewrite rd8_wr8. by rewrite decide_False by lia.
Qed.

Lemma safestrcpy_loop_spec m s t l n :
  cstr m t l →
  s + Z.of_nat n + 1 <= t ∨ t + zlen l + 1 <= s →
  cstr (safestrcpy_loop m s t n) s (take n l) ∧
  agree_out m (safestrcpy_loop m s t n) s (Z.of_nat n + 1).
Proof.
  revert m s t l. induction n as [|n IH]; intros m s t l Hl Hdis; cbn [safestrcpy_loop].
  { rewrite take_0. split; cbn [cstr]; [by rewrite rd8_wr8, decide_True|].
    intros b ?. by rewrite rd8_wr8, decide_False by lia. }
  destruct l as [|c l]; cbn [cstr length take] in *.
  - rewrite Hl. simpl. split; [by rewrite !rd8_wr8, decide_False, decide_True by lia|].
    intros b ?. by rewrite !rd8_wr8, !decide_False by lia.
  - destruct Hl as (Hc & Hc0 & Hl). rewrite Hc.
    destruct (Z.eqb_spec c 0); [done|]. simpl negb. cbv iota.
    destruct (IH (wr8 m s c) (s + 1) (t + 1) l) as [H1 H2]; [|lia|].
    { eapply cstr_ext; [done|]. intros b ?. by rewrite rd8_wr8, decide_False by lia. }
    split_and!; [|done|done|].
    + rewrite H2 by lia. rewrite rd8_wr8, decide_True by done. rewrite <-Hc.
      apply u8_small, rd8_range.
    + intros b ?. rewrite H2 by lia. by rewrite rd8_wr8, decide_False by lia.
Qed.

Lemma strlen_loop_spec m s n l fuel :
  cstr m (s + n) l → (length l < fuel)%nat → strlen_loop fuel m s n = Some (n + zlen l).
Proof.
  revert n l. induction fuel as [|fuel IH]; intros n l Hl Hf; [lia|]. cbn [strlen_loop].
  destruct l as [|c l]; cbn [cstr length] in *.
  - rewrite Hl. simpl. by rewrite Z.add_0_r.
  - destruct Hl as (Hc & Hc0 & Hl). rewrite Hc. destruct (Z.eqb_spec c 0); [done|]. simpl.
    rewrite (IH _ l); [f_equal; lia| |lia]. by rewrite Z.add_assoc.
Qed.

#[global] Arguments memset : simpl never.
#[global] Arguments memmove : simpl never.
#[global] Opaque memset memmove rd64 wr64.
#[export] Hint Resolve memset_agree_out memmove_agree_out : kernel.
