(* ===== verification/Riscv.v ===== *)
(** kernel/riscv.h, kernel/memlayout.h and kernel/param.h: the Sv39 page-table
    macros, the physical memory map and the kernel's size parameters.  The
    macros are evaluated on [uint64] operands, so their results are reduced to
    64 bits where the C expression can leave that range. *)

From S2P Require Import Prelude.

(** ** kernel/riscv.h *)

Definition PGSIZE : Z := 4096.
Definition PGSHIFT : Z := 12.
Definition PGROUNDUP (sz : Z) : Z := Z.land (u64 (sz + PGSIZE - 1)) (u64 (Z.lnot (PGSIZE - 1))).
Definition PGROUNDDOWN (a : Z) : Z := Z.land a (u64 (Z.lnot (PGSIZE - 1))).

Definition PTE_V : Z := Z.shiftl 1 0.
Definition PTE_R : Z := Z.shiftl 1 1.
Definition PTE_W : Z := Z.shiftl 1 2.
Definition PTE_X : Z := Z.shiftl 1 3.
Definition PTE_U : Z := Z.shiftl 1 4.

Definition PA2PTE (pa : Z) : Z := u64 (Z.shiftl (Z.shiftr pa 12) 10).
Definition PTE2PA (pte : Z) : Z := u64 (Z.shiftl (Z.shiftr pte 10) 12).
Definition PTE_FLAGS (pte : Z) : Z := Z.land pte 0x3FF.

Definition PXMASK : Z := 0x1FF.
Definition PXSHIFT (level : Z) : Z := PGSHIFT + 9 * level.
Definition PX (level va : Z) : Z := Z.land (Z.shiftr va (PXSHIFT level)) PXMASK.

Definition MAXVA : Z := Z.shiftl 1 (9 + 9 + 9 + 12 - 1).

(** ** kernel/memlayout.h *)

Definition UART0 : Z := 0x10000000.
Definition VIRTIO0 : Z := 0x10001000.
Definition PLIC : Z := 0x0c000000.
Definition KERNBASE : Z := 0x80000000.
Definition PHYSTOP : Z := KERNBASE + 128 * 1024 * 1024.
Definition TRAMPOLINE : Z := MAXVA - PGSIZE.
Definition KSTACK (p : Z) : Z := TRAMPOLINE - (p + 1) * 2 * PGSIZE.
Definition TRAPFRAME : Z := TRAMPOLINE - PGSIZE.

(** ** kernel/param.h *)

Definition NPROC : Z := 64.
Definition NCPU : Z := 8.
Definition NOFILE : Z := 16.
Definition NFILE : Z := 100.
Definition NINODE : Z := 50.
Definition NDEV : Z := 10.
Definition ROOTDEV : Z := 1.
Definition MAXARG : Z := 32.
Definition MAXOPBLOCKS : Z := 10.
Definition LOGSIZE : Z := MAXOPBLOCKS * 3.
Definition NBUF : Z := MAXOPBLOCKS * 3.
Definition FSSIZE : Z := 2000.
Definition MAXPATH : Z := 128.

(** ** The macros as arithmetic *)

Lemma land_page_mask x : 0 <= x < 2 ^ 64 → Z.land x (u64 (Z.lnot (PGSIZE - 1))) = x / 4096 * 4096.
Proof.
  intros Hx. change (u64 (Z.lnot (PGSIZE - 1))) with (Z.ldiff (Z.ones 64) (Z.ones 12)).
  transitivity (Z.shiftl (Z.shiftr x 12) 12).
  2: { rewrite Z.shiftl_mul_pow2, Z.shiftr_div_pow2 by lia. done. }
  apply Z.bits_inj'. intros n Hn.
  rewrite Z.land_spec, Z.ldiff_spec, Z.shiftl_spec by done.
  destruct (decide (n < 12)) as [?|?].
  - rewrite (Z.ones_spec_low 12) by lia. rewrite andb_false_r, andb_false_r.
    by rewrite Z.testbit_neg_r by lia.
  - rewrite (Z.ones_spec_high 12), Z.shiftr_spec by lia.
    replace (n - 12 + 12) with n by lia. simpl. rewrite andb_true_r.
    destruct (decide (n < 64)) as [?|?].
    + by rewrite Z.ones_spec_low, andb_true_r by lia.
    + rewrite Z.ones_spec_high, andb_false_r by lia. symmetry.
      destruct (decide (x = 0)) as [->|]; [apply Z.bits_0|].
      apply Z.bits_above_log2; [lia|]. apply Z.log2_lt_pow2; [lia|].
      apply Z.lt_le_trans with (2 ^ 64); [lia|]. apply Z.pow_le_mono_r; lia.
Qed.

Lemma PGROUNDDOWN_eq a : 0 <= a < 2 ^ 64 → PGROUNDDOWN a = a / 4096 * 4096.
Proof. apply land_page_mask. Qed.

Lemma PGROUNDUP_eq sz : 0 <= sz < 2 ^ 64 - 4095 → PGROUNDUP sz = (sz + 4095) / 4096 * 4096.
Proof.
  intros. unfold PGROUNDUP, PGSIZE. rewrite u64_small by lia.
  replace (sz + 4096 - 1) with (sz + 4095) by lia. apply land_page_mask. lia.
Qed.

Lemma PX_eq level va : 0 <= level → PX level va = va / 2 ^ (12 + 9 * level) mod 512.
Proof.
  intros. unfold PX, PXMASK, PXSHIFT, PGSHIFT.
  rewrite Z.shiftr_div_pow2 by lia. by apply (Z.land_ones _ 9).
Qed.

Lemma PX_range level va : 0 <= level → 0 <= PX level va < 512.
Proof. intros. rewrite PX_eq by done. by apply Z.mod_pos_bound. Qed.

(** The three indices identify the page of an address below [MAXVA]. *)
Lemma PX_inj va va' :
  0 <= va < MAXVA → 0 <= va' < MAXVA →
  PX 2 va = PX 2 va' → PX 1 va = PX 1 va' → PX 0 va = PX 0 va' →
  va / 4096 = va' / 4096.
Proof.
  change MAXVA with (2 ^ 38). intros Hv Hv'. rewrite !PX_eq by lia. simpl.
  intros H2 H1 H0. change (Z.pow_pos 2 30) with 1073741824 in *.
  change (Z.pow_pos 2 21) with 2097152 in *. change (Z.pow_pos 2 12) with 4096 in *.
  zdm.
Qed.

Lemma PX_page va level : 0 <= level → PX level (va / 4096 * 4096) = PX level va.
Proof.
  intros. rewrite !PX_eq by done. f_equal.
  rewrite Z.pow_add_r by lia. change (2 ^ 12) with 4096.
  rewrite <-!Z.div_div by lia. by rewrite Z.div_mul.
Qed.

(** A page table entry as the code builds it: [PA2PTE(pa) | perm | PTE_V]. *)
Definition page_aligned (pa : Z) : Prop := pa mod 4096 = 0.

#[global] Instance page_aligned_dec pa : Decision (page_aligned pa).
Proof. unfold page_aligned. apply _. Defined.

Lemma PA2PTE_eq pa : 0 <= pa < 2 ^ 56 → PA2PTE pa = pa / 4096 * 1024.
Proof.
  intros. unfold PA2PTE. rewrite Z.shiftr_div_pow2, Z.shiftl_mul_pow2 by lia.
  change (2 ^ 12) with 4096. change (2 ^ 10) with 1024. apply u64_small. zdm.
Qed.

Lemma lor_low_add a f k : 0 <= k → a mod 2 ^ k = 0 → 0 <= f < 2 ^ k → Z.lor a f = a + f.
Proof.
  intros Hk Ha Hf.
  rewrite <-Z.lxor_lor; [rewrite Z.add_nocarry_lxor; [done|]|];
  apply Z.bits_inj'; intros n Hn; rewrite Z.land_spec, Z.bits_0;
  (destruct (decide (n < k));
   [rewrite <-(Z.mod_pow2_bits_low a k n) by lia; by rewrite Ha, Z.bits_0
   |rewrite <-(Z.mod_small f (2 ^ k)) by done;
    by rewrite Z.mod_pow2_bits_high, andb_false_r by lia]).
Qed.

Lemma mk_pte_eq pa f :
  0 <= pa < 2 ^ 56 → 0 <= f < 1024 → Z.lor (PA2PTE pa) f = pa / 4096 * 1024 + f.
Proof.
  intros. rewrite PA2PTE_eq by done. apply (lor_low_add _ _ 10); [lia| |done].
  change (2 ^ 10) with 1024. by rewrite Z.mod_mul.
Qed.

Lemma PTE2PA_mk pa f :
  0 <= pa < 2 ^ 56 → page_aligned pa → 0 <= f < 1024 → PTE2PA (Z.lor (PA2PTE pa) f) = pa.
Proof.
  unfold page_aligned. intros. rewrite mk_pte_eq by done. unfold PTE2PA.
  rewrite Z.shiftr_div_pow2, Z.shiftl_mul_pow2 by lia.
  change (2 ^ 12) with 4096. change (2 ^ 10) with 1024. rewrite u64_small; zdm.
Qed.

Lemma PTE_FLAGS_mk pa f :
  0 <= pa < 2 ^ 56 → 0 <= f < 1024 → PTE_FLAGS (Z.lor (PA2PTE pa) f) = f.
Proof.
  intros. rewrite mk_pte_eq by done. unfold PTE_FLAGS.
  change 0x3FF with (Z.ones 10). rewrite Z.land_ones by lia. change (2 ^ 10) with 1024. zdm.
Qed.

Lemma PTE_FLAGS_range pte : 0 <= PTE_FLAGS pte < 1024.
Proof.
  unfold PTE_FLAGS. change 0x3FF with (Z.ones 10). rewrite Z.land_ones by lia.
  by apply Z.mod_pos_bound.
Qed.

(** A flag test only looks at the ten flag bits. *)
Lemma land_flag pte f : 0 <= f < 1024 → Z.land pte f = Z.land (PTE_FLAGS pte) f.
Proof.
  intros Hf. unfold PTE_FLAGS. rewrite <-Z.land_assoc. f_equal.
  symmetry. rewrite Z.land_comm. change 0x3FF with (Z.ones 10).
  rewrite Z.land_ones by lia. by apply Z.mod_small.
Qed.
