(* ===== verification/Spinlock.v ===== *)
(** kernel/spinlock.c and kernel/sleeplock.c.

    [push_off] and [pop_off] act on the state of one hart.  [acquire] and
    [release] are given twice: as functions of one hart and one lock, and as
    the sequence of atomic steps a hart performs, so that any interleaving of
    several harts is a list of hart numbers.  The other components use the
    one-hart view of a lock, a flag that says whether the running hart holds
    it ([acquire_flag], [release_flag]). *)

From S2P Require Import Prelude.
Local Open Scope kernel_scope.

(** ** Interrupt state of a hart (struct cpu and sstatus.SIE) *)

Record hart := mkHart { noff : Z; intena : bool; sie : bool }.

Definition intr_get : K hart bool := gets sie.
Definition intr_off : K hart unit := modify (λ h, mkHart (noff h) (intena h) false).
Definition intr_on : K hart unit := modify (λ h, mkHart (noff h) (intena h) true).

Definition push_off : K hart unit :=
  old <- intr_get ;;;
  intr_off ;;;
  (h <- get ;;; if noff h =? 0 then modify (λ h, mkHart (noff h) old (sie h)) else ret tt) ;;;
  modify (λ h, mkHart (noff h + 1) (intena h) (sie h)).

Definition pop_off : K hart unit :=
  on <- intr_get ;;;
  if (on : bool) then panic "pop_off - interruptible"
  else h <- get ;;;
  if noff h <? 1 then panic "pop_off"
  else modify (λ h, mkHart (noff h - 1) (intena h) (sie h)) ;;;
  h <- get ;;;
  if (noff h =? 0) && intena h then intr_on else ret tt.

(** ** struct spinlock *)

Record spinlock := mkLock { locked : Z; lkcpu : option nat }.

Definition initlock : spinlock := mkLock 0 None.

Definition holding (me : nat) (lk : spinlock) : bool :=
  negb (locked lk =? 0) && bool_decide (lkcpu lk = Some me).

(** [__sync_lock_test_and_set(&lk->locked, 1)] and [__sync_lock_release]. *)
Definition test_and_set (lk : spinlock) : Z * spinlock := (locked lk, mkLock 1 (lkcpu lk)).
Definition lock_release (lk : spinlock) : spinlock := mkLock 0 (lkcpu lk).

(** ** acquire and release on one hart

    The spin loop is bounded by [fuel]; on one hart nobody else releases the
    lock, so it either succeeds at once or spins for ever. *)

Definition on_hart {A} (m : K hart A) : K (spinlock * hart) A := λ s,
  match m (snd s) with
  | Ok a h => Ok a (fst s, h)
  | Panic msg => Panic msg
  | Blocked c h => Blocked c (fst s, h)
  | UB w => UB w
  | NoFuel => NoFuel
  end.

Definition spin (fuel : nat) : K (spinlock * hart) unit :=
  iter fuel (λ _ : unit, λ s,
    let '(old, lk) := test_and_set (fst s) in
    Ok (if negb (old =? 0) then inl tt else inr tt) (lk, snd s)) tt.

Definition acquire (fuel : nat) (me : nat) : K (spinlock * hart) unit :=
  on_hart push_off ;;;
  lk <- gets fst ;;;
  if holding me lk then panic "acquire"
  else spin fuel ;;;
  modify (λ s, (mkLock (locked (fst s)) (Some me), snd s)).

Definition release (me : nat) : K (spinlock * hart) unit :=
  lk <- gets fst ;;;
  if negb (holding me lk) then panic "release"
  else modify (λ s, (mkLock (locked (fst s)) None, snd s)) ;;;
  modify (λ s, (lock_release (fst s), snd s)) ;;;
  on_hart pop_off.

(** ** Interleaved execution

    Where a hart stands with respect to the lock.  Each constructor names the
    next atomic action of [acquire] or [release]. *)

Inductive pc :=
| Idle  (* about to call acquire *)
| Spin  (* push_off and the holding test are done; next is the atomic swap *)
| Got   (* the swap returned 0; next is lk->cpu = mycpu() *)
| Crit  (* acquire returned; next is the start of release *)
| Rel.  (* lk->cpu = 0 is done; next is the atomic release and pop_off *)

#[global] Instance pc_eq_dec : EqDecision pc.
Proof. solve_decision. Defined.

Record sys := mkSys { slock : spinlock; harts : list (pc * hart) }.

Definition set_hart (c : nat) (p : pc) (h : hart) (lk : spinlock) (s : sys) : sys :=
  mkSys lk (<[c := (p, h)]> (harts s)).

Definition step (c : nat) : K sys unit := λ s,
  match harts s !! c with
  | None => UB "no such hart"
  | Some (p, h) =>
      match p with
      | Idle =>
          match push_off h with
          | Ok _ h' =>
              if holding c (slock s) then Panic "acquire"
              else Ok tt (set_hart c Spin h' (slock s) s)
          | Panic m => Panic m
          | _ => UB "push_off"
          end
      | Spin =>
          let '(old, lk) := test_and_set (slock s) in
          Ok tt (set_hart c (if negb (old =? 0) then Spin else Got) h lk s)
      | Got => Ok tt (set_hart c Crit h (mkLock (locked (slock s)) (Some c)) s)
      | Crit =>
          if negb (holding c (slock s)) then Panic "release"
          else Ok tt (set_hart c Rel h (mkLock (locked (slock s)) None) s)
      | Rel =>
          match pop_off h with
          | Ok _ h' => Ok tt (set_hart c Idle h' (lock_release (slock s)) s)
          | Panic m => Panic m
          | _ => UB "pop_off"
          end
      end
  end.

Fixpoint run (schedule : list nat) : K sys unit :=
  match schedule with
  | [] => ret tt
  | c :: cs => step c ;;; run cs
  end.

(** Every hart outside the lock, interrupts on or off as [on] says. *)
Definition start_sys (on : list bool) : sys :=
  mkSys initlock ((λ b, (Idle, mkHart 0 false b)) <$> on).

(** ** The one-hart view of a lock used by the other components *)

Definition acquire_flag {S} (held : S → bool) (set : bool → S → S) : K S unit := λ s,
  if held s then Panic "acquire" else Ok tt (set true s).
Definition release_flag {S} (held : S → bool) (set : bool → S → S) : K S unit := λ s,
  if negb (held s) then Panic "release" else Ok tt (set false s).

Lemma runs_acquire_flag {S} (held : S → bool) (set : bool → S → S) s (Q : unit → S → Prop) :
  held s = false → Q tt (set true s) → runs (acquire_flag held set) s Q.
Proof. intros Hl HQ. unfold acquire_flag, runs. by rewrite Hl. Qed.

Lemma runs_release_flag {S} (held : S → bool) (set : bool → S → S) s (Q : unit → S → Prop) :
  held s = true → Q tt (set false s) → runs (release_flag held set) s Q.
Proof. intros Hl HQ. unfold release_flag, runs. by rewrite Hl. Qed.

(** ** Sleep locks

    [sl_lk] is the flag of the spin lock inside the sleep lock and [sl_woken]
    lists the channels passed to [wakeup], most recent first. *)

Record sleeplock := mkSleep { sl_locked : bool; sl_pid : Z; sl_lk : bool; sl_woken : list Z }.

Definition initsleeplock : sleeplock := mkSleep false 0 false [].
Definition set_sl_lk (b : bool) (l : sleeplock) : sleeplock :=
  mkSleep (sl_locked l) (sl_pid l) b (sl_woken l).

Definition acquiresleep (chan pid : Z) : K sleeplock unit :=
  acquire_flag sl_lk set_sl_lk ;;;
  l <- get ;;;
  if sl_locked l then release_flag sl_lk set_sl_lk ;;; sleep_on chan
  else modify (λ l, mkSleep true pid (sl_lk l) (sl_woken l)) ;;;
  release_flag sl_lk set_sl_lk.

Definition releasesleep (chan : Z) : K sleeplock unit :=
  acquire_flag sl_lk set_sl_lk ;;;
  modify (λ l, mkSleep false 0 (sl_lk l) (chan :: sl_woken l)) ;;;
  release_flag sl_lk set_sl_lk.

Definition holdingsleep (pid : Z) : K sleeplock bool :=
  acquire_flag sl_lk set_sl_lk ;;;
  r <- gets (λ l, sl_locked l && (sl_pid l =? pid)) ;;;
  release_flag sl_lk set_sl_lk ;;;
  ret r.

Lemma runs_acquiresleep chan pid l (Q : unit → sleeplock → Prop) :
  sl_lk l = false → sl_locked l = false → Q tt (mkSleep true pid false (sl_woken l)) →
  runs (acquiresleep chan pid) l Q.
Proof.
  destruct l as [lk p f w]. simpl. intros -> -> HQ. unfold acquiresleep.
  apply runs_bind, runs_acquire_flag; [done|]. kred. simpl. apply runs_bind, runs_modify. by apply runs_release_flag.
Qed.

Lemma runs_releasesleep chan l (Q : unit → sleeplock → Prop) :
  sl_lk l = false → Q tt (mkSleep false 0 false (chan :: sl_woken l)) → runs (releasesleep chan) l Q.
Proof.
  destruct l as [lk p f w]. simpl. intros -> HQ. unfold releasesleep.
  apply runs_bind, runs_acquire_flag; [done|]. kred. by apply runs_release_flag.
Qed.

Lemma runs_holdingsleep pid l (Q : bool → sleeplock → Prop) :
  sl_lk l = false → Q (sl_locked l && (sl_pid l =? pid)) l → runs (holdingsleep pid) l Q.
Proof.
  destruct l as [lk p f w]. simpl. intros -> HQ. unfold holdingsleep.
  apply runs_bind, runs_acquire_flag; [done|]. kred. by apply runs_release_flag.
Qed.

(** ** Nesting of push_off and pop_off *)

Definition hart_wf (h : hart) : Prop := 0 <= noff h ∧ (0 < noff h → sie h = false).

Lemma push_off_eq h :
  push_off h = Ok tt (mkHart (noff h + 1) (if noff h =? 0 then sie h else intena h) false).
Proof.
  destruct h as [n i e]. unfold push_off, bind, intr_get, gets, intr_off, modify, get, ret; simpl.
  by destruct (n =? 0).
Qed.

Lemma pop_off_eq h :
  sie h = false → 1 <= noff h →
  pop_off h = Ok tt (mkHart (noff h - 1) (intena h) ((noff h =? 1) && intena h)).
Proof.
  destruct h as [n i e]. simpl. intros -> ?.
  unfold pop_off, bind, intr_get, gets, intr_on, modify, get, ret; simpl.
  destruct (Z.ltb_spec n 1); [lia|]. simpl.
  destruct (Z.eqb_spec n 1), (Z.eqb_spec (n - 1) 0); try lia; simpl; by destruct i.
Qed.

Inductive irq_op := Push | Pop.

Definition irq_exec (o : irq_op) : K hart unit := match o with Push => push_off | Pop => pop_off end.

Fixpoint irq_run (w : list irq_op) : K hart unit :=
  match w with
  | [] => ret tt
  | o :: w' => irq_exec o ;;; irq_run w'
  end.

(** Well-nested sequences of [push_off] and [pop_off] calls. *)
Inductive nested : list irq_op → Prop :=
| nested_nil : nested []
| nested_wrap w : nested w → nested (Push :: w ++ [Pop])
| nested_app w1 w2 : nested w1 → nested w2 → nested (w1 ++ w2).

Lemma irq_run_app w1 w2 h Q :
  runs (irq_run w1) h (λ _ h', runs (irq_run w2) h' Q) → runs (irq_run (w1 ++ w2)) h Q.
Proof.
  revert h. induction w1 as [|o w1 IH]; intros h H; [done|]. simpl in *.
  apply runs_bind. apply runs_bind_inv in H. eapply runs_mono; [done|]. intros ??. apply IH.
Qed.

Lemma nested_run w :
  nested w → ∀ h, hart_wf h →
  runs (irq_run w) h (λ _ h',
    noff h' = noff h ∧ sie h' = sie h ∧ (0 < noff h → intena h' = intena h)).
Proof.
  induction 1 as [|w _ IH|w1 w2 _ IH1 _ IH2]; intros h [Hn Hs]; simpl; [done| |].
  - apply runs_bind. eapply runs_Ok; [apply push_off_eq|].
    apply irq_run_app. eapply runs_mono; [apply IH; split; simpl; [lia|done]|].
    simpl. intros _ h' (E1 & E2 & E3). apply runs_bind.
    eapply runs_Ok; [apply pop_off_eq; [done|lia]|]. apply runs_ret; simpl.
    rewrite E3, E1 by lia. split_and!; [lia| |].
    + destruct (Z.eqb_spec (noff h) 0), (Z.eqb_spec (noff h + 1) 1); try lia; simpl; [done|].
      symmetry. apply Hs. lia.
    + intros ?. destruct (Z.eqb_spec (noff h) 0); [lia|done].
  - apply irq_run_app. eapply runs_mono; [by apply IH1|].
    simpl. intros _ h' (E1 & E2 & E3). eapply runs_mono.
    { apply IH2. split; [lia|]. rewrite E2. intros. apply Hs. lia. }
    simpl. intros _ h'' (F1 & F2 & F3). split_and!; [congruence|congruence|].
    intros. rewrite F3 by lia. apply E3. done.
Qed.

(** ** Mutual exclusion *)

Definition owns (p : pc) : bool := bool_decide (p ∈ [Got; Crit; Rel]).

Record lock_inv (s : sys) : Prop := {
  li_hart c p h : harts s !! c = Some (p, h) →
    hart_wf h ∧ (p ≠ Idle → 1 <= noff h);
  li_unique c d p q h k : harts s !! c = Some (p, h) → harts s !! d = Some (q, k) →
    owns p → owns q → c = d;
  li_locked : locked (slock s) = 0 ∧ (∀ c p h, harts s !! c = Some (p, h) → ¬ owns p)
    ∨ locked (slock s) = 1 ∧ ∃ c p h, harts s !! c = Some (p, h) ∧ owns p;
  li_cpu c : lkcpu (slock s) = Some c ↔ ∃ h, harts s !! c = Some (Crit, h)
}.

Lemma start_inv on : lock_inv (start_sys on).
Proof.
  assert (Hidle : ∀ c p h, harts (start_sys on) !! c = Some (p, h) →
    p = Idle ∧ noff h = 0).
  { intros c p h. simpl. rewrite list_lookup_fmap. intros (b & _ & [= -> ->])%fmap_Some.
    done. }
  split.
  - intros c p h H%Hidle. destruct H as [-> H]. unfold hart_wf. rewrite H. split; [lia|done].
  - intros c d p q h k Hc%Hidle. destruct Hc as [-> _]. done.
  - left. split; [done|]. intros c p h Hc%Hidle. destruct Hc as [-> _]. by intros [].
  - intros c. split; [done|]. intros [h Hh%Hidle]. by destruct Hh.
Qed.

Lemma holding_iff s c p h :
  lock_inv s → harts s !! c = Some (p, h) → holding c (slock s) = bool_decide (p = Crit).
Proof.
  intros Hinv Hc. unfold holding. destruct (decide (p = Crit)) as [->|Hp].
  - rewrite !bool_decide_eq_true_2; [| done | apply (li_cpu s Hinv); eauto].
    destruct (li_locked s Hinv) as [[_ H]|[-> _]]; [|done].
    exfalso. by eapply H.
  - rewrite (bool_decide_eq_false_2 (p = Crit)) by done.
    rewrite bool_decide_eq_false_2; [by destruct (negb _)|].
    intros (k & Hk)%(li_cpu s Hinv). rewrite Hc in Hk. naive_solver.
Qed.

(** What a step does to the program counter of hart [c], to the lock word and
    to the recorded owner, for each of the five actions. *)
Lemma lock_inv_update s c p p' h h' lk :
  lock_inv s → harts s !! c = Some (p, h) →
  hart_wf h' → (p' ≠ Idle → 1 <= noff h') →
  (owns p' → owns p ∨ locked (slock s) = 0) →
  (locked lk = if owns p' then 1 else if owns p then 0 else locked (slock s)) →
  (∀ d, lkcpu lk = Some d ↔ if decide (d = c) then p' = Crit else lkcpu (slock s) = Some d) →
  lock_inv (set_hart c p' h' lk s).
Proof.
  intros Hinv Hc Hwf Hn Hown Hlk Hcpu.
  assert (Hlen : (c < length (harts s))%nat) by by eapply lookup_lt_Some.
  assert (Hlook : ∀ d q k, harts (set_hart c p' h' lk s) !! d = Some (q, k) →
    (d = c ∧ q = p' ∧ k = h') ∨ (d ≠ c ∧ harts s !! d = Some (q, k))).
  { intros d q k. simpl. destruct (decide (d = c)) as [->|].
    - rewrite list_lookup_insert_eq by done. naive_solver.
    - rewrite list_lookup_insert_ne by done. naive_solver. }
  (* another owner excludes a new one *)
  assert (Hex : ∀ d q k, d ≠ c → harts s !! d = Some (q, k) → owns q → ¬ owns p').
  { intros d q k Hd Hq Ho Ho'. destruct (Hown Ho') as [Hp|H0].
    - apply Hd. by eapply (li_unique s Hinv).
    - destruct (li_locked s Hinv) as [[_ H]|[H _]]; [by eapply H|lia]. }
  split.
  - intros d q k [(-> & -> & ->)|[_ ?]]%Hlook; [done|]. by eapply (li_hart s Hinv).
  - intros d e q r k l [(-> & -> & ->)|[? Hd]]%Hlook [(-> & -> & ->)|[? He]]%Hlook Ho1 Ho2.
    + done.
    + exfalso. by eapply Hex.
    + exfalso. by eapply Hex.
    + by eapply (li_unique s Hinv).
  - simpl. rewrite Hlk. destruct (owns p') eqn:Eo.
    { right. split; [done|]. exists c, p', h'. rewrite list_lookup_insert_eq by done.
      by rewrite Eo. }
    destruct (owns p) eqn:Ep.
    { left. split; [done|]. intros d q k [(-> & -> & ->)|[Hne Hd]]%Hlook Hq; [by rewrite Eo in Hq|].
      apply Hne. eapply (li_unique s Hinv); [exact Hd|exact Hc|done|by rewrite Ep]. }
    destruct (li_locked s Hinv) as [[? H]|[? (d & q & k & Hd & Ho)]]; [left|right]; split; try done.
    + intros d q k [(-> & -> & ->)|[? Hd]]%Hlook; [rewrite Eo; by intros []|by eapply H].
    + exists d, q, k. destruct (decide (d = c)) as [->|]; [|by rewrite list_lookup_insert_ne].
      rewrite Hc in Hd. simplify_eq. by rewrite Ep in Ho.
  - intros d. simpl. rewrite Hcpu. case_decide as E.
    + subst d. rewrite list_lookup_insert_eq by done. split; [intros ->; eauto|].
      intros (k & Hk). by simplify_eq.
    + rewrite list_lookup_insert_ne by done. apply (li_cpu s Hinv).
Qed.

Lemma li_no_crit s c p h : lock_inv s → harts s !! c = Some (p, h) → p ≠ Crit →
  lkcpu (slock s) ≠ Some c.
Proof. intros Hinv Hc Hp (k & Hk)%(li_cpu s Hinv). rewrite Hc in Hk. naive_solver. Qed.

Lemma li_no_cpu s c p h : lock_inv s → harts s !! c = Some (p, h) → owns p → ∀ d, d ≠ c →
  lkcpu (slock s) ≠ Some d.
Proof.
  intros Hinv Hc Hp d Hd (k & Hk)%(li_cpu s Hinv). apply Hd.
  by eapply (li_unique s Hinv).
Qed.

Lemma step_inv s c :
  lock_inv s → (c < length (harts s))%nat →
  runs (step c) s (λ _ s', lock_inv s' ∧ length (harts s') = length (harts s)).
Proof.
  intros Hinv [[p h] Hc]%lookup_lt_is_Some_2. unfold runs, step. rewrite Hc.
  destruct (li_hart s Hinv _ _ _ Hc) as [Hwf Hn].
  destruct p; rewrite ?push_off_eq, ?(holding_iff s c _ h Hinv Hc); simpl.
  - split; [|by rewrite length_insert].
    eapply lock_inv_update; [done|exact Hc|split; simpl; [destruct Hwf; lia|done]| | | |]; simpl;
      [destruct Hwf; lia|by intros []|done|].
    intros d. case_decide; [subst d|done].
    pose proof (li_no_crit s c Idle h Hinv Hc). naive_solver.
  - split; [|by rewrite length_insert].
    destruct (Z.eqb_spec (locked (slock s)) 0) as [E|E]; simpl;
      (eapply lock_inv_update; [done|exact Hc|done|intros _; by apply Hn| | |]; simpl).
    1: by right. 1: done. 2: by intros []. 
    2: by destruct (li_locked s Hinv) as [[? _]|[? _]].
    all: intros d; case_decide; [subst d|done];
      pose proof (li_no_crit s c Spin h Hinv Hc); naive_solver.
  - split; [|by rewrite length_insert].
    eapply lock_inv_update; [done|exact Hc|done|intros _; by apply Hn|by left| |]; simpl.
    + destruct (li_locked s Hinv) as [[_ H]|[? _]]; [|done]. exfalso. by eapply H.
    + intros d. case_decide; [naive_solver|].
      pose proof (li_no_cpu s c Got h Hinv Hc). naive_solver.
  - split; [|by rewrite length_insert].
    eapply lock_inv_update; [done|exact Hc|done|intros _; by apply Hn|by left| |]; simpl.
    + destruct (li_locked s Hinv) as [[_ H]|[? _]]; [|done]. exfalso. by eapply H.
    + intros d. case_decide; [naive_solver|].
      pose proof (li_no_cpu s c Crit h Hinv Hc). naive_solver.
  - rewrite pop_off_eq; [|apply Hwf; specialize (Hn ltac:(done)); lia|by apply Hn].
    simpl. split; [|by rewrite length_insert].
    specialize (Hn ltac:(done)).
    eapply lock_inv_update; [done|exact Hc| |done|by intros []|done|]; simpl.
    + split; simpl; [lia|]. intros. destruct (Z.eqb_spec (noff h) 1); [lia|done].
    + intros d. case_decide; [subst d|done].
      pose proof (li_no_crit s c Rel h Hinv Hc). naive_solver.
Qed.

Lemma run_inv sched s :
  lock_inv s → Forall (λ c, (c < length (harts s))%nat) sched →
  runs (run sched) s (λ _ s', lock_inv s').
Proof.
  revert s. induction sched as [|c cs IH]; intros s Hinv Hs; simpl; [done|].
  apply Forall_cons in Hs as [Hc Hs]. apply runs_bind.
  eapply runs_mono; [by apply step_inv|]. intros _ s' [Hinv' Hlen]. simpl in *.
  apply IH; [done|]. by rewrite Hlen.
Qed.

(** ** The flag view refines the lock *)

(** The flag of the running hart [me] describes a lock word and a hart when no
    other hart holds the lock. *)
Definition flag_rel (me : nat) (b : bool) (s : spinlock * hart) : Prop :=
  holding me (fst s) = b ∧ hart_wf (snd s) ∧
  (if b then 1 <= noff (snd s) else locked (fst s) = 0).

(** Outcomes of the flag operation and of the real one that correspond. *)
Definition flag_outcome (me : nat) (o : outcome bool unit) (r : outcome (spinlock * hart) unit) : Prop :=
  match o, r with
  | Ok _ b, Ok _ s => flag_rel me b s
  | Panic m, Panic m' => m = m'
  | _, _ => False
  end.

(** Interrupt nesting: any well-nested sequence of push_off and pop_off
    calls returns (no panic), and leaves the nesting depth and the interrupt
    enable bit of the hart as it found them. *)
Theorem push_pop_nested w h :
  nested w → hart_wf h →
  ∃ h', irq_run w h = Ok tt h' ∧ noff h' = noff h ∧ sie h' = sie h.
Proof.
  intros Hw Hh. destruct (runs_elim _ _ _ (nested_run w Hw h Hh)) as ([] & h' & ? & ? & ? & _).
  by exists h'.
Qed.

Lemma push_pop_nested_witness :
  ∃ h', irq_run [Push; Push; Pop; Push; Pop; Pop] (mkHart 0 false true) = Ok tt h' ∧
        noff h' = 0 ∧ sie h' = true.
Proof.
  apply (push_pop_nested [Push; Push; Pop; Push; Pop; Pop] (mkHart 0 false true)).
  - apply (nested_wrap [Push; Pop; Push; Pop]).
    apply (nested_app [Push; Pop] [Push; Pop]); apply (nested_wrap []), nested_nil.
  - split; simpl; lia.
Defined.

(** [C24] Mutual exclusion of spin locks: whatever the number of harts, their
    initial interrupt state and the order in which their atomic steps are
    interleaved, no step panics, and two harts that are past [acquire] and
    have not started [release] are the same hart, which runs with interrupts
    off. *)
Theorem spinlock_mutual_exclusion (on : list bool) (schedule : list nat) :
  Forall (λ c, (c < length on)%nat) schedule →
  ∃ s, run schedule (start_sys on) = Ok tt s ∧
    ∀ c d h k, harts s !! c = Some (Crit, h) → harts s !! d = Some (Crit, k) →
      c = d ∧ sie h = false.
Proof.
  intros Hs. destruct (runs_elim _ _ _ (run_inv schedule (start_sys on) (start_inv on)
    ltac:(by simpl; rewrite length_fmap))) as ([] & s & Hrun & Hinv).
  exists s. split; [done|]. intros c d h k Hc Hd. split.
  - by eapply (li_unique s Hinv).
  - destruct (li_hart s Hinv _ _ _ Hc) as [[_ Hw] Hn]. apply Hw.
    specialize (Hn ltac:(done)). lia.
Qed.

Lemma spinlock_mutual_exclusion_witness :
  ∃ s, run [0; 1; 0; 1; 0; 1]%nat (start_sys [true; false]) = Ok tt s ∧
    ∀ c d h k, harts s !! c = Some (Crit, h) → harts s !! d = Some (Crit, k) →
      c = d ∧ sie h = false.
Proof.
  apply (spinlock_mutual_exclusion [true; false] [0; 1; 0; 1; 0; 1]%nat).
  repeat constructor.
Defined.

(** Refinement: seen from the hart that runs, and with no other hart
    holding the lock, acquire and release behave as the operations on a held
    flag: acquire of a held lock panics, acquire of a free one returns with
    the flag set after a single atomic swap, release is the converse. *)
Theorem spinlock_refines_flag (me : nat) (b : bool) (s : spinlock * hart) (fuel : nat) :
  flag_rel me b s →
  flag_outcome me (acquire_flag id (λ v _, v) b) (acquire (S fuel) me s) ∧
  flag_outcome me (release_flag id (λ v _, v) b) (release me s).
Proof.
  destruct s as [lk h]. unfold flag_rel; simpl. intros (Hb & [Hwf Hs] & Hb').
  unfold acquire_flag, release_flag, release, gets, bind; simpl. rewrite Hb.
  destruct b; simpl.
  - split.
    + unfold acquire, bind, on_hart. simpl. rewrite push_off_eq. simpl. by rewrite Hb.
    + unfold on_hart; simpl. rewrite pop_off_eq by first [lia|apply Hs; lia]. simpl.
      unfold flag_rel, holding; simpl. split_and!; [done|split; simpl; [lia|]|done].
      intros. destruct (Z.eqb_spec (noff h) 1); [lia|done].
  - split; [|done]. unfold acquire, bind, on_hart. simpl. rewrite push_off_eq. simpl.
    rewrite Hb. unfold spin, iter, bind; simpl. rewrite Hb'. simpl.
    unfold flag_rel, holding; simpl.
    rewrite bool_decide_eq_true_2 by done. split_and!; [done|split; simpl; [lia|done]|lia].
Qed.

Lemma spinlock_refines_flag_witness :
  flag_outcome 0 (acquire_flag id (λ v _, v) false) (acquire 1 0 (initlock, mkHart 0 false true)) ∧
  flag_outcome 0 (release_flag id (λ v _, v) false) (release 0 (initlock, mkHart 0 false true)).
Proof.
  apply (spinlock_refines_flag 0 false (initlock, mkHart 0 false true) 0).
  split_and!; [done|split; simpl; lia|done].
Defined.
