(* ===== verification/Kalloc.v ===== *)
(** kernel/kalloc.c: the physical page allocator.

    The free list is threaded through the free pages themselves: the first
    eight bytes of a free page hold the address of the next one.  [kst] is
    the state the allocator and the page-table code share: the lock flag, the
    list head and the whole of physical memory. *)

From S2P Require Import Prelude Mem CString Riscv Spinlock.
Local Open Scope kernel_scope.

Record kst := mkK { kmem_lock : bool; freelist : Z; kmem : mem }.

Definition set_kmem_lock (b : bool) (s : kst) : kst := mkK b (freelist s) (kmem s).
Definition set_freelist (p : Z) (s : kst) : kst := mkK (kmem_lock s) p (kmem s).
Definition set_kmem (m : mem) (s : kst) : kst := mkK (kmem_lock s) (freelist s) m.

Lemma set_kmem_twice m m' s : set_kmem m (set_kmem m' s) = set_kmem m s.
Proof. done. Qed.

Definition load64 (a : Z) : K kst Z := gets (λ s, rd64 (kmem s) a).
Definition store64 (a v : Z) : K kst unit := modify (λ s, set_kmem (wr64 (kmem s) a v) s).
Definition do_memset (dst c n : Z) : K kst unit :=
  modify (λ s, set_kmem (memset (kmem s) dst c n) s).
Definition do_memmove (dst src n : Z) : K kst unit :=
  modify (λ s, set_kmem (memmove (kmem s) dst src n) s).

Section Kalloc.
(** [end], the first address after the kernel, is defined by the linker. *)
Variable kend : Z.

Definition kfree (pa : Z) : K kst unit :=
  if negb (pa mod PGSIZE =? 0) || (pa <? kend) || (pa >=? PHYSTOP) then panic "kfree"
  else
    do_memset pa 1 PGSIZE ;;;
    acquire_flag kmem_lock set_kmem_lock ;;;
    (fl <- gets freelist ;;; store64 pa fl) ;;;
    modify (set_freelist pa) ;;;
    release_flag kmem_lock set_kmem_lock.

Definition kalloc : K kst Z :=
  acquire_flag kmem_lock set_kmem_lock ;;;
  r <- gets freelist ;;;
  (if negb (r =? 0) then (nxt <- load64 r ;;; modify (set_freelist nxt)) else ret tt) ;;;
  release_flag kmem_lock set_kmem_lock ;;;
  (if negb (r =? 0) then do_memset r 5 PGSIZE else ret tt) ;;;
  ret r.

(** [for(; p + PGSIZE <= pa_end; p += PGSIZE) kfree(p)], at most one
    iteration per page of the range. *)
Definition freerange (pa_start pa_end : Z) : K kst unit :=
  iter (S (Z.to_nat ((pa_end - pa_start) / PGSIZE + 1))) (λ p,
    if p + PGSIZE <=? pa_end then kfree p ;;; ret (inl (p + PGSIZE)) else ret (inr tt))
    (PGROUNDUP pa_start).

Definition kinit : K kst unit :=
  modify (set_kmem_lock false) ;;;
  freerange kend PHYSTOP.

(** ** The free list as a list of pages *)

Definition page_ok (p : Z) : Prop := page_aligned p ∧ kend <= p < PHYSTOP.

#[global] Instance page_ok_dec p : Decision (page_ok p).
Proof. unfold page_ok. apply _. Defined.

(** The chain that starts at [head] visits exactly the pages [l]. *)
Fixpoint chain (m : mem) (head : Z) (l : list Z) : Prop :=
  match l with
  | [] => head = 0
  | p :: l' => head = p ∧ page_ok p ∧ chain m (rd64 m p) l'
  end.

(** The allocator's invariant: the free list is a chain of distinct pages of
    the managed range and the lock is free. *)
Definition kinv (s : kst) (l : list Z) : Prop :=
  kmem_lock s = false ∧ NoDup l ∧ chain (kmem s) (freelist s) l.
(** ** Lemmas *)

Hypothesis kend_pos : 0 < kend.

Lemma page_ok_range p : page_ok p → 0 < p ∧ p + 4096 <= PHYSTOP.
Proof.
  unfold page_ok, page_aligned. change PHYSTOP with 2281701376. zdm.
Qed.

Lemma pages_disjoint p q :
  page_aligned p → page_aligned q → p ≠ q → p + 4096 <= q ∨ q + 4096 <= p.
Proof. unfold page_aligned. zdm. Qed.

Lemma kfree_guard pa :
  negb (pa mod PGSIZE =? 0) || (pa <? kend) || (pa >=? PHYSTOP) = negb (bool_decide (page_ok pa)).
Proof.
  case_bool_decide as H; unfold page_ok, page_aligned, PGSIZE in *; rewrite Z.geb_leb;
    destruct (Z.eqb_spec (pa mod 4096) 0), (Z.ltb_spec pa kend), (Z.leb_spec PHYSTOP pa);
    simpl; done || lia.
Qed.

Lemma chain_ext m m' h l :
  (∀ p, p ∈ l → agree m m' p 8) → chain m h l → chain m' h l.
Proof.
  revert h. induction l as [|p l IH]; intros h Hag; [done|].
  intros (-> & Hp & Hc). split_and!; [done|done|].
  rewrite (rd64_ext m m') by (apply Hag; set_solver).
  apply IH; [|done]. intros q ?. apply Hag. set_solver.
Qed.

Lemma chain_pages m h l : chain m h l → Forall page_ok l.
Proof.
  revert h. induction l as [|p l IH]; intros h; [done|].
  intros (_ & ? & ?). constructor; [done|]. by eapply IH.
Qed.

Lemma chain_head m h l : chain m h l → 0 <= h < 2 ^ 64.
Proof.
  destruct l as [|p l]; simpl; [lia|]. intros (-> & Hp & _). apply page_ok_range in Hp.
  change PHYSTOP with 2281701376 in Hp. lia.
Qed.

Lemma kinv_page s l p : kinv s l → p ∈ l → page_ok p.
Proof. intros (_ & _ & Hc) Hp. eapply Forall_forall in Hp; [done|]. by eapply chain_pages. Qed.

Lemma kinv_lock s l : kinv s l → kmem_lock s = false.
Proof. by intros (? & _). Qed.

(** Memory written outside the free pages leaves the free list alone. *)
Lemma kinv_frame s l m :
  kinv s l → (∀ p, p ∈ l → agree (kmem s) m p 4096) → kinv (set_kmem m s) l.
Proof.
  intros (Hlk & Hnd & Hc) Hag. split_and!; [done|done|]. simpl.
  eapply chain_ext; [|done]. intros p Hp. eapply agree_sub; [by apply Hag|lia|lia].
Qed.

Lemma kalloc_eq s p l :
  kinv s (p :: l) →
  kalloc s = Ok p (mkK false (rd64 (kmem s) p) (memset (kmem s) p 5 PGSIZE)).
Proof.
  destruct s as [lk fl m]. intros (Hlk & _ & Hc). simpl in *. destruct Hc as (-> & Hp & _).
  subst lk. unfold kalloc, bind, acquire_flag, gets, ret, load64, modify, release_flag, do_memset.
  simpl. apply page_ok_range in Hp. destruct (Z.eqb_spec p 0); [lia|]. done.
Qed.

Lemma kalloc_nil s : kinv s [] → kalloc s = Ok 0 s.
Proof.
  destruct s as [lk fl m]. intros (Hlk & _ & Hc). simpl in *. by subst.
Qed.

Lemma kinv_alloc s p l :
  kinv s (p :: l) → kinv (mkK false (rd64 (kmem s) p) (memset (kmem s) p 5 PGSIZE)) l.
Proof.
  intros (_ & Hnd & _ & Hp & Hc). apply NoDup_cons in Hnd as [Hnin Hnd].
  split_and!; [done|done|]. simpl. eapply chain_ext; [|done]. intros q Hq b Hb.
  rewrite rd8_memset, decide_False; [done|]. unfold PGSIZE.
  eapply Forall_forall in Hq as Hq'; [|by eapply chain_pages].
  destruct (pages_disjoint p q); [by apply Hp|by apply Hq'|by intros ->|lia|lia].
Qed.

Lemma kfree_eq s l pa :
  kinv s l → page_ok pa →
  kfree pa s = Ok tt (mkK false pa (wr64 (memset (kmem s) pa 1 PGSIZE) pa (freelist s))).
Proof.
  destruct s as [lk fl m]. intros (Hlk & _) Hp. simpl in Hlk. subst lk. unfold kfree.
  rewrite kfree_guard, bool_decide_eq_true_2 by done. simpl negb. cbv iota.
  unfold bind, do_memset, modify, acquire_flag, release_flag, gets, store64, set_kmem,
    set_kmem_lock, set_freelist.
  cbn [kmem_lock freelist kmem negb]. reflexivity.
Qed.

Lemma kinv_free s l pa :
  kinv s l → page_ok pa → pa ∉ l →
  kinv (mkK false pa (wr64 (memset (kmem s) pa 1 PGSIZE) pa (freelist s))) (pa :: l).
Proof.
  intros (Hlk & Hnd & Hc) Hp Hnin. split_and!; [done|by apply NoDup_cons|]. simpl.
  split_and!; [done|done|]. rewrite rd64_wr64_same, u64_small by by eapply chain_head.
  eapply chain_ext; [|done]. intros q Hq b Hb.
  eapply Forall_forall in Hq as Hq'; [|by eapply chain_pages].
  destruct (pages_disjoint pa q); [by apply Hp|by apply Hq'|by intros ->| |];
    rewrite (wr64_agree_out _ pa), rd8_memset, decide_False by (unfold PGSIZE; lia); done.
Qed.

Lemma kfree_agree_out m pa v : agree_out m (wr64 (memset m pa 1 PGSIZE) pa v) pa 4096.
Proof.
  intros b Hb. rewrite (wr64_agree_out _ pa) by lia. by apply memset_agree_out.
Qed.

Lemma runs_kalloc s l (Q : Z → kst → Prop) :
  kinv s l →
  (l = [] → Q 0 s) →
  (∀ p l' s', l = p :: l' → kinv s' l' → page_ok p → agree_out (kmem s) (kmem s') p 4096 → Q p s') →
  runs kalloc s Q.
Proof.
  intros Hk Hnil Hcons. destruct l as [|p l].
  - eapply runs_Ok; [by apply kalloc_nil|]. by apply Hnil.
  - eapply runs_Ok; [by eapply kalloc_eq|]. eapply Hcons; [done|by apply kinv_alloc| |].
    + eapply kinv_page; [done|]. by apply list_elem_of_here.
    + apply memset_agree_out.
Qed.

Lemma runs_kfree s l pa (Q : unit → kst → Prop) :
  kinv s l → page_ok pa → pa ∉ l →
  (∀ s', kinv s' (pa :: l) → agree_out (kmem s) (kmem s') pa 4096 → Q tt s') →
  runs (kfree pa) s Q.
Proof.
  intros Hk Hp Hn HQ. eapply runs_Ok; [by eapply kfree_eq|].
  apply HQ; [by apply kinv_free|apply kfree_agree_out].
Qed.

Lemma runs_freerange s :
  kend <= PHYSTOP → kinv s [] →
  runs (freerange kend PHYSTOP) s (λ _ s', ∃ l, kinv s' l ∧ ∀ q, q ∈ l ↔ page_ok q).
Proof.
  intros Hend Hk. unfold freerange.
  assert (Hup : PGROUNDUP kend = (kend + 4095) / 4096 * 4096).
  { apply PGROUNDUP_eq. change PHYSTOP with 2281701376 in Hend. lia. }
  eapply (runs_iter _ (λ n p s, page_aligned p ∧ kend <= p ∧
    n = Z.to_nat ((PHYSTOP - p) / 4096) ∧ ∃ l, kinv s l ∧ ∀ q, q ∈ l ↔ page_ok q ∧ q < p)).
  2: { split_and!; [unfold page_aligned; rewrite Hup; by rewrite Z.mod_mul|rewrite Hup; zdm|done|].
       exists []. split; [done|]. intros q. split; [by intros ?%not_elem_of_nil|].
       unfold page_ok, page_aligned. rewrite Hup. intros. exfalso. zdm. }
  2: { unfold PGSIZE. rewrite Hup. zdm. }
  clear s Hk. intros n p s (Hal & Hp & -> & l & Hk & Hl). unfold PGSIZE.
  unfold page_aligned in Hal. change PHYSTOP with 2281701376 in *.
  destruct (Z.leb_spec (p + 4096) 2281701376).
  - assert (Hpok : page_ok p) by (unfold page_ok, page_aligned; change PHYSTOP with 2281701376; lia).
    apply runs_bind. eapply runs_kfree; [done|done| |].
    { rewrite Hl. lia. }
    intros s' Hk' _. apply runs_ret. exists (Z.to_nat ((2281701376 - (p + 4096)) / 4096)).
    split; [zdm|]. split_and!; [unfold page_aligned; zdm|lia|done|].
    exists (p :: l). split; [done|]. intros q. rewrite elem_of_cons, Hl. split.
    + intros [->|[? ?]]; split; done || lia.
    + intros [Hq ?]. destruct (decide (q = p)) as [->|]; [by left|right]. split; [done|].
      destruct Hq as [Hq _]. unfold page_aligned in Hq. zdm.
  - apply runs_ret. exists l. split; [done|]. intros q. rewrite Hl.
    split; [by intros []|]. intros Hq. split; [done|]. apply page_ok_range in Hq.
    change PHYSTOP with 2281701376 in Hq. lia.
Qed.

(** ** Clients of the allocator

    A client owns the pages it was given and not yet returned, and writes
    only into them. *)

Inductive client_step : kst * gset Z → kst * gset Z → Prop :=
| cs_alloc s s' own p :
    kalloc s = Ok p s' → p ≠ 0 → client_step (s, own) (s', {[p]} ∪ own)
| cs_alloc_fail s s' own : kalloc s = Ok 0 s' → client_step (s, own) (s', own)
| cs_free s s' own p :
    p ∈ own → kfree p s = Ok tt s' → client_step (s, own) (s', own ∖ {[p]})
| cs_write s own m :
    (∀ a, (∀ p, p ∈ own → ¬ (p <= a < p + 4096)) → rd8 m a = rd8 (kmem s) a) →
    client_step (s, own) (set_kmem m s, own).

Definition client_inv (c : kst * gset Z) : Prop :=
  ∃ l, kinv (fst c) l ∧ (∀ p, page_ok p ↔ p ∈ snd c ∨ p ∈ l) ∧ (∀ p, p ∈ snd c → p ∉ l).

Lemma client_step_inv c c' : client_step c c' → client_inv c → client_inv c'.
Proof.
  intros Hstep (l & Hk & Hall & Hdis). destruct Hstep as [s s' own p Ha Hp|s s' own Ha|s s' own p Hp Hf|s own m Hw];
    simpl in *.
  - destruct l as [|q l]; [rewrite (kalloc_nil s Hk) in Ha; naive_solver|].
    rewrite (kalloc_eq s q l Hk) in Ha. simplify_eq. exists l. simpl.
    split_and!; [by apply kinv_alloc| |].
    + intros q. rewrite Hall. set_solver.
    + pose proof Hk as (_ & Hnd & _). apply NoDup_cons in Hnd as [? _].
      intros q [->%elem_of_singleton|Hq]%elem_of_union; [done|]. specialize (Hdis q Hq). set_solver.
  - destruct l as [|q l]; [rewrite (kalloc_nil s Hk) in Ha; simplify_eq; by exists []|].
    rewrite (kalloc_eq s q l Hk) in Ha. simplify_eq.
    assert (Hq : page_ok 0) by by apply (kinv_page s (0 :: l)), list_elem_of_here.
    apply page_ok_range in Hq. lia.
  - assert (Hok : page_ok p) by (apply Hall; by left).
    rewrite (kfree_eq s l p Hk Hok) in Hf. simplify_eq. exists (p :: l). simpl.
    split_and!; [by apply kinv_free; [| |apply Hdis]| |].
    + intros q. rewrite Hall. destruct (decide (q = p)) as [->|]; set_solver.
    + intros q Hq. specialize (Hdis q). set_solver.
  - exists l. split_and!; [|done|done]. apply kinv_frame; [done|].
    intros p Hp a Ha. apply Hw. intros q Hq. assert (q ≠ p) by (intros ->; by eapply Hdis).
    assert (Hokq : page_ok q) by (apply Hall; by left).
    assert (Hokp : page_ok p) by (apply Hall; by right).
    destruct (pages_disjoint p q) as [?|?]; [apply Hokp|apply Hokq|done|lia|lia].
Qed.

Lemma clients_inv c c' : rtc client_step c c' → client_inv c → client_inv c'.
Proof. induction 1; [done|]. intros. by apply IHrtc, (client_step_inv x). Qed.

Lemma runs_kinit lk m :
  kend <= PHYSTOP → runs kinit (mkK lk 0 m) (λ _ s', client_inv (s', ∅)).
Proof.
  intros Hend. unfold kinit. kred.
  eapply runs_mono; [apply runs_freerange; [done|]|].
  { split_and!; [done|constructor|done]. }
  intros _ s' (l & Hk & Hl). exists l. split_and!; [done| |set_solver].
  intros p. rewrite Hl. set_solver.
Qed.
End Kalloc.

(** ** Properties *)

(** After [kinit] the free list holds every page between the end of the
    kernel and PHYSTOP, each exactly once, whatever memory held before. *)
Theorem kinit_all_pages (kend : Z) (lk : bool) (m : mem) :
  0 < kend <= PHYSTOP →
  ∃ s l, kinit kend (mkK lk 0 m) = Ok tt s ∧ kinv kend s l ∧ ∀ p, p ∈ l ↔ page_ok kend p.
Proof.
  intros H. destruct (runs_elim _ _ _ (runs_kinit kend ltac:(lia) lk m ltac:(lia)))
    as ([] & s & Hrun & l & Hk & Hall & _).
  exists s, l. split_and!; [done|done|]. intros p. rewrite Hall. set_solver.
Qed.

Lemma kinit_all_pages_witness :
  ∃ s l, kinit (PHYSTOP - 8192 - 100) (mkK true 0 ∅) = Ok tt s ∧
    kinv (PHYSTOP - 8192 - 100) s l ∧ ∀ p, p ∈ l ↔ page_ok (PHYSTOP - 8192 - 100) p.
Proof. apply (kinit_all_pages (PHYSTOP - 8192 - 100) true ∅). unfold PHYSTOP, KERNBASE. lia. Defined.

(** kalloc and kfree implement a stack of free pages: on a free list [l],
    kalloc returns 0 and changes nothing when [l] is empty, and otherwise pops
    its first page, fills it with 5s and touches no other byte; kfree panics
    on an address that is not a page of the managed range, and otherwise
    pushes the page and changes no byte outside it. *)
Theorem kalloc_kfree_stack (kend : Z) (s : kst) (l : list Z) :
  0 < kend → kinv kend s l →
  match l with
  | [] => kalloc s = Ok 0 s
  | p :: l' => ∃ s', kalloc s = Ok p s' ∧ kinv kend s' l' ∧ p ∉ l' ∧
      ∀ a, rd8 (kmem s') a = if decide (p <= a < p + PGSIZE) then 5 else rd8 (kmem s) a
  end ∧
  ∀ pa,
    (¬ page_ok kend pa → kfree kend pa s = Panic "kfree") ∧
    (page_ok kend pa → pa ∉ l → ∃ s', kfree kend pa s = Ok tt s' ∧ kinv kend s' (pa :: l) ∧
       agree_out (kmem s) (kmem s') pa PGSIZE).
Proof.
  intros Hend Hk. split.
  - destruct l as [|p l]; [by eapply kalloc_nil|]. eexists. split_and!.
    + by eapply kalloc_eq.
    + by apply kinv_alloc.
    + pose proof Hk as (_ & Hnd & _). by apply NoDup_cons in Hnd as [? _].
    + intros a. apply rd8_memset.
  - intros pa. split; intros Hp.
    + unfold kfree. rewrite kfree_guard. by rewrite bool_decide_eq_false_2.
    + intros Hn. eexists. split_and!; [by eapply kfree_eq|by apply kinv_free|].
      apply kfree_agree_out.
Qed.

Lemma kalloc_kfree_stack_witness :
  kalloc (mkK false 0x80001000 (wr64 ∅ 0x80001000 0)) =
    Ok 0x80001000 (mkK false 0 (memset (wr64 ∅ 0x80001000 0) 0x80001000 5 PGSIZE)) ∧
  kfree 0x80000000 0x80001001 (mkK false 0x80001000 (wr64 ∅ 0x80001000 0)) = Panic "kfree".
Proof.
  assert (Hk : kinv 0x80000000 (mkK false 0x80001000 (wr64 ∅ 0x80001000 0)) [0x80001000]).
  { split_and!; [done|apply NoDup_singleton|]. simpl.
    split_and!; [done|by unfold page_ok, page_aligned; split; vm_compute|by vm_compute]. }
  destruct (kalloc_kfree_stack 0x80000000 (mkK false 0x80001000 (wr64 ∅ 0x80001000 0)) [0x80001000]
    ltac:(lia) Hk) as [_ Hf]. split.
  - rewrite (kalloc_eq 0x80000000 ltac:(lia) _ _ _ Hk). do 2 f_equal.
  - destruct (Hf 0x80001001) as [Hp _]. apply Hp. by intros [? _].
Defined.

(** [C5] Exclusive allocation: starting from [kinit], after any sequence of
    allocations, of frees of owned pages and of writes to owned pages, a page
    returned by kalloc is a page of the managed range that nobody owns, every
    owned page can be freed without a panic, and kalloc fails only when every
    page is owned. *)
Theorem allocator_exclusive (kend : Z) (lk : bool) (m : mem) (s0 s : kst) (own : gset Z) :
  0 < kend <= PHYSTOP →
  kinit kend (mkK lk 0 m) = Ok tt s0 →
  rtc (client_step kend) (s0, ∅) (s, own) →
  (∃ p s', kalloc s = Ok p s' ∧
     if p =? 0 then ∀ q, page_ok kend q → q ∈ own else page_ok kend p ∧ p ∉ own) ∧
  (∀ p, p ∈ own → ∃ s', kfree kend p s = Ok tt s').
Proof.
  intros Hend Hinit Hsteps.
  pose proof (runs_kinit kend ltac:(lia) lk m ltac:(lia)) as Hi. unfold runs in Hi.
  rewrite Hinit in Hi. destruct (clients_inv kend ltac:(lia) _ _ Hsteps Hi) as (l & Hk & Hall & Hdis).
  simpl in *. split.
  - destruct l as [|p l].
    + exists 0, s. split; [by eapply kalloc_nil|]. intros q Hq%Hall. set_solver.
    + exists p. eexists. split; [eapply (kalloc_eq kend ltac:(lia)); done|].
      assert (Hp : page_ok kend p) by (apply Hall; set_solver).
      pose proof (page_ok_range kend ltac:(lia) p Hp). destruct (Z.eqb_spec p 0); [lia|].
      split; [done|]. intros Ho%Hdis. set_solver.
  - intros p Hp. eexists. eapply kfree_eq; [done|]. apply Hall. by left.
Qed.

Lemma allocator_exclusive_witness :
  ∃ s0, kinit (PHYSTOP - 8192) (mkK false 0 ∅) = Ok tt s0 ∧
  (∃ p s', kalloc s0 = Ok p s' ∧
     if p =? 0 then ∀ q, page_ok (PHYSTOP - 8192) q → q ∈ (∅ : gset Z)
     else page_ok (PHYSTOP - 8192) p ∧ p ∉ (∅ : gset Z)) ∧
  (∀ p, p ∈ (∅ : gset Z) → ∃ s', kfree (PHYSTOP - 8192) p s0 = Ok tt s').
Proof.
  assert (Hend : 0 < PHYSTOP - 8192 <= PHYSTOP) by (unfold PHYSTOP, KERNBASE; lia).
  destruct (runs_elim _ _ _ (runs_kinit (PHYSTOP - 8192) ltac:(lia) false ∅ ltac:(lia)))
    as ([] & s0 & Hrun & _).
  exists s0. split; [exact Hrun|].
  apply (allocator_exclusive (PHYSTOP - 8192) false ∅ s0 s0 ∅ Hend Hrun). apply rtc_refl.
Defined.
