(* ===== verification/Vm.v ===== *)
(** kernel/vm.c: Sv39 page tables, user address spaces and the copies between
    the kernel and user memory.

    The operations run on the state of Kalloc: page tables are pages of
    physical memory, and a page-table entry is the eight bytes at its address.
    A NULL pointer is the address 0; functions that return an error code
    return it as an integer. *)

From S2P Require Import Prelude Mem CString Riscv Spinlock Kalloc.
Local Open Scope kernel_scope.

Section Vm.
(** Symbols defined by the linker script: [end], [etext], [trampoline]. *)
Variable kend : Z.
Variable etext : Z.
Variable trampoline : Z.

Definition valid (pte : Z) : bool := negb (Z.land pte PTE_V =? 0).

(** The address of entry [i] of the table [pagetable] ([&pagetable[i]]). *)
Definition pte_addr (pagetable i : Z) : Z := pagetable + 8 * i.

Fixpoint walk_loop (level : nat) (pagetable va : Z) (alloc : bool) : K kst Z :=
  match level with
  | O => ret (pte_addr pagetable (PX 0 va))
  | S level' =>
      let pte := pte_addr pagetable (PX (Z.of_nat level) va) in
      v <- load64 pte ;;;
      if valid v then walk_loop level' (PTE2PA v) va alloc
      else if negb alloc then ret 0
      else
        p <- kalloc ;;;
        if p =? 0 then ret 0
        else
          do_memset p 0 PGSIZE ;;;
          store64 pte (Z.lor (PA2PTE p) PTE_V) ;;;
          walk_loop level' p va alloc
  end.

Definition walk (pagetable va : Z) (alloc : bool) : K kst Z :=
  if va >=? MAXVA then panic "walk" else walk_loop 2 pagetable va alloc.

Definition walkaddr (pagetable va : Z) : K kst Z :=
  if va >=? MAXVA then ret 0
  else
    pte <- walk pagetable va false ;;;
    if pte =? 0 then ret 0
    else
      v <- load64 pte ;;;
      if Z.land v PTE_V =? 0 then ret 0
      else if Z.land v PTE_U =? 0 then ret 0
      else ret (PTE2PA v).

(** The [for(;;)] loop of mappages ends at [last]; if [last] is below the
    first page it runs until walk panics on an address of at least MAXVA. *)
Definition mappages_fuel (a last : Z) : nat :=
  S (Z.to_nat ((if a <=? last then last - a else MAXVA) / PGSIZE)).

Definition mappages (pagetable va size pa perm : Z) : K kst Z :=
  if size =? 0 then panic "mappages: size"
  else
    let a := PGROUNDDOWN va in
    let last := PGROUNDDOWN (u64 (va + size - 1)) in
    iter (mappages_fuel a last) (λ '(a, pa),
      pte <- walk pagetable a true ;;;
      if pte =? 0 then ret (inr (-1))
      else
        v <- load64 pte ;;;
        if negb (Z.land v PTE_V =? 0) then panic "mappages: remap"
        else
          store64 pte (Z.lor (Z.lor (PA2PTE pa) perm) PTE_V) ;;;
          if a =? last then ret (inr 0)
          else ret (inl (u64 (a + PGSIZE), u64 (pa + PGSIZE)))) (a, pa).

Definition kvmmap (kpgtbl va pa sz perm : Z) : K kst unit :=
  r <- mappages kpgtbl va sz pa perm ;;;
  if negb (r =? 0) then panic "kvmmap" else ret tt.

Definition uvmunmap (pagetable va npages : Z) (do_free : bool) : K kst unit :=
  if negb (va mod PGSIZE =? 0) then panic "uvmunmap: not aligned"
  else
    iter (S (Z.to_nat npages)) (λ a,
      if a <? u64 (va + npages * PGSIZE) then
        pte <- walk pagetable a false ;;;
        if pte =? 0 then panic "uvmunmap: walk"
        else
          v <- load64 pte ;;;
          if Z.land v PTE_V =? 0 then panic "uvmunmap: not mapped"
          else if PTE_FLAGS v =? PTE_V then panic "uvmunmap: not a leaf"
          else
            (if do_free then kfree kend (PTE2PA v) else ret tt) ;;;
            store64 pte 0 ;;;
            ret (inl (u64 (a + PGSIZE)))
      else ret (inr tt)) va.

Definition uvmcreate : K kst Z :=
  pagetable <- kalloc ;;;
  if pagetable =? 0 then ret 0
  else do_memset pagetable 0 PGSIZE ;;; ret pagetable.

Definition uvmfirst (pagetable src sz : Z) : K kst unit :=
  if sz >=? PGSIZE then panic "uvmfirst: more than a page"
  else
    mem <- kalloc ;;;
    do_memset mem 0 PGSIZE ;;;
    mappages pagetable 0 PGSIZE mem (Z.lor (Z.lor (Z.lor PTE_W PTE_R) PTE_X) PTE_U) ;;;
    do_memmove mem src sz.

Definition uvmdealloc (pagetable oldsz newsz : Z) : K kst Z :=
  if newsz >=? oldsz then ret oldsz
  else
    (if PGROUNDUP newsz <? PGROUNDUP oldsz then
       let npages := s32 ((PGROUNDUP oldsz - PGROUNDUP newsz) / PGSIZE) in
       uvmunmap pagetable (PGROUNDUP newsz) (u64 npages) true
     else ret tt) ;;;
    ret newsz.

Definition uvmalloc (pagetable oldsz newsz xperm : Z) : K kst Z :=
  if newsz <? oldsz then ret oldsz
  else
    let oldsz := PGROUNDUP oldsz in
    iter (S (Z.to_nat ((newsz - oldsz) / PGSIZE + 1))) (λ a,
      if a <? newsz then
        mem <- kalloc ;;;
        if mem =? 0 then
          uvmdealloc pagetable a oldsz ;;; ret (inr 0)
        else
          do_memset mem 0 PGSIZE ;;;
          r <- mappages pagetable a PGSIZE mem (Z.lor (Z.lor PTE_R PTE_U) xperm) ;;;
          if negb (r =? 0) then
            kfree kend mem ;;; uvmdealloc pagetable a oldsz ;;; ret (inr 0)
          else ret (inl (u64 (a + PGSIZE)))
      else ret (inr newsz)) oldsz.

(** The recursion of freewalk follows the levels of the table. *)
Fixpoint freewalk (depth : nat) (pagetable : Z) : K kst unit :=
  match depth with
  | O => λ _, NoFuel
  | S depth' =>
      iter 513 (λ i,
        if i <? 512 then
          pte <- load64 (pte_addr pagetable i) ;;;
          if valid pte && (Z.land pte (Z.lor (Z.lor PTE_R PTE_W) PTE_X) =? 0) then
            freewalk depth' (PTE2PA pte) ;;;
            store64 (pte_addr pagetable i) 0 ;;;
            ret (inl (i + 1))
          else if valid pte then panic "freewalk: leaf"
          else ret (inl (i + 1))
        else ret (inr tt)) 0 ;;;
      kfree kend pagetable
  end.

Definition uvmfree (pagetable sz : Z) : K kst unit :=
  (if sz >? 0 then uvmunmap pagetable 0 (PGROUNDUP sz / PGSIZE) true else ret tt) ;;;
  freewalk 3 pagetable.

Definition uvmcopy (old new sz : Z) : K kst Z :=
  iter (S (Z.to_nat (sz / PGSIZE + 1))) (λ i,
    if i <? sz then
      pte <- walk old i false ;;;
      if pte =? 0 then panic "uvmcopy: pte should exist"
      else
        v <- load64 pte ;;;
        if Z.land v PTE_V =? 0 then panic "uvmcopy: page not present"
        else
          let pa := PTE2PA v in
          let flags := PTE_FLAGS v in
          mem <- kalloc ;;;
          if mem =? 0 then uvmunmap new 0 (i / PGSIZE) true ;;; ret (inr (-1))
          else
            do_memmove mem pa PGSIZE ;;;
            r <- mappages new i PGSIZE mem flags ;;;
            if negb (r =? 0) then
              kfree kend mem ;;; uvmunmap new 0 (i / PGSIZE) true ;;; ret (inr (-1))
            else ret (inl (u64 (i + PGSIZE)))
    else ret (inr 0)) 0.

Definition uvmclear (pagetable va : Z) : K kst unit :=
  pte <- walk pagetable va false ;;;
  if pte =? 0 then panic "uvmclear"
  else v <- load64 pte ;;; store64 pte (Z.land v (Z.lnot PTE_U)).

Definition copy_fuel (len : Z) : nat := S (Z.to_nat (len / PGSIZE + 2)).

Definition copyout (pagetable dstva src len : Z) : K kst Z :=
  iter (copy_fuel len) (λ '(dstva, src, len),
    if len >? 0 then
      let va0 := PGROUNDDOWN dstva in
      pa0 <- walkaddr pagetable va0 ;;;
      if pa0 =? 0 then ret (inr (-1))
      else
        let n := PGSIZE - (dstva - va0) in
        let n := if n >? len then len else n in
        do_memmove (pa0 + (dstva - va0)) src n ;;;
        ret (inl (u64 (va0 + PGSIZE), src + n, len - n))
    else ret (inr 0)) (dstva, src, len).

Definition copyin (pagetable dst srcva len : Z) : K kst Z :=
  iter (copy_fuel len) (λ '(dst, srcva, len),
    if len >? 0 then
      let va0 := PGROUNDDOWN srcva in
      pa0 <- walkaddr pagetable va0 ;;;
      if pa0 =? 0 then ret (inr (-1))
      else
        let n := PGSIZE - (srcva - va0) in
        let n := if n >? len then len else n in
        do_memmove dst (pa0 + (srcva - va0)) n ;;;
        ret (inl (dst + n, u64 (va0 + PGSIZE), len - n))
    else ret (inr 0)) (dst, srcva, len).

(** The inner loop of copyinstr over the bytes of one page: [inl] when the
    page is exhausted, with the advanced [dst] and [max]; [inr] when the
    terminating NUL was copied. *)
Definition copyinstr_page (p dst n max : Z) : K kst (Z * Z + unit) :=
  iter (S (Z.to_nat n)) (λ '(p, dst, n, max),
    if n >? 0 then
      c <- gets (λ s, rd8 (kmem s) p) ;;;
      if c =? 0 then
        modify (λ s, set_kmem (wr8 (kmem s) dst 0) s) ;;; ret (inr (inr tt))
      else
        modify (λ s, set_kmem (wr8 (kmem s) dst c) s) ;;;
        ret (inl (p + 1, dst + 1, n - 1, max - 1))
    else ret (inr (inl (dst, max)))) (p, dst, n, max).

Definition copyinstr (pagetable dst srcva max : Z) : K kst Z :=
  iter (copy_fuel max) (λ '(dst, srcva, max),
    if max >? 0 then
      let va0 := PGROUNDDOWN srcva in
      pa0 <- walkaddr pagetable va0 ;;;
      if pa0 =? 0 then ret (inr (-1))
      else
        let n := PGSIZE - (srcva - va0) in
        let n := if n >? max then max else n in
        r <- copyinstr_page (pa0 + (srcva - va0)) dst n max ;;;
        match r with
        | inr _ => ret (inr 0)
        | inl (dst', max') => ret (inl (dst', u64 (va0 + PGSIZE), max'))
        end
    else ret (inr (-1))) (dst, srcva, max).

(** proc.c:proc_mapstacks, called by kvmmake. *)
Definition proc_mapstacks (kpgtbl : Z) : K kst unit :=
  iter (S (Z.to_nat NPROC)) (λ p,
    if p <? NPROC then
      pa <- kalloc ;;;
      if pa =? 0 then panic "kalloc"
      else kvmmap kpgtbl (KSTACK p) pa PGSIZE (Z.lor PTE_R PTE_W) ;;; ret (inl (p + 1))
    else ret (inr tt)) 0.

Definition kvmmake : K kst Z :=
  kpgtbl <- kalloc ;;;
  do_memset kpgtbl 0 PGSIZE ;;;
  kvmmap kpgtbl UART0 UART0 PGSIZE (Z.lor PTE_R PTE_W) ;;;
  kvmmap kpgtbl VIRTIO0 VIRTIO0 PGSIZE (Z.lor PTE_R PTE_W) ;;;
  kvmmap kpgtbl PLIC PLIC 0x400000 (Z.lor PTE_R PTE_W) ;;;
  kvmmap kpgtbl KERNBASE KERNBASE (etext - KERNBASE) (Z.lor PTE_R PTE_X) ;;;
  kvmmap kpgtbl etext etext (PHYSTOP - etext) (Z.lor PTE_R PTE_W) ;;;
  kvmmap kpgtbl TRAMPOLINE trampoline PGSIZE (Z.lor PTE_R PTE_X) ;;;
  proc_mapstacks kpgtbl ;;;
  ret kpgtbl.
End Vm.
