(* ===== verification/VmSpec.v ===== *)
(** Correctness of kernel/vm.c (definitions in Vm.v).

    A page table is viewed as a total function from virtual addresses to
    page-table entries ([pteval], 0 where no table exists).  [pt_wf] says that
    the tables form a tree of distinct allocator pages.  Under it, walk with
    allocation leaves the view unchanged, and mappages and uvmunmap change it
    exactly at the addresses they are given. *)

From S2P Require Import Prelude Mem CString Riscv Spinlock Kalloc Vm.
Local Open Scope kernel_scope.

(** ** The tree of tables *)

Definition entry (m : mem) (pt i : Z) : option Z :=
  let v := rd64 m (pte_addr pt i) in if valid v then Some (PTE2PA v) else None.

(** The table reached from [pt] by following the indices [π]. *)
Fixpoint node (m : mem) (pt : Z) (π : list Z) : option Z :=
  match π with
  | [] => Some pt
  | i :: π' => p ← entry m pt i; node m p π'
  end.

Definition path_ok (π : list Z) : Prop := (length π ≤ 2)%nat ∧ Forall (λ i, 0 <= i < 512) π.

Definition is_node (m : mem) (root p : Z) : Prop := ∃ π, path_ok π ∧ node m root π = Some p.

(** The two indices that lead to the lowest table of an address. *)
Definition vpath (va : Z) : list Z := [PX 2 va; PX 1 va].

(** The page-table entry of an address, 0 when its lowest table is missing. *)
Definition pteval (m : mem) (root va : Z) : Z :=
  match node m root (vpath va) with
  | Some p => rd64 m (pte_addr p (PX 0 va))
  | None => 0
  end.

(** An entry that leads to a table has no permissions, and the addresses
    below MAXVA use half of the root table. *)
Definition dir_entry (π : list Z) (i v : Z) : Prop :=
  Z.land v (Z.lor (Z.lor PTE_R PTE_W) PTE_X) = 0 ∧ (π = [] → i < 256).

Record pt_wf (kend : Z) (m : mem) (root : Z) : Prop := {
  pw_page π p : path_ok π → node m root π = Some p → page_ok kend p;
  pw_inj π1 π2 p : path_ok π1 → path_ok π2 →
    node m root π1 = Some p → node m root π2 = Some p → π1 = π2;
  pw_dir π i p : path_ok (π ++ [i]) → node m root π = Some p → entry m p i ≠ None →
    dir_entry π i (rd64 m (pte_addr p i))
}.

Lemma node_snoc m pt π i : node m pt (π ++ [i]) = (p ← node m pt π; entry m p i).
Proof.
  revert pt. induction π as [|j π IH]; intros pt; simpl.
  { by destruct (entry m pt i). }
  destruct (entry m pt j); simpl; [apply IH|done].
Qed.

Lemma PX_root va : 0 <= va < MAXVA → PX 2 va < 256.
Proof.
  change MAXVA with (2 ^ 38). intros Hva. rewrite PX_eq by lia. change (2 ^ (12 + 9 * 2)) with 1073741824. zdm.
Qed.

Lemma vpath_ok va : path_ok (vpath va).
Proof. split; [done|]. repeat constructor; by apply PX_range. Qed.

Lemma path_ok_nil : path_ok [].
Proof. split; [simpl; lia|constructor]. Qed.

Lemma path_ok_snoc π i : path_ok (π ++ [i]) → path_ok π ∧ 0 <= i < 512 ∧ (length π ≤ 1)%nat.
Proof.
  intros [Hl Hf]. rewrite length_app in Hl. simpl in Hl.
  apply Forall_app in Hf as [? Hi]. rewrite Forall_singleton in Hi.
  split; [split; [lia|done]|]. split; lia.
Qed.

Lemma pte_addr_page p i : 0 <= i < 512 → p <= pte_addr p i ∧ pte_addr p i + 8 <= p + 4096.
Proof. unfold pte_addr. lia. Qed.

(** Entries of a table are read unchanged from a memory that agrees on it. *)
Lemma entry_agree m m' p i :
  0 <= i < 512 → agree m m' p 4096 → entry m' p i = entry m p i.
Proof.
  intros Hi Hag. unfold entry. pose proof (pte_addr_page p i Hi).
  rewrite (rd64_ext m m'); [done|]. eapply agree_sub; [done|lia|lia].
Qed.

(** A memory that keeps the entries of the upper tables keeps the tree. *)
Lemma node_ext m m' root π :
  path_ok π →
  (∀ π' i p, path_ok (π' ++ [i]) → node m root π' = Some p → entry m' p i = entry m p i) →
  node m' root π = node m root π.
Proof.
  intros Hp Hext. induction π as [|i π IH] using rev_ind; [done|].
  destruct (path_ok_snoc _ _ Hp) as [Hp' _]. rewrite !node_snoc, IH by done.
  destruct (node m root π) eqn:E; simpl; [|done]. by eapply Hext.
Qed.

(** The memories hold the same entries in the upper tables. *)
Definition same_dirs (m m' : mem) (root : Z) : Prop :=
  ∀ π i p, path_ok (π ++ [i]) → node m root π = Some p → rd64 m' (pte_addr p i) = rd64 m (pte_addr p i).

Lemma same_dirs_node m m' root π : path_ok π → same_dirs m m' root → node m' root π = node m root π.
Proof. intros Hπ Hd. apply node_ext; [done|]. intros π' i p Hp Hn. unfold entry. by rewrite (Hd π'). Qed.

Lemma pt_wf_ext kend m m' root : same_dirs m m' root → pt_wf kend m root → pt_wf kend m' root.
Proof.
  intros Hd Hw. assert (Hn : ∀ π, path_ok π → node m' root π = node m root π) by (intros; by apply same_dirs_node).
  split.
  - intros π p Hπ. rewrite Hn by done. by apply (pw_page _ _ _ Hw).
  - intros π1 π2 p H1 H2. rewrite !Hn by done. by apply (pw_inj _ _ _ Hw).
  - intros π i p Hπ. destruct (path_ok_snoc _ _ Hπ) as (Hπ' & _). rewrite Hn by done. intros Hp.
    unfold entry. rewrite (Hd π) by done. by apply (pw_dir _ _ _ Hw).
Qed.

Lemma agree_dirs m m' root : (∀ p, is_node m root p → agree m m' p 4096) → same_dirs m m' root.
Proof.
  intros Hag π i p Hπ Hp. destruct (path_ok_snoc _ _ Hπ) as (Hπ' & Hi & _). pose proof (pte_addr_page p i Hi).
  apply rd64_ext. eapply agree_sub; [apply Hag; by exists π|lia|lia].
Qed.

Lemma pt_wf_frame kend m m' root :
  (∀ p, is_node m root p → agree m m' p 4096) → pt_wf kend m root → pt_wf kend m' root.
Proof. intros Hag. by apply pt_wf_ext, agree_dirs. Qed.

Lemma suffix_not_in {A} (x : A) (l l' : list A) : l' `suffix_of` l → x ∉ l → x ∉ l'.
Proof. intros [k ->]. set_solver. Qed.

Section Tree.
Variable kend : Z.
Hypothesis kend_pos : 0 < kend.

Lemma node_disjoint m root π1 π2 p q :
  pt_wf kend m root → path_ok π1 → path_ok π2 → π1 ≠ π2 →
  node m root π1 = Some p → node m root π2 = Some q → p + 4096 <= q ∨ q + 4096 <= p.
Proof.
  intros Hw H1 H2 Hne Hp Hq. apply pages_disjoint.
  - by eapply (pw_page _ _ _ Hw π1).
  - by eapply (pw_page _ _ _ Hw π2).
  - intros ->. apply Hne. by eapply (pw_inj _ _ _ Hw).
Qed.

(** *** Writing an entry of a lowest table *)

Lemma dirs_leaf_write m root π2 p2 i0 v :
  pt_wf kend m root → path_ok π2 → length π2 = 2%nat → node m root π2 = Some p2 → 0 <= i0 < 512 →
  same_dirs m (wr64 m (pte_addr p2 i0) v) root.
Proof.
  intros Hw Hπ2 Hlen Hp2 Hi0 π i p Hp Hn. apply path_ok_snoc in Hp as (Hp' & Hi & Hlen').
  pose proof (pte_addr_page p2 i0 Hi0). pose proof (pte_addr_page p i Hi). apply rd64_wr64_ne.
  assert (Hd : p + 4096 <= p2 ∨ p2 + 4096 <= p).
  { eapply (node_disjoint m root π π2); try done. intros ->. lia. }
  lia.
Qed.

Lemma pteval_leaf_write m root va v p2 :
  pt_wf kend m root → 0 <= va < MAXVA → node m root (vpath va) = Some p2 →
  let m' := wr64 m (pte_addr p2 (PX 0 va)) v in
  pt_wf kend m' root ∧
  (∀ π, path_ok π → node m' root π = node m root π) ∧
  (∀ va', 0 <= va' < MAXVA → pteval m' root va' =
     if decide (va' / 4096 = va / 4096) then u64 v else pteval m root va').
Proof.
  intros Hw Hva Hp2 m'. assert (Hi0 := PX_range 0 va ltac:(lia)).
  assert (Hd : same_dirs m m' root) by (apply (dirs_leaf_write m root (vpath va)); auto using vpath_ok).
  assert (Hn : ∀ π, path_ok π → node m' root π = node m root π) by (intros; by apply same_dirs_node).
  split_and!; [by eapply pt_wf_ext|done|]. intros va' Hva'. unfold pteval.
  rewrite Hn by apply vpath_ok. case_decide as E.
  - assert (Hv : ∀ l, 0 <= l → PX l va' = PX l va).
    { intros l Hl. rewrite <-(PX_page va'), <-(PX_page va) by done. by rewrite E. }
    unfold vpath in *. rewrite !Hv by lia. rewrite Hp2. apply rd64_wr64_same.
  - destruct (node m root (vpath va')) as [p|] eqn:Ep; [|done].
    apply rd64_wr64_ne. unfold pte_addr. assert (Hi0' := PX_range 0 va' ltac:(lia)).
    destruct (decide (vpath va' = vpath va)) as [Eq|Hne].
    + rewrite Eq, Hp2 in Ep. injection Ep as <-. unfold vpath in Eq. injection Eq as E2 E1.
      assert (PX 0 va' ≠ PX 0 va) by (intros E0; apply E; by apply PX_inj). lia.
    + destruct (node_disjoint m root (vpath va') (vpath va) p p2); auto using vpath_ok; lia.
Qed.

(** *** Linking a new, zeroed table *)

Lemma entry_zero m q i : 0 <= i < 512 → entry (memset m q 0 PGSIZE) q i = None.
Proof.
  intros Hi. unfold entry. pose proof (pte_addr_page q i Hi).
  by rewrite rd64_memset_0 by (unfold PGSIZE; lia).
Qed.

Lemma mk_table_pte q : page_ok kend q →
  u64 (Z.lor (PA2PTE q) PTE_V) = Z.lor (PA2PTE q) PTE_V ∧
  valid (Z.lor (PA2PTE q) PTE_V) = true ∧ PTE2PA (Z.lor (PA2PTE q) PTE_V) = q.
Proof.
  intros Hq. pose proof (page_ok_range kend kend_pos q Hq) as Hr. destruct Hq as [Hal _].
  change PHYSTOP with 2281701376 in Hr.
  change PTE_V with 1. rewrite mk_pte_eq by lia. split_and!.
  - apply u64_small. zdm.
  - unfold valid. rewrite land_flag by (vm_compute; done).
    rewrite <-mk_pte_eq, PTE_FLAGS_mk by lia. done.
  - rewrite <-mk_pte_eq by lia. apply PTE2PA_mk; lia || done.
Qed.

Lemma table_pte_dir q : page_ok kend q → Z.land (Z.lor (PA2PTE q) PTE_V) (Z.lor (Z.lor PTE_R PTE_W) PTE_X) = 0.
Proof.
  intros Hq. pose proof (page_ok_range kend kend_pos q Hq) as Hr. change PHYSTOP with 2281701376 in Hr.
  change PTE_V with 1. rewrite mk_pte_eq, land_flag by (lia || vm_compute; done). rewrite <-mk_pte_eq, PTE_FLAGS_mk by lia. done.
Qed.

Section NewTable.
Variables (m : mem) (root : Z) (π0 : list Z) (i p q : Z).
Hypothesis Hw : pt_wf kend m root.
Hypothesis Hπ0 : path_ok (π0 ++ [i]).
Hypothesis Hp : node m root π0 = Some p.
Hypothesis Hinv : entry m p i = None.
Hypothesis Hq : page_ok kend q.
Hypothesis Hfresh : ¬ is_node m root q.
Hypothesis Hlow : π0 = [] → i < 256.

Let m' : mem := wr64 (memset m q 0 PGSIZE) (pte_addr p i) (Z.lor (PA2PTE q) PTE_V).

Lemma new_q_disjoint π p' : path_ok π → node m root π = Some p' → p' + 4096 <= q ∨ q + 4096 <= p'.
Proof.
  intros Hπ Hn. apply pages_disjoint; [by eapply (pw_page _ _ _ Hw π)|by apply Hq|].
  intros ->. apply Hfresh. by exists π.
Qed.

(** Entries of the other tables, and the other entries of [p], are kept. *)
Lemma new_entry π p' j :
  path_ok π → node m root π = Some p' → 0 <= j < 512 → ¬ (π = π0 ∧ j = i) →
  rd64 m' (pte_addr p' j) = rd64 m (pte_addr p' j).
Proof.
  intros Hπ Hn Hj Hne. destruct (path_ok_snoc _ _ Hπ0) as (Hπ0' & Hi & _).
  pose proof (pte_addr_page p' j Hj). pose proof (pte_addr_page p i Hi).
  pose proof (new_q_disjoint π p' Hπ Hn). unfold m'. rewrite rd64_wr64_ne.
  - apply rd64_ext. eapply agree_out_agree; [apply memset_agree_out|]. unfold PGSIZE. lia.
  - destruct (decide (π = π0)) as [->|Hd].
    + rewrite Hp in Hn. injection Hn as <-. unfold pte_addr in *.
      assert (j ≠ i) by naive_solver. lia.
    + destruct (node_disjoint m root π π0 p' p); auto; lia.
Qed.

Lemma new_slot : entry m' p i = Some q.
Proof.
  unfold entry, m'. rewrite rd64_wr64_same.
  destruct (mk_table_pte q Hq) as (-> & -> & ->). done.
Qed.

Lemma new_zero j : 0 <= j < 512 → rd64 m' (pte_addr q j) = 0.
Proof.
  intros Hj. destruct (path_ok_snoc _ _ Hπ0) as (Hπ0' & Hi & _).
  pose proof (pte_addr_page q j Hj). pose proof (pte_addr_page p i Hi).
  pose proof (new_q_disjoint π0 p Hπ0' Hp). unfold m'. rewrite rd64_wr64_ne by lia.
  apply rd64_memset_0; unfold PGSIZE; lia.
Qed.

Lemma new_node π :
  path_ok π →
  node m' root π =
    if decide (π = π0 ++ [i]) then Some q
    else if decide (π0 ++ [i] `prefix_of` π) then None else node m root π.
Proof.
  induction π as [|j π IH] using rev_ind; intros Hπ.
  { rewrite decide_False by (by destruct π0). rewrite decide_False; [done|].
    intros H%prefix_nil_inv. by destruct π0. }
  destruct (path_ok_snoc _ _ Hπ) as (Hπ' & Hj & Hlen).
  rewrite !node_snoc, IH by done. clear IH.
  destruct (decide (π = π0 ++ [i])) as [->|Hne].
  { simpl. unfold entry. rewrite new_zero by done. simpl.
    rewrite decide_False by (intros E; by apply (f_equal length) in E; rewrite !length_app in E; simpl in E; lia).
    rewrite decide_True by by apply prefix_app_r. done. }
  destruct (decide (π0 ++ [i] `prefix_of` π)) as [Hpre|Hnpre].
  { simpl. rewrite decide_False.
    - by rewrite decide_True by by apply prefix_app_r.
    - intros [-> ->]%app_inj_tail. apply prefix_length in Hpre. rewrite length_app in Hpre.
      simpl in Hpre. lia. }
  assert (Hpre' : π0 ++ [i] `prefix_of` π ++ [j] → π ++ [j] = π0 ++ [i]).
  { intros [k Hk]. destruct k as [|x k _] using rev_ind; [by rewrite app_nil_r in Hk|].
    rewrite app_assoc in Hk. apply app_inj_tail in Hk as [-> _]. destruct Hnpre.
    by apply prefix_app_r. }
  destruct (decide (π ++ [j] = π0 ++ [i])) as [[-> ->]%app_inj_tail|Hne'].
  { rewrite Hp. simpl. apply new_slot. }
  rewrite (decide_False (P := π0 ++ [i] `prefix_of` π ++ [j])) by tauto.
  destruct (node m root π) as [p'|] eqn:Ep; simpl; [|done].
  unfold entry. rewrite (new_entry π p' j Hπ' Ep Hj); [done|].
  intros [-> ->]. done.
Qed.

Lemma old_below π : path_ok π → π0 ++ [i] `prefix_of` π → node m root π = None.
Proof.
  intros Hπ [k ->]. clear Hπ. induction k as [|x k IH] using rev_ind.
  - rewrite app_nil_r, node_snoc, Hp. done.
  - by rewrite app_assoc, node_snoc, IH.
Qed.

Lemma new_table_wf : pt_wf kend m' root.
Proof.
  split.
  - intros π p' Hπ. rewrite new_node by done. repeat case_decide; [by intros [= <-]|done|].
    by apply (pw_page _ _ _ Hw).
  - intros π1 π2 p' H1 H2. rewrite !new_node by done. repeat case_decide; subst; try done.
    + intros [= <-] Hn. exfalso. apply Hfresh. by exists π2.
    + intros Hn [= <-]. exfalso. apply Hfresh. by exists π1.
    + by apply (pw_inj _ _ _ Hw).
  - intros π j p' Hπ. destruct (path_ok_snoc _ _ Hπ) as (Hπ' & Hj & Hl). rewrite new_node by done. repeat case_decide; subst; [|done|].
    + intros [= <-] He. destruct He. unfold entry. by rewrite new_zero.
    + intros Hn. destruct (decide (π = π0 ∧ j = i)) as [[-> ->]|Hne].
      * intros _. rewrite Hp in Hn. injection Hn as <-. unfold m'. rewrite rd64_wr64_same. split; [|done].
        destruct (mk_table_pte q Hq) as (-> & _ & _). apply table_pte_dir, Hq.
      * unfold entry. rewrite (new_entry π p' j) by done. by apply (pw_dir _ _ _ Hw).
Qed.

Lemma new_table_nodes p' : is_node m' root p' ↔ is_node m root p' ∨ p' = q.
Proof.
  split.
  - intros (π & Hπ & Hn). rewrite new_node in Hn by done. repeat case_decide; simplify_eq; [by right|].
    left. by exists π.
  - intros [(π & Hπ & Hn)| ->].
    + exists π. split; [done|]. rewrite new_node by done.
      assert (Hb : ¬ π0 ++ [i] `prefix_of` π) by (intros Hb; by rewrite old_below in Hn).
      rewrite decide_False by (intros ->; by apply Hb). by rewrite decide_False.
    + exists (π0 ++ [i]). split; [done|]. rewrite new_node by done. by rewrite decide_True.
Qed.

Lemma new_table_pteval va : pteval m' root va = pteval m root va.
Proof.
  unfold pteval. assert (Hv := vpath_ok va). assert (H0 := PX_range 0 va ltac:(lia)).
  rewrite new_node by done. case_decide as E; [|case_decide as E2].
  - rewrite new_zero by done. rewrite old_below; [done|done|by rewrite E].
  - by rewrite old_below.
  - destruct (node m root (vpath va)) as [p'|] eqn:En; [|done].
    apply (new_entry (vpath va)); [done|done|done|]. intros [Hv' _]. 
    rewrite <-Hv' in Hπ0. destruct Hπ0 as [Hl _]. simpl in Hl. lia.
Qed.
End NewTable.

(** *** Memory changed outside the tables *)

Lemma tree_frame m m' root :
  (∀ p, is_node m root p → agree m m' p 4096) →
  (∀ π, path_ok π → node m' root π = node m root π) ∧
  (∀ va, pteval m' root va = pteval m root va).
Proof.
  intros Hag.
  assert (Hn : ∀ π, path_ok π → node m' root π = node m root π).
  { intros π Hπ. apply node_ext; [done|]. intros π' i p Hp' Hn.
    apply path_ok_snoc in Hp' as (Hp' & Hi & _). apply entry_agree; [done|].
    apply Hag. by exists π'. }
  split; [done|]. intros va. unfold pteval. rewrite Hn by apply vpath_ok.
  destruct (node m root (vpath va)) as [p|] eqn:E; [|done].
  apply rd64_ext. assert (Hi := PX_range 0 va ltac:(lia)).
  pose proof (pte_addr_page p _ Hi). apply (agree_sub _ _ p 4096); [apply Hag|lia|lia].
  exists (vpath va). auto using vpath_ok.
Qed.

Lemma is_node_ext m m' root p :
  (∀ π, path_ok π → node m' root π = node m root π) → is_node m' root p ↔ is_node m root p.
Proof. intros H. split; intros (π & Hπ & Hn); exists π; split; auto; [by rewrite <-H|by rewrite H]. Qed.

Lemma is_node_root m root : is_node m root root.
Proof. exists []. split; [apply path_ok_nil|done]. Qed.

(** ** The invariant shared by the page-table operations *)

(** [root] is a well-formed page table none of whose tables is free. *)
Definition pt_inv (s : kst) (root : Z) (l : list Z) : Prop :=
  kinv kend s l ∧ pt_wf kend (kmem s) root ∧ ∀ p, is_node (kmem s) root p → p ∉ l.

(** What an operation that may add tables to [root] guarantees. *)
Record pt_grow (root : Z) (s : kst) (l : list Z) (s' : kst) (l' : list Z) : Prop := {
  pg_inv : pt_inv s' root l';
  pg_used : l' `suffix_of` l;
  pg_nodes p : is_node (kmem s') root p → is_node (kmem s) root p ∨ p ∈ l;
  pg_frame p : page_aligned p → p ∉ l → ¬ is_node (kmem s) root p →
    agree (kmem s) (kmem s') p 4096
}.

(** No page is lost: the tables stay, and a page taken from the free list
    has become a table. *)
Record pt_keep (root : Z) (s : kst) (l : list Z) (s' : kst) (l' : list Z) : Prop := {
  pk_nodes p : is_node (kmem s) root p → is_node (kmem s') root p;
  pk_pages p : p ∈ l → p ∈ l' ∨ is_node (kmem s') root p
}.

Lemma pt_keep_trans root s1 l1 s2 l2 s3 l3 :
  pt_keep root s1 l1 s2 l2 → pt_keep root s2 l2 s3 l3 → pt_keep root s1 l1 s3 l3.
Proof.
  intros H1 H2. split.
  - intros p Hp. by apply H2, H1.
  - intros p [Hp|Hp]%(pk_pages _ _ _ _ _ H1); [by apply H2|right; by apply H2].
Qed.

Lemma pt_keep_same root s l s' :
  (∀ p, is_node (kmem s') root p ↔ is_node (kmem s) root p) → pt_keep root s l s' l.
Proof. intros H. split; [by intros p ?%H|by left]. Qed.

Lemma pt_grow_refl root s l : pt_inv s root l → pt_grow root s l s l.
Proof. intros. split; [done|done|by left|by intros; apply agree_refl]. Qed.

Lemma pt_grow_trans root s1 l1 s2 l2 s3 l3 :
  pt_grow root s1 l1 s2 l2 → pt_grow root s2 l2 s3 l3 → pt_grow root s1 l1 s3 l3.
Proof.
  intros H1 H2. split.
  - apply H2.
  - etrans; [apply H2|apply H1].
  - intros p [Hp|Hp]%(pg_nodes _ _ _ _ _ H2); [by apply H1|right].
    destruct (pg_used _ _ _ _ _ H1) as [k ->]. set_solver.
  - intros p Hal Hp Hn. eapply agree_trans; [by apply H1|]. apply H2; [done| |].
    + eapply suffix_not_in; [apply H1|done].
    + by intros [?|?]%(pg_nodes _ _ _ _ _ H1).
Qed.

Lemma node_page_aligned m root p : pt_wf kend m root → is_node m root p → page_ok kend p.
Proof. intros Hw (π & Hπ & Hn). by eapply (pw_page _ _ _ Hw π). Qed.

(** Changing pages that are neither tables nor free keeps the invariant. *)
Lemma pt_inv_frame s root l m :
  pt_inv s root l →
  (∀ p, is_node (kmem s) root p ∨ p ∈ l → agree (kmem s) m p 4096) →
  pt_inv (set_kmem m s) root l ∧
  (∀ va, pteval m root va = pteval (kmem s) root va) ∧
  (∀ p, is_node m root p ↔ is_node (kmem s) root p).
Proof.
  intros (Hk & Hw & Hd) Hag. destruct (tree_frame (kmem s) m root) as [Hn Hv]; [auto|].
  split_and!; [|done|intros; by apply is_node_ext]. split_and!.
  - apply kinv_frame; auto.
  - eapply pt_wf_frame; [|done]. auto.
  - intros p Hp%(is_node_ext _ _ _ _ Hn). by apply Hd.
Qed.

(** kalloc seen by a page-table operation: the new page is neither a table
    nor free, and the view is unchanged. *)
Lemma kalloc_grow s root q l :
  pt_inv s root (q :: l) →
  let s' := mkK false (rd64 (kmem s) q) (memset (kmem s) q 5 PGSIZE) in
  kalloc s = Ok q s' ∧ pt_grow root s (q :: l) s' l ∧ page_ok kend q ∧ q ∉ l ∧
  ¬ is_node (kmem s') root q ∧ (∀ va, pteval (kmem s') root va = pteval (kmem s) root va) ∧
  (∀ π, path_ok π → node (kmem s') root π = node (kmem s) root π) ∧
  (∀ p, is_node (kmem s) root p → agree (kmem s) (kmem s') p 4096).
Proof.
  intros (Hk & Hw & Hd) s'.
  assert (Hq : page_ok kend q) by by eapply kinv_page, list_elem_of_here.
  assert (Hqn : ¬ is_node (kmem s) root q) by (intros H%Hd; set_solver).
  assert (Hag : ∀ p, is_node (kmem s) root p → agree (kmem s) (kmem s') p 4096).
  { intros p Hp. eapply agree_out_agree; [apply memset_agree_out|]. unfold PGSIZE.
    apply or_comm. apply pages_disjoint; [apply Hq|by eapply node_page_aligned|by intros ->]. }
  destruct (tree_frame _ _ _ Hag) as [Hn Hv].
  pose proof Hk as (_ & Hnd & _). apply NoDup_cons in Hnd as [Hql _].
  split_and!; [by eapply kalloc_eq| |done|done| |done|done|done].
  - split.
    + split_and!; [by eapply kinv_alloc|by eapply pt_wf_frame|].
      intros p Hp%(is_node_ext _ _ _ _ Hn) Hl. apply (Hd p Hp). set_solver.
    + by exists [q].
    + intros p Hp%(is_node_ext _ _ _ _ Hn). by left.
    + intros p Hal Hp _. eapply agree_out_agree; [apply memset_agree_out|]. unfold PGSIZE.
      apply or_comm. apply pages_disjoint; [apply Hq|done|set_solver].
  - by rewrite (is_node_ext _ _ _ _ Hn).
Qed.

(** Linking the page [q] as a new table below the table [p]. *)
Lemma link_grow s root l π0 i p q :
  pt_inv s root l → path_ok (π0 ++ [i]) → (π0 = [] → i < 256) → node (kmem s) root π0 = Some p →
  entry (kmem s) p i = None → page_ok kend q → ¬ is_node (kmem s) root q → q ∉ l →
  let m' := wr64 (memset (kmem s) q 0 PGSIZE) (pte_addr p i) (Z.lor (PA2PTE q) PTE_V) in
  pt_inv (set_kmem m' s) root l ∧
  node m' root (π0 ++ [i]) = Some q ∧
  (∀ va, pteval m' root va = pteval (kmem s) root va) ∧
  (∀ p', is_node m' root p' ↔ is_node (kmem s) root p' ∨ p' = q) ∧
  (∀ p', page_aligned p' → p' ≠ q → ¬ is_node (kmem s) root p' → agree (kmem s) m' p' 4096).
Proof.
  intros (Hk & Hw & Hd) Hπ Hlow Hp He Hq Hqn Hql m'.
  destruct (path_ok_snoc _ _ Hπ) as (Hπ' & Hi & _).
  assert (Hpn : is_node (kmem s) root p) by by exists π0.
  assert (Hfr : ∀ p', page_aligned p' → p' ≠ q → p' ≠ p → agree (kmem s) m' p' 4096).
  { intros p' Hal Hne Hne'. apply (agree_trans _ (memset (kmem s) q 0 PGSIZE)).
    - eapply agree_out_agree; [apply memset_agree_out|]. unfold PGSIZE. apply or_comm.
      apply pages_disjoint; [apply Hq|done|done].
    - eapply agree_out_agree; [apply wr64_agree_out|]. pose proof (pte_addr_page p i Hi).
      destruct (pages_disjoint p p'); [by eapply node_page_aligned|done|done|lia|lia]. }
  split_and!; [split; [|split]|..].
  - apply kinv_frame; [done|done|]. intros p' Hp'. apply Hfr; [by eapply kinv_page|set_solver|].
    intros ->. by eapply Hd.
  - by eapply new_table_wf.
  - intros p' Hp'. eapply new_table_nodes in Hp'; [|done..].
    destruct Hp' as [Hp'| ->]; [by apply Hd|done].
  - unfold m'. erewrite new_node by done. by rewrite decide_True.
  - intros va. by eapply new_table_pteval.
  - intros p'. by eapply new_table_nodes.
  - intros p' Hal Hne Hn. apply Hfr; [done|done|by intros ->].
Qed.
End Tree.

(** ** walk and walkaddr *)

Lemma vpath_take k va :
  (S k ≤ 2)%nat →
  take (2 - k) (vpath va) = take (2 - S k) (vpath va) ++ [PX (Z.of_nat (S k)) va].
Proof. intros. destruct k as [|[|k]]; [done|done|lia]. Qed.

Lemma vpath_take_ok k va : path_ok (take k (vpath va)).
Proof.
  destruct (vpath_ok va) as [H1 H2]. split; [rewrite length_take; lia|by apply Forall_take].
Qed.

(** The address walk returns without allocating. *)
Definition leaf (m : mem) (root va : Z) : Z :=
  match node m root (vpath va) with Some p => pte_addr p (PX 0 va) | None => 0 end.

Lemma walk_loop_false level π0 p s root va :
  (level ≤ 2)%nat → π0 = take (2 - level) (vpath va) → node (kmem s) root π0 = Some p →
  walk_loop level p va false s = Ok (leaf (kmem s) root va) s.
Proof.
  revert π0 p. induction level as [|k IH]; intros π0 p Hk -> Hp.
  - unfold leaf. simpl in *. by rewrite Hp.
  - cbn [walk_loop]. unfold bind, load64, gets.
    assert (He : node (kmem s) root (take (2 - k) (vpath va)) = entry (kmem s) p (PX (Z.of_nat (S k)) va)).
    { by rewrite vpath_take, node_snoc, Hp by done. }
    unfold entry in He.
    destruct (valid (rd64 (kmem s) (pte_addr p (PX (Z.of_nat (S k)) va)))) eqn:E.
    + by apply (IH _ _ ltac:(lia) eq_refl).
    + simpl. unfold ret, leaf. f_equal. symmetry.
      destruct k as [|[|k]]; [|change (take (2 - 1) (vpath va)) with [PX 2 va] in He|lia].
      * change (take (2 - 0) (vpath va)) with (vpath va) in He. by rewrite He.
      * change (vpath va) with ([PX 2 va] ++ [PX 1 va]). by rewrite node_snoc, He.
Qed.

Lemma walk_false s root va :
  va < MAXVA → walk root va false s = Ok (leaf (kmem s) root va) s.
Proof.
  intros Hva. unfold walk. rewrite Z.geb_leb. destruct (Z.leb_spec MAXVA va); [lia|].
  by eapply (walk_loop_false 2 []).
Qed.

(** The physical page that user code reaches through [va], 0 if there is none. *)
Definition upage (m : mem) (root va : Z) : Z :=
  if va >=? MAXVA then 0
  else
    let v := pteval m root va in
    if Z.land v PTE_V =? 0 then 0 else if Z.land v PTE_U =? 0 then 0 else PTE2PA v.

Section Walk.
Variable kend : Z.
Hypothesis kend_pos : 0 < kend.
Variable root : Z.

Lemma leaf_pos m va p :
  pt_wf kend m root → node m root (vpath va) = Some p → 0 < leaf m root va.
Proof.
  intros Hw Hn. unfold leaf. rewrite Hn. assert (Hp := pw_page _ _ _ Hw _ _ (vpath_ok va) Hn).
  apply page_ok_range in Hp; [|done]. pose proof (PX_range 0 va). unfold pte_addr. lia.
Qed.

Lemma walkaddr_eq s va :
  pt_wf kend (kmem s) root → walkaddr root va s = Ok (upage (kmem s) root va) s.
Proof.
  intros Hw. unfold walkaddr, upage. rewrite Z.geb_leb.
  destruct (Z.leb_spec MAXVA va); [done|]. unfold bind. rewrite walk_false by done.
  unfold pteval. destruct (node (kmem s) root (vpath va)) as [p|] eqn:Hn.
  - pose proof (leaf_pos _ _ _ Hw Hn). destruct (Z.eqb_spec (leaf (kmem s) root va) 0); [lia|].
    unfold load64, gets, leaf. rewrite Hn. by repeat case_match.
  - unfold leaf. rewrite Hn. done.
Qed.

Lemma runs_walk_loop level π0 p s l va :
  (level ≤ 2)%nat → 0 <= va < MAXVA → pt_inv kend s root l → π0 = take (2 - level) (vpath va) →
  node (kmem s) root π0 = Some p →
  runs (walk_loop level p va true) s (λ pte s', ∃ l',
    pt_grow kend root s l s' l' ∧ pt_keep root s l s' l' ∧
    (∀ va', pteval (kmem s') root va' = pteval (kmem s) root va') ∧ zlen l <= zlen l' + Z.of_nat level ∧
    (pte = 0 ∧ l' = [] ∨
     ∃ p2, node (kmem s') root (vpath va) = Some p2 ∧ pte = pte_addr p2 (PX 0 va))).
Proof.
  revert π0 p s l. induction level as [|k IH]; intros π0 p s l Hk Hva Hinv -> Hp.
  { apply runs_ret. exists l. split_and!; [by apply pt_grow_refl|by apply pt_keep_same|done|lia|].
    right. by exists p. }
  cbn [walk_loop]. unfold load64. kred.
  set (i := PX (Z.of_nat (S k)) va) in *.
  assert (Hi : path_ok (take (2 - S k) (vpath va) ++ [i])).
  { rewrite <-vpath_take by done. apply vpath_take_ok. }
  assert (He : node (kmem s) root (take (2 - k) (vpath va)) = entry (kmem s) p i).
  { by rewrite vpath_take, node_snoc, Hp by done. }
  unfold entry in He. destruct (valid (rd64 (kmem s) (pte_addr p i))) eqn:Ev.
  { eapply runs_mono; [by eapply IH; [lia|..]|]. intros pte s3 (l' & H1 & H2 & H3 & H4 & H5). exists l'. split_and!; done || lia. }
  simpl negb. cbv iota. apply runs_bind. destruct l as [|q l].
  { eapply runs_Ok; [by eapply kalloc_nil, Hinv|]. apply runs_ret. exists [].
    split_and!; [by apply pt_grow_refl|by apply pt_keep_same|done|simpl; lia|by left]. }
  destruct (kalloc_grow kend kend_pos s root q l Hinv) as (Heq & Hg1 & Hq & Hql & Hqn & Hv1 & Hn1 & Hag1).
  eapply runs_Ok; [exact Heq|]. set (s1 := mkK _ _ _) in *.
  pose proof (page_ok_range kend kend_pos q Hq). destruct (Z.eqb_spec q 0); [lia|].
  unfold do_memset, store64. kred. rewrite set_kmem_twice. cbn [kmem set_kmem].
  destruct (link_grow kend kend_pos s1 root l (take (2 - S k) (vpath va)) i p q)
    as (Hinv2 & Hn2 & Hv2 & Hnodes & Hfr); try done.
  { apply Hg1. }
  { intros E. destruct k as [|[|k]]; [done| |lia]. by apply PX_root. }
  { rewrite Hn1; [done|]. apply vpath_take_ok. }
  { rewrite (entry_agree (kmem s) (kmem s1)); [unfold entry; by rewrite Ev|by destruct (path_ok_snoc _ _ Hi) as (_ & ? & _)|].
    apply Hag1. eexists. split; [apply vpath_take_ok|done]. }
  rewrite <-vpath_take in Hn2 by done.
  eapply runs_mono; [by eapply IH; [lia|..]|].
  intros pte s3 (l' & Hg3 & Hk3 & Hv3 & Hu3 & Hres). exists l'.
  assert (Hn12 : ∀ p', is_node (kmem s1) root p' ↔ is_node (kmem s) root p') by (intros; by apply is_node_ext).
  split_and!; [| |intros; by rewrite Hv3, Hv2, Hv1|simpl; lia|done]; cycle 1.
  { eapply pt_keep_trans; [|exact Hk3]. split; intros p' Hp'; cbn [kmem set_kmem]; rewrite Hnodes, Hn12.
    - by left.
    - apply elem_of_cons in Hp' as [->|]; [by right; right|by left]. }
  eapply pt_grow_trans; [done| |exact Hg3]. split; [done|by exists [q]| |].
  - intros p' [Hp'| ->]%Hnodes; [by apply (pg_nodes _ _ _ _ _ _ Hg1)|right; by left].
  - intros p' Hal Hp' Hn'. eapply agree_trans; [by apply (pg_frame _ _ _ _ _ _ Hg1)|].
    apply Hfr; [done|intros ->; apply Hp'; by left|]. by intros [?|?]%(pg_nodes _ _ _ _ _ _ Hg1).
Qed.

(** walk with allocation: the view of the table is unchanged, and the entry
    it returns is that of [va]; it fails only when memory is exhausted. *)
Lemma runs_walk s l va :
  pt_inv kend s root l → 0 <= va < MAXVA →
  runs (walk root va true) s (λ pte s', ∃ l',
    pt_grow kend root s l s' l' ∧ pt_keep root s l s' l' ∧
    (∀ va', pteval (kmem s') root va' = pteval (kmem s) root va') ∧ zlen l <= zlen l' + 2 ∧
    (pte = 0 ∧ l' = [] ∨
     ∃ p2, node (kmem s') root (vpath va) = Some p2 ∧ pte = pte_addr p2 (PX 0 va))).
Proof.
  intros Hinv Hva. unfold walk. rewrite Z.geb_leb. destruct (Z.leb_spec MAXVA va); [lia|].
  by eapply (runs_walk_loop 2 []); [lia|..].
Qed.

(** Storing an entry in the lowest table of [va]. *)
Lemma leaf_store_grow s l va p2 v :
  pt_inv kend s root l → 0 <= va < MAXVA → node (kmem s) root (vpath va) = Some p2 →
  let m' := wr64 (kmem s) (pte_addr p2 (PX 0 va)) v in
  pt_grow kend root s l (set_kmem m' s) l ∧ pt_keep root s l (set_kmem m' s) l ∧
  (∀ va', 0 <= va' < MAXVA → pteval m' root va' =
     if decide (va' / 4096 = va / 4096) then u64 v else pteval (kmem s) root va').
Proof.
  intros (Hk & Hw & Hd) Hva Hp m'.
  destruct (pteval_leaf_write kend (kmem s) root va v p2 Hw Hva Hp) as (Hw' & Hn & Hv).
  assert (Hin : is_node (kmem s) root p2) by (exists (vpath va); auto using vpath_ok).
  assert (Hok : page_ok kend p2) by by eapply (pw_page _ _ _ Hw (vpath va)), Hp; apply vpath_ok.
  assert (Hfr : ∀ q, page_aligned q → q ≠ p2 → agree (kmem s) m' q 4096).
  { intros q Hq Hne. eapply agree_out_agree; [apply wr64_agree_out|].
    pose proof (pte_addr_page p2 (PX 0 va) (PX_range 0 va ltac:(lia))).
    destruct (pages_disjoint q p2); [done|apply Hok|done|lia|lia]. }
  split; [|split; [apply pt_keep_same; intros; by apply is_node_ext|done]]. split; [|done| |].
  - split; [|split].
    + apply kinv_frame; [done|done|]. intros q Hq. apply Hfr; [by eapply kinv_page|].
      intros ->. by eapply Hd.
    + done.
    + intros q Hq%(is_node_ext _ _ _ _ Hn). by apply Hd.
  - intros q Hq%(is_node_ext _ _ _ _ Hn). by left.
  - intros q Hal _ Hq. apply Hfr; [done|by intros ->].
Qed.
End Walk.

(** ** mappages *)

(** The entry that mappages stores. *)
Definition mkpte (pa perm : Z) : Z := Z.lor (Z.lor (PA2PTE pa) perm) PTE_V.

Lemma lor_flags f g : 0 <= f < 1024 → 0 <= g < 1024 → 0 <= Z.lor f g < 1024.
Proof.
  intros Hf Hg. split; [apply Z.lor_nonneg; lia|].
  destruct (decide (Z.lor f g = 0)) as [->|]; [done|].
  assert (0 <= Z.lor f g) by (apply Z.lor_nonneg; lia).
  change 1024 with (2 ^ 10). apply Z.log2_lt_pow2; [lia|]. rewrite Z.log2_lor by lia.
  apply Z.max_lub_lt;
    match goal with |- Z.log2 ?x < 10 =>
      destruct (decide (x = 0)) as [->|]; [done|apply Z.log2_lt_pow2; simpl; lia] end.
Qed.

Lemma mkpte_props pa perm :
  0 <= pa < 2 ^ 56 → page_aligned pa → 0 <= perm < 1024 →
  u64 (mkpte pa perm) = mkpte pa perm ∧ Z.land (mkpte pa perm) PTE_V = 1 ∧
  PTE2PA (mkpte pa perm) = pa ∧ PTE_FLAGS (mkpte pa perm) = Z.lor perm 1.
Proof.
  intros Hpa Hal Hp. unfold mkpte. rewrite <-Z.lor_assoc. change PTE_V with 1.
  assert (Hf := lor_flags perm 1 Hp ltac:(lia)).
  split_and!.
  - rewrite mk_pte_eq by done. apply u64_small. unfold page_aligned in Hal. zdm.
  - rewrite land_flag by lia. rewrite PTE_FLAGS_mk by done.
    rewrite Z.land_lor_distr_l.
    rewrite (Z.land_ones perm 1 ltac:(lia) : Z.land perm 1 = perm mod 2 ^ 1).
    assert (perm mod 2 = 0 ∨ perm mod 2 = 1) as [Hm|Hm] by zdm; change (2 ^ 1) with 2; by rewrite Hm.
  - by apply PTE2PA_mk.
  - by apply PTE_FLAGS_mk.
Qed.

(** The pages [a, e) of the view are mapped to consecutive physical pages. *)
Definition map_view (view view' : Z → Z) (a e pa perm : Z) : Prop :=
  ∀ va, 0 <= va < MAXVA →
    view' va = if decide (a <= va < e) then mkpte (pa + (va / 4096 * 4096 - a)) perm else view va.

Section Mappages.
Variable kend : Z.
Hypothesis kend_pos : 0 < kend.
Variables (root perm : Z).
Hypothesis Hperm : 0 <= perm < 1024.

Notation view s := (pteval (kmem s) root).

(** One iteration: the page of [a] is mapped to [pa], or memory ran out. *)
Lemma runs_map_one s l a pa :
  pt_inv kend s root l → page_aligned a → 0 <= a < MAXVA →
  0 <= pa < 2 ^ 56 → page_aligned pa →
  Z.land (view s a) PTE_V = 0 →
  ∀ {B} (fail : K kst B) (k : K kst B) Q,
  (∀ s', pt_grow kend root s l s' [] → pt_keep root s l s' [] →
     (∀ va, view s' va = view s va) → zlen l <= 2 → runs fail s' Q) →
  (∀ s' l', pt_grow kend root s l s' l' → pt_keep root s l s' l' → map_view (view s) (view s') a (a + 4096) pa perm →
     zlen l <= zlen l' + 2 → runs k s' Q) →
  runs (pte <- walk root a true ;;;
    if pte =? 0 then fail
    else
      v <- load64 pte ;;;
      if negb (Z.land v PTE_V =? 0) then panic "mappages: remap"
      else store64 pte (mkpte pa perm) ;;; k) s Q.
Proof.
  intros Hinv Hal Ha Hpa Hpal Hfree B fail k Q Hfail Hk. apply runs_bind.
  eapply runs_mono; [by apply (runs_walk kend kend_pos); [done|lia]|]. cbv beta.
  intros pte s1 (l1 & Hg1 & Hk1 & Hv1 & Hu1 & [[-> ->]|(p2 & Hp2 & ->)]).
  { by apply Hfail. }
  assert (Hi1 : pt_inv kend s1 root l1) by apply Hg1. pose proof Hi1 as (_ & Hw1 & _).
  pose proof (leaf_pos kend kend_pos root _ _ _ Hw1 Hp2) as Hpos. unfold leaf in Hpos.
  rewrite Hp2 in Hpos. destruct (Z.eqb_spec (pte_addr p2 (PX 0 a)) 0); [lia|].
  unfold load64, store64. kred.
  assert (Hrd : rd64 (kmem s1) (pte_addr p2 (PX 0 a)) = view s a).
  { rewrite <-Hv1. unfold pteval. by rewrite Hp2. }
  rewrite Hrd, Hfree. simpl negb. cbv iota. kred.
  destruct (leaf_store_grow kend kend_pos root s1 l1 a p2 (mkpte pa perm) Hi1 Ha Hp2) as (Hg2 & Hk2 & Hv2).
  eapply Hk; [by eapply pt_grow_trans|by eapply pt_keep_trans| |done]. intros va Hva. cbn [kmem set_kmem]. rewrite Hv2 by done.
  unfold page_aligned in *.
  destruct (mkpte_props pa perm) as (Hu & _); [done..|].
  repeat case_decide; [|zdm|zdm|by rewrite Hv1].
  rewrite Hu. f_equal. zdm.
Qed.

Lemma map_view_app v1 v2 v3 a b c pa :
  page_aligned a → page_aligned b → a <= b <= c →
  map_view v1 v2 a b pa perm → map_view v2 v3 b c (pa + (b - a)) perm → map_view v1 v3 a c pa perm.
Proof.
  unfold map_view, page_aligned. intros Ha Hb Hle H1 H2 va Hva. rewrite H2, H1 by done.
  repeat case_decide; try lia. f_equal. lia.
Qed.

Lemma map_view_empty v v' a pa : (∀ va, v' va = v va) → map_view v v' a a pa perm.
Proof. intros H va _. rewrite decide_False by lia. done. Qed.

(** mappages on a range of unmapped pages: the pages up to [e] are mapped;
    [e] is the end of the range, or memory ran out. *)
Lemma runs_mappages s l va size pa :
  pt_inv kend s root l → 0 <= va → 0 < size → va + size <= MAXVA →
  0 <= pa → page_aligned pa → pa + size <= 2 ^ 55 →
  (∀ va', va / 4096 * 4096 <= va' < va + size → Z.land (view s va') PTE_V = 0) →
  runs (mappages root va size pa perm) s (λ r s', ∃ l' e,
    pt_grow kend root s l s' l' ∧ pt_keep root s l s' l' ∧ page_aligned e ∧
    map_view (view s) (view s') (va / 4096 * 4096) e pa perm ∧
    (r = 0 ∧ va + size <= e < va + size + 4096 ∨
     r = -1 ∧ l' = [] ∧ va / 4096 * 4096 <= e < va + size) ∧
    zlen l <= zlen l' + 2 * ((e - va / 4096 * 4096) / 4096 + if decide (r = 0) then 0 else 1)).
Proof.
  change MAXVA with (2 ^ 38). intros Hinv Hva Hsz Hend Hpa Hal Hpend Hfree. unfold mappages.
  destruct (Z.eqb_spec size 0); [lia|]. rewrite (u64_small (va + size - 1)) by lia.
  rewrite !PGROUNDDOWN_eq by lia.
  set (a := va / 4096 * 4096) in *. set (last := (va + size - 1) / 4096 * 4096).
  assert (Ha : page_aligned a ∧ 0 <= a <= va ∧ va < a + 4096) by (unfold page_aligned; subst a; zdm).
  assert (Hlast : page_aligned last ∧ last < va + size <= last + 4096 ∧ a <= last)
    by (unfold page_aligned; subst a last; zdm).
  unfold page_aligned in *. clearbody a last.
  eapply (runs_iter _ (λ n '(a', pa') s', ∃ l',
    pt_grow kend root s l s' l' ∧ pt_keep root s l s' l' ∧ a' mod 4096 = 0 ∧ a <= a' <= last ∧ pa' = pa + (a' - a) ∧
    n = Z.to_nat ((last - a') / 4096) ∧ map_view (view s) (view s') a a' pa perm ∧ zlen l <= zlen l' + 2 * ((a' - a) / 4096))); cycle 1.
  { exists l. split_and!; [by apply pt_grow_refl|by apply pt_keep_same|apply Ha|lia|lia|lia|done|by apply map_view_empty|zdm]. }
  { unfold mappages_fuel, PGSIZE. destruct (Z.leb_spec a last); [lia|lia]. }
  intros k [a' pa'] s1 (l1 & Hg1 & Hk1 & Hal' & Hr & -> & -> & Hv1 & Hu1).
  eapply runs_map_one; try (done || lia).
  - apply Hg1.
  - change MAXVA with (2 ^ 38). lia.
  - unfold page_aligned. zdm.
  - rewrite Hv1 by (change MAXVA with (2 ^ 38); lia). rewrite decide_False by lia. apply Hfree. lia.
  - intros s2 Hg2 Hk2 Hv2 Hu2. kred. exists [], a'.
    split_and!; [by eapply pt_grow_trans|by eapply pt_keep_trans|done| | |].
    + intros x Hx. by rewrite Hv2, Hv1.
    + right. lia || (split_and!; [done|done|lia|lia]).
    + rewrite decide_False by done. simpl. lia.
  - intros s2 l2 Hg2 Hk2 Hv2 Hu2. assert (Hv : map_view (view s) (view s2) a (a' + 4096) pa perm).
    { by eapply (map_view_app _ _ _ a a'); unfold page_aligned; try (done || lia). }
    assert (pt_grow kend root s l s2 l2) by by eapply pt_grow_trans.
    assert (pt_keep root s l s2 l2) by by eapply pt_keep_trans.
    destruct (Z.eqb_spec a' last) as [->|]; kred.
    + exists l2, (last + 4096). split_and!; [done|done|unfold page_aligned; zdm|done|left; lia|].
      rewrite decide_True by done. zdm.
    + exists (Z.to_nat ((last - (a' + 4096)) / 4096)). rewrite !u64_small by (unfold PGSIZE; lia).
      unfold PGSIZE. split; [zdm|]. exists l2. split_and!; try (done || lia); zdm.
Qed.
End Mappages.

(** ** Empty tables *)

Lemma zero_table_node m root π :
  (∀ i, 0 <= i < 512 → rd64 m (pte_addr root i) = 0) → path_ok π → π ≠ [] → node m root π = None.
Proof.
  intros Hz [_ Hf] Hne. destruct π as [|i π]; [done|]. apply Forall_cons in Hf as [Hi _].
  simpl. unfold entry. by rewrite Hz.
Qed.

(** A zeroed page is a page table with one table and no mappings. *)
Lemma zero_table kend m root :
  page_ok kend root → (∀ i, 0 <= i < 512 → rd64 m (pte_addr root i) = 0) →
  pt_wf kend m root ∧ (∀ p, is_node m root p ↔ p = root) ∧ (∀ va, pteval m root va = 0).
Proof.
  intros Hok Hz.
  assert (Hn : ∀ π p, path_ok π → node m root π = Some p → π = [] ∧ p = root).
  { intros π p Hπ Hp. destruct (decide (π = [])) as [->|Hne]; [by injection Hp as <-|].
    by rewrite zero_table_node in Hp. }
  split_and!.
  - split.
    + intros π p Hπ Hp. by destruct (Hn π p Hπ Hp) as [_ ->].
    + intros π1 π2 p H1 H2 Hp1 Hp2. by rewrite (proj1 (Hn _ _ H1 Hp1)), (proj1 (Hn _ _ H2 Hp2)).
    + intros π i p Hπ Hp He. destruct (path_ok_snoc _ _ Hπ) as (Hπ' & Hi & _). destruct (Hn π p Hπ' Hp) as [-> ->].
      destruct He. unfold entry. by rewrite Hz.
  - intros p. split; [|intros ->; apply is_node_root].
    intros (π & Hπ & Hp). by destruct (Hn π p Hπ Hp).
  - intros va. unfold pteval. by rewrite zero_table_node by (done || apply vpath_ok).
Qed.

(** A small concrete memory: an empty page table and three free pages. *)
Definition demo_end : Z := 0x86000000.
Definition demo_root : Z := 0x87000000.
Definition demo_free : list Z := [0x87001000; 0x87002000; 0x87003000].
Definition demo_state : kst :=
  mkK false 0x87001000 (wr64 (wr64 ∅ 0x87001000 0x87002000) 0x87002000 0x87003000).

Lemma demo_page k : 0 <= k < 16 → page_ok demo_end (demo_root + k * 4096).
Proof.
  intros. unfold page_ok, page_aligned, demo_end, demo_root. change PHYSTOP with 2281701376. zdm.
Qed.

Lemma demo_not_free p : 0x87003000 < p → p ∉ demo_free.
Proof. unfold demo_free. rewrite !elem_of_cons, elem_of_nil. lia. Qed.

Lemma demo_root_zero i : 0 <= i < 512 → rd64 (kmem demo_state) (pte_addr demo_root i) = 0.
Proof.
  intros Hi. unfold demo_state, pte_addr, demo_root. cbn [kmem].
  rewrite !rd64_wr64_ne by lia. apply rd64_empty.
Qed.

Lemma demo_inv :
  pt_inv demo_end demo_state demo_root demo_free ∧
  (∀ p, is_node (kmem demo_state) demo_root p ↔ p = demo_root) ∧
  (∀ va, pteval (kmem demo_state) demo_root va = 0).
Proof.
  destruct (zero_table demo_end (kmem demo_state) demo_root) as (Hw & Hn & Hv).
  { by split. }
  { apply demo_root_zero. }
  split_and!; [|done|done]. split; [|split; [done|]].
  - split; [done|split].
    + unfold demo_free. repeat constructor; set_solver.
    + unfold demo_free, chain, demo_state. cbn [kmem freelist].
      rewrite rd64_wr64_ne, rd64_wr64_same by lia. rewrite rd64_wr64_same, !rd64_wr64_ne, rd64_empty by lia.
      by split_and!.
  - intros p ->%Hn. unfold demo_free, demo_root. set_solver.
Qed.

(** The same memory with the first user page mapped by the entry [v], through
    the new tables [q1] and [q2]. *)
Definition map_page0 (s : kst) (root q1 q2 v : Z) : kst :=
  let m1 := wr64 (memset (kmem s) q1 0 PGSIZE) (pte_addr root 0) (Z.lor (PA2PTE q1) PTE_V) in
  let m2 := wr64 (memset m1 q2 0 PGSIZE) (pte_addr q1 0) (Z.lor (PA2PTE q2) PTE_V) in
  set_kmem (wr64 m2 (pte_addr q2 0) v) s.

Lemma map_page0_inv kend s root l q1 q2 v :
  0 < kend → pt_inv kend s root l →
  (∀ i, 0 <= i < 512 → rd64 (kmem s) (pte_addr root i) = 0) →
  page_ok kend q1 → page_ok kend q2 → root ≠ q1 → root ≠ q2 → q1 ≠ q2 → q1 ∉ l → q2 ∉ l →
  let s' := map_page0 s root q1 q2 v in
  pt_inv kend s' root l ∧ (∀ p, is_node (kmem s') root p → p ∈ [root; q1; q2]) ∧
  (∀ va, 0 <= va < MAXVA →
     pteval (kmem s') root va = if decide (va / 4096 = 0) then u64 v else 0).
Proof.
  intros Hk Hinv Hz H1 H2 Hr1 Hr2 H12 Hl1 Hl2 s'.
  pose proof Hinv as (_ & Hw & _).
  assert (Hroot : page_ok kend root) by by apply (pw_page _ _ _ Hw [] root path_ok_nil).
  destruct (zero_table kend (kmem s) root Hroot Hz) as (_ & Hn & Hv).
  assert (P1 : path_ok ([] ++ [0])) by (split; [simpl; lia|repeat constructor; lia]).
  assert (P2 : path_ok ([0] ++ [0])) by (split; [simpl; lia|repeat constructor; lia]).
  assert (E1 : entry (kmem s) root 0 = None) by (unfold entry; by rewrite Hz).
  assert (N1 : ¬ is_node (kmem s) root q1) by (rewrite Hn; congruence).
  destruct (link_grow kend Hk s root l [] 0 root q1 Hinv P1 (λ _, eq_refl) eq_refl E1 H1 N1 Hl1)
    as (Hi1 & Hp1 & Hv1 & Hn1 & _).
  set (m1 := wr64 _ _ _) in *.
  assert (E2 : entry m1 q1 0 = None).
  { unfold entry, m1. pose proof (pages_disjoint root q1 (proj1 Hroot) (proj1 H1) Hr1).
    rewrite rd64_wr64_ne by (unfold pte_addr; lia).
    by rewrite rd64_memset_0 by (unfold pte_addr, PGSIZE; lia). }
  assert (N2 : ¬ is_node m1 root q2) by (rewrite Hn1, Hn; intros [?|?]; congruence).
  destruct (link_grow kend Hk (set_kmem m1 s) root l [0] 0 q1 q2 Hi1 P2 (λ _, eq_refl) Hp1 E2 H2 N2 Hl2)
    as (Hi2 & Hp2 & Hv2 & Hn2 & _).
  cbn [kmem set_kmem] in Hp2, Hv2, Hn2, Hi2. set (m2 := wr64 _ (pte_addr q1 0) _) in *.
  assert (H0 : 0 <= 0 < MAXVA) by (change MAXVA with (2 ^ 38); lia). clear N1 N2.
  pose proof (leaf_store_grow kend Hk root (set_kmem m2 s) l 0 q2 v Hi2 H0 Hp2) as (Hg3 & _ & Hv3).
  pose proof (pteval_leaf_write kend m2 root 0 v q2 (proj1 (proj2 Hi2)) H0 Hp2) as (_ & Hn3 & _).
  split; [apply Hg3|split].
  - intros p Hp. pose proof (proj1 (is_node_ext m2 _ root p Hn3) Hp) as Hp'.
    apply Hn2 in Hp' as [[Hp'| ->]%Hn1| ->]; rewrite !elem_of_cons; [|by auto|by auto].
    left. by apply Hn.
  - intros va Hva. change (pteval (kmem s') root va) with
      (pteval (wr64 (kmem (set_kmem m2 s)) (pte_addr q2 (PX 0 0)) v) root va).
    rewrite Hv3 by done. cbn [kmem set_kmem]. by rewrite Hv2, Hv1, Hv.
Qed.

Definition demo_perm : Z := Z.lor (Z.lor PTE_R PTE_W) PTE_U.
Definition demo_user : kst :=
  map_page0 demo_state demo_root 0x87004000 0x87005000 (mkpte 0x87006000 demo_perm).

Lemma demo_user_inv :
  pt_inv demo_end demo_user demo_root demo_free ∧
  (∀ p, is_node (kmem demo_user) demo_root p → p ∈ [demo_root; 0x87004000; 0x87005000]) ∧
  (∀ va, 0 <= va < MAXVA → pteval (kmem demo_user) demo_root va =
     if decide (va / 4096 = 0) then u64 (mkpte 0x87006000 demo_perm) else 0).
Proof.
  apply map_page0_inv.
  - done.
  - apply demo_inv.
  - apply demo_root_zero.
  - apply (demo_page 4). lia.
  - apply (demo_page 5). lia.
  - done.
  - done.
  - done.
  - apply demo_not_free. lia.
  - apply demo_not_free. lia.
Qed.

#[global] Opaque map_page0.

(** ** Properties *)

(** [C22] mappages on a range of unmapped pages never panics.  It maps the
    pages of the range, from the first one on, to consecutive physical pages
    with the requested permissions: all of them when it returns 0, and a
    proper prefix when it returns -1, which happens only when the allocator
    has run out of pages.  No other virtual page changes, the tables stay a
    tree of distinct pages that are not free, every page taken from the
    allocator has become a table, and memory outside tables and free pages is
    untouched. *)
Theorem mappages_spec (kend root perm : Z) (s : kst) (l : list Z) (va size pa : Z) :
  0 < kend → 0 <= perm < 1024 → pt_inv kend s root l →
  0 <= va → 0 < size → va + size <= MAXVA →
  0 <= pa → page_aligned pa → pa + size <= 2 ^ 55 →
  (∀ x, va / 4096 * 4096 <= x < va + size → Z.land (pteval (kmem s) root x) PTE_V = 0) →
  ∃ r s' l' e, mappages root va size pa perm s = Ok r s' ∧
    page_aligned e ∧
    (∀ x, 0 <= x < MAXVA → pteval (kmem s') root x =
       if decide (va / 4096 * 4096 <= x < e)
       then mkpte (pa + (x / 4096 * 4096 - va / 4096 * 4096)) perm else pteval (kmem s) root x) ∧
    (r = 0 ∧ va + size <= e < va + size + 4096 ∨
     r = -1 ∧ l' = [] ∧ va / 4096 * 4096 <= e < va + size) ∧
    pt_inv kend s' root l' ∧
    (∀ p, p ∈ l → p ∈ l' ∨ is_node (kmem s') root p) ∧
    (∀ p, page_aligned p → p ∉ l → ¬ is_node (kmem s) root p → agree (kmem s) (kmem s') p 4096).
Proof.
  intros Hk Hperm Hinv Hva Hsz Hend Hpa Hal Hpend Hfree.
  destruct (runs_elim _ _ _ (runs_mappages kend Hk root perm Hperm s l va size pa
    Hinv Hva Hsz Hend Hpa Hal Hpend Hfree)) as (r & s' & Hrun & l' & e & Hg & Hkeep & He & Hv & Hres & _).
  exists r, s', l', e. split_and!; try done; [apply Hg|apply Hkeep|apply Hg].
Qed.

Lemma mappages_spec_witness :
  ∃ r s' l' e, mappages demo_root 0x3000 0x1800 0x87010000 (Z.lor PTE_R PTE_U) demo_state = Ok r s' ∧
    page_aligned e ∧
    (∀ x, 0 <= x < MAXVA → pteval (kmem s') demo_root x =
       if decide (0x3000 / 4096 * 4096 <= x < e)
       then mkpte (0x87010000 + (x / 4096 * 4096 - 0x3000 / 4096 * 4096)) (Z.lor PTE_R PTE_U)
       else pteval (kmem demo_state) demo_root x) ∧
    (r = 0 ∧ 0x3000 + 0x1800 <= e < 0x3000 + 0x1800 + 4096 ∨
     r = -1 ∧ l' = [] ∧ 0x3000 / 4096 * 4096 <= e < 0x3000 + 0x1800) ∧
    pt_inv demo_end s' demo_root l' ∧
    (∀ p, p ∈ demo_free → p ∈ l' ∨ is_node (kmem s') demo_root p) ∧
    (∀ p, page_aligned p → p ∉ demo_free → ¬ is_node (kmem demo_state) demo_root p →
       agree (kmem demo_state) (kmem s') p 4096).
Proof.
  destruct demo_inv as (Hinv & _ & Hz).
  apply (mappages_spec demo_end demo_root (Z.lor PTE_R PTE_U) demo_state demo_free 0x3000 0x1800 0x87010000);
    try done. intros x _. by rewrite Hz.
Defined.
