(* ===== verification/VmCopy.v ===== *)
(** Correctness of copyout and copyin of kernel/vm.c: the bytes that cross
    between a kernel buffer and user memory, byte by byte. *)

From S2P Require Import Prelude Mem CString Riscv Spinlock Kalloc Vm VmSpec.
Local Open Scope kernel_scope.

(** ** copyout and copyin *)

(** The physical address behind the user address [va]. *)
Definition uaddr (m : mem) (root va : Z) : Z := upage m root (va / 4096 * 4096) + va mod 4096.

Definition mapped (m : mem) (root va : Z) : Prop := upage m root (va / 4096 * 4096) ≠ 0.

(** The user pages of the range are neither page tables nor shared within the
    range, and do not meet the kernel buffer [buf, buf + len). *)
Record user_range (m : mem) (root va len buf : Z) : Prop := {
  ur_node x p : va <= x < va + len → mapped m root x → is_node m root p →
    p ≠ upage m root (x / 4096 * 4096);
  ur_inj x y : va <= x < va + len → va <= y < va + len → mapped m root x →
    upage m root (x / 4096 * 4096) = upage m root (y / 4096 * 4096) → x / 4096 = y / 4096;
  ur_buf x : va <= x < va + len → mapped m root x →
    let p := upage m root (x / 4096 * 4096) in buf + len <= p ∨ p + 4096 <= buf
}.

Lemma upage_ext m m' root va :
  (∀ p, is_node m root p → agree m m' p 4096) → upage m' root va = upage m root va.
Proof. intros H. unfold upage. by destruct (tree_frame m m' root H) as [_ ->]. Qed.

Lemma uaddr_ext m m' root va :
  (∀ p, is_node m root p → agree m m' p 4096) → uaddr m' root va = uaddr m root va.
Proof. intros H. unfold uaddr. by rewrite (upage_ext m m'). Qed.

Lemma user_range_ext m m' root va len buf :
  (∀ p, is_node m root p → agree m m' p 4096) →
  user_range m root va len buf → user_range m' root va len buf.
Proof.
  intros Hag [H1 H2 H3]. destruct (tree_frame _ _ _ Hag) as [Hn _].
  assert (E : ∀ x, upage m' root x = upage m root x) by (intros; by apply upage_ext).
  split; unfold mapped in *; intros; rewrite ?E in *; eauto.
  eapply H1; [done|done|]. by apply (is_node_ext _ _ _ _ Hn).
Qed.

Lemma upage_aligned m root va : page_aligned (upage m root va).
Proof.
  unfold upage, PTE2PA, page_aligned. repeat case_match; try done.
  rewrite Z.shiftl_mul_pow2, Z.shiftr_div_pow2 by lia. unfold u64.
  change (2 ^ 12) with 4096. change (2 ^ 10) with 1024. zdm.
Qed.

Lemma upage_below m root va : upage m root va ≠ 0 → va < MAXVA.
Proof. unfold upage. rewrite Z.geb_leb. by destruct (Z.leb_spec MAXVA va). Qed.

(** The pages the copy loops still have to visit. *)
Definition copy_measure (va len : Z) : nat :=
  if len =? 0 then 0%nat else Z.to_nat ((len + va mod 4096 - 1) / 4096 + 1).

Lemma copy_measure_init va len : 0 <= len → (copy_measure va len < copy_fuel len)%nat.
Proof.
  intros. unfold copy_measure, copy_fuel, PGSIZE. destruct (Z.eqb_spec len 0); zdm.
Qed.

Lemma copy_measure_next va va' len n :
  0 < n → n <= len → n = len ∨ n = 4096 - va mod 4096 ∧ va' mod 4096 = 0 →
  (copy_measure va' (len - n) < copy_measure va len)%nat.
Proof.
  intros. unfold copy_measure. destruct (Z.eqb_spec len 0), (Z.eqb_spec (len - n) 0); zdm.
Qed.

(** [k] bytes at the user address [dst] have been written from [src]. *)
Definition out_effect (m m' : mem) (root dst src k : Z) : Prop :=
  (∀ i, 0 <= i < k → rd8 m' (uaddr m root (dst + i)) = rd8 m (src + i)) ∧
  (∀ b, (∀ i, 0 <= i < k → b ≠ uaddr m root (dst + i)) → rd8 m' b = rd8 m b).

(** [k] bytes at the kernel address [dst] have been read from user memory. *)
Definition in_effect (m m' : mem) (root dst src k : Z) : Prop :=
  ∀ b, rd8 m' b = if decide (dst <= b < dst + k) then rd8 m (uaddr m root (src + (b - dst))) else rd8 m b.

Lemma uaddr_same_page m root x y : x / 4096 = y / 4096 → uaddr m root y = uaddr m root x + (y - x).
Proof. intros E. unfold uaddr. rewrite E. zdm. Qed.

Lemma uaddr_page m root x :
  let p := upage m root (x / 4096 * 4096) in p <= uaddr m root x < p + 4096.
Proof. unfold uaddr. zdm. Qed.

Section Copy.
Variables (m : mem) (root va len buf : Z).
Hypothesis Hal : ∀ p, is_node m root p → page_aligned p.
Hypothesis Hur : user_range m root va len buf.

Lemma uaddr_inj x y :
  va <= x < va + len → va <= y < va + len → mapped m root x →
  uaddr m root x = uaddr m root y → x = y.
Proof.
  intros Hx Hy Hm E. unfold uaddr in E.
  pose proof (upage_aligned m root (x / 4096 * 4096)) as A1.
  pose proof (upage_aligned m root (y / 4096 * 4096)) as A2. unfold page_aligned in *.
  assert (Ep : upage m root (x / 4096 * 4096) = upage m root (y / 4096 * 4096)) by zdm.
  pose proof (ur_inj _ _ _ _ _ Hur x y Hx Hy Hm Ep). zdm.
Qed.

Lemma uaddr_off_node x p :
  va <= x < va + len → mapped m root x → is_node m root p → ¬ p <= uaddr m root x < p + 4096.
Proof.
  intros Hx Hm Hp Hin. pose proof (ur_node _ _ _ _ _ Hur x p Hx Hm Hp) as Hne.
  pose proof (uaddr_page m root x) as Hu. simpl in Hu.
  destruct (pages_disjoint p _ (Hal p Hp) (upage_aligned _ _ _) Hne); lia.
Qed.

Lemma uaddr_off_buf x i :
  va <= x < va + len → mapped m root x → 0 <= i < len → uaddr m root x ≠ buf + i.
Proof.
  intros Hx Hm Hi. pose proof (ur_buf _ _ _ _ _ Hur x Hx Hm) as Hd.
  pose proof (uaddr_page m root x) as Hu. simpl in *. lia.
Qed.

(** The bytes copied so far leave the page tables alone. *)
Lemma out_effect_nodes m' k :
  k <= len → (∀ i, 0 <= i < k → mapped m root (va + i)) →
  out_effect m m' root va buf k → ∀ p, is_node m root p → agree m m' p 4096.
Proof.
  intros Hk Hm [_ He] p Hp b Hb. apply He. intros i Hi ->.
  eapply (uaddr_off_node (va + i)); try done; [lia|by apply Hm].
Qed.

Lemma out_effect_step m' k n :
  0 <= k → 0 < n → k + n <= len → (va + k) / 4096 = (va + k + n - 1) / 4096 →
  (∀ i, 0 <= i < k + n → mapped m root (va + i)) →
  out_effect m m' root va buf k →
  out_effect m (memmove m' (uaddr m root (va + k)) (buf + k) n) root va buf (k + n).
Proof.
  intros Hk Hn Hlen Hpg Hm [H1 H2].
  assert (Hsame : ∀ j, 0 <= j < n → uaddr m root (va + k + j) = uaddr m root (va + k) + j).
  { intros j Hj. rewrite (uaddr_same_page m root (va + k) (va + k + j)); [lia|zdm]. }
  split.
  - intros i Hi. rewrite rd8_memmove by lia. case_decide as Hc.
    + set (j := uaddr m root (va + i) - uaddr m root (va + k)) in *.
      assert (E : va + i = va + k + j).
      { apply uaddr_inj; [lia|subst j; lia|apply Hm; lia|]. rewrite Hsame by (subst j; lia). lia. }
      replace (buf + k + j) with (buf + i) by lia. apply H2. intros i' Hi'.
      apply not_eq_sym, uaddr_off_buf; [lia|apply Hm; lia|lia].
    + destruct (decide (i < k)); [apply H1; lia|]. destruct Hc.
      replace (va + i) with (va + k + (i - k)) by lia. rewrite Hsame; lia.
  - intros b Hb. rewrite rd8_memmove by lia. rewrite decide_False.
    + apply H2. intros i Hi. apply Hb. lia.
    + intros Hin. apply (Hb (k + (b - uaddr m root (va + k)))); [lia|].
      rewrite Z.add_assoc, Hsame; lia.
Qed.

Lemma in_effect_nodes m' k :
  k <= len → (∀ p, is_node m root p → p + 4096 <= buf ∨ buf + len <= p) →
  in_effect m m' root buf va k → ∀ p, is_node m root p → agree m m' p 4096.
Proof.
  intros Hk Hd He p Hp b Hb. rewrite He, decide_False; [done|]. specialize (Hd p Hp). lia.
Qed.

Lemma in_effect_step m' k n :
  0 <= k → 0 < n → k + n <= len → (va + k) / 4096 = (va + k + n - 1) / 4096 →
  (∀ i, 0 <= i < k + n → mapped m root (va + i)) →
  in_effect m m' root buf va k →
  in_effect m (memmove m' (buf + k) (uaddr m root (va + k)) n) root buf va (k + n).
Proof.
  intros Hk Hn Hlen Hpg Hm He b. rewrite rd8_memmove by lia.
  destruct (decide (buf + k <= b < buf + k + n)) as [Hin|Hin].
  - rewrite decide_True by lia. set (j := b - (buf + k)).
    assert (E : uaddr m root (va + (b - buf)) = uaddr m root (va + k) + j).
    { rewrite (uaddr_same_page m root (va + k)); [subst j; lia|subst j; zdm]. }
    rewrite E, He, decide_False; [done|]. intros Hc.
    apply (uaddr_off_buf (va + (b - buf)) (uaddr m root (va + k) + j - buf)); [lia| |lia|lia].
    apply Hm. lia.
  - rewrite He. repeat case_decide; done || lia.
Qed.
End Copy.

Lemma runs_copy_page s root va {B} (k : Z → K kst B) Q kend :
  0 < kend → pt_wf kend (kmem s) root → 0 <= va < 2 ^ 64 →
  runs (k (upage (kmem s) root (va / 4096 * 4096))) s Q →
  runs (pa0 <- walkaddr root (PGROUNDDOWN va) ;;; k pa0) s Q.
Proof.
  intros Hk Hw Hva H. rewrite PGROUNDDOWN_eq by done. apply runs_bind.
  eapply runs_Ok; [by eapply walkaddr_eq|done].
Qed.

(** The number of bytes one iteration copies. *)
Definition copy_chunk (va len : Z) : Z :=
  if PGSIZE - (va - va / 4096 * 4096) >? len then len else PGSIZE - (va - va / 4096 * 4096).

Lemma copy_chunk_spec va len :
  0 < len → let n := copy_chunk va len in
  0 < n <= len ∧ va / 4096 = (va + n - 1) / 4096 ∧ (n = len ∨ n = 4096 - va mod 4096).
Proof. intros. unfold copy_chunk, PGSIZE in n. subst n. rewrite Z.gtb_ltb. bcase; zdm. Qed.

Lemma set_kmem_eta s : s = set_kmem (kmem s) s.
Proof. by destruct s. Qed.

Section CopyRun.
Variable kend : Z.
Hypothesis kend_pos : 0 < kend.
Variables (s : kst) (root va len buf : Z).
Hypothesis Hw : pt_wf kend (kmem s) root.
Hypothesis Hva : 0 <= va < 2 ^ 64.
Hypothesis Hlen : 0 <= len.
Hypothesis Hur : user_range (kmem s) root va len buf.

Let Hal : ∀ p, is_node (kmem s) root p → page_aligned p.
Proof. intros p (π & Hπ & Hp). by eapply (pw_page _ _ _ Hw π). Qed.

Lemma runs_copyout :
  runs (copyout root va buf len) s (λ r s', ∃ k,
    0 <= k <= len ∧ s' = set_kmem (kmem s') s ∧
    (∀ i, 0 <= i < k → mapped (kmem s) root (va + i)) ∧
    out_effect (kmem s) (kmem s') root va buf k ∧
    (r = 0 ∧ k = len ∨ r = -1 ∧ k < len ∧ ¬ mapped (kmem s) root (va + k))).
Proof.
  unfold copyout.
  apply (runs_iter _ (λ n '(va', buf', len') s', ∃ k,
    n = copy_measure va' len' ∧ 0 <= k <= len ∧ len' = len - k ∧ buf' = buf + k ∧
    (len' = 0 ∨ va' = va + k) ∧ 0 <= va' < 2 ^ 64 ∧ s' = set_kmem (kmem s') s ∧
    (∀ i, 0 <= i < k → mapped (kmem s) root (va + i)) ∧
    out_effect (kmem s) (kmem s') root va buf k)) with (n := copy_measure va len); cycle 1.
  { exists 0. split_and!; try (done || lia); [apply set_kmem_eta|split; [lia|done]]. }
  { by apply copy_measure_init. }
  intros n [[va' buf'] len'] s1 (k & -> & Hk & -> & -> & Hv & Hr & Hs & Hm & He).
  rewrite Z.gtb_ltb. destruct (Z.ltb_spec 0 (len - k)) as [Hlt|]; cycle 1.
  { kred. exists k. split_and!; done || lia. }
  assert (va' = va + k) as -> by lia.
  assert (Hn := out_effect_nodes (kmem s) root va len buf Hal Hur (kmem s1) k ltac:(lia) Hm He).
  assert (Hw1 : pt_wf kend (kmem s1) root).
  { by eapply pt_wf_frame. }
  eapply (runs_copy_page _ _ _ _ _ kend); [done|done|done|].
  rewrite (upage_ext (kmem s) (kmem s1)) by done.
  destruct (Z.eqb_spec (upage (kmem s) root ((va + k) / 4096 * 4096)) 0) as [E|E].
  { kred. exists k. split_and!; try (done || lia). right. split_and!; [done|lia|]. by intros []. }
  rewrite PGROUNDDOWN_eq by done. fold (copy_chunk (va + k) (len - k)).
  destruct (copy_chunk_spec (va + k) (len - k) Hlt) as (Hc & Hpg & Hcase).
  set (n := copy_chunk (va + k) (len - k)) in *. clearbody n.
  assert (Hm' : ∀ i, 0 <= i < k + n → mapped (kmem s) root (va + i)).
  { intros i Hi. destruct (decide (i < k)); [apply Hm; lia|]. unfold mapped.
    by replace ((va + i) / 4096) with ((va + k) / 4096) by zdm. }
  pose proof (upage_below _ _ _ E) as Hbelow. change MAXVA with (2 ^ 38) in Hbelow.
  unfold do_memmove. kred. eexists. split.
  { apply (copy_measure_next (va + k) (u64 ((va + k) / 4096 * 4096 + PGSIZE)) (len - k) n); [lia|lia|].
    rewrite u64_small by (unfold PGSIZE; zdm). unfold PGSIZE. zdm. }
  exists (k + n). rewrite u64_small by (unfold PGSIZE; zdm). unfold PGSIZE.
  split_and!; try (done || lia || zdm).
  - cbn [kmem set_kmem]. by rewrite Hs, set_kmem_twice.
  - cbn [kmem set_kmem].
    replace (upage (kmem s) root ((va + k) / 4096 * 4096) + (va + k - (va + k) / 4096 * 4096))
      with (uaddr (kmem s) root (va + k)) by (unfold uaddr; zdm).
    eapply out_effect_step; try done; lia.
Qed.

Hypothesis Hbuf : ∀ p, is_node (kmem s) root p → p + 4096 <= buf ∨ buf + len <= p.

Lemma runs_copyin :
  runs (copyin root buf va len) s (λ r s', ∃ k,
    0 <= k <= len ∧ s' = set_kmem (kmem s') s ∧
    (∀ i, 0 <= i < k → mapped (kmem s) root (va + i)) ∧
    in_effect (kmem s) (kmem s') root buf va k ∧
    (r = 0 ∧ k = len ∨ r = -1 ∧ k < len ∧ ¬ mapped (kmem s) root (va + k))).
Proof.
  unfold copyin.
  apply (runs_iter _ (λ n '(buf', va', len') s', ∃ k,
    n = copy_measure va' len' ∧ 0 <= k <= len ∧ len' = len - k ∧ buf' = buf + k ∧
    (len' = 0 ∨ va' = va + k) ∧ 0 <= va' < 2 ^ 64 ∧ s' = set_kmem (kmem s') s ∧
    (∀ i, 0 <= i < k → mapped (kmem s) root (va + i)) ∧
    in_effect (kmem s) (kmem s') root buf va k)) with (n := copy_measure va len); cycle 1.
  { exists 0. split_and!; try (done || lia); [apply set_kmem_eta|intros b; by rewrite decide_False by lia]. }
  { by apply copy_measure_init. }
  intros n [[buf' va'] len'] s1 (k & -> & Hk & -> & -> & Hv & Hr & Hs & Hm & He).
  rewrite Z.gtb_ltb. destruct (Z.ltb_spec 0 (len - k)) as [Hlt|]; cycle 1.
  { kred. exists k. split_and!; done || lia. }
  assert (va' = va + k) as -> by lia.
  assert (Hn := in_effect_nodes (kmem s) root va len buf (kmem s1) k ltac:(lia) Hbuf He).
  assert (Hw1 : pt_wf kend (kmem s1) root).
  { by eapply pt_wf_frame. }
  eapply (runs_copy_page _ _ _ _ _ kend); [done|done|done|].
  rewrite (upage_ext (kmem s) (kmem s1)) by done.
  destruct (Z.eqb_spec (upage (kmem s) root ((va + k) / 4096 * 4096)) 0) as [E|E].
  { kred. exists k. split_and!; try (done || lia). right. split_and!; [done|lia|]. by intros []. }
  rewrite PGROUNDDOWN_eq by done. fold (copy_chunk (va + k) (len - k)).
  destruct (copy_chunk_spec (va + k) (len - k) Hlt) as (Hc & Hpg & Hcase).
  set (n := copy_chunk (va + k) (len - k)) in *. clearbody n.
  assert (Hm' : ∀ i, 0 <= i < k + n → mapped (kmem s) root (va + i)).
  { intros i Hi. destruct (decide (i < k)); [apply Hm; lia|]. unfold mapped.
    by replace ((va + i) / 4096) with ((va + k) / 4096) by zdm. }
  pose proof (upage_below _ _ _ E) as Hbelow. change MAXVA with (2 ^ 38) in Hbelow.
  unfold do_memmove. kred. eexists. split.
  { apply (copy_measure_next (va + k) (u64 ((va + k) / 4096 * 4096 + PGSIZE)) (len - k) n); [lia|lia|].
    rewrite u64_small by (unfold PGSIZE; zdm). unfold PGSIZE. zdm. }
  exists (k + n). rewrite u64_small by (unfold PGSIZE; zdm). unfold PGSIZE.
  split_and!; try (done || lia || zdm).
  - cbn [kmem set_kmem]. by rewrite Hs, set_kmem_twice.
  - cbn [kmem set_kmem].
    replace (upage (kmem s) root ((va + k) / 4096 * 4096) + (va + k - (va + k) / 4096 * 4096))
      with (uaddr (kmem s) root (va + k)) by (unfold uaddr; zdm).
    eapply in_effect_step; try done; lia.
Qed.
End CopyRun.

(** ** Properties *)

(** [C27] copyout returns 0 exactly when every byte of the user range is mapped
    for user access, and then the whole buffer has been written there; when it
    returns -1 the bytes before the first unmapped page have been written.  In
    both cases no other byte of physical memory changes, page tables and the
    free list included. *)
Theorem copyout_spec (kend : Z) (s : kst) (root va len buf : Z) :
  0 < kend → pt_wf kend (kmem s) root → 0 <= va < 2 ^ 64 → 0 <= len →
  user_range (kmem s) root va len buf →
  ∃ r s' k, copyout root va buf len s = Ok r s' ∧ s' = set_kmem (kmem s') s ∧
    0 <= k <= len ∧
    (∀ i, 0 <= i < k → mapped (kmem s) root (va + i)) ∧
    (∀ i, 0 <= i < k → rd8 (kmem s') (uaddr (kmem s) root (va + i)) = rd8 (kmem s) (buf + i)) ∧
    (∀ b, (∀ i, 0 <= i < k → b ≠ uaddr (kmem s) root (va + i)) → rd8 (kmem s') b = rd8 (kmem s) b) ∧
    (r = 0 ∧ k = len ∨ r = -1 ∧ k < len ∧ ¬ mapped (kmem s) root (va + k)).
Proof.
  intros Hk Hw Hva Hlen Hur.
  destruct (runs_elim _ _ _ (runs_copyout kend Hk s root va len buf Hw Hva Hlen Hur))
    as (r & s' & Hrun & k & Hkr & Hs & Hm & [He1 He2] & Hres).
  exists r, s', k. auto 10.
Qed.

(** Data copied out to user memory and copied back in is unchanged: after
    a copyout that returns 0, copyin of the same range into a kernel buffer
    that meets neither the page tables nor the user pages returns 0 and
    delivers the bytes of the original buffer. *)
Theorem copyout_copyin (kend : Z) (s s1 : kst) (root va len src dst : Z) :
  0 < kend → pt_wf kend (kmem s) root → 0 <= va < 2 ^ 64 → 0 <= len →
  user_range (kmem s) root va len src → user_range (kmem s) root va len dst →
  (∀ p, is_node (kmem s) root p → p + 4096 <= dst ∨ dst + len <= p) →
  copyout root va src len s = Ok 0 s1 →
  ∃ s2, copyin root dst va len s1 = Ok 0 s2 ∧
    ∀ i, 0 <= i < len → rd8 (kmem s2) (dst + i) = rd8 (kmem s) (src + i).
Proof.
  intros Hk Hw Hva Hlen Hsrc Hdst Hdn Hout.
  pose proof (runs_copyout kend Hk s root va len src Hw Hva Hlen Hsrc) as H. unfold runs in H.
  rewrite Hout in H. destruct H as (k & Hkr & Hs1 & Hm & He & [[_ ->]|[? _]]); [|done].
  assert (Hal : ∀ p, is_node (kmem s) root p → page_aligned p).
  { intros p (π & Hπ & Hp). by eapply (pw_page _ _ _ Hw π). }
  pose proof (out_effect_nodes _ _ _ _ _ Hal Hsrc _ _ (Z.le_refl len) Hm He) as Hag.
  destruct (tree_frame _ _ _ Hag) as [Hn _].
  assert (Hur1 : user_range (kmem s1) root va len dst) by by eapply user_range_ext.
  assert (Hw1 : pt_wf kend (kmem s1) root) by by eapply pt_wf_frame.
  destruct (runs_elim _ _ _ (runs_copyin kend Hk s1 root va len dst Hw1 Hva Hlen Hur1
    (λ p Hp, Hdn p (proj1 (is_node_ext _ _ _ _ Hn) Hp)))) as (r & s2 & Hin & k & Hk2 & _ & _ & He2 & Hres).
  destruct Hres as [[-> ->]|(_ & Hlt & Hnm)].
  - exists s2. split; [done|]. intros i Hi. rewrite He2, decide_True by lia.
    rewrite (uaddr_ext (kmem s) (kmem s1)) by done.
    replace (dst + i - dst) with i by lia. by apply He.
  - destruct Hnm. unfold mapped. rewrite (upage_ext (kmem s) (kmem s1)) by done. apply Hm. lia.
Qed.

Lemma demo_user_upage x :
  0 <= x < 4096 → upage (kmem demo_user) demo_root (x / 4096 * 4096) = 0x87006000.
Proof.
  intros Hx. destruct demo_user_inv as (_ & _ & Hv). unfold upage.
  replace (x / 4096 * 4096) with 0 by zdm. change (0 >=? MAXVA) with false. cbv iota.
  rewrite Hv by by change MAXVA with (2 ^ 38). by vm_compute.
Qed.

Lemma demo_user_range va len buf :
  0 <= va → va + len <= 4096 → 0x87007000 <= buf → user_range (kmem demo_user) demo_root va len buf.
Proof.
  intros Hva Hlen Hbuf. destruct demo_user_inv as (_ & Hn & _). split.
  - intros x p Hx _ Hp%Hn. rewrite demo_user_upage by lia. unfold demo_root in Hp.
    rewrite !elem_of_cons, elem_of_nil in Hp. lia.
  - intros x y Hx Hy _ _. zdm.
  - intros x Hx _. rewrite demo_user_upage by lia. lia.
Qed.

Lemma copyout_spec_witness :
  let s := demo_user in
  ∃ r s' k, copyout demo_root 100 0x87008000 8 s = Ok r s' ∧ s' = set_kmem (kmem s') s ∧
    0 <= k <= 8 ∧
    (∀ i, 0 <= i < k → mapped (kmem s) demo_root (100 + i)) ∧
    (∀ i, 0 <= i < k → rd8 (kmem s') (uaddr (kmem s) demo_root (100 + i)) = rd8 (kmem s) (0x87008000 + i)) ∧
    (∀ b, (∀ i, 0 <= i < k → b ≠ uaddr (kmem s) demo_root (100 + i)) → rd8 (kmem s') b = rd8 (kmem s) b) ∧
    (r = 0 ∧ k = 8 ∨ r = -1 ∧ k < 8 ∧ ¬ mapped (kmem s) demo_root (100 + k)).
Proof.
  destruct demo_user_inv as ((_ & Hw & _) & _).
  apply (copyout_spec demo_end demo_user demo_root 100 8 0x87008000);
    [reflexivity|exact Hw|lia|lia|apply demo_user_range; lia].
Defined.

Lemma demo_user_copyout : ∃ s1, copyout demo_root 100 0x87008000 8 demo_user = Ok 0 s1.
Proof.
  destruct demo_user_inv as ((_ & Hw & _) & _).
  destruct (runs_elim _ _ _ (runs_copyout demo_end ltac:(unfold demo_end; lia) demo_user demo_root 100 8
    0x87008000 Hw ltac:(lia) ltac:(lia) (demo_user_range 100 8 0x87008000 ltac:(lia) ltac:(lia) ltac:(lia))))
    as (r & s1 & Hrun & k & Hk & _ & _ & _ & [[-> _]|(_ & Hlt & Hnm)]); [by exists s1|].
  destruct Hnm. unfold mapped. rewrite demo_user_upage by lia. lia.
Qed.

Lemma copyout_copyin_witness :
  ∃ s1 s2, copyout demo_root 100 0x87008000 8 demo_user = Ok 0 s1 ∧
    copyin demo_root 0x87009000 100 8 s1 = Ok 0 s2 ∧
    ∀ i, 0 <= i < 8 → rd8 (kmem s2) (0x87009000 + i) = rd8 (kmem demo_user) (0x87008000 + i).
Proof.
  destruct demo_user_copyout as [s1 Hout]. destruct demo_user_inv as ((_ & Hw & _) & Hn & _).
  destruct (copyout_copyin demo_end demo_user s1 demo_root 100 8 0x87008000 0x87009000) as (s2 & H1 & H2);
    [reflexivity|exact Hw|lia|lia|apply demo_user_range; lia|apply demo_user_range; lia| |exact Hout|].
  - intros p Hp%Hn. unfold demo_root in Hp. rewrite !elem_of_cons, elem_of_nil in Hp. lia.
  - exists s1, s2. split; [exact Hout|split; [exact H1|exact H2]].
Defined.
