(* ===== verification/VmUser.v ===== *)
(** Correctness of the operations on user address spaces of kernel/vm.c:
    uvmunmap, uvmdealloc and uvmalloc. *)

From S2P Require Import Prelude Mem CString Riscv Spinlock Kalloc Vm VmSpec.
Local Open Scope kernel_scope.

(** ** uvmunmap *)

(** The physical pages of [n] consecutive virtual pages from [va]. *)
Fixpoint range_pages (view : Z → Z) (va : Z) (n : nat) : list Z :=
  match n with
  | O => []
  | S n' => PTE2PA (view va) :: range_pages view (va + 4096) n'
  end.

Lemma range_pages_app view va n k :
  range_pages view va (n + k) = range_pages view va n ++ range_pages view (va + Z.of_nat n * 4096) k.
Proof.
  revert va. induction n as [|n IH]; intros va; simpl; [by rewrite Z.add_0_r|].
  rewrite IH. do 3 f_equal. lia.
Qed.

(** The entries of the range are leaves. *)
Definition leaves (view : Z → Z) (va : Z) (n : nat) : Prop :=
  ∀ i, 0 <= i < Z.of_nat n →
    let v := view (va + i * 4096) in Z.land v PTE_V ≠ 0 ∧ PTE_FLAGS v ≠ PTE_V.

Section Unmap.
Variable kend : Z.
Hypothesis kend_pos : 0 < kend.
Variable root : Z.

Notation view s := (pteval (kmem s) root).
Notation nodes s := (is_node (kmem s) root).

(** Pages that the allocator can take back. *)
Definition reclaimable (s : kst) (l ps : list Z) : Prop :=
  NoDup ps ∧ ∀ p, p ∈ ps → page_ok kend p ∧ p ∉ l ∧ ¬ nodes s p.

Lemma kfree_inv s l pa :
  pt_inv kend s root l → page_ok kend pa → pa ∉ l → ¬ nodes s pa →
  ∃ s', kfree kend pa s = Ok tt s' ∧ pt_inv kend s' root (pa :: l) ∧
    (∀ p, nodes s' p ↔ nodes s p) ∧ (∀ va, view s' va = view s va) ∧
    (∀ π, path_ok π → node (kmem s') root π = node (kmem s) root π) ∧
    agree_out (kmem s) (kmem s') pa PGSIZE.
Proof.
  intros (Hk & Hw & Hd) Hpa Hl Hn. eexists.
  assert (Ho := kfree_agree_out (kmem s) pa (freelist s)).
  split; [by eapply kfree_eq|]. set (s' := mkK _ _ _) in *.
  assert (Hag : ∀ p, nodes s p → agree (kmem s) (kmem s') p 4096).
  { intros p Hp. eapply agree_out_agree; [exact Ho|]. unfold PGSIZE. 
    apply or_comm, pages_disjoint; [apply Hpa| |by intros ->].
    destruct Hp as (π & Hπ & Hp). by eapply (pw_page _ _ _ Hw π). }
  destruct (tree_frame _ _ _ Hag) as [Hnode Hv].
  assert (Hnodes : ∀ p, nodes s' p ↔ nodes s p) by (intros; by apply is_node_ext).
  split; [|done]. split; [by eapply kinv_free|split; [by eapply pt_wf_frame|]].
  intros p Hp%Hnodes [->|Hin]%elem_of_cons; [done|by eapply Hd].
Qed.

Lemma kfree_reclaim s l ps pa s' :
  reclaimable s l (pa :: ps) → (∀ p, nodes s' p ↔ nodes s p) → reclaimable s' (pa :: l) ps.
Proof.
  intros [[Hnin Hnd]%NoDup_cons Hps] Hn. split; [done|]. intros p Hp.
  destruct (Hps p) as (? & ? & ?); [by right|]. split_and!; [done| |by rewrite Hn].
  intros [->|?]%elem_of_cons; done.
Qed.

(** The view with the pages [va, e) removed. *)
Definition unmap_view (v v' : Z → Z) (va e : Z) : Prop :=
  ∀ x, 0 <= x < MAXVA → v' x = if decide (va <= x < e) then 0 else v x.

(** Pages outside [D] are as before. *)
Definition keeps_pages (D : Z → Prop) (s s' : kst) : Prop :=
  ∀ p, page_aligned p → ¬ D p → agree (kmem s) (kmem s') p 4096.

Lemma keeps_pages_trans D s1 s2 s3 : keeps_pages D s1 s2 → keeps_pages D s2 s3 → keeps_pages D s1 s3.
Proof. intros H1 H2 p Hal Hp. eapply agree_trans; [by apply H1|by apply H2]. Qed.
Lemma keeps_pages_weaken (D D' : Z → Prop) s s' : (∀ p, D p → D' p) → keeps_pages D s s' → keeps_pages D' s s'.
Proof. intros HD H p Hal Hp. apply H; [done|]. by intros ?%HD. Qed.
Lemma keeps_pages_refl D s : keeps_pages D s s.
Proof. intros p _ _. apply agree_refl. Qed.

(** One iteration of uvmunmap. *)
Lemma runs_unmap_one s l a (do_free : bool) {B} (k : K kst B) Q :
  pt_inv kend s root l → page_aligned a → 0 <= a < MAXVA →
  Z.land (view s a) PTE_V ≠ 0 → PTE_FLAGS (view s a) ≠ PTE_V →
  (do_free = true → let pa := PTE2PA (view s a) in page_ok kend pa ∧ pa ∉ l ∧ ¬ nodes s pa) →
  (∀ s' , pt_inv kend s' root (if do_free then PTE2PA (view s a) :: l else l) →
     (∀ p, nodes s' p ↔ nodes s p) → unmap_view (view s) (view s') a (a + 4096) →
     keeps_pages (λ p, nodes s p ∨ do_free = true ∧ p = PTE2PA (view s a)) s s' → runs k s' Q) →
  runs (pte <- walk root a false ;;;
        if pte =? 0 then panic "uvmunmap: walk"
        else
          v <- load64 pte ;;;
          if Z.land v PTE_V =? 0 then panic "uvmunmap: not mapped"
          else if PTE_FLAGS v =? PTE_V then panic "uvmunmap: not a leaf"
          else
            (if do_free then kfree kend (PTE2PA v) else ret tt) ;;;
            store64 pte 0 ;;; k) s Q.
Proof.
  intros Hinv Hal Ha HV HF Hfree Hk. apply runs_bind. eapply runs_Ok; [apply walk_false; lia|].
  pose proof Hinv as (_ & Hw & _).
  destruct (node (kmem s) root (vpath a)) as [p2|] eqn:Hp2; cycle 1.
  { destruct HV. unfold pteval. by rewrite Hp2. }
  pose proof (leaf_pos kend kend_pos root _ _ _ Hw Hp2) as Hpos.
  destruct (Z.eqb_spec (leaf (kmem s) root a) 0); [lia|].
  assert (Hv : rd64 (kmem s) (leaf (kmem s) root a) = view s a) by (unfold leaf, pteval; by rewrite Hp2).
  assert (Hl : leaf (kmem s) root a = pte_addr p2 (PX 0 a)) by (unfold leaf; by rewrite Hp2).
  unfold load64. kred. rewrite Hv, Hl. clear Hv Hl.
  destruct (Z.eqb_spec (Z.land (view s a) PTE_V) 0); [done|].
  destruct (Z.eqb_spec (PTE_FLAGS (view s a)) PTE_V); [done|]. apply runs_bind.
  apply (runs_mono _ _ (λ _ s1, pt_inv kend s1 root (if do_free then PTE2PA (view s a) :: l else l) ∧
    (∀ p, nodes s1 p ↔ nodes s p) ∧ (∀ x, view s1 x = view s x) ∧
    node (kmem s1) root (vpath a) = Some p2 ∧
    keeps_pages (λ p, do_free = true ∧ p = PTE2PA (view s a)) s s1)).
  { destruct do_free; [|by apply runs_ret; auto using keeps_pages_refl].
    destruct (Hfree eq_refl) as (H1 & H2 & H3).
    destruct (kfree_inv s l _ Hinv H1 H2 H3) as (s1 & Hr & Hi1 & Hn1 & Hv1 & Hp1 & Ho1).
    eapply runs_Ok; [done|]. split_and!; try done; [rewrite Hp1; [done|apply vpath_ok]|]. intros p Hp Hne.
    eapply agree_out_agree; [exact Ho1|]. apply or_comm, pages_disjoint; [apply H1|done|]. intros <-. by apply Hne. }
  intros _ s1 (Hi1 & Hn1 & Hv1 & Hp1 & Hf1). unfold store64. kred.
  destruct (leaf_store_grow kend kend_pos root s1 _ a p2 0 Hi1 Ha Hp1) as (Hg & _ & Hst).
  destruct (pteval_leaf_write kend (kmem s1) root a 0 p2 (proj1 (proj2 Hi1)) Ha Hp1) as (_ & Hne & _).
  apply Hk; [apply Hg| | |].
  - intros p. rewrite <-Hn1. by apply is_node_ext.
  - intros x Hx. cbn [kmem set_kmem]. rewrite Hst, Hv1 by done. unfold page_aligned in *.
    repeat case_decide; done || zdm.
  - intros p Hp Hd. eapply agree_trans; [by apply Hf1; tauto|]. eapply agree_out_agree; [apply wr64_agree_out|].
    assert (Hn2 : nodes s p2) by (apply Hn1; exists (vpath a); auto using vpath_ok).
    pose proof (pte_addr_page p2 (PX 0 a) (PX_range 0 a ltac:(lia))).
    destruct (pages_disjoint p p2); [done|by eapply node_page_aligned|by intros ->; tauto|lia|lia].
Qed.

Lemma runs_uvmunmap s l va n (do_free : bool) :
  pt_inv kend s root l → page_aligned va → 0 <= va → va + Z.of_nat n * 4096 <= MAXVA →
  leaves (view s) va n →
  (do_free = true → reclaimable s l (range_pages (view s) va n)) →
  runs (uvmunmap kend root va (Z.of_nat n) do_free) s (λ _ s',
    pt_inv kend s' root (if do_free then reverse (range_pages (view s) va n) ++ l else l) ∧
    (∀ p, nodes s' p ↔ nodes s p) ∧
    unmap_view (view s) (view s') va (va + Z.of_nat n * 4096) ∧
    keeps_pages (λ p, nodes s p ∨ do_free = true ∧ p ∈ range_pages (view s) va n) s s').
Proof.
  intros Hinv Hal Hva Hend Hleaf Hrec. unfold uvmunmap. unfold page_aligned in Hal.
  change PGSIZE with 4096. rewrite Hal. simpl negb. cbv iota.
  change MAXVA with (2 ^ 38) in Hend. rewrite u64_small by lia.
  apply (runs_iter _ (λ k a s', ∃ i,
    (k + i = n)%nat ∧ a = va + Z.of_nat i * 4096 ∧
    pt_inv kend s' root (if do_free then reverse (range_pages (view s) va i) ++ l else l) ∧
    (∀ p, nodes s' p ↔ nodes s p) ∧ unmap_view (view s) (view s') va a ∧
    keeps_pages (λ p, nodes s p ∨ do_free = true ∧ p ∈ range_pages (view s) va n) s s')) with (n := n); cycle 1.
  { exists 0%nat. split_and!; try (done || lia); [by destruct do_free|].
    intros x Hx. rewrite decide_False by lia. done. }
  { rewrite Nat2Z.id. lia. }
  intros k a s1 (i & Hk & -> & Hi1 & Hn1 & Hv1 & Hf1).
  destruct (Z.ltb_spec (va + Z.of_nat i * 4096) (va + Z.of_nat n * 4096)) as [Hlt|]; cycle 1.
  { apply runs_ret. assert (i = n) as -> by lia. done. }
  assert (Hvi : view s1 (va + Z.of_nat i * 4096) = view s (va + Z.of_nat i * 4096)).
  { rewrite Hv1 by (change MAXVA with (2 ^ 38); lia). by rewrite decide_False by lia. }
  assert (Hsplit : range_pages (view s) va n = range_pages (view s) va i ++
    PTE2PA (view s (va + Z.of_nat i * 4096)) :: range_pages (view s) (va + Z.of_nat i * 4096 + 4096) (k - 1)).
  { rewrite <-Hk. replace (k + i)%nat with (i + S (k - 1))%nat by lia. apply range_pages_app. }
  destruct (Hleaf (Z.of_nat i) ltac:(lia)) as [HV HF].
  eapply (runs_unmap_one s1 _ _ do_free); [exact Hi1|unfold page_aligned; zdm| | | | |].
  - change MAXVA with (2 ^ 38). lia.
  - by rewrite Hvi.
  - by rewrite Hvi.
  - intros ->. rewrite Hvi. destruct (Hrec eq_refl) as [Hnd Hps]. rewrite Hsplit in Hnd, Hps.
    destruct (Hps (PTE2PA (view s (va + Z.of_nat i * 4096)))) as (Hok & Hnl & Hnn).
    { apply elem_of_app. right. by left. }
    split_and!; [done| |by rewrite Hn1]. rewrite elem_of_app, elem_of_reverse.
    intros [Hin|]; [|done]. apply NoDup_app in Hnd as (_ & Hd & _). apply (Hd _ Hin). by left.
  - intros s2 Hi2 Hn2 Hv2 Hf2. kred. exists (k - 1)%nat. split; [lia|].
    exists (S i). change PGSIZE with 4096. rewrite u64_small by lia.
    split_and!; [lia|lia| |intros p; by rewrite Hn2| |]; cycle 2.
    { eapply keeps_pages_trans; [exact Hf1|]. eapply keeps_pages_weaken; [|exact Hf2]. intros p.
      intros [?%Hn1|[? ->]]; [by left|right]. split; [done|]. rewrite Hvi, Hsplit. apply elem_of_app. right. by left. }
    + destruct do_free; [|done]. rewrite Hvi in Hi2.
      replace (S i) with (i + 1)%nat by lia. by rewrite range_pages_app, reverse_app.
    + intros x Hx. rewrite Hv2, Hv1 by done. repeat case_decide; done || lia.
Qed.

(** uvmdealloc frees the pages between the two rounded sizes. *)
Lemma runs_uvmdealloc s l oldsz newsz n :
  pt_inv kend s root l → 0 <= newsz → newsz <= oldsz <= MAXVA →
  (oldsz + 4095) / 4096 * 4096 - (newsz + 4095) / 4096 * 4096 = Z.of_nat n * 4096 →
  let a := (newsz + 4095) / 4096 * 4096 in
  leaves (view s) a n → reclaimable s l (range_pages (view s) a n) →
  runs (uvmdealloc kend root oldsz newsz) s (λ r s',
    r = newsz ∧ pt_inv kend s' root (reverse (range_pages (view s) a n) ++ l) ∧
    (∀ p, nodes s' p ↔ nodes s p) ∧ unmap_view (view s) (view s') a (a + Z.of_nat n * 4096) ∧
    keeps_pages (λ p, nodes s p ∨ p ∈ range_pages (view s) a n) s s').
Proof.
  change MAXVA with (2 ^ 38). intros Hinv Hnew Hold Hn a Hleaf Hrec. unfold uvmdealloc.
  assert (Hstay : n = 0%nat → pt_inv kend s root (reverse (range_pages (view s) a n) ++ l) ∧
    (∀ p, nodes s p ↔ nodes s p) ∧ unmap_view (view s) (view s) a (a + Z.of_nat n * 4096) ∧
    keeps_pages (λ p, nodes s p ∨ p ∈ range_pages (view s) a n) s s).
  { intros ->. split_and!; [done|done| |apply keeps_pages_refl]. intros x Hx. by rewrite decide_False by lia. }
  rewrite Z.geb_leb. destruct (Z.leb_spec oldsz newsz).
  { apply runs_ret. assert (oldsz = newsz) as -> by lia. split; [done|]. apply Hstay. lia. }
  rewrite !PGROUNDUP_eq by lia. fold a. apply runs_bind.
  destruct (Z.ltb_spec a ((oldsz + 4095) / 4096 * 4096)); cycle 1.
  { kred. split; [done|]. apply Hstay. lia. }
  replace (((oldsz + 4095) / 4096 * 4096 - a) / PGSIZE) with (Z.of_nat n) by (unfold PGSIZE; subst a; zdm).
  assert (Hb : Z.of_nat n <= 2 ^ 26) by (subst a; zdm).
  rewrite s32_small, u64_small by lia.
  eapply runs_mono; [apply runs_uvmunmap; try done|].
  - subst a. unfold page_aligned. zdm.
  - subst a. zdm.
  - subst a. change MAXVA with (2 ^ 38). zdm.
  - intros [] s' (H1 & H2 & H3 & H4). kred. split_and!; try done. eapply keeps_pages_weaken; [|exact H4]. tauto.
Qed.
End Unmap.

(** ** uvmalloc *)

(** The view in which the pages from [a0] on are mapped to the pages [ps]. *)
Definition pages_view (v v' : Z → Z) (a0 : Z) (ps : list Z) (perm : Z) : Prop :=
  ∀ x, 0 <= x < MAXVA →
    v' x = if decide (a0 <= x < a0 + zlen ps * 4096)
           then mkpte (ps !!! Z.to_nat ((x - a0) / 4096)) perm else v x.

Lemma pages_view_range v v' a0 ps perm n :
  pages_view v v' a0 ps perm → 0 <= a0 → a0 + zlen ps * 4096 <= MAXVA → n = length ps →
  0 <= perm < 1024 → Forall (λ p, 0 <= p < 2 ^ 56 ∧ page_aligned p) ps →
  range_pages v' a0 n = ps.
Proof.
  intros Hv Ha Hend -> Hperm Hps.
  assert (Hgen : ∀ k (qs : list Z), ps = take k ps ++ qs → length (take k ps) = k →
    range_pages v' (a0 + Z.of_nat k * 4096) (length qs) = qs).
  { intros k qs. revert k. induction qs as [|q qs IH]; intros k E Hk; [done|]. simpl.
    assert (Hl : length ps = (k + S (length qs))%nat).
    { rewrite E, length_app, Hk. simpl. lia. }
    assert (Hq : ps !! k = Some q).
    { rewrite E, lookup_app_r by lia. by replace (k - length (take k ps))%nat with 0%nat by lia. }
    f_equal.
    - rewrite Hv, decide_True by lia.
      replace (Z.to_nat ((a0 + Z.of_nat k * 4096 - a0) / 4096)) with k by zdm.
      rewrite (list_lookup_total_correct _ _ _ Hq).
      eapply Forall_lookup_1 in Hps as [? ?]; [|exact Hq]. by apply mkpte_props.
    - replace (a0 + Z.of_nat k * 4096 + 4096) with (a0 + Z.of_nat (S k) * 4096) by lia.
      apply IH; [|by rewrite length_take; lia].
      rewrite (take_S_r _ _ q), <-app_assoc by done. done. }
  specialize (Hgen 0%nat ps). simpl in Hgen. rewrite Z.add_0_r in Hgen. by apply Hgen.
Qed.

Lemma pages_view_snoc v v1 v2 a0 ps q perm :
  0 <= a0 → page_aligned a0 →
  pages_view v v1 a0 ps perm → map_view v1 v2 (a0 + zlen ps * 4096) (a0 + zlen ps * 4096 + 4096) q perm →
  pages_view v v2 a0 (ps ++ [q]) perm.
Proof.
  unfold page_aligned. intros Ha Hal H1 H2 x Hx. rewrite H2, H1 by done.
  rewrite length_app. simpl. set (n := length ps) in *.
  destruct (decide (a0 + Z.of_nat n * 4096 <= x < a0 + Z.of_nat n * 4096 + 4096)) as [Hin|Hin].
  - rewrite decide_True by lia. f_equal.
    replace (Z.to_nat ((x - a0) / 4096)) with n by zdm.
    rewrite lookup_total_app_r by (subst n; lia). unfold n. rewrite Nat.sub_diag. simpl. zdm.
  - repeat case_decide; try lia. rewrite lookup_total_app_l; [done|]. fold n. zdm.
Qed.

Definition zero_page (m : mem) (p : Z) : Prop := ∀ b, p <= b < p + 4096 → rd8 m b = 0.

Section Alloc.
Variable kend : Z.
Hypothesis kend_pos : 0 < kend.
Variables (root perm : Z).
Hypothesis Hperm : 0 <= perm < 1024.

Notation view s := (pteval (kmem s) root).
Notation nodes s := (is_node (kmem s) root).

(** The pages [ps] have been taken from the free list [l], zeroed and mapped
    from [a0] on; every other page taken has become a table. *)
Record alloc_inv (s : kst) (l : list Z) (a0 : Z) (s' : kst) (l' ps : list Z) : Prop := {
  ai_grow : pt_grow kend root s l s' l';
  ai_nodes p : nodes s p → nodes s' p;
  ai_pages p : p ∈ l → p ∈ l' ∨ p ∈ ps ∨ nodes s' p;
  ai_fresh p : p ∈ ps → p ∈ l;
  ai_own : reclaimable kend root s' l' ps;
  ai_view : pages_view (view s) (view s') a0 ps perm;
  ai_zero p : p ∈ ps → zero_page (kmem s') p;
  ai_used : zlen l <= zlen l' + 3 * zlen ps
}.

Lemma alloc_inv_init s l a0 : pt_inv kend s root l → alloc_inv s l a0 s l [].
Proof.
  intros H. split; try (done || set_solver).
  - by apply pt_grow_refl.
  - split; [constructor|set_solver].
  - intros x Hx. simpl. by rewrite decide_False by lia.
  - simpl. lia.
Qed.

(** A page that is neither free nor a table is not touched by an operation
    that grows the table. *)
Lemma zero_page_grow s l s' l' p :
  pt_grow kend root s l s' l' → page_ok kend p → p ∉ l → ¬ nodes s p →
  zero_page (kmem s) p → zero_page (kmem s') p.
Proof. intros Hg [Hal _] Hl Hn Hz b Hb. rewrite (pg_frame _ _ _ _ _ _ Hg p); auto. Qed.

Lemma reclaimable_grow s l s' l' ps :
  pt_grow kend root s l s' l' → reclaimable kend root s l ps → reclaimable kend root s' l' ps.
Proof.
  intros Hg [Hnd Hps]. split; [done|]. intros p (Hok & Hl & Hn)%Hps. split_and!; [done| |].
  - eapply suffix_not_in; [apply Hg|done].
  - by intros [?|?]%(pg_nodes _ _ _ _ _ _ Hg).
Qed.

(** kalloc followed by memset: a zeroed page in no list and in no table. *)
Lemma fresh_page s q l :
  pt_inv kend s root (q :: l) →
  let s1 := mkK false (rd64 (kmem s) q) (memset (memset (kmem s) q 5 PGSIZE) q 0 PGSIZE) in
  pt_grow kend root s (q :: l) s1 l ∧ (∀ p, nodes s1 p ↔ nodes s p) ∧
  (∀ x, view s1 x = view s x) ∧ reclaimable kend root s1 l [q] ∧ zero_page (kmem s1) q.
Proof.
  intros Hinv s1.
  destruct (kalloc_grow kend kend_pos s root q l Hinv) as (_ & Hg & Hq & Hql & Hqn & Hv & Hn & _).
  set (s0 := mkK false (rd64 (kmem s) q) (memset (kmem s) q 5 PGSIZE)) in *.
  destruct (pt_inv_frame kend kend_pos s0 root l (memset (kmem s0) q 0 PGSIZE)) as (Hi1 & Hv1 & Hn1).
  { apply Hg. }
  { intros p Hp. eapply agree_out_agree; [apply memset_agree_out|]. unfold PGSIZE.
    apply or_comm, pages_disjoint; [apply Hq| |by intros ->; destruct Hp].
    pose proof (pg_inv _ _ _ _ _ _ Hg) as (Hk0 & Hw0 & _).
    destruct Hp as [(π & Hπ & Hp)|Hp]; [by eapply (pw_page _ _ _ Hw0 π)|by eapply kinv_page]. }
  assert (Hn' : ∀ p, nodes s1 p ↔ nodes s p).
  { intros p. change (nodes s1 p) with (is_node (memset (kmem s0) q 0 PGSIZE) root p).
    rewrite Hn1. by apply is_node_ext. }
  split; [|split; [done|split; [intros x; rewrite <-Hv; apply Hv1|split]]].
  - split; [exact Hi1|by exists [q]|intros p ?%Hn'; by left|]. intros p Hal Hp Hnp.
    eapply agree_trans; [by apply (pg_frame _ _ _ _ _ _ Hg)|].
    eapply agree_out_agree; [apply memset_agree_out|]. unfold PGSIZE.
    apply or_comm, pages_disjoint; [apply Hq|done|intros ->; apply Hp; by left].
  - split; [apply NoDup_singleton|]. intros p ->%list_elem_of_singleton.
    split_and!; [done|done|]. by rewrite Hn', <-(is_node_ext _ _ _ _ Hn).
  - intros b Hb. simpl. rewrite rd8_memset. by rewrite decide_True by (unfold PGSIZE; lia).
Qed.

Lemma alloc_inv_step s l a0 s0 q l0 ps s1 s2 l2 :
  0 <= a0 → page_aligned a0 →
  alloc_inv s l a0 s0 (q :: l0) ps →
  s1 = mkK false (rd64 (kmem s0) q) (memset (memset (kmem s0) q 5 PGSIZE) q 0 PGSIZE) →
  pt_grow kend root s1 l0 s2 l2 → pt_keep root s1 l0 s2 l2 →
  map_view (view s1) (view s2) (a0 + zlen ps * 4096) (a0 + zlen ps * 4096 + 4096) q perm → zlen l0 <= zlen l2 + 2 →
  alloc_inv s l a0 s2 l2 (ps ++ [q]).
Proof.
  intros Ha Hal [Hg Hn Hp Hf Ho Hv Hz Hu] -> Hg2 Hk2 Hv2 Hu2.
  destruct (fresh_page s0 q l0 (pg_inv _ _ _ _ _ _ Hg)) as (Hg1 & Hn1 & Hv1 & Ho1 & Hz1).
  set (s1 := mkK _ _ _) in *. clearbody s1.
  assert (Hg12 := pt_grow_trans kend kend_pos root _ _ _ _ _ _ Hg1 Hg2).
  assert (Hql : q ∈ l).
  { destruct (pg_used _ _ _ _ _ _ Hg) as [k ->]. apply elem_of_app. right. by left. }
  assert (Hqps : q ∉ ps) by (intros Hin; destruct (proj2 Ho q Hin) as (_ & H & _); apply H; by left).
  split.
  - by eapply pt_grow_trans.
  - intros p H. apply Hk2, Hn1, Hn, H.
  - intros p [[->|H]%elem_of_cons|[H|H]]%Hp.
    + right. left. apply elem_of_app. right. by left.
    + apply (pk_pages _ _ _ _ _ Hk2) in H. tauto.
    + right. left. apply elem_of_app. by left.
    + right. right. by apply Hk2, Hn1.
  - intros p [H| ->%list_elem_of_singleton]%elem_of_app; auto.
  - apply (reclaimable_grow _ _ _ _ _ Hg12) in Ho as [Hnd Ho].
    apply (reclaimable_grow _ _ _ _ _ Hg2) in Ho1 as [_ Ho1]. split.
    + apply NoDup_app. split_and!; [done| |apply NoDup_singleton].
      by intros p Hp' ->%list_elem_of_singleton.
    + intros p [H|H]%elem_of_app; auto.
  - eapply pages_view_snoc; [done|done| |done]. intros x Hx. rewrite Hv1. by apply Hv.
  - intros p [H| ->%list_elem_of_singleton]%elem_of_app.
    + destruct (proj2 Ho p H) as (? & ? & ?). by eapply zero_page_grow, Hz.
    + destruct (proj2 Ho1 q) as (? & ? & ?); [by left|]. by eapply zero_page_grow, Hz1.
  - rewrite length_app. simpl in *. lia.
Qed.

(** The state after a failure: the view is the one before, and every page
    taken is free again or a table. *)
Definition rolled_back (s : kst) (l : list Z) (s' : kst) : Prop :=
  ∃ l', pt_inv kend s' root l' ∧ (∀ p, nodes s p → nodes s' p) ∧
    (∀ p, p ∈ l → p ∈ l' ∨ nodes s' p) ∧
    (∀ x, 0 <= x < MAXVA → view s' x = view s x) ∧
    (∀ p, p ∈ l' ∨ nodes s' p → p ∈ l ∨ nodes s p) ∧
    keeps_pages (λ p, p ∈ l ∨ nodes s p) s s'.

Lemma runs_rollback s l a0 s' l' ps :
  page_aligned a0 → 0 <= a0 → a0 + zlen ps * 4096 <= MAXVA → Z.lor perm 1 ≠ 1 →
  (∀ x, a0 <= x < a0 + zlen ps * 4096 → view s x = 0) →
  pt_inv kend s' root l' → (∀ p, nodes s p → nodes s' p) →
  (∀ p, p ∈ l → p ∈ l' ∨ p ∈ ps ∨ nodes s' p) →
  reclaimable kend root s' l' ps → pages_view (view s) (view s') a0 ps perm →
  (∀ p, p ∈ l' ∨ p ∈ ps ∨ nodes s' p → p ∈ l ∨ nodes s p) → keeps_pages (λ p, p ∈ l ∨ nodes s p) s s' →
  runs (uvmdealloc kend root (a0 + zlen ps * 4096) a0) s' (λ _ s'', rolled_back s l s'').
Proof.
  intros Hal Ha Hend Hperm1 Hz Hinv Hn Hp Ho Hv Hb Hf. unfold page_aligned in Hal.
  assert (Hok : Forall (λ p, 0 <= p < 2 ^ 56 ∧ page_aligned p) ps).
  { apply Forall_forall. intros p (H & _)%(proj2 Ho). pose proof (page_ok_range kend kend_pos p H) as Hr.
    change PHYSTOP with 2281701376 in Hr. split; [lia|apply H]. }
  assert (Hrange := pages_view_range _ _ _ _ _ _ Hv Ha Hend eq_refl Hperm Hok).
  assert (Ha' : (a0 + 4095) / 4096 * 4096 = a0) by zdm.
  pose proof (runs_uvmdealloc kend kend_pos root s' l' (a0 + zlen ps * 4096) a0 (length ps)) as H.
  simpl in H. rewrite Ha', Hrange in H.
  eapply runs_mono; [apply H; try (done || lia || zdm)|].
  - intros i Hi. simpl. rewrite Hv, decide_True by lia.
    replace (Z.to_nat ((a0 + i * 4096 - a0) / 4096)) with (Z.to_nat i) by zdm.
    destruct (lookup_lt_is_Some_2 ps (Z.to_nat i) ltac:(lia)) as [q Hq].
    rewrite (list_lookup_total_correct _ _ _ Hq).
    eapply Forall_lookup_1 in Hok as [? ?]; [|exact Hq].
    destruct (mkpte_props q perm) as (_ & -> & _ & ->); done.
  - intros _ s'' (_ & Hinv2 & Hn2 & Hv2 & Hf2). exists (reverse ps ++ l'). split; [done|].
    split_and!.
    + intros p H'. by apply Hn2, Hn.
    + intros p H'%Hp. rewrite elem_of_app, elem_of_reverse, Hn2. tauto.
    + intros x Hx. rewrite Hv2, Hv by done. case_decide; [by rewrite Hz|done].
    + intros p. rewrite elem_of_app, elem_of_reverse, Hn2. intros H'. apply Hb. tauto.
    + eapply keeps_pages_trans; [exact Hf|]. eapply keeps_pages_weaken; [|exact Hf2]. intros p [H'|H']; apply Hb; auto.
Qed.

Lemma alloc_inv_length s l a0 s' l' ps : alloc_inv s l a0 s' l' ps → zlen ps + zlen l' <= zlen l.
Proof.
  intros Hai. destruct (ai_own _ _ _ _ _ _ Hai) as [Hnd Hps].
  destruct (pg_inv _ _ _ _ _ _ (ai_grow _ _ _ _ _ _ Hai)) as ((_ & Hnd' & _) & _).
  destruct (pg_used _ _ _ _ _ _ (ai_grow _ _ _ _ _ _ Hai)) as [k Hk].
  assert (Hsub : ps ++ l' ⊆+ l).
  { apply NoDup_submseteq; [apply NoDup_app; split_and!; [done| |done]; intros p (_ & ? & _)%Hps; done|].
    intros p [Hp|Hp]%elem_of_app; [by apply (ai_fresh _ _ _ _ _ _ Hai)|rewrite Hk; apply elem_of_app; by right]. }
  apply submseteq_length in Hsub. rewrite length_app in Hsub. lia.
Qed.

(** The pages that a growing table, its user pages and the free list use. *)
Lemma alloc_inv_back s l a0 s' l' ps p : alloc_inv s l a0 s' l' ps → p ∈ l' ∨ p ∈ ps ∨ nodes s' p → p ∈ l ∨ nodes s p.
Proof.
  intros Hai [H|[H|H]].
  - left. destruct (pg_used _ _ _ _ _ _ (ai_grow _ _ _ _ _ _ Hai)) as [k ->]. apply elem_of_app. by right.
  - left. by apply (ai_fresh _ _ _ _ _ _ Hai).
  - apply (pg_nodes _ _ _ _ _ _ (ai_grow _ _ _ _ _ _ Hai)) in H. tauto.
Qed.

Lemma grow_keeps s l s' l' : pt_grow kend root s l s' l' → keeps_pages (λ p, p ∈ l ∨ nodes s p) s s'.
Proof. intros Hg p Hal Hp. apply (pg_frame _ _ _ _ _ _ Hg); tauto. Qed.

(** mappages failed after [q] was allocated: [q] is freed and the pages
    mapped so far are unmapped. *)
Lemma runs_alloc_fail s l a0 s0 q l0 ps s1 s2 :
  page_aligned a0 → 0 <= a0 → a0 + zlen ps * 4096 <= MAXVA → Z.lor perm 1 ≠ 1 →
  (∀ x, a0 <= x < a0 + zlen ps * 4096 → view s x = 0) →
  alloc_inv s l a0 s0 (q :: l0) ps →
  s1 = mkK false (rd64 (kmem s0) q) (memset (memset (kmem s0) q 5 PGSIZE) q 0 PGSIZE) →
  pt_grow kend root s1 l0 s2 [] → pt_keep root s1 l0 s2 [] →
  (∀ x, 0 <= x < MAXVA → view s2 x = view s1 x) →
  runs (kfree kend q ;;; uvmdealloc kend root (a0 + zlen ps * 4096) a0) s2
    (λ _ s', rolled_back s l s').
Proof.
  intros Hal Ha Hend Hperm1 Hz Hai -> Hg2 Hk2 Hv2. pose proof (λ p, alloc_inv_back _ _ _ _ _ _ p Hai) as Hb.
  destruct Hai as [Hg Hn Hp Hf Ho Hv _ _].
  destruct (fresh_page s0 q l0 (pg_inv _ _ _ _ _ _ Hg)) as (Hg1 & Hn1 & Hv1 & Ho1 & _).
  set (s1 := mkK _ _ _) in *. clearbody s1.
  assert (Hg12 := pt_grow_trans kend kend_pos root _ _ _ _ _ _ Hg1 Hg2).
  apply (reclaimable_grow _ _ _ _ _ Hg2) in Ho1 as [_ Ho1].
  destruct (Ho1 q) as (Hq & Hql & Hqn); [by left|].
  destruct (kfree_inv kend kend_pos root s2 [] q (pg_inv _ _ _ _ _ _ Hg2) Hq Hql Hqn)
    as (s3 & Hfree & Hinv3 & Hn3 & Hv3 & _ & Ho3).
  apply runs_bind. eapply runs_Ok; [exact Hfree|].
  apply (runs_rollback s l a0 s3 [q] ps); try done.
  - intros p H. by apply Hn3, Hk2, Hn1, Hn.
  - intros p [[->|H]%elem_of_cons|[H|H]]%Hp.
    + left. by left.
    + right. right. apply Hn3. by apply (pk_pages _ _ _ _ _ Hk2) in H as [?%elem_of_nil|H].
    + right. by left.
    + right. right. by apply Hn3, Hk2, Hn1.
  - pose proof (reclaimable_grow _ _ _ _ _ Hg12 Ho) as [Hnd Ho2]. split; [done|]. intros p Hin.
    destruct (Ho2 p Hin) as (? & _ & ?). destruct (proj2 Ho p Hin) as (_ & Hnq & _).
    split_and!; [done| |by rewrite Hn3]. intros ->%list_elem_of_singleton. apply Hnq. by left.
  - intros x Hx. rewrite Hv3, Hv2, Hv1 by done. by apply Hv.
  - assert (Hql0 : q ∈ l ∨ nodes s q) by (apply Hb; left; by left).
    intros p [->%list_elem_of_singleton|[H|H]]; [done|apply Hb; tauto|].
    apply Hn3, (pg_nodes _ _ _ _ _ _ Hg12) in H as [H|H]; apply Hb; tauto.
  - eapply keeps_pages_trans; [by eapply grow_keeps|].
    eapply keeps_pages_weaken; [|eapply keeps_pages_trans; [by eapply grow_keeps, Hg12|]].
    { intros p [H|H]; apply Hb; tauto. }
    intros p Hal' Hne. eapply agree_out_agree; [exact Ho3|]. apply or_comm, pages_disjoint; [apply Hq|done|].
    intros <-. apply Hne. left. by left.
Qed.
End Alloc.

Section Uvmalloc.
Variable kend : Z.
Hypothesis kend_pos : 0 < kend.
Variables (root xperm : Z).
Hypothesis Hxperm : 0 <= xperm < 1024.

Let perm : Z := Z.lor (Z.lor PTE_R PTE_U) xperm.

Let Hperm : 0 <= perm < 1024.
Proof. apply lor_flags; [done|lia]. Qed.

Let Hperm1 : Z.lor perm 1 ≠ 1.
Proof.
  intros E. apply (f_equal (λ x, Z.testbit x 1)) in E. unfold perm in E.
  by rewrite !Z.lor_spec in E.
Qed.

Notation view s := (pteval (kmem s) root).

(** Memory above the old size is unmapped up to [top], which is above the new
    size or above what the free pages can fill. *)
Lemma runs_uvmalloc s l oldsz newsz top :
  pt_inv kend s root l → 0 <= oldsz <= newsz →
  let a0 := (oldsz + 4095) / 4096 * 4096 in
  page_aligned top → top <= MAXVA → newsz <= top ∨ a0 + zlen l * 4096 <= top →
  (∀ x, a0 <= x < top → view s x = 0) →
  runs (uvmalloc kend root oldsz newsz xperm) s (λ r s',
    (r = newsz ∧ ∃ l' ps, alloc_inv kend root perm s l a0 s' l' ps ∧
       zlen ps = Z.max 0 ((newsz - a0 + 4095) / 4096)) ∨
    (r = 0 ∧ rolled_back kend root s l s' ∧ zlen l <= 3 * ((newsz - a0 + 4095) / 4096))).
Proof.
  change MAXVA with (2 ^ 38). intros Hinv Hold a0 Htal Htop Hnew Hz. unfold uvmalloc.
  destruct (Z.ltb_spec newsz oldsz); [lia|]. unfold page_aligned in Htal.
  assert (Hsmall : oldsz <= 2 ^ 38) by (subst a0; destruct Hnew; zdm). rewrite PGROUNDUP_eq by lia. fold a0. fold perm.
  assert (Ha0 : 0 <= a0 ∧ a0 mod 4096 = 0) by (subst a0; zdm). destruct Ha0 as [Ha0 Hal0]. clearbody a0.
  apply (runs_iter _ (λ n a s', ∃ l' ps,
    n = Z.to_nat ((newsz - a + 4095) / 4096) ∧ a = a0 + zlen ps * 4096 ∧
    (ps ≠ [] → a < newsz + 4096) ∧ alloc_inv kend root perm s l a0 s' l' ps))
    with (n := Z.to_nat ((newsz - a0 + 4095) / 4096)); cycle 1.
  { exists l, []. split_and!; [done|simpl; lia|done|by apply alloc_inv_init]. }
  { unfold PGSIZE. zdm. }
  intros n a s0 (l0 & ps & -> & -> & Hb & Hai).
  destruct (Z.ltb_spec (a0 + zlen ps * 4096) newsz) as [Hlt|]; cycle 1.
  { apply runs_ret. left. split; [done|]. exists l0, ps. split; [done|].
    destruct ps as [|p ps]; simpl in *; [zdm|specialize (Hb ltac:(done)); zdm]. }
  assert (Hps : a0 + zlen ps * 4096 <= top).
  { destruct Hnew as [|Hnew]; [zdm|]. pose proof (alloc_inv_length _ _ _ _ _ _ _ _ _ Hai). lia. }
  pose proof (ai_grow _ _ _ _ _ _ _ _ _ Hai) as Hg. pose proof (pg_inv _ _ _ _ _ _ Hg) as Hinv0.
  pose proof (ai_view _ _ _ _ _ _ _ _ _ Hai) as Hv.
  apply runs_bind. destruct l0 as [|q l0].
  { eapply runs_Ok; [by eapply kalloc_nil, Hinv0|]. simpl. apply runs_bind.
    eapply runs_mono; [eapply (runs_rollback kend kend_pos root perm Hperm s l a0); try (done || lia)|].
    - change MAXVA with (2 ^ 38). lia.
    - intros x Hx. apply Hz. lia.
    - apply Hai.
    - apply Hai.
    - apply Hai.
    - intros p. by eapply alloc_inv_back.
    - by eapply grow_keeps.
    - intros r s' H'. kred. right. split_and!; [done|done|]. pose proof (ai_used _ _ _ _ _ _ _ _ _ Hai). simpl in *. zdm. }
  assert (Hend : a0 + zlen ps * 4096 + 4096 <= top).
  { destruct Hnew as [|Hnew]; [zdm|]. pose proof (alloc_inv_length _ _ _ _ _ _ _ _ _ Hai) as Hlen. simpl in Hlen. lia. }
  destruct (kalloc_grow kend kend_pos s0 root q l0 Hinv0) as (Heq & _ & Hq & _).
  eapply runs_Ok; [exact Heq|]. clear Heq. cbv beta.
  pose proof (page_ok_range kend kend_pos q Hq) as Hr. change PHYSTOP with 2281701376 in Hr.
  destruct (Z.eqb_spec q 0); [lia|]. unfold do_memset. kred. cbn [kmem set_kmem kmem_lock freelist].
  destruct (fresh_page kend kend_pos root s0 q l0 Hinv0) as (Hg1 & Hn1 & Hv1 & Ho1 & Hz1).
  unfold set_kmem. cbn [kmem kmem_lock freelist].
  remember (mkK false (rd64 (kmem s0) q) (memset (memset (kmem s0) q 5 PGSIZE) q 0 PGSIZE)) as s1 eqn:Hs1.
  eapply runs_mono; [apply (runs_mappages kend kend_pos root perm Hperm s1 l0); try (done || lia)|].
  - apply Hg1.
  - change MAXVA with (2 ^ 38). unfold PGSIZE. lia.
  - apply Hq.
  - unfold PGSIZE. lia.
  - unfold PGSIZE. intros x Hx. rewrite Hv1, Hv by (change MAXVA with (2 ^ 38); zdm).
    rewrite decide_False by zdm. by rewrite Hz by zdm.
  - intros r s2 (l2 & e & Hg2 & Hk2 & Hal2 & Hv2 & Hres & Hu2). unfold page_aligned, PGSIZE in *.
    replace ((a0 + zlen ps * 4096) / 4096 * 4096) with (a0 + zlen ps * 4096) in * by zdm.
    destruct Hres as [(-> & He)|(-> & -> & He)]; simpl.
    + assert (e = a0 + zlen ps * 4096 + 4096) as -> by zdm. kred.
      rewrite u64_small by lia. exists (Z.to_nat ((newsz - (a0 + zlen ps * 4096 + 4096) + 4095) / 4096)).
      split; [zdm|]. exists l2, (ps ++ [q]). rewrite length_app. simpl.
      split_and!; [done|lia|lia|]. rewrite decide_True in Hu2 by done. eapply alloc_inv_step; done || zdm.
    + assert (e = a0 + zlen ps * 4096) as -> by zdm.
      apply runs_bind. eapply runs_mono.
      * eapply runs_bind_inv, (runs_alloc_fail kend kend_pos root perm Hperm s l a0 s0 q l0 ps s1 s2);
          try (done || lia).
        -- change MAXVA with (2 ^ 38). lia.
        -- intros x Hx. apply Hz. lia.
        -- intros x Hx. rewrite Hv2 by done. by rewrite decide_False by lia.
      * intros [] s3 H3. apply runs_bind. eapply runs_mono; [exact H3|]. intros r s' H'. kred. right. split_and!; [done|done|].
        pose proof (ai_used _ _ _ _ _ _ _ _ _ Hai) as Hu. rewrite decide_False in Hu2 by done. rewrite Z.sub_diag in Hu2. simpl in *. zdm.
Qed.
End Uvmalloc.

(** ** Properties *)

(** [C23] Growing a user address space that is unmapped from its rounded size
    to [top], where [top] is above the new size or above all that the free
    memory can fill: uvmalloc either returns the new size, and then each page
    between the rounded old size and the new size is mapped with read, user and
    the requested permissions to a page of its own, taken from the free list
    and filled with zeros; or it returns 0, which it does only with at most three free
    pages per page to map, and then every mapping is as before.  In both cases no page is lost: a page that was
    free is still free, is one of the new user pages, or has become a page
    table; and pages that were neither free nor tables keep their bytes. *)
Theorem uvmalloc_spec (kend root xperm : Z) (s : kst) (l : list Z) (oldsz newsz top : Z) :
  0 < kend → 0 <= xperm < 1024 → pt_inv kend s root l → 0 <= oldsz <= newsz →
  let a0 := (oldsz + 4095) / 4096 * 4096 in
  let perm := Z.lor (Z.lor PTE_R PTE_U) xperm in
  page_aligned top → top <= MAXVA → newsz <= top ∨ a0 + zlen l * 4096 <= top →
  (∀ x, a0 <= x < top → pteval (kmem s) root x = 0) →
  ∃ r s' l', uvmalloc kend root oldsz newsz xperm s = Ok r s' ∧ pt_inv kend s' root l' ∧
    keeps_pages (λ p, p ∈ l ∨ is_node (kmem s) root p) s s' ∧
    ((r = newsz ∧ ∃ ps, zlen ps = Z.max 0 ((newsz - a0 + 4095) / 4096) ∧ NoDup ps ∧
        (∀ p, p ∈ ps → p ∈ l ∧ p ∉ l' ∧ ¬ is_node (kmem s') root p ∧ zero_page (kmem s') p) ∧
        pages_view (pteval (kmem s) root) (pteval (kmem s') root) a0 ps perm ∧
        (∀ p, p ∈ l → p ∈ l' ∨ p ∈ ps ∨ is_node (kmem s') root p)) ∨
     (r = 0 ∧ zlen l <= 3 * ((newsz - a0 + 4095) / 4096) ∧
        (∀ x, 0 <= x < MAXVA → pteval (kmem s') root x = pteval (kmem s) root x) ∧
        (∀ p, p ∈ l → p ∈ l' ∨ is_node (kmem s') root p))).
Proof.
  intros Hk Hx Hinv Hold a0 perm Htal Htop Hnew Hz.
  destruct (runs_elim _ _ _ (runs_uvmalloc kend Hk root xperm Hx s l oldsz newsz top Hinv Hold Htal Htop Hnew Hz))
    as (r & s' & Hrun & [(-> & l' & ps & Hai & Hlen)|(-> & (l' & Hi & _ & Hp & Hv & _ & Hf) & Hu)]).
  - exists newsz, s', l'. split; [done|]. split; [apply Hai|]. split; [by eapply grow_keeps, Hai|]. left. split; [done|]. exists ps.
    destruct Hai as [Hg Hn Hp Hf [Hnd Ho] Hv Hzp _].
    split; [done|]. split; [done|]. split; [|done]. intros p Hin.
    destruct (Ho p Hin) as (_ & ? & ?). auto.
  - exists 0, s', l'. auto 10.
Qed.

(** An empty page table and four free pages. *)
Definition demo_four : list Z := 0x86fff000 :: demo_free.
Definition demo_four_state : kst := mkK false 0x86fff000 (wr64 (kmem demo_state) 0x86fff000 0x87001000).

Lemma demo_four_inv :
  pt_inv demo_end demo_four_state demo_root demo_four ∧ (∀ va, pteval (kmem demo_four_state) demo_root va = 0).
Proof.
  destruct (zero_table demo_end (kmem demo_four_state) demo_root) as (Hw & Hn & Hv); [by split| |].
  { intros i Hi. unfold demo_four_state, demo_state, pte_addr, demo_root. cbn [kmem]. rewrite !rd64_wr64_ne by lia. apply rd64_empty. }
  split; [|done]. split; [|split; [done|]].
  - split; [done|split].
    + unfold demo_four, demo_free. repeat constructor; set_solver.
    + unfold demo_four, demo_free, chain, demo_four_state, demo_state. cbn [kmem freelist].
      rewrite rd64_wr64_same, !(rd64_wr64_ne _ 0x86fff000) by lia.
      rewrite rd64_wr64_ne, rd64_wr64_same by lia. rewrite rd64_wr64_same, !rd64_wr64_ne, rd64_empty by lia. by split_and!.
  - intros p ->%Hn. unfold demo_four, demo_free, demo_root. set_solver.
Qed.

Lemma uvmalloc_spec_witness :
  ∃ s' l' ps, uvmalloc demo_end demo_root 0 3000 PTE_W demo_four_state = Ok 3000 s' ∧
    pt_inv demo_end s' demo_root l' ∧ length ps = 1%nat ∧ (∀ p, p ∈ ps → p ∈ demo_four ∧ p ∉ l' ∧ zero_page (kmem s') p).
Proof.
  destruct demo_four_inv as (Hinv & Hz).
  destruct (uvmalloc_spec demo_end demo_root PTE_W demo_four_state demo_four 0 3000 4096)
    as (r & s' & l' & H1 & H2 & _ & H3); [reflexivity|split; [by vm_compute|reflexivity]|exact Hinv|lia|reflexivity|by vm_compute|left; lia| |].
  - intros x _. apply Hz.
  - destruct H3 as [(-> & ps & Hl & _ & Hp & _)|(_ & Hfull & _)]; [|exfalso; revert Hfull; apply Zlt_not_le; reflexivity].
    exists s', l', ps. split; [exact H1|]. split; [exact H2|]. split; [change (zlen ps = 1) in Hl; lia|].
    intros p Hin. destruct (Hp p Hin) as (H4 & H5 & _ & H6). split; [exact H4|]. split; [exact H5|exact H6].
Defined.

(** Shrinking a user address space: when the pages between the rounded
    sizes are mapped as leaves to distinct pages that nobody else uses,
    uvmdealloc returns the new size without a panic, exactly those mappings
    are removed, exactly those physical pages are handed back to the
    allocator, and the tables of the address space stay in place. *)
Theorem uvmdealloc_spec (kend root : Z) (s : kst) (l : list Z) (oldsz newsz : Z) (n : nat) :
  0 < kend → pt_inv kend s root l → 0 <= newsz → newsz <= oldsz <= MAXVA →
  (oldsz + 4095) / 4096 * 4096 - (newsz + 4095) / 4096 * 4096 = Z.of_nat n * 4096 →
  let a := (newsz + 4095) / 4096 * 4096 in
  leaves (pteval (kmem s) root) a n →
  reclaimable kend root s l (range_pages (pteval (kmem s) root) a n) →
  ∃ s', uvmdealloc kend root oldsz newsz s = Ok newsz s' ∧
    pt_inv kend s' root (reverse (range_pages (pteval (kmem s) root) a n) ++ l) ∧
    (∀ p, is_node (kmem s') root p ↔ is_node (kmem s) root p) ∧
    (∀ x, 0 <= x < MAXVA → pteval (kmem s') root x =
       if decide (a <= x < a + Z.of_nat n * 4096) then 0 else pteval (kmem s) root x).
Proof.
  intros Hk Hinv Hnew Hold Hn a Hleaf Hrec.
  destruct (runs_elim _ _ _ (runs_uvmdealloc kend Hk root s l oldsz newsz n Hinv Hnew Hold Hn Hleaf Hrec))
    as (r & s' & Hrun & -> & Hi & Hnd & Hv & _).
  exists s'. auto.
Qed.

Lemma demo_user_page0 : range_pages (pteval (kmem demo_user) demo_root) 0 1 = [0x87006000].
Proof.
  destruct demo_user_inv as (_ & _ & Hv). unfold range_pages. rewrite Hv by (split; [lia|reflexivity]).
  by vm_compute.
Qed.

Lemma uvmdealloc_spec_witness :
  ∃ s', uvmdealloc demo_end demo_root 4096 0 demo_user = Ok 0 s' ∧
    pt_inv demo_end s' demo_root (0x87006000 :: demo_free).
Proof.
  destruct demo_user_inv as (Hinv & Hn & Hv).
  destruct (uvmdealloc_spec demo_end demo_root demo_user demo_free 4096 0 1) as (s' & Hrun & Hi & _).
  - reflexivity.
  - exact Hinv.
  - lia.
  - split; [lia|by vm_compute].
  - reflexivity.
  - change ((0 + 4095) / 4096 * 4096) with 0. intros i Hi. assert (i = 0) as -> by lia.
    change (0 + 0 * 4096) with 0. cbv zeta.
    rewrite Hv by (split; [lia|reflexivity]). by vm_compute.
  - change ((0 + 4095) / 4096 * 4096) with 0. rewrite demo_user_page0.
    split; [apply NoDup_singleton|]. intros p ->%list_elem_of_singleton. split; [|split].
    + apply (demo_page 6). lia.
    + apply demo_not_free. lia.
    + intros Hp%Hn. unfold demo_root in Hp. rewrite !elem_of_cons, elem_of_nil in Hp. lia.
  - change ((0 + 4095) / 4096 * 4096) with 0 in Hi. rewrite demo_user_page0 in Hi.
    exists s'. split; [exact Hrun|exact Hi].
Defined.
