(* ===== verification/VmFree.v ===== *)
(** freewalk of kernel/vm.c: the tables of a page table without mappings are
    all given back to the allocator. *)

From S2P Require Import Prelude Mem CString Riscv Spinlock Kalloc Vm VmSpec VmUser.
Local Open Scope kernel_scope.

(** ** The tables below a table *)

Definition subtables (f : Z → list Z) (m : mem) (p : Z) (n : nat) : list Z :=
  concat ((λ i, match entry m p (Z.of_nat i) with Some q => f q | None => [] end) <$> seq 0 n).

(** The tables of the [d] levels from [p], in the order freewalk frees them. *)
Fixpoint tables (d : nat) (m : mem) (p : Z) : list Z :=
  match d with
  | O => []
  | S d' => subtables (tables d' m) m p 512 ++ [p]
  end.

(** No entry of the lowest level is valid, the others have no permissions. *)
Fixpoint prunable (d : nat) (m : mem) (p : Z) : Prop :=
  match d with
  | O => True
  | S d' => ∀ i, 0 <= i < 512 → valid (rd64 m (pte_addr p i)) = true →
      d' ≠ O ∧ Z.land (rd64 m (pte_addr p i)) (Z.lor (Z.lor PTE_R PTE_W) PTE_X) = 0 ∧
      prunable d' m (PTE2PA (rd64 m (pte_addr p i)))
  end.

Lemma subtables_S f m p n :
  subtables f m p (S n) = subtables f m p n ++ match entry m p (Z.of_nat n) with Some q => f q | None => [] end.
Proof. unfold subtables. by rewrite seq_S, fmap_app, concat_app; simpl; rewrite app_nil_r. Qed.

Lemma elem_subtables f m p n x :
  x ∈ subtables f m p n ↔ ∃ i q, 0 <= i < Z.of_nat n ∧ entry m p i = Some q ∧ x ∈ f q.
Proof.
  induction n as [|n IH]; [split; [by intros ?%elem_of_nil|intros (i & q & ? & _); lia]|].
  rewrite subtables_S, elem_of_app, IH. split.
  - intros [(i & q & Hi & He & Hx)|Hx]; [exists i, q; split_and!; (done || lia)|].
    destruct (entry m p (Z.of_nat n)) as [q|] eqn:E; [|by apply elem_of_nil in Hx]. exists (Z.of_nat n), q. split_and!; done || lia.
  - intros (i & q & Hi & He & Hx). destruct (decide (i = Z.of_nat n)) as [->|]; [right; by rewrite He|].
    left. exists i, q. split_and!; done || lia.
Qed.

Lemma elem_tables d m p x :
  x ∈ tables d m p ↔ ∃ π, (length π < d)%nat ∧ Forall (λ i, 0 <= i < 512) π ∧ node m p π = Some x.
Proof.
  revert p. induction d as [|d IH]; intros p; simpl; [split; [by intros ?%elem_of_nil|intros (π & ? & _); lia]|].
  rewrite elem_of_app, elem_subtables, list_elem_of_singleton. split.
  - intros [(i & q & Hi & He & (π & Hl & Hf & Hn)%IH)| ->].
    + exists (i :: π). simpl. rewrite He. split_and!; [lia|by constructor|done].
    + exists []. simpl. split_and!; [lia|constructor|done].
  - intros ([|i π] & Hl & Hf & Hn); simpl in *; [right; congruence|]. left.
    apply Forall_cons in Hf as [Hi Hf]. destruct (entry m p i) as [q|] eqn:He; [|done]. simpl in Hn.
    exists i, q. split_and!; [lia|lia|done|]. apply IH. exists π. split_and!; done || lia.
Qed.

Lemma NoDup_subtables f m p n :
  (∀ i q, 0 <= i < Z.of_nat n → entry m p i = Some q → NoDup (f q)) →
  (∀ i j q q' x, 0 <= i < Z.of_nat n → 0 <= j < Z.of_nat n → entry m p i = Some q → entry m p j = Some q' →
     x ∈ f q → x ∈ f q' → i = j) →
  NoDup (subtables f m p n).
Proof.
  induction n as [|n IH]; intros Hnd Hd; [constructor|]. rewrite subtables_S. apply NoDup_app. split_and!.
  - apply IH; [intros i q Hi He; apply (Hnd i q); [lia|done]|intros i j q q' x Hi Hj; apply Hd; lia].
  - intros x (i & q & Hi & He & Hx)%elem_subtables Hx'.
    destruct (entry m p (Z.of_nat n)) as [q'|] eqn:E; [|by apply elem_of_nil in Hx'].
    assert (i = Z.of_nat n); [|lia]. apply (Hd i (Z.of_nat n) q q' x); done || lia.
  - destruct (entry m p (Z.of_nat n)) as [q|] eqn:E; [|constructor]. eapply Hnd; [|done]. lia.
Qed.

Lemma NoDup_tables d m p :
  (∀ π1 π2 x, (length π1 < d)%nat → (length π2 < d)%nat → Forall (λ i, 0 <= i < 512) π1 → Forall (λ i, 0 <= i < 512) π2 →
     node m p π1 = Some x → node m p π2 = Some x → π1 = π2) →
  NoDup (tables d m p).
Proof.
  revert p. induction d as [|d IH]; intros p Hinj; [constructor|]. cbn [tables].
  assert (Hpath : ∀ i q x, 0 <= i < 512 → entry m p i = Some q → x ∈ tables d m q →
    ∃ π, (length π < d)%nat ∧ Forall (λ i, 0 <= i < 512) (i :: π) ∧ node m p (i :: π) = Some x).
  { intros i q x Hi He (π & Hl & Hf & Hn)%elem_tables. exists π. simpl. rewrite He. split_and!; [done|by constructor|done]. }
  apply NoDup_app. split_and!; [|intros x (i & q & Hi & He & Hx)%elem_subtables ->%list_elem_of_singleton|apply NoDup_singleton].
  - apply NoDup_subtables.
    + intros i q Hi He. apply IH. intros π1 π2 x L1 L2 F1 F2 N1 N2.
      assert (E : i :: π1 = i :: π2); [|by injection E].
      apply (Hinj _ _ x); [simpl; lia|simpl; lia|constructor; [lia|done]|constructor; [lia|done]| |]; simpl; by rewrite He.
    + intros i j q q' x Hi Hj Ei Ej Xi Xj.
      destruct (Hpath i q x) as (π1 & L1 & F1 & N1); [lia|done|done|].
      destruct (Hpath j q' x) as (π2 & L2 & F2 & N2); [lia|done|done|].
      assert (E : i :: π1 = j :: π2); [|by injection E]. apply (Hinj _ _ x); simpl; done || lia.
  - destruct (Hpath i q p) as (π & L & F & N); [lia|done|done|].
    assert (E : i :: π = []); [|done]. apply (Hinj _ _ p); simpl; done || lia || constructor.
Qed.

(** The tables depend on the bytes of the tables only. *)
Lemma subtables_ext f g m m' p n :
  (∀ i, 0 <= i < Z.of_nat n → entry m' p i = entry m p i) →
  (∀ i q, 0 <= i < Z.of_nat n → entry m p i = Some q → g q = f q) →
  subtables g m' p n = subtables f m p n.
Proof.
  induction n as [|n IH]; intros He Hf; [done|]. rewrite !subtables_S, IH; [|intros i Hi; apply He; lia|intros i q Hi; apply Hf; lia].
  rewrite He by lia. destruct (entry m p (Z.of_nat n)) as [q|] eqn:E; [|done]. by rewrite (Hf (Z.of_nat n)) by (done || lia).
Qed.

Lemma tables_ext d m m' p :
  (∀ x, x ∈ tables d m p → agree m m' x 4096) →
  tables d m' p = tables d m p ∧ (prunable d m p → prunable d m' p).
Proof.
  revert p. induction d as [|d IH]; intros p Hag; [done|]. cbn [tables] in *.
  assert (Hp : agree m m' p 4096) by (apply Hag, elem_of_app; right; by left).
  assert (Hsub : ∀ i q, 0 <= i < 512 → entry m p i = Some q → ∀ x, x ∈ tables d m q → agree m m' x 4096).
  { intros i q Hi He x Hx. apply Hag, elem_of_app. left. apply elem_subtables. exists i, q. split_and!; done || lia. }
  split.
  - f_equal. apply subtables_ext; [intros i Hi; apply entry_agree; done || lia|].
    intros i q Hi He. apply IH. eapply Hsub; [|done]. lia.
  - cbn [prunable]. intros Hpr i Hi. pose proof (pte_addr_page p i Hi).
    rewrite (rd64_ext m m') by (eapply agree_sub; [done|lia|lia]). intros Hv.
    destruct (Hpr i Hi Hv) as (H1 & H2 & H3). split_and!; [done|done|]. eapply IH; [|done].
    eapply Hsub; [exact Hi|]. unfold entry. by rewrite Hv.
Qed.

(** ** freewalk *)

Section Freewalk.
Variable kend : Z.
Hypothesis kend_pos : 0 < kend.

(** Distinct pages that are not free. *)
Definition held (l ts : list Z) : Prop := NoDup ts ∧ ∀ p, p ∈ ts → page_ok kend p ∧ p ∉ l.

Lemma held_app l ts1 ts2 : held l (ts1 ++ ts2) → held l ts1 ∧ held (reverse ts1 ++ l) ts2.
Proof.
  intros [(N1 & Nd & N2)%NoDup_app H]. split.
  - split; [done|]. intros p Hp. apply H, elem_of_app. by left.
  - split; [done|]. intros p Hp. destruct (H p) as [? Hl]; [apply elem_of_app; by right|]. split; [done|].
    rewrite elem_of_app, elem_of_reverse. intros [Hp'|]; [|done]. by apply (Nd p).
Qed.

(** The loop of freewalk over the entries of [p]: the entries below [i] are
    done. *)
Record walk_inv (d : nat) (p : Z) (s : kst) (l : list Z) (i : nat) (s' : kst) : Prop := {
  wi_free : kinv kend s' (reverse (subtables (tables d (kmem s)) (kmem s) p i) ++ l);
  wi_keep : keeps_pages (λ x, x = p ∨ x ∈ subtables (tables d (kmem s)) (kmem s) p i) s s';
  wi_rest j : Z.of_nat i <= j < 512 → rd64 (kmem s') (pte_addr p j) = rd64 (kmem s) (pte_addr p j)
}.

(** The page [p] and what is below its entries from [i] on is still there. *)
Lemma walk_inv_sub d p s l i s' q :
  (i < 512)%nat → held l (tables (S d) (kmem s) p) → walk_inv d p s l i s' → entry (kmem s) p (Z.of_nat i) = Some q →
  (∀ x, x ∈ tables d (kmem s) q → agree (kmem s) (kmem s') x 4096) ∧
  held (reverse (subtables (tables d (kmem s)) (kmem s) p i) ++ l) (tables d (kmem s) q).
Proof.
  intros Hi Hh [_ Hk _] He. cbn [tables] in Hh. set (f := tables d (kmem s)) in *.
  assert (Hin : ∀ x, x ∈ f q → x ∈ subtables f (kmem s) p 512).
  { intros x Hx. apply elem_subtables. exists (Z.of_nat i), q. split_and!; done || lia. }
  destruct Hh as [Hnd Hok]. pose proof Hnd as (Hn1 & Hn2 & _)%NoDup_app.
  assert (Hsub : subtables f (kmem s) p (S i) `sublist_of` subtables f (kmem s) p 512).
  { assert (Hs : ∀ k, (S i <= k)%nat → subtables f (kmem s) p (S i) `sublist_of` subtables f (kmem s) p k).
    { intros k Hk'. induction k as [|k IH]; [lia|]. destruct (decide (S i = S k)) as [E|]; [by rewrite E|].
      rewrite (subtables_S f _ p k). apply sublist_inserts_r. apply IH. lia. }
    apply Hs. lia. }
  assert (Hnd' : NoDup (subtables f (kmem s) p (S i))) by by eapply sublist_NoDup.
  rewrite subtables_S, He in Hnd'. apply NoDup_app in Hnd' as (_ & Hd & Hq). split.
  - intros x Hx. apply Hk; [apply (Hok x), elem_of_app; left; by apply Hin|]. intros [->|Hx'].
    + apply (Hn2 p); [by apply Hin|by left].
    + by apply (Hd x).
  - split; [done|]. intros x Hx. destruct (Hok x) as [? Hl]; [apply elem_of_app; left; by apply Hin|]. split; [done|].
    rewrite elem_of_app, elem_of_reverse. intros [Hx'|]; [by apply (Hd x)|done].
Qed.

(** Entry [i] leads to no table. *)
Lemma walk_inv_skip d p s l i s' :
  entry (kmem s) p (Z.of_nat i) = None → walk_inv d p s l i s' → walk_inv d p s l (S i) s'.
Proof.
  intros He [Hf Hk Hr]. assert (E : subtables (tables d (kmem s)) (kmem s) p (S i) = subtables (tables d (kmem s)) (kmem s) p i).
  { by rewrite subtables_S, He, app_nil_r. }
  split; rewrite ?E; [done|done|]. intros j Hj. apply Hr. lia.
Qed.

(** The tables below entry [i] have been freed and the entry cleared. *)
Lemma walk_inv_next d p s l i s1 q s2 :
  (i < 512)%nat → held l (tables (S d) (kmem s) p) → walk_inv d p s l i s1 → entry (kmem s) p (Z.of_nat i) = Some q →
  kinv kend s2 (reverse (tables d (kmem s) q) ++ reverse (subtables (tables d (kmem s)) (kmem s) p i) ++ l) →
  keeps_pages (λ x, x ∈ tables d (kmem s) q) s1 s2 →
  walk_inv d p s l (S i) (set_kmem (wr64 (kmem s2) (pte_addr p (Z.of_nat i)) 0) s2).
Proof.
  intros Hi Hh [Hf Hk Hr] He Hf2 Hk2. set (f := tables d (kmem s)) in *.
  assert (E : subtables f (kmem s) p (S i) = subtables f (kmem s) p i ++ f q) by by rewrite subtables_S, He.
  assert (Hp : page_ok kend p ∧ p ∉ l) by (apply Hh, elem_of_app; right; by left).
  assert (Hin : ∀ x k, (k <= 512)%nat → x ∈ subtables f (kmem s) p k → x ∈ subtables f (kmem s) p 512).
  { intros x k Hk' (j & q' & Hj & Hx)%elem_subtables. apply elem_subtables. exists j, q'. split; [lia|done]. }
  assert (Hpn : p ∉ subtables f (kmem s) p (S i)).
  { intros Hx%Hin; [|lia]. destruct Hh as [(_ & Hd & _)%NoDup_app _]. apply (Hd p Hx). by left. }
  assert (Hpa := pte_addr_page p (Z.of_nat i) ltac:(lia)).
  assert (Hagp : agree (kmem s1) (kmem s2) p 4096).
  { apply Hk2; [apply Hp|]. intros Hx. apply Hpn. rewrite E. apply elem_of_app. by right. }
  split; fold f; rewrite ?E.
  - rewrite reverse_app, <-app_assoc. apply kinv_frame; [done|done|]. intros x Hx.
    eapply agree_out_agree; [apply wr64_agree_out|].
    assert (Hne : x ≠ p).
    { intros ->. rewrite !elem_of_app, !elem_of_reverse in Hx. rewrite E, elem_of_app in Hpn. tauto. }
    pose proof (kinv_page kend _ _ x Hf2 Hx) as [Hxa _]. destruct (pages_disjoint x p Hxa (proj1 (proj1 Hp)) Hne); lia.
  - intros x Hx Hne. assert (x ≠ p) by (intros ->; by apply Hne; left).
    eapply agree_trans; [apply Hk; [done|]|eapply agree_trans; [apply Hk2; [done|]|]].
    + intros [?|?]; apply Hne; [by left|right; apply elem_of_app; by left].
    + intros ?. apply Hne. right. apply elem_of_app. by right.
    + eapply agree_out_agree; [apply wr64_agree_out|]. destruct (pages_disjoint x p Hx (proj1 (proj1 Hp))); [done|lia|lia].
  - intros j Hj. cbn [kmem set_kmem]. rewrite rd64_wr64_ne by (unfold pte_addr; lia). rewrite <-Hr by lia.
    pose proof (pte_addr_page p j ltac:(lia)). apply rd64_ext. eapply agree_sub; [exact Hagp|lia|lia].
Qed.

Lemma runs_freewalk d p s l :
  d ≠ O → kinv kend s l → prunable d (kmem s) p → held l (tables d (kmem s) p) →
  runs (freewalk kend d p) s (λ _ s',
    kinv kend s' (reverse (tables d (kmem s) p) ++ l) ∧ keeps_pages (λ x, x ∈ tables d (kmem s) p) s s').
Proof.
  revert p s l. induction d as [|d IH]; intros p s l Hd Hk Hpr Hh; [done|]. cbn [freewalk]. apply runs_bind.
  apply (runs_mono _ _ (λ _ s', walk_inv d p s l 512 s')).
  { apply (runs_iter _ (λ n i s', (n <= 512)%nat ∧ i = 512 - Z.of_nat n ∧ walk_inv d p s l (512 - n) s')) with (n := 512%nat); [| |lia]; cycle 1.
    { split_and!; [lia|lia|]. split; [done|apply keeps_pages_refl|done]. }
    intros n i s1 (Hn & -> & Hw). destruct (Z.ltb_spec (512 - Z.of_nat n) 512); cycle 1.
    { apply runs_ret. by replace (512 - n)%nat with 512%nat in Hw by lia. }
    replace (512 - Z.of_nat n) with (Z.of_nat (512 - n)) in * by lia. set (i := (512 - n)%nat) in *.
    assert (Hstep : ∀ s2, walk_inv d p s l (S i) s2 → ∃ n', (n' < n)%nat ∧ (n' <= 512)%nat ∧ Z.of_nat i + 1 = 512 - Z.of_nat n' ∧ walk_inv d p s l (512 - n') s2).
    { intros s2 H2. exists (n - 1)%nat. split_and!; [lia|lia|lia|]. by replace (512 - (n - 1))%nat with (S i) by lia. }
    apply runs_bind. unfold load64. apply runs_gets. rewrite (wi_rest _ _ _ _ _ _ Hw) by lia.
    set (v := rd64 (kmem s) (pte_addr p (Z.of_nat i))) in *.
    destruct (valid v) eqn:Hv; cbn [andb]; cycle 1.
    { apply runs_ret, Hstep, walk_inv_skip; [|done]. unfold entry. fold v. by rewrite Hv. }
    destruct (Hpr (Z.of_nat i) ltac:(lia) Hv) as (Hd0 & HRWX & Hsub). fold v in HRWX, Hsub. rewrite HRWX. cbn [Z.eqb].
    assert (He : entry (kmem s) p (Z.of_nat i) = Some (PTE2PA v)) by (unfold entry; fold v; by rewrite Hv).
    destruct (walk_inv_sub d p s l i s1 (PTE2PA v) ltac:(lia) Hh Hw He) as [Hag Hheld].
    destruct (tables_ext d _ _ _ Hag) as [Et Ep]. apply runs_bind.
    eapply runs_mono; [apply (IH (PTE2PA v) s1 _ Hd0 (wi_free _ _ _ _ _ _ Hw)); [by apply Ep|by rewrite Et]|].
    intros [] s2 [Hf2 Hk2]. rewrite Et in Hf2, Hk2. apply runs_bind. unfold store64. apply runs_modify, runs_ret, Hstep.
    by eapply walk_inv_next; [lia|..]. }
  intros [] s1 [Hf1 Hk1 _]. pose proof (held_app _ _ _ Hh) as [_ [_ Hp]].
  destruct (Hp p ltac:(by left)) as [Hok Hnl]. eapply runs_kfree; [done|done|done|done|]. intros s2 Hk2 Ho2. cbn [tables]. split.
  - rewrite reverse_app. done.
  - eapply keeps_pages_trans; [eapply keeps_pages_weaken; [|exact Hk1]|].
    + intros x [->|Hx]; apply elem_of_app; [right; by left|by left].
    + intros x Hx Hne. eapply agree_out_agree; [exact Ho2|]. apply or_comm, pages_disjoint; [apply Hok|done|].
      intros <-. apply Hne, elem_of_app. right. by left.
Qed.
End Freewalk.

(** ** A page table without mappings *)

Lemma elem_tables3 m root p : p ∈ tables 3 m root ↔ is_node m root p.
Proof.
  rewrite elem_tables. split.
  - intros (π & Hl & Hf & Hn). exists π. split; [split; [lia|done]|done].
  - intros (π & [Hl Hf] & Hn). exists π. split_and!; [lia|done|done].
Qed.

Lemma tables_held kend s root l : pt_inv kend s root l → held kend l (tables 3 (kmem s) root).
Proof.
  intros (_ & Hw & Hd). split.
  - apply NoDup_tables. intros π1 π2 x L1 L2 F1 F2. apply (pw_inj _ _ _ Hw); split; (lia || done).
  - intros p Hp%elem_tables3. split; [by eapply node_page_aligned|by apply Hd].
Qed.

(** The address with the three indices. *)
Lemma PX_index i j k : 0 <= i < 256 → 0 <= j < 512 → 0 <= k < 512 →
  let va := i * 1073741824 + j * 2097152 + k * 4096 in
  0 <= va < MAXVA ∧ PX 2 va = i ∧ PX 1 va = j ∧ PX 0 va = k.
Proof.
  intros Hi Hj Hk va. change MAXVA with (2 ^ 38). rewrite !PX_eq by lia.
  change (2 ^ (12 + 9 * 2)) with 1073741824. change (2 ^ (12 + 9 * 1)) with 2097152. change (2 ^ (12 + 9 * 0)) with 4096.
  subst va. split_and!; zdm.
Qed.

Lemma empty_prunable kend m root :
  pt_wf kend m root → (∀ x, 0 <= x < MAXVA → Z.land (pteval m root x) PTE_V = 0) → prunable 3 m root.
Proof.
  intros Hw Hz.
  assert (Hdir : ∀ π i p, path_ok (π ++ [i]) → node m root π = Some p → valid (rd64 m (pte_addr p i)) = true →
    dir_entry π i (rd64 m (pte_addr p i)) ∧ node m root (π ++ [i]) = Some (PTE2PA (rd64 m (pte_addr p i)))).
  { intros π i p Hπ Hp Hv. assert (He : entry m p i = Some (PTE2PA (rd64 m (pte_addr p i)))) by (unfold entry; by rewrite Hv).
    split; [apply (pw_dir _ _ _ Hw); [done|done|by rewrite He]|]. by rewrite node_snoc, Hp. }
  intros i Hi Hv. destruct (Hdir [] i root) as [[H1 H1'] N1]; [split; [simpl; lia|by apply Forall_singleton]|done|done|].
  specialize (H1' eq_refl). split_and!; [done|done|]. intros j Hj Hv'.
  destruct (Hdir [i] j (PTE2PA (rd64 m (pte_addr root i)))) as [[H2 _] N2]; [split; [simpl; lia|apply Forall_cons; split; [done|by apply Forall_singleton]]|exact N1|done|].
  split_and!; [done|done|]. intros k Hk Hv''. exfalso.
  destruct (PX_index i j k) as (Hva & E2 & E1 & E0); [lia|lia|lia|]. set (va := i * _ + _ + _) in *.
  specialize (Hz va Hva). unfold pteval, vpath in Hz. rewrite E2, E1, E0 in Hz. change ([i; j]) with ([i] ++ [j]) in Hz. rewrite N2 in Hz.
  unfold valid in Hv''. by rewrite Hz in Hv''.
Qed.
