(* ===== verification/VmSpace.v ===== *)
(** User address spaces: the page table of a process, the pages of its memory
    and the two pages it shares with the kernel.

    [uspace] says what a space consists of and who owns its pages.  The
    operations of vm.c that make, grow, copy, write and free a space are
    specified by what they do to it: pages move between the free list, the
    tables and the memory of the process, none is lost, and no other page of
    memory changes. *)

From S2P Require Import Prelude Mem CString Riscv Spinlock Kalloc Vm VmSpec VmCopy VmUser VmFree.
Local Open Scope kernel_scope.

(** The physical pages behind the entries [vs] of the user pages. *)
Definition upages (vs : list Z) : list Z := PTE2PA <$> vs.

Definition leaf_pte (v : Z) : Prop := Z.land v PTE_V ≠ 0 ∧ PTE_FLAGS v ≠ PTE_V.

Lemma range_pages_upages view vs va :
  (∀ i, (i < length vs)%nat → view (va + Z.of_nat i * 4096) = vs !!! i) → range_pages view va (length vs) = upages vs.
Proof.
  revert va. induction vs as [|v vs IH]; intros va Hv; [done|]. simpl. f_equal.
  - specialize (Hv 0%nat ltac:(simpl; lia)). rewrite Z.add_0_r in Hv. by rewrite Hv.
  - apply IH. intros i Hi. specialize (Hv (S i) ltac:(simpl; lia)). simpl in Hv. rewrite <-Hv. f_equal. lia.
Qed.

Lemma elem_total (vs : list Z) i : (i < length vs)%nat → vs !!! i ∈ vs.
Proof. intros Hi. eapply list_elem_of_lookup_2. by apply list_lookup_lookup_total_lt. Qed.

Section Space.
Context (kend : Z) (kend_pos : 0 < kend) (trampoline tf : Z).

Notation view s root := (pteval (kmem s) root).
Notation nodes s root := (is_node (kmem s) root).

(** The pages that the free list, the tables and the memory of a space use. *)
Definition owns (s : kst) (l : list Z) (root : Z) (vs : list Z) (p : Z) : Prop :=
  p ∈ l ∨ nodes s root p ∨ p ∈ upages vs.

(** A space whose first pages are mapped by the entries [vs]. *)
Record user_part (s : kst) (l : list Z) (root : Z) (vs : list Z) : Prop := {
  up_inv : pt_inv kend s root l;
  up_own : reclaimable kend root s l (upages vs);
  up_fit : zlen vs * 4096 <= TRAPFRAME;
  up_leaf v : v ∈ vs → leaf_pte v;
  up_user x : 0 <= x < zlen vs * 4096 → view s root x = vs !!! Z.to_nat (x / 4096)
}.

(** uvmfree on a space in which nothing else is mapped. *)
Lemma runs_uvmfree s l root vs sz :
  user_part s l root vs → (∀ x, zlen vs * 4096 <= x < MAXVA → view s root x = 0) →
  0 <= sz → (sz + 4095) / 4096 = zlen vs →
  runs (uvmfree kend root sz) s (λ _ s', ∃ l', kinv kend s' l' ∧ (∀ p, p ∈ l' ↔ owns s l root vs p) ∧
    keeps_pages (λ p, nodes s root p ∨ p ∈ upages vs) s s').
Proof.
  intros [Hinv Hown Hfit Hleaf Huser] Hz Hsz Hlen. unfold uvmfree. apply runs_bind.
  change TRAPFRAME with 274877898752 in Hfit.
  assert (Hrange : range_pages (view s root) 0 (length vs) = upages vs).
  { apply range_pages_upages. intros i Hi. rewrite Huser by lia. f_equal. zdm. }
  apply (runs_mono _ _ (λ _ s', pt_inv kend s' root (reverse (upages vs) ++ l) ∧ (∀ p, nodes s' root p ↔ nodes s root p) ∧
    (∀ x, 0 <= x < MAXVA → view s' root x = 0) ∧ keeps_pages (λ p, nodes s root p ∨ p ∈ upages vs) s s')).
  { rewrite Z.gtb_ltb. destruct (Z.ltb_spec 0 sz) as [Hpos|]; cycle 1.
    { apply runs_ret. destruct vs; [|simpl in Hlen; zdm]. split_and!; [done|done|intros x Hx; apply Hz; simpl; lia|apply keeps_pages_refl]. }
    assert (Hb : sz < 2 ^ 63) by zdm. rewrite PGROUNDUP_eq by lia. change PGSIZE with 4096. rewrite Z.div_mul by lia. rewrite Hlen.
    eapply runs_mono; [apply (runs_uvmunmap kend kend_pos root s l 0 (length vs) true)|].
    - done.
    - done.
    - lia.
    - change MAXVA with 274877906944. lia.
    - intros i Hi. simpl. rewrite Huser by lia. apply Hleaf, elem_total. zdm.
    - intros _. by rewrite Hrange.
    - rewrite Hrange. intros _ s' (H1 & H2 & H3 & H4). split_and!; [done|done| |].
      + intros x Hx. rewrite H3 by done. case_decide; [done|]. apply Hz. lia.
      + eapply keeps_pages_weaken; [|exact H4]. intros p [?|[_ ?]]; auto. }
  intros _ s1 (Hinv1 & Hn1 & Hz1 & Hk1). pose proof Hinv1 as (Hf1 & Hw1 & _).
  eapply runs_mono; [apply (runs_freewalk kend kend_pos 3 root s1)|].
  - done.
  - exact Hf1.
  - apply (empty_prunable kend); [done|]. intros x Hx. by rewrite Hz1.
  - by apply tables_held.
  - intros [] s2 [Hf2 Hk2]. eexists. split; [exact Hf2|]. split.
    + intros p. unfold owns. rewrite !elem_of_app, !elem_of_reverse, elem_tables3, Hn1. tauto.
    + eapply keeps_pages_trans; [exact Hk1|]. eapply keeps_pages_weaken; [|exact Hk2]. intros p Hp%elem_tables3. left. by apply Hn1.
Qed.

(** The space of a process. *)
Record uspace (s : kst) (l : list Z) (root : Z) (vs : list Z) : Prop := {
  us_part : user_part s l root vs;
  us_gap x : zlen vs * 4096 <= x < TRAPFRAME → view s root x = 0;
  us_tf x : TRAPFRAME <= x < TRAMPOLINE → view s root x = mkpte tf (Z.lor PTE_R PTE_W);
  us_tramp x : TRAMPOLINE <= x < MAXVA → view s root x = mkpte trampoline (Z.lor PTE_R PTE_X)
}.

(** ** New page tables *)

Lemma grow_owns s l s' l' root p : pt_grow kend root s l s' l' → pt_keep root s l s' l' →
  p ∈ l' ∨ nodes s' root p ↔ p ∈ l ∨ nodes s root p.
Proof.
  intros Hg Hk. split.
  - intros [H|H]; [|by apply or_comm, (pg_nodes _ _ _ _ _ _ Hg)]. left. destruct (pg_used _ _ _ _ _ _ Hg) as [k ->]. apply elem_of_app. by right.
  - intros [H|H]; [by apply (pk_pages _ _ _ _ _ Hk)|right; by apply (pk_nodes _ _ _ _ _ Hk)].
Qed.

(** A table with no user pages. *)
Lemma no_user s l root : pt_inv kend s root l → user_part s l root [].
Proof.
  intros H. split; [done| |done|by intros v ?%elem_of_nil|simpl; lia]. split; [constructor|]. by intros p ?%elem_of_nil.
Qed.

(** Mapping one shared page in such a table. *)
Lemma runs_map_shared s l root va pa perm :
  pt_inv kend s root l → page_aligned va → 0 <= va → va + 4096 <= MAXVA → page_aligned pa ∧ 0 <= pa < 2 ^ 54 → 0 <= perm < 1024 →
  view s root va = 0 → (∀ x, va <= x < va + 4096 → view s root x = view s root va) →
  runs (mappages root va PGSIZE pa perm) s (λ r s', ∃ l', pt_inv kend s' root l' ∧
    (∀ p, p ∈ l' ∨ nodes s' root p ↔ p ∈ l ∨ nodes s root p) ∧ keeps_pages (λ p, p ∈ l ∨ nodes s root p) s s' ∧
    zlen l <= zlen l' + 2 ∧
    (r = 0 ∧ map_view (view s root) (view s' root) va (va + 4096) pa perm ∨
     r = -1 ∧ l' = [] ∧ ∀ x, 0 <= x < MAXVA → view s' root x = view s root x)).
Proof.
  intros Hinv Hal Hva Hend [Hpal Hpa] Hperm Hz Hsame. unfold page_aligned in Hal.
  assert (Hround : va / 4096 * 4096 = va) by zdm.
  eapply runs_mono; [apply (runs_mappages kend kend_pos root perm Hperm s l va PGSIZE pa); try (done || (unfold PGSIZE; lia))|].
  - unfold PGSIZE. rewrite Hround. intros x Hx. by rewrite Hsame, Hz.
  - rewrite Hround. unfold PGSIZE, page_aligned. intros r s' (l' & e & Hg & Hk & He & Hv & Hres & Hu). exists l'.
    split; [apply Hg|]. split; [intros p; by apply grow_owns|]. split; [by eapply grow_keeps|]. split; [case_decide; zdm|].
    destruct Hres as [[-> ?]|(-> & -> & ?)]; [left|right]; (split; [done|]).
    + by assert (e = va + 4096) as -> by zdm.
    + split; [done|]. assert (e = va) as -> by zdm. intros x Hx. rewrite Hv by done. by rewrite decide_False by lia.
Qed.

(** kalloc and memset: an empty page table, in memory where [l] is free. *)
Lemma runs_uvmcreate s l :
  kinv kend s l →
  runs uvmcreate s (λ r s', keeps_pages (λ p, p ∈ l) s s' ∧
    (r = 0 ∧ kinv kend s' l ∧ l = [] ∨
     r ≠ 0 ∧ ∃ l', pt_inv kend s' r l' ∧ (∀ p, p ∈ l' ∨ nodes s' r p ↔ p ∈ l) ∧ (∀ x, view s' r x = 0) ∧ zlen l = zlen l' + 1)).
Proof.
  intros Hk. unfold uvmcreate. apply runs_bind. apply (runs_kalloc kend kend_pos s l); [done| |].
  - intros ->. apply runs_ret. split; [apply keeps_pages_refl|by left].
  - intros q l' s1 -> Hk1 Hq Ho1. pose proof (page_ok_range kend kend_pos q Hq) as Hqr.
    destruct (Z.eqb_spec q 0); [lia|]. unfold do_memset. apply runs_bind, runs_modify, runs_ret.
    destruct Hk as (_ & Hnd & _). apply NoDup_cons in Hnd as [Hql _].
    set (s2 := set_kmem _ s1). assert (Ho : agree_out (kmem s) (kmem s2) q 4096).
    { intros b Hb. unfold s2. cbn [kmem set_kmem]. rewrite memset_agree_out by done. by apply Ho1. }
    destruct (zero_table kend (kmem s2) q Hq) as (Hw & Hn & Hv).
    { intros i Hi. pose proof (pte_addr_page q i Hi). apply rd64_memset_0; unfold PGSIZE; lia. }
    split; [|right; split; [lia|]; exists l'; split_and!; [|intros p; rewrite Hn, elem_of_cons; tauto|done|simpl; lia]].
    + intros p Hal Hp. eapply agree_out_agree; [exact Ho|]. apply or_comm, pages_disjoint; [apply Hq|done|]. intros <-. apply Hp. by left.
    + split; [|split; [done|by intros p ->%Hn]]. apply kinv_frame; [done|done|]. intros p Hp.
      eapply agree_out_agree; [apply memset_agree_out|]. apply or_comm, pages_disjoint; [apply Hq|by eapply kinv_page|by intros <-].
Qed.

(** ** Making and freeing a space *)

Context (tramp_ok : page_aligned trampoline ∧ 0 <= trampoline < 2 ^ 54) (tf_ok : page_aligned tf ∧ 0 <= tf < 2 ^ 54).

Lemma shared_leaf pa perm : page_aligned pa ∧ 0 <= pa < 2 ^ 54 → 0 <= perm < 1024 → Z.land perm PTE_R ≠ 0 → leaf_pte (mkpte pa perm).
Proof.
  intros [Ha Hr] Hp HR. destruct (mkpte_props pa perm) as (_ & Hv & _ & Hf); [lia|done|done|]. split; [by rewrite Hv|]. rewrite Hf.
  intros E. apply HR. assert (E' : Z.land (Z.lor perm 1) PTE_R = Z.land PTE_V PTE_R) by by rewrite E.
  rewrite Z.land_lor_distr_l in E'. change (Z.land 1 PTE_R) with 0 in E'. by rewrite Z.lor_0_r in E'.
Qed.

(** Removing one page that is mapped to a page of others. *)
Lemma runs_unmap_shared s l root vs va :
  user_part s l root vs → page_aligned va → TRAPFRAME <= va < MAXVA → leaf_pte (view s root va) →
  runs (uvmunmap kend root va 1 false) s (λ _ s', user_part s' l root vs ∧ (∀ p, nodes s' root p ↔ nodes s root p) ∧
    unmap_view (view s root) (view s' root) va (va + 4096) ∧ keeps_pages (nodes s root) s s').
Proof.
  intros [Hinv Hown Hfit Hleaf Huser] Hal Hva Hv. change MAXVA with 274877906944 in Hva. change TRAPFRAME with 274877898752 in *.
  unfold page_aligned in Hal.
  eapply runs_mono; [apply (runs_uvmunmap kend kend_pos root s l va 1 false)|].
  - done.
  - done.
  - lia.
  - change MAXVA with 274877906944. zdm.
  - intros i Hi. assert (i = 0) as -> by lia. by rewrite Z.add_0_r.
  - done.
  - intros [] s' (H1 & H2 & H3 & H4). change (va + Z.of_nat 1 * 4096) with (va + 4096) in H3. split_and!; [|done|done|].
    + split; [done| |done|done|].
      * split; [apply Hown|]. intros p Hp. rewrite H2. by apply Hown.
      * intros x Hx. rewrite H3 by (change MAXVA with 274877906944; lia). rewrite decide_False by lia. by apply Huser.
    + eapply keeps_pages_weaken; [|exact H4]. intros p [?|[? _]]; done.
Qed.

(** proc_freepagetable: the pages of the space and its tables become free. *)
Lemma runs_free_space s l root vs sz :
  uspace s l root vs → 0 <= sz → (sz + 4095) / 4096 = zlen vs →
  runs (uvmunmap kend root TRAMPOLINE 1 false ;;; uvmunmap kend root TRAPFRAME 1 false ;;; uvmfree kend root sz) s
    (λ _ s', ∃ l', kinv kend s' l' ∧ (∀ p, p ∈ l' ↔ owns s l root vs p) ∧
       keeps_pages (λ p, nodes s root p ∨ p ∈ upages vs) s s').
Proof using kend_pos tramp_ok tf_ok.
  intros [Hp Hgap Htf Htr] Hsz Hlen. change MAXVA with 274877906944 in *. change TRAMPOLINE with 274877902848 in *. change TRAPFRAME with 274877898752 in *.
  apply runs_bind. eapply runs_mono; [apply (runs_unmap_shared s l root vs); [done|done|done|]|].
  { rewrite Htr by lia. by apply shared_leaf. }
  intros [] s1 (Hp1 & Hn1 & Hv1 & Hk1). apply runs_bind. eapply runs_mono; [apply (runs_unmap_shared s1 l root vs); [done|done|done|]|].
  { rewrite Hv1 by done. rewrite decide_False by lia. rewrite Htf by lia. by apply shared_leaf. }
  intros [] s2 (Hp2 & Hn2 & Hv2 & Hk2). change MAXVA with 274877906944 in *.
  eapply runs_mono; [apply (runs_uvmfree s2 l root vs sz); [done| |done|done]|].
  - change MAXVA with 274877906944. intros x Hx. rewrite Hv2 by (change MAXVA with 274877906944; lia). case_decide; [done|]. rewrite Hv1 by (change MAXVA with 274877906944; lia). case_decide; [done|]. apply Hgap. lia.
  - intros [] s' (l' & Hf & Ho & Hk). exists l'. split; [done|]. unfold owns in *. split.
    + intros p. rewrite Ho, Hn2, Hn1. done.
    + eapply keeps_pages_trans; [eapply keeps_pages_weaken; [|exact Hk1]; by left|].
      eapply keeps_pages_trans; [eapply keeps_pages_weaken; [|exact Hk2]; intros p ?%Hn1; by left|].
      eapply keeps_pages_weaken; [|exact Hk]. intros p [?|?]; [left; by apply Hn1, Hn2|by right].
Qed.

(** proc_pagetable: a space without user pages, or no space and the memory
    that was free is free. *)
Lemma runs_make_space s l :
  kinv kend s l →
  runs (pagetable <- uvmcreate ;;;
        if pagetable =? 0 then ret 0
        else
          r <- mappages pagetable TRAMPOLINE PGSIZE trampoline (Z.lor PTE_R PTE_X) ;;;
          if r <? 0 then uvmfree kend pagetable 0 ;;; ret 0
          else
            r <- mappages pagetable TRAPFRAME PGSIZE tf (Z.lor PTE_R PTE_W) ;;;
            if r <? 0 then uvmunmap kend pagetable TRAMPOLINE 1 false ;;; uvmfree kend pagetable 0 ;;; ret 0
            else ret pagetable) s
    (λ r s', keeps_pages (λ p, p ∈ l) s s' ∧
       ∃ l', (r = 0 ∧ kinv kend s' l' ∧ (∀ p, p ∈ l' ↔ p ∈ l) ∧ zlen l <= 5) ∨
             (r ≠ 0 ∧ uspace s' l' r [] ∧ (∀ p, owns s' l' r [] p ↔ p ∈ l) ∧ zlen l <= zlen l' + 5)).
Proof using kend_pos tramp_ok tf_ok.
  intros Hk. apply runs_bind. eapply runs_mono; [by apply runs_uvmcreate|].
  intros root s1 [Hk1 [(-> & Hf1 & ->)|(Hr & l1 & Hinv1 & Ho1 & Hz1 & Hu1)]].
  { apply runs_ret. split; [done|]. exists []. left. split_and!; done. }
  destruct (Z.eqb_spec root 0); [done|]. apply runs_bind.
  eapply runs_mono; [apply (runs_map_shared s1 l1 root TRAMPOLINE trampoline); try done|].
  { intros x _. by rewrite !Hz1. }
  intros r s2 (l2 & Hinv2 & Ho2 & Hk2 & Hu2 & Hres2).
  assert (Hk12 : keeps_pages (λ p, p ∈ l) s s2).
  { eapply keeps_pages_trans; [exact Hk1|]. eapply keeps_pages_weaken; [|exact Hk2]. intros p. apply Ho1. }
  destruct Hres2 as [[-> Hv2]|(-> & -> & Hv2)]; cycle 1.
  { cbn [Z.ltb Z.compare]. apply runs_bind. eapply runs_mono; [apply (runs_uvmfree s2 [] root [] 0); [by apply no_user| |done|done]|].
    - intros x Hx. rewrite Hv2 by (simpl in Hx; lia). apply Hz1.
    - intros [] s3 (l3 & Hf3 & Ho3 & Hk3). apply runs_ret. split.
      + eapply keeps_pages_trans; [exact Hk12|]. eapply keeps_pages_weaken; [|exact Hk3]. intros p [H|H%elem_of_nil]; [|done]. apply Ho1, Ho2. by right.
      + exists l3. left. split_and!; [done|done| |simpl in *; lia]. intros p. rewrite Ho3. unfold owns. rewrite <-Ho1, <-Ho2. simpl. rewrite (elem_of_nil p). tauto. }
  cbn [Z.ltb Z.compare]. apply runs_bind.
  assert (Hlow : ∀ x, 0 <= x < TRAMPOLINE → view s2 root x = 0).
  { intros x Hx. rewrite Hv2 by (change MAXVA with 274877906944; change TRAMPOLINE with 274877902848 in Hx; lia). by rewrite decide_False, Hz1 by lia. }
  assert (Htr2 : ∀ x, TRAMPOLINE <= x < MAXVA → view s2 root x = mkpte trampoline (Z.lor PTE_R PTE_X)).
  { change MAXVA with 274877906944. change TRAMPOLINE with 274877902848 in *. intros x Hx. rewrite Hv2 by (change MAXVA with 274877906944; lia). rewrite decide_True by lia. f_equal. zdm. }
  eapply runs_mono; [apply (runs_map_shared s2 l2 root TRAPFRAME tf); try done|].
  { by rewrite Hlow. }
  { change TRAPFRAME with 274877898752. change TRAMPOLINE with 274877902848 in *. intros x Hx. by rewrite !Hlow by lia. }
  intros r s3 (l3 & Hinv3 & Ho3 & Hk3 & Hu3 & Hres3).
  assert (Hk13 : keeps_pages (λ p, p ∈ l) s s3).
  { eapply keeps_pages_trans; [exact Hk12|]. eapply keeps_pages_weaken; [|exact Hk3]. intros p H. by apply Ho1, Ho2. }
  assert (Ho13 : ∀ p, p ∈ l3 ∨ nodes s3 root p ↔ p ∈ l) by (intros p; by rewrite Ho3, Ho2).
  destruct Hres3 as [[-> Hv3]|(-> & -> & Hv3)]; cbn [Z.ltb Z.compare].
  - apply runs_ret. split; [done|]. exists l3. right. split; [done|]. split; [|split; [intros p; unfold owns; rewrite <-Ho13; simpl; rewrite elem_of_nil; tauto|lia]].
    change TRAPFRAME with 274877898752 in *. change TRAMPOLINE with 274877902848 in *. split; [by apply no_user|..].
    + change TRAPFRAME with 274877898752. simpl. intros x Hx. rewrite Hv3 by (change MAXVA with 274877906944; lia). rewrite decide_False by lia. apply Hlow. lia.
    + change TRAPFRAME with 274877898752. change TRAMPOLINE with 274877902848. intros x Hx. rewrite Hv3 by (change MAXVA with 274877906944; lia). rewrite decide_True by lia. f_equal. zdm.
    + change TRAMPOLINE with 274877902848. intros x Hx. rewrite Hv3 by (change MAXVA with 274877906944 in *; lia). rewrite decide_False by lia. by apply Htr2.
  - apply runs_bind. eapply runs_mono; [apply (runs_unmap_shared s3 [] root [] TRAMPOLINE); [by apply no_user|done|done|]|].
    { rewrite Hv3, Htr2 by done. by apply shared_leaf. }
    intros [] s4 (Hp4 & Hn4 & Hv4 & Hk4). apply runs_bind. change TRAMPOLINE with 274877902848 in *.
    eapply runs_mono; [apply (runs_uvmfree s4 [] root [] 0); [done| |done|done]|].
    + simpl. intros x Hx. rewrite Hv4 by done. case_decide; [done|]. rewrite Hv3 by done. apply Hlow. change MAXVA with 274877906944 in Hx. lia.
    + intros [] s5 (l5 & Hf5 & Ho5 & Hk5). apply runs_ret. split.
      * eapply keeps_pages_trans; [exact Hk13|]. eapply keeps_pages_trans; [eapply keeps_pages_weaken; [|exact Hk4]|eapply keeps_pages_weaken; [|exact Hk5]].
        -- intros p H. apply Ho13. by right.
        -- intros p [H|H%elem_of_nil]; [|done]. apply Ho13. right. by apply Hn4.
      * exists l5. left. split_and!; [done|done| |simpl in *; lia]. intros p. rewrite Ho5. unfold owns. rewrite <-Ho13, Hn4. simpl. rewrite (elem_of_nil p). tauto.
Qed.
End Space.

(** ** Growing a space *)

Section Grow.
Context (kend : Z) (kend_pos : 0 < kend).

Notation view s root := (pteval (kmem s) root).
Notation nodes s root := (is_node (kmem s) root).

(** There are fewer pages than addresses below the trap frame. *)
Lemma pages_bound ps : NoDup ps → (∀ p, p ∈ ps → page_ok kend p) → zlen ps <= 557056.
Proof.
  intros Hnd Hok. assert (Hsub : ((λ p, p / 4096) <$> ps) ⊆+ seqZ 0 557056).
  { apply NoDup_submseteq.
    - apply NoDup_fmap_2_strong; [|done]. intros p q [Hp _]%Hok [Hq _]%Hok E. unfold page_aligned in *. zdm.
    - intros i (p & -> & Hp)%list_elem_of_fmap. pose proof (page_ok_range kend kend_pos p (Hok p Hp)) as Hr.
      change PHYSTOP with 2281701376 in Hr. apply elem_of_seqZ. zdm. }
  apply submseteq_length in Hsub. rewrite length_fmap, length_seqZ in Hsub. lia.
Qed.

Lemma space_bound s l root vs : user_part kend s l root vs → zlen vs + zlen l <= 557056.
Proof.
  intros [(Hf & _ & _) [Hnd' Hown] _ _ _]. pose proof Hf as (_ & Hnd & _).
  pose proof (pages_bound (upages vs ++ l)) as H. rewrite length_app in H. unfold upages in *. rewrite length_fmap in H.
  rewrite <-Nat2Z.inj_add. apply H.
  - apply NoDup_app. split_and!; [done| |done]. intros p Hp. apply Hown, Hp.
  - intros p [Hp|Hp]%elem_of_app; [apply Hown, Hp|by eapply kinv_page].
Qed.

Context (trampoline tf : Z).

(** The entries by which uvmalloc maps the pages [ps]. *)
Definition new_ptes (xperm : Z) (ps : list Z) : list Z := (λ q, mkpte q (Z.lor (Z.lor PTE_R PTE_U) xperm)) <$> ps.

Lemma new_perm xperm : 0 <= xperm < 1024 → 0 <= Z.lor (Z.lor PTE_R PTE_U) xperm < 1024.
Proof. intros H. by apply lor_flags. Qed.

Lemma page_mkpte p perm : page_ok kend p → 0 <= perm < 1024 →
  PTE2PA (mkpte p perm) = p ∧ Z.land (mkpte p perm) PTE_V = 1 ∧ PTE_FLAGS (mkpte p perm) = Z.lor perm 1.
Proof.
  intros Hp Hperm. pose proof (page_ok_range kend kend_pos p Hp) as Hr. change PHYSTOP with 2281701376 in Hr.
  destruct (mkpte_props p perm) as (_ & ? & ? & ?); [lia|apply Hp|done|]. done.
Qed.

Lemma new_ptes_ok xperm ps : 0 <= xperm < 1024 → (∀ p, p ∈ ps → page_ok kend p) →
  upages (new_ptes xperm ps) = ps ∧ ∀ v, v ∈ new_ptes xperm ps → leaf_pte v.
Proof.
  intros Hx Hok. pose proof (new_perm xperm Hx) as Hperm. split.
  - unfold upages, new_ptes. rewrite <-list_fmap_compose. transitivity (id <$> ps); [|apply list_fmap_id].
    apply list_fmap_ext. intros i p Hp%list_elem_of_lookup_2. unfold compose, id. by apply page_mkpte; [apply Hok|].
  - intros v (p & -> & Hp)%list_elem_of_fmap. destruct (page_mkpte p _ (Hok p Hp) Hperm) as (_ & HV & HF). split; [by rewrite HV|].
    rewrite HF. intros E. apply (f_equal (λ x, Z.testbit x 1)) in E. by rewrite !Z.lor_spec in E.
Qed.

(** The state after [ps] was added to the pages of the space. *)
Lemma space_grown s l root vs a0 s' l' ps xperm :
  uspace kend trampoline tf s l root vs → 0 <= xperm < 1024 → a0 = zlen vs * 4096 →
  alloc_inv kend root (Z.lor (Z.lor PTE_R PTE_U) xperm) s l a0 s' l' ps →
  uspace kend trampoline tf s' l' root (vs ++ new_ptes xperm ps) ∧
  (∀ p, owns s' l' root (vs ++ new_ptes xperm ps) p ↔ owns s l root vs p) ∧
  keeps_pages (λ p, p ∈ l ∨ nodes s root p) s s' ∧ (∀ p, p ∈ ps → zero_page (kmem s') p).
Proof.
  intros [Hp Hgap Htf Htr] Hx -> Hai. destruct (ai_own _ _ _ _ _ _ _ _ _ Hai) as [Hnd Hps].
  destruct (new_ptes_ok xperm ps Hx) as [Epages Hleaf]; [intros p ?; by apply Hps|].
  pose proof (alloc_inv_length _ _ _ _ _ _ _ _ _ Hai) as Hlen. pose proof (space_bound _ _ _ _ Hp) as Hb.
  destruct Hp as [Hinv Hown Hfit Hl Hu]. pose proof (ai_view _ _ _ _ _ _ _ _ _ Hai) as Hv. pose proof (ai_grow _ _ _ _ _ _ _ _ _ Hai) as Hg.
  assert (Elen : zlen (vs ++ new_ptes xperm ps) = zlen vs + zlen ps) by (unfold new_ptes; rewrite length_app, length_fmap; lia).
  assert (Eup : upages (vs ++ new_ptes xperm ps) = upages vs ++ ps) by (unfold upages in *; by rewrite fmap_app, Epages).
  change TRAPFRAME with 274877898752 in *. change TRAMPOLINE with 274877902848 in *.
  assert (Hnew : ∀ p, p ∈ ps → p ∈ l) by apply Hai.
  split; [split; [split|..]|split; [|split]].
  - apply Hg.
  - rewrite Eup. pose proof (reclaimable_grow _ _ _ _ _ _ _ Hg Hown) as [Hnd' Hown']. split.
    + apply NoDup_app. split_and!; [done| |done]. intros p Hin Hin'. destruct (proj2 Hown p Hin) as (_ & Hnl & _). by apply Hnl, Hnew.
    + intros p [H|H]%elem_of_app; [by apply Hown'|by apply Hps].
  - rewrite Elen. change TRAPFRAME with 274877898752. lia.
  - intros v [H|H]%elem_of_app; auto.
  - rewrite Elen. intros x Hxr. rewrite Hv by (change MAXVA with 274877906944; lia). case_decide as Hd.
    + rewrite lookup_total_app_r by zdm. unfold new_ptes. rewrite (list_lookup_total_fmap _ ps) by zdm. f_equal. f_equal. zdm.
    + rewrite lookup_total_app_l by zdm. apply Hu. lia.
  - rewrite Elen. change TRAPFRAME with 274877898752. intros x Hxr. rewrite Hv by (change MAXVA with 274877906944; lia). rewrite decide_False by lia. apply Hgap. lia.
  - change TRAPFRAME with 274877898752. change TRAMPOLINE with 274877902848. intros x Hxr. rewrite Hv by (change MAXVA with 274877906944; lia). rewrite decide_False by lia. apply Htf. lia.
  - change TRAMPOLINE with 274877902848. intros x Hxr. rewrite Hv by (change MAXVA with 274877906944 in *; lia). rewrite decide_False by lia. by apply Htr.
  - intros p. unfold owns. rewrite Eup, elem_of_app. split.
    + intros [H|[H|[H|H]]]; [|apply (pg_nodes _ _ _ _ _ _ Hg) in H; tauto|tauto|left; by apply Hnew].
      left. destruct (pg_used _ _ _ _ _ _ Hg) as [k ->]. apply elem_of_app. by right.
    + intros [H|[H|H]]; [apply (ai_pages _ _ _ _ _ _ _ _ _ Hai) in H; tauto| |tauto]. right. left. by apply (ai_nodes _ _ _ _ _ _ _ _ _ Hai).
  - by eapply grow_keeps.
  - apply Hai.
Qed.

(** The tables and the free list may change, as long as the mappings and the
    pages they use together do not. *)
Lemma space_tables s l root vs s' l' :
  uspace kend trampoline tf s l root vs → pt_inv kend s' root l' →
  (∀ p, p ∈ l' ∨ nodes s' root p ↔ p ∈ l ∨ nodes s root p) → (∀ x, 0 <= x < MAXVA → view s' root x = view s root x) →
  uspace kend trampoline tf s' l' root vs ∧ ∀ p, owns s' l' root vs p ↔ owns s l root vs p.
Proof.
  intros [[Hinv [Hnd Hown] Hfit Hl Hu] Hgap Htf Htr] Hinv' Ho Hv. change MAXVA with 274877906944 in *. change TRAPFRAME with 274877898752 in *. change TRAMPOLINE with 274877902848 in *. split.
  - split; [split|..]; [done| |done|done|..]; change MAXVA with 274877906944; change TRAPFRAME with 274877898752; change TRAMPOLINE with 274877902848.
    + split; [done|]. intros p Hp. destruct (Hown p Hp) as (? & ? & ?). pose proof (Ho p). tauto.
    + intros x Hx. rewrite Hv by lia. by apply Hu.
    + intros x Hx. rewrite Hv by lia. by apply Hgap.
    + intros x Hx. rewrite Hv by lia. by apply Htf.
    + intros x Hx. rewrite Hv by lia. by apply Htr.
  - intros p. unfold owns. pose proof (Ho p). tauto.
Qed.

Lemma runs_grow_space s l root vs oldsz newsz xperm :
  uspace kend trampoline tf s l root vs → 0 <= oldsz → (oldsz + 4095) / 4096 = zlen vs → 0 <= xperm < 1024 → 0 <= newsz →
  runs (uvmalloc kend root oldsz newsz xperm) s (λ r s', ∃ l' ps,
    uspace kend trampoline tf s' l' root (vs ++ new_ptes xperm ps) ∧
    (∀ p, owns s' l' root (vs ++ new_ptes xperm ps) p ↔ owns s l root vs p) ∧
    keeps_pages (λ p, p ∈ l ∨ nodes s root p) s s' ∧ (∀ p, p ∈ ps → page_ok kend p ∧ zero_page (kmem s') p) ∧
    (r = 0 ∧ ps = [] ∧ (Z.max oldsz newsz = 0 ∨ zlen l <= 3 * ((newsz + 4095) / 4096 - zlen vs)) ∨
     r ≠ 0 ∧ r = Z.max oldsz newsz ∧ (r + 4095) / 4096 = zlen vs + zlen ps ∧ zlen l <= zlen l' + 3 * zlen ps)).
Proof.
  intros Hs Hold Hlen Hx Hnew.
  destruct (decide (newsz < oldsz)) as [Hlt|Hge].
  { unfold uvmalloc. destruct (Z.ltb_spec newsz oldsz); [|lia]. apply runs_ret. exists l, []. unfold new_ptes. simpl. rewrite app_nil_r.
    split_and!; [done|done|apply keeps_pages_refl|by intros p ?%elem_of_nil|]. right. split_and!; lia. }
  pose proof (us_part _ _ _ _ _ _ _ Hs) as Hp. pose proof (space_bound _ _ _ _ Hp) as Hb. pose proof (up_inv _ _ _ _ _ Hp) as Hinv.
  assert (Ea : (oldsz + 4095) / 4096 * 4096 = zlen vs * 4096) by by rewrite Hlen.
  eapply runs_mono; [apply (runs_uvmalloc kend kend_pos root xperm Hx s l oldsz newsz TRAPFRAME); [done|lia|done|done|right|]|]; rewrite Ea.
  - change TRAPFRAME with 274877898752. lia.
  - intros x Hxr. by apply (us_gap _ _ _ _ _ _ _ Hs).
  - intros r s' [(-> & l' & ps & Hai & Hps)|(-> & (l' & Hinv' & Hn & Hl & Hv & Hback & Hk) & Hu)].
    + destruct (space_grown s l root vs (zlen vs * 4096) s' l' ps xperm Hs Hx eq_refl Hai) as (H1 & H2 & H3 & H4).
      exists l', ps. split_and!; [done|done|done|intros p Hin; split; [by apply (ai_own _ _ _ _ _ _ _ _ _ Hai)|by apply H4]|].
      destruct (decide (newsz = 0)) as [->|]; [left|right].
      * split_and!; [done| |left; lia]. destruct ps; [done|]. exfalso. simpl in Hps. zdm.
      * split_and!; [done|lia|zdm|]. apply (ai_used _ _ _ _ _ _ _ _ _ Hai).
    + destruct (space_tables s l root vs s' l' Hs Hinv') as [H1 H2]; [|done|].
      { intros p. split; [apply Hback|]. intros [H|H]; [by apply Hl|right; by apply Hn]. }
      exists l', []. unfold new_ptes. simpl. rewrite app_nil_r. split_and!; [done|done|done|by intros p ?%elem_of_nil|left; split_and!; [done|done|right; zdm]].
Qed.
End Grow.

(** ** The bytes of a space *)

(** The physical address and the byte of the user address [x]. *)
Definition phys (vs : list Z) (x : Z) : Z := PTE2PA (vs !!! Z.to_nat (x / 4096)) + x mod 4096.
Definition ubyte (m : mem) (vs : list Z) (x : Z) : Z := rd8 m (phys vs x).

Section Bytes.
Context (kend : Z) (kend_pos : 0 < kend) (trampoline tf : Z).

Notation view s root := (pteval (kmem s) root).
Notation nodes s root := (is_node (kmem s) root).
Abbreviation space := (uspace kend trampoline tf).

Lemma phys_page vs x : 0 <= x < zlen vs * 4096 →
  ∃ p, p ∈ upages vs ∧ upages vs !! Z.to_nat (x / 4096) = Some p ∧ phys vs x = p + x mod 4096 ∧ 0 <= x mod 4096 < 4096.
Proof.
  intros Hx. exists (PTE2PA (vs !!! Z.to_nat (x / 4096))). assert (Hi : (Z.to_nat (x / 4096) < length vs)%nat) by zdm.
  assert (E : upages vs !! Z.to_nat (x / 4096) = Some (PTE2PA (vs !!! Z.to_nat (x / 4096)))).
  { unfold upages. rewrite list_lookup_fmap, list_lookup_lookup_total_lt by done. done. }
  split_and!; [by eapply list_elem_of_lookup_2|done|done|zdm|zdm].
Qed.

Lemma space_page s l root vs p : space s l root vs → p ∈ upages vs → page_aligned p ∧ page_ok kend p ∧ p ∉ l ∧ ¬ nodes s root p.
Proof. intros [[_ [_ H] _ _ _] _ _ _] Hp. destruct (H p Hp) as (H1 & H2 & H3). split_and!; [apply H1|done..]. Qed.

Lemma phys_inj s l root vs x y : space s l root vs → 0 <= x < zlen vs * 4096 → 0 <= y < zlen vs * 4096 → phys vs x = phys vs y → x = y.
Proof.
  intros Hs Hx Hy E. destruct (phys_page vs x Hx) as (p & Hp & Lp & Ex & Mx). destruct (phys_page vs y Hy) as (q & Hq & Lq & Ey & My).
  destruct (space_page _ _ _ _ _ Hs Hp) as [Ap _]. destruct (space_page _ _ _ _ _ Hs Hq) as [Aq _]. unfold page_aligned in *.
  assert (p = q) as -> by zdm. destruct Hs as [[_ [Hnd _] _ _ _] _ _ _].
  pose proof (NoDup_lookup _ _ _ _ Hnd Lp Lq). zdm.
Qed.

(** Writing the user pages leaves the space in place. *)
Lemma space_write s l root vs m :
  space s l root vs → (∀ b, (∀ p, p ∈ upages vs → ¬ (p <= b < p + 4096)) → rd8 m b = rd8 (kmem s) b) →
  space (set_kmem m s) l root vs ∧ (∀ p, nodes (set_kmem m s) root p ↔ nodes s root p) ∧
  keeps_pages (λ p, p ∈ upages vs) s (set_kmem m s).
Proof.
  intros Hs Hm. assert (Hkeep : keeps_pages (λ p, p ∈ upages vs) s (set_kmem m s)).
  { intros q Hal Hq b Hb. apply Hm. intros p Hp Hbp. destruct (space_page _ _ _ _ _ Hs Hp) as [Ap _].
    destruct (pages_disjoint p q); [done|done|by intros ->|lia|lia]. }
  pose proof Hs as [[Hinv Hown Hfit Hl Hu] _ _ _]. destruct (pt_inv_frame kend kend_pos s root l m Hinv) as (Hinv' & Hv & Hn).
  { intros p Hp. apply Hkeep; [|by intros ?%(space_page _ _ _ _ _ Hs); tauto].
    destruct Hinv as (Hf & Hw & _). destruct Hp as [Hp|Hp]; [by eapply node_page_aligned|by eapply kinv_page]. }
  split; [|done]. apply (space_tables kend trampoline tf s l root vs); [done|done|intros p; by rewrite Hn|done].
Qed.

(** Pages of the space that an operation keeps have their bytes. *)
Lemma ubyte_keep s l root vs D s' x : space s l root vs → keeps_pages D s s' → (∀ p, D p → p ∉ upages vs) → 0 <= x < zlen vs * 4096 →
  ubyte (kmem s') vs x = ubyte (kmem s) vs x.
Proof.
  intros Hs Hk HD Hx. destruct (phys_page vs x Hx) as (p & Hp & _ & Ex & Mx). unfold ubyte. rewrite Ex.
  apply (Hk p); [by eapply space_page|by intros ?%HD|lia].
Qed.

Lemma phys_app vs vs' x : 0 <= x < zlen vs * 4096 → phys (vs ++ vs') x = phys vs x.
Proof. intros Hx. unfold phys. rewrite lookup_total_app_l by zdm. done. Qed.

(** After uvmalloc the old bytes are there and the new ones are 0. *)
Lemma ubyte_grown s l root vs s' ps xperm x :
  space s l root vs → keeps_pages (λ p, p ∈ l ∨ nodes s root p) s s' → 0 <= xperm < 1024 →
  (∀ p, p ∈ ps → page_ok kend p ∧ zero_page (kmem s') p) → 0 <= x < (zlen vs + zlen ps) * 4096 →
  ubyte (kmem s') (vs ++ new_ptes xperm ps) x = if decide (x < zlen vs * 4096) then ubyte (kmem s) vs x else 0.
Proof.
  intros Hs Hk Hxp Hps Hx. case_decide.
  - unfold ubyte. rewrite phys_app by lia. apply (ubyte_keep s l root vs _ s' x Hs Hk); [|lia].
    intros p Hp ?%(space_page _ _ _ _ _ Hs). tauto.
  - unfold ubyte, phys. rewrite lookup_total_app_r by zdm. unfold new_ptes. rewrite (list_lookup_total_fmap _ ps) by zdm.
    set (q := ps !!! _). assert (Hq : q ∈ ps) by (apply elem_total; zdm). destruct (Hps q Hq) as [Hok Hz].
    destruct (page_mkpte kend kend_pos q _ Hok (new_perm xperm Hxp)) as (-> & _). apply Hz. zdm.
Qed.

(** *** Writing user memory *)

Definition user_pte (vs : list Z) (x : Z) : Prop := Z.land (vs !!! Z.to_nat (x / 4096)) PTE_U ≠ 0.

Lemma space_upage s l root vs x : space s l root vs → 0 <= x < zlen vs * 4096 → user_pte vs x →
  upage (kmem s) root (x / 4096 * 4096) = PTE2PA (vs !!! Z.to_nat (x / 4096)).
Proof.
  intros [[_ _ Hfit Hl Hu] _ _ _] Hx HU. unfold upage. change MAXVA with 274877906944. change TRAPFRAME with 274877898752 in Hfit.
  rewrite Z.geb_leb. destruct (Z.leb_spec 274877906944 (x / 4096 * 4096)); [zdm|]. rewrite Hu by zdm.
  replace (x / 4096 * 4096 / 4096) with (x / 4096) by zdm. cbv zeta. set (v := vs !!! _).
  assert (Hv : v ∈ vs) by (apply elem_total; zdm). destruct (Hl v Hv) as [HV _].
  destruct (Z.eqb_spec (Z.land v PTE_V) 0); [done|]. by destruct (Z.eqb_spec (Z.land v PTE_U) 0).
Qed.

Lemma space_uaddr s l root vs x : space s l root vs → 0 <= x < zlen vs * 4096 → user_pte vs x →
  uaddr (kmem s) root x = phys vs x ∧ mapped (kmem s) root x.
Proof.
  intros Hs Hx HU. pose proof (space_upage s l root vs x Hs Hx HU) as E. unfold uaddr, mapped, phys. rewrite E. split; [done|].
  destruct (phys_page vs x Hx) as (p & Hp & _ & Ex & _). destruct (space_page _ _ _ _ _ Hs Hp) as (_ & Hok & _).
  pose proof (page_ok_range kend kend_pos p Hok). unfold phys in Ex. lia.
Qed.

(** The bytes of the space after [f] was written at [va]. *)
Definition overlay (va len : Z) (f : Z → Z) (g : Z → Z) (x : Z) : Z := if decide (va <= x < va + len) then f (x - va) else g x.

(** [len] bytes [f] written through the mapping at [va]. *)
Lemma space_update s l root vs va len f m :
  space s l root vs → 0 <= va → 0 <= len → va + len <= zlen vs * 4096 →
  (∀ i, 0 <= i < len → rd8 m (phys vs (va + i)) = f i) →
  (∀ b, (∀ i, 0 <= i < len → b ≠ phys vs (va + i)) → rd8 m b = rd8 (kmem s) b) →
  space (set_kmem m s) l root vs ∧ (∀ p, nodes (set_kmem m s) root p ↔ nodes s root p) ∧
  keeps_pages (λ p, p ∈ upages vs) s (set_kmem m s) ∧
  ∀ x, 0 <= x < zlen vs * 4096 → ubyte m vs x = overlay va len f (ubyte (kmem s) vs) x.
Proof.
  intros Hs Hva Hlen Hend Hw Ho. destruct (space_write s l root vs m Hs) as (H1 & H2 & H3).
  { intros b Hb. apply Ho. intros i Hi ->. destruct (phys_page vs (va + i)) as (p & Hp & _ & Ex & Mx); [lia|].
    apply (Hb p Hp). rewrite Ex. lia. }
  split_and!; [done..|]. intros x Hx. unfold ubyte, overlay. case_decide.
  - rewrite <-Hw by lia. f_equal. f_equal. lia.
  - apply Ho. intros i Hi E. apply (phys_inj s l root vs) in E; [|done|done|lia]. lia.
Qed.

Lemma runs_copyout_space s l root vs va len buf :
  space s l root vs → 0 <= va → 0 <= len → va + len <= zlen vs * 4096 →
  (∀ x, va <= x < va + len → user_pte vs x) → (∀ p, p ∈ upages vs → buf + len <= p ∨ p + 4096 <= buf) →
  runs (copyout root va buf len) s (λ r s', r = 0 ∧ s' = set_kmem (kmem s') s ∧
    space s' l root vs ∧ (∀ p, nodes s' root p ↔ nodes s root p) ∧ keeps_pages (λ p, p ∈ upages vs) s s' ∧
    ∀ x, 0 <= x < zlen vs * 4096 → ubyte (kmem s') vs x = overlay va len (λ i, rd8 (kmem s) (buf + i)) (ubyte (kmem s) vs) x).
Proof.
  intros Hs Hva Hlen Hend HU Hbuf. pose proof Hs as [[(_ & Hw & _) _ Hfit _ _] _ _ _]. change TRAPFRAME with 274877898752 in Hfit.
  assert (Hup : ∀ x, va <= x < va + len → upage (kmem s) root (x / 4096 * 4096) = PTE2PA (vs !!! Z.to_nat (x / 4096))).
  { intros x Hx. apply (space_upage s l); [done|lia|by apply HU]. }
  assert (Hua : ∀ x, va <= x < va + len → uaddr (kmem s) root x = phys vs x ∧ mapped (kmem s) root x).
  { intros x Hx. apply (space_uaddr s l); [done|lia|by apply HU]. }
  assert (Hpg : ∀ x, va <= x < va + len → PTE2PA (vs !!! Z.to_nat (x / 4096)) ∈ upages vs).
  { intros x Hx. apply list_elem_of_fmap. eexists. split; [done|]. apply elem_total. zdm. }
  eapply runs_mono; [apply (runs_copyout kend kend_pos s root va len buf Hw); [lia|done|]|].
  - split.
    + intros x p Hx _ Hp ->. rewrite Hup in Hp by done. by destruct (space_page _ _ _ _ _ Hs (Hpg x Hx)) as (_ & _ & _ & ?).
    + intros x y Hx Hy _. rewrite !Hup by done. intros E.
      assert (E' : phys vs (x / 4096 * 4096) = phys vs (y / 4096 * 4096)).
      { unfold phys. replace (x / 4096 * 4096 / 4096) with (x / 4096) by zdm. replace (y / 4096 * 4096 / 4096) with (y / 4096) by zdm. rewrite E. zdm. }
      apply (phys_inj s l root vs) in E'; [zdm|done|zdm|zdm].
    + intros x Hx _ p. subst p. rewrite Hup by done. by apply Hbuf, Hpg.
  - intros r s' (k & Hk & Es & Hm & [H1 H2] & [[-> ->]|(_ & Hlt & Hnm)]); [|destruct Hnm; apply Hua; lia].
    split; [done|]. split; [done|]. rewrite Es. cbn [kmem set_kmem]. apply (space_update s l root vs va len); try done.
    + intros i Hi. rewrite <-(proj1 (Hua (va + i) ltac:(lia))). by apply H1.
    + intros b Hb. apply H2. intros i Hi. rewrite (proj1 (Hua (va + i) ltac:(lia))). by apply Hb.
Qed.

(** *** uvmclear *)

Definition no_user_bit (v : Z) : Z := Z.land v (Z.lnot PTE_U).

Lemma no_user_bit_props v : 0 <= v < 2 ^ 64 → Z.land v PTE_R ≠ 0 → leaf_pte v →
  0 <= no_user_bit v < 2 ^ 64 ∧ leaf_pte (no_user_bit v) ∧ PTE2PA (no_user_bit v) = PTE2PA v ∧ Z.land (no_user_bit v) PTE_U = 0.
Proof.
  intros Hv HR [HV HF]. unfold no_user_bit.
  assert (Hle : 0 <= Z.land v (Z.lnot PTE_U) <= v).
  { assert (E : v = Z.land v (Z.lnot PTE_U) + Z.land v PTE_U).
    { rewrite Z.add_nocarry_lxor; [|apply Z.bits_inj'; intros n Hn; rewrite Z.bits_0, !Z.land_spec, Z.lnot_spec by done; by destruct (Z.testbit v n), (Z.testbit PTE_U n)].
      apply Z.bits_inj'. intros n Hn. rewrite Z.lxor_spec, !Z.land_spec, Z.lnot_spec by done. by destruct (Z.testbit v n), (Z.testbit PTE_U n). }
    assert (0 <= Z.land v PTE_U) by (apply Z.land_nonneg; lia).
    assert (0 <= Z.land v (Z.lnot PTE_U)) by (apply Z.land_nonneg; lia). lia. }
  split; [lia|]. split; [split|split].
  - rewrite <-Z.land_assoc. change (Z.land (Z.lnot PTE_U) PTE_V) with PTE_V. done.
  - intros E. apply HR. assert (E' : Z.land (Z.land v (Z.lnot PTE_U)) PTE_R = 0).
    { transitivity (Z.land (PTE_FLAGS (Z.land v (Z.lnot PTE_U))) PTE_R); [|by rewrite E]. unfold PTE_FLAGS.
      by rewrite <-(Z.land_assoc (Z.land v (Z.lnot PTE_U)) 1023 PTE_R). }
    by rewrite <-(Z.land_assoc v) in E'.
  - unfold PTE2PA. rewrite Z.shiftr_land. change (Z.shiftr (Z.lnot PTE_U) 10) with (-1). by rewrite Z.land_m1_r.
  - rewrite <-Z.land_assoc. change (Z.land (Z.lnot PTE_U) PTE_U) with 0. by rewrite Z.land_0_r.
Qed.

(** uvmclear takes the user bit of page [i]. *)
Lemma runs_uvmclear_space s l root vs i v :
  space s l root vs → vs !! i = Some v → Z.land v PTE_R ≠ 0 →
  runs (uvmclear root (Z.of_nat i * 4096)) s (λ _ s', s' = set_kmem (kmem s') s ∧
    let vs' := <[i := no_user_bit v]> vs in
    space s' l root vs' ∧ (∀ p, nodes s' root p ↔ nodes s root p) ∧ keeps_pages (nodes s root) s s' ∧ upages vs' = upages vs).
Proof.
  intros Hs Hi HR. pose proof Hs as [[Hinv Hown Hfit Hl Hu] Hgap Htf Htr]. pose proof Hinv as (_ & Hw & _).
  assert (Hlt : (i < length vs)%nat) by by eapply lookup_lt_Some. assert (Hv : v ∈ vs) by by eapply list_elem_of_lookup_2.
  assert (Hva : 0 <= Z.of_nat i * 4096 < MAXVA) by (change MAXVA with 274877906944; change TRAPFRAME with 274877898752 in Hfit; lia).
  assert (Eview : view s root (Z.of_nat i * 4096) = v).
  { rewrite Hu by lia. rewrite Z.div_mul, Nat2Z.id by lia. by apply list_lookup_total_correct. }
  unfold uvmclear. apply runs_bind. eapply runs_Ok; [apply walk_false; lia|].
  destruct (node (kmem s) root (vpath (Z.of_nat i * 4096))) as [p2|] eqn:Hp2; cycle 1.
  { exfalso. unfold pteval in Eview. rewrite Hp2 in Eview. subst v. by destruct (Hl 0 Hv). }
  pose proof (leaf_pos kend kend_pos root _ _ _ Hw Hp2) as Hpos. destruct (Z.eqb_spec (leaf (kmem s) root (Z.of_nat i * 4096)) 0); [lia|].
  assert (El : leaf (kmem s) root (Z.of_nat i * 4096) = pte_addr p2 (PX 0 (Z.of_nat i * 4096))) by (unfold leaf; by rewrite Hp2).
  assert (Er : rd64 (kmem s) (pte_addr p2 (PX 0 (Z.of_nat i * 4096))) = v) by (rewrite <-Eview; unfold pteval; by rewrite Hp2).
  rewrite El. unfold load64, store64. apply runs_bind, runs_gets, runs_modify. rewrite Er. fold (no_user_bit v).
  assert (Hr : 0 <= v < 2 ^ 64) by (rewrite <-Er; apply rd64_range).
  destruct (no_user_bit_props v Hr HR (Hl v Hv)) as (Hnr & Hnl & Hnp & _).
  destruct (leaf_store_grow kend kend_pos root s l _ p2 (no_user_bit v) Hinv Hva Hp2) as (Hg & Hk & Hst).
  rewrite u64_small in Hst by done. set (m' := wr64 _ _ _) in *.
  assert (Eup : upages (<[i := no_user_bit v]> vs) = upages vs).
  { unfold upages. rewrite list_fmap_insert, Hnp. apply list_insert_id. by rewrite list_lookup_fmap, Hi. }
  assert (Hn : ∀ p, nodes (set_kmem m' s) root p ↔ nodes s root p).
  { intros p. destruct (pteval_leaf_write kend (kmem s) root _ (no_user_bit v) p2 Hw Hva Hp2) as (_ & Hn & _). by apply is_node_ext. }
  split; [done|]. cbv zeta. split; [|split_and!; [done| |done]].
  - change MAXVA with 274877906944 in *. change TRAPFRAME with 274877898752 in *. change TRAMPOLINE with 274877902848 in *.
    split; [split|..]; rewrite ?length_insert; change MAXVA with 274877906944; change TRAPFRAME with 274877898752; change TRAMPOLINE with 274877902848.
    + apply Hg.
    + rewrite Eup. split; [apply Hown|]. intros p Hp. rewrite Hn. by apply Hown.
    + done.
    + intros w (j & Hj)%list_elem_of_lookup_1. apply list_lookup_insert_Some in Hj as [(_ & <- & _)|(_ & Hj)]; [done|]. by eapply Hl, list_elem_of_lookup_2.
    + intros x Hx. cbn [kmem set_kmem]. rewrite Hst by lia. case_decide as E.
      * rewrite E, Z.div_mul, Nat2Z.id by lia. by rewrite list_lookup_total_insert_eq.
      * rewrite list_lookup_total_insert_ne by zdm. by apply Hu.
    + intros x Hx. cbn [kmem set_kmem]. rewrite Hst by lia. rewrite decide_False by zdm. by apply Hgap.
    + intros x Hx. cbn [kmem set_kmem]. rewrite Hst by lia. rewrite decide_False by zdm. by apply Htf.
    + intros x Hx. cbn [kmem set_kmem]. rewrite Hst by lia. rewrite decide_False by zdm. by apply Htr.
  - assert (Hin2 : nodes s root p2) by (exists (vpath (Z.of_nat i * 4096)); auto using vpath_ok).
    intros p Hal Hp. eapply agree_out_agree; [apply wr64_agree_out|].
    pose proof (pte_addr_page p2 (PX 0 (Z.of_nat i * 4096)) (PX_range 0 _ ltac:(lia))).
    destruct (pages_disjoint p p2); [done|by eapply node_page_aligned|by intros ->|lia|lia].
Qed.

Lemma phys_upages vs vs' x : upages vs' = upages vs → phys vs' x = phys vs x.
Proof.
  intros E. assert (Hl : length vs' = length vs) by (apply (f_equal length) in E; unfold upages in E; by rewrite !length_fmap in E).
  unfold phys. destruct (decide (Z.to_nat (x / 4096) < length vs)%nat) as [Hi|Hi].
  - assert (E' := f_equal (λ u, u !!! Z.to_nat (x / 4096)) E). simpl in E'. unfold upages in E'.
    rewrite (list_lookup_total_fmap _ vs'), (list_lookup_total_fmap _ vs) in E' by lia. by rewrite E'.
  - rewrite !list_lookup_total_alt, !lookup_ge_None_2 by lia. done.
Qed.
(** A space is the same in any state in which its tables and pages are. *)
Lemma space_move s l root vs s' l' :
  space s l root vs → kinv kend s' l' → (∀ p, nodes s root p ∨ p ∈ upages vs → p ∉ l' ∧ agree (kmem s) (kmem s') p 4096) →
  space s' l' root vs ∧ (∀ p, nodes s' root p ↔ nodes s root p) ∧
  ∀ x, 0 <= x < zlen vs * 4096 → ubyte (kmem s') vs x = ubyte (kmem s) vs x.
Proof.
  intros Hs Hk Hp. pose proof Hs as [[(_ & Hw & _) [Hnd Hown] Hfit Hl Hu] Hgap Htf Htr].
  assert (Hag : ∀ p, nodes s root p → agree (kmem s) (kmem s') p 4096) by (intros p ?; apply Hp; by left).
  destruct (tree_frame (kmem s) (kmem s') root Hag) as [Hn Hv].
  assert (Hnode : ∀ p, nodes s' root p ↔ nodes s root p) by (intros p; by apply is_node_ext).
  split_and!; [|done|].
  - split; [split|..]; try done; try by intros x Hx; rewrite Hv; auto.
    + split_and!; [done|by eapply pt_wf_frame|]. intros p ?%Hnode. apply Hp. by left.
    + split; [done|]. intros p Hpu. destruct (Hown p Hpu) as (? & _ & ?). split_and!; [done|apply Hp; by right|by rewrite Hnode].
  - intros x Hx. destruct (phys_page vs x Hx) as (p & Hpu & _ & E & Hr). unfold ubyte. rewrite E. apply (Hp p); [by right|lia].
Qed.
End Bytes.
