(* ===== verification/Machine.v ===== *)
(** The RISC-V hart as far as the kernel sees it: the accessors of riscv.h, the
    instructions of the assembly files, the way traps are entered and left,
    and address translation.

    The state of a hart is its registers, its control and status registers,
    its privilege mode, its program counter and the memory.  sstatus is a view
    of mstatus.  Translation is Sv39 with pages of 4096 bytes; the hardware
    reads the same tables that walk of vm.c does.  The accessed and dirty
    bits, superpages and the TLB are left out.  Code runs from one page: an
    instruction is fetched through the current page table, which must map the
    page of the code to the physical page that holds it. *)

From S2P Require Import Prelude Mem CString Riscv Spinlock Kalloc Vm VmSpec.
Local Open Scope kernel_scope.

(** ** Registers *)

Inductive reg :=
| RA | SP | GP | TP | T0 | T1 | T2 | S0 | S1 | A0 | A1 | A2 | A3 | A4 | A5 | A6 | A7
| S2 | S3 | S4 | S5 | S6 | S7 | S8 | S9 | S10 | S11 | T3 | T4 | T5 | T6.
#[global] Instance reg_eq_dec : EqDecision reg.
Proof. solve_decision. Defined.

Inductive csrname :=
| SSTATUS | SIP | SIE | SEPC | SCAUSE | STVAL | STVEC | SATP | SSCRATCH
| MSTATUS | MEPC | MCAUSE | MTVEC | MSCRATCH | MIE | MEDELEG | MIDELEG | MHARTID | PMPADDR0 | PMPCFG0 | MCOUNTEREN | TIME.
#[global] Instance csrname_eq_dec : EqDecision csrname.
Proof. solve_decision. Defined.

Inductive mode := MM | SM | UM.
#[global] Instance mode_eq_dec : EqDecision mode.
Proof. solve_decision. Defined.

Record mach := mkMach { xreg : reg → Z; csrf : csrname → Z; priv : mode; pcr : Z; ram : mem }.

Definition put_reg (r : reg) (v : Z) (m : mach) : mach :=
  mkMach (λ x, if decide (x = r) then u64 v else xreg m x) (csrf m) (priv m) (pcr m) (ram m).
Definition put_csr (c : csrname) (v : Z) (m : mach) : mach :=
  mkMach (xreg m) (λ x, if decide (x = c) then u64 v else csrf m x) (priv m) (pcr m) (ram m).
Definition set_priv (x : mode) (m : mach) : mach := mkMach (xreg m) (csrf m) x (pcr m) (ram m).
Definition set_pc (x : Z) (m : mach) : mach := mkMach (xreg m) (csrf m) (priv m) (u64 x) (ram m).
Definition set_ram (x : mem) (m : mach) : mach := mkMach (xreg m) (csrf m) (priv m) (pcr m) x.

Definition put_bit (i : Z) (b : bool) (x : Z) : Z := if b then Z.setbit x i else Z.clearbit x i.

(** ** riscv.h *)

Definition MSTATUS_MPP_MASK : Z := Z.shiftl 3 11.
Definition MSTATUS_MPP_S : Z := Z.shiftl 1 11.
Definition MSTATUS_MIE : Z := Z.shiftl 1 3.
Definition SSTATUS_SPP : Z := Z.shiftl 1 8.
Definition SSTATUS_SPIE : Z := Z.shiftl 1 5.
Definition SSTATUS_SIE : Z := Z.shiftl 1 1.
Definition SIE_SEIE : Z := Z.shiftl 1 9.
Definition SIE_STIE : Z := Z.shiftl 1 5.
Definition SIE_SSIE : Z := Z.shiftl 1 1.
Definition MIE_MTIE : Z := Z.shiftl 1 7.
Definition SATP_SV39 : Z := Z.shiftl 8 60.
Definition MAKE_SATP (pagetable : Z) : Z := Z.lor SATP_SV39 (Z.shiftr pagetable 12).

(** The fields of mstatus that sstatus shows. *)
Definition sstatus_mask : Z := 0x80000003000DE762.

Definition read_csr (c : csrname) (m : mach) : Z :=
  match c with SSTATUS => Z.land (csrf m MSTATUS) sstatus_mask | _ => csrf m c end.
Definition write_csr (c : csrname) (v : Z) (m : mach) : mach :=
  match c with
  | SSTATUS => put_csr MSTATUS (Z.lor (Z.land (csrf m MSTATUS) (u64 (Z.lnot sstatus_mask))) (Z.land v sstatus_mask)) m
  | _ => put_csr c v m
  end.

Definition csrr (c : csrname) : K mach Z := gets (read_csr c).
Definition csrw (c : csrname) (v : Z) : K mach unit := modify (write_csr c v).

Definition r_mhartid : K mach Z := csrr MHARTID.
Definition r_mstatus : K mach Z := csrr MSTATUS.
Definition w_mstatus : Z → K mach unit := csrw MSTATUS.
Definition w_mepc : Z → K mach unit := csrw MEPC.
Definition r_sstatus : K mach Z := csrr SSTATUS.
Definition w_sstatus : Z → K mach unit := csrw SSTATUS.
Definition r_sip : K mach Z := csrr SIP.
Definition w_sip : Z → K mach unit := csrw SIP.
Definition r_sie : K mach Z := csrr SIE.
Definition w_sie : Z → K mach unit := csrw SIE.
Definition r_mie : K mach Z := csrr MIE.
Definition w_mie : Z → K mach unit := csrw MIE.
Definition r_sepc : K mach Z := csrr SEPC.
Definition w_sepc : Z → K mach unit := csrw SEPC.
Definition r_medeleg : K mach Z := csrr MEDELEG.
Definition w_medeleg : Z → K mach unit := csrw MEDELEG.
Definition r_mideleg : K mach Z := csrr MIDELEG.
Definition w_mideleg : Z → K mach unit := csrw MIDELEG.
Definition r_stvec : K mach Z := csrr STVEC.
Definition w_stvec : Z → K mach unit := csrw STVEC.
Definition w_mtvec : Z → K mach unit := csrw MTVEC.
Definition w_pmpcfg0 : Z → K mach unit := csrw PMPCFG0.
Definition w_pmpaddr0 : Z → K mach unit := csrw PMPADDR0.
Definition r_satp : K mach Z := csrr SATP.
Definition w_satp : Z → K mach unit := csrw SATP.
Definition w_mscratch : Z → K mach unit := csrw MSCRATCH.
Definition r_scause : K mach Z := csrr SCAUSE.
Definition r_stval : K mach Z := csrr STVAL.
Definition w_mcounteren : Z → K mach unit := csrw MCOUNTEREN.
Definition r_mcounteren : K mach Z := csrr MCOUNTEREN.
Definition r_time : K mach Z := csrr TIME.
Definition r_sp : K mach Z := gets (λ m, xreg m SP).
Definition r_tp : K mach Z := gets (λ m, xreg m TP).
Definition w_tp (x : Z) : K mach unit := modify (put_reg TP x).
Definition r_ra : K mach Z := gets (λ m, xreg m RA).

Definition intr_on : K mach unit := x <- r_sstatus ;;; w_sstatus (Z.lor x SSTATUS_SIE).
Definition intr_off : K mach unit := x <- r_sstatus ;;; w_sstatus (Z.land x (u64 (Z.lnot SSTATUS_SIE))).
Definition intr_get : K mach bool := x <- r_sstatus ;;; ret (negb (Z.land x SSTATUS_SIE =? 0)).

(** ** Traps *)

Definition MSTATUS_bit (i : Z) (m : mach) : bool := Z.testbit (csrf m MSTATUS) i.

(** A trap to supervisor mode, to which all of them are delegated. *)
Definition enter_trap (cause tval : Z) (m : mach) : mach :=
  let st := put_bit 8 (bool_decide (priv m = SM)) (put_bit 5 (MSTATUS_bit 1 m) (put_bit 1 false (csrf m MSTATUS))) in
  let m1 := put_csr MSTATUS st (put_csr SEPC (pcr m) (put_csr SCAUSE cause (put_csr STVAL tval m))) in
  set_pc (csrf m STVEC) (set_priv SM m1).

Definition sret (m : mach) : mach :=
  let st := put_bit 8 false (put_bit 5 true (put_bit 1 (MSTATUS_bit 5 m) (csrf m MSTATUS))) in
  set_pc (csrf m SEPC) (set_priv (if MSTATUS_bit 8 m then SM else UM) (put_csr MSTATUS st m)).

(** A trap to machine mode, which is only the timer. *)
Definition enter_machine_trap (cause : Z) (m : mach) : mach :=
  let mpp := match priv m with MM => 3 | SM => 1 | UM => 0 end in
  let st := Z.lor (Z.land (csrf m MSTATUS) (u64 (Z.lnot MSTATUS_MPP_MASK))) (Z.shiftl mpp 11) in
  let st := put_bit 7 (Z.testbit st 3) (put_bit 3 false st) in
  set_pc (csrf m MTVEC) (set_priv MM (put_csr MSTATUS st (put_csr MEPC (pcr m) (put_csr MCAUSE cause m)))).

Definition mret (m : mach) : mach :=
  let st0 := csrf m MSTATUS in
  let md := if Z.testbit st0 12 then MM else if Z.testbit st0 11 then SM else UM in
  let st := put_bit 11 false (put_bit 12 false (put_bit 7 true (put_bit 3 (Z.testbit st0 7) st0))) in
  set_pc (csrf m MEPC) (set_priv md (put_csr MSTATUS st m)).

(** ** Address translation *)

Inductive access := Fetch | Load | Store.
Definition perm_of (a : access) : Z := match a with Fetch => PTE_X | Load => PTE_R | Store => PTE_W end.

Definition satp_root (satp : Z) : Z := (satp mod 2 ^ 44) * 4096.

(** Sv39: user mode needs PTE_U, supervisor mode needs it to be clear. *)
Definition sv39 (m : mem) (root : Z) (md : mode) (a : access) (va : Z) : option Z :=
  let pte := pteval m root va in
  if (0 <=? va) && (va <? MAXVA) && valid pte && negb (Z.land pte (perm_of a) =? 0) &&
     Bool.eqb (bool_decide (md = UM)) (negb (Z.land pte PTE_U =? 0))
  then Some (PTE2PA pte + va mod PGSIZE) else None.

Definition xlate (m : mach) (a : access) (va : Z) : option Z :=
  let satp := csrf m SATP in
  if bool_decide (priv m = MM) || (satp / 2 ^ 60 =? 0) then Some va
  else if satp / 2 ^ 60 =? 8 then sv39 (ram m) (satp_root satp) (priv m) a va
  else None.

Definition page_fault {A} : K mach A := panic "page fault".
Definition load64 (va : Z) : K mach Z := λ m,
  if va mod 8 =? 0 then match xlate m Load va with Some pa => Ok (rd64 (ram m) pa) m | None => page_fault m end
  else panic "misaligned load" m.
Definition store64 (va v : Z) : K mach unit := λ m,
  if va mod 8 =? 0 then match xlate m Store va with Some pa => Ok tt (set_ram (wr64 (ram m) pa v) m) | None => page_fault m end
  else panic "misaligned store" m.

(** ** Instructions *)

Inductive instr :=
| Sd (rs : reg) (off : Z) (base : reg)
| Ld (rd : reg) (off : Z) (base : reg)
| Li (rd : reg) (v : Z)
| Addi (rd rs : reg) (v : Z)
| Add (rd rs1 rs2 : reg)
| Mul (rd rs1 rs2 : reg)
| Csrr (rd : reg) (c : csrname)
| Csrw (c : csrname) (rs : reg)
| Csrrw (rd : reg) (c : csrname) (rs : reg)
| Sfence_vma.

Definition getr (r : reg) : K mach Z := gets (λ m, xreg m r).
Definition setr (r : reg) (v : Z) : K mach unit := modify (put_reg r v).

Definition exec (i : instr) : K mach unit :=
  match i with
  | Sd rs off base => b <- getr base ;;; v <- getr rs ;;; store64 (u64 (b + off)) v
  | Ld rd off base => b <- getr base ;;; v <- load64 (u64 (b + off)) ;;; setr rd v
  | Li rd v => setr rd v
  | Addi rd rs v => x <- getr rs ;;; setr rd (x + v)
  | Add rd rs1 rs2 => x <- getr rs1 ;;; y <- getr rs2 ;;; setr rd (x + y)
  | Mul rd rs1 rs2 => x <- getr rs1 ;;; y <- getr rs2 ;;; setr rd (x * y)
  | Csrr rd c => v <- csrr c ;;; setr rd v
  | Csrw c rs => v <- getr rs ;;; csrw c v
  | Csrrw rd c rs => v <- csrr c ;;; x <- getr rs ;;; csrw c x ;;; setr rd v
  | Sfence_vma => ret tt
  end.

(** The code is at the virtual page [page] and in the physical page [home]. *)
Definition fetch (page home : Z) : K mach unit := λ m,
  if bool_decide (xlate m Fetch page = Some home) then Ok tt m else page_fault m.

Fixpoint run_code (page home : Z) (l : list instr) : K mach unit :=
  match l with
  | [] => ret tt
  | i :: l => fetch page home ;;; exec i ;;; run_code page home l
  end.

Definition jr (r : reg) : K mach unit := x <- getr r ;;; modify (set_pc x).

(** ** What the instructions do *)

Lemma xreg_put r v m x : xreg (put_reg r v m) x = if decide (x = r) then u64 v else xreg m x.
Proof. done. Qed.

(** Instructions that touch neither satp nor the mode keep the translation of
    a page as long as they do not write its tables. *)
Definition same_space (m m' : mach) : Prop := csrf m' SATP = csrf m SATP ∧ priv m' = priv m.

Lemma xlate_same m m' a va :
  same_space m m' → (∀ root, pteval (ram m') root va = pteval (ram m) root va) → xlate m' a va = xlate m a va.
Proof. intros [E1 E2] H. unfold xlate, sv39. by rewrite E1, E2, H. Qed.
