(* ===== verification/Asm.v ===== *)
(** The assembly files of the kernel: trampoline.S, swtch.S, kernelvec.S and
    entry.S, instruction by instruction.

    Each routine is its straight-line code; the jump that ends it (jr, ret,
    sret, mret, call) is the definition of the routine as a whole. *)

From S2P Require Import Prelude Mem CString Riscv Spinlock Kalloc Vm VmSpec Machine.
Local Open Scope kernel_scope.

(** ** trampoline.S *)

Definition uservec_code : list instr := [
  Csrw SSCRATCH A0; Li A0 TRAPFRAME; Sd RA 40 A0; Sd SP 48 A0; Sd GP 56 A0; Sd TP 64 A0;
  Sd T0 72 A0; Sd T1 80 A0; Sd T2 88 A0; Sd S0 96 A0; Sd S1 104 A0; Sd A1 120 A0; Sd A2 128 A0;
  Sd A3 136 A0; Sd A4 144 A0; Sd A5 152 A0; Sd A6 160 A0; Sd A7 168 A0; Sd S2 176 A0; Sd S3 184 A0;
  Sd S4 192 A0; Sd S5 200 A0; Sd S6 208 A0; Sd S7 216 A0; Sd S8 224 A0; Sd S9 232 A0; Sd S10 240 A0;
  Sd S11 248 A0; Sd T3 256 A0; Sd T4 264 A0; Sd T5 272 A0; Sd T6 280 A0; Csrr T0 SSCRATCH;
  Sd T0 112 A0; Ld SP 8 A0; Ld TP 32 A0; Ld T0 16 A0; Ld T1 0 A0; Sfence_vma; Csrw SATP T1;
  Sfence_vma
].

(** uservec ends in a jump to usertrap, whose address is in t0. *)
Definition uservec (page home : Z) : K mach unit := run_code page home uservec_code ;;; jr T0.

Definition userret_code : list instr := [
  Sfence_vma; Csrw SATP A0; Sfence_vma; Li A0 TRAPFRAME; Ld RA 40 A0; Ld SP 48 A0; Ld GP 56 A0;
  Ld TP 64 A0; Ld T0 72 A0; Ld T1 80 A0; Ld T2 88 A0; Ld S0 96 A0; Ld S1 104 A0; Ld A1 120 A0;
  Ld A2 128 A0; Ld A3 136 A0; Ld A4 144 A0; Ld A5 152 A0; Ld A6 160 A0; Ld A7 168 A0; Ld S2 176 A0;
  Ld S3 184 A0; Ld S4 192 A0; Ld S5 200 A0; Ld S6 208 A0; Ld S7 216 A0; Ld S8 224 A0; Ld S9 232 A0;
  Ld S10 240 A0; Ld S11 248 A0; Ld T3 256 A0; Ld T4 264 A0; Ld T5 272 A0; Ld T6 280 A0; Ld A0 112 A0
].

Definition userret (page home : Z) : K mach unit := run_code page home userret_code ;;; modify sret.

(** ** swtch.S *)

Definition swtch_code : list instr := [
  Sd RA 0 A0; Sd SP 8 A0; Sd S0 16 A0; Sd S1 24 A0; Sd S2 32 A0; Sd S3 40 A0; Sd S4 48 A0;
  Sd S5 56 A0; Sd S6 64 A0; Sd S7 72 A0; Sd S8 80 A0; Sd S9 88 A0; Sd S10 96 A0; Sd S11 104 A0;
  Ld RA 0 A1; Ld SP 8 A1; Ld S0 16 A1; Ld S1 24 A1; Ld S2 32 A1; Ld S3 40 A1; Ld S4 48 A1;
  Ld S5 56 A1; Ld S6 64 A1; Ld S7 72 A1; Ld S8 80 A1; Ld S9 88 A1; Ld S10 96 A1; Ld S11 104 A1
].

Definition swtch (page home : Z) : K mach unit := run_code page home swtch_code ;;; jr RA.

(** ** kernelvec.S *)

Definition kernelvec_enter_code : list instr := [
  Addi SP SP (-256); Sd RA 0 SP; Sd SP 8 SP; Sd GP 16 SP; Sd TP 24 SP; Sd T0 32 SP; Sd T1 40 SP;
  Sd T2 48 SP; Sd S0 56 SP; Sd S1 64 SP; Sd A0 72 SP; Sd A1 80 SP; Sd A2 88 SP; Sd A3 96 SP;
  Sd A4 104 SP; Sd A5 112 SP; Sd A6 120 SP; Sd A7 128 SP; Sd S2 136 SP; Sd S3 144 SP; Sd S4 152 SP;
  Sd S5 160 SP; Sd S6 168 SP; Sd S7 176 SP; Sd S8 184 SP; Sd S9 192 SP; Sd S10 200 SP;
  Sd S11 208 SP; Sd T3 216 SP; Sd T4 224 SP; Sd T5 232 SP; Sd T6 240 SP
].

Definition kernelvec_leave_code : list instr := [
  Ld RA 0 SP; Ld SP 8 SP; Ld GP 16 SP; Ld T0 32 SP; Ld T1 40 SP; Ld T2 48 SP; Ld S0 56 SP;
  Ld S1 64 SP; Ld A0 72 SP; Ld A1 80 SP; Ld A2 88 SP; Ld A3 96 SP; Ld A4 104 SP; Ld A5 112 SP;
  Ld A6 120 SP; Ld A7 128 SP; Ld S2 136 SP; Ld S3 144 SP; Ld S4 152 SP; Ld S5 160 SP; Ld S6 168 SP;
  Ld S7 176 SP; Ld S8 184 SP; Ld S9 192 SP; Ld S10 200 SP; Ld S11 208 SP; Ld T3 216 SP;
  Ld T4 224 SP; Ld T5 232 SP; Ld T6 240 SP; Addi SP SP 256
].

(** [kerneltrap] is the compiled handler, called in between. *)
Definition kernelvec {S} (hw : S → mach) (set_hw : mach → S → S) (page home : Z) (kerneltrap : K S unit) : K S unit :=
  zoom hw set_hw (run_code page home kernelvec_enter_code) ;;;
  kerneltrap ;;;
  zoom hw set_hw (run_code page home kernelvec_leave_code ;;; modify sret).

Definition timervec_code : list instr := [
  Csrrw A0 MSCRATCH A0; Sd A1 0 A0; Sd A2 8 A0; Sd A3 16 A0; Ld A1 24 A0; Ld A2 32 A0; Ld A3 0 A1;
  Add A3 A3 A2; Sd A3 0 A1; Li A1 2; Csrw SIP A1; Ld A3 16 A0; Ld A2 8 A0; Ld A1 0 A0;
  Csrrw A0 MSCRATCH A0
].

Definition timervec (page home : Z) : K mach unit := run_code page home timervec_code ;;; modify mret.

(** ** entry.S *)

Definition _entry_code (stack0 : Z) : list instr := [
  Li SP stack0; Li A0 (1024*4); Csrr A1 MHARTID; Addi A1 A1 1; Mul A0 A0 A1; Add SP SP A0
].

(** _entry ends in the call of [start]. *)
Definition _entry (page home stack0 : Z) (start : K mach unit) : K mach unit :=
  run_code page home (_entry_code stack0) ;;; start.
