(* ===== verification/AsmSpec.v ===== *)
(** What the assembly routines do: registers saved and restored through a
    window of memory, the switch of contexts, the entry and exit of traps. *)

From S2P Require Import Prelude Mem CString Riscv Spinlock Kalloc Vm VmSpec Machine Asm.
Local Open Scope kernel_scope.

(** ** Windows

    [D] is the memory that may be written, which holds no page tables. *)

Definition at_space (m m' : mach) : Prop := csrf m' SATP = csrf m SATP ∧ priv m' = priv m.

(** The [n] bytes at the virtual address [va] are those at the physical
    address [pa], readable and writable. *)
Definition window (D : Z → Prop) (m : mach) (va pa n : Z) : Prop :=
  va mod 8 = 0 ∧ 0 <= va ∧ va + n <= 2 ^ 64 ∧
  ∀ o, 0 <= o < n → D (pa + o) ∧ ∀ r, agree_off D (ram m) r →
    xlate (set_ram r m) Load (va + o) = Some (pa + o) ∧ xlate (set_ram r m) Store (va + o) = Some (pa + o).

(** The code can be fetched. *)
Definition code_at (D : Z → Prop) (m : mach) (page home : Z) : Prop :=
  ∀ r, agree_off D (ram m) r → xlate (set_ram r m) Fetch page = Some home.

(** [m'] has the address space of [m]. *)
Definition within (D : Z → Prop) (m m' : mach) : Prop := at_space m m' ∧ agree_off D (ram m) (ram m').

Section Windows.
Context (D : Z → Prop).

Lemma within_refl m : within D m m.
Proof. by repeat split. Qed.
Lemma within_trans m1 m2 m3 : within D m1 m2 → within D m2 m3 → within D m1 m3.
Proof. intros [[? ?] ?] [[? ?] ?]. repeat split; [congruence|congruence|by eapply agree_off_trans]. Qed.

Lemma xlate_set_ram m m' r a va : at_space m m' → xlate (set_ram r m') a va = xlate (set_ram r m) a va.
Proof. intros [E1 E2]. unfold xlate. cbn [set_ram csrf priv ram]. by rewrite E1, E2. Qed.

Lemma window_within m m' va pa n : within D m m' → window D m va pa n → window D m' va pa n.
Proof.
  intros [Hs Ha] (H1 & H2 & H3 & H4). split_and!; [done|done|done|]. intros o Ho. destruct (H4 o Ho) as [HD H]. split; [done|]. intros r Hr.
  rewrite !(xlate_set_ram m m') by done. apply H. by eapply agree_off_trans.
Qed.
Lemma code_within m m' page home : within D m m' → code_at D m page home → code_at D m' page home.
Proof. intros [Hs Ha] H r Hr. rewrite (xlate_set_ram m m') by done. apply H. by eapply agree_off_trans. Qed.

Lemma set_ram_id m : set_ram (ram m) m = m.
Proof. by destruct m. Qed.

Lemma runs_fetch m page home (Q : unit → mach → Prop) : code_at D m page home → Q tt m → runs (fetch page home) m Q.
Proof.
  intros H HQ. unfold runs, fetch. specialize (H _ (agree_off_refl (ram m))). rewrite set_ram_id in H.
  by rewrite bool_decide_true.
Qed.

Lemma runs_store64 m va pa n o v (Q : unit → mach → Prop) :
  window D m va pa n → 0 <= o → o + 8 <= n → o mod 8 = 0 → Q tt (set_ram (wr64 (ram m) (pa + o) v) m) → runs (store64 (u64 (va + o)) v) m Q.
Proof.
  intros (H1 & H2 & H3 & H4) Ho Hn Hm HQ. rewrite u64_small by lia. unfold runs, store64.
  destruct (Z.eqb_spec ((va + o) mod 8) 0) as [_|E]; [|zdm].
  destruct (H4 o ltac:(lia)) as [_ E]. destruct (E _ (agree_off_refl (ram m))) as [_ E']. rewrite set_ram_id in E'. by rewrite E'.
Qed.

Lemma runs_load64 m va pa n o (Q : Z → mach → Prop) :
  window D m va pa n → 0 <= o → o + 8 <= n → o mod 8 = 0 → Q (rd64 (ram m) (pa + o)) m → runs (load64 (u64 (va + o))) m Q.
Proof.
  intros (H1 & H2 & H3 & H4) Ho Hn Hm HQ. rewrite u64_small by lia. unfold runs, load64.
  destruct (Z.eqb_spec ((va + o) mod 8) 0) as [_|E]; [|zdm].
  destruct (H4 o ltac:(lia)) as [_ E]. destruct (E _ (agree_off_refl (ram m))) as [E' _]. rewrite set_ram_id in E'. by rewrite E'.
Qed.

Lemma agree_off_wr64 m va pa n o v : window D m va pa n → 0 <= o → o + 8 <= n → agree_off D (ram m) (wr64 (ram m) (pa + o) v).
Proof.
  intros (_ & _ & _ & H) Ho Hn b Hb. apply wr64_agree_out. intros Hin. apply Hb.
  replace b with (pa + (b - pa)) by lia. apply H. lia.
Qed.

(** ** Saving and restoring lists of registers *)

Definition slots_ok (n : Z) (l : list (reg * Z)) : Prop := Forall (λ x, 0 <= x.2 ∧ x.2 + 8 <= n ∧ x.2 mod 8 = 0) l.

Definition saves (b : reg) (l : list (reg * Z)) : list instr := (λ x, Sd x.1 x.2 b) <$> l.
Definition restores (b : reg) (l : list (reg * Z)) : list instr := (λ x, Ld x.1 x.2 b) <$> l.

Definition saved (pa : Z) (l : list (reg * Z)) (m : mach) : mach :=
  set_ram (foldl (λ r x, wr64 r (pa + x.2) (xreg m x.1)) (ram m) l) m.

Lemma saved_cons pa x l m : saved pa (x :: l) m = saved pa l (set_ram (wr64 (ram m) (pa + x.2) (xreg m x.1)) m).
Proof. done. Qed.

Lemma run_code_app page home l l' m (Q : unit → mach → Prop) :
  runs (run_code page home l) m (λ _ m', runs (run_code page home l') m' Q) → runs (run_code page home (l ++ l')) m Q.
Proof.
  revert m. induction l as [|i l IH]; intros m H; cbn [run_code app] in *; [by apply runs_ret in H|].
  apply runs_bind_inv in H. apply runs_bind. eapply runs_mono; [exact H|]. intros [] m1 H1.
  apply runs_bind_inv in H1. apply runs_bind. eapply runs_mono; [exact H1|]. intros [] m2 H2. by apply IH.
Qed.

Lemma runs_saves page home b l va pa n m (Q : unit → mach → Prop) :
  code_at D m page home → window D m va pa n → xreg m b = va → slots_ok n l →
  Q tt (saved pa l m) → runs (run_code page home (saves b l)) m Q.
Proof.
  revert m. induction l as [|x l IH]; intros m Hc Hw Hb Hl HQ; cbn [saves fmap list_fmap run_code].
  { apply runs_ret. unfold saved in HQ. simpl in HQ. by rewrite set_ram_id in HQ. }
  apply Forall_cons_1 in Hl as [(H1 & H2 & H3) Hl]. apply runs_bind. eapply runs_fetch; [done|].
  cbn [exec]. apply runs_bind, runs_bind, runs_gets. apply runs_bind, runs_gets. rewrite Hb.
  eapply runs_store64; [done..|]. set (m1 := set_ram _ m).
  assert (W : within D m m1) by (split; [done|]; by eapply agree_off_wr64).
  apply IH; [by eapply code_within|by eapply window_within|done|done|]. exact HQ.
Qed.

Lemma saved_regs pa l m r : xreg (saved pa l m) r = xreg m r. Proof. done. Qed.
Lemma saved_within va pa l n m : window D m va pa n → slots_ok n l → within D m (saved pa l m).
Proof.
  revert m. induction l as [|x l IH]; intros m Hw Hl; [by repeat split|].
  apply Forall_cons_1 in Hl as [(H1 & H2 & H3) Hl]. rewrite saved_cons. set (m1 := set_ram _ m).
  assert (W : within D m m1) by (split; [done|]; by eapply agree_off_wr64).
  eapply within_trans; [exact W|]. apply IH; [by eapply window_within|done].
Qed.

(** A saved register is in its slot. *)
Lemma saved_other pa l m a :
  Forall (λ x, a + 8 <= pa + x.2 ∨ pa + x.2 + 8 <= a) l → rd64 (ram (saved pa l m)) a = rd64 (ram m) a.
Proof.
  revert m. induction l as [|x l IH]; intros m Hl; [done|]. apply Forall_cons_1 in Hl as [Hx Hl].
  rewrite saved_cons, IH by done. by apply rd64_wr64_ne.
Qed.

Lemma saved_slot pa l n m r o :
  slots_ok n l → NoDup l.*2 → (r, o) ∈ l → 0 <= xreg m r < 2 ^ 64 → rd64 (ram (saved pa l m)) (pa + o) = xreg m r.
Proof.
  clear D.
  revert m. induction l as [|[r' o'] l IH]; intros m Hl Hnd Hin Hr; [by apply elem_of_nil in Hin|].
  apply Forall_cons_1 in Hl as [(H1 & H2 & H3) Hl]. cbn [fmap list_fmap snd] in *. apply NoDup_cons in Hnd as [Hn Hnd]. rewrite saved_cons.
  apply elem_of_cons in Hin as [[= -> ->]|Hin]; [|by rewrite IH].
  rewrite saved_other; [cbn [ram set_ram fst snd]; rewrite rd64_wr64_same; by apply u64_small|].
  apply Forall_forall. intros [r2 o2] Hx. pose proof Hl as Hl2. rewrite Forall_forall in Hl2. destruct (Hl2 _ Hx) as (G1 & G2 & G3). cbn [fst snd] in *.
  assert (o2 ≠ o') by (intros ->; apply Hn; by apply list_elem_of_fmap_2' with (r2, o')). zdm.
Qed.

Definition restored (pa : Z) (l : list (reg * Z)) (m : mach) : mach :=
  foldl (λ m x, put_reg x.1 (rd64 (ram m) (pa + x.2)) m) m l.

Lemma runs_restores page home b l va pa n m (Q : unit → mach → Prop) :
  code_at D m page home → window D m va pa n → xreg m b = va → slots_ok n l →
  (∀ o, (b, o) ∈ l → rd64 (ram m) (pa + o) = va) →
  Q tt (restored pa l m) → runs (run_code page home (restores b l)) m Q.
Proof.
  revert m. induction l as [|[r o] l IH]; intros m Hc Hw Hb Hl Hbase HQ; cbn [restores fmap list_fmap run_code fst snd].
  { by apply runs_ret. }
  apply Forall_cons_1 in Hl as [(H1 & H2 & H3) Hl]. apply runs_bind. eapply runs_fetch; [done|].
  cbn [exec fst snd] in *. apply runs_bind, runs_bind, runs_gets. apply runs_bind. rewrite Hb.
  eapply runs_load64; [done..|]. apply runs_modify. set (m1 := put_reg _ _ m).
  assert (W : within D m m1) by (split; done).
  apply IH; [by eapply code_within|by eapply window_within| |done| |done].
  - unfold m1. rewrite xreg_put. case_decide as E; [|done]. subst r. rewrite Hbase by by left. apply u64_small. destruct Hw as (? & ? & ? & _). lia.
  - intros o2 Ho2. cbn [ram m1 put_reg]. apply Hbase. by right.
Qed.

Lemma restored_space pa l m : at_space m (restored pa l m) ∧ ram (restored pa l m) = ram m ∧ pcr (restored pa l m) = pcr m ∧ csrf (restored pa l m) = csrf m.
Proof.
  revert m. induction l as [|x l IH]; intros m; [done|]. cbn [restored foldl]. destruct (IH (put_reg x.1 (rd64 (ram m) (pa + x.2)) m)) as ([? ?] & ? & ? & ?). done.
Qed.

Lemma restored_other pa l m r : r ∉ l.*1 → xreg (restored pa l m) r = xreg m r.
Proof.
  revert m. induction l as [|x l IH]; intros m Hr; [done|]. cbn [fmap list_fmap] in Hr. apply not_elem_of_cons in Hr as [Hne Hr].
  cbn [restored foldl]. fold (restored pa l (put_reg x.1 (rd64 (ram m) (pa + x.2)) m)). rewrite IH by done. rewrite xreg_put. by rewrite decide_False.
Qed.

Lemma restored_slot pa l m r o : NoDup l.*1 → (r, o) ∈ l → xreg (restored pa l m) r = rd64 (ram m) (pa + o).
Proof.
  revert m. induction l as [|[r' o'] l IH]; intros m Hnd Hin; [by apply elem_of_nil in Hin|].
  cbn [fmap list_fmap fst snd] in *. apply NoDup_cons in Hnd as [Hn Hnd]. cbn [restored foldl fst snd].
  fold (restored pa l (put_reg r' (rd64 (ram m) (pa + o')) m)). apply elem_of_cons in Hin as [[= -> ->]|Hin]; [|by rewrite IH].
  rewrite restored_other by done. rewrite xreg_put, decide_True by done. apply u64_small, rd64_range.
Qed.
End Windows.

(** Without translation every address is a window on itself. *)
Definition anywhere (_ : Z) : Prop := True.
Definition untranslated (m : mach) : Prop := priv m = MM ∨ csrf m SATP = 0.
Lemma xlate_bare m a va r : untranslated m → xlate (set_ram r m) a va = Some va.
Proof.
  intros E. unfold xlate. cbn [set_ram csrf priv]. destruct E as [E|E]; rewrite E; [done|]. by rewrite orb_true_r.
Qed.
Lemma code_bare m page : untranslated m → code_at anywhere m page page.
Proof. intros E r _. by apply xlate_bare. Qed.
Lemma window_bare m a n : untranslated m → a mod 8 = 0 → 0 <= a → a + n <= 2 ^ 64 → window anywhere m a a n.
Proof. intros E H1 H2 H3. split_and!; [done|done|done|]. intros o Ho. split; [done|]. intros r _. by rewrite !xlate_bare. Qed.
Lemma code_machine m page : priv m = MM → code_at anywhere m page page.
Proof. intros E. apply code_bare. by left. Qed.
Lemma window_machine m a n : priv m = MM → a mod 8 = 0 → 0 <= a → a + n <= 2 ^ 64 → window anywhere m a a n.
Proof. intros E. apply window_bare. by left. Qed.

Lemma within_anywhere m m' : csrf m' SATP = csrf m SATP → priv m' = priv m → within anywhere m m'.
Proof. intros H1 H2. split; [done|]. intros b Hb. by destruct Hb. Qed.

Lemma saved_space pa l m : at_space m (saved pa l m) ∧ pcr (saved pa l m) = pcr m ∧ csrf (saved pa l m) = csrf m.
Proof. done. Qed.
Lemma saved_far pa l n m a : slots_ok n l → a + 8 <= pa ∨ pa + n <= a → rd64 (ram (saved pa l m)) a = rd64 (ram m) a.
Proof. intros Hl Ha. apply saved_other. eapply Forall_impl; [exact Hl|]. intros [r x] (? & ? & _). simpl in *. lia. Qed.
#[global] Opaque saved restored.

Lemma runs_jr r m (Q : unit → mach → Prop) : Q tt (set_pc (xreg m r) m) → runs (jr r) m Q.
Proof. intros HQ. unfold jr. by apply runs_bind, runs_gets, runs_modify. Qed.

(** Projections, by rewriting. *)
Lemma xreg_pc v m r : xreg (set_pc v m) r = xreg m r. Proof. done. Qed.
Lemma csrf_pc v m : csrf (set_pc v m) = csrf m. Proof. done. Qed.
Lemma ram_pc v m : ram (set_pc v m) = ram m. Proof. done. Qed.
Lemma pcr_pc v m : pcr (set_pc v m) = u64 v. Proof. done. Qed.

(** Registers hold 64 bits. *)
Definition regs_ok (m : mach) : Prop := ∀ r, 0 <= xreg m r < 2 ^ 64.

(** ** swtch *)

(** struct context: the registers that a called function must keep. *)
Definition context : list (reg * Z) :=
  [(RA, 0); (SP, 8); (S0, 16); (S1, 24); (S2, 32); (S3, 40); (S4, 48); (S5, 56); (S6, 64); (S7, 72); (S8, 80); (S9, 88); (S10, 96); (S11, 104)].
Definition sizeof_context : Z := 112.

Lemma context_ok : slots_ok sizeof_context context ∧ NoDup context.*1 ∧ NoDup context.*2.
Proof. split; [|split]; apply (bool_decide_unpack _); reflexivity. Qed.

Lemma context_a1 o : (A1, o) ∉ context.
Proof. rewrite list_elem_of_In. intros H. repeat (destruct H as [H|H]; [discriminate|]). done. Qed.
Lemma context_ra : (RA, 0) ∈ context.
Proof. left. Qed.

Lemma swtch_code_eq : swtch_code = saves A0 context ++ restores A1 context.
Proof. done. Qed.

(** The contexts [po] and [pn], at the addresses in a0 and a1. *)
Record switchable (D : Z → Prop) (page home : Z) (m : mach) (po pn : Z) : Prop := {
  sw_code : code_at D m page home;
  sw_old : window D m (xreg m A0) po sizeof_context;
  sw_new : window D m (xreg m A1) pn sizeof_context;
  sw_apart : po + sizeof_context <= pn ∨ pn + sizeof_context <= po
}.

Definition switched (po pn : Z) (m : mach) : mach := set_pc (rd64 (ram m) pn) (restored pn context (saved po context m)).

Lemma saved_apart po pn m o : po + sizeof_context <= pn ∨ pn + sizeof_context <= po → 0 <= o → o + 8 <= sizeof_context →
  rd64 (ram (saved po context m)) (pn + o) = rd64 (ram m) (pn + o).
Proof.
  intros Hap Ho Hn. apply (saved_far _ _ sizeof_context); [apply context_ok|lia].
Qed.

Lemma switched_pc po pn m :
  po + sizeof_context <= pn ∨ pn + sizeof_context <= po → xreg (restored pn context (saved po context m)) RA = rd64 (ram m) pn.
Proof.
  intros Hap. destruct context_ok as (_ & Hd1 & _). rewrite (restored_slot pn context _ RA 0 Hd1 context_ra), saved_apart by done.
  by rewrite Z.add_0_r.
Qed.

Lemma runs_swtch D page home m po pn (Q : unit → mach → Prop) :
  switchable D page home m po pn → Q tt (switched po pn m) → runs (swtch page home) m Q.
Proof.
  intros [Hc Ho Hn Hap] HQ. destruct context_ok as (Hs & Hd1 & Hd2). unfold swtch. apply runs_bind. rewrite swtch_code_eq. apply run_code_app.
  eapply (runs_saves D); [done|exact Ho|done|done|]. pose proof (saved_within D _ po context _ m Ho Hs) as W.
  eapply (runs_restores D); [by eapply code_within|by eapply window_within|apply saved_regs|done| |].
  - intros o Hin. by apply context_a1 in Hin.
  - apply runs_jr. rewrite switched_pc by done. exact HQ.
Qed.

Lemma switched_reg po pn m r o :
  po + sizeof_context <= pn ∨ pn + sizeof_context <= po → (r, o) ∈ context → xreg (switched po pn m) r = rd64 (ram m) (pn + o).
Proof.
  intros Hap Hin. destruct context_ok as (Hs & Hd1 & _). unfold switched. rewrite xreg_pc, (restored_slot pn context _ r o Hd1 Hin).
  unfold slots_ok in Hs. rewrite Forall_forall in Hs. destruct (Hs _ Hin) as (? & ? & _). by apply saved_apart.
Qed.

Lemma switched_ram po pn m : ram (switched po pn m) = ram (saved po context m).
Proof. unfold switched. rewrite ram_pc. by destruct (restored_space pn context (saved po context m)) as (_ & -> & _). Qed.

(** [C16] swtch saves the registers that a called function must keep in the old
    context and takes them from the new one.  When any later swtch, on
    whatever hart and stack, names the saved context as the new one, it
    returns to the place from which the first was called, with the registers
    and the stack pointer of that call. *)
Theorem swtch_resumes D page home m po pn :
  regs_ok m → switchable D page home m po pn →
  runs (swtch page home) m (λ _ m1,
    pcr m1 = rd64 (ram m) pn ∧ (∀ r o, (r, o) ∈ context → xreg m1 r = rd64 (ram m) (pn + o)) ∧
    (∀ r, r ∉ context.*1 → xreg m1 r = xreg m r) ∧
    ∀ D2 page2 home2 m2 po2, switchable D2 page2 home2 m2 po2 po →
      (∀ o, 0 <= o < sizeof_context → rd8 (ram m2) (po + o) = rd8 (ram m1) (po + o)) →
      runs (swtch page2 home2) m2 (λ _ m3, pcr m3 = xreg m RA ∧ ∀ r o, (r, o) ∈ context → xreg m3 r = xreg m r)).
Proof.
  intros Hr Hsw. destruct context_ok as (Hs & Hd1 & Hd2). assert (Hall : ∀ r o, (r, o) ∈ context → 0 <= o ∧ o + 8 <= sizeof_context).
  { intros r o Hin. unfold slots_ok in Hs. rewrite Forall_forall in Hs. destruct (Hs _ Hin) as (? & ? & _). done. }
  eapply runs_swtch; [done|]. pose proof (sw_apart _ _ _ _ _ _ Hsw) as Hap. split_and!.
  - unfold switched. rewrite pcr_pc. apply u64_small, rd64_range.
  - intros r o Hin. by apply switched_reg.
  - intros r Hin. unfold switched. rewrite xreg_pc. by rewrite restored_other.
  - intros D2 page2 home2 m2 po2 Hsw2 Hkeep. pose proof (sw_apart _ _ _ _ _ _ Hsw2) as Hap2.
    assert (E : ∀ r o, (r, o) ∈ context → rd64 (ram m2) (po + o) = xreg m r).
    { intros r o Hin. destruct (Hall _ _ Hin). rewrite (rd64_ext (ram (switched po pn m))).
      - rewrite switched_ram. by apply (saved_slot po context sizeof_context).
      - intros b Hb. replace b with (po + (b - po)) by lia. apply Hkeep. lia. }
    eapply runs_swtch; [done|]. split.
    + unfold switched. rewrite pcr_pc, <-(Z.add_0_r po), (E RA 0 context_ra). by apply u64_small.
    + intros r o Hin. rewrite (switched_reg po2 po m2 r o) by done. by apply E.
Qed.

(** A hart in mode [x] whose registers are [l] and otherwise zero, with an empty memory. *)
Definition fresh_mach (x : mode) (l : list (reg * Z)) : mach := foldr (λ e, put_reg e.1 e.2) (mkMach (λ _, 0) (λ _, 0) x 0 ∅) l.
Lemma fresh_priv x l : priv (fresh_mach x l) = x. Proof. by induction l. Qed.
Lemma fresh_csr x l c : csrf (fresh_mach x l) c = 0. Proof. by induction l. Qed.
Lemma fresh_pc x l : pcr (fresh_mach x l) = 0. Proof. by induction l. Qed.
Lemma fresh_ram x l : ram (fresh_mach x l) = ∅. Proof. by induction l. Qed.
Lemma fresh_regs x l : regs_ok (fresh_mach x l).
Proof.
  intros r. induction l as [|[q v] l IH]; [done|]. cbn [fresh_mach foldr fst snd]. rewrite xreg_put. case_decide; [apply u64_range|exact IH].
Qed.

Lemma swtch_resumes_witness :
  let m := fresh_mach MM [(A0, 4096); (A1, 8192); (RA, 24); (SP, 160)] in
  runs (swtch 0 0) m (λ _ m1, pcr m1 = rd64 (ram m) 8192).
Proof.
  intros m. eapply runs_mono; [apply (swtch_resumes anywhere 0 0 m 4096 8192)|].
  - apply fresh_regs.
  - split; [by apply code_machine|by apply window_machine|by apply window_machine|by left].
  - intros [] m1 H. exact (proj1 H).
Defined.

(** ** uservec and userret *)

(** struct trapframe: where uservec saves each register. *)
Definition tf_off (r : reg) : Z :=
  match r with
  | RA => 40 | SP => 48 | GP => 56 | TP => 64 | T0 => 72 | T1 => 80 | T2 => 88 | S0 => 96 | S1 => 104 | A0 => 112 | A1 => 120
  | A2 => 128 | A3 => 136 | A4 => 144 | A5 => 152 | A6 => 160 | A7 => 168 | S2 => 176 | S3 => 184 | S4 => 192 | S5 => 200
  | S6 => 208 | S7 => 216 | S8 => 224 | S9 => 232 | S10 => 240 | S11 => 248 | T3 => 256 | T4 => 264 | T5 => 272 | T6 => 280
  end.
Definition tf_size : Z := 288.

(** All of them but a0. *)
Definition frame_regs : list reg :=
  [RA; SP; GP; TP; T0; T1; T2; S0; S1; A1; A2; A3; A4; A5; A6; A7; S2; S3; S4; S5; S6; S7; S8; S9; S10; S11; T3; T4; T5; T6].
Definition frame : list (reg * Z) := (λ r, (r, tf_off r)) <$> frame_regs.

(** The fields that uservec reads: kernel_sp, kernel_hartid, kernel_trap, kernel_satp. *)
Definition kernel_fields : list (reg * Z) := [(SP, 8); (TP, 32); (T0, 16); (T1, 0)].

Lemma frame_ok : slots_ok tf_size frame ∧ NoDup frame.*1 ∧ NoDup frame.*2 ∧ slots_ok tf_size kernel_fields ∧ NoDup kernel_fields.*1.
Proof. split_and!; apply (bool_decide_unpack _); vm_compute; exact I. Qed.

Lemma frame_regs_all r : r = A0 ∨ r ∈ frame_regs.
Proof.
  destruct (decide (r = A0)) as [->|Hn]; [by left|right]. apply (bool_decide_unpack _). destruct r; try done; vm_compute; exact I.
Qed.

Lemma frame_in r : r ≠ A0 → (r, tf_off r) ∈ frame.
Proof. intros Hn. destruct (frame_regs_all r) as [|H]; [done|]. unfold frame. by apply (list_elem_of_fmap_2 (λ r, (r, tf_off r))). Qed.

Lemma frame_a0 o : (A0, o) ∉ frame.
Proof.
  intros (r & [= <- _] & Hr)%list_elem_of_fmap. revert Hr. apply (bool_decide_unpack (A0 ∉ frame_regs)). vm_compute. exact I.
Qed.

Lemma uservec_code_eq :
  uservec_code = [Csrw SSCRATCH A0; Li A0 TRAPFRAME] ++ saves A0 frame ++ [Csrr T0 SSCRATCH] ++ saves A0 [(T0, 112)] ++
    restores A0 kernel_fields ++ [Sfence_vma; Csrw SATP T1; Sfence_vma].
Proof. done. Qed.

Lemma userret_code_eq :
  userret_code = [Sfence_vma; Csrw SATP A0; Sfence_vma; Li A0 TRAPFRAME] ++ restores A0 frame ++ [Ld A0 112 A0].
Proof. done. Qed.

(** One instruction that is not a load or a store. *)
Lemma runs_instr D page home i l m m' (Q : unit → mach → Prop) :
  code_at D m page home → exec i m = Ok tt m' → runs (run_code page home l) m' Q → runs (run_code page home (i :: l)) m Q.
Proof.
  intros Hc He HQ. cbn [run_code]. apply runs_bind. eapply runs_fetch; [done|]. apply runs_bind. unfold runs at 1. by rewrite He.
Qed.

Lemma runs_code_nil page home m (Q : unit → mach → Prop) : Q tt m → runs (run_code page home []) m Q.
Proof. intros HQ. by apply runs_ret. Qed.

(** The trampoline page is mapped before and after satp becomes [satp]. *)
Record tramp_ok (D : Z → Prop) (page home : Z) (m : mach) (satp : Z) : Prop := {
  tr_before : code_at D m page home;
  tr_after : code_at D (put_csr SATP satp m) page home
}.

Lemma xreg_csr c v m r : xreg (put_csr c v m) r = xreg m r. Proof. done. Qed.
Lemma csrf_reg r v m : csrf (put_reg r v m) = csrf m. Proof. done. Qed.
Lemma ram_reg r v m : ram (put_reg r v m) = ram m. Proof. done. Qed.
Lemma ram_csr c v m : ram (put_csr c v m) = ram m. Proof. done. Qed.
Lemma ram_ram r m : ram (set_ram r m) = r. Proof. done. Qed.
Lemma csrf_put c v m x : csrf (put_csr c v m) x = if decide (x = c) then u64 v else csrf m x. Proof. done. Qed.
Lemma priv_reg r v m : priv (put_reg r v m) = priv m. Proof. done. Qed.
Lemma priv_csr c v m : priv (put_csr c v m) = priv m. Proof. done. Qed.
Lemma priv_pc v m : priv (set_pc v m) = priv m. Proof. done. Qed.
Lemma exec_csrw c r m : c ≠ SSTATUS → exec (Csrw c r) m = Ok tt (put_csr c (xreg m r) m). Proof. by destruct c. Qed.
Lemma exec_csrr c r m : c ≠ SSTATUS → exec (Csrr r c) m = Ok tt (put_reg r (csrf m c) m). Proof. by destruct c. Qed.
Lemma exec_li r v m : exec (Li r v) m = Ok tt (put_reg r v m). Proof. done. Qed.
Lemma exec_sfence m : exec Sfence_vma m = Ok tt m. Proof. done. Qed.
Lemma exec_addi r r' v m : exec (Addi r r' v) m = Ok tt (put_reg r (xreg m r' + v) m). Proof. done. Qed.
Lemma exec_add r r1 r2 m : exec (Add r r1 r2) m = Ok tt (put_reg r (xreg m r1 + xreg m r2) m). Proof. done. Qed.
Lemma exec_mul r r1 r2 m : exec (Mul r r1 r2) m = Ok tt (put_reg r (xreg m r1 * xreg m r2) m). Proof. done. Qed.
Lemma exec_csrrw c r r' m : c ≠ SSTATUS → exec (Csrrw r c r') m = Ok tt (put_reg r (csrf m c) (put_csr c (xreg m r') m)). Proof. by destruct c. Qed.

Lemma within_reg D r v m : within D m (put_reg r v m). Proof. by repeat split. Qed.
Lemma within_csr D c v m : c ≠ SATP → within D m (put_csr c v m).
Proof. intros Hc. repeat split. rewrite csrf_put. by rewrite decide_False. Qed.
Lemma within_satp D v m m' : within D m m' → within D (put_csr SATP v m) (put_csr SATP v m').
Proof. intros [[? ?] ?]. by repeat split. Qed.
Lemma saved_csrf pa l m : csrf (saved pa l m) = csrf m. Proof. apply saved_space. Qed.
Lemma saved_priv pa l m : priv (saved pa l m) = priv m. Proof. apply saved_space. Qed.
Lemma restored_csrf pa l m : csrf (restored pa l m) = csrf m. Proof. apply restored_space. Qed.
Lemma restored_priv pa l m : priv (restored pa l m) = priv m. Proof. apply restored_space. Qed.
Lemma restored_ram pa l m : ram (restored pa l m) = ram m. Proof. apply restored_space. Qed.
Lemma within_restored D pa l m : within D m (restored pa l m).
Proof. split; [apply restored_space|]. rewrite restored_ram. apply agree_off_refl. Qed.

(** What uservec leaves behind, started in [m]. *)
Record entered (tf : Z) (m m' : mach) : Prop := {
  en_saved r : rd64 (ram m') (tf + tf_off r) = xreg m r;
  en_low o : 0 <= o → o + 8 <= 40 → rd64 (ram m') (tf + o) = rd64 (ram m) (tf + o);
  en_out : agree_out (ram m) (ram m') tf tf_size;
  en_sp : xreg m' SP = rd64 (ram m) (tf + 8);
  en_tp : xreg m' TP = rd64 (ram m) (tf + 32);
  en_pc : pcr m' = rd64 (ram m) (tf + 16);
  en_satp : csrf m' SATP = rd64 (ram m) tf;
  en_csr c : c ≠ SATP → c ≠ SSCRATCH → csrf m' c = csrf m c;
  en_priv : priv m' = priv m
}.

Lemma saved_low tf l m o :
  Forall (λ x, 40 <= x.2) l → o + 8 <= 40 → rd64 (ram (saved tf l m)) (tf + o) = rd64 (ram m) (tf + o).
Proof. intros Hl Ho. apply saved_other. eapply Forall_impl; [exact Hl|]. intros [r x] Hx. simpl in *. lia. Qed.

Lemma saved_agree_out D tf va l n m b : window D m va tf n → slots_ok n l → ¬ (tf <= b < tf + n) → rd8 (ram (saved tf l m)) b = rd8 (ram m) b.
Proof.
  intros Hw. revert m Hw. induction l as [|x l IH]; intros m Hw Hl Hb; [done|]. apply Forall_cons_1 in Hl as [(H1 & H2 & H3) Hl].
  rewrite saved_cons. assert (W : within D m (set_ram (wr64 (ram m) (tf + x.2) (xreg m x.1)) m)) by (split; [done|]; by eapply agree_off_wr64).
  rewrite IH; [|by eapply window_within|done|done]. apply wr64_agree_out. lia.
Qed.

Lemma frame_high : Forall (λ x, 40 <= x.2) frame.
Proof. apply (bool_decide_unpack _). vm_compute. exact I. Qed.

(** The states that uservec goes through. *)
Definition uservec_saved (tf : Z) (m : mach) : mach := saved tf frame (put_reg A0 TRAPFRAME (put_csr SSCRATCH (xreg m A0) m)).
Definition uservec_a0 (tf : Z) (m : mach) : mach :=
  let m1 := uservec_saved tf m in saved tf [(T0, 112)] (put_reg T0 (csrf m1 SSCRATCH) m1).

Section Uservec.
Context (D : Z → Prop) (page home tf : Z) (m : mach).
Hypothesis (Hr : regs_ok m) (Ht : tramp_ok D page home m (rd64 (ram m) tf)) (Hw : window D m TRAPFRAME tf tf_size).

Definition uservec_start : mach := put_reg A0 TRAPFRAME (put_csr SSCRATCH (xreg m A0) m).

Lemma start_within : within D m uservec_start. Proof. by repeat split. Qed.

Lemma start_a0 : xreg uservec_start A0 = TRAPFRAME. Proof. done. Qed.

Lemma start_reg r : r ≠ A0 → xreg uservec_start r = xreg m r.
Proof. intros Hn. unfold uservec_start. rewrite xreg_put, xreg_csr. by rewrite decide_False. Qed.

Lemma saved1_within : within D m (uservec_saved tf m).
Proof using Hw. eapply within_trans; [apply start_within|]. eapply saved_within; [eapply window_within; [apply start_within|exact Hw]|apply frame_ok]. Qed.

Lemma saved1_a0 : xreg (uservec_saved tf m) A0 = TRAPFRAME.
Proof. unfold uservec_saved. rewrite saved_regs. apply start_a0. Qed.

Lemma saved1_scratch : csrf (uservec_saved tf m) SSCRATCH = xreg m A0.
Proof using Hr. unfold uservec_saved. rewrite saved_csrf, csrf_reg, csrf_put, decide_True by done. by apply u64_small. Qed.

Lemma t0_slot : slots_ok tf_size [(T0, 112)]. Proof. by repeat constructor. Qed.

Lemma saved2_within : within D m (uservec_a0 tf m).
Proof using Hw.
  eapply within_trans; [apply saved1_within|]. set (m2 := put_reg T0 (csrf (uservec_saved tf m) SSCRATCH) (uservec_saved tf m)).
  assert (W : within D (uservec_saved tf m) m2) by (repeat split). eapply within_trans; [exact W|].
  eapply saved_within; [|apply t0_slot]. eapply window_within; [|exact Hw]. eapply within_trans; [apply saved1_within|exact W].
Qed.

Lemma saved2_slot r : rd64 (ram (uservec_a0 tf m)) (tf + tf_off r) = xreg m r.
Proof using Hr.
  destruct frame_ok as (Hs & _ & Hd & _). unfold uservec_a0. cbv zeta. destruct (decide (r = A0)) as [->|Hn].
  - rewrite (saved_slot tf _ tf_size _ T0 112); [|apply t0_slot|by apply NoDup_singleton|by left|].
    + rewrite xreg_put, decide_True by done. rewrite saved1_scratch. by apply u64_small.
    + rewrite xreg_put, decide_True by done. apply u64_range.
  - rewrite saved_other.
    + rewrite ram_reg. unfold uservec_saved. rewrite (saved_slot tf frame tf_size _ r (tf_off r)); [by apply start_reg|done|done|by apply frame_in|].
      fold uservec_start. by rewrite start_reg.
    + apply Forall_singleton. cbn [snd]. destruct r; cbn [tf_off]; (done || lia).
Qed.

Lemma saved2_low o : o + 8 <= 40 → rd64 (ram (uservec_a0 tf m)) (tf + o) = rd64 (ram m) (tf + o).
Proof.
  intros Ho. unfold uservec_a0. cbv zeta. rewrite saved_low; [|by repeat constructor|done]. rewrite ram_reg. unfold uservec_saved.
  rewrite saved_low; [by rewrite ram_reg, ram_csr|apply frame_high|done].
Qed.

Lemma saved2_out : agree_out (ram m) (ram (uservec_a0 tf m)) tf tf_size.
Proof using Hw.
  intros b Hb. unfold uservec_a0. cbv zeta. rewrite (saved_agree_out D tf TRAPFRAME _ tf_size); [|eapply window_within; [|exact Hw]|apply t0_slot|done].
  - rewrite ram_reg. unfold uservec_saved. rewrite (saved_agree_out D tf TRAPFRAME _ tf_size); [done| |apply frame_ok|done].
    eapply window_within; [apply start_within|exact Hw].
  - eapply within_trans; [apply saved1_within|]. repeat split.
Qed.

Definition uservec_end : mach := restored tf kernel_fields (uservec_a0 tf m).

Lemma end_t r o : (r, o) ∈ kernel_fields → xreg uservec_end r = rd64 (ram m) (tf + o).
Proof.
  intros Hin. destruct frame_ok as (_ & _ & _ & Hs & Hd). unfold uservec_end. rewrite (restored_slot tf kernel_fields _ r o Hd Hin).
  apply saved2_low. assert (Hlow : Forall (λ x : reg * Z, x.2 + 8 <= 40) kernel_fields) by by repeat constructor.
  rewrite Forall_forall in Hlow. by apply (Hlow _ Hin).
Qed.

Lemma end_entered : entered tf m (set_pc (xreg uservec_end T0) (put_csr SATP (xreg uservec_end T1) uservec_end)).
Proof using Hr Hw.
  assert (Eram : ram (set_pc (xreg uservec_end T0) (put_csr SATP (xreg uservec_end T1) uservec_end)) = ram (uservec_a0 tf m)).
  { rewrite ram_pc, ram_csr. apply restored_ram. }
  split; rewrite ?Eram.
  - apply saved2_slot.
  - intros o _. apply saved2_low.
  - apply saved2_out.
  - rewrite xreg_pc, xreg_csr. apply end_t. by left.
  - rewrite xreg_pc, xreg_csr. apply end_t. by right; left.
  - rewrite pcr_pc, (end_t T0 16) by by do 2 right; left. apply u64_small, rd64_range.
  - rewrite csrf_pc, csrf_put, decide_True by done. rewrite (end_t T1 0) by by do 3 right; left. rewrite Z.add_0_r. apply u64_small, rd64_range.
  - intros c Hc1 Hc2. rewrite csrf_pc, csrf_put, decide_False by done. unfold uservec_end, uservec_a0. cbv zeta.
    rewrite restored_csrf, saved_csrf, csrf_reg. unfold uservec_saved. rewrite saved_csrf, csrf_reg, csrf_put. by rewrite decide_False.
  - rewrite priv_pc, priv_csr. unfold uservec_end, uservec_a0. cbv zeta. rewrite restored_priv, saved_priv, priv_reg.
    unfold uservec_saved. by rewrite saved_priv, priv_reg, priv_csr.
Qed.

Lemma runs_uservec (Q : unit → mach → Prop) : (∀ m', entered tf m m' → Q tt m') → runs (uservec page home) m Q.
Proof using All.
  intros HQ. destruct frame_ok as (Hs & _ & _ & Hs2 & Hd2). destruct Ht as [Hc Hc2]. unfold uservec. apply runs_bind. rewrite uservec_code_eq. apply run_code_app.
  eapply runs_instr; [exact Hc|by apply exec_csrw|]. eapply (runs_instr D); [eapply code_within; [by apply within_csr|exact Hc]|apply exec_li|].
  apply runs_code_nil. fold uservec_start. pose proof start_within as W0.
  apply run_code_app. eapply (runs_saves D); [eapply code_within; [exact W0|exact Hc]|eapply window_within; [exact W0|exact Hw]|apply start_a0|exact Hs|].
  change (saved tf frame uservec_start) with (uservec_saved tf m). pose proof saved1_within as W1.
  apply run_code_app. eapply (runs_instr D); [eapply code_within; [exact W1|exact Hc]|by apply exec_csrr|]. apply runs_code_nil.
  set (m2 := put_reg T0 _ _). assert (W2 : within D m m2) by (eapply within_trans; [exact W1|apply within_reg]).
  apply run_code_app. eapply (runs_saves D); [eapply code_within; [exact W2|exact Hc]|eapply window_within; [exact W2|exact Hw]| |apply t0_slot|].
  { unfold m2. rewrite xreg_put, decide_False by done. apply saved1_a0. }
  change (saved tf [(T0, 112)] m2) with (uservec_a0 tf m). pose proof saved2_within as W3.
  apply run_code_app. eapply (runs_restores D); [eapply code_within; [exact W3|exact Hc]|eapply window_within; [exact W3|exact Hw]| |exact Hs2| |].
  { unfold uservec_a0. cbv zeta. rewrite saved_regs, xreg_put, decide_False by done. apply saved1_a0. }
  { intros o Ho. exfalso. apply list_elem_of_In in Ho. repeat (destruct Ho as [Ho|Ho]; [discriminate|]). done. }
  fold uservec_end. assert (W4 : within D m uservec_end) by (eapply within_trans; [exact W3|apply within_restored]).
  eapply (runs_instr D); [eapply code_within; [exact W4|exact Hc]|apply exec_sfence|].
  eapply (runs_instr D); [eapply code_within; [exact W4|exact Hc]|by apply exec_csrw|].
  eapply (runs_instr D); [|apply exec_sfence|].
  - eapply code_within; [|exact Hc2]. rewrite (end_t T1 0) by by do 3 right; left. rewrite Z.add_0_r. by apply within_satp.
  - apply runs_code_nil, runs_jr. apply HQ. rewrite xreg_csr. exact end_entered.
Qed.
End Uservec.

Lemma sret_xreg m r : xreg (sret m) r = xreg m r. Proof. done. Qed.
Lemma sret_ram m : ram (sret m) = ram m. Proof. done. Qed.
Lemma sret_pc m : pcr (sret m) = u64 (csrf m SEPC). Proof. done. Qed.
Lemma sret_priv m : priv (sret m) = if MSTATUS_bit 8 m then SM else UM. Proof. done. Qed.
Lemma sret_csr m c : c ≠ MSTATUS → csrf (sret m) c = csrf m c.
Proof. intros Hc. unfold sret. rewrite csrf_pc. cbn [csrf set_priv put_csr]. by rewrite decide_False. Qed.
Lemma sret_status m :
  csrf (sret m) MSTATUS = u64 (put_bit 8 false (put_bit 5 true (put_bit 1 (MSTATUS_bit 5 m) (csrf m MSTATUS)))).
Proof. done. Qed.

(** What userret leaves behind: the registers are those of the trapframe. *)
Record left_kernel (tf : Z) (m m' : mach) : Prop := {
  lv_reg r : xreg m' r = rd64 (ram m) (tf + tf_off r);
  lv_ram : ram m' = ram m;
  lv_pc : pcr m' = u64 (csrf m SEPC);
  lv_satp : csrf m' SATP = u64 (xreg m A0);
  lv_status : csrf m' MSTATUS = u64 (put_bit 8 false (put_bit 5 true (put_bit 1 (MSTATUS_bit 5 m) (csrf m MSTATUS))));
  lv_csr c : c ≠ SATP → c ≠ MSTATUS → csrf m' c = csrf m c;
  lv_priv : priv m' = if MSTATUS_bit 8 m then SM else UM
}.

Lemma runs_userret D page home tf m (Q : unit → mach → Prop) :
  tramp_ok D page home m (xreg m A0) → window D (put_csr SATP (xreg m A0) m) TRAPFRAME tf tf_size →
  (∀ m', left_kernel tf m m' → Q tt m') → runs (userret page home) m Q.
Proof.
  intros [Hc Hc2] Hw HQ. destruct frame_ok as (Hs & Hd & _). unfold userret. apply runs_bind. rewrite userret_code_eq. apply run_code_app.
  set (m1 := put_csr SATP (xreg m A0) m) in *. eapply (runs_instr D); [exact Hc|apply exec_sfence|].
  eapply (runs_instr D); [exact Hc|by apply exec_csrw|]. fold m1. eapply (runs_instr D); [exact Hc2|apply exec_sfence|].
  eapply (runs_instr D); [exact Hc2|apply exec_li|]. apply runs_code_nil. set (m2 := put_reg A0 TRAPFRAME m1).
  assert (W2 : within D m1 m2) by apply within_reg. assert (Ea : xreg m2 A0 = TRAPFRAME) by done. apply run_code_app.
  eapply (runs_restores D); [by eapply code_within|by eapply window_within|exact Ea|exact Hs|intros o Ho; by apply frame_a0 in Ho|].
  set (m3 := restored tf frame m2). assert (W3 : within D m1 m3) by (eapply within_trans; [exact W2|apply within_restored]).
  assert (Hn : A0 ∉ frame.*1) by (apply (bool_decide_unpack _); vm_compute; exact I).
  assert (Ea3 : xreg m3 A0 = TRAPFRAME) by (unfold m3; by rewrite restored_other).
  cbn [run_code]. apply runs_bind. eapply (runs_fetch D); [by eapply code_within|]. cbn [exec]. apply runs_bind, runs_bind, runs_gets. rewrite Ea3.
  apply runs_bind. eapply (runs_load64 D m3 TRAPFRAME tf tf_size 112); [by eapply window_within|done|done|done|]. apply runs_modify, runs_ret, runs_modify.
  assert (Er : ram m3 = ram m) by (unfold m3; by rewrite restored_ram).
  assert (Ec : csrf m3 = csrf m1) by (unfold m3; by rewrite restored_csrf).
  apply HQ. split.
  - intros r. rewrite sret_xreg, xreg_put, Er. case_decide as E; [subst r; apply u64_small, rd64_range|].
    unfold m3. rewrite (restored_slot tf frame m2 r (tf_off r) Hd) by by apply frame_in. done.
  - by rewrite sret_ram, ram_reg.
  - rewrite sret_pc, csrf_reg, Ec. unfold m1. by rewrite csrf_put.
  - rewrite sret_csr, csrf_reg, Ec by done. unfold m1. by rewrite csrf_put.
  - rewrite sret_status. unfold MSTATUS_bit. rewrite csrf_reg, Ec. unfold m1. by rewrite csrf_put.
  - intros c H1 H2. rewrite sret_csr, csrf_reg, Ec by done. unfold m1. rewrite csrf_put. by rewrite decide_False.
  - rewrite sret_priv. unfold MSTATUS_bit. rewrite csrf_reg, Ec. unfold m1. by rewrite csrf_put.
Qed.
