(* ===== verification/KernelVec.v ===== *)
(** kernelvec.S: an interrupt in the kernel and the timer interrupt of machine
    mode. *)

From S2P Require Import Prelude Mem CString Riscv Spinlock Kalloc Vm VmSpec Machine Asm AsmSpec.
Local Open Scope kernel_scope.

(** ** Bits of mstatus *)

Lemma testbit_put_bit i b x j : 0 <= i → 0 <= j → Z.testbit (put_bit i b x) j = if decide (j = i) then b else Z.testbit x j.
Proof.
  intros Hi Hj. unfold put_bit. destruct b.
  - rewrite Z.setbit_eqb by done. case_decide as E; [subst; by rewrite Z.eqb_refl|]. destruct (Z.eqb_spec i j); [done|]. done.
  - rewrite Z.clearbit_eqb. case_decide as E; [subst; rewrite Z.eqb_refl; apply andb_false_r|]. destruct (Z.eqb_spec i j); [done|]. apply andb_true_r.
Qed.

Lemma testbit_u64 x j : 0 <= j < 64 → Z.testbit (u64 x) j = Z.testbit x j.
Proof. intros Hj. unfold u64. by rewrite Z.mod_pow2_bits_low by lia. Qed.

Lemma enter_xreg c v m r : xreg (enter_trap c v m) r = xreg m r. Proof. done. Qed.
Lemma enter_ram c v m : ram (enter_trap c v m) = ram m. Proof. done. Qed.
Lemma enter_priv c v m : priv (enter_trap c v m) = SM. Proof. done. Qed.
Lemma enter_pc c v m : pcr (enter_trap c v m) = u64 (csrf m STVEC). Proof. done. Qed.
Lemma enter_sepc c v m : csrf (enter_trap c v m) SEPC = u64 (pcr m). Proof. done. Qed.
Lemma enter_satp c v m : csrf (enter_trap c v m) SATP = csrf m SATP. Proof. done. Qed.
Lemma enter_cause c v m : csrf (enter_trap c v m) SCAUSE = u64 c. Proof. done. Qed.
Lemma enter_status c v m j : 0 <= j < 64 →
  MSTATUS_bit j (enter_trap c v m) =
    if decide (j = 8) then bool_decide (priv m = SM) else if decide (j = 5) then MSTATUS_bit 1 m else if decide (j = 1) then false else MSTATUS_bit j m.
Proof.
  intros Hj. unfold MSTATUS_bit at 1. change (csrf (enter_trap c v m) MSTATUS) with
    (u64 (put_bit 8 (bool_decide (priv m = SM)) (put_bit 5 (MSTATUS_bit 1 m) (put_bit 1 false (csrf m MSTATUS))))).
  rewrite testbit_u64 by done. rewrite !testbit_put_bit by lia. done.
Qed.
Lemma enter_csr c v m x : x ∉ [MSTATUS; SEPC; SCAUSE; STVAL] → csrf (enter_trap c v m) x = csrf m x.
Proof.
  intros Hx. unfold enter_trap. rewrite csrf_pc. cbn [csrf set_priv]. rewrite !csrf_put.
  rewrite !decide_False; [done|..]; intros ->; apply Hx; set_solver.
Qed.

Lemma sret_bit m j : 0 <= j < 64 →
  MSTATUS_bit j (sret m) = if decide (j = 8) then false else if decide (j = 5) then true else if decide (j = 1) then MSTATUS_bit 5 m else MSTATUS_bit j m.
Proof. intros Hj. unfold MSTATUS_bit at 1. rewrite sret_status, testbit_u64 by done. rewrite !testbit_put_bit by lia. done. Qed.

(** ** kernelvec *)

(** Where kernelvec saves each register, below the stack pointer. *)
Definition kvec_off (r : reg) : Z :=
  match r with
  | RA => 0 | SP => 8 | GP => 16 | TP => 24 | T0 => 32 | T1 => 40 | T2 => 48 | S0 => 56 | S1 => 64 | A0 => 72 | A1 => 80
  | A2 => 88 | A3 => 96 | A4 => 104 | A5 => 112 | A6 => 120 | A7 => 128 | S2 => 136 | S3 => 144 | S4 => 152 | S5 => 160
  | S6 => 168 | S7 => 176 | S8 => 184 | S9 => 192 | S10 => 200 | S11 => 208 | T3 => 216 | T4 => 224 | T5 => 232 | T6 => 240
  end.
Definition kvec_regs : list reg :=
  [RA; SP; GP; TP; T0; T1; T2; S0; S1; A0; A1; A2; A3; A4; A5; A6; A7; S2; S3; S4; S5; S6; S7; S8; S9; S10; S11; T3; T4; T5; T6].
(** tp is not restored: the thread may have moved to another hart. *)
Definition kvec_back : list reg :=
  [RA; SP; GP; T0; T1; T2; S0; S1; A0; A1; A2; A3; A4; A5; A6; A7; S2; S3; S4; S5; S6; S7; S8; S9; S10; S11; T3; T4; T5; T6].
Definition kslots (l : list reg) : list (reg * Z) := (λ r, (r, kvec_off r)) <$> l.

Lemma kernelvec_enter_eq : kernelvec_enter_code = [Addi SP SP (-256)] ++ saves SP (kslots kvec_regs).
Proof. done. Qed.
Lemma kernelvec_leave_eq : kernelvec_leave_code = restores SP (kslots kvec_back) ++ [Addi SP SP 256].
Proof. done. Qed.

Lemma kslots_ok :
  slots_ok 256 (kslots kvec_regs) ∧ NoDup (kslots kvec_regs).*2 ∧ slots_ok 256 (kslots kvec_back) ∧ NoDup (kslots kvec_back).*1.
Proof. split_and!; apply (bool_decide_unpack _); vm_compute; exact I. Qed.

Lemma kvec_all r : r ∈ kvec_regs.
Proof. apply (bool_decide_unpack _). destruct r; vm_compute; exact I. Qed.
Lemma kvec_back_all r : r ≠ TP → r ∈ kvec_back.
Proof. intros Hn. apply (bool_decide_unpack _). destruct r; try done; vm_compute; exact I. Qed.
Lemma kslot_in r l : r ∈ l → (r, kvec_off r) ∈ kslots l.
Proof. intros H. unfold kslots. by apply (list_elem_of_fmap_2 (λ r, (r, kvec_off r))). Qed.
Lemma kslot_inv r o l : (r, o) ∈ kslots l → o = kvec_off r.
Proof. intros (x & [= -> ->] & _)%list_elem_of_fmap. done. Qed.
Lemma kvec_off_range r : 0 <= kvec_off r ∧ kvec_off r + 8 <= 256.
Proof. destruct r; simpl; lia. Qed.

(** What the compiled C handler keeps: the stack pointer, the 256 bytes above
    it, the address space, and, because kerneltrap restores them, sepc and
    sstatus. *)
Definition handler_keeps (D : Z → Prop) (pa : Z) (m m' : mach) : Prop :=
  within D m m' ∧ xreg m' SP = xreg m SP ∧ (∀ o, 0 <= o < 256 → rd8 (ram m') (pa + o) = rd8 (ram m) (pa + o)) ∧
  csrf m' SEPC = csrf m SEPC ∧ csrf m' MSTATUS = csrf m MSTATUS.

(** The hart when kernelvec, entered from [m], calls the handler: its registers
    are in the 256 bytes at [pa], and nothing else of the memory has changed. *)
Record kentry (D : Z → Prop) (pa cause tval : Z) (m m1 : mach) : Prop := {
  ke_within : within D m m1;
  ke_out : agree_out (ram m) (ram m1) pa 256;
  ke_sp : xreg m1 SP = xreg m SP - 256;
  ke_reg r : r ≠ SP → xreg m1 r = xreg m r;
  ke_csr : csrf m1 = csrf (enter_trap cause tval m)
}.

Section Kernelvec.
Context {S : Type} (hw : S → mach) (set_hw : mach → S → S) (D : Z → Prop) (page home pa cause tval : Z) (kerneltrap : K S unit) (P : S → Prop) (s : S) (m : mach).
Hypothesis (Hr : regs_ok m) (Hpc : 0 <= pcr m < 2 ^ 64) (Hpriv : priv m = SM) (Hsp : 256 <= xreg m SP)
  (Hc : code_at D m page home) (Hw : window D m (xreg m SP - 256) pa 256)
  (Hget : ∀ x y, hw (set_hw x y) = x) (Hset : ∀ x x' y, set_hw x (set_hw x' y) = set_hw x y) (Em : hw s = m)
  (Hk : ∀ m1, kentry D pa cause tval m m1 → runs kerneltrap (set_hw m1 s) (λ _ s2, handler_keeps D pa m1 (hw s2) ∧ P s2)).

Definition kv_entered : mach := enter_trap cause tval m.
Definition kv_down : mach := put_reg SP (xreg kv_entered SP + -256) kv_entered.
Definition kv_saved : mach := saved pa (kslots kvec_regs) kv_down.

Lemma entered_within : within D m kv_entered.
Proof using Hpriv. unfold kv_entered. split; [split; [apply enter_satp|by rewrite enter_priv]|by rewrite enter_ram]. Qed.

Lemma down_within : within D m kv_down.
Proof using Hpriv. eapply within_trans; [apply entered_within|apply within_reg]. Qed.

Lemma down_sp : xreg kv_down SP = xreg m SP - 256.
Proof using Hr Hsp. unfold kv_down, kv_entered. rewrite xreg_put, decide_True, enter_xreg by done. pose proof (Hr SP). apply u64_small. lia. Qed.

Lemma down_reg r : r ≠ SP → xreg kv_down r = xreg m r.
Proof. intros Hn. unfold kv_down, kv_entered. rewrite xreg_put, decide_False by done. apply enter_xreg. Qed.

Lemma down_range r : 0 <= xreg kv_down r < 2 ^ 64.
Proof using Hr Hsp.
  destruct (decide (r = SP)) as [->|Hn]; [rewrite down_sp|rewrite down_reg by done; apply Hr]. pose proof (Hr SP). lia.
Qed.

Lemma saved_window : window D m (xreg m SP - 256) pa 256 → within D m kv_saved.
Proof using Hpriv.
  intros W. eapply within_trans; [apply down_within|]. eapply saved_within; [eapply window_within; [apply down_within|exact W]|apply kslots_ok].
Qed.

(** The handler returns to a state in which the slots hold the registers. *)
Lemma kv_slot m2 r : handler_keeps D pa kv_saved m2 → rd64 (ram m2) (pa + kvec_off r) = xreg kv_down r.
Proof using Hr Hsp.
  intros (_ & _ & Hkeep & _). destruct kslots_ok as (Hs & Hd & _). pose proof (kvec_off_range r). rewrite (rd64_ext (ram kv_saved)).
  - unfold kv_saved. apply (saved_slot pa _ 256); [done|done|apply kslot_in, kvec_all|apply down_range].
  - intros b Hb. replace b with (pa + (b - pa)) by lia. apply Hkeep. lia.
Qed.

Definition kv_up (m2 : mach) : mach :=
  let m3 := restored pa (kslots kvec_back) m2 in put_reg SP (xreg m3 SP + 256) m3.

Lemma restored_sp m2 : handler_keeps D pa kv_saved m2 → xreg (restored pa (kslots kvec_back) m2) SP = xreg m SP - 256.
Proof using Hr Hsp.
  intros H2. destruct kslots_ok as (_ & _ & _ & Hd). rewrite (restored_slot pa _ m2 SP (kvec_off SP) Hd) by by apply kslot_in, kvec_back_all.
  rewrite (kv_slot m2 SP H2). apply down_sp.
Qed.

Lemma up_reg m2 r : handler_keeps D pa kv_saved m2 → r ≠ TP → xreg (kv_up m2) r = xreg m r.
Proof using Hr Hsp.
  intros H2 Hn. destruct kslots_ok as (_ & _ & _ & Hd). unfold kv_up. cbv zeta. rewrite xreg_put. case_decide as E.
  - subst r. rewrite restored_sp by done. pose proof (Hr SP). rewrite u64_small; lia.
  - rewrite (restored_slot pa _ m2 r (kvec_off r) Hd) by by apply kslot_in, kvec_back_all. rewrite (kv_slot m2 r H2). by apply down_reg.
Qed.

Lemma up_csr m2 c : csrf (kv_up m2) c = csrf m2 c.
Proof. unfold kv_up. cbv zeta. by rewrite csrf_reg, restored_csrf. Qed.

Lemma saved_csr : csrf kv_saved = csrf kv_entered.
Proof. unfold kv_saved, kv_down. by rewrite saved_csrf. Qed.

Lemma saved_entry : kentry D pa cause tval m kv_saved.
Proof using Hr Hpriv Hsp Hw.
  split; [by apply saved_window| | | |apply saved_csr]; unfold kv_saved.
  - intros b Hb. rewrite (saved_agree_out D pa (xreg m SP - 256) _ 256); [unfold kv_down, kv_entered; by rewrite ram_reg, enter_ram| |apply kslots_ok|done].
    eapply window_within; [apply down_within|exact Hw].
  - rewrite saved_regs. apply down_sp.
  - intros r Hn. rewrite saved_regs. by apply down_reg.
Qed.

Lemma runs_kernelvec (Q : unit → S → Prop) :
  (∀ s2, handler_keeps D pa kv_saved (hw s2) → P s2 → Q tt (set_hw (sret (kv_up (hw s2))) s2)) →
  runs (zoom hw set_hw (modify (enter_trap cause tval)) ;;; kernelvec hw set_hw page home kerneltrap) s Q.
Proof using All.
  intros HQ. apply runs_bind, runs_zoom, runs_modify. rewrite Em. fold kv_entered. destruct kslots_ok as (Hs & Hd & Hs2 & Hd2). unfold kernelvec. rewrite kernelvec_enter_eq, kernelvec_leave_eq.
  apply runs_bind, runs_zoom, run_code_app. rewrite Hget. eapply (runs_instr D); [eapply code_within; [apply entered_within|exact Hc]|apply exec_addi|]. fold kv_down.
  apply runs_code_nil. pose proof down_within as W1. eapply (runs_saves D); [eapply code_within; [exact W1|exact Hc]|eapply window_within; [exact W1|exact Hw]|apply down_sp|exact Hs|].
  fold kv_saved. pose proof (saved_window Hw) as W2. rewrite Hset. apply runs_bind. eapply runs_mono; [apply Hk, saved_entry|].
  intros [] s2 [H2 HP]. pose proof H2 as (W3 & Esp & _). assert (W : within D m (hw s2)) by (eapply within_trans; [exact W2|exact W3]).
  apply runs_zoom, runs_bind, run_code_app. eapply (runs_restores D); [eapply code_within; [exact W|exact Hc]|eapply window_within; [exact W|exact Hw]| |exact Hs2| |].
  { rewrite Esp. unfold kv_saved. rewrite saved_regs. apply down_sp. }
  { intros o Ho%kslot_inv. subst o. rewrite (kv_slot (hw s2) SP H2). apply down_sp. }
  eapply (runs_instr D); [eapply code_within; [|exact Hc]; eapply within_trans; [exact W|apply within_restored]|apply exec_addi|].
  apply runs_code_nil, runs_modify. exact (HQ s2 H2 HP).
Qed.
End Kernelvec.

(** An interrupt that arrives in the kernel is invisible to the code it
    interrupts: kernelvec saves and restores around the handler, so that the
    code continues where it was, in supervisor mode, with interrupts enabled
    as before and with every register unchanged but tp, which holds the number
    of the hart that the thread continues on. *)
Theorem kernelvec_transparent {S} (hw : S → mach) set_hw D page home pa cause tval kerneltrap (P : S → Prop) s m :
  (∀ x y, hw (set_hw x y) = x) → (∀ x x' y, set_hw x (set_hw x' y) = set_hw x y) → hw s = m →
  regs_ok m → 0 <= pcr m < 2 ^ 64 → priv m = SM → 256 <= xreg m SP →
  code_at D m page home → window D m (xreg m SP - 256) pa 256 →
  (∀ m1, kentry D pa cause tval m m1 → runs kerneltrap (set_hw m1 s) (λ _ s2, handler_keeps D pa m1 (hw s2) ∧ P s2)) →
  runs (zoom hw set_hw (modify (enter_trap cause tval)) ;;; kernelvec hw set_hw page home kerneltrap) s (λ _ s', let m' := hw s' in
    (∀ r, r ≠ TP → xreg m' r = xreg m r) ∧ pcr m' = pcr m ∧ priv m' = SM ∧ MSTATUS_bit 1 m' = MSTATUS_bit 1 m ∧ within D m m' ∧
    ∃ s2, P s2 ∧ s' = set_hw m' s2 ∧ xreg m' TP = xreg (hw s2) TP ∧ ram m' = ram (hw s2) ∧ 0 <= csrf m' MSTATUS < 2 ^ 64 ∧ ∀ c, c ≠ MSTATUS → csrf m' c = csrf (hw s2) c).
Proof.
  intros Hget Hset Em Hr Hpc Hpriv Hsp Hc Hw Hk. apply (runs_kernelvec hw set_hw D page home pa cause tval kerneltrap P s m); try done. intros s2 H2 HP. rewrite Hget. set (m2 := hw s2) in *.
  pose proof H2 as (W3 & _ & _ & Ese & Est). rewrite saved_csr in Ese, Est.
  assert (Wu : within D m (kv_up pa m2)).
  { eapply within_trans; [by apply (saved_window D pa cause tval)|]. eapply within_trans; [exact W3|]. eapply within_trans; [apply within_restored|apply within_reg]. }
  assert (Eb : ∀ j, MSTATUS_bit j (kv_up pa m2) = MSTATUS_bit j (enter_trap cause tval m)) by (intros j; unfold MSTATUS_bit; by rewrite up_csr, Est).
  assert (Ep : priv (sret (kv_up pa m2)) = SM).
  { rewrite sret_priv, Eb, enter_status by lia. rewrite decide_True by done. by rewrite bool_decide_true. }
  cbv zeta. split_and!.
  - intros r Hn. rewrite sret_xreg. by apply (up_reg D pa cause tval).
  - rewrite sret_pc, up_csr, Ese. unfold kv_entered. rewrite enter_sepc. rewrite !u64_small; [done|done|by rewrite u64_small].
  - done.
  - rewrite sret_bit by lia. rewrite !decide_False, decide_True by lia. rewrite Eb, enter_status by lia. by rewrite decide_False, decide_True by lia.
  - destruct Wu as [[? ?] ?]. split; [split; [by rewrite sret_csr|by rewrite Ep]|by rewrite sret_ram].
  - exists s2. split; [done|]. split; [done|]. split; [|split; [|split]].
    + rewrite sret_xreg. unfold kv_up. cbv zeta. rewrite xreg_put, decide_False by done. apply restored_other. apply (bool_decide_unpack _). vm_compute. exact I.
    + rewrite sret_ram. unfold kv_up. cbv zeta. by rewrite ram_reg, restored_ram.
    + rewrite sret_status. apply u64_range.
    + intros c Hc'. by rewrite sret_csr, up_csr.
Qed.

(** ** Machine mode *)

Definition mpp_of (md : mode) : Z := match md with MM => 3 | SM => 1 | UM => 0 end.

Lemma mtrap_xreg c m r : xreg (enter_machine_trap c m) r = xreg m r. Proof. done. Qed.
Lemma mtrap_ram c m : ram (enter_machine_trap c m) = ram m. Proof. done. Qed.
Lemma mtrap_priv c m : priv (enter_machine_trap c m) = MM. Proof. done. Qed.
Lemma mtrap_mepc c m : csrf (enter_machine_trap c m) MEPC = u64 (pcr m). Proof. done. Qed.
Lemma mtrap_csr c m x : x ≠ MSTATUS → x ≠ MEPC → x ≠ MCAUSE → csrf (enter_machine_trap c m) x = csrf m x.
Proof. intros H1 H2 H3. unfold enter_machine_trap. rewrite csrf_pc. cbn [csrf set_priv]. rewrite !csrf_put. by rewrite !decide_False. Qed.

Lemma testbit_mpp x md j : 0 <= j < 64 →
  Z.testbit (Z.lor (Z.land x (u64 (Z.lnot MSTATUS_MPP_MASK))) (Z.shiftl (mpp_of md) 11)) j =
    if decide (j = 11) then bool_decide (md ≠ UM) else if decide (j = 12) then bool_decide (md = MM) else Z.testbit x j.
Proof.
  intros Hj. rewrite Z.lor_spec, Z.land_spec, testbit_u64, Z.lnot_spec, Z.shiftl_spec by lia. unfold MSTATUS_MPP_MASK. rewrite Z.shiftl_spec by lia.
  assert (E3 : ∀ k, Z.testbit 3 k = bool_decide (0 <= k < 2)).
  { intros k. change 3 with (Z.ones 2). destruct (Z.ltb_spec k 0); [rewrite Z.testbit_neg_r by lia; symmetry; apply bool_decide_false; lia|].
    rewrite Z.testbit_ones_nonneg by lia. destruct (Z.ltb_spec k 2); symmetry; [apply bool_decide_true|apply bool_decide_false]; lia. }
  rewrite E3. destruct (decide (j = 11)) as [->|H11]; [destruct md; simpl; by rewrite andb_false_r|].
  destruct (decide (j = 12)) as [->|H12]; [destruct md; simpl; by rewrite andb_false_r|].
  rewrite (bool_decide_false (0 <= j - 11 < 2)) by lia. simpl negb. rewrite andb_true_r.
  assert (Z.testbit (mpp_of md) (j - 11) = false) as ->; [|apply orb_false_r].
  destruct md; cbn [mpp_of]; [rewrite E3; apply bool_decide_false; lia| |apply Z.testbit_0_l].
  destruct (Z.ltb_spec (j - 11) 0); [by apply Z.testbit_neg_r|]. rewrite <-(Z.pow_0_r 2), Z.pow2_bits_eqb by lia. by destruct (Z.eqb_spec 0 (j - 11)); [lia|].
Qed.

Lemma mtrap_bit c m j : 0 <= j < 64 →
  MSTATUS_bit j (enter_machine_trap c m) =
    if decide (j = 7) then MSTATUS_bit 3 m else if decide (j = 3) then false
    else if decide (j = 11) then bool_decide (priv m ≠ UM) else if decide (j = 12) then bool_decide (priv m = MM) else MSTATUS_bit j m.
Proof.
  intros Hj. unfold MSTATUS_bit at 1, enter_machine_trap. rewrite csrf_pc. cbn [csrf set_priv]. rewrite csrf_put, decide_True by done.
  rewrite testbit_u64 by done. fold (mpp_of (priv m)). rewrite !testbit_put_bit, !testbit_mpp by lia.
  destruct (decide (j = 7)); [by rewrite !decide_False by lia|done].
Qed.

Lemma mret_xreg m r : xreg (mret m) r = xreg m r. Proof. done. Qed.
Lemma mret_ram m : ram (mret m) = ram m. Proof. done. Qed.
Lemma mret_pc m : pcr (mret m) = u64 (csrf m MEPC). Proof. done. Qed.
Lemma mret_priv m : priv (mret m) = if MSTATUS_bit 12 m then MM else if MSTATUS_bit 11 m then SM else UM. Proof. done. Qed.
Lemma mret_csr m x : x ≠ MSTATUS → csrf (mret m) x = csrf m x.
Proof. intros H1. unfold mret. rewrite csrf_pc. cbn [csrf set_priv]. rewrite csrf_put. by rewrite decide_False. Qed.
Lemma mret_bit m j : 0 <= j < 64 →
  MSTATUS_bit j (mret m) = if decide (j = 11) then false else if decide (j = 12) then false else if decide (j = 7) then true
    else if decide (j = 3) then MSTATUS_bit 7 m else MSTATUS_bit j m.
Proof.
  intros Hj. unfold MSTATUS_bit at 1, mret. rewrite csrf_pc. cbn [csrf set_priv]. rewrite csrf_put, decide_True by done.
  rewrite testbit_u64 by done. by rewrite !testbit_put_bit by lia.
Qed.

(** ** timervec *)

Definition timer_saves : list (reg * Z) := [(A1, 0); (A2, 8); (A3, 16)].
Definition timer_loads : list (reg * Z) := [(A1, 24); (A2, 32)].
Definition timer_back : list (reg * Z) := [(A3, 16); (A2, 8); (A1, 0)].

Lemma timervec_code_eq :
  timervec_code = [Csrrw A0 MSCRATCH A0] ++ saves A0 timer_saves ++ restores A0 timer_loads ++ restores A1 [(A3, 0)] ++
    [Add A3 A3 A2] ++ saves A1 [(A3, 0)] ++ [Li A1 2; Csrw SIP A1] ++ restores A0 timer_back ++ [Csrrw A0 MSCRATCH A0].
Proof. done. Qed.

Lemma timer_slots : slots_ok 40 timer_saves ∧ slots_ok 40 timer_loads ∧ slots_ok 40 timer_back ∧ slots_ok 8 [(A3, 0)].
Proof. split_and!; apply (bool_decide_unpack _); vm_compute; exact I. Qed.

(** The scratch area that start.c set up: the address of mtimecmp and the
    interval are in its last two words. *)
Record timer_ok (m : mach) (cmp : Z) : Prop := {
  tm_scratch : csrf m MSCRATCH mod 8 = 0 ∧ 0 <= csrf m MSCRATCH ∧ csrf m MSCRATCH + 40 <= 2 ^ 64;
  tm_cmp : rd64 (ram m) (csrf m MSCRATCH + 24) = cmp ∧ cmp mod 8 = 0 ∧ cmp + 8 <= 2 ^ 64;
  tm_apart : cmp + 8 <= csrf m MSCRATCH ∨ csrf m MSCRATCH + 40 <= cmp
}.

Section Timer.
Context (m : mach) (cmp cause : Z).
Hypothesis (Hr : regs_ok m) (Ht : timer_ok m cmp).
Abbreviation sc := (csrf m MSCRATCH).

Definition tv_in : mach := let m0 := enter_machine_trap cause m in put_reg A0 sc (put_csr MSCRATCH (xreg m A0) m0).
Definition tv_saved : mach := saved sc timer_saves tv_in.
Definition tv_loaded : mach := restored cmp [(A3, 0)] (restored sc timer_loads tv_saved).
Definition tv_next : mach := saved cmp [(A3, 0)] (put_reg A3 (xreg tv_loaded A3 + xreg tv_loaded A2) tv_loaded).
Definition tv_sip : mach := let m1 := put_reg A1 2 tv_next in put_csr SIP (xreg m1 A1) m1.
Definition tv_back : mach := restored sc timer_back tv_sip.
Definition tv_out : mach := put_reg A0 (csrf tv_back MSCRATCH) (put_csr MSCRATCH (xreg tv_back A0) tv_back).

Lemma cmp_pos : 0 <= cmp. Proof using Ht. destruct (tm_cmp _ _ Ht) as [<- _]. apply rd64_range. Qed.

Lemma tv_in_reg r : r ≠ A0 → xreg tv_in r = xreg m r.
Proof. intros Hn. unfold tv_in. cbv zeta. rewrite xreg_put, decide_False by done. by rewrite xreg_csr, mtrap_xreg. Qed.
Lemma tv_in_a0 : xreg tv_in A0 = sc.
Proof using Ht. unfold tv_in. cbv zeta. rewrite xreg_put, decide_True by done. destruct (tm_scratch _ _ Ht). apply u64_small. lia. Qed.
Lemma tv_in_ram : ram tv_in = ram m. Proof. unfold tv_in. cbv zeta. by rewrite ram_reg, ram_csr, mtrap_ram. Qed.
Lemma tv_saved_old a : a + 8 <= sc ∨ sc + 24 <= a → rd64 (ram tv_saved) a = rd64 (ram m) a.
Proof. intros Ha. unfold tv_saved. rewrite (saved_far _ _ 24); [by rewrite tv_in_ram|by repeat constructor|done]. Qed.
Lemma tv_saved_slot r o : (r, o) ∈ timer_saves → rd64 (ram tv_saved) (sc + o) = xreg m r.
Proof using Hr.
  intros Hin. assert (Hn : r ≠ A0) by (intros ->; apply list_elem_of_In in Hin; repeat (destruct Hin as [Hin|Hin]; [discriminate|]); done).
  unfold tv_saved. rewrite (saved_slot _ _ 40 _ r o); [by apply tv_in_reg|apply timer_slots| |done|by rewrite tv_in_reg].
  apply (bool_decide_unpack _). vm_compute. exact I.
Qed.

Lemma nodup_loads : NoDup timer_loads.*1. Proof. apply (bool_decide_unpack _). vm_compute. exact I. Qed.
Lemma nodup_back : NoDup timer_back.*1. Proof. apply (bool_decide_unpack _). vm_compute. exact I. Qed.

Lemma tv_loaded_a1 : xreg (restored sc timer_loads tv_saved) A1 = cmp.
Proof using Ht. rewrite (restored_slot _ _ _ A1 24 nodup_loads) by by left. rewrite tv_saved_old by lia. apply (tm_cmp _ _ Ht). Qed.
Lemma tv_loaded_a2 : xreg tv_loaded A2 = rd64 (ram m) (sc + 32).
Proof.
  unfold tv_loaded. rewrite restored_other by (apply (bool_decide_unpack _); vm_compute; exact I).
  rewrite (restored_slot _ _ _ A2 32 nodup_loads) by by right; left. apply tv_saved_old. lia.
Qed.
Lemma tv_loaded_a3 : xreg tv_loaded A3 = rd64 (ram m) cmp.
Proof using Ht.
  unfold tv_loaded. rewrite (restored_slot cmp _ _ A3 0) by (apply NoDup_singleton || by left). rewrite restored_ram, Z.add_0_r. apply tv_saved_old.
  destruct (tm_apart _ _ Ht); lia.
Qed.
Lemma tv_loaded_ram : ram tv_loaded = ram tv_saved. Proof. unfold tv_loaded. by rewrite !restored_ram. Qed.

Lemma tv_next_cmp : rd64 (ram tv_next) cmp = u64 (rd64 (ram m) cmp + rd64 (ram m) (sc + 32)).
Proof using Ht.
  unfold tv_next. set (x := put_reg A3 _ _). pose proof (saved_slot cmp [(A3, 0)] 8 x A3 0) as E. rewrite Z.add_0_r in E.
  rewrite E; [|apply timer_slots|apply NoDup_singleton|by left|]; unfold x.
  - rewrite xreg_put, decide_True by done. by rewrite tv_loaded_a3, tv_loaded_a2.
  - rewrite xreg_put, decide_True by done. apply u64_range.
Qed.
Lemma tv_next_old a : a + 8 <= cmp ∨ cmp + 8 <= a → rd64 (ram tv_next) a = rd64 (ram tv_saved) a.
Proof. intros Ha. unfold tv_next. rewrite (saved_far _ _ 8); [by rewrite ram_reg, tv_loaded_ram|apply timer_slots|done]. Qed.
Lemma tv_sip_ram : ram tv_sip = ram tv_next. Proof. unfold tv_sip. cbv zeta. by rewrite ram_csr, ram_reg. Qed.

Lemma tv_back_slot r o : (r, o) ∈ timer_saves → rd64 (ram tv_sip) (sc + o) = xreg m r.
Proof using Hr Ht.
  intros Hin. rewrite tv_sip_ram, tv_next_old; [by apply tv_saved_slot|]. destruct timer_slots as (Hs & _). unfold slots_ok in Hs. rewrite Forall_forall in Hs.
  destruct (Hs _ Hin) as (? & ? & _). cbn [snd] in *. destruct (tm_apart _ _ Ht); lia.
Qed.

Lemma tv_keep r : r ∉ [A0; A1; A2; A3] → xreg tv_sip r = xreg m r.
Proof.
  rewrite !not_elem_of_cons. intros (H0 & H1 & H2 & H3 & _). unfold tv_sip. cbv zeta. rewrite xreg_csr, xreg_put, decide_False by done. unfold tv_next.
  rewrite saved_regs, xreg_put, decide_False by done. unfold tv_loaded. rewrite !restored_other; [|set_solver|set_solver].
  unfold tv_saved. rewrite saved_regs. by apply tv_in_reg.
Qed.
Lemma tv_sip_a0 : xreg tv_sip A0 = sc.
Proof using Ht.
  unfold tv_sip. cbv zeta. rewrite xreg_csr, xreg_put, decide_False by done. unfold tv_next. rewrite saved_regs, xreg_put, decide_False by done.
  unfold tv_loaded. rewrite !restored_other by (apply (bool_decide_unpack _); vm_compute; exact I). unfold tv_saved. rewrite saved_regs. apply tv_in_a0.
Qed.
Lemma tv_sip_csr c : c ≠ SIP → csrf tv_sip c = csrf tv_in c.
Proof.
  intros Hc. unfold tv_sip. cbv zeta. rewrite csrf_put, decide_False by done. rewrite csrf_reg. unfold tv_next.
  rewrite saved_csrf, csrf_reg. unfold tv_loaded. rewrite !restored_csrf. unfold tv_saved. by rewrite saved_csrf.
Qed.
Lemma tv_in_csr c : c ≠ MSCRATCH → csrf tv_in c = csrf (enter_machine_trap cause m) c.
Proof. intros Hc. unfold tv_in. cbv zeta. rewrite csrf_reg, csrf_put. by rewrite decide_False. Qed.
Lemma tv_in_scratch : csrf tv_in MSCRATCH = xreg m A0.
Proof using Hr. unfold tv_in. cbv zeta. rewrite csrf_reg, csrf_put, decide_True by done. by apply u64_small. Qed.

Lemma tv_out_csr c : c ≠ SIP → c ≠ MSCRATCH → csrf tv_out c = csrf (enter_machine_trap cause m) c.
Proof.
  intros H1 H2. unfold tv_out. rewrite csrf_reg, csrf_put, decide_False by done. unfold tv_back. rewrite restored_csrf, tv_sip_csr by done. by apply tv_in_csr.
Qed.
Lemma tv_out_sip : csrf tv_out SIP = 2.
Proof. unfold tv_out. rewrite csrf_reg, csrf_put, decide_False by done. unfold tv_back. rewrite restored_csrf. done. Qed.
Lemma tv_out_scratch : csrf tv_out MSCRATCH = sc.
Proof using Ht.
  unfold tv_out. rewrite csrf_reg, csrf_put, decide_True by done. unfold tv_back. rewrite restored_other, tv_sip_a0 by (apply (bool_decide_unpack _); vm_compute; exact I).
  destruct (tm_scratch _ _ Ht). apply u64_small. lia.
Qed.
Lemma tv_out_ram : ram tv_out = ram tv_next.
Proof. unfold tv_out. rewrite ram_reg, ram_csr. unfold tv_back. by rewrite restored_ram, tv_sip_ram. Qed.
Lemma tv_out_reg r : xreg tv_out r = xreg m r.
Proof using Hr Ht.
  unfold tv_out. rewrite xreg_put, xreg_csr. case_decide as E.
  - subst r. unfold tv_back. rewrite restored_csrf, tv_sip_csr by done. rewrite tv_in_scratch. by apply u64_small.
  - unfold tv_back. destruct (decide (r ∈ [A1; A2; A3])) as [Hin|Hin].
    + assert (∃ o, (r, o) ∈ timer_back ∧ (r, o) ∈ timer_saves) as (o & Hb & Hs).
      { apply list_elem_of_In in Hin. destruct Hin as [<-|[<-|[<-|[]]]]; [exists 0|exists 8|exists 16]; split; apply (bool_decide_unpack _); vm_compute; exact I. }
      rewrite (restored_slot _ _ _ r o nodup_back Hb). by apply tv_back_slot.
    + rewrite restored_other by (cbn [timer_back fmap list_fmap fst]; set_solver). apply tv_keep. set_solver.
Qed.

Lemma tv_in_priv : priv tv_in = MM. Proof. done. Qed.
Lemma tv_priv pa l x : priv x = MM → priv (saved pa l x) = MM. Proof. by rewrite saved_priv. Qed.
Lemma tv_priv' pa l x : priv x = MM → priv (restored pa l x) = MM. Proof. by rewrite restored_priv. Qed.

Lemma tv_next_a1 : xreg (put_reg A3 (xreg tv_loaded A3 + xreg tv_loaded A2) tv_loaded) A1 = cmp.
Proof using Ht.
  rewrite xreg_put, decide_False by done. unfold tv_loaded. rewrite restored_other by (apply (bool_decide_unpack _); vm_compute; exact I).
  apply tv_loaded_a1.
Qed.

(** A base register that is not among the registers loaded. *)
Lemma slots_other (b : reg) (l : list (reg * Z)) : bool_decide (b ∈ l.*1) = false → ∀ (P : Z → Prop) o, (b, o) ∈ l → P o.
Proof. intros Hb P o Ho. apply bool_decide_eq_false in Hb. destruct Hb. apply list_elem_of_fmap. by exists (b, o). Qed.

(** The stages, folded by rewriting. *)
Lemma tv_in_eq : put_reg A0 sc (put_csr MSCRATCH (xreg m A0) (enter_machine_trap cause m)) = tv_in. Proof. done. Qed.
Lemma tv_saved_eq : saved sc timer_saves tv_in = tv_saved. Proof. done. Qed.
Lemma tv_loaded_eq : restored cmp [(A3, 0)] (restored sc timer_loads tv_saved) = tv_loaded. Proof. done. Qed.
Lemma tv_next_eq : saved cmp [(A3, 0)] (put_reg A3 (xreg tv_loaded A3 + xreg tv_loaded A2) tv_loaded) = tv_next. Proof. done. Qed.
Lemma tv_sip_eq : put_csr SIP (xreg (put_reg A1 2 tv_next) A1) (put_reg A1 2 tv_next) = tv_sip. Proof. done. Qed.
Lemma tv_back_eq : restored sc timer_back tv_sip = tv_back. Proof. done. Qed.
Lemma tv_out_eq : put_reg A0 (csrf tv_back MSCRATCH) (put_csr MSCRATCH (xreg tv_back A0) tv_back) = tv_out. Proof. done. Qed.

Lemma runs_timervec page (Q : unit → mach → Prop) : Q tt (mret tv_out) → runs (modify (enter_machine_trap cause) ;;; timervec page page) m Q.
Proof using Hr Ht.
  intros HQ. destruct (tm_scratch _ _ Ht) as (B1 & B2 & B3). destruct (tm_cmp _ _ Ht) as (Ec & C1 & C2). pose proof cmp_pos as C0. destruct timer_slots as (S1 & S2 & S3 & S4).
  apply runs_bind, runs_modify. unfold timervec. rewrite timervec_code_eq. apply runs_bind.
  assert (P0 : priv tv_in = MM) by apply tv_in_priv. assert (P1 : priv tv_saved = MM) by (rewrite <-tv_saved_eq; apply tv_priv; exact P0).
  assert (P2 : priv (restored sc timer_loads tv_saved) = MM) by (apply tv_priv'; exact P1). assert (P3 : priv tv_loaded = MM) by (rewrite <-tv_loaded_eq; apply tv_priv'; exact P2).
  assert (P3' : priv (put_reg A3 (xreg tv_loaded A3 + xreg tv_loaded A2) tv_loaded) = MM) by (rewrite priv_reg; exact P3).
  assert (P4 : priv tv_next = MM) by (rewrite <-tv_next_eq; apply tv_priv; exact P3').
  assert (P4' : priv (put_reg A1 2 tv_next) = MM) by (rewrite priv_reg; exact P4). assert (P5 : priv tv_sip = MM) by (rewrite <-tv_sip_eq, priv_csr; exact P4').
  assert (P6 : priv tv_back = MM) by (rewrite <-tv_back_eq; apply tv_priv'; exact P5).
  apply run_code_app. eapply (runs_instr anywhere); [by apply code_machine|by apply exec_csrrw|]. apply runs_code_nil. rewrite mtrap_csr, mtrap_xreg by done. rewrite tv_in_eq.
  apply run_code_app. eapply (runs_saves anywhere); [apply code_machine; exact P0|apply (window_machine _ sc 40); [exact P0|exact B1|exact B2|exact B3]|apply tv_in_a0|exact S1|]. rewrite tv_saved_eq.
  apply run_code_app. eapply (runs_restores anywhere); [apply code_machine; exact P1|apply (window_machine _ sc 40); [exact P1|exact B1|exact B2|exact B3]| |exact S2|apply (slots_other A0 timer_loads); vm_compute; reflexivity|].
  { rewrite <-tv_saved_eq, saved_regs. apply tv_in_a0. }
  apply run_code_app. eapply (runs_restores anywhere); [apply code_machine; exact P2|apply (window_machine _ cmp 8); [exact P2|exact C1|exact C0|exact C2]|apply tv_loaded_a1|exact S4|apply (slots_other A1 [(A3, 0)]); vm_compute; reflexivity|].
  rewrite tv_loaded_eq. apply run_code_app. eapply (runs_instr anywhere); [apply code_machine; exact P3|apply exec_add|]. apply runs_code_nil.
  apply run_code_app. eapply (runs_saves anywhere); [apply code_machine; exact P3'|apply (window_machine _ cmp 8); [exact P3'|exact C1|exact C0|exact C2]|apply tv_next_a1|exact S4|].
  rewrite tv_next_eq. apply run_code_app. eapply (runs_instr anywhere); [apply code_machine; exact P4|apply exec_li|].
  eapply (runs_instr anywhere); [apply code_machine; exact P4'|by apply exec_csrw|]. apply runs_code_nil. rewrite tv_sip_eq.
  apply run_code_app. eapply (runs_restores anywhere); [apply code_machine; exact P5|apply (window_machine _ sc 40); [exact P5|exact B1|exact B2|exact B3]|apply tv_sip_a0|exact S3|apply (slots_other A0 timer_back); vm_compute; reflexivity|].
  rewrite tv_back_eq. eapply (runs_instr anywhere); [apply code_machine; exact P6|by apply exec_csrrw|]. apply runs_code_nil. rewrite tv_out_eq. by apply runs_modify.
Qed.
End Timer.

(** What the code that a timer interrupt stops finds changed afterwards: a
    software interrupt of the supervisor is pending, the deadline [cmp] is one
    interval later, and the trap registers of machine mode and the first three
    words of the scratch area have been used; its registers, the place and the
    mode in which it goes on, and the interrupt enables are as they were. *)
Record unseen (cmp : Z) (m m' : mach) : Prop := {
  un_reg r : xreg m' r = xreg m r;
  un_pc : pcr m' = pcr m;
  un_priv : priv m' = priv m;
  un_sip : csrf m' SIP = 2;
  un_csr c : c ∉ [MSTATUS; MEPC; MCAUSE; SIP] → csrf m' c = csrf m c;
  un_status j : j ∈ [1; 3; 5; 8] → MSTATUS_bit j m' = MSTATUS_bit j m;
  un_deadline : rd64 (ram m') cmp = u64 (rd64 (ram m) cmp + rd64 (ram m) (csrf m MSCRATCH + 32));
  un_mem a : a + 8 <= cmp ∨ cmp + 8 <= a → a + 8 <= csrf m MSCRATCH ∨ csrf m MSCRATCH + 24 <= a → rd64 (ram m') a = rd64 (ram m) a
}.

Lemma timer_unseen cause m cmp : regs_ok m → 0 <= pcr m < 2 ^ 64 → timer_ok m cmp → unseen cmp m (mret (tv_out m cmp cause)).
Proof.
  intros Hr Hpc Ht. assert (Eb : ∀ j, MSTATUS_bit j (tv_out m cmp cause) = MSTATUS_bit j (enter_machine_trap cause m)).
  { intros j. unfold MSTATUS_bit. by rewrite tv_out_csr. }
  split.
  - intros r. rewrite mret_xreg. by apply tv_out_reg.
  - rewrite mret_pc, tv_out_csr, mtrap_mepc by done. by rewrite !u64_small by (done || by rewrite u64_small).
  - rewrite mret_priv, !Eb, !mtrap_bit by lia. by destruct (priv m).
  - rewrite mret_csr by done. apply tv_out_sip.
  - intros c Hc. rewrite !not_elem_of_cons in Hc. destruct Hc as (H1 & H2 & H3 & H4 & _). rewrite mret_csr by done.
    destruct (decide (c = MSCRATCH)) as [->|H5]; [by apply tv_out_scratch|]. rewrite tv_out_csr by done. by apply mtrap_csr.
  - intros j Hj%list_elem_of_In. destruct Hj as [<-|[<-|[<-|[<-|[]]]]]; rewrite mret_bit, !Eb, !mtrap_bit by lia; reflexivity.
  - rewrite mret_ram, tv_out_ram. by apply tv_next_cmp.
  - intros a H1 H2. rewrite mret_ram, tv_out_ram, tv_next_old by done. by apply tv_saved_old.
Qed.

(** The timer interrupt is invisible to the code it interrupts, in whatever
    mode. *)
Theorem timervec_transparent page cause m cmp :
  regs_ok m → 0 <= pcr m < 2 ^ 64 → timer_ok m cmp →
  runs (modify (enter_machine_trap cause) ;;; timervec page page) m (λ _ m', unseen cmp m m').
Proof. intros Hr Hpc Ht. apply (runs_timervec m cmp cause Hr Ht). by apply timer_unseen. Qed.

Lemma timervec_transparent_witness :
  let m := put_csr MSCRATCH 8192 (fresh_mach UM [(A0, 5)]) in
  runs (modify (enter_machine_trap (2 ^ 63 + 7)) ;;; timervec 0 0) m (λ _ m', ∀ r, xreg m' r = xreg m r).
Proof.
  intros m. eapply runs_mono; [apply (timervec_transparent 0 (2 ^ 63 + 7) m 0)|].
  - apply fresh_regs.
  - done.
  - split; [by split_and!| |by left]. by split_and!.
  - intros [] m' H. exact (un_reg _ _ _ H).
Defined.
