(* ===== verification/Boot.v ===== *)
(** entry.S and start.c: from reset in machine mode to main() in supervisor
    mode, and the timer that runs from then on.

    The addresses of stack0, timer_scratch, main and timervec are the
    linker's.  The registers of the CLINT are cells of the memory; mtime is
    read once. *)

From S2P Require Import Prelude Mem CString Riscv Spinlock Kalloc Vm VmSpec Machine Asm AsmSpec KernelVec.
Local Open Scope kernel_scope.

Definition CLINT : Z := 0x2000000.
Definition CLINT_MTIMECMP (hartid : Z) : Z := CLINT + 0x4000 + 8 * hartid.
Definition CLINT_MTIME : Z := CLINT + 0xBFF8.

Section Boot.
Context (stack0 timer_scratch main_at timervec_at page : Z).

Definition timerinit : K mach unit :=
  id <- r_mhartid ;;;
  let id := s32 id in
  let interval := 1000000 in
  now <- load64 CLINT_MTIME ;;;
  store64 (CLINT_MTIMECMP id) (now + interval) ;;;
  let scratch := timer_scratch + 40 * id in
  store64 (scratch + 8 * 3) (CLINT_MTIMECMP id) ;;;
  store64 (scratch + 8 * 4) interval ;;;
  w_mscratch scratch ;;;
  w_mtvec timervec_at ;;;
  x <- r_mstatus ;;;
  w_mstatus (Z.lor x MSTATUS_MIE) ;;;
  x <- r_mie ;;;
  w_mie (Z.lor x MIE_MTIE).

Definition start : K mach unit :=
  x <- r_mstatus ;;;
  let x := Z.land x (u64 (Z.lnot MSTATUS_MPP_MASK)) in
  let x := Z.lor x MSTATUS_MPP_S in
  w_mstatus x ;;;
  w_mepc main_at ;;;
  w_satp 0 ;;;
  w_medeleg 0xffff ;;;
  w_mideleg 0xffff ;;;
  x <- r_sie ;;;
  w_sie (Z.lor (Z.lor (Z.lor x SIE_SEIE) SIE_STIE) SIE_SSIE) ;;;
  w_pmpaddr0 0x3fffffffffffff ;;;
  w_pmpcfg0 0xf ;;;
  timerinit ;;;
  id <- r_mhartid ;;;
  w_tp (s32 id) ;;;
  modify mret.

(** ** Properties *)

(** A hart as it comes out of reset, and where the linker put the data. *)
Record reset (m : mach) : Prop := {
  rs_priv : priv m = MM;
  rs_hart : 0 <= csrf m MHARTID < NCPU;
  rs_stack : 0 <= stack0 ∧ stack0 + 4096 * NCPU < 2 ^ 64;
  rs_scratch : timer_scratch mod 8 = 0 ∧ CLINT_MTIME + 8 <= timer_scratch ∧ timer_scratch + 40 * NCPU <= 2 ^ 64;
  rs_code : 0 <= main_at < 2 ^ 64 ∧ 0 <= timervec_at < 2 ^ 64
}.

Lemma runs_load_machine a m (Q : Z → mach → Prop) :
  priv m = MM → a mod 8 = 0 → Q (rd64 (ram m) a) m → runs (load64 a) m Q.
Proof. intros Hp Ha HQ. unfold runs, load64. rewrite Ha, Z.eqb_refl. unfold xlate. by rewrite Hp. Qed.
Lemma runs_store_machine a v m (Q : unit → mach → Prop) :
  priv m = MM → a mod 8 = 0 → Q tt (set_ram (wr64 (ram m) a v) m) → runs (store64 a v) m Q.
Proof. intros Hp Ha HQ. unfold runs, store64. rewrite Ha, Z.eqb_refl. unfold xlate. by rewrite Hp. Qed.

Lemma runs_csrw c v m (Q : unit → mach → Prop) : c ≠ SSTATUS → Q tt (put_csr c v m) → runs (csrw c v) m Q.
Proof. intros Hc HQ. apply runs_modify. by destruct c. Qed.
Lemma runs_csrr c m (Q : Z → mach → Prop) : c ≠ SSTATUS → Q (csrf m c) m → runs (csrr c) m Q.
Proof. intros Hc HQ. apply runs_gets. by destruct c. Qed.

(** The memory that timerinit leaves. *)
Definition timer_mem (id : Z) (r : mem) : mem :=
  wr64 (wr64 (wr64 r (CLINT_MTIMECMP id) (rd64 r CLINT_MTIME + 1000000)) (timer_scratch + 40 * id + 24) (CLINT_MTIMECMP id)) (timer_scratch + 40 * id + 32) 1000000.

Lemma clint_cmp_range id : 0 <= id < NCPU → (CLINT_MTIMECMP id) mod 8 = 0 ∧ 0 <= CLINT_MTIMECMP id ∧ CLINT_MTIMECMP id + 8 <= CLINT_MTIME.
Proof. unfold CLINT_MTIMECMP, CLINT_MTIME, CLINT, NCPU. intros. zdm. Qed.

Lemma timer_mem_facts id r :
  0 <= id < NCPU → CLINT_MTIME + 8 <= timer_scratch →
  rd64 (timer_mem id r) (timer_scratch + 40 * id + 24) = CLINT_MTIMECMP id ∧
  rd64 (timer_mem id r) (timer_scratch + 40 * id + 32) = 1000000 ∧
  rd64 (timer_mem id r) (CLINT_MTIMECMP id) = u64 (rd64 r CLINT_MTIME + 1000000).
Proof.
  intros Hid Hs. destruct (clint_cmp_range id Hid) as (_ & ? & ?). unfold timer_mem. change CLINT_MTIME with 33603576 in *. split_and!.
  - rewrite rd64_wr64_ne, rd64_wr64_same by lia. apply u64_small. lia.
  - by rewrite rd64_wr64_same.
  - rewrite !rd64_wr64_ne, rd64_wr64_same by lia. done.
Qed.

(** What a hart has reached when it enters main(). *)
Record booted (m m' : mach) : Prop := {
  bo_main : pcr m' = main_at ∧ priv m' = SM;
  bo_stack : xreg m' SP = stack0 + 4096 * (csrf m MHARTID + 1);
  bo_tp : xreg m' TP = csrf m MHARTID;
  bo_bare : csrf m' SATP = 0;
  bo_deleg : csrf m' MEDELEG = 0xffff ∧ csrf m' MIDELEG = 0xffff;
  bo_sie j : j ∈ [1; 5; 9] → Z.testbit (csrf m' SIE) j = true;
  bo_mie : Z.testbit (csrf m' MIE) 7 = true;
  bo_timer : csrf m' MTVEC = timervec_at ∧ csrf m' MSCRATCH = timer_scratch + 40 * csrf m MHARTID;
  bo_mem : ram m' = timer_mem (csrf m MHARTID) (ram m)
}.

Lemma runs_entry m (k : K mach unit) (Q : unit → mach → Prop) :
  reset m →
  (∀ m1, xreg m1 SP = stack0 + 4096 * (csrf m MHARTID + 1) → csrf m1 = csrf m → priv m1 = MM → ram m1 = ram m → runs k m1 Q) →
  runs (_entry page page stack0 k) m Q.
Proof.
  intros [Hp Hh Hs _ _] HQ. unfold _entry. apply runs_bind. unfold _entry_code. assert (HN : NCPU = 8) by done. rewrite HN in *.
  eapply (runs_instr anywhere); [by apply code_machine|apply exec_li|]. eapply (runs_instr anywhere); [by apply code_machine|apply exec_li|].
  eapply (runs_instr anywhere); [by apply code_machine|by apply exec_csrr|]. eapply (runs_instr anywhere); [by apply code_machine|apply exec_addi|].
  eapply (runs_instr anywhere); [by apply code_machine|apply exec_mul|]. eapply (runs_instr anywhere); [by apply code_machine|apply exec_add|].
  apply runs_code_nil, HQ; [|done|done|done].
  assert (E1 : u64 (u64 (csrf m MHARTID) + 1) = csrf m MHARTID + 1) by (rewrite (u64_small (csrf m MHARTID)) by lia; apply u64_small; lia).
  rewrite xreg_put, decide_True by done. transitivity (u64 (u64 stack0 + u64 (4096 * u64 (u64 (csrf m MHARTID) + 1)))); [done|].
  rewrite E1, !u64_small by (rewrite ?u64_small; lia). lia.
Qed.

Lemma lor_bit x y j : Z.testbit y j = true → Z.testbit (Z.lor x y) j = true.
Proof. intros E. rewrite Z.lor_spec, E. apply orb_true_r. Qed.
Lemma lor_bit_l x y j : Z.testbit x j = true → Z.testbit (Z.lor x y) j = true.
Proof. intros E. by rewrite Z.lor_spec, E. Qed.

Lemma runs_timerinit m (Q : unit → mach → Prop) :
  priv m = MM → 0 <= csrf m MHARTID < NCPU → timer_scratch mod 8 = 0 →
  (let id := csrf m MHARTID in
   let m1 := put_csr MTVEC timervec_at (put_csr MSCRATCH (timer_scratch + 40 * id) (set_ram (timer_mem id (ram m)) m)) in
   Q tt (put_csr MIE (Z.lor (csrf m MIE) MIE_MTIE) (put_csr MSTATUS (Z.lor (csrf m MSTATUS) MSTATUS_MIE) m1))) →
  runs timerinit m Q.
Proof.
  intros Hp Hh Ha HQ. cbv zeta in HQ. destruct (clint_cmp_range _ Hh) as (Hc & _ & _). unfold timerinit.
  apply runs_bind, runs_csrr; [done|]. assert (Eid : s32 (csrf m MHARTID) = csrf m MHARTID) by (apply s32_small; unfold NCPU in Hh; lia). rewrite Eid.
  apply runs_bind, runs_load_machine; [done|done|]. apply runs_bind, runs_store_machine; [done|done|].
  apply runs_bind, runs_store_machine; [done|zdm|]. apply runs_bind, runs_store_machine; [done|zdm|].
  apply runs_bind, runs_csrw; [done|]. apply runs_bind, runs_csrw; [done|]. apply runs_bind, runs_csrr; [done|]. apply runs_bind, runs_csrw; [done|].
  apply runs_bind, runs_csrr; [done|]. apply runs_csrw; [done|]. exact HQ.
Qed.

Lemma runs_start m1 m (Q : unit → mach → Prop) :
  reset m → xreg m1 SP = stack0 + 4096 * (csrf m MHARTID + 1) → csrf m1 = csrf m → priv m1 = MM → ram m1 = ram m →
  (∀ m', booted m m' → Q tt m') → runs start m1 Q.
Proof.
  intros [Hp Hh Hs (Hal & Hsc & Hsc2) [Hma Htv]] Esp Ecsr Ep Er HQ. unfold start.
  apply runs_bind, runs_csrr; [done|]. do 5 (apply runs_bind, runs_csrw; [done|]). apply runs_bind, runs_csrr; [done|].
  do 3 (apply runs_bind, runs_csrw; [done|]). apply runs_bind, runs_timerinit; [done| |done|].
  { rewrite !csrf_put, !decide_False by done. by rewrite Ecsr. }
  cbv zeta. apply runs_bind, runs_csrr; [done|]. set (m2 := put_csr MIE _ _).
  assert (Ehart : csrf m2 MHARTID = csrf m MHARTID) by (transitivity (csrf m1 MHARTID); [done|by rewrite Ecsr]). rewrite Ehart.
  apply runs_bind, runs_modify, runs_modify. rewrite s32_small by (unfold NCPU in Hh; lia).
  assert (Hbit : ∀ j, 0 <= j < 64 → j ≠ 3 → MSTATUS_bit j (put_reg TP (csrf m MHARTID) m2) =
    if decide (j = 11) then true else if decide (j = 12) then false else MSTATUS_bit j m1).
  { intros j Hj Hn. unfold MSTATUS_bit. rewrite csrf_reg.
    transitivity (Z.testbit (u64 (Z.lor (u64 (Z.lor (Z.land (csrf m1 MSTATUS) (u64 (Z.lnot MSTATUS_MPP_MASK))) MSTATUS_MPP_S)) MSTATUS_MIE)) j); [done|].
    rewrite testbit_u64, Z.lor_spec, testbit_u64 by done. change MSTATUS_MPP_S with (Z.shiftl (mpp_of SM) 11). rewrite testbit_mpp by done.
    change MSTATUS_MIE with (2 ^ 3). rewrite Z.pow2_bits_false by done. apply orb_false_r. }
  assert (HN : NCPU = 8) by done. rewrite HN in *. apply HQ. split.
  - split; [|rewrite mret_priv, !Hbit by lia; done]. rewrite mret_pc, csrf_reg. transitivity (u64 (u64 main_at)); [done|]. by rewrite !u64_small by (done || by rewrite u64_small).
  - rewrite mret_xreg. transitivity (xreg m1 SP); [done|exact Esp].
  - rewrite mret_xreg, xreg_put, decide_True by done. apply u64_small. lia.
  - rewrite mret_csr by done. done.
  - by rewrite !mret_csr.
  - intros j Hj. rewrite mret_csr, csrf_reg by done. transitivity (Z.testbit (u64 (Z.lor (Z.lor (Z.lor (csrf m1 SIE) SIE_SEIE) SIE_STIE) SIE_SSIE)) j); [done|].
    apply list_elem_of_In in Hj. destruct Hj as [<-|[<-|[<-|[]]]]; rewrite testbit_u64 by lia;
      [by apply lor_bit|by apply lor_bit_l, lor_bit|by apply lor_bit_l, lor_bit_l, lor_bit].
  - rewrite mret_csr, csrf_reg by done. transitivity (Z.testbit (u64 (Z.lor (csrf m1 MIE) MIE_MTIE)) 7); [done|]. rewrite testbit_u64 by lia. by apply lor_bit.
  - rewrite !mret_csr, !csrf_reg by done. split; [transitivity (u64 timervec_at); [done|by apply u64_small]|].
    transitivity (u64 (timer_scratch + 40 * csrf m1 MHARTID)); [done|]. rewrite Ecsr. apply u64_small. change CLINT_MTIME with 33603576 in *. lia.
  - rewrite mret_ram, ram_reg. transitivity (timer_mem (csrf m1 MHARTID) (ram m1)); [done|by rewrite Ecsr, Er].
Qed.
End Boot.

(** ** The clock *)

(** The timer interrupt, from the code it interrupts back to it. *)
Definition tick (page : Z) : K mach unit := modify (enter_machine_trap (2 ^ 63 + 7)) ;;; timervec page page.

(** What runs between two ticks leaves mscratch, the last two words of the
    scratch area and mtimecmp alone. *)
Definition undisturbed (cmp : Z) (m m' : mach) : Prop :=
  csrf m' MSCRATCH = csrf m MSCRATCH ∧
  ∀ a, a ∈ [csrf m MSCRATCH + 24; csrf m MSCRATCH + 32; cmp] → rd64 (ram m') a = rd64 (ram m) a.

(** [m] is reached from [m0] with [n] ticks. *)
Inductive ticked (page cmp : Z) (m0 : mach) : nat → mach → Prop :=
| ticked_start : ticked page cmp m0 0 m0
| ticked_run n m m' : ticked page cmp m0 n m → undisturbed cmp m m' → ticked page cmp m0 n m'
| ticked_tick n m m' : ticked page cmp m0 n m → regs_ok m → 0 <= pcr m < 2 ^ 64 → tick page m = Ok tt m' → ticked page cmp m0 (S n) m'.

Definition clock_ok (cmp start : Z) (n : nat) (m : mach) : Prop :=
  timer_ok m cmp ∧ rd64 (ram m) (csrf m MSCRATCH + 32) = 1000000 ∧ rd64 (ram m) cmp = u64 (start + Z.of_nat n * 1000000).

Lemma clock_undisturbed cmp start n m m' : clock_ok cmp start n m → undisturbed cmp m m' → clock_ok cmp start n m'.
Proof.
  intros ([T1 T2 T3] & Hi & Hc) [E Hk]. split_and!; [split; rewrite ?E| |]; try done.
  - rewrite Hk by (by left). done.
  - rewrite E, Hk by (by right; left). done.
  - rewrite Hk by (by right; right; left). done.
Qed.

Lemma clock_tick page cmp start n m m' :
  clock_ok cmp start n m → regs_ok m → 0 <= pcr m < 2 ^ 64 → tick page m = Ok tt m' → clock_ok cmp start (S n) m'.
Proof.
  intros (Ht & Hi & Hc) Hr Hpc Hrun. pose proof (runs_timervec m cmp (2 ^ 63 + 7) Hr Ht page (λ _ x, x = mret (tv_out m cmp (2 ^ 63 + 7))) eq_refl) as Hx.
  unfold runs in Hx. unfold tick in Hrun. rewrite Hrun in Hx. subst m'. pose proof Ht as [T1 [T2 T2'] T3].
  assert (Esc : csrf (mret (tv_out m cmp (2 ^ 63 + 7))) MSCRATCH = csrf m MSCRATCH) by (rewrite mret_csr by done; by apply tv_out_scratch).
  assert (Eold : ∀ a, a + 8 <= cmp ∨ cmp + 8 <= a → csrf m MSCRATCH + 24 <= a → rd64 (ram (mret (tv_out m cmp (2 ^ 63 + 7)))) a = rd64 (ram m) a).
  { intros a H1 H2. rewrite mret_ram, tv_out_ram, tv_next_old by done. apply tv_saved_old. by right. }
  split_and!.
  - split; rewrite ?Esc; [done| |done]. rewrite Eold; [done|destruct T3; lia|lia].
  - rewrite Esc, Eold; [done|destruct T3; lia|lia].
  - rewrite mret_ram, tv_out_ram, (tv_next_cmp m cmp (2 ^ 63 + 7) Ht), Hc, Hi. unfold u64. rewrite Zplus_mod_idemp_l. f_equal. lia.
Qed.

(** [C15] Every hart gets from reset to main() in supervisor mode on a stack of
    its own, with its number in tp, traps delegated and the timer armed; from
    then on, whatever runs in between, the n-th timer interrupt finds the
    deadline at n intervals after the first and moves it one on, requests a
    software interrupt of the supervisor, and returns to the code it stopped
    with its registers, program counter, mode, interrupt enables and memory as
    they were. *)
Theorem boot_clock stack0 timer_scratch main_at timervec_at page m :
  reset stack0 timer_scratch main_at timervec_at m →
  runs (_entry page page stack0 (start timer_scratch main_at timervec_at)) m (λ _ m0,
    booted stack0 timer_scratch main_at timervec_at m m0 ∧ stack0 + 4096 * csrf m MHARTID + 4096 = xreg m0 SP ∧
    ∀ n m1, ticked page (CLINT_MTIMECMP (csrf m MHARTID)) m0 n m1 →
      rd64 (ram m1) (CLINT_MTIMECMP (csrf m MHARTID)) = u64 (rd64 (ram m) CLINT_MTIME + 1000000 + Z.of_nat n * 1000000) ∧
      (regs_ok m1 → 0 <= pcr m1 < 2 ^ 64 → runs (tick page) m1 (λ _ m2,
         unseen (CLINT_MTIMECMP (csrf m MHARTID)) m1 m2 ∧ ticked page (CLINT_MTIMECMP (csrf m MHARTID)) m0 (S n) m2))).
Proof.
  intros Hrs. eapply runs_entry; [done|]. intros m1 Esp Ec Ep Er. eapply runs_start; try done. intros m0 B. pose proof B as [_ Bsp _ _ _ _ _ [_ Bsc] Bm].
  split_and!; [done|lia|]. set (cmp := CLINT_MTIMECMP (csrf m MHARTID)). destruct Hrs as [_ Hh _ (Hal & Hs1 & Hs2) _].
  destruct (clint_cmp_range _ Hh) as (C1 & C2 & C3). fold cmp in C1, C2, C3. destruct (timer_mem_facts timer_scratch _ (ram m) Hh Hs1) as (F1 & F2 & F3). fold cmp in F1, F3.
  assert (HN : NCPU = 8) by done. change CLINT_MTIME with 33603576 in *. rewrite HN in *.
  assert (H0 : clock_ok cmp (rd64 (ram m) 33603576 + 1000000) 0 m0).
  { split_and!; [split|..]; rewrite ?Bsc, ?Bm; try done; [split_and!; [zdm|lia|lia]|split_and!; [done|done|lia]|lia|]. rewrite F3. f_equal. lia. }
  assert (Hall : ∀ n x, ticked page cmp m0 n x → clock_ok cmp (rd64 (ram m) 33603576 + 1000000) n x).
  { intros n x. induction 1 as [|n x x' _ IH Hu|n x x' _ IH Hr Hpc Ht]; [done|by eapply clock_undisturbed|by eapply clock_tick]. }
  intros n x Hx. pose proof (Hall n x Hx) as Hc. split; [apply Hc|]. intros Hr Hpc. destruct Hc as (Ht & _ & _).
  assert (Ex : runs (tick page) x (λ _ y, y = mret (tv_out x cmp (2 ^ 63 + 7)))) by by apply (runs_timervec x cmp).
  destruct (runs_elim _ _ _ Ex) as ([] & y & Hy & ->). unfold runs. rewrite Hy. split; [|by eapply ticked_tick].
  by apply timer_unseen.
Qed.

Lemma boot_clock_witness :
  let m := fresh_mach MM [] in
  runs (_entry 0x80000000 0x80000000 0x80010000 (start 0x80020000 0x80001000 0x80002000)) m (λ _ m0,
    booted 0x80010000 0x80020000 0x80001000 0x80002000 m m0 ∧
    ∀ n m1, ticked 0x80000000 (CLINT_MTIMECMP 0) m0 n m1 →
      rd64 (ram m1) (CLINT_MTIMECMP 0) = u64 (1000000 + Z.of_nat n * 1000000)).
Proof.
  intros m. eapply runs_mono; [apply (boot_clock 0x80010000 0x80020000 0x80001000 0x80002000 0x80000000 m)|].
  - by split.
  - intros [] m0 (Hb & _ & Ht). split; [exact Hb|]. intros n m1 Hn. exact (proj1 (Ht n m1 Hn)).
Defined.
