(* ===== verification/Space.v ===== *)
(** The address spaces that a process runs in: what the page tables of vm.c
    mean to the hardware.

    A process has a page table of its own and shares that of the kernel.  Both
    map the trampoline page at the same address, and the process's table maps
    its trapframe below it. *)

From S2P Require Import Prelude Mem CString Riscv Spinlock Kalloc Vm VmSpec Machine Asm AsmSpec.
Local Open Scope kernel_scope.

(** ** Translation through one entry *)

Lemma pteval_page r root va va' : va / 4096 = va' / 4096 → pteval r root va = pteval r root va'.
Proof.
  intros E. assert (Hv : ∀ l, 0 <= l → PX l va = PX l va').
  { intros l Hl. rewrite <-(PX_page va), <-(PX_page va') by done. by rewrite E. }
  unfold pteval, vpath. by rewrite !Hv by lia.
Qed.

Lemma page_offset va o : va mod 4096 = 0 → 0 <= o < 4096 → (va + o) / 4096 = va / 4096 ∧ (va + o) mod 4096 = o.
Proof. intros Hva Ho. zdm. Qed.
Lemma page_top va o e : va mod 4096 = 0 → 0 <= o < 4096 → va < e * 4096 → va + o < e * 4096.
Proof. intros Hva Ho He. zdm. Qed.

Definition grants (a : access) (perm : Z) : bool := negb (Z.land perm (perm_of a) =? 0).

Lemma sv39_mapped r root a va pa perm o :
  0 <= pa < 2 ^ 56 → page_aligned pa → page_aligned va → 0 <= va < MAXVA → 0 <= o < 4096 →
  0 <= perm < 1024 → Z.land perm PTE_U = 0 → grants a perm = true →
  pteval r root va = mkpte pa perm → sv39 r root SM a (va + o) = Some (pa + o).
Proof.
  intros Hpa Hal Hva Hr Ho Hp Hu Hg E. destruct (mkpte_props pa perm Hpa Hal Hp) as (_ & Hv & Ha & Hf).
  destruct (page_offset va o Hva Ho) as [Ed Em]. pose proof (page_top va o 67108864 Hva Ho (proj2 Hr) : va + o < MAXVA) as El. unfold sv39. rewrite (pteval_page r root (va + o) va Ed), E. unfold valid. rewrite Hv, Ha, (land_flag _ (perm_of a)), (land_flag _ PTE_U), Hf by (destruct a; done).
  rewrite !Z.land_lor_distr_l, Hu. change PGSIZE with 4096. rewrite Em. destruct (Z.leb_spec 0 (va + o)); [|lia]. destruct (Z.ltb_spec (va + o) MAXVA); [|lia].
  unfold grants in Hg. destruct (Z.eqb_spec (Z.land perm (perm_of a)) 0); [done|]. assert (E1 : Z.land 1 (perm_of a) = 0) by by destruct a. rewrite E1, Z.lor_0_r.
  destruct (Z.eqb_spec (Z.land perm (perm_of a)) 0); [done|]. done.
Qed.

Lemma satp_fields pagetable : page_aligned pagetable → 0 <= pagetable < 2 ^ 56 →
  MAKE_SATP pagetable / 2 ^ 60 = 8 ∧ satp_root (MAKE_SATP pagetable) = pagetable ∧ 0 <= MAKE_SATP pagetable < 2 ^ 64.
Proof.
  unfold page_aligned. intros Ha Hr. unfold MAKE_SATP, satp_root. rewrite Z.shiftr_div_pow2 by lia.
  assert (Hd : 0 <= pagetable / 2 ^ 12 < 2 ^ 44) by zdm. rewrite (lor_low_add SATP_SV39 _ 44) by done.
  change SATP_SV39 with (8 * 2 ^ 60). change (2 ^ 12) with 4096 in *. split_and!; zdm.
Qed.

(** ** The spaces of a process *)

Definition in_frame (tf a : Z) : Prop := tf <= a < tf + tf_size.

Definition TRAMPOLINE_PERM : Z := Z.lor PTE_R PTE_X.
Definition TRAPFRAME_PERM : Z := Z.lor PTE_R PTE_W.

(** [kroot] and [pagetable] are the tables of the kernel and of the process,
    [trampoline] and [tf] the physical pages of the trampoline and of the
    trapframe. *)
Record spaces (kend kroot trampoline : Z) (r : mem) (pagetable tf : Z) : Prop := {
  sp_kwf : pt_wf kend r kroot;
  sp_uwf : pt_wf kend r pagetable;
  sp_tramp : page_aligned trampoline ∧ 0 <= trampoline < 2 ^ 56;
  sp_ktramp : pteval r kroot TRAMPOLINE = mkpte trampoline TRAMPOLINE_PERM;
  sp_utramp : pteval r pagetable TRAMPOLINE = mkpte trampoline TRAMPOLINE_PERM;
  sp_frame : pteval r pagetable TRAPFRAME = mkpte tf TRAPFRAME_PERM;
  sp_tf : page_ok kend tf;
  sp_apart : ¬ is_node r kroot tf ∧ ¬ is_node r pagetable tf
}.

Section Spaces.
Context (kend kroot trampoline : Z) (kend_pos : 0 < kend).

Lemma page_ok_big p : page_ok kend p → page_aligned p ∧ 0 < p < 2 ^ 56.
Proof using kend_pos. intros H. pose proof (page_ok_range kend kend_pos p H). destruct H as [Ha _]. change PHYSTOP with 2281701376 in *. split; [done|lia]. Qed.

(** Writing a page that is no table changes no table. *)
Definition in_page (q a : Z) : Prop := q <= a < q + 4096.

Lemma page_tables r r' root q : pt_wf kend r root → page_aligned q → ¬ is_node r root q → agree_off (in_page q) r r' →
  pt_wf kend r' root ∧ (∀ va, pteval r' root va = pteval r root va) ∧ (∀ p, is_node r' root p ↔ is_node r root p).
Proof using Type.
  intros Hw Hq Hn Ha. assert (Hag : ∀ p, is_node r root p → agree r r' p 4096).
  { intros p Hp b Hb. apply Ha. intros Hin. unfold in_page in Hin. pose proof (node_page_aligned kend r root p Hw Hp) as [Hal _].
    destruct (pages_disjoint p q Hal Hq); [|lia|lia]. intros ->. done. }
  destruct (tree_frame r r' root Hag) as [Hnode Hpte].
  split_and!; [by eapply pt_wf_frame|done|]. intros p. by apply is_node_ext.
Qed.

Lemma spaces_page r r' pagetable tf q : spaces kend kroot trampoline r pagetable tf →
  page_aligned q → ¬ is_node r kroot q → ¬ is_node r pagetable q → agree_off (in_page q) r r' → spaces kend kroot trampoline r' pagetable tf.
Proof using Type.
  intros [K U T KT UT Fr Ok [N1 N2]] Hq M1 M2 Ha. destruct (page_tables r r' kroot q) as (H1 & H2 & H3); try done.
  destruct (page_tables r r' pagetable q) as (G1 & G2 & G3); try done. split; rewrite ?H2, ?G2, ?H3, ?G3; done.
Qed.

Lemma spaces_frame r r' pagetable tf : spaces kend kroot trampoline r pagetable tf → agree_off (in_frame tf) r r' →
  spaces kend kroot trampoline r' pagetable tf.
Proof using Type.
  intros Hs Ha. pose proof Hs as [_ _ _ _ _ _ Ok [N1 N2]]. apply (spaces_page r r' pagetable tf tf Hs (proj1 Ok) N1 N2).
  intros b Hb. apply Ha. unfold in_page, in_frame, tf_size in *. lia.
Qed.

Lemma root_big r root : pt_wf kend r root → page_aligned root ∧ 0 < root < 2 ^ 56.
Proof using kend_pos. intros H. apply page_ok_big, (node_page_aligned kend r root root H), is_node_root. Qed.

Lemma xlate_root m root a va : page_aligned root → 0 < root < 2 ^ 56 → priv m = SM → csrf m SATP = MAKE_SATP root →
  xlate m a va = sv39 (ram m) root SM a va.
Proof using Type.
  intros Ha Hr Hp Hs. destruct (satp_fields root Ha ltac:(lia)) as (H1 & H2 & _). unfold xlate. rewrite Hp, Hs, H1, H2. done.
Qed.

Lemma tramp_va : page_aligned TRAMPOLINE ∧ 0 <= TRAMPOLINE < MAXVA ∧ page_aligned TRAPFRAME ∧ 0 <= TRAPFRAME < MAXVA.
Proof using Type. done. Qed.

Lemma fetch_tramp r pagetable tf root m : spaces kend kroot trampoline r pagetable tf → root = kroot ∨ root = pagetable →
  priv m = SM → csrf m SATP = MAKE_SATP root → agree_off (in_frame tf) r (ram m) → xlate m Fetch TRAMPOLINE = Some trampoline.
Proof using kend_pos.
  intros Hs Hroot Hp Hsatp Ha. apply (spaces_frame _ (ram m)) in Hs; [|done]. destruct Hs as [K U [T1 T2] KT UT Fr Ok [N1 N2]].
  assert (E : pt_wf kend (ram m) root ∧ pteval (ram m) root TRAMPOLINE = mkpte trampoline TRAMPOLINE_PERM) by (by destruct Hroot as [->| ->]).
  destruct E as [Ew Ep]. destruct (root_big (ram m) root Ew) as [Ra Rr]. rewrite (xlate_root m root) by done.
  rewrite <-(Z.add_0_r TRAMPOLINE), <-(Z.add_0_r trampoline). destruct tramp_va as (V1 & V2 & _). by apply (sv39_mapped _ _ _ _ _ TRAMPOLINE_PERM).
Qed.

Lemma code_tramp pagetable tf root m : spaces kend kroot trampoline (ram m) pagetable tf → root = kroot ∨ root = pagetable →
  priv m = SM → csrf m SATP = MAKE_SATP root → code_at (in_frame tf) m TRAMPOLINE trampoline.
Proof using kend_pos. intros Hs Hroot Hp Hsatp r Hr. by apply (fetch_tramp (ram m) pagetable tf root). Qed.

Lemma window_frame pagetable tf m : spaces kend kroot trampoline (ram m) pagetable tf →
  priv m = SM → csrf m SATP = MAKE_SATP pagetable → window (in_frame tf) m TRAPFRAME tf tf_size.
Proof using kend_pos.
  intros Hs Hp Hsatp. split_and!; [done|done|done|]. intros o Ho. split; [unfold in_frame; lia|]. intros r Hr.
  apply (spaces_frame _ r) in Hs; [|done]. destruct Hs as [K U _ KT UT Fr Ok [N1 N2]]. destruct (root_big r pagetable U) as [Ra Rr].
  destruct (page_ok_big tf Ok) as [Ta Tr]. unfold tf_size in Ho. destruct tramp_va as (_ & _ & V1 & V2).
  rewrite !(xlate_root (set_ram r m) pagetable) by done. split; apply (sv39_mapped _ _ _ _ _ TRAPFRAME_PERM); try done; lia.
Qed.
End Spaces.

(** ** The kernel's own space *)

(** The bytes of the tables below [root]. *)
Definition table_byte (r : mem) (root b : Z) : Prop := ∃ q, is_node r root q ∧ in_page q b.

Section Kernel.
Context (kend kroot : Z) (kend_pos : 0 < kend).

(** As long as the tables are not written, the hardware finds what they map. *)
Lemma kernel_page D m vp pp perm a o :
  pt_wf kend (ram m) kroot → (∀ b, table_byte (ram m) kroot b → ¬ D b) → priv m = SM → csrf m SATP = MAKE_SATP kroot →
  page_aligned vp → 0 <= vp < MAXVA → page_aligned pp → 0 <= pp < 2 ^ 56 → 0 <= perm < 1024 → Z.land perm PTE_U = 0 → grants a perm = true →
  pteval (ram m) kroot vp = mkpte pp perm → 0 <= o < 4096 →
  ∀ r, agree_off D (ram m) r → xlate (set_ram r m) a (vp + o) = Some (pp + o).
Proof using kend_pos.
  intros Hw HD Hp Hs Va Vr Pa Pr Hperm Hu Hg E Ho r Hr. destruct (tree_frame (ram m) r kroot) as [Hnode Hpte].
  { intros q Hq b Hb. apply Hr, HD. exists q. split; [done|]. unfold in_page. lia. }
  destruct (root_big kend kend_pos (ram m) kroot Hw) as [Ra Rr]. rewrite (xlate_root (set_ram r m) kroot) by done.
  cbn [ram set_ram]. apply (sv39_mapped _ _ _ _ _ perm); try done. by rewrite Hpte.
Qed.
End Kernel.
