(* ===== verification/Proc.v ===== *)
(** kernel/proc.c and kernel/sysproc.c: the process table, creation and end of
    processes, sleeping and waking, and the scheduler.

    The state is that of one hart: the table, the locks as flags with the
    hart's nesting of push_off, the process that runs ([cur], mycpu()->proc)
    and the memory of Vm.  A pointer to proc[k] is the number k + 1, and 0 is
    the null pointer.  A function that calls swtch is modelled up to the
    switch: sched performs its checks and saves intena, and what the scheduler
    does when the process comes back is [scheduler_return].  The file system
    is used through the interface [FileOps]. *)

From S2P Require Import Prelude Mem CString Riscv Spinlock Kalloc Vm.
Local Open Scope kernel_scope.

(** What proc.c calls of file.c, fs.c and log.c. *)
Class FileOps (F : Type) := {
  f_filedup : Z → K F Z;
  f_fileclose : Z → K F unit;
  f_idup : Z → K F Z;
  f_iput : Z → K F unit;
  f_begin_op : K F unit;
  f_end_op : K F unit;
  f_root : K F Z; (* namei("/") *)
  f_write_to_logs : list Z → K F unit
}.

Inductive procstate := UNUSED | USED | SLEEPING | RUNNABLE | RUNNING | ZOMBIE.
#[global] Instance procstate_eq_dec : EqDecision procstate.
Proof. solve_decision. Defined.
Definition is_state (x y : procstate) : bool := bool_decide (x = y).

(** [p_ra], [p_sp] are the fields of the saved context that the kernel sets,
    and [p_intena] is sched's local copy of mycpu()->intena. *)
Record proc := mkProc {
  p_lock : bool; p_state : procstate; p_chan : Z; p_killed : Z; p_xstate : Z; p_pid : Z;
  p_parent : Z; p_kstack : Z; p_sz : Z; p_pagetable : Z; p_trapframe : Z; p_ra : Z; p_sp : Z;
  p_ofile : list Z; p_cwd : Z; p_name : list Z; p_intena : bool
}.

Definition set_p_lock (x : bool) (p : proc) : proc :=
  mkProc x (p_state p) (p_chan p) (p_killed p) (p_xstate p) (p_pid p) (p_parent p) (p_kstack p) (p_sz p)
    (p_pagetable p) (p_trapframe p) (p_ra p) (p_sp p) (p_ofile p) (p_cwd p) (p_name p) (p_intena p).
Definition set_p_state (x : procstate) (p : proc) : proc :=
  mkProc (p_lock p) x (p_chan p) (p_killed p) (p_xstate p) (p_pid p) (p_parent p) (p_kstack p) (p_sz p)
    (p_pagetable p) (p_trapframe p) (p_ra p) (p_sp p) (p_ofile p) (p_cwd p) (p_name p) (p_intena p).
Definition set_p_chan (x : Z) (p : proc) : proc :=
  mkProc (p_lock p) (p_state p) x (p_killed p) (p_xstate p) (p_pid p) (p_parent p) (p_kstack p) (p_sz p)
    (p_pagetable p) (p_trapframe p) (p_ra p) (p_sp p) (p_ofile p) (p_cwd p) (p_name p) (p_intena p).
Definition set_p_killed (x : Z) (p : proc) : proc :=
  mkProc (p_lock p) (p_state p) (p_chan p) x (p_xstate p) (p_pid p) (p_parent p) (p_kstack p) (p_sz p)
    (p_pagetable p) (p_trapframe p) (p_ra p) (p_sp p) (p_ofile p) (p_cwd p) (p_name p) (p_intena p).
Definition set_p_xstate (x : Z) (p : proc) : proc :=
  mkProc (p_lock p) (p_state p) (p_chan p) (p_killed p) x (p_pid p) (p_parent p) (p_kstack p) (p_sz p)
    (p_pagetable p) (p_trapframe p) (p_ra p) (p_sp p) (p_ofile p) (p_cwd p) (p_name p) (p_intena p).
Definition set_p_pid (x : Z) (p : proc) : proc :=
  mkProc (p_lock p) (p_state p) (p_chan p) (p_killed p) (p_xstate p) x (p_parent p) (p_kstack p) (p_sz p)
    (p_pagetable p) (p_trapframe p) (p_ra p) (p_sp p) (p_ofile p) (p_cwd p) (p_name p) (p_intena p).
Definition set_p_parent (x : Z) (p : proc) : proc :=
  mkProc (p_lock p) (p_state p) (p_chan p) (p_killed p) (p_xstate p) (p_pid p) x (p_kstack p) (p_sz p)
    (p_pagetable p) (p_trapframe p) (p_ra p) (p_sp p) (p_ofile p) (p_cwd p) (p_name p) (p_intena p).
Definition set_p_kstack (x : Z) (p : proc) : proc :=
  mkProc (p_lock p) (p_state p) (p_chan p) (p_killed p) (p_xstate p) (p_pid p) (p_parent p) x (p_sz p)
    (p_pagetable p) (p_trapframe p) (p_ra p) (p_sp p) (p_ofile p) (p_cwd p) (p_name p) (p_intena p).
(** p->sz, p->pagetable and p->trapframe. *)
Definition set_p_mem (sz pt tf : Z) (p : proc) : proc :=
  mkProc (p_lock p) (p_state p) (p_chan p) (p_killed p) (p_xstate p) (p_pid p) (p_parent p) (p_kstack p) sz
    pt tf (p_ra p) (p_sp p) (p_ofile p) (p_cwd p) (p_name p) (p_intena p).
Definition set_p_context (ra sp : Z) (p : proc) : proc :=
  mkProc (p_lock p) (p_state p) (p_chan p) (p_killed p) (p_xstate p) (p_pid p) (p_parent p) (p_kstack p) (p_sz p)
    (p_pagetable p) (p_trapframe p) ra sp (p_ofile p) (p_cwd p) (p_name p) (p_intena p).
Definition set_p_files (ofile : list Z) (cwd : Z) (p : proc) : proc :=
  mkProc (p_lock p) (p_state p) (p_chan p) (p_killed p) (p_xstate p) (p_pid p) (p_parent p) (p_kstack p) (p_sz p)
    (p_pagetable p) (p_trapframe p) (p_ra p) (p_sp p) ofile cwd (p_name p) (p_intena p).
Definition set_p_name (x : list Z) (p : proc) : proc :=
  mkProc (p_lock p) (p_state p) (p_chan p) (p_killed p) (p_xstate p) (p_pid p) (p_parent p) (p_kstack p) (p_sz p)
    (p_pagetable p) (p_trapframe p) (p_ra p) (p_sp p) (p_ofile p) (p_cwd p) x (p_intena p).
Definition set_p_intena (x : bool) (p : proc) : proc :=
  mkProc (p_lock p) (p_state p) (p_chan p) (p_killed p) (p_xstate p) (p_pid p) (p_parent p) (p_kstack p) (p_sz p)
    (p_pagetable p) (p_trapframe p) (p_ra p) (p_sp p) (p_ofile p) (p_cwd p) (p_name p) x.

Record pst (F : Type) := mkP {
  procs : list proc; nextpid : Z; pid_lock : bool; wait_lock : bool; initproc : Z;
  cur : Z; cpu : hart; vm : kst; files : F; wfis : Z; ticks : Z; tickslock : bool; prev_tick : Z
}.
Arguments mkP {F} _ _ _ _ _ _ _ _ _ _ _ _ _.
Arguments procs {F} _.
Arguments nextpid {F} _.
Arguments pid_lock {F} _.
Arguments wait_lock {F} _.
Arguments initproc {F} _.
Arguments cur {F} _.
Arguments cpu {F} _.
Arguments vm {F} _.
Arguments files {F} _.
Arguments wfis {F} _.
Arguments ticks {F} _.
Arguments tickslock {F} _.
Arguments prev_tick {F} _.

(** safestrcpy(dst, src, sizeof(p->name)) on two name buffers. *)
Definition copy_name (dst src : list Z) : list Z :=
  rd_bytes (safestrcpy (wr_bytes (wr_bytes ∅ 0 dst) 16 src) 0 16 16) 0 16.

(** Offsets in struct trapframe and its size. *)
Definition tf_epc : Z := 24.
Definition tf_sp : Z := 48.
Definition tf_a0 : Z := 112.
Definition sizeof_trapframe : Z := 288.

Section Proc.
(** Symbols defined by the linker script, the addresses of forkret and
    initcode, and the address of the field xstate of a process. *)
Context (kend trampoline forkret initcode : Z) (xstate_at : Z → Z).
Context {F : Type} `{FO : !FileOps F}.
Abbreviation st := (pst F).

Definition set_procs (x : list proc) (s : st) : st :=
  mkP x (nextpid s) (pid_lock s) (wait_lock s) (initproc s) (cur s) (cpu s) (vm s) (files s) (wfis s) (ticks s) (tickslock s) (prev_tick s).
Definition set_nextpid (x : Z) (s : st) : st :=
  mkP (procs s) x (pid_lock s) (wait_lock s) (initproc s) (cur s) (cpu s) (vm s) (files s) (wfis s) (ticks s) (tickslock s) (prev_tick s).
Definition set_pid_lock (x : bool) (s : st) : st :=
  mkP (procs s) (nextpid s) x (wait_lock s) (initproc s) (cur s) (cpu s) (vm s) (files s) (wfis s) (ticks s) (tickslock s) (prev_tick s).
Definition set_wait_lock (x : bool) (s : st) : st :=
  mkP (procs s) (nextpid s) (pid_lock s) x (initproc s) (cur s) (cpu s) (vm s) (files s) (wfis s) (ticks s) (tickslock s) (prev_tick s).
Definition set_initproc (x : Z) (s : st) : st :=
  mkP (procs s) (nextpid s) (pid_lock s) (wait_lock s) x (cur s) (cpu s) (vm s) (files s) (wfis s) (ticks s) (tickslock s) (prev_tick s).
Definition set_cur (x : Z) (s : st) : st :=
  mkP (procs s) (nextpid s) (pid_lock s) (wait_lock s) (initproc s) x (cpu s) (vm s) (files s) (wfis s) (ticks s) (tickslock s) (prev_tick s).
Definition set_cpu (x : hart) (s : st) : st :=
  mkP (procs s) (nextpid s) (pid_lock s) (wait_lock s) (initproc s) (cur s) x (vm s) (files s) (wfis s) (ticks s) (tickslock s) (prev_tick s).
Definition set_vm (x : kst) (s : st) : st :=
  mkP (procs s) (nextpid s) (pid_lock s) (wait_lock s) (initproc s) (cur s) (cpu s) x (files s) (wfis s) (ticks s) (tickslock s) (prev_tick s).
Definition set_files (x : F) (s : st) : st :=
  mkP (procs s) (nextpid s) (pid_lock s) (wait_lock s) (initproc s) (cur s) (cpu s) (vm s) x (wfis s) (ticks s) (tickslock s) (prev_tick s).
Definition set_wfis (x : Z) (s : st) : st :=
  mkP (procs s) (nextpid s) (pid_lock s) (wait_lock s) (initproc s) (cur s) (cpu s) (vm s) (files s) x (ticks s) (tickslock s) (prev_tick s).
Definition set_ticks (x : Z) (s : st) : st :=
  mkP (procs s) (nextpid s) (pid_lock s) (wait_lock s) (initproc s) (cur s) (cpu s) (vm s) (files s) (wfis s) x (tickslock s) (prev_tick s).
Definition set_tickslock (x : bool) (s : st) : st :=
  mkP (procs s) (nextpid s) (pid_lock s) (wait_lock s) (initproc s) (cur s) (cpu s) (vm s) (files s) (wfis s) (ticks s) x (prev_tick s).
Definition set_prev_tick (x : Z) (s : st) : st :=
  mkP (procs s) (nextpid s) (pid_lock s) (wait_lock s) (initproc s) (cur s) (cpu s) (vm s) (files s) (wfis s) (ticks s) (tickslock s) x.

Definition on_vm {A} (m : K kst A) : K st A := zoom vm set_vm m.
Definition on_files {A} (m : K F A) : K st A := zoom files set_files m.
Definition on_cpu {A} (m : K hart A) : K st A := zoom cpu set_cpu m.

Definition pidx (p : Z) : nat := Z.to_nat (p - 1).
Definition getp (p : Z) : K st proc := λ s,
  match procs s !! pidx p with
  | Some x => if 1 <=? p then Ok x s else UB "struct proc: null pointer"
  | None => UB "struct proc: bad pointer"
  end.
Definition setp (p : Z) (f : proc → proc) : K st unit := λ s,
  match procs s !! pidx p with
  | Some x => if 1 <=? p then Ok tt (set_procs (<[pidx p := f x]> (procs s)) s)
              else UB "struct proc: null pointer"
  | None => UB "struct proc: bad pointer"
  end.

(** acquire and release of a spin lock: a flag, inside push_off and pop_off. *)
Definition acquire (held : st → bool) (set : bool → st → st) : K st unit :=
  on_cpu push_off ;;; acquire_flag held set.
Definition release (held : st → bool) (set : bool → st → st) : K st unit :=
  release_flag held set ;;; on_cpu pop_off.

Definition acquire_p (p : Z) : K st unit :=
  on_cpu push_off ;;; x <- getp p ;;;
  if p_lock x then panic "acquire" else setp p (set_p_lock true).
Definition release_p (p : Z) : K st unit :=
  (x <- getp p ;;; if negb (p_lock x) then panic "release" else setp p (set_p_lock false)) ;;;
  on_cpu pop_off.

(** for(p = proc; p < &proc[NPROC]; p++) *)
Definition for_procs {B} (none : B) (body : Z → K st (option B)) : K st B :=
  iter (Datatypes.S (Z.to_nat NPROC)) (λ p,
    if p <? 1 + NPROC then
      r <- body p ;;;
      match r with Some b => ret (inr b) | None => ret (inl (p + 1)) end
    else ret (inr none)) 1.

Definition procinit : K st unit :=
  modify (set_pid_lock false) ;;;
  modify (set_wait_lock false) ;;;
  for_procs tt (λ p,
    setp p (λ x, set_p_kstack (KSTACK (p - 1)) (set_p_state UNUSED (set_p_lock false x))) ;;; ret None).

Definition myproc : K st Z :=
  on_cpu push_off ;;; p <- gets cur ;;; on_cpu pop_off ;;; ret p.

Definition allocpid : K st Z :=
  acquire pid_lock set_pid_lock ;;;
  pid <- gets nextpid ;;;
  modify (set_nextpid (s32 (pid + 1))) ;;;
  release pid_lock set_pid_lock ;;;
  ret pid.

Definition proc_freepagetable (pagetable sz : Z) : K st unit :=
  on_vm (uvmunmap kend pagetable TRAMPOLINE 1 false ;;;
         uvmunmap kend pagetable TRAPFRAME 1 false ;;;
         uvmfree kend pagetable sz).

Definition freeproc (p : Z) : K st unit :=
  x <- getp p ;;;
  (if negb (p_trapframe x =? 0) then on_vm (kfree kend (p_trapframe x)) else ret tt) ;;;
  setp p (λ x, set_p_mem (p_sz x) (p_pagetable x) 0 x) ;;;
  (if negb (p_pagetable x =? 0) then proc_freepagetable (p_pagetable x) (p_sz x) else ret tt) ;;;
  setp p (λ x, set_p_mem 0 0 (p_trapframe x) x) ;;;
  setp p (set_p_pid 0) ;;;
  setp p (set_p_parent 0) ;;;
  setp p (λ x, set_p_name (<[0%nat := 0]> (p_name x)) x) ;;;
  setp p (set_p_chan 0) ;;;
  setp p (set_p_killed 0) ;;;
  setp p (set_p_xstate 0) ;;;
  setp p (set_p_state UNUSED).

Definition proc_pagetable (p : Z) : K st Z :=
  x <- getp p ;;;
  on_vm (
    pagetable <- uvmcreate ;;;
    if pagetable =? 0 then ret 0
    else
      r <- mappages pagetable TRAMPOLINE PGSIZE trampoline (Z.lor PTE_R PTE_X) ;;;
      if r <? 0 then uvmfree kend pagetable 0 ;;; ret 0
      else
        r <- mappages pagetable TRAPFRAME PGSIZE (p_trapframe x) (Z.lor PTE_R PTE_W) ;;;
        if r <? 0 then
          uvmunmap kend pagetable TRAMPOLINE 1 false ;;; uvmfree kend pagetable 0 ;;; ret 0
        else ret pagetable).

Definition allocproc : K st Z :=
  p <- for_procs 0 (λ p,
    acquire_p p ;;;
    x <- getp p ;;;
    if is_state (p_state x) UNUSED then ret (Some p) else release_p p ;;; ret None) ;;;
  if p =? 0 then ret 0
  else
    pid <- allocpid ;;;
    setp p (set_p_pid pid) ;;;
    setp p (set_p_state USED) ;;;
    tf <- on_vm kalloc ;;;
    setp p (λ x, set_p_mem (p_sz x) (p_pagetable x) tf x) ;;;
    if tf =? 0 then freeproc p ;;; release_p p ;;; ret 0
    else
      pt <- proc_pagetable p ;;;
      setp p (λ x, set_p_mem (p_sz x) pt (p_trapframe x) x) ;;;
      if pt =? 0 then freeproc p ;;; release_p p ;;; ret 0
      else
        setp p (λ x, set_p_context forkret (p_kstack x + PGSIZE) x) ;;;
        ret p.

(** "initcode" *)
Definition initcode_name : list Z := [105; 110; 105; 116; 99; 111; 100; 101; 0; 0; 0; 0; 0; 0; 0; 0].
Definition sizeof_initcode : Z := 52.

Definition userinit : K st unit :=
  p <- allocproc ;;;
  modify (set_initproc p) ;;;
  x <- getp p ;;;
  on_vm (uvmfirst (p_pagetable x) initcode sizeof_initcode) ;;;
  setp p (λ x, set_p_mem PGSIZE (p_pagetable x) (p_trapframe x) x) ;;;
  on_vm (store64 (p_trapframe x + tf_epc) 0) ;;;
  on_vm (store64 (p_trapframe x + tf_sp) PGSIZE) ;;;
  setp p (λ x, set_p_name (copy_name (p_name x) initcode_name) x) ;;;
  cwd <- on_files f_root ;;;
  setp p (λ x, set_p_files (p_ofile x) cwd x) ;;;
  setp p (set_p_state RUNNABLE) ;;;
  release_p p.

Definition growproc (n : Z) : K st Z :=
  p <- myproc ;;;
  x <- getp p ;;;
  r <- (if n >? 0 then
          sz <- on_vm (uvmalloc kend (p_pagetable x) (p_sz x) (u64 (p_sz x + n)) PTE_W) ;;;
          if sz =? 0 then ret None else ret (Some sz)
        else if n <? 0 then
          sz <- on_vm (uvmdealloc kend (p_pagetable x) (p_sz x) (u64 (p_sz x + n))) ;;; ret (Some sz)
        else ret (Some (p_sz x))) ;;;
  match r with
  | None => ret (-1)
  | Some sz => setp p (λ x, set_p_mem sz (p_pagetable x) (p_trapframe x) x) ;;; ret 0
  end.

(** for(i = 0; i < NOFILE; i++) if(p->ofile[i]) np->ofile[i] = filedup(p->ofile[i]); *)
Definition fork_files (p np : Z) : K st unit :=
  iter (Datatypes.S (Z.to_nat NOFILE)) (λ i,
    if i <? NOFILE then
      x <- getp p ;;;
      let f := default 0 (p_ofile x !! Z.to_nat i) in
      (if negb (f =? 0) then
         f' <- on_files (f_filedup f) ;;;
         setp np (λ y, set_p_files (<[Z.to_nat i := f']> (p_ofile y)) (p_cwd y) y)
       else ret tt) ;;;
      ret (inl (i + 1))
    else ret (inr tt)) 0.

Definition fork : K st Z :=
  p <- myproc ;;;
  np <- allocproc ;;;
  if np =? 0 then ret (-1)
  else
    x <- getp p ;;;
    y <- getp np ;;;
    r <- on_vm (uvmcopy kend (p_pagetable x) (p_pagetable y) (p_sz x)) ;;;
    if r <? 0 then freeproc np ;;; release_p np ;;; ret (-1)
    else
      setp np (λ y, set_p_mem (p_sz x) (p_pagetable y) (p_trapframe y) y) ;;;
      on_vm (do_memmove (p_trapframe y) (p_trapframe x) sizeof_trapframe) ;;;
      on_vm (store64 (p_trapframe y + tf_a0) 0) ;;;
      fork_files p np ;;;
      cwd <- on_files (f_idup (p_cwd x)) ;;;
      setp np (λ y, set_p_files (p_ofile y) cwd y) ;;;
      setp np (λ y, set_p_name (copy_name (p_name y) (p_name x)) y) ;;;
      y <- getp np ;;;
      let pid := p_pid y in
      release_p np ;;;
      acquire wait_lock set_wait_lock ;;;
      setp np (set_p_parent p) ;;;
      release wait_lock set_wait_lock ;;;
      acquire_p np ;;;
      setp np (set_p_state RUNNABLE) ;;;
      release_p np ;;;
      ret pid.

(** ** Sleeping and waking *)

Definition wakeup (chan : Z) : K st unit :=
  for_procs tt (λ p,
    me <- myproc ;;;
    if negb (p =? me) then
      acquire_p p ;;;
      x <- getp p ;;;
      (if is_state (p_state x) SLEEPING && (p_chan x =? chan) then setp p (set_p_state RUNNABLE) else ret tt) ;;;
      release_p p ;;;
      ret None
    else ret None).

(** sched up to the swtch, with intena saved on the process's stack. *)
Definition sched : K st unit :=
  p <- myproc ;;;
  x <- getp p ;;;
  if negb (p_lock x) then panic "sched p->lock"
  else
    c <- gets cpu ;;;
    if negb (noff c =? 1) then panic "sched locks"
    else if is_state (p_state x) RUNNING then panic "sched running"
    else if sie c then panic "sched interruptible"
    else setp p (set_p_intena (intena c)).

(** sleep up to the switch, and from the switch back to the process. *)
Definition sleep_enter (chan : Z) (release_lk : K st unit) : K st unit :=
  p <- myproc ;;;
  acquire_p p ;;;
  release_lk ;;;
  setp p (set_p_chan chan) ;;;
  setp p (set_p_state SLEEPING) ;;;
  sched.

Definition sched_resume : K st unit :=
  p <- gets cur ;;;
  x <- getp p ;;;
  modify (λ s, set_cpu (mkHart (noff (cpu s)) (p_intena x) (sie (cpu s))) s).

Definition sleep_leave (acquire_lk : K st unit) : K st unit :=
  sched_resume ;;;
  p <- gets cur ;;;
  setp p (set_p_chan 0) ;;;
  release_p p ;;;
  acquire_lk.

Definition yield : K st unit :=
  p <- myproc ;;;
  acquire_p p ;;;
  setp p (set_p_state RUNNABLE) ;;;
  sched.

Definition yield_leave : K st unit :=
  sched_resume ;;; p <- gets cur ;;; release_p p.

Definition kill (pid : Z) : K st Z :=
  for_procs (-1) (λ p,
    acquire_p p ;;;
    x <- getp p ;;;
    if p_pid x =? pid then
      setp p (set_p_killed 1) ;;;
      (if is_state (p_state x) SLEEPING then setp p (set_p_state RUNNABLE) else ret tt) ;;;
      release_p p ;;;
      ret (Some 0)
    else release_p p ;;; ret None).

Definition setkilled (p : Z) : K st unit :=
  acquire_p p ;;; setp p (set_p_killed 1) ;;; release_p p.

Definition killed (p : Z) : K st Z :=
  acquire_p p ;;; x <- getp p ;;; release_p p ;;; ret (p_killed x).

(** ** The end of a process *)

Definition reparent (p : Z) : K st unit :=
  for_procs tt (λ pp,
    x <- getp pp ;;;
    if p_parent x =? p then
      init <- gets initproc ;;;
      setp pp (set_p_parent init) ;;;
      wakeup init ;;;
      ret None
    else ret None).

Definition close_files (p : Z) : K st unit :=
  iter (Datatypes.S (Z.to_nat NOFILE)) (λ fd,
    if fd <? NOFILE then
      x <- getp p ;;;
      let f := default 0 (p_ofile x !! Z.to_nat fd) in
      (if negb (f =? 0) then
         on_files (f_fileclose f) ;;;
         setp p (λ x, set_p_files (<[Z.to_nat fd := 0]> (p_ofile x)) (p_cwd x) x)
       else ret tt) ;;;
      ret (inl (fd + 1))
    else ret (inr tt)) 0.

(** exit up to the switch to the scheduler, from which it does not return. *)
Definition exit (status : Z) : K st unit :=
  p <- myproc ;;;
  init <- gets initproc ;;;
  if p =? init then panic "init exiting"
  else
    close_files p ;;;
    x <- getp p ;;;
    on_files (f_begin_op ;;; f_iput (p_cwd x) ;;; f_end_op) ;;;
    setp p (λ x, set_p_files (p_ofile x) 0 x) ;;;
    acquire wait_lock set_wait_lock ;;;
    reparent p ;;;
    x <- getp p ;;;
    wakeup (p_parent x) ;;;
    acquire_p p ;;;
    setp p (set_p_xstate status) ;;;
    setp p (set_p_state ZOMBIE) ;;;
    release wait_lock set_wait_lock ;;;
    sched.

(** copyout(pagetable, addr, (char * )&pp->xstate, sizeof(pp->xstate)), with the
    field at its address in the kernel's memory. *)
Definition copyout_xstate (pagetable addr pp x : Z) : K st Z :=
  on_vm (modify (λ m, Kalloc.set_kmem (wr32 (kmem m) (xstate_at pp) x) m) ;;;
         copyout pagetable addr (xstate_at pp) 4).

(** Outcome of one scan of the table by wait. *)
Inductive waited := Reaped (pid : Z) | WFail | NoZombie (havekids : bool).

Definition wait_scan (p addr : Z) : K st waited :=
  iter (Datatypes.S (Z.to_nat NPROC)) (λ '(pp, havekids),
    if pp <? 1 + NPROC then
      x <- getp pp ;;;
      if p_parent x =? p then
        acquire_p pp ;;;
        x <- getp pp ;;;
        if is_state (p_state x) ZOMBIE then
          let pid := p_pid x in
          me <- getp p ;;;
          r <- (if negb (addr =? 0) then copyout_xstate (p_pagetable me) addr pp (p_xstate x) else ret 0) ;;;
          if r <? 0 then release_p pp ;;; ret (inr WFail)
          else freeproc pp ;;; release_p pp ;;; ret (inr (Reaped pid))
        else release_p pp ;;; ret (inl (pp + 1, true))
      else ret (inl (pp + 1, havekids))
    else ret (inr (NoZombie havekids))) (1, false).

(** One round of the loop of wait, with wait_lock held: a result, or [None]
    after sleeping, up to the switch. *)
Definition wait_round (addr : Z) : K st (option Z) :=
  p <- gets cur ;;;
  r <- wait_scan p addr ;;;
  match r with
  | Reaped pid => release wait_lock set_wait_lock ;;; ret (Some pid)
  | WFail => release wait_lock set_wait_lock ;;; ret (Some (-1))
  | NoZombie havekids =>
      stop <- (if negb havekids then ret true else (k <- killed p ;;; ret (negb (k =? 0)))) ;;;
      if (stop : bool) then release wait_lock set_wait_lock ;;; ret (Some (-1))
      else sleep_enter p (release wait_lock set_wait_lock) ;;; ret None
  end.

Definition wait (addr : Z) : K st (option Z) :=
  myproc ;;;
  acquire wait_lock set_wait_lock ;;;
  wait_round addr.

(** The next round after the process was woken. *)
Definition wait_again (addr : Z) : K st (option Z) :=
  sleep_leave (acquire wait_lock set_wait_lock) ;;;
  wait_round addr.

(** ** The scheduler *)

(** The scheduler looks at [p]: it switches to it ([true], with p->lock held)
    or goes on. *)
Definition scheduler_try (p : Z) : K st bool :=
  acquire_p p ;;;
  x <- getp p ;;;
  if is_state (p_state x) RUNNABLE then
    setp p (set_p_state RUNNING) ;;;
    modify (set_cur p) ;;;
    ret true
  else release_p p ;;; ret false.

(** What the scheduler does when the process has switched back. *)
Definition scheduler_return (p : Z) : K st unit :=
  modify (set_cur 0) ;;; release_p p.

(** One pass over the table; [run p] is what the process does until it calls
    swtch.  The result lists the processes that ran; the hart waits for an
    interrupt when there was none. *)
Definition scheduler_pass (run : Z → K st unit) : K st (list Z) :=
  on_cpu intr_on ;;;
  r <- iter (Datatypes.S (Z.to_nat NPROC)) (λ '(p, not_runnable_count, ran),
    if p <? 1 + NPROC then
      b <- scheduler_try p ;;;
      if (b : bool) then run p ;;; scheduler_return p ;;; ret (inl (p + 1, not_runnable_count, ran ++ [p]))
      else ret (inl (p + 1, not_runnable_count + 1, ran))
    else ret (inr (not_runnable_count, ran))) (1, 0, []) ;;;
  let '(not_runnable_count, ran) := r in
  (if not_runnable_count =? NPROC then modify (λ s, set_wfis (wfis s + 1) s) else ret tt) ;;;
  ret ran.

(** ** System calls (sysproc.c); arguments as argint and argaddr return them *)

Definition sys_exit (n : Z) : K st unit := exit n.
Definition sys_getpid : K st Z := p <- myproc ;;; x <- getp p ;;; ret (p_pid x).
Definition sys_fork : K st Z := fork.
Definition sys_wait (addr : Z) : K st (option Z) := wait addr.

Definition sys_sbrk (n : Z) : K st Z :=
  p <- myproc ;;;
  x <- getp p ;;;
  let addr := p_sz x in
  r <- growproc n ;;;
  if r <? 0 then ret (u64 (-1)) else ret addr.

(** The channel &ticks. *)
Definition ticks_chan : Z := -1.

(** One round of the loop of sys_sleep, with tickslock held. *)
Definition sys_sleep_round (ticks0 n : Z) : K st (option Z) :=
  t <- gets ticks ;;;
  if u32 (t - ticks0) <? u32 n then
    p <- myproc ;;;
    k <- killed p ;;;
    if negb (k =? 0) then release tickslock set_tickslock ;;; ret (Some (u64 (-1)))
    else sleep_enter ticks_chan (release tickslock set_tickslock) ;;; ret None
  else release tickslock set_tickslock ;;; ret (Some 0).

Definition sys_sleep (n : Z) : K st (option Z) :=
  acquire tickslock set_tickslock ;;;
  ticks0 <- gets ticks ;;;
  sys_sleep_round ticks0 n.

(** clockintr of trap.c. *)
Definition clockintr : K st unit :=
  acquire tickslock set_tickslock ;;;
  modify (λ s, set_ticks (u32 (ticks s + 1)) s) ;;;
  wakeup ticks_chan ;;;
  release tickslock set_tickslock.

Definition sys_kill (pid : Z) : K st Z := kill pid.

Definition sys_uptime : K st Z :=
  acquire tickslock set_tickslock ;;;
  xticks <- gets ticks ;;;
  release tickslock set_tickslock ;;;
  ret xticks.

(** check() of the audit trail; the array has five bytes, of which three are set. *)
Definition check (uninit : list Z) : K st Z :=
  t <- gets ticks ;;;
  pt <- gets prev_tick ;;;
  if u32 (t - pt) >? 50 then
    on_files (f_write_to_logs ([72; 65; 80] ++ uninit)) ;;;
    modify (set_prev_tick (s32 t)) ;;;
    ret 1
  else ret 0.
End Proc.
