(* ===== verification/ProcSpec.v ===== *)
(** Sleeping, waking, killing and scheduling in proc.c: wakeup and kill change
    exactly the processes they name, and a pass of the scheduler runs every
    process that is ready. *)

From S2P Require Import Prelude Mem CString Riscv Spinlock Kalloc Vm Proc.
Local Open Scope kernel_scope.

(** ** Balanced locks *)

(** The hart after a balanced pair of push_off and pop_off. *)
Definition settle (h : hart) : hart := mkHart (noff h) (if noff h =? 0 then sie h else intena h) (sie h).
Definition pushed (h : hart) : hart := mkHart (noff h + 1) (if noff h =? 0 then sie h else intena h) false.

Lemma settle_settle h : settle (settle h) = settle h.
Proof. unfold settle. simpl. by destruct (noff h =? 0). Qed.

Lemma settle_wf h h' : settle h' = settle h → hart_wf h → hart_wf h'.
Proof. destruct h, h'. unfold settle, hart_wf. simpl. by intros [= -> _ ->]. Qed.

Lemma pop_pushed h : hart_wf h → pop_off (pushed h) = Ok tt (settle h).
Proof.
  intros [H1 H2]. rewrite pop_off_eq; [|done|simpl; lia]. unfold pushed, settle. simpl.
  replace (noff h + 1 - 1) with (noff h) by lia.
  destruct (Z.eqb_spec (noff h) 0) as [E|E], (Z.eqb_spec (noff h + 1) 1); try lia; simpl; [done|].
  by rewrite H2 by lia.
Qed.

Lemma pushed_wf h : hart_wf h → hart_wf (pushed h).
Proof. intros [? _]. split; simpl; [lia|done]. Qed.

Section Locks.
Context {F : Type} `{FO : !FileOps F}.
Implicit Types s : pst F.

(** [s] with another table and another hart. *)
Definition upd (l : list proc) (h : hart) (s : pst F) : pst F := set_procs l (set_cpu h s).

Lemma upd_upd l h l' h' s : upd l h (upd l' h' s) = upd l h s.
Proof. done. Qed.
Lemma upd_id s : upd (procs s) (cpu s) s = s.
Proof. by destruct s. Qed.

(** [p] points to the entry [x]. *)
Definition at_p s (p : Z) (x : proc) : Prop := 1 <= p ∧ procs s !! pidx p = Some x.

Lemma runs_getp p x s (Q : proc → pst F → Prop) : at_p s p x → Q x s → runs (getp p) s Q.
Proof. intros [H1 H2] HQ. unfold getp, runs. rewrite H2. destruct (Z.leb_spec 1 p); [done|lia]. Qed.

Lemma runs_setp p x f s (Q : unit → pst F → Prop) :
  at_p s p x → Q tt (upd (<[pidx p := f x]> (procs s)) (cpu s) s) → runs (setp p f) s Q.
Proof.
  intros [H1 H2] HQ. unfold setp, runs. rewrite H2. destruct (Z.leb_spec 1 p); [|lia]. by destruct s.
Qed.

Lemma runs_myproc s (Q : Z → pst F → Prop) :
  hart_wf (cpu s) → Q (cur s) (upd (procs s) (settle (cpu s)) s) → runs myproc s Q.
Proof.
  intros Hw HQ. unfold myproc. apply runs_bind, runs_zoom. eapply runs_Ok; [apply push_off_eq|]. kred.
  apply runs_zoom. eapply runs_Ok; [by apply pop_pushed|]. kred. by destruct s.
Qed.

Lemma runs_acquire_p p x s (Q : unit → pst F → Prop) :
  at_p s p x → p_lock x = false →
  Q tt (upd (<[pidx p := set_p_lock true x]> (procs s)) (pushed (cpu s)) s) → runs (acquire_p p) s Q.
Proof.
  intros Hp Hl HQ. unfold acquire_p. apply runs_bind, runs_zoom. eapply runs_Ok; [apply push_off_eq|].
  apply runs_bind. eapply (runs_getp _ x); [exact Hp|]. rewrite Hl. eapply (runs_setp _ x); [exact Hp|]. exact HQ.
Qed.

Lemma runs_release_p p x h s (Q : unit → pst F → Prop) :
  at_p s p x → p_lock x = true → hart_wf h → cpu s = pushed h →
  Q tt (upd (<[pidx p := set_p_lock false x]> (procs s)) (settle h) s) → runs (release_p p) s Q.
Proof.
  intros Hp Hl Hw Hc HQ. unfold release_p. apply runs_bind, runs_bind. eapply (runs_getp _ x); [exact Hp|].
  rewrite Hl. simpl. eapply (runs_setp _ x); [exact Hp|]. apply runs_zoom. simpl. rewrite Hc.
  eapply runs_Ok; [by apply pop_pushed|]. exact HQ.
Qed.

(** The loop over the table. *)
Lemma runs_for_procs {B} (none : B) (body : Z → K (pst F) (option B)) (I : Z → pst F → Prop) s (Q : B → pst F → Prop) :
  (∀ p s, 1 <= p <= NPROC → I p s →
     runs (body p) s (λ r s', match r with Some b => Q b s' | None => I (p + 1) s' end)) →
  I 1 s → (∀ s, I (1 + NPROC) s → Q none s) → runs (for_procs none body) s Q.
Proof.
  intros Hb H0 Hn. unfold for_procs.
  apply (runs_iter _ (λ n p s, 1 <= p <= 1 + NPROC ∧ n = Z.to_nat (1 + NPROC - p) ∧ I p s)) with (n := Z.to_nat NPROC).
  - intros n p s' (Hp & -> & HI). destruct (Z.ltb_spec p (1 + NPROC)).
    + apply runs_bind. eapply runs_mono; [apply Hb; [lia|done]|]. intros [b|] s'' HQ; kred; [done|].
      exists (Z.to_nat (1 + NPROC - (p + 1))). split; [lia|]. split_and!; try done; lia.
    + kred. apply Hn. replace (1 + NPROC) with p by lia. done.
  - unfold NPROC. split_and!; try done; lia.
  - lia.
Qed.

(** ** Updating the table entry by entry *)

(** No process is locked. *)
Definition quiet (l : list proc) : Prop := Forall (λ x, p_lock x = false) l.

Lemma set_lock_same x b : p_lock x = b → set_p_lock b x = x.
Proof. destruct x. simpl. by intros ->. Qed.

(** [l'] is [l] with [f] applied to the entries before [k]. *)
Definition done_to (f : nat → proc → proc) (l : list proc) (k : nat) (l' : list proc) : Prop :=
  length l' = length l ∧ ∀ j x, l !! j = Some x → l' !! j = Some (if decide (j < k)%nat then f j x else x).

Lemma done_to_0 f l : done_to f l 0 l.
Proof. split; [done|]. intros j x Hj. by rewrite decide_False by lia. Qed.

Lemma done_to_S f l k l' x :
  done_to f l k l' → l !! k = Some x → done_to f l (Datatypes.S k) (<[k := f k x]> l').
Proof.
  intros [Hl H] Hk. split; [by rewrite length_insert|]. intros j y Hj. rewrite list_lookup_insert.
  pose proof (H j y Hj) as Hy. destruct (decide (k = j ∧ (k < length l')%nat)) as [[-> _]|Hne].
  - rewrite Hk in Hj. simplify_eq. by rewrite decide_True by lia.
  - destruct (decide (k = j)) as [->|].
    + exfalso. apply Hne. split; [done|]. apply lookup_lt_Some in Hk. lia.
    + rewrite Hy. f_equal. destruct (decide (j < k)%nat), (decide (j < Datatypes.S k)%nat); try done; lia.
Qed.

Lemma done_to_skip f l k l' x :
  done_to f l k l' → l !! k = Some x → f k x = x → done_to f l (Datatypes.S k) l'.
Proof.
  intros [Hl H] Hk Hf. split; [done|]. intros j y Hj. rewrite (H j y Hj). f_equal.
  destruct (decide (j = k)) as [->|]; [rewrite Hk in Hj; simplify_eq|];
    destruct (decide (_ < k)%nat), (decide (_ < Datatypes.S k)%nat); try done; lia.
Qed.

Lemma done_to_all f l l' : done_to f l (length l) l' → l' = imap f l.
Proof.
  intros [Hl H]. apply list_eq. intros j. rewrite list_lookup_imap. destruct (l !! j) as [x|] eqn:E; simpl.
  - rewrite (H j x E), decide_True; [done|]. by eapply lookup_lt_Some.
  - apply lookup_ge_None. rewrite Hl. by apply lookup_ge_None.
Qed.

Lemma done_to_at f l k l' x : done_to f l k l' → l !! k = Some x → l' !! k = Some x.
Proof. intros [_ H] Hk. by rewrite (H k x Hk), decide_False by lia. Qed.
(** One entry changed with its lock held, inside a loop over the table. *)
Lemma at_table l h s p x : 1 <= p → l !! pidx p = Some x → at_p (upd l h s) p x.
Proof. done. Qed.

Lemma insert_at (l : list proc) k x y : l !! k = Some x → <[k := y]> l !! k = Some y.
Proof. intros H. rewrite list_lookup_insert, decide_True; [done|]. split; [done|]. by eapply lookup_lt_Some. Qed.

(** ** wakeup *)

Definition wakes (me chan : Z) (k : nat) (x : proc) : proc :=
  if negb (Z.of_nat k + 1 =? me) && is_state (p_state x) SLEEPING && (p_chan x =? chan)
  then set_p_state RUNNABLE x else x.

Lemma wakeup_spec chan s :
  length (procs s) = Z.to_nat NPROC → quiet (procs s) → hart_wf (cpu s) →
  runs (wakeup chan) s (λ _ s', ∃ h, settle h = settle (cpu s) ∧ s' = upd (imap (wakes (cur s) chan) (procs s)) h s).
Proof.
  intros Hlen Hq Hw. unfold wakeup.
  apply (runs_for_procs _ _ (λ p s', ∃ l h, settle h = settle (cpu s) ∧ s' = upd l h s ∧
      done_to (wakes (cur s) chan) (procs s) (pidx p) l)).
  - intros p s' Hp (l & h & Hh & -> & Hl). pose proof (settle_wf _ _ Hh Hw) as Hw'.
    destruct (lookup_lt_is_Some_2 (procs s) (pidx p)) as [x Hx]; [rewrite Hlen; unfold pidx; lia|].
    pose proof (done_to_at _ _ _ _ _ Hl Hx) as Hlx. pose proof (Forall_lookup_1 _ _ _ _ Hq Hx) as Hux. simpl in Hux.
    assert (Ek : pidx (p + 1) = Datatypes.S (pidx p)) by (unfold pidx; lia).
    assert (Ep : Z.of_nat (pidx p) + 1 = p) by (unfold pidx; lia).
    apply runs_bind, runs_myproc; [done|]. simpl. rewrite upd_upd.
    assert (Hh2 : settle (settle h) = settle (cpu s)) by by rewrite settle_settle.
    destruct (Z.eqb_spec p (cur s)) as [E|E]; simpl.
    + kred. rewrite Ek. exists l, (settle h). split_and!; [done|done|]. eapply done_to_skip; [done..|].
      unfold wakes. rewrite Ep, E, Z.eqb_refl. done.
    + apply runs_bind. eapply (runs_acquire_p _ x); [by split; [lia|]|done|]. simpl. rewrite upd_upd.
      apply runs_bind. eapply runs_getp; [apply at_table; [lia|by eapply insert_at]|].
      change (p_state (set_p_lock true x)) with (p_state x). change (p_chan (set_p_lock true x)) with (p_chan x).
      set (b := is_state (p_state x) SLEEPING && (p_chan x =? chan)).
      assert (Ef : wakes (cur s) chan (pidx p) x = if b then set_p_state RUNNABLE x else x).
      { unfold wakes. rewrite Ep. destruct (Z.eqb_spec p (cur s)); [done|]. simpl. by fold b. }
      assert (Hset : set_p_lock false x = x) by by apply set_lock_same.
      apply runs_bind. eapply (runs_mono _ _ (λ _ s', s' = upd (<[pidx p := set_p_lock true (if b then set_p_state RUNNABLE x else x)]> l)
        (pushed (settle h)) s)).
      { destruct b; kred; [|done]. eapply runs_setp; [apply at_table; [lia|by eapply insert_at]|].
        simpl. rewrite upd_upd. by rewrite list_insert_insert_eq. }
      intros [] ? ->. apply runs_bind.
      eapply (runs_release_p _ _ (settle h)); [apply at_table; [lia|by eapply insert_at]|done|by eapply settle_wf; [apply settle_settle|]|done|].
      kred. rewrite upd_upd. simpl. rewrite list_insert_insert_eq, Ek. eexists _, (settle (settle h)).
      split_and!; [by rewrite settle_settle|done|]. rewrite <-Hux in Hset at 1.
      replace (set_p_lock false (set_p_lock true (if b then set_p_state RUNNABLE x else x))) with (wakes (cur s) chan (pidx p) x).
      * by apply done_to_S.
      * rewrite Ef. destruct x. simpl in *. subst. by destruct b.
  - exists (procs s), (cpu s). split_and!; [done|by rewrite upd_id|apply done_to_0].
  - intros s' (l & h & Hh & -> & Hl). exists h. split; [done|]. f_equal. apply done_to_all. by rewrite Hlen.
Qed.
(** wakeup(chan) makes exactly the processes that sleep on chan ready
    to run, except the caller; it changes nothing else of the table, and
    leaves every lock free and the interrupt state as it was. *)
Theorem wakeup_exact chan s :
  length (procs s) = Z.to_nat NPROC → quiet (procs s) → hart_wf (cpu s) →
  runs (wakeup chan) s (λ _ s',
    cur s' = cur s ∧ wait_lock s' = wait_lock s ∧ vm s' = vm s ∧ settle (cpu s') = settle (cpu s) ∧
    quiet (procs s') ∧ length (procs s') = length (procs s) ∧
    ∀ k x, procs s !! k = Some x → ∃ x', procs s' !! k = Some x' ∧
      if decide (p_state x = SLEEPING ∧ p_chan x = chan ∧ Z.of_nat k + 1 ≠ cur s)
      then x' = set_p_state RUNNABLE x else x' = x).
Proof.
  intros Hlen Hq Hw. eapply runs_mono; [by apply wakeup_spec|]. intros [] s' (h & Hh & ->). simpl.
  split_and!; try done.
  - apply Forall_lookup. intros k x. rewrite list_lookup_imap. intros (y & Hy & ->)%fmap_Some.
    pose proof (Forall_lookup_1 _ _ _ _ Hq Hy). unfold wakes. by destruct (_ && _).
  - by rewrite length_imap.
  - intros k x Hk. exists (wakes (cur s) chan k x). rewrite list_lookup_imap, Hk. split; [done|].
    unfold wakes, is_state. destruct (Z.eqb_spec (Z.of_nat k + 1) (cur s)), (Z.eqb_spec (p_chan x) chan);
      case_bool_decide; case_decide; simpl; try done; tauto.
Qed.

(** ** kill *)

Definition kills (x : proc) : proc :=
  let y := set_p_killed 1 x in if is_state (p_state x) SLEEPING then set_p_state RUNNABLE y else y.

(** kill(pid) marks the first process with that pid as killed, and wakes
    it if it sleeps; it returns -1 and changes nothing if there is none. *)
Theorem kill_first pid s :
  length (procs s) = Z.to_nat NPROC → quiet (procs s) → hart_wf (cpu s) →
  runs (kill pid) s (λ r s', ∃ h, settle h = settle (cpu s) ∧
    match list_find (λ x, p_pid x = pid) (procs s) with
    | Some (k, x) => r = 0 ∧ s' = upd (<[k := kills x]> (procs s)) h s
    | None => r = -1 ∧ s' = upd (procs s) h s
    end).
Proof.
  intros Hlen Hq Hw. unfold kill.
  apply (runs_for_procs _ _ (λ p s', ∃ h, settle h = settle (cpu s) ∧ s' = upd (procs s) h s ∧
      ∀ j x, (j < pidx p)%nat → procs s !! j = Some x → p_pid x ≠ pid)).
  - intros p s' Hp (h & Hh & -> & Hno). pose proof (settle_wf _ _ Hh Hw) as Hw'.
    destruct (lookup_lt_is_Some_2 (procs s) (pidx p)) as [x Hx]; [rewrite Hlen; unfold pidx; lia|].
    pose proof (Forall_lookup_1 _ _ _ _ Hq Hx) as Hux. simpl in Hux.
    assert (Hh2 : settle (settle h) = settle (cpu s)) by by rewrite settle_settle.
    assert (Hset : set_p_lock false (set_p_lock true x) = x) by by (destruct x; simpl in *; subst).
    apply runs_bind. eapply (runs_acquire_p _ x); [by split; [lia|]|done|]. simpl. rewrite upd_upd.
    apply runs_bind. eapply runs_getp; [apply at_table; [lia|by eapply insert_at]|]. simpl.
    destruct (Z.eqb_spec (p_pid x) pid) as [E|E].
    + apply runs_bind. eapply runs_setp; [apply at_table; [lia|by eapply insert_at]|]. simpl. rewrite upd_upd, list_insert_insert_eq.
      apply runs_bind. eapply (runs_mono _ _ (λ _ s', s' = upd (<[pidx p := set_p_lock true (kills x)]> (procs s)) (pushed h) s)).
      { unfold kills, is_state. case_bool_decide.
        - eapply runs_setp; [apply at_table; [lia|by eapply insert_at]|]. simpl. by rewrite upd_upd, list_insert_insert_eq.
        - by kred. }
      intros [] ? ->. apply runs_bind.
      eapply (runs_release_p _ _ h); [apply at_table; [lia|by eapply insert_at]|done|done|done|].
      kred. rewrite upd_upd. simpl. rewrite list_insert_insert_eq. exists (settle h). split; [done|].
      assert (list_find (λ x, p_pid x = pid) (procs s) = Some (pidx p, x)) as ->.
      { apply list_find_Some. split_and!; [done|done|]. intros j y Hj Hlt. by eapply Hno. }
      split; [done|]. do 2 f_equal. unfold kills, is_state. destruct x. simpl in *. subst. by case_bool_decide.
    + apply runs_bind.
      eapply (runs_release_p _ _ h); [apply at_table; [lia|by eapply insert_at]|done|done|done|].
      kred. rewrite upd_upd. simpl. rewrite list_insert_insert_eq, Hset, list_insert_id by done.
      exists (settle h). split_and!; [done|done|]. intros j y Hj Hy. destruct (decide (j = pidx p)) as [->|].
      * rewrite Hx in Hy. by simplify_eq.
      * eapply Hno; [|done]. unfold pidx in *. lia.
  - exists (cpu s). split_and!; [done|by rewrite upd_id|]. intros j x Hj. unfold pidx in Hj. lia.
  - intros s' (h & Hh & -> & Hno). exists h. split; [done|].
    assert (list_find (λ x, p_pid x = pid) (procs s) = None) as ->; [|done].
    apply list_find_None, Forall_lookup. intros j x Hj. apply (Hno j); [|done].
    apply lookup_lt_Some in Hj. unfold pidx. lia.
Qed.
(** ** The scheduler *)

(** A hart that holds no lock. *)
Definition idle_hart (h : hart) : Prop := noff h = 0 ∧ hart_wf h.

(** Only [p] is locked. *)
Definition only_locked (p : Z) (l : list proc) : Prop :=
  ∀ k x, l !! k = Some x → p_lock x = bool_decide (k = pidx p).

(** What the scheduler relies on when it switches to a process: the process
    comes back with its own lock held and no other, and takes nobody's turn
    away: it does not make another process unready. *)
Definition comes_back (run : Z → K (pst F) unit) : Prop := ∀ p s h x,
  1 <= p <= NPROC → length (procs s) = Z.to_nat NPROC → only_locked p (procs s) → cur s = p →
  at_p s p x → p_state x = RUNNING → idle_hart h → cpu s = pushed h →
  runs (run p) s (λ _ s', ∃ h', length (procs s') = Z.to_nat NPROC ∧ only_locked p (procs s') ∧
    idle_hart h' ∧ cpu s' = pushed h' ∧ wfis s' = wfis s ∧
    ∀ k x, k ≠ pidx p → procs s !! k = Some x → p_state x = RUNNABLE →
      ∃ x', procs s' !! k = Some x' ∧ p_state x' = RUNNABLE).

(** The scheduler's loop at [p], after [count] processes that were not ready
    and those in [ran]. *)
Record pass_inv (s0 : pst F) (p count : Z) (ran : list Z) (s : pst F) : Prop := {
  pi_length : length (procs s) = Z.to_nat NPROC;
  pi_quiet : quiet (procs s);
  pi_hart : idle_hart (cpu s);
  pi_cur : cur s = 0;
  pi_wfis : wfis s = wfis s0;
  pi_count : count + zlen ran = p - 1;
  pi_ran q : q ∈ ran → 1 <= q < p;
  pi_nodup : NoDup ran;
  pi_past k x : procs s0 !! k = Some x → p_state x = RUNNABLE → (k < pidx p)%nat → Z.of_nat k + 1 ∈ ran;
  pi_future k x : procs s0 !! k = Some x → p_state x = RUNNABLE → (pidx p <= k)%nat →
    ∃ x', procs s !! k = Some x' ∧ p_state x' = RUNNABLE
}.

Lemma settle_idle h : idle_hart h → idle_hart (settle h).
Proof. intros [? ?]. split; [done|]. eapply settle_wf; [apply settle_settle|done]. Qed.

Lemma only_locked_insert p l x : quiet l → l !! pidx p = Some x → ∀ y, p_lock y = true → only_locked p (<[pidx p := y]> l).
Proof.
  intros Hq Hx y Hy k z [[-> ->]|[Hne Hz]]%list_insert_cases; [by rewrite bool_decide_true|].
  rewrite bool_decide_false by done. by apply (Forall_lookup_1 _ _ _ _ Hq Hz).
Qed.

Lemma only_locked_release p l x : only_locked p l → quiet (<[pidx p := set_p_lock false x]> l).
Proof.
  intros Ho. apply Forall_lookup. intros k y [[-> ->]|[Hne Hy]]%list_insert_cases; [done|].
  rewrite (Ho k y Hy). by rewrite bool_decide_false.
Qed.

Section Pass.
Context (run : Z → K (pst F) unit) (Hrun : comes_back run).

(** The scheduler switches to a ready process and gets the hart back. *)
Lemma pass_switch {B} s0 s p count ran x (k1 k2 : K (pst F) B) Q :
  1 <= p <= NPROC → pass_inv s0 p count ran s → procs s !! pidx p = Some x → p_state x = RUNNABLE →
  (∀ s', pass_inv s0 (p + 1) count (ran ++ [p]) s' → runs k1 s' Q) →
  runs (b <- scheduler_try p ;;; (if (b : bool) then run p ;;; scheduler_return p ;;; k1 else k2)) s Q.
Proof.
  intros Hp I Hx Hst HQ. pose proof (Forall_lookup_1 _ _ _ _ (pi_quiet _ _ _ _ _ I) Hx) as Hu. simpl in Hu.
  assert (Ek : pidx (p + 1) = Datatypes.S (pidx p)) by (unfold pidx; lia).
  pose proof (pi_hart _ _ _ _ _ I) as Hid. apply runs_bind. unfold scheduler_try.
  apply runs_bind. eapply (runs_acquire_p _ x); [by split; [lia|]|done|].
  apply runs_bind. eapply runs_getp; [apply at_table; [lia|by eapply insert_at]|]. simpl.
  unfold is_state. rewrite bool_decide_true by done.
  apply runs_bind. eapply runs_setp; [apply at_table; [lia|by eapply insert_at]|]. simpl. rewrite upd_upd, list_insert_insert_eq.
  kred. set (s1 := set_cur p _). set (y := set_p_state RUNNING (set_p_lock true x)) in *.
  assert (Hat : at_p s1 p y) by (split; [lia|]; simpl; by eapply insert_at).
  eapply runs_mono.
  { eapply (Hrun p s1 (cpu s) y); try done.
    - simpl. rewrite length_insert. apply I.
    - simpl. eapply only_locked_insert; [apply I|done|done]. }
  intros [] s2 (h' & Hl2 & Ho2 & Hid2 & Hc2 & Hw2 & Hkeep).
  destruct (lookup_lt_is_Some_2 (procs s2) (pidx p)) as [z Hz]; [rewrite Hl2; unfold pidx; lia|].
  unfold scheduler_return. kred.
  eapply (runs_release_p _ z h'); [by split; [lia|]| |apply Hid2|done|].
  { rewrite (Ho2 _ _ Hz). by rewrite bool_decide_true. }
  apply HQ. destruct I as [I1 I2 I3 I4 I5 I6 I7 I8 I9 I10]. split; simpl.
  - by rewrite length_insert.
  - by apply only_locked_release.
  - by apply settle_idle.
  - done.
  - by rewrite Hw2.
  - rewrite length_app. simpl. lia.
  - intros q [Hq| ->%list_elem_of_singleton]%elem_of_app; [specialize (I7 q Hq); lia|lia].
  - apply NoDup_app. split_and!; [done| |apply NoDup_singleton].
    intros q Hq ->%list_elem_of_singleton. specialize (I7 p Hq). lia.
  - rewrite Ek. intros k w Hk Hw Hlt. apply elem_of_app. destruct (decide (k = pidx p)) as [->|].
    + right. apply list_elem_of_singleton. unfold pidx. lia.
    + left. eapply I9; [done|done|lia].
  - rewrite Ek. intros k w Hk Hw Hlt. destruct (I10 k w Hk Hw) as (w1 & Hw1 & Hs1); [lia|].
    destruct (Hkeep k w1) as (w2 & Hw2' & Hs2); [lia|simpl; rewrite list_lookup_insert_ne by lia; done|done|].
    exists w2. split; [|done]. rewrite list_lookup_insert_ne by lia. done.
Qed.

Lemma pass_skip s0 s p count ran x :
  1 <= p <= NPROC → pass_inv s0 p count ran s → procs s !! pidx p = Some x → p_state x ≠ RUNNABLE →
  runs (scheduler_try p) s (λ b s', b = false ∧ pass_inv s0 (p + 1) (count + 1) ran s').
Proof.
  intros Hp I Hx Hst. pose proof (Forall_lookup_1 _ _ _ _ (pi_quiet _ _ _ _ _ I) Hx) as Hu. simpl in Hu.
  assert (Ek : pidx (p + 1) = Datatypes.S (pidx p)) by (unfold pidx; lia).
  pose proof (pi_hart _ _ _ _ _ I) as Hid. unfold scheduler_try.
  assert (Hset : set_p_lock false (set_p_lock true x) = x) by by (destruct x; simpl in *; subst).
  apply runs_bind. eapply (runs_acquire_p _ x); [by split; [lia|]|done|].
  apply runs_bind. eapply runs_getp; [apply at_table; [lia|by eapply insert_at]|]. simpl.
  unfold is_state. rewrite bool_decide_false by done. apply runs_bind.
  eapply (runs_release_p _ _ (cpu s)); [apply at_table; [lia|by eapply insert_at]|done|apply Hid|done|].
  kred. split; [done|]. rewrite upd_upd. simpl. rewrite list_insert_insert_eq, Hset, list_insert_id by done.
  destruct I as [I1 I2 I3 I4 I5 I6 I7 I8 I9 I10]. split; simpl; try done.
  - lia.
  - intros q Hq. specialize (I7 q Hq). lia.
  - rewrite Ek. intros k w Hk Hw Hlt. destruct (decide (k = pidx p)) as [->|]; [|eapply I9; [done|done|lia]].
    destruct (I10 _ _ Hk Hw) as (w1 & Hw1 & Hs1); [lia|]. rewrite Hx in Hw1. simplify_eq.
  - rewrite Ek. intros k w Hk Hw Hlt. eapply I10; [done|done|lia].
Qed.
End Pass.

(** [C13] The scheduler is fair within one pass of the table: every process
    that is ready when the pass starts gets the hart, each at most once; the
    pass ends with no lock held and no current process, and the hart waits for
    an interrupt only when no process was ready.  A process that the scheduler
    switches to is only assumed to come back with its own lock and to leave
    the processes that are ready ready. *)
Theorem scheduler_runs_ready (run : Z → K (pst F) unit) s :
  comes_back run → length (procs s) = Z.to_nat NPROC → quiet (procs s) → noff (cpu s) = 0 → cur s = 0 →
  runs (scheduler_pass run) s (λ ran s',
    (∀ k x, procs s !! k = Some x → p_state x = RUNNABLE → Z.of_nat k + 1 ∈ ran) ∧ NoDup ran ∧
    quiet (procs s') ∧ cur s' = 0 ∧ noff (cpu s') = 0 ∧
    wfis s' = if bool_decide (ran = []) then wfis s + 1 else wfis s).
Proof.
  intros Hrun Hlen Hq Hno Hcur. unfold scheduler_pass. apply runs_bind, runs_zoom, runs_modify.
  set (s1 := set_cpu _ s). apply runs_bind.
  assert (Hfin : ∀ count ran s', pass_inv s (1 + NPROC) count ran s' →
    runs ((if count =? NPROC then modify (λ s, set_wfis (wfis s + 1) s) else ret tt) ;;; ret ran) s' (λ ran s',
      (∀ k x, procs s !! k = Some x → p_state x = RUNNABLE → Z.of_nat k + 1 ∈ ran) ∧ NoDup ran ∧
      quiet (procs s') ∧ cur s' = 0 ∧ noff (cpu s') = 0 ∧
      wfis s' = if bool_decide (ran = []) then wfis s + 1 else wfis s)).
  { intros count ran s' [I1 I2 [I3 _] I4 I5 I6 I7 I8 I9 I10].
    assert (∀ k x, procs s !! k = Some x → p_state x = RUNNABLE → Z.of_nat k + 1 ∈ ran) as Hall.
    { intros k x Hk Hx. eapply I9; [done|done|]. apply lookup_lt_Some in Hk. unfold pidx. lia. }
    destruct (Z.eqb_spec count NPROC) as [E|E]; kred; split_and!; try done; simpl.
    - destruct ran; [by rewrite I5|simpl in I6; lia].
    - rewrite bool_decide_false; [done|]. intros ->. simpl in I6. lia. }
  apply (runs_iter _ (λ n '(p, count, ran) s', 1 <= p <= 1 + NPROC ∧ n = Z.to_nat (1 + NPROC - p) ∧ pass_inv s p count ran s'))
    with (n := Z.to_nat NPROC).
  - intros n [[p count] ran] s' (Hp & -> & I). destruct (Z.ltb_spec p (1 + NPROC)).
    + destruct (lookup_lt_is_Some_2 (procs s') (pidx p)) as [x Hx].
      { rewrite (pi_length _ _ _ _ _ I). unfold pidx. lia. }
      destruct (decide (p_state x = RUNNABLE)) as [E|E].
      * eapply pass_switch; [done|lia|exact I|done|done|]. intros s2 I2. kred.
        exists (Z.to_nat (1 + NPROC - (p + 1))). split; [lia|]. split_and!; try done; lia.
      * apply runs_bind. eapply runs_mono; [eapply pass_skip; [lia|exact I|done|done]|].
        intros b s2 [-> I2]. kred. exists (Z.to_nat (1 + NPROC - (p + 1))). split; [lia|]. split_and!; try done; lia.
    + assert (p = 1 + NPROC) as -> by lia. apply runs_ret. by apply Hfin.
  - split_and!; try done. split; simpl; try done.
    + split; [done|]. split; simpl; [lia|]. rewrite Hno. lia.
    + by intros q ?%elem_of_nil.
    + apply NoDup_nil_2.
    + intros k x Hk Hx Hlt. unfold pidx in Hlt. lia.
    + intros k x Hk Hx _. by exists x.
  - lia.
Qed.
End Locks.

(** ** Witnesses *)

#[global] Instance no_files : FileOps unit := {
  f_filedup f := ret f; f_fileclose _ := ret tt; f_idup i := ret i; f_iput _ := ret tt;
  f_begin_op := ret tt; f_end_op := ret tt; f_root := ret 1; f_write_to_logs _ := ret tt
}.

Definition blank_proc : proc := mkProc false UNUSED 0 0 0 0 0 0 0 0 0 0 0 (replicate 16 0) 0 (replicate 16 0) false.
Definition some_proc (st : procstate) (chan pid : Z) : proc := set_p_state st (set_p_chan chan (set_p_pid pid blank_proc)).

(** A table with a ready process, two that sleep on 5 and 6, and no other. *)
Definition small_table : list proc :=
  [some_proc RUNNABLE 0 1; some_proc SLEEPING 5 2; some_proc SLEEPING 6 3] ++ replicate 61 blank_proc.
Definition small_procs : pst unit :=
  mkP small_table 4 false false 1 0 (mkHart 0 false false) (mkK false 0 ∅) tt 0 0 false 0.

Lemma small_quiet : quiet small_table.
Proof. repeat constructor. Qed.

Lemma small_hart : hart_wf (cpu small_procs).
Proof. split; simpl; lia. Qed.

Lemma wakeup_exact_witness :
  runs (wakeup 5) small_procs (λ _ s', ∃ x y, procs s' !! 1%nat = Some x ∧ p_state x = RUNNABLE ∧
    procs s' !! 2%nat = Some y ∧ p_state y = SLEEPING).
Proof.
  eapply runs_mono; [apply (wakeup_exact 5 small_procs eq_refl small_quiet small_hart)|].
  intros [] s' (_ & _ & _ & _ & _ & _ & H).
  destruct (H 1%nat _ eq_refl) as (x & Hx & Ex), (H 2%nat _ eq_refl) as (y & Hy & Ey).
  exists x, y. rewrite decide_True in Ex by (simpl; lia || done). rewrite decide_False in Ey by (simpl; lia || naive_solver).
  subst. done.
Defined.

Lemma kill_first_witness :
  runs (kill 3) small_procs (λ r s', r = 0 ∧ ∃ x, procs s' !! 2%nat = Some x ∧ p_state x = RUNNABLE ∧ p_killed x = 1).
Proof.
  eapply runs_mono; [apply (kill_first 3 small_procs eq_refl small_quiet small_hart)|].
  intros r s' (h & _ & H). assert (E : list_find (λ x, p_pid x = 3) (procs small_procs) = Some (2%nat, some_proc SLEEPING 6 3)) by reflexivity.
  rewrite E in H. destruct H as [-> ->]. split; [done|]. by eexists.
Defined.

(** A process that gives up the hart at once. *)
Definition yields (p : Z) : K (pst unit) unit := setp p (set_p_state RUNNABLE).

Lemma yields_back : comes_back yields.
Proof.
  intros p s h x Hp Hlen Ho Hc Hat Hst Hid Hcpu. unfold yields. eapply runs_setp; [done|]. exists h. simpl.
  split_and!; try done.
  - by rewrite length_insert.
  - intros k y [[-> ->]|[Hne Hy]]%list_insert_cases; [|by apply Ho]. simpl. destruct Hat as [_ Hat]. by apply Ho.
  - intros k y Hne Hy Hr. exists y. by rewrite list_lookup_insert_ne.
Qed.

Lemma scheduler_runs_ready_witness :
  runs (scheduler_pass yields) small_procs (λ ran s', 1 ∈ ran ∧ cur s' = 0).
Proof.
  eapply runs_mono; [apply (scheduler_runs_ready yields small_procs yields_back eq_refl small_quiet eq_refl eq_refl)|].
  intros ran s' (H & _ & _ & Hc & _). split; [|exact Hc]. exact (H 0%nat _ eq_refl eq_refl).
Defined.
