(* ===== verification/Exec.v ===== *)
(** kernel/exec.c, sys_exec of kernel/sysfile.c, and fetchaddr, fetchstr and
    argstr of kernel/syscall.c on the page table of the process.

    The state is that of Proc.v.  exec uses the file system through the
    interface [ExecFs], over the memory that the file system and the page
    tables share: an operation of the file system runs on physical memory as
    it is, and leaves it as it changed it.  The local variables that the code
    passes by address lie on the kernel stack, at the addresses in [frame]. *)

From S2P Require Import Prelude Mem CString Riscv Spinlock Kalloc Vm Proc.
Local Open Scope kernel_scope.

(** ** elf.h *)

Definition ELF_MAGIC : Z := 0x464C457F.
Definition ELF_PROG_LOAD : Z := 1.
Definition sizeof_elfhdr : Z := 64.
Definition sizeof_proghdr : Z := 56.

(** The fields of a struct elfhdr at [a] that exec reads. *)
Definition elf_magic (m : mem) (a : Z) : Z := rd32 m a.
Definition elf_entry (m : mem) (a : Z) : Z := rd64 m (a + 24).
Definition elf_phoff (m : mem) (a : Z) : Z := rd64 m (a + 32).
Definition elf_phnum (m : mem) (a : Z) : Z := rd16 m (a + 56).

(** The fields of a struct proghdr. *)
Record proghdr := mkPh {
  ph_type : Z; ph_flags : Z; ph_off : Z; ph_vaddr : Z; ph_paddr : Z; ph_filesz : Z; ph_memsz : Z; ph_align : Z
}.
Definition get_proghdr (m : mem) (a : Z) : proghdr :=
  mkPh (rd32 m a) (rd32 m (a + 4)) (rd64 m (a + 8)) (rd64 m (a + 16)) (rd64 m (a + 24)) (rd64 m (a + 32))
    (rd64 m (a + 40)) (rd64 m (a + 48)).

(** The file system as exec uses it; [x_mem] is the memory it works on. *)
Class ExecFs (F : Type) := {
  x_mem : F → mem;
  x_set_mem : mem → F → F;
  x_begin_op : K F unit;
  x_end_op : K F unit;
  x_namei : Z → K F Z;
  x_ilock : Z → K F unit;
  x_readi : Z → Z → Z → Z → K F Z; (* readi(ip, 0, dst, off, n) *)
  x_iunlockput : Z → K F unit
}.

(** Where exec and sys_exec keep elf, ph, ustack, path, argv and uarg. *)
Record frame := mkFrame { elf_at : Z; ph_at : Z; ustack_at : Z; path_at : Z; argv_at : Z; uarg_at : Z }.

Definition tf_a1 : Z := 120.

Definition flags2perm (flags : Z) : Z :=
  let perm := if negb (Z.land flags 1 =? 0) then PTE_X else 0 in
  if negb (Z.land flags 2 =? 0) then Z.lor perm PTE_W else perm.

Section Exec.
Context (kend trampoline : Z) {F : Type} `{XF : !ExecFs F} (fr : frame).
Abbreviation st := (pst F).

Definition on_fs {A} (m : K F A) : K st A :=
  zoom (λ s, x_set_mem (kmem (vm s)) (files s))
       (λ f s, set_files f (set_vm (set_kmem (x_mem f) (vm s)) s)) m.
Definition the_mem : K st mem := gets (λ s, kmem (vm s)).

(** ** exec.c *)

Definition loadseg (pagetable va ip offset sz : Z) : K st Z :=
  iter (Datatypes.S (Z.to_nat (sz / PGSIZE + 1))) (λ i,
    if i <? sz then
      pa <- on_vm (walkaddr pagetable (u64 (va + i))) ;;;
      if pa =? 0 then panic "loadseg: address should exist"
      else
        let n := if sz - i <? PGSIZE then sz - i else PGSIZE in
        r <- on_fs (x_readi ip pa (u32 (offset + i)) n) ;;;
        if negb (r =? n) then ret (inr (-1)) else ret (inl (u32 (i + PGSIZE)))
    else ret (inr 0)) 0.

(** The label [bad]: [ip] is 0 once the file has been released. *)
Definition bad (pagetable sz ip : Z) : K st Z :=
  (if negb (pagetable =? 0) then proc_freepagetable kend pagetable sz else ret tt) ;;;
  (if negb (ip =? 0) then on_fs (x_iunlockput ip) ;;; on_fs x_end_op else ret tt) ;;;
  ret (-1).

(** One program header: [inr] with the size of the memory loaded so far, or
    [inl] with that size for [goto bad]. *)
Definition load_one (pagetable ip off sz : Z) : K st (Z + Z) :=
  r <- on_fs (x_readi ip (ph_at fr) (u32 off) sizeof_proghdr) ;;;
  if negb (r =? sizeof_proghdr) then ret (inl sz)
  else
    m <- the_mem ;;;
    let ph := get_proghdr m (ph_at fr) in
    if negb (ph_type ph =? ELF_PROG_LOAD) then ret (inr sz)
    else if ph_memsz ph <? ph_filesz ph then ret (inl sz)
    else if u64 (ph_vaddr ph + ph_memsz ph) <? ph_vaddr ph then ret (inl sz)
    else if negb (ph_vaddr ph mod PGSIZE =? 0) then ret (inl sz)
    else
      sz1 <- on_vm (uvmalloc kend pagetable sz (u64 (ph_vaddr ph + ph_memsz ph)) (flags2perm (ph_flags ph))) ;;;
      if sz1 =? 0 then ret (inl sz)
      else
        r <- loadseg pagetable (ph_vaddr ph) ip (u32 (ph_off ph)) (u32 (ph_filesz ph)) ;;;
        if r <? 0 then ret (inl sz1) else ret (inr sz1).

(** for(i=0, off=elf.phoff; i<elf.phnum; i++, off+=sizeof(ph)) *)
Definition load_segments (pagetable ip : Z) : K st (Z + Z) :=
  m <- the_mem ;;;
  iter (Datatypes.S (Z.to_nat (elf_phnum m (elf_at fr)))) (λ '(i, off, sz),
    m <- the_mem ;;;
    if i <? elf_phnum m (elf_at fr) then
      r <- load_one pagetable ip off sz ;;;
      match r with
      | inl sz => ret (inr (inl sz))
      | inr sz => ret (inl (i + 1, s32 (off + sizeof_proghdr), sz))
      end
    else ret (inr (inr sz))) (0, s32 (elf_phoff m (elf_at fr)), 0).

(** strlen of an argument, which sys_exec has put into a page. *)
Definition arg_len (a : Z) : K st Z :=
  m <- the_mem ;;;
  match strlen (Z.to_nat PGSIZE) m a with
  | Some n => ret n
  | None => ub "strlen: no terminating NUL"
  end.

(** The loop that pushes the argument strings: argc and the stack pointer, or
    [None] for [goto bad]. *)
Definition push_args (pagetable argv stackbase sp : Z) : K st (option (Z * Z)) :=
  iter (Datatypes.S (Datatypes.S (Z.to_nat MAXARG))) (λ '(argc, sp),
    a <- on_vm (load64 (argv + 8 * argc)) ;;;
    if a =? 0 then ret (inr (Some (argc, sp)))
    else if argc >=? MAXARG then ret (inr None)
    else
      n <- arg_len a ;;;
      let sp := u64 (sp - (n + 1)) in
      let sp := sp - sp mod 16 in
      if sp <? stackbase then ret (inr None)
      else
        n <- arg_len a ;;;
        r <- on_vm (copyout pagetable sp a (n + 1)) ;;;
        if r <? 0 then ret (inr None)
        else
          on_vm (store64 (ustack_at fr + 8 * argc) sp) ;;;
          ret (inl (argc + 1, sp))) (0, sp).

(** The place after the last slash of the path. *)
Definition last_elem (path : Z) : K st Z :=
  iter (Datatypes.S (Z.to_nat MAXPATH)) (λ '(s, last),
    m <- the_mem ;;;
    if negb (rd8 m s =? 0) then ret (inl (s + 1, if rd8 m s =? 47 then s + 1 else last))
    else ret (inr last)) (path, path).

(** What exec does once the program is in memory: the stack, the arguments and
    the switch to the new image. *)
Definition start_image (p pagetable sz path argv : Z) : K st Z :=
  x <- getp p ;;;
  let oldsz := p_sz x in
  let sz := PGROUNDUP sz in
  sz1 <- on_vm (uvmalloc kend pagetable sz (u64 (sz + 2 * PGSIZE)) PTE_W) ;;;
  if sz1 =? 0 then bad pagetable sz 0
  else
    let sz := sz1 in
    on_vm (uvmclear pagetable (u64 (sz - 2 * PGSIZE))) ;;;
    let stackbase := u64 (sz - PGSIZE) in
    r <- push_args pagetable argv stackbase sz ;;;
    match r with
    | None => bad pagetable sz 0
    | Some (argc, sp) =>
        if argc >=? MAXARG then ub "ustack: index out of bounds"
        else
          on_vm (store64 (ustack_at fr + 8 * argc) 0) ;;;
          let sp := u64 (sp - (argc + 1) * 8) in
          let sp := sp - sp mod 16 in
          if sp <? stackbase then bad pagetable sz 0
          else
            r <- on_vm (copyout pagetable sp (ustack_at fr) ((argc + 1) * 8)) ;;;
            if r <? 0 then bad pagetable sz 0
            else
              x <- getp p ;;;
              on_vm (store64 (p_trapframe x + tf_a1) sp) ;;;
              last <- last_elem path ;;;
              m <- the_mem ;;;
              setp p (λ x, set_p_name (copy_name (p_name x) (rd_bytes m last 16)) x) ;;;
              x <- getp p ;;;
              let oldpagetable := p_pagetable x in
              setp p (λ x, set_p_mem sz pagetable (p_trapframe x) x) ;;;
              m <- the_mem ;;;
              on_vm (store64 (p_trapframe x + tf_epc) (elf_entry m (elf_at fr))) ;;;
              on_vm (store64 (p_trapframe x + tf_sp) sp) ;;;
              proc_freepagetable kend oldpagetable oldsz ;;;
              ret argc
    end.

Definition exec (path argv : Z) : K st Z :=
  p <- myproc ;;;
  on_fs x_begin_op ;;;
  ip <- on_fs (x_namei path) ;;;
  if ip =? 0 then on_fs x_end_op ;;; ret (-1)
  else
    on_fs (x_ilock ip) ;;;
    r <- on_fs (x_readi ip (elf_at fr) 0 sizeof_elfhdr) ;;;
    if negb (r =? sizeof_elfhdr) then bad 0 0 ip
    else
      m <- the_mem ;;;
      if negb (elf_magic m (elf_at fr) =? ELF_MAGIC) then bad 0 0 ip
      else
        pagetable <- proc_pagetable kend trampoline p ;;;
        if pagetable =? 0 then bad 0 0 ip
        else
          r <- load_segments pagetable ip ;;;
          match r with
          | inl sz => bad pagetable sz ip
          | inr sz =>
              on_fs (x_iunlockput ip) ;;;
              on_fs x_end_op ;;;
              p <- myproc ;;;
              start_image p pagetable sz path argv
          end.

(** ** Arguments of system calls *)

(** The process that runs. *)
Definition cur_proc : K st proc := p <- myproc ;;; getp p.

Definition fetchaddr (addr ip : Z) : K st Z :=
  x <- cur_proc ;;;
  if (addr >=? p_sz x) || (u64 (addr + 8) >? p_sz x) then ret (-1)
  else
    r <- on_vm (copyin (p_pagetable x) ip addr 8) ;;;
    if negb (r =? 0) then ret (-1) else ret 0.

Definition fetchstr (addr buf max : Z) : K st Z :=
  x <- cur_proc ;;;
  r <- on_vm (copyinstr (p_pagetable x) buf addr max) ;;;
  if r <? 0 then ret (-1)
  else
    m <- the_mem ;;;
    match strlen (Z.to_nat max) m buf with
    | Some n => ret n
    | None => ub "strlen: no terminating NUL"
    end.

(** argraw for n = 0, ..., 5. *)
Definition argaddr (n : Z) : K st Z :=
  x <- cur_proc ;;; on_vm (load64 (p_trapframe x + tf_a0 + 8 * n)).
Definition argstr (n buf max : Z) : K st Z :=
  addr <- argaddr n ;;; fetchstr addr buf max.

(** ** sys_exec *)

(** for(i = 0; i < NELEM(argv) && argv[i] != 0; i++) kfree(argv[i]); *)
Definition free_args : K st unit :=
  iter (Datatypes.S (Z.to_nat MAXARG)) (λ i,
    if i <? MAXARG then
      a <- on_vm (load64 (argv_at fr + 8 * i)) ;;;
      if negb (a =? 0) then on_vm (kfree kend a) ;;; ret (inl (i + 1)) else ret (inr tt)
    else ret (inr tt)) 0.

(** The loop that fetches the arguments: false for [goto bad]. *)
Definition fetch_args (uargv : Z) : K st bool :=
  iter (Datatypes.S (Z.to_nat MAXARG)) (λ i,
    if i >=? MAXARG then ret (inr false)
    else
      r <- fetchaddr (u64 (uargv + 8 * i)) (uarg_at fr) ;;;
      if r <? 0 then ret (inr false)
      else
        uarg <- on_vm (load64 (uarg_at fr)) ;;;
        if uarg =? 0 then on_vm (store64 (argv_at fr + 8 * i) 0) ;;; ret (inr true)
        else
          a <- on_vm kalloc ;;;
          on_vm (store64 (argv_at fr + 8 * i) a) ;;;
          if a =? 0 then ret (inr false)
          else
            r <- fetchstr uarg a PGSIZE ;;;
            if r <? 0 then ret (inr false) else ret (inl (i + 1))) 0.

Definition sys_exec : K st Z :=
  uargv <- argaddr 1 ;;;
  r <- argstr 0 (path_at fr) MAXPATH ;;;
  if r <? 0 then ret (-1)
  else
    on_vm (do_memset (argv_at fr) 0 (8 * MAXARG)) ;;;
    ok <- fetch_args uargv ;;;
    if negb ok then free_args ;;; ret (-1)
    else
      r <- exec (path_at fr) (argv_at fr) ;;;
      free_args ;;;
      ret r.
End Exec.
