(* ===== verification/ExecSpec.v ===== *)
(** Correctness of exec.c over any file system that keeps the promises of
    [ExecFsSpec].

    The reference is [image_of]: the memory image that the program headers of
    an executable file describe, read from the bytes of the file. *)

From S2P Require Import Prelude Mem CString Riscv Spinlock Kalloc Vm VmSpec VmCopy VmUser VmFree VmSpace Proc ProcSpec Exec.
Local Open Scope kernel_scope.

(** ** What exec relies on of the file system *)

(** Byte [i] of a file. *)
Definition fbyte (bs : list Z) (i : Z) : Z := bs !!! Z.to_nat i.

(** How many bytes readi(ip, ..., off, n) reads. *)
Definition read_len (bs : list Z) (off n : Z) : Z :=
  if (zlen bs <? off) || (u32 (off + n) <? off) then 0 else Z.min n (zlen bs - off).

(** [xs_idle] is a file system with no operation of the process under way,
    [xs_busy] one inside begin_op and end_op; [xs_ref f ip bs] and
    [xs_file f ip bs] say that the process holds a reference to the inode [ip],
    and its lock too, and that the file contains [bs]; [xs_content f path] is
    the content of the file that [path] names.  The file system's local
    variables are at the addresses [xs_private]. *)
Class ExecFsSpec (F : Type) {XF : ExecFs F} := {
  xs_private : Z → Prop;
  xs_idle : F → Prop;
  xs_busy : F → Prop;
  xs_ref : F → Z → list Z → Prop;
  xs_file : F → Z → list Z → Prop;
  xs_content : F → list Z → option (list Z);
  xs_mem_set m f : x_mem (x_set_mem m f) = m;
  xs_idle_set m f : xs_idle f → xs_idle (x_set_mem m f);
  xs_busy_set m f : xs_busy f → xs_busy (x_set_mem m f);
  xs_ref_set m f ip bs : xs_ref f ip bs → xs_ref (x_set_mem m f) ip bs;
  xs_file_set m f ip bs : xs_file f ip bs → xs_file (x_set_mem m f) ip bs;
  xs_content_set m f path : xs_content (x_set_mem m f) path = xs_content f path;
  xs_file_bytes f ip bs : xs_file f ip bs → zlen bs < 2 ^ 31 ∧ Forall (λ c, 0 <= c < 256) bs;
  xs_begin_op f : xs_idle f → runs x_begin_op f (λ _ f',
    xs_busy f' ∧ x_mem f' = x_mem f ∧ xs_content f' = xs_content f);
  xs_namei f path l : xs_busy f → cstr (x_mem f) path l → zlen l < MAXPATH → 0 < path →
    (∀ b, path <= b <= path + zlen l → ¬ xs_private b) →
    runs (x_namei path) f (λ ip f',
      agree_off xs_private (x_mem f) (x_mem f') ∧ xs_content f' = xs_content f ∧
      (ip = 0 ∧ xs_content f l = None ∧ xs_busy f' ∨
       ip ≠ 0 ∧ ∃ bs, xs_content f l = Some bs ∧ xs_ref f' ip bs));
  xs_ilock f ip bs : xs_ref f ip bs → runs (x_ilock ip) f (λ _ f',
    xs_file f' ip bs ∧ x_mem f' = x_mem f ∧ xs_content f' = xs_content f);
  xs_readi f ip bs dst off n : xs_file f ip bs → 0 <= dst → dst + n < 2 ^ 64 → 0 <= off < 2 ^ 32 → 0 <= n < 2 ^ 32 →
    runs (x_readi ip dst off n) f (λ r f', xs_file f' ip bs ∧ xs_content f' = xs_content f ∧ r = read_len bs off n ∧
      ∀ b, rd8 (x_mem f') b = if decide (dst <= b < dst + r) then fbyte bs (off + (b - dst)) else rd8 (x_mem f) b);
  xs_iunlockput f ip bs : xs_file f ip bs → runs (x_iunlockput ip) f (λ _ f',
    xs_busy f' ∧ x_mem f' = x_mem f ∧ xs_content f' = xs_content f);
  xs_end_op f : xs_busy f → runs x_end_op f (λ _ f',
    xs_idle f' ∧ x_mem f' = x_mem f ∧ xs_content f' = xs_content f)
}.

(** ** The reference *)

Definition fmem (bs : list Z) : mem := wr_bytes ∅ 0 bs.
Definition holds_bytes (bs : list Z) (off n : Z) : bool := off + n <=? zlen bs.

(** A segment that exec refuses. *)
Definition bad_segment (ph : proghdr) : bool :=
  (ph_memsz ph <? ph_filesz ph) || (u64 (ph_vaddr ph + ph_memsz ph) <? ph_vaddr ph) || negb (ph_vaddr ph mod PGSIZE =? 0).

(** The headers from offset [off] on, [n] of them, loaded on top of an image
    of [sz] bytes; [None] when exec must refuse the file. *)
Fixpoint image_of (bs : list Z) (n : nat) (off sz : Z) (img : Z → Z) : option (Z * (Z → Z)) :=
  match n with
  | O => Some (sz, img)
  | S n' =>
      if negb (holds_bytes bs (u32 off) sizeof_proghdr) then None
      else
        let ph := get_proghdr (fmem bs) (u32 off) in
        if negb (ph_type ph =? ELF_PROG_LOAD) then image_of bs n' (s32 (off + sizeof_proghdr)) sz img
        else if bad_segment ph then None
        else
          let sz1 := Z.max sz (ph_vaddr ph + ph_memsz ph) in
          let o := u32 (ph_off ph) in
          let n := u32 (ph_filesz ph) in
          if (sz1 =? 0) || negb ((n =? 0) || holds_bytes bs o n) then None
          else image_of bs n' (s32 (off + sizeof_proghdr)) sz1 (overlay (ph_vaddr ph) n (λ i, fbyte bs (o + i)) img)
  end.

(** The image of an executable file: its size and its bytes. *)
Definition elf_image (bs : list Z) : option (Z * (Z → Z)) :=
  if negb (holds_bytes bs 0 sizeof_elfhdr) then None
  else if negb (elf_magic (fmem bs) 0 =? ELF_MAGIC) then None
  else image_of bs (Z.to_nat (elf_phnum (fmem bs) 0)) (s32 (elf_phoff (fmem bs) 0)) 0 (λ _, 0).

(** ** The states of a run *)

Section Exec.
Context (kend : Z) (kend_pos : 0 < kend) (trampoline : Z).
Context {F : Type} {XF : ExecFs F} {XS : ExecFsSpec F} (fr : frame).

Notation nodes k root := (is_node (kmem k) root).

(** [s] with other memory and another file system; the hart has balanced its
    push_off. *)
Definition moved (k : kst) (f : F) (s : pst F) : pst F := set_cpu (settle (cpu s)) (set_vm k (set_files f s)).

Lemma runs_on_vm {A} (m : K kst A) k f s (Q : A → pst F → Prop) :
  runs m k (λ a k', Q a (moved k' f s)) → runs (on_vm m) (moved k f s) Q.
Proof. intros H. by apply runs_zoom. Qed.

Lemma runs_on_fs {A} (m : K F A) k f s (Q : A → pst F → Prop) :
  runs m (x_set_mem (kmem k) f) (λ a f', Q a (moved (set_kmem (x_mem f') k) f' s)) → runs (on_fs m) (moved k f s) Q.
Proof. intros H. by apply runs_zoom. Qed.

Lemma runs_myproc_moved k f s (Q : Z → pst F → Prop) :
  hart_wf (cpu s) → Q (cur s) (moved k f s) → runs myproc (moved k f s) Q.
Proof.
  intros Hw HQ. apply runs_myproc; [by apply (settle_wf (cpu s)); [apply settle_settle|]|].
  assert (E : upd (procs (moved k f s)) (settle (cpu (moved k f s))) (moved k f s) = moved k f s); [|by rewrite E].
  unfold upd, moved. destruct s. cbn. by rewrite settle_settle.
Qed.

(** The file system operations that leave memory alone. *)
Lemma runs_fs_same {A} (m : K F A) k f s (P : F → Prop) (Q : A → pst F → Prop) :
  runs m (x_set_mem (kmem k) f) (λ _ f', P f' ∧ x_mem f' = x_mem (x_set_mem (kmem k) f) ∧ xs_content f' = xs_content (x_set_mem (kmem k) f)) →
  (∀ a f', P f' → (∀ l, xs_content f' l = xs_content f l) → Q a (moved k f' s)) → runs (on_fs m) (moved k f s) Q.
Proof.
  intros H HQ. apply runs_on_fs. eapply runs_mono; [exact H|]. intros a f' (H1 & H2 & H3). rewrite H2, xs_mem_set.
  replace (set_kmem (kmem k) k) with k by by destruct k. apply HQ; [done|]. intros l. rewrite H3. apply xs_content_set.
Qed.

(** *** The memory that loading may change *)

Definition area (a n b : Z) : Prop := a <= b < a + n.
Definition in_pages (l : list Z) (b : Z) : Prop := ∃ p, p ∈ l ∧ area p 4096 b.
Definition scratch (l : list Z) (b : Z) : Prop :=
  in_pages l b ∨ area (elf_at fr) sizeof_elfhdr b ∨ area (ph_at fr) sizeof_proghdr b ∨ area (ustack_at fr) (8 * MAXARG) b ∨ xs_private b.

(** The local variables lie apart from each other and from the pages [l]. *)
Record locals_ok (l : list Z) : Prop := {
  lo_range : 0 <= elf_at fr ∧ elf_at fr + 64 < 2 ^ 64 ∧ 0 <= ph_at fr ∧ ph_at fr + 56 < 2 ^ 64 ∧ 0 <= ustack_at fr;
  lo_elf b : area (elf_at fr) sizeof_elfhdr b → ¬ in_pages l b ∧ ¬ area (ph_at fr) sizeof_proghdr b ∧ ¬ area (ustack_at fr) (8 * MAXARG) b ∧ ¬ xs_private b;
  lo_ph b : area (ph_at fr) sizeof_proghdr b → ¬ in_pages l b;
  lo_ustack b : area (ustack_at fr) (8 * MAXARG) b → ¬ in_pages l b;
  lo_private b : xs_private b → ¬ in_pages l b
}.

Lemma keeps_off (D : Z → Prop) l k k' : (∀ p, D p → p ∈ l) → keeps_pages D k k' → agree_off (scratch l) (kmem k) (kmem k').
Proof.
  intros HD Hk b Hb. set (p := b / 4096 * 4096). apply (Hk p); [unfold page_aligned, p; zdm| |unfold p; zdm].
  intros Hp%HD. apply Hb. left. exists p. split; [done|]. unfold area, p. zdm.
Qed.

(** Changes outside the pages [l] are changes to no page of [l]. *)
Lemma off_pages l D m m' p : agree_off D m m' → (∀ b, D b → ¬ in_pages l b) → p ∈ l → agree m m' p 4096.
Proof. intros Ha HD Hp b Hb. apply Ha. intros H%HD. apply H. by exists p. Qed.

(** *** A space that is being loaded *)

(** [l0] is the free list and [m0] the memory when exec began; [img] is what
    the new space contains. *)
Record loading (tf : Z) (m0 : mem) (l0 : list Z) (root : Z) (l vs : list Z) (img : Z → Z) (k : kst) : Prop := {
  ld_space : uspace kend trampoline tf k l root vs;
  ld_owns p : owns k l root vs p ↔ p ∈ l0;
  ld_mem : agree_off (scratch l0) m0 (kmem k);
  ld_img x : 0 <= x < zlen vs * 4096 → ubyte (kmem k) vs x = img x
}.

(** Writing local variables does not concern the space. *)
Lemma loading_frame tf m0 l0 root l vs img k m :
  loading tf m0 l0 root l vs img k → (∀ p, p ∈ l0 → agree (kmem k) m p 4096) → agree_off (scratch l0) (kmem k) m →
  loading tf m0 l0 root l vs img (set_kmem m k) ∧ ∀ p, nodes (set_kmem m k) root p ↔ nodes k root p.
Proof.
  intros [Hs Ho Hm Hi] Hp Hoff. pose proof Hs as [[Hinv Hown _ _ _] _ _ _].
  destruct (pt_inv_frame kend kend_pos k root l m Hinv) as (Hinv' & Hv & Hn).
  { intros p Hp'. apply Hp, Ho. unfold owns. tauto. }
  destruct (space_tables kend trampoline tf k l root vs (set_kmem m k) l Hs Hinv') as [Hs' Ho']; [intros p; by rewrite Hn|done|].
  split; [|exact Hn]. split; [done|intros p; by rewrite Ho'|by eapply agree_off_trans|].
  intros x Hx. rewrite <-Hi by done. destruct (phys_page vs x Hx) as (p & Hp' & _ & E & Hr). unfold ubyte. rewrite E.
  apply (Hp p); [apply Ho; right; by right|lia].
Qed.

(** A read into a local variable. *)
Lemma loading_read tf m0 l0 root l vs img k (dst n : Z) m :
  loading tf m0 l0 root l vs img k → (∀ b, area dst n b → scratch l0 b ∧ ¬ in_pages l0 b) →
  agree_off (area dst n) (kmem k) m → loading tf m0 l0 root l vs img (set_kmem m k).
Proof.
  intros Hl Ha Hm. apply (loading_frame tf m0 l0 root l vs img k m Hl).
  - intros p Hp. eapply (off_pages l0); [exact Hm|by intros b [_ ?]%Ha|done].
  - eapply agree_off_weaken; [|exact Hm]. by intros b [? _]%Ha.
Qed.

(** *** readi *)

Lemma read_len_full bs off n : zlen bs < 2 ^ 31 → 0 <= off < 2 ^ 32 → 0 < n < 2 ^ 31 →
  0 <= read_len bs off n <= n ∧ (read_len bs off n = n ↔ off + n <= zlen bs).
Proof.
  intros Hb Ho Hn. unfold read_len. destruct (Z.ltb_spec (zlen bs) off); cbn [orb]; [lia|].
  rewrite (u32_small (off + n)) by lia. destruct (Z.ltb_spec (off + n) off); lia.
Qed.

Lemma runs_readi k f s ip bs dst off n (Q : Z → pst F → Prop) :
  xs_file f ip bs → 0 <= dst → dst + n < 2 ^ 64 → 0 <= off < 2 ^ 32 → 0 <= n < 2 ^ 32 →
  (∀ m f', xs_file f' ip bs → (∀ l, xs_content f' l = xs_content f l) →
     (∀ b, rd8 m b = if decide (dst <= b < dst + read_len bs off n) then fbyte bs (off + (b - dst)) else rd8 (kmem k) b) →
     Q (read_len bs off n) (moved (set_kmem m k) f' s)) →
  runs (on_fs (x_readi ip dst off n)) (moved k f s) Q.
Proof.
  intros Hf H1 H2 H3 H4 HQ. apply runs_on_fs. eapply runs_mono; [by apply xs_readi; [apply xs_file_set, Hf|..]|].
  intros r f' (Hf' & Hc & -> & Hb). apply HQ; [done|intros l; rewrite Hc; apply xs_content_set|].
  intros b. rewrite Hb. by rewrite xs_mem_set.
Qed.

(** *** loadseg *)

Definition all_user (vs : list Z) : Prop := ∀ v, v ∈ vs → Z.land v PTE_U ≠ 0 ∧ Z.land v PTE_R ≠ 0.

Lemma loading_ext tf m0 l0 root l vs img img' k :
  loading tf m0 l0 root l vs img k → (∀ x, 0 <= x < zlen vs * 4096 → img' x = img x) → loading tf m0 l0 root l vs img' k.
Proof. intros [H1 H2 H3 H4] E. split; [done..|]. intros x Hx. rewrite E by done. by apply H4. Qed.

(** [n] bytes [g] written to the user memory at [va]. *)
Lemma loading_write tf m0 l0 root l vs img k va n g m :
  loading tf m0 l0 root l vs img k → 0 <= va → 0 <= n → va + n <= zlen vs * 4096 →
  (∀ i, 0 <= i < n → rd8 m (phys vs (va + i)) = g i) →
  (∀ b, (∀ i, 0 <= i < n → b ≠ phys vs (va + i)) → rd8 m b = rd8 (kmem k) b) →
  loading tf m0 l0 root l vs (overlay va n g img) (set_kmem m k) ∧ agree_off (in_pages l0) (kmem k) m.
Proof.
  intros [Hs Ho Hm Hi] Hva Hn Hend Hw Hr.
  destruct (space_update kend kend_pos trampoline tf k l root vs va n g m Hs Hva Hn Hend Hw Hr) as (Hs' & Hn' & Hk & Hb).
  assert (Hoff : agree_off (in_pages l0) (kmem k) m).
  { intros b Hnb. apply Hr. intros i Hi' ->. destruct (phys_page vs (va + i)) as (p & Hp & _ & E & Hx); [lia|].
    apply Hnb. exists p. split; [apply Ho; right; by right|]. unfold area. lia. }
  split; [|done]. split; [done| | |].
  - intros p. rewrite <-Ho. unfold owns. by rewrite Hn'.
  - eapply agree_off_trans; [exact Hm|]. eapply agree_off_weaken; [|exact Hoff]. by left.
  - intros x Hx. cbn [kmem set_kmem]. rewrite Hb by done. unfold overlay. case_decide; [done|by apply Hi].
Qed.

Lemma phys_in_page vs a j : page_aligned a → 0 <= a → 0 <= j < 4096 → phys vs (a + j) = PTE2PA (vs !!! Z.to_nat (a / 4096)) + j.
Proof. unfold page_aligned. intros Ha H0 Hj. unfold phys. replace ((a + j) / 4096) with (a / 4096) by zdm. f_equal. zdm. Qed.

Definition seg_ok (bs : list Z) (offset n : Z) : Prop := n = 0 ∨ offset + n <= zlen bs.

Section Loadseg.
Context (tf : Z) (m0 : mem) (l0 : list Z) (root : Z) (l vs : list Z) (img : Z → Z) (s : pst F) (ip : Z) (bs : list Z) (va offset n : Z).
Hypothesis (Huser : all_user vs) (Hal : page_aligned va) (Hva : 0 <= va) (Hn : 0 <= n < 2 ^ 32) (Hend : va + n <= zlen vs * 4096).
Hypothesis (Hoff : 0 <= offset < 2 ^ 32) (k0 : kst) (f0 : F).

(** The first [i] bytes of the segment are loaded. *)
Definition loaded (i : Z) (k : kst) (f : F) : Prop :=
  loading tf m0 l0 root l vs (overlay va i (λ j, fbyte bs (offset + j)) img) k ∧ xs_file f ip bs ∧
  (∀ p, xs_content f p = xs_content f0 p) ∧ agree_off (in_pages l0) (kmem k0) (kmem k).

(** One page of it. *)
Lemma runs_load_page i k f (Q : Z → pst F → Prop) :
  let len := if n - i <? PGSIZE then n - i else PGSIZE in
  let pa := PTE2PA (vs !!! Z.to_nat ((va + i) / 4096)) in
  loaded i k f → page_aligned i → 0 <= i < n → (i = 0 ∨ offset + i <= zlen bs) →
  (∀ r k' f', (r = len ∧ offset + i + len <= zlen bs ∧ loaded (i + len) k' f') ∨
     (r ≠ len ∧ ¬ offset + i + len <= zlen bs ∧ ∃ g, loading tf m0 l0 root l vs g k' ∧ xs_file f' ip bs ∧
        (∀ p, xs_content f' p = xs_content f0 p) ∧ agree_off (in_pages l0) (kmem k0) (kmem k')) → Q r (moved k' f' s)) →
  runs (on_fs (x_readi ip pa (u32 (offset + i)) len)) (moved k f s) Q.
Proof using Hal Hend Hn Hoff Hva kend_pos.
  intros len pa (Hl & Hf & Hc & Ha) Hi Hr Hprev HQ. destruct (xs_file_bytes _ _ _ Hf) as [Hbs _].
  assert (Hlen : 0 < len <= 4096 ∧ i + len <= n) by (unfold len; change PGSIZE with 4096; destruct (Z.ltb_spec (n - i) 4096); lia).
  assert (Hoi : 0 <= offset + i < 2 ^ 32) by lia. rewrite (u32_small (offset + i)) by done. unfold page_aligned in *.
  assert (Hidx : 0 <= va + i < zlen vs * 4096) by lia.
  destruct (phys_page vs (va + i) Hidx) as (p & Hp & _ & Ep & _). unfold phys in Ep. replace ((va + i) mod 4096) with 0 in Ep by zdm.
  assert (Epa : pa = p) by (unfold pa; lia).
  destruct (space_page kend trampoline tf k l root vs p (ld_space _ _ _ _ _ _ _ _ Hl) Hp) as (_ & Hok & _).
  pose proof (page_ok_range kend kend_pos p Hok) as Hpr. change PHYSTOP with 2281701376 in Hpr.
  destruct (read_len_full bs (offset + i) len) as [Hrl Hfull]; [done|done|lia|].
  apply (runs_readi k f s ip bs); [done|lia|lia|done|lia|]. intros m f' Hf' Hc' Hm.
  set (r := read_len bs (offset + i) len) in *.
  destruct (loading_write tf m0 l0 root l vs _ k (va + i) r (λ j, fbyte bs (offset + i + j)) m Hl) as [Hl' Ha'].
  { lia. } { lia. } { lia. }
  { intros j Hj. rewrite phys_in_page by (unfold page_aligned; zdm). fold pa. rewrite Hm, decide_True by lia. f_equal. lia. }
  { intros b Hb. rewrite Hm, decide_False; [done|]. intros Hin. apply (Hb (b - pa)); [lia|].
    rewrite phys_in_page by (unfold page_aligned; zdm). fold pa. lia. }
  assert (Hc'' : ∀ q, xs_content f' q = xs_content f0 q) by (intros q; by rewrite Hc', Hc).
  assert (Ha'' : agree_off (in_pages l0) (kmem k0) m) by by eapply agree_off_trans.
  apply HQ. destruct (decide (r = len)) as [E|E].
  - left. split; [done|]. split; [by apply Hfull|]. split; [|done]. eapply loading_ext; [exact Hl'|].
    intros x Hx. rewrite E. unfold overlay. repeat case_decide; try lia; f_equal; lia.
  - right. split; [done|]. split; [by rewrite <-Hfull|]. eexists. split; [exact Hl'|done].
Qed.

Lemma runs_loadseg k f : loaded 0 k f →
  runs (loadseg root va ip offset n) (moved k f s) (λ r s', ∃ k' f', s' = moved k' f' s ∧
    (r = 0 ∧ seg_ok bs offset n ∧ loaded n k' f' ∨
     r = -1 ∧ ¬ seg_ok bs offset n ∧ ∃ g, loading tf m0 l0 root l vs g k' ∧ xs_file f' ip bs ∧
        (∀ p, xs_content f' p = xs_content f0 p) ∧ agree_off (in_pages l0) (kmem k0) (kmem k'))).
Proof using Hal Hend Hn Hoff Hva kend_pos Huser.
  intros H0. unfold loadseg. change PGSIZE with 4096.
  apply (runs_iter _ (λ c i s', ∃ k' f', s' = moved k' f' s ∧ c = Z.to_nat ((n - i + 4095) / 4096) ∧ 0 <= i ∧ page_aligned i ∧ (i < n + 4096) ∧
    loaded (Z.min i n) k' f' ∧ (i = 0 ∨ offset + Z.min i n <= zlen bs))) with (n := Z.to_nat ((n + 4095) / 4096)); cycle 1.
  { exists k, f. rewrite Z.min_l by lia. split_and!; [done|f_equal; f_equal; lia|lia|done|lia|done|by left]. }
  { zdm. }
  intros c i s1 (k1 & f1 & -> & -> & Hi & Hial & Hib & Hld & Hprev). unfold page_aligned in *.
  destruct (Z.ltb_spec i n) as [Hlt|Hge]; cycle 1.
  { apply runs_ret. exists k1, f1. split; [done|]. left. rewrite Z.min_r in Hld, Hprev by lia. split_and!; [done| |done]. unfold seg_ok. lia. }
  rewrite Z.min_l in Hld, Hprev by lia. pose proof Hld as (Hl & _). apply runs_bind.
  assert (Hv38 : va + n <= 2 ^ 38).
  { destruct (ld_space _ _ _ _ _ _ _ _ Hl) as [[_ _ Hfit _ _] _ _ _]. change TRAPFRAME with 274877898752 in Hfit. lia. }
  rewrite (u64_small (va + i)) by lia. apply runs_on_vm.
  pose proof (ld_space _ _ _ _ _ _ _ _ Hl) as Hs. pose proof Hs as [[(_ & Hw & _) _ _ _ _] _ _ _].
  eapply runs_Ok; [by apply (walkaddr_eq kend kend_pos)|].
  assert (HU : user_pte vs (va + i)) by (apply Huser, elem_total; zdm).
  pose proof (space_upage kend trampoline tf k1 l root vs (va + i) Hs ltac:(lia) HU) as Eu.
  replace ((va + i) / 4096 * 4096) with (va + i) in Eu by zdm. rewrite Eu.
  destruct (phys_page vs (va + i)) as (p & Hp & _ & Ep & _); [lia|]. unfold phys in Ep. replace ((va + i) mod 4096) with 0 in Ep by zdm.
  destruct (space_page kend trampoline tf k1 l root vs p Hs Hp) as (_ & Hok & _). pose proof (page_ok_range kend kend_pos p Hok) as Hpr.
  destruct (Z.eqb_spec (PTE2PA (vs !!! Z.to_nat ((va + i) / 4096))) 0); [lia|]. apply runs_bind.
  apply (runs_load_page i k1 f1); [done|done|lia|done|]. change PGSIZE with 4096. intros r k2 f2 Hcase.
  set (len := if n - i <? 4096 then n - i else 4096) in *.
  assert (Hlen : len = Z.min 4096 (n - i)) by (unfold len; destruct (Z.ltb_spec (n - i) 4096); lia).
  destruct Hcase as [(-> & Hok2 & Hld2)|(Hne & Hbad & g & Hrest)].
  - rewrite Z.eqb_refl. cbn [negb]. apply runs_ret. exists (Z.to_nat ((n - (i + 4096) + 4095) / 4096)). split; [zdm|].
    exists k2, f2. rewrite (u32_small (i + 4096)).
    + replace (Z.min (i + 4096) n) with (i + len) by lia. split_and!; [done|done|lia|zdm|lia|done|right; lia].
    + pose proof (space_bound kend kend_pos _ _ _ _ (us_part _ _ _ _ _ _ _ Hs)). lia.
  - destruct (Z.eqb_spec r len); [done|]. cbn [negb]. apply runs_ret. exists k2, f2. split; [done|]. right. split_and!; [done| |by exists g].
    unfold seg_ok. lia.
Qed.
End Loadseg.

(** *** The program headers *)

(** Fields read from a local variable are those of the file. *)
Lemma header_le m a bs off n : zlen bs < 2 ^ 31 → Forall (λ c, 0 <= c < 256) bs → 0 <= off → off + Z.of_nat n <= zlen bs →
  (∀ j, 0 <= j < Z.of_nat n → rd8 m (a + j) = fbyte bs (off + j)) → rd_le m a n = rd_le (fmem bs) off n.
Proof.
  intros Hb Hby Ho Hn Hm. revert a off Ho Hn Hm. induction n as [|n IH]; intros a off Ho Hn Hm; [done|].
  assert (E : ∀ m a, rd_le m a (S n) = rd8 m a + 256 * rd_le m (a + 1) n) by done. rewrite !E. f_equal.
  - specialize (Hm 0 ltac:(lia)). rewrite !Z.add_0_r in Hm. rewrite Hm. unfold fmem. rewrite rd8_wr_bytes, decide_True by lia.
    rewrite Z.sub_0_r. unfold fbyte. destruct (lookup_lt_is_Some_2 bs (Z.to_nat off) ltac:(lia)) as [c Hc].
    rewrite (list_lookup_total_correct _ _ _ Hc), Hc. simpl. symmetry. apply u8_small. by eapply Forall_lookup_1 in Hby.
  - f_equal. apply IH; [lia|lia|]. intros j Hj. specialize (Hm (j + 1) ltac:(lia)). rewrite <-Z.add_assoc, (Z.add_comm 1 j), Hm. f_equal. lia.
Qed.

Definition has_bytes (m : mem) (a : Z) (bs : list Z) (off n : Z) : Prop := ∀ j, 0 <= j < n → rd8 m (a + j) = fbyte bs (off + j).

Lemma has_bytes_sub m a bs off n j k : has_bytes m a bs off n → 0 <= j → j + k <= n → has_bytes m (a + j) bs (off + j) k.
Proof. intros H Hj Hk i Hi. rewrite <-!Z.add_assoc. apply H. lia. Qed.

#[local] Transparent rd16 rd32 rd64.

Lemma proghdr_bytes m a bs off : zlen bs < 2 ^ 31 → Forall (λ c, 0 <= c < 256) bs → 0 <= off → off + 56 <= zlen bs →
  has_bytes m a bs off 56 → get_proghdr m a = get_proghdr (fmem bs) off.
Proof.
  intros Hb Hby Ho Hn Hm. unfold get_proghdr, rd32, rd64.
  assert (E : ∀ j n, 0 <= j → j + Z.of_nat n <= 56 → rd_le m (a + j) n = rd_le (fmem bs) (off + j) n).
  { intros j n Hj Hjn. apply header_le; [done|done|lia|lia|]. apply (has_bytes_sub _ _ _ _ 56); done || lia. }
  pose proof (E 0 4%nat ltac:(lia) ltac:(lia)) as E0. rewrite !Z.add_0_r in E0.
  rewrite E0, !E by lia. done.
Qed.

Lemma elfhdr_bytes m a bs : zlen bs < 2 ^ 31 → Forall (λ c, 0 <= c < 256) bs → 64 <= zlen bs → has_bytes m a bs 0 64 →
  elf_magic m a = elf_magic (fmem bs) 0 ∧ elf_entry m a = elf_entry (fmem bs) 0 ∧ elf_phoff m a = elf_phoff (fmem bs) 0 ∧
  elf_phnum m a = elf_phnum (fmem bs) 0.
Proof.
  intros Hb Hby Hn Hm. unfold elf_magic, elf_entry, elf_phoff, elf_phnum, rd16, rd32, rd64.
  assert (E : ∀ j n, 0 <= j → j + Z.of_nat n <= 64 → rd_le m (a + j) n = rd_le (fmem bs) (0 + j) n).
  { intros j n Hj Hjn. apply header_le; [done|done|lia|lia|]. apply (has_bytes_sub _ _ _ _ 64); done || lia. }
  pose proof (E 0 4%nat ltac:(lia) ltac:(lia)) as E0. rewrite Z.add_0_r in E0.
  rewrite E0, !E by lia. done.
Qed.

#[local] Opaque rd16 rd32 rd64.

Lemma proghdr_range m a : let ph := get_proghdr m a in
  0 <= ph_vaddr ph < 2 ^ 64 ∧ 0 <= ph_memsz ph < 2 ^ 64 ∧ 0 <= ph_filesz ph < 2 ^ 64 ∧ 0 <= ph_off ph.
Proof. cbn. pose proof (rd64_range m (a + 16)). pose proof (rd64_range m (a + 40)). pose proof (rd64_range m (a + 32)). pose proof (rd64_range m (a + 8)). lia. Qed.

Lemma flags2perm_range flags : 0 <= flags2perm flags < 1024.
Proof. unfold flags2perm. by destruct (negb _), (negb _). Qed.

Lemma new_all_user xperm ps : 0 <= xperm < 1024 → (∀ p, p ∈ ps → page_ok kend p) → all_user (new_ptes xperm ps).
Proof.
  intros Hx Hok v (p & -> & Hp)%list_elem_of_fmap. destruct (page_mkpte kend kend_pos p _ (Hok p Hp) (new_perm xperm Hx)) as (_ & _ & HF).
  assert (Hbit : ∀ b, 0 <= b < 10 → Z.testbit (Z.lor PTE_R PTE_U) b = true → Z.testbit (mkpte p (Z.lor (Z.lor PTE_R PTE_U) xperm)) b = true).
  { intros b Hb Ht. assert (E : Z.testbit (PTE_FLAGS (mkpte p (Z.lor (Z.lor PTE_R PTE_U) xperm))) b = true) by (rewrite HF, !Z.lor_spec, <-Z.lor_spec, Ht; done).
    unfold PTE_FLAGS in E. rewrite Z.land_spec in E. by apply andb_true_iff in E as [E _]. }
  split; intros E.
  - apply (f_equal (λ z, Z.testbit z 4)) in E. by rewrite Z.land_spec, Hbit in E.
  - apply (f_equal (λ z, Z.testbit z 1)) in E. by rewrite Z.land_spec, Hbit in E.
Qed.

Lemma image_of_mono bs n off sz img szf imgf : image_of bs n off sz img = Some (szf, imgf) → sz <= szf.
Proof.
  revert off sz img. induction n as [|n IH]; intros off sz img; cbn [image_of]; [by intros [= -> _]|].
  repeat case_match; try done; intros E%IH; lia.
Qed.

Lemma loading_grown tf m0 l0 root l vs img k l' ps xperm k' :
  loading tf m0 l0 root l vs img k → 0 <= xperm < 1024 → (∀ x, zlen vs * 4096 <= x → img x = 0) →
  uspace kend trampoline tf k' l' root (vs ++ new_ptes xperm ps) →
  (∀ p, owns k' l' root (vs ++ new_ptes xperm ps) p ↔ owns k l root vs p) →
  keeps_pages (λ p, p ∈ l ∨ nodes k root p) k k' → (∀ p, p ∈ ps → page_ok kend p ∧ zero_page (kmem k') p) →
  loading tf m0 l0 root l' (vs ++ new_ptes xperm ps) img k' ∧ agree_off (in_pages l0) (kmem k) (kmem k').
Proof.
  intros [Hs Ho Hm Hi] Hx Hz Hs' Ho' Hk Hps.
  assert (Hown : ∀ p, p ∈ l ∨ nodes k root p → p ∈ l0) by (intros p Hp; apply Ho; unfold owns; tauto).
  assert (Hoff : agree_off (in_pages l0) (kmem k) (kmem k')).
  { intros b Hb. set (p := b / 4096 * 4096). apply (Hk p); [unfold page_aligned, p; zdm| |unfold p; zdm].
    intros Hp%Hown. apply Hb. exists p. split; [done|]. unfold area, p. zdm. }
  split; [|done]. split; [done|intros p; by rewrite Ho', Ho| |].
  - eapply agree_off_trans; [exact Hm|]. eapply agree_off_weaken; [|exact Hoff]. by left.
  - intros x Hxr. assert (El : zlen (vs ++ new_ptes xperm ps) = zlen vs + zlen ps) by (unfold new_ptes; rewrite length_app, length_fmap; lia).
    rewrite El in Hxr. rewrite (ubyte_grown kend kend_pos trampoline tf k l root vs k' ps xperm x Hs Hk Hx Hps Hxr).
    case_decide; [apply Hi; lia|]. symmetry. apply Hz. lia.
Qed.

Section Segments.
Context (tf : Z) (m0 : mem) (l0 : list Z) (root : Z) (s : pst F) (ip : Z) (bs : list Z) (f0 : F).
Hypothesis (Hlo : locals_ok l0).

(** A space in the making that [bad] can free, with the file still open. *)
Definition broken (sz : Z) (k : kst) (f : F) : Prop :=
  ∃ l vs img, loading tf m0 l0 root l vs img k ∧ 0 <= sz ∧ (sz + 4095) / 4096 = zlen vs ∧
    xs_file f ip bs ∧ ∀ p, xs_content f p = xs_content f0 p.

(** The first [sz] bytes of the new space hold [img]. *)
Definition segments (sz : Z) (img : Z → Z) (k : kst) (f : F) : Prop :=
  ∃ l vs, loading tf m0 l0 root l vs img k ∧ 0 <= sz ∧ (sz + 4095) / 4096 = zlen vs ∧
    xs_file f ip bs ∧ (∀ p, xs_content f p = xs_content f0 p) ∧
    all_user vs ∧ (∀ x, sz <= x → img x = 0) ∧ has_bytes (kmem k) (elf_at fr) bs 0 64 ∧ zlen l0 <= zlen l + 5 + 3 * zlen vs.

Lemma segments_broken sz img k f : segments sz img k f → broken sz k f.
Proof. intros (l & vs & H1 & H2 & H3 & H4 & H5 & _). by exists l, vs, img. Qed.

(** The memory after readi of a program header. *)
Lemma segments_header sz img k f f' m off :
  segments sz img k f → xs_file f' ip bs → (∀ p, xs_content f' p = xs_content f p) →
  (∀ b, rd8 m b = if decide (ph_at fr <= b < ph_at fr + read_len bs off sizeof_proghdr) then fbyte bs (off + (b - ph_at fr)) else rd8 (kmem k) b) →
  read_len bs off sizeof_proghdr <= sizeof_proghdr → segments sz img (set_kmem m k) f'.
Proof using Hlo kend_pos.
  intros (l & vs & Hl & Hsz & Hlen & Hf & Hc & Hu & Hz & He & Hn) Hf' Hc' Hm Hr. destruct Hlo as [_ Lelf Lph _ _].
  assert (Hoff : agree_off (area (ph_at fr) sizeof_proghdr) (kmem k) m).
  { intros b Hb. rewrite Hm, decide_False; [done|]. unfold area in Hb. lia. }
  exists l, vs. split_and!; try done.
  - eapply loading_read; [exact Hl| |exact Hoff]. intros b Hb. split; [|by apply Lph]. right. right. by left.
  - intros p. by rewrite Hc', Hc.
  - intros j Hj. cbn [kmem set_kmem]. rewrite Hoff; [by apply He|]. apply Lelf. unfold area, sizeof_elfhdr. lia.
Qed.

(** uvmalloc in such a space. *)
Lemma runs_grow_segments sz img k f newsz xperm (Q : Z → pst F → Prop) :
  segments sz img k f → 0 <= newsz → 0 <= xperm < 1024 →
  (∀ k', broken sz k' f → (Z.max sz newsz = 0 ∨ zlen l0 <= 5 + 3 * ((newsz + 4095) / 4096)) → Q 0 (moved k' f s)) →
  (∀ k', Z.max sz newsz ≠ 0 → segments (Z.max sz newsz) img k' f → Q (Z.max sz newsz) (moved k' f s)) →
  runs (on_vm (uvmalloc kend root sz newsz xperm)) (moved k f s) Q.
Proof using Hlo kend_pos.
  intros (l & vs & Hl & Hsz & Hlen & Hf & Hc & Hu & Hz & He & Hn) Hnew Hx Hfail Hok. apply runs_on_vm.
  assert (Hz' : ∀ x, zlen vs * 4096 <= x → img x = 0) by (intros x Hxr; apply Hz; zdm).
  eapply runs_mono; [by apply (runs_grow_space kend kend_pos trampoline tf k l root vs sz newsz xperm (ld_space _ _ _ _ _ _ _ _ Hl))|].
  intros r k' (l' & ps & Hs' & Ho' & Hk' & Hps & Hres).
  destruct (loading_grown tf m0 l0 root l vs img k l' ps xperm k' Hl Hx Hz' Hs' Ho' Hk' Hps) as [Hl' Hoff].
  destruct Hres as [(-> & -> & Hcnt)|(Hr & -> & Hlen' & Hcnt)].
  - apply Hfail; [|destruct Hcnt; [by left|right; lia]]. exists l', (vs ++ new_ptes xperm []), img. split_and!; try done.
    unfold new_ptes. simpl. by rewrite app_nil_r.
  - apply Hok; [done|].
    assert (El : zlen (vs ++ new_ptes xperm ps) = zlen vs + zlen ps) by (unfold new_ptes; rewrite length_app, length_fmap; lia).
    exists l', (vs ++ new_ptes xperm ps). rewrite El. split_and!; try done; [lia| | | |lia].
    + intros v [Hv|Hv]%elem_of_app; [by apply Hu|]. revert v Hv. apply (new_all_user xperm ps Hx). intros p Hp. by apply Hps.
    + intros x Hxr. apply Hz. lia.
    + intros j Hj. rewrite Hoff; [by apply He|]. apply (lo_elf _ Hlo). unfold area, sizeof_elfhdr. lia.
Qed.

(** loadseg in such a space. *)
Lemma runs_load_segments_one sz img k f va offset n (Q : Z → pst F → Prop) :
  segments sz img k f → page_aligned va → 0 <= va → 0 <= n < 2 ^ 32 → va + n <= sz → 0 <= offset < 2 ^ 32 →
  (∀ k' f', seg_ok bs offset n → segments sz (overlay va n (λ j, fbyte bs (offset + j)) img) k' f' → Q 0 (moved k' f' s)) →
  (∀ k' f', ¬ seg_ok bs offset n → broken sz k' f' → Q (-1) (moved k' f' s)) →
  runs (loadseg root va ip offset n) (moved k f s) Q.
Proof using Hlo kend_pos.
  intros (l & vs & Hl & Hsz & Hlen & Hf & Hc & Hu & Hz & He & Hn) Hal Hva Hnr Hend Hoff Hok Hbad.
  assert (Hend' : va + n <= zlen vs * 4096) by zdm.
  eapply runs_mono; [apply (runs_loadseg tf m0 l0 root l vs img s ip bs va offset n Hu Hal Hva Hnr Hend' Hoff k f k f)|].
  - split_and!; [|done|done|apply agree_off_refl]. eapply loading_ext; [exact Hl|]. intros x _. unfold overlay. by rewrite decide_False by lia.
  - intros r s' (k' & f' & -> & [(-> & Hso & Hl' & Hf' & Hc' & Ha')|(-> & Hso & g & Hl' & Hf' & Hc' & Ha')]).
    + apply Hok; [done|]. exists l, vs. split_and!; try done.
      * intros p. by rewrite Hc'.
      * intros x Hx. unfold overlay. rewrite decide_False by lia. by apply Hz.
      * intros j Hj. rewrite Ha'; [by apply He|]. apply (lo_elf _ Hlo). unfold area, sizeof_elfhdr. lia.
    + apply Hbad; [done|]. exists l, vs, g. split_and!; try done. intros p. by rewrite Hc'.
Qed.

(** Enough memory for an image of [szf] bytes would have been free. *)
Definition short (szf : Z) : Prop := zlen l0 <= 5 + 3 * ((szf + 4095) / 4096).

(** One program header, against the reference. *)
Lemma runs_load_one off sz img k f : segments sz img k f →
  runs (load_one kend fr root ip off sz) (moved k f s) (λ r s', ∃ k' f', s' = moved k' f' s ∧
    match r with
    | inl sz' => broken sz' k' f' ∧
        ∀ n szf imgf, image_of bs (S n) off sz img = Some (szf, imgf) → short szf
    | inr sz' => ∃ img', segments sz' img' k' f' ∧
        ∀ n, image_of bs (S n) off sz img = image_of bs n (s32 (off + sizeof_proghdr)) sz' img'
    end).
Proof using Hlo kend_pos.
  intros Hseg. unfold load_one. pose proof Hseg as (_ & _ & _ & Hsz & _ & Hf & _).
  destruct (xs_file_bytes _ _ _ Hf) as [Hbs Hby]. assert (Ho := u32_range off).
  destruct (read_len_full bs (u32 off) sizeof_proghdr) as [Hrl Hfull]; [done|done|done|].
  apply runs_bind, (runs_readi k f s ip bs); [done|apply Hlo|apply Hlo|done|done|]. intros m f1 Hf1 Hc1 Hm.
  pose proof (segments_header sz img k f f1 m (u32 off) Hseg Hf1 Hc1 Hm ltac:(lia)) as Hseg1.
  destruct (Z.eqb_spec (read_len bs (u32 off) sizeof_proghdr) sizeof_proghdr) as [E|E]; cbn [negb]; cycle 1.
  { apply runs_ret. exists (set_kmem m k), f1. split; [done|]. split; [by eapply segments_broken|].
    intros n szf imgf. cbn [image_of]. unfold holds_bytes. destruct (Z.leb_spec (u32 off + sizeof_proghdr) (zlen bs)); [tauto|done]. }
  assert (Hin : u32 off + sizeof_proghdr <= zlen bs) by tauto. unfold the_mem. apply runs_bind, runs_gets. change (kmem (vm (moved (set_kmem m k) f1 s))) with m.
  assert (Eph : get_proghdr m (ph_at fr) = get_proghdr (fmem bs) (u32 off)).
  { apply proghdr_bytes; [done|done|lia|done|]. intros j Hj. rewrite Hm, E, decide_True by (unfold sizeof_proghdr in *; lia). f_equal. lia. }
  rewrite Eph. pose proof (proghdr_range (fmem bs) (u32 off)) as Hpr. set (ph := get_proghdr (fmem bs) (u32 off)) in *.
  set (k1 := set_kmem m k) in *. cbv zeta in Hpr. destruct Hpr as (Hv & Hms & Hfs & Hpo).
  assert (Eim : ∀ n, image_of bs (S n) off sz img =
    if negb (ph_type ph =? ELF_PROG_LOAD) then image_of bs n (s32 (off + sizeof_proghdr)) sz img
    else if bad_segment ph then None
    else if (Z.max sz (ph_vaddr ph + ph_memsz ph) =? 0) || negb ((u32 (ph_filesz ph) =? 0) || holds_bytes bs (u32 (ph_off ph)) (u32 (ph_filesz ph))) then None
    else image_of bs n (s32 (off + sizeof_proghdr)) (Z.max sz (ph_vaddr ph + ph_memsz ph))
           (overlay (ph_vaddr ph) (u32 (ph_filesz ph)) (λ i, fbyte bs (u32 (ph_off ph) + i)) img)).
  { intros n. cbn [image_of]. unfold holds_bytes at 1. destruct (Z.leb_spec (u32 off + sizeof_proghdr) (zlen bs)); [done|lia]. }
  clearbody ph. destruct (ph_type ph =? ELF_PROG_LOAD); cbn [negb] in *; cycle 1.
  { apply runs_ret. exists k1, f1. split; [done|]. exists img. split; [done|]. intros n. by rewrite Eim. }
  assert (Hrefuse : bad_segment ph = true → broken sz k1 f1 ∧ ∀ n szf imgf, image_of bs (S n) off sz img = Some (szf, imgf) → short szf).
  { intros Hb. split; [by eapply segments_broken|]. intros n szf imgf. by rewrite Eim, Hb. }
  unfold bad_segment in *.
  destruct (Z.ltb_spec (ph_memsz ph) (ph_filesz ph)) as [|Hmf]; cbn [orb] in *; [apply runs_ret; exists k1, f1; split; [done|auto]|].
  destruct (Z.ltb_spec (u64 (ph_vaddr ph + ph_memsz ph)) (ph_vaddr ph)) as [|Hwrap]; cbn [orb] in *; [apply runs_ret; exists k1, f1; split; [done|auto]|].
  destruct (Z.eqb_spec (ph_vaddr ph mod PGSIZE) 0) as [Hal|]; cbn [negb] in *; [|apply runs_ret; exists k1, f1; split; [done|auto]]. clear Hrefuse.
  assert (Hsum : u64 (ph_vaddr ph + ph_memsz ph) = ph_vaddr ph + ph_memsz ph).
  { destruct (decide (ph_vaddr ph + ph_memsz ph < 2 ^ 64)); [apply u64_small; lia|]. exfalso. unfold u64 in Hwrap. zdm. }
  rewrite Hsum. apply runs_bind. apply (runs_grow_segments sz img k1 f1); [done|lia|apply flags2perm_range| |].
  { intros k2 Hbr Hsh. cbn [Z.eqb]. apply runs_ret. exists k2, f1. split; [done|]. split; [done|]. intros n szf imgf. rewrite Eim.
    destruct (Z.eqb_spec (Z.max sz (ph_vaddr ph + ph_memsz ph)) 0); cbn [orb]; [done|]. destruct (negb _); [done|].
    intros Ei%image_of_mono. unfold short. destruct Hsh as [|Hsh]; [done|]. zdm. }
  intros k2 Hsz1 Hseg2. destruct (Z.eqb_spec (Z.max sz (ph_vaddr ph + ph_memsz ph)) 0) as [|_]; [done|]. cbn [orb] in *. apply runs_bind.
  assert (Hfu := u32_range (ph_filesz ph)). assert (Hfle : u32 (ph_filesz ph) <= ph_filesz ph) by (unfold u32; apply Z.mod_le; lia).
  apply (runs_load_segments_one (Z.max sz (ph_vaddr ph + ph_memsz ph)) img k2 f1); [done|done|lia|done|lia|apply u32_range| |].
  - intros k3 f3 Hok Hseg3. cbn [Z.ltb Z.compare]. apply runs_ret. exists k3, f3. split; [done|]. eexists. split; [exact Hseg3|].
    intros n. rewrite Eim. unfold seg_ok, holds_bytes in *. destruct (Z.eqb_spec (u32 (ph_filesz ph)) 0); [done|]. cbn [orb].
    destruct (Z.leb_spec (u32 (ph_off ph) + u32 (ph_filesz ph)) (zlen bs)); [done|lia].
  - intros k3 f3 Hno Hbr. cbn [Z.ltb Z.compare]. apply runs_ret. exists k3, f3. split; [done|]. split; [done|]. intros n szf imgf. rewrite Eim.
    unfold seg_ok, holds_bytes in *. destruct (Z.eqb_spec (u32 (ph_filesz ph)) 0); [lia|]. cbn [orb].
    destruct (Z.leb_spec (u32 (ph_off ph) + u32 (ph_filesz ph)) (zlen bs)); [lia|done].
Qed.

(** The header on the stack is that of the file. *)
Lemma segments_elf sz img k f : segments sz img k f → 64 <= zlen bs →
  elf_phnum (kmem k) (elf_at fr) = elf_phnum (fmem bs) 0 ∧ elf_phoff (kmem k) (elf_at fr) = elf_phoff (fmem bs) 0 ∧
  elf_entry (kmem k) (elf_at fr) = elf_entry (fmem bs) 0.
Proof.
  intros (l & vs & _ & _ & _ & Hf & _ & _ & _ & He & _) Hb. destruct (xs_file_bytes _ _ _ Hf) as [H1 H2].
  destruct (elfhdr_bytes (kmem k) (elf_at fr) bs H1 H2 Hb He) as (_ & ? & ? & ?). done.
Qed.

Definition plan : option (Z * (Z → Z)) :=
  image_of bs (Z.to_nat (elf_phnum (fmem bs) 0)) (s32 (elf_phoff (fmem bs) 0)) 0 (λ _, 0).

Lemma runs_load_segments k f : segments 0 (λ _, 0) k f → 64 <= zlen bs →
  runs (load_segments kend fr root ip) (moved k f s) (λ r s', ∃ k' f', s' = moved k' f' s ∧
    match r with
    | inl sz => broken sz k' f' ∧ ∀ szf imgf, plan = Some (szf, imgf) → short szf
    | inr sz => ∃ img, plan = Some (sz, img) ∧ segments sz img k' f'
    end).
Proof using Hlo kend_pos.
  intros H0 Hb. unfold load_segments, the_mem. apply runs_bind, runs_gets. change (kmem (vm (moved k f s))) with (kmem k).
  destruct (segments_elf _ _ _ _ H0 Hb) as (En & Eo & _). rewrite En, Eo.
  assert (Hnr : 0 <= elf_phnum (fmem bs) 0) by apply rd16_range. set (N := elf_phnum (fmem bs) 0) in *.
  apply (runs_iter _ (λ c '(i, off, sz) s', ∃ k' f' img, s' = moved k' f' s ∧ 0 <= i <= N ∧ c = Z.to_nat (N - i) ∧ segments sz img k' f' ∧
    plan = image_of bs c off sz img)) with (n := Z.to_nat N); cycle 1.
  { exists k, f, (λ _, 0). split_and!; [done|lia|lia|f_equal; lia|done|done]. }
  { lia. }
  intros c [[i off] sz] s1 (k1 & f1 & img & -> & Hi & -> & Hseg & Hplan). apply runs_bind, runs_gets. change (kmem (vm (moved k1 f1 s))) with (kmem k1).
  destruct (segments_elf _ _ _ _ Hseg Hb) as (-> & _). fold N. destruct (Z.ltb_spec i N) as [Hlt|Hge]; cycle 1.
  { apply runs_ret. exists k1, f1. split; [done|]. exists img. split; [|done]. rewrite Hplan. by replace (Z.to_nat (N - i)) with O by lia. }
  replace (Z.to_nat (N - i)) with (S (Z.to_nat (N - (i + 1)))) in * by lia.
  apply runs_bind. eapply runs_mono; [by apply (runs_load_one off sz img k1 f1)|].
  intros [sz'|sz'] s2 (k2 & f2 & -> & H2).
  - destruct H2 as [Hbr Hsh]. apply runs_ret. exists k2, f2. split; [done|]. split; [done|]. intros szf imgf. rewrite Hplan. apply Hsh.
  - destruct H2 as (img' & Hseg' & Eim). apply runs_ret. exists (Z.to_nat (N - (i + 1))). split; [lia|].
    exists k2, f2, img'. split_and!; [done|lia|lia|done|done|]. by rewrite Hplan, Eim.
Qed.
End Segments.

(** *** Undoing *)

Context (tramp_ok : page_aligned trampoline ∧ 0 <= trampoline < 2 ^ 54).

(** The pages that were free are free again. *)
Definition undone (m0 : mem) (l0 : list Z) (k : kst) : Prop :=
  ∃ l, kinv kend k l ∧ (∀ p, p ∈ l ↔ p ∈ l0) ∧ agree_off (scratch l0) m0 (kmem k).

Lemma loading_root tf m0 l0 root l vs img k : loading tf m0 l0 root l vs img k → 0 < root.
Proof.
  intros [[[(_ & Hw & _) _ _ _ _] _ _ _] _ _ _]. pose proof (node_page_aligned kend _ _ _ Hw (is_node_root (kmem k) root)) as Hok.
  by apply (page_ok_range kend kend_pos) in Hok as [? _].
Qed.

Lemma runs_free_loading tf m0 l0 root l vs img k f s sz :
  page_aligned tf ∧ 0 <= tf < 2 ^ 54 → loading tf m0 l0 root l vs img k → 0 <= sz → (sz + 4095) / 4096 = zlen vs →
  runs (proc_freepagetable kend root sz) (moved k f s) (λ _ s', ∃ k', s' = moved k' f s ∧ undone m0 l0 k').
Proof using kend_pos tramp_ok.
  intros Htf [Hs Ho Hm _] Hsz Hlen. unfold proc_freepagetable. apply runs_on_vm.
  eapply runs_mono; [by apply (runs_free_space kend kend_pos trampoline tf tramp_ok Htf k l root vs sz)|].
  intros [] k' (l' & Hf & Ho' & Hk). exists k'. split; [done|]. exists l'. split_and!; [done|intros p; by rewrite Ho', Ho|].
  eapply agree_off_trans; [exact Hm|]. eapply keeps_off; [|exact Hk]. intros p Hp. apply Ho. unfold owns. tauto.
Qed.

(** [bad] with the file open. *)
Lemma runs_close k f s ip bs (Q : unit → pst F → Prop) : xs_file f ip bs →
  (∀ f', xs_idle f' → (∀ p, xs_content f' p = xs_content f p) → Q tt (moved k f' s)) →
  runs (on_fs (x_iunlockput ip) ;;; on_fs x_end_op) (moved k f s) Q.
Proof.
  intros Hf HQ. apply runs_bind. eapply (runs_fs_same _ _ _ _ xs_busy); [by eapply xs_iunlockput, xs_file_set|]. intros [] f1 H1 C1.
  eapply (runs_fs_same _ _ _ _ xs_idle); [by eapply xs_end_op, xs_busy_set|]. intros [] f2 H2 C2. apply HQ; [done|]. intros p. by rewrite C2, C1.
Qed.

(** How exec ends when it fails. *)
Definition failed (m0 : mem) (l0 : list Z) (f0 : F) (s : pst F) (r : Z) (s' : pst F) : Prop :=
  r = -1 ∧ ∃ k f, s' = moved k f s ∧ undone m0 l0 k ∧ xs_idle f ∧ ∀ p, xs_content f p = xs_content f0 p.

Lemma runs_bad_early m0 l0 f0 k f s ip bs : xs_file f ip bs → ip ≠ 0 → (∀ p, xs_content f p = xs_content f0 p) → undone m0 l0 k →
  runs (bad kend 0 0 ip) (moved k f s) (failed m0 l0 f0 s).
Proof.
  intros Hf Hip Hc Hu. unfold bad. cbn [Z.eqb negb]. apply runs_bind, runs_ret, runs_bind. destruct (Z.eqb_spec ip 0); [done|]. cbn [negb].
  eapply runs_close; [done|]. intros f' Hi Hc'. apply runs_ret. split; [done|]. exists k, f'. split_and!; [done|done|done|]. intros p. by rewrite Hc', Hc.
Qed.

Lemma runs_bad_open tf m0 l0 root s ip bs f0 sz k f : page_aligned tf ∧ 0 <= tf < 2 ^ 54 → ip ≠ 0 →
  broken tf m0 l0 root ip bs f0 sz k f → runs (bad kend root sz ip) (moved k f s) (failed m0 l0 f0 s).
Proof using kend_pos tramp_ok.
  intros Htf Hip (l & vs & img & Hl & Hsz & Hlen & Hf & Hc). unfold bad. pose proof (loading_root _ _ _ _ _ _ _ _ Hl).
  destruct (Z.eqb_spec root 0); [lia|]. cbn [negb]. apply runs_bind. eapply runs_mono; [by eapply (runs_free_loading tf m0 l0 root l vs img)|].
  intros [] s' (k' & -> & Hu). apply runs_bind. destruct (Z.eqb_spec ip 0); [done|]. cbn [negb].
  eapply runs_close; [done|]. intros f' Hi Hc'. apply runs_ret. split; [done|]. exists k', f'. split_and!; [done|done|done|]. intros p. by rewrite Hc', Hc.
Qed.

(** [bad] after the file has been closed. *)
Lemma runs_bad_closed tf m0 l0 root l vs img s f0 sz k f : page_aligned tf ∧ 0 <= tf < 2 ^ 54 →
  loading tf m0 l0 root l vs img k → 0 <= sz → (sz + 4095) / 4096 = zlen vs → xs_idle f → (∀ p, xs_content f p = xs_content f0 p) →
  runs (bad kend root sz 0) (moved k f s) (failed m0 l0 f0 s).
Proof using kend_pos tramp_ok.
  intros Htf Hl Hsz Hlen Hi Hc. unfold bad. pose proof (loading_root _ _ _ _ _ _ _ _ Hl).
  destruct (Z.eqb_spec root 0); [lia|]. cbn [negb]. apply runs_bind. eapply runs_mono; [by eapply (runs_free_loading tf m0 l0 root l vs img)|].
  intros [] s' (k' & -> & Hu). cbn [Z.eqb negb]. apply runs_bind, runs_ret, runs_ret. split; [done|]. by exists k', f.
Qed.
End Exec.
