(* ===== verification/ExecStack.v ===== *)
(** exec.c after the program is in memory: the stack with the arguments, and
    the switch to the new image. *)

From S2P Require Import Prelude Mem CString Riscv Spinlock Kalloc Vm VmSpec VmCopy VmUser VmFree VmSpace Proc ProcSpec Exec ExecSpec.
Local Open Scope kernel_scope.

(** ** The reference *)

(** The stack pointer after the string [a] has been pushed. *)
Definition push (sp : Z) (a : list Z) : Z := let sp := sp - (zlen a + 1) in sp - sp mod 16.

(** The bytes of a C string. *)
Definition cbyte (a : list Z) (i : Z) : Z := (a ++ [0]) !!! Z.to_nat i.

(** A stack in the making: its pointer, the memory image, and the addresses
    of the strings pushed. *)
Record stk := mkStk { sk_sp : Z; sk_img : Z → Z; sk_at : list Z }.

Definition push_arg (t : stk) (a : list Z) : stk :=
  let sp := push (sk_sp t) a in
  mkStk sp (overlay sp (zlen a + 1) (cbyte a) (sk_img t)) (sk_at t ++ [sp]).
Definition push_all (sp : Z) (img : Z → Z) (args : list (list Z)) : stk := foldl push_arg (mkStk sp img []) args.

(** The array of pointers below the strings. *)
Definition argv_sp (t : stk) : Z := let sp := sk_sp t - (zlen (sk_at t) + 1) * 8 in sp - sp mod 16.
Definition word_byte (ws : list Z) (i : Z) : Z := (ws !!! Z.to_nat (i / 8)) / 256 ^ (i mod 8) mod 256.
Definition stack_image (t : stk) : Z → Z :=
  overlay (argv_sp t) ((zlen (sk_at t) + 1) * 8) (word_byte (sk_at t ++ [0])) (sk_img t).

Lemma push_all_snoc sp img args a : push_all sp img (args ++ [a]) = push_arg (push_all sp img args) a.
Proof. unfold push_all. by rewrite foldl_app. Qed.

Lemma push_all_at sp img args : length (sk_at (push_all sp img args)) = length args.
Proof. induction args as [|a args IH] using rev_ind; [done|]. rewrite push_all_snoc, length_app. simpl. rewrite length_app, IH. done. Qed.

Lemma push_all_prefix sp img args rest : sk_at (push_all sp img args) `prefix_of` sk_at (push_all sp img (args ++ rest)).
Proof.
  induction rest as [|a rest IH] using rev_ind; [by rewrite app_nil_r|]. rewrite app_assoc, push_all_snoc. etrans; [exact IH|]. simpl. by apply prefix_app_r.
Qed.

Lemma push_bounds sp a : zlen a < 4096 → 4096 <= sp → 0 <= push sp a ∧ push sp a + (zlen a + 1) <= sp.
Proof. intros Ha Hs. unfold push. zdm. Qed.

(** ** Bytes of words and strings *)

Lemma rd8_rd_le m a n j : 0 <= j < Z.of_nat n → rd8 m (a + j) = rd_le m a n / 256 ^ j mod 256.
Proof.
  revert a j. induction n as [|n IH]; intros a j Hj; [lia|].
  assert (E : rd_le m a (S n) = rd8 m a + 256 * rd_le m (a + 1) n) by done. rewrite E.
  pose proof (rd8_range m a) as Hr. destruct (decide (j = 0)) as [->|Hne].
  - rewrite Z.add_0_r, Z.pow_0_r, Z.div_1_r. rewrite Z.mul_comm, Z.mod_add by lia. symmetry. by apply Z.mod_small.
  - specialize (IH (a + 1) (j - 1) ltac:(lia)). replace (a + 1 + (j - 1)) with (a + j) in IH by lia. rewrite IH. f_equal.
    replace j with (1 + (j - 1)) at 2 by lia. rewrite Z.pow_add_r, Z.pow_1_r, <-Z.div_div by lia. f_equal.
    rewrite Z.mul_comm, Z.div_add by lia. rewrite Z.div_small by lia. lia.
Qed.

Lemma rd8_rd64 m a j : 0 <= j < 8 → rd8 m (a + j) = rd64 m a / 256 ^ j mod 256.
Proof. intros Hj. Local Transparent rd64. unfold rd64. by apply rd8_rd_le. Qed.
#[local] Opaque rd64.

Lemma cstr_byte m p a i : cstr m p a → 0 <= i <= zlen a → rd8 m (p + i) = cbyte a i.
Proof.
  revert p i. induction a as [|c a IH]; intros p i Hc Hi; cbn [cstr length] in *.
  - assert (i = 0) as -> by lia. by rewrite Z.add_0_r.
  - destruct Hc as (Hc & _ & Hr). destruct (decide (i = 0)) as [->|]; [by rewrite Z.add_0_r|].
    specialize (IH (p + 1) (i - 1) Hr ltac:(lia)). replace (p + 1 + (i - 1)) with (p + i) in IH by lia. rewrite IH.
    unfold cbyte. replace (Z.to_nat i) with (S (Z.to_nat (i - 1))) by lia. done.
Qed.

(** ** The arguments in kernel memory *)

Section Stack.
Context (kend : Z) (kend_pos : 0 < kend) (trampoline : Z).
Context {F : Type} {XF : ExecFs F} {XS : ExecFsSpec F} (fr : frame).
Context (tf : Z) (m0 : mem) (l0 : list Z) (root : Z).

Abbreviation loads := (loading kend trampoline fr tf m0 l0 root).
Abbreviation off_limits := (scratch fr l0).

(** [argv] is an array of pointers to the strings [args], in memory that
    loading does not touch. *)
Record args_at (argv : Z) (ptrs : list Z) (args : list (list Z)) : Prop := {
  aa_len : length ptrs = length args;
  aa_max : zlen args < MAXARG;
  aa_ptr i p : ptrs !! i = Some p → p ≠ 0 ∧ rd64 m0 (argv + 8 * Z.of_nat i) = p;
  aa_end : rd64 m0 (argv + 8 * zlen ptrs) = 0;
  aa_str i p a : ptrs !! i = Some p → args !! i = Some a →
    cstr m0 p a ∧ zlen a < PGSIZE ∧ ∀ b, area p (zlen a + 1) b → ¬ off_limits b;
  aa_off b : area argv (8 * (zlen ptrs + 1)) b → ¬ off_limits b
}.

Lemma args_word argv ptrs args l vs img k i : args_at argv ptrs args → loads l vs img k → 0 <= i <= zlen ptrs →
  rd64 (kmem k) (argv + 8 * i) = rd64 m0 (argv + 8 * i).
Proof. intros Ha Hl Hi. apply rd64_ext. intros b Hb. apply (ld_mem _ _ _ _ _ _ _ _ _ _ _ Hl), (aa_off _ _ _ Ha). unfold area. lia. Qed.

Lemma args_str argv ptrs args l vs img k i p a : args_at argv ptrs args → loads l vs img k → ptrs !! i = Some p → args !! i = Some a →
  cstr (kmem k) p a ∧ zlen a < 4096.
Proof.
  intros Ha Hl Hp Hi. destruct (aa_str _ _ _ Ha i p a Hp Hi) as (Hs & Hlen & Hoff). split; [|done].
  eapply cstr_ext; [exact Hs|]. intros b Hb. apply (ld_mem _ _ _ _ _ _ _ _ _ _ _ Hl), Hoff. unfold area. lia.
Qed.

(** A range of addresses outside the pages [l0] meets no page of them. *)
Lemma range_apart a n p : 0 < n → (∀ b, area a n b → ¬ in_pages l0 b) → p ∈ l0 → a + n <= p ∨ p + 4096 <= a.
Proof.
  intros Hn Ha Hp. destruct (decide (a + n <= p)); [by left|]. destruct (decide (p + 4096 <= a)); [by right|]. exfalso.
  apply (Ha (Z.max a p)); [unfold area; lia|]. exists p. split; [done|]. unfold area. lia.
Qed.

Abbreviation nodes_of k := (is_node (kmem k) root).

(** Changes to pages of [l0]. *)
Lemma keeps_in (D : Z → Prop) k k' : keeps_pages D k k' → (∀ p, D p → p ∈ l0) → agree_off (in_pages l0) (kmem k) (kmem k').
Proof.
  intros Hk HD b Hb. set (p := b / 4096 * 4096). apply (Hk p); [unfold page_aligned, p; zdm| |unfold p; zdm].
  intros Hp%HD. apply Hb. exists p. split; [done|]. unfold area, p. zdm.
Qed.

(** copyout of kernel memory that is not in the pages [l0]. *)
Lemma runs_copyout_loading l vs img k f s va len buf (Q : Z → pst F → Prop) :
  loads l vs img k → 0 <= va → 0 < len → va + len <= zlen vs * 4096 → (∀ x, va <= x < va + len → user_pte vs x) →
  (∀ b, area buf len b → ¬ in_pages l0 b) →
  (∀ k', loads l vs (overlay va len (λ i, rd8 (kmem k) (buf + i)) img) k' → agree_off (in_pages l0) (kmem k) (kmem k') → Q 0 (moved k' f s)) →
  runs (on_vm (copyout root va buf len)) (moved k f s) Q.
Proof using kend_pos.
  intros [Hs Ho Hm Hi] Hva Hlen Hend HU Hbuf HQ. apply runs_on_vm.
  assert (Hup : ∀ p, p ∈ upages vs → p ∈ l0) by (intros p Hp; apply Ho; right; by right).
  eapply runs_mono; [apply (runs_copyout_space kend kend_pos trampoline tf k l root vs va len buf Hs Hva); [lia|done|done|]|].
  - intros p Hp. apply range_apart; [done|done|by apply Hup].
  - intros r k' (-> & _ & Hs' & Hn & Hk & Hb). apply HQ.
    + split; [done| | |].
      * intros p. rewrite <-Ho. unfold owns. by rewrite Hn.
      * eapply agree_off_trans; [exact Hm|]. eapply keeps_off; [|exact Hk]. exact Hup.
      * intros x Hx. rewrite Hb by done. unfold overlay. case_decide; [done|by apply Hi].
    + by eapply keeps_in.
Qed.

(** A store to a local variable. *)
Lemma runs_store_local l vs img k f s a v (Q : unit → pst F → Prop) :
  loads l vs img k → (∀ b, area a 8 b → off_limits b ∧ ¬ in_pages l0 b) →
  (loads l vs img (set_kmem (wr64 (kmem k) a v) k) → Q tt (moved (set_kmem (wr64 (kmem k) a v) k) f s)) →
  runs (on_vm (store64 a v)) (moved k f s) Q.
Proof using kend_pos.
  intros Hl Ha HQ. apply runs_on_vm. unfold store64. apply runs_modify. apply HQ.
  eapply (loading_read kend kend_pos trampoline fr tf m0 l0 root l vs img k a 8); [exact Hl|exact Ha|].
  intros b Hb. apply wr64_agree_out. unfold area in Hb. lia.
Qed.

Lemma ustack_slot i b : 0 <= i < MAXARG → area (ustack_at fr + 8 * i) 8 b → area (ustack_at fr) (8 * MAXARG) b.
Proof. unfold area. lia. Qed.

Section Push.
Context (Hlo : locals_ok fr l0) (argv : Z) (ptrs : list Z) (args : list (list Z)) (Hargs : args_at argv ptrs args).
Context (l vs : list Z) (img : Z → Z) (f : F) (s : pst F) (base top : Z).
Hypothesis (Hbase : 4096 <= base) (Hbt : base <= top) (Htop : top = zlen vs * 4096) (Hstk : ∀ x, base <= x < top → user_pte vs x).

(** The strings [done] have been pushed. *)
Record stacked (k0 : kst) (done : list (list Z)) (k : kst) : Prop := {
  pd_load : loads l vs (sk_img (push_all top img done)) k;
  pd_fit : Forall (λ a, base <= a) (sk_at (push_all top img done));
  pd_sp : base <= sk_sp (push_all top img done) <= top;
  pd_ustack i a : sk_at (push_all top img done) !! i = Some a → rd64 (kmem k) (ustack_at fr + 8 * Z.of_nat i) = a;
  pd_off : agree_off (λ b, in_pages l0 b ∨ area (ustack_at fr) (8 * MAXARG) b) (kmem k0) (kmem k)
}.

(** Pushing the next string, which fits. *)
Lemma runs_push_one k0 done p a k (Q : (Z * Z) + option (Z * Z) → pst F → Prop) :
  stacked k0 done k → ptrs !! length done = Some p → args !! length done = Some a →
  base <= push (sk_sp (push_all top img done)) a →
  (∀ k', stacked k0 (done ++ [a]) k' → Q (inl (zlen (done ++ [a]), sk_sp (push_all top img (done ++ [a])))) (moved k' f s)) →
  let sp := push (sk_sp (push_all top img done)) a in
  runs (r <- on_vm (copyout root sp p (zlen a + 1)) ;;;
        if r <? 0 then ret (inr None)
        else on_vm (store64 (ustack_at fr + 8 * zlen done) sp) ;;; ret (inl (zlen done + 1, sp))) (moved k f s) Q.
Proof using Hargs Hbase Hbt Hlo Hstk Htop kend_pos.
  intros [Hl Hf Hsp Hu Hoff] Hp Ha Hfit HQ sp. set (t := push_all top img done) in *.
  destruct (args_str _ _ _ _ _ _ _ _ _ _ Hargs Hl Hp Ha) as [Hstr Hlen]. destruct (aa_str _ _ _ Hargs _ p a Hp Ha) as (_ & _ & Hapart).
  destruct (push_bounds (sk_sp t) a Hlen ltac:(lia)) as [Hb1 Hb2]. fold sp in Hb1, Hb2.
  assert (Hcnt : zlen done < MAXARG).
  { apply lookup_lt_Some in Ha. pose proof (aa_max _ _ _ Hargs). lia. }
  apply runs_bind. apply (runs_copyout_loading l vs (sk_img t) k f s sp (zlen a + 1) p); [done|lia|lia|lia|intros x Hx; apply Hstk; lia| |].
  { intros b Hb Hin. apply (Hapart b Hb). by left. }
  intros k1 Hl1 Hoff1.
  assert (Hl1' : loads l vs (sk_img (push_arg t a)) k1).
  { eapply loading_ext; [exact Hl1|]. intros x _. unfold push_arg. simpl. fold sp. unfold overlay. case_decide; [|done].
    symmetry. apply cstr_byte; [done|lia]. }
  cbn [Z.ltb Z.compare]. apply runs_bind. eapply runs_store_local; [exact Hl1'| |].
  { intros b Hb%ustack_slot; [|lia]. split; [|by apply (lo_ustack _ _ Hlo)]. right. right. right. by left. }
  intros Hl2. apply runs_ret. replace (zlen done + 1) with (zlen (done ++ [a])) by (rewrite length_app; simpl; lia).
  assert (Esp : sk_sp (push_all top img (done ++ [a])) = sp) by by rewrite push_all_snoc. rewrite Esp in HQ. apply HQ. set (m2 := wr64 (kmem k1) _ _) in *.
  assert (Hel : length (sk_at t) = length done) by apply push_all_at.
  assert (Hspr : 0 <= sp < 2 ^ 64).
  { pose proof (up_fit _ _ _ _ _ (us_part _ _ _ _ _ _ _ (ld_space _ _ _ _ _ _ _ _ _ _ _ Hl))) as Hfit'. change TRAPFRAME with 274877898752 in Hfit'. lia. }
  split; rewrite ?push_all_snoc; fold t.
  - done.
  - simpl. fold sp. apply Forall_app. split; [done|by apply Forall_singleton].
  - simpl. fold sp. lia.
  - simpl. fold sp. intros i x. cbn [kmem set_kmem]. rewrite lookup_app. destruct (sk_at t !! i) as [y|] eqn:E.
    + intros [= <-]. assert (i < length done)%nat by (rewrite <-Hel; by eapply lookup_lt_Some). unfold m2. rewrite rd64_wr64_ne by lia.
      rewrite <-(Hu i y E). apply rd64_ext. intros b Hb. apply Hoff1. apply (lo_ustack _ _ Hlo).
      apply (ustack_slot (Z.of_nat i)); [lia|unfold area; lia].
    + intros Ex. apply list_lookup_singleton_Some in Ex as [Ei <-]. apply lookup_ge_None_1 in E. assert (i = length done) as -> by lia.
      unfold m2. rewrite rd64_wr64_same. by apply u64_small.
  - eapply agree_off_trans; [exact Hoff|]. eapply agree_off_trans; [eapply agree_off_weaken; [|exact Hoff1]; by left|].
    intros b Hb. cbn [kmem set_kmem]. apply wr64_agree_out. intros Hin. apply Hb. right. apply (ustack_slot (zlen done)); [lia|done].
Qed.
Lemma stacked_refl k : loads l vs img k → stacked k [] k.
Proof using Hbt.
  intros Hl. split; [done|done|simpl; lia| |apply agree_off_refl]. intros i a. simpl. by rewrite lookup_nil.
Qed.

Lemma runs_push_args k : loads l vs img k →
  runs (push_args fr root argv base top) (moved k f s) (λ r s', ∃ k', s' = moved k' f s ∧
    match r with
    | Some (argc, sp) => argc = zlen args ∧ sp = sk_sp (push_all top img args) ∧ stacked k args k'
    | None => ¬ Forall (λ a, base <= a) (sk_at (push_all top img args)) ∧ ∃ img', loads l vs img' k'
    end).
Proof using Hargs Hbase Hbt Hlo Hstk Htop kend_pos.
  intros Hl0. unfold push_args. pose proof (aa_max _ _ _ Hargs) as Hmax. pose proof (aa_len _ _ _ Hargs) as Hlen.
  apply (runs_iter _ (λ c '(argc, sp) s', ∃ k' done rest, s' = moved k' f s ∧ args = done ++ rest ∧ c = length rest ∧
    argc = zlen done ∧ sp = sk_sp (push_all top img done) ∧ stacked k done k')) with (n := length args); cycle 1.
  { exists k, [], args. split_and!; [done..|by apply stacked_refl]. }
  { lia. }
  intros c [argc sp] s1 (k1 & done & rest & -> & Eargs & -> & -> & -> & Hpd). pose proof Hpd as [Hl _ Hsp _ _].
  assert (Hcnt : length args = (length done + length rest)%nat) by by rewrite Eargs, length_app.
  apply runs_bind, runs_on_vm. unfold load64. apply runs_gets. rewrite (args_word _ _ _ _ _ _ _ (zlen done) Hargs Hl) by lia.
  destruct rest as [|a rest].
  { rewrite app_nil_r in Eargs. subst done. rewrite <-Hlen, (aa_end _ _ _ Hargs). cbn [Z.eqb]. apply runs_ret. exists k1. split; [done|]. rewrite Hlen. done. }
  destruct (lookup_lt_is_Some_2 ptrs (length done)) as [p Hp]; [rewrite Hlen, Hcnt; simpl; lia|].
  assert (Ha : args !! length done = Some a) by (rewrite Eargs; by apply list_lookup_middle).
  destruct (aa_ptr _ _ _ Hargs _ _ Hp) as [Hp0 ->]. destruct (Z.eqb_spec p 0) as [|_]; [done|].
  destruct (Z.geb_spec (zlen done) MAXARG); [lia|]. destruct (args_str _ _ _ _ _ _ _ _ _ _ Hargs Hl Hp Ha) as [Hstr Hal].
  assert (Es : strlen (Z.to_nat PGSIZE) (kmem k1) p = Some (zlen a)).
  { unfold strlen. rewrite (strlen_loop_spec _ p 0 a); [done|by rewrite Z.add_0_r|change PGSIZE with 4096; lia]. }
  assert (Hal' : ∀ (Q : Z → pst F → Prop), Q (zlen a) (moved k1 f s) → runs (arg_len p) (moved k1 f s) Q).
  { intros Q HQ. unfold arg_len, the_mem. apply runs_bind, runs_gets. change (kmem (vm (moved k1 f s))) with (kmem k1). rewrite Es. by apply runs_ret. }
  apply runs_bind, Hal'. pose proof (ld_space _ _ _ _ _ _ _ _ _ _ _ Hl) as Hs. pose proof (up_fit _ _ _ _ _ (us_part _ _ _ _ _ _ _ Hs)) as Hfit.
  change TRAPFRAME with 274877898752 in Hfit.
  rewrite (u64_small (_ - (zlen a + 1))) by lia. fold (push (sk_sp (push_all top img done)) a).
  assert (Happ : done ++ a :: rest = (done ++ [a]) ++ rest) by by rewrite <-app_assoc.
  destruct (Z.ltb_spec (push (sk_sp (push_all top img done)) a) base) as [Hlow|Hok].
  - apply runs_ret. exists k1. split; [done|]. split; [|by eexists]. intros HF. rewrite Eargs, Happ in HF.
    destruct (push_all_prefix top img (done ++ [a]) rest) as [z Ez]. rewrite Ez in HF. apply Forall_app in HF as [HF _].
    rewrite push_all_snoc in HF. cbn [sk_at push_arg] in HF. apply Forall_app in HF as [_ HF]. apply Forall_cons in HF as [HF _]. cbv beta in HF. lia.
  - apply runs_bind, Hal'. apply (runs_push_one k done p a k1); [done..|]. intros k2 Hpd2. exists (length rest). split; [simpl; lia|].
    exists k2, (done ++ [a]), rest. split_and!; try done. by rewrite <-Happ.
Qed.
(** The array of pointers. *)
Lemma runs_argv k0 k (X : K (pst F) Z) (Y : Z → K (pst F) Z) (Q : Z → pst F → Prop) :
  let t := push_all top img args in
  stacked k0 args k →
  (∀ k' img', loads l vs img' k' → ¬ base <= argv_sp t → runs X (moved k' f s) Q) →
  (∀ k', loads l vs (stack_image t) k' → base <= argv_sp t →
     agree_off (λ b, in_pages l0 b ∨ area (ustack_at fr) (8 * MAXARG) b) (kmem k0) (kmem k') → runs (Y (argv_sp t)) (moved k' f s) Q) →
  runs (on_vm (store64 (ustack_at fr + 8 * zlen args) 0) ;;;
        let sp := u64 (sk_sp t - (zlen args + 1) * 8) in
        let sp := sp - sp mod 16 in
        if sp <? base then X
        else
          r <- on_vm (copyout root sp (ustack_at fr) ((zlen args + 1) * 8)) ;;;
          if r <? 0 then X else Y sp) (moved k f s) Q.
Proof using Hargs Hbase Hbt Hlo Hstk Htop kend_pos.
  intros t [Hl Hf Hsp Hu Hoff] HX HY. fold t in Hl, Hf, Hsp, Hu. pose proof (aa_max _ _ _ Hargs) as Hmax. change MAXARG with 32 in *.
  assert (Hat : length (sk_at t) = length args) by apply push_all_at.
  pose proof (up_fit _ _ _ _ _ (us_part _ _ _ _ _ _ _ (ld_space _ _ _ _ _ _ _ _ _ _ _ Hl))) as Hfit. change TRAPFRAME with 274877898752 in Hfit.
  apply runs_bind. eapply runs_store_local; [exact Hl| |].
  { intros b Hb%ustack_slot; [|change MAXARG with 32; lia]. split; [|by apply (lo_ustack _ _ Hlo)]. right. right. right. by left. }
  set (m1 := wr64 _ _ _). intros Hl1. cbv zeta. rewrite u64_small by lia. rewrite <-Hat. fold (argv_sp t).
  assert (Hasp : argv_sp t + (zlen (sk_at t) + 1) * 8 <= sk_sp t) by (unfold argv_sp; zdm).
  destruct (Z.ltb_spec (argv_sp t) base) as [Hlow|Hok]; [apply (HX _ _ Hl1); lia|].
  assert (Hw : ∀ i, (i <= length args)%nat → rd64 m1 (ustack_at fr + 8 * Z.of_nat i) = (sk_at t ++ [0]) !!! i).
  { intros i Hi. unfold m1. destruct (decide (i = length args)) as [->|Hne].
    - rewrite rd64_wr64_same, <-Hat, lookup_total_app_r, Nat.sub_diag by lia. done.
    - rewrite rd64_wr64_ne by lia. destruct (lookup_lt_is_Some_2 (sk_at t) i ltac:(lia)) as [a Ha]. rewrite (Hu i a Ha).
      symmetry. apply list_lookup_total_correct. by apply lookup_app_l_Some. }
  apply runs_bind. eapply runs_copyout_loading; [exact Hl1|lia|lia|lia|intros x Hx; apply Hstk; lia| |].
  { intros b Hb. apply (lo_ustack _ _ Hlo). unfold area in *. change MAXARG with 32. lia. }
  intros k2 Hl2 Hoff2. cbn [Z.ltb Z.compare]. apply HY; [|lia|].
  - eapply loading_ext; [exact Hl2|]. intros x _. unfold stack_image, overlay. case_decide as Hin; [|done]. unfold word_byte. cbn [kmem set_kmem].
    set (i := x - argv_sp t). replace (ustack_at fr + i) with (ustack_at fr + 8 * Z.of_nat (Z.to_nat (i / 8)) + i mod 8) by (unfold i in *; zdm).
    rewrite rd8_rd64 by zdm. by rewrite Hw by (unfold i; zdm).
  - eapply agree_off_trans; [exact Hoff|]. eapply agree_off_trans; [|eapply agree_off_weaken; [|exact Hoff2]; by left].
    intros b Hb. apply wr64_agree_out. intros Hin. apply Hb. right. unfold area. change MAXARG with 32. lia.
Qed.
End Push.
(** *** The pages of the stack *)

Lemma runs_stack_pages l vs img k f s (Q : Z → pst F → Prop) :
  let S := zlen vs * 4096 in
  loads l vs img k → (∀ x, S <= x → img x = 0) →
  (∀ k' l', loads l' vs img k' → zlen l <= 6 → Q 0 (moved k' f s)) →
  (∀ k' l' ps, loads l' (vs ++ new_ptes PTE_W ps) img k' → agree_off (in_pages l0) (kmem k) (kmem k') → zlen ps = 2 →
     all_user (new_ptes PTE_W ps) → Q (S + 8192) (moved k' f s)) →
  runs (on_vm (uvmalloc kend root S (u64 (S + 2 * PGSIZE)) PTE_W)) (moved k f s) Q.
Proof using kend_pos.
  intros S Hl Hz Hfail Hok. apply runs_on_vm. pose proof (ld_space _ _ _ _ _ _ _ _ _ _ _ Hl) as Hs.
  pose proof (up_fit _ _ _ _ _ (us_part _ _ _ _ _ _ _ Hs)) as Hfit. change TRAPFRAME with 274877898752 in Hfit. change PGSIZE with 4096.
  assert (Hw : 0 <= PTE_W < 1024) by done. rewrite u64_small by lia.
  eapply runs_mono; [apply (runs_grow_space kend kend_pos trampoline tf k l root vs S (S + 2 * 4096) PTE_W Hs); unfold S; zdm|].
  intros r k' (l' & ps & Hs' & Ho' & Hk' & Hps & Hres).
  destruct (loading_grown kend kend_pos trampoline fr tf m0 l0 root l vs img k l' ps PTE_W k' Hl Hw Hz Hs' Ho' Hk' Hps) as [Hl' Hoff].
  destruct Hres as [(-> & -> & Hcnt)|(Hr & -> & Hlen' & _)].
  - apply (Hfail k' l'); [|unfold S in Hcnt; zdm]. unfold new_ptes in Hl'. simpl in Hl'. by rewrite app_nil_r in Hl'.
  - replace (Z.max S (S + 2 * 4096)) with (S + 8192) in * by lia. apply (Hok k' l' ps); [done|done|unfold S in Hlen'; zdm|].
    apply (new_all_user kend kend_pos); [done|]. intros p Hp. by apply Hps.
Qed.

Lemma runs_guard_page l vs img k f s i v (Q : unit → pst F → Prop) :
  loads l vs img k → vs !! i = Some v → Z.land v PTE_R ≠ 0 →
  (∀ k', loads l (<[i := no_user_bit v]> vs) img k' → agree_off (in_pages l0) (kmem k) (kmem k') → Q tt (moved k' f s)) →
  runs (on_vm (uvmclear root (Z.of_nat i * 4096))) (moved k f s) Q.
Proof using kend_pos.
  intros [Hs Ho Hm Hi] Hv HR HQ. apply runs_on_vm.
  eapply runs_mono; [by apply (runs_uvmclear_space kend kend_pos trampoline tf k l root vs i v)|].
  intros [] k' (_ & Hs' & Hn & Hk & Hup). assert (Hin : ∀ p, nodes_of k p → p ∈ l0) by (intros p Hp; apply Ho; right; by left).
  assert (Hoff : agree_off (in_pages l0) (kmem k) (kmem k')) by by eapply keeps_in.
  apply HQ; [|done]. split; [done| | |].
  - intros p. rewrite <-Ho. unfold owns. by rewrite Hn, Hup.
  - eapply agree_off_trans; [exact Hm|]. eapply agree_off_weaken; [|exact Hoff]. by left.
  - intros x Hx. rewrite length_insert in Hx. rewrite <-Hi by done. unfold ubyte. rewrite (phys_upages vs _ x Hup).
    apply (ubyte_keep kend trampoline tf k l root vs (nodes_of k) k' x Hs Hk); [|done]. intros p Hp Hup'.
    by destruct (space_page kend trampoline tf k l root vs p Hs Hup') as (_ & _ & _ & ?).
Qed.
End Stack.
