(* ===== verification/Trap.v ===== *)
(** kernel/trap.c, kernel/plic.c and forkret of proc.c: traps from user and
    kernel code, and the interrupt controller.

    The state joins the hart of Machine with the process table of Proc.  Both
    see the same memory and the same interrupt enable bit: a function of proc.c
    runs on the view [os_view], which takes both from the hart, and its result
    is put back with [os_put].  The controller asserts lines per device; a
    line that was claimed is not offered again until it is completed.

    The handlers of the devices, syscall(), fsinit() and printf() are reached
    through the interface [TrapOps].  A yield is the code up to the switch,
    then [away], which is what the system does until the process is chosen
    again, then the rest of yield. *)

From S2P Require Import Prelude Mem CString Riscv Spinlock Kalloc Vm VmSpec Machine Asm Proc.
Local Open Scope kernel_scope.

Definition UART0_IRQ : Z := 10.
Definition VIRTIO0_IRQ : Z := 1.

(** ** The interrupt controller *)

Record plic := mkPlic {
  pl_priority : Z → Z; pl_senable : Z → Z; pl_spriority : Z → Z;
  pl_lines : list Z; (* asserted by their devices *)
  pl_busy : list Z (* claimed and not completed *)
}.

(** What hart [h] can be offered, and which of two sources comes first. *)
Definition pl_offered (h : Z) (p : plic) : list Z :=
  filter (λ i, Z.testbit (pl_senable p h) i = true ∧ pl_spriority p h < pl_priority p i ∧ i ∉ pl_busy p) (pl_lines p).
Definition pl_before (p : plic) (i j : Z) : bool :=
  (pl_priority p j <? pl_priority p i) || ((pl_priority p i =? pl_priority p j) && (i <? j)).
Definition pl_best (h : Z) (p : plic) : Z :=
  foldr (λ i b, if (b =? 0) || pl_before p i b then i else b) 0 (pl_offered h p).

(** Reading and writing the claim register. *)
Definition read_claim (h : Z) : K plic Z := λ p,
  let i := pl_best h p in
  Ok i (mkPlic (pl_priority p) (pl_senable p) (pl_spriority p) (pl_lines p) (if i =? 0 then pl_busy p else i :: pl_busy p)).
Definition write_claim (h i : Z) : K plic unit :=
  modify (λ p, mkPlic (pl_priority p) (pl_senable p) (pl_spriority p) (pl_lines p)
    (if Z.testbit (pl_senable p h) i then filter (λ j, j ≠ i) (pl_busy p) else pl_busy p)).
Definition write_priority (i v : Z) : K plic unit :=
  modify (λ p, mkPlic (λ j, if j =? i then v else pl_priority p j) (pl_senable p) (pl_spriority p) (pl_lines p) (pl_busy p)).
Definition write_senable (h v : Z) : K plic unit :=
  modify (λ p, mkPlic (pl_priority p) (λ j, if j =? h then v else pl_senable p j) (pl_spriority p) (pl_lines p) (pl_busy p)).
Definition write_spriority (h v : Z) : K plic unit :=
  modify (λ p, mkPlic (pl_priority p) (pl_senable p) (λ j, if j =? h then v else pl_spriority p j) (pl_lines p) (pl_busy p)).

(** ** The state *)

Record tst (F X : Type) := mkT { hw : mach; os : pst F; pl : plic; first : bool; rest : X }.
Arguments mkT {F X} _ _ _ _ _.
Arguments hw {F X} _.
Arguments os {F X} _.
Arguments pl {F X} _.
Arguments first {F X} _.
Arguments rest {F X} _.

(** What trap.c calls of the other parts of the kernel. *)
Class TrapOps (S : Type) := {
  t_uartintr : K S unit;
  t_virtio_disk_intr : K S unit;
  t_syscall : K S unit;
  t_fsinit : Z → K S unit;
  t_printf : string → list Z → K S unit
}.

(** What became of the process that trapped. *)
Inductive trapres := Returned | Exited.

Section Trap.
Context {F X : Type} `{FO : !FileOps F}.
Abbreviation st := (tst F X).

Definition set_hw (m : mach) (s : st) : st := mkT m (os s) (pl s) (first s) (rest s).
Definition set_pl (p : plic) (s : st) : st := mkT (hw s) (os s) p (first s) (rest s).
Definition set_first (b : bool) (s : st) : st := mkT (hw s) (os s) (pl s) b (rest s).

Definition os_view (s : st) : pst F :=
  set_cpu (mkHart (noff (cpu (os s))) (intena (cpu (os s))) (MSTATUS_bit 1 (hw s)))
    (set_vm (Kalloc.set_kmem (ram (hw s)) (vm (os s))) (os s)).
Definition os_put (o : pst F) (s : st) : st :=
  let m := set_ram (kmem (vm o)) (hw s) in
  let m := if Bool.eqb (sie (cpu o)) (MSTATUS_bit 1 m) then m else put_csr MSTATUS (put_bit 1 (sie (cpu o)) (csrf m MSTATUS)) m in
  mkT m o (pl s) (first s) (rest s).

Definition on_hw {A} (c : K mach A) : K st A := zoom hw set_hw c.
Definition on_os {A} (c : K (pst F) A) : K st A := zoom os_view os_put c.
Definition on_pl {A} (c : K plic A) : K st A := zoom pl set_pl c.

(** A field of a trapframe, through the direct map of the kernel. *)
Definition ld64 (a : Z) : K st Z := on_os (on_vm (Kalloc.load64 a)).
Definition st64 (a v : Z) : K st unit := on_os (on_vm (Kalloc.store64 a v)).

Definition cpuid : K st Z := id <- on_hw r_tp ;;; ret (s32 id).

(** ** plic.c *)

Definition plicinit : K st unit :=
  on_pl (write_priority UART0_IRQ 1) ;;;
  on_pl (write_priority VIRTIO0_IRQ 1).

Definition plicinithart : K st unit :=
  hart <- cpuid ;;;
  on_pl (write_senable hart (Z.lor (Z.shiftl 1 UART0_IRQ) (Z.shiftl 1 VIRTIO0_IRQ))) ;;;
  on_pl (write_spriority hart 0).

Definition plic_claim : K st Z :=
  hart <- cpuid ;;;
  irq <- on_pl (read_claim hart) ;;;
  ret (s32 irq).

Definition plic_complete (irq : Z) : K st unit :=
  hart <- cpuid ;;;
  on_pl (write_claim hart irq).

(** ** trap.c *)

(** The addresses of trampoline, uservec, userret, usertrap and kernelvec, and
    the page of the kernel that holds kernelvec. *)
Context (trampoline uservec_at userret_at usertrap_at kernelvec_at kpage : Z).
Context `{TO : !TrapOps st} (away : K st unit).

Definition trapinit : K st unit := on_os (modify (set_tickslock false)).

Definition trapinithart : K st unit := on_hw (w_stvec kernelvec_at).

Definition devintr : K st Z :=
  scause <- on_hw r_scause ;;;
  if negb (Z.land scause 0x8000000000000000 =? 0) && (Z.land scause 0xff =? 9) then
    irq <- plic_claim ;;;
    (if irq =? UART0_IRQ then t_uartintr
     else if irq =? VIRTIO0_IRQ then t_virtio_disk_intr
     else if negb (irq =? 0) then t_printf "unexpected interrupt irq=%d" [irq]
     else ret tt) ;;;
    (if negb (irq =? 0) then plic_complete irq else ret tt) ;;;
    ret 1
  else if scause =? 0x8000000000000001 then
    id <- cpuid ;;;
    (if id =? 0 then on_os clockintr else ret tt) ;;;
    sip <- on_hw r_sip ;;;
    on_hw (w_sip (Z.land sip (u64 (Z.lnot 2)))) ;;;
    ret 2
  else ret 0.

Definition usertrapret : K st trapres :=
  p <- on_os myproc ;;;
  on_hw Machine.intr_off ;;;
  on_hw (w_stvec (TRAMPOLINE + (uservec_at - trampoline))) ;;;
  x <- on_os (getp p) ;;;
  satp <- on_hw r_satp ;;;
  st64 (p_trapframe x + 0) satp ;;;
  st64 (p_trapframe x + 8) (p_kstack x + PGSIZE) ;;;
  st64 (p_trapframe x + 16) usertrap_at ;;;
  tp <- on_hw r_tp ;;;
  st64 (p_trapframe x + 32) tp ;;;
  v <- on_hw r_sstatus ;;;
  let v := Z.land v (u64 (Z.lnot SSTATUS_SPP)) in
  let v := Z.lor v SSTATUS_SPIE in
  on_hw (w_sstatus v) ;;;
  epc <- ld64 (p_trapframe x + tf_epc) ;;;
  on_hw (w_sepc epc) ;;;
  let satp := MAKE_SATP (p_pagetable x) in
  on_hw (setr A0 satp ;;; modify (set_pc (TRAMPOLINE + (userret_at - trampoline))) ;;; userret TRAMPOLINE trampoline) ;;;
  ret Returned.

(** exit(-1) in the process: it does not come back. *)
Definition die : K st trapres := on_os (exit (-1)) ;;; ret Exited.

(** usertrap after the cause is served. *)
Definition usertrap_leave (p which_dev : Z) : K st trapres :=
  k <- on_os (killed p) ;;;
  if negb (k =? 0) then die
  else
    (if which_dev =? 2 then on_os yield ;;; away ;;; on_os yield_leave else ret tt) ;;;
    usertrapret.

Definition usertrap : K st trapres :=
  v <- on_hw r_sstatus ;;;
  if negb (Z.land v SSTATUS_SPP =? 0) then panic "usertrap: not from user mode"
  else
    on_hw (w_stvec kernelvec_at) ;;;
    p <- on_os myproc ;;;
    x <- on_os (getp p) ;;;
    epc <- on_hw r_sepc ;;;
    st64 (p_trapframe x + tf_epc) epc ;;;
    scause <- on_hw r_scause ;;;
    if scause =? 8 then
      k <- on_os (killed p) ;;;
      if negb (k =? 0) then die
      else
        epc <- ld64 (p_trapframe x + tf_epc) ;;;
        st64 (p_trapframe x + tf_epc) (epc + 4) ;;;
        on_hw Machine.intr_on ;;;
        t_syscall ;;;
        usertrap_leave p 0
    else
      which_dev <- devintr ;;;
      (if negb (which_dev =? 0) then ret tt
       else
         scause <- on_hw r_scause ;;;
         x <- on_os (getp p) ;;;
         t_printf "usertrap(): unexpected scause %p pid=%d" [scause; p_pid x] ;;;
         sepc <- on_hw r_sepc ;;;
         stval <- on_hw r_stval ;;;
         t_printf "            sepc=%p stval=%p" [sepc; stval] ;;;
         on_os (setkilled p)) ;;;
      usertrap_leave p which_dev.

Definition kerneltrap : K st unit :=
  sepc <- on_hw r_sepc ;;;
  sstatus <- on_hw r_sstatus ;;;
  scause <- on_hw r_scause ;;;
  if Z.land sstatus SSTATUS_SPP =? 0 then panic "kerneltrap: not from supervisor mode"
  else
    on <- on_hw Machine.intr_get ;;;
    if (on : bool) then panic "kerneltrap: interrupts enabled"
    else
      which_dev <- devintr ;;;
      if which_dev =? 0 then
        t_printf "scause %p" [scause] ;;;
        sepc <- on_hw r_sepc ;;;
        stval <- on_hw r_stval ;;;
        t_printf "sepc=%p stval=%p" [sepc; stval] ;;;
        panic "kerneltrap"
      else
        resched <- (if which_dev =? 2 then
                      p <- on_os myproc ;;;
                      if negb (p =? 0) then
                        p <- on_os myproc ;;; x <- on_os (getp p) ;;; ret (is_state (p_state x) RUNNING)
                      else ret false
                    else ret false) ;;;
        (if (resched : bool) then on_os yield ;;; away ;;; on_os yield_leave else ret tt) ;;;
        on_hw (w_sepc sepc) ;;;
        on_hw (w_sstatus sstatus).

(** The first code of a new process, entered from the scheduler. *)
Definition forkret : K st trapres :=
  p <- on_os myproc ;;;
  on_os (release_p p) ;;;
  b <- gets first ;;;
  (if (b : bool) then modify (set_first false) ;;; t_fsinit ROOTDEV else ret tt) ;;;
  usertrapret.

(** ** The hardware's part *)

(** A trap goes where stvec points. *)
Definition take_trap (cause tval : Z) : K st trapres :=
  on_hw (modify (enter_trap cause tval)) ;;;
  pc <- gets (λ s, pcr (hw s)) ;;;
  if pc =? TRAMPOLINE + (uservec_at - trampoline) then
    on_hw (uservec TRAMPOLINE trampoline) ;;;
    pc <- gets (λ s, pcr (hw s)) ;;;
    if pc =? usertrap_at then usertrap else ub "jump"
  else if pc =? kernelvec_at then kernelvec hw set_hw kpage kpage kerneltrap ;;; ret Returned
  else ub "trap vector".
End Trap.
