(* ===== verification/TrapSpec.v ===== *)
(** Traps from user code: the way into the kernel, the handlers, and the way
    back, from the trap to the sret. *)

From S2P Require Import Prelude Mem CString Riscv Spinlock Kalloc Vm VmSpec Machine Asm AsmSpec KernelVec Space Proc ProcSpec Trap.
Local Open Scope kernel_scope.

(** ** sstatus *)

Lemma land_pow2_eqb x n : 0 <= n → (Z.land x (2 ^ n) =? 0) = negb (Z.testbit x n).
Proof.
  intros Hn. destruct (Z.testbit x n) eqn:E; cbn [negb].
  - apply Z.eqb_neq. intros H. apply (f_equal (λ y, Z.testbit y n)) in H. by rewrite Z.land_spec, E, Z.pow2_bits_true, Z.bits_0 in H.
  - apply Z.eqb_eq, Z.bits_inj'. intros j Hj. rewrite Z.land_spec, Z.bits_0. destruct (decide (j = n)) as [->|]; [by rewrite E|].
    by rewrite Z.pow2_bits_false, andb_false_r by lia.
Qed.

Lemma sstatus_test m n : 0 <= n → Z.testbit sstatus_mask n = true → (Z.land (read_csr SSTATUS m) (2 ^ n) =? 0) = negb (MSTATUS_bit n m).
Proof. intros Hn Hm. rewrite land_pow2_eqb by done. unfold read_csr, MSTATUS_bit. by rewrite Z.land_spec, Hm, andb_true_r. Qed.

Lemma sstatus_write v m j : 0 <= j < 64 →
  MSTATUS_bit j (write_csr SSTATUS v m) = if Z.testbit sstatus_mask j then Z.testbit v j else MSTATUS_bit j m.
Proof.
  intros Hj. unfold write_csr, MSTATUS_bit. rewrite csrf_put, decide_True, testbit_u64, Z.lor_spec, !Z.land_spec, testbit_u64, Z.lnot_spec by (done || lia).
  destruct (Z.testbit sstatus_mask j); cbn [negb]; [by rewrite andb_false_r, andb_true_r|by rewrite andb_true_r, andb_false_r, orb_false_r].
Qed.

Lemma testbit_lnot_pow2 n j : 0 <= j < 64 → 0 <= n → Z.testbit (u64 (Z.lnot (2 ^ n))) j = negb (bool_decide (j = n)).
Proof.
  intros Hj Hn. rewrite testbit_u64, Z.lnot_spec by lia. destruct (decide (j = n)) as [->|E].
  - by rewrite Z.pow2_bits_true, bool_decide_true by lia.
  - by rewrite Z.pow2_bits_false, bool_decide_false by lia.
Qed.

(** [m] with the bits [f] in mstatus. *)
Definition status_is (f : Z → bool) (m m' : mach) : Prop :=
  ∃ v, m' = put_csr MSTATUS v m ∧ ∀ j, 0 <= j < 64 → MSTATUS_bit j m' = f j.

Lemma runs_intr_off m (Q : unit → mach → Prop) :
  (∀ m', status_is (λ j, if decide (j = 1) then false else MSTATUS_bit j m) m m' → Q tt m') → runs Machine.intr_off m Q.
Proof.
  intros HQ. unfold Machine.intr_off. apply runs_bind, runs_gets, runs_modify, HQ. eexists. split; [done|]. intros j Hj.
  rewrite sstatus_write by done. rewrite Z.land_spec, (testbit_lnot_pow2 1) by lia. unfold read_csr. rewrite Z.land_spec. unfold MSTATUS_bit.
  destruct (decide (j = 1)) as [->|E]; [by rewrite andb_false_r|]. rewrite bool_decide_false by done. destruct (Z.testbit sstatus_mask j); [by rewrite !andb_true_r|done].
Qed.

Lemma runs_intr_on m (Q : unit → mach → Prop) :
  (∀ m', status_is (λ j, if decide (j = 1) then true else MSTATUS_bit j m) m m' → Q tt m') → runs Machine.intr_on m Q.
Proof.
  intros HQ. unfold Machine.intr_on. apply runs_bind, runs_gets, runs_modify, HQ. eexists. split; [done|]. intros j Hj.
  rewrite sstatus_write by done. rewrite Z.lor_spec. change SSTATUS_SIE with (2 ^ 1). unfold read_csr. rewrite Z.land_spec. unfold MSTATUS_bit.
  destruct (decide (j = 1)) as [->|E]; [by rewrite Z.pow2_bits_true, orb_true_r|]. rewrite Z.pow2_bits_false by lia.
  destruct (Z.testbit sstatus_mask j); [by rewrite andb_true_r, orb_false_r|done].
Qed.

(** usertrapret's change of sstatus. *)
Lemma runs_to_user_mode m (Q : unit → mach → Prop) :
  (∀ m', status_is (λ j, if decide (j = 8) then false else if decide (j = 5) then true else MSTATUS_bit j m) m m' → Q tt m') →
  runs (w_sstatus (Z.lor (Z.land (read_csr SSTATUS m) (u64 (Z.lnot SSTATUS_SPP))) SSTATUS_SPIE)) m Q.
Proof.
  intros HQ. apply runs_modify, HQ. eexists. split; [done|]. intros j Hj.
  rewrite sstatus_write by done. rewrite Z.lor_spec, Z.land_spec, (testbit_lnot_pow2 8) by lia. change SSTATUS_SPIE with (2 ^ 5). unfold read_csr. rewrite Z.land_spec. unfold MSTATUS_bit.
  destruct (decide (j = 8)) as [->|E8]; [by rewrite andb_false_r|]. rewrite bool_decide_false, andb_true_r by done.
  destruct (decide (j = 5)) as [->|E5]; [by rewrite Z.pow2_bits_true, orb_true_r|]. rewrite Z.pow2_bits_false, orb_false_r by lia.
  destruct (Z.testbit sstatus_mask j); [by rewrite andb_true_r|done].
Qed.

(** ** Computations that end in another one *)

(** [c] in [s] comes down to [d] in a state that satisfies [P]. *)
Definition ends_in {S A} (d : K S A) (P : S → Prop) (c : K S A) (s : S) : Prop := ∃ t, P t ∧ c s = d t.

Lemma ends_bind {S A B} (d : K S B) P (m : K S A) (f : A → K S B) s : runs m s (λ a s', ends_in d P (f a) s') → ends_in d P (bind m f) s.
Proof. intros (a & s' & E & t & HP & Ef)%runs_elim. exists t. split; [done|]. unfold bind. by rewrite E. Qed.
Lemma ends_refl {S A} (d : K S A) (P : S → Prop) s : P s → ends_in d P d s.
Proof. by exists s. Qed.
Lemma ends_trans {S A} (d e : K S A) (P R : S → Prop) c s : ends_in d P c s → (∀ t, P t → ends_in e R d t) → ends_in e R c s.
Proof. intros (t & HP & E) H. destruct (H t HP) as (u & HR & E'). exists u. split; [done|congruence]. Qed.
Lemma runs_ends {S A} (d : K S A) P (c : K S A) s (Q : A → S → Prop) : ends_in d P c s → (∀ t, P t → runs d t Q) → runs c s Q.
Proof. intros (t & HP & E) H. unfold runs. rewrite E. by apply H. Qed.

(** ** A process in the kernel and in user mode *)

Section Trap.
Context {F X : Type} `{FO : !FileOps F}.
Context (kend kroot trampoline uservec_at userret_at usertrap_at kernelvec_at : Z).
Context (kend_pos : 0 < kend).
Abbreviation st := (tst F X).
Implicit Types (s : st) (o : pst F).

Definition uservec_va : Z := TRAMPOLINE + (uservec_at - trampoline).

(** The table: [p] is the entry [x] and runs, and only it may be locked, by
    the process itself. *)
Record os_ok (held : bool) o (p : Z) (x : proc) : Prop := {
  oo_cur : cur o = p;
  oo_at : at_p o p x;
  oo_lock : p_lock x = held;
  oo_len : length (procs o) = Z.to_nat NPROC;
  oo_others : if held then only_locked p (procs o) else quiet (procs o);
  oo_ticks : tickslock o = false;
  oo_noff : noff (cpu o) = if held then 1 else 0
}.

Definition spaces_of (r : mem) (x : proc) : Prop := spaces kend kroot trampoline r (p_pagetable x) (p_trapframe x).

(** Hart [h] executes the kernel for process [p]. *)
Record kernel_ok (held : bool) (h : Z) s (p : Z) (x : proc) : Prop := {
  ko_priv : priv (hw s) = SM;
  ko_satp : csrf (hw s) SATP = MAKE_SATP kroot;
  ko_tp : xreg (hw s) TP = h;
  ko_status : 0 <= csrf (hw s) MSTATUS < 2 ^ 64;
  ko_off : held = true → MSTATUS_bit 1 (hw s) = false;
  ko_os : os_ok held (os s) p x;
  ko_run : held = false → p_state x = RUNNING;
  ko_spaces : spaces_of (ram (hw s)) x
}.

(** The fields of the trapframe that usertrapret prepares for the next trap. *)
Record prepared (r : mem) (h : Z) (x : proc) : Prop := {
  pr_satp : rd64 r (p_trapframe x) = MAKE_SATP kroot;
  pr_sp : rd64 r (p_trapframe x + 8) = u64 (p_kstack x + PGSIZE);
  pr_trap : rd64 r (p_trapframe x + 16) = u64 usertrap_at;
  pr_hart : rd64 r (p_trapframe x + 32) = u64 h
}.

(** Hart [h] executes the code of process [p]. *)
Record user_ok (h : Z) s (p : Z) (x : proc) : Prop := {
  uo_priv : priv (hw s) = UM;
  uo_satp : csrf (hw s) SATP = MAKE_SATP (p_pagetable x);
  uo_stvec : csrf (hw s) STVEC = u64 uservec_va;
  uo_status : 0 <= csrf (hw s) MSTATUS < 2 ^ 64;
  uo_regs : regs_ok (hw s);
  uo_pc : 0 <= pcr (hw s) < 2 ^ 64;
  uo_hart : 0 <= h < 2 ^ 64;
  uo_os : os_ok false (os s) p x;
  uo_run : p_state x = RUNNING;
  uo_spaces : spaces_of (ram (hw s)) x;
  uo_frame : prepared (ram (hw s)) h x
}.

(** ** Running the parts *)

Definition with_os o s : st := mkT (set_ram (kmem (vm o)) (hw s)) o (pl s) (first s) (rest s).

Lemma runs_on_os {A} (c : K (pst F) A) s (Q : A → st → Prop) :
  runs c (os_view s) (λ a o, sie (cpu o) = MSTATUS_bit 1 (hw s) ∧ Q a (with_os o s)) → runs (on_os c) s Q.
Proof.
  intros H. apply runs_zoom. eapply runs_mono; [exact H|]. intros a o [E HQ]. unfold os_put. cbv zeta.
  change (MSTATUS_bit 1 (set_ram (kmem (vm o)) (hw s))) with (MSTATUS_bit 1 (hw s)). rewrite E, eqb_reflx. exact HQ.
Qed.

Lemma runs_on_hw {A} (c : K mach A) s (Q : A → st → Prop) : runs c (hw s) (λ a m, Q a (set_hw m s)) → runs (on_hw c) s Q.
Proof. apply runs_zoom. Qed.

Lemma runs_r c s (Q : Z → st → Prop) : Q (read_csr c (hw s)) s → runs (on_hw (csrr c)) s Q.
Proof. intros HQ. apply runs_on_hw, runs_gets. by destruct s. Qed.
Lemma runs_w c v s (Q : unit → st → Prop) : c ≠ SSTATUS → Q tt (set_hw (put_csr c v (hw s)) s) → runs (on_hw (csrw c v)) s Q.
Proof. intros Hc HQ. apply runs_on_hw, runs_modify. by destruct c. Qed.
Lemma runs_tp s (Q : Z → st → Prop) : Q (xreg (hw s) TP) s → runs (on_hw r_tp) s Q.
Proof. intros HQ. apply runs_on_hw, runs_gets. by destruct s. Qed.

(** Stores to memory by the kernel. *)
Definition stored (a v : Z) s : st := with_os (set_vm (Kalloc.set_kmem (wr64 (ram (hw s)) a v) (vm (os_view s))) (os_view s)) s.

Lemma runs_st64 a v s (Q : unit → st → Prop) : Q tt (stored a v s) → runs (st64 a v) s Q.
Proof. intros HQ. apply runs_on_os, runs_zoom, runs_modify. by split. Qed.
Lemma runs_ld64 a s (Q : Z → st → Prop) : Q (rd64 (ram (hw s)) a) (with_os (os_view s) s) → runs (ld64 a) s Q.
Proof. intros HQ. apply runs_on_os, runs_zoom, runs_gets. by split. Qed.

Lemma stored_ram a v s : ram (hw (stored a v s)) = wr64 (ram (hw s)) a v. Proof. done. Qed.

Lemma os_ok_with held o p x h r : os_ok held o p x → noff h = noff (cpu o) → os_ok held (set_cpu h (set_vm r o)) p x.
Proof. intros [? ? ? ? ? ? ?] Hh. split; try done. cbn. by rewrite Hh. Qed.
Lemma os_ok_view held s p x : os_ok held (os s) p x → os_ok held (os_view s) p x.
Proof. intros H. by apply os_ok_with. Qed.

(** A change of the hart that the kernel does not notice. *)
Lemma kernel_ok_hw held h s p x m' : kernel_ok held h s p x →
  priv m' = SM → csrf m' SATP = csrf (hw s) SATP → xreg m' TP = xreg (hw s) TP → ram m' = ram (hw s) →
  0 <= csrf m' MSTATUS < 2 ^ 64 → (held = true → MSTATUS_bit 1 m' = false) → kernel_ok held h (set_hw m' s) p x.
Proof. intros [] ? E1 E2 E3 ? ?. split; cbn [hw os set_hw]; rewrite ?E1, ?E2, ?E3; done. Qed.

Lemma kernel_ok_csr held h s p x c v : kernel_ok held h s p x → c ≠ SATP → c ≠ MSTATUS → kernel_ok held h (set_hw (put_csr c v (hw s)) s) p x.
Proof.
  intros H H1 H2. pose proof H as []. assert (E : csrf (put_csr c v (hw s)) MSTATUS = csrf (hw s) MSTATUS) by (rewrite csrf_put; by rewrite decide_False).
  apply kernel_ok_hw; try done; [by rewrite csrf_put, decide_False|by rewrite E|unfold MSTATUS_bit; by rewrite E].
Qed.

Lemma kernel_ok_status h s p x m' f : kernel_ok false h s p x → status_is f (hw s) m' → kernel_ok false h (set_hw m' s) p x.
Proof.
  intros H (v & -> & _). apply kernel_ok_hw; try done; [by destruct H|]. rewrite csrf_put, decide_True by done. apply u64_range.
Qed.

(** What the table's functions change. *)
Lemma kernel_ok_os held h s p x o : kernel_ok held h s p x → os_ok held o p x → kmem (vm o) = ram (hw s) → kernel_ok held h (with_os o s) p x.
Proof. intros [] Ho E. split; try done. cbn. by rewrite E. Qed.

Lemma kernel_ok_stored held h s p x a v : kernel_ok held h s p x → p_trapframe x <= a → a + 8 <= p_trapframe x + tf_size →
  kernel_ok held h (stored a v s) p x.
Proof.
  intros [] H1 H2. split; try done.
  - by destruct ko_os0.
  - unfold spaces_of in *. rewrite stored_ram. eapply spaces_frame; [done|]. intros b Hb. apply wr64_agree_out. unfold in_frame in Hb. lia.
Qed.

(** The hart with no locks held is left as it is by balanced pairs. *)
Lemma settle_free o : noff (cpu o) = 0 → settle (cpu o) = mkHart 0 (sie (cpu o)) (sie (cpu o)).
Proof. intros E. unfold settle. by rewrite E. Qed.

Lemma runs_myproc_free s p x h (Q : Z → st → Prop) :
  kernel_ok false h s p x →
  (∀ o, os_ok false o p x → kmem (vm o) = ram (hw s) → procs o = procs (os s) → sie (cpu o) = MSTATUS_bit 1 (hw s) → Q p (with_os o s)) →
  runs (on_os myproc) s Q.
Proof.
  intros H HQ. destruct H as [_ _ _ _ _ Ho _ _]. apply os_ok_view in Ho. pose proof Ho as [Hc _ _ _ _ _ Hn].
  apply runs_on_os, runs_myproc; [split; lia|]. rewrite settle_free by done. split; [done|]. rewrite Hc. apply HQ; [|done|done|done]. by destruct Ho.
Qed.

Lemma runs_getp_ok s p x h held (Q : proc → st → Prop) :
  kernel_ok held h s p x → (∀ o, os_ok held o p x → kmem (vm o) = ram (hw s) → procs o = procs (os s) → sie (cpu o) = MSTATUS_bit 1 (hw s) → Q x (with_os o s)) →
  runs (on_os (getp p)) s Q.
Proof.
  intros H HQ. pose proof (os_ok_view held s p x (ko_os _ _ _ _ _ H)) as Ho. apply runs_on_os. eapply runs_getp; [apply Ho|]. split; [done|]. by apply HQ.
Qed.

(** ** usertrapret *)

Definition frame_word (s : st) (x : proc) (o : Z) : Z := rd64 (ram (hw s)) (p_trapframe x + o).

(** In user mode with the registers of the trapframe in [s]. *)
Definition resumed s (x : proc) (s' : st) : Prop :=
  (∀ r, xreg (hw s') r = frame_word s x (tf_off r)) ∧ pcr (hw s') = frame_word s x tf_epc ∧ MSTATUS_bit 1 (hw s') = true.

Lemma tf_off_range r : 40 <= tf_off r ∧ tf_off r + 8 <= tf_size. Proof. unfold tf_size. destruct r; cbn; lia. Qed.

Abbreviation to_user := (usertrapret trampoline uservec_at userret_at usertrap_at).
Abbreviation sat x r := (wr64 (wr64 (wr64 (wr64 r (p_trapframe x + 0) (MAKE_SATP kroot)) (p_trapframe x + 8) (p_kstack x + PGSIZE)) (p_trapframe x + 16) usertrap_at) (p_trapframe x + 32)).

Lemma userret_end h s p x m (Q : trapres → st → Prop) :
  kernel_ok false h s p x → m = hw s → csrf m STVEC = u64 uservec_va → MSTATUS_bit 5 m = true → MSTATUS_bit 8 m = false → xreg m A0 = MAKE_SATP (p_pagetable x) →
  prepared (ram m) h x → 0 <= h < 2 ^ 64 →
  (∀ s', user_ok h s' p x → (∀ r, xreg (hw s') r = rd64 (ram m) (p_trapframe x + tf_off r)) → pcr (hw s') = u64 (csrf m SEPC) → MSTATUS_bit 1 (hw s') = true →
     pl s' = pl s → rest s' = rest s → Q Returned s') →
  runs (on_hw (userret TRAMPOLINE trampoline) ;;; ret Returned) s Q.
Proof using kend_pos.
  intros H -> Hv H5 H8 Ha Hp Hh HQ. pose proof H as [Hpr Hs Htp Hst _ Ho Hrun Hsp]. apply runs_bind, runs_on_hw.
  assert (Hu : page_aligned (p_pagetable x) ∧ 0 < p_pagetable x < 2 ^ 56) by (eapply (root_big kend kend_pos); apply Hsp).
  destruct (satp_fields (p_pagetable x) (proj1 Hu) ltac:(lia)) as (_ & _ & Hr).
  assert (Es : csrf (put_csr SATP (xreg (hw s) A0) (hw s)) SATP = MAKE_SATP (p_pagetable x)).
  { rewrite csrf_put, decide_True, Ha by done. by apply u64_small. }
  eapply (runs_userret (in_frame (p_trapframe x)) _ _ (p_trapframe x)).
  - split; [eapply (code_tramp kend kroot trampoline kend_pos _ _ kroot)|eapply (code_tramp kend kroot trampoline kend_pos _ _ (p_pagetable x))]; try done; [by left|by right].
  - by apply (window_frame kend kroot trampoline kend_pos (p_pagetable x)).
  - intros m' L. apply runs_ret. pose proof L as [Lr Lm Lp Ls Lst Lc Lv].
    assert (Eb : MSTATUS_bit 1 m' = true) by (unfold MSTATUS_bit; rewrite Lst, testbit_u64, !testbit_put_bit by lia; done).
    apply HQ; try done. split; cbn [hw os set_hw]; try done.
    + by rewrite Lv, H8.
    + rewrite Ls, Ha. by apply u64_small.
    + by rewrite Lc.
    + rewrite Lst. apply u64_range.
    + intros r. rewrite Lr. apply rd64_range.
    + rewrite Lp. apply u64_range.
    + by apply Hrun.
    + by rewrite Lm.
    + by rewrite Lm.
Qed.

Lemma runs_on_hw_bind {A B} (c : K mach A) (f : A → K mach B) s (Q : B → st → Prop) :
  runs (on_hw c) s (λ a s', runs (on_hw (f a)) s' Q) → runs (on_hw (bind c f)) s Q.
Proof.
  unfold runs, on_hw, zoom, bind. by destruct (c (hw s)).
Qed.

Definition prep (r : mem) (h : Z) (x : proc) : mem :=
  wr64 (wr64 (wr64 (wr64 r (p_trapframe x + 0) (MAKE_SATP kroot)) (p_trapframe x + 8) (p_kstack x + PGSIZE)) (p_trapframe x + 16) usertrap_at) (p_trapframe x + 32) h.

Lemma prep_ok r h x : pt_wf kend r kroot → prepared (prep r h x) h x.
Proof using kend_pos.
  intros Hw. destruct (root_big kend kend_pos r kroot Hw) as [Ra Rr]. destruct (satp_fields kroot Ra ltac:(lia)) as (_ & _ & Hs).
  unfold prep. rewrite Z.add_0_r. split; repeat (rewrite rd64_wr64_ne by lia); rewrite rd64_wr64_same; try done. by apply u64_small.
Qed.
Lemma prep_keeps r h x (o : Z) : o = tf_epc ∨ 40 <= o → rd64 (prep r h x) (p_trapframe x + o) = rd64 r (p_trapframe x + o).
Proof. unfold tf_epc. intros Ho. unfold prep. by rewrite !rd64_wr64_ne by lia. Qed.

(** What usertrapret does before it leaves. *)
Definition leaving h s p x s' : Prop :=
  kernel_ok false h s' p x ∧ ram (hw s') = prep (ram (hw s)) h x ∧ csrf (hw s') STVEC = u64 uservec_va ∧ pl s' = pl s ∧ rest s' = rest s.

Abbreviation to_user_tail x := (
  v <- on_hw r_sstatus ;;;
  on_hw (w_sstatus (Z.lor (Z.land v (u64 (Z.lnot SSTATUS_SPP))) SSTATUS_SPIE)) ;;;
  epc <- ld64 (p_trapframe x + tf_epc) ;;;
  on_hw (w_sepc epc) ;;;
  on_hw (setr A0 (MAKE_SATP (p_pagetable x)) ;;; modify (set_pc (TRAMPOLINE + (userret_at - trampoline))) ;;; userret TRAMPOLINE trampoline) ;;;
  ret Returned : K st trapres).

Lemma runs_prepare h s p x (Q : trapres → st → Prop) :
  kernel_ok false h s p x → (∀ s', leaving h s p x s' → runs (to_user_tail x) s' Q) → runs to_user s Q.
Proof using kend_pos.
  intros H HQ. unfold usertrapret. apply runs_bind. eapply runs_myproc_free; [exact H|]. intros o1 Ho1 Em1 _ _.
  pose proof (kernel_ok_os _ _ _ _ _ _ H Ho1 Em1) as H1. assert (R1 : ram (hw (with_os o1 s)) = ram (hw s)) by exact Em1.
  assert (X1 : pl (with_os o1 s) = pl s ∧ rest (with_os o1 s) = rest s) by done. revert H1 R1 X1. generalize (with_os o1 s). clear o1 Ho1 Em1. intros s1 H1 R1 X1.
  apply runs_bind, runs_on_hw, runs_intr_off. intros m2 Hm2. pose proof (kernel_ok_status _ _ _ _ _ _ H1 Hm2) as H2.
  assert (R2 : ram m2 = ram (hw s)) by (destruct Hm2 as (v & E & _); by rewrite E, ram_csr).
  apply runs_bind, runs_w; [done|]. pose proof (kernel_ok_csr _ _ _ _ _ STVEC uservec_va H2 ltac:(done) ltac:(done)) as H3. revert H3. unfold uservec_va at 1.
  set (s3 := set_hw (put_csr STVEC _ _) _). intros H3.
  assert (R3 : ram (hw s3) = ram (hw s)) by exact R2. assert (V3 : csrf (hw s3) STVEC = u64 uservec_va) by done. assert (X3 : pl s3 = pl s ∧ rest s3 = rest s) by exact X1.
  clearbody s3. clear s1 H1 R1 X1 m2 Hm2 R2 H2.
  apply runs_bind. eapply runs_getp_ok; [exact H3|]. intros o4 Ho4 Em4 _ _. pose proof (kernel_ok_os _ _ _ _ _ _ H3 Ho4 Em4) as H4.
  assert (R4 : ram (hw (with_os o4 s3)) = ram (hw s)) by (cbn; by rewrite Em4). assert (V4 : csrf (hw (with_os o4 s3)) STVEC = u64 uservec_va) by exact V3.
  assert (X4 : pl (with_os o4 s3) = pl s ∧ rest (with_os o4 s3) = rest s) by exact X3. revert H4 R4 V4 X4. generalize (with_os o4 s3). clear s3 H3 R3 V3 X3 o4 Ho4 Em4. intros s4 H4 R4 V4 X4.
  apply runs_bind, runs_r. change (read_csr SATP (hw s4)) with (csrf (hw s4) SATP). rewrite (ko_satp _ _ _ _ _ H4).
  do 3 apply runs_bind, runs_st64. apply runs_bind, runs_tp. apply runs_bind, runs_st64.
  change (xreg (hw (stored _ _ _)) TP) with (xreg (hw s4) TP). rewrite (ko_tp _ _ _ _ _ H4). apply HQ. split_and!.
  - do 4 (apply kernel_ok_stored; [|lia|unfold tf_size; lia]). exact H4.
  - rewrite !stored_ram, R4. done.
  - exact V4.
  - exact (proj1 X4).
  - exact (proj2 X4).
Qed.

Lemma runs_to_user_tail h s0 s5 p x (Q : trapres → st → Prop) :
  kernel_ok false h s0 p x → 0 <= h < 2 ^ 64 → leaving h s0 p x s5 →
  (∀ s', user_ok h s' p x → resumed s0 x s' → pl s' = pl s0 → rest s' = rest s0 → Q Returned s') → runs (to_user_tail x) s5 Q.
Proof using kend_pos.
  intros H Hh (H5 & R5 & V5 & P5 & X5) HQ. apply runs_bind, runs_r, runs_bind, runs_on_hw, runs_to_user_mode. intros m6 Hm6.
  pose proof (kernel_ok_status _ _ _ _ _ _ H5 Hm6) as H6. destruct Hm6 as (v6 & E6 & B6).
  assert (F6 : ram m6 = prep (ram (hw s0)) h x ∧ csrf m6 STVEC = u64 uservec_va ∧ MSTATUS_bit 5 m6 = true ∧ MSTATUS_bit 8 m6 = false).
  { split_and!; [by rewrite E6, ram_csr|by rewrite E6, csrf_put, decide_False|by rewrite B6|by rewrite B6]. }
  assert (X6 : pl (set_hw m6 s5) = pl s0 ∧ rest (set_hw m6 s5) = rest s0) by done. revert H6 X6. change m6 with (hw (set_hw m6 s5)) in F6. revert F6. generalize (set_hw m6 s5).
  clear m6 v6 E6 B6 s5 H5 R5 V5 P5 X5. intros s6 (R6 & V6 & B5 & B8) H6 [P6 X6].
  apply runs_bind, runs_ld64. pose proof (kernel_ok_os _ _ _ _ _ (os_view s6) H6 (os_ok_view _ _ _ _ (ko_os _ _ _ _ _ H6)) eq_refl) as H7.
  assert (F7 : hw (with_os (os_view s6) s6) = hw s6) by (by destruct s6 as [[] ? ? ? ?]).
  assert (X7 : pl (with_os (os_view s6) s6) = pl s0 ∧ rest (with_os (os_view s6) s6) = rest s0) by done. rewrite R6, prep_keeps by by left.
  revert H7 F7 X7. generalize (with_os (os_view s6) s6). intros s7 H7 F7 [P7 X7].
  apply runs_bind, runs_w; [done|]. pose proof (kernel_ok_csr _ _ _ _ _ SEPC (rd64 (ram (hw s0)) (p_trapframe x + tf_epc)) H7 ltac:(done) ltac:(done)) as H8.
  assert (Hu : page_aligned (p_pagetable x) ∧ 0 < p_pagetable x < 2 ^ 56) by (eapply (root_big kend kend_pos); apply (ko_spaces _ _ _ _ _ H)).
  destruct (satp_fields (p_pagetable x) (proj1 Hu) ltac:(lia)) as (_ & _ & Hr). assert (Hw : pt_wf kend (ram (hw s0)) kroot) by apply H.
  apply runs_bind, runs_on_hw_bind, runs_on_hw, runs_modify, runs_on_hw_bind, runs_on_hw, runs_modify, runs_bind_inv.
  set (m8 := put_csr SEPC _ (hw s7)) in *. set (m9 := set_pc _ _).
  assert (F9 : csrf m9 = csrf m8 ∧ ram m9 = ram (hw s6) ∧ xreg m9 A0 = MAKE_SATP (p_pagetable x) ∧ xreg m9 TP = xreg (hw s7) TP ∧ priv m9 = priv (hw s7)).
  { split_and!; try reflexivity; [by rewrite <-F7|]. by apply u64_small. }
  assert (C9 : csrf m8 STVEC = csrf (hw s6) STVEC ∧ csrf m8 MSTATUS = csrf (hw s6) MSTATUS ∧ csrf m8 SATP = csrf (hw s7) SATP ∧ csrf m8 SEPC = rd64 (ram (hw s0)) (p_trapframe x + tf_epc)).
  { unfold m8. rewrite !csrf_put. split_and!; [by rewrite decide_False, F7|by rewrite decide_False, F7|by rewrite decide_False|]. rewrite decide_True by done. apply u64_small, rd64_range. }
  clearbody m9 m8. clear H8. destruct F9 as (G1 & G2 & G3 & G4 & G5). destruct C9 as (C1 & C2 & C3 & C4).
  assert (H9 : kernel_ok false h (set_hw m9 s7) p x).
  { apply kernel_ok_hw; [exact H7|by rewrite G5; apply H7|by rewrite G1|done|by rewrite G2, F7|rewrite G1, C2; apply H6|done]. }
  eapply (userret_end h (set_hw m9 s7) p x m9); [exact H9|done|by rewrite G1, C1| | |exact G3|rewrite G2, R6; by apply prep_ok|done|].
  - unfold MSTATUS_bit. by rewrite G1, C2.
  - unfold MSTATUS_bit. by rewrite G1, C2.
  - intros s' Hs' Er Ep Eb Epl Ex. apply HQ; [done| |by rewrite Epl|by rewrite Ex]. split_and!.
    + intros r. rewrite Er, G2, R6. apply prep_keeps. right. apply tf_off_range.
    + rewrite Ep, G1, C4. apply u64_small, rd64_range.
    + done.
Qed.

Lemma runs_usertrapret h s p x (Q : trapres → st → Prop) :
  kernel_ok false h s p x → 0 <= h < 2 ^ 64 →
  (∀ s', user_ok h s' p x → resumed s x s' → pl s' = pl s → rest s' = rest s → Q Returned s') → runs to_user s Q.
Proof using kend_pos. intros H Hh HQ. eapply runs_prepare; [exact H|]. intros s5 H5. by eapply runs_to_user_tail. Qed.

(** ** The way in *)

(** [s'] is in the kernel with the registers of the user in the trapframe. *)
Record holds_user (m : mach) (epc : Z) h (s' : st) p x : Prop := {
  hu_kernel : kernel_ok false h s' p x;
  hu_regs r : frame_word s' x (tf_off r) = xreg m r;
  hu_epc : frame_word s' x tf_epc = epc
}.

Lemma enter_kernel cause tval h s p x (Q : unit → st → Prop) :
  user_ok h s p x →
  (∀ s', kernel_ok false h s' p x → (∀ r, frame_word s' x (tf_off r) = xreg (hw s) r) →
     csrf (hw s') SEPC = pcr (hw s) ∧ csrf (hw s') SCAUSE = u64 cause ∧ csrf (hw s') STVAL = u64 tval →
     MSTATUS_bit 1 (hw s') = false ∧ MSTATUS_bit 8 (hw s') = false → pcr (hw s') = u64 usertrap_at →
     pl s' = pl s ∧ rest s' = rest s → Q tt s') →
  runs (on_hw (uservec TRAMPOLINE trampoline)) (set_hw (enter_trap cause tval (hw s)) s) Q.
Proof using kend_pos.
  intros [Up Us Uv Ust Ur Upc Uh Uo Urun Usp Uf] HQ. apply runs_on_hw. cbn [hw set_hw]. set (m := enter_trap cause tval (hw s)).
  assert (Hm : priv m = SM ∧ csrf m SATP = MAKE_SATP (p_pagetable x) ∧ ram m = ram (hw s)) by (split_and!; [done|by unfold m; rewrite enter_satp|done]).
  destruct Hm as (Mp & Ms & Mr). assert (Hk : page_aligned kroot ∧ 0 < kroot < 2 ^ 56) by (eapply (root_big kend kend_pos); apply Usp).
  destruct (satp_fields kroot (proj1 Hk) ltac:(lia)) as (_ & _ & Hkr). pose proof Uf as [F1 F2 F3 F4].
  assert (Msp : spaces_of (ram m) x) by by rewrite Mr.
  eapply (runs_uservec (in_frame (p_trapframe x)) _ _ (p_trapframe x)); [exact Ur| | |].
  - rewrite Mr, F1. split; [by eapply (code_tramp kend kroot trampoline kend_pos _ _ (p_pagetable x)); [|right| |]|].
    eapply (code_tramp kend kroot trampoline kend_pos _ _ kroot); [exact Msp|by left|done|]. rewrite csrf_put, decide_True by done. by apply u64_small.
  - by apply (window_frame kend kroot trampoline kend_pos (p_pagetable x)).
  - intros m' [Er El Eo Es Et Epc Esatp Ecsr Epr]. rewrite Mr in *.
    assert (Eb : ∀ j, MSTATUS_bit j m' = MSTATUS_bit j m) by (intros j; unfold MSTATUS_bit; by rewrite Ecsr).
    apply HQ; cbn [hw os pl rest set_hw].
    + split; cbn [hw os set_hw]; [by rewrite Epr|by rewrite Esatp, F1|by rewrite Et, F4; apply u64_small|rewrite Ecsr by done; apply u64_range|done|exact Uo|done|].
      unfold spaces_of. eapply spaces_frame; [exact Usp|]. exact Eo.
    + intros r. unfold frame_word. cbn [hw set_hw]. rewrite Er. unfold m. apply enter_xreg.
    + rewrite !Ecsr by done. split_and!; [|done|done]. unfold m. rewrite enter_sepc. by apply u64_small.
    + rewrite !Eb. unfold m. rewrite !enter_status by lia. by rewrite Up.
    + by rewrite Epc, F3.
    + done.
Qed.

Context `{TO : !TrapOps st} (away : K st unit).
Abbreviation user_trap := (usertrap trampoline uservec_at userret_at usertrap_at kernelvec_at away).
Abbreviation user_leave := (usertrap_leave trampoline uservec_at userret_at usertrap_at away).

(** usertrap up to the point where it looks at the cause. *)
Abbreviation user_serve p x := (
  scause <- on_hw r_scause ;;;
  if scause =? 8 then
    k <- on_os (killed p) ;;;
    if negb (k =? 0) then die
    else
      epc <- ld64 (p_trapframe x + tf_epc) ;;;
      st64 (p_trapframe x + tf_epc) (epc + 4) ;;;
      on_hw Machine.intr_on ;;;
      t_syscall ;;;
      user_leave p 0
  else
    which_dev <- devintr ;;;
    (if negb (which_dev =? 0) then ret tt
     else
       scause <- on_hw r_scause ;;;
       x <- on_os (getp p) ;;;
       t_printf "usertrap(): unexpected scause %p pid=%d" [scause; p_pid x] ;;;
       sepc <- on_hw r_sepc ;;;
       stval <- on_hw r_stval ;;;
       t_printf "            sepc=%p stval=%p" [sepc; stval] ;;;
       on_os (setkilled p)) ;;;
    user_leave p which_dev).

(** Served with interrupts off, the cause still in its registers. *)
Record serving (m : mach) (cause tval : Z) h s p x : Prop := {
  sv_user : holds_user m (pcr m) h s p x;
  sv_vec : csrf (hw s) STVEC = u64 kernelvec_at;
  sv_cause : csrf (hw s) SEPC = pcr m ∧ csrf (hw s) SCAUSE = u64 cause ∧ csrf (hw s) STVAL = u64 tval;
  sv_off : MSTATUS_bit 1 (hw s) = false
}.

Lemma stored_word a v s x (o : Z) : a = p_trapframe x + o → frame_word (stored a v s) x o = u64 v.
Proof. intros ->. unfold frame_word. rewrite stored_ram. apply rd64_wr64_same. Qed.
Lemma stored_word_ne a v s x (o : Z) : a + 8 <= p_trapframe x + o ∨ p_trapframe x + o + 8 <= a → frame_word (stored a v s) x o = frame_word s x o.
Proof. intros H. unfold frame_word. rewrite stored_ram. apply rd64_wr64_ne. lia. Qed.

Lemma hw_with_os o s : kmem (vm o) = ram (hw s) → hw (with_os o s) = hw s.
Proof. destruct s as [[] ? ? ? ?]. cbn. by intros ->. Qed.

Lemma usertrap_serves cause tval h s p x :
  user_ok h s p x → 0 <= usertrap_at < 2 ^ 64 →
  ends_in (user_serve p x) (λ s', serving (hw s) cause tval h s' p x ∧ pl s' = pl s ∧ rest s' = rest s)
    (on_hw (uservec TRAMPOLINE trampoline) ;;; pc <- gets (λ s, pcr (hw s)) ;;; if pc =? usertrap_at then user_trap else ub "jump")
    (set_hw (enter_trap cause tval (hw s)) s).
Proof using kend_pos.
  intros H Hut. apply ends_bind. eapply enter_kernel; [exact H|]. intros s1 H1 Hr Hc [Hb1 Hb8] Hpc [Hpl Hx].
  apply ends_bind, runs_gets. rewrite Hpc, u64_small, Z.eqb_refl by done. unfold usertrap.
  apply ends_bind, runs_r. change SSTATUS_SPP with (2 ^ 8). rewrite (sstatus_test (hw s1) 8 ltac:(lia) eq_refl), Hb8. cbn [negb].
  apply ends_bind, runs_w; [done|]. pose proof (kernel_ok_csr _ _ _ _ _ STVEC kernelvec_at H1 ltac:(done) ltac:(done)) as H2.
  set (s2 := set_hw _ s1) in *. assert (F2 : csrf (hw s2) STVEC = u64 kernelvec_at ∧ (∀ c, c ≠ STVEC → csrf (hw s2) c = csrf (hw s1) c) ∧ ram (hw s2) = ram (hw s1) ∧ pl s2 = pl s1 ∧ rest s2 = rest s1).
  { split_and!; try reflexivity. intros c Hcc. unfold s2. cbn [hw set_hw]. rewrite csrf_put. by rewrite decide_False. }
  clearbody s2. destruct F2 as (V2 & C2 & R2 & P2 & X2).
  apply ends_bind. eapply runs_myproc_free; [exact H2|]. intros o3 Ho3 Em3 _ _. pose proof (kernel_ok_os _ _ _ _ _ _ H2 Ho3 Em3) as H3.
  pose proof (hw_with_os o3 s2 Em3) as F3. assert (G3 : pl (with_os o3 s2) = pl s2 ∧ rest (with_os o3 s2) = rest s2) by done. revert H3 F3 G3. generalize (with_os o3 s2).
  intros s3 H3 F3 [P3 X3].
  apply ends_bind. eapply runs_getp_ok; [exact H3|]. intros o4 Ho4 Em4 _ _. pose proof (kernel_ok_os _ _ _ _ _ _ H3 Ho4 Em4) as H4.
  pose proof (hw_with_os o4 s3 Em4) as F4. assert (G4 : pl (with_os o4 s3) = pl s3 ∧ rest (with_os o4 s3) = rest s3) by done. revert H4 F4 G4. generalize (with_os o4 s3).
  intros s4 H4 F4 [P4 X4]. rewrite F3 in F4.
  apply ends_bind, runs_r, ends_bind, runs_st64. destruct Hc as (C1 & Cc & Cv). assert (Epc : read_csr SEPC (hw s4) = pcr (hw s)) by (change (csrf (hw s4) SEPC = pcr (hw s)); by rewrite F4, C2).
  rewrite Epc. pose proof (uo_pc _ _ _ _ H) as Hp. set (s5 := stored _ _ s4).
  assert (H5 : kernel_ok false h s5 p x) by (apply kernel_ok_stored; [exact H4|unfold tf_epc; lia|unfold tf_epc, tf_size; lia]).
  assert (G5 : csrf (hw s5) = csrf (hw s4) ∧ pl s5 = pl s4 ∧ rest s5 = rest s4) by done. destruct G5 as (G5 & P5 & X5).
  apply ends_refl. split_and!; [|by rewrite P5, P4, P3, P2|by rewrite X5, X4, X3, X2]. split.
  - split; [exact H5| |].
    + intros r. pose proof (tf_off_range r). unfold s5. rewrite stored_word_ne by (unfold tf_epc; lia). unfold frame_word. rewrite F4, R2. apply Hr.
    + unfold s5. rewrite stored_word by done. by apply u64_small.
  - by rewrite G5, F4.
  - rewrite G5, F4, !C2 by done. done.
  - unfold MSTATUS_bit. rewrite G5, F4, C2 by done. exact Hb1.
Qed.

(** ** Handlers that the process does not notice *)

(** Memory that only the process itself writes. *)
Context (keep : Z → Prop).

Definition trap_csrs : list csrname := [MSTATUS; SEPC; SCAUSE; STVAL; STVEC].

Lemma sip_free : SIP ∉ trap_csrs.
Proof using Type. apply (bool_decide_unpack _). vm_compute. exact Logic.I. Qed.

Lemma in_trap c : bool_decide (c ∈ trap_csrs) = true → c ∈ trap_csrs.
Proof using Type. apply bool_decide_eq_true_1. Qed.

Record kept h s p x s' : Prop := {
  kp_kernel : kernel_ok false h s' p x;
  kp_frame (o : Z) : 0 <= o → o + 8 <= tf_size → frame_word s' x o = frame_word s x o;
  kp_csr c : c ∈ trap_csrs → csrf (hw s') c = csrf (hw s) c;
  kp_sp : xreg (hw s') SP = xreg (hw s) SP;
  kp_mem b : keep b → rd8 (ram (hw s')) b = rd8 (ram (hw s)) b
}.

Lemma kept_refl h s p x : kernel_ok false h s p x → kept h s p x s.
Proof. by split. Qed.
Lemma kept_trans h s p x s1 s2 : kept h s p x s1 → kept h s1 p x s2 → kept h s p x s2.
Proof. intros [A1 A2 A3 A4 A5] [B1 B2 B3 B4 B5]. split; [done|intros o ? ?; by rewrite B2, A2|intros c ?; by rewrite B3, A3|by rewrite B4|intros b ?; by rewrite B5, A5]. Qed.

Lemma kept_bit h s p x s' j : kept h s p x s' → MSTATUS_bit j (hw s') = MSTATUS_bit j (hw s).
Proof. intros H. unfold MSTATUS_bit. rewrite (kp_csr _ _ _ _ _ H); [done|by left]. Qed.

Lemma kept_serving m cause tval h s p x s' : serving m cause tval h s p x → kept h s p x s' → serving m cause tval h s' p x.
Proof.
  intros [[H1 H2 H3] V (C1 & C2 & C3) B] K. pose proof K as [K1 K2 K3 _ _]. split.
  - split; [done| |].
    + intros r. pose proof (tf_off_range r). rewrite K2 by lia. apply H2.
    + by rewrite K2.
  - by rewrite K3 by by apply in_trap.
  - rewrite !K3 by by apply in_trap. done.
  - by rewrite (kept_bit _ _ _ _ _ _ K).
Qed.

(** A function of proc.c that leaves the process and the hart as they were. *)
Lemma kept_os h s p x o : kernel_ok false h s p x → os_ok false o p x → kmem (vm o) = ram (hw s) → kept h s p x (with_os o s).
Proof.
  intros H Ho E. pose proof (hw_with_os o s E) as Eh. split; [by apply kernel_ok_os| | | |].
  - intros o' _ _. unfold frame_word. by rewrite Eh.
  - intros c _. by rewrite Eh.
  - by rewrite Eh.
  - intros b _. by rewrite Eh.
Qed.

Context (I : X → Prop).

(** With interrupts off, the handler returns and disturbs nothing. *)
Definition calm (c : K st unit) : Prop := ∀ h s p x,
  kernel_ok false h s p x → MSTATUS_bit 1 (hw s) = false → I (rest s) → runs c s (λ _ s', kept h s p x s' ∧ I (rest s')).

Record calm_ops : Prop := {
  co_uart : calm t_uartintr;
  co_disk : calm t_virtio_disk_intr;
  co_printf f l : calm (t_printf f l)
}.
Context (HC : calm_ops).

Lemma free_pushed o : noff (cpu o) = 0 → hart_wf (cpu o) ∧ hart_wf (settle (cpu o)) ∧ sie (settle (cpu o)) = sie (cpu o) ∧ noff (settle (cpu o)) = 0.
Proof. intros E. unfold hart_wf, settle. cbn. rewrite E. split_and!; try lia; done. Qed.

Lemma relock x : p_lock x = false → set_p_lock false (set_p_lock true x) = x.
Proof. destruct x. cbn. by intros ->. Qed.

Lemma os_ok_entry o p x y h : os_ok false o p x → p_lock y = false → noff h = 0 →
  os_ok false (upd (<[pidx p := y]> (procs o)) h o) p y.
Proof.
  intros [Hc [H1 H2] Hl Hlen Hq Ht Hn] Hy Hh. split; cbn; try done.
  - split; [done|]. cbn. by eapply insert_at.
  - by rewrite length_insert.
  - by apply Forall_insert.
Qed.

(** acquire(&p->lock), a change of p, release(&p->lock). *)
Lemma runs_locked_change o p x (f : proc → proc) (Q : unit → pst F → Prop) :
  os_ok false o p x → (∀ z, p_lock (f z) = p_lock z) →
  (∀ o', os_ok false o' p (set_p_lock false (f (set_p_lock true x))) → vm o' = vm o → sie (cpu o') = sie (cpu o) → Q tt o') →
  runs (acquire_p p ;;; setp p f ;;; release_p p) o Q.
Proof.
  intros Ho Hf HQ. pose proof Ho as [Hc [H1 H2] Hl Hlen Hq Ht Hn]. destruct (free_pushed o Hn) as (W1 & W2 & Es & En).
  apply runs_bind. eapply (runs_acquire_p _ x); [by split|done|]. apply runs_bind. eapply runs_setp; [apply at_table; [done|by eapply insert_at]|]. cbn [procs upd set_procs cpu set_cpu].
  rewrite upd_upd, list_insert_insert_eq.
  eapply (runs_release_p _ _ (cpu o)); [apply at_table; [done|by eapply insert_at]|by rewrite Hf|done|done|]. cbn [procs upd set_procs].
  rewrite upd_upd, list_insert_insert_eq. apply HQ; [by eapply os_ok_entry|done|done].
Qed.

Lemma runs_killed h s p x (Q : Z → st → Prop) :
  kernel_ok false h s p x → (∀ s', kept h s p x s' → pl s' = pl s → rest s' = rest s → Q (p_killed x) s') → runs (on_os (killed p)) s Q.
Proof.
  intros H HQ. pose proof (os_ok_view _ _ _ _ (ko_os _ _ _ _ _ H)) as Ho. pose proof Ho as [Hc [H1 H2] Hl Hlen Hq Ht Hn]. destruct (free_pushed (os_view s) Hn) as (W1 & W2 & Es & En).
  apply runs_on_os. unfold killed. apply runs_bind. eapply (runs_acquire_p _ x); [by split|done|]. apply runs_bind. eapply runs_getp; [apply at_table; [done|by eapply insert_at]|].
  apply runs_bind. eapply (runs_release_p _ _ (cpu (os_view s))); [apply at_table; [done|by eapply insert_at]|done|done|done|]. cbn [procs upd set_procs].
  rewrite upd_upd, list_insert_insert_eq, relock by done. apply runs_ret. cbv beta. split; [exact Es|]. apply HQ; [|done|done].
  apply kept_os; [exact H|by eapply os_ok_entry|done].
Qed.

Lemma runs_setkilled h s p x (Q : unit → st → Prop) :
  kernel_ok false h s p x →
  (∀ s', kernel_ok false h s' p (set_p_killed 1 x) → hw s' = hw s → pl s' = pl s → rest s' = rest s → Q tt s') → runs (on_os (setkilled p)) s Q.
Proof.
  intros H HQ. pose proof (os_ok_view _ _ _ _ (ko_os _ _ _ _ _ H)) as Ho. apply runs_on_os. eapply runs_locked_change; [exact Ho|done|].
  intros o' Ho' Ev Es. split; [exact Es|]. assert (Em : kmem (vm o') = ram (hw s)) by (by rewrite Ev). pose proof (hw_with_os o' s Em) as Eh.
  assert (Ex : set_p_lock false (set_p_killed 1 (set_p_lock true x)) = set_p_killed 1 x) by (pose proof (oo_lock _ _ _ _ Ho); destruct x; cbn in *; by subst).
  rewrite Ex in Ho'. apply HQ; [|done|done|done]. destruct H. split; rewrite ?Eh; done.
Qed.

Lemma settle_held h h' : noff h = 1 → settle h' = settle h → h' = h.
Proof. destruct h as [n i e], h' as [n' i' e']. unfold settle. cbn. intros -> [= -> Hi ->]. by destruct i, i'. Qed.

Lemma wakes_quiet me chan l : quiet l → quiet (imap (wakes me chan) l).
Proof.
  intros Hq. apply Forall_lookup. intros k x. rewrite list_lookup_imap. intros (y & Hy & ->)%fmap_Some. pose proof (Forall_lookup_1 _ _ _ _ Hq Hy).
  unfold wakes. by destruct (_ && _).
Qed.

Lemma runs_clockintr h s p x (Q : unit → st → Prop) :
  kernel_ok false h s p x →
  (∀ s', kept h s p x s' → pl s' = pl s → rest s' = rest s → ticks (os s') = u32 (ticks (os s) + 1) →
     procs (os s') = imap (wakes p ticks_chan) (procs (os s)) → Q tt s') → runs (on_os clockintr) s Q.
Proof.
  intros H HQ. pose proof (os_ok_view _ _ _ _ (ko_os _ _ _ _ _ H)) as Ho. pose proof Ho as [Hc [H1 H2] Hl Hlen Hq Ht Hn].
  destruct (free_pushed (os_view s) Hn) as (W1 & W2 & Es & En). apply runs_on_os. unfold clockintr, acquire, release.
  apply runs_bind, runs_bind, runs_zoom. eapply runs_Ok; [apply push_off_eq|]. fold (pushed (cpu (os_view s))). apply runs_acquire_flag; [done|].
  apply runs_bind, runs_modify. apply runs_bind. eapply runs_mono; [apply wakeup_spec; [done|done|by apply pushed_wf]|].
  intros [] o1 (h1 & Eh & ->). apply settle_held in Eh as ->; [|transitivity (noff (cpu (os_view s)) + 1); [done|by rewrite Hn]]. cbn [procs upd set_procs cur set_ticks set_tickslock set_cpu cpu].
  apply runs_bind, runs_release_flag; [done|]. apply runs_zoom. eapply runs_Ok; [cbn [cpu set_tickslock upd set_procs set_cpu]; by apply pop_pushed|].
  split; [exact Es|]. apply HQ; [|done|done|done|by rewrite Hc]. apply kept_os; [exact H| |done]. split; cbn; try done.
  - split; [done|]. change (procs (os s) !! pidx p = Some x) in H2. change (cur (os s) = p) in Hc. cbn. rewrite list_lookup_imap, H2. cbn. f_equal. unfold wakes. rewrite Hc.
    assert (Ep : Z.of_nat (pidx p) + 1 = p) by (unfold pidx; lia). by rewrite Ep, Z.eqb_refl.
  - by rewrite length_imap.
  - by apply wakes_quiet.
Qed.

(** ** devintr *)

Definition dev_code (cause : Z) : Z :=
  if negb (Z.land cause 0x8000000000000000 =? 0) && (Z.land cause 0xff =? 9) then 1 else if cause =? 0x8000000000000001 then 2 else 0.

Lemma kept_pl h s p x s' y : kept h s p x s' → kept h s p x (set_pl y s').
Proof. intros [[] K2 K3 K4 K5]. by split; [split|..]. Qed.

Lemma kept_hw h s p x c v : kernel_ok false h s p x → c ≠ SATP → c ∉ trap_csrs → kept h s p x (set_hw (put_csr c v (hw s)) s).
Proof.
  intros H H1 H2. split; [|done| |done|done].
  - apply kernel_ok_csr; [done|done|]. intros ->. apply H2. by left.
  - intros c' Hc'. cbn [hw set_hw]. rewrite csrf_put. rewrite decide_False; [done|]. by intros ->.
Qed.

Lemma runs_cpuid s (Q : Z → st → Prop) : Q (s32 (xreg (hw s) TP)) s → runs cpuid s Q.
Proof. intros HQ. apply runs_bind, runs_tp, runs_ret. exact HQ. Qed.

Lemma runs_devintr h s p x (Q : Z → st → Prop) :
  kernel_ok false h s p x → MSTATUS_bit 1 (hw s) = false → I (rest s) →
  (∀ s', kept h s p x s' → I (rest s') → Q (dev_code (csrf (hw s) SCAUSE)) s') → runs devintr s Q.
Proof using HC.
  intros H Hb HI HQ. destruct HC as [Cu Cd Cp]. unfold devintr, dev_code in *. apply runs_bind, runs_r. change (read_csr SCAUSE (hw s)) with (csrf (hw s) SCAUSE).
  destruct (_ && _) eqn:E1.
  - apply runs_bind. unfold plic_claim. apply runs_bind, runs_cpuid, runs_bind, runs_zoom. unfold runs at 1. cbn [read_claim]. set (y := mkPlic _ _ _ _ _). apply runs_ret. cbv beta.
    set (irq := s32 _). clearbody irq y. pose proof (kept_pl _ _ _ _ _ y (kept_refl _ _ _ _ H)) as K0.
    assert (Hh : ∀ c, calm c → ∀ k, (∀ s', kept h s p x s' → I (rest s') → runs k s' Q) → runs (c ;;; k) (set_pl y s) Q).
    { intros c Hc k Hk. apply runs_bind. eapply runs_mono; [apply (Hc h (set_pl y s) p x); [apply K0|done|done]|].
      intros [] s' [K' I']. apply Hk; [by eapply kept_trans|done]. }
    assert (Hend : ∀ s', kept h s p x s' → I (rest s') → runs ((if negb (irq =? 0) then plic_complete irq else ret tt) ;;; ret 1) s' Q).
    { intros s' K' I'. apply runs_bind. destruct (negb (irq =? 0)).
      - apply runs_bind, runs_cpuid, runs_zoom, runs_modify, runs_ret. cbv beta. apply HQ; [by apply kept_pl|done].
      - apply runs_ret, runs_ret. cbv beta. by apply HQ. }
    destruct (irq =? UART0_IRQ); [by apply Hh|]. destruct (irq =? VIRTIO0_IRQ); [by apply Hh|]. destruct (negb (irq =? 0)) eqn:E0; [by apply Hh|].
    apply runs_bind, runs_ret. cbv beta. by apply Hend.
  - destruct (csrf (hw s) SCAUSE =? 0x8000000000000001) eqn:E2; [|apply runs_ret; cbv beta; apply HQ; [by apply kept_refl|done]].
    apply runs_bind, runs_cpuid. assert (Hend : ∀ s', kept h s p x s' → I (rest s') → runs (sip <- on_hw r_sip ;;; on_hw (w_sip (Z.land sip (u64 (Z.lnot 2)))) ;;; ret 2) s' Q).
    { intros s' K' I'. apply runs_bind, runs_r, runs_bind, runs_w; [done|]. apply runs_ret. cbv beta. apply HQ; [|done].
      eapply kept_trans; [exact K'|]. apply kept_hw; [apply K'|done|]. apply sip_free. }
    apply runs_bind. destruct (s32 (xreg (hw s) TP) =? 0).
    + eapply runs_clockintr; [exact H|]. intros s' K' _ Ex _ _. apply Hend; [done|by rewrite Ex].
    + apply runs_ret. cbv beta. apply Hend; [by apply kept_refl|done].
Qed.

(** ** yield *)

(** Whatever the system does until the process is chosen again, on this hart
    or another, it leaves the trapframe and the kernel's part of the hart in
    place. *)
Definition switches_back : Prop := ∀ h s p x,
  0 <= h < 2 ^ 64 → kernel_ok true h s p x → p_state x = RUNNABLE → csrf (hw s) STVEC = u64 kernelvec_at → I (rest s) →
  runs away s (λ _ s', ∃ h', 0 <= h' < 2 ^ 64 ∧ kernel_ok true h' s' p (set_p_state RUNNING x) ∧ csrf (hw s') STVEC = u64 kernelvec_at ∧
    (∀ o : Z, 0 <= o → o + 8 <= tf_size → frame_word s' x o = frame_word s x o) ∧ I (rest s') ∧
    xreg (hw s') SP = xreg (hw s) SP ∧ (∀ b, keep b → rd8 (ram (hw s')) b = rd8 (ram (hw s)) b) ∧
    (∀ j, 0 <= j < 64 → Z.testbit sstatus_mask j = false → MSTATUS_bit j (hw s') = MSTATUS_bit j (hw s))).
Context (HB : switches_back).

Lemma runs_yield h s p x (Q : unit → st → Prop) :
  kernel_ok false h s p x → MSTATUS_bit 1 (hw s) = false →
  (∀ s', kernel_ok true h s' p (set_p_intena false (set_p_state RUNNABLE (set_p_lock true x))) → hw s' = hw s → pl s' = pl s → rest s' = rest s → Q tt s') →
  runs (on_os yield) s Q.
Proof.
  intros H Hb HQ. pose proof (os_ok_view _ _ _ _ (ko_os _ _ _ _ _ H)) as Ho. pose proof Ho as [Hc [H1 H2] Hl Hlen Hq Ht Hn].
  destruct (free_pushed (os_view s) Hn) as (W1 & W2 & Es & En). apply runs_on_os. unfold yield. apply runs_bind, runs_myproc; [exact W1|]. rewrite Hc.
  set (o1 := upd _ _ (os_view s)). assert (A1 : at_p o1 p x) by by split. assert (C1 : cpu o1 = mkHart 0 false false) by (unfold o1; cbn [cpu upd set_procs set_cpu]; rewrite settle_free by done; change (sie (cpu (os_view s))) with (MSTATUS_bit 1 (hw s)); by rewrite Hb).
  apply runs_bind. eapply (runs_acquire_p _ x); [exact A1|done|]. apply runs_bind. eapply runs_setp; [apply at_table; [done|by eapply insert_at]|]. cbn [procs upd set_procs cpu set_cpu].
  rewrite upd_upd, list_insert_insert_eq. unfold sched. apply runs_bind, runs_myproc; [cbn [cpu upd set_procs set_cpu]; by apply pushed_wf; rewrite C1|].
  cbn [cur upd set_procs set_cpu procs cpu]. rewrite upd_upd. change (cur o1) with (cur (os_view s)). rewrite Hc, C1. change (settle (pushed (mkHart 0 false false))) with (mkHart 1 false false).
  apply runs_bind. eapply runs_getp; [apply at_table; [done|by eapply insert_at]|]. cbn [p_lock set_p_state set_p_lock negb].
  apply runs_bind, runs_gets. cbn [cpu upd set_procs set_cpu noff sie]. change (is_state _ RUNNING) with false. cbn [negb Z.eqb Pos.eqb].
  eapply runs_setp; [apply at_table; [done|by eapply insert_at]|]. cbn [procs upd set_procs cpu set_cpu intena]. rewrite upd_upd, list_insert_insert_eq.
  split; [by rewrite Hb|]. set (o2 := upd _ _ o1). assert (Em : kmem (vm o2) = ram (hw s)) by done. pose proof (hw_with_os o2 s Em) as Eh. apply HQ; [|done|done|done].
  destruct H. split; rewrite ?Eh; try done. split; cbn; try done.
  - split; [done|]. by eapply insert_at.
  - by rewrite length_insert.
  - by eapply only_locked_insert.
Qed.

Lemma runs_yield_leave h s p x (Q : unit → st → Prop) :
  kernel_ok true h s p x → p_intena x = false → p_state x = RUNNING →
  (∀ s', kernel_ok false h s' p (set_p_lock false x) → hw s' = hw s → pl s' = pl s → rest s' = rest s → Q tt s') → runs (on_os yield_leave) s Q.
Proof.
  intros H Hi Hr HQ. pose proof (os_ok_view _ _ _ _ (ko_os _ _ _ _ _ H)) as Ho. pose proof Ho as [Hc [H1 H2] Hl Hlen Hq Ht Hn]. pose proof (ko_off _ _ _ _ _ H eq_refl) as Hb.
  apply runs_on_os. unfold yield_leave, sched_resume. apply runs_bind, runs_bind, runs_gets. rewrite Hc. apply runs_bind. eapply runs_getp; [by split|].
  apply runs_modify. rewrite Hi. set (o1 := set_cpu _ (os_view s)). apply runs_bind, runs_gets. change (cur o1) with (cur (os_view s)). rewrite Hc.
  eapply (runs_release_p p x (mkHart 0 false false)); [by split|done|done| |].
  { unfold o1. cbn [cpu set_cpu]. rewrite Hn. change (sie (cpu (os_view s))) with (MSTATUS_bit 1 (hw s)). by rewrite Hb. }
  split; [by rewrite Hb|]. set (o2 := upd _ _ o1). assert (Em : kmem (vm o2) = ram (hw s)) by done. pose proof (hw_with_os o2 s Em) as Eh. apply HQ; [|done|done|done].
  destruct H. split; rewrite ?Eh; try done. split; cbn; try done.
  - split; [done|]. by eapply insert_at.
  - by rewrite length_insert.
  - by eapply only_locked_release.
Qed.

(** The entry [x] but for the copy of intena that sched keeps. *)
Definition same_proc (x x' : proc) : Prop := x' = set_p_intena (p_intena x') x.

Lemma back_again x : p_lock x = false → p_state x = RUNNING →
  set_p_lock false (set_p_state RUNNING (set_p_intena false (set_p_state RUNNABLE (set_p_lock true x)))) = set_p_intena false x.
Proof. destruct x. cbn. by intros -> ->. Qed.

(** ** usertrap after the cause was served *)

Lemma runs_user_leave h s p x which (Q : trapres → st → Prop) :
  kernel_ok false h s p x → 0 <= h < 2 ^ 64 → p_killed x = 0 → csrf (hw s) STVEC = u64 kernelvec_at → (which = 2 → MSTATUS_bit 1 (hw s) = false) → I (rest s) →
  (∀ s' h' x', user_ok h' s' p x' → resumed s x s' → same_proc x x' → I (rest s') → Q Returned s') → runs (user_leave p which) s Q.
Proof using kend_pos HB.
  intros H Hh Hk Hv Hw HI HQ. unfold usertrap_leave. apply runs_bind. eapply runs_killed; [exact H|]. intros s1 K1 _ X1. rewrite Hk. cbn [negb Z.eqb].
  pose proof K1 as [H1 F1 C1 _ _]. assert (Hres : ∀ s2 y, (∀ o : Z, 0 <= o → o + 8 <= tf_size → frame_word s2 x o = frame_word s1 x o) → resumed s2 x y → resumed s x y).
  { intros s2 y Hf (R1 & R2 & R3). split_and!; [|by rewrite R2, Hf, F1|done]. intros r. pose proof (tf_off_range r). by rewrite R1, Hf, F1 by lia. }
  apply runs_bind. destruct (Z.eqb_spec which 2) as [E|E].
  - apply runs_bind. eapply runs_yield; [exact H1|rewrite (kept_bit _ _ _ _ _ _ K1); by apply Hw|]. intros s2 H2 E2 P2 X2.
    apply runs_bind. eapply runs_mono; [apply (HB h s2 p); [done|exact H2|done| |by rewrite X2, X1]|].
    { rewrite E2, C1; [done|by apply in_trap]. }
    intros [] s3 (h' & Hh' & H3 & V3 & F3 & I3 & _). eapply runs_yield_leave; [exact H3|done|done|]. intros s4 H4 E4 P4 X4.
    pose proof (oo_lock _ _ _ _ (ko_os _ _ _ _ _ H)) as Hl. pose proof (ko_run _ _ _ _ _ H eq_refl) as Hr. rewrite back_again in H4 by done.
    eapply runs_usertrapret; [exact H4|done|]. intros s5 H5 R5 P5 X5. eapply HQ; [exact H5| |done|by rewrite X5, X4].
    apply (Hres s4 s5); [|exact R5]. intros o Ho1 Ho2. unfold frame_word in *. rewrite E4. change (p_trapframe (set_p_intena _ (set_p_state _ (set_p_lock _ x)))) with (p_trapframe x) in F3.
    rewrite F3 by done. by rewrite E2.
  - apply runs_ret. cbv beta. eapply runs_usertrapret; [exact H1|done|]. intros s2 H2 R2 P2 X2. eapply HQ; [exact H2|by apply (Hres s1 s2)| |by rewrite X2, X1].
    unfold same_proc. by destruct x.
Qed.

Abbreviation trap := (take_trap trampoline uservec_at userret_at usertrap_at kernelvec_at).

Lemma trap_serves kpage cause tval h s p x :
  user_ok h s p x → 0 <= usertrap_at < 2 ^ 64 → 0 <= uservec_va < 2 ^ 64 →
  ends_in (user_serve p x) (λ s', serving (hw s) cause tval h s' p x ∧ pl s' = pl s ∧ rest s' = rest s) (trap kpage away cause tval) s.
Proof using kend_pos.
  intros H Hut Huv. unfold take_trap. apply ends_bind, runs_on_hw, runs_modify, ends_bind, runs_gets. cbn [hw set_hw].
  rewrite enter_pc, (uo_stvec _ _ _ _ H), !u64_small by (done || by rewrite u64_small). unfold uservec_va. rewrite Z.eqb_refl. by apply usertrap_serves.
Qed.

Lemma runs_trap kpage cause tval h s p x (Q : trapres → st → Prop) :
  user_ok h s p x → 0 <= usertrap_at < 2 ^ 64 → 0 <= uservec_va < 2 ^ 64 →
  (∀ s', serving (hw s) cause tval h s' p x → pl s' = pl s → rest s' = rest s → runs (user_serve p x) s' Q) → runs (trap kpage away cause tval) s Q.
Proof using kend_pos. intros H Hut Huv HQ. eapply runs_ends; [by apply (trap_serves kpage cause tval h s p x)|]. intros t (? & ? & ?). by apply HQ. Qed.
End Trap.

(** ** What a program sees of a trap *)

Section Claims.
Context {F X : Type} `{FO : !FileOps F} `{TO : !TrapOps (tst F X)}.
Context (kend kroot trampoline uservec_at userret_at usertrap_at kernelvec_at kpage : Z) (away : K (tst F X) unit) (keep : Z → Prop) (I : X → Prop).

(** Where the linker puts the code. *)
Record linked : Prop := {
  lk_end : 0 < kend;
  lk_usertrap : 0 <= usertrap_at < 2 ^ 64;
  lk_uservec : 0 <= uservec_va trampoline uservec_at < 2 ^ 64
}.

Abbreviation in_user := (user_ok kend kroot trampoline uservec_at usertrap_at).
Abbreviation in_kernel := (kernel_ok kend kroot trampoline).
Abbreviation trap := (take_trap trampoline uservec_at userret_at usertrap_at kernelvec_at kpage away).

(** [C9] An interrupt is invisible to the program it interrupts.  Whether a
    device or the timer interrupts, and whether or not other processes run on
    the hart in between, the program continues in user mode at the same
    instruction, with every register as it was and interrupts enabled, and
    the next trap will again find its way into the kernel. *)
Theorem interrupt_transparent cause tval h (s : tst F X) p x :
  linked → calm_ops kend kroot trampoline keep I → switches_back kend kroot trampoline kernelvec_at away keep I →
  in_user h s p x → p_killed x = 0 → I (rest s) → dev_code (u64 cause) ≠ 0 →
  runs (trap cause tval) s (λ r s', r = Returned ∧ (∀ q, xreg (hw s') q = xreg (hw s) q) ∧ pcr (hw s') = pcr (hw s) ∧
    MSTATUS_bit 1 (hw s') = true ∧ I (rest s') ∧ ∃ h' x', in_user h' s' p x' ∧ same_proc x x').
Proof.
  intros [Hk Hut Huv] HC HB H Hkill HI Hc. pose proof (uo_hart _ _ _ _ _ _ _ _ _ H) as Hh. eapply (runs_trap kend kroot); [done|exact H|done|done|]. intros s1 Hs _ X1.
  pose proof Hs as [[H1 Hr He] V1 (C1 & C2 & C3) B1]. apply runs_bind, runs_r. change (read_csr SCAUSE (hw s1)) with (csrf (hw s1) SCAUSE). rewrite C2.
  destruct (Z.eqb_spec (u64 cause) 8) as [E|E]; [by rewrite E in Hc|]. apply runs_bind. eapply (runs_devintr kend kroot); [exact HC|exact H1|exact B1|by rewrite X1|].
  intros s2 K2 I2. rewrite C2. destruct (Z.eqb_spec (dev_code (u64 cause)) 0); [done|]. cbn [negb]. apply runs_bind, runs_ret. cbv beta.
  pose proof (kept_serving _ _ _ _ _ _ _ _ _ _ _ _ _ Hs K2) as [[H2 Hr2 He2] V2 _ B2].
  eapply (runs_user_leave kend kroot); [done|exact HB|exact H2|done|done|done|done|done|]. intros s3 h' x' H3 (R1 & R2 & R3) Hx I3.
  split_and!; [done|intros q; by rewrite R1|by rewrite R2|done|done|by eauto].
Qed.

(** [C10] A system call: syscall() runs in the kernel for the calling process,
    with interrupts enabled, and finds the program's registers and the address
    of the instruction after the ecall in the trapframe.  When it returns, the
    program continues in user mode with exactly the registers and at the
    address that the trapframe then has, so that a call that only sets a0
    returns to the next instruction with the other registers unchanged. *)
Theorem system_call_returns tval h (s : tst F X) p x (P : Z → tst F X → proc → Prop) :
  linked → switches_back kend kroot trampoline kernelvec_at away keep I → in_user h s p x → p_killed x = 0 →
  (∀ s1, holds_user kend kroot trampoline (hw s) (u64 (pcr (hw s) + 4)) h s1 p x → MSTATUS_bit 1 (hw s1) = true →
     csrf (hw s1) STVEC = u64 kernelvec_at → rest s1 = rest s →
     runs t_syscall s1 (λ _ s2, ∃ h' x', 0 <= h' < 2 ^ 64 ∧ in_kernel false h' s2 p x' ∧ csrf (hw s2) STVEC = u64 kernelvec_at ∧ p_killed x' = 0 ∧ I (rest s2) ∧ P h' s2 x')) →
  runs (trap 8 tval) s (λ r s', r = Returned ∧ ∃ h' s2 x', P h' s2 x' ∧
    (∀ q, xreg (hw s') q = frame_word s2 x' (tf_off q)) ∧ pcr (hw s') = frame_word s2 x' tf_epc ∧
    MSTATUS_bit 1 (hw s') = true ∧ I (rest s') ∧ ∃ h3 x3, in_user h3 s' p x3 ∧ same_proc x' x3).
Proof.
  intros [Hk Hut Huv] HB H Hkill Hsys. pose proof (uo_hart _ _ _ _ _ _ _ _ _ H) as Hh. eapply (runs_trap kend kroot); [done|exact H|done|done|]. intros s1 Hs _ X1.
  pose proof Hs as [[H1 Hr He] V1 (C1 & C2 & C3) B1]. apply runs_bind, runs_r. change (read_csr SCAUSE (hw s1)) with (csrf (hw s1) SCAUSE). rewrite C2. change (u64 8 =? 8) with true.
  cbv iota. apply runs_bind. eapply (runs_killed kend kroot trampoline keep); [exact H1|]. intros s2 K2 _ X2. rewrite Hkill. cbn [negb Z.eqb].
  pose proof (kept_serving _ _ _ _ _ _ _ _ _ _ _ _ _ Hs K2) as [[H2 Hr2 He2] V2 _ B2].
  apply runs_bind, runs_ld64. assert (F3 : hw (with_os (os_view s2) s2) = hw s2) by by apply hw_with_os.
  assert (H3 : in_kernel false h (with_os (os_view s2) s2) p x) by (apply kernel_ok_os; [exact H2|apply os_ok_view, H2|done]).
  change (rd64 (ram (hw s2)) (p_trapframe x + tf_epc)) with (frame_word s2 x tf_epc). rewrite He2. assert (X3 : rest (with_os (os_view s2) s2) = rest s2) by done.
  revert F3 H3 X3. generalize (with_os (os_view s2) s2). intros s3 F3 H3 X3. apply runs_bind, runs_st64. set (s4 := stored _ _ s3).
  assert (H4 : in_kernel false h s4 p x) by (apply kernel_ok_stored; [exact H3|unfold tf_epc; lia|unfold tf_epc, tf_size; lia]).
  assert (F4 : csrf (hw s4) = csrf (hw s3) ∧ rest s4 = rest s3 ∧ frame_word s4 x tf_epc = u64 (pcr (hw s) + 4) ∧ ∀ q, frame_word s4 x (tf_off q) = xreg (hw s) q).
  { split_and!; [done|done|by apply stored_word|]. intros q. pose proof (tf_off_range q). unfold s4. rewrite stored_word_ne by (unfold tf_epc; lia).
    rewrite <-Hr2. unfold frame_word. by rewrite F3. }
  clearbody s4. destruct F4 as (C4 & X4 & E4 & R4). apply runs_bind, runs_on_hw, runs_intr_on. intros m5 Hm5. pose proof (kernel_ok_status _ _ _ _ _ _ _ _ _ H4 Hm5) as H5.
  destruct Hm5 as (v5 & E5 & B5). apply runs_bind. eapply runs_mono; [apply Hsys|].
  - split; [exact H5| |]; unfold frame_word in *; cbn [hw set_hw]; rewrite E5, ram_csr; [exact R4|exact E4].
  - cbn [hw set_hw]. by rewrite B5.
  - cbn [hw set_hw]. rewrite E5, csrf_put, decide_False, C4, F3 by done. exact V2.
  - cbn [rest set_hw]. by rewrite X4, X3, X2, X1.
  - intros [] s6 (h' & x' & Hh' & H6 & V6 & Hk6 & I6 & HP).
    eapply (runs_user_leave kend kroot); [done|exact HB|exact H6|done|done|done|done|done|]. intros s7 h7 x7 H7 (R1 & R2 & R3) Hx I7.
    split; [done|]. exists h', s6, x'. split_and!; try done. by exists h7, x7.
Qed.

(** [C31] Any other trap of a program, and any trap of a program that has been
    killed, ends the process: with its kill flag set it runs exit(-1) in the
    kernel, and nothing after it. *)
Theorem fault_kills cause tval h (s : tst F X) p x :
  linked → calm_ops kend kroot trampoline keep I → in_user h s p x → I (rest s) →
  u64 cause ≠ 8 ∧ dev_code (u64 cause) = 0 ∨ p_killed x ≠ 0 →
  ∃ s1 k, k ≠ 0 ∧ in_kernel false h s1 p (set_p_killed k x) ∧ trap cause tval s = (on_os (exit (-1)) ;;; ret Exited) s1.
Proof.
  intros [Hk Hut Huv] HC H HI Hc. assert (Hx : set_p_killed (p_killed x) x = x) by by destruct x.
  assert (Hend : ∀ which s1 y k, y = set_p_killed k x → k ≠ 0 → in_kernel false h s1 p y →
    ends_in die (λ s2, ∃ k, k ≠ 0 ∧ in_kernel false h s2 p (set_p_killed k x)) (usertrap_leave trampoline uservec_at userret_at usertrap_at away p which) s1).
  { intros which s1 y k -> Hn H1. unfold usertrap_leave. apply ends_bind. eapply (runs_killed kend kroot trampoline keep); [exact H1|]. intros s2 K2 _ _. cbn [p_killed set_p_killed].
    destruct (Z.eqb_spec k 0); [done|]. cbn [negb]. apply ends_refl. exists k. split; [done|apply K2]. }
  assert (E : ends_in die (λ s2, ∃ k, k ≠ 0 ∧ in_kernel false h s2 p (set_p_killed k x)) (trap cause tval) s).
  { eapply ends_trans; [by apply (trap_serves kend kroot _ _ _ _ _ Hk away kpage cause tval h s p x)|]. intros s1 (Hs & _ & X1). pose proof Hs as [[H1 Hr He] V1 (C1 & C2 & C3) B1].
    apply ends_bind, runs_r. change (read_csr SCAUSE (hw s1)) with (csrf (hw s1) SCAUSE). rewrite C2. destruct (Z.eqb_spec (u64 cause) 8) as [E|E].
    - destruct Hc as [[? _]|Hc]; [done|]. apply ends_bind. eapply (runs_killed kend kroot trampoline keep); [exact H1|]. intros s2 K2 _ X2.
      destruct (Z.eqb_spec (p_killed x) 0); [done|]. cbn [negb]. apply ends_refl. exists (p_killed x). rewrite Hx. split; [done|apply K2].
    - apply ends_bind. eapply (runs_devintr kend kroot); [exact HC|exact H1|exact B1|by rewrite X1|]. intros s2 K2 I2. rewrite C2.
      pose proof (kept_serving _ _ _ _ _ _ _ _ _ _ _ _ _ Hs K2) as Hs2. pose proof Hs2 as [[H2 _ _] _ _ B2]. destruct HC as [_ _ Cp].
      destruct (Z.eqb_spec (dev_code (u64 cause)) 0) as [E0|E0]; cbn [negb].
      + apply ends_bind, runs_bind, runs_r, runs_bind. eapply (runs_getp_ok kend kroot); [exact H2|]. intros o3 Ho3 Em3 _ _.
        pose proof (kept_os kend kroot trampoline keep h s2 p x o3 H2 Ho3 Em3) as K3. assert (X3 : rest (with_os o3 s2) = rest s2) by done. revert K3 X3. generalize (with_os o3 s2). intros s3 K3 X3.
        apply runs_bind. eapply runs_mono; [apply (Cp _ _ h s3 p x); [apply K3|by rewrite (kept_bit _ _ _ _ _ _ _ _ _ _ K3)|by rewrite X3]|]. intros [] s4 [K4 I4].
        pose proof (kept_trans _ _ _ _ _ _ _ _ _ _ K3 K4) as K4'. apply runs_bind, runs_r, runs_bind, runs_r, runs_bind.
        eapply runs_mono; [apply (Cp _ _ h s4 p x); [apply K4'|by rewrite (kept_bit _ _ _ _ _ _ _ _ _ _ K4')|done]|]. intros [] s5 [K5 I5].
        eapply (runs_setkilled kend kroot); [apply K5|]. intros s6 H6 _ _ _. by apply (Hend _ s6 _ 1 eq_refl).
      + destruct Hc as [[_ ?]|Hc]; [done|]. apply ends_bind, runs_ret. cbv beta. eapply Hend; [symmetry; exact Hx|done|exact H2]. }
  destruct E as (t & (k & Hn & Ht) & E). by exists t, k.
Qed.

(** fsinit() of the first process sets up the file system, as [R] says of it;
    it may sleep and wake on another hart. *)
Definition fsinit_ok (R : X → Prop) : Prop := ∀ h (s : tst F X) p x, 0 <= h < 2 ^ 64 → in_kernel false h s p x → I (rest s) →
  runs (t_fsinit ROOTDEV) s (λ _ s', ∃ h', 0 <= h' < 2 ^ 64 ∧ in_kernel false h' s' p x ∧
    (∀ o : Z, 0 <= o → o + 8 <= tf_size → frame_word s' x o = frame_word s x o) ∧ I (rest s') ∧ R (rest s') ∧ first s' = first s).

(** What leaves the flag of forkret alone. *)
Definition keeps_first {A} (m : K (tst F X) A) : Prop := ∀ s, okays m s (λ _ s', first s' = first s).

Lemma keeps_first_bind {A B} (m : K (tst F X) A) (f : A → K (tst F X) B) : keeps_first m → (∀ a, keeps_first (f a)) → keeps_first (bind m f).
Proof.
  intros Hm Hf s. apply okays_bind. eapply okays_mono; [apply Hm|]. intros a s1 E1. eapply okays_mono; [apply Hf|]. intros b s2 E2. congruence.
Qed.
Lemma keeps_first_hw {A} (m : K mach A) : keeps_first (on_hw m).
Proof. intros s. unfold on_hw, zoom, okays. by destruct (m (hw s)). Qed.
Lemma keeps_first_os {A} (m : K (pst F) A) : keeps_first (on_os m).
Proof. intros s. unfold on_os, zoom, okays. by destruct (m (os_view s)). Qed.

Lemma keeps_first_usertrapret : keeps_first (usertrapret trampoline uservec_at userret_at usertrap_at).
Proof.
  unfold usertrapret. repeat (apply keeps_first_bind; [first [apply keeps_first_hw|apply keeps_first_os]|intros ?]). by intros s.
Qed.

Lemma runs_release_own h (s : tst F X) p x (Q : unit → tst F X → Prop) :
  in_kernel true h s p x → p_state x = RUNNING →
  (∀ s', in_kernel false h s' p (set_p_lock false x) → ram (hw s') = ram (hw s) → first s' = first s → rest s' = rest s → Q tt s') →
  runs (on_os (release_p p)) s Q.
Proof.
  intros H Hr HQ. pose proof (os_ok_view _ _ _ _ (ko_os _ _ _ _ _ _ _ _ H)) as Ho. pose proof Ho as [Hc [H1 H2] Hl Hlen Hq Ht Hn]. pose proof (ko_off _ _ _ _ _ _ _ _ H eq_refl) as Hb.
  apply runs_zoom. eapply (runs_release_p p x (mkHart 0 (intena (cpu (os_view s))) (intena (cpu (os_view s))))); [by split|done|by split| |].
  { change (cpu (os_view s)) with (mkHart (noff (cpu (os s))) (intena (cpu (os s))) (MSTATUS_bit 1 (hw s))). rewrite Hb. change (noff (cpu (os s)) = 1) in Hn. by rewrite Hn. }
  set (o1 := upd _ _ (os_view s)). assert (O1 : os_ok false o1 p (set_p_lock false x)).
  { split; cbn; try done; [split; [done|by eapply insert_at]|by rewrite length_insert|by eapply only_locked_release]. }
  assert (Em : kmem (vm o1) = ram (hw s)) by done. clearbody o1. apply HQ; [|unfold os_put; cbv zeta; cbn [hw]; by destruct (Bool.eqb _ _)|done|done].
  assert (E : ∃ m, hw (os_put o1 s) = m ∧ os (os_put o1 s) = o1 ∧ priv m = priv (hw s) ∧ csrf m SATP = csrf (hw s) SATP ∧ xreg m = xreg (hw s) ∧ ram m = ram (hw s) ∧ 0 <= csrf m MSTATUS < 2 ^ 64).
  { unfold os_put. cbv zeta. cbn [hw os]. eexists. split; [reflexivity|]. split; [done|]. destruct (Bool.eqb _ _).
    - split_and!; try done; apply (ko_status _ _ _ _ _ _ _ _ H).
    - split_and!; try done; rewrite csrf_put, decide_True by done; apply u64_range. }
  destruct E as (m & E1 & E2 & E3 & E4 & E5 & E6 & E7). destruct H. split; rewrite ?E1, ?E2; try done; [by rewrite E3|by rewrite E4|by rewrite E5|by rewrite E6].
Qed.

(** [C30] A new process, when the scheduler first chooses it, releases the lock
    that the scheduler holds, has the file system set up by fsinit() if it is
    the first process of all, and starts in user mode with the registers and at
    the address that its creator put into its trapframe; after it no process is
    the first any more, and the file system is set up. *)
Theorem new_process_starts (R : X → Prop) h (s : tst F X) p x :
  linked → (first s = true → fsinit_ok R) → (first s = false → R (rest s)) →
  in_kernel true h s p x → p_state x = RUNNING → 0 <= h < 2 ^ 64 → I (rest s) →
  runs (forkret trampoline uservec_at userret_at usertrap_at) s (λ r s', r = Returned ∧
    (∀ q, xreg (hw s') q = frame_word s x (tf_off q)) ∧ pcr (hw s') = frame_word s x tf_epc ∧ MSTATUS_bit 1 (hw s') = true ∧
    I (rest s') ∧ first s' = false ∧ R (rest s') ∧ ∃ h', in_user h' s' p (set_p_lock false x)).
Proof.
  intros [Hk Hut Huv] Hfs Hset H Hr Hh HI. unfold forkret. pose proof (os_ok_view _ _ _ _ (ko_os _ _ _ _ _ _ _ _ H)) as Ho. pose proof Ho as [Hc _ _ _ _ _ Hn].
  pose proof (ko_off _ _ _ _ _ _ _ _ H eq_refl) as Hb. apply runs_bind, runs_on_os, runs_myproc; [split; [by rewrite Hn|done]|]. split; [done|]. rewrite Hc.
  set (o1 := upd _ _ (os_view s)). assert (H1 : in_kernel true h (with_os o1 s) p x).
  { apply kernel_ok_os; [exact H| |done]. unfold o1. destruct Ho. by split. }
  assert (F1 : hw (with_os o1 s) = hw s) by by apply hw_with_os. assert (X1 : first (with_os o1 s) = first s ∧ rest (with_os o1 s) = rest s) by done.
  revert H1 F1 X1. generalize (with_os o1 s). clear o1. intros s1 H1 F1 [Z1 X1].
  apply runs_bind. eapply runs_release_own; [exact H1|done|]. intros s2 H2 R2 Z2 X2. apply runs_bind, runs_gets, runs_bind.
  assert (Hend : ∀ h' (s3 : tst F X), 0 <= h' < 2 ^ 64 → in_kernel false h' s3 p (set_p_lock false x) → (∀ o : Z, 0 <= o → o + 8 <= tf_size → frame_word s3 x o = frame_word s x o) → I (rest s3) → first s3 = false → R (rest s3) →
    runs (usertrapret trampoline uservec_at userret_at usertrap_at) s3 (λ r (s' : tst F X), r = Returned ∧
    (∀ q, xreg (hw s') q = frame_word s x (tf_off q)) ∧ pcr (hw s') = frame_word s x tf_epc ∧ MSTATUS_bit 1 (hw s') = true ∧
    I (rest s') ∧ first s' = false ∧ R (rest s') ∧ ∃ h', in_user h' s' p (set_p_lock false x))).
  { intros h' s3 Hh' H3 F3 I3 Z3 S3. apply (runs_okays_and _ _ (λ _ s', first s' = first s3)); [|apply keeps_first_usertrapret].
    eapply (runs_usertrapret kend kroot); [done|exact H3|done|]. intros s4 H4 (R1 & R3 & R4) _ X4 Z4.
    split_and!; [done| |by rewrite R3; apply F3|done|by rewrite X4|by rewrite Z4|by rewrite X4|by eauto]. intros q. pose proof (tf_off_range q). rewrite R1. apply F3; lia. }
  assert (F2 : ∀ o : Z, frame_word s2 x o = frame_word s x o) by (intros o; unfold frame_word; by rewrite R2, F1).
  rewrite Z2, Z1. destruct (first s) eqn:Ef.
  - apply runs_bind, runs_modify. eapply runs_mono; [apply (Hfs eq_refl h (set_first false s2) p (set_p_lock false x)); [done|by destruct H2|cbn [rest set_first]; by rewrite X2, X1]|].
    intros [] s3 (h' & Hh' & H3 & F3 & I3 & S3 & Z3). apply (Hend h'); [done|done| |done|exact Z3|done]. intros o Ho1 Ho2. rewrite <-F2. by apply F3.
  - apply runs_ret. cbv beta. apply (Hend h); [done|done| |by rewrite X2, X1|by rewrite Z2, Z1|rewrite X2, X1; by apply Hset]. intros o _ _. apply F2.
Qed.
End Claims.

(** ** Witnesses *)

(** A memory given by its words. *)
Definition words (l : list (Z * Z)) : mem := foldr (λ c m, wr64 m c.1 c.2) ∅ l.
Fixpoint word_at (l : list (Z * Z)) (a : Z) : Z :=
  match l with [] => 0 | c :: l => if c.1 =? a then u64 c.2 else word_at l a end.

Lemma words_at l a : Forall (λ c, c.1 mod 8 = 0) l → a mod 8 = 0 → rd64 (words l) a = word_at l a.
Proof.
  intros Hl Ha. induction Hl as [|[b v] l Hb _ IH]; [apply rd64_empty|]. cbn [words foldr fst snd word_at]. cbn [fst] in Hb. destruct (Z.eqb_spec b a) as [->|Hn].
  - apply rd64_wr64_same.
  - rewrite rd64_wr64_ne by zdm. exact IH.
Qed.

(** A page table of three tables at [root], of which the lowest maps the last
    pages of the address space as [ptes] says. *)
Definition demo_tables (root : Z) (ptes : list (Z * Z)) : list (Z * Z) :=
  [(root + 255 * 8, mkpte (root + 4096) 0); (root + 4096 + 511 * 8, mkpte (root + 8192) 0)] ++ ((λ c, (root + 8192 + c.1 * 8, c.2)) <$> ptes).

Definition toy_root : Z := 0x87000000.
Definition toy_tf : Z := 0x87004000.
Definition toy_stack : Z := 0x87005000.
Definition toy_tramp : Z := 0x80007000.
Definition toy_kpage : Z := TRAMPOLINE - 3 * 4096.
Definition toy_ptes : list (Z * Z) :=
  [(511, mkpte toy_tramp TRAMPOLINE_PERM); (510, mkpte toy_tf TRAPFRAME_PERM); (509, mkpte toy_stack (Z.lor PTE_R PTE_W)); (508, mkpte toy_kpage (Z.lor PTE_R PTE_X))].
Definition toy_words : list (Z * Z) :=
  demo_tables toy_root toy_ptes ++ [(toy_tf, MAKE_SATP toy_root); (toy_tf + 8, TRAMPOLINE - 4096); (toy_tf + 16, 0x80003000); (toy_tf + 32, 0)].
Definition toy_mem : mem := words toy_words.

Lemma toy_at a : a mod 8 = 0 → rd64 toy_mem a = word_at toy_words a.
Proof. apply words_at. apply (bool_decide_unpack _). vm_compute. exact I. Qed.

Lemma word_at_out l a : a ∉ l.*1 → word_at l a = 0.
Proof.
  induction l as [|c l IH]; [done|]. cbn [fmap list_fmap]. rewrite not_elem_of_cons. intros [H1 H2]. cbn [word_at]. destruct (Z.eqb_spec c.1 a); [by subst|by apply IH].
Qed.

Lemma toy_addresses : toy_words.*1 =
  [2264926200; 2264932344; 2264936440; 2264936432; 2264936424; 2264936416; 2264940544; 2264940552; 2264940560; 2264940576].
Proof. vm_compute. reflexivity. Qed.

(** The nodes of the table. *)
Lemma toy_entry p i : 0 <= i < 512 → p ∈ [toy_root; toy_root + 4096] →
  entry toy_mem p i = if decide (p = toy_root ∧ i = 255) then Some (toy_root + 4096) else if decide (p = toy_root + 4096 ∧ i = 511) then Some (toy_root + 8192) else None.
Proof.
  assert (Hout : ∀ a, a mod 8 = 0 → a ∉ toy_words.*1 → (let v := rd64 toy_mem a in if valid v then Some (PTE2PA v) else None) = None).
  { intros a Ha Hn. cbv zeta. by rewrite toy_at, word_at_out. }
  rewrite toy_addresses in Hout. intros Hi Hp%list_elem_of_In. unfold entry, pte_addr.
  destruct Hp as [<-|[<-|[]]].
  - destruct (decide (i = 255)) as [->|Hn]; [rewrite decide_True by done; rewrite toy_at by done; vm_compute; done|]. rewrite !decide_False by (intros [? ?]; done || lia).
    apply Hout; [unfold toy_root; zdm|]. unfold toy_root. rewrite !not_elem_of_cons. split_and!; try lia. apply not_elem_of_nil.
  - rewrite decide_False by (intros [? ?]; unfold toy_root in *; lia). destruct (decide (i = 511)) as [->|Hn]; [rewrite decide_True by done; rewrite toy_at by done; vm_compute; done|]. rewrite decide_False by (intros [? ?]; lia).
    apply Hout; [unfold toy_root; zdm|]. unfold toy_root. rewrite !not_elem_of_cons. split_and!; try lia. apply not_elem_of_nil.
Qed.

Section Toy.
Context (m : mem).
Hypothesis He : ∀ p i, 0 <= i < 512 → p ∈ [toy_root; toy_root + 4096] →
  entry m p i = if decide (p = toy_root ∧ i = 255) then Some (toy_root + 4096) else if decide (p = toy_root + 4096 ∧ i = 511) then Some (toy_root + 8192) else None.

Lemma toy_node π p : path_ok π → node m toy_root π = Some p →
  π = [] ∧ p = toy_root ∨ π = [255] ∧ p = toy_root + 4096 ∨ π = [255; 511] ∧ p = toy_root + 8192.
Proof using He.
  intros [Hl Hf] Hn. destruct π as [|i [|j [|k π]]]; cbn [node length] in *; [left|right; left|right; right|lia].
  - by injection Hn as <-.
  - rewrite Forall_singleton in Hf. rewrite (He toy_root i Hf) in Hn by by left. cbn [mbind option_bind] in Hn.
    destruct (decide (toy_root = toy_root ∧ i = 255)) as [[_ ->]|]; [cbn in Hn; by injection Hn as <-|]. by rewrite decide_False in Hn by (unfold toy_root; lia).
  - apply Forall_cons_1 in Hf as [Hi Hf]. rewrite Forall_singleton in Hf. rewrite (He toy_root i Hi) in Hn by by left.
    destruct (decide (toy_root = toy_root ∧ i = 255)) as [[_ ->]|]; [|by rewrite decide_False in Hn by (unfold toy_root; lia)]. cbn [mbind option_bind] in Hn.
    rewrite (He (toy_root + 4096) j Hf) in Hn by by right; left. rewrite decide_False in Hn by (unfold toy_root; lia).
    destruct (decide (toy_root + 4096 = toy_root + 4096 ∧ j = 511)) as [[_ ->]|]; [|done]. cbn [mbind option_bind] in Hn. by injection Hn as <-.
Qed.

(** The entries of the upper tables have no permissions. *)
Definition toy_dirs : Prop := ∀ a, a ∈ [toy_root + 8 * 255; toy_root + 4096 + 8 * 511] → Z.land (rd64 m a) (Z.lor (Z.lor PTE_R PTE_W) PTE_X) = 0.

Lemma toy_wf : toy_dirs → pt_wf demo_end m toy_root.
Proof using He.
  intros Hd. split.
  - intros π p Hπ Hn. destruct (toy_node π p Hπ Hn) as [[_ ->]|[[_ ->]|[_ ->]]]; by apply (bool_decide_unpack _).
  - intros π1 π2 p H1 H2 N1 N2. destruct (toy_node π1 p H1 N1) as [[-> ->]|[[-> ->]|[-> ->]]], (toy_node π2 _ H2 N2) as [[-> ?]|[[-> ?]|[-> ?]]]; unfold toy_root in *; (done || lia).
  - intros π i p Hπ Hn Hne. destruct (path_ok_snoc _ _ Hπ) as (Hπ' & Hi & Hl). destruct (toy_node π p Hπ' Hn) as [[-> ->]|[[-> ->]|[-> ->]]]; [| |simpl in Hl; lia].
    + rewrite (He toy_root i Hi) in Hne by by left. destruct (decide (toy_root = toy_root ∧ i = 255)) as [[_ ->]|]; [|by rewrite decide_False in Hne by (unfold toy_root; lia)].
      split; [|done]. apply Hd. by left.
    + rewrite (He (toy_root + 4096) i Hi) in Hne by by right; left. rewrite decide_False in Hne by (unfold toy_root; lia).
      destruct (decide (toy_root + 4096 = toy_root + 4096 ∧ i = 511)) as [[_ ->]|]; [|done]. split; [|done]. apply Hd. by right; left.
Qed.

Lemma toy_pte o v : rd64 m (toy_root + 8192 + 8 * o) = v → ∀ va, vpath va = [255; 511] → PX 0 va = o → pteval m toy_root va = v.
Proof using He.
  intros <- va E1 E2. unfold pteval. rewrite E1, E2. assert (E : node m toy_root [255; 511] = Some (toy_root + 8192)); [|by rewrite E].
  cbn [node]. rewrite (He toy_root 255 ltac:(lia)), decide_True by (done || by left). cbn [mbind option_bind].
  rewrite (He (toy_root + 4096) 511 ltac:(lia)) by (by right; left). rewrite decide_False by (unfold toy_root; lia). by rewrite decide_True.
Qed.

Lemma toy_apart q : toy_root + 8192 < q → ¬ is_node m toy_root q.
Proof using He. intros Hq (π & Hπ & Hn). destruct (toy_node π _ Hπ Hn) as [[_ ?]|[[_ ?]|[_ ?]]]; lia. Qed.
End Toy.

Lemma toy_mem_dirs : toy_dirs toy_mem.
Proof. intros a Ha%list_elem_of_In. destruct Ha as [<-|[<-|[]]]; rewrite toy_at by done; vm_compute; reflexivity. Qed.

Lemma toy_spaces : spaces demo_end toy_root toy_tramp toy_mem toy_root toy_tf.
Proof.
  assert (N : ¬ is_node toy_mem toy_root toy_tf) by by apply (toy_apart _ toy_entry).
  split; [apply (toy_wf _ toy_entry), toy_mem_dirs|apply (toy_wf _ toy_entry), toy_mem_dirs|done| | | |by apply (bool_decide_unpack _)|done].
  - apply (toy_pte _ toy_entry 511); [by rewrite toy_at|done|done].
  - apply (toy_pte _ toy_entry 511); [by rewrite toy_at|done|done].
  - apply (toy_pte _ toy_entry 510); [by rewrite toy_at|done|done].
Qed.

(** A kernel whose handlers do nothing, and a process that runs in it. *)
#[global] Instance toy_ops : TrapOps (tst unit unit) := {
  t_uartintr := ret tt; t_virtio_disk_intr := ret tt; t_syscall := ret tt; t_fsinit _ := ret tt; t_printf _ _ := ret tt
}.

(** The scheduler chooses the same process again. *)
Definition toy_away : K (tst unit unit) unit := on_os (p <- gets cur ;;; setp p (set_p_state RUNNING)).

Definition toy_proc : proc := mkProc false RUNNING 0 0 0 1 0 (TRAMPOLINE - 2 * 4096) 4096 toy_root toy_tf 0 0 (replicate 16 0) 1 (replicate 16 0) false.
Definition toy_os : pst unit := mkP ([toy_proc] ++ replicate 63 blank_proc) 2 false false 1 1 (mkHart 0 false false) (mkK false 0 ∅) tt 0 0 false 0.
Definition toy_plic : plic := mkPlic (λ _, 1) (λ _, 2 ^ UART0_IRQ + 2 ^ VIRTIO0_IRQ) (λ _, 0) [UART0_IRQ] [].
Definition toy_kernelvec : Z := toy_kpage.
Definition toy_user : tst unit unit :=
  mkT (put_csr SATP (MAKE_SATP toy_root) (put_csr STVEC (uservec_va toy_tramp toy_tramp) (mkMach (λ _, 7) (λ _, 0) UM 64 toy_mem))) toy_os toy_plic false tt.

Lemma toy_os_ok : os_ok false toy_os 1 toy_proc.
Proof. split; try done. repeat constructor. Qed.

Lemma toy_user_ok : user_ok demo_end toy_root toy_tramp toy_tramp 0x80003000 0 toy_user 1 toy_proc.
Proof.
  split; [done|done|done|done|done|done|done|apply toy_os_ok|done|apply toy_spaces|]. split; cbn [hw toy_user ram put_csr]; (rewrite toy_at by done; vm_compute; reflexivity).
Qed.

Lemma toy_linked : linked demo_end toy_tramp toy_tramp 0x80003000.
Proof. by split. Qed.

Lemma toy_calm keep : calm_ops demo_end toy_root toy_tramp keep (λ _ : unit, True).
Proof. split; intros; intros h s p x H _ _; apply runs_ret; (split; [by apply kept_refl|done]). Qed.

Lemma toy_back keep : switches_back demo_end toy_root toy_tramp toy_kernelvec toy_away keep (λ _ : unit, True).
Proof.
  intros h s p x Hh H Hst Hv _. unfold toy_away. pose proof (os_ok_view _ _ _ _ (ko_os _ _ _ _ _ _ _ _ H)) as Ho. pose proof Ho as [Hc [H1 H2] Hl Hlen Hq Ht Hn].
  apply runs_on_os, runs_bind, runs_gets. rewrite Hc. eapply runs_setp; [by split|]. split; [done|]. exists h. set (o1 := upd _ _ (os_view s)).
  assert (Eh : hw (with_os o1 s) = hw s) by by apply hw_with_os.
  assert (O1 : os_ok true o1 p (set_p_state RUNNING x)).
  { split; cbn; try done; [split; [done|by eapply insert_at]|by rewrite length_insert|]. intros k y [[-> ->]|[Hne Hy]]%list_insert_cases; [cbn; rewrite Hl; by rewrite bool_decide_true|by apply Hq]. }
  assert (H3 : kernel_ok demo_end toy_root toy_tramp true h (with_os o1 s) p (set_p_state RUNNING x)) by (destruct H; split; rewrite ?Eh; done).
  split; [done|]. split; [exact H3|]. unfold frame_word. rewrite Eh. done.
Qed.

Lemma interrupt_transparent_witness :
  runs (take_trap toy_tramp toy_tramp (toy_tramp + 156) 0x80003000 toy_kernelvec toy_kpage toy_away (2 ^ 63 + 1) 0) toy_user
    (λ r s', r = Returned ∧ pcr (hw s') = 64).
Proof.
  eapply runs_mono; [apply (interrupt_transparent demo_end toy_root toy_tramp toy_tramp (toy_tramp + 156) 0x80003000 toy_kernelvec toy_kpage toy_away (λ _, False) (λ _, True) (2 ^ 63 + 1) 0 0 toy_user 1 toy_proc)|].
  - apply toy_linked.
  - apply toy_calm.
  - apply toy_back.
  - apply toy_user_ok.
  - done.
  - done.
  - done.
  - intros r s' H. split; [exact (proj1 H)|exact (proj1 (proj2 (proj2 H)))].
Defined.

Lemma system_call_returns_witness :
  runs (take_trap toy_tramp toy_tramp (toy_tramp + 156) 0x80003000 toy_kernelvec toy_kpage toy_away 8 0) toy_user (λ r s', r = Returned).
Proof.
  eapply runs_mono; [apply (system_call_returns demo_end toy_root toy_tramp toy_tramp (toy_tramp + 156) 0x80003000 toy_kernelvec toy_kpage toy_away (λ _, False) (λ _, True) 0 0 toy_user 1 toy_proc (λ _ _ _, True))|].
  - apply toy_linked.
  - apply toy_back.
  - apply toy_user_ok.
  - done.
  - intros s1 H1 _ V1 _. apply runs_ret. exists 0, toy_proc. split; [done|]. split; [apply H1|]. done.
  - intros r s' H. exact (proj1 H).
Defined.

Lemma fault_kills_witness :
  ∃ s1 k, k ≠ 0 ∧ kernel_ok demo_end toy_root toy_tramp false 0 s1 1 (set_p_killed k toy_proc) ∧
    take_trap toy_tramp toy_tramp (toy_tramp + 156) 0x80003000 toy_kernelvec toy_kpage toy_away 13 0 toy_user = (on_os (exit (-1)) ;;; ret Exited) s1.
Proof.
  apply (fault_kills demo_end toy_root toy_tramp toy_tramp (toy_tramp + 156) 0x80003000 toy_kernelvec toy_kpage toy_away (λ _, False) (λ _, True) 13 0 0 toy_user 1 toy_proc).
  - apply toy_linked.
  - apply toy_calm.
  - apply toy_user_ok.
  - done.
  - by left.
Defined.

(** A kernel whose fsinit() records the device it was called with. *)
#[global] Instance init_ops : TrapOps (tst unit Z) := {
  t_uartintr := ret tt; t_virtio_disk_intr := ret tt; t_syscall := ret tt;
  t_fsinit dev := modify (λ s, mkT (hw s) (os s) (pl s) (first s) dev); t_printf _ _ := ret tt
}.

(** The process as the scheduler leaves it when it chooses it. *)
Definition toy_chosen : tst unit Z :=
  mkT (put_csr SATP (MAKE_SATP toy_root) (mkMach (λ _, 0) (λ _, 0) SM 0 toy_mem))
    (mkP ([set_p_lock true toy_proc] ++ replicate 63 blank_proc) 2 false false 1 1 (mkHart 1 true false) (mkK false 0 ∅) tt 0 0 false 0) toy_plic true 0.

Lemma toy_chosen_ok : kernel_ok demo_end toy_root toy_tramp true 0 toy_chosen 1 (set_p_lock true toy_proc).
Proof.
  split; try done; [|apply toy_spaces]. split; try done. intros k y Hk. destruct k as [|k]; [by injection Hk as <-|]. change (replicate 63 blank_proc !! k = Some y) in Hk. apply lookup_replicate in Hk as [-> _]. done.
Qed.

Lemma new_process_starts_witness :
  runs (forkret toy_tramp toy_tramp (toy_tramp + 156) 0x80003000) toy_chosen (λ r s', r = Returned ∧
    (∀ q, xreg (hw s') q = frame_word toy_chosen (set_p_lock true toy_proc) (tf_off q)) ∧ first s' = false ∧ rest s' = ROOTDEV).
Proof.
  eapply runs_mono; [apply (new_process_starts demo_end toy_root toy_tramp toy_tramp (toy_tramp + 156) 0x80003000 (λ _, True) (λ d, d = ROOTDEV) 0 toy_chosen 1 (set_p_lock true toy_proc))|].
  - apply toy_linked.
  - intros _ h s p x Hh H _. apply runs_modify. exists h. split_and!; [apply Hh|apply Hh| |done|done|done|done]. by destruct H.
  - done.
  - apply toy_chosen_ok.
  - done.
  - done.
  - done.
  - intros r s' (H1 & H2 & _ & _ & _ & H3 & H4 & _). split; [exact H1|]. split; [exact H2|]. split; [exact H3|exact H4].
Defined.
