(* ===== verification/KTrap.v ===== *)
(** Interrupts in the kernel: kernelvec with kerneltrap, and the interrupt
    controller. *)

From S2P Require Import Prelude Mem CString Riscv Spinlock Kalloc Vm VmSpec Machine Asm AsmSpec KernelVec Space Proc ProcSpec Trap TrapSpec.
Local Open Scope kernel_scope.

(** Two values of a 64 bit register with the same bits. *)
Lemma bits_eq x y : 0 <= x < 2 ^ 64 → 0 <= y < 2 ^ 64 → (∀ j, 0 <= j < 64 → Z.testbit x j = Z.testbit y j) → x = y.
Proof.
  intros Hx Hy H. apply Z.bits_inj'. intros j Hj. destruct (decide (j < 64)); [apply H; lia|].
  rewrite <-(Z.mod_small x (2 ^ 64)), <-(Z.mod_small y (2 ^ 64)) by done. by rewrite !Z.mod_pow2_bits_high by lia.
Qed.

Section KTrap.
Context {F X : Type} `{FO : !FileOps F} `{TO : !TrapOps (tst F X)}.
Context (kend kroot trampoline uservec_at userret_at usertrap_at kernelvec_at kpage : Z) (away : K (tst F X) unit) (keep : Z → Prop) (I : X → Prop).
Abbreviation st := (tst F X).
Abbreviation in_kernel := (kernel_ok kend kroot trampoline).
Abbreviation calm_handlers := (calm_ops kend kroot trampoline keep I).
Abbreviation switch_back := (switches_back kend kroot trampoline kernelvec_at away keep I).
Implicit Types s : st.

(** What the code that was interrupted relies on. *)
Record unmoved (h : Z) s p x s' : Prop := {
  um_kernel : ∃ h' x', in_kernel false h' s' p x' ∧ same_proc x x';
  um_csr c : c ∈ [SEPC; MSTATUS] → csrf (hw s') c = csrf (hw s) c;
  um_vec : csrf (hw s') STVEC = u64 kernelvec_at;
  um_sp : xreg (hw s') SP = xreg (hw s) SP;
  um_mem b : keep b → rd8 (ram (hw s')) b = rd8 (ram (hw s)) b;
  um_inv : I (rest s')
}.

(** The last two statements of kerneltrap. *)
Lemma runs_restore h0 s0 h s p x x0 (Q : unit → st → Prop) :
  in_kernel false h s p x → same_proc x0 x → 0 <= csrf (hw s0) MSTATUS < 2 ^ 64 → 0 <= csrf (hw s0) SEPC < 2 ^ 64 →
  (∀ j, 0 <= j < 64 → Z.testbit sstatus_mask j = false → MSTATUS_bit j (hw s) = MSTATUS_bit j (hw s0)) →
  csrf (hw s) STVEC = u64 kernelvec_at → xreg (hw s) SP = xreg (hw s0) SP → (∀ b, keep b → rd8 (ram (hw s)) b = rd8 (ram (hw s0)) b) → I (rest s) →
  (∀ s', unmoved h0 s0 p x0 s' → Q tt s') →
  runs (on_hw (w_sepc (read_csr SEPC (hw s0))) ;;; on_hw (w_sstatus (read_csr SSTATUS (hw s0)))) s Q.
Proof.
  intros H Hx Hm0 He0 Hb Hv Hsp Hmem HI HQ. apply runs_bind, runs_w; [done|]. pose proof (kernel_ok_csr _ _ _ _ _ _ _ _ SEPC (csrf (hw s0) SEPC) H ltac:(done) ltac:(done)) as H1.
  change (read_csr SEPC (hw s0)) with (csrf (hw s0) SEPC). set (m1 := put_csr SEPC _ (hw s)) in *.
  assert (F1 : csrf m1 SEPC = csrf (hw s0) SEPC ∧ csrf m1 STVEC = csrf (hw s) STVEC ∧ csrf m1 MSTATUS = csrf (hw s) MSTATUS ∧ xreg m1 = xreg (hw s) ∧ ram m1 = ram (hw s)).
  { unfold m1. rewrite !csrf_put. split_and!; try done. rewrite decide_True by done. by apply u64_small. }
  destruct F1 as (C1 & C2 & C3 & E1 & E2). clearbody m1. apply runs_on_hw, runs_modify. cbn [hw set_hw]. set (m2 := write_csr SSTATUS _ m1).
  assert (B2 : ∀ j, 0 <= j < 64 → MSTATUS_bit j m2 = MSTATUS_bit j (hw s0)).
  { intros j Hj. unfold m2. rewrite sstatus_write by done. unfold read_csr. rewrite Z.land_spec. destruct (Z.testbit sstatus_mask j) eqn:E; [by rewrite andb_true_r|].
    rewrite <-Hb by done. unfold MSTATUS_bit. by rewrite C3. }
  assert (F2 : 0 <= csrf m2 MSTATUS < 2 ^ 64 ∧ (∀ c, c ≠ MSTATUS → csrf m2 c = csrf m1 c) ∧ xreg m2 = xreg m1 ∧ ram m2 = ram m1 ∧ priv m2 = priv m1).
  { unfold m2, write_csr. split_and!; try done; [rewrite csrf_put, decide_True by done; apply u64_range..|]. intros c Hc. rewrite csrf_put. by rewrite decide_False. }
  clearbody m2. destruct F2 as (R2 & C4 & E3 & E4 & E5).
  assert (Hm : csrf m2 MSTATUS = csrf (hw s0) MSTATUS) by (apply bits_eq; [done|done|exact B2]).
  apply HQ. split; cbn [hw set_hw rest].
  - exists h, x. split; [|done]. apply (kernel_ok_hw _ _ _ _ _ (set_hw m1 s) _ _ m2 H1); cbn [hw set_hw]; [by rewrite E5; apply H1|by apply C4|by rewrite E3|by rewrite E4|done|done].
  - intros c Hc%list_elem_of_In. destruct Hc as [<-|[<-|[]]]; [by rewrite C4|done].
  - by rewrite C4, C2 by done.
  - by rewrite E3, E1.
  - intros b Hk. rewrite E4, E2. by apply Hmem.
  - done.
Qed.

Lemma runs_kerneltrap h s p x (Q : unit → st → Prop) :
  calm_handlers → switch_back → in_kernel false h s p x → 0 <= h < 2 ^ 64 → 0 <= csrf (hw s) SEPC < 2 ^ 64 →
  MSTATUS_bit 8 (hw s) = true → MSTATUS_bit 1 (hw s) = false → csrf (hw s) STVEC = u64 kernelvec_at → I (rest s) →
  dev_code (csrf (hw s) SCAUSE) ≠ 0 → (∀ s', unmoved h s p x s' → Q tt s') → runs (kerneltrap away) s Q.
Proof.
  intros HC HB H Hh He H8 H1 Hv HI Hd HQ. unfold kerneltrap. do 3 apply runs_bind, runs_r. change SSTATUS_SPP with (2 ^ 8). rewrite sstatus_test, H8 by done. cbn [negb].
  apply runs_bind. unfold Machine.intr_get. apply runs_on_hw_bind, runs_r, runs_on_hw, runs_ret. change SSTATUS_SIE with (2 ^ 1). rewrite sstatus_test, H1 by done. cbn [negb].
  replace (set_hw (hw s) s) with s by by destruct s. apply runs_bind. eapply (runs_devintr kend kroot); [exact HC|exact H|done|done|]. intros s1 K1 I1.
  pose proof K1 as [G1 F1 C1 S1 M1]. destruct (Z.eqb_spec (dev_code (csrf (hw s) SCAUSE)) 0); [done|].
  assert (B1 : ∀ j, MSTATUS_bit j (hw s1) = MSTATUS_bit j (hw s)) by (intros j; by eapply kept_bit).
  assert (V1 : csrf (hw s1) STVEC = u64 kernelvec_at) by (rewrite C1; [done|by apply in_trap]).
  assert (Hst : 0 <= csrf (hw s) MSTATUS < 2 ^ 64) by apply H.
  assert (Hnone : runs (on_hw (w_sepc (read_csr SEPC (hw s))) ;;; on_hw (w_sstatus (read_csr SSTATUS (hw s)))) s1 Q).
  { eapply (runs_restore h s h s1 p x x); try done. unfold same_proc. by destruct x. }
  apply runs_bind. destruct (Z.eqb_spec (dev_code (csrf (hw s) SCAUSE)) 2) as [E2|E2]; [|apply runs_ret; cbv beta; by apply runs_bind, runs_ret].
  apply runs_bind. eapply (runs_myproc_free kend kroot); [exact G1|]. intros o2 Ho2 Em2 _ _. pose proof (kept_os kend kroot trampoline keep h s1 p x o2 G1 Ho2 Em2) as K2.
  assert (X2 : rest (with_os o2 s1) = rest s1 ∧ hw (with_os o2 s1) = hw s1) by (split; [done|by apply hw_with_os]). revert K2 X2. generalize (with_os o2 s1). clear o2 Ho2 Em2. intros s2 K2 [X2 W2].
  assert (Hp : p ≠ 0) by (destruct (oo_at _ _ _ _ (ko_os _ _ _ _ _ _ _ _ G1)); lia). destruct (Z.eqb_spec p 0); [done|]. cbn [negb].
  apply runs_bind. eapply (runs_myproc_free kend kroot); [apply K2|]. intros o3 Ho3 Em3 _ _. pose proof (kept_os kend kroot trampoline keep h s2 p x o3 (kp_kernel _ _ _ _ _ _ _ _ _ K2) Ho3 Em3) as K3.
  assert (X3 : rest (with_os o3 s2) = rest s2 ∧ hw (with_os o3 s2) = hw s2) by (split; [done|by apply hw_with_os]). revert K3 X3. generalize (with_os o3 s2). clear o3 Ho3 Em3. intros s3 K3 [X3 W3].
  apply runs_bind. eapply (runs_getp_ok kend kroot); [apply K3|]. intros o4 Ho4 Em4 _ _. pose proof (kept_os kend kroot trampoline keep h s3 p x o4 (kp_kernel _ _ _ _ _ _ _ _ _ K3) Ho4 Em4) as K4.
  assert (X4 : rest (with_os o4 s3) = rest s3 ∧ hw (with_os o4 s3) = hw s3) by (split; [done|by apply hw_with_os]). revert K4 X4. generalize (with_os o4 s3). clear o4 Ho4 Em4. intros s4 K4 [X4 W4].
  pose proof (ko_run _ _ _ _ _ _ _ _ H eq_refl) as Hrun. pose proof (oo_lock _ _ _ _ (ko_os _ _ _ _ _ _ _ _ H)) as Hl.
  apply runs_ret. cbv beta. unfold is_state. rewrite bool_decide_true by done. cbv iota. rewrite W3, W2 in W4. apply runs_bind, runs_bind.
  eapply (runs_yield kend kroot); [apply K4|by rewrite W4, B1|]. intros s5 G5 W5 _ X5. rewrite W4 in W5. apply runs_bind.
  eapply runs_mono; [apply (HB h s5 p); [done|exact G5|done|by rewrite W5|by rewrite X5, X4, X3, X2]|]. intros [] s6 (h6 & Hh6 & G6 & V6 & F6 & I6 & S6 & M6 & B6).
  eapply (runs_yield_leave kend kroot); [exact G6|done|done|]. intros s7 G7 W7 _ X7. rewrite back_again in G7 by done.
  eapply (runs_restore h s h6 s7 p _ x); [exact G7|done|done|done| | | | |by rewrite X7|done].
  - intros j Hj Hm. by rewrite W7, B6, W5, B1.
  - by rewrite W7.
  - by rewrite W7, S6, W5.
  - intros b Hb. by rewrite W7, M6, W5, M1.
Qed.
End KTrap.

(** ** From the interrupt to the sret *)

Section Kernel.
Context {F X : Type} `{FO : !FileOps F} `{TO : !TrapOps (tst F X)}.
Context (kend kroot trampoline uservec_at userret_at usertrap_at kernelvec_at kpage : Z) (away : K (tst F X) unit) (I : X → Prop).
Abbreviation in_kernel := (kernel_ok kend kroot trampoline).
Abbreviation trap := (take_trap trampoline uservec_at userret_at usertrap_at kernelvec_at kpage away).

(** The kernel stack of the process, at the virtual page [vp] and the physical
    page [pp], has room for the registers, and the code of kernelvec is mapped. *)
Record kstack_ok (s : tst F X) (x : proc) (vp pp : Z) : Prop := {
  ks_room : vp <= xreg (hw s) SP - 256 ∧ xreg (hw s) SP <= vp + 4096 ∧ xreg (hw s) SP mod 8 = 0;
  ks_vp : page_aligned vp ∧ 0 <= vp < MAXVA;
  ks_pp : page_aligned pp ∧ 0 <= pp < 2 ^ 56;
  ks_map : pteval (ram (hw s)) kroot vp = mkpte pp (Z.lor PTE_R PTE_W);
  ks_free : ¬ is_node (ram (hw s)) kroot pp ∧ ¬ is_node (ram (hw s)) (p_pagetable x) pp;
  ks_kpage : page_aligned kpage ∧ 0 <= kpage < MAXVA;
  ks_code : pteval (ram (hw s)) kroot kpage = mkpte kpage (Z.lor PTE_R PTE_X)
}.

(** The physical address of the 256 bytes below the stack pointer. *)
Definition frame_pa (s : tst F X) (vp pp : Z) : Z := pp + (xreg (hw s) SP - 256 - vp).

(** What the handlers must not write: the tables of the kernel and those bytes. *)
Definition own (s : tst F X) (vp pp b : Z) : Prop := table_byte (ram (hw s)) kroot b ∨ frame_pa s vp pp <= b < frame_pa s vp pp + 256.

Lemma kstack_window (s : tst F X) x vp pp h p :
  0 < kend → in_kernel false h s p x → kstack_ok s x vp pp →
  let D b := ¬ table_byte (ram (hw s)) kroot b in
  code_at D (hw s) kpage kpage ∧ window D (hw s) (xreg (hw s) SP - 256) (frame_pa s vp pp) 256.
Proof.
  intros Hk H [(R1 & R2 & R3) [V1 V2] [P1 P2] M [N1 N2] [C1 C2] Mc] D. pose proof (sp_kwf _ _ _ _ _ _ (ko_spaces _ _ _ _ _ _ _ _ H)) as Hw.
  pose proof (ko_priv _ _ _ _ _ _ _ _ H) as Hp. pose proof (ko_satp _ _ _ _ _ _ _ _ H) as Hs. assert (HD : ∀ b, table_byte (ram (hw s)) kroot b → ¬ D b) by (intros b Hb Hn; by apply Hn).
  assert (HM : MAXVA = 2 ^ 38) by done. split.
  - intros r Hr. pose proof (kernel_page kend kroot Hk D (hw s) kpage kpage (Z.lor PTE_R PTE_X) Fetch 0) as E. rewrite !Z.add_0_r in E. apply E; try done; lia.
  - split_and!; [zdm|lia|lia|]. intros o Ho. split.
    { intros (q & Hq & Hb). unfold in_page, frame_pa in Hb. pose proof (node_page_aligned kend _ _ q Hw Hq) as [Hal _]. destruct (pages_disjoint q pp Hal P1); [|lia|lia]. by intros ->. }
    intros r Hr. replace (xreg (hw s) SP - 256 + o) with (vp + (xreg (hw s) SP - 256 + o - vp)) by lia. unfold frame_pa.
    replace (pp + (xreg (hw s) SP - 256 - vp) + o) with (pp + (xreg (hw s) SP - 256 + o - vp)) by lia.
    split; apply (kernel_page kend kroot Hk D (hw s) vp pp (Z.lor PTE_R PTE_W)); try done; lia.
Qed.

(** The state in which kernelvec calls kerneltrap. *)
Lemma kentry_kernel D cause tval h (s : tst F X) p x vp pp m1 :
  in_kernel false h s p x → kstack_ok s x vp pp → kentry D (frame_pa s vp pp) cause tval (hw s) m1 → in_kernel false h (set_hw m1 s) p x.
Proof.
  intros H [(R1 & R2 & R3) _ [P1 P2] _ [N1 N2] _ _] [[[W1 W2] _] Wo _ Wr Wc]. pose proof H as []. split; cbn [hw os set_hw]; try done.
  - by rewrite W2.
  - by rewrite W1.
  - by rewrite Wr.
  - rewrite Wc. apply u64_range.
  - eapply (spaces_page kend kroot trampoline); try done. intros b Hb. apply Wo. unfold in_page, frame_pa in *. lia.
Qed.

(** [C14] An interrupt of a device or of the timer that arrives while the kernel
    works for a process is invisible to that work: the registers are saved
    below the stack pointer, the handler runs, other processes may run too,
    and the kernel continues at the same instruction, in supervisor mode, with
    interrupts enabled as before and every register but tp unchanged; tp holds
    the number of the hart that the process is now on. *)
Theorem kernel_interrupt_transparent cause tval h (s : tst F X) p x vp pp :
  0 < kend → 0 <= kernelvec_at < 2 ^ 64 → kernelvec_at ≠ uservec_va trampoline uservec_at →
  calm_ops kend kroot trampoline (own s vp pp) I → switches_back kend kroot trampoline kernelvec_at away (own s vp pp) I →
  in_kernel false h s p x → kstack_ok s x vp pp → regs_ok (hw s) → 0 <= pcr (hw s) < 2 ^ 64 → csrf (hw s) STVEC = u64 kernelvec_at → I (rest s) →
  dev_code (u64 cause) ≠ 0 →
  runs (trap cause tval) s (λ r s', r = Returned ∧ (∀ q, q ≠ TP → xreg (hw s') q = xreg (hw s) q) ∧ pcr (hw s') = pcr (hw s) ∧
    priv (hw s') = SM ∧ MSTATUS_bit 1 (hw s') = MSTATUS_bit 1 (hw s) ∧ I (rest s') ∧ ∃ h' x', in_kernel false h' s' p x' ∧ same_proc x x').
Proof.
  intros Hk Hkv Hne HC HB H Hst Hr Hpc Hv HI Hd. destruct (kstack_window s x vp pp h p Hk H Hst) as [Hcode Hwin]. set (D b := ¬ table_byte (ram (hw s)) kroot b) in *.
  pose proof (ko_priv _ _ _ _ _ _ _ _ H) as Hp. pose proof Hst as [(R1 & R2 & R3) [V1 V2] _ _ _ _ _].
  unfold take_trap. apply runs_bind, runs_on_hw, runs_modify, runs_bind, runs_gets. cbn [hw set_hw]. rewrite enter_pc, Hv, !u64_small by (done || by rewrite u64_small).
  destruct (Z.eqb_spec kernelvec_at (TRAMPOLINE + (uservec_at - trampoline))); [done|]. rewrite Z.eqb_refl. apply runs_bind.
  pose proof (kernelvec_transparent hw set_hw D kpage kpage (frame_pa s vp pp) cause tval (kerneltrap away)
    (λ s2, I (rest s2) ∧ ∃ h' x', in_kernel false h' s2 p x' ∧ same_proc x x') s (hw s) ltac:(done) ltac:(done) eq_refl Hr Hpc Hp ltac:(lia) Hcode Hwin) as T.
  eapply runs_mono; [eapply (runs_bind_inv (zoom hw set_hw (modify (enter_trap cause tval))) (λ _, kernelvec hw set_hw kpage kpage (kerneltrap away)) s), T|]; clear T.
  - intros m1 E1. pose proof (kentry_kernel D cause tval h s p x vp pp m1 H Hst E1) as H1. destruct E1 as [[Wa Wb] Wo Ws Wr Wc].
    assert (Eb : ∀ j, MSTATUS_bit j m1 = MSTATUS_bit j (enter_trap cause tval (hw s))) by (intros j; unfold MSTATUS_bit; by rewrite Wc).
    eapply (runs_kerneltrap kend kroot trampoline kernelvec_at away (own s vp pp) I h (set_hw m1 s) p x); [exact HC|exact HB|exact H1|..]; cbn [hw set_hw rest].
    + rewrite <-(ko_tp _ _ _ _ _ _ _ _ H). apply Hr.
    + rewrite Wc. apply u64_range.
    + rewrite Eb, enter_status by lia. by rewrite Hp.
    + by rewrite Eb, enter_status by lia.
    + rewrite Wc, enter_csr; [done|]. apply (bool_decide_unpack _). vm_compute. exact Logic.I.
    + done.
    + by rewrite Wc, enter_cause.
    + intros s2 [(h' & x' & U1 & U2) Uc Uv Us Um Ui]. cbn [hw set_hw] in *. split; [|by eauto]. split_and!; [split; [split|]|done| | |].
      * by rewrite (ko_satp _ _ _ _ _ _ _ _ U1), (proj1 Wa), (ko_satp _ _ _ _ _ _ _ _ H).
      * by rewrite (ko_priv _ _ _ _ _ _ _ _ U1), (proj2 Wa).
      * intros b Hb. destruct (decide (rd8 (ram (hw s2)) b = rd8 (ram m1) b)) as [|Hx]; [done|]. exfalso. apply Hb. intros Ht. apply Hx, Um. by left.
      * intros o Ho. apply Um. right. lia.
      * apply Uc. by left.
      * apply Uc. by right; left.
  - intros [] s' (T1 & T2 & T3 & T4 & [[T5 _] _] & s2 & (Ui & h' & x' & U1 & U2) & Es & Et & Em & Eq & Ec). apply runs_ret. split_and!; try done.
    + by rewrite Es.
    + exists h', x'. split; [|done]. rewrite Es. apply kernel_ok_hw; try done. by apply Ec.
Qed.
End Kernel.

(** ** The interrupt controller *)

Section Plic.
Context {F X : Type} `{FO : !FileOps F} `{TO : !TrapOps (tst F X)}.
Implicit Types s : tst F X.

(** Hart [h] takes interrupts of the serial port and the disk, equal in rank. *)
Definition configured (h : Z) (p : plic) : Prop :=
  pl_senable p h = 2 ^ UART0_IRQ + 2 ^ VIRTIO0_IRQ ∧ pl_spriority p h = 0 ∧ pl_priority p UART0_IRQ = 1 ∧ pl_priority p VIRTIO0_IRQ = 1.

Definition best_of (p : plic) (l : list Z) : Z := foldr (λ i b, if (b =? 0) || pl_before p i b then i else b) 0 l.

Lemma best_in p l : Forall (λ i, i ≠ 0) l → best_of p l = 0 ∧ l = [] ∨ best_of p l ∈ l.
Proof.
  induction 1 as [|i l Hi _ IH]; [by left|]. right. cbn [best_of foldr]. fold (best_of p l). destruct ((best_of p l =? 0) || pl_before p i (best_of p l)) eqn:E; [by left|].
  right. destruct IH as [[E0 _]|IH]; [|done]. by rewrite E0 in E.
Qed.

Lemma offered_two h p i : configured h p → i ∈ pl_offered h p → i ∈ pl_lines p ∧ i ∉ pl_busy p ∧ (i = UART0_IRQ ∨ i = VIRTIO0_IRQ).
Proof.
  intros (E1 & E2 & E3 & E4) ((Hb & Hp & Hn) & Hl)%list_elem_of_filter. split_and!; [done|done|]. rewrite E1 in Hb. unfold UART0_IRQ, VIRTIO0_IRQ in *.
  destruct (decide (i < 0)); [by rewrite Z.testbit_neg_r in Hb|]. destruct (decide (11 <= i)) as [Hi|Hi].
  { assert (H : Z.testbit (2 ^ 10 + 2 ^ 1) i = false) by (apply Z.bits_above_log2; [done|]; change (Z.log2 (2 ^ 10 + 2 ^ 1)) with 10; lia). congruence. }
  assert (Hall : Forall (λ j, Z.testbit (2 ^ 10 + 2 ^ 1) j = true → j = 10 ∨ j = 1) (seqZ 0 11)) by (apply (bool_decide_unpack _); vm_compute; exact I).
  rewrite Forall_forall in Hall. apply Hall; [apply elem_of_seqZ; lia|done].
Qed.

Lemma offered_line h p i : configured h p → i = UART0_IRQ ∨ i = VIRTIO0_IRQ → i ∈ pl_lines p → i ∉ pl_busy p → i ∈ pl_offered h p.
Proof.
  intros (E1 & E2 & E3 & E4) Hi Hl Hn. apply list_elem_of_filter. split; [|done]. rewrite E1, E2. destruct Hi as [->| ->]; split_and!; try done; by rewrite ?E3, ?E4.
Qed.

Lemma filter_absent (i : Z) (l : list Z) : i ∉ l → filter (λ j, j ≠ i) l = l.
Proof.
  induction l as [|j l IH]; [done|]. rewrite not_elem_of_cons. intros [H1 H2]. rewrite filter_cons_True by auto. by rewrite IH.
Qed.

(** The handler of a device. *)
Definition handler_of (i : Z) : K (tst F X) unit := if i =? UART0_IRQ then t_uartintr else t_virtio_disk_intr.

Definition pl_claimed (i : Z) (p : plic) : plic := mkPlic (pl_priority p) (pl_senable p) (pl_spriority p) (pl_lines p) (i :: pl_busy p).

(** [C32] plicinit and plicinithart make the hart take interrupts of the serial
    port and the disk.  devintr then serves an external interrupt by claiming
    a device that asserts its line and that no hart is serving, calling that
    device's handler and completing it, so that the device can interrupt
    again; there is no such device only if none was left to be served, and
    then nothing happens. *)
Theorem external_interrupt_served s0 s h :
  xreg (hw s0) TP = h → 0 <= h < NCPU →
  runs (plicinit ;;; plicinithart) s0 (λ _ s1, configured h (pl s1) ∧ s1 = set_pl (pl s1) s0) ∧
  (xreg (hw s) TP = h → configured h (pl s) → csrf (hw s) SCAUSE = 2 ^ 63 + 9 →
   (∃ i, (i = UART0_IRQ ∨ i = VIRTIO0_IRQ) ∧ i ∈ pl_lines (pl s) ∧ i ∉ pl_busy (pl s) ∧
      devintr s = (handler_of i ;;; plic_complete i ;;; ret 1) (set_pl (pl_claimed i (pl s)) s) ∧
      ∀ s2, xreg (hw s2) TP = h → configured h (pl s2) → pl_busy (pl s2) = i :: pl_busy (pl s) →
        runs (plic_complete i) s2 (λ _ s3, pl_busy (pl s3) = pl_busy (pl s) ∧ s3 = set_pl (pl s3) s2)) ∨
   (∀ i, i = UART0_IRQ ∨ i = VIRTIO0_IRQ → i ∈ pl_lines (pl s) → i ∈ pl_busy (pl s)) ∧ devintr s = Ok 1 s).
Proof.
  intros Htp Hh. split.
  - unfold plicinit, plicinithart. do 2 apply runs_bind. apply runs_zoom, runs_modify, runs_zoom, runs_modify. apply runs_bind, runs_cpuid. cbn [hw set_pl].
    rewrite Htp, s32_small by (unfold NCPU in Hh; lia). apply runs_bind, runs_zoom, runs_modify, runs_zoom, runs_modify. split; [|by destruct s0].
    unfold configured. cbn. by rewrite Z.eqb_refl.
  - intros Htp' Hcf Hc. assert (Hid : s32 (xreg (hw s) TP) = h) by (rewrite Htp'; apply s32_small; unfold NCPU in Hh; lia).
    pose proof (best_in (pl s) (pl_offered h (pl s))) as Hb. assert (Hnz : Forall (λ i, i ≠ 0) (pl_offered h (pl s))).
    { apply Forall_forall. intros i Hi. destruct (offered_two h (pl s) i Hcf Hi) as (_ & _ & [->| ->]); done. }
    specialize (Hb Hnz). change (best_of (pl s) (pl_offered h (pl s))) with (pl_best h (pl s)) in Hb. set (i := pl_best h (pl s)) in *.
    destruct Hb as [[E0 En]|Hin]; [right|left].
    + split; [intros j Hj Hl|].
      * destruct (decide (j ∈ pl_busy (pl s))); [done|]. exfalso. pose proof (offered_line h (pl s) j Hcf Hj Hl n) as Ho. rewrite En in Ho. by apply not_elem_of_nil in Ho.
      * assert (E : ends_in (ret 1) (λ t, t = s) devintr s); [|by destruct E as (? & -> & ->)]. unfold devintr. apply ends_bind, runs_r. change (read_csr SCAUSE (hw s)) with (csrf (hw s) SCAUSE).
        rewrite Hc. change (negb _ && _) with true. cbv iota. unfold plic_claim. apply ends_bind, runs_bind, runs_cpuid, runs_bind, runs_zoom. rewrite Hid. unfold runs at 1, read_claim. fold i. rewrite E0.
        apply runs_ret. change (s32 0) with 0. cbn [Z.eqb UART0_IRQ VIRTIO0_IRQ negb]. apply ends_bind, runs_ret, ends_bind, runs_ret, ends_refl. destruct s as [? ? [] ? ?]. done.
    + destruct (offered_two h (pl s) i Hcf Hin) as (Hl & Hnb & Hi). assert (Hs : s32 i = i) by (destruct Hi as [->| ->]; done). assert (Hi0 : i ≠ 0) by (destruct Hi as [->| ->]; done).
      exists i. split_and!; [done|done|done| |].
      * assert (E : ends_in (handler_of i ;;; plic_complete i ;;; ret 1) (λ t, t = set_pl (pl_claimed i (pl s)) s) devintr s); [|by destruct E as (? & -> & ->)].
        unfold devintr. apply ends_bind, runs_r. change (read_csr SCAUSE (hw s)) with (csrf (hw s) SCAUSE). rewrite Hc. change (negb _ && _) with true. cbv iota.
        unfold plic_claim. apply ends_bind, runs_bind, runs_cpuid, runs_bind, runs_zoom. rewrite Hid. unfold runs at 1, read_claim. fold i. apply Z.eqb_neq in Hi0. rewrite Hi0.
        apply runs_ret. rewrite Hs, Hi0. cbn [negb]. unfold handler_of. destruct Hi as [Hi|Hi]; rewrite Hi; cbn [Z.eqb Pos.eqb UART0_IRQ VIRTIO0_IRQ]; by apply ends_refl.
      * intros s2 Ht2 Hc2 Hb2. unfold plic_complete. apply runs_bind, runs_cpuid. rewrite Ht2, s32_small by (unfold NCPU in Hh; lia). apply runs_zoom, runs_modify. split; [|by destruct s2].
        cbn [pl set_pl pl_busy]. destruct Hc2 as (-> & _). assert (Et : Z.testbit (2 ^ UART0_IRQ + 2 ^ VIRTIO0_IRQ) i = true) by (destruct Hi as [->| ->]; done). rewrite Et, Hb2.
        rewrite filter_cons_False by auto. by apply filter_absent.
Qed.
End Plic.

(** ** Witnesses *)

(** The process of the toy kernel in the kernel, on its stack. *)
Definition toy_kernel : tst unit unit :=
  mkT (put_csr SATP (MAKE_SATP toy_root) (put_csr STVEC toy_kernelvec (put_csr SCAUSE (2 ^ 63 + 9) (put_reg SP (TRAMPOLINE - 4096) (mkMach (λ _, 0) (λ _, 0) SM 96 toy_mem))))) toy_os toy_plic false tt.

Lemma toy_kernel_ok : kernel_ok demo_end toy_root toy_tramp false 0 toy_kernel 1 toy_proc.
Proof. split; [done|done|done|done|done|apply toy_os_ok|done|apply toy_spaces]. Qed.

Lemma toy_stack_ok : kstack_ok toy_root toy_kpage toy_kernel toy_proc (TRAMPOLINE - 2 * 4096) toy_stack.
Proof.
  split; [done|done|done| | |done|].
  - apply (toy_pte _ toy_entry 509); [by rewrite toy_at|done|done].
  - split; by apply (toy_apart _ toy_entry).
  - apply (toy_pte _ toy_entry 508); [by rewrite toy_at|done|done].
Qed.

Lemma kernel_interrupt_transparent_witness :
  runs (take_trap toy_tramp toy_tramp (toy_tramp + 156) 0x80003000 toy_kernelvec toy_kpage toy_away (2 ^ 63 + 1) 0) toy_kernel
    (λ r s', r = Returned ∧ ∀ q, q ≠ TP → xreg (hw s') q = xreg (hw toy_kernel) q).
Proof.
  eapply runs_mono; [apply (kernel_interrupt_transparent demo_end toy_root toy_tramp toy_tramp (toy_tramp + 156) 0x80003000 toy_kernelvec toy_kpage toy_away (λ _, True) (2 ^ 63 + 1) 0 0
    toy_kernel 1 toy_proc (TRAMPOLINE - 2 * 4096) toy_stack)|].
  - done.
  - done.
  - done.
  - apply toy_calm.
  - apply toy_back.
  - apply toy_kernel_ok.
  - apply toy_stack_ok.
  - intros q. cbn [hw toy_kernel]. rewrite !xreg_csr, xreg_put. case_decide; [apply u64_range|done].
  - done.
  - done.
  - done.
  - done.
  - intros r s' H. split; [exact (proj1 H)|exact (proj1 (proj2 H))].
Defined.

Lemma external_interrupt_served_witness :
  (∃ i, (i = UART0_IRQ ∨ i = VIRTIO0_IRQ) ∧ i ∈ pl_lines toy_plic ∧ i ∉ pl_busy toy_plic ∧
     devintr toy_kernel = (handler_of i ;;; plic_complete i ;;; ret 1) (set_pl (pl_claimed i toy_plic) toy_kernel) ∧
     ∀ s2 : tst unit unit, xreg (hw s2) TP = 0 → configured 0 (pl s2) → pl_busy (pl s2) = i :: pl_busy toy_plic →
       runs (plic_complete i) s2 (λ _ s3, pl_busy (pl s3) = pl_busy toy_plic ∧ s3 = set_pl (pl s3) s2)) ∨
  (∀ i, i = UART0_IRQ ∨ i = VIRTIO0_IRQ → i ∈ pl_lines toy_plic → i ∈ pl_busy toy_plic) ∧ devintr toy_kernel = Ok 1 toy_kernel.
Proof.
  refine (proj2 (external_interrupt_served toy_kernel toy_kernel 0 _ _) _ _ _); done.
Defined.
