(* ===== verification/ProcTree.v ===== *)
(** The process table of proc.c as a tree: in every state that fork, exit,
    wait, sleep, yield, kill and wakeup reach, process identifiers are unique,
    every process but init has a parent that has not exited and is older, so
    that the parents of a process lead to init, and at most one process runs
    on the hart. *)

From S2P Require Import Prelude Mem CString Riscv Spinlock Kalloc Vm Proc ProcSpec.
Local Open Scope kernel_scope.

(** ** What the tree depends on *)

Record core := mkC { c_state : procstate; c_pid : Z; c_parent : Z }.
Definition core_of (x : proc) : core := mkC (p_state x) (p_pid x) (p_parent x).
Record view := mkV { v_table : list core; v_nextpid : Z; v_init : Z; v_cur : Z }.

Definition alive (st : procstate) : Prop := st ≠ UNUSED ∧ st ≠ ZOMBIE.

(** [p] points to the entry [c]. *)
Definition v_at (v : view) (p : Z) (c : core) : Prop := 1 <= p ∧ v_table v !! pidx p = Some c.

Record tree_inv (v : view) : Prop := {
  tr_length : length (v_table v) = Z.to_nat NPROC;
  tr_unused k c : v_table v !! k = Some c → c_state c = UNUSED → c_pid c = 0 ∧ c_parent c = 0;
  tr_pid k c : v_table v !! k = Some c → c_state c ≠ UNUSED → 0 < c_pid c < v_nextpid v;
  tr_unique k k' c c' : v_table v !! k = Some c → v_table v !! k' = Some c' →
    c_state c ≠ UNUSED → c_state c' ≠ UNUSED → c_pid c = c_pid c' → k = k';
  tr_parent k c : v_table v !! k = Some c → c_state c ≠ UNUSED → Z.of_nat k + 1 ≠ v_init v →
    ∃ d, v_at v (c_parent c) d ∧ alive (c_state d) ∧ c_pid d < c_pid c;
  tr_init : ∃ d, v_at v (v_init v) d ∧ alive (c_state d) ∧ c_parent d = 0;
  tr_first k c d : v_table v !! k = Some c → c_state c ≠ UNUSED → Z.of_nat k + 1 ≠ v_init v →
    v_at v (v_init v) d → c_pid d < c_pid c;
  tr_next : 0 < v_nextpid v;
  tr_running k c : v_table v !! k = Some c → c_state c = RUNNING → Z.of_nat k + 1 = v_cur v;
  tr_cur : v_cur v = 0 ∨ ∃ d, v_at v (v_cur v) d ∧ c_state d = RUNNING
}.

(** [q] is the parent of the process [p]. *)
Definition parent_of (v : view) (p q : Z) : Prop :=
  ∃ c, v_at v p c ∧ c_state c ≠ UNUSED ∧ c_parent c = q ∧ q ≠ 0.

(** Every process descends from init, and none from itself. *)
Definition rooted (v : view) : Prop :=
  (∀ p c, v_at v p c → c_state c ≠ UNUSED → rtc (parent_of v) p (v_init v)) ∧ ∀ p, ¬ tc (parent_of v) p p.

Lemma pidx_inj p q : 1 <= p → 1 <= q → pidx p = pidx q → p = q.
Proof. unfold pidx. lia. Qed.

Definition put (p : Z) (c : core) (v : view) : view :=
  mkV (<[pidx p := c]> (v_table v)) (v_nextpid v) (v_init v) (v_cur v).
Definition bump (v : view) : view := mkV (v_table v) (v_nextpid v + 1) (v_init v) (v_cur v).
Definition with_cur (p : Z) (v : view) : view := mkV (v_table v) (v_nextpid v) (v_init v) p.

Lemma put_put p c c' v : put p c (put p c' v) = put p c v.
Proof. unfold put. simpl. by rewrite list_insert_insert_eq. Qed.
Lemma put_same p c v : v_at v p c → put p c v = v.
Proof. intros [_ H]. unfold put. rewrite list_insert_id by done. by destruct v. Qed.
Lemma put_at p c c' v : v_at v p c → v_at (put p c' v) p c'.
Proof.
  intros [? H]. split; [done|]. simpl. rewrite list_lookup_insert, decide_True; [done|]. split; [done|]. by eapply lookup_lt_Some.
Qed.
Lemma put_at_ne p q c c' v : v_at v p c → 1 <= q → q ≠ p → v_at (put q c' v) p c.
Proof.
  intros [? H] ? ?. split; [done|]. simpl. rewrite list_lookup_insert_ne; [done|]. intros ?%pidx_inj; done.
Qed.

Lemma v_at_eq v p c d : v_at v p c → v_at v p d → c = d.
Proof. intros [_ H] [_ H']. congruence. Qed.
Lemma v_at_put v p c0 c d : v_at v p c0 → v_at (put p c v) p d → d = c.
Proof. intros H H'. eapply v_at_eq; [exact H'|by eapply put_at]. Qed.

(** A parent is older than its child. *)
Lemma parent_older v p q : tree_inv v → parent_of v p q →
  ∃ c d, v_at v p c ∧ v_at v q d ∧ c_state d ≠ UNUSED ∧ c_pid d < c_pid c.
Proof.
  intros T (c & [Hp Hc] & Hu & <- & H0). assert (Hi : Z.of_nat (pidx p) + 1 ≠ v_init v).
  { intros E. destruct (tr_init _ T) as (d & [Hp' Hd] & _ & Hr). assert (pidx p = pidx (v_init v)) as Ep by (unfold pidx in *; lia).
    rewrite Ep in Hc. congruence. }
  destruct (tr_parent _ T _ _ Hc Hu Hi) as (d & Hd & [? _] & Hlt). exists c, d. by split_and!.
Qed.

Lemma tree_rooted v : tree_inv v → rooted v.
Proof.
  intros T. split.
  - assert (H : ∀ n p c, c_pid c < Z.of_nat n → v_at v p c → c_state c ≠ UNUSED → rtc (parent_of v) p (v_init v)).
    { intros n. induction n as [|n IH]; intros p c Hn Hc Hu; [destruct Hc as [_ Hc]; pose proof (tr_pid _ T _ _ Hc Hu); lia|].
      destruct (decide (p = v_init v)) as [->|Hi]; [apply rtc_refl|]. pose proof Hc as [Hp Hc'].
      destruct (tr_parent _ T _ _ Hc' Hu) as (d & Hd & [Hdu _] & Hlt); [unfold pidx; lia|].
      apply (rtc_l _ _ (c_parent c)); [|apply (IH _ d); [lia|done|done]]. exists c. split_and!; [done..|]. destruct Hd. lia. }
    intros p c Hc Hu. apply (H (Z.to_nat (c_pid c + 1)) p c); [|done..]. destruct Hc as [_ Hc]. pose proof (tr_pid _ T _ _ Hc Hu). lia.
  - assert (H : ∀ p q, tc (parent_of v) p q → ∃ c d, v_at v p c ∧ v_at v q d ∧ c_pid d < c_pid c).
    { intros p q Hpq. induction Hpq as [p q Hpq|p q z Hpq _ (c' & d & Hq & Hz & Hlt)];
        destruct (parent_older _ _ _ T Hpq) as (c & e & Hp & He & _ & Hlt'); [by exists c, e|].
      exists c, d. rewrite (v_at_eq _ _ _ _ He Hq) in Hlt'. split_and!; [done..|lia]. }
    intros p Hpp. destruct (H p p Hpp) as (c & d & Hc & Hd & Hlt). rewrite (v_at_eq _ _ _ _ Hc Hd) in Hlt. lia.
Qed.

(** ** Changes of one entry that keep the tree *)

(** How the current process goes from that of [v] to [q] when [p] gets the
    state [st]: not at all, or [p] gives up the hart, or [p] gets it. *)
Definition turn (v : view) (p : Z) (st : procstate) (q : Z) : Prop :=
  q = v_cur v ∧ (st = RUNNING ↔ p = q) ∨ q = 0 ∧ p = v_cur v ∧ st ≠ RUNNING ∨ v_cur v = 0 ∧ q = p ∧ st = RUNNING.

(** The same process in another state, or with another parent. *)
Lemma tree_put v p c c' q :
  tree_inv v → v_at v p c → c_state c ≠ UNUSED → c_state c' ≠ UNUSED → c_pid c' = c_pid c →
  turn v p (c_state c') q →
  (p ≠ v_init v → ∃ d, v_at v (c_parent c') d ∧ alive (c_state d) ∧ c_pid d < c_pid c) →
  (p = v_init v → c_parent c' = 0) →
  (c_state c' = ZOMBIE → c_state c = ZOMBIE ∨
     p ≠ v_init v ∧ c_parent c' = c_parent c ∧ ∀ k d, v_table v !! k = Some d → c_state d ≠ UNUSED → c_parent d ≠ p) →
  tree_inv (with_cur q (put p c' v)).
Proof.
  intros [T1 T2 T3 T4 T5 T6 Tf T7 T8 T9] [Hp Hc] Hu Hu' Hpid Hrun Hpar Hroot Hz.
  assert (Hk : Z.of_nat (pidx p) + 1 = p) by (unfold pidx; lia).
  assert (Halive : ∀ r d, v_at v r d → alive (c_state d) → (c_state c' = ZOMBIE → c_state c = ZOMBIE ∨ r ≠ p) →
    ∃ d', v_at (with_cur q (put p c' v)) r d' ∧ alive (c_state d') ∧ c_pid d' = c_pid d ∧ (d' = d ∨ r = p ∧ d' = c')).
  { intros r d Hd Ha Hor. destruct (decide (r = p)) as [->|Hne].
    - exists c'. destruct Hd as [_ Hd]. assert (d = c) as -> by congruence.
      split; [by apply (put_at p c c' v); split|]. split; [|by split; [|right]]. split; [done|]. intros E.
      destruct (Hor E) as [Ez|]; [|done]. destruct Ha as [_ Ha]. congruence.
    - exists d. split; [by apply (put_at_ne r p d c' v)|]. split; [done|]. split; [done|by left]. }
  split; simpl.
  - by rewrite length_insert.
  - intros k d [[-> ->]|[Hne Hd]]%list_insert_cases; [done|eauto].
  - intros k d [[-> ->]|[Hne Hd]]%list_insert_cases; [|eauto]. rewrite Hpid. eauto.
  - intros k k' d d' [[-> ->]|[Hne Hd]]%list_insert_cases [[-> ->]|[Hne' Hd']]%list_insert_cases; try done.
    + rewrite Hpid. intros _ ? ?. by eapply T4.
    + rewrite Hpid. intros ? _ ?. by eapply T4.
    + by eapply T4.
  - intros k d [[-> ->]|[Hne Hd]]%list_insert_cases Hs Hi.
    + rewrite Hk in Hi. destruct (Hpar Hi) as (e & He & Hae & Hlt). destruct (Halive _ _ He Hae) as (e' & ? & ? & Ee & _).
      { intros E. destruct (Hz E) as [?|(_ & -> & Hno)]; [by left|right]. by eapply Hno. }
      exists e'. split_and!; [done..|lia].
    + destruct (T5 k d Hd Hs Hi) as (e & He & Hae & Hlt). destruct (Halive _ _ He Hae) as (e' & ? & ? & Ee & _).
      { intros E. destruct (Hz E) as [?|(_ & _ & Hno)]; [by left|right]. by eapply Hno. }
      exists e'. split_and!; [done..|lia].
  - destruct T6 as (d & Hd & Ha & Hr). destruct (Halive _ _ Hd Ha) as (d' & ? & ? & _ & Hor).
    { intros E. destruct (Hz E) as [?|(? & _ & _)]; [by left|by right]. }
    exists d'. split_and!; [done..|]. destruct Hor as [->|[E ->]]; auto.
  - assert (Hinit : ∀ d, v_at (with_cur q (put p c' v)) (v_init v) d → ∃ d0, v_at v (v_init v) d0 ∧ c_pid d = c_pid d0).
    { intros d [H1 H2]. simpl in H2. apply list_insert_cases in H2 as [[E ->]|[Hne H2]]; [|by exists d].
      exists c. split; [|done]. split; [done|]. by rewrite E. }
    intros k d e [[-> ->]|[Hne Hd]]%list_insert_cases Hs Hi (e0 & He & ->)%Hinit; [|by eapply Tf].
    rewrite Hpid. by eapply Tf.
  - done.
  - intros k d [[-> ->]|[Hne Hd]]%list_insert_cases.
    + rewrite Hk. intros E. destruct Hrun as [[-> Hrun]|[(_ & _ & ?)|(_ & -> & _)]]; [by apply Hrun|done|done].
    + intros E. pose proof (T8 k d Hd E) as Hcur. destruct Hrun as [[-> _]|[(_ & -> & _)|(E0 & _)]]; [done| |lia].
      exfalso. apply Hne. unfold pidx in *. lia.
  - destruct Hrun as [[-> Hrun]|[(-> & _)|(_ & -> & E)]]; [|by left|].
    + destruct T9 as [T9|(d & Hd & Hs)]; [by left|right]. destruct (decide (v_cur v = p)) as [E|Hne].
      * exists c'. rewrite E. split; [by apply (put_at p c c' v); split|]. by apply Hrun.
      * exists d. split; [by apply (put_at_ne (v_cur v) p d c' v)|done].
    + right. exists c'. split; [by apply (put_at p c c' v); split|done].
Qed.

(** A slot that stays unused. *)
Lemma tree_put_unused v p c c' :
  tree_inv v → v_at v p c → c_state c = UNUSED → c_state c' = UNUSED → c_pid c' = 0 → c_parent c' = 0 →
  tree_inv (put p c' v).
Proof.
  intros T [Hp Hc] Hu Hu' H1 H2. assert (c' = c) as ->; [|by rewrite put_same].
  destruct (tr_unused _ T _ _ Hc Hu). destruct c, c'. simpl in *. congruence.
Qed.

(** A new process. *)
Lemma tree_put_new v p c c' :
  tree_inv v → v_at v p c → c_state c = UNUSED → c_state c' ≠ UNUSED → c_state c' ≠ ZOMBIE → c_state c' ≠ RUNNING →
  c_pid c' = v_nextpid v → c_parent c' = v_cur v → v_cur v ≠ 0 →
  tree_inv (bump (put p c' v)).
Proof.
  intros [T1 T2 T3 T4 T5 T6 Tf T7 T8 T9] [Hp Hc] Hu Hu' Hz Hr Hpid Hpar Hcur.
  assert (Hold : ∀ q d, v_at v q d → c_state d ≠ UNUSED → v_at (put p c' v) q d).
  { intros q d Hd Hs. apply put_at_ne; [done|done|]. intros ->. destruct Hd as [_ Hd]. congruence. }
  split; simpl.
  - by rewrite length_insert.
  - intros k d [[-> ->]|[Hne Hd]]%list_insert_cases; [done|eauto].
  - intros k d [[-> ->]|[Hne Hd]]%list_insert_cases Hs; [rewrite Hpid; lia|]. specialize (T3 k d Hd Hs). lia.
  - intros k k' d d' [[-> ->]|[Hne Hd]]%list_insert_cases [[-> ->]|[Hne' Hd']]%list_insert_cases Hs Hs' E; try done.
    + specialize (T3 _ _ Hd' Hs'). lia.
    + specialize (T3 _ _ Hd Hs). lia.
    + by eapply T4.
  - intros k d [[-> ->]|[Hne Hd]]%list_insert_cases Hs Hi.
    + destruct T9 as [?|(e & He & Hse)]; [done|]. exists e. rewrite Hpar. split; [apply Hold; [done|by rewrite Hse]|]. split; [by rewrite Hse|].
      destruct He as [_ He]. rewrite Hpid. apply (T3 _ _ He). by rewrite Hse.
    + destruct (T5 k d Hd Hs Hi) as (e & He & Hae & Hlt). exists e. split; [|done]. apply Hold; [done|apply Hae].
  - destruct T6 as (d & Hd & Ha & Hr0). exists d. split; [|done]. apply Hold; [done|apply Ha].
  - destruct T6 as (d0 & Hd0 & Ha & _). intros k d e Hkd Hs Hi He.
    rewrite (v_at_eq _ _ _ _ He (Hold _ _ Hd0 (proj1 Ha))).
    apply list_insert_cases in Hkd as [[-> ->]|[Hne Hd]]; [|by eapply Tf]. rewrite Hpid. destruct Hd0 as [_ Hd0]. apply (T3 _ _ Hd0), Ha.
  - lia.
  - intros k d [[-> ->]|[Hne Hd]]%list_insert_cases; [done|eauto].
  - destruct T9 as [T9|(d & Hd & Hs)]; [by left|right]. exists d. split; [|done]. apply Hold; [done|by rewrite Hs].
Qed.

(** A zombie is freed. *)
Lemma tree_put_free v p c c' :
  tree_inv v → v_at v p c → c_state c = ZOMBIE → c_state c' = UNUSED → c_pid c' = 0 → c_parent c' = 0 →
  tree_inv (put p c' v).
Proof.
  intros [T1 T2 T3 T4 T5 T6 Tf T7 T8 T9] [Hp Hc] Hu Hu' H1 H2.
  assert (Hold : ∀ q d, v_at v q d → alive (c_state d) → v_at (put p c' v) q d).
  { intros q d Hd [_ Hs]. apply put_at_ne; [done|done|]. intros ->. destruct Hd as [_ Hd]. congruence. }
  split; simpl.
  - by rewrite length_insert.
  - intros k d [[-> ->]|[Hne Hd]]%list_insert_cases; [done|eauto].
  - intros k d [[-> ->]|[Hne Hd]]%list_insert_cases; [done|eauto].
  - intros k k' d d' [[-> ->]|[Hne Hd]]%list_insert_cases [[-> ->]|[Hne' Hd']]%list_insert_cases; try done. by eapply T4.
  - intros k d [[-> ->]|[Hne Hd]]%list_insert_cases Hs Hi; [done|].
    destruct (T5 k d Hd Hs Hi) as (e & He & Hae & Hlt). exists e. split; [|done]. by apply Hold.
  - destruct T6 as (d & Hd & Ha & Hr). exists d. split; [|done]. by apply Hold.
  - destruct T6 as (d0 & Hd0 & Ha & _). intros k d e Hkd Hs Hi He. rewrite (v_at_eq _ _ _ _ He (Hold _ _ Hd0 Ha)).
    apply list_insert_cases in Hkd as [[-> ->]|[Hne Hd]]; [done|]. by eapply Tf.
  - done.
  - intros k d [[-> ->]|[Hne Hd]]%list_insert_cases; [|eauto]. by rewrite Hu'.
  - destruct T9 as [T9|(d & Hd & Hs)]; [by left|right]. exists d. split; [|done]. apply Hold; [done|by rewrite Hs].
Qed.

Lemma tree_bump v : tree_inv v → tree_inv (bump v).
Proof.
  intros [T1 T2 T3 T4 T5 T6 Tf T7 T8 T9]. split; simpl; try done; [|lia].
  intros k c Hc Hs. specialize (T3 k c Hc Hs). lia.
Qed.

Section Tree.
Context (kend trampoline forkret initcode : Z) (xstate_at : Z → Z) {F : Type} `{FO : !FileOps F}.
Implicit Types s : pst F.

Definition view_of s : view := mkV (core_of <$> procs s) (nextpid s) (initproc s) (cur s).

(** Operations that do not change the tree. *)
Definition keeps {A} (m : K (pst F) A) : Prop := ∀ s, okays m s (λ _ s', view_of s' = view_of s).

Lemma keeps_ret {A} (a : A) : keeps (ret a).
Proof. by intros s. Qed.
Lemma keeps_gets {A} (f : pst F → A) : keeps (gets f).
Proof. by intros s. Qed.
Lemma keeps_panic {A} msg : keeps (A := A) (panic msg).
Proof. by intros s. Qed.
Lemma keeps_seq {A B} (m : K (pst F) A) (f : A → K (pst F) B) : keeps m → (∀ a, keeps (f a)) → keeps (bind m f).
Proof.
  intros Hm Hf s. apply okays_bind. eapply okays_mono; [apply Hm|]. intros a s1 E1.
  eapply okays_mono; [apply Hf|]. intros b s2 E2. congruence.
Qed.
Lemma keeps_if {A} (b : bool) (m1 m2 : K (pst F) A) : keeps m1 → keeps m2 → keeps (if b then m1 else m2).
Proof. by destruct b. Qed.
Lemma keeps_getp p : keeps (getp p).
Proof. intros s. unfold okays, getp. destruct (procs s !! pidx p); [|done]. by destruct (1 <=? p). Qed.
Lemma keeps_setp p f : (∀ x, core_of (f x) = core_of x) → keeps (setp p f).
Proof.
  intros Hf s. unfold okays, setp. destruct (procs s !! pidx p) as [x|] eqn:E; [|done]. destruct (1 <=? p); [|done].
  unfold view_of. simpl. f_equal. rewrite list_fmap_insert, Hf. apply list_insert_id. by rewrite list_lookup_fmap, E.
Qed.
Lemma keeps_modify f : (∀ s, view_of (f s) = view_of s) → keeps (modify f).
Proof. intros H s. apply H. Qed.
Lemma keeps_on_vm {A} (m : K kst A) : keeps (on_vm m).
Proof. intros s. unfold on_vm, zoom, okays. by destruct (m (vm s)). Qed.
Lemma keeps_on_files {A} (m : K F A) : keeps (on_files m).
Proof. intros s. unfold on_files, zoom, okays. by destruct (m (files s)). Qed.
Lemma keeps_on_cpu {A} (m : K hart A) : keeps (on_cpu m).
Proof. intros s. unfold on_cpu, zoom, okays. by destruct (m (cpu s)). Qed.
Lemma keeps_flag held (set : bool → pst F → pst F) :
  (∀ b s, view_of (set b s) = view_of s) → keeps (acquire_flag held set) ∧ keeps (release_flag held set).
Proof.
  intros H. split; intros s; unfold okays, acquire_flag, release_flag; by destruct (held s); try apply H.
Qed.
Create HintDb tree.
#[local] Hint Resolve keeps_ret keeps_gets keeps_panic keeps_getp keeps_on_vm keeps_on_files keeps_on_cpu : tree.
Ltac keep := repeat first [solve [eauto with tree] | apply keeps_seq; [|intros ?] | apply keeps_if | apply keeps_setp; done].

Lemma keeps_acquire_p p : keeps (acquire_p p).
Proof. unfold acquire_p. keep. Qed.
Lemma keeps_release_p p : keeps (release_p p).
Proof. unfold release_p. keep. Qed.
Lemma keeps_lock held (set : bool → pst F → pst F) :
  (∀ b s, view_of (set b s) = view_of s) → keeps (acquire held set) ∧ keeps (release held set).
Proof. intros H. destruct (keeps_flag held set H). split; unfold acquire, release; keep. Qed.
Lemma keeps_acquire_wait : keeps (acquire wait_lock set_wait_lock).
Proof. by apply keeps_lock. Qed.
Lemma keeps_release_wait : keeps (release wait_lock set_wait_lock).
Proof. by apply keeps_lock. Qed.
Lemma keeps_acquire_pid : keeps (acquire pid_lock set_pid_lock).
Proof. by apply keeps_lock. Qed.
Lemma keeps_release_pid : keeps (release pid_lock set_pid_lock).
Proof. by apply keeps_lock. Qed.
Lemma keeps_acquire_ticks : keeps (acquire tickslock set_tickslock).
Proof. by apply keeps_lock. Qed.
Lemma keeps_release_ticks : keeps (release tickslock set_tickslock).
Proof. by apply keeps_lock. Qed.
Lemma keeps_sched : keeps sched.
Proof. unfold sched, myproc. keep. Qed.
#[local] Hint Resolve keeps_acquire_p keeps_release_p keeps_acquire_wait keeps_release_wait keeps_acquire_pid
  keeps_release_pid keeps_acquire_ticks keeps_release_ticks keeps_sched : tree.

Lemma okays_keeps {A} (m : K (pst F) A) s (Q : A → pst F → Prop) :
  keeps m → (∀ a s', view_of s' = view_of s → Q a s') → okays m s Q.
Proof. intros Hm HQ. eapply okays_mono; [apply Hm|]. done. Qed.

Lemma okays_getp p s (Q : proc → pst F → Prop) :
  (∀ x, v_at (view_of s) p (core_of x) → Q x s) → okays (getp p) s Q.
Proof.
  intros HQ. unfold okays, getp. destruct (procs s !! pidx p) as [x|] eqn:E; [|done].
  destruct (Z.leb_spec 1 p); [|done]. apply HQ. split; [done|]. simpl. by rewrite list_lookup_fmap, E.
Qed.

Lemma okays_setp p f s (Q : unit → pst F → Prop) :
  (∀ x s', v_at (view_of s) p (core_of x) → view_of s' = put p (core_of (f x)) (view_of s) → Q tt s') →
  okays (setp p f) s Q.
Proof.
  intros HQ. unfold okays, setp. destruct (procs s !! pidx p) as [x|] eqn:E; [|done].
  destruct (Z.leb_spec 1 p); [|done]. apply (HQ x).
  - split; [done|]. simpl. by rewrite list_lookup_fmap, E.
  - unfold view_of, put. simpl. by rewrite list_fmap_insert.
Qed.

Lemma okays_myproc s (Q : Z → pst F → Prop) :
  (∀ s', view_of s' = view_of s → Q (cur s) s') → okays myproc s Q.
Proof.
  intros HQ. unfold myproc. apply okays_bind, okays_keeps; [keep|]. intros _ s1 E1. apply okays_bind, okays_gets.
  apply okays_bind, okays_keeps; [keep|]. intros _ s2 E2. apply okays_ret.
  replace (cur s1) with (cur s); [apply HQ; congruence|]. by injection E1.
Qed.

Lemma okays_for_procs {B} (none : B) (body : Z → K (pst F) (option B)) (I : Z → pst F → Prop) s (Q : B → pst F → Prop) :
  (∀ p s, 1 <= p <= NPROC → I p s →
     okays (body p) s (λ r s', match r with Some b => Q b s' | None => I (p + 1) s' end)) →
  I 1 s → (∀ s, I (1 + NPROC) s → Q none s) → okays (for_procs none body) s Q.
Proof.
  intros Hb H0 Hn. unfold for_procs. apply (okays_iter _ _ (λ p s, 1 <= p <= 1 + NPROC ∧ I p s)); [|done].
  intros p s' (Hp & HI). destruct (Z.ltb_spec p (1 + NPROC)).
  - apply okays_bind. eapply okays_mono; [apply Hb; [lia|done]|]. intros [b|] s'' HQ; apply okays_ret; [done|].
    split; [lia|done].
  - apply okays_ret, Hn. replace (1 + NPROC) with p by lia. done.
Qed.

(** ** wakeup and kill *)

(** Some sleeping processes were made ready. *)
Definition woken (v v' : view) : Prop :=
  v_nextpid v' = v_nextpid v ∧ v_init v' = v_init v ∧ v_cur v' = v_cur v ∧
  length (v_table v') = length (v_table v) ∧
  ∀ k c, v_table v !! k = Some c → ∃ c', v_table v' !! k = Some c' ∧
    (c' = c ∨ c_state c = SLEEPING ∧ c' = mkC RUNNABLE (c_pid c) (c_parent c)).

Lemma woken_refl v : woken v v.
Proof. split_and!; try done. intros k c Hc. exists c. split; [done|by left]. Qed.

Lemma woken_put v v' p c :
  woken v v' → v_at v' p c → c_state c = SLEEPING → woken v (put p (mkC RUNNABLE (c_pid c) (c_parent c)) v').
Proof.
  intros (H1 & H2 & H3 & H4 & H5) [Hp Hc] Hs. split_and!; try done; simpl; [by rewrite length_insert|].
  intros k d Hd. destruct (H5 k d Hd) as (d' & Hd' & Hor). destruct (decide (k = pidx p)) as [->|Hne].
  - rewrite Hc in Hd'. simplify_eq. eexists. split.
    + rewrite list_lookup_insert, decide_True; [done|]. split; [done|]. by eapply lookup_lt_Some.
    + destruct Hor as [->|[? ->]]; [by right|done].
  - exists d'. by rewrite list_lookup_insert_ne.
Qed.

Lemma okays_wakeup chan s (Q : unit → pst F → Prop) :
  (∀ s', woken (view_of s) (view_of s') → Q tt s') → okays (wakeup chan) s Q.
Proof.
  intros HQ. unfold wakeup. apply (okays_for_procs _ _ (λ _ s', woken (view_of s) (view_of s'))); [|apply woken_refl|done].
  intros p s1 _ W. apply okays_bind, okays_myproc. intros s2 E2. destruct (negb _); [|by apply okays_ret; rewrite E2].
  apply okays_bind, okays_keeps; [keep|]. intros _ s3 E3. apply okays_bind, okays_getp. intros x Hx.
  apply okays_bind. eapply (okays_mono _ _ (λ _ s', woken (view_of s) (view_of s'))).
  - unfold is_state. case_bool_decide as Hst; simpl; [|by apply okays_ret; rewrite E3, E2].
    destruct (p_chan x =? chan); [|by apply okays_ret; rewrite E3, E2].
    apply okays_setp. intros y s4 Hy E4. rewrite E4.
    assert (core_of y = core_of x) as Exy by (destruct Hx, Hy; congruence).
    change (core_of (set_p_state RUNNABLE y)) with (mkC RUNNABLE (c_pid (core_of y)) (c_parent (core_of y))). rewrite Exy.
    apply woken_put; [by rewrite E3, E2|done|done].
  - intros [] s4 W4. apply okays_bind, okays_keeps; [keep|]. intros _ s5 E5. apply okays_ret. by rewrite E5.
Qed.
Lemma woken_at v v' p c :
  woken v v' → v_at v p c → ∃ c', v_at v' p c' ∧ c_pid c' = c_pid c ∧ c_parent c' = c_parent c ∧
    (alive (c_state c) → alive (c_state c')) ∧ (c_state c ≠ SLEEPING → c' = c).
Proof.
  intros (_ & _ & _ & _ & H) [Hp Hc]. destruct (H _ _ Hc) as (c' & Hc' & [->|[Hs ->]]).
  - exists c. by split_and!.
  - eexists. split; [by split|]. by split_and!.
Qed.

Lemma woken_back v v' k c' :
  woken v v' → v_table v' !! k = Some c' → ∃ c, v_table v !! k = Some c ∧ c_pid c' = c_pid c ∧ c_parent c' = c_parent c ∧
    (c_state c = UNUSED ↔ c_state c' = UNUSED) ∧ (c_state c = RUNNING ↔ c_state c' = RUNNING).
Proof.
  intros (_ & _ & _ & Hl & H) Hc'. destruct (v_table v !! k) as [c|] eqn:E.
  - destruct (H _ _ E) as (d & Hd & [Hd2|[Hs Hd2]]); rewrite Hd in Hc'; injection Hc' as <-; exists c; rewrite Hd2.
    + by split_and!.
    + rewrite Hs. by split_and!.
  - apply lookup_ge_None in E. apply lookup_lt_Some in Hc'. lia.
Qed.

Lemma tree_woken v v' : tree_inv v → woken v v' → tree_inv v'.
Proof.
  intros [T1 T2 T3 T4 T5 T6 Tf T7 T8 T9] W. pose proof W as (H1 & H2 & H3 & H4 & _).
  split.
  - by rewrite H4.
  - intros k c' Hc' Hs. destruct (woken_back _ _ _ _ W Hc') as (c & Hc & -> & -> & Hu & _). apply (T2 _ _ Hc). tauto.
  - intros k c' Hc' Hs. destruct (woken_back _ _ _ _ W Hc') as (c & Hc & -> & _ & Hu & _). rewrite H1. apply (T3 _ _ Hc). tauto.
  - intros k k' c d Hc Hd Hs Hs' E. destruct (woken_back _ _ _ _ W Hc) as (c0 & Hc0 & E1 & _ & Hu & _).
    destruct (woken_back _ _ _ _ W Hd) as (d0 & Hd0 & E2 & _ & Hu' & _). eapply T4; [exact Hc0|exact Hd0|tauto|tauto|congruence].
  - intros k c' Hc' Hs Hi. destruct (woken_back _ _ _ _ W Hc') as (c & Hc & Ec & -> & Hu & _). rewrite H2 in Hi.
    destruct (T5 _ _ Hc) as (d & Hd & Ha & Hlt); [tauto|done|]. destruct (woken_at _ _ _ _ W Hd) as (d' & Hd' & Ep & _ & Ha' & _).
    exists d'. rewrite Ep, Ec. auto.
  - destruct T6 as (d & Hd & Ha & Hr). rewrite H2. destruct (woken_at _ _ _ _ W Hd) as (d' & Hd' & _ & Er & Ha' & _). exists d'. rewrite Er. auto.
  - intros k c' e' Hc' Hs Hi He'. destruct (woken_back _ _ _ _ W Hc') as (c & Hc & -> & _ & Hu & _). rewrite H2 in *.
    destruct T6 as (d & Hd & _). destruct (woken_at _ _ _ _ W Hd) as (d' & Hd' & Ep & _). rewrite (v_at_eq _ _ _ _ He' Hd'), Ep.
    eapply Tf; [exact Hc|tauto|done|done].
  - by rewrite H1.
  - intros k c' Hc' Hs. destruct (woken_back _ _ _ _ W Hc') as (c & Hc & _ & _ & _ & Hr). rewrite H3. apply (T8 _ _ Hc). tauto.
  - rewrite H3. destruct T9 as [T9|(d & Hd & Hs)]; [by left|right].
    destruct (woken_at _ _ _ _ W Hd) as (d' & Hd' & _ & _ & _ & Hsame). exists d'. rewrite Hsame in * by by rewrite Hs. done.
Qed.

Lemma okays_kill pid s (Q : Z → pst F → Prop) :
  (∀ r s', woken (view_of s) (view_of s') → Q r s') → okays (kill pid) s Q.
Proof.
  intros HQ. unfold kill. apply (okays_for_procs _ _ (λ _ s', view_of s' = view_of s)); [|done|].
  2: { intros s' E. apply HQ. rewrite E. apply woken_refl. }
  intros p s1 _ E1. apply okays_bind, okays_keeps; [keep|]. intros _ s2 E2. apply okays_bind, okays_getp. intros x Hx.
  destruct (p_pid x =? pid).
  - apply okays_bind, okays_keeps; [keep|]. intros _ s3 E3. apply okays_bind.
    eapply (okays_mono _ _ (λ _ s', woken (view_of s) (view_of s'))).
    + unfold is_state. case_bool_decide as Hst; [|apply okays_ret; rewrite E3, E2, E1; apply woken_refl].
      apply okays_setp. intros y s4 Hy E4. rewrite E4. rewrite E3 in Hy.
      assert (core_of y = core_of x) as Exy by (destruct Hx, Hy; congruence).
      change (core_of (set_p_state RUNNABLE y)) with (mkC RUNNABLE (c_pid (core_of y)) (c_parent (core_of y))). rewrite Exy.
      rewrite E3, E2, E1 in *. apply woken_put; [apply woken_refl|congruence|done].
    + intros [] s4 W4. apply okays_bind, okays_keeps; [keep|]. intros _ s5 E5. apply okays_ret, HQ. by rewrite E5.
  - apply okays_bind, okays_keeps; [keep|]. intros _ s3 E3. apply okays_ret. congruence.
Qed.

(** ** Creation and end of processes *)

Lemma okays_freeproc p s (Q : unit → pst F → Prop) :
  (∀ s', view_of s' = put p (mkC UNUSED 0 0) (view_of s) → Q tt s') → okays (freeproc kend p) s Q.
Proof.
  intros HQ. unfold freeproc. apply okays_bind, okays_getp. intros x Hx.
  apply okays_bind, okays_keeps; [keep|]. intros _ s1 E1.
  apply okays_bind, okays_keeps; [keep|]. intros _ s2 E2.
  apply okays_bind, okays_keeps; [unfold proc_freepagetable; keep|]. intros _ s3 E3.
  apply okays_bind, okays_keeps; [keep|]. intros _ s4 E4.
  apply okays_bind, okays_setp. intros x5 s5 Hx5 E5.
  apply okays_bind, okays_setp. intros x6 s6 Hx6 E6.
  apply okays_bind, okays_keeps; [keep|]. intros _ s7 E7.
  apply okays_bind, okays_keeps; [keep|]. intros _ s8 E8.
  apply okays_bind, okays_keeps; [keep|]. intros _ s9 E9.
  apply okays_bind, okays_keeps; [keep|]. intros _ s10 E10.
  apply okays_setp. intros x11 s11 Hx11 E11. apply HQ. rewrite E11.
  rewrite E10, E9, E8, E7, E6, E5, !put_put in *.
  assert (Ecore : core_of x11 = core_of (set_p_parent 0 x6)).
  { pose proof (put_at p _ (core_of (set_p_parent 0 x6)) _ Hx5) as [_ H]. destruct Hx11 as [_ H']. congruence. }
  assert (Ecore' : core_of x6 = core_of (set_p_pid 0 x5)).
  { pose proof (put_at p _ (core_of (set_p_pid 0 x5)) _ Hx5) as [_ H]. destruct Hx6 as [_ H']. congruence. }
  f_equal; [|congruence]. unfold core_of in *. simpl in *. congruence.
Qed.
(** allocproc takes an unused slot, or leaves all of them unused. *)
Definition allocates (v : view) (r : Z) (v' : view) : Prop :=
  (r = 0 ∧ v' = v) ∨
  ∃ p c, v_at v p c ∧ c_state c = UNUSED ∧
    (r = 0 ∧ v' = bump (put p (mkC UNUSED 0 0) v) ∨ r = p ∧ v' = bump (put p (mkC USED (v_nextpid v) (c_parent c)) v)).

Lemma bump_put p c v : put p c (bump v) = bump (put p c v).
Proof. done. Qed.

Lemma okays_allocpid s (Q : Z → pst F → Prop) :
  0 < nextpid s < 2 ^ 31 - 1 →
  (∀ s', view_of s' = bump (view_of s) → Q (nextpid s) s') → okays allocpid s Q.
Proof.
  intros Hn HQ. unfold allocpid. apply okays_bind, okays_keeps; [keep|]. intros _ s1 E1.
  apply okays_bind, okays_gets. apply okays_bind, okays_modify. apply okays_bind, okays_keeps; [keep|].
  intros _ s2 E2. apply okays_ret. injection E1 as Et En Ei Ec. rewrite En. apply HQ. rewrite E2.
  unfold view_of, bump. simpl. rewrite En, s32_small by lia. congruence.
Qed.

Lemma okays_allocproc s (Q : Z → pst F → Prop) :
  0 < nextpid s < 2 ^ 31 - 1 →
  (∀ r s', allocates (view_of s) r (view_of s') → Q r s') → okays (allocproc kend trampoline forkret) s Q.
Proof.
  intros Hn HQ. unfold allocproc. apply okays_bind.
  eapply (okays_mono _ _ (λ p s', view_of s' = view_of s ∧ (p = 0 ∨ ∃ c, v_at (view_of s) p c ∧ c_state c = UNUSED))).
  { apply (okays_for_procs _ _ (λ _ s', view_of s' = view_of s)); [|done|intros s' E; split; [done|by left]].
    intros p s1 Hp E1. apply okays_bind, okays_keeps; [keep|]. intros _ s2 E2. apply okays_bind, okays_getp. intros x Hx.
    unfold is_state. case_bool_decide as Hst.
    - apply okays_ret. split; [congruence|]. right. exists (core_of x). rewrite E2, E1 in Hx. done.
    - apply okays_bind, okays_keeps; [keep|]. intros _ s3 E3. apply okays_ret. congruence. }
  intros p s1 [E1 Hp]. destruct (Z.eqb_spec p 0) as [->|Hp0]; [apply okays_ret, HQ; left; by rewrite E1|].
  destruct Hp as [?|(c & Hc & Hst)]; [done|].
  assert (En : nextpid s1 = nextpid s) by by injection E1.
  apply okays_bind, okays_allocpid; [lia|]. intros s2 E2. rewrite En.
  apply okays_bind, okays_setp. intros x3 s3 Hx3 E3. apply okays_bind, okays_setp. intros x4 s4 Hx4 E4.
  assert (V4 : view_of s4 = bump (put p (mkC USED (nextpid s) (c_parent c)) (view_of s))).
  { rewrite E3 in Hx4. pose proof (v_at_put _ _ _ _ _ Hx3 Hx4) as C4. rewrite E2, E1 in Hx3.
    pose proof (v_at_eq _ _ _ _ Hc Hx3) as C3. rewrite E4, E3, E2, E1, put_put, bump_put. do 2 f_equal.
    destruct c, x3, x4. unfold core_of in *. simpl in *. congruence. }
  assert (Hfail : ∀ s5, view_of s5 = view_of s4 → okays (freeproc kend p ;;; release_p p ;;; ret 0) s5 Q).
  { intros s5 E5. apply okays_bind, okays_freeproc. intros s6 E6. apply okays_bind, okays_keeps; [keep|]. intros _ s7 E7.
    apply okays_ret, HQ. right. exists p, c. split_and!; [done|done|]. left. split; [done|].
    by rewrite E7, E6, E5, V4, bump_put, put_put. }
  apply okays_bind, okays_keeps; [keep|]. intros tf s5 E5. apply okays_bind, okays_keeps; [keep|]. intros _ s6 E6.
  destruct (tf =? 0); [apply Hfail; congruence|].
  apply okays_bind, okays_keeps; [unfold proc_pagetable; keep|]. intros pt s7 E7. apply okays_bind, okays_keeps; [keep|]. intros _ s8 E8.
  destruct (pt =? 0); [apply Hfail; congruence|].
  apply okays_bind, okays_keeps; [keep|]. intros _ s9 E9. apply okays_ret, HQ. right. exists p, c.
  split_and!; [done|done|]. right. split; [done|]. by rewrite E9, E8, E7, E6, E5, V4.
Qed.

Lemma keeps_iter {A B} fuel (body : A → K (pst F) (A + B)) a : (∀ a, keeps (body a)) → keeps (iter fuel body a).
Proof.
  intros Hb s. apply (okays_iter _ _ (λ _ s', view_of s' = view_of s)); [|done].
  intros a' s' E. eapply okays_mono; [apply Hb|]. intros [?|?] s'' E'; congruence.
Qed.

Lemma keeps_fork_files p np : keeps (fork_files p np).
Proof. apply keeps_iter. intros i. keep. Qed.
Lemma keeps_close_files p : keeps (close_files p).
Proof. apply keeps_iter. intros i. keep. Qed.
#[local] Hint Resolve keeps_fork_files keeps_close_files : tree.

Lemma tree_allocates_fail v v' : tree_inv v → allocates v 0 v' → tree_inv v'.
Proof.
  intros T [[_ ->]|(p & c & Hc & Hs & [[_ ->]|[Hp _]])]; [done| |destruct Hc; lia].
  apply tree_bump. eapply tree_put_unused; done.
Qed.

Lemma okays_fork s (Q : Z → pst F → Prop) :
  tree_inv (view_of s) → nextpid s < 2 ^ 31 - 1 → cur s ≠ 0 →
  (∀ r s', tree_inv (view_of s') → Q r s') → okays (fork kend trampoline forkret) s Q.
Proof.
  intros T Hn Hcur HQ. pose proof (tr_next _ T) as Hpos. simpl in Hpos. unfold fork.
  apply okays_bind, okays_myproc. intros s1 E1. injection E1 as Et1 En1 Ei1 Ec1.
  assert (E1 : view_of s1 = view_of s) by (unfold view_of; congruence).
  apply okays_bind, okays_allocproc; [lia|]. intros np s2 Ha. rewrite E1 in Ha.
  destruct (Z.eqb_spec np 0) as [->|Hnp]; [apply okays_ret, HQ; by eapply tree_allocates_fail|].
  destruct Ha as [[? _]|(p & c & Hc & Hst & [[? _]|[-> V2]])]; [done|done|].
  apply okays_bind, okays_getp. intros x Hx. apply okays_bind, okays_getp. intros y Hy.
  apply okays_bind, okays_keeps; [keep|]. intros r s3 E3. destruct (r <? 0).
  { apply okays_bind, okays_freeproc. intros s4 E4. apply okays_bind, okays_keeps; [keep|]. intros _ s5 E5.
    apply okays_ret, HQ. rewrite E5, E4, E3, V2, bump_put, put_put. apply tree_bump. eapply tree_put_unused; done. }
  do 3 (apply okays_bind, okays_keeps; [keep|]; intros ? ? ?).
  apply okays_bind, okays_keeps; [keep|]. intros ? s7 E7. apply okays_bind, okays_keeps; [keep|]. intros ? s8 E8.
  apply okays_bind, okays_keeps; [keep|]. intros ? s9 E9. apply okays_bind, okays_keeps; [keep|]. intros ? s10 E10.
  apply okays_bind, okays_getp. intros z Hz. apply okays_bind, okays_keeps; [keep|]. intros ? s11 E11.
  apply okays_bind, okays_keeps; [keep|]. intros ? s12 E12. apply okays_bind, okays_setp. intros w s13 Hw E13.
  apply okays_bind, okays_keeps; [keep|]. intros ? s14 E14. apply okays_bind, okays_keeps; [keep|]. intros ? s15 E15.
  apply okays_bind, okays_setp. intros u s16 Hu E16. apply okays_bind, okays_keeps; [keep|]. intros ? s17 E17.
  apply okays_ret, HQ.
  assert (V12 : view_of s12 = view_of s2) by congruence. rewrite V2 in V12. change (v_nextpid (view_of s)) with (nextpid s) in V12.
  assert (Hcw : core_of w = mkC USED (nextpid s) (c_parent c)).
  { rewrite V12 in Hw. by eapply (v_at_put (view_of s)). }
  assert (Hcu : core_of u = mkC USED (nextpid s) (cur s)).
  { rewrite E15, E14, E13 in Hu. pose proof (v_at_put _ _ _ _ _ Hw Hu) as C. destruct w, u. unfold core_of in *. simpl in *. congruence. }
  rewrite E17, E16, E15, E14, E13, V12, !bump_put, !put_put.
  apply (tree_put_new _ _ c); try done; destruct u; unfold core_of in *; simpl in *; congruence.
Qed.
(** ** exit *)

(** A process keeps its parent. *)
Lemma tree_same_parent v p c :
  tree_inv v → v_at v p c → c_state c ≠ UNUSED →
  (p ≠ v_init v → ∃ d, v_at v (c_parent c) d ∧ alive (c_state d) ∧ c_pid d < c_pid c) ∧ (p = v_init v → c_parent c = 0).
Proof.
  intros T Hc Hu. split.
  - intros Hne. destruct Hc as [? Hc]. apply (tr_parent _ T _ _ Hc Hu). unfold pidx. lia.
  - intros ->. destruct (tr_init _ T) as (d & Hd & _ & Hr). by rewrite (v_at_eq _ _ _ _ Hc Hd).
Qed.

Lemma view_cur s v : view_of s = v → cur s = v_cur v.
Proof. by intros <-. Qed.

(** Only the hart's process runs. *)
Lemma tree_running v p c : tree_inv v → v_at v p c → (c_state c = RUNNING ↔ p = v_cur v).
Proof.
  intros T [Hp Hc]. split.
  - intros E. pose proof (tr_running _ T _ _ Hc E). unfold pidx in *. lia.
  - intros ->. destruct (tr_cur _ T) as [E|(d & [_ Hd] & Hs)]; [lia|]. congruence.
Qed.

Lemma with_cur_same v : with_cur (v_cur v) v = v.
Proof. by destruct v. Qed.

(** The state of reparent(p) at [pp]. *)
Definition adopted (p : Z) (v : view) (pp : Z) (v' : view) : Prop :=
  tree_inv v' ∧ v_init v' = v_init v ∧ v_cur v' = v_cur v ∧
  ∀ k d, (k < pidx pp)%nat → v_table v' !! k = Some d → c_parent d ≠ p.

Lemma adopted_put p v pp v' c :
  adopted p v pp v' → 0 < p → p ≠ v_init v → v_at v' pp c → c_parent c = p →
  adopted p v (pp + 1) (put pp (mkC (c_state c) (c_pid c) (v_init v)) v').
Proof.
  intros (T & Ei & Ec & Hno) Hp Hpi Hc Hpar. split_and!; try done.
  - assert (c_state c ≠ UNUSED) as Hu.
    { intros E. destruct Hc as [_ Hc]. destruct (tr_unused _ T _ _ Hc E). lia. }
    rewrite <-(with_cur_same (put _ _ _)). apply (tree_put v' pp c); try done; simpl.
    + left. split; [done|]. by apply (tree_running _ _ _ T).
    + intros Hne. rewrite <-Ei. destruct (tr_init _ T) as (d & Hd & Ha & _). exists d. split; [done|]. split; [done|].
      destruct Hc as [Hpp Hc]. apply (tr_first _ T _ _ _ Hc Hu); [unfold pidx; lia|done].
    + intros E. exfalso. destruct (tr_init _ T) as (d & Hd & _ & Hr). rewrite <-E in Hd. rewrite (v_at_eq _ _ _ _ Hc Hd) in Hpar. lia.
    + intros E. by left.
  - intros k d Hk [[-> ->]|[Hne Hd]]%list_insert_cases; simpl; [done|]. apply (Hno k); [|done].
    destruct Hc as [? _]. unfold pidx in *. lia.
Qed.

Lemma adopted_woken p v pp v1 v2 : adopted p v pp v1 → woken v1 v2 → adopted p v pp v2.
Proof.
  intros (T & Ei & Ec & Hno) W. pose proof W as (_ & H2 & H3 & _). split_and!; [by eapply tree_woken|congruence..|].
  intros k d Hk Hd. destruct (woken_back _ _ _ _ W Hd) as (c & Hc & _ & -> & _). by eapply Hno.
Qed.

Lemma adopted_skip p v pp v' c : adopted p v pp v' → v_at v' pp c → c_parent c ≠ p → adopted p v (pp + 1) v'.
Proof.
  intros (T & Ei & Ec & Hno) [Hp Hc] Hne. split_and!; try done. intros k d Hk Hd.
  destruct (decide (k = pidx pp)) as [->|]; [congruence|]. apply (Hno k); [|done]. unfold pidx in *. lia.
Qed.

Lemma okays_reparent p s (Q : unit → pst F → Prop) :
  tree_inv (view_of s) → 0 < p → p ≠ initproc s →
  (∀ s', adopted p (view_of s) (1 + NPROC) (view_of s') → Q tt s') → okays (reparent p) s Q.
Proof.
  intros T Hp Hpi HQ. unfold reparent.
  apply (okays_for_procs _ _ (λ pp s', adopted p (view_of s) pp (view_of s'))); [| |done].
  2: { split_and!; try done. intros k d Hk. unfold pidx in Hk. lia. }
  intros pp s1 _ A. apply okays_bind, okays_getp. intros x Hx. destruct (Z.eqb_spec (p_parent x) p) as [E|E].
  - apply okays_bind, okays_gets, okays_bind, okays_setp. intros y s2 Hy E2.
    pose proof (v_at_eq _ _ _ _ Hx Hy) as Exy. apply okays_bind, okays_wakeup. intros s3 W. apply okays_ret.
    eapply adopted_woken; [|exact W]. rewrite E2.
    assert (Ei : initproc s1 = v_init (view_of s)) by apply A. simpl in Ei.
    change (core_of (set_p_parent (initproc s1) y)) with (mkC (c_state (core_of y)) (c_pid (core_of y)) (initproc s1)).
    rewrite <-Exy, Ei. by apply adopted_put.
  - apply okays_ret. by eapply adopted_skip.
Qed.

(** exit, with the return to the scheduler. *)
Lemma okays_exit n s (Q : unit → pst F → Prop) :
  tree_inv (view_of s) → cur s ≠ 0 →
  (∀ s', tree_inv (view_of s') → cur s' = 0 → Q tt s') →
  okays (exit n ;;; scheduler_return (cur s)) s Q.
Proof.
  intros T Hcur HQ. set (p := cur s) in *. apply okays_bind. unfold exit. apply okays_bind, okays_myproc. fold p. intros s1 E1.
  apply okays_bind, okays_gets. destruct (Z.eqb_spec p (initproc s1)) as [|Hi]; [done|].
  destruct (tr_cur _ T) as [?|(d0 & [Hp1 _] & _)]; [done|]. simpl in Hp1. fold p in Hp1.
  apply okays_bind, okays_keeps; [keep|]. intros _ s2 E2. apply okays_bind, okays_getp. intros x Hx.
  apply okays_bind, okays_keeps; [keep|]. intros _ s3 E3. apply okays_bind, okays_keeps; [keep|]. intros _ s4 E4.
  apply okays_bind, okays_keeps; [keep|]. intros _ s5 E5.
  assert (V5 : view_of s5 = view_of s) by congruence.
  apply okays_bind, okays_reparent; [by rewrite V5|lia|by injection V5 as _ _ -> _; injection E1 as _ _ <- _|].
  intros s6 A. rewrite V5 in A.
  apply okays_bind, okays_getp. intros x6 _. apply okays_bind, okays_wakeup. intros s7 W.
  pose proof (adopted_woken _ _ _ _ _ A W) as (T7 & Ei & Ec & Hno). simpl in Ec, Ei.
  apply okays_bind, okays_keeps; [keep|]. intros _ s8 E8. apply okays_bind, okays_keeps; [keep|]. intros _ s9 E9.
  apply okays_bind, okays_setp. intros y s10 Hy E10. apply okays_bind, okays_keeps; [keep|]. intros _ s11 E11.
  apply okays_keeps; [keep|]. intros _ s12 E12. unfold scheduler_return.
  apply okays_bind, okays_modify, okays_keeps; [keep|]. intros [] s13 E13.
  apply HQ; [|apply (view_cur _ _ E13)]. rewrite E13.
  change (view_of (set_cur 0 s12)) with (with_cur 0 (view_of s12)). rewrite E12, E11, E10, E9, E8.
  rewrite E9, E8 in Hy. assert (Hrun : c_state (core_of y) = RUNNING) by (apply (tree_running _ _ _ T7 Hy); simpl; by rewrite Ec).
  apply (tree_put _ _ (core_of y)); try done; simpl in *.
  - congruence.
  - right. left. split_and!; [done|simpl; by rewrite Ec|done].
  - apply (tree_same_parent _ _ (core_of y) T7 Hy). simpl. congruence.
  - apply (tree_same_parent _ _ (core_of y) T7 Hy). simpl. congruence.
  - intros _. right. split_and!; [|done|].
    + simpl. rewrite Ei. intros E. apply Hi. injection E1 as _ _ -> _. done.
    + intros k d Hd _. eapply Hno; [|exact Hd]. apply lookup_lt_Some in Hd. pose proof (tr_length _ T7) as HL. simpl in HL. unfold pidx. lia.
Qed.
(** ** Sleeping, waiting and running *)

Lemma tree_leave v p c st :
  tree_inv v → v_at v p c → p = v_cur v → st ≠ RUNNING → st ≠ UNUSED → st ≠ ZOMBIE →
  tree_inv (with_cur 0 (put p (mkC st (c_pid c) (c_parent c)) v)).
Proof.
  intros T Hc Hp H1 H2 H3. pose proof (proj2 (tree_running _ _ _ T Hc) Hp) as Hrun.
  apply (tree_put _ _ c); try done; simpl.
  - by rewrite Hrun.
  - right. by left.
  - apply (tree_same_parent _ _ _ T Hc). by rewrite Hrun.
  - apply (tree_same_parent _ _ _ T Hc). by rewrite Hrun.
Qed.

(** The process left the hart, or still has it. *)
Definition left_or_here s (r : option Z) s' : Prop :=
  cur s' = cur s ∧ match r with Some _ => tree_inv (view_of s') | None => tree_inv (with_cur 0 (view_of s')) end.

Lemma okays_sleep_enter chan rel s (Q : unit → pst F → Prop) :
  tree_inv (view_of s) → keeps rel →
  (∀ s', cur s' = cur s → tree_inv (with_cur 0 (view_of s')) → Q tt s') → okays (sleep_enter chan rel) s Q.
Proof.
  intros T Hrel HQ. unfold sleep_enter. apply okays_bind, okays_myproc. intros s1 E1.
  apply okays_bind, okays_keeps; [keep|]. intros _ s2 E2. apply okays_bind, okays_keeps; [done|]. intros _ s3 E3.
  apply okays_bind, okays_keeps; [keep|]. intros _ s4 E4. apply okays_bind, okays_setp. intros x s5 Hx E5.
  apply okays_keeps; [keep|]. intros [] s6 E6.
  assert (V4 : view_of s4 = view_of s) by congruence. rewrite V4 in *.
  apply HQ; [by rewrite (view_cur _ _ E6), E5|]. rewrite E6, E5.
  by apply (tree_leave (view_of s) (cur s) (core_of x)).
Qed.

Lemma okays_return p s (Q : unit → pst F → Prop) :
  (∀ s', view_of s' = with_cur 0 (view_of s) → Q tt s') → okays (scheduler_return p) s Q.
Proof.
  intros HQ. unfold scheduler_return. apply okays_bind, okays_modify, okays_keeps; [keep|]. intros [] s' E. by apply HQ.
Qed.

Lemma okays_wait_scan p addr s (Q : waited → pst F → Prop) :
  tree_inv (view_of s) → (∀ r s', cur s' = cur s → tree_inv (view_of s') → Q r s') →
  okays (wait_scan kend xstate_at p addr) s Q.
Proof.
  intros T HQ. unfold wait_scan. apply (okays_iter _ _ (λ _ s', view_of s' = view_of s)); [|done].
  intros [pp kids] s1 E1. assert (HQ' : ∀ r s', view_of s' = view_of s → Q r s').
  { intros r s' E. apply HQ; [exact (view_cur _ _ E)|by rewrite E]. }
  destruct (pp <? 1 + NPROC); [|by apply okays_ret, HQ'].
  apply okays_bind, okays_getp. intros x Hx. destruct (p_parent x =? p); [|by apply okays_ret].
  apply okays_bind, okays_keeps; [keep|]. intros _ s2 E2. apply okays_bind, okays_getp. intros y Hy.
  unfold is_state. case_bool_decide as Hz.
  - apply okays_bind, okays_keeps; [keep|]. intros me s3 E3.
    apply okays_bind, okays_keeps; [unfold copyout_xstate; keep|]. intros r s4 E4. destruct (r <? 0).
    + apply okays_bind, okays_keeps; [keep|]. intros _ s5 E5. apply okays_ret, HQ'. congruence.
    + apply okays_bind, okays_freeproc. intros s5 E5. apply okays_bind, okays_keeps; [keep|]. intros _ s6 E6.
      assert (V4 : view_of s4 = view_of s) by congruence. rewrite V4 in E5. rewrite E2, E1 in Hy.
      apply okays_ret, HQ; [by rewrite (view_cur _ _ E6), E5|]. rewrite E6, E5.
      by apply (tree_put_free _ _ (core_of y)).
  - apply okays_bind, okays_keeps; [keep|]. intros _ s3 E3. apply okays_ret. congruence.
Qed.

Lemma okays_wait_round addr s (Q : option Z → pst F → Prop) :
  tree_inv (view_of s) → (∀ r s', left_or_here s r s' → Q r s') → okays (wait_round kend xstate_at addr) s Q.
Proof.
  intros T HQ. unfold wait_round. apply okays_bind, okays_gets, okays_bind, okays_wait_scan; [done|]. intros r s1 Ec T1.
  assert (Hrel : ∀ z s2, view_of s2 = view_of s1 → okays (release wait_lock set_wait_lock ;;; ret (Some z)) s2 Q).
  { intros z s2 E. apply okays_bind, okays_keeps; [keep|]. intros _ s3 E3. apply okays_ret, HQ.
    split; [rewrite (view_cur _ _ E3), E; exact Ec|by rewrite E3, E]. }
  destruct r as [pid| |kids]; [by apply Hrel..|].
  apply okays_bind. eapply okays_mono; [apply (okays_keeps _ _ (λ _ s2, view_of s2 = view_of s1)); [unfold killed; keep|done]|].
  intros stop s2 E2. destruct stop; [by apply Hrel|].
  apply okays_bind, okays_sleep_enter; [by rewrite E2|keep|]. intros s3 Ec3 T3. apply okays_ret, HQ.
  split; [|done]. rewrite Ec3, (view_cur _ _ E2). exact Ec.
Qed.

Lemma okays_sleep_round t n s (Q : option Z → pst F → Prop) :
  tree_inv (view_of s) → (∀ r s', left_or_here s r s' → Q r s') → okays (sys_sleep_round t n) s Q.
Proof.
  intros T HQ. unfold sys_sleep_round. apply okays_bind, okays_gets.
  assert (Hrel : ∀ z s2, view_of s2 = view_of s → okays (release tickslock set_tickslock ;;; ret (Some z)) s2 Q).
  { intros z s2 E. apply okays_bind, okays_keeps; [keep|]. intros _ s3 E3. apply okays_ret, HQ.
    split; [rewrite (view_cur _ _ E3), E; done|by rewrite E3, E]. }
  destruct (_ <? _); [|by apply Hrel].
  apply okays_bind, okays_myproc. intros s1 E1. apply okays_bind, okays_keeps; [unfold killed; keep|]. intros k s2 E2.
  destruct (negb _); [apply Hrel; congruence|].
  apply okays_bind, okays_sleep_enter; [by rewrite E2, E1|keep|]. intros s3 Ec3 T3. apply okays_ret, HQ.
  split; [|done]. rewrite Ec3, (view_cur _ _ E2), E1. done.
Qed.

Lemma okays_try p s (Q : bool → pst F → Prop) :
  tree_inv (view_of s) → cur s = 0 →
  (∀ b s', tree_inv (view_of s') → (b = true → cur s' = p) → (b = false → cur s' = 0) → Q b s') →
  okays (scheduler_try p) s Q.
Proof.
  intros T Hc HQ. unfold scheduler_try. apply okays_bind, okays_keeps; [keep|]. intros _ s1 E1.
  apply okays_bind, okays_getp. intros x Hx. unfold is_state. case_bool_decide as Hst.
  - apply okays_bind, okays_setp. intros y s2 Hy E2. apply okays_bind, okays_modify, okays_ret.
    pose proof (v_at_eq _ _ _ _ Hx Hy) as Exy. apply HQ; [|done|done].
    change (view_of (set_cur p s2)) with (with_cur p (view_of s2)). rewrite E2, E1. rewrite E1 in Hx.
    change (core_of (set_p_state RUNNING y)) with (mkC RUNNING (c_pid (core_of y)) (c_parent (core_of y))). rewrite <-Exy.
    apply (tree_put _ _ (core_of x)); try done; simpl.
    + by rewrite Hst.
    + right. right. by split_and!.
    + apply (tree_same_parent _ _ _ T Hx). simpl. by rewrite Hst.
    + apply (tree_same_parent _ _ _ T Hx). simpl. by rewrite Hst.
  - apply okays_bind, okays_keeps; [keep|]. intros _ s2 E2. apply okays_ret, HQ; [by rewrite E2, E1|done|].
    intros _. by rewrite (view_cur _ _ E2), E1.
Qed.
(** ** Reachable tables *)

(** Where a process that the scheduler runs again had stopped. *)
Inductive stopped := AfterYield | InWait (addr : Z) | InSleep (ticks0 n : Z).

Definition continue_at (w : stopped) : K (pst F) (option Z) :=
  match w with
  | AfterYield => yield_leave ;;; ret (Some 0)
  | InWait addr => wait_again kend xstate_at addr
  | InSleep ticks0 n => sleep_leave (acquire tickslock set_tickslock) ;;; sys_sleep_round ticks0 n
  end.

(** A call that returned goes on; one that sleeps gives the hart back. *)
Definition settled (p : Z) (m : K (pst F) (option Z)) : K (pst F) unit :=
  r <- m ;;; match r with Some _ => ret tt | None => scheduler_return p end.

(** The kernel's steps, each up to the next switch to the scheduler. *)
Inductive pstep (s : pst F) : pst F → Prop :=
| step_fork r s' : cur s ≠ 0 → nextpid s < 2 ^ 31 - 1 → sys_fork kend trampoline forkret s = Ok r s' → pstep s s'
| step_exit n s' : cur s ≠ 0 → (sys_exit n ;;; scheduler_return (cur s)) s = Ok tt s' → pstep s s'
| step_wait addr s' : cur s ≠ 0 → settled (cur s) (sys_wait kend xstate_at addr) s = Ok tt s' → pstep s s'
| step_sleep n s' : cur s ≠ 0 → settled (cur s) (sys_sleep n) s = Ok tt s' → pstep s s'
| step_yield s' : cur s ≠ 0 → (yield ;;; scheduler_return (cur s)) s = Ok tt s' → pstep s s'
| step_kill pid r s' : sys_kill pid s = Ok r s' → pstep s s'
| step_wakeup chan s' : wakeup chan s = Ok tt s' → pstep s s'
| step_clock s' : clockintr s = Ok tt s' → pstep s s'
| step_run p w s' : cur s = 0 →
    (b <- scheduler_try p ;;; if (b : bool) then settled p (continue_at w) else ret tt) s = Ok tt s' → pstep s s'.

Lemma okays_settled m s (Q : unit → pst F → Prop) :
  okays m s (left_or_here s) → (∀ s', tree_inv (view_of s') → Q tt s') → okays (settled (cur s) m) s Q.
Proof.
  intros Hm HQ. unfold settled. apply okays_bind. eapply okays_mono; [exact Hm|]. intros [r|] s1 [Ec T].
  - by apply okays_ret, HQ.
  - apply okays_return. intros s2 E2. apply HQ. by rewrite E2.
Qed.

Lemma left_or_here_ext s s1 r s2 : view_of s1 = view_of s → left_or_here s1 r s2 → left_or_here s r s2.
Proof. intros E [Ec T]. split; [|done]. rewrite Ec, (view_cur _ _ E). done. Qed.

Lemma keeps_sleep_leave acq : keeps acq → keeps (sleep_leave acq).
Proof.
  intros H. unfold sleep_leave, sched_resume. apply keeps_seq; [|intros ?; keep].
  keep. by apply keeps_modify.
Qed.

Lemma okays_continue w s : tree_inv (view_of s) → okays (continue_at w) s (left_or_here s).
Proof.
  intros T. destruct w as [|addr|t n]; simpl.
  - apply okays_bind, okays_keeps; [unfold yield_leave, sched_resume; keep; by apply keeps_modify|].
    intros _ s1 E1. apply okays_ret. split; [exact (view_cur _ _ E1)|by rewrite E1].
  - unfold wait_again. apply okays_bind, okays_keeps; [apply keeps_sleep_leave; keep|]. intros _ s1 E1.
    apply okays_wait_round; [by rewrite E1|]. intros r s2 L. by eapply left_or_here_ext.
  - apply okays_bind, okays_keeps; [apply keeps_sleep_leave; keep|]. intros _ s1 E1.
    apply okays_sleep_round; [by rewrite E1|]. intros r s2 L. by eapply left_or_here_ext.
Qed.

Lemma pstep_tree s s' : tree_inv (view_of s) → pstep s s' → tree_inv (view_of s').
Proof.
  intros T Hstep. destruct Hstep as [r s' Hc Hn E|n s' Hc E|addr s' Hc E|n s' Hc E|s' Hc E|pid r s' E|chan s' E|s' E|p w s' Hc E].
  - eapply (okays_Ok _ _ _ _ (λ _ s', tree_inv (view_of s'))); [|exact E]. by apply okays_fork.
  - eapply (okays_Ok _ _ _ _ (λ _ s', tree_inv (view_of s'))); [|exact E]. by apply okays_exit.
  - eapply (okays_Ok _ _ _ _ (λ _ s', tree_inv (view_of s'))); [|exact E]. apply okays_settled; [|done].
    unfold sys_wait, wait. apply okays_bind, okays_keeps; [unfold myproc; keep|]. intros _ s1 E1.
    apply okays_bind, okays_keeps; [keep|]. intros _ s2 E2. apply okays_wait_round; [by rewrite E2, E1|].
    intros r s3. apply left_or_here_ext. congruence.
  - eapply (okays_Ok _ _ _ _ (λ _ s', tree_inv (view_of s'))); [|exact E]. apply okays_settled; [|done].
    unfold sys_sleep. apply okays_bind, okays_keeps; [keep|]. intros _ s1 E1. apply okays_bind, okays_gets.
    apply okays_sleep_round; [by rewrite E1|]. intros r s3. by apply left_or_here_ext.
  - eapply (okays_Ok _ _ _ _ (λ _ s', tree_inv (view_of s'))); [|exact E]. unfold yield. apply okays_bind.
    apply okays_bind, okays_myproc. intros s1 E1. apply okays_bind, okays_keeps; [keep|]. intros _ s2 E2.
    apply okays_bind, okays_setp. intros x s3 Hx E3. apply okays_keeps; [keep|]. intros _ s4 E4.
    apply okays_return. intros s5 E5. rewrite E5, E4, E3. rewrite E2, E1 in *.
    by apply (tree_leave (view_of s) (cur s) (core_of x)).
  - eapply (okays_Ok _ _ _ _ (λ _ s', tree_inv (view_of s'))); [|exact E]. apply okays_kill. intros r' s1 W. by eapply tree_woken.
  - eapply (okays_Ok _ _ _ _ (λ _ s', tree_inv (view_of s'))); [|exact E]. apply okays_wakeup. intros s1 W. by eapply tree_woken.
  - eapply (okays_Ok _ _ _ _ (λ _ s', tree_inv (view_of s'))); [|exact E]. unfold clockintr.
    apply okays_bind, okays_keeps; [keep|]. intros _ s1 E1. apply okays_bind, okays_modify, okays_bind, okays_wakeup. intros s2 W.
    apply okays_keeps; [keep|]. intros _ s3 E3. rewrite E3. eapply tree_woken; [exact T|]. rewrite <-E1. exact W.
  - eapply (okays_Ok _ _ _ _ (λ _ s', tree_inv (view_of s'))); [|exact E]. apply okays_bind, okays_try; [done|done|].
    intros [] s1 T1 H1 H2; [|by apply okays_ret]. rewrite <-(H1 eq_refl). apply okays_settled; [by apply okays_continue|done].
Qed.

(** The table that userinit leaves: one process, init, ready to run. *)
Definition first_process s : Prop := ∃ p, 1 <= p <= NPROC ∧
  view_of s = mkV (<[pidx p := mkC RUNNABLE 1 0]> (replicate (Z.to_nat NPROC) (mkC UNUSED 0 0))) 2 p 0.

Lemma first_process_tree s : first_process s → tree_inv (view_of s).
Proof.
  intros (q & Hq & ->). set (c' := mkC RUNNABLE 1 0). assert (Hq' : Z.of_nat (pidx q) + 1 = q) by (unfold pidx; lia).
  assert (Hcases : ∀ k d, <[pidx q := c']> (replicate (Z.to_nat NPROC) (mkC UNUSED 0 0)) !! k = Some d →
    k = pidx q ∧ d = c' ∨ d = mkC UNUSED 0 0).
  { intros k d [[-> ->]|[? Hd]]%list_insert_cases; [by left|right]. by apply lookup_replicate in Hd as [-> _]. }
  split; cbn [v_table v_nextpid v_init v_cur].
  - by rewrite length_insert, length_replicate.
  - intros k d Hd. destruct (Hcases k d Hd) as [[-> ->]| ->]; done.
  - intros k d Hd. destruct (Hcases k d Hd) as [[-> ->]| ->]; simpl; [lia|done].
  - intros k k' d d' Hd Hd'. destruct (Hcases k d Hd) as [[-> ->]| ->], (Hcases k' d' Hd') as [[-> ->]| ->]; done.
  - intros k d Hd. destruct (Hcases k d Hd) as [[-> ->]| ->]; [by rewrite Hq'|done].
  - exists c'. split; [|done]. split; [apply Hq|]. cbn [v_table]. rewrite list_lookup_insert, decide_True; [done|].
    split; [done|]. rewrite length_replicate. unfold pidx. lia.
  - intros k d e Hd. destruct (Hcases k d Hd) as [[-> ->]| ->]; [by rewrite Hq'|done].
  - lia.
  - intros k d Hd. destruct (Hcases k d Hd) as [[-> ->]| ->]; done.
  - by left.
Qed.

(** userinit, on the table that procinit leaves, makes the first process. *)
Lemma okays_userinit s (Q : unit → pst F → Prop) :
  core_of <$> procs s = replicate (Z.to_nat NPROC) (mkC UNUSED 0 0) → nextpid s = 1 → cur s = 0 →
  (∀ s', first_process s' → Q tt s') → okays (userinit kend trampoline forkret initcode) s Q.
Proof.
  intros Hall Hn Hc HQ. unfold userinit. apply okays_bind, okays_allocproc; [lia|]. intros p s1 A.
  apply okays_bind, okays_modify, okays_bind, okays_getp. intros x Hx. destruct Hx as [Hp1 Hx].
  do 5 (apply okays_bind, okays_keeps; [keep|]; intros ? ? ?). apply okays_bind, okays_keeps; [keep|]. intros ? s8 E8.
  apply okays_bind, okays_keeps; [keep|]. intros ? s9 E9. apply okays_bind, okays_setp. intros y s10 Hy E10.
  apply okays_keeps; [keep|]. intros [] s11 E11. apply HQ.
  destruct A as [[-> _]|(q & c & [Hq Hcq] & Hst & [[-> _]|[-> A]])]; [lia|lia|]. simpl in Hcq. rewrite Hall in Hcq.
  pose proof Hcq as [-> Hlt]%lookup_replicate.
  assert (V : view_of s9 = mkV (<[pidx q := mkC USED 1 0]> (core_of <$> procs s)) 2 q 0).
  { transitivity (view_of (set_initproc q s1)); [congruence|].
    injection A as A1 A2 A3 A4. unfold view_of. simpl. rewrite A1, A2, A4, Hn, Hc. done. }
  rewrite V, Hall in Hy.
  pose proof (v_at_put (mkV (replicate (Z.to_nat NPROC) (mkC UNUSED 0 0)) 2 q 0) q _ _ _ (conj Hq Hcq) Hy) as Ey.
  exists q. split; [unfold pidx in Hlt; lia|]. rewrite E11, E10, V, Hall. unfold put. simpl. rewrite list_insert_insert_eq.
  do 2 f_equal. unfold core_of in *. simpl in *. congruence.
Qed.

(** [C2] The process table is a tree of live processes.  From the table that
    userinit leaves, however fork, exit, wait, sleep, yield, kill, wakeup, the
    clock and the scheduler of one hart follow each other, as long as nextpid
    does not overflow: an unused slot has no process identifier, identifiers in
    use are positive and pairwise different, every process in use except init
    has a parent that has not exited (so every zombie has somebody to wait for
    it) and is older than its child, the parents of every process lead to init,
    no process is its own ancestor, init does not exit, and no process but the
    hart's current one is running. *)
Theorem process_tree s1 s : first_process s1 → rtc pstep s1 s → tree_inv (view_of s) ∧ rooted (view_of s).
Proof.
  intros T1%first_process_tree Hsteps. assert (T : tree_inv (view_of s)); [|by split; [|apply tree_rooted]].
  induction Hsteps as [|s1 s2 s3 Hstep _ IH]; [done|]. apply IH. by eapply pstep_tree.
Qed.
End Tree.

Definition init_procs : pst unit :=
  mkP (some_proc RUNNABLE 0 1 :: replicate 63 blank_proc) 2 false false 1 0 (mkHart 0 false false) (mkK false 0 ∅) tt 0 0 false 0.
Definition init_running : pst unit :=
  mkP (some_proc RUNNING 0 1 :: replicate 63 blank_proc) 2 false false 1 1 (mkHart 0 false false) (mkK false 0 ∅) tt 0 0 false 0.

Lemma process_tree_witness : first_process init_procs ∧ tree_inv (view_of init_running) ∧ rooted (view_of init_running).
Proof.
  assert (H : first_process init_procs) by (exists 1; split; [unfold NPROC; lia|reflexivity]).
  split; [exact H|]. apply (process_tree 0 0 0 (λ _, 0) init_procs init_running H).
  eapply rtc_l; [|apply rtc_refl]. apply (step_run 0 0 0 (λ _, 0) init_procs 1 AfterYield); reflexivity.
Defined.
