(* ===== verification/ProcSleep.v ===== *)
(** sleep and wakeup of proc.c at the granularity of their locks.

    One process runs [acquire(lk); while(!cond) sleep(chan, lk); release(lk);]
    on one hart while another runs [acquire(lk); cond = 1; wakeup(chan);
    release(lk);] on another hart.  Every access to p->state, p->chan, to a
    lock or to the condition is a step of its own, so that any interleaving
    of the two is a sequence of steps. *)

From S2P Require Import Prelude Riscv Spinlock Kalloc Vm Proc.

Inductive actor := Sleeper | Waker.
#[global] Instance actor_eq_dec : EqDecision actor.
Proof. solve_decision. Defined.

(** Where the sleeper is, by the statement it executes next. *)
Inductive spc :=
| S_start        (* acquire(lk) of the caller *)
| S_test         (* while(!cond) *)
| S_acquire      (* acquire(&p->lock) *)
| S_release      (* release(lk) *)
| S_chan         (* p->chan = chan *)
| S_state        (* p->state = SLEEPING *)
| S_sched        (* sched(): the scheduler releases p->lock *)
| S_asleep       (* until the scheduler finds it RUNNABLE and takes p->lock *)
| S_tidy         (* p->chan = 0 *)
| S_unlock       (* release(&p->lock) *)
| S_reacquire    (* acquire(lk) *)
| S_out          (* release(lk) of the caller *)
| S_done.

Inductive wpc :=
| W_start        (* acquire(lk) of the caller *)
| W_set          (* cond = 1 *)
| W_acquire      (* acquire(&p->lock) *)
| W_check        (* if(p->state == SLEEPING && p->chan == chan) p->state = RUNNABLE *)
| W_unlock       (* release(&p->lock) *)
| W_out          (* release(lk) of the caller *)
| W_done.
#[global] Instance spc_eq_dec : EqDecision spc.
Proof. solve_decision. Defined.
#[global] Instance wpc_eq_dec : EqDecision wpc.
Proof. solve_decision. Defined.

Record sw := mkSW {
  lk : option actor; plock : option actor; pstate : procstate; on_chan : bool; cond : bool; at_s : spc; at_w : wpc
}.

Definition sw_start : sw := mkSW None None RUNNING false false S_start W_start.

Definition goto_s (pc : spc) (x : sw) : sw := mkSW (lk x) (plock x) (pstate x) (on_chan x) (cond x) pc (at_w x).
Definition goto_w (pc : wpc) (x : sw) : sw := mkSW (lk x) (plock x) (pstate x) (on_chan x) (cond x) (at_s x) pc.
Definition set_lk (o : option actor) (x : sw) : sw := mkSW o (plock x) (pstate x) (on_chan x) (cond x) (at_s x) (at_w x).
Definition set_plock (o : option actor) (x : sw) : sw := mkSW (lk x) o (pstate x) (on_chan x) (cond x) (at_s x) (at_w x).
Definition set_pstate (p : procstate) (x : sw) : sw := mkSW (lk x) (plock x) p (on_chan x) (cond x) (at_s x) (at_w x).
Definition set_on_chan (b : bool) (x : sw) : sw := mkSW (lk x) (plock x) (pstate x) b (cond x) (at_s x) (at_w x).
Definition set_cond (b : bool) (x : sw) : sw := mkSW (lk x) (plock x) (pstate x) (on_chan x) b (at_s x) (at_w x).

(** acquire spins until the lock is free. *)
Definition free (o : option actor) (x : sw) : option sw := match o with None => Some x | Some _ => None end.

Definition sleep_step (x : sw) : option sw :=
  match at_s x with
  | S_start => free (lk x) (goto_s S_test (set_lk (Some Sleeper) x))
  | S_test => Some (goto_s (if cond x then S_out else S_acquire) x)
  | S_acquire => free (plock x) (goto_s S_release (set_plock (Some Sleeper) x))
  | S_release => Some (goto_s S_chan (set_lk None x))
  | S_chan => Some (goto_s S_state (set_on_chan true x))
  | S_state => Some (goto_s S_sched (set_pstate SLEEPING x))
  | S_sched => Some (goto_s S_asleep (set_plock None x))
  | S_asleep =>
      if is_state (pstate x) RUNNABLE
      then free (plock x) (goto_s S_tidy (set_pstate RUNNING (set_plock (Some Sleeper) x))) else None
  | S_tidy => Some (goto_s S_unlock (set_on_chan false x))
  | S_unlock => Some (goto_s S_reacquire (set_plock None x))
  | S_reacquire => free (lk x) (goto_s S_test (set_lk (Some Sleeper) x))
  | S_out => Some (goto_s S_done (set_lk None x))
  | S_done => None
  end.

Definition wakeup_step (x : sw) : option sw :=
  match at_w x with
  | W_start => free (lk x) (goto_w W_set (set_lk (Some Waker) x))
  | W_set => Some (goto_w W_acquire (set_cond true x))
  | W_acquire => free (plock x) (goto_w W_check (set_plock (Some Waker) x))
  | W_check => Some (goto_w W_unlock (if is_state (pstate x) SLEEPING && on_chan x then set_pstate RUNNABLE x else x))
  | W_unlock => Some (goto_w W_out (set_plock None x))
  | W_out => Some (goto_w W_done (set_lk None x))
  | W_done => None
  end.

Definition sw_step (x y : sw) : Prop := sleep_step x = Some y ∨ wakeup_step x = Some y.

(** ** The invariant *)

Definition s_holds_lk (pc : spc) : bool :=
  match pc with S_test | S_acquire | S_release | S_out => true | _ => false end.
Definition s_holds_plock (pc : spc) : bool :=
  match pc with S_release | S_chan | S_state | S_sched | S_tidy | S_unlock => true | _ => false end.
Definition w_holds_lk (pc : wpc) : bool := match pc with W_start | W_done => false | _ => true end.
Definition w_holds_plock (pc : wpc) : bool := match pc with W_check | W_unlock => true | _ => false end.

(** The owner of a lock, from the places of the two. *)
Definition owner (s w : bool) : option actor := if s then Some Sleeper else if w then Some Waker else None.

(** p->state and p->chan as the sleeper left them; only an asleep process can
    have been woken. *)
Definition s_fields (x : sw) : Prop :=
  match at_s x with
  | S_state => pstate x = RUNNING ∧ on_chan x = true
  | S_sched => pstate x = SLEEPING ∧ on_chan x = true
  | S_asleep => on_chan x = true ∧ (pstate x = SLEEPING ∨ pstate x = RUNNABLE ∧ cond x = true)
  | S_tidy => pstate x = RUNNING ∧ cond x = true
  | S_unlock | S_reacquire | S_out => pstate x = RUNNING ∧ cond x = true
  | _ => pstate x = RUNNING
  end.

(** The waker has looked at the sleeper. *)
Definition w_past_check (pc : wpc) : bool := match pc with W_unlock | W_out | W_done => true | _ => false end.
(** The sleeper has decided to sleep and is not asleep yet. *)
Definition s_going (pc : spc) : bool :=
  match pc with S_acquire | S_release | S_chan | S_state | S_sched => true | _ => false end.

Record sw_inv (x : sw) : Prop := {
  sw_lk : lk x = owner (s_holds_lk (at_s x)) (w_holds_lk (at_w x));
  sw_lk_one : s_holds_lk (at_s x) && w_holds_lk (at_w x) = false;
  sw_plock : plock x = owner (s_holds_plock (at_s x)) (w_holds_plock (at_w x));
  sw_plock_one : s_holds_plock (at_s x) && w_holds_plock (at_w x) = false;
  sw_cond : cond x = match at_w x with W_start | W_set => false | _ => true end;
  sw_fields : s_fields x;
  sw_going : s_going (at_s x) && w_past_check (at_w x) = false;
  sw_woken : at_s x = S_asleep → w_past_check (at_w x) = true → pstate x = RUNNABLE
}.

Lemma sw_start_inv : sw_inv sw_start.
Proof. by split. Qed.

Lemma sw_step_inv x y : sw_inv x → sw_step x y → sw_inv y.
Proof.
  destruct x as [k pl ps oc cd s w]. intros [H1 H2 H3 H4 H5 H6 H7 H8] [E|E];
    unfold sleep_step, wakeup_step, is_state in E; simpl in *; subst;
    destruct s, w; simpl in *; try done; simplify_eq; unfold s_fields in H6; simpl in *; destruct_and?; subst; simpl in *;
    try (destruct H6 as [?|?]; destruct_and?); subst; simpl in *; try done;
    try (injection E as <-); split; unfold s_fields; simpl; try done; naive_solver.
Qed.

Lemma sw_reachable x : rtc sw_step sw_start x → sw_inv x.
Proof.
  intros H. remember sw_start as x0 eqn:E. assert (I : sw_inv x0) by (subst; apply sw_start_inv). clear E.
  induction H as [|x0 x1 x2 Hs _ IH]; [done|]. apply IH. by eapply sw_step_inv.
Qed.

(** ** Progress *)

Definition s_rank (pc : spc) (c : bool) : nat :=
  match pc with
  | S_start => 13 | S_test => if c then 2 else 12 | S_acquire => 11 | S_release => 10 | S_chan => 9 | S_state => 8
  | S_sched => 7 | S_asleep => 6 | S_tidy => 5 | S_unlock => 4 | S_reacquire => 3 | S_out => 1 | S_done => 0
  end.
Definition w_rank (pc : wpc) : nat :=
  match pc with
  | W_start => 6 | W_set => 5 | W_acquire => 4 | W_check => 3 | W_unlock => 2 | W_out => 1 | W_done => 0
  end.
Definition sw_rank (x : sw) : nat := s_rank (at_s x) (cond x) + w_rank (at_w x).

Lemma sw_step_rank x y : sw_inv x → sw_step x y → (sw_rank y < sw_rank x)%nat.
Proof.
  destruct x as [k pl ps oc cd s w]. intros [H1 H2 H3 H4 H5 H6 H7 H8] [E|E];
    unfold sleep_step, wakeup_step, is_state in E; simpl in *; subst; unfold s_fields in H6; simpl in *;
    destruct s, w; simpl in *; try done; simplify_eq; destruct_and?; subst; unfold sw_rank; simpl in *; try lia;
    repeat case_bool_decide; simplify_eq/=; try lia; naive_solver.
Qed.

Lemma sw_progress x : sw_inv x → at_s x = S_done ∧ at_w x = W_done ∨ ∃ y, sw_step x y.
Proof.
  destruct x as [k pl ps oc cd s w]. intros [H1 H2 H3 H4 H5 H6 H7 H8]. simpl in *. subst. unfold s_fields in H6. simpl in *.
  destruct s, w; simpl in *; try done; try (left; done); right;
    try (eexists; left; reflexivity); try (eexists; right; reflexivity);
    try (rewrite H8 by done; eexists; left; reflexivity).
Qed.

(** Neither of the two can go on. *)
Definition stuck (x : sw) : Prop := ¬ ∃ y, sw_step x y.

(** [C11] No wakeup is lost.  However the steps of sleep and of wakeup
    interleave, once the waker has looked at the sleeping process it is not
    left asleep; every run ends, after at most 19 steps, and it can only end
    with the waker done and the sleeper awake and past its loop. *)
Theorem no_lost_wakeup n x :
  nsteps sw_step n sw_start x →
  (n <= 19)%nat ∧
  (at_s x = S_asleep → w_past_check (at_w x) = true → pstate x = RUNNABLE) ∧
  (stuck x → at_s x = S_done ∧ at_w x = W_done).
Proof.
  intros H. assert (I : sw_inv x) by by eapply sw_reachable, rtc_nsteps_2. split_and!.
  - assert (∀ m y, sw_inv y → nsteps sw_step m y x → (m <= sw_rank y)%nat) as Hm.
    { induction m as [|m IH]; intros y Iy Hy; [lia|]. inversion Hy as [|? ? z ? Hz Hr]; subst.
      pose proof (sw_step_rank _ _ Iy Hz). specialize (IH z (sw_step_inv _ _ Iy Hz) Hr). lia. }
    exact (Hm n sw_start sw_start_inv H).
  - apply I.
  - intros Hs. destruct (sw_progress x I) as [?|?]; [done|]. by destruct Hs.
Qed.

(** The run that a schedule gives. *)
Fixpoint sw_run (l : list actor) (x : sw) : option sw :=
  match l with
  | [] => Some x
  | a :: l' => match (match a with Sleeper => sleep_step x | Waker => wakeup_step x end) with Some y => sw_run l' y | None => None end
  end.

Lemma sw_run_nsteps l x y : sw_run l x = Some y → nsteps sw_step (length l) x y.
Proof.
  revert x. induction l as [|a l IH]; intros x H; simpl in *; [injection H as <-; apply nsteps_O|].
  destruct a; [destruct (sleep_step x) as [z|] eqn:E|destruct (wakeup_step x) as [z|] eqn:E]; try done;
    (eapply nsteps_l; [|by apply IH]); [by left|by right].
Qed.

(** The run in which the waker comes while the sleeper is on its way. *)
Lemma no_lost_wakeup_witness : ∃ x, nsteps sw_step 19 sw_start x ∧ at_s x = S_done ∧ at_w x = W_done.
Proof.
  set (x := mkSW None None RUNNING false true S_done W_done).
  assert (Hx : nsteps sw_step 19 sw_start x).
  { apply (sw_run_nsteps ([Sleeper; Sleeper; Sleeper; Sleeper; Waker; Waker; Sleeper; Sleeper; Sleeper; Waker; Waker; Waker; Waker] ++
      replicate 6 Sleeper)). reflexivity. }
  exists x. split; [exact Hx|]. apply (no_lost_wakeup 19 x Hx). intros [y [E|E]]; discriminate E.
Defined.
