(* ===== verification/DList.v ===== *)
(** kernel/list.c: intrusive circular doubly linked lists.

    A heap maps the address of a [struct list_head] to its two fields; a
    pointer to anything else is not allocated, and following it is undefined
    behaviour.  [dlist h head l] says that the circle through [head] visits
    the entries [l] in order in both directions; every operation is shown to
    be the corresponding operation on [l]. *)

From S2P Require Import Prelude.
Local Open Scope kernel_scope.

Record list_head := mkHead { next : Z; prev : Z }.

Abbreviation lheap := (gmap Z list_head).

Definition load_next (a : Z) : K lheap Z := λ h,
  match h !! a with Some n => Ok (next n) h | None => UB "list_head: bad pointer" end.
Definition load_prev (a : Z) : K lheap Z := λ h,
  match h !! a with Some n => Ok (prev n) h | None => UB "list_head: bad pointer" end.
Definition store_next (a v : Z) : K lheap unit := λ h,
  match h !! a with
  | Some n => Ok tt (<[a := mkHead v (prev n)]> h)
  | None => UB "list_head: bad pointer"
  end.
Definition store_prev (a v : Z) : K lheap unit := λ h,
  match h !! a with
  | Some n => Ok tt (<[a := mkHead (next n) v]> h)
  | None => UB "list_head: bad pointer"
  end.

Definition init_list_head (list : Z) : K lheap unit :=
  store_next list list ;;; store_prev list list.

Definition __list_add (new prev next : Z) : K lheap unit :=
  store_prev next new ;;; store_next new next ;;; store_prev new prev ;;; store_next prev new.

Definition __list_del (prev next : Z) : K lheap unit :=
  store_prev next prev ;;; store_next prev next.

Definition list_add (head new : Z) : K lheap unit :=
  n <- load_next head ;;; __list_add new head n.

Definition list_add_tail (head new : Z) : K lheap unit :=
  p <- load_prev head ;;; __list_add new p head.

Definition list_del (entry : Z) : K lheap unit :=
  p <- load_prev entry ;;; n <- load_next entry ;;; __list_del p n ;;;
  store_next entry entry ;;; store_prev entry entry.

Definition list_del_init (entry : Z) : K lheap unit :=
  p <- load_prev entry ;;; n <- load_next entry ;;; __list_del p n ;;; init_list_head entry.

(** ** The list a circle represents *)

Definition nextof (h : lheap) (a b : Z) : Prop := next <$> h !! a = Some b.
Definition prevof (h : lheap) (a b : Z) : Prop := prev <$> h !! a = Some b.

(** Following [next] from [x] visits [l] and arrives at [y], and following
    [prev] from [y] visits [l] backwards and arrives at [x]. *)
Fixpoint seg (h : lheap) (x : Z) (l : list Z) (y : Z) : Prop :=
  match l with
  | [] => nextof h x y ∧ prevof h y x
  | z :: l' => nextof h x z ∧ prevof h z x ∧ seg h z l' y
  end.

Definition dlist (h : lheap) (head : Z) (l : list Z) : Prop :=
  NoDup (head :: l) ∧ seg h head l head.

(** The heaps that differ at most in the fields of the entries [P]. *)
Definition same_off (P : Z → Prop) (h h' : lheap) : Prop := ∀ a, ¬ P a → h' !! a = h !! a.

Lemma seg_app h x l1 y l2 z : seg h x (l1 ++ y :: l2) z ↔ seg h x l1 y ∧ seg h y l2 z.
Proof.
  revert x. induction l1 as [|w l1 IH]; intros x; simpl; [tauto|]. rewrite IH. tauto.
Qed.

Lemma runs_store_next a v h Q :
  is_Some (h !! a) →
  (∀ h', (∀ b, next <$> h' !! b = if decide (a = b) then Some v else next <$> h !! b) →
         (∀ b, prev <$> h' !! b = prev <$> h !! b) →
         same_off (eq a) h h' → Q tt h') →
  runs (store_next a v) h Q.
Proof.
  intros [n Hn] HQ. unfold runs, store_next. rewrite Hn. apply HQ.
  - intros b. case_decide as E; [subst; by rewrite lookup_insert_eq|by rewrite lookup_insert_ne].
  - intros b. destruct (decide (a = b)) as [<-|]; [by rewrite lookup_insert_eq, Hn|by rewrite lookup_insert_ne].
  - intros b Hb. by rewrite lookup_insert_ne.
Qed.

Lemma runs_store_prev a v h Q :
  is_Some (h !! a) →
  (∀ h', (∀ b, prev <$> h' !! b = if decide (a = b) then Some v else prev <$> h !! b) →
         (∀ b, next <$> h' !! b = next <$> h !! b) →
         same_off (eq a) h h' → Q tt h') →
  runs (store_prev a v) h Q.
Proof.
  intros [n Hn] HQ. unfold runs, store_prev. rewrite Hn. apply HQ.
  - intros b. case_decide as E; [subst; by rewrite lookup_insert_eq|by rewrite lookup_insert_ne].
  - intros b. destruct (decide (a = b)) as [<-|]; [by rewrite lookup_insert_eq, Hn|by rewrite lookup_insert_ne].
  - intros b Hb. by rewrite lookup_insert_ne.
Qed.

Lemma seg_ext h h' x l y :
  (∀ b, b ∈ x :: l → next <$> h' !! b = next <$> h !! b) →
  (∀ b, b ∈ l ++ [y] → prev <$> h' !! b = prev <$> h !! b) →
  seg h x l y → seg h' x l y.
Proof.
  revert x. induction l as [|z l IH]; intros x Hn Hp; simpl; unfold nextof, prevof.
  - rewrite Hn, Hp by set_solver. done.
  - rewrite Hn, Hp by set_solver. intros (? & ? & ?). split_and!; [done|done|].
    apply IH; [set_solver|set_solver|done].
Qed.

Lemma nextof_alloc h a b : nextof h a b → is_Some (h !! a).
Proof. unfold nextof. destruct (h !! a); [by eexists|done]. Qed.

Lemma prevof_alloc h a b : prevof h a b → is_Some (h !! a).
Proof. unfold prevof. destruct (h !! a); [by eexists|done]. Qed.

Lemma alloc_next (h h' : lheap) a :
  (∀ b, next <$> h' !! b = next <$> h !! b) → is_Some (h !! a) → is_Some (h' !! a).
Proof. intros H [n Hn]. specialize (H a). rewrite Hn in H. destruct (h' !! a); [by eexists|done]. Qed.

Lemma alloc_prev (h h' : lheap) a :
  (∀ b, prev <$> h' !! b = prev <$> h !! b) → is_Some (h !! a) → is_Some (h' !! a).
Proof. intros H [n Hn]. specialize (H a). rewrite Hn in H. destruct (h' !! a); [by eexists|done]. Qed.

#[local] Hint Resolve nextof_alloc prevof_alloc : core.

(** The two fields of every entry after linking [new] between [p] and [n]. *)
Lemma runs_list_add_core new p n h :
  is_Some (h !! new) → is_Some (h !! p) → is_Some (h !! n) →
  runs (__list_add new p n) h (λ _ h',
    (∀ b, next <$> h' !! b =
       if decide (p = b) then Some new else if decide (new = b) then Some n else next <$> h !! b) ∧
    (∀ b, prev <$> h' !! b =
       if decide (new = b) then Some p else if decide (n = b) then Some new else prev <$> h !! b)).
Proof.
  intros Hnew Hp Hn. unfold __list_add.
  apply runs_bind, runs_store_prev; [done|]. intros h1 P1 N1 _.
  assert (A1 : ∀ a, is_Some (h !! a) → is_Some (h1 !! a)) by (intros; by eapply alloc_next).
  apply runs_bind, runs_store_next; [auto|]. intros h2 N2 P2 _.
  assert (A2 : ∀ a, is_Some (h1 !! a) → is_Some (h2 !! a)) by (intros; by eapply alloc_prev).
  apply runs_bind, runs_store_prev; [auto|]. intros h3 P3 N3 _.
  assert (A3 : ∀ a, is_Some (h2 !! a) → is_Some (h3 !! a)) by (intros; by eapply alloc_next).
  apply runs_store_next; [auto|]. intros h4 N4 P4 _. split; intros b.
  - by rewrite N4, N3, N2, N1.
  - by rewrite P4, P3, P2, P1.
Qed.

Lemma runs_list_del_core p n h :
  is_Some (h !! p) → is_Some (h !! n) →
  runs (__list_del p n) h (λ _ h',
    (∀ b, next <$> h' !! b = if decide (p = b) then Some n else next <$> h !! b) ∧
    (∀ b, prev <$> h' !! b = if decide (n = b) then Some p else prev <$> h !! b)).
Proof.
  intros Hp Hn. unfold __list_del.
  apply runs_bind, runs_store_prev; [done|]. intros h1 P1 N1 _.
  apply runs_store_next; [by eapply alloc_next|]. intros h2 N2 P2 _. split; intros b.
  - by rewrite N2, N1.
  - by rewrite P2, P1.
Qed.

Lemma runs_load_next a b h Q : nextof h a b → Q b h → runs (load_next a) h Q.
Proof. unfold nextof, runs, load_next. destruct (h !! a); [by intros [= ->]|done]. Qed.

Lemma runs_load_prev a b h Q : prevof h a b → Q b h → runs (load_prev a) h Q.
Proof. unfold prevof, runs, load_prev. destruct (h !! a); [by intros [= ->]|done]. Qed.

(** Membership in explicit lists as disjunctions. *)
Ltac mem_norm :=
  rewrite ?NoDup_cons, ?NoDup_app, ?elem_of_cons, ?elem_of_app, ?elem_of_cons, ?elem_of_nil in *.

(** Solves a goal about one field after the updates [HN] and [HP]. *)
Ltac field HN HP :=
  unfold nextof, prevof in *; rewrite ?HN, ?HP; mem_norm;
  repeat case_decide; subst; (reflexivity || assumption || congruence || (exfalso; intuition congruence)).

Lemma NoDup_add (new head : Z) l : NoDup (head :: l) → new ∉ head :: l → NoDup (head :: new :: l).
Proof. rewrite !NoDup_cons, !elem_of_cons. naive_solver. Qed.

Lemma NoDup_add_tail (new head : Z) l : NoDup (head :: l) → new ∉ head :: l → NoDup (head :: l ++ [new]).
Proof.
  intros Hnd Hni. change (NoDup ((head :: l) ++ [new])). apply NoDup_app.
  split_and!; [done| |apply NoDup_singleton]. by intros x Hx ->%list_elem_of_singleton.
Qed.

Lemma seg_alloc h x l y b : seg h x l y → b ∈ x :: l ++ [y] → is_Some (h !! b).
Proof.
  revert x. induction l as [|z l IH]; intros x; simpl.
  - intros [? ?]. rewrite !elem_of_cons, elem_of_nil. intros [->|[->|[]]]; eauto.
  - intros (? & ? & Hs) [->|Hb]%elem_of_cons; eauto.
Qed.

Lemma dlist_add h h' head l new n :
  dlist h head l → new ∉ head :: l → nextof h head n →
  (∀ b, next <$> h' !! b =
     if decide (head = b) then Some new else if decide (new = b) then Some n else next <$> h !! b) →
  (∀ b, prev <$> h' !! b =
     if decide (new = b) then Some head else if decide (n = b) then Some new else prev <$> h !! b) →
  dlist h' head (new :: l).
Proof.
  intros [Hnd Hs] Hni Hn HN HP. pose proof (NoDup_add _ _ _ Hnd Hni) as Hnd'. split; [done|].
  destruct l as [|z l]; simpl in Hs |- *.
  - destruct Hs as [Hn' Hp]. assert (n = head) as -> by (unfold nextof in *; congruence).
    split_and!; field HN HP.
  - destruct Hs as (Hn' & Hp & Hs). assert (n = z) as -> by (unfold nextof in *; congruence).
    split_and!; [field HN HP..|].
    eapply seg_ext; [| |exact Hs]; intros b Hb; field HN HP.
Qed.

Lemma dlist_next h head l : dlist h head l → nextof h head (default head (hd_error l)).
Proof. intros [_ Hs]. destruct l; simpl in *; tauto. Qed.

Lemma dlist_alloc h head l b : dlist h head l → b ∈ head :: l → is_Some (h !! b).
Proof. intros [_ Hs] Hb. eapply seg_alloc; [done|]. rewrite app_comm_cons, elem_of_app. by left. Qed.

Lemma runs_list_add h head l new :
  dlist h head l → is_Some (h !! new) → new ∉ head :: l →
  runs (list_add head new) h (λ _ h', dlist h' head (new :: l)).
Proof.
  intros Hd Hnew Hni. unfold list_add. apply runs_bind. pose proof (dlist_next _ _ _ Hd) as Hn.
  eapply runs_load_next; [done|]. eapply runs_mono.
  { apply runs_list_add_core; [done|eauto|]. eapply dlist_alloc; [done|].
    destruct l; simpl; rewrite !elem_of_cons; tauto. }
  intros [] h' [HN HP]. by eapply dlist_add.
Qed.

Lemma runs_list_add_tail h head l new :
  dlist h head l → is_Some (h !! new) → new ∉ head :: l →
  runs (list_add_tail head new) h (λ _ h', dlist h' head (l ++ [new])).
Proof.
  intros [Hnd Hs] Hnew Hni. unfold list_add_tail. apply runs_bind.
  pose proof (NoDup_add_tail _ _ _ Hnd Hni) as Hnd'.
  destruct l as [|z l _] using rev_ind; simpl in Hs.
  - destruct Hs as [Hn Hp]. eapply runs_load_prev; [done|].
    eapply runs_mono; [apply runs_list_add_core; eauto|]. intros [] h' [HN HP].
    split; [done|]. simpl. split_and!; field HN HP.
  - apply seg_app in Hs as [Hs [Hn Hp]]. eapply runs_load_prev; [done|].
    eapply runs_mono; [apply runs_list_add_core; eauto|]. intros [] h' [HN HP].
    split; [done|]. rewrite <-app_assoc. apply seg_app.
    assert (z ∉ l ∧ z ≠ head ∧ head ∉ l) as (? & ? & ?).
    { apply NoDup_cons in Hnd as [Hh Hnd]. apply NoDup_app in Hnd as (_ & Hd & _).
      rewrite elem_of_app, list_elem_of_singleton in Hh. split_and!; [|naive_solver..].
      intros Hz. apply (Hd z Hz). by left. }
    clear Hnd Hnd'. split; [|simpl; split_and!; field HN HP].
    eapply seg_ext; [| |exact Hs]; intros b Hb; field HN HP.
Qed.

(** Removing an entry: the circle closes over it. *)
Lemma seg_prev_mem h x l y p : seg h x l y → prevof h y p → p ∈ x :: l.
Proof.
  revert x. induction l as [|z l IH]; intros x; simpl; unfold prevof in *.
  - intros [_ H1] H2. rewrite H1 in H2. injection H2 as ->. by left.
  - intros (_ & _ & Hs) H. right. by eapply IH.
Qed.

Lemma seg_next_mem h x l y n : seg h x l y → nextof h x n → n ∈ l ++ [y].
Proof.
  destruct l as [|z l]; simpl; unfold nextof.
  - intros [H1 _] H2. rewrite H1 in H2. injection H2 as ->. by left.
  - intros (H1 & _) H2. rewrite H1 in H2. injection H2 as ->. by left.
Qed.

Lemma seg_close h h' x l1 e l2 y p n :
  seg h x l1 e → seg h e l2 y → prevof h e p → nextof h e n →
  (∀ b, next <$> h' !! b = if decide (p = b) then Some n else next <$> h !! b) →
  (∀ b, prev <$> h' !! b = if decide (n = b) then Some p else prev <$> h !! b) →
  NoDup (x :: l1 ++ l2) → y ∉ l1 ++ l2 → seg h' x (l1 ++ l2) y.
Proof.
  intros Hs1 Hs2 Hp Hn HN HP. revert x Hs1. induction l1 as [|z l1 IH]; intros x Hs1 Hnd Hy.
  - simpl in *. destruct Hs1 as [_ Hpx]. assert (p = x) as -> by (unfold prevof in *; congruence).
    destruct l2 as [|z l2]; simpl in *.
    + destruct Hs2 as [Hny _]. assert (n = y) as -> by (unfold nextof in *; congruence).
      split; field HN HP.
    + destruct Hs2 as (Hnz & _ & Hs2). assert (n = z) as -> by (unfold nextof in *; congruence).
      split_and!; [field HN HP|field HN HP|].
      eapply seg_ext; [| |exact Hs2]; intros b Hb; field HN HP.
  - simpl in *. destruct Hs1 as (Hnx & Hpz & Hs1).
    apply NoDup_cons in Hnd as [Hx Hnd]. pose proof (seg_prev_mem _ _ _ _ _ Hs1 Hp) as Hpm.
    pose proof (seg_next_mem _ _ _ _ _ Hs2 Hn) as Hnm.
    split_and!; [| |apply IH; [done|done|set_solver]].
    + clear IH Hnd. field HN HP.
    + apply NoDup_cons in Hnd as [Hz _]. clear IH. field HN HP.
Qed.

Lemma seg_ends h x l y : seg h x l y → ∃ n p, nextof h x n ∧ prevof h y p.
Proof.
  revert x. induction l as [|z l IH]; intros x; simpl; [intros [? ?]; eauto|].
  intros (? & _ & (n & p & _ & ?)%IH). eauto.
Qed.

(** The neighbours of an entry, and the circle after closing over it. *)
Lemma dlist_around h head l1 e l2 :
  dlist h head (l1 ++ e :: l2) →
  e ∉ head :: l1 ++ l2 ∧
  ∃ p n, prevof h e p ∧ nextof h e n ∧ p ∈ head :: l1 ∧ n ∈ l2 ++ [head].
Proof.
  intros [Hnd Hs]. apply seg_app in Hs as [Hs1 Hs2]. split.
  - rewrite <-Permutation_middle, Permutation_swap in Hnd. by apply NoDup_cons in Hnd as [He _].
  - destruct (seg_ends _ _ _ _ Hs1) as (_ & p & _ & Hp), (seg_ends _ _ _ _ Hs2) as (n & _ & Hn & _).
    exists p, n. split_and!; [done|done|by eapply seg_prev_mem|by eapply seg_next_mem].
Qed.

Lemma dlist_del h h' head l1 e l2 p n :
  dlist h head (l1 ++ e :: l2) → prevof h e p → nextof h e n →
  (∀ b, next <$> h' !! b = if decide (p = b) then Some n else next <$> h !! b) →
  (∀ b, prev <$> h' !! b = if decide (n = b) then Some p else prev <$> h !! b) →
  dlist h' head (l1 ++ l2) ∧ is_Some (h' !! e).
Proof.
  intros [Hnd Hs] Hp Hn HN HP. apply seg_app in Hs as [Hs1 Hs2].
  assert (Hnd' : NoDup (head :: l1 ++ l2)).
  { rewrite <-Permutation_middle, Permutation_swap in Hnd. by apply NoDup_cons in Hnd as [_ ?]. }
  split; [split; [done|]|].
  - eapply seg_close; try done. by apply NoDup_cons in Hnd' as [? _].
  - specialize (HN e). apply nextof_alloc in Hn as [x Hx]. rewrite Hx in HN.
    destruct (h' !! e); [by eexists|]. by case_decide.
Qed.

Lemma runs_unlink h head l1 e l2 (k : K lheap unit) Q :
  dlist h head (l1 ++ e :: l2) →
  (∀ h', dlist h' head (l1 ++ l2) → is_Some (h' !! e) → e ∉ head :: l1 ++ l2 → runs k h' Q) →
  runs (p <- load_prev e ;;; n <- load_next e ;;; __list_del p n ;;; k) h Q.
Proof.
  intros Hd Hk. destruct (dlist_around _ _ _ _ _ Hd) as (He & p & n & Hp & Hn & Hpm & Hnm).
  apply runs_bind. eapply runs_load_prev; [done|]. apply runs_bind. eapply runs_load_next; [done|].
  apply runs_bind. eapply runs_mono.
  { apply runs_list_del_core; (eapply dlist_alloc; [exact Hd|]); mem_norm; tauto. }
  intros [] h' [HN HP]. destruct (dlist_del _ _ _ _ _ _ _ _ Hd Hp Hn HN HP). by apply Hk.
Qed.

Lemma runs_self_link h e :
  is_Some (h !! e) →
  runs (init_list_head e) h (λ _ h', dlist h' e [] ∧ same_off (eq e) h h').
Proof.
  intros Ha. unfold init_list_head. apply runs_bind, runs_store_next; [done|]. intros h1 N1 P1 S1.
  apply runs_store_prev; [by eapply alloc_prev|]. intros h2 P2 N2 S2. split; [split|].
  - apply NoDup_singleton.
  - simpl. unfold nextof, prevof. rewrite N2, N1, P2. by rewrite !decide_True.
  - intros a Ha'. by rewrite S2, S1.
Qed.

Lemma dlist_frame h h' head l e :
  dlist h head l → e ∉ head :: l → same_off (eq e) h h' → dlist h' head l.
Proof.
  intros [Hnd Hs] He Ho. split; [done|]. eapply seg_ext; [| |exact Hs]; intros b Hb; rewrite Ho; try done.
  - by intros ->.
  - intros ->. apply He. rewrite elem_of_app, list_elem_of_singleton in Hb. rewrite elem_of_cons. tauto.
Qed.

Lemma runs_list_del_init h head l1 e l2 :
  dlist h head (l1 ++ e :: l2) →
  runs (list_del_init e) h (λ _ h', dlist h' head (l1 ++ l2) ∧ dlist h' e []).
Proof.
  intros Hd. eapply runs_unlink; [done|]. intros h1 Hd1 Ha He.
  eapply runs_mono; [by apply runs_self_link|]. intros [] h2 [Hs Ho]. split; [by eapply dlist_frame|done].
Qed.

Lemma runs_list_del h head l1 e l2 :
  dlist h head (l1 ++ e :: l2) →
  runs (list_del e) h (λ _ h', dlist h' head (l1 ++ l2) ∧ dlist h' e []).
Proof. apply runs_list_del_init. Qed.

(** ** Sequences of operations *)

Inductive list_op := Add (new : Z) | AddTail (new : Z) | Del (entry : Z) | DelInit (entry : Z).

Definition exec_op (head : Z) (o : list_op) : K lheap unit :=
  match o with
  | Add new => list_add head new
  | AddTail new => list_add_tail head new
  | Del entry => list_del entry
  | DelInit entry => list_del_init entry
  end.

Fixpoint exec_ops (head : Z) (os : list list_op) : K lheap unit :=
  match os with
  | [] => ret tt
  | o :: os' => exec_op head o ;;; exec_ops head os'
  end.

(** The same operations on lists; [None] when the caller breaks the contract:
    adding an entry that is linked already, or removing one that is not. *)
Definition spec_op (head : Z) (nodes : gset Z) (o : list_op) (l : list Z) : option (list Z) :=
  match o with
  | Add x => if decide (x ∈ nodes ∧ x ∉ head :: l) then Some (x :: l) else None
  | AddTail x => if decide (x ∈ nodes ∧ x ∉ head :: l) then Some (l ++ [x]) else None
  | Del x | DelInit x => if decide (x ∈ l) then Some (filter (.≠ x) l) else None
  end.

Fixpoint spec_ops (head : Z) (nodes : gset Z) (os : list list_op) (l : list Z) : option (list Z) :=
  match os with
  | [] => Some l
  | o :: os' => l' ← spec_op head nodes o l; spec_ops head nodes os' l'
  end.

Definition keeps_dom {A} (m : K lheap A) : Prop := ∀ h a h', m h = Ok a h' → dom h' = dom h.

Lemma keeps_bind {A B} (m : K lheap A) (f : A → K lheap B) :
  keeps_dom m → (∀ a, keeps_dom (f a)) → keeps_dom (bind m f).
Proof. intros Hm Hf h b h' (a & h1 & H1 & H2)%bind_Ok_inv. by rewrite (Hf a _ _ _ H2), (Hm _ _ _ H1). Qed.

Lemma keeps_load_next a : keeps_dom (load_next a).
Proof. intros h v h'. unfold load_next. destruct (h !! a); [by intros [= _ <-]|done]. Qed.
Lemma keeps_load_prev a : keeps_dom (load_prev a).
Proof. intros h v h'. unfold load_prev. destruct (h !! a); [by intros [= _ <-]|done]. Qed.
Lemma keeps_store_next a v : keeps_dom (store_next a v).
Proof.
  intros h [] h'. unfold store_next. destruct (h !! a) eqn:E; [intros [= <-]|done].
  apply dom_insert_lookup_L. by eexists.
Qed.
Lemma keeps_store_prev a v : keeps_dom (store_prev a v).
Proof.
  intros h [] h'. unfold store_prev. destruct (h !! a) eqn:E; [intros [= <-]|done].
  apply dom_insert_lookup_L. by eexists.
Qed.

Create HintDb dlist.
#[local] Hint Resolve keeps_bind keeps_load_next keeps_load_prev keeps_store_next keeps_store_prev : dlist.

Lemma keeps_exec_op head o : keeps_dom (exec_op head o).
Proof.
  destruct o; simpl; unfold list_add, list_add_tail, list_del, list_del_init, __list_add, __list_del,
    init_list_head; auto 10 with dlist.
Qed.

Lemma filter_id (x : Z) (l : list Z) : x ∉ l → filter (.≠ x) l = l.
Proof.
  induction l as [|y l IH]; [done|]. intros [Hne Hni]%not_elem_of_cons.
  rewrite filter_cons_True by congruence. by rewrite IH.
Qed.

Lemma filter_remove (x : Z) (l1 l2 : list Z) : NoDup (l1 ++ x :: l2) → filter (.≠ x) (l1 ++ x :: l2) = l1 ++ l2.
Proof.
  intros Hnd. rewrite <-Permutation_middle in Hnd. apply NoDup_cons in Hnd as [Hni _].
  rewrite filter_app, filter_cons_False by (intros H; by apply H).
  rewrite elem_of_app in Hni. by rewrite !filter_id by tauto.
Qed.

Lemma runs_exec_op h head l o l' :
  dlist h head l → spec_op head (dom h) o l = Some l' →
  runs (exec_op head o) h (λ _ h', dlist h' head l' ∧ dom h' = dom h).
Proof.
  intros Hd Hsp. assert (H : runs (exec_op head o) h (λ _ h', dlist h' head l')).
  { destruct o as [x|x|x|x]; simpl in *; case_decide as Hx; try done; injection Hsp as <-.
    - destruct Hx as [Hx%elem_of_dom Hni]. by apply runs_list_add.
    - destruct Hx as [Hx%elem_of_dom Hni]. by apply runs_list_add_tail.
    - apply list_elem_of_split in Hx as (l1 & l2 & ->).
      rewrite filter_remove by by destruct Hd as [[_ ?]%NoDup_cons _].
      eapply runs_mono; [by apply runs_list_del|]. by intros [] h' [? _].
    - apply list_elem_of_split in Hx as (l1 & l2 & ->).
      rewrite filter_remove by by destruct Hd as [[_ ?]%NoDup_cons _].
      eapply runs_mono; [by apply runs_list_del_init|]. by intros [] h' [? _]. }
  unfold runs in *. destruct (exec_op head o h) eqn:E; try done. split; [done|]. by eapply keeps_exec_op.
Qed.

Lemma runs_exec_ops head os h l l' :
  dlist h head l → spec_ops head (dom h) os l = Some l' →
  runs (exec_ops head os) h (λ _ h', dlist h' head l').
Proof.
  revert h l. induction os as [|o os IH]; intros h l Hd Hsp; simpl in *.
  - injection Hsp as <-. by apply runs_ret.
  - destruct (spec_op head (dom h) o l) as [l1|] eqn:E; [|done]. apply runs_bind.
    eapply runs_mono; [by apply (runs_exec_op h head l o l1)|]. intros [] h1 [Hd1 Hdom].
    apply (IH h1 l1); [done|]. by rewrite Hdom.
Qed.

(** ** Properties *)

(** The circular lists implement lists with insertion at both ends and
    removal: from an initialised head, any sequence of list_add,
    list_add_tail, list_del and list_del_init that adds only allocated
    entries that are not linked and removes only linked ones runs without
    touching an invalid pointer, and the final circle represents, in both
    directions, the list that the same operations compute on lists. *)
Theorem list_refines (h : lheap) (head : Z) (os : list list_op) (l : list Z) :
  is_Some (h !! head) → spec_ops head (dom h) os [] = Some l →
  ∃ h', (init_list_head head ;;; exec_ops head os) h = Ok tt h' ∧ dlist h' head l.
Proof.
  intros Ha Hsp.
  assert (H : runs (init_list_head head ;;; exec_ops head os) h (λ _ h', dlist h' head l)).
  { apply runs_bind. pose proof (runs_self_link h head Ha) as H. unfold runs in *.
    destruct (init_list_head head h) as [[] h1| | | |] eqn:E; try done. destruct H as [Hd _].
    apply (runs_exec_ops head os h1 [] l Hd).
    assert (Hk : keeps_dom (init_list_head head)) by (unfold init_list_head; auto with dlist).
    by rewrite (Hk _ _ _ E). }
  apply runs_elim in H as ([] & h' & ? & ?). by exists h'.
Qed.

Lemma list_refines_witness :
  let h : lheap := <[10 := mkHead 0 0]> (<[20 := mkHead 7 8]> (<[30 := mkHead 0 0]> ∅)) in
  ∃ h', (init_list_head 10 ;;; exec_ops 10 [Add 20; AddTail 30; Del 20]) h = Ok tt h' ∧ dlist h' 10 [30].
Proof.
  intros h. apply (list_refines h 10 [Add 20; AddTail 30; Del 20] [30]).
  - by eexists.
  - by vm_compute.
Defined.
