(* ===== verification/Ring.v ===== *)
(** Ring buffers with free-running indices.

    The pipe, the UART transmit buffer and the console input buffer share one
    technique: a buffer of [N] bytes and two unsigned counters that are never
    reset, wrap around at the width of their type ([M] values) and are reduced
    modulo [N] only to index the buffer.  [ring] relates such a buffer to the
    queue of its pending bytes; the lemmas cover each test and update. *)

From S2P Require Import Prelude.

Definition ring (N M : Z) (buf : list Z) (r w : Z) (q : list Z) : Prop :=
  zlen buf = N ∧ 0 <= r < M ∧ w = (r + zlen q) mod M ∧ zlen q <= N ∧
  ∀ (i : nat) c, q !! i = Some c → buf !! Z.to_nat ((r + Z.of_nat i) mod N) = Some c.

Section Ring.
Context (N M : Z).
Hypothesis HN : 0 < N < M.
Hypothesis HM : M mod N = 0.

Lemma mod_mod_div x : (x mod M) mod N = x mod N.
Proof.
  apply Z.mod_divide in HM as [k Hk]; [|lia]. rewrite Hk, (Z.mul_comm k N).
  rewrite Z.rem_mul_r by nia. rewrite Z.mul_comm, Z.mod_add by lia. apply Z.mod_mod. lia.
Qed.

Lemma ring_init buf : zlen buf = N → ring N M buf 0 0 [].
Proof.
  intros Hb. split_and!; simpl; try (done || lia).
Qed.

Lemma ring_len buf r w q : ring N M buf r w q → (w - r) mod M = zlen q.
Proof.
  intros (_ & Hr & -> & Hq & _). rewrite Zminus_mod_idemp_l.
  replace (r + zlen q - r) with (zlen q) by lia. apply Z.mod_small. lia.
Qed.

Lemma ring_w_range buf r w q : ring N M buf r w q → 0 <= w < M.
Proof. intros (_ & _ & -> & _). apply Z.mod_pos_bound. lia. Qed.

(** The emptiness test [r == w]. *)
Lemma ring_empty buf r w q : ring N M buf r w q → r = w ↔ q = [].
Proof.
  intros H. pose proof (ring_len _ _ _ _ H) as Hl. split.
  - intros ->. rewrite Z.sub_diag, Z.mod_0_l in Hl by lia. destruct q; [done|simpl in Hl; lia].
  - intros ->. destruct H as (_ & Hr & -> & _). simpl. by rewrite Z.add_0_r, Z.mod_small.
Qed.

(** The fullness test [w == r + N]. *)
Lemma ring_full buf r w q : ring N M buf r w q → w = (r + N) mod M ↔ zlen q = N.
Proof.
  intros H. pose proof (ring_len _ _ _ _ H) as Hl. split.
  - intros ->. rewrite Zminus_mod_idemp_l in Hl. replace (r + N - r) with N in Hl by lia.
    rewrite Z.mod_small in Hl by lia. done.
  - intros E. destruct H as (_ & _ & -> & _). by rewrite E.
Qed.

Lemma ring_index_ne r i j : 0 <= i < N → 0 <= j < N → i ≠ j → (r + i) mod N ≠ (r + j) mod N.
Proof.
  intros Hi Hj Hne E. pose proof (Z.div_mod (r + i) N ltac:(lia)) as E1.
  pose proof (Z.div_mod (r + j) N ltac:(lia)) as E2. rewrite E in E1.
  assert (Hk : i - j = N * ((r + i) / N - (r + j) / N)) by lia.
  set (k := (r + i) / N - (r + j) / N) in Hk. clearbody k. assert (k = 0) by nia. lia.
Qed.

(** [buf[w++ % N] = c] with room left. *)
Lemma ring_push buf r w q c :
  ring N M buf r w q → zlen q < N →
  ring N M (<[Z.to_nat (w mod N) := c]> buf) r ((w + 1) mod M) (q ++ [c]).
Proof.
  intros (Hb & Hr & -> & Hq & Hi) Hlt. rewrite mod_mod_div.
  assert (Hpos : ∀ x, 0 <= x mod N < N) by (intros; apply Z.mod_pos_bound; lia).
  split_and!.
  - by rewrite length_insert.
  - lia.
  - lia.
  - rewrite length_app. simpl. rewrite Zplus_mod_idemp_l. f_equal. lia.
  - rewrite length_app. simpl. lia.
  - intros i x Hx. destruct (decide (i = length q)) as [->|Hne].
    + rewrite lookup_app_r, Nat.sub_diag in Hx by lia. injection Hx as ->.
      apply list_lookup_insert_eq. pose proof (Hpos (r + zlen q)). lia.
    + assert (i < length q)%nat.
      { apply lookup_lt_Some in Hx. rewrite length_app in Hx. simpl in Hx. lia. }
      rewrite lookup_app_l in Hx by lia. rewrite list_lookup_insert_ne; [by apply Hi|].
      pose proof (ring_index_ne r (zlen q) (Z.of_nat i) ltac:(lia) ltac:(lia) ltac:(lia)).
      pose proof (Hpos (r + zlen q)). pose proof (Hpos (r + Z.of_nat i)). lia.
Qed.

(** [c = buf[r++ % N]] when something is pending. *)
Lemma ring_pop buf r w c q :
  ring N M buf r w (c :: q) →
  buf !! Z.to_nat (r mod N) = Some c ∧ ring N M buf ((r + 1) mod M) w q.
Proof.
  intros (Hb & Hr & -> & Hq & Hi). simpl in Hq. split.
  - specialize (Hi 0%nat c eq_refl). simpl in Hi. by rewrite Z.add_0_r in Hi.
  - split_and!; [done|apply Z.mod_pos_bound; lia|apply Z.mod_pos_bound; lia| |lia|].
    + rewrite Zplus_mod_idemp_l. simpl. f_equal. lia.
    + intros i x Hx. specialize (Hi (S i) x Hx).
      rewrite <-(Z.mod_mod (_ + _) N) by lia. rewrite <-Zplus_mod_idemp_l, mod_mod_div.
      rewrite Zplus_mod_idemp_l, Z.mod_mod by lia.
      by replace (r + 1 + Z.of_nat i) with (r + Z.of_nat (S i)) by lia.
Qed.

(** Retracting the last byte: [w--]. *)
Lemma ring_drop buf r w q c :
  ring N M buf r w (q ++ [c]) →
  buf !! Z.to_nat ((w - 1) mod M mod N) = Some c ∧ ring N M buf r ((w - 1) mod M) q.
Proof.
  intros (Hb & Hr & -> & Hq & Hi). rewrite length_app in Hq. simpl in Hq.
  rewrite length_app. simpl. rewrite Zminus_mod_idemp_l.
  replace (r + Z.of_nat (length q + 1) - 1) with (r + zlen q) by lia. split.
  - rewrite mod_mod_div. apply Hi. by rewrite lookup_app_r, Nat.sub_diag by lia.
  - split_and!; try (done || lia). intros i x Hx. apply Hi. rewrite lookup_app_l; [done|].
    by eapply lookup_lt_Some.
Qed.
End Ring.
