(* ===== verification/Pipe.v ===== *)
(** kernel/pipe.c: pipes.

    A call of pipewrite or piperead runs under the pipe's lock except while it
    sleeps, so its execution is a sequence of segments, each from taking the
    lock (on entry or when sleep returns) to releasing it (in sleep or before
    returning).  A segment is one definition below; [Sleep chan i] ends it
    with the loop variable it will continue from.  The memory of the calling
    process is the map of its mapped bytes, and [killed] is consulted afresh
    at every test. *)

From S2P Require Import Prelude Riscv Spinlock Ring.
Local Open Scope kernel_scope.

Definition PIPESIZE : Z := 512.

Record pipe := mkPipe {
  data : list Z; nread : Z; nwrite : Z; readopen : bool; writeopen : bool; plock : bool
}.

(** The channels [&pi->nread] and [&pi->nwrite]. *)
Inductive pipe_chan := ChRead | ChWrite.

#[global] Instance pipe_chan_eq_dec : EqDecision pipe_chan.
Proof. solve_decision. Defined.

(** The state of a segment: the pipe, the memory of the running process, the
    channels woken so far and whether the pipe's page has been freed. *)
Record pst := mkPst { pi : pipe; umem : gmap Z Z; woken : list pipe_chan; freed : bool }.

Definition set_pi (f : pipe → pipe) (s : pst) : pst := mkPst (f (pi s)) (umem s) (woken s) (freed s).
Definition set_plock (b : bool) : pst → pst :=
  set_pi (λ p, mkPipe (data p) (nread p) (nwrite p) (readopen p) (writeopen p) b).
Definition wakeup (c : pipe_chan) : K pst unit :=
  modify (λ s, mkPst (pi s) (umem s) (c :: woken s) (freed s)).

Definition acquire_pipe : K pst unit := acquire_flag (λ s, plock (pi s)) set_plock.
Definition release_pipe : K pst unit := release_flag (λ s, plock (pi s)) set_plock.

(** How a segment ends. *)
Inductive ending := Sleep (chan : pipe_chan) (i : Z) | Done (r : Z).

(** copyin and copyout of one byte of user memory. *)
Definition copyin1 (a : Z) : K pst (option Z) := gets (λ s, umem s !! u64 a).
Definition copyout1 (a c : Z) : K pst bool := λ s,
  match umem s !! u64 a with
  | Some _ => Ok true (mkPst (pi s) (<[u64 a := c]> (umem s)) (woken s) (freed s))
  | None => Ok false s
  end.

(** What pipealloc stores in the page it allocated. *)
Definition pipe_init (d : list Z) : pipe := mkPipe d 0 0 true true false.

Definition pipeclose (writable : bool) : K pst unit :=
  acquire_pipe ;;;
  (if writable then
     modify (set_pi (λ p, mkPipe (data p) (nread p) (nwrite p) (readopen p) false (plock p))) ;;;
     wakeup ChRead
   else
     modify (set_pi (λ p, mkPipe (data p) (nread p) (nwrite p) false (writeopen p) (plock p))) ;;;
     wakeup ChWrite) ;;;
  p <- gets pi ;;;
  if negb (readopen p) && negb (writeopen p) then
    release_pipe ;;; modify (λ s, mkPst (pi s) (umem s) (woken s) true)
  else release_pipe.

(** [pi->data[pi->nwrite++ % PIPESIZE] = ch] *)
Definition put_byte (ch : Z) (p : pipe) : pipe :=
  mkPipe (<[Z.to_nat (nwrite p mod PIPESIZE) := ch]> (data p)) (nread p) (u32 (nwrite p + 1))
    (readopen p) (writeopen p) (plock p).

(** [ch = pi->data[pi->nread++ % PIPESIZE]]: the byte and the pipe after. *)
Definition take_byte (p : pipe) : Z * pipe :=
  (data p !!! Z.to_nat (nread p mod PIPESIZE),
   mkPipe (data p) (u32 (nread p + 1)) (nwrite p) (readopen p) (writeopen p) (plock p)).

(** A segment of pipewrite that starts with the loop variable [i]. *)
Definition pipewrite (killed : Z → bool) (addr n i : Z) : K pst ending :=
  acquire_pipe ;;;
  iter (S (Z.to_nat (n - i))) (λ i,
    if i <? n then
      p <- gets pi ;;;
      if negb (readopen p) || killed i then release_pipe ;;; ret (inr (Done (-1)))
      else if nwrite p =? u32 (nread p + PIPESIZE) then
        wakeup ChRead ;;; release_pipe ;;; ret (inr (Sleep ChWrite i))
      else
        ch <- copyin1 (addr + i) ;;;
        match ch with
        | None => wakeup ChRead ;;; release_pipe ;;; ret (inr (Done i))
        | Some ch => modify (set_pi (put_byte ch)) ;;; ret (inl (i + 1))
        end
    else wakeup ChRead ;;; release_pipe ;;; ret (inr (Done i))) i.

(** A segment of piperead; it sleeps only in the first loop, where no byte has
    been read yet. *)
Definition piperead (killed : bool) (addr n : Z) : K pst ending :=
  acquire_pipe ;;;
  p <- gets pi ;;;
  if (nread p =? nwrite p) && writeopen p then
    release_pipe ;;; (if killed then ret (Done (-1)) else ret (Sleep ChRead 0))
  else
    i <- iter (S (Z.to_nat n)) (λ i,
      if i <? n then
        p <- gets pi ;;;
        if nread p =? nwrite p then ret (inr i)
        else
          let '(ch, p') := take_byte p in
          modify (set_pi (λ _, p')) ;;;
          ok <- copyout1 (addr + i) ch ;;;
          if negb ok then ret (inr i) else ret (inl (i + 1))
      else ret (inr i)) 0 ;;;
    wakeup ChWrite ;;; release_pipe ;;; ret (Done i).

(** ** The queue a pipe holds *)

Definition pring (p : pipe) (q : list Z) : Prop := ring PIPESIZE (2 ^ 32) (data p) (nread p) (nwrite p) q.

Definition pinv (s : pst) (q : list Z) : Prop := pring (pi s) q ∧ plock (pi s) = false.

Lemma PIPE_ok : 0 < PIPESIZE < 2 ^ 32.
Proof. done. Qed.
Lemma PIPE_mod : 2 ^ 32 mod PIPESIZE = 0.
Proof. done. Qed.

Lemma pring_put p q ch :
  pring p q → zlen q < PIPESIZE → pring (put_byte ch p) (q ++ [ch]).
Proof. intros H Hl. by apply (ring_push _ _ PIPE_ok PIPE_mod). Qed.

Lemma pring_take p q ch :
  pring p (ch :: q) → fst (take_byte p) = ch ∧ pring (snd (take_byte p)) q.
Proof.
  intros H. destruct (ring_pop _ _ PIPE_ok PIPE_mod _ _ _ _ _ H) as [Hl Hr]. split; [|done].
  simpl. by rewrite (list_lookup_total_correct _ _ _ Hl).
Qed.

(** The bytes of user memory from [a] on, [bs] if they are all mapped. *)
Definition ubytes_are (um : gmap Z Z) (a : Z) (bs : list Z) : Prop :=
  ∀ k c, bs !! k = Some c → um !! u64 (a + Z.of_nat k) = Some c.

Lemma ubytes_snoc um a bs c :
  ubytes_are um a bs → um !! u64 (a + zlen bs) = Some c → ubytes_are um a (bs ++ [c]).
Proof.
  intros H Hc k x Hx. destruct (decide (k < length bs)%nat) as [Hlt|Hge].
  - rewrite lookup_app_l in Hx by done. by apply H.
  - rewrite lookup_app_r in Hx by lia. pose proof (lookup_lt_Some _ _ _ Hx) as Hl. simpl in Hl.
    assert (k = length bs) as -> by lia. rewrite Nat.sub_diag in Hx. by injection Hx as ->.
Qed.

(** What pipewrite guarantees of one segment that starts at [i] on a pipe
    holding [q]: the bytes [bs] were appended. *)
Definition write_post (killed : Z → bool) (addr n i : Z) (s : pst) (q : list Z) (e : ending) (s' : pst) : Prop :=
  ∃ bs, pinv s' (q ++ bs) ∧ ubytes_are (umem s) (addr + i) bs ∧
    umem s' = umem s ∧ freed s' = freed s ∧ nread (pi s') = nread (pi s) ∧
    readopen (pi s') = readopen (pi s) ∧ writeopen (pi s') = writeopen (pi s) ∧
    let i' := i + zlen bs in
    match e with
    | Done r =>
        r = -1 ∧ i' < n ∧ (readopen (pi s) = false ∨ killed i' = true) ∧ woken s' = woken s ∨
        r = i' ∧ (n <= i' ∨ umem s !! u64 (addr + i') = None) ∧ woken s' = ChRead :: woken s
    | Sleep c j =>
        c = ChWrite ∧ j = i' ∧ i' < n ∧ zlen (q ++ bs) = PIPESIZE ∧ woken s' = ChRead :: woken s
    end.

Lemma runs_acquire_pipe s Q :
  plock (pi s) = false → Q tt (set_plock true s) → runs acquire_pipe s Q.
Proof. intros. by apply runs_acquire_flag. Qed.

Lemma runs_release_pipe s Q :
  plock (pi s) = true → Q tt (set_plock false s) → runs release_pipe s Q.
Proof. intros. by apply runs_release_flag. Qed.

(** The state inside a segment: the lock is held. *)
Definition pheld (s : pst) (q : list Z) : Prop := pring (pi s) q ∧ plock (pi s) = true.

Lemma pinv_release s q : pheld s q → pinv (set_plock false s) q.
Proof. intros [H _]. by split. Qed.

Lemma pinv_acquire s q : pinv s q → pheld (set_plock true s) q.
Proof. intros [H _]. by split. Qed.

Lemma runs_pipewrite killed addr n i s q :
  pinv s q → i <= n → runs (pipewrite killed addr n i) s (write_post killed addr n i s q).
Proof.
  intros Hinv Hi. unfold pipewrite. apply runs_bind, runs_acquire_pipe; [apply Hinv|].
  apply (runs_iter _ (λ m j s1, ∃ bs, m = Z.to_nat (n - j) ∧ j = i + zlen bs ∧ j <= n ∧
      pheld s1 (q ++ bs) ∧ ubytes_are (umem s) (addr + i) bs ∧ umem s1 = umem s ∧ freed s1 = freed s ∧
      nread (pi s1) = nread (pi s) ∧ readopen (pi s1) = readopen (pi s) ∧
      writeopen (pi s1) = writeopen (pi s) ∧ woken s1 = woken s)) with (n := Z.to_nat (n - i)); [|..|lia].
  2: { exists []. rewrite app_nil_r. simpl. rewrite Z.add_0_r. split_and!; try (done || lia). by apply pinv_acquire. }
  intros m j s1 (bs & -> & -> & Hj & [Hr Hl] & Hu & Hum & Hfr & Hnr & Hro & Hwo & Hwk).
  assert (Hend : ∀ w e, e = Done (i + zlen bs) ∧ (n <= i + zlen bs ∨ umem s !! u64 (addr + (i + zlen bs)) = None)
      ∧ w = ChRead :: woken s ∨
      e = Done (-1) ∧ i + zlen bs < n ∧ (readopen (pi s) = false ∨ killed (i + zlen bs) = true) ∧ w = woken s ∨
      e = Sleep ChWrite (i + zlen bs) ∧ i + zlen bs < n ∧ zlen (q ++ bs) = PIPESIZE ∧ w = ChRead :: woken s →
      write_post killed addr n i s q e (set_plock false (mkPst (pi s1) (umem s1) w (freed s1)))).
  { intros w e He. exists bs. split_and!; try done.
    destruct He as [(-> & ? & ->)|[(-> & ? & ? & ->)|(-> & ? & ? & ->)]]; simpl; auto 10. }
  destruct (Z.ltb_spec (i + zlen bs) n) as [Hlt|]; cycle 1.
  { unfold wakeup. kred. apply runs_release_pipe; [done|]. kred. rewrite Hwk. apply Hend. left. auto. }
  kred. rewrite Hro. destruct (readopen (pi s)) eqn:Ero; simpl negb; [destruct (killed _) eqn:Ek|];
    simpl orb; cbv iota.
  1, 3: kred; apply runs_release_pipe; [done|]; kred; destruct s1; simpl in *; subst;
    apply Hend; right; left; auto 10.
  destruct (Z.eqb_spec (nwrite (pi s1)) (u32 (nread (pi s1) + PIPESIZE))) as [Hf|Hf].
  { unfold wakeup. kred. apply runs_release_pipe; [done|]. kred. rewrite Hwk. apply Hend. right. right.
    apply (ring_full _ _ PIPE_ok) in Hr. split_and!; [done|done| |done]. by apply Hr. }
  unfold copyin1. kred. rewrite Hum. destruct (umem s !! u64 (addr + (i + zlen bs))) as [ch|] eqn:Ech; cycle 1.
  { unfold wakeup. kred. apply runs_release_pipe; [done|]. kred. rewrite Hwk. apply Hend. left. auto. }
  kred. exists (Z.to_nat (n - (i + zlen bs + 1))). split; [lia|]. exists (bs ++ [ch]).
  rewrite length_app. simpl. split_and!; try (done || lia).
  - rewrite app_assoc. split; [|done]. apply pring_put; [done|].
    destruct (decide (zlen (q ++ bs) = PIPESIZE)) as [E|]; [by apply (ring_full _ _ PIPE_ok _ _ _ _ Hr) in E|].
    destruct Hr as (_ & _ & _ & ? & _). lia.
  - apply ubytes_snoc; [done|]. by rewrite <-Z.add_assoc.
Qed.

(** What piperead guarantees of one segment on a pipe holding [q]: the bytes
    [ds] were delivered; [ls] holds the byte taken from the pipe whose copy to
    user memory failed, if there is one. *)
Definition read_post (killed : bool) (addr n : Z) (s : pst) (q : list Z) (e : ending) (s' : pst) : Prop :=
  ∃ ds ls q', q = ds ++ ls ++ q' ∧ pinv s' q' ∧ ubytes_are (umem s') addr ds ∧
    (∀ a, (∀ i, 0 <= i < zlen ds → a ≠ u64 (addr + i)) → umem s' !! a = umem s !! a) ∧
    freed s' = freed s ∧ nwrite (pi s') = nwrite (pi s) ∧
    readopen (pi s') = readopen (pi s) ∧ writeopen (pi s') = writeopen (pi s) ∧
    match e with
    | Done r =>
        r = -1 ∧ killed = true ∧ q = [] ∧ writeopen (pi s) = true ∧ woken s' = woken s ∨
        r = zlen ds ∧ (q ≠ [] ∨ writeopen (pi s) = false) ∧ woken s' = ChWrite :: woken s ∧
        (ls = [] ∧ (q' = [] ∨ zlen ds = Z.max 0 n) ∨
         length ls = 1%nat ∧ umem s !! u64 (addr + zlen ds) = None)
    | Sleep c j =>
        c = ChRead ∧ killed = false ∧ q = [] ∧ writeopen (pi s) = true ∧ woken s' = woken s
    end.

Lemma runs_copyout1 a c s Q :
  match umem s !! u64 a with
  | Some _ => Q true (mkPst (pi s) (<[u64 a := c]> (umem s)) (woken s) (freed s))
  | None => Q false s
  end → runs (copyout1 a c) s Q.
Proof. unfold copyout1, runs. by destruct (umem s !! u64 a). Qed.

Lemma u64_add_ne a i j : 0 <= i < 2 ^ 32 → 0 <= j < 2 ^ 32 → i ≠ j → u64 (a + i) ≠ u64 (a + j).
Proof. unfold u64. intros. Z.div_mod_to_equations. lia. Qed.

Lemma runs_read_loop addr n s q :
  pheld s q → n < 2 ^ 31 →
  runs (iter (S (Z.to_nat n)) (λ i,
      if i <? n then
        p <- gets pi ;;;
        if nread p =? nwrite p then ret (inr i)
        else
          let '(ch, p') := take_byte p in
          modify (set_pi (λ _, p')) ;;;
          ok <- copyout1 (addr + i) ch ;;;
          if negb ok then ret (inr i) else ret (inl (i + 1))
      else ret (inr i)) 0) s (λ r s', ∃ ds ls q', r = zlen ds ∧ q = ds ++ ls ++ q' ∧ pheld s' q' ∧
    ubytes_are (umem s') addr ds ∧
    (∀ a, (∀ i, 0 <= i < zlen ds → a ≠ u64 (addr + i)) → umem s' !! a = umem s !! a) ∧
    freed s' = freed s ∧ nwrite (pi s') = nwrite (pi s) ∧
    readopen (pi s') = readopen (pi s) ∧ writeopen (pi s') = writeopen (pi s) ∧ woken s' = woken s ∧
    (ls = [] ∧ (q' = [] ∨ zlen ds = Z.max 0 n) ∨
     length ls = 1%nat ∧ umem s !! u64 (addr + zlen ds) = None)).
Proof.
  intros Hinv Hn.
  apply (runs_iter _ (λ m i s1, ∃ ds q', m = Z.to_nat (n - i) ∧ i = zlen ds ∧ i <= Z.max 0 n ∧
      q = ds ++ q' ∧ pheld s1 q' ∧ ubytes_are (umem s1) addr ds ∧
      (∀ a, (∀ i, 0 <= i < zlen ds → a ≠ u64 (addr + i)) → umem s1 !! a = umem s !! a) ∧
      freed s1 = freed s ∧ nwrite (pi s1) = nwrite (pi s) ∧
      readopen (pi s1) = readopen (pi s) ∧ writeopen (pi s1) = writeopen (pi s) ∧ woken s1 = woken s))
    with (n := Z.to_nat n); [| |lia].
  2: { exists [], q. split_and!; try (done || (simpl; lia)). }
  intros m i s1 (ds & q' & -> & -> & Hi & Hq & [Hr Hl] & Hu & Ho & Hfr & Hnw & Hro & Hwo & Hwk).
  destruct (Z.ltb_spec (zlen ds) n) as [Hlt|]; cycle 1.
  { kred. exists ds, [], q'. split_and!; try done. left. split; [done|]. right. lia. }
  kred. destruct (Z.eqb_spec (nread (pi s1)) (nwrite (pi s1))) as [E|E].
  { kred. exists ds, [], q'. split_and!; try done. left. split; [done|]. left.
    by apply (ring_empty _ _ PIPE_ok _ _ _ _ Hr). }
  destruct q' as [|ch q'].
  { destruct E. by apply (ring_empty _ _ PIPE_ok _ _ _ _ Hr). }
  destruct (pring_take _ _ _ Hr) as [Hch Hr']. unfold take_byte. kred.
  fold (snd (take_byte (pi s1))). change (data (pi s1) !!! _) with (fst (take_byte (pi s1))). rewrite Hch.
  assert (Hu1 : umem s1 !! u64 (addr + zlen ds) = umem s !! u64 (addr + zlen ds)).
  { apply Ho. intros j Hj. apply u64_add_ne; lia. }
  apply runs_copyout1. cbn [umem set_pi].
  destruct (umem s1 !! u64 (addr + zlen ds)) as [c0|] eqn:Ec; simpl negb; cbv iota; kred.
  - exists (Z.to_nat (n - (zlen ds + 1))). split; [lia|]. exists (ds ++ [ch]), q'.
    rewrite length_app. simpl. split_and!; try (done || lia).
    + by rewrite <-app_assoc.
    + intros k x Hx. cbn [umem]. destruct (decide (k < length ds)%nat) as [Hk|Hk].
      * rewrite lookup_app_l in Hx by done. rewrite lookup_insert_ne; [by apply Hu|]. apply u64_add_ne; lia.
      * rewrite lookup_app_r in Hx by lia. pose proof (lookup_lt_Some _ _ _ Hx) as Hl'. simpl in Hl'.
        assert (k = length ds) as -> by lia. rewrite Nat.sub_diag in Hx. injection Hx as ->.
        by rewrite lookup_insert_eq.
    + intros a Ha. cbn [umem]. rewrite lookup_insert_ne by (apply not_eq_sym, Ha; lia).
      apply Ho. intros j Hj. apply Ha. lia.
  - exists ds, [ch], q'. split_and!; try done. right. by rewrite <-Hu1.
Qed.

Lemma runs_piperead killed addr n s q :
  pinv s q → n < 2 ^ 31 → runs (piperead killed addr n) s (read_post killed addr n s q).
Proof.
  intros Hinv Hn. pose proof Hinv as [Hr Hl]. unfold piperead.
  apply runs_bind, runs_acquire_pipe; [done|]. kred. cbn [pi set_plock set_pi nread nwrite writeopen].
  pose proof (ring_empty _ _ PIPE_ok _ _ _ _ Hr) as Hem.
  destruct (decide (q = [] ∧ writeopen (pi s) = true)) as [[-> Ewo]|Hne].
  - rewrite Ewo, (proj2 Hem eq_refl), Z.eqb_refl. simpl andb. cbv iota.
    apply runs_bind, runs_release_pipe; [done|].
    destruct killed; kred; exists [], [], []; split_and!; try done. left. auto.
  - assert ((nread (pi s) =? nwrite (pi s)) && writeopen (pi s) = false) as ->.
    { apply andb_false_iff. destruct (Z.eqb_spec (nread (pi s)) (nwrite (pi s))) as [E|]; [right|by left].
      apply Hem in E. destruct (writeopen (pi s)); naive_solver. }
    apply runs_bind. eapply runs_mono; [apply (runs_read_loop _ _ _ q); [by apply pinv_acquire|done]|].
    intros i s1 (ds & ls & q' & -> & Hq & Hh & Hu & Ho & Hf & Hw & Hro & Hwo & Hwk & Hres).
    unfold wakeup. kred. apply runs_release_pipe; [apply Hh|]. kred. exists ds, ls, q'.
    split; [done|]. split; [split; [apply Hh|done]|]. split_and!; try done.
    right. split_and!; [done| |by simpl; rewrite Hwk|done].
    destruct q; [right|by left]. clear - Hne. destruct (writeopen (pi s)); naive_solver.
Qed.

(** ** Any number of readers and writers *)

(** The state of a pipe in use, with the bytes the writers have put in and the
    bytes taken out so far. *)
Record psys := mkSys { spipe : pipe; sent : list Z; taken : list Z }.

(** The first [n] bytes of user memory from [a]. *)
Definition ubytes (um : gmap Z Z) (a n : Z) : list Z :=
  (λ k, default 0 (um !! u64 (a + k))) <$> seqZ 0 n.

(** One segment by some process with memory [um], or the closing of one end
    while the other is still open.  [sent] grows by the bytes of the writer's
    buffer that the segment accepted, [taken] by the bytes found in the
    reader's buffer plus the byte whose delivery failed. *)
Inductive psys_step : psys → psys → Prop :=
  | step_write killed addr n i um wk e p' um' wk' fr p snt tk :
      0 <= i <= n →
      pipewrite killed addr n i (mkPst p um wk false) = Ok e (mkPst p' um' wk' fr) →
      psys_step (mkSys p snt tk)
        (mkSys p' (snt ++ ubytes um (addr + i) (u32 (nwrite p' - nwrite p))) tk)
  | step_read killed addr n um wk e p' um' wk' fr p snt tk :
      n < 2 ^ 31 →
      piperead killed addr n (mkPst p um wk false) = Ok e (mkPst p' um' wk' fr) →
      let r := match e with Done r => Z.max 0 r | Sleep _ _ => 0 end in
      psys_step (mkSys p snt tk)
        (mkSys p' snt (tk ++ ubytes um' addr r ++
           if r <? u32 (nread p' - nread p) then [data p !!! Z.to_nat ((nread p + r) mod PIPESIZE)] else []))
  | step_close writable um wk p' um' wk' p snt tk :
      pipeclose writable (mkPst p um wk false) = Ok tt (mkPst p' um' wk' false) →
      psys_step (mkSys p snt tk) (mkSys p' snt tk).

Definition psys_inv (s : psys) : Prop :=
  ∃ q, sent s = taken s ++ q ∧ pring (spipe s) q ∧ plock (spipe s) = false.

Lemma ubytes_eq um a bs : ubytes_are um a bs → ubytes um a (zlen bs) = bs.
Proof.
  intros H. apply list_eq. intros i. unfold ubytes. rewrite list_lookup_fmap.
  destruct (bs !! i) as [c|] eqn:E.
  - rewrite lookup_seqZ_lt by (apply lookup_lt_Some in E; lia). simpl.
    change (0 + Z.of_nat i) with (Z.of_nat i). by rewrite (H i c).
  - rewrite lookup_seqZ_ge; [done|]. apply lookup_ge_None in E. lia.
Qed.

Lemma pring_count p q : pring p q → u32 (nwrite p - nread p) = zlen q.
Proof. apply (ring_len _ _ PIPE_ok). Qed.

Lemma pring_delta p p' q q' :
  pring p q → pring p' q' → zlen q <= PIPESIZE →
  nread p' = nread p → u32 (nwrite p' - nwrite p) = u32 (zlen q' - zlen q).
Proof.
  intros H H' _ E. rewrite <-(pring_count _ _ H), <-(pring_count _ _ H'), E. unfold u32.
  rewrite <-Zminus_mod. f_equal. lia.
Qed.

Lemma pring_len p q : pring p q → 0 <= zlen q <= PIPESIZE.
Proof. intros (_ & _ & _ & ? & _). lia. Qed.

Lemma psys_step_inv s s' : psys_step s s' → psys_inv s → psys_inv s'.
Proof.
  intros Hstep (q & Hs & Hr & Hl).
  destruct Hstep as [killed addr n i um wk e p' um' wk' fr p snt tk Hi Hrun
    |killed addr n um wk e p' um' wk' fr p snt tk Hn Hrun r|writable um wk p' um' wk' p snt tk Hrun];
    simpl in *; subst.
  - assert (H := runs_pipewrite killed addr n i (mkPst p um wk false) q (conj Hr Hl) ltac:(lia)).
    unfold runs in H. rewrite Hrun in H. destruct H as (bs & [Hr' Hl'] & Hu & _ & _ & Hnr & _). simpl in *.
    exists (q ++ bs). simpl. split_and!; [|done|done]. rewrite <-app_assoc. do 2 f_equal.
    pose proof (pring_len _ _ Hr). pose proof (pring_len _ _ Hr') as Hlen. rewrite length_app in Hlen.
    assert (u32 (nwrite p' - nwrite p) = zlen bs) as ->.
    { rewrite (pring_delta _ _ _ _ Hr Hr') by (done || lia). rewrite length_app.
      unfold u32, PIPESIZE in *. rewrite Z.mod_small; lia. }
    by apply ubytes_eq.
  - assert (H := runs_piperead killed addr n (mkPst p um wk false) q (conj Hr Hl) Hn).
    unfold runs in H. rewrite Hrun in H.
    destruct H as (ds & ls & q' & -> & [Hr' Hl'] & Hu & _ & _ & Hnw & _ & _ & Hres). simpl in *.
    exists q'. simpl. split_and!; [|done|done]. rewrite <-!app_assoc. f_equal.
    pose proof (pring_len _ _ Hr) as Hlen. rewrite !length_app in Hlen.
    assert (Hcnt : u32 (nread p' - nread p) = zlen ds + zlen ls).
    { pose proof (pring_count _ _ Hr) as E1. pose proof (pring_count _ _ Hr') as E2.
      rewrite !length_app in E1. unfold u32, PIPESIZE in *. rewrite Hnw in E2.
      transitivity ((((nwrite p - nread p) mod 2 ^ 32) - ((nwrite p - nread p') mod 2 ^ 32)) mod 2 ^ 32).
      - rewrite <-Zminus_mod. f_equal. lia.
      - rewrite E1, E2, Z.mod_small; lia. }
    assert (Hrd : r = zlen ds).
    { subst r. destruct e as [c j|r].
      - destruct Hres as (_ & _ & Hq & _). destruct ds; [done|done].
      - destruct Hres as [(-> & _ & Hq & _)|(-> & _)]; [by destruct ds|lia]. }
    rewrite Hrd, (ubytes_eq _ _ _ Hu), Hcnt. f_equal. destruct (Z.ltb_spec (zlen ds) (zlen ds + zlen ls)).
    + destruct ls as [|c [|c' ls]]; [simpl in *; lia| |].
      * f_equal. destruct Hr as (_ & _ & _ & _ & Hidx).
        specialize (Hidx (length ds) c). rewrite lookup_app_r, Nat.sub_diag in Hidx by lia.
        symmetry. f_equal. apply list_lookup_total_correct. by apply Hidx.
      * exfalso. destruct e as [|]; [destruct Hres as (_ & _ & Hq & _); by destruct ds|].
        destruct Hres as [(_ & _ & Hq & _)|(_ & _ & _ & [[? _]|[? _]])]; [by destruct ds|done|done].
    + destruct ls; [done|simpl in *; lia].
  - exists q. simpl. unfold pipeclose, acquire_pipe, acquire_flag, bind, release_pipe, release_flag in Hrun.
    simpl in Hrun. rewrite Hl in Hrun.
    destruct writable; simpl in Hrun; destruct (readopen p) eqn:E1, (writeopen p) eqn:E2; simpl in Hrun;
      simplify_eq; done.
Qed.

Lemma psys_reach_inv s s' : rtc psys_step s s' → psys_inv s → psys_inv s'.
Proof. induction 1; [done|]. intros. by eapply IHrtc, psys_step_inv. Qed.

(** ** Properties *)

(** [C29] A pipe is a bounded FIFO: under any interleaving of the segments of
    any number of readers and writers, with any buffers, any of them being
    killed, and either end being closed, the bytes taken out are, in order,
    the bytes put in except for the at most 512 pending ones, which the
    counters account for even after they have wrapped around. *)
Theorem pipe_fifo (d : list Z) (s : psys) :
  zlen d = PIPESIZE →
  rtc psys_step (mkSys (pipe_init d) [] []) s →
  ∃ q, sent s = taken s ++ q ∧ zlen q <= PIPESIZE ∧ u32 (nwrite (spipe s) - nread (spipe s)) = zlen q.
Proof.
  intros Hd Hsteps. apply psys_reach_inv in Hsteps as (q & Hs & Hr & _).
  - exists q. split_and!; [done|by apply (pring_len (spipe s))|by apply pring_count].
  - exists []. split_and!; [done| |done]. by apply (ring_init _ _ PIPE_ok).
Qed.

Lemma pipe_fifo_witness :
  let d := replicate 512 0 in
  let um : gmap Z Z := <[4096 := 7]> (<[4097 := 9]> ∅) in
  ∃ s, rtc psys_step (mkSys (pipe_init d) [] []) s ∧ sent s = [7; 9] ∧
    ∃ q, sent s = taken s ++ q ∧ zlen q <= PIPESIZE ∧ u32 (nwrite (spipe s) - nread (spipe s)) = zlen q.
Proof.
  intros d um.
  assert (Hstep : ∃ p', psys_step (mkSys (pipe_init d) [] []) (mkSys p' [7; 9] [])).
  { destruct (pipewrite (λ _, false) 4096 2 0 (mkPst (pipe_init d) um [] false))
      as [e [p' um' wk' fr]| | | |] eqn:E; [|by vm_compute in E..].
    exists p'. pose proof (step_write (λ _, false) 4096 2 0 um [] e p' um' wk' fr (pipe_init d) [] [] ltac:(lia) E)
      as H.
    replace ([] ++ ubytes um (4096 + 0) (u32 (nwrite p' - nwrite (pipe_init d)))) with [7; 9] in H; [exact H|].
    vm_compute in E. injection E as <- <- <- <- <-. by vm_compute. }
  destruct Hstep as [p' Hstep]. exists (mkSys p' [7; 9] []).
  assert (Hr : rtc psys_step (mkSys (pipe_init d) [] []) (mkSys p' [7; 9] [])) by by apply rtc_once.
  split; [exact Hr|]. split; [done|]. apply (pipe_fifo d); [by vm_compute|exact Hr].
Defined.

(** What one segment of pipewrite and of piperead does, on every branch.
    Neither panics.  A writer appends the bytes of its buffer up to the end of
    the buffer, the first unmapped byte or the filling of the pipe; it fails
    only when the read end is closed or it is killed, it sleeps only when the
    pipe is full, and it has woken the readers whenever it sleeps or returns
    a count.  A reader delivers the oldest bytes, unchanged and in order, and
    nothing else in its memory changes; it sleeps only when the pipe is empty
    and the write end open, and a reader that returns a count has woken the
    writers. *)
Theorem pipe_segments (kw : Z → bool) (kr : bool) (addr n i : Z) (s : pst) (q : list Z) :
  pinv s q → i <= n → n < 2 ^ 31 →
  (∃ e s', pipewrite kw addr n i s = Ok e s' ∧ write_post kw addr n i s q e s') ∧
  (∃ e s', piperead kr addr n s = Ok e s' ∧ read_post kr addr n s q e s').
Proof.
  intros Hinv Hi Hn. split; apply runs_elim; [by apply runs_pipewrite|by apply runs_piperead].
Qed.

Lemma pipe_segments_witness :
  let s := mkPst (pipe_init (replicate 512 0)) (<[4096 := 7]> ∅) [] false in
  (∃ e s', pipewrite (λ _, false) 4096 3 0 s = Ok e s' ∧ write_post (λ _, false) 4096 3 0 s [] e s') ∧
  (∃ e s', piperead false 4096 3 s = Ok e s' ∧ read_post false 4096 3 s [] e s').
Proof.
  intros s. apply (pipe_segments (λ _, false) false 4096 3 0 s []); [|lia|lia].
  split; [|done]. apply (ring_init _ _ PIPE_ok). by vm_compute.
Defined.
