(* ===== verification/Console.v ===== *)
(** kernel/uart.c and kernel/console.c: the serial port driver and the console
    line discipline.

    The device is outside the program: the values its line status and receive
    registers will return are the lists [lsr] and [rhr] (a status of 0 when the
    list is used up), and the values written to its registers are recorded in
    [wires].  Calls that sleep are split into segments under the lock, as in
    Pipe.v.  procdump (proc.c), which the console calls on control-P, is an
    argument of the definitions that reach it. *)

From S2P Require Import Prelude Riscv Spinlock Ring.
Local Open Scope kernel_scope.

(** ** uart.c *)

Definition RHR : Z := 0.
Definition THR : Z := 0.
Definition IER : Z := 1.
Definition IER_RX_ENABLE : Z := Z.shiftl 1 0.
Definition IER_TX_ENABLE : Z := Z.shiftl 1 1.
Definition FCR : Z := 2.
Definition FCR_FIFO_ENABLE : Z := Z.shiftl 1 0.
Definition FCR_FIFO_CLEAR : Z := Z.shiftl 3 1.
Definition LCR : Z := 3.
Definition LCR_EIGHT_BITS : Z := Z.shiftl 3 0.
Definition LCR_BAUD_LATCH : Z := Z.shiftl 1 7.
Definition LSR_TX_IDLE : Z := Z.shiftl 1 5.
Definition UART_TX_BUF_SIZE : Z := 32.
Definition INPUT_BUF_SIZE : Z := 128.

Inductive tty_chan := ChTx | ChCons.

Record tty := mkTty {
  (* uart.c *)
  tx_lock : bool; uart_tx_buf : list Z; uart_tx_w : Z; uart_tx_r : Z;
  (* console.c *)
  cons_lock : bool; cons_buf : list Z; cons_r : Z; cons_w : Z; cons_e : Z;
  (* the device *)
  lsr : list Z; rhr : list Z; wires : list (Z * Z);
  (* the rest of the kernel *)
  panicked : bool; cpu : hart; tty_woken : list tty_chan
}.

Definition set_tx (lk : bool) (buf : list Z) (w r : Z) (s : tty) : tty :=
  mkTty lk buf w r (cons_lock s) (cons_buf s) (cons_r s) (cons_w s) (cons_e s)
    (lsr s) (rhr s) (wires s) (panicked s) (cpu s) (tty_woken s).
Definition set_cons (lk : bool) (buf : list Z) (r w e : Z) (s : tty) : tty :=
  mkTty (tx_lock s) (uart_tx_buf s) (uart_tx_w s) (uart_tx_r s) lk buf r w e
    (lsr s) (rhr s) (wires s) (panicked s) (cpu s) (tty_woken s).
Definition set_dev (l h : list Z) (ws : list (Z * Z)) (s : tty) : tty :=
  mkTty (tx_lock s) (uart_tx_buf s) (uart_tx_w s) (uart_tx_r s)
    (cons_lock s) (cons_buf s) (cons_r s) (cons_w s) (cons_e s) l h ws (panicked s) (cpu s) (tty_woken s).
Definition set_cpu (h : hart) (s : tty) : tty :=
  mkTty (tx_lock s) (uart_tx_buf s) (uart_tx_w s) (uart_tx_r s)
    (cons_lock s) (cons_buf s) (cons_r s) (cons_w s) (cons_e s)
    (lsr s) (rhr s) (wires s) (panicked s) h (tty_woken s).
Definition tty_wakeup (c : tty_chan) : K tty unit := modify (λ s,
  mkTty (tx_lock s) (uart_tx_buf s) (uart_tx_w s) (uart_tx_r s)
    (cons_lock s) (cons_buf s) (cons_r s) (cons_w s) (cons_e s)
    (lsr s) (rhr s) (wires s) (panicked s) (cpu s) (c :: tty_woken s)).

Definition set_tx_lock (b : bool) (s : tty) : tty :=
  set_tx b (uart_tx_buf s) (uart_tx_w s) (uart_tx_r s) s.
Definition set_cons_lock (b : bool) (s : tty) : tty :=
  set_cons b (cons_buf s) (cons_r s) (cons_w s) (cons_e s) s.

Definition on_cpu {A} (m : K hart A) : K tty A := λ s,
  match m (cpu s) with
  | Ok a h => Ok a (set_cpu h s)
  | Panic msg => Panic msg
  | Blocked c h => Blocked c (set_cpu h s)
  | UB w => UB w
  | NoFuel => NoFuel
  end.

Definition ReadLSR : K tty Z := λ s,
  match lsr s with
  | [] => Ok 0 s
  | v :: l => Ok (u8 v) (set_dev l (rhr s) (wires s) s)
  end.
Definition ReadRHR : K tty Z := λ s,
  match rhr s with
  | [] => Ok 0 s
  | v :: h => Ok (u8 v) (set_dev (lsr s) h (wires s) s)
  end.
Definition WriteReg (reg v : Z) : K tty unit :=
  modify (λ s, set_dev (lsr s) (rhr s) (wires s ++ [(reg, u8 v)]) s).

Definition uartinit : K tty unit :=
  WriteReg IER 0x00 ;;;
  WriteReg LCR LCR_BAUD_LATCH ;;;
  WriteReg 0 0x03 ;;;
  WriteReg 1 0x00 ;;;
  WriteReg LCR LCR_EIGHT_BITS ;;;
  WriteReg FCR (Z.lor FCR_FIFO_ENABLE FCR_FIFO_CLEAR) ;;;
  WriteReg IER (Z.lor IER_TX_ENABLE IER_RX_ENABLE) ;;;
  modify (set_tx_lock false).

(** The loop sends at most the pending bytes. *)
Definition uartstart : K tty unit :=
  n <- gets (λ s, Z.to_nat (u64 (uart_tx_w s - uart_tx_r s))) ;;;
  iter (S n) (λ _ : unit,
    s <- get ;;;
    if uart_tx_w s =? uart_tx_r s then ret (inr tt)
    else
      v <- ReadLSR ;;;
      if Z.land v LSR_TX_IDLE =? 0 then ret (inr tt)
      else
        s <- get ;;;
        let c := uart_tx_buf s !!! Z.to_nat (uart_tx_r s mod UART_TX_BUF_SIZE) in
        modify (λ s, set_tx (tx_lock s) (uart_tx_buf s) (uart_tx_w s) (u64 (uart_tx_r s + 1)) s) ;;;
        tty_wakeup ChTx ;;;
        WriteReg THR c ;;;
        ret (inl tt)) tt.

(** A segment of uartputc, the first one or one that continues after sleep:
    [true] when the byte was queued, [false] when it sleeps on [&uart_tx_r]. *)
Definition uartputc (first : bool) (c : Z) : K tty bool :=
  acquire_flag tx_lock set_tx_lock ;;;
  s <- get ;;;
  if first && panicked s then λ _, NoFuel
  else if uart_tx_w s =? u64 (uart_tx_r s + UART_TX_BUF_SIZE) then
    release_flag tx_lock set_tx_lock ;;; ret false
  else
    modify (λ s, set_tx (tx_lock s) (<[Z.to_nat (uart_tx_w s mod UART_TX_BUF_SIZE) := u8 c]> (uart_tx_buf s))
                   (u64 (uart_tx_w s + 1)) (uart_tx_r s) s) ;;;
    uartstart ;;;
    release_flag tx_lock set_tx_lock ;;;
    ret true.

(** Spins until the device reports that it is idle; spinning on a device that
    never does is [NoFuel]. *)
Definition uartputc_sync (c : Z) : K tty unit :=
  on_cpu push_off ;;;
  s <- get ;;;
  if panicked s then λ _, NoFuel
  else
    iter (S (length (lsr s))) (λ _ : unit,
      v <- ReadLSR ;;;
      if Z.land v LSR_TX_IDLE =? 0 then ret (inl tt) else ret (inr tt)) tt ;;;
    WriteReg THR c ;;;
    on_cpu pop_off.

Definition uartgetc : K tty Z :=
  v <- ReadLSR ;;;
  if negb (Z.land v 0x01 =? 0) then ReadRHR else ret (-1).

(** ** console.c *)

Definition BACKSPACE : Z := 0x100.
Definition C (x : Z) : Z := x - 64.

Definition consputc (c : Z) : K tty unit :=
  if c =? BACKSPACE then uartputc_sync 8 ;;; uartputc_sync 32 ;;; uartputc_sync 8
  else uartputc_sync c.

(** How a segment of a console system call ends: sleeping with the values of
    its local variables, or returning. *)
Inductive cons_end (A : Type) := CSleep (chan : tty_chan) (locals : A) | CDone (r : Z).
Arguments CSleep {A} chan locals.
Arguments CDone {A} r.

(** A segment of consolewrite; [rd] is what either_copyin returns for each
    source address.  It sleeps inside uartputc, holding the byte it copied. *)
Definition consolewrite (rd : Z → option Z) (src n i : Z) (held : option Z) : K tty (cons_end (Z * Z)) :=
  iter (S (Z.to_nat (n - i))) (λ '(i, held),
    if i <? n then
      match held, rd (u64 (src + i)) with
      | Some c, _ =>
          ok <- uartputc false c ;;;
          if ok : bool then ret (inl (i + 1, None)) else ret (inr (CSleep ChTx (i, c)))
      | None, None => ret (inr (CDone i))
      | None, Some c =>
          ok <- uartputc true c ;;;
          if ok : bool then ret (inl (i + 1, None)) else ret (inr (CSleep ChTx (i, c)))
      end
    else ret (inr (CDone i))) (i, held).

Definition set_cons_r (r : Z) (s : tty) : tty :=
  set_cons (cons_lock s) (cons_buf s) r (cons_w s) (cons_e s) s.
Definition set_cons_e (e : Z) (s : tty) : tty :=
  set_cons (cons_lock s) (cons_buf s) (cons_r s) (cons_w s) e s.

Definition release_cons : K tty unit := release_flag cons_lock set_cons_lock.

(** A segment of consoleread, entered with the remaining count [n] of a call
    for [target] bytes.  [wok] says for which addresses either_copyout
    succeeds; the bytes copied out are part of the result. *)
Definition consoleread (killed : bool) (wok : Z → bool) (target dst n : Z) :
    K tty (cons_end (Z * Z) * list (Z * Z)) :=
  acquire_flag cons_lock set_cons_lock ;;;
  iter (S (Z.to_nat n)) (λ '(dst, n, out),
    let leave := release_cons ;;; ret (inr (CDone (s32 (target - n)), out)) in
    if n >? 0 then
      s <- get ;;;
      if cons_r s =? cons_w s then
        release_cons ;;;
        (if killed then ret (inr (CDone (-1), out)) else ret (inr (CSleep ChCons (dst, n), out)))
      else
        let c := cons_buf s !!! Z.to_nat (cons_r s mod INPUT_BUF_SIZE) in
        modify (λ s, set_cons_r (u32 (cons_r s + 1)) s) ;;;
        if c =? C 68 then
          (if n <? target then modify (λ s, set_cons_r (u32 (cons_r s - 1)) s) else ret tt) ;;;
          leave
        else if negb (wok (u64 dst)) then leave
        else
          let out' := out ++ [(u64 dst, c)] in
          if c =? 10 then
            release_cons ;;; ret (inr (CDone (s32 (target - (n - 1))), out'))
          else ret (inl (dst + 1, n - 1, out'))
    else leave) (dst, n, []).

Section Intr.
(** procdump of proc.c, which only prints. *)
Context (procdump : K tty unit).

(** The loop of control-U erases at most the pending characters. *)
Definition kill_line : K tty unit :=
  n <- gets (λ s, Z.to_nat (u32 (cons_e s - cons_w s))) ;;;
  iter (S n) (λ _ : unit,
    s <- get ;;;
    if negb (cons_e s =? cons_w s) &&
       negb (cons_buf s !!! Z.to_nat (u32 (cons_e s - 1) mod INPUT_BUF_SIZE) =? 10) then
      modify (λ s, set_cons_e (u32 (cons_e s - 1)) s) ;;;
      consputc BACKSPACE ;;;
      ret (inl tt)
    else ret (inr tt)) tt.

Definition consoleintr (c : Z) : K tty unit :=
  acquire_flag cons_lock set_cons_lock ;;;
  (if c =? C 80 then procdump
   else if c =? C 85 then kill_line
   else if (c =? C 72) || (c =? 127) then
     s <- get ;;;
     if negb (cons_e s =? cons_w s) then
       modify (λ s, set_cons_e (u32 (cons_e s - 1)) s) ;;; consputc BACKSPACE
     else ret tt
   else
     s <- get ;;;
     if negb (c =? 0) && (u32 (cons_e s - cons_r s) <? INPUT_BUF_SIZE) then
       let c := if c =? 13 then 10 else c in
       consputc c ;;;
       modify (λ s, set_cons (cons_lock s)
         (<[Z.to_nat (cons_e s mod INPUT_BUF_SIZE) := u8 c]> (cons_buf s))
         (cons_r s) (cons_w s) (u32 (cons_e s + 1)) s) ;;;
       s <- get ;;;
       if (c =? 10) || (c =? C 68) || (u32 (cons_e s - cons_r s) =? INPUT_BUF_SIZE) then
         modify (λ s, set_cons (cons_lock s) (cons_buf s) (cons_r s) (cons_e s) (cons_e s) s) ;;;
         tty_wakeup ChCons
       else ret tt
     else ret tt) ;;;
  release_cons.

(** The loop of uartintr consumes one received byte per round. *)
Definition uartintr : K tty unit :=
  n <- gets (λ s, length (lsr s)) ;;;
  iter (S n) (λ _ : unit,
    c <- uartgetc ;;;
    if c =? -1 then ret (inr tt) else consoleintr c ;;; ret (inl tt)) tt ;;;
  acquire_flag tx_lock set_tx_lock ;;;
  uartstart ;;;
  release_flag tx_lock set_tx_lock.
End Intr.

Definition consoleinit : K tty unit := modify (set_cons_lock false) ;;; uartinit.
