(* ===== verification/ConsoleSpec.v ===== *)
(** Correctness of the UART driver and of the console line discipline
    (definitions in Console.v). *)

From S2P Require Import Prelude Riscv Spinlock Ring Console.
Local Open Scope kernel_scope.

(** ** The transmit buffer *)

Definition tx_ring (s : tty) (q : list Z) : Prop :=
  ring UART_TX_BUF_SIZE (2 ^ 64) (uart_tx_buf s) (uart_tx_r s) (uart_tx_w s) q.

Lemma TX_ok : 0 < UART_TX_BUF_SIZE < 2 ^ 64.
Proof. done. Qed.
Lemma TX_mod : 2 ^ 64 mod UART_TX_BUF_SIZE = 0.
Proof. done. Qed.

(** The states differ at most in the transmit buffer, the device and the
    channels woken. *)
Definition tx_frame (s s' : tty) : Prop :=
  cons_lock s' = cons_lock s ∧ cons_buf s' = cons_buf s ∧ cons_r s' = cons_r s ∧ cons_w s' = cons_w s ∧
  cons_e s' = cons_e s ∧ rhr s' = rhr s ∧ panicked s' = panicked s ∧ cpu s' = cpu s.

Lemma tx_frame_refl s : tx_frame s s.
Proof. by repeat split. Qed.
Lemma tx_frame_trans s1 s2 s3 : tx_frame s1 s2 → tx_frame s2 s3 → tx_frame s1 s3.
Proof. unfold tx_frame. intros. destruct_and!. split_and!; congruence. Qed.

Definition sent_bytes (ds : list Z) : list (Z * Z) := (λ c, (THR, u8 c)) <$> ds.

Lemma runs_ReadLSR s Q :
  (∀ v l, (lsr s = [] ∧ v = 0 ∧ l = [] ∨ ∃ x, lsr s = x :: l ∧ v = u8 x) →
     Q v (set_dev l (rhr s) (wires s) s)) →
  runs ReadLSR s Q.
Proof.
  intros HQ. unfold ReadLSR, runs. destruct (lsr s) as [|x l] eqn:E.
  - assert (Hs : set_dev [] (rhr s) (wires s) s = s) by (rewrite <-E; by destruct s).
    specialize (HQ 0 []). rewrite Hs in HQ. auto.
  - apply HQ. eauto.
Qed.

(** The bytes [ds] of the queue [q] have been handed to the device. *)
Definition started (s : tty) (q : list Z) (s' : tty) (ds q' : list Z) : Prop :=
  q = ds ++ q' ∧ tx_ring s' q' ∧ wires s' = wires s ++ sent_bytes ds ∧ tx_frame s s' ∧
  tx_lock s' = tx_lock s ∧ (ds ≠ [] → ChTx ∈ tty_woken s').

Lemma runs_uartstart s q :
  tx_ring s q → runs uartstart s (λ _ s', ∃ ds q', started s q s' ds q').
Proof.
  intros Hr. unfold uartstart. kred. pose proof (ring_len _ _ TX_ok _ _ _ _ Hr) as Hlen.
  fold (u64 (uart_tx_w s - uart_tx_r s)) in Hlen. rewrite Hlen, Nat2Z.id.
  apply (runs_iter _ (λ n _ s1, ∃ ds q', n = length q' ∧ started s q s1 ds q'))
    with (n := length q); [| |lia].
  2: { exists [], q. unfold started. rewrite app_nil_r. split_and!; done || apply tx_frame_refl. }
  intros n [] s1 (ds & q' & -> & -> & Hr1 & Hw & Hf & Hl & Hwk). kred.
  destruct (Z.eqb_spec (uart_tx_w s1) (uart_tx_r s1)) as [E|E].
  { kred. by exists ds, q'. }
  destruct q' as [|c q'].
  { destruct E. symmetry. by apply (ring_empty _ _ TX_ok _ _ _ _ Hr1). }
  destruct (ring_pop _ _ TX_ok TX_mod _ _ _ _ _ Hr1) as [Hc Hr2].
  apply runs_bind, runs_ReadLSR. intros v l _. destruct (Z.land v LSR_TX_IDLE =? 0).
  { kred. exists ds, (c :: q'). split_and!; done || apply Hf. }
  unfold tty_wakeup, WriteReg. kred. cbn [uart_tx_buf uart_tx_r set_dev].
  rewrite (list_lookup_total_correct _ _ _ Hc).
  exists (length q'). split; [simpl; lia|]. exists (ds ++ [c]), q'. split; [done|].
  split; [by rewrite <-app_assoc|]. split_and!; try (done || apply Hf).
  - simpl. rewrite Hw, <-app_assoc. unfold sent_bytes. by rewrite fmap_app.
  - intros _. by left.
Qed.

(** A segment of uartputc: the byte is queued behind the pending ones, or the
    buffer is full and nothing changes. *)
Lemma runs_uartputc first s q c :
  tx_ring s q → tx_lock s = false → panicked s = false →
  runs (uartputc first c) s (λ ok s',
    if ok : bool then zlen q < UART_TX_BUF_SIZE ∧
      ∃ ds q', started s (q ++ [u8 c]) s' ds q'
    else zlen q = UART_TX_BUF_SIZE ∧ s' = s).
Proof.
  intros Hr Hl Hp. unfold uartputc. apply runs_bind, runs_acquire_flag; [done|].
  kred. cbn [panicked set_tx_lock set_tx uart_tx_w uart_tx_r]. rewrite Hp, andb_false_r.
  pose proof (ring_full _ _ TX_ok _ _ _ _ Hr) as Hfull. 
  destruct (Z.eqb_spec (uart_tx_w s) (u64 (uart_tx_r s + UART_TX_BUF_SIZE))) as [E|E].
  { apply runs_bind, runs_release_flag; [done|]. kred. split; [by apply Hfull|].
    destruct s; simpl in *; by subst. }
  assert (Hlt : zlen q < UART_TX_BUF_SIZE).
  { destruct (decide (zlen q = UART_TX_BUF_SIZE)) as [F|]; [by apply Hfull in F|].
    destruct Hr as (_ & _ & _ & ? & _). lia. }
  kred. eapply runs_mono; [apply (runs_uartstart _ (q ++ [u8 c]));
    by apply (ring_push _ _ TX_ok TX_mod)|].
  intros [] s1 (ds & q' & Hq & Hr1 & Hw & Hf & Hl1 & Hwk).
  apply runs_bind, runs_release_flag; [done|]. kred. split; [done|].
  exists ds, q'. split_and!; try (done || apply Hf).
Qed.

(** ** Echo through the polled output *)

Definition idle (v : Z) : bool := negb (Z.land (u8 v) LSR_TX_IDLE =? 0).

(** How many bytes the device will still accept. *)
Definition idle_count (l : list Z) : Z := zlen (filter (λ v, idle v = true) l).

(** The states differ at most in the device and in the interrupt state. *)
Definition echo_frame (s s' : tty) : Prop :=
  tx_lock s' = tx_lock s ∧ uart_tx_buf s' = uart_tx_buf s ∧ uart_tx_w s' = uart_tx_w s ∧
  uart_tx_r s' = uart_tx_r s ∧ cons_lock s' = cons_lock s ∧ cons_buf s' = cons_buf s ∧
  cons_r s' = cons_r s ∧ cons_w s' = cons_w s ∧ cons_e s' = cons_e s ∧ rhr s' = rhr s ∧
  panicked s' = panicked s ∧ tty_woken s' = tty_woken s ∧ hart_wf (cpu s').

(** What echoing [out] does. *)
Definition echoed (out : list Z) (s s' : tty) : Prop :=
  echo_frame s s' ∧ wires s' = wires s ++ sent_bytes out ∧
  idle_count (lsr s') = idle_count (lsr s) - zlen out.

Lemma echoed_app o1 o2 s1 s2 s3 : echoed o1 s1 s2 → echoed o2 s2 s3 → echoed (o1 ++ o2) s1 s3.
Proof.
  intros (F1 & W1 & I1) (F2 & W2 & I2). split_and!.
  - unfold echo_frame in *. destruct_and!. split_and!; congruence || done.
  - rewrite W2, W1, <-app_assoc. unfold sent_bytes. by rewrite fmap_app.
  - rewrite length_app. lia.
Qed.

Lemma runs_on_cpu {A} (m : K hart A) s a h Q :
  m (cpu s) = Ok a h → Q a (set_cpu h s) → runs (on_cpu m) s Q.
Proof. intros Hm HQ. unfold on_cpu, runs. by rewrite Hm. Qed.

Lemma idle_count_cons v l : idle_count (v :: l) = (if idle v then 1 else 0) + idle_count l.
Proof.
  unfold idle_count. rewrite filter_cons. destruct (idle v); simpl; [lia|].
  by destruct (decide (false = true)).
Qed.

(** Spinning stops at the first reading that reports an idle device. *)
Lemma runs_spin s :
  0 < idle_count (lsr s) →
  runs (iter (S (length (lsr s))) (λ _ : unit,
      v <- ReadLSR ;;;
      if Z.land v LSR_TX_IDLE =? 0 then ret (inl tt) else ret (inr tt)) tt) s
    (λ _ s', ∃ l, s' = set_dev l (rhr s) (wires s) s ∧ idle_count l = idle_count (lsr s) - 1).
Proof.
  intros Hpos.
  apply (runs_iter _ (λ n _ s1, ∃ l, n = length l ∧ s1 = set_dev l (rhr s) (wires s) s ∧
    idle_count l = idle_count (lsr s))) with (n := length (lsr s)); [| |lia].
  2: { exists (lsr s). split_and!; [done|by destruct s|done]. }
  intros n [] s1 (l & -> & -> & Hc). apply runs_bind, runs_ReadLSR. cbn [lsr set_dev rhr wires].
  intros v l' [(-> & _)|(x & -> & ->)]; [unfold idle_count in *; simpl in *; lia|].
  rewrite idle_count_cons in Hc. unfold idle in Hc.
  destruct (Z.land (u8 x) LSR_TX_IDLE =? 0); simpl in Hc; kred.
  - exists (length l'). split; [simpl; lia|]. exists l'. split_and!; [done|done|lia].
  - exists l'. split; [done|lia].
Qed.

Lemma runs_uartputc_sync c s :
  hart_wf (cpu s) → panicked s = false → 0 < idle_count (lsr s) →
  runs (uartputc_sync c) s (λ _ s', echoed [c] s s').
Proof.
  intros Hh Hp Hi. unfold uartputc_sync. apply runs_bind. eapply runs_on_cpu; [apply push_off_eq|].
  kred. cbn [panicked set_cpu lsr]. rewrite Hp. apply runs_bind.
  eapply runs_mono; [by apply (runs_spin (set_cpu _ s))|]. intros [] s1 (l & -> & Hl).
  unfold WriteReg. kred. cbn [lsr rhr wires set_dev set_cpu cpu]. eapply runs_on_cpu.
  { apply pop_off_eq; [done|]. simpl. destruct Hh. lia. }
  split_and!; [unfold echo_frame; split_and!; try done|done|simpl in *; lia].
  simpl. destruct Hh. split; simpl; [lia|]. intros H'. destruct (Z.eqb_spec (noff (cpu s) + 1) 1); [lia|]. done.
Qed.

(** The bytes consputc sends for a character. *)
Definition echo_of (c : Z) : list Z := if c =? BACKSPACE then [8; 32; 8] else [c].

Lemma runs_consputc c s :
  hart_wf (cpu s) → panicked s = false → 3 <= idle_count (lsr s) →
  runs (consputc c) s (λ _ s', echoed (echo_of c) s s').
Proof.
  intros Hh Hp Hi. unfold consputc, echo_of. destruct (c =? BACKSPACE); [|by apply runs_uartputc_sync; try lia].
  apply runs_bind. eapply runs_mono; [by apply runs_uartputc_sync; try lia|].
  intros [] s1 E1. pose proof E1 as (F1 & _ & I1). unfold echo_frame in F1. destruct_and!. simpl in I1.
  apply runs_bind. eapply runs_mono; [apply runs_uartputc_sync; [done|congruence|lia]|].
  intros [] s2 E2. pose proof E2 as (F2 & _ & I2). unfold echo_frame in F2. destruct_and!. simpl in I2.
  eapply runs_mono; [apply runs_uartputc_sync; [done|congruence|lia]|]. intros [] s3 E3.
  by apply (echoed_app [8] [32; 8] s s1), (echoed_app [32] [8] s1 s2).
Qed.

(** ** The line editor *)

(** The input buffer holds the lines that were entered, not read yet ([comm]),
    followed by the line being edited ([ed]). *)
Definition cring (s : tty) (comm ed : list Z) : Prop :=
  ring INPUT_BUF_SIZE (2 ^ 32) (cons_buf s) (cons_r s) (cons_e s) (comm ++ ed) ∧
  cons_w s = u32 (cons_r s + zlen comm) ∧ 10 ∉ ed.

Lemma CONS_ok : 0 < INPUT_BUF_SIZE < 2 ^ 32.
Proof. done. Qed.
Lemma CONS_mod : 2 ^ 32 mod INPUT_BUF_SIZE = 0.
Proof. done. Qed.

Definition erase : list Z := [8; 32; 8].

(** The editor as a function: the text after the character [c] and what is
    echoed. *)
Definition editor (c : Z) (comm ed : list Z) : list Z * list Z * list Z :=
  if c =? C 85 then (comm, [], concat (replicate (length ed) erase))
  else if (c =? C 72) || (c =? 127) then
    (comm, take (length ed - 1) ed, if decide (ed = []) then [] else erase)
  else if negb (c =? 0) && (zlen (comm ++ ed) <? INPUT_BUF_SIZE) then
    let c := if c =? 13 then 10 else c in
    if (c =? 10) || (c =? C 68) || (zlen (comm ++ ed ++ [c]) =? INPUT_BUF_SIZE)
    then (comm ++ ed ++ [c], [], [c]) else (comm, ed ++ [c], [c])
  else (comm, ed, []).

Lemma cring_len s comm ed : cring s comm ed → zlen (comm ++ ed) <= INPUT_BUF_SIZE.
Proof. intros ((_ & _ & _ & ? & _) & _). done. Qed.

Lemma cring_edit_len s comm ed : cring s comm ed → u32 (cons_e s - cons_w s) = zlen ed.
Proof.
  intros Hc. pose proof (cring_len _ _ _ Hc) as Hl. rewrite length_app in Hl.
  destruct Hc as ((_ & _ & -> & _) & -> & _). unfold u32, INPUT_BUF_SIZE in *.
  rewrite <-Zminus_mod, length_app.
  replace (cons_r s + Z.of_nat (length comm + length ed) - (cons_r s + zlen comm)) with (zlen ed) by lia.
  apply Z.mod_small. lia.
Qed.

(** The test [cons.e != cons.w]. *)
Lemma cring_editing s comm ed : cring s comm ed → cons_e s = cons_w s ↔ ed = [].
Proof.
  intros Hc. pose proof (cring_edit_len _ _ _ Hc) as He. split.
  - intros E. rewrite E, Z.sub_diag in He. destruct ed; [done|]. change (u32 0) with 0 in He. simpl in He. lia.
  - intros ->. destruct Hc as ((_ & Hr & -> & _) & -> & _). by rewrite app_nil_r.
Qed.

Lemma cring_frame s s' comm ed : echo_frame s s' → cring s comm ed → cring s' comm ed.
Proof. unfold echo_frame, cring. intros. destruct_and!. split_and!; congruence. Qed.

Lemma cring_drop s comm ed c :
  cring s comm (ed ++ [c]) →
  cons_buf s !! Z.to_nat (u32 (cons_e s - 1) mod INPUT_BUF_SIZE) = Some c ∧
  cring (set_cons_e (u32 (cons_e s - 1)) s) comm ed.
Proof.
  intros (Hr & Hw & Hn). rewrite app_assoc in Hr.
  destruct (ring_drop _ _ CONS_ok CONS_mod _ _ _ _ _ Hr) as [Hl Hr']. split; [done|].
  split_and!; [done|done|]. intros H. apply Hn. apply elem_of_app. by left.
Qed.

(** What one character typed does to the state, besides the text. *)
Record intr_post (s : tty) (out : list Z) (s' : tty) : Prop := {
  ip_tx : uart_tx_buf s' = uart_tx_buf s ∧ uart_tx_w s' = uart_tx_w s ∧ uart_tx_r s' = uart_tx_r s ∧
    tx_lock s' = tx_lock s;
  ip_r : cons_r s' = cons_r s;
  ip_lock : cons_lock s' = cons_lock s;
  ip_panicked : panicked s' = panicked s;
  ip_hart : hart_wf (cpu s');
  ip_wires : wires s' = wires s ++ sent_bytes out;
  ip_idle : idle_count (lsr s') = idle_count (lsr s) - zlen out
}.

Lemma intr_post_refl s : hart_wf (cpu s) → intr_post s [] s.
Proof. intros. split; try done; [by rewrite app_nil_r|simpl; lia]. Qed.

Lemma intr_post_trans s1 o1 s2 o2 s3 : intr_post s1 o1 s2 → intr_post s2 o2 s3 → intr_post s1 (o1 ++ o2) s3.
Proof.
  intros [(? & ? & ? & ?)] [(? & ? & ? & ?)]. split; try congruence; [split_and!; congruence| |].
  - rewrite ip_wires1, ip_wires0, <-app_assoc. unfold sent_bytes. by rewrite fmap_app.
  - rewrite length_app. lia.
Qed.

Lemma echoed_post out s s' : echoed out s s' → intr_post s out s'.
Proof. intros (F & W & I). unfold echo_frame in F. destruct_and!. by split. Qed.

Lemma post_set_cons lk buf w e s : hart_wf (cpu s) → lk = cons_lock s → intr_post s [] (set_cons lk buf (cons_r s) w e s).
Proof. intros ? ->. split; try done; simpl; [by rewrite app_nil_r|lia]. Qed.

Lemma runs_kill_line s comm ed :
  cring s comm ed → hart_wf (cpu s) → panicked s = false → 3 * zlen ed <= idle_count (lsr s) →
  runs kill_line s (λ _ s', cring s' comm [] ∧ intr_post s (concat (replicate (length ed) erase)) s' ∧
    tty_woken s' = tty_woken s).
Proof.
  intros Hc Hh Hp Hi. unfold kill_line. kred. rewrite (cring_edit_len _ _ _ Hc), Nat2Z.id.
  apply (runs_iter _ (λ n _ s1, ∃ ed1 k, n = length ed1 ∧ (n + k = length ed)%nat ∧ cring s1 comm ed1 ∧
    intr_post s (concat (replicate k erase)) s1 ∧ tty_woken s1 = tty_woken s)) with (n := length ed); [| |lia].
  2: { exists ed, 0%nat. split_and!; try (done || lia). by apply intr_post_refl. }
  intros n [] s1 (ed1 & k & -> & Hk & Hc1 & Hpost & Hwk). kred.
  destruct ed1 as [|c ed1 _] using rev_ind.
  { rewrite (proj2 (cring_editing _ _ _ Hc1) eq_refl), Z.eqb_refl. kred.
    simpl in Hk. subst k. done. }
  destruct (Z.eqb_spec (cons_e s1) (cons_w s1)) as [E|E].
  { apply (cring_editing _ _ _ Hc1) in E. by destruct ed1. }
  destruct (cring_drop _ _ _ _ Hc1) as [Hl Hc2]. rewrite (list_lookup_total_correct _ _ _ Hl).
  destruct (Z.eqb_spec c 10) as [->|Hne].
  { destruct Hc1 as (_ & _ & Hn). destruct Hn. apply elem_of_app. right. by left. }
  simpl andb. cbv iota. kred. pose proof Hpost as [_ _ _ Hp1 Hh1 _ Hi1].
  assert (Hlen : zlen (concat (replicate k erase)) = 3 * Z.of_nat k).
  { clear. induction k as [|k IH]; [done|]. simpl. rewrite !Nat2Z.inj_succ. lia. }
  rewrite length_app in Hk. simpl in Hk.
  eapply runs_mono; [apply runs_consputc; [done|simpl; congruence|simpl; lia]|]. intros [] s2 He. kred.
  exists (length ed1). split; [rewrite length_app; simpl; lia|]. exists ed1, (S k).
  split_and!; [done|lia|by eapply cring_frame; [apply He|]| |].
  - rewrite replicate_S_end, concat_app.
    eapply intr_post_trans; [exact Hpost|]. apply (intr_post_trans _ [] (set_cons_e (u32 (cons_e s1 - 1)) s1)).
    + by apply post_set_cons.
    + by apply echoed_post.
  - destruct He as [F _]. unfold echo_frame in F. destruct_and!. simpl in *. congruence.
Qed.

Lemma cring_push s comm ed c :
  cring s comm ed → zlen (comm ++ ed) < INPUT_BUF_SIZE →
  ring INPUT_BUF_SIZE (2 ^ 32)
    (<[Z.to_nat (cons_e s mod INPUT_BUF_SIZE) := c]> (cons_buf s)) (cons_r s) (u32 (cons_e s + 1))
    (comm ++ ed ++ [c]).
Proof. intros (Hr & _) Hlt. rewrite app_assoc. by apply (ring_push _ _ CONS_ok CONS_mod). Qed.

Lemma cring_count s comm ed : cring s comm ed → u32 (cons_e s - cons_r s) = zlen (comm ++ ed).
Proof. intros (Hr & _). by apply (ring_len _ _ CONS_ok) in Hr. Qed.

(** The characters other than control-P, which starts procdump. *)
Lemma runs_consoleintr pd c s comm ed comm' ed' out :
  cring s comm ed → cons_lock s = false → hart_wf (cpu s) → panicked s = false →
  0 <= c < 256 → c ≠ C 80 → 3 * INPUT_BUF_SIZE <= idle_count (lsr s) →
  editor c comm ed = (comm', ed', out) →
  runs (consoleintr pd c) s (λ _ s', cring s' comm' ed' ∧ intr_post s out s' ∧
    tty_woken s' = if decide (comm' = comm) then tty_woken s else ChCons :: tty_woken s).
Proof.
  intros Hc Hl Hh Hp Hrange HP Hi. unfold consoleintr, editor.
  set (s0 := set_cons_lock true s).
  assert (Hc0 : cring s0 comm ed) by done.
  assert (H0 : intr_post s [] (set_cons_lock false s0)) by by apply (post_set_cons _ _ _ _ s).
  pose proof (cring_len _ _ _ Hc) as Hlen. unfold INPUT_BUF_SIZE in Hi, Hlen. rewrite length_app in Hlen.
  assert (Hrel : ∀ s1 o, intr_post s0 o s1 → intr_post s o (set_cons_lock false s1)).
  { intros s1 o H1. destruct H1. split; done. }
  intros He. apply runs_bind, runs_acquire_flag; [done|]. fold s0. apply runs_bind.
  destruct (Z.eqb_spec c (C 80)); [done|]. destruct (Z.eqb_spec c (C 85)) as [->|].
  { injection He as <- <- <-. eapply runs_mono; [apply (runs_kill_line s0 comm ed); try done; simpl; lia|].
    intros [] s1 (Hc1 & H1 & Hw1). apply runs_release_flag; [apply H1|].
    split_and!; [done|by apply Hrel|]. by rewrite decide_True. }
  destruct ((c =? C 72) || (c =? 127)) eqn:Ebs.
  { injection He as <- <- <-. rewrite (decide_True (P := comm = comm)) by done. kred.
    destruct ed as [|x ed _] using rev_ind.
    - rewrite (proj2 (cring_editing _ _ _ Hc0) eq_refl), Z.eqb_refl. kred.
      apply runs_release_flag; [done|]. done.
    - destruct (Z.eqb_spec (cons_e s0) (cons_w s0)) as [E|_].
      { apply (cring_editing _ _ _ Hc0) in E. by destruct ed. }
      destruct (cring_drop _ _ _ _ Hc0) as [_ Hc1]. kred.
      eapply runs_mono; [apply runs_consputc; [done|done|simpl; lia]|]. intros [] s1 He1.
      pose proof He1 as [F _]. unfold echo_frame in F. destruct_and!.
      apply runs_release_flag; [done|]. rewrite length_app. simpl.
      replace (length ed + 1 - 1)%nat with (length ed) by lia. rewrite take_app_length.
      rewrite decide_False by by destruct ed. split_and!; [|apply Hrel|done].
      + change (cring s1 comm ed). by eapply cring_frame; [apply He1|].
      + apply (intr_post_trans s0 [] (set_cons_e (u32 (cons_e s0 - 1)) s0)); [by apply post_set_cons|].
        by apply echoed_post. }
  kred. rewrite (cring_count _ _ _ Hc0).
  destruct (negb (c =? 0) && (zlen (comm ++ ed) <? INPUT_BUF_SIZE)) eqn:Eacc; cycle 1.
  { injection He as <- <- <-. kred. apply runs_release_flag; [done|]. split_and!; [done|done|].
    by rewrite decide_True. }
  apply andb_prop in Eacc as [_ Hlt%Z.ltb_lt]. set (d := if c =? 13 then 10 else c) in *.
  assert (Hd : u8 d = d) by (apply u8_small; unfold d; destruct (c =? 13); lia).
  assert (Hd2 : echo_of d = [d]).
  { unfold echo_of, BACKSPACE. destruct (Z.eqb_spec d 256) as [E|]; [|done].
    unfold d in E. destruct (c =? 13); lia. }
  kred. eapply runs_mono; [apply runs_consputc; [done|done|simpl; lia]|]. intros [] s1 He1. rewrite Hd2 in He1.
  pose proof He1 as [F _]. unfold echo_frame in F. destruct_and!. kred. rewrite Hd.
  assert (Hc1 : cring s1 comm ed) by by eapply cring_frame; [apply He1|].
  pose proof (cring_push _ _ _ d Hc1 Hlt) as Hr. cbn [cons_e cons_r set_cons].
  set (s2 := set_cons _ _ _ _ _ s1).
  assert (Hcnt : u32 (u32 (cons_e s1 + 1) - cons_r s1) = zlen (comm ++ ed ++ [d])).
  { by apply (ring_len _ _ CONS_ok) in Hr. }
  assert (Hpost : ∀ w, intr_post s0 [d] (set_cons (cons_lock s1)
    (<[Z.to_nat (cons_e s1 mod INPUT_BUF_SIZE):=d]> (cons_buf s1)) (cons_r s1) w (u32 (cons_e s1 + 1)) s1)).
  { intros w. apply (intr_post_trans s0 [d] s1 []); [by apply echoed_post|by apply post_set_cons]. }
  rewrite Hcnt. destruct ((d =? 10) || (d =? C 68) || (zlen (comm ++ ed ++ [d]) =? INPUT_BUF_SIZE)) eqn:Ew;
    injection He as <- <- <-; unfold tty_wakeup; kred; (apply runs_release_flag; [done|]).
  - rewrite decide_False.
    + split; [split_and!; [by rewrite app_nil_r| |by apply not_elem_of_nil]|split; [|by simpl; f_equal]].
      * simpl. destruct Hr as (_ & _ & -> & _). done.
      * apply Hrel. destruct (Hpost (u32 (cons_e s1 + 1))). by split.
    + intros E. apply (f_equal length) in E. rewrite !length_app in E. simpl in E. lia.
  - rewrite decide_True by done. split; [split_and!; [done|by apply Hc1|]|split; [|done]].
    + apply orb_false_elim in Ew as [[Ew _]%orb_false_elim _]. rewrite elem_of_app, list_elem_of_singleton.
      destruct Hc1 as (_ & _ & Hn). apply Z.eqb_neq in Ew. intros [?| E]; [done|by rewrite <-E in Ew].
    + apply Hrel. apply (Hpost (cons_w s1)).
Qed.

(** ** Reading lines *)

(** consoleread on the queue of entered characters: how the segment ends, the
    bytes copied out and what is left.  Reading stops after a newline, at
    control-D (which stays in place if something has been read already), at a
    bad address, or when [n] bytes have been read. *)
Fixpoint reads (killed : bool) (wok : Z → bool) (target dst n : Z) (out : list (Z * Z)) (comm : list Z) :
    cons_end (Z * Z) * list (Z * Z) * list Z :=
  if n <=? 0 then (CDone (target - n), out, comm)
  else
    match comm with
    | [] => (if killed then CDone (-1) else CSleep ChCons (dst, n), out, [])
    | c :: rest =>
        if c =? C 68 then (CDone (target - n), out, if n <? target then comm else rest)
        else if negb (wok (u64 dst)) then (CDone (target - n), out, rest)
        else if c =? 10 then (CDone (target - (n - 1)), out ++ [(u64 dst, c)], rest)
        else reads killed wok target (dst + 1) (n - 1) (out ++ [(u64 dst, c)]) rest
    end.

Lemma cring_pop s c comm ed :
  cring s (c :: comm) ed →
  cons_buf s !! Z.to_nat (cons_r s mod INPUT_BUF_SIZE) = Some c ∧
  cring (set_cons_r (u32 (cons_r s + 1)) s) comm ed.
Proof.
  intros (Hr & Hw & Hn). destruct (ring_pop _ _ CONS_ok CONS_mod _ _ _ _ _ Hr) as [Hl Hr'].
  split; [done|]. split_and!; [done| |done]. simpl. rewrite Hw. unfold u32. rewrite Zplus_mod_idemp_l.
  f_equal. simpl. lia.
Qed.

Lemma cring_committed s comm ed : cring s comm ed → cons_r s = cons_w s ↔ comm = [].
Proof.
  intros Hc. pose proof (cring_len _ _ _ Hc) as Hl. rewrite length_app in Hl. unfold INPUT_BUF_SIZE in Hl.
  destruct Hc as ((_ & Hr & _) & -> & _). unfold u32. split.
  - intros E. destruct comm; [done|]. exfalso. simpl in *. Z.div_mod_to_equations. lia.
  - intros ->. simpl. rewrite Z.add_0_r, Z.mod_small; done.
Qed.

Lemma u32_undo x : 0 <= x < 2 ^ 32 → u32 (u32 (x + 1) - 1) = x.
Proof. intros. unfold u32. Z.div_mod_to_equations. lia. Qed.

(** consoleread changes nothing but its read index. *)
Definition read_frame (s s' : tty) : Prop := ∃ r, s' = set_cons_r r s.

Lemma runs_release_ret {A} (x : A) s Q :
  cons_lock s = true → Q x (set_cons_lock false s) → runs (release_cons ;;; ret x) s Q.
Proof. intros. apply runs_bind, runs_release_flag; [done|]. by kred. Qed.

Lemma runs_consoleread killed wok target dst n s comm ed e out comm' :
  cring s comm ed → cons_lock s = false → 0 <= n <= target → target < 2 ^ 31 →
  reads killed wok target dst n [] comm = (e, out, comm') →
  runs (consoleread killed wok target dst n) s (λ r s',
    r = (e, out) ∧ cring s' comm' ed ∧ read_frame s s').
Proof.
  intros Hc Hl Hn Ht Hsp. unfold consoleread. apply runs_bind, runs_acquire_flag; [done|].
  apply (runs_iter _ (λ m '(dst1, n1, out1) s1, ∃ comm1 r, m = Z.to_nat n1 ∧ 0 <= n1 <= target ∧
    cring s1 comm1 ed ∧ s1 = set_cons_r r (set_cons_lock true s) ∧
    reads killed wok target dst1 n1 out1 comm1 = (e, out, comm'))) with (n := Z.to_nat n); [| |lia].
  2: { exists comm, (cons_r s). split_and!; try (done || lia). }
  intros m [[dst1 n1] out1] s1 (comm1 & r & -> & Hn1 & Hc1 & Hs1 & Hsp1). cbv zeta.
  assert (Hok : ∀ s2 e2 o2 c2, cring s2 c2 ed → (∃ r, s2 = set_cons_r r (set_cons_lock true s)) →
    (e2, o2, c2) = (e, out, comm') → cons_lock s2 = true ∧
    (e2, o2) = (e, out) ∧ cring (set_cons_lock false s2) comm' ed ∧ read_frame s (set_cons_lock false s2)).
  { intros s2 e2 o2 c2 Hc2 [r2 ->] [= -> -> ->]. split_and!; [done|done|done|]. exists r2.
    destruct s. simpl in *. by subst. }
  assert (Hs32 : ∀ k, 0 <= k <= target → s32 (target - k) = target - k) by (intros; apply s32_small; lia).
  destruct comm1 as [|c comm1]; cbn [reads] in Hsp1; destruct (Z.leb_spec n1 0) as [Hle|Hgt];
    rewrite Z.gtb_ltb; destruct (Z.ltb_spec 0 n1); try lia.
  1, 3: rewrite Hs32 by lia; (apply runs_release_ret; [by rewrite Hs1|]); by eapply Hok; eauto.
  - kred. rewrite (proj2 (cring_committed _ _ _ Hc1) eq_refl), Z.eqb_refl. apply runs_bind, runs_release_flag.
    { by rewrite Hs1. }
    destruct killed; kred; by eapply Hok; eauto.
  - kred. destruct (Z.eqb_spec (cons_r s1) (cons_w s1)) as [E|_].
    { by apply (cring_committed _ _ _ Hc1) in E. }
    destruct (cring_pop _ _ _ _ Hc1) as [Hlk Hc2]. rewrite (list_lookup_total_correct _ _ _ Hlk). kred.
    assert (Hr2 : ∃ r2, set_cons_r (u32 (cons_r s1 + 1)) s1 = set_cons_r r2 (set_cons_lock true s)).
    { eexists. by rewrite Hs1. }
    destruct (c =? C 68); [|destruct (negb (wok (u64 dst1))); [|destruct (c =? 10)]].
    + rewrite Hs32 by lia. destruct (n1 <? target); kred; (apply runs_release_flag; [by rewrite Hs1|]); kred.
      * eapply Hok; [| |done]; [|eexists; by rewrite Hs1].
        cbn [cons_r set_cons_r set_cons]. rewrite u32_undo by apply Hc1.
        by destruct s1.
      * by eapply Hok; eauto.
    + rewrite Hs32 by lia. kred. apply runs_release_flag; [by rewrite Hs1|]. kred. by eapply Hok; eauto.
    + rewrite Hs32 by lia. kred. apply runs_release_flag; [by rewrite Hs1|]. kred. by eapply Hok; eauto.
    + kred. exists (Z.to_nat (n1 - 1)). split; [lia|]. destruct Hr2 as [r2 Hr2]. exists comm1, r2.
      split_and!; try (done || lia).
Qed.

(** ** Sequences of events *)

(** A character arrives, or a process runs a segment of read(). *)
Inductive tty_ev :=
  | Typed (c : Z)
  | Read (killed : bool) (wok : Z → bool) (target dst n : Z).

Definition ev_ok (e : tty_ev) : Prop :=
  match e with
  | Typed c => 0 <= c < 256 ∧ c ≠ C 80
  | Read _ _ target _ n => 0 <= n <= target ∧ target < 2 ^ 31
  end.

Definition tty_result : Type := option (cons_end (Z * Z) * list (Z * Z)).

Fixpoint exec_evs (pd : K tty unit) (es : list tty_ev) : K tty (list tty_result) :=
  match es with
  | [] => ret []
  | Typed c :: es' =>
      consoleintr pd c ;;; rs <- exec_evs pd es' ;;; ret (None :: rs)
  | Read killed wok target dst n :: es' =>
      r <- consoleread killed wok target dst n ;;; rs <- exec_evs pd es' ;;; ret (Some r :: rs)
  end.

(** The same events on the two texts. *)
Fixpoint spec_evs (es : list tty_ev) (comm ed : list Z) : list tty_result * list Z * list Z :=
  match es with
  | [] => ([], comm, ed)
  | Typed c :: es' =>
      let '(comm1, ed1, _) := editor c comm ed in
      let '(rs, comm2, ed2) := spec_evs es' comm1 ed1 in (None :: rs, comm2, ed2)
  | Read killed wok target dst n :: es' =>
      let '(r, comm1) := reads killed wok target dst n [] comm in
      let '(rs, comm2, ed2) := spec_evs es' comm1 ed in (Some r :: rs, comm2, ed2)
  end.

Lemma editor_out_len s c comm ed comm' ed' out :
  cring s comm ed → editor c comm ed = (comm', ed', out) → zlen out <= 3 * INPUT_BUF_SIZE.
Proof.
  intros Hc. pose proof (cring_len _ _ _ Hc) as Hl. rewrite length_app in Hl. unfold editor, INPUT_BUF_SIZE in *.
  assert (Hcat : ∀ k, zlen (concat (replicate k erase)) = 3 * Z.of_nat k).
  { induction k as [|k IH]; [done|]. simpl. rewrite !Nat2Z.inj_succ. lia. }
  repeat case_match; intros [= <- <- <-]; rewrite ?Hcat; simpl; lia.
Qed.

Lemma runs_exec_evs pd es s comm ed rs comm' ed' :
  cring s comm ed → cons_lock s = false → hart_wf (cpu s) → panicked s = false → Forall ev_ok es →
  3 * INPUT_BUF_SIZE * zlen es <= idle_count (lsr s) →
  spec_evs es comm ed = (rs, comm', ed') →
  runs (exec_evs pd es) s (λ r s', r = rs ∧ cring s' comm' ed').
Proof.
  revert s comm ed rs. induction es as [|e es IH]; intros s comm ed rs Hc Hl Hh Hp Hok Hi Hsp.
  { injection Hsp as <- <- <-. by apply runs_ret. }
  apply Forall_cons in Hok as [He Hok]. unfold INPUT_BUF_SIZE in Hi.
  assert (Hi' : 3 * 128 + 3 * 128 * zlen es <= idle_count (lsr s)) by (simpl in Hi; lia). clear Hi.
  destruct e as [c|killed wok target dst n]; simpl in *.
  - destruct (editor c comm ed) as [[comm1 ed1] out] eqn:Ee.
    destruct (spec_evs es comm1 ed1) as [[rs1 comm2] ed2] eqn:Es. injection Hsp as <- <- <-.
    pose proof (editor_out_len _ _ _ _ _ _ _ Hc Ee) as Ho. unfold INPUT_BUF_SIZE in Ho.
    apply runs_bind. eapply runs_mono.
    { apply (runs_consoleintr pd c s comm ed); try done; [apply He|apply He|]. unfold INPUT_BUF_SIZE. lia. }
    intros [] s1 (Hc1 & [_ _ Hlk Hp1 Hh1 _ Hid] & _). apply runs_bind.
    eapply runs_mono; [apply (IH s1 comm1 ed1); try done; [congruence|congruence|]|].
    { unfold INPUT_BUF_SIZE. lia. }
    intros r s2 [-> Hc2]. by kred.
  - destruct (reads killed wok target dst n [] comm) as [[e out] comm1] eqn:Er.
    destruct (spec_evs es comm1 ed) as [[rs1 comm2] ed2] eqn:Es. injection Hsp as <- <- <-.
    apply runs_bind. eapply runs_mono; [apply (runs_consoleread killed wok target dst n s comm ed e out comm1); try done; apply He|].
    intros r s1 (-> & Hc1 & r1 & ->). apply runs_bind.
    eapply runs_mono; [apply (IH _ comm1 ed); try done|].
    { unfold INPUT_BUF_SIZE. simpl. lia. }
    intros r s2 [-> Hc2]. by kred.
Qed.

(** ** Any number of writers to the UART *)

(** A segment of uartputc, the transmit half of an interrupt, or anything that
    leaves the transmit buffer alone (the device's status, polled output, the
    console).  [acc] are the bytes uartputc has accepted, [out] the bytes
    uartstart has handed to the device. *)
Definition new_wires (s s' : tty) : list Z := (drop (length (wires s)) (wires s')).*2.

Inductive tx_step : tty * list Z * list Z → tty * list Z * list Z → Prop :=
  | tx_putc first c s ok s' acc out :
      uartputc first c s = Ok ok s' →
      tx_step (s, acc, out) (s', if ok : bool then acc ++ [u8 c] else acc, out ++ new_wires s s')
  | tx_intr s s' acc out :
      (acquire_flag tx_lock set_tx_lock ;;; uartstart ;;; release_flag tx_lock set_tx_lock) s = Ok tt s' →
      tx_step (s, acc, out) (s', acc, out ++ new_wires s s')
  | tx_other s s' acc out :
      uart_tx_buf s' = uart_tx_buf s → uart_tx_w s' = uart_tx_w s → uart_tx_r s' = uart_tx_r s →
      tx_lock s' = tx_lock s → panicked s' = panicked s →
      tx_step (s, acc, out) (s', acc, out).

Definition bytes (l : list Z) : Prop := Forall (λ c, u8 c = c) l.

Definition tx_inv (x : tty * list Z * list Z) : Prop :=
  let '(s, acc, out) := x in
  ∃ q, acc = out ++ q ∧ tx_ring s q ∧ tx_lock s = false ∧ panicked s = false ∧ bytes q.

Lemma new_wires_sent s s' ds : wires s' = wires s ++ sent_bytes ds → bytes ds → new_wires s s' = ds.
Proof.
  intros E Hb. unfold new_wires. rewrite E, drop_app_length. unfold sent_bytes. rewrite <-list_fmap_compose.
  clear E. induction Hb as [|c ds Hc _ IH]; [done|]. cbn. rewrite Hc. f_equal. apply IH.
Qed.

Lemma u8_idem c : u8 (u8 c) = u8 c.
Proof. apply u8_small, u8_range. Qed.

Lemma tx_step_inv x x' : tx_step x x' → tx_inv x → tx_inv x'.
Proof.
  intros Hstep. destruct Hstep as [first c s ok s' acc out Hrun|s s' acc out Hrun|s s' acc out Hb Hw Hr Hl Hp];
    intros (q & -> & Hr0 & Hl0 & Hp0 & Hb0).
  - pose proof (runs_uartputc first s q c Hr0 Hl0 Hp0) as H. unfold runs in H. rewrite Hrun in H.
    destruct ok.
    + destruct H as (_ & ds & q' & Hq & Hr' & Hw & Hf & Hl' & _).
      assert (Hbb : bytes (ds ++ q')).
      { rewrite <-Hq. apply Forall_app. split; [done|]. apply Forall_singleton, u8_idem. }
      apply Forall_app in Hbb as [Hb1 Hb2]. rewrite (new_wires_sent _ _ _ Hw Hb1).
      exists q'. rewrite <-!app_assoc, Hq. split_and!; try done; [congruence|]. destruct Hf; destruct_and!. congruence.
    + destruct H as [_ ->]. exists q. unfold new_wires. rewrite drop_all, app_nil_r. done.
  - apply bind_Ok_inv in Hrun as ([] & s1 & H1 & Hrun). unfold acquire_flag in H1. rewrite Hl0 in H1.
    injection H1 as <-. apply bind_Ok_inv in Hrun as ([] & s2 & H2 & Hrun).
    pose proof (runs_uartstart (set_tx_lock true s) q Hr0) as H. unfold runs in H. rewrite H2 in H.
    destruct H as (ds & q' & -> & Hr' & Hw & Hf & Hl' & _).
    unfold release_flag in Hrun. rewrite Hl' in Hrun. injection Hrun as <-.
    apply Forall_app in Hb0 as [Hb1 Hb2].
    assert (Hnw : new_wires s (set_tx_lock false s2) = ds) by (apply new_wires_sent; [exact Hw|done]).
    rewrite Hnw. exists q'. rewrite <-!app_assoc. split_and!; try done. unfold tx_frame in Hf. destruct_and!.
    simpl in *. congruence.
  - exists q. unfold tx_ring in *. split_and!; try done; congruence.
Qed.

Lemma tx_reach_inv x x' : rtc tx_step x x' → tx_inv x → tx_inv x'.
Proof. induction 1; [done|]. intros. by eapply IHrtc, tx_step_inv. Qed.

(** ** Properties *)

(** [C28] The console is a line editor in front of a queue of lines.  For any
    interleaving of typed characters (backspace, delete, control-U, control-D,
    carriage return and a full buffer included) with segments of any number of
    reads, every read ends as it does on the two lists of the reference
    editor: with the same bytes at the same addresses, the same return value
    or the same decision to sleep; and the ring buffer keeps representing the
    two lists.  The device must become idle often enough for the echo, and
    control-P, which starts procdump, is left out. *)
Theorem console_refines (pd : K tty unit) (es : list tty_ev) (s : tty) (comm ed : list Z) :
  cring s comm ed → cons_lock s = false → hart_wf (cpu s) → panicked s = false → Forall ev_ok es →
  3 * INPUT_BUF_SIZE * zlen es <= idle_count (lsr s) →
  ∃ s', exec_evs pd es s = Ok (spec_evs es comm ed).1.1 s' ∧
    cring s' (spec_evs es comm ed).1.2 (spec_evs es comm ed).2.
Proof.
  intros Hc Hl Hh Hp Hok Hi. destruct (spec_evs es comm ed) as [[rs comm'] ed'] eqn:E.
  destruct (runs_elim _ _ _ (runs_exec_evs pd es s comm ed rs comm' ed' Hc Hl Hh Hp Hok Hi E))
    as (r & s' & Hrun & -> & Hc'). by exists s'.
Qed.

Lemma console_refines_witness :
  let s := mkTty false [] 0 0 false (replicate 128 0) 0 0 0 (replicate 1200 32) [] [] false
             (mkHart 0 false true) [] in
  let es := [Typed 97; Typed 8; Typed 13] in
  ∃ s', exec_evs (ret tt) es s = Ok (spec_evs es [] []).1.1 s' ∧
    cring s' (spec_evs es [] []).1.2 (spec_evs es [] []).2.
Proof.
  intros s es. apply (console_refines (ret tt) es s [] []).
  - split; [apply (ring_init _ _ CONS_ok); by vm_compute|split; [done|by apply not_elem_of_nil]].
  - done.
  - split; [done|]. simpl. lia.
  - done.
  - subst es. repeat constructor; by vm_compute.
  - by vm_compute.
Defined.

(** The UART driver transmits the bytes given to uartputc in order and
    without loss or duplication: for any interleaving of writers, transmit
    interrupts and other activity, and any behaviour of the device, the bytes
    handed to the device are the accepted bytes except for the at most 32
    pending ones, which the counters account for. *)
Theorem uart_fifo (s0 s : tty) (acc out : list Z) :
  tx_ring s0 [] → tx_lock s0 = false → panicked s0 = false →
  rtc tx_step (s0, [], []) (s, acc, out) →
  ∃ q, acc = out ++ q ∧ zlen q <= UART_TX_BUF_SIZE ∧ u64 (uart_tx_w s - uart_tx_r s) = zlen q.
Proof.
  intros Hr Hl Hp Hsteps. apply tx_reach_inv in Hsteps as (q & Hq & Hr' & _).
  - exists q. split_and!; [done|apply Hr'|]. by apply (ring_len _ _ TX_ok) in Hr'.
  - exists []. split_and!; try done. constructor.
Qed.

Lemma uart_fifo_witness :
  let s0 := mkTty false (replicate 32 0) 0 0 false [] 0 0 0 [0; 32] [] [] false (mkHart 0 false true) [] in
  ∃ s acc out, rtc tx_step (s0, [], []) (s, acc, out) ∧ acc = [65] ∧
    ∃ q, acc = out ++ q ∧ zlen q <= UART_TX_BUF_SIZE ∧ u64 (uart_tx_w s - uart_tx_r s) = zlen q.
Proof.
  intros s0. destruct (uartputc true 65 s0) as [ok s| | | |] eqn:E; [|by vm_compute in E..].
  assert (Hstep : rtc tx_step (s0, [], []) (s, [65], new_wires s0 s)).
  { apply rtc_once. replace [65] with (if ok then [] ++ [u8 65] else []) by (vm_compute in E; by injection E as <- <-).
    apply (tx_putc true 65 s0 ok s [] [] E). }
  exists s, [65], (new_wires s0 s). split; [exact Hstep|]. split; [done|].
  apply (uart_fifo s0); [apply (ring_init _ _ TX_ok); by vm_compute|done|done|exact Hstep].
Defined.
