(* ===== verification/Ulib.v ===== *)
(** user/ulib.c: the string and memory routines of user programs.

    Every routine is a function of the memory of the process.  Loops with a
    count run on the count; loops that run to the end of a string carry a
    bound and return [None] when it is too small.  [char] is unsigned, as on
    RISC-V.  The descriptor that gets reads from is the list of bytes that it
    still delivers, followed by the end of the file. *)

From S2P Require Import Prelude Mem CString.

Fixpoint strcpy (fuel : nat) (m : mem) (s t : Z) : option mem :=
  match fuel with
  | O => None
  | S fuel' =>
      let c := rd8 m t in
      let m := wr8 m s c in
      if negb (c =? 0) then strcpy fuel' m (s + 1) (t + 1) else Some m
  end.

Fixpoint strcmp (fuel : nat) (m : mem) (p q : Z) : option Z :=
  match fuel with
  | O => None
  | S fuel' =>
      if negb (rd8 m p =? 0) && (rd8 m p =? rd8 m q) then strcmp fuel' m (p + 1) (q + 1)
      else Some (rd8 m p - rd8 m q)
  end.

Fixpoint strlen_from (fuel : nat) (m : mem) (s n : Z) : option Z :=
  match fuel with
  | O => None
  | S fuel' => if negb (rd8 m (s + n) =? 0) then strlen_from fuel' m s (n + 1) else Some n
  end.
Definition strlen (fuel : nat) (m : mem) (s : Z) : option Z := strlen_from fuel m s 0.

Fixpoint memset_from (m : mem) (cdst c i : Z) (n : nat) : mem :=
  match n with
  | O => m
  | S n' => memset_from (wr8 m (cdst + i) c) cdst c (i + 1) n'
  end.
Definition memset (m : mem) (dst c n : Z) : mem := memset_from m dst c 0 (Z.to_nat n).

Fixpoint strchr (fuel : nat) (m : mem) (s c : Z) : option Z :=
  match fuel with
  | O => None
  | S fuel' =>
      if rd8 m s =? 0 then Some 0
      else if rd8 m s =? c then Some s
      else strchr fuel' m (s + 1) c
  end.

(** The loop of gets, [n] bytes from the end of the buffer. *)
Fixpoint gets_loop (m : mem) (buf i : Z) (n : nat) (input : list Z) : mem * Z * list Z :=
  match n with
  | O => (m, i, input)
  | S n' =>
      match input with
      | [] => (m, i, [])
      | c :: input =>
          let m := wr8 m (buf + i) c in
          if (c =? 10) || (c =? 13) then (m, i + 1, input) else gets_loop m buf (i + 1) n' input
      end
  end.
Definition gets (m : mem) (buf max : Z) (input : list Z) : mem * list Z :=
  let '(m, i, input) := gets_loop m buf 0 (Z.to_nat (max - 1)) input in
  (wr8 m (buf + i) 0, input).

Fixpoint atoi_from (fuel : nat) (m : mem) (s n : Z) : option Z :=
  match fuel with
  | O => None
  | S fuel' =>
      if (48 <=? rd8 m s) && (rd8 m s <=? 57) then atoi_from fuel' m (s + 1) (s32 (n * 10 + rd8 m s - 48))
      else Some n
  end.
Definition atoi (fuel : nat) (m : mem) (s : Z) : option Z := atoi_from fuel m s 0.

Fixpoint copy_up (m : mem) (dst src : Z) (n : nat) : mem :=
  match n with
  | O => m
  | S n' => copy_up (wr8 m dst (rd8 m src)) (dst + 1) (src + 1) n'
  end.
Fixpoint copy_down (m : mem) (dst src : Z) (n : nat) : mem :=
  match n with
  | O => m
  | S n' => copy_down (wr8 m (dst - 1) (rd8 m (src - 1))) (dst - 1) (src - 1) n'
  end.
Definition memmove (m : mem) (vdst vsrc n : Z) : mem :=
  if vsrc >? vdst then copy_up m vdst vsrc (Z.to_nat n)
  else copy_down m (vdst + n) (vsrc + n) (Z.to_nat n).

Fixpoint memcmp_from (m : mem) (p1 p2 : Z) (n : nat) : Z :=
  match n with
  | O => 0
  | S n' =>
      if negb (rd8 m p1 =? rd8 m p2) then rd8 m p1 - rd8 m p2 else memcmp_from m (p1 + 1) (p2 + 1) n'
  end.
Definition memcmp (m : mem) (s1 s2 n : Z) : Z := memcmp_from m s1 s2 (Z.to_nat n).

Definition memcpy (m : mem) (dst src n : Z) : mem := memmove m dst src n.

(** ** Correctness *)

(** The user's loops are the kernel's, function by function. *)
Lemma strlen_cstr m s l fuel : cstr m s l → (length l < fuel)%nat → strlen fuel m s = Some (zlen l).
Proof.
  intros Hl Hf. transitivity (CString.strlen fuel m s).
  - done.
  - unfold CString.strlen. apply (strlen_loop_spec _ _ 0); [by rewrite Z.add_0_r|done].
Qed.

#[local] Transparent CString.memset.
Lemma rd8_memset_user m d c n a :
  rd8 (memset m d c n) a = if decide (d <= a < d + n) then u8 c else rd8 m a.
Proof.
  apply (CString.rd8_memset m d c n a).
Qed.

Lemma rd8_memmove_user m dst src n a :
  0 <= n → rd8 (memmove m dst src n) a = if decide (dst <= a < dst + n) then rd8 m (src + (a - dst)) else rd8 m a.
Proof.
  intros Hn. unfold memmove. rewrite Z.gtb_ltb. destruct (Z.ltb_spec dst src).
  - change (copy_up m dst src (Z.to_nat n)) with (move_forward m dst src (Z.to_nat n)). rewrite rd8_move_forward by lia.
    repeat case_decide; try lia; try done. f_equal; lia.
  - change (copy_down m (dst + n) (src + n) (Z.to_nat n)) with (move_backward m (dst + n) (src + n) (Z.to_nat n)).
    rewrite rd8_move_backward by lia. repeat case_decide; try lia; try done. f_equal; lia.
Qed.

Lemma memcmp_user m a b n : memcmp m a b n = 0 ↔ rd_bytes m a (Z.to_nat n) = rd_bytes m b (Z.to_nat n).
Proof. apply (memcmp_loop_spec m a b (Z.to_nat n)). Qed.

(** The first difference of two strings, with the NUL at their ends. *)
Fixpoint str_order (p q : list Z) : Z :=
  match p, q with
  | [], [] => 0
  | [], d :: _ => - d
  | c :: _, [] => c
  | c :: p, d :: q => if c =? d then str_order p q else c - d
  end.

Lemma strcmp_order fuel m p q lp lq :
  cstr m p lp → cstr m q lq → (length lp < fuel)%nat → strcmp fuel m p q = Some (str_order lp lq).
Proof.
  revert p q lp lq. induction fuel as [|fuel IH]; intros p q lp lq Hp Hq Hf; [lia|]. cbn [strcmp].
  destruct lp as [|c lp], lq as [|d lq]; cbn [cstr str_order length] in *.
  - by rewrite Hp, Hq.
  - destruct Hq as (Hq & _). by rewrite Hp, Hq.
  - destruct Hp as (Hp & Hc & _). rewrite Hp, Hq. destruct (Z.eqb_spec c 0); [done|]. simpl. by rewrite Z.sub_0_r.
  - destruct Hp as (Hp & Hc & Hp'), Hq as (Hq & Hd & Hq'). rewrite Hp, Hq. destruct (Z.eqb_spec c 0); [done|]. simpl.
    destruct (c =? d); [|done]. apply IH; [done|done|lia].
Qed.

Lemma str_order_eq p q : Forall (λ c, 0 < c) p → Forall (λ c, 0 < c) q → str_order p q = 0 ↔ p = q.
Proof.
  intros Hp. revert q. induction Hp as [|c p Hc Hp IH]; intros q Hq.
  - destruct q as [|d q]; [done|]. apply Forall_cons in Hq as [? _]. simpl. split; [lia|done].
  - destruct q as [|d q]; simpl; [split; [lia|done]|]. apply Forall_cons in Hq as [? Hq].
    destruct (Z.eqb_spec c d) as [->|]; [rewrite IH by done; naive_solver|]. split; [lia|naive_solver].
Qed.

Lemma strcpy_copies fuel m s t l :
  cstr m t l → (length l < fuel)%nat → s + zlen l + 1 <= t ∨ t + zlen l + 1 <= s →
  ∃ m', strcpy fuel m s t = Some m' ∧ cstr m' s l ∧ agree_out m m' s (zlen l + 1).
Proof.
  revert m s t l. induction fuel as [|fuel IH]; intros m s t l Hl Hf Hd; [lia|]. cbn [strcpy].
  destruct l as [|c l]; cbn [cstr length] in *.
  - rewrite Hl. simpl. eexists. split_and!; [done|by rewrite rd8_wr8, decide_True|].
    intros b ?. by rewrite rd8_wr8, decide_False by lia.
  - destruct Hl as (Hc & Hc0 & Hl). rewrite Hc. destruct (Z.eqb_spec c 0); [done|]. simpl.
    destruct (IH (wr8 m s c) (s + 1) (t + 1) l) as (m' & E & H1 & H2); [|lia|lia|].
    { eapply cstr_ext; [done|]. intros b ?. by rewrite rd8_wr8, decide_False by lia. }
    exists m'. split_and!; [done| |done|done|].
    + rewrite H2 by lia. rewrite rd8_wr8, decide_True by done. rewrite <-Hc. apply u8_small, rd8_range.
    + intros b ?. rewrite H2 by lia. by rewrite rd8_wr8, decide_False by lia.
Qed.

(** strchr finds the first occurrence; it never finds the NUL at the end. *)
Lemma strchr_first fuel m s l c :
  cstr m s l → (length l < fuel)%nat →
  strchr fuel m s c = Some (match list_find (λ x, x = c) l with Some (i, _) => s + Z.of_nat i | None => 0 end).
Proof.
  revert s l. induction fuel as [|fuel IH]; intros s l Hl Hf; [lia|]. cbn [strchr].
  destruct l as [|d l]; cbn [cstr length list_find] in *; [by rewrite Hl|].
  destruct Hl as (Hd & Hd0 & Hl). rewrite Hd. destruct (Z.eqb_spec d 0); [done|].
  destruct (Z.eqb_spec d c) as [->|]; [rewrite decide_True by done; simpl; f_equal; lia|].
  rewrite decide_False by done. rewrite (IH _ l) by (done || lia).
  destruct (list_find _ l) as [[i x]|]; simpl; [|done]. f_equal. lia.
Qed.

Definition eol (c : Z) : Prop := c = 10 ∨ c = 13.

(** What gets takes from the input: a line, or as much of it as fits. *)
Definition one_line (n : nat) (input l rest : list Z) : Prop :=
  input = l ++ rest ∧ (length l <= n)%nat ∧
  (∀ i c, l !! i = Some c → eol c → S i = length l) ∧
  (rest = [] ∨ length l = n ∨ ∃ c, last l = Some c ∧ eol c).

Lemma gets_loop_line m buf i n input :
  0 <= i → Forall (λ c, 0 <= c < 256) input →
  ∃ l rest m', gets_loop m buf i n input = (m', i + zlen l, rest) ∧ one_line n input l rest ∧
    rd_bytes m' (buf + i) (length l) = l ∧ agree_out m m' (buf + i) (zlen l).
Proof.
  revert m i input. induction n as [|n IH]; intros m i input Hi Hb; cbn [gets_loop].
  { exists [], input, m. rewrite Z.add_0_r. unfold one_line. split_and!; [done|done|simpl; lia|done|by right; left|done|done]. }
  destruct input as [|c input].
  { exists [], [], m. rewrite Z.add_0_r. unfold one_line. split_and!; [done|done|simpl; lia|done|by left|done|done]. }
  apply Forall_cons in Hb as [Hc Hb].
  destruct ((c =? 10) || (c =? 13)) eqn:E.
  - assert (Hc' : eol c) by (unfold eol; lia). exists [c], input, (wr8 m (buf + i) c). unfold one_line. cbn [length rd_bytes].
    split_and!; [done|done|lia| | | |].
    + by intros [|j] d Hj.
    + right. right. by exists c.
    + by rewrite rd8_wr8, decide_True, u8_small by done.
    + intros b ?. by rewrite rd8_wr8, decide_False by lia.
  - destruct (IH (wr8 m (buf + i) c) (i + 1) input) as (l & rest & m' & -> & (-> & Hlen & Hin & Hend) & Hr & Ha); [lia|done|].
    exists (c :: l), rest, m'. unfold one_line. cbn [length rd_bytes]. split_and!.
    + f_equal. f_equal. lia.
    + done.
    + lia.
    + intros [|j] d Hj He; simplify_eq/=; [unfold eol in He; lia|]. by rewrite (Hin j d).
    + destruct Hend as [->|[Hn|(d & Hd & ?)]]; [by left|right; left; lia|]. right. right. exists d. by rewrite last_cons, Hd.
    + rewrite Ha by lia. rewrite rd8_wr8, decide_True, u8_small by done. f_equal. rewrite <-Hr at 2. f_equal. lia.
    + intros b ?. rewrite Ha by lia. by rewrite rd8_wr8, decide_False by lia.
Qed.

(** gets stores the next line, cut to the buffer, with a NUL at its end, and
    does not write past the buffer. *)
Lemma gets_line m buf max input :
  1 <= max → Forall (λ c, 0 <= c < 256) input →
  ∃ l rest m', gets m buf max input = (m', rest) ∧ one_line (Z.to_nat (max - 1)) input l rest ∧
    rd_bytes m' buf (length l) = l ∧ rd8 m' (buf + zlen l) = 0 ∧ agree_out m m' buf max.
Proof.
  intros Hm Hb. destruct (gets_loop_line m buf 0 (Z.to_nat (max - 1)) input) as (l & rest & m' & E & Hl & Hr & Ha); [lia|done|].
  rewrite Z.add_0_r in Hr, Ha. exists l, rest, (wr8 m' (buf + zlen l) 0). unfold gets. rewrite E, Z.add_0_l.
  destruct Hl as (? & Hlen & ?). split_and!; [done|done| |by rewrite rd8_wr8, decide_True|].
  - etrans; [|exact Hr]. apply rd_bytes_ext. intros i ?. by rewrite rd8_wr8, decide_False by lia.
  - intros b ?. rewrite rd8_wr8, decide_False by lia. apply Ha. lia.
Qed.

(** ** Numerals *)

(** The number that the digits [ds], most significant first, stand for. *)
Definition numeral (base : Z) (ds : list Z) : Z := foldl (λ n d, n * base + d) 0 ds.

Lemma numeral_snoc base ds d : numeral base (ds ++ [d]) = numeral base ds * base + d.
Proof. unfold numeral. by rewrite foldl_app. Qed.

Lemma numeral_nonneg base ds n :
  0 <= base → 0 <= n → Forall (λ d, 0 <= d) ds → n <= foldl (λ n d, n * base + d) n ds ∨ base = 0.
Proof.
  intros Hb Hn Hd. destruct (decide (base = 0)); [by right|left]. revert n Hn. induction Hd as [|d ds Hd _ IH]; intros n Hn; simpl; [lia|].
  etrans; [|apply IH; nia]. nia.
Qed.

Lemma atoi_from_digits fuel m s ds n :
  (length ds < fuel)%nat → 0 <= n → Forall (λ d, 0 <= d <= 9) ds → rd_bytes m s (length ds) = (λ d, 48 + d) <$> ds →
  ¬ (48 <= rd8 m (s + zlen ds) <= 57) → foldl (λ n d, n * 10 + d) n ds < 2 ^ 31 →
  atoi_from fuel m s n = Some (foldl (λ n d, n * 10 + d) n ds).
Proof.
  revert s ds n. induction fuel as [|fuel IH]; intros s ds n Hf Hn Hd Hs He Hv; [lia|]. cbn [atoi_from].
  destruct ds as [|d ds]; cbn [length rd_bytes foldl fmap list_fmap] in *.
  - rewrite Z.add_0_r in He. destruct (Z.leb_spec 48 (rd8 m s)), (Z.leb_spec (rd8 m s) 57); simpl; lia || done.
  - injection Hs as Hc Hs. apply Forall_cons in Hd as [Hd Hds]. rewrite Hc.
    destruct (Z.leb_spec 48 (48 + d)); [|lia]. destruct (Z.leb_spec (48 + d) 57); [|lia]. simpl.
    replace (n * 10 + (48 + d) - 48) with (n * 10 + d) by lia.
    pose proof (numeral_nonneg 10 ds (n * 10 + d) ltac:(lia) ltac:(lia)
      ltac:(eapply Forall_impl; [exact Hds|]; simpl; lia)) as Hle.
    rewrite s32_small by lia. apply IH; [lia|lia|done|done| |done].
    intros H9. apply He. replace (s + Z.of_nat (S (length ds))) with (s + 1 + zlen ds) by lia. done.
Qed.

Lemma atoi_digits fuel m s ds :
  (length ds < fuel)%nat → Forall (λ d, 0 <= d <= 9) ds → rd_bytes m s (length ds) = (λ d, 48 + d) <$> ds →
  ¬ (48 <= rd8 m (s + zlen ds) <= 57) → numeral 10 ds < 2 ^ 31 → atoi fuel m s = Some (numeral 10 ds).
Proof. intros. unfold atoi. by apply atoi_from_digits. Qed.
