(* ===== verification/Printf.v ===== *)
(** user/printf.c and kernel/printf.c: formatted output.

    The two files format alike and differ in the digits, in the conversions
    they know and in where a character goes: to a descriptor, one write each,
    or to the console.  The routines are therefore written over an output
    operation [putc], which is an argument.  The arguments of a call are the
    list of the 64-bit values that va_arg takes one after the other; taking
    one more than there are is undefined.  [buf] of printint is an array of
    16 bytes, and storing outside of it is undefined as well.  Loops that run
    to the end of a string carry a bound. *)

From S2P Require Import Prelude Mem CString Riscv Spinlock Console ConsoleSpec Ulib.
Local Open Scope kernel_scope.

Definition kdigits : list Z := [48; 49; 50; 51; 52; 53; 54; 55; 56; 57; 97; 98; 99; 100; 101; 102].
Definition udigits : list Z := [48; 49; 50; 51; 52; 53; 54; 55; 56; 57; 65; 66; 67; 68; 69; 70].

(** The string that stands for a null pointer. *)
Definition null_str : list Z := [40; 110; 117; 108; 108; 41].

Section Format.
Context {S : Type} (putc : Z → K S unit) (digits : list Z).

(** buf[i] = c and digits[i] *)
Definition store (buf : list Z) (i c : Z) : K S (list Z) :=
  if (0 <=? i) && (i <? zlen buf) then ret (<[Z.to_nat i := c]> buf) else ub "buf".
Definition elem (l : list Z) (i : Z) : K S Z :=
  if 0 <=? i then match l !! Z.to_nat i with Some c => ret c | None => ub "array" end else ub "array".

(** The do loop: the digits of [x], the last one first. *)
Definition digit_loop (base : Z) (x : Z) : K S (Z * list Z) :=
  iter 17 (λ '(i, x, buf),
    c <- elem digits (x mod base) ;;;
    buf <- store buf i c ;;;
    let x := x / base in
    if negb (x =? 0) then ret (inl (i + 1, x, buf)) else ret (inr (i + 1, buf)))
    (0, x, replicate 16 0).

(** The characters of [buf] below [i], the last one first. *)
Definition put_back (i : Z) (buf : list Z) : K S unit :=
  iter 18 (λ i,
    let i := i - 1 in
    if 0 <=? i then c <- elem buf i ;;; putc c ;;; ret (inl i) else ret (inr tt)) i.

Definition printint (xx base : Z) (sgn : bool) : K S unit :=
  let neg := sgn && (xx <? 0) in
  let x := if neg then u32 (- xx) else u32 xx in
  r <- digit_loop base x ;;;
  let '(i, buf) := r in
  r <- (if neg then buf <- store buf i 45 ;;; ret (i + 1, buf) else ret (i, buf)) ;;;
  let '(i, buf) := r in
  put_back i buf.

Definition printptr (x : Z) : K S unit :=
  putc 48 ;;;
  putc 120 ;;;
  iter 17 (λ '(i, x),
    if i <? 16 then
      c <- elem digits (Z.shiftr x 60) ;;;
      putc c ;;;
      ret (inl (i + 1, u64 (Z.shiftl x 4)))
    else ret (inr tt)) (0, x).

Definition va_arg (ap : list Z) : K S (Z * list Z) :=
  match ap with [] => ub "va_arg" | a :: ap => ret (a, ap) end.

Context (fuel : nat) (m : mem).

(** The characters of a string. *)
Definition put_string (s : Z) : K S unit :=
  iter fuel (λ s, let c := rd8 m s in if c =? 0 then ret (inr tt) else putc c ;;; ret (inl (s + 1))) s.

Fixpoint put_list (l : list Z) : K S unit :=
  match l with [] => ret tt | c :: l => putc c ;;; put_list l end.

Definition put_arg_string (s : Z) : K S unit := if s =? 0 then put_list null_str else put_string s.

(** user/printf.c: the branch of vprintf for the character after a percent
    sign. *)
Definition uconv (c : Z) (ap : list Z) : K S (list Z) :=
  if c =? 100 (* d *) then a <- va_arg ap ;;; printint (s32 a.1) 10 true ;;; ret a.2
  else if c =? 108 (* l *) then a <- va_arg ap ;;; printint (s32 a.1) 10 false ;;; ret a.2
  else if c =? 120 (* x *) then a <- va_arg ap ;;; printint (s32 a.1) 16 false ;;; ret a.2
  else if c =? 112 (* p *) then a <- va_arg ap ;;; printptr a.1 ;;; ret a.2
  else if c =? 115 (* s *) then a <- va_arg ap ;;; put_arg_string a.1 ;;; ret a.2
  else if c =? 99 (* c *) then a <- va_arg ap ;;; putc (u8 a.1) ;;; ret a.2
  else if c =? 37 then putc c ;;; ret ap
  else putc 37 ;;; putc c ;;; ret ap.

(** One character of the format. *)
Definition vprintf_step (fmt : Z) (x : Z * Z * list Z) : K S (Z * Z * list Z + unit) :=
  let '(i, state, ap) := x in
  if rd8 m (fmt + i) =? 0 then ret (inr tt)
  else
    let c := Z.land (rd8 m (fmt + i)) 0xff in
    if state =? 0 then
      if c =? 37 then ret (inl (i + 1, 37, ap))
      else putc c ;;; ret (inl (i + 1, state, ap))
    else if state =? 37 then
      ap <- uconv c ap ;;;
      ret (inl (i + 1, 0, ap))
    else ret (inl (i + 1, state, ap)).
Definition vprintf (fmt : Z) (ap : list Z) : K S unit := iter fuel (vprintf_step fmt) (0, 0, ap).

(** kernel/printf.c: the switch of printf. *)
Definition kconv (c : Z) (ap : list Z) : K S (list Z) :=
  if c =? 100 (* d *) then a <- va_arg ap ;;; printint (s32 a.1) 10 true ;;; ret a.2
  else if c =? 120 (* x *) then a <- va_arg ap ;;; printint (s32 a.1) 16 true ;;; ret a.2
  else if c =? 112 (* p *) then a <- va_arg ap ;;; printptr a.1 ;;; ret a.2
  else if c =? 115 (* s *) then a <- va_arg ap ;;; put_arg_string a.1 ;;; ret a.2
  else if c =? 37 then putc 37 ;;; ret ap
  else putc 37 ;;; putc c ;;; ret ap.

Definition kformat_step (fmt : Z) (x : Z * list Z) : K S (Z * list Z + unit) :=
  let '(i, ap) := x in
  let c := Z.land (rd8 m (fmt + i)) 0xff in
  if c =? 0 then ret (inr tt)
  else if negb (c =? 37) then putc c ;;; ret (inl (i + 1, ap))
  else
    let i := i + 1 in
    let c := Z.land (rd8 m (fmt + i)) 0xff in
    if c =? 0 then ret (inr tt)
    else
      ap <- kconv c ap ;;;
      ret (inl (i + 1, ap)).
Definition kformat (fmt : Z) (ap : list Z) : K S unit := iter fuel (kformat_step fmt) (0, ap).
End Format.

(** ** The kernel's printf and panic *)

Record prst := mkPr { pr_lock : bool; locking : bool; con : tty }.
Definition set_pr_lock (b : bool) (s : prst) : prst := mkPr b (locking s) (con s).
Definition set_locking (b : bool) (s : prst) : prst := mkPr (pr_lock s) b (con s).
Definition set_con (c : tty) (s : prst) : prst := mkPr (pr_lock s) (locking s) c.
Definition kputc (c : Z) : K prst unit := zoom con set_con (consputc c).

Definition set_panicked (s : tty) : tty :=
  mkTty (tx_lock s) (uart_tx_buf s) (uart_tx_w s) (uart_tx_r s)
    (cons_lock s) (cons_buf s) (cons_r s) (cons_w s) (cons_e s)
    (lsr s) (rhr s) (wires s) true (cpu s) (tty_woken s).

Definition kprintf (fuel : nat) (m : mem) (fmt : Z) (ap : list Z) : K prst unit :=
  locking <- Prelude.gets locking ;;;
  (if (locking : bool) then acquire_flag pr_lock set_pr_lock else ret tt) ;;;
  (if fmt =? 0 then panic "null fmt" else ret tt) ;;;
  kformat kputc kdigits fuel m fmt ap ;;;
  (if (locking : bool) then release_flag pr_lock set_pr_lock else ret tt).

(** The kernel's panic up to its endless loop; [pre] and [nl] are the
    addresses of its two string constants. *)
Definition kpanic (fuel : nat) (m : mem) (pre nl s : Z) : K prst unit :=
  modify (set_locking false) ;;;
  kprintf fuel m pre [] ;;;
  kprintf fuel m s [] ;;;
  kprintf fuel m nl [] ;;;
  modify (λ s, set_con (set_panicked (con s)) s).

Definition printfinit : K prst unit :=
  modify (set_pr_lock false) ;;;
  modify (set_locking true).

(** ** The user's printf: one write per character *)

(** What a process wrote so far, with the descriptor of each byte. *)
Abbreviation uout := (list (Z * Z)).
Definition uputc (fd c : Z) : K uout unit := modify (λ o, o ++ [(fd, c)]).
Definition fprintf (fuel : nat) (m : mem) (fd fmt : Z) (ap : list Z) : K uout unit :=
  vprintf (uputc fd) udigits fuel m fmt ap.
Definition printf (fuel : nat) (m : mem) (fmt : Z) (ap : list Z) : K uout unit :=
  vprintf (uputc 1) udigits fuel m fmt ap.

(** ** Specification: the text of a format *)

(** The digits of [x] in base [base], most significant first. *)
Definition is_numeral (base x : Z) (ds : list Z) : Prop :=
  numeral base ds = x ∧ Forall (λ d, 0 <= d < base) ds ∧ ds ≠ [] ∧ (head ds = Some 0 → ds = [0]).

(** The text of an int, with a sign or as unsigned. *)
Definition int_text (digits : list Z) (base xx : Z) (sgn : bool) (out : list Z) : Prop :=
  ∃ ds, is_numeral base (if sgn then Z.abs xx else u32 xx) ds ∧
    out = (if sgn && (xx <? 0) then [45] else []) ++ ((λ d, digits !!! Z.to_nat d) <$> ds).

(** The sixteen hexadecimal digits of a 64-bit number. *)
Definition ptr_text (digits : list Z) (x : Z) : list Z :=
  [48; 120] ++ ((λ k, digits !!! Z.to_nat (x / 16 ^ Z.of_nat k mod 16)) <$> reverse (seq 0 16)).

Definition str_text (m : mem) (p : Z) (out : list Z) : Prop :=
  (p = 0 ∧ out = null_str) ∨ (p ≠ 0 ∧ cstr m p out).

(** The text of the argument [a] under the conversion [c]. *)
Inductive conversion (user : bool) (digits : list Z) (m : mem) : Z → Z → list Z → Prop :=
| conv_d a out : int_text digits 10 (s32 a) true out → conversion user digits m 100 a out
| conv_x a out : int_text digits 16 (s32 a) (negb user) out → conversion user digits m 120 a out
| conv_p a : conversion user digits m 112 a (ptr_text digits a)
| conv_s a out : str_text m a out → conversion user digits m 115 a out
| conv_l a out : user = true → int_text digits 10 (s32 a) false out → conversion user digits m 108 a out
| conv_c a : user = true → conversion user digits m 99 a [u8 a].

Definition known (user : bool) (c : Z) : bool :=
  (c =? 100) || (c =? 120) || (c =? 112) || (c =? 115) || (user && ((c =? 108) || (c =? 99))).

(** [renders f ap out]: the format [f] with the arguments [ap] gives [out]. *)
Inductive renders (user : bool) (digits : list Z) (m : mem) : list Z → list Z → list Z → Prop :=
| r_end ap : renders user digits m [] ap []
| r_plain c f ap out : c ≠ 37 → renders user digits m f ap out → renders user digits m (c :: f) ap (c :: out)
| r_trailing ap : renders user digits m [37] ap []
| r_percent f ap out : renders user digits m f ap out → renders user digits m (37 :: 37 :: f) ap (37 :: out)
| r_unknown c f ap out :
    c ≠ 37 → known user c = false → renders user digits m f ap out →
    renders user digits m (37 :: c :: f) ap (37 :: c :: out)
| r_conv c f a ap txt out :
    conversion user digits m c a txt → renders user digits m f ap out →
    renders user digits m (37 :: c :: f) (a :: ap) (txt ++ out).

(** ** Programs that only print *)

Section Emits.
Context {S : Type} (putc : Z → K S unit).

(** [m] prints [l], character by character, and returns [a]: it is the
    program that does nothing else, whatever [putc] is. *)
Definition emits {A} (m : K S A) (l : list Z) (a : A) : Prop :=
  ∀ s, m s = bind (put_list putc l) (λ _, ret a) s.

Lemma bind_assoc {A B C} (m : K S A) (f : A → K S B) (g : B → K S C) s :
  bind (bind m f) g s = bind m (λ a, bind (f a) g) s.
Proof. unfold bind. by destruct (m s). Qed.

Lemma bind_ext {A B} (m : K S A) (f g : A → K S B) s : (∀ a s, f a s = g a s) → bind m f s = bind m g s.
Proof. intros H. unfold bind. by destruct (m s). Qed.

Lemma bind_cong {A B} (m m' : K S A) (f : A → K S B) s : m s = m' s → bind m f s = bind m' f s.
Proof. unfold bind. by intros ->. Qed.

Lemma emits_ret {A} (a : A) : emits (ret a) [] a.
Proof. intros s. done. Qed.

Lemma emits_put_list l l' s : put_list putc (l ++ l') s = bind (put_list putc l) (λ _, put_list putc l') s.
Proof.
  revert s. induction l as [|c l IH]; intros s; [done|]. cbn [put_list app]. rewrite bind_assoc. apply bind_ext. intros _. apply IH.
Qed.

Lemma emits_bind {A B} (m : K S A) (f : A → K S B) l l' a b : emits m l a → emits (f a) l' b → emits (bind m f) (l ++ l') b.
Proof.
  intros H1 H2 s. transitivity (bind (bind (put_list putc l) (λ _, ret a)) f s); [by apply bind_cong|].
  rewrite bind_assoc. transitivity (bind (bind (put_list putc l) (λ _, put_list putc l')) (λ _, ret b) s).
  - rewrite bind_assoc. apply bind_ext. intros _ s'. apply (H2 s').
  - apply bind_cong. symmetry. apply emits_put_list.
Qed.

Lemma emits_putc c : emits (putc c) [c] tt.
Proof. intros s. cbn [put_list]. rewrite bind_assoc. unfold bind. by destruct (putc c s) as [[]| | | |]. Qed.

Lemma emits_then {A B} (m : K S A) (f : A → K S B) l a b : emits m [] a → emits (f a) l b → emits (bind m f) l b.
Proof. apply (emits_bind m f []). Qed.

Lemma emits_put {A} c (m : K S A) l a : emits m l a → emits (putc c ;;; m) (c :: l) a.
Proof. intros H. apply (emits_bind (putc c) (λ _, m) [c] l tt a); [apply emits_putc|done]. Qed.

Lemma emits_list l : emits (put_list putc l) l tt.
Proof. intros s. unfold bind. by destruct (put_list putc l s) as [[]| | | |]. Qed.

Lemma emits_again {A B} n (body : A → K S (A + B)) a a' l l' b :
  emits (body a) l (inl a') → emits (iter n body a') l' b → emits (iter (Datatypes.S n) body a) (l ++ l') b.
Proof. intros H1 H2. cbn [iter]. by eapply emits_bind. Qed.

Lemma emits_leave {A B} n (body : A → K S (A + B)) a l b :
  emits (body a) l (inr b) → emits (iter (Datatypes.S n) body a) l b.
Proof. intros H. cbn [iter]. rewrite <-(app_nil_r l). eapply emits_bind; [done|apply emits_ret]. Qed.
End Emits.

(** ** Numerals are unique *)

Lemma numeral_pos base ds :
  2 <= base → Forall (λ d, 0 <= d < base) ds → ds ≠ [] → head ds ≠ Some 0 → 0 < numeral base ds.
Proof.
  intros Hb. induction ds as [|d ds IH] using rev_ind; intros Hd Hne Hh; [done|].
  apply Forall_app in Hd as [Hds [Hd _]%Forall_cons]. rewrite numeral_snoc. destruct ds as [|e ds].
  - unfold numeral. simpl in *. assert (d ≠ 0) by congruence. lia.
  - specialize (IH Hds ltac:(done) Hh). nia.
Qed.

Lemma numeral_inj base ds ds' :
  2 <= base → Forall (λ d, 0 <= d < base) ds → Forall (λ d, 0 <= d < base) ds' →
  head ds ≠ Some 0 → head ds' ≠ Some 0 → numeral base ds = numeral base ds' → ds = ds'.
Proof.
  intros Hb. revert ds'. induction ds as [|d ds IH] using rev_ind; intros ds' Hd Hd' Hh Hh' E.
  { destruct ds' as [|e ds']; [done|]. pose proof (numeral_pos base (e :: ds') Hb Hd' ltac:(done) Hh') as H.
    rewrite <-E in H. unfold numeral in H. simpl in H. lia. }
  destruct ds' as [|e ds' _] using rev_ind.
  { pose proof (numeral_pos base (ds ++ [d]) Hb Hd ltac:(by destruct ds) Hh) as H. rewrite E in H. unfold numeral in H. simpl in H. lia. }
  rewrite !numeral_snoc in E. apply Forall_app in Hd as [Hds [Hd _]%Forall_cons], Hd' as [Hds' [Hd' _]%Forall_cons].
  assert (Hq : numeral base ds = numeral base ds' ∧ d = e) by (apply (Z.div_mod_unique base); lia). destruct Hq as [Hq ->]. f_equal.
  apply IH; try done; intros H; [apply Hh|apply Hh']; by rewrite head_app, H.
Qed.

Lemma is_numeral_unique base x ds ds' : 2 <= base → is_numeral base x ds → is_numeral base x ds' → ds = ds'.
Proof.
  intros Hb (E & Hd & Hne & Hh) (E' & Hd' & Hne' & Hh').
  destruct (decide (head ds = Some 0)) as [H|H], (decide (head ds' = Some 0)) as [H'|H'].
  - by rewrite (Hh H), (Hh' H').
  - rewrite (Hh H) in E. pose proof (numeral_pos base ds' Hb Hd' Hne' H'). unfold numeral in *. simpl in *. lia.
  - rewrite (Hh' H') in E'. pose proof (numeral_pos base ds Hb Hd Hne H). unfold numeral in *. simpl in *. lia.
  - eapply numeral_inj; [exact Hb|done..|congruence].
Qed.

Lemma int_text_unique digits base xx sgn o o' :
  2 <= base → int_text digits base xx sgn o → int_text digits base xx sgn o' → o = o'.
Proof. intros Hb (ds & Hd & ->) (ds' & Hd' & ->). by rewrite (is_numeral_unique base _ ds ds' Hb Hd Hd'). Qed.

(** ** The routines print the text *)

Section Print.
Context {S : Type} (putc : Z → K S unit) (digits : list Z).
Hypothesis (Hdig : length digits = 16%nat).
Abbreviation emits := (emits putc).

Lemma emits_elem l i c : l !! Z.to_nat i = Some c → 0 <= i → emits (elem l i) [] c.
Proof. intros E Hi. unfold elem. destruct (Z.leb_spec 0 i); [|lia]. rewrite E. apply emits_ret. Qed.

Lemma emits_store buf i c : 0 <= i < zlen buf → emits (store buf i c) [] (<[Z.to_nat i := c]> buf).
Proof.
  intros Hi. unfold store. destruct (Z.leb_spec 0 i), (Z.ltb_spec i (zlen buf)); try lia. apply emits_ret.
Qed.

Lemma emits_digit d : 0 <= d < 16 → emits (elem digits d) [] (digits !!! Z.to_nat d).
Proof. intros Hd. apply emits_elem; [|lia]. apply list_lookup_lookup_total_lt. lia. Qed.

Lemma is_numeral_one base x : 2 <= base → 0 <= x < base → is_numeral base x [x].
Proof.
  intros Hb Hx. unfold is_numeral, numeral. cbn [foldl head]. split_and!; [lia|by apply Forall_singleton|done|congruence].
Qed.

Lemma is_numeral_snoc base x ds :
  2 <= base → base <= x → is_numeral base (x / base) ds → is_numeral base x (ds ++ [x mod base]).
Proof.
  intros Hb Hx (Hv & Hd & Hne & Hh). pose proof (Z.mod_pos_bound x base). unfold is_numeral. rewrite numeral_snoc, Hv. split_and!.
  - rewrite (Z.div_mod x base) at 3 by lia. lia.
  - apply Forall_app. split; [done|]. apply Forall_singleton. lia.
  - by destruct ds.
  - rewrite head_app. destruct ds as [|d ds]; [done|]. intros E. rewrite Hh in Hv by done. unfold numeral in Hv. simpl in Hv.
    assert (1 <= x / base) by (apply Z.div_le_lower_bound; lia). lia.
Qed.

Lemma take_insert_next (l : list Z) i c : (i < length l)%nat → take (i + 1) (<[i := c]> l) = take i l ++ [c].
Proof.
  intros Hi. replace (i + 1)%nat with (Datatypes.S i) by lia. rewrite (take_S_r _ _ c) by by rewrite list_lookup_insert_eq.
  by rewrite take_insert_ge.
Qed.

(** The loop over the digits, [k] bounding how many there are. *)
Lemma emits_digit_loop base k n i x buf :
  2 <= base <= 16 → length buf = 16%nat → 0 <= x < base ^ Z.of_nat k → (1 <= k)%nat → (i + k <= 16)%nat → (k <= n)%nat →
  ∃ ds buf', is_numeral base x ds ∧ (length ds <= k)%nat ∧ length buf' = 16%nat ∧
    take (i + length ds) buf' = take i buf ++ reverse ((λ d, digits !!! Z.to_nat d) <$> ds) ∧
    emits (iter n (λ '(i, x, buf),
      c <- elem digits (x mod base) ;;;
      buf <- store buf i c ;;;
      let x := x / base in
      if negb (x =? 0) then ret (inl (i + 1, x, buf)) else ret (inr (i + 1, buf))) (Z.of_nat i, x, buf))
      [] (Z.of_nat (i + length ds), buf').
Proof.
  intros Hb. revert n i x buf. induction k as [|k IH]; intros n i x buf Hbuf Hx Hk Hi Hn; [lia|]. destruct n as [|n]; [lia|].
  pose proof (Z.mod_pos_bound x base ltac:(lia)) as Hm.
  set (c := digits !!! Z.to_nat (x mod base)). set (buf1 := <[i := c]> buf).
  assert (Hbuf1 : length buf1 = 16%nat) by (unfold buf1; by rewrite length_insert).
  assert (Ht : take (i + 1) buf1 = take i buf ++ [c]) by (apply take_insert_next; lia).
  destruct (Z.ltb_spec x base).
  - exists [x], buf1. assert (Ec : digits !!! Z.to_nat x = c) by (unfold c; by rewrite Z.mod_small by lia).
    cbn [length fmap list_fmap]. rewrite Ec. split_and!; [by apply is_numeral_one; lia|simpl; lia|done|done|].
    apply emits_leave. apply (emits_then _ _ _ _ c); [apply emits_digit; lia|]. eapply emits_then; [apply emits_store; lia|].
    rewrite Nat2Z.id. cbv zeta. rewrite Z.div_small by lia. simpl. replace (Z.of_nat (i + 1)) with (Z.of_nat i + 1) by lia. apply emits_ret.
  - rewrite Nat2Z.inj_succ, Z.pow_succ_r in Hx by lia.
    assert (1 <= x / base) by (apply Z.div_le_lower_bound; lia).
    assert (x / base < base ^ Z.of_nat k) by (apply Z.div_lt_upper_bound; lia).
    destruct k as [|k]; [simpl in *; lia|].
    destruct (IH n (i + 1)%nat (x / base) buf1) as (ds & buf' & Hds & Hlen & Hbuf' & Htk & He); [done|lia|lia|lia|lia|].
    exists (ds ++ [x mod base]), buf'. rewrite length_app. cbn [length]. split_and!.
    + apply is_numeral_snoc; [lia|lia|done].
    + lia.
    + done.
    + replace (i + (length ds + 1))%nat with (i + 1 + length ds)%nat by lia. rewrite Htk, Ht, fmap_app, reverse_app.
      cbn [fmap list_fmap]. by rewrite reverse_singleton, <-app_assoc.
    + change [] with ([] ++ [] : list Z). eapply emits_again.
      * apply (emits_then _ _ _ _ c); [apply emits_digit; lia|]. eapply emits_then; [apply emits_store; lia|].
        rewrite Nat2Z.id. cbv zeta. destruct (Z.eqb_spec (x / base) 0); [lia|]. simpl. apply emits_ret.
      * replace (Z.of_nat i + 1) with (Z.of_nat (i + 1)) by lia.
        replace (i + (length ds + 1))%nat with (i + 1 + length ds)%nat by lia. exact He.
Qed.

Lemma emits_put_back i buf :
  (i <= length buf)%nat → (i <= 17)%nat → emits (put_back putc (Z.of_nat i) buf) (reverse (take i buf)) tt.
Proof.
  unfold put_back. intros Hi Hf. assert (i < 18)%nat as Hlt by lia. clear Hf. revert Hlt. generalize 18%nat as n.
  induction i as [|i IH]; intros n Hn; (destruct n as [|n]; [lia|]).
  - apply emits_leave. apply emits_ret.
  - destruct (lookup_lt_is_Some_2 buf i) as [c E]; [lia|]. rewrite (take_S_r _ _ c), reverse_snoc by done.
    change (c :: reverse (take i buf)) with ([c] ++ reverse (take i buf)). eapply emits_again.
    + cbv beta zeta. destruct (Z.leb_spec 0 (Z.of_nat (Datatypes.S i) - 1)); [|lia].
      eapply emits_then; [apply emits_elem; [|lia]|].
      { replace (Z.to_nat (Z.of_nat (Datatypes.S i) - 1)) with i by lia. exact E. }
      apply emits_put, emits_ret.
    + replace (Z.of_nat (Datatypes.S i) - 1) with (Z.of_nat i) by lia. apply IH; lia.
Qed.

Lemma emits_printint xx base sgn :
  base = 10 ∨ base = 16 → - 2 ^ 31 <= xx < 2 ^ 31 →
  ∃ out, int_text digits base xx sgn out ∧ (length out <= 11)%nat ∧ emits (printint putc digits xx base sgn) out tt.
Proof.
  intros Hb Hx. unfold printint, digit_loop, int_text. set (neg := sgn && (xx <? 0)).
  set (x := if neg then u32 (- xx) else u32 xx). pose proof (u32_range xx).
  assert (Ex : (if sgn then Z.abs xx else u32 xx) = x).
  { unfold x, neg. destruct sgn; simpl; [|done]. destruct (Z.ltb_spec xx 0); rewrite u32_small; lia. }
  destruct (emits_digit_loop base 10 17 0 x (replicate 16 0)) as (ds & buf & Hds & Hlen & Hbuf & Htk & He); [lia|done| |lia|lia|lia|].
  { rewrite <-Ex. assert (2 ^ 32 < 10 ^ 10) by done. assert (10 ^ 10 <= base ^ 10) by (apply Z.pow_le_mono_l; lia).
    change (Z.of_nat 10) with 10. destruct sgn; lia. }
  cbn [Nat.add] in *. rewrite take_0 in Htk. cbn [app] in Htk. exists ((if neg then [45] else []) ++ ((λ d, digits !!! Z.to_nat d) <$> ds)).
  split; [exists ds; by rewrite Ex|]. split.
  { rewrite length_app, length_fmap. destruct neg; simpl; lia. }
  eapply emits_then; [exact He|]. cbv beta iota. destruct neg.
  - eapply emits_then.
    { eapply emits_then; [apply emits_store; lia|apply emits_ret]. }
    cbv beta iota. rewrite Nat2Z.id. replace (Z.of_nat (length ds) + 1) with (Z.of_nat (length ds + 1)) by lia.
    rewrite <-(reverse_involutive ([45] ++ _)), reverse_app, reverse_singleton, <-Htk, <-take_insert_next by lia.
    apply emits_put_back; [rewrite length_insert; lia|lia].
  - eapply emits_then; [apply emits_ret|]. cbv beta iota. cbn [app]. rewrite <-(reverse_involutive (_ <$> ds)), <-Htk.
    apply emits_put_back; lia.
Qed.

Lemma shift_digit x i : 0 <= x < 2 ^ 64 → 0 <= i < 16 → Z.shiftr (u64 (x * 16 ^ i)) 60 = x / 16 ^ (15 - i) mod 16.
Proof.
  intros Hx Hi. rewrite Z.shiftr_div_pow2 by lia. unfold u64.
  assert (E : 2 ^ 64 = 16 ^ (16 - i) * 16 ^ i) by (rewrite <-Z.pow_add_r by lia; by replace (16 - i + i) with 16 by lia).
  assert (E2 : 2 ^ 60 = 16 ^ (15 - i) * 16 ^ i) by (rewrite <-Z.pow_add_r by lia; by replace (15 - i + i) with 15 by lia).
  assert (0 < 16 ^ i) by (apply Z.pow_pos_nonneg; lia). assert (0 < 16 ^ (15 - i)) by (apply Z.pow_pos_nonneg; lia).
  rewrite E, E2, Zmult_mod_distr_r, Z.div_mul_cancel_r by lia.
  replace (16 - i) with (Z.succ (15 - i)) by lia. rewrite Z.pow_succ_r by lia. rewrite (Z.mul_comm 16), Z.rem_mul_r by lia.
  rewrite Z.mul_comm, Z.div_add by lia. rewrite Z.div_small by (apply Z.mod_pos_bound; lia). lia.
Qed.

Lemma emits_printptr x : 0 <= x < 2 ^ 64 → emits (printptr putc digits x) (ptr_text digits x) tt.
Proof.
  intros Hx. unfold printptr, ptr_text. cbn [app]. apply emits_put, emits_put.
  assert (H : ∀ k n i, (i + k = 16)%nat → (k < n)%nat →
    emits (iter n (λ '(i, x), if i <? 16 then c <- elem digits (Z.shiftr x 60) ;;; putc c ;;;
      ret (inl (i + 1, u64 (Z.shiftl x 4))) else ret (inr tt)) (Z.of_nat i, u64 (x * 16 ^ Z.of_nat i)))
      ((λ k, digits !!! Z.to_nat (x / 16 ^ Z.of_nat k mod 16)) <$> reverse (seq 0 k)) tt).
  { induction k as [|k IH]; intros n i Hi Hn; (destruct n as [|n]; [lia|]).
    - apply emits_leave. cbv beta iota. destruct (Z.ltb_spec (Z.of_nat i) 16); [lia|]. apply emits_ret.
    - rewrite seq_S, reverse_snoc, fmap_cons, Nat.add_0_l. eapply (emits_again _ _ _ _ _ [_]).
      + cbv beta iota. destruct (Z.ltb_spec (Z.of_nat i) 16); [|lia]. rewrite shift_digit by lia.
        replace (15 - Z.of_nat i) with (Z.of_nat k) by lia. eapply emits_then; [apply emits_digit, Z.mod_pos_bound; lia|].
        apply emits_put, emits_ret.
      + replace (Z.of_nat i + 1) with (Z.of_nat (Datatypes.S i)) by lia.
        replace (u64 (Z.shiftl (u64 (x * 16 ^ Z.of_nat i)) 4)) with (u64 (x * 16 ^ Z.of_nat (Datatypes.S i))); [apply IH; lia|].
        unfold u64. rewrite Z.shiftl_mul_pow2, Zmult_mod_idemp_l by lia. f_equal. rewrite Nat2Z.inj_succ, Z.pow_succ_r by lia. lia. }
  specialize (H 16%nat 17%nat 0%nat). rewrite Z.pow_0_r, Z.mul_1_r, u64_small in H by done. apply H; lia.
Qed.

Context (fuel : nat) (m : mem).

Lemma emits_put_string s l : cstr m s l → (length l < fuel)%nat → emits (put_string putc fuel m s) l tt.
Proof.
  unfold put_string. generalize fuel. clear. intros n. revert s l. induction n as [|n IH]; intros s l Hl Hn; [lia|].
  destruct l as [|c l]; cbn [cstr length] in *.
  - apply emits_leave. cbv beta zeta. rewrite Hl. apply emits_ret.
  - destruct Hl as (Hc & Hc0 & Hl). eapply (emits_again _ _ _ _ _ [c] l).
    + cbv beta zeta. rewrite Hc. destruct (Z.eqb_spec c 0); [done|]. apply emits_put, emits_ret.
    + apply IH; [done|lia].
Qed.

Lemma emits_int xx base sgn out :
  base = 10 ∨ base = 16 → int_text digits base (s32 xx) sgn out → emits (printint putc digits (s32 xx) base sgn) out tt.
Proof.
  intros Hb Ht. destruct (emits_printint (s32 xx) base sgn Hb (s32_range xx)) as (out' & Ht' & _ & He).
  rewrite (int_text_unique digits base (s32 xx) sgn out out'); [done|lia|done|done].
Qed.

Lemma emits_str a out : str_text m a out → (length out < fuel)%nat → emits (put_arg_string putc fuel m a) out tt.
Proof.
  unfold put_arg_string. intros [[-> ->]|[Ha Hs]] Hf; [apply emits_list|]. destruct (Z.eqb_spec a 0); [done|].
  by apply emits_put_string.
Qed.

Lemma emits_arg {A} (f : Z → K S unit) a ap (g : Z * list Z → A) out :
  emits (f a) out tt → emits (a <- va_arg (a :: ap) ;;; f a.1 ;;; ret (g a)) out (g (a, ap)).
Proof.
  intros H. eapply emits_then; [apply emits_ret|]. rewrite <-(app_nil_r out). by eapply emits_bind; [|apply emits_ret].
Qed.

Lemma emits_uconv c a ap out :
  conversion true digits m c a out → 0 <= a < 2 ^ 64 → (length out < fuel)%nat →
  emits (uconv putc digits fuel m c (a :: ap)) out ap.
Proof.
  intros Hc Ha Hf. destruct Hc as [a out Ht|a out Ht|a|a out Ht|a out _ Ht|a _]; unfold uconv; simpl.
  - apply (emits_arg (λ x, printint putc digits (s32 x) 10 true) a ap snd), emits_int; [by left|done].
  - apply (emits_arg (λ x, printint putc digits (s32 x) 16 false) a ap snd), emits_int; [by right|done].
  - by apply (emits_arg (printptr putc digits) a ap snd), emits_printptr.
  - by apply (emits_arg (put_arg_string putc fuel m) a ap snd), emits_str.
  - apply (emits_arg (λ x, printint putc digits (s32 x) 10 false) a ap snd), emits_int; [by left|done].
  - apply (emits_arg (λ x, putc (u8 x)) a ap snd), emits_putc.
Qed.

Lemma emits_kconv c a ap out :
  conversion false digits m c a out → 0 <= a < 2 ^ 64 → (length out < fuel)%nat →
  emits (kconv putc digits fuel m c (a :: ap)) out ap.
Proof.
  intros Hc Ha Hf. destruct Hc as [a out Ht|a out Ht|a|a out Ht|a out [=] _|a [=]]; unfold kconv; simpl.
  - apply (emits_arg (λ x, printint putc digits (s32 x) 10 true) a ap snd), emits_int; [by left|done].
  - apply (emits_arg (λ x, printint putc digits (s32 x) 16 true) a ap snd), emits_int; [by right|done].
  - by apply (emits_arg (printptr putc digits) a ap snd), emits_printptr.
  - by apply (emits_arg (put_arg_string putc fuel m) a ap snd), emits_str.
Qed.

Lemma known_user c : known true c = false → c ≠ 100 ∧ c ≠ 120 ∧ c ≠ 112 ∧ c ≠ 115 ∧ c ≠ 108 ∧ c ≠ 99.
Proof. unfold known. cbn [andb]. lia. Qed.
Lemma known_kernel c : known false c = false → c ≠ 100 ∧ c ≠ 120 ∧ c ≠ 112 ∧ c ≠ 115.
Proof. unfold known. cbn [andb]. lia. Qed.

Lemma emits_uconv_plain c ap :
  known true c = false → emits (uconv putc digits fuel m c ap) (if c =? 37 then [37] else [37; c]) ap.
Proof.
  intros Hk%known_user. unfold uconv. repeat (bcase; [lia|]). bcase; [subst c; by apply emits_put, emits_ret|].
  by apply emits_put, emits_put, emits_ret.
Qed.
Lemma emits_kconv_plain c ap :
  known false c = false → emits (kconv putc digits fuel m c ap) (if c =? 37 then [37] else [37; c]) ap.
Proof.
  intros Hk%known_kernel. unfold kconv. repeat (bcase; [lia|]). bcase; [subst c; by apply emits_put, emits_ret|].
  by apply emits_put, emits_put, emits_ret.
Qed.

Lemma land_ff a : Z.land (rd8 m a) 0xff = rd8 m a.
Proof. rewrite (Z.land_ones _ 8) by lia. apply Z.mod_small, rd8_range. Qed.

(** A step of the user's loop. *)
Lemma emits_vstep fmt i st ap c out x :
  rd8 m (fmt + i) = c → c ≠ 0 →
  emits (if st =? 0 then if c =? 37 then ret (inl (i + 1, 37, ap)) else putc c ;;; ret (inl (i + 1, st, ap))
         else if st =? 37 then ap <- uconv putc digits fuel m c ap ;;; ret (inl (i + 1, 0, ap))
         else ret (inl (i + 1, st, ap))) out x →
  emits (vprintf_step putc digits fuel m fmt (i, st, ap)) out x.
Proof. intros Hc Hc0. unfold vprintf_step. rewrite land_ff, Hc. by destruct (Z.eqb_spec c 0). Qed.

(** A percent sign and the character after it. *)
Lemma emits_vpercent fmt n i c ap ap' txt out :
  rd8 m (fmt + i) = 37 → rd8 m (fmt + i + 1) = c → c ≠ 0 → emits (uconv putc digits fuel m c ap) txt ap' →
  emits (iter n (vprintf_step putc digits fuel m fmt) (i + 2, 0, ap')) out tt →
  emits (iter (Datatypes.S (Datatypes.S n)) (vprintf_step putc digits fuel m fmt) (i, 0, ap)) (txt ++ out) tt.
Proof.
  intros H1 H2 Hc Hu Hn. rewrite <-Z.add_assoc in H2. apply (emits_again _ _ _ _ (i + 1, 37, ap) [] (txt ++ out)).
  - by apply (emits_vstep _ _ _ _ 37); [done|done|apply emits_ret].
  - apply (emits_again _ _ _ _ (i + 2, 0, ap') txt out); [|done]. apply (emits_vstep _ _ _ _ c); [done|done|]. simpl.
    replace (i + 1 + 1) with (i + 2) by lia. rewrite <-(app_nil_r txt). eapply emits_bind; [done|apply emits_ret].
Qed.

Lemma emits_vloop fmt f ap out n i :
  renders true digits m f ap out → Forall (λ a, 0 <= a < 2 ^ 64) ap → (length out < fuel)%nat → (length f < n)%nat →
  cstr m (fmt + i) f → emits (iter n (vprintf_step putc digits fuel m fmt) (i, 0, ap)) out tt.
Proof.
  intros Hr. revert n i.
  induction Hr as [ap|c f ap out Hc Hr IH|ap|f ap out Hr IH|c f ap out Hc Hk Hr IH|c f a ap txt out Hcv Hr IH];
    intros n i Ha Ho Hn Hs; cbn [length cstr] in *; (destruct n as [|n]; [lia|]).
  - apply emits_leave. unfold vprintf_step. rewrite Hs. apply emits_ret.
  - destruct Hs as (Hc1 & Hc0 & Hs). rewrite <-Z.add_assoc in Hs. apply (emits_again _ _ _ _ (i + 1, 0, ap) [c] out).
    + apply (emits_vstep _ _ _ _ c); [done|done|]. simpl. destruct (Z.eqb_spec c 37); [done|]. apply emits_put, emits_ret.
    + apply IH; [done|simpl in *; lia|lia|done].
  - destruct Hs as (Hc1 & Hc0 & Hs). rewrite <-Z.add_assoc in Hs. destruct n as [|n]; [lia|].
    apply (emits_again _ _ _ _ (i + 1, 37, ap) [] []); [by apply (emits_vstep _ _ _ _ 37); [done|done|apply emits_ret]|].
    apply emits_leave. unfold vprintf_step. rewrite Hs. apply emits_ret.
  - destruct Hs as (Hc1 & _ & Hc2 & _ & Hs). rewrite <-!Z.add_assoc in Hs. destruct n as [|n]; [lia|].
    apply (emits_vpercent _ _ _ 37 _ ap [37] out); [done|done|done|by apply emits_uconv_plain|]. apply IH; [done|simpl in *; lia|lia|done].
  - destruct Hs as (Hc1 & _ & Hc2 & Hc0 & Hs). rewrite <-!Z.add_assoc in Hs. destruct n as [|n]; [lia|].
    apply (emits_vpercent _ _ _ c _ ap [37; c] out); [done|done|done| |apply IH; [done|simpl in *; lia|lia|done]].
    pose proof (emits_uconv_plain c ap Hk) as H. by destruct (Z.eqb_spec c 37).
  - destruct Hs as (Hc1 & _ & Hc2 & Hc0 & Hs). rewrite <-!Z.add_assoc in Hs. destruct n as [|n]; [lia|].
    apply Forall_cons in Ha as [Ha Hap]. rewrite length_app in Ho.
    apply (emits_vpercent _ _ _ c _ ap txt out); [done|done|done|apply emits_uconv; [done|done|lia]|]. apply IH; [done|lia|lia|done].
Qed.

Lemma emits_kpercent fmt n i c ap ap' txt out :
  rd8 m (fmt + i) = 37 → rd8 m (fmt + i + 1) = c → c ≠ 0 → emits (kconv putc digits fuel m c ap) txt ap' →
  emits (iter n (kformat_step putc digits fuel m fmt) (i + 2, ap')) out tt →
  emits (iter (Datatypes.S n) (kformat_step putc digits fuel m fmt) (i, ap)) (txt ++ out) tt.
Proof.
  intros H1 H2 Hc Hu Hn. rewrite <-Z.add_assoc in H2. apply (emits_again _ _ _ _ (i + 2, ap') txt out); [|done].
  unfold kformat_step. rewrite !land_ff, H1, H2. simpl. destruct (Z.eqb_spec c 0); [done|].
  replace (i + 1 + 1) with (i + 2) by lia. rewrite <-(app_nil_r txt). eapply emits_bind; [done|apply emits_ret].
Qed.

Lemma emits_kloop fmt f ap out n i :
  renders false digits m f ap out → Forall (λ a, 0 <= a < 2 ^ 64) ap → (length out < fuel)%nat → (length f < n)%nat →
  cstr m (fmt + i) f → emits (iter n (kformat_step putc digits fuel m fmt) (i, ap)) out tt.
Proof.
  intros Hr. revert n i.
  induction Hr as [ap|c f ap out Hc Hr IH|ap|f ap out Hr IH|c f ap out Hc Hk Hr IH|c f a ap txt out Hcv Hr IH];
    intros n i Ha Ho Hn Hs; cbn [length cstr] in *; (destruct n as [|n]; [lia|]).
  - apply emits_leave. unfold kformat_step. rewrite land_ff, Hs. apply emits_ret.
  - destruct Hs as (Hc1 & Hc0 & Hs). rewrite <-Z.add_assoc in Hs. apply (emits_again _ _ _ _ (i + 1, ap) [c] out).
    + unfold kformat_step. rewrite !land_ff, Hc1. destruct (Z.eqb_spec c 0); [done|]. destruct (Z.eqb_spec c 37); [done|].
      apply emits_put, emits_ret.
    + apply IH; [done|simpl in *; lia|lia|done].
  - destruct Hs as (Hc1 & Hc0 & Hs). rewrite <-Z.add_assoc in Hs.
    apply emits_leave. unfold kformat_step. rewrite !land_ff, Hc1, Hs. apply emits_ret.
  - destruct Hs as (Hc1 & _ & Hc2 & _ & Hs). rewrite <-!Z.add_assoc in Hs.
    apply (emits_kpercent _ _ _ 37 _ ap [37] out); [done|done|done|by apply emits_kconv_plain|]. apply IH; [done|simpl in *; lia|lia|done].
  - destruct Hs as (Hc1 & _ & Hc2 & Hc0 & Hs). rewrite <-!Z.add_assoc in Hs.
    apply (emits_kpercent _ _ _ c _ ap [37; c] out); [done|done|done| |apply IH; [done|simpl in *; lia|lia|done]].
    pose proof (emits_kconv_plain c ap Hk) as H. by destruct (Z.eqb_spec c 37).
  - destruct Hs as (Hc1 & _ & Hc2 & Hc0 & Hs). rewrite <-!Z.add_assoc in Hs.
    apply Forall_cons in Ha as [Ha Hap]. rewrite length_app in Ho.
    apply (emits_kpercent _ _ _ c _ ap txt out); [done|done|done|apply emits_kconv; [done|done|lia]|]. apply IH; [done|lia|lia|done].
Qed.
End Print.

(** ** On the console *)

Definition bytes (l : list Z) : Prop := Forall (λ c, 0 <= c < 256) l.

Lemma bytes_cstr m a l : cstr m a l → bytes l.
Proof.
  revert a. induction l as [|c l IH]; intros a; cbn [cstr]; [by constructor|]. intros (<- & _ & H).
  constructor; [apply rd8_range|]. by eapply IH.
Qed.

Lemma bytes_digits l : Forall (λ d, 0 <= d < 16) l → bytes ((λ d, kdigits !!! Z.to_nat d) <$> l).
Proof.
  intros H. apply Forall_fmap. eapply Forall_impl; [exact H|]. intros d Hd. cbv beta in Hd. unfold compose.
  assert (Hk : Forall (λ c, 0 <= c < 256) kdigits) by (by repeat constructor).
  rewrite Forall_lookup in Hk. apply (Hk (Z.to_nat d)). apply list_lookup_lookup_total_lt. change (length kdigits) with 16%nat. lia.
Qed.

Lemma bytes_int base xx sgn out : 2 <= base <= 16 → int_text kdigits base xx sgn out → bytes out.
Proof.
  intros Hb (ds & (_ & Hd & _) & ->). apply Forall_app. split; [by destruct (_ && _); repeat constructor|].
  apply bytes_digits. eapply Forall_impl; [exact Hd|]. simpl. lia.
Qed.

Lemma bytes_conversion m c a out : conversion false kdigits m c a out → bytes out.
Proof.
  intros [b o Ht|b o Ht|b|b o Ht|b o [=] _|b [=]].
  - by eapply bytes_int; [|exact Ht].
  - by eapply bytes_int; [|exact Ht].
  - unfold ptr_text. apply Forall_app. split; [by repeat constructor|].
    change (bytes (((λ d, kdigits !!! Z.to_nat d) ∘ (λ k, b / 16 ^ Z.of_nat k mod 16)) <$> reverse (seq 0 16))).
    rewrite list_fmap_compose. apply bytes_digits, Forall_fmap, Forall_true.
    intros k. unfold compose. apply Z.mod_pos_bound. lia.
  - destruct Ht as [[_ ->]|[_ Hs]]; [by repeat constructor|by eapply bytes_cstr].
Qed.

Lemma bytes_renders m f ap out : renders false kdigits m f ap out → bytes f → bytes out.
Proof.
  intros Hr. induction Hr as [ap|c f ap out Hc Hr IH|ap|f ap out Hr IH|c f ap out Hc Hk Hr IH|c f a ap txt out Hcv Hr IH]; intros Hf.
  - constructor.
  - apply Forall_cons in Hf as [? ?]. constructor; [done|by apply IH].
  - constructor.
  - apply Forall_cons in Hf as [_ [_ ?]%Forall_cons]. constructor; [done|by apply IH].
  - apply Forall_cons in Hf as [_ [? ?]%Forall_cons]. repeat constructor; [lia..|by apply IH].
  - apply Forall_cons in Hf as [_ [_ ?]%Forall_cons]. apply Forall_app. split; [by eapply bytes_conversion|by apply IH].
Qed.

(** The console prints the characters, in order. *)
Lemma runs_put_list l s :
  bytes l → hart_wf (cpu (con s)) → panicked (con s) = false → zlen l <= idle_count (lsr (con s)) →
  runs (put_list kputc l) s (λ _ s', s' = set_con (con s') s ∧ echoed l (con s) (con s')).
Proof.
  revert s. induction l as [|c l IH]; intros s Hl Hh Hp Hi; cbn [put_list length] in *.
  - kred. destruct s. split; [done|]. split_and!; [by unfold echo_frame|simpl; by rewrite app_nil_r|simpl; lia].
  - apply Forall_cons in Hl as [Hc Hl]. apply runs_bind, runs_zoom. unfold consputc.
    destruct (Z.eqb_spec c BACKSPACE); [unfold BACKSPACE in *; lia|].
    eapply runs_mono; [apply runs_uartputc_sync; [done|done|lia]|]. intros u t He. pose proof He as (Hf & _ & Hic).
    unfold echo_frame in Hf. destruct_and!. simpl in Hic.
    eapply runs_mono; [apply IH; cbn [con set_con]; [done|done|congruence|lia]|]. cbn [con set_con]. intros v s' [Es He'].
    split; [by rewrite Es|]. by apply (echoed_app [c] l _ t).
Qed.

Lemma runs_kformat fuel m fmt f ap out s :
  renders false kdigits m f ap out → Forall (λ a, 0 <= a < 2 ^ 64) ap → cstr m fmt f → (length f + length out < fuel)%nat →
  hart_wf (cpu (con s)) → panicked (con s) = false → zlen out <= idle_count (lsr (con s)) →
  runs (kformat kputc kdigits fuel m fmt ap) s (λ _ s', s' = set_con (con s') s ∧ echoed out (con s) (con s')).
Proof.
  intros Hr Ha Hc Hf Hh Hp Hi.
  assert (He : emits kputc (kformat kputc kdigits fuel m fmt ap) out tt).
  { apply (emits_kloop kputc kdigits eq_refl fuel m fmt f); [done|done|lia|lia|by rewrite Z.add_0_r]. }
  unfold runs at 1. rewrite He. change (runs (bind (put_list kputc out) (λ _, ret tt)) s (λ _ s', s' = set_con (con s') s ∧ echoed out (con s) (con s'))).
  apply runs_bind. eapply runs_mono; [apply runs_put_list; [|done..]|].
  - eapply bytes_renders; [done|by eapply bytes_cstr].
  - intros [] s' H. by kred.
Qed.

(** With the lock free, or without the lock, as in panic. *)
Lemma runs_kprintf fuel m fmt f ap out s :
  renders false kdigits m f ap out → Forall (λ a, 0 <= a < 2 ^ 64) ap → cstr m fmt f → fmt ≠ 0 → (length f + length out < fuel)%nat →
  hart_wf (cpu (con s)) → panicked (con s) = false → zlen out <= idle_count (lsr (con s)) → locking s = false ∨ pr_lock s = false →
  runs (kprintf fuel m fmt ap) s (λ _ s', s' = set_con (con s') s ∧ echoed out (con s) (con s')).
Proof.
  intros Hr Ha Hc H0 Hf Hh Hp Hi Hl. unfold kprintf. kred. destruct (Z.eqb_spec fmt 0); [done|]. destruct (locking s) eqn:El.
  - destruct Hl as [|Hl]; [done|]. apply runs_acquire_flag; [done|]. kred.
    eapply runs_mono; [by eapply (runs_kformat _ _ _ _ _ _ (set_pr_lock true s))|].
    cbn [con set_pr_lock]. intros u s' [Es He]. rewrite Es. apply runs_release_flag; [done|]. split; [|done].
    destruct s; simpl in *; by subst.
  - kred. eapply runs_mono; [by eapply runs_kformat|]. intros u s' H. by kred.
Qed.

(** The constants of the kernel's panic. *)
Definition panic_prefix : list Z := [112; 97; 110; 105; 99; 58; 32].

Lemma renders_plain user digits m f : 37 ∉ f → renders user digits m f [] f.
Proof.
  induction f as [|c f IH]; intros H; [constructor|]. apply not_elem_of_cons in H as [? ?]. constructor; [done|by apply IH].
Qed.

Lemma runs_kpanic fuel m pre nl p msg s :
  cstr m pre panic_prefix → pre ≠ 0 → cstr m nl [10] → nl ≠ 0 → cstr m p msg → p ≠ 0 → 37 ∉ msg →
  (2 * length msg + 14 < fuel)%nat → hart_wf (cpu (con s)) → panicked (con s) = false → zlen msg + 8 <= idle_count (lsr (con s)) →
  runs (kpanic fuel m pre nl p) s (λ _ s', panicked (con s') = true ∧ pr_lock s' = pr_lock s ∧
    wires (con s') = wires (con s) ++ sent_bytes (panic_prefix ++ msg ++ [10])).
Proof.
  intros Hpre Hpre0 Hnl Hnl0 Hp Hp0 Hm Hf Hh Hpa Hi. unfold kpanic. kred. set (s0 := set_locking false s).
  assert (Hpl : ∀ a l s, cstr m a l → a ≠ 0 → 37 ∉ l → (2 * length l < fuel)%nat → hart_wf (cpu (con s)) → panicked (con s) = false →
    zlen l <= idle_count (lsr (con s)) → locking s = false →
    runs (kprintf fuel m a []) s (λ _ s', s' = set_con (con s') s ∧ echoed l (con s) (con s'))).
  { intros. eapply runs_kprintf; [by apply renders_plain|by constructor|done|done|lia|done|done|lia|by left]. }
  eapply runs_mono; [apply (Hpl pre panic_prefix s0); try done; [by apply (bool_decide_unpack (37 ∉ panic_prefix))|simpl; lia|unfold s0; simpl; lia]|].
  intros u s1 [E1 Hq1]. change (con s0) with (con s) in Hq1. pose proof Hq1 as (F1 & _ & I1). unfold echo_frame in F1. destruct_and!. simpl in I1. kred.
  eapply runs_mono; [apply (Hpl p msg s1); try done; [lia|congruence|simpl in *; lia|by rewrite E1]|].
  intros v s2 [E2 Hq2]. pose proof Hq2 as (F2 & _ & I2). unfold echo_frame in F2. destruct_and!. kred.
  eapply runs_mono; [apply (Hpl nl [10] s2); try done; [by apply (bool_decide_unpack (37 ∉ [10]))|simpl; lia|congruence|simpl in *; lia|by rewrite E2, E1]|].
  intros w s3 [E3 Hq3]. kred. cbn [con set_con]. split_and!; [done|by rewrite E3, E2, E1|].
  pose proof (echoed_app _ _ _ _ _ Hq1 (echoed_app _ _ _ _ _ Hq2 Hq3)) as (_ & Hw & _). exact Hw.
Qed.

(** ** Properties *)

Lemma put_list_user fd l (o : uout) : put_list (uputc fd) l o = Ok tt (o ++ ((λ c, (fd, c)) <$> l)).
Proof.
  revert o. induction l as [|c l IH]; intros o; cbn [put_list fmap list_fmap]; [by rewrite app_nil_r|].
  unfold uputc at 1, bind, modify. rewrite IH. by rewrite <-app_assoc.
Qed.

(** [C38] printf prints what the format says.  [renders] defines the text of
    a format and its arguments: numbers as their numeral in the base, without
    leading zeros, signed where the source asks for it; pointers as sixteen
    digits; strings; an unknown conversion as it stands.  A user program's
    fprintf writes exactly this text to the descriptor, one byte per write.
    The kernel's printf sends it to the serial port, and leaves the lock and
    the console as they were; panic does so without the lock, even when the
    lock is held, and then stops the output of all harts. *)
Theorem printf_prints (fuel : nat) (m : mem) (fmt : Z) (f ap : list Z) :
  cstr m fmt f → fmt ≠ 0 → Forall (λ a, 0 <= a < 2 ^ 64) ap →
  (∀ fd out o, renders true udigits m f ap out → (length f + length out < fuel)%nat →
     fprintf fuel m fd fmt ap o = Ok tt (o ++ ((λ c, (fd, c)) <$> out))) ∧
  (∀ out s, renders false kdigits m f ap out → (length f + length out < fuel)%nat →
     locking s = true → pr_lock s = false → hart_wf (cpu (con s)) → panicked (con s) = false → zlen out <= idle_count (lsr (con s)) →
     runs (kprintf fuel m fmt ap) s (λ _ s', s' = set_con (con s') s ∧ echoed out (con s) (con s'))) ∧
  (∀ pre nl s, cstr m pre panic_prefix → pre ≠ 0 → cstr m nl [10] → nl ≠ 0 → 37 ∉ f → (2 * length f + 14 < fuel)%nat →
     hart_wf (cpu (con s)) → panicked (con s) = false → zlen f + 8 <= idle_count (lsr (con s)) →
     runs (kpanic fuel m pre nl fmt) s (λ _ s', panicked (con s') = true ∧ pr_lock s' = pr_lock s ∧
       wires (con s') = wires (con s) ++ sent_bytes (panic_prefix ++ f ++ [10]))).
Proof.
  intros Hc H0 Ha. split_and!.
  - intros fd out o Hr Hf. assert (He : emits (uputc fd) (vprintf (uputc fd) udigits fuel m fmt ap) out tt).
    { apply (emits_vloop (uputc fd) udigits eq_refl fuel m fmt f); [done|done|lia|lia|by rewrite Z.add_0_r]. }
    unfold fprintf. rewrite He. unfold bind. by rewrite put_list_user.
  - intros out s Hr Hf Hl Hk Hh Hp Hi. eapply runs_kprintf; [done|done|done|done|done|done|done|done|by right].
  - intros. by apply runs_kpanic.
Qed.

(** printf with the format %d! *)
Definition demo_mem : mem := list_to_map [(100, 37); (101, 100); (102, 33)].

Lemma printf_prints_witness : fprintf 20 demo_mem 1 100 [2 ^ 64 - 42] [] = Ok tt [(1, 45); (1, 52); (1, 50); (1, 33)].
Proof.
  assert (Hc : cstr demo_mem 100 [37; 100; 33]) by (split_and!; done).
  pose proof (printf_prints 20 demo_mem 100 [37; 100; 33] [2 ^ 64 - 42] Hc ltac:(done) ltac:(constructor; [lia|constructor])) as (H & _).
  apply (H 1 [45; 52; 50; 33] []); [|simpl; lia].
  apply (r_conv _ _ _ 100 [33] (2 ^ 64 - 42) [] [45; 52; 50] [33]); [|apply r_plain; [lia|apply r_end]].
  apply conv_d. exists [4; 2]. split; [|done]. split_and!; [done| |done|done]. repeat constructor; lia.
Defined.

(** [C39] printint is safe and prints the numeral: for every int and both bases
    it prints the digits of the number (behind a minus sign for a negative one
    when the call is for a signed number), and no store leaves the array of 16
    bytes, since the text has at most 11 characters, also for the least int.
    Of the texts in base 10, atoi reads back exactly those without a sign: for a
    number that is not negative the text, stored anywhere in memory with a
    character behind it that is not a digit, is read as the number; a text
    with a minus sign is read as 0. *)
Theorem printint_atoi (fd xx base : Z) (sgn : bool) (o : uout) :
  - 2 ^ 31 <= xx < 2 ^ 31 → base = 10 ∨ base = 16 →
  ∃ out, printint (uputc fd) udigits xx base sgn o = Ok tt (o ++ ((λ c, (fd, c)) <$> out)) ∧
    int_text udigits base xx sgn out ∧ (length out <= 11)%nat ∧
    (base = 10 → 0 <= xx → ∀ m s, rd_bytes m s (length out) = out → ¬ (48 <= rd8 m (s + zlen out) <= 57) → atoi 12 m s = Some xx) ∧
    (xx < 0 → sgn = true → ∀ m s, rd_bytes m s (length out) = out → atoi 12 m s = Some 0).
Proof.
  intros Hx Hb. destruct (emits_printint (uputc fd) udigits eq_refl xx base sgn Hb Hx) as (out & Ht & Hl & He).
  exists out. split_and!; [|done|done| |].
  - rewrite He. unfold bind. by rewrite put_list_user.
  - intros -> H0 m s Hs Hn. destruct Ht as (ds & (Hv & Hd & _) & Eo).
    assert (E : (if sgn && (xx <? 0) then [45] else []) = []) by (by destruct sgn; destruct (Z.ltb_spec xx 0); try lia).
    rewrite E in Eo. cbn [app] in Eo. clear E.
    assert (Ev : numeral 10 ds = xx) by (rewrite Hv; destruct sgn; [lia|apply u32_small; lia]).
    assert (Ed : out = (λ d, 48 + d) <$> ds).
    { rewrite Eo. apply list_fmap_ext. intros i d Hi. rewrite Forall_lookup in Hd. specialize (Hd i d Hi). cbv beta in Hd.
      assert (Hcase : d = 0 ∨ d = 1 ∨ d = 2 ∨ d = 3 ∨ d = 4 ∨ d = 5 ∨ d = 6 ∨ d = 7 ∨ d = 8 ∨ d = 9) by lia.
      by destruct_or! Hcase; subst d. }
    assert (El : length out = length ds) by (rewrite Ed; by rewrite length_fmap).
    rewrite El in Hs, Hn, Hl. rewrite <-Ev. apply atoi_digits; [lia| |by rewrite Hs|done|lia].
    eapply Forall_impl; [exact Hd|]. simpl. lia.
  - intros Hn -> m s Hs. destruct Ht as (ds & _ & Eo). destruct (Z.ltb_spec xx 0); [|lia]. cbn [andb app] in Eo.
    assert (E : rd8 m s = 45) by (rewrite Eo in Hs; cbn [length] in Hs; by injection Hs). unfold atoi. cbn [atoi_from]. by rewrite E.
Qed.

Lemma printint_atoi_witness :
  (∃ out, printint (uputc 1) udigits (- 2 ^ 31) 10 true [] = Ok tt ((λ c, (1, c)) <$> out) ∧ (length out <= 11)%nat) ∧
  ∃ out, printint (uputc 1) udigits 332 10 true [] = Ok tt ((λ c, (1, c)) <$> out) ∧
    ∀ m s, rd_bytes m s (length out) = out → ¬ (48 <= rd8 m (s + zlen out) <= 57) → atoi 12 m s = Some 332.
Proof.
  split.
  - destruct (printint_atoi 1 (- 2 ^ 31) 10 true [] ltac:(lia) ltac:(by left)) as (out & H1 & _ & H2 & _). exists out. split; [exact H1|exact H2].
  - destruct (printint_atoi 1 332 10 true [] ltac:(lia) ltac:(by left)) as (out & H1 & _ & _ & H2 & _). exists out. split; [exact H1|].
    exact (H2 eq_refl ltac:(lia)).
Defined.
