(* ===== verification/Sh.v ===== *)
(** user/sh.c: the shell.

    The line is in the memory of the shell; parsed commands are nodes in a
    store of their own, which malloc extends by a fresh node.  A pointer into
    the line that the source passes by reference ([ps], [q], [eq]) is a value
    that the function takes and returns.  [panic] ends the process with its
    message.  The recursive functions carry a bound.

    A process is its table of descriptors.  A child runs at the fork, up to
    its exec or exit; what it runs is recorded in [ran] with the table it has
    then.  The calls of wait, which only order a command after its child, then
    have nothing to wait for and are left out.  open succeeds for the files that
    [can_open] admits; fork and pipe succeed.  What is printed on descriptor 2
    is not modelled. *)

From S2P Require Import Prelude Mem CString Riscv Ulib.
Local Open Scope kernel_scope.

Definition MAXARGS : Z := 10.
Definition O_RDONLY : Z := 0x000.
Definition O_WRONLY : Z := 0x001.
Definition O_CREATE : Z := 0x200.
Definition O_TRUNC : Z := 0x400.
Definition O_RDWR : Z := 0x002.

(** struct execcmd, redircmd, pipecmd, listcmd and backcmd *)
Inductive cmd :=
| EXEC (argv eargv : list Z)
| REDIR (cmd file efile mode fd : Z)
| PIPE (left right : Z)
| LIST (left right : Z)
| BACK (cmd : Z).

(** What a descriptor refers to: something open at the start, a file, an end
    of a pipe. *)
Inductive fobj :=
| Inherited (n : Z)
| OpenFile (name : list Z) (mode : Z)
| ReadEnd (p : Z)
| WriteEnd (p : Z).

Abbreviation fdtable := (list (option fobj)).

Record shst := mkSh {
  line : mem;
  cmds : gmap Z cmd;
  next_cmd : Z;
  fds : fdtable;
  next_pipe : Z;
  ran : list (list (list Z) * fdtable);
  dirs : list (list Z)
}.
Definition set_line (x : mem) (s : shst) : shst := mkSh x (cmds s) (next_cmd s) (fds s) (next_pipe s) (ran s) (dirs s).
Definition set_cmds (x : gmap Z cmd) (n : Z) (s : shst) : shst := mkSh (line s) x n (fds s) (next_pipe s) (ran s) (dirs s).
Definition set_fds (x : fdtable) (s : shst) : shst := mkSh (line s) (cmds s) (next_cmd s) x (next_pipe s) (ran s) (dirs s).
Definition set_next_pipe (x : Z) (s : shst) : shst := mkSh (line s) (cmds s) (next_cmd s) (fds s) x (ran s) (dirs s).
Definition add_ran (x : list (list Z) * fdtable) (s : shst) : shst :=
  mkSh (line s) (cmds s) (next_cmd s) (fds s) (next_pipe s) (ran s ++ [x]) (dirs s).
Definition add_dir (x : list Z) (s : shst) : shst :=
  mkSh (line s) (cmds s) (next_cmd s) (fds s) (next_pipe s) (ran s) (dirs s ++ [x]).

(** ** Constructors *)

Definition new_cmd (c : cmd) : K shst Z := λ s,
  Ok (next_cmd s) (set_cmds (<[next_cmd s := c]> (cmds s)) (next_cmd s + 1) s).
Definition execcmd : K shst Z := new_cmd (EXEC (replicate 10 0) (replicate 10 0)).
Definition redircmd (subcmd file efile mode fd : Z) : K shst Z := new_cmd (REDIR subcmd file efile mode fd).
Definition pipecmd (left right : Z) : K shst Z := new_cmd (PIPE left right).
Definition listcmd (left right : Z) : K shst Z := new_cmd (LIST left right).
Definition backcmd (subcmd : Z) : K shst Z := new_cmd (BACK subcmd).

(** ** Parsing *)

Definition whitespace : list Z := [32; 9; 13; 10; 11].
Definition symbols : list Z := [60; 124; 62; 38; 59; 40; 41].

(** strchr(toks, c) on a constant string *)
Definition is_in (toks : list Z) (c : Z) : bool := existsb (Z.eqb c) toks.

(** while(s < es && p) s++; *)
Fixpoint scan (p : Z → bool) (m : mem) (s : Z) (n : nat) : Z :=
  match n with
  | O => s
  | S n' => if p (rd8 m s) then scan p m (s + 1) n' else s
  end.
Definition skip (p : Z → bool) (m : mem) (s es : Z) : Z := scan p m s (Z.to_nat (es - s)).
Definition skip_space : mem → Z → Z → Z := skip (is_in whitespace).

(** The token, its first character, the end of it and the position after the
    space that follows. *)
Definition gettoken (m : mem) (ps es : Z) : Z * Z * Z * Z :=
  let s := skip_space m ps es in
  let q := s in
  let c := rd8 m s in
  let '(ret, s) :=
    if c =? 0 then (c, s)
    else if is_in [124; 40; 41; 59; 38; 60] c then (c, s + 1)
    else if c =? 62 then if rd8 m (s + 1) =? 62 then (43, s + 1 + 1) else (c, s + 1)
    else (97, skip (λ c, negb (is_in whitespace c) && negb (is_in symbols c)) m s es) in
  (ret, q, s, skip_space m s es).

Definition peek (m : mem) (ps es : Z) (toks : list Z) : bool * Z :=
  let s := skip_space m ps es in
  (negb (rd8 m s =? 0) && is_in toks (rd8 m s), s).

Section Parser.
Context (es : Z).

Definition do_gettoken (s : Z) : K shst (Z * Z * Z * Z) := Prelude.gets (λ st, gettoken (line st) s es).
Definition do_peek (s : Z) (toks : list Z) : K shst (bool * Z) := Prelude.gets (λ st, peek (line st) s es toks).

(** The node of a redirection. *)
Definition add_redir (tok cmd q eq : Z) : K shst Z :=
  if tok =? 60 then redircmd cmd q eq O_RDONLY 0
  else if tok =? 62 then redircmd cmd q eq (Z.lor (Z.lor O_WRONLY O_CREATE) O_TRUNC) 1
  else if tok =? 43 then redircmd cmd q eq (Z.lor O_WRONLY O_CREATE) 1
  else ret cmd.

Definition redir_step (x : Z * Z) : K shst (Z * Z + Z * Z) :=
  let '(cmd, s) := x in
  let* (b, s) := do_peek s [60; 62] in
  if (b : bool) then
    let* (tok, _, _, s) := do_gettoken s in
    let* (a, q, eq, s) := do_gettoken s in
    if negb (a =? 97) then panic "missing file for redirection"
    else
      cmd <- add_redir tok cmd q eq ;;;
      ret (inl (cmd, s))
  else ret (inr (cmd, s)).
Definition parseredirs (fuel : nat) (cmd s : Z) : K shst (Z * Z) := iter fuel redir_step (cmd, s).

(** cmd->argv[i] = q; cmd->eargv[i] = eq; *)
Definition set_arg (p i q eq : Z) : K shst unit := λ s,
  match cmds s !! p with
  | Some (EXEC argv eargv) =>
      if (0 <=? i) && (i <? MAXARGS) then
        Ok tt (set_cmds (<[p := EXEC (<[Z.to_nat i := q]> argv) (<[Z.to_nat i := eq]> eargv)]> (cmds s)) (next_cmd s) s)
      else UB "argv"
  | _ => UB "execcmd"
  end.

(** The loop over the arguments of the command [cmd]. *)
Definition arg_step (fuel : nat) (cmd : Z) (x : Z * Z * Z) : K shst (Z * Z * Z + Z * Z * Z) :=
  let '(argc, rt, s) := x in
  let* (b, s) := do_peek s [124; 41; 38; 59] in
  if (b : bool) then ret (inr (argc, rt, s))
  else
    let* (tok, q, eq, s) := do_gettoken s in
    if tok =? 0 then ret (inr (argc, rt, s))
    else if negb (tok =? 97) then panic "syntax"
    else
      set_arg cmd argc q eq ;;;
      let argc := argc + 1 in
      if argc >=? MAXARGS then panic "too many args"
      else
        let* (rt, s) := parseredirs fuel rt s in
        ret (inl (argc, rt, s)).
Definition parseargs (fuel : nat) (cmd rt s : Z) : K shst (Z * Z * Z) := iter fuel (arg_step fuel cmd) (0, rt, s).

(** The ampersands behind a command. *)
Definition amp_step (x : Z * Z) : K shst (Z * Z + Z * Z) :=
  let '(cmd, s) := x in
  let* (b, s) := do_peek s [38] in
  if (b : bool) then
    let* (_, _, _, s) := do_gettoken s in
    cmd <- backcmd cmd ;;;
    ret (inl (cmd, s))
  else ret (inr (cmd, s)).

Fixpoint parseline (fuel : nat) (s : Z) : K shst (Z * Z) :=
  match fuel with
  | O => λ _, NoFuel
  | S f =>
      let* (cmd, s) := parsepipe f s in
      let* (cmd, s) := iter f amp_step (cmd, s) in
      let* (b, s) := do_peek s [59] in
      if (b : bool) then
        let* (_, _, _, s) := do_gettoken s in
        let* (rest, s) := parseline f s in
        cmd <- listcmd cmd rest ;;;
        ret (cmd, s)
      else ret (cmd, s)
  end
with parsepipe (fuel : nat) (s : Z) : K shst (Z * Z) :=
  match fuel with
  | O => λ _, NoFuel
  | S f =>
      let* (cmd, s) := parseexec f s in
      let* (b, s) := do_peek s [124] in
      if (b : bool) then
        let* (_, _, _, s) := do_gettoken s in
        let* (rest, s) := parsepipe f s in
        cmd <- pipecmd cmd rest ;;;
        ret (cmd, s)
      else ret (cmd, s)
  end
with parseblock (fuel : nat) (s : Z) : K shst (Z * Z) :=
  match fuel with
  | O => λ _, NoFuel
  | S f =>
      let* (b, s) := do_peek s [40] in
      if negb b then panic "parseblock"
      else
        let* (_, _, _, s) := do_gettoken s in
        let* (cmd, s) := parseline f s in
        let* (b, s) := do_peek s [41] in
        if negb b then panic "syntax - missing )"
        else
          let* (_, _, _, s) := do_gettoken s in
          parseredirs f cmd s
  end
with parseexec (fuel : nat) (s : Z) : K shst (Z * Z) :=
  match fuel with
  | O => λ _, NoFuel
  | S f =>
      let* (b, s) := do_peek s [40] in
      if (b : bool) then parseblock f s
      else
        cmd <- execcmd ;;;
        let* (rt, s) := parseredirs f cmd s in
        let* (argc, rt, s) := parseargs f cmd rt s in
        set_arg cmd argc 0 0 ;;;
        ret (rt, s)
  end.
End Parser.

(** NUL-terminates the strings of a command. *)
Definition store_nul (a : Z) : K shst unit := modify (λ s, set_line (wr8 (line s) a 0) s).

Definition end_args (argv eargv : list Z) : K shst unit :=
  iter 11 (λ i,
    match argv !! i, eargv !! i with
    | Some a, Some e => if a =? 0 then ret (inr tt) else store_nul e ;;; ret (inl (S i))
    | _, _ => ub "argv"
    end) 0%nat.

Fixpoint nulterminate (fuel : nat) (p : Z) : K shst unit :=
  match fuel with
  | O => λ _, NoFuel
  | S f =>
      if p =? 0 then ret tt
      else
        c <- Prelude.gets (λ s, cmds s !! p) ;;;
        match c with
        | Some (EXEC argv eargv) => end_args argv eargv
        | Some (REDIR sub _ efile _ _) => nulterminate f sub ;;; store_nul efile
        | Some (PIPE l r) => nulterminate f l ;;; nulterminate f r
        | Some (LIST l r) => nulterminate f l ;;; nulterminate f r
        | Some (BACK sub) => nulterminate f sub
        | None => ub "cmd"
        end
  end.

Definition parsecmd (fuel : nat) (s : Z) : K shst Z :=
  m <- Prelude.gets line ;;;
  match Ulib.strlen fuel m s with
  | None => λ _, NoFuel
  | Some n =>
      let es := s + n in
      let* (cmd, s) := parseline es fuel s in
      let* (_, s) := do_peek es s [] in
      if negb (s =? es) then panic "syntax"
      else nulterminate fuel cmd ;;; ret cmd
  end.

(** ** Running *)

(** The system calls on the table of descriptors. *)
Definition fd_put (x : fobj) : K shst (option Z) := λ s,
  match list_find (λ o, o = None) (fds s) with
  | Some (i, _) => Ok (Some (Z.of_nat i)) (set_fds (<[i := Some x]> (fds s)) s)
  | None => Ok None s
  end.
Definition sys_close (fd : Z) : K shst unit := modify (λ s, set_fds (<[Z.to_nat fd := None]> (fds s)) s).
Definition sys_dup (fd : Z) : K shst unit := λ s,
  match fds s !! Z.to_nat fd with
  | Some (Some x) => (fd_put x ;;; ret tt) s
  | _ => Ok tt s
  end.

(** The string at [p]. *)
Fixpoint string_at (fuel : nat) (m : mem) (p : Z) : option (list Z) :=
  match fuel with
  | O => None
  | S f => if rd8 m p =? 0 then Some [] else (rd8 m p ::.) <$> string_at f m (p + 1)
  end.
Fixpoint strings_at (fuel : nat) (m : mem) (ps : list Z) : option (list (list Z)) :=
  match ps with
  | [] => None
  | p :: ps =>
      if p =? 0 then Some []
      else match string_at fuel m p, strings_at fuel m ps with
           | Some w, Some ws => Some (w :: ws)
           | _, _ => None
           end
  end.

(** The branch of fork1() == 0: the child has a copy of the memory and of the
    table of descriptors, and panic ends only the child. *)
Definition in_child {A} (m : K shst A) : K shst unit := λ s,
  match m s with
  | Ok _ s' => Ok tt (mkSh (line s) (cmds s) (next_cmd s) (fds s) (next_pipe s') (ran s') (dirs s))
  | Panic _ => Ok tt s
  | Blocked c s' => Blocked c s'
  | UB w => UB w
  | NoFuel => NoFuel
  end.

(** How a process ends. *)
Inductive fin := Exited (status : Z) | Execed.

Section Run.
Context (can_open : list Z → Z → bool) (len : nat).

Definition sys_open (name : list Z) (mode : Z) : K shst Z :=
  if can_open name mode then
    fd <- fd_put (OpenFile name mode) ;;;
    match fd with Some fd => ret fd | None => ret (-1) end
  else ret (-1).

(** pipe(p): the two ends; without two free descriptors it fails. *)
Definition sys_pipe : K shst (option (Z * Z)) :=
  p <- Prelude.gets next_pipe ;;;
  f <- Prelude.gets fds ;;;
  r <- fd_put (ReadEnd p) ;;;
  w <- fd_put (WriteEnd p) ;;;
  match r, w with
  | Some r, Some w => modify (set_next_pipe (p + 1)) ;;; ret (Some (r, w))
  | _, _ => modify (set_fds f) ;;; ret None
  end.

Fixpoint runcmd (fuel : nat) (p : Z) : K shst fin :=
  match fuel with
  | O => λ _, NoFuel
  | S f =>
      if p =? 0 then ret (Exited 1)
      else
        c <- Prelude.gets (λ s, cmds s !! p) ;;;
        m <- Prelude.gets line ;;;
        match c with
        | None => ub "cmd"
        | Some (EXEC argv _) =>
            match strings_at len m argv with
            | None => ub "argv"
            | Some [] => ret (Exited 1)
            | Some args => modify (λ s, add_ran (args, fds s) s) ;;; ret Execed
            end
        | Some (REDIR sub file _ mode fd) =>
            sys_close fd ;;;
            match string_at len m file with
            | None => ub "file"
            | Some name =>
                r <- sys_open name mode ;;;
                if r <? 0 then ret (Exited 1) else runcmd f sub
            end
        | Some (LIST l r) =>
            in_child (runcmd f l) ;;;
            runcmd f r
        | Some (PIPE l r) =>
            pp <- sys_pipe ;;;
            match pp with
            | None => ret (Exited 1)
            | Some (p0, p1) =>
                in_child (sys_close 1 ;;; sys_dup p1 ;;; sys_close p0 ;;; sys_close p1 ;;; runcmd f l) ;;;
                in_child (sys_close 0 ;;; sys_dup p0 ;;; sys_close p0 ;;; sys_close p1 ;;; runcmd f r) ;;;
                sys_close p0 ;;;
                sys_close p1 ;;;
                ret (Exited 0)
            end
        | Some (BACK sub) =>
            in_child (runcmd f sub) ;;;
            ret (Exited 0)
        end
  end.

(** ** The main loop *)

Definition sizeof_line : Z := 100.

(** getcmd reads the next line into [buf]: the rest of the input, or [None] at
    the end of it. *)
Definition getcmd (buf nbuf : Z) (input : list Z) : K shst (option (list Z)) := λ s,
  let m := Ulib.memset (line s) buf 0 nbuf in
  let '(m, input) := Ulib.gets m buf nbuf input in
  Ok (if rd8 m buf =? 0 then None else Some input) (set_line m s).

(** One line: cd is done by the shell, everything else by a child. *)
Definition do_line (fuel : nat) (buf : Z) : K shst unit :=
  m <- Prelude.gets line ;;;
  if (rd8 m buf =? 99) && (rd8 m (buf + 1) =? 100) && (rd8 m (buf + 2) =? 32) then
    match Ulib.strlen len m buf with
    | None => λ _, NoFuel
    | Some n =>
        store_nul (buf + n - 1) ;;;
        m <- Prelude.gets line ;;;
        match string_at len m (buf + 3) with
        | None => ub "cd"
        | Some d => modify (add_dir d)
        end
    end
  else in_child (p <- parsecmd fuel buf ;;; runcmd fuel p).

Definition main_loop (fuel : nat) (buf : Z) (input : list Z) : K shst unit :=
  iter (S (length input)) (λ input,
    r <- getcmd buf sizeof_line input ;;;
    match r with
    | None => ret (inr tt)
    | Some input => do_line fuel buf ;;; ret (inl input)
    end) input.

Definition console_name : list Z := [99; 111; 110; 115; 111; 108; 101].

(** The loop that makes sure that three descriptors are open. *)
Definition open_console : K shst unit :=
  iter (S (Z.to_nat NOFILE)) (λ _ : unit,
    fd <- sys_open console_name O_RDWR ;;;
    if fd <? 0 then ret (inr tt)
    else if 3 <=? fd then sys_close fd ;;; ret (inr tt)
    else ret (inl tt)) tt.

Definition main (fuel : nat) (buf : Z) (input : list Z) : K shst fin :=
  open_console ;;;
  main_loop fuel buf input ;;;
  ret (Exited 0).
End Run.
