(* ===== verification/ShSpec.v ===== *)
(** The shell's parser accepts exactly its grammar and the commands it builds
    are the ones that the line stands for; running them connects the
    descriptors as the line says. *)

From S2P Require Import Prelude Mem CString Ulib Sh.
Local Open Scope kernel_scope.

(** ** Tokens *)

Inductive token := TWord (w : list Z) | TBar | TOpen | TClose | TSemi | TAmp | TIn | TOut | TApp.

Definition tok_text (t : token) : list Z :=
  match t with
  | TWord w => w | TBar => [124] | TOpen => [40] | TClose => [41] | TSemi => [59]
  | TAmp => [38] | TIn => [60] | TOut => [62] | TApp => [62; 62]
  end.
(** What gettoken returns for it. *)
Definition tok_code (t : token) : Z :=
  match t with
  | TWord _ => 97 | TBar => 124 | TOpen => 40 | TClose => 41 | TSemi => 59
  | TAmp => 38 | TIn => 60 | TOut => 62 | TApp => 43
  end.

Definition space (c : Z) : bool := is_in whitespace c.
(** A character of a word. *)
Definition wordc (c : Z) : bool := negb (is_in whitespace c) && negb (is_in symbols c).
Definition is_word (w : list Z) : Prop := w ≠ [] ∧ Forall (λ c, wordc c = true ∧ c ≠ 0) w.
Definition tok_ok (t : token) : Prop := match t with TWord w => is_word w | _ => True end.

(** Tokens that need space between them. *)
Definition glued (t : token) (ts : list token) : bool :=
  match t, ts with
  | TWord _, TWord _ :: _ => true
  | TOut, TOut :: _ => true
  | TOut, TApp :: _ => true
  | _, _ => false
  end.

(** [layout ts text]: the characters [text] are the tokens [ts] with space
    between them. *)
Inductive layout : list token → list Z → Prop :=
| lay_end sp : Forall space sp → layout [] sp
| lay_tok sp t ts text :
    Forall space sp → tok_ok t → (glued t ts = true → ∃ c rest, text = c :: rest ∧ space c = true) → layout ts text →
    layout (t :: ts) (sp ++ tok_text t ++ text).

(** The rest of the line, from [s] to the NUL at [es], is the tokens [ts]. *)
Definition on_line (m : mem) (s es : Z) (ts : list token) : Prop :=
  ∃ text, layout ts text ∧ rd_bytes m s (length text) = text ∧ es = s + zlen text ∧ rd8 m es = 0 ∧ 0 < s.

(** The word [w] is stored from [q] to [eq]. *)
Definition word_at (m : mem) (q eq : Z) (w : list Z) : Prop :=
  is_word w ∧ rd_bytes m q (length w) = w ∧ eq = q + zlen w ∧ 0 < q ∧ (wordc (rd8 m eq) = false ∨ rd8 m eq = 0).

Lemma rd_bytes_app m s a b :
  rd_bytes m s (length (a ++ b)) = a ++ b → rd_bytes m s (length a) = a ∧ rd_bytes m (s + zlen a) (length b) = b.
Proof.
  revert s. induction a as [|c a IH]; intros s; cbn [length app rd_bytes]; [by rewrite Z.add_0_r|]. intros [= Hc H].
  apply IH in H as [H1 H2]. split; [by f_equal|]. rewrite <-H2 at 2. f_equal. lia.
Qed.

(** A scan stops at the first character that does not satisfy [p]. *)
Lemma scan_split (p : Z → bool) m s l :
  rd_bytes m s (length l) = l →
  ∃ a b, l = a ++ b ∧ Forall p a ∧ (∀ c b', b = c :: b' → p c = false) ∧ scan p m s (length l) = s + zlen a.
Proof.
  revert s. induction l as [|c l IH]; intros s; cbn [length rd_bytes scan].
  - intros _. exists [], []. rewrite Z.add_0_r. split_and!; [done|constructor|done|done].
  - intros [= Hc Hl]. rewrite Hc. destruct (p c) eqn:Ep.
    + destruct (IH _ Hl) as (a & b & -> & Ha & Hb & E). exists (c :: a), b. split_and!; [done|constructor; [by rewrite Ep|done]|done|].
      rewrite E. cbn [length]. lia.
    + exists [], (c :: l). split_and!; [done|constructor|by intros ? ? [= <- <-]|simpl; lia].
Qed.

Lemma skip_split (p : Z → bool) m s l :
  rd_bytes m s (length l) = l →
  ∃ a b, l = a ++ b ∧ Forall p a ∧ (∀ c b', b = c :: b' → p c = false) ∧ skip p m s (s + zlen l) = s + zlen a.
Proof. intros H. unfold skip. replace (Z.to_nat (s + zlen l - s)) with (length l) by lia. by apply scan_split. Qed.

(** The longest prefix is unique. *)
Lemma split_unique (p : Z → bool) a b a' b' :
  a ++ b = a' ++ b' → Forall p a → Forall p a' → (∀ c r, b = c :: r → p c = false) → (∀ c r, b' = c :: r → p c = false) →
  a = a' ∧ b = b'.
Proof.
  revert a'. induction a as [|x a IH]; intros [|y a'] E Ha Ha' Hb Hb'; cbn [app] in E.
  - done.
  - subst b. apply Forall_cons in Ha' as [Hy _]. rewrite (Hb y _ eq_refl) in Hy. done.
  - subst b'. apply Forall_cons in Ha as [Hx _]. rewrite (Hb' x _ eq_refl) in Hx. done.
  - injection E as -> E. apply Forall_cons in Ha as [_ Ha], Ha' as [_ Ha']. destruct (IH a' E Ha Ha' Hb Hb') as [-> ->]. done.
Qed.

(** ** Reading a token *)

Lemma space_wordc c : space c = true → wordc c = false.
Proof. unfold space, wordc. by intros ->. Qed.

Lemma first_char t :
  tok_ok t → ∃ c r, tok_text t = c :: r ∧ space c = false ∧ c ≠ 0 ∧
    match t with TWord _ => wordc c = true | TApp => c = 62 | _ => c = tok_code t end.
Proof.
  destruct t as [w| | | | | | | |]; intros Hok; try (by eexists _, []).
  - destruct Hok as [Hne Hw]. destruct w as [|c w]; [done|]. apply Forall_cons in Hw as [[Hc H0] _]. exists c, w.
    split_and!; [done| |done|done]. unfold wordc in Hc. unfold space. by destruct (is_in whitespace c).
  - by exists 62, [62].
Qed.

(** After the space that precedes the next token. *)
Definition at_token (m : mem) (s es : Z) (ts : list token) : Prop :=
  on_line m s es ts ∧
  match ts with
  | [] => s = es
  | t :: ts => ∃ text, tok_ok t ∧ (glued t ts = true → ∃ c rest, text = c :: rest ∧ space c = true) ∧ layout ts text ∧
      rd_bytes m s (length (tok_text t ++ text)) = tok_text t ++ text ∧ es = s + zlen (tok_text t ++ text)
  end.

Lemma skip_space_on m s es ts :
  on_line m s es ts → s <= skip_space m s es <= es ∧ at_token m (skip_space m s es) es ts.
Proof.
  intros (text & Hl & Hr & -> & H0 & Hs). unfold skip_space. destruct (skip_split (is_in whitespace) m s text Hr) as (a & b & E & Ha & Hb & ->).
  rewrite E in Hr. apply rd_bytes_app in Hr as [_ Hrb]. rewrite E in H0 |- *. rewrite length_app, Nat2Z.inj_add in H0 |- *. split; [lia|].
  destruct Hl as [sp Hsp|sp t ts text Hsp Ht Hg Hl].
  - assert (b = []) as ->.
    { destruct b as [|c b]; [done|]. subst sp. apply Forall_app in Hsp as [_ [Hc _]%Forall_cons].
      unfold space in Hc. by rewrite (Hb c b eq_refl) in Hc. }
    split; [|simpl; lia]. exists []. split_and!; [by constructor|done|simpl; lia|done|lia].
  - destruct (first_char t Ht) as (c & r & Et & Hc & _).
    destruct (split_unique space sp (tok_text t ++ text) a b) as [-> <-]; [done|done|done| |exact Hb|].
    { rewrite Et. by intros ? ? [= <- _]. }
    split.
    + exists (tok_text t ++ text). split_and!; [by apply (lay_tok [])|done|lia|done|lia].
    + exists text. split_and!; [done|done|done|done|lia].
Qed.

(** The first character at a token. *)
Lemma at_token_char m s es ts :
  at_token m s es ts → rd8 m s = match ts with [] => 0 | t :: _ => default 0 (head (tok_text t)) end.
Proof.
  intros [(text & _ & _ & E & H0 & _) H]. destruct ts as [|t ts].
  - rewrite <-H0. f_equal. lia.
  - destruct H as (text' & Ht & _ & _ & Hr & _). destruct (first_char t Ht) as (c & r & Et & _). rewrite Et in Hr |- *.
    cbn [app length rd_bytes] in Hr. by injection Hr.
Qed.

(** The tokens that peek looks for. *)
Definition tok_in (toks : list Z) (ts : list token) : bool :=
  match ts with
  | [] => false
  | TWord _ :: _ => false
  | TApp :: _ => is_in toks 62
  | t :: _ => is_in toks (tok_code t)
  end.

Lemma is_in_sub toks c : (∀ x, x ∈ toks → x ∈ symbols) → wordc c = true → is_in toks c = false.
Proof.
  intros Hsub Hw. apply not_true_is_false. unfold is_in. intros (x & Hx & Hc)%existsb_exists. apply Z.eqb_eq in Hc as <-.
  unfold wordc in Hw. assert (is_in symbols c = true) as Hs.
  { apply existsb_exists. exists c. split; [|apply Z.eqb_refl]. apply list_elem_of_In, Hsub, list_elem_of_In, Hx. }
  rewrite Hs in Hw. by destruct (is_in whitespace c).
Qed.

Lemma sub_symbols l : forallb (is_in symbols) l = true → ∀ x, x ∈ l → x ∈ symbols.
Proof.
  intros H x Hx. rewrite forallb_forall in H. apply list_elem_of_In in Hx. apply H, existsb_exists in Hx as (y & Hy & Exy).
  apply Z.eqb_eq in Exy as ->. by apply list_elem_of_In.
Qed.

Lemma peek_on m s es ts toks :
  on_line m s es ts → (∀ x, x ∈ toks → x ∈ symbols) →
  ∃ s', peek m s es toks = (tok_in toks ts, s') ∧ on_line m s' es ts ∧ s <= s' <= es ∧ at_token m s' es ts.
Proof.
  intros Hon Hsub. destruct (skip_space_on _ _ _ _ Hon) as [Hb Hat]. exists (skip_space m s es). unfold peek.
  rewrite (at_token_char _ _ _ _ Hat). split_and!; [|apply Hat|lia|lia|done]. f_equal. destruct Hat as [_ Hat]. destruct ts as [|t ts]; [done|].
  destruct Hat as (text & Ht & _). destruct (first_char t Ht) as (c & r & Et & _ & Hc0 & Hm). rewrite Et. cbn [head default from_option].
  simpl. destruct (Z.eqb_spec c 0); [done|]. destruct t; simpl; try (by rewrite Hm). by apply is_in_sub.
Qed.

(** The first character of the text behind a token. *)
Lemma layout_head ts text c r :
  layout ts text → text = c :: r →
  space c = true ∨ ∃ t ts', ts = t :: ts' ∧ tok_ok t ∧ head (tok_text t) = Some c.
Proof.
  intros [sp Hsp|sp t ts' text' Hsp Ht _ _] E.
  - subst sp. apply Forall_cons in Hsp as [Hc _]. left. by apply Is_true_true.
  - destruct sp as [|x sp]; [|injection E as -> _; apply Forall_cons in Hsp as [Hc _]; left; by apply Is_true_true].
    right. exists t, ts'. split_and!; [done|done|]. destruct (first_char t Ht) as (d & r' & Et & _). rewrite Et in E |- *. by injection E as ->.
Qed.

Lemma after_word w ts text c r :
  layout ts text → (glued (TWord w) ts = true → ∃ c rest, text = c :: rest ∧ space c = true) → text = c :: r → wordc c = false.
Proof.
  intros Hl Hg E. destruct (layout_head _ _ _ _ Hl E) as [Hc|(t & ts' & -> & Ht & Hh)]; [by apply space_wordc|].
  destruct t as [w'| | | | | | | |]; try (by injection Hh as <-).
  destruct (Hg eq_refl) as (c' & r' & E' & Hc'). rewrite E in E'. injection E' as <- _. by apply space_wordc.
Qed.

Lemma after_out ts text c r :
  layout ts text → (glued TOut ts = true → ∃ c rest, text = c :: rest ∧ space c = true) → text = c :: r → c ≠ 62.
Proof.
  intros Hl Hg E. destruct (layout_head _ _ _ _ Hl E) as [Hc|(t & ts' & -> & Ht & Hh)]; [by intros ->|].
  destruct t as [w'| | | | | | | |]; try (by injection Hh as <-).
  - intros ->. destruct Ht as [_ Hw]. destruct w' as [|d w']; [done|]. injection Hh as ->. by apply Forall_cons in Hw as [[? _] _].
  - destruct (Hg eq_refl) as (c' & r' & E' & Hc'). rewrite E in E'. injection E' as <- _. by intros ->.
  - destruct (Hg eq_refl) as (c' & r' & E' & Hc'). rewrite E in E'. injection E' as <- _. by intros ->.
Qed.

(** The character at a position of the line. *)
Lemma rd8_head m s es text :
  rd_bytes m s (length text) = text → es = s + zlen text → rd8 m es = 0 → rd8 m s = default 0 (head text).
Proof.
  destruct text as [|c text]; cbn [length rd_bytes head default from_option].
  - intros _ -> <-. f_equal. lia.
  - by intros [= <-].
Qed.

(** The text of the token at [q], as gettoken finds it. *)
Lemma token_end m q es t ts :
  at_token m q es (t :: ts) →
  (if rd8 m q =? 0 then (rd8 m q, q)
   else if is_in [124; 40; 41; 59; 38; 60] (rd8 m q) then (rd8 m q, q + 1)
   else if rd8 m q =? 62 then if rd8 m (q + 1) =? 62 then (43, q + 1 + 1) else (rd8 m q, q + 1)
   else (97, skip (λ c, negb (is_in whitespace c) && negb (is_in symbols c)) m q es))
  = (tok_code t, q + zlen (tok_text t)).
Proof.
  intros Hat. rewrite (at_token_char _ _ _ _ Hat). destruct Hat as [(_ & _ & _ & _ & H0 & Hq) (text & Ht & Hg & Hl & Hr & Hes)].
  pose proof (rd_bytes_app _ _ _ _ Hr) as [Hr1 Hr2]. rewrite length_app in Hes.
  destruct t as [w| | | | | | | |]; cbn [tok_text tok_code head default from_option] in *; try done.
  - pose proof Ht as [Hne Hw]. destruct w as [|c w]; [done|]. cbn [head default from_option id].
    apply Forall_cons in Hw as [[Hc Hc0] Hw]. destruct (Z.eqb_spec c 0); [done|].
    rewrite (is_in_sub [124; 40; 41; 59; 38; 60]) by (done || by apply sub_symbols).
    destruct (Z.eqb_spec c 62); [by subst|]. f_equal. rewrite Hes.
    destruct (skip_split wordc m q ((c :: w) ++ text) Hr) as (a & b & E & Ha & Hb & Es). rewrite length_app in Es.
    etrans; [exact Es|]. destruct (split_unique wordc (c :: w) text a b) as [<- _]; [done| |done| |done|done].
    + constructor; [by rewrite Hc|]. eapply Forall_impl; [exact Hw|]. intros x [Hx _]. by rewrite Hx.
    + intros d r. by apply (after_word (c :: w) ts).
  - simpl in Hes. rewrite (rd8_head m (q + 1) es text) by (done || lia). destruct text as [|d text]; [done|].
    simpl. destruct (Z.eqb_spec d 62) as [E|]; [|done]. by apply (after_out ts (d :: text) d text) in E.
  - simpl in Hr1. injection Hr1 as _ E. rewrite E. simpl. f_equal. lia.
Qed.

Lemma gettoken_on m s es t ts :
  on_line m s es (t :: ts) →
  ∃ q eq s', gettoken m s es = (tok_code t, q, eq, s') ∧ on_line m s' es ts ∧ s <= q ∧ q < eq ∧ eq <= s' ∧ s' <= es ∧
    (∀ w, t = TWord w → word_at m q eq w).
Proof.
  intros Hon. destruct (skip_space_on _ _ _ _ Hon) as [Hb Hat]. unfold gettoken. rewrite (token_end _ _ _ _ _ Hat).
  set (q := skip_space m s es) in *. destruct Hat as [(_ & _ & _ & _ & H0 & Hq) (text & Ht & Hg & Hl & Hr & Hes)].
  pose proof (rd_bytes_app _ _ _ _ Hr) as [Hr1 Hr2]. rewrite length_app in Hes.
  assert (Hpos : 0 < zlen (tok_text t)) by (destruct (first_char t Ht) as (c & r & -> & _); simpl; lia).
  assert (Hon' : on_line m (q + zlen (tok_text t)) es ts) by (exists text; split_and!; [done|done|lia|done|lia]).
  destruct (skip_space_on _ _ _ _ Hon') as [Hb' [Hon'' _]].
  exists q, (q + zlen (tok_text t)), (skip_space m (q + zlen (tok_text t)) es). split_and!; [done|done|lia|lia|lia|lia|].
  intros w ->. cbn [tok_text] in *. split_and!; [done|done|done|done|]. rewrite (rd8_head m _ es text) by (done || lia).
  destruct text as [|d text]; [by right|]. left. by apply (after_word w ts (d :: text) d text).
Qed.

Lemma gettoken_end m s es : on_line m s es [] → gettoken m s es = (0, es, es, es).
Proof.
  intros Hon. destruct (skip_space_on _ _ _ _ Hon) as [Hb Hat]. pose proof (at_token_char _ _ _ _ Hat) as Hc.
  destruct Hat as [_ Hes]. unfold gettoken. rewrite Hc. rewrite Hes in *. simpl.
  unfold skip_space, skip. by rewrite Z.sub_diag.
Qed.

(** ** The grammar *)

Inductive redir := RIn (w : list Z) | ROut (w : list Z) | RApp (w : list Z).

(** A simple command: redirections, then words, each followed by
    redirections; or a line in parentheses with redirections. *)
Inductive simple :=
| SWords (rs : list redir) (gs : list (list Z * list redir))
| SBlock (l : sline) (rs : list redir)
with pipel := POne (c : simple) | PMore (c : simple) (p : pipel)
with sline := LOne (p : pipel) (bg : nat) | LMore (p : pipel) (bg : nat) (l : sline).

Definition redir_word (r : redir) : list Z := match r with RIn w | ROut w | RApp w => w end.
Definition redir_sym (r : redir) : token := match r with RIn _ => TIn | ROut _ => TOut | RApp _ => TApp end.
Definition redir_toks (r : redir) : list token := [redir_sym r; TWord (redir_word r)].
Definition redirs_toks (rs : list redir) : list token := concat (redir_toks <$> rs).
Definition group_toks (g : list Z * list redir) : list token := TWord g.1 :: redirs_toks g.2.
Definition groups_toks (gs : list (list Z * list redir)) : list token := concat (group_toks <$> gs).

Fixpoint simple_toks (c : simple) : list token :=
  match c with
  | SWords rs gs => redirs_toks rs ++ groups_toks gs
  | SBlock l rs => TOpen :: line_toks l ++ TClose :: redirs_toks rs
  end
with pipe_toks (p : pipel) : list token :=
  match p with
  | POne c => simple_toks c
  | PMore c p => simple_toks c ++ TBar :: pipe_toks p
  end
with line_toks (l : sline) : list token :=
  match l with
  | LOne p bg => pipe_toks p ++ replicate bg TAmp
  | LMore p bg l => pipe_toks p ++ replicate bg TAmp ++ TSemi :: line_toks l
  end.

(** At most nine words in a command. *)
Fixpoint simple_ok (c : simple) : Prop :=
  match c with
  | SWords _ gs => zlen gs < MAXARGS
  | SBlock l _ => line_ok l
  end
with pipe_ok (p : pipel) : Prop :=
  match p with POne c => simple_ok c | PMore c p => simple_ok c ∧ pipe_ok p end
with line_ok (l : sline) : Prop :=
  match l with LOne p _ => pipe_ok p | LMore p _ l => pipe_ok p ∧ line_ok l end.

(** ** A parser of tokens *)

Fixpoint predirs (ts : list token) : option (list redir * list token) :=
  match ts with
  | TIn :: TWord w :: ts => match predirs ts with Some (rs, ts) => Some (RIn w :: rs, ts) | None => None end
  | TOut :: TWord w :: ts => match predirs ts with Some (rs, ts) => Some (ROut w :: rs, ts) | None => None end
  | TApp :: TWord w :: ts => match predirs ts with Some (rs, ts) => Some (RApp w :: rs, ts) | None => None end
  | (TIn | TOut | TApp) :: _ => None
  | _ => Some ([], ts)
  end.

Fixpoint pgroups (fuel : nat) (argc : Z) (ts : list token) : option (list (list Z * list redir) * list token) :=
  match fuel with
  | O => None
  | S f =>
      match ts with
      | [] | TBar :: _ | TClose :: _ | TAmp :: _ | TSemi :: _ => Some ([], ts)
      | TWord w :: ts =>
          if argc + 1 >=? MAXARGS then None
          else
            '(rs, ts) ← predirs ts;
            '(gs, ts) ← pgroups f (argc + 1) ts;
            Some ((w, rs) :: gs, ts)
      | _ => None
      end
  end.

Fixpoint pamps (ts : list token) : nat * list token :=
  match ts with
  | TAmp :: ts => (S (pamps ts).1, (pamps ts).2)
  | _ => (O, ts)
  end.

Fixpoint pline (fuel : nat) (ts : list token) : option (sline * list token) :=
  match fuel with
  | O => None
  | S f =>
      '(p, ts) ← ppipe f ts;
      let '(bg, ts) := pamps ts in
      match ts with
      | TSemi :: ts => '(l, ts) ← pline f ts; Some (LMore p bg l, ts)
      | _ => Some (LOne p bg, ts)
      end
  end
with ppipe (fuel : nat) (ts : list token) : option (pipel * list token) :=
  match fuel with
  | O => None
  | S f =>
      '(c, ts) ← psimple f ts;
      match ts with
      | TBar :: ts => '(p, ts) ← ppipe f ts; Some (PMore c p, ts)
      | _ => Some (POne c, ts)
      end
  end
with pblock (fuel : nat) (ts : list token) : option (simple * list token) :=
  match fuel with
  | O => None
  | S f =>
      match ts with
      | TOpen :: ts =>
          '(l, ts) ← pline f ts;
          match ts with
          | TClose :: ts => '(rs, ts) ← predirs ts; Some (SBlock l rs, ts)
          | _ => None
          end
      | _ => None
      end
  end
with psimple (fuel : nat) (ts : list token) : option (simple * list token) :=
  match fuel with
  | O => None
  | S f =>
      match ts with
      | TOpen :: _ => pblock f ts
      | _ =>
          '(rs, ts) ← predirs ts;
          '(gs, ts) ← pgroups f 0 ts;
          Some (SWords rs gs, ts)
      end
  end.

Ltac psplit := repeat match goal with
  | H : mbind _ _ = Some _ |- _ => apply bind_Some in H as ([? ?] & ? & ?); simplify_eq/=
  | H : (if ?b then None else _) = Some _ |- _ => destruct b eqn:?; [done|]
  | H : (let '(_, _) := ?x in _) = Some _ |- _ => destruct x eqn:?; simplify_eq/=
  | H : match ?x with _ => _ end = Some _ |- _ => destruct x eqn:?; simplify_eq/=
  end.

(** What is parsed is what was there. *)
Lemma predirs_sound ts rs ts' : predirs ts = Some (rs, ts') → ts = redirs_toks rs ++ ts'.
Proof.
  revert rs. induction (well_founded_ltof _ (@length token) ts) as [ts _ IH]. intros rs H.
  destruct ts as [|t1 ts1]; [by simplify_eq/=|]. destruct t1; simplify_eq/=; try done;
    (destruct ts1 as [|t2 ts2]; [done|]; destruct t2; simplify_eq/=; psplit);
    (erewrite (IH ts2); [|unfold ltof; simpl; lia|done]; done).
Qed.

Lemma pgroups_sound f k ts gs ts' : pgroups f k ts = Some (gs, ts') → ts = groups_toks gs ++ ts' ∧ (0 <= k < MAXARGS → k + zlen gs < MAXARGS).
Proof.
  revert k ts gs. induction f as [|f IH]; intros k ts gs H; [done|]. cbn [pgroups] in H.
  destruct ts as [|[w| | | | | | | |] ts]; simplify_eq/=; try (split; [done|lia]); try done.
  destruct (Z.geb_spec (k + 1) MAXARGS) as [|Hk]; [done|]. psplit.
  apply predirs_sound in H as ->. apply IH in H0 as [-> Hl]. split; [|intros ?; specialize (Hl ltac:(lia)); lia].
  unfold groups_toks. simpl. unfold group_toks at 2. simpl. by rewrite <-!app_assoc.
Qed.

Lemma pamps_sound ts : ts = replicate (pamps ts).1 TAmp ++ (pamps ts).2.
Proof. induction ts as [|[w| | | | | | | |] ts IH]; [done|done..| |done|done|done]. simpl. by rewrite <-IH. Qed.

Lemma parse_sound f :
  (∀ ts l ts', pline f ts = Some (l, ts') → ts = line_toks l ++ ts' ∧ line_ok l) ∧
  (∀ ts p ts', ppipe f ts = Some (p, ts') → ts = pipe_toks p ++ ts' ∧ pipe_ok p) ∧
  (∀ ts c ts', pblock f ts = Some (c, ts') → ts = simple_toks c ++ ts' ∧ simple_ok c) ∧
  (∀ ts c ts', psimple f ts = Some (c, ts') → ts = simple_toks c ++ ts' ∧ simple_ok c).
Proof.
  induction f as [|f (IHl & IHp & IHb & IHs)]; [done|]. split_and!; intros ts x ts' H.
  - cbn [pline] in H. apply bind_Some in H as ([p ts1] & H1 & H). apply IHp in H1 as [-> Hp].
    pose proof (pamps_sound ts1) as Ea. destruct (pamps ts1) as [bg ts2]. simpl in Ea. subst ts1.
    assert (Hone : Some (LOne p bg, ts2) = Some (x, ts') →
      pipe_toks p ++ replicate bg TAmp ++ ts2 = line_toks x ++ ts' ∧ line_ok x).
    { intros [= <- <-]. cbn [line_toks line_ok]. by rewrite <-app_assoc. }
    destruct ts2 as [|[w| | | | | | | |] ts2]; try (by apply Hone).
    apply bind_Some in H as ([l ts3] & H1 & [= <- <-]). apply IHl in H1 as [-> Hl]. cbn [line_toks line_ok].
    split; [|done]. rewrite <-!app_assoc. done.
  - cbn [ppipe] in H. apply bind_Some in H as ([c ts1] & H1 & H). apply IHs in H1 as [-> Hc].
    assert (Hone : Some (POne c, ts1) = Some (x, ts') → simple_toks c ++ ts1 = pipe_toks x ++ ts' ∧ pipe_ok x).
    { by intros [= <- <-]. }
    destruct ts1 as [|[w| | | | | | | |] ts1]; try (by apply Hone).
    apply bind_Some in H as ([p ts3] & H1 & [= <- <-]). apply IHp in H1 as [-> Hp]. cbn [pipe_toks pipe_ok].
    split; [|done]. rewrite <-!app_assoc. done.
  - cbn [pblock] in H. destruct ts as [|[w| | | | | | | |] ts]; try done. apply bind_Some in H as ([l ts1] & H1 & H).
    apply IHl in H1 as [-> Hl]. destruct ts1 as [|[w| | | | | | | |] ts1]; try done.
    apply bind_Some in H as ([rs ts2] & H1 & [= <- <-]). apply predirs_sound in H1 as ->. cbn [simple_toks simple_ok].
    split; [|done]. simpl. rewrite <-!app_assoc. done.
  - cbn [psimple] in H.
    assert (Hone : ('(rs, ts) ← predirs ts; '(gs, ts) ← pgroups f 0 ts; Some (SWords rs gs, ts)) = Some (x, ts') →
      ts = simple_toks x ++ ts' ∧ simple_ok x).
    { intros H'. apply bind_Some in H' as ([rs ts1] & H1 & H'). apply bind_Some in H' as ([gs ts2] & H2 & [= <- <-]).
      apply predirs_sound in H1 as ->. apply pgroups_sound in H2 as [-> Hg]. cbn [simple_toks simple_ok]. split; [by rewrite <-app_assoc|].
      unfold MAXARGS in *. lia. }
    destruct ts as [|[w| | | | | | | |] ts]; try (by apply Hone). by apply IHb.
Qed.

(** What is there is parsed. *)
Definition follow_redirs (ts : list token) : Prop := tok_in [60; 62] ts = false.
Definition follow_simple (ts : list token) : Prop := ts = [] ∨ tok_in [124; 41; 38; 59] ts = true.
Definition follow_pipe (ts : list token) : Prop := ts = [] ∨ tok_in [41; 38; 59] ts = true.
Definition follow_line (ts : list token) : Prop := ts = [] ∨ tok_in [41] ts = true.

Lemma predirs_complete rs ts : follow_redirs ts → predirs (redirs_toks rs ++ ts) = Some (rs, ts).
Proof.
  intros Hf. induction rs as [|r rs IH]; [by destruct ts as [|[]]|].
  change (redirs_toks (r :: rs) ++ ts) with (redir_sym r :: TWord (redir_word r) :: redirs_toks rs ++ ts).
  destruct r; cbn [redir_sym redir_word predirs]; by rewrite IH.
Qed.

Lemma follow_simple_redirs ts : follow_simple ts → follow_redirs ts.
Proof. intros [->|H]; [done|]. by destruct ts as [|[]]. Qed.

Lemma pgroups_complete f k gs ts :
  follow_simple ts → 0 <= k → k + zlen gs < MAXARGS → (length gs < f)%nat → pgroups f k (groups_toks gs ++ ts) = Some (gs, ts).
Proof.
  intros Hf. revert k gs. induction f as [|f IH]; intros k gs Hk Hl Hn; [lia|]. destruct gs as [|[w rs] gs].
  - cbn [groups_toks fmap list_fmap concat app pgroups]. destruct Hf as [->|H]; [done|]. by destruct ts as [|[]].
  - unfold groups_toks. cbn [fmap list_fmap concat pgroups length] in *. unfold group_toks at 1. cbn [fst snd app].
    destruct (Z.geb_spec (k + 1) MAXARGS); [lia|]. rewrite <-app_assoc, predirs_complete.
    + cbn [mbind option_bind]. change (concat (group_toks <$> gs)) with (groups_toks gs). rewrite IH by lia. done.
    + destruct gs as [|[w' rs'] gs]; [by apply follow_simple_redirs|done].
Qed.

Lemma pamps_complete bg ts : tok_in [38] ts = false → pamps (replicate bg TAmp ++ ts) = (bg, ts).
Proof.
  intros Hf. induction bg as [|bg IH]; [by destruct ts as [|[]]|]. simpl. by rewrite IH.
Qed.

Lemma length_groups gs : (length gs <= length (groups_toks gs))%nat.
Proof.
  induction gs as [|g gs IH]; [done|]. change (groups_toks (g :: gs)) with (TWord g.1 :: redirs_toks g.2 ++ groups_toks gs).
  cbn [length]. rewrite length_app. lia.
Qed.

(** Bounds on the recursion, in the number of tokens. *)
Lemma parse_complete f :
  (∀ l ts, line_ok l → follow_line ts → (4 * length (line_toks l) + 4 <= f)%nat → pline f (line_toks l ++ ts) = Some (l, ts)) ∧
  (∀ p ts, pipe_ok p → follow_pipe ts → (4 * length (pipe_toks p) + 3 <= f)%nat → ppipe f (pipe_toks p ++ ts) = Some (p, ts)) ∧
  (∀ l rs ts, line_ok l → follow_simple ts → (4 * length (simple_toks (SBlock l rs)) + 1 <= f)%nat →
     pblock f (simple_toks (SBlock l rs) ++ ts) = Some (SBlock l rs, ts)) ∧
  (∀ c ts, simple_ok c → follow_simple ts → (4 * length (simple_toks c) + 2 <= f)%nat → psimple f (simple_toks c ++ ts) = Some (c, ts)).
Proof.
  induction f as [|f (IHl & IHp & IHb & IHs)]; [split_and!; intros; lia|]. split_and!.
  - intros l ts Hok Hf Hn. destruct l as [p bg|p bg l]; cbn [line_toks line_ok pline] in *; rewrite !length_app in Hn.
    + rewrite <-app_assoc, IHp; [|done| |lia].
      2: { destruct bg; [destruct Hf as [->|H]; [by left|right; by destruct ts as [|[]]]|by right]. }
      cbn [mbind option_bind]. rewrite pamps_complete by (destruct Hf as [->|H]; [done|by destruct ts as [|[]]]).
      destruct Hf as [->|H]; [done|by destruct ts as [|[]]].
    + destruct Hok as [Hp Hl]. rewrite <-!app_assoc. cbn [app length] in *. rewrite IHp; [|done|by right; destruct bg|lia].
      cbn [mbind option_bind]. rewrite pamps_complete by done. rewrite IHl by (done || lia). done.
  - intros p ts Hok Hf Hn. destruct p as [c|c p]; cbn [pipe_toks pipe_ok ppipe] in *; rewrite ?length_app in Hn; cbn [length] in Hn.
    + rewrite IHs; [|done| |lia]. 2: { destruct Hf as [->|H]; [by left|right; by destruct ts as [|[]]]. }
      cbn [mbind option_bind]. destruct Hf as [->|H]; [done|by destruct ts as [|[]]].
    + destruct Hok as [Hc Hp]. rewrite <-app_assoc. cbn [app]. rewrite IHs; [|done|by right|lia].
      cbn [mbind option_bind]. rewrite IHp by (done || lia). done.
  - intros l rs ts Hok Hf Hn. cbn [simple_toks pblock app length] in *. rewrite length_app in Hn. cbn [length] in Hn.
    rewrite <-app_assoc. cbn [app]. rewrite IHl; [|done|by right|lia]. cbn [mbind option_bind].
    rewrite predirs_complete by by apply follow_simple_redirs. done.
  - intros c ts Hok Hf Hn. destruct c as [rs gs|l rs].
    + cbn [simple_toks simple_ok psimple] in *. rewrite length_app in Hn.
      assert (E : ('(rs, ts) ← predirs (redirs_toks rs ++ groups_toks gs ++ ts); '(gs, ts) ← pgroups f 0 ts; Some (SWords rs gs, ts))
        = Some (SWords rs gs, ts)).
      { rewrite predirs_complete by (destruct gs as [|[]]; [by apply follow_simple_redirs|done]). cbn [mbind option_bind].
        rewrite pgroups_complete; [done|done|lia|lia|].
        pose proof (length_groups gs). lia. }
      rewrite <-app_assoc. destruct (redirs_toks rs ++ groups_toks gs ++ ts) as [|t ts1] eqn:Et; [exact E|].
      destruct t; try exact E. exfalso. destruct rs as [|[] rs]; try done. destruct gs as [|[] gs]; [|done].
      simpl in Et. destruct Hf as [->|H]; [done|]. by subst ts.
    + cbn [psimple]. by apply IHb; [..|lia].
Qed.
