(* ===== verification/ShParse.v ===== *)
(** The parser of sh.c on the bytes of the line implements the grammar of
    ShSpec.v: it panics exactly where the grammar has no sentence, and the
    nodes that it builds represent the command. *)

From S2P Require Import Prelude Mem CString Ulib Sh ShSpec.
Local Open Scope kernel_scope.

(** ** The command that a line stands for *)

Inductive tree :=
| Exec (args : list (list Z))
| Redir (t : tree) (r : redir)
| Pipe (l r : tree)
| List (l r : tree)
| Back (t : tree).

(** Later redirections are outside of earlier ones. *)
Definition with_redirs (t : tree) (rs : list redir) : tree := foldl Redir t rs.

Fixpoint simple_tree (c : simple) : tree :=
  match c with
  | SWords rs gs => with_redirs (Exec (fst <$> gs)) (rs ++ concat (snd <$> gs))
  | SBlock l rs => with_redirs (line_tree l) rs
  end
with pipe_tree (p : pipel) : tree :=
  match p with
  | POne c => simple_tree c
  | PMore c p => Pipe (simple_tree c) (pipe_tree p)
  end
with line_tree (l : sline) : tree :=
  match l with
  | LOne p bg => Nat.iter bg Back (pipe_tree p)
  | LMore p bg l => List (Nat.iter bg Back (pipe_tree p)) (line_tree l)
  end.

(** The flags of open and the descriptor of a redirection. *)
Definition redir_mode (r : redir) : Z :=
  match r with RIn _ => O_RDONLY | ROut _ => Z.lor (Z.lor O_WRONLY O_CREATE) O_TRUNC | RApp _ => Z.lor O_WRONLY O_CREATE end.
Definition redir_fd (r : redir) : Z := match r with RIn _ => 0 | _ => 1 end.

(** ** Representation of a command in the store *)

Section Rep.
Context (W : Z → Z → list Z → Prop).

(** The words [args] are the first arguments, with a null pointer behind them
    if [closed]. *)
Definition args_at (argv eargv : list Z) (args : list (list Z)) (closed : bool) : Prop :=
  length argv = 10%nat ∧ length eargv = 10%nat ∧ zlen args < MAXARGS ∧
  (∀ i w, args !! i = Some w → ∃ q e, argv !! i = Some q ∧ eargv !! i = Some e ∧ W q e w) ∧
  (closed = true → argv !! length args = Some 0).

Inductive rep (h : gmap Z cmd) : Z → tree → Prop :=
| rep_exec p argv eargv args :
    h !! p = Some (EXEC argv eargv) → args_at argv eargv args true → p ≠ 0 → rep h p (Exec args)
| rep_redir p sub file efile r t :
    h !! p = Some (REDIR sub file efile (redir_mode r) (redir_fd r)) → W file efile (redir_word r) → p ≠ 0 →
    rep h sub t → rep h p (Redir t r)
| rep_pipe p l r tl tr : h !! p = Some (PIPE l r) → p ≠ 0 → rep h l tl → rep h r tr → rep h p (Pipe tl tr)
| rep_list p l r tl tr : h !! p = Some (LIST l r) → p ≠ 0 → rep h l tl → rep h r tr → rep h p (List tl tr)
| rep_back p sub t : h !! p = Some (BACK sub) → p ≠ 0 → rep h sub t → rep h p (Back t).

(** [rt] is the command [p] inside the redirections [rs], in nodes that are
    not below [lo]. *)
Inductive chain (h : gmap Z cmd) (lo p : Z) : Z → list redir → Prop :=
| chain_nil : chain h lo p p []
| chain_snoc rt sub file efile r rs :
    h !! rt = Some (REDIR sub file efile (redir_mode r) (redir_fd r)) → W file efile (redir_word r) → rt ≠ 0 → lo <= rt →
    chain h lo p sub rs → chain h lo p rt (rs ++ [r]).

Lemma chain_rep h lo p t rt rs : chain h lo p rt rs → rep h p t → rep h rt (with_redirs t rs).
Proof.
  intros Hc Hp. induction Hc as [|rt sub file efile r rs Hl Hw H0 Hlo Hc IH]; [done|].
  unfold with_redirs. rewrite foldl_snoc. by eapply rep_redir.
Qed.

Lemma chain_app h lo p rt rs rt' rs' : chain h lo p rt rs → chain h lo rt rt' rs' → chain h lo p rt' (rs ++ rs').
Proof.
  intros H1 H2. induction H2 as [|rt' sub file efile r rs' Hl Hw H0 Hlo Hc IH]; [by rewrite app_nil_r|].
  rewrite app_assoc. by eapply chain_snoc.
Qed.

Lemma rep_grow h h' p t : rep h p t → h ⊆ h' → rep h' p t.
Proof.
  intros Hr Hs. induction Hr.
  - eapply rep_exec; [by eapply lookup_weaken|done..].
  - eapply rep_redir; [by eapply lookup_weaken|done..].
  - eapply rep_pipe; [by eapply lookup_weaken|done..].
  - eapply rep_list; [by eapply lookup_weaken|done..].
  - eapply rep_back; [by eapply lookup_weaken|done..].
Qed.

(** Changing a node below [lo]. *)
Lemma chain_keep h h' lo p rt rs : chain h lo p rt rs → (∀ a c, lo <= a → h !! a = Some c → h' !! a = Some c) → chain h' lo p rt rs.
Proof. intros Hc Hk. induction Hc; [constructor|]. eapply chain_snoc; [by apply Hk|done..]. Qed.
End Rep.

(** ** Programs that return or panic *)

(** [m] returns with [Q], or panics and [P] holds. *)
Definition acts {A} (m : K shst A) (s : shst) (Q : A → shst → Prop) (P : Prop) : Prop :=
  match m s with Ok a s' => Q a s' | Panic _ => P | _ => False end.

Lemma acts_bind {A B} (m : K shst A) (f : A → K shst B) s Q P :
  acts m s (λ a s', acts (f a) s' Q P) P → acts (bind m f) s Q P.
Proof. unfold acts, bind. by destruct (m s). Qed.
Lemma acts_mono {A} (m : K shst A) s (Q Q' : A → shst → Prop) (P P' : Prop) :
  acts m s Q P → (∀ a s', Q a s' → Q' a s') → (P → P') → acts m s Q' P'.
Proof. unfold acts. destruct (m s); naive_solver. Qed.
Lemma runs_acts {A} (m : K shst A) s Q P : runs m s Q → acts m s Q P.
Proof. unfold runs, acts. by destruct (m s). Qed.
Lemma acts_ret {A} (a : A) s (Q : A → shst → Prop) P : Q a s → acts (ret a) s Q P.
Proof. done. Qed.
Lemma acts_panic {A} msg s (Q : A → shst → Prop) (P : Prop) : P → acts (panic msg) s Q P.
Proof. done. Qed.

(** The parser only adds nodes. *)
Definition store_ok (s : shst) : Prop := 0 < next_cmd s ∧ ∀ p c, cmds s !! p = Some c → p < next_cmd s.
Definition grows (s s' : shst) : Prop :=
  store_ok s' ∧ cmds s ⊆ cmds s' ∧ next_cmd s <= next_cmd s' ∧ s' = set_cmds (cmds s') (next_cmd s') s.

Lemma grows_line s s' : grows s s' → line s' = line s.
Proof. intros (_ & _ & _ & ->). done. Qed.
Lemma grows_refl s : store_ok s → grows s s.
Proof. intros H. split_and!; [done|done|lia|by destruct s]. Qed.
Lemma grows_trans s1 s2 s3 : grows s1 s2 → grows s2 s3 → grows s1 s3.
Proof.
  intros (_ & H1 & H2 & E1) (H3 & H4 & H5 & E2). split_and!; [done|by etrans|lia|]. rewrite E2, E1. by destruct s1.
Qed.

Lemma acts_new_cmd c s (Q : Z → shst → Prop) P :
  store_ok s →
  (∀ s', grows s s' → cmds s' !! next_cmd s = Some c → Q (next_cmd s) s') → acts (new_cmd c) s Q P.
Proof.
  intros [Hn Hs] HQ. unfold acts, new_cmd. apply HQ; cbn [cmds set_cmds]; [|by rewrite lookup_insert_eq].
  assert (cmds s !! next_cmd s = None).
  { destruct (cmds s !! next_cmd s) eqn:E; [|done]. apply Hs in E. lia. }
  split_and!; cbn [cmds next_cmd set_cmds].
  - split; cbn [cmds next_cmd set_cmds]; [lia|]. intros p d [[-> _]|[_ H2]]%lookup_insert_Some; [lia|]. apply Hs in H2. lia.
  - by apply insert_subseteq.
  - lia.
  - done.
Qed.

(** ** The parser follows the tokens *)

Section Sim.
Context (m0 : mem) (es : Z).
Abbreviation W := (word_at m0).

Lemma acts_peek toks s st ts (Q : bool * Z → shst → Prop) P :
  line st = m0 → on_line m0 s es ts → forallb (is_in symbols) toks = true →
  (∀ s', on_line m0 s' es ts → Q (tok_in toks ts, s') st) → acts (do_peek es s toks) st Q P.
Proof.
  intros Hm Hon Hsub HQ. destruct (peek_on m0 s es ts toks Hon (sub_symbols _ Hsub)) as (s' & E & Hon' & _ & _).
  unfold acts, do_peek, Prelude.gets. rewrite Hm, E. by apply HQ.
Qed.

Lemma acts_gettoken s st t ts (Q : Z * Z * Z * Z → shst → Prop) P :
  line st = m0 → on_line m0 s es (t :: ts) →
  (∀ q eq s', on_line m0 s' es ts → (∀ w, t = TWord w → W q eq w) → Q (tok_code t, q, eq, s') st) →
  acts (do_gettoken es s) st Q P.
Proof.
  intros Hm Hon HQ. destruct (gettoken_on m0 s es t ts Hon) as (q & eq & s' & E & Hon' & _ & _ & _ & _ & Hw).
  unfold acts, do_gettoken, Prelude.gets. rewrite Hm, E. by apply HQ.
Qed.

Lemma acts_gettoken_end s st (Q : Z * Z * Z * Z → shst → Prop) P :
  line st = m0 → on_line m0 s es [] → Q (0, es, es, es) st → acts (do_gettoken es s) st Q P.
Proof. intros Hm Hon HQ. unfold acts, do_gettoken, Prelude.gets. by rewrite Hm, gettoken_end. Qed.

Lemma chain_lower h lo lo' p rt rs : lo' <= lo → chain W h lo p rt rs → chain W h lo' p rt rs.
Proof. intros Hle Hc. induction Hc; [constructor|]. eapply chain_snoc; [done|done|done|lia|done]. Qed.

(** How the redirections end. *)
Definition redirs_post (st : shst) (p : Z) (ts : list token) : Z * Z → shst → Prop := λ '(rt, s') st',
  ∃ rs ts', predirs ts = Some (rs, ts') ∧ grows st st' ∧ on_line m0 s' es ts' ∧ chain W (cmds st') (next_cmd st) p rt rs.

(** A redirection: its symbol and its word. *)
Lemma predirs_step r ts :
  predirs (redir_sym r :: TWord (redir_word r) :: ts) =
    match predirs ts with Some (rs, ts) => Some (r :: rs, ts) | None => None end.
Proof. by destruct r. Qed.

Lemma redir_cases ts :
  tok_in [60; 62] ts = true →
  (∃ r ts1, ts = redir_sym r :: TWord (redir_word r) :: ts1) ∨
  (predirs ts = None ∧ ∃ t ts1, ts = t :: ts1 ∧ (ts1 = [] ∨ ∃ t2 ts2, ts1 = t2 :: ts2 ∧ tok_code t2 ≠ 97)).
Proof.
  intros Et. destruct ts as [|t [|t2 ts]]; [done| |].
  - right. split; [by destruct t|]. exists t, []. split; [done|by left].
  - destruct t2 as [w| | | | | | | |]; try (right; split; [by destruct t|]; eexists _, _; split; [done|]; right; by eexists _, _).
    left. destruct t; try done; [by exists (RIn w), ts|by exists (ROut w), ts|by exists (RApp w), ts].
Qed.

Lemma redirs_post_step st st1 p r ts x st' :
  0 < next_cmd st → grows st st1 →
  (∃ file efile, cmds st1 !! next_cmd st = Some (REDIR p file efile (redir_mode r) (redir_fd r)) ∧ W file efile (redir_word r)) →
  redirs_post st1 (next_cmd st) ts x st' → redirs_post st p (redir_sym r :: TWord (redir_word r) :: ts) x st'.
Proof.
  destruct x as [rt s']. intros Hpos Hg (file & efile & Hl & Hw) (rs & ts' & E & Hg' & Hon & Hc). exists (r :: rs), ts'.
  rewrite predirs_step, E. split_and!; [done|by eapply grows_trans|done|].
  pose proof Hg as (_ & _ & Hn & _). apply (chain_app _ _ _ p (next_cmd st) [r] rt rs).
  - apply (chain_snoc _ _ _ _ (next_cmd st) p file efile r []); [|done|lia|lia|constructor].
    destruct Hg' as (_ & Hs & _). by eapply lookup_weaken.
  - eapply chain_lower; [|done]. lia.
Qed.

Lemma acts_parseredirs n p s st ts :
  line st = m0 → store_ok st → on_line m0 s es ts → (length ts < n)%nat →
  acts (parseredirs es n p s) st (redirs_post st p ts) (predirs ts = None).
Proof.
  unfold parseredirs. revert p s st ts. induction n as [|n IH]; intros p s st ts Hm Hok Hon Hn; [lia|]. cbn [iter].
  apply acts_bind. unfold redir_step at 1. apply acts_bind. eapply acts_peek; [done|exact Hon|done|]. intros s1 Hon1.
  destruct (tok_in [60; 62] ts) eqn:Et.
  2: { apply acts_ret, acts_ret. exists [], ts. split_and!; [by destruct ts as [|[]]|by apply grows_refl|done|constructor]. }
  destruct (redir_cases ts Et) as [(r & ts1 & ->)|(Hnone & t & ts1 & -> & Hbad)];
    apply acts_bind; (eapply acts_gettoken; [done|exact Hon1|]); intros _ _ s2 Hon2 _.
  - apply acts_bind. eapply acts_gettoken; [done|exact Hon2|]. intros q eq s3 Hon3 Hw. specialize (Hw _ eq_refl).
    assert (E : add_redir (tok_code (redir_sym r)) p q eq = new_cmd (REDIR p q eq (redir_mode r) (redir_fd r))) by by destruct r.
    cbn [tok_code Z.eqb Pos.eqb negb]. rewrite E. apply acts_bind, acts_new_cmd; [done|]. intros st1 Hg Hl. apply acts_ret. pose proof Hg as (Hok1 & _).
    eapply acts_mono; [apply (IH _ _ _ ts1); [by rewrite (grows_line _ _ Hg)|done|done|simpl in Hn; lia]| |].
    + intros x st'. apply redirs_post_step; [apply Hok|done|]. by exists q, eq.
    + rewrite predirs_step. by intros ->.
  - apply acts_bind. destruct Hbad as [->|(t2 & ts2 & -> & Hc)].
    + eapply acts_gettoken_end; [done|done|]. by apply acts_panic.
    + eapply acts_gettoken; [done|done|]. intros q eq s3 _ _. destruct (Z.eqb_spec (tok_code t2) 97); [done|]. by apply acts_panic.
Qed.

(** All nodes but [p0] are kept. *)
Definition grows_but (p0 : Z) (s s' : shst) : Prop :=
  store_ok s' ∧ (∀ a c, a ≠ p0 → cmds s !! a = Some c → cmds s' !! a = Some c) ∧ next_cmd s <= next_cmd s' ∧
  s' = set_cmds (cmds s') (next_cmd s') s.

Lemma grows_but_refl p0 s : store_ok s → grows_but p0 s s.
Proof. intros H. split_and!; [done|done|lia|by destruct s]. Qed.
Lemma grows_but_of p0 s s' : grows s s' → grows_but p0 s s'.
Proof. intros (H1 & H2 & H3 & H4). split_and!; [done| |done|done]. intros a c _ Ha. by eapply lookup_weaken. Qed.
Lemma grows_but_trans p0 s1 s2 s3 : grows_but p0 s1 s2 → grows_but p0 s2 s3 → grows_but p0 s1 s3.
Proof.
  intros (_ & H1 & H2 & E1) (H3 & H4 & H5 & E2). split_and!; [done|by auto|lia|]. rewrite E2, E1. by destruct s1.
Qed.
Lemma grows_but_line p0 s s' : grows_but p0 s s' → line s' = line s.
Proof. intros (_ & _ & _ & ->). done. Qed.

(** The command under construction: the words so far in the node [p0], inside
    the redirections so far. *)
Definition building (p0 : Z) (st : shst) (args : list (list Z)) (rt : Z) (rs : list redir) : Prop :=
  (∃ argv eargv, cmds st !! p0 = Some (EXEC argv eargv) ∧ args_at W argv eargv args false) ∧
  chain W (cmds st) (p0 + 1) p0 rt rs.

Lemma acts_set_arg p0 q eq w st args rt rs (Q : unit → shst → Prop) P :
  store_ok st → building p0 st args rt rs → W q eq w →
  (∀ st', grows_but p0 st st' → (zlen args + 1 < MAXARGS → building p0 st' (args ++ [w]) rt rs) → Q tt st') →
  acts (set_arg p0 (zlen args) q eq) st Q P.
Proof.
  intros [Hpos Hst] [(argv & eargv & Hl & H1 & H2 & H3 & H4 & _) Hc] Hw HQ. unfold acts, set_arg. rewrite Hl.
  destruct (Z.leb_spec 0 (zlen args)), (Z.ltb_spec (zlen args) MAXARGS); try lia. cbn [andb]. rewrite Nat2Z.id. unfold MAXARGS in *. apply HQ.
  - split_and!; cbn [cmds next_cmd set_cmds].
    + split; cbn [cmds next_cmd set_cmds]; [done|]. intros a c [[<- _]|[_ Ha]]%lookup_insert_Some; by eapply Hst.
    + intros a c Ha Hca. by rewrite lookup_insert_ne.
    + lia.
    + done.
  - intros Hlt. split; cbn [cmds set_cmds].
    + eexists _, _. split; [apply lookup_insert_eq|]. split_and!; [by rewrite length_insert|by rewrite length_insert|rewrite length_app; simpl; unfold MAXARGS; lia| |done].
      intros i w' [Hi|[Hi [Hi0 <-]%list_lookup_singleton_Some]]%lookup_app_Some.
      * destruct (H4 i w' Hi) as (q' & e' & ? & ? & ?). apply lookup_lt_Some in Hi. exists q', e'. by rewrite !list_lookup_insert_ne by lia.
      * assert (i = length args) as -> by lia. exists q, eq. rewrite !list_lookup_insert_eq by lia. done.
    + eapply chain_keep; [done|]. intros a c Ha Hca. by rewrite lookup_insert_ne by lia.
Qed.

Lemma building_redirs p0 st st' args rt rs rt' rs' :
  grows st st' → building p0 st args rt rs → chain W (cmds st') (next_cmd st) rt rt' rs' → p0 < next_cmd st →
  building p0 st' args rt' (rs ++ rs').
Proof.
  intros (_ & Hs & _) [(argv & eargv & Hl & Ha) Hc] Hc' Hp. split.
  - exists argv, eargv. split; [by eapply lookup_weaken|done].
  - eapply chain_app; [|eapply chain_lower; [|done]; lia]. eapply chain_keep; [done|]. intros a c _ Hac. by eapply lookup_weaken.
Qed.

Lemma on_line_end s : on_line m0 s es [] → on_line m0 es es [].
Proof. intros (text & Hl & _ & E & H0 & Hs). exists []. split_and!; [by constructor|done|simpl; lia|done|lia]. Qed.

(** How the words end. *)
Definition args_post (n : nat) (p0 : Z) (st : shst) (args : list (list Z)) (rs : list redir) (ts : list token) :
    Z * Z * Z → shst → Prop := λ '(argc, rt, s') st',
  ∃ gs ts', pgroups n (zlen args) ts = Some (gs, ts') ∧ grows_but p0 st st' ∧ on_line m0 s' es ts' ∧
    argc = zlen (args ++ (fst <$> gs)) ∧ building p0 st' (args ++ (fst <$> gs)) rt (rs ++ concat (snd <$> gs)).

Lemma args_post_stop n p0 st args rt rs ts s :
  store_ok st → building p0 st args rt rs → on_line m0 s es ts → pgroups n (zlen args) ts = Some ([], ts) →
  args_post n p0 st args rs ts (zlen args, rt, s) st.
Proof.
  intros Hok Hb Hon E. exists [], ts. cbn [fmap list_fmap concat]. rewrite !app_nil_r.
  split_and!; [done|by apply grows_but_refl|done|done|done].
Qed.

Lemma acts_parseargs n fuel p0 rt s st args rs ts :
  line st = m0 → store_ok st → building p0 st args rt rs → on_line m0 s es ts → (length ts < n)%nat → (length ts < fuel)%nat →
  acts (iter n (arg_step es fuel p0) (zlen args, rt, s)) st (args_post n p0 st args rs ts) (pgroups n (zlen args) ts = None).
Proof.
  revert rt s st args rs ts. induction n as [|n IH]; intros rt s st args rs ts Hm Hok Hb Hon Hn Hf; [lia|]. cbn [iter].
  apply acts_bind. unfold arg_step at 1. apply acts_bind. eapply acts_peek; [done|exact Hon|done|]. intros s1 Hon1.
  destruct (tok_in [124; 41; 38; 59] ts) eqn:Et.
  { apply acts_ret, acts_ret, args_post_stop; [done|done|done|]. by destruct ts as [|[]]. }
  apply acts_bind. destruct ts as [|t ts].
  { eapply acts_gettoken_end; [done|done|]. simpl. apply acts_ret, acts_ret, args_post_stop; [done|done|by eapply on_line_end|done]. }
  eapply acts_gettoken; [done|done|]. intros q eq s2 Hon2 Hw.
  destruct t as [w| | | | | | | |]; try done; try (by apply acts_panic). specialize (Hw w eq_refl). cbn [tok_code Z.eqb Pos.eqb negb].
  apply acts_bind. eapply acts_set_arg; [done|done|done|]. intros st1 Hg1 Hb1. cbn [pgroups].
  destruct (Z.geb_spec (zlen args + 1) MAXARGS) as [|Hk]; [by apply acts_panic|]. specialize (Hb1 Hk).
  pose proof Hg1 as (Hok1 & _ & _ & _). pose proof (grows_but_line _ _ _ Hg1) as Hm1. rewrite Hm in Hm1. simpl in Hn, Hf.
  apply acts_bind. eapply acts_mono; [apply (acts_parseredirs fuel rt s2 st1 ts); [done|done|done|lia]| |by intros ->].
  intros [rt2 s3] st2 (rs2 & ts2 & E2 & Hg2 & Hon3 & Hc2). apply acts_ret. rewrite E2. cbn [mbind option_bind].
  assert (Hp0 : p0 < next_cmd st1) by (destruct Hb1 as [(? & ? & Hl & _) _]; by eapply Hok1).
  pose proof (building_redirs _ _ _ _ _ _ _ _ Hg2 Hb1 Hc2 Hp0) as Hb2. pose proof Hg2 as (Hok2 & _).
  pose proof (predirs_sound _ _ _ E2) as Ets. assert (length ts2 <= length ts)%nat by (rewrite Ets, length_app; lia).
  replace (zlen args + 1) with (zlen (args ++ [w])) by (rewrite length_app; simpl; lia).
  eapply acts_mono; [apply (IH rt2 s3 st2 (args ++ [w]) (rs ++ rs2) ts2); [by rewrite (grows_line _ _ Hg2)|done|done|done|lia|lia]| |].
  - intros [[argc rt3] s4] st3 (gs & ts3 & E3 & Hg3 & Hon4 & -> & Hb3). exists ((w, rs2) :: gs), ts3. cbn [pgroups].
    destruct (Z.geb_spec (zlen args + 1) MAXARGS); [lia|]. rewrite E2. cbn [mbind option_bind].
    replace (zlen args + 1) with (zlen (args ++ [w])) by (rewrite length_app; simpl; lia). rewrite E3. cbn [mbind option_bind].
    rewrite !fmap_cons. cbn [fst snd concat]. rewrite <-!app_assoc in Hb3. rewrite <-!app_assoc. cbn [app] in *.
    split_and!; [done|eapply grows_but_trans; [done|eapply grows_but_trans; [by apply grows_but_of|done]]|done|done|done].
  - by intros ->.
Qed.

Lemma acts_close_args p0 st args rt rs (Q : unit → shst → Prop) P :
  store_ok st → building p0 st args rt rs → p0 ≠ 0 →
  (∀ st', grows_but p0 st st' → rep W (cmds st') rt (with_redirs (Exec args) rs) → Q tt st') →
  acts (set_arg p0 (zlen args) 0 0) st Q P.
Proof.
  intros [Hpos Hst] [(argv & eargv & Hl & H1 & H2 & H3 & H4 & _) Hc] Hp0 HQ. unfold acts, set_arg. rewrite Hl.
  destruct (Z.leb_spec 0 (zlen args)), (Z.ltb_spec (zlen args) MAXARGS); try lia. cbn [andb]. rewrite Nat2Z.id. apply HQ.
  - split_and!; cbn [cmds next_cmd set_cmds].
    + split; cbn [cmds next_cmd set_cmds]; [done|]. intros a c [[<- _]|[_ Ha]]%lookup_insert_Some; by eapply Hst.
    + intros a c Ha Hca. by rewrite lookup_insert_ne.
    + lia.
    + done.
  - cbn [cmds set_cmds]. unfold MAXARGS in *. eapply chain_rep.
    + eapply chain_keep; [done|]. intros a c Ha Hca. by rewrite lookup_insert_ne by lia.
    + eapply rep_exec; [apply lookup_insert_eq| |done]. split_and!; [by rewrite length_insert|by rewrite length_insert|done| |].
      * intros i w Hi. destruct (H4 i w Hi) as (q & e & ? & ? & ?). apply lookup_lt_Some in Hi. exists q, e. by rewrite !list_lookup_insert_ne by lia.
      * intros _. rewrite list_lookup_insert_eq by lia. done.
Qed.

(** How a function of the parser ends, [r] being what the parser of tokens
    returns. *)
Definition parsed {A} (tr : A → tree) (r : option (A * list token)) (st : shst) : Z * Z → shst → Prop := λ '(p, s') st',
  ∃ x ts', r = Some (x, ts') ∧ grows st st' ∧ on_line m0 s' es ts' ∧ rep W (cmds st') p (tr x).

Lemma acts_amps n p s st t ts :
  line st = m0 → store_ok st → on_line m0 s es ts → rep W (cmds st) p t → (length ts < n)%nat →
  acts (iter n (amp_step es) (p, s)) st (λ '(p', s') st', grows st st' ∧ on_line m0 s' es (pamps ts).2 ∧
    rep W (cmds st') p' (Nat.iter (pamps ts).1 Back t)) False.
Proof.
  revert p s st t ts. induction n as [|n IH]; intros p s st t ts Hm Hok Hon Hr Hn; [lia|]. cbn [iter].
  apply acts_bind. unfold amp_step at 1. apply acts_bind. eapply acts_peek; [done|exact Hon|done|]. intros s1 Hon1.
  destruct (tok_in [38] ts) eqn:Et.
  - destruct ts as [|[w| | | | | | | |] ts]; try done. apply acts_bind. eapply acts_gettoken; [done|done|]. intros q eq s2 Hon2 _.
    apply acts_bind, acts_new_cmd; [done|]. intros st1 Hg Hl. apply acts_ret. pose proof Hg as (Hok1 & Hs1 & _).
    eapply acts_mono; [apply (IH _ _ _ (Back t) ts); [by rewrite (grows_line _ _ Hg)|done|done| |simpl in Hn; lia]| |done].
    + eapply rep_back; [done|destruct Hok; lia|by eapply rep_grow].
    + intros [p' s'] st' (Hg' & Hon' & Hr'). cbn [pamps fst snd]. rewrite Nat.iter_succ_r.
      split_and!; [by eapply grows_trans|done|done].
  - apply acts_ret, acts_ret. assert (pamps ts = (O, ts)) as -> by by destruct ts as [|[]].
    split_and!; [by apply grows_refl|done|done].
Qed.

(** A function of the parser behaves like the one on tokens; the bound is
    four calls per token. *)
Definition sim {A} (tr : A → tree) (k f : nat) (fn : Z → K shst (Z * Z)) (ref : list token → option (A * list token)) : Prop :=
  ∀ s st ts, line st = m0 → store_ok st → on_line m0 s es ts → (4 * length ts + k <= f)%nat →
    acts (fn s) st (parsed tr (ref ts) st) (ref ts = None).

Lemma rest_pipe f ts p ts' : ppipe f ts = Some (p, ts') → (length ts' <= length ts)%nat.
Proof. intros H. apply parse_sound in H as [-> _]. rewrite length_app. lia. Qed.
Lemma rest_line f ts l ts' : pline f ts = Some (l, ts') → (length ts' <= length ts)%nat.
Proof. intros H. apply parse_sound in H as [-> _]. rewrite length_app. lia. Qed.
Lemma rest_simple f ts c ts' : psimple f ts = Some (c, ts') → (length ts' <= length ts)%nat.
Proof. intros H. apply parse_sound in H as [-> _]. rewrite length_app. lia. Qed.
Lemma rest_amps ts : (length (pamps ts).2 <= length ts)%nat.
Proof. rewrite (pamps_sound ts) at 2. rewrite length_app. lia. Qed.

Lemma sim_line f :
  sim pipe_tree 3 f (parsepipe es f) (ppipe f) → sim line_tree 4 f (parseline es f) (pline f) →
  sim line_tree 4 (S f) (parseline es (S f)) (pline (S f)).
Proof.
  intros IHp IHl s st ts Hm Hok Hon Hf. cbn [parseline pline]. apply acts_bind.
  eapply acts_mono; [apply IHp; [done|done|exact Hon|lia]| |by intros ->].
  intros [p s1] st1 (x & ts1 & E1 & Hg1 & Hon1 & Hr1). rewrite E1. cbn [mbind option_bind].
  pose proof (rest_pipe _ _ _ _ E1). pose proof (grows_line _ _ Hg1) as Hm1. rewrite Hm in Hm1. pose proof Hg1 as (Hok1 & _).
  apply acts_bind. eapply acts_mono; [apply (acts_amps f p s1 st1 (pipe_tree x) ts1); [done|done|done|done|lia]| |done].
  intros [p2 s2] st2 (Hg2 & Hon2 & Hr2). pose proof (rest_amps ts1). destruct (pamps ts1) as [bg ts2]. cbn [fst snd] in *.
  pose proof (grows_line _ _ Hg2) as Hm2. rewrite Hm1 in Hm2. pose proof Hg2 as (Hok2 & _).
  apply acts_bind. eapply acts_peek; [done|exact Hon2|done|]. intros s3 Hon3.
  destruct (tok_in [59] ts2) eqn:Et.
  - destruct ts2 as [|[w| | | | | | | |] ts2]; try done. apply acts_bind. eapply acts_gettoken; [done|done|]. intros q eq s4 Hon4 _.
    simpl in *. apply acts_bind. eapply acts_mono; [apply (IHl s4 st2 ts2); [done|done|done|lia]| |by intros ->].
    intros [p3 s5] st3 (l & ts3 & -> & Hg3 & Hon5 & Hr3). pose proof Hg3 as (Hok3 & Hs3 & _).
    apply acts_bind, acts_new_cmd; [done|]. intros st4 Hg4 Hl4. apply acts_ret. pose proof Hg4 as (_ & Hs4 & _).
    exists (LMore x bg l), ts3. split_and!; [done|eapply grows_trans; [done|]; eapply grows_trans; [done|]; by eapply grows_trans|done|].
    cbn [line_tree]. eapply rep_list; [done|destruct Hok3; lia|eapply rep_grow; [exact Hr2|by etrans]|by eapply rep_grow].
  - apply acts_ret. exists (LOne x bg), ts2. split_and!; [by destruct ts2 as [|[]]|by eapply grows_trans|done|done].
Qed.

Lemma sim_pipe f :
  sim simple_tree 2 f (parseexec es f) (psimple f) → sim pipe_tree 3 f (parsepipe es f) (ppipe f) →
  sim pipe_tree 3 (S f) (parsepipe es (S f)) (ppipe (S f)).
Proof.
  intros IHs IHp s st ts Hm Hok Hon Hf. cbn [parsepipe ppipe]. apply acts_bind.
  eapply acts_mono; [apply IHs; [done|done|exact Hon|lia]| |by intros ->].
  intros [p s1] st1 (x & ts1 & E1 & Hg1 & Hon1 & Hr1). rewrite E1. cbn [mbind option_bind].
  pose proof (rest_simple _ _ _ _ E1). pose proof (grows_line _ _ Hg1) as Hm1. rewrite Hm in Hm1. pose proof Hg1 as (Hok1 & _).
  apply acts_bind. eapply acts_peek; [done|exact Hon1|done|]. intros s3 Hon3.
  destruct (tok_in [124] ts1) eqn:Et.
  - destruct ts1 as [|[w| | | | | | | |] ts2]; try done. apply acts_bind. eapply acts_gettoken; [done|done|]. intros q eq s4 Hon4 _.
    simpl in *. apply acts_bind. eapply acts_mono; [apply (IHp s4 st1 ts2); [done|done|done|lia]| |by intros ->].
    intros [p3 s5] st3 (l & ts3 & -> & Hg3 & Hon5 & Hr3). pose proof Hg3 as (Hok3 & Hs3 & _).
    apply acts_bind, acts_new_cmd; [done|]. intros st4 Hg4 Hl4. apply acts_ret. pose proof Hg4 as (_ & Hs4 & _).
    exists (PMore x l), ts3. split_and!; [done|eapply grows_trans; [done|]; by eapply grows_trans|done|].
    cbn [pipe_tree]. eapply rep_pipe; [done|destruct Hok3; lia|eapply rep_grow; [exact Hr1|by etrans]|by eapply rep_grow].
  - apply acts_ret. exists (POne x), ts1. split_and!; [by destruct ts1 as [|[]]|done|done|done].
Qed.

Lemma sim_block f :
  sim line_tree 4 f (parseline es f) (pline f) → sim simple_tree 1 (S f) (parseblock es (S f)) (pblock (S f)).
Proof.
  intros IHl s st ts Hm Hok Hon Hf. cbn [parseblock pblock]. apply acts_bind. eapply acts_peek; [done|exact Hon|done|]. intros s1 Hon1.
  destruct (tok_in [40] ts) eqn:Et; [|apply acts_panic; by destruct ts as [|[]]]. simpl negb. cbv iota.
  destruct ts as [|[w| | | | | | | |] ts]; try done. apply acts_bind. eapply acts_gettoken; [done|done|]. intros _ _ s2 Hon2 _.
  simpl in Hf. apply acts_bind. eapply acts_mono; [apply (IHl s2 st ts); [done|done|done|lia]| |by intros ->].
  intros [p s3] st1 (l & ts1 & E1 & Hg1 & Hon3 & Hr1). rewrite E1. cbn [mbind option_bind].
  pose proof (rest_line _ _ _ _ E1). pose proof (grows_line _ _ Hg1) as Hm1. rewrite Hm in Hm1. pose proof Hg1 as (Hok1 & _).
  apply acts_bind. eapply acts_peek; [done|exact Hon3|done|]. intros s4 Hon4.
  destruct (tok_in [41] ts1) eqn:Et1; [|apply acts_panic; by destruct ts1 as [|[]]]. simpl negb. cbv iota.
  destruct ts1 as [|[w| | | | | | | |] ts1]; try done. apply acts_bind. eapply acts_gettoken; [done|done|]. intros _ _ s5 Hon5 _.
  simpl in *. eapply acts_mono; [apply (acts_parseredirs f p s5 st1 ts1); [done|done|done|lia]| |by intros ->].
  intros [rt s6] st2 (rs & ts2 & -> & Hg2 & Hon6 & Hc). exists (SBlock l rs), ts2. pose proof Hg2 as (_ & Hs2 & _).
  split_and!; [done|by eapply grows_trans|done|]. cbn [simple_tree]. eapply chain_rep; [done|by eapply rep_grow].
Qed.

(** The words of a command, from an empty node on. *)
Lemma sim_words f s st ts :
  line st = m0 → store_ok st → on_line m0 s es ts → (length ts < f)%nat →
  acts (cmd <- execcmd ;;;
        let* (rt, s) := parseredirs es f cmd s in
        let* (argc, rt, s) := parseargs es f cmd rt s in
        set_arg cmd argc 0 0 ;;;
        ret (rt, s)) st
    (parsed simple_tree ('(rs, ts) ← predirs ts; '(gs, ts) ← pgroups f 0 ts; Some (SWords rs gs, ts)) st)
    (('(rs, ts) ← predirs ts; '(gs, ts) ← pgroups f 0 ts; Some (SWords rs gs, ts)) = None).
Proof.
  intros Hm Hok Hon Hf. apply acts_bind, acts_new_cmd; [done|]. intros st1 Hg1 Hl1. set (p0 := next_cmd st) in *.
  assert (Hp0 : 0 < p0) by apply Hok. pose proof (grows_line _ _ Hg1) as Hm1. rewrite Hm in Hm1. pose proof Hg1 as (Hok1 & Hs1 & _).
  assert (Hlt : p0 < next_cmd st1) by by eapply Hok1.
  apply acts_bind. eapply acts_mono; [apply (acts_parseredirs f p0 s st1 ts); [done|done|done|done]| |by intros ->].
  intros [rt s2] st2 (rs & ts2 & E2 & Hg2 & Hon2 & Hc2). rewrite E2. cbn [mbind option_bind].
  pose proof (grows_line _ _ Hg2) as Hm2. rewrite Hm1 in Hm2. pose proof Hg2 as (Hok2 & Hs2 & _).
  pose proof (predirs_sound _ _ _ E2) as Ets. assert (length ts2 <= length ts)%nat by (rewrite Ets, length_app; lia).
  assert (Hb : building p0 st2 [] rt rs).
  { split; [|eapply chain_lower; [|done]; lia]. exists (replicate 10 0), (replicate 10 0). split; [by eapply lookup_weaken|].
    split_and!; [done|done|done|done|done]. }
  apply acts_bind. unfold parseargs.
  eapply acts_mono; [apply (acts_parseargs f f p0 rt s2 st2 [] rs ts2); [done|done|done|done|lia|lia]| |].
  2: { intros E. change (zlen (@nil (list Z))) with 0 in E. by rewrite E. }
  intros [[argc rt3] s3] st3 (gs & ts3 & E3 & Hg3 & Hon3 & -> & Hb3). change (zlen (@nil (list Z))) with 0 in E3. rewrite E3. cbn [mbind option_bind app] in *.
  pose proof Hg3 as (Hok3 & _). apply acts_bind. eapply acts_close_args; [done|done|lia|]. intros st4 Hg4 Hr4. apply acts_ret.
  exists (SWords rs gs), ts3. split_and!; [done| |done|done].
  pose proof (grows_but_trans _ _ _ _ (grows_but_of p0 _ _ Hg2) (grows_but_trans _ _ _ _ Hg3 Hg4)) as (H1 & H2 & H3 & H4).
  destruct Hg1 as (_ & _ & H5 & H6). split_and!; [done| |lia|rewrite H4, H6; by destruct st].
  apply map_subseteq_spec. intros a c Ha. apply H2; [|by eapply lookup_weaken]. intros ->. apply Hok in Ha. unfold p0 in Ha. lia.
Qed.

Lemma sim_simple f :
  sim simple_tree 1 f (parseblock es f) (pblock f) → sim simple_tree 2 (S f) (parseexec es (S f)) (psimple (S f)).
Proof.
  intros IHb s st ts Hm Hok Hon Hf. cbn [parseexec psimple]. apply acts_bind. eapply acts_peek; [done|exact Hon|done|]. intros s1 Hon1.
  destruct (tok_in [40] ts) eqn:Et.
  - destruct ts as [|[w| | | | | | | |] ts]; try done. apply IHb; [done|done|done|lia].
  - pose proof (sim_words f s1 st ts Hm Hok Hon1 ltac:(lia)) as H. by destruct ts as [|[]].
Qed.

Lemma sim_all f :
  sim line_tree 4 f (parseline es f) (pline f) ∧ sim pipe_tree 3 f (parsepipe es f) (ppipe f) ∧
  sim simple_tree 1 f (parseblock es f) (pblock f) ∧ sim simple_tree 2 f (parseexec es f) (psimple f).
Proof.
  induction f as [|f (IHl & IHp & IHb & IHs)]; [split_and!; intros s st ts _ _ _ H; lia|].
  split_and!; [by apply sim_line|by apply sim_pipe|by apply sim_block|by apply sim_simple].
Qed.
End Sim.
