(* ===== verification/ShRun.v ===== *)
(** The shell: every line is parsed as the grammar says, and running it
    starts the commands with their descriptors connected as the line says. *)

From S2P Require Import Prelude Mem CString Ulib Sh ShSpec ShParse.
Local Open Scope kernel_scope.

(** ** Every text is a row of tokens *)

Lemma layout_space c ts text : space c = true → layout ts text → layout ts (c :: text).
Proof.
  intros Hc [sp Hsp|sp t ts' text' Hsp Ht Hg Hl].
  - constructor. constructor; [by rewrite Hc|done].
  - change (c :: sp ++ tok_text t ++ text') with ((c :: sp) ++ tok_text t ++ text').
    constructor; [constructor; [by rewrite Hc|done]|done..].
Qed.

Lemma longest_word l : ∃ w r, l = w ++ r ∧ Forall (λ c, wordc c = true) w ∧ (∀ c r', r = c :: r' → wordc c = false).
Proof.
  induction l as [|c l (w & r & -> & Hw & Hr)]; [by exists [], []|]. destruct (wordc c) eqn:E.
  - exists (c :: w), r. split_and!; [done|by constructor|done].
  - exists [], (c :: w ++ r). split_and!; [done|constructor|by intros ? ? [= <- _]].
Qed.

Lemma symbol_cases c :
  space c = false → wordc c = false → c ≠ 62 → ∃ t, tok_text t = [c] ∧ tok_ok t ∧ (∀ ts, glued t ts = false).
Proof.
  unfold space, wordc. intros -> Hs Hc. cbn [negb andb] in Hs. apply negb_false_iff, existsb_exists in Hs as (x & Hx & E).
  apply Z.eqb_eq in E as <-. simpl in Hx.
  destruct Hx as [<-|[<-|[<-|[<-|[<-|[<-|[<-|[]]]]]]]];
    [by exists TIn|by exists TBar|done|by exists TAmp|by exists TSemi|by exists TOpen|by exists TClose].
Qed.

Lemma layout_length ts text : layout ts text → (length ts <= length text)%nat.
Proof.
  induction 1 as [|sp t ts text Hsp Ht Hg Hl IH]; simpl; [lia|]. rewrite !length_app.
  destruct (first_char t Ht) as (c & r & -> & _). simpl. lia.
Qed.

(** The text of a token that must be kept apart starts with space. *)
Lemma layout_apart t ts text :
  layout (t :: ts) text → (∀ c r, text = c :: r → tok_ok t → head (tok_text t) = Some c → False) →
  ∃ c r, text = c :: r ∧ space c = true.
Proof.
  intros Hl Hn. destruct text as [|c r]; [by apply layout_length in Hl; simpl in Hl; lia|]. exists c, r. split; [done|].
  destruct (layout_head _ _ _ _ Hl eq_refl) as [|(t' & ts' & [= <- <-] & Ht & Hh)]; [done|]. by destruct (Hn c r eq_refl Ht Hh).
Qed.

Lemma tokens_of text : Forall (λ c, c ≠ 0) text → ∃ ts, layout ts text.
Proof.
  induction (well_founded_ltof _ (@length Z) text) as [text _ IH]. intros Hz. destruct text as [|c r].
  { exists []. by constructor. }
  apply Forall_cons in Hz as [Hc0 Hz]. assert (Hr : ∃ ts, layout ts r) by (apply IH; [unfold ltof; simpl; lia|done]).
  destruct Hr as [ts Hr]. destruct (space c) eqn:Es; [exists ts; by apply layout_space|].
  destruct (wordc c) eqn:Ew.
  - destruct (longest_word r) as (w & r' & -> & Hw & Hend). apply Forall_app in Hz as [Hzw Hzr].
    destruct (IH r') as [ts' Hr']; [unfold ltof; simpl; rewrite length_app; lia|done|]. exists (TWord (c :: w) :: ts').
    apply (lay_tok [] (TWord (c :: w)) ts' r'); [constructor| | |done].
    + split; [done|]. constructor; [done|]. apply Forall_and. done.
    + destruct ts' as [|[w'| | | | | | | |] ts']; try done. intros _. apply (layout_apart _ _ _ Hr'). intros d rr -> [Hne Hw'] Hh.
      destruct w' as [|x w']; [done|]. injection Hh as ->. apply Forall_cons in Hw' as [[Hx _] _]. by rewrite (Hend d _ eq_refl) in Hx.
  - destruct (decide (c = 62)) as [->|Hne].
    + destruct (decide (head r = Some 62)) as [Hh|Hh].
      * destruct r as [|? r]; [done|]. injection Hh as ->. apply Forall_cons in Hz as [_ Hz].
        destruct (IH r) as [ts' Hr']; [unfold ltof; simpl; lia|done|]. exists (TApp :: ts').
        by apply (lay_tok [] TApp ts' r).
      * exists (TOut :: ts). apply (lay_tok [] TOut ts r); [constructor|done| |done]. intros Hg.
        destruct ts as [|t ts]; [done|]. apply (layout_apart _ _ _ Hr). intros d rr -> _ Hd. destruct t; try done; injection Hd as <-; by apply Hh.
    + destruct (symbol_cases c Es Ew Hne) as (t & Et & Hok & Hg). exists (t :: ts). change (c :: r) with ([] ++ [c] ++ r). rewrite <-Et.
      apply lay_tok; [constructor|done|by rewrite Hg|done].
Qed.


(** ** NUL-terminating the words *)

(** Some characters of the line that are not in a word were overwritten. *)
Definition cut (m0 m : mem) : Prop :=
  ∀ a, rd8 m a = rd8 m0 a ∨ (rd8 m a = 0 ∧ (wordc (rd8 m0 a) = false ∨ rd8 m0 a = 0)).
Definition zeros_kept (m m' : mem) : Prop := ∀ a, rd8 m a = 0 → rd8 m' a = 0.

Lemma cut_store m0 m a : cut m0 m → (wordc (rd8 m0 a) = false ∨ rd8 m0 a = 0) → cut m0 (wr8 m a 0) ∧ zeros_kept m (wr8 m a 0).
Proof.
  intros Hc Ha. split; intros b; rewrite rd8_wr8; case_decide as E; [subst b; by right|apply Hc|done|done].
Qed.

Lemma cut_word m0 m q e w : cut m0 m → word_at m0 q e w → rd8 m e = 0 → cstr m q w.
Proof.
  intros Hc ((_ & Hw) & Hr & -> & _) He. revert q Hr He. induction Hw as [|c w [Hwc Hc0] Hw IH]; intros q Hr He; cbn [length rd_bytes cstr] in *.
  - by rewrite Z.add_0_r in He.
  - injection Hr as Hq Hr. split_and!; [|done|].
    + destruct (Hc q) as [E|[_ E]]; [by rewrite E|]. rewrite Hq in E. destruct E; congruence.
    + apply IH; [done|]. rewrite <-He. f_equal. lia.
Qed.

(** What a step of the termination leaves. *)
Definition cut_to (m0 : mem) (st st' : shst) : Prop :=
  ∃ m, st' = set_line m st ∧ cut m0 m ∧ zeros_kept (line st) m.

Lemma cut_to_trans m0 s1 s2 s3 : cut_to m0 s1 s2 → cut_to m0 s2 s3 → cut_to m0 s1 s3.
Proof.
  intros (m & -> & _ & H1) (m' & -> & H2 & H3). exists m'. split_and!; [done|done|]. intros a Ha. apply H3. cbn [line set_line]. auto.
Qed.

Lemma runs_store_nul m0 st e :
  cut m0 (line st) → (wordc (rd8 m0 e) = false ∨ rd8 m0 e = 0) →
  runs (store_nul e) st (λ _ st', cut_to m0 st st' ∧ rd8 (line st') e = 0).
Proof.
  intros Hc He. unfold store_nul. kred. destruct (cut_store m0 (line st) e Hc He) as [H1 H2]. split; [by exists (wr8 (line st) e 0)|].
  cbn [line set_line]. by rewrite rd8_wr8, decide_True.
Qed.

Section Cut.
Context (m0 : mem).
Abbreviation W := (word_at m0).
(** The word is stored and ends with a NUL in [m]. *)
Abbreviation Wcut m := (λ q e w, word_at m0 q e w ∧ rd8 m e = 0).

Lemma runs_end_args argv eargv args st :
  cut m0 (line st) → args_at W argv eargv args true →
  runs (end_args argv eargv) st (λ _ st', cut_to m0 st st' ∧ args_at (Wcut (line st')) argv eargv args true).
Proof.
  intros Hc (H1 & H2 & H3 & H4 & H5). specialize (H5 eq_refl). unfold MAXARGS in *. unfold end_args.
  apply (runs_iter _ (λ n i st1, n = (length args - i)%nat ∧ (i <= length args)%nat ∧ cut_to m0 st st1 ∧
    ∀ j e, (j < i)%nat → eargv !! j = Some e → rd8 (line st1) e = 0)) with (n := length args); [| |lia].
  2: { split_and!; [lia|lia| |lia]. exists (line st). split_and!; [by destruct st|done|by intros a]. }
  intros n i st1 (-> & Hi & Hcut & Hz). destruct (decide (i = length args)) as [->|Hne].
  - rewrite H5. destruct (lookup_lt_is_Some_2 eargv (length args)) as [e ->]; [lia|]. simpl. kred. split; [done|].
    split_and!; [done|done|unfold MAXARGS; lia| |done]. intros j w Hj. destruct (H4 j w Hj) as (q & e' & Hq & He & Hw).
    exists q, e'. split_and!; [done|done|done|]. eapply Hz; [|done]. by eapply lookup_lt_Some.
  - destruct (lookup_lt_is_Some_2 args i) as [w Hw]; [lia|]. destruct (H4 i w Hw) as (q & e & -> & Ee & Hwd). rewrite Ee.
    pose proof Hwd as (_ & _ & _ & Hq & He). destruct (Z.eqb_spec q 0); [lia|]. destruct Hcut as (m1 & -> & Hc1 & Hz1).
    apply runs_bind. eapply runs_mono; [apply (runs_store_nul m0); [done|done]|]. intros [] st2 [Hcut2 He2]. kred.
    exists (length args - S i)%nat. split; [lia|]. split_and!; [done|lia| |].
    + eapply cut_to_trans; [|done]. by exists m1.
    + intros j e' Hj Hej. destruct (decide (j = i)) as [->|]; [congruence|]. destruct Hcut2 as (m2 & -> & _ & Hz2). apply Hz2, (Hz j); [lia|done].
Qed.

Fixpoint depth (t : tree) : nat :=
  match t with
  | Exec _ => 1
  | Redir t _ | Back t => S (depth t)
  | Pipe l r | List l r => S (depth l + depth r)
  end.

Lemma rep_impl (W1 W2 : Z → Z → list Z → Prop) h p t : (∀ q e w, W1 q e w → W2 q e w) → rep W1 h p t → rep W2 h p t.
Proof.
  intros HW Hr. induction Hr as [p argv eargv args Hl (H1 & H2 & H3 & H4 & H5) H0| | | |].
  - eapply rep_exec; [done| |done]. split_and!; [done|done|done| |done]. intros i w Hi.
    destruct (H4 i w Hi) as (q & e & ? & ? & ?). exists q, e. split_and!; [done|done|by apply HW].
  - eapply rep_redir; [done|by apply HW|done|done].
  - by eapply rep_pipe.
  - by eapply rep_list.
  - by eapply rep_back.
Qed.

Lemma rep_cut_later st st' p t :
  cut_to m0 st st' → rep (Wcut (line st)) (cmds st) p t → rep (Wcut (line st')) (cmds st') p t.
Proof.
  intros (m & -> & _ & Hz) Hr. cbn [line cmds set_line]. eapply rep_impl; [|exact Hr]. intros q e w [? ?]. split; [done|by apply Hz].
Qed.

Lemma runs_nulterminate fuel p t st :
  cut m0 (line st) → rep W (cmds st) p t → (depth t < fuel)%nat →
  runs (nulterminate fuel p) st (λ _ st', cut_to m0 st st' ∧ rep (Wcut (line st')) (cmds st') p t).
Proof.
  intros Hc Hr. remember (cmds st) as h eqn:Eh. revert fuel st Hc Eh.
  induction Hr as [p argv eargv args Hl Ha H0|p sub file efile r t Hl Hw H0 Hr IH|p l r tl tr Hl H0 Hrl IHl Hrr IHr|
    p l r tl tr Hl H0 Hrl IHl Hrr IHr|p sub t Hl H0 Hr IH];
    intros fuel st Hc -> Hf; (destruct fuel as [|fuel]; [lia|]); cbn [nulterminate depth] in *;
    (destruct (Z.eqb_spec p 0); [done|]); kred; rewrite Hl.
  - eapply runs_mono; [by apply runs_end_args|]. intros [] st' [(m & -> & Hcut) Ha']. split; [by exists m|]. by eapply rep_exec.
  - apply runs_bind. eapply runs_mono; [apply (IH fuel); [done|done|lia]|]. intros [] st1 [(m1 & -> & Hc1 & Hz1) Hr1].
    pose proof Hw as (_ & _ & _ & _ & He). eapply runs_mono; [apply (runs_store_nul m0); [done|done]|]. intros [] st2 [Hcut2 He2].
    split; [eapply cut_to_trans; [by exists m1|done]|]. pose proof (rep_cut_later _ _ _ _ Hcut2 Hr1) as Hr2.
    destruct Hcut2 as (m2 & -> & _). by eapply rep_redir.
  - apply runs_bind. eapply runs_mono; [apply (IHl fuel); [done|done|lia]|]. intros [] st1 [(m1 & -> & Hc1 & Hz1) Hr1].
    eapply runs_mono; [apply (IHr fuel); [done|done|lia]|]. intros [] st2 [Hcut2 Hr2].
    split; [eapply cut_to_trans; [by exists m1|done]|]. pose proof (rep_cut_later _ _ _ _ Hcut2 Hr1) as Hr1'.
    destruct Hcut2 as (m2 & -> & _). by eapply rep_pipe.
  - apply runs_bind. eapply runs_mono; [apply (IHl fuel); [done|done|lia]|]. intros [] st1 [(m1 & -> & Hc1 & Hz1) Hr1].
    eapply runs_mono; [apply (IHr fuel); [done|done|lia]|]. intros [] st2 [Hcut2 Hr2].
    split; [eapply cut_to_trans; [by exists m1|done]|]. pose proof (rep_cut_later _ _ _ _ Hcut2 Hr1) as Hr1'.
    destruct Hcut2 as (m2 & -> & _). by eapply rep_list.
  - eapply runs_mono; [apply (IH fuel); [done|done|lia]|]. intros [] st1 [Hcut Hr1]. split; [done|].
    destruct Hcut as (m1 & -> & _). by eapply rep_back.
Qed.
End Cut.

(** ** parsecmd *)

Lemma depth_with_redirs t rs : depth (with_redirs t rs) = (depth t + length rs)%nat.
Proof. revert t. induction rs as [|r rs IH]; intros t; simpl; [lia|]. unfold with_redirs in *. simpl. rewrite IH. simpl. lia. Qed.
Lemma depth_backs n t : depth (Nat.iter n Back t) = (depth t + n)%nat.
Proof. induction n as [|n IH]; simpl; [lia|]. rewrite IH. lia. Qed.
Lemma length_redirs rs : length (redirs_toks rs) = (2 * length rs)%nat.
Proof. induction rs as [|r rs IH]; [done|]. change (redirs_toks (r :: rs)) with (redir_toks r ++ redirs_toks rs). rewrite length_app, IH. simpl. lia. Qed.
Lemma length_group_redirs gs : (length (concat (snd <$> gs)) <= length (groups_toks gs))%nat.
Proof.
  induction gs as [|g gs IH]; [done|]. change (groups_toks (g :: gs)) with (TWord g.1 :: redirs_toks g.2 ++ groups_toks gs).
  rewrite fmap_cons. cbn [concat length]. rewrite !length_app, length_redirs. lia.
Qed.

Fixpoint depth_simple (c : simple) : (depth (simple_tree c) <= 2 * length (simple_toks c) + 1)%nat
with depth_pipe (p : pipel) : (depth (pipe_tree p) <= 2 * length (pipe_toks p) + 1)%nat
with depth_line (l : sline) : (depth (line_tree l) <= 2 * length (line_toks l) + 1)%nat.
Proof.
  - destruct c as [rs gs|l rs]; cbn [simple_tree simple_toks].
    + rewrite depth_with_redirs, !length_app, length_redirs. pose proof (length_group_redirs gs). simpl. lia.
    + rewrite depth_with_redirs. cbn [length]. rewrite length_app. cbn [length]. rewrite length_redirs. pose proof (depth_line l). lia.
  - destruct p as [c|c p]; cbn [pipe_tree pipe_toks].
    + apply depth_simple.
    + rewrite length_app. cbn [length depth]. pose proof (depth_simple c). pose proof (depth_pipe p). lia.
  - destruct l as [p bg|p bg l]; cbn [line_tree line_toks]; rewrite ?depth_backs, !length_app, ?length_replicate; pose proof (depth_pipe p).
    + lia.
    + pose proof (depth_line l). cbn [length depth]. rewrite depth_backs. lia.
Qed.

(** [text] is a sentence of the grammar. *)
Definition sentence (text : list Z) (l : sline) : Prop := line_ok l ∧ layout (line_toks l) text.

(** The strings of the command are in the memory. *)
Definition stored (m : mem) (q e : Z) (w : list Z) : Prop := cstr m q w ∧ 0 < q.

Lemma cstr_bytes m s text : cstr m s text → rd_bytes m s (length text) = text ∧ rd8 m (s + zlen text) = 0 ∧ Forall (λ c, c ≠ 0) text.
Proof.
  intros H. split_and!; [| by apply cstr_app_inv|]; revert s H; induction text as [|c text IH]; intros s; cbn [cstr length rd_bytes]; try done.
  - intros (<- & _ & H). f_equal. by apply IH.
  - intros (_ & Hc & H). constructor; [done|by eapply IH].
Qed.

(** What parsecmd returns. *)
Definition command_post (st : shst) (l : sline) (p : Z) (st' : shst) : Prop :=
  rep (stored (line st')) (cmds st') p (line_tree l) ∧
  fds st' = fds st ∧ next_pipe st' = next_pipe st ∧ ran st' = ran st ∧ dirs st' = dirs st.

Lemma acts_parsecmd fuel s text st ts :
  cstr (line st) s text → 0 < s → store_ok st → layout ts text → (4 * length text + 8 <= fuel)%nat →
  acts (parsecmd fuel s) st (λ p st', ∃ l, pline fuel ts = Some (l, []) ∧ command_post st l p st')
    (∀ l, pline fuel ts ≠ Some (l, [])).
Proof.
  intros Hs H0 Hok Hl Hf. unfold parsecmd. apply acts_bind, runs_acts. kred. rewrite (strlen_cstr _ _ text) by (done || lia).
  destruct (cstr_bytes _ _ _ Hs) as (Hr & Hz & _). pose proof (layout_length _ _ Hl) as Hlen.
  assert (Hon : on_line (line st) s (s + zlen text) ts) by by exists text.
  set (es := s + zlen text) in *. apply acts_bind.
  eapply acts_mono; [apply (proj1 (sim_all (line st) es fuel) s st ts); [done|done|done|lia]| |by intros ->].
  intros [p s1] st1 (l & ts1 & E1 & Hg1 & Hon1 & Hr1). pose proof Hg1 as (_ & _ & _ & E). pose proof (grows_line _ _ Hg1) as Hm1.
  apply acts_bind. unfold acts at 1, do_peek, Prelude.gets. rewrite Hm1.
  destruct (peek_on (line st) s1 es ts1 [] Hon1) as (s2 & -> & Hon2 & _ & Hat); [by intros ? ?%not_elem_of_nil|].
  destruct Hat as [(text1 & Hl1 & _ & Ees & _) Hat]. destruct (Z.eqb_spec s2 es) as [E2|E2]; simpl.
  - assert (ts1 = []) as ->.
    { destruct ts1 as [|t ts1]; [done|]. apply layout_length in Hl1. simpl in Hl1. lia. }
    destruct (parse_sound fuel) as (Hsnd & _). destruct (Hsnd _ _ _ E1) as [Ets _]. rewrite app_nil_r in Ets.
    apply acts_bind, runs_acts. eapply runs_mono; [apply (runs_nulterminate (line st) fuel p (line_tree l)); [|exact Hr1|]|].
    + rewrite Hm1. intros a. by left.
    + pose proof (depth_line l). rewrite <-Ets in *. lia.
    + intros [] st2 [(m & E3 & Hcut & _) Hrep]. apply acts_ret. exists l. split; [done|].
      rewrite E3. split_and!; cbn [line cmds fds next_pipe ran dirs set_line]; [|by rewrite E..]. rewrite E3 in Hrep. cbn [line cmds set_line] in Hrep.
      eapply rep_impl; [|exact Hrep]. intros q e w [Hw He]. split; [by eapply cut_word|apply Hw].
  - apply acts_panic. intros l' El. rewrite E1 in El. injection El as <- ->. by simpl in Hat.
Qed.

(** A sentence is parsed as what it is, and nothing else is parsed. *)
Lemma runs_parsecmd fuel s text st l :
  cstr (line st) s text → 0 < s → store_ok st → (4 * length text + 8 <= fuel)%nat → sentence text l →
  runs (parsecmd fuel s) st (command_post st l).
Proof.
  intros Hs H0 Hok Hf [Hl Hlay]. pose proof (acts_parsecmd fuel s text st _ Hs H0 Hok Hlay Hf) as H.
  assert (E : pline fuel (line_toks l) = Some (l, [])).
  { pose proof (layout_length _ _ Hlay). destruct (parse_complete fuel) as (Hc & _). specialize (Hc l []). rewrite app_nil_r in Hc.
    apply Hc; [done|by left|lia]. }
  unfold acts in H. unfold runs. destruct (parsecmd fuel s st) as [p st'|msg| | |]; [|by specialize (H l)|done..].
  destruct H as (l' & El & Hp). rewrite E in El. by injection El as <-.
Qed.

Lemma panics_parsecmd fuel s text st :
  cstr (line st) s text → 0 < s → store_ok st → (4 * length text + 8 <= fuel)%nat → (∀ l, ¬ sentence text l) →
  ∃ msg, parsecmd fuel s st = Panic msg.
Proof.
  intros Hs H0 Hok Hf Hno. destruct (tokens_of text) as [ts Hlay]; [by eapply cstr_bytes|].
  pose proof (acts_parsecmd fuel s text st ts Hs H0 Hok Hlay Hf) as H. unfold acts in H.
  destruct (parsecmd fuel s st) as [p st'|msg| | |]; [|by exists msg|done..]. exfalso.
  destruct H as (l & El & _). destruct (parse_sound fuel) as (Hsnd & _). destruct (Hsnd _ _ _ El) as [Ets Hl].
  rewrite app_nil_r in Ets. apply (Hno l). split; [done|by rewrite <-Ets].
Qed.

(** ** Running a command *)

(** A table with three open descriptors. *)
Definition table (i o e : fobj) : fdtable := [Some i; Some o; Some e] ++ replicate 13 None.

Section Wired.
Context (can_open : list Z → Z → bool).

(** The commands that a line starts, with their input and output, in order;
    [n] is the next pipe. *)
Fixpoint wired (t : tree) (i o : fobj) (n : Z) : list (list (list Z) * fobj * fobj) * Z :=
  match t with
  | Exec [] => ([], n)
  | Exec args => ([(args, i, o)], n)
  | Redir t r =>
      let f := OpenFile (redir_word r) (redir_mode r) in
      if can_open (redir_word r) (redir_mode r) then
        if redir_fd r =? 0 then wired t f o n else wired t i f n
      else ([], n)
  | Pipe l r =>
      let '(x, n1) := wired l i (WriteEnd n) (n + 1) in
      let '(y, n2) := wired r (ReadEnd n) o n1 in
      (x ++ y, n2)
  | List l r =>
      let '(x, n1) := wired l i o n in
      let '(y, n2) := wired r i o n1 in
      (x ++ y, n2)
  | Back t => wired t i o n
  end.

Definition started (e : fobj) (x : list (list Z) * fobj * fobj) : list (list Z) * fdtable := (x.1.1, table x.1.2 x.2 e).

(** What running a command leaves: the record of what it started. *)
Definition ran_post (st : shst) (e : fobj) (w : list (list (list Z) * fobj * fobj) * Z) (st' : shst) : Prop :=
  line st' = line st ∧ cmds st' = cmds st ∧ next_cmd st' = next_cmd st ∧ dirs st' = dirs st ∧
  ran st' = ran st ++ (started e <$> w.1) ∧ next_pipe st' = w.2.

Lemma ran_post_app st st1 st2 e x y n1 n2 :
  ran_post st e (x, n1) st1 → ran_post st1 e (y, n2) st2 → ran_post st e (x ++ y, n2) st2.
Proof.
  intros (A1 & A2 & A3 & A4 & A5 & _) (B1 & B2 & B3 & B4 & B5 & B6). unfold ran_post. cbn [fst snd] in *.
  split_and!; [congruence..|by rewrite B5, A5, fmap_app, app_assoc|done].
Qed.

Lemma string_at_cstr len m p w : cstr m p w → (length w < len)%nat → string_at len m p = Some w.
Proof.
  revert p w. induction len as [|len IH]; intros p w Hw Hl; [lia|]. cbn [string_at]. destruct w as [|c w]; cbn [cstr length] in *.
  - by rewrite Hw.
  - destruct Hw as (Hc & H0 & Hw). rewrite Hc. destruct (Z.eqb_spec c 0); [done|]. by rewrite (IH _ w) by (done || lia).
Qed.

Lemma strings_at_args len m argv args :
  (∀ i w, args !! i = Some w → ∃ q, argv !! i = Some q ∧ cstr m q w ∧ 0 < q ∧ (length w < len)%nat) →
  argv !! length args = Some 0 → strings_at len m argv = Some args.
Proof.
  revert argv. induction args as [|w args IH]; intros argv Ha Hend.
  - destruct argv as [|q argv]; [done|]. injection Hend as ->. done.
  - destruct (Ha 0%nat w eq_refl) as (q & Hq & Hw & Hq0 & Hl). destruct argv as [|q' argv]; [done|]. injection Hq as ->.
    cbn [strings_at]. destruct (Z.eqb_spec q 0); [lia|]. rewrite (string_at_cstr len m q w) by done.
    rewrite (IH argv); [done| |done]. intros i w' Hi. apply (Ha (S i) w' Hi).
Qed.

(** Words are shorter than the line. *)
Fixpoint words_below (len : nat) (t : tree) : Prop :=
  match t with
  | Exec args => Forall (λ w, (length w < len)%nat) args
  | Redir t r => (length (redir_word r) < len)%nat ∧ words_below len t
  | Pipe l r | List l r => words_below len l ∧ words_below len r
  | Back t => words_below len t
  end.

Section Run.
Context (len : nat).

Lemma runs_in_child {A} (m : K shst A) st (Q : A → shst → Prop) (P : unit → shst → Prop) :
  runs m st Q →
  (∀ a st', Q a st' → P tt (mkSh (line st) (cmds st) (next_cmd st) (fds st) (next_pipe st') (ran st') (dirs st))) →
  runs (in_child m) st P.
Proof. unfold runs, in_child. destruct (m st); naive_solver. Qed.

(** The state after a child, from the state before it. *)
Lemma ran_post_child st st' e w tab :
  ran_post (set_fds tab st) e w st' →
  ran_post st e w (mkSh (line st) (cmds st) (next_cmd st) (fds st) (next_pipe st') (ran st') (dirs st)).
Proof. intros (_ & _ & _ & _ & H5 & H6). by split_and!. Qed.

(** The system calls on a table with three open descriptors. *)
Lemma reopen fd f i o e st :
  fd = 0 ∨ fd = 1 →
  fd_put f (set_fds (<[Z.to_nat fd := None]> (table i o e)) st) =
    Ok (Some fd) (set_fds (if fd =? 0 then table f o e else table i f e) st).
Proof. by intros [->| ->]. Qed.

(** The table while a pipe is open. *)
Definition piped (i o e : fobj) (n : Z) : fdtable :=
  [Some i; Some o; Some e; Some (ReadEnd n); Some (WriteEnd n)] ++ replicate 11 None.

Lemma open_pipe i o e st :
  fds st = table i o e →
  sys_pipe st = Ok (Some (3, 4)) (set_next_pipe (next_pipe st + 1) (set_fds (piped i o e (next_pipe st)) st)).
Proof. intros Ht. unfold sys_pipe, bind, Prelude.gets, fd_put. rewrite Ht. done. Qed.

Lemma left_table i o e n st (k : K shst fin) :
  fds st = piped i o e n →
  (sys_close 1 ;;; sys_dup 4 ;;; sys_close 3 ;;; sys_close 4 ;;; k) st = k (set_fds (table i (WriteEnd n) e) st).
Proof. intros Ht. unfold sys_close, sys_dup, bind, modify. rewrite Ht. done. Qed.
Lemma right_table i o e n st (k : K shst fin) :
  fds st = piped i o e n →
  (sys_close 0 ;;; sys_dup 3 ;;; sys_close 3 ;;; sys_close 4 ;;; k) st = k (set_fds (table (ReadEnd n) o e) st).
Proof. intros Ht. unfold sys_close, sys_dup, bind, modify. rewrite Ht. done. Qed.

(** A child that runs a command on the table [tab]. *)
Lemma runs_child_cmd (m : K shst fin) st tab e w (P : unit → shst → Prop) :
  runs m (set_fds tab st) (λ _ st', ran_post (set_fds tab st) e w st') →
  (∀ st', ran_post st e w st' → fds st' = fds st → P tt st') → ∀ m', m' st = m (set_fds tab st) → runs (in_child m') st P.
Proof.
  intros Hm HP m' E. eapply (runs_in_child _ _ (λ _ st', ran_post (set_fds tab st) e w st')).
  - unfold runs in *. by rewrite E.
  - intros a st' Hr. apply HP; [|done]. by eapply ran_post_child.
Qed.

Lemma runs_runcmd fuel p t st i o e :
  rep (stored (line st)) (cmds st) p t → words_below len t → fds st = table i o e → (depth t < fuel)%nat →
  runs (runcmd can_open len fuel p) st (λ _ st', ran_post st e (wired t i o (next_pipe st)) st').
Proof.
  intros Hr. remember (cmds st) as h eqn:Eh. remember (line st) as m eqn:Em. revert fuel st i o Eh Em.
  induction Hr as [p argv eargv args Hl Ha H0|p sub file efile r t Hl Hw H0 Hr IH|p l r tl tr Hl H0 Hrl IHl Hrr IHr|
    p l r tl tr Hl H0 Hrl IHl Hrr IHr|p sub t Hl H0 Hr IH];
    intros fuel st i o -> -> Hb Ht Hf; (destruct fuel as [|fuel]; [lia|]); cbn [runcmd depth wired words_below] in *;
    (destruct (Z.eqb_spec p 0) as [|Hp0]; [done|]); kred; rewrite Hl.
  - destruct Ha as (H1 & H2 & H3 & H4 & H5). rewrite (strings_at_args len (line st) argv args); [|intros j w Hj|by apply H5].
    2: { destruct (H4 j w Hj) as (q & e' & ? & _ & [? ?]). exists q. split_and!; [done|done|done|].
         rewrite Forall_lookup in Hb. by apply (Hb j). }
    destruct args as [|w args]; kred.
    + unfold ran_post. cbn [fst snd fmap list_fmap]. by rewrite app_nil_r.
    + unfold ran_post. cbn. by rewrite Ht.
  - destruct Hb as [Hlen Hb]. destruct Hw as [Hw _]. unfold sys_close. kred. rewrite (string_at_cstr len (line st) file (redir_word r)) by done.
    unfold sys_open. kred. destruct (can_open (redir_word r) (redir_mode r)).
    + kred. rewrite Ht. eapply runs_Ok; [apply reopen; destruct r; [by left|by right|by right]|]. cbv beta iota. kred.
      destruct (Z.ltb_spec (redir_fd r) 0); [by destruct r|].
      destruct (redir_fd r =? 0); (eapply runs_mono; [eapply (IH fuel (set_fds _ st)); [done|done|done|done|lia]|done]).
    + kred. simpl. kred. unfold ran_post. cbn. by rewrite app_nil_r.
  - destruct Hb as [Hbl Hbr]. apply runs_bind. eapply runs_Ok; [by apply open_pipe|]. cbv beta iota. set (n := next_pipe st) in *.
    set (st0 := set_next_pipe (n + 1) (set_fds (piped i o e n) st)).
    destruct (wired tl i (WriteEnd n) (n + 1)) as [x n1] eqn:Ex. destruct (wired tr (ReadEnd n) o n1) as [y n2] eqn:Ey. apply runs_bind.
    eapply (runs_child_cmd (runcmd can_open len fuel l) st0 (table i (WriteEnd n) e) e (x, n1)); [|intros st1 Hp1 Hf1|by eapply left_table].
    { rewrite <-Ex. apply (IHl fuel (set_fds (table i (WriteEnd n) e) st0)); [done|done|done|done|lia]. }
    kred. pose proof Hp1 as (Hl1 & Hc1 & _ & _ & _ & Hn1). cbn [snd] in Hn1.
    eapply (runs_child_cmd (runcmd can_open len fuel r) st1 (table (ReadEnd n) o e) e (y, n2)); [|intros st2 Hp2 Hf2|eapply right_table; by rewrite Hf1].
    { rewrite <-Ey, <-Hn1. apply (IHr fuel (set_fds (table (ReadEnd n) o e) st1)); [done|done|done|done|lia]. }
    unfold sys_close. kred. apply (ran_post_app st0 st1 st2 e x y n1 n2) in Hp2; [|done]. exact Hp2.
  - destruct Hb as [Hbl Hbr]. destruct (wired tl i o (next_pipe st)) as [x n1] eqn:Ex. destruct (wired tr i o n1) as [y n2] eqn:Ey. apply runs_bind.
    eapply (runs_child_cmd (runcmd can_open len fuel l) st (fds st) e (x, n1)); [|intros st1 Hp1 Hf1|by destruct st].
    { rewrite <-Ex. apply (IHl fuel (set_fds (fds st) st)); [done|done|done|done|lia]. }
    pose proof Hp1 as (Hl1 & Hc1 & _ & _ & _ & Hn1). cbn [snd] in Hn1.
    eapply runs_mono; [apply (IHr fuel st1 i o); [done|done|done|congruence|lia]|]. intros a st2 Hp2. rewrite Hn1, Ey in Hp2.
    by eapply ran_post_app.
  - apply runs_bind. eapply (runs_child_cmd (runcmd can_open len fuel sub) st (fds st) e (wired t i o (next_pipe st))); [|intros st1 Hp1 Hf1|by destruct st].
    { apply (IH fuel (set_fds (fds st) st)); [done|done|done|done|lia]. }
    by kred.
Qed.
End Run.
End Wired.

(** ** A line of input *)

Definition word_below (len : nat) (t : token) : Prop := match t with TWord w => (length w < len)%nat | _ => True end.

Lemma layout_below ts text : layout ts text → Forall (word_below (S (length text))) ts.
Proof.
  induction 1 as [|sp t ts text Hsp Ht Hg Hl IH]; [done|]. rewrite !length_app. constructor.
  - destruct t as [w| | | | | | | |]; try done. simpl. lia.
  - eapply Forall_impl; [exact IH|]. intros [w| | | | | | | |]; simpl; lia || done.
Qed.

Lemma below_with_redirs len t rs : words_below len t → Forall (word_below len) (redirs_toks rs) → words_below len (with_redirs t rs).
Proof.
  unfold with_redirs. revert t. induction rs as [|r rs IH]; intros t Ht Hrs; [done|].
  change (redirs_toks (r :: rs)) with (redir_toks r ++ redirs_toks rs) in Hrs. apply Forall_app in Hrs as [Hr Hrs].
  simpl. apply IH; [|done]. split; [|done]. by apply Forall_cons in Hr as [_ [Hr _]%Forall_cons].
Qed.

Lemma below_groups len gs :
  Forall (word_below len) (groups_toks gs) →
  Forall (λ w, (length w < len)%nat) (fst <$> gs) ∧ Forall (word_below len) (redirs_toks (concat (snd <$> gs))).
Proof.
  induction gs as [|g gs IH]; [done|]. change (groups_toks (g :: gs)) with (TWord g.1 :: redirs_toks g.2 ++ groups_toks gs).
  intros [Hw [Hr Hgs]%Forall_app]%Forall_cons. destruct (IH Hgs) as [H1 H2]. rewrite !fmap_cons. cbn [concat]. split; [by constructor|].
  unfold redirs_toks in *. rewrite fmap_app, concat_app. by apply Forall_app.
Qed.

Fixpoint below_simple len (c : simple) : Forall (word_below len) (simple_toks c) → words_below len (simple_tree c)
with below_pipe len (p : pipel) : Forall (word_below len) (pipe_toks p) → words_below len (pipe_tree p)
with below_line len (l : sline) : Forall (word_below len) (line_toks l) → words_below len (line_tree l).
Proof.
  - destruct c as [rs gs|l rs]; cbn [simple_toks simple_tree].
    + intros [Hr Hg]%Forall_app. destruct (below_groups len gs Hg) as [H1 H2]. apply below_with_redirs; [done|].
      unfold redirs_toks in *. rewrite fmap_app, concat_app. by apply Forall_app.
    + intros [_ [Hl [_ Hr]%Forall_cons]%Forall_app]%Forall_cons. apply below_with_redirs; [by apply below_line|done].
  - destruct p as [c|c p]; cbn [pipe_toks pipe_tree]; [apply below_simple|].
    intros [Hc [_ Hp]%Forall_cons]%Forall_app. split; [by apply below_simple|by apply below_pipe].
  - assert (Hb : ∀ n t, words_below len t → words_below len (Nat.iter n Back t)) by (intros n t Ht; induction n; done).
    destruct l as [p bg|p bg l]; cbn [line_toks line_tree].
    + intros [Hp _]%Forall_app. by apply Hb, below_pipe.
    + intros [Hp [_ [_ Hl]%Forall_cons]%Forall_app]%Forall_app. split; [by apply Hb, below_pipe|by apply below_line].
Qed.

(** What the shell does with a line: the commands it starts, the directories
    it changes to, the next pipe. *)
Definition is_cd (text : list Z) : Prop := take 3 text = [99; 100; 32].
Definition line_does (can_open : list Z → Z → bool) (i o : fobj) (text : list Z) (n : Z)
    (x : list (list (list Z) * fobj * fobj)) (ds : list (list Z)) (n' : Z) : Prop :=
  (is_cd text ∧ x = [] ∧ ds = [take (length text - 4) (drop 3 text)] ∧ n' = n) ∨
  (¬ is_cd text ∧ ds = [] ∧
    ((∃ l, sentence text l ∧ wired can_open (line_tree l) i o n = (x, n')) ∨ ((∀ l, ¬ sentence text l) ∧ x = [] ∧ n' = n))).

(** The state after it. *)
Definition did (st : shst) (e : fobj) (x : list (list (list Z) * fobj * fobj)) (ds : list (list Z)) (n' : Z) (st' : shst) : Prop :=
  cmds st' = cmds st ∧ next_cmd st' = next_cmd st ∧ fds st' = fds st ∧ dirs st' = dirs st ++ ds ∧
  ran st' = ran st ++ (started e <$> x) ∧ next_pipe st' = n'.

Section Line.
Context (can_open : list Z → Z → bool) (len fuel : nat) (i o e : fobj).

Lemma runs_run_line buf text st :
  cstr (line st) buf text → 0 < buf → store_ok st → fds st = table i o e → (length text < len)%nat → (4 * length text + 8 <= fuel)%nat →
  runs (in_child (p <- parsecmd fuel buf ;;; runcmd can_open len fuel p)) st (λ _ st',
    line st' = line st ∧ ∃ x n', did st e x [] n' st' ∧
    ((∃ l, sentence text l ∧ wired can_open (line_tree l) i o (next_pipe st) = (x, n')) ∨
     ((∀ l, ¬ sentence text l) ∧ x = [] ∧ n' = next_pipe st))).
Proof.
  intros Hs H0 Hok Ht Hlen Hf. destruct (tokens_of text) as [ts Hlay]; [by eapply cstr_bytes|].
  pose proof (acts_parsecmd fuel buf text st ts Hs H0 Hok Hlay Hf) as Hp. unfold acts in Hp.
  unfold runs, in_child, bind. destruct (parsecmd fuel buf st) as [p st1|msg| | |] eqn:Ep; [| |done..].
  - destruct Hp as (l & El & Hrep & E1 & E2 & E3 & E4). destruct (parse_sound fuel) as (Hsnd & _). destruct (Hsnd _ _ _ El) as [Ets Hl].
    rewrite app_nil_r in Ets. subst ts.
    assert (Hrun : runs (runcmd can_open len fuel p) st1 (λ _ st', ran_post st1 e (wired can_open (line_tree l) i o (next_pipe st1)) st')).
    { apply runs_runcmd; [done| |congruence|].
      - apply below_line. eapply Forall_impl; [by apply layout_below|]. intros [w| | | | | | | |]; simpl; lia || done.
      - pose proof (depth_line l). pose proof (layout_length _ _ Hlay). lia. }
    unfold runs in Hrun. destruct (runcmd can_open len fuel p st1) as [a st2| | | |]; try done.
    destruct Hrun as (_ & _ & _ & _ & Hran & Hnp). rewrite E2 in *. rewrite E3 in Hran.
    destruct (wired can_open (line_tree l) i o (next_pipe st)) as [x n'] eqn:Ew. cbn [line]. split; [done|]. exists x, n'. split.
    + unfold did. cbn [cmds next_cmd fds dirs ran next_pipe]. by rewrite app_nil_r.
    + left. exists l. by split.
  - split; [done|]. exists [], (next_pipe st). split; [unfold did; cbn [fmap list_fmap]; by rewrite !app_nil_r|]. right. split; [|done].
    intros l [Hok' Hl']. destruct (runs_elim _ _ _ (runs_parsecmd fuel buf text st l Hs H0 Hok Hf (conj Hok' Hl'))) as (p & st' & E & _). congruence.
Qed.

Lemma cstr_drop m s l k : cstr m s l → (k <= length l)%nat → cstr m (s + Z.of_nat k) (drop k l).
Proof.
  revert s k. induction l as [|c l IH]; intros s [|k] Hs Hk; cbn [drop length] in *; try lia; try (by rewrite Z.add_0_r).
  destruct Hs as (_ & _ & Hs). replace (s + Z.of_nat (S k)) with (s + 1 + Z.of_nat k) by lia. apply IH; [done|lia].
Qed.

Lemma cstr_cut m s l k : cstr m s l → (k < length l)%nat → cstr (wr8 m (s + Z.of_nat k) 0) s (take k l).
Proof.
  revert s k. induction l as [|c l IH]; intros s [|k] Hs Hk; cbn [take length cstr] in *; try lia.
  - rewrite Z.add_0_r. by rewrite rd8_wr8, decide_True.
  - destruct Hs as (Hc & H0 & Hs). split_and!; [by rewrite rd8_wr8, decide_False by lia|done|].
    replace (s + Z.of_nat (S k)) with (s + 1 + Z.of_nat k) by lia. apply IH; [done|lia].
Qed.

Lemma cd_test m buf text :
  cstr m buf text → (rd8 m buf =? 99) && (rd8 m (buf + 1) =? 100) && (rd8 m (buf + 2) =? 32) = true ↔ is_cd text.
Proof.
  unfold is_cd. replace (buf + 2) with (buf + 1 + 1) by lia. intros Hs. rewrite !andb_true_iff, !Z.eqb_eq.
  destruct text as [|a text]; cbn [cstr] in Hs; [rewrite Hs; naive_solver|]. destruct Hs as (-> & _ & Hs).
  destruct text as [|b text]; cbn [cstr] in Hs; [rewrite Hs; naive_solver|]. destruct Hs as (-> & _ & Hs).
  destruct text as [|c text]; cbn [cstr] in Hs; [rewrite Hs; naive_solver|]. destruct Hs as (-> & _ & Hs).
  cbn [take]. rewrite take_0. naive_solver.
Qed.

Lemma runs_do_line buf text st :
  cstr (line st) buf text → 0 < buf → store_ok st → fds st = table i o e → (length text < len)%nat → (4 * length text + 8 <= fuel)%nat →
  runs (do_line can_open len fuel buf) st (λ _ st', ∃ x ds n', did st e x ds n' st' ∧ line_does can_open i o text (next_pipe st) x ds n').
Proof.
  intros Hs H0 Hok Ht Hlen Hf. unfold do_line. kred. pose proof (cd_test _ _ _ Hs) as Hcd. destruct (_ && _ && _).
  - assert (Hc : is_cd text) by by apply Hcd. clear Hcd. assert (Hl3 : (3 <= length text)%nat).
    { apply (f_equal length) in Hc. rewrite length_take in Hc. cbn [length] in Hc. lia. }
    rewrite (strlen_cstr _ _ text) by (done || lia). unfold store_nul. kred.
    assert (Hd : cstr (wr8 (line st) (buf + zlen text - 1) 0) (buf + 3) (take (length text - 4) (drop 3 text))).
    { destruct (decide (length text = 3)%nat) as [E|].
      - replace (length text - 4)%nat with 0%nat by lia. rewrite take_0. cbn [cstr]. rewrite rd8_wr8, decide_False by lia.
        rewrite <-(cstr_app_inv _ _ _ Hs). f_equal. lia.
      - replace (buf + zlen text - 1) with (buf + 3 + Z.of_nat (length text - 4)) by lia.
        apply cstr_cut; [|rewrite length_drop; lia]. by apply (cstr_drop _ _ _ 3). }
    cbn [line set_line]. rewrite (string_at_cstr len _ _ _ Hd) by (rewrite length_take, length_drop; lia). kred.
    exists [], [take (length text - 4) (drop 3 text)], (next_pipe st). split.
    + unfold did. cbn. by rewrite app_nil_r.
    + left. by split_and!.
  - assert (Hc : ¬ is_cd text) by (intros H; by apply Hcd in H). eapply runs_mono; [by apply runs_run_line|].
    intros u st' (_ & x & n' & Hd & Hx). exists x, [], n'. split; [done|]. right. by split_and!.
Qed.
End Line.

(** ** A session *)

(** A line of input: it ends with a newline, fits the buffer and has no other
    end of line and no NUL in it. *)
Definition input_line (t : list Z) : Prop :=
  ∃ body, t = body ++ [10] ∧ Forall (λ c, 0 < c < 256 ∧ ¬ eol c) body ∧ zlen t < sizeof_line.

Inductive session (can_open : list Z → Z → bool) (i o : fobj) :
    list (list Z) → Z → list (list (list Z) * fobj * fobj) → list (list Z) → Z → Prop :=
| session_nil n : session can_open i o [] n [] [] n
| session_line t ts n x ds n1 xs dss n2 :
    line_does can_open i o t n x ds n1 → session can_open i o ts n1 xs dss n2 →
    session can_open i o (t :: ts) n (x ++ xs) (ds ++ dss) n2.

Lemma input_line_bytes t : input_line t → Forall (λ c, 0 <= c < 256) t ∧ Forall (λ c, c ≠ 0) t ∧ t ≠ [].
Proof.
  intros (body & -> & Hb & _). split_and!; [| |by destruct body]; apply Forall_app; (split; [|by repeat constructor]);
    (eapply Forall_impl; [exact Hb|]); simpl; lia.
Qed.

(** gets returns the line. *)
Lemma one_line_is n t rest l r :
  input_line t → (length t <= n)%nat → one_line n (t ++ rest) l r → l = t ∧ r = rest.
Proof.
  intros (body & -> & Hb & _) Hn (E & Hl & Hin & Hend). rewrite length_app in Hn. cbn [length] in Hn. rewrite <-app_assoc in E. cbn [app] in E.
  destruct (decide (length l <= length body)%nat) as [Hle|Hgt].
  - exfalso. assert (Hp : l = take (length l) body).
    { apply (f_equal (take (length l))) in E. rewrite take_app_length, take_app_le in E by lia. done. }
    destruct Hend as [->|[Hend|(c & Hc & He)]].
    + apply (f_equal length) in E. rewrite !length_app in E. simpl in E. lia.
    + lia.
    + apply last_Some in Hc as [l' ->]. assert (Hc : c ∈ body).
      { rewrite <-(take_drop (length (l' ++ [c])) body), elem_of_app, <-Hp. left. set_solver. }
      rewrite Forall_forall in Hb. by apply (Hb c Hc).
  - assert (H10 : l !! length body = Some 10).
    { assert (H : (l ++ r) !! length body = Some 10) by (rewrite <-E; by rewrite lookup_app_r, Nat.sub_diag by lia).
      rewrite lookup_app_l in H by lia. done. }
    pose proof (Hin _ _ H10 ltac:(by left)) as Hlen.
    assert (Hx : l = body ++ [10] ∧ r = rest); [|done].
    apply app_inj_1; [rewrite length_app; simpl; lia|]. rewrite <-E, <-app_assoc. done.
Qed.

Lemma bytes_to_cstr m s l : rd_bytes m s (length l) = l → rd8 m (s + zlen l) = 0 → Forall (λ c, c ≠ 0) l → cstr m s l.
Proof.
  revert s. induction l as [|c l IH]; intros s; cbn [length rd_bytes cstr]; [by rewrite Z.add_0_r|].
  intros [= Hc Hl] Hz [H0 Hnz]%Forall_cons. split_and!; [done|done|]. apply IH; [done| |done]. rewrite <-Hz. f_equal. lia.
Qed.

Section Session.
Context (can_open : list Z → Z → bool) (len fuel : nat) (i o e : fobj) (buf : Z).
Hypothesis (Hbuf : 0 < buf) (Hlen : (100 <= len)%nat) (Hfuel : (404 <= fuel)%nat).

Lemma runs_getcmd st t rest :
  input_line t → Forall (λ c, 0 <= c < 256) rest →
  runs (getcmd buf sizeof_line (t ++ rest)) st (λ r st', r = Some rest ∧ st' = set_line (line st') st ∧ cstr (line st') buf t).
Proof.
  intros Ht Hr. destruct (input_line_bytes t Ht) as (Hb & Hnz & Hne). unfold runs, getcmd.
  destruct (gets_line (Ulib.memset (line st) buf 0 sizeof_line) buf sizeof_line (t ++ rest)) as (l & r & m' & -> & Hone & Hrd & Hz & _);
    [done|by apply Forall_app|].
  assert (Hlt : zlen t < sizeof_line) by (destruct Ht as (? & _ & _ & ?); done). unfold sizeof_line in *.
  destruct (one_line_is (Z.to_nat (100 - 1)) _ _ _ _ Ht ltac:(lia) Hone) as [-> ->].
  assert (Hc : cstr m' buf t) by by apply bytes_to_cstr. split_and!; [|done|done].
  destruct t as [|c t]; [done|]. destruct Hc as (-> & Hc0 & _). by destruct (Z.eqb_spec c 0).
Qed.

Lemma runs_getcmd_end st : runs (getcmd buf sizeof_line []) st (λ r st', r = None ∧ st' = set_line (line st') st).
Proof.
  unfold runs, getcmd.
  destruct (gets_line (Ulib.memset (line st) buf 0 sizeof_line) buf sizeof_line []) as (l & r & m' & -> & (E & _) & _ & Hz & _);
    [done|done|].
  destruct l as [|c l]; [|done]. rewrite Z.add_0_r in Hz. by rewrite Hz.
Qed.

Lemma runs_main_loop lines st n :
  Forall input_line lines → store_ok st → fds st = table i o e → (length (concat lines) < n)%nat →
  runs (iter n (λ input,
    r <- getcmd buf sizeof_line input ;;;
    match r with
    | None => ret (inr tt)
    | Some input => do_line can_open len fuel buf ;;; ret (inl input)
    end) (concat lines)) st (λ _ st', ∃ xs dss n', session can_open i o lines (next_pipe st) xs dss n' ∧ did st e xs dss n' st').
Proof.
  intros Hls. revert st n. induction Hls as [|t ts Ht Hts IH]; intros st n Hok Hfd Hn; (destruct n as [|n]; [lia|]); cbn [iter concat].
  - apply runs_bind, runs_bind. eapply runs_mono; [apply runs_getcmd_end|]. intros r st' [-> ->]. kred.
    exists [], [], (next_pipe st). split; [constructor|]. unfold did. cbn. by rewrite !app_nil_r.
  - assert (Hbytes : Forall (λ c, 0 <= c < 256) (concat ts)).
    { apply Forall_concat. eapply Forall_impl; [exact Hts|]. intros x Hx. by apply input_line_bytes. }
    apply runs_bind, runs_bind. eapply runs_mono; [by apply runs_getcmd|]. intros r st1 (-> & E1 & Hc). kred.
    assert (Hlt : zlen t < sizeof_line) by (destruct Ht as (? & _ & _ & ?); done). unfold sizeof_line in Hlt.
    destruct (input_line_bytes t Ht) as (_ & _ & Hne). cbn [concat] in Hn. rewrite length_app in Hn.
    eapply runs_mono; [apply (runs_do_line can_open len fuel i o e buf t st1); [done|done|by rewrite E1|by rewrite E1|lia|lia]|].
    intros u st2 (x & ds & n1 & Hd & Hdoes). kred. pose proof Hd as (D1 & D2 & D3 & D4 & D5 & D6). rewrite E1 in D1, D2, D3, D4, D5, Hdoes. cbn in D1, D2, D3, D4, D5, Hdoes.
    eapply runs_mono; [apply IH; [unfold store_ok; by rewrite D1, D2|by rewrite D3|destruct t; [done|simpl in Hn; lia]]|].
    intros v st3 (xs & dss & n2 & Hs & (F1 & F2 & F3 & F4 & F5 & F6)). exists (x ++ xs), (ds ++ dss), n2. split.
    + eapply session_line; [done|by rewrite <-D6].
    + unfold did. rewrite fmap_app. split_and!; [congruence|congruence|congruence|by rewrite F4, D4, app_assoc|by rewrite F5, D5, app_assoc|done].
Qed.

Lemma runs_open_console st : fds st = table i o e → runs (open_console can_open) st (λ _ st', st' = st).
Proof.
  intros Ht. unfold open_console. cbn [iter]. apply runs_bind, runs_bind. unfold sys_open at 1.
  destruct (can_open console_name O_RDWR).
  - apply runs_bind. unfold runs at 1, fd_put. rewrite Ht. cbn. unfold runs. cbn. destruct st; simpl in *; by subst.
  - kred. done.
Qed.
End Session.

(** ** Properties *)

(** [C17] The shell's parser accepts exactly its grammar.  For every line, as
    the bytes at [buf] up to a NUL, parsecmd returns: if the line is a sentence
    of the grammar, in any layout, the result represents the command that the
    sentence stands for, every word of it a NUL-terminated string; otherwise
    it panics with a message.  It never runs off the line or the arrays of
    arguments, and four calls per character are enough. *)
Theorem parsecmd_grammar (fuel : nat) (buf : Z) (text : list Z) (st : shst) :
  cstr (line st) buf text → 0 < buf → store_ok st → (4 * length text + 8 <= fuel)%nat →
  (∀ l, sentence text l → runs (parsecmd fuel buf) st (λ p st',
     rep (stored (line st')) (cmds st') p (line_tree l) ∧
     fds st' = fds st ∧ next_pipe st' = next_pipe st ∧ ran st' = ran st ∧ dirs st' = dirs st)) ∧
  ((∀ l, ¬ sentence text l) → ∃ msg, parsecmd fuel buf st = Panic msg) ∧
  ((∃ l, sentence text l) ∨ (∀ l, ¬ sentence text l)).
Proof.
  intros Hs H0 Hok Hf. split_and!.
  - intros l Hl. by apply (runs_parsecmd fuel buf text st l).
  - intros Hno. by apply (panics_parsecmd fuel buf text st).
  - destruct (tokens_of text) as [ts Hlay]; [by eapply cstr_bytes|].
    destruct (pline fuel ts) as [[l [|t ts']]|] eqn:E.
    + left. exists l. destruct (parse_sound fuel) as (Hsnd & _). destruct (Hsnd _ _ _ E) as [Ets Hl].
      rewrite app_nil_r in Ets. split; [done|by rewrite <-Ets].
    + right. intros l' Hl'. destruct (runs_elim _ _ _ (runs_parsecmd fuel buf text st l' Hs H0 Hok Hf Hl')) as (p & st' & Ep & _).
      pose proof (acts_parsecmd fuel buf text st ts Hs H0 Hok Hlay Hf) as H. unfold acts in H. rewrite Ep in H. destruct H as (? & ? & _). congruence.
    + right. intros l' Hl'. destruct (runs_elim _ _ _ (runs_parsecmd fuel buf text st l' Hs H0 Hok Hf Hl')) as (p & st' & Ep & _).
      pose proof (acts_parsecmd fuel buf text st ts Hs H0 Hok Hlay Hf) as H. unfold acts in H. rewrite Ep in H. destruct H as (? & ? & _). congruence.
Qed.

(** The line (a|b) in memory. *)
Definition demo_text : list Z := [40; 97; 124; 98; 41].
Definition demo_shell : shst :=
  mkSh (list_to_map [(8, 40); (9, 97); (10, 124); (11, 98); (12, 41)]) ∅ 1
    (table (Inherited 0) (Inherited 1) (Inherited 2)) 0 [] [].
Definition demo_line : sline :=
  LOne (POne (SBlock (LOne (PMore (SWords [] [([97], [])]) (POne (SWords [] [([98], [])]))) 0) [])) 0.

Lemma demo_sentence : sentence demo_text demo_line.
Proof.
  split; [done|]. unfold demo_text, demo_line. cbn.
  assert (Hw : ∀ c, wordc c = true ∧ c ≠ 0 → tok_ok (TWord [c])) by (intros c Hc; split; [done|by apply Forall_singleton]).
  apply (lay_tok [] TOpen _ [97; 124; 98; 41]); [done|done|done|].
  apply (lay_tok [] (TWord [97]) _ [124; 98; 41]); [done|by apply Hw|done|].
  apply (lay_tok [] TBar _ [98; 41]); [done|done|done|].
  apply (lay_tok [] (TWord [98]) _ [41]); [done|by apply Hw|done|].
  apply (lay_tok [] TClose _ []); [done|done|done|]. by constructor.
Qed.

Lemma demo_store : store_ok demo_shell.
Proof. split; [reflexivity|]. intros p c H. change ((∅ : gmap Z cmd) !! p = Some c) in H. by rewrite lookup_empty in H. Qed.

Lemma parsecmd_grammar_witness : runs (parsecmd 40 8) demo_shell (λ p st',
  rep (stored (line st')) (cmds st') p (Pipe (Exec [[97]]) (Exec [[98]])) ∧
  fds st' = fds demo_shell ∧ next_pipe st' = next_pipe demo_shell ∧ ran st' = ran demo_shell ∧ dirs st' = dirs demo_shell).
Proof.
  assert (Hc : cstr (line demo_shell) 8 demo_text) by (split_and!; done).
  exact (proj1 (parsecmd_grammar 40 8 demo_text demo_shell Hc eq_refl demo_store ltac:(simpl; lia)) demo_line demo_sentence).
Defined.

(** [C18] A session of the shell.  For an input of lines that fit the buffer,
    main returns after doing each line in turn: a line that starts with cd
    changes the directory; a sentence starts the commands it stands for, and
    any other line starts nothing.  Every command is started with its words
    as arguments and with exactly three open descriptors: its input and
    output are the ones of the shell, the files of its redirections, or the
    two ends of the pipe between it and its neighbour.  No command holds an
    end of a pipe that it does not read or write, and the shell keeps its own
    descriptors. *)
Theorem shell_session (can_open : list Z → Z → bool) (len fuel : nat) (i o e : fobj) (buf : Z) (lines : list (list Z)) (st : shst) :
  0 < buf → (100 <= len)%nat → (404 <= fuel)%nat → store_ok st → fds st = table i o e → Forall input_line lines →
  runs (main can_open len fuel buf (concat lines)) st (λ r st', r = Exited 0 ∧
    ∃ xs dss n', session can_open i o lines (next_pipe st) xs dss n' ∧
      ran st' = ran st ++ (started e <$> xs) ∧ dirs st' = dirs st ++ dss ∧ fds st' = fds st).
Proof.
  intros Hbuf Hlen Hfuel Hok Hfd Hls. unfold main. apply runs_bind.
  eapply runs_mono; [by apply (runs_open_console can_open i o e)|]. intros u st1 ->. apply runs_bind. unfold main_loop.
  eapply runs_mono; [apply (runs_main_loop can_open len fuel i o e buf Hbuf Hlen Hfuel lines st); [done|done|done|lia]|].
  intros v st' (xs & dss & n' & Hs & (_ & _ & D3 & D4 & D5 & _)). kred. split; [done|]. exists xs, dss, n'. by split_and!.
Qed.

Lemma shell_session_witness : runs (main (λ _ _, false) 100 404 8 (concat [demo_text ++ [10]])) demo_shell (λ r st', r = Exited 0 ∧
  ∃ xs dss n', session (λ _ _, false) (Inherited 0) (Inherited 1) [demo_text ++ [10]] 0 xs dss n' ∧
    ran st' = [] ++ (started (Inherited 2) <$> xs) ∧ dirs st' = [] ++ dss ∧ fds st' = fds demo_shell).
Proof.
  apply (shell_session (λ _ _, false) 100 404 (Inherited 0) (Inherited 1) (Inherited 2) 8 [demo_text ++ [10]] demo_shell);
    [done|lia|lia|exact demo_store|done|].
  constructor; [|constructor]. exists demo_text. split; [done|]. split; [|done]. unfold eol. repeat constructor; lia.
Defined.
