(* ===== verification/Syscall.v ===== *)
(** kernel/syscall.c, the audit calls of kernel/proc.c and kernel/sysproc.c,
    and kernel/audit_source.c: system call dispatch and the audit log.

    [syscall] runs one handler of the table and then records the call in the
    audit buffer.  The table is an argument: the handlers work on the state
    [sst W], whose field [world] is the rest of the kernel.  Reading or writing
    an array outside its bounds is undefined behaviour ([UB]).  The file that
    write_to_logs opens is the argument [open_log]; the bytes it hands to
    kfilewrite are recorded in [logged].  Debugging output is left out. *)

From Stdlib Require Strings.Byte Strings.String.
From S2P Require Import Prelude Riscv.
Local Open Scope kernel_scope.

(** ** Numbers and names *)

Definition SYS_fork : Z := 1.
Definition SYS_read : Z := 5.
Definition SYS_fstat : Z := 8.
Definition SYS_dup : Z := 10.
Definition SYS_open : Z := 15.
Definition SYS_write : Z := 16.
Definition SYS_close : Z := 21.
Definition SYS_audit : Z := 22.
Definition SYS_check : Z := 23.
Definition NSYSCALLS : Z := 24.
Definition NUM_SYS_CALLS : Z := 21.
Definition BUFF_SIZE : Z := 2048.

(** The bytes of a string literal. *)
Definition str (s : string) : list Z := (λ b, Z.of_N (Strings.Byte.to_N b)) <$> String.list_byte_of_string s.

Definition name_from_num : list (list Z) := str <$>
  ["unknown"; "fork"; "exit"; "wait"; "pipe"; "read"; "kill"; "exec"; "fstat"; "chdir"; "dup"; "getpid";
   "sbrk"; "sleep"; "uptime"; "open"; "write"; "mknod"; "unlink"; "link"; "mkdir"; "close"; "audit"]%string.

(** ** State *)

(** The arguments and the number of a system call (struct trapframe). *)
Record trapframe := mkTf { a0 : Z; a1 : Z; a2 : Z; a3 : Z; a4 : Z; a5 : Z; a7 : Z }.

(** The fields of an open file (struct file) that the audit code reads. *)
Record fperm := mkPerm { readable : bool; writable : bool }.

Record sst (W : Type) := mkS {
  (* the current process *)
  tf : trapframe; pid : Z; pname : list Z; ofile : list (option nat);
  (* the open files that [ofile] points to *)
  files : list fperm;
  (* syscall.c *)
  whitelisted : list Z; prev_tickss : Z; buff : list Z; offset : Z;
  (* audit_source.c *)
  opened : bool; logf : Z; logged : list (list Z);
  (* trap.c *)
  ticks : Z;
  world : W
}.
Arguments mkS {W}. Arguments tf {W}. Arguments pid {W}. Arguments pname {W}. Arguments ofile {W}.
Arguments files {W}. Arguments whitelisted {W}. Arguments prev_tickss {W}. Arguments buff {W}. Arguments offset {W}.
Arguments opened {W}. Arguments logf {W}. Arguments logged {W}. Arguments ticks {W}. Arguments world {W}.

Section Syscall.
Context {W : Type}.
Abbreviation st := (sst W).

Definition set_a0 (v : Z) (s : st) : st :=
  mkS (mkTf v (a1 (tf s)) (a2 (tf s)) (a3 (tf s)) (a4 (tf s)) (a5 (tf s)) (a7 (tf s)))
    (pid s) (pname s) (ofile s) (files s) (whitelisted s) (prev_tickss s) (buff s) (offset s)
    (opened s) (logf s) (logged s) (ticks s) (world s).
Definition set_whitelisted (w : list Z) (s : st) : st :=
  mkS (tf s) (pid s) (pname s) (ofile s) (files s) w (prev_tickss s) (buff s) (offset s)
    (opened s) (logf s) (logged s) (ticks s) (world s).
Definition set_audit (p : Z) (b : list Z) (o : Z) (s : st) : st :=
  mkS (tf s) (pid s) (pname s) (ofile s) (files s) (whitelisted s) p b o
    (opened s) (logf s) (logged s) (ticks s) (world s).
Definition set_log (op : bool) (f : Z) (l : list (list Z)) (s : st) : st :=
  mkS (tf s) (pid s) (pname s) (ofile s) (files s) (whitelisted s) (prev_tickss s) (buff s) (offset s)
    op f l (ticks s) (world s).

(** ** Arguments *)

Definition argraw (n : Z) : K st Z :=
  t <- gets tf ;;;
  if n =? 0 then ret (a0 t)
  else if n =? 1 then ret (a1 t)
  else if n =? 2 then ret (a2 t)
  else if n =? 3 then ret (a3 t)
  else if n =? 4 then ret (a4 t)
  else if n =? 5 then ret (a5 t)
  else panic "argraw".

Definition argint (n : Z) : K st Z := v <- argraw n ;;; ret (s32 v).
Definition argaddr (n : Z) : K st Z := argraw n.

(** The descriptor and its file, [None] for the error return -1. *)
Definition argfd (n : Z) : K st (option (Z * nat)) :=
  fd <- argint n ;;;
  if (fd <? 0) || (fd >=? NOFILE) then ret None
  else
    fs <- gets ofile ;;;
    match mjoin (fs !! Z.to_nat fd) with
    | None => ret None
    | Some f => ret (Some (fd, f))
    end.

(** ** The audit calls *)

(** audit of proc.c and sys_audit. *)
Definition audit (num : Z) : Z := Z.shiftr (u32 num) 10.
Definition sys_audit : K st Z := n <- argint 0 ;;; ret (audit n).

(** [whitelisted[i] = v] *)
Definition wl_write (i v : Z) : K st unit := λ s,
  if (0 <=? i) && (i <? NUM_SYS_CALLS)
  then Ok tt (set_whitelisted (<[Z.to_nat i := v]> (whitelisted s)) s)
  else UB "whitelisted: index out of bounds".

(** [whitelisted[i]] *)
Definition wl_read (i : Z) : K st Z := λ s,
  if (0 <=? i) && (i <? NUM_SYS_CALLS)
  then Ok (whitelisted s !!! Z.to_nat i) s
  else UB "whitelisted: index out of bounds".

(** The loop that follows an audit call. *)
Definition parse_whitelist (audit_num : Z) : K st unit :=
  iter (S (Z.to_nat NUM_SYS_CALLS)) (λ '(i, audit_num),
    if i <? NUM_SYS_CALLS then
      wl_write i 0 ;;;
      (if negb (Z.land audit_num 1 =? 0) then wl_write (NUM_SYS_CALLS - i) 1 else ret tt) ;;;
      ret (inl (i + 1, Z.shiftr audit_num 1))
    else ret (inr tt)) (0, audit_num).

(** int_to_char of audit_source.c: the bytes it stores in its buffer.  C
    division truncates, and the second loop stores the last digit [len]
    times. *)
Fixpoint int_len (fuel : nat) (temp : Z) : nat :=
  match fuel with
  | O => 0
  | S fuel' => let temp := Z.quot temp 10 in S (if temp >? 0 then int_len fuel' temp else 0)
  end.
Definition int_to_char (num : Z) : list Z := replicate (int_len 11 num) (u8 (Z.rem num 10 + 48)).

(** ** The audit buffer *)

(** [buff[i] = v] *)
Definition buff_write (i v : Z) : K st unit := λ s,
  if (0 <=? i) && (i <? BUFF_SIZE)
  then Ok tt (set_audit (prev_tickss s) (<[Z.to_nat i := u8 v]> (buff s)) (offset s) s)
  else UB "buff: index out of bounds".

(** [strncpy(buff + o, l, strlen(l))]: the bytes of [l], without a NUL. *)
Fixpoint buff_copy (o : Z) (l : list Z) : K st unit :=
  match l with
  | [] => ret tt
  | c :: l' => buff_write o c ;;; buff_copy (o + 1) l'
  end.

(** [offset += k] *)
Definition advance (k : Z) : K st unit :=
  modify (λ s, set_audit (prev_tickss s) (buff s) (offset s + k) s).
Definition put (v : Z) : K st unit := o <- gets offset ;;; buff_write o v ;;; advance 1.

Definition call_name (num : Z) : K st (list Z) := λ s,
  match name_from_num !! Z.to_nat num with
  | Some n => Ok n s
  | None => UB "name_from_num: index out of bounds"
  end.

(** The C string that starts at [buff]: up to the first NUL. *)
Fixpoint cstring (l : list Z) : option (list Z) :=
  match l with
  | [] => None
  | c :: l' => if c =? 0 then Some [] else (c ::.) <$> cstring l'
  end.

Section Log.
(** What open("/AuditLogs.txt", O_CREATE) returns. *)
Context (open_log : Z).

Definition write_to_logs : K st unit :=
  op <- gets opened ;;;
  (if negb op then modify (λ s, set_log true open_log (logged s) s) else ret tt) ;;;
  f <- gets logf ;;;
  if f =? -1 then panic "ERROR FILE"
  else if f =? 0 then panic "No File"
  else
    b <- gets buff ;;;
    match cstring b with
    | None => ub "strlen: no terminating NUL"
    | Some text => modify (λ s, set_log (opened s) (logf s) (logged s ++ [text]) s)
    end.

(** The file a descriptor points to. *)
Definition file_perm (f : nat) : K st fperm := λ s,
  match files s !! f with Some p => Ok p s | None => UB "struct file: bad pointer" end.

(** The record of a call that used the file [f], or none. *)
Definition log_call (num : Z) (f : option nat) : K st unit :=
  name <- gets pname ;;;
  nm <- call_name num ;;;
  match f with
  | Some f =>
      f <- file_perm f ;;;
      (o <- gets offset ;;; buff_copy o name) ;;; advance (zlen name) ;;;
      put 9 ;;;
      (o <- gets offset ;;; buff_copy o nm) ;;; advance (zlen nm) ;;;
      put 9 ;;;
      put (if readable f then 49 else 48) ;;;
      (o <- gets offset ;;; buff_write o 9 ;;; buff_write (o + 1) (if writable f then 49 else 48)) ;;;
      advance 2 ;;;
      put 10
  | None =>
      (o <- gets offset ;;; buff_copy o name) ;;; advance (zlen name) ;;;
      put 9 ;;;
      (o <- gets offset ;;; buff_copy o nm) ;;; advance (zlen name) ;;;
      put 10
  end.

(** What follows the handler: the whitelist and the record. *)
Definition audit_call (num : Z) (f : option nat) : K st unit :=
  (if num =? SYS_audit then
     a <- gets (λ s, u32 (a0 (tf s))) ;;; parse_whitelist a
   else ret tt) ;;;
  w <- wl_read (num - 1) ;;;
  if negb (w =? 0) || (num =? SYS_audit) then
    (t <- gets ticks ;;; p <- gets prev_tickss ;;;
     if u32 (t - p) >? 100 then
       write_to_logs ;;;
       modify (λ s, set_audit (s32 (ticks s)) (buff s) 0 s) ;;;
       buff_write 0 0
     else ret tt) ;;;
    log_call num f
  else ret tt.

(** The table [syscalls]; [None] for an empty slot. *)
Context (syscalls : Z → option (K st Z)).

Definition uses_fd (num : Z) : bool :=
  (num =? SYS_read) || (num =? SYS_fstat) || (num =? SYS_dup) ||
  (num =? SYS_open) || (num =? SYS_write) || (num =? SYS_close).

Definition syscall : K st unit :=
  num <- gets (λ s, s32 (a7 (tf s))) ;;;
  match (if (num >? 0) && (num <? NSYSCALLS) then syscalls num else None) with
  | Some handler =>
      f <- (if uses_fd num then r <- argfd 0 ;;; ret (snd <$> r) else ret None) ;;;
      r <- handler ;;;
      modify (set_a0 (u64 r)) ;;;
      audit_call num f
  | None => modify (set_a0 (u64 (-1)))
  end.
End Log.
End Syscall.
