(* ===== verification/SyscallSpec.v ===== *)
(** Correctness of system call dispatch and of the audit log (definitions in
    Syscall.v). *)

From S2P Require Import Prelude Riscv Syscall.
Local Open Scope kernel_scope.

Section Whitelist.
Context {W : Type}.
Abbreviation st := (sst W).

(** ** The whitelist *)

Lemma runs_wl_write i v (s : st) Q :
  0 <= i < NUM_SYS_CALLS →
  Q tt (set_whitelisted (<[Z.to_nat i := v]> (whitelisted s)) s) → runs (wl_write i v) s Q.
Proof.
  intros Hi HQ. unfold runs, wl_write. destruct (Z.leb_spec 0 i), (Z.ltb_spec i NUM_SYS_CALLS); try lia. done.
Qed.

(** Entry [j] after the first [i] rounds of the loop over the bits of [a]. *)
Definition wl_entry (a i j old : Z) : Z :=
  if decide (j < i) then (if decide (21 - j < i ∧ j < 21 - j) then Z.b2z (Z.testbit a (21 - j)) else 0)
  else if decide (21 - j < i) then (if Z.testbit a (21 - j) then 1 else old) else old.

Definition wl_after (a i : Z) (w w' : list Z) : Prop :=
  length w' = 21%nat ∧ ∀ j old, 0 <= j < 21 → w !! Z.to_nat j = Some old →
    w' !! Z.to_nat j = Some (wl_entry a i j old).

Lemma bit0_shift a i : 0 <= i → negb (Z.land (Z.shiftr a i) 1 =? 0) = Z.testbit a i.
Proof.
  intros Hi. rewrite <-(Z.add_0_l i) at 2. rewrite <-Z.shiftr_spec by lia.
  generalize (Z.shiftr a i). intros b. rewrite (Z.land_ones b 1 ltac:(lia) : Z.land b 1 = b mod 2 ^ 1).
  change (2 ^ 1) with 2. rewrite <-Z.bit0_mod. by destruct (Z.testbit b 0).
Qed.

Lemma wl_after_step a i w w1 :
  0 <= i < 21 → (i = 0 → Z.testbit a 0 = false) → length w = 21%nat → wl_after a i w w1 →
  wl_after a (i + 1) w
    (if Z.testbit a i then <[Z.to_nat (21 - i) := 1]> (<[Z.to_nat i := 0]> w1) else <[Z.to_nat i := 0]> w1).
Proof.
  intros Hi H0 Hlen [Hl Hw]. split; [by destruct (Z.testbit a i); rewrite ?length_insert|].
  intros j old Hj Hold. specialize (Hw j old Hj Hold). unfold wl_entry in *.
  assert (Hins : <[Z.to_nat i := 0]> w1 !! Z.to_nat j =
    Some (if decide (j = i) then 0 else wl_entry a i j old)).
  { destruct (decide (j = i)) as [->|Hne].
    - apply list_lookup_insert_eq. lia.
    - rewrite list_lookup_insert_ne by lia. done. }
  destruct (Z.testbit a i) eqn:Eb.
  - destruct (decide (j = 21 - i)) as [->|Hne].
    + rewrite list_lookup_insert_eq by (rewrite length_insert; lia).
      f_equal. replace (21 - (21 - i)) with i by lia. rewrite Eb.
      repeat case_decide; try lia; done.
    + rewrite list_lookup_insert_ne by lia. rewrite Hins. f_equal. unfold wl_entry.
      repeat case_decide; try lia; try done.
  - rewrite Hins. f_equal. unfold wl_entry. destruct (decide (21 - j = i)) as [E|Hne].
    + rewrite E, Eb. repeat case_decide; simpl; try lia; done.
    + repeat case_decide; try lia; try done.
Qed.

Lemma runs_parse_whitelist a (s : st) :
  Z.testbit a 0 = false → length (whitelisted s) = 21%nat →
  runs (parse_whitelist a) s (λ _ s', ∃ w', s' = set_whitelisted w' s ∧ wl_after a 21 (whitelisted s) w').
Proof.
  intros H0 Hlen. unfold parse_whitelist.
  apply (runs_iter _ (λ n '(i, b) s1, ∃ w1, n = Z.to_nat (21 - i) ∧ 0 <= i <= 21 ∧ b = Z.shiftr a i ∧
    s1 = set_whitelisted w1 s ∧ wl_after a i (whitelisted s) w1)) with (n := 21%nat); [| |unfold NUM_SYS_CALLS; lia].
  2: { exists (whitelisted s). split; [done|]. split; [lia|]. split; [by rewrite Z.shiftr_0_r|].
       split; [by destruct s|]. split; [done|].
       intros j old Hj ->. f_equal. unfold wl_entry. repeat case_decide; done || lia. }
  intros n [i b] s1 (w1 & -> & Hi & -> & -> & Hw). unfold NUM_SYS_CALLS.
  destruct (Z.ltb_spec i 21) as [Hlt|]; cycle 1.
  { assert (i = 21) as -> by lia. apply runs_ret. by exists w1. }
  apply runs_bind, runs_wl_write; [unfold NUM_SYS_CALLS; lia|]. cbn [whitelisted set_whitelisted].
  rewrite bit0_shift by lia. apply runs_bind.
  assert (Hnext : ∀ w2, w2 = (if Z.testbit a i then <[Z.to_nat (21 - i) := 1]> (<[Z.to_nat i := 0]> w1)
      else <[Z.to_nat i := 0]> w1) →
    ∃ n', (n' < Z.to_nat (21 - i))%nat ∧ ∃ w3, n' = Z.to_nat (21 - (i + 1)) ∧ 0 <= i + 1 <= 21 ∧
      Z.shiftr (Z.shiftr a i) 1 = Z.shiftr a (i + 1) ∧ set_whitelisted w2 s = set_whitelisted w3 s ∧
      wl_after a (i + 1) (whitelisted s) w3).
  { intros w2 ->. exists (Z.to_nat (21 - (i + 1))). split; [lia|]. eexists. split_and!; [done|lia|lia| |done|].
    - by rewrite Z.shiftr_shiftr by lia.
    - apply wl_after_step; [lia|intros ->; done|done|done]. }
  destruct (Z.testbit a i) eqn:Eb.
  - assert (i ≠ 0) by (intros ->; congruence).
    apply runs_wl_write; [unfold NUM_SYS_CALLS; lia|]. kred. cbn [whitelisted set_whitelisted]. by apply Hnext.
  - kred. kred. by apply Hnext.
Qed.
End Whitelist.

(** ** The audit buffer *)

(** The list [b] with [l] written over it from position [o]. *)
Definition splice (b : list Z) (o : nat) (l : list Z) : list Z :=
  take o b ++ l ++ drop (o + length l) b.

Lemma splice_nil b o : splice b o [] = b.
Proof. unfold splice. simpl. by rewrite Nat.add_0_r, take_drop. Qed.

Lemma splice_length b o l : (o + length l ≤ length b)%nat → length (splice b o l) = length b.
Proof. intros. unfold splice. rewrite !length_app, length_take, length_drop. lia. Qed.

Lemma splice_splice b o l1 l2 :
  (o + length l1 + length l2 ≤ length b)%nat →
  splice (splice b o l1) (o + length l1) l2 = splice b o (l1 ++ l2).
Proof.
  intros H. unfold splice. rewrite length_app.
  rewrite (take_app_ge (take o b)) by (rewrite length_take; lia).
  rewrite length_take. replace (o + length l1 - o `min` length b)%nat with (length l1) by lia.
  rewrite take_app_length, <-!app_assoc. do 3 f_equal.
  rewrite (drop_app_ge (take o b)) by (rewrite length_take; lia). rewrite length_take.
  replace (o + length l1 + length l2 - o `min` length b)%nat with (length l1 + length l2)%nat by lia.
  rewrite drop_app_ge by lia. rewrite drop_drop. f_equal. lia.
Qed.

Lemma splice_insert b o c : (o < length b)%nat → <[o := c]> b = splice b o [c].
Proof.
  intros H. unfold splice. rewrite insert_take_drop by done. simpl. do 3 f_equal. lia.
Qed.

Section Log.
Context {W : Type}.
Abbreviation st := (sst W).

Definition set_buff (b : list Z) (o : Z) (s : st) : st := set_audit (prev_tickss s) b o s.

Lemma set_buff_twice b o b' o' (s : st) : set_buff b o (set_buff b' o' s) = set_buff b o s.
Proof. done. Qed.

Lemma runs_advance k (s : st) Q : Q tt (set_buff (buff s) (offset s + k) s) → runs (advance k) s Q.
Proof. done. Qed.

Definition isbyte (c : Z) : Prop := 0 <= c < 256.

Lemma runs_buff_write i v (s : st) Q :
  length (buff s) = 2048%nat → 0 <= i < 2048 → isbyte v →
  Q tt (set_buff (splice (buff s) (Z.to_nat i) [v]) (offset s) s) → runs (buff_write i v) s Q.
Proof.
  intros Hl Hi Hv HQ. unfold runs, buff_write, BUFF_SIZE.
  destruct (Z.leb_spec 0 i), (Z.ltb_spec i 2048); try lia. simpl. rewrite u8_small by done.
  by rewrite splice_insert by lia.
Qed.

Lemma runs_buff_copy o l (s : st) Q :
  length (buff s) = 2048%nat → 0 <= o → o + zlen l <= 2048 → Forall isbyte l →
  Q tt (set_buff (splice (buff s) (Z.to_nat o) l) (offset s) s) → runs (buff_copy o l) s Q.
Proof.
  revert o s. induction l as [|c l IH]; intros o s Hl Ho Hend Hb HQ.
  - apply runs_ret. rewrite splice_nil in HQ. by destruct s.
  - apply Forall_cons in Hb as [Hc Hb]. simpl in Hend. simpl. apply runs_bind, runs_buff_write; [done|lia|done|].
    assert (Hl1 : length (splice (buff s) (Z.to_nat o) [c]) = 2048%nat) by (rewrite splice_length; simpl; lia).
    apply IH; [done|lia|lia|done|].
    cbn [buff set_buff set_audit offset prev_tickss].
    replace (Z.to_nat (o + 1)) with (Z.to_nat o + length [c])%nat by (simpl; lia).
    rewrite splice_splice by (simpl; lia). done.
Qed.

(** Writing at the current offset. *)
Definition appended (s : st) (l : list Z) (s' : st) : Prop :=
  s' = set_buff (splice (buff s) (Z.to_nat (offset s)) l) (offset s + zlen l) s.

Definition aud_ok (s : st) : Prop := length (buff s) = 2048%nat ∧ 0 <= offset s.

Lemma appended_nil s : appended s [] s.
Proof. unfold appended. rewrite splice_nil. simpl. rewrite Z.add_0_r. by destruct s. Qed.

Lemma appended_app s l1 s1 l2 s2 :
  aud_ok s → offset s + zlen (l1 ++ l2) <= 2048 → appended s l1 s1 → appended s1 l2 s2 → appended s (l1 ++ l2) s2.
Proof.
  intros [Hl Ho] Hend -> ->. unfold appended. rewrite length_app in *. cbn [buff offset set_buff set_audit prev_tickss].
  replace (Z.to_nat (offset s + zlen l1)) with (Z.to_nat (offset s) + length l1)%nat by lia.
  rewrite splice_splice by lia. by rewrite Nat2Z.inj_add, Z.add_assoc.
Qed.

Lemma appended_ok s l s' : aud_ok s → offset s + zlen l <= 2048 → appended s l s' → aud_ok s'.
Proof. intros [Hl Ho] He ->. split; simpl; [rewrite splice_length; lia|lia]. Qed.

(** [m] appends [l] to the audit buffer. *)
Definition appends (m : K st unit) (l : list Z) : Prop :=
  ∀ s, aud_ok s → offset s + zlen l <= 2048 → runs m s (λ _ s', appended s l s').

Lemma appends_bind m1 m2 l1 l2 : appends m1 l1 → appends m2 l2 → appends (m1 ;;; m2) (l1 ++ l2).
Proof.
  intros H1 H2 s Hok Hend. pose proof Hend as He. rewrite length_app in He.
  apply runs_bind. eapply runs_mono; [apply H1; [done|lia]|]. intros [] s1 A1.
  eapply runs_mono; [apply H2; [by eapply appended_ok; [| |exact A1]; try lia|]|].
  { rewrite A1. simpl. lia. }
  intros [] s2 A2. by eapply appended_app.
Qed.

Lemma appends_put v : isbyte v → appends (put v) [v].
Proof.
  intros Hv s [Hl Ho] Hend. simpl in Hend. unfold put. kred. apply runs_buff_write; [done|lia|done|].
  unfold advance. by kred.
Qed.

(** A block written at the current offset, followed by [offset += k]. *)
Lemma appends_block (w : Z → K st unit) m l1 l2 k :
  k = zlen l1 →
  (∀ o s (Q : unit → st → Prop), length (buff s) = 2048%nat → 0 <= o → o + zlen l1 <= 2048 →
     Q tt (set_buff (splice (buff s) (Z.to_nat o) l1) (offset s) s) → runs (w o) s Q) →
  appends m l2 →
  appends ((o <- gets offset ;;; w o) ;;; advance k ;;; m) (l1 ++ l2).
Proof.
  intros -> Hw Hm s Hok Hend. pose proof Hend as He. rewrite length_app in He. pose proof Hok as [Hl Ho].
  kred. apply Hw; [done|done|lia|]. unfold advance. kred. fold (appended s l1).
  set (s1 := set_audit _ _ _ _).
  assert (A1 : appended s l1 s1) by done.
  eapply runs_mono; [apply Hm; [by eapply appended_ok; [| |exact A1]; try lia|]|].
  { rewrite A1. simpl. lia. }
  intros [] s2 A2. by eapply appended_app.
Qed.

Lemma appends_copy l m l2 :
  Forall isbyte l → appends m l2 →
  appends ((o <- gets offset ;;; buff_copy o l) ;;; advance (zlen l) ;;; m) (l ++ l2).
Proof. intros Hb. apply appends_block; [done|]. intros o s Q ????. by apply runs_buff_copy. Qed.

Lemma appends_two a b m l2 :
  isbyte a → isbyte b → appends m l2 →
  appends ((o <- gets offset ;;; buff_write o a ;;; buff_write (o + 1) b) ;;; advance 2 ;;; m) ([a; b] ++ l2).
Proof.
  intros Ha Hb. apply (appends_block (λ o, buff_write o a ;;; buff_write (o + 1) b)); [done|].
  intros o s Q Hl Ho Hend HQ. simpl in Hend. apply runs_bind, runs_buff_write; [done|lia|done|].
  apply runs_buff_write; [by simpl; rewrite splice_length; simpl; lia|lia|done|].
  cbn [buff set_buff set_audit offset prev_tickss].
  replace (Z.to_nat (o + 1)) with (Z.to_nat o + length [a])%nat by (simpl; lia).
  by rewrite splice_splice by (simpl; lia).
Qed.

#[local] Hint Resolve appends_bind appends_put appends_copy appends_two : core.

(** A record of a call that used a file is complete. *)
Definition file_record (name nm : list Z) (f : fperm) : list Z :=
  name ++ [9] ++ nm ++ [9] ++ [if readable f then 49 else 48] ++ [9; if writable f then 49 else 48] ++ [10].

Lemma isbyte_flag (b : bool) : isbyte (if b then 49 else 48).
Proof. by destruct b. Qed.

Lemma runs_log_file num f p nm (s : st) :
  aud_ok s → Forall isbyte (pname s) → Forall isbyte nm → name_from_num !! Z.to_nat num = Some nm →
  files s !! f = Some p → offset s + zlen (file_record (pname s) nm p) <= 2048 →
  runs (log_call num (Some f)) s (λ _ s', appended s (file_record (pname s) nm p) s').
Proof.
  intros Hok Hb1 Hb2 Hnm Hf Hend. unfold log_call. kred. unfold call_name. unfold runs at 1. rewrite Hnm.
  apply runs_bind. unfold file_perm, runs at 1. rewrite Hf.
  assert (H9 : isbyte 9) by done. assert (H10 : isbyte 10) by done. pose proof isbyte_flag.
  assert (Ha : appends ((o <- gets offset ;;; buff_copy o (pname s)) ;;; advance (zlen (pname s)) ;;;
      put 9 ;;;
      (o <- gets offset ;;; buff_copy o nm) ;;; advance (zlen nm) ;;;
      put 9 ;;;
      put (if readable p then 49 else 48) ;;;
      (o <- gets offset ;;; buff_write o 9 ;;; buff_write (o + 1) (if writable p then 49 else 48)) ;;;
      advance 2 ;;;
      put 10) (file_record (pname s) nm p)) by (unfold file_record; auto 20).
  by apply Ha.
Qed.

(** Without a file the offset advances by the length of the process name where
    the length of the call's name is meant. *)
Definition plain_buff (b : list Z) (o : nat) (name nm : list Z) : list Z :=
  splice (splice b o (name ++ [9] ++ nm)) (o + 2 * length name + 1) [10].

Lemma runs_log_plain num nm (s : st) :
  aud_ok s → Forall isbyte (pname s) → Forall isbyte nm → name_from_num !! Z.to_nat num = Some nm →
  offset s + zlen (pname s) + 1 + zlen nm <= 2048 → offset s + 2 * zlen (pname s) + 2 <= 2048 →
  runs (log_call num None) s (λ _ s',
    s' = set_buff (plain_buff (buff s) (Z.to_nat (offset s)) (pname s) nm)
           (offset s + 2 * zlen (pname s) + 2) s).
Proof.
  intros Hok Hb1 Hb2 Hnm Hend Hend2. unfold log_call. kred. unfold call_name, runs at 1. rewrite Hnm.
  pose proof Hok as [Hl Ho].
  set (n := Z.to_nat (offset s)). set (k := length (pname s)) in *.
  kred. apply runs_buff_copy; [done|done|lia|done|]. fold n.
  apply runs_bind, runs_advance. rewrite set_buff_twice. cbn [buff offset set_buff set_audit].
  unfold put at 1. kred. cbn [offset set_buff set_audit].
  apply runs_buff_write; [simpl; rewrite splice_length; lia|lia|done|].
  apply runs_advance. rewrite !set_buff_twice. cbn [buff offset set_buff set_audit].
  replace (Z.to_nat (offset s + Z.of_nat k)) with (n + k)%nat by lia. rewrite splice_splice by (simpl; lia).
  kred. cbn [offset set_buff set_audit].
  apply runs_buff_copy; [simpl; rewrite splice_length; rewrite ?length_app; simpl; lia|lia|lia|done|].
  apply runs_bind, runs_advance. rewrite !set_buff_twice. cbn [buff offset set_buff set_audit].
  replace (Z.to_nat (offset s + Z.of_nat k + 1)) with (n + length (pname s ++ [9%Z]))%nat
    by (rewrite length_app; simpl; lia).
  rewrite splice_splice by (rewrite length_app; simpl; lia). rewrite <-app_assoc.
  unfold put. kred. cbn [offset set_buff set_audit].
  apply runs_buff_write; [simpl; rewrite splice_length; rewrite ?length_app; simpl; lia|lia|done|].
  apply runs_advance. rewrite !set_buff_twice. cbn [buff offset set_buff set_audit]. unfold plain_buff. fold k.
  replace (Z.to_nat (offset s + Z.of_nat k + 1 + Z.of_nat k)) with (n + 2 * k + 1)%nat by lia.
  by replace (offset s + Z.of_nat k + 1 + Z.of_nat k + 1) with (offset s + 2 * Z.of_nat k + 2) by lia.
Qed.
End Log.

(** ** One system call *)

Section Call.
Context {W : Type}.
Abbreviation st := (sst W).

(** The file whose permissions the audit code will record. *)
Definition call_file (num : Z) (s : st) : option nat :=
  let fd := s32 (a0 (tf s)) in
  if uses_fd num && negb ((fd <? 0) || (fd >=? NOFILE)) then mjoin (ofile s !! Z.to_nat fd) else None.

Lemma call_file_eq num (s : st) :
  (if uses_fd num then r <- argfd 0 ;;; ret (snd <$> r) else ret None) s = Ok (call_file num s) s.
Proof.
  unfold call_file, argfd, argint, argraw, bind, gets, ret. destruct (uses_fd num); [|done]. simpl.
  destruct ((s32 (a0 (tf s)) <? 0) || (s32 (a0 (tf s)) >=? NOFILE)); [done|]. simpl.
  by destruct (mjoin (ofile s !! Z.to_nat (s32 (a0 (tf s))))).
Qed.

(** The state after the audit log has been written out, if that is due. *)
Definition flushed (open_log : Z) (text : list Z) (s : st) : st :=
  if u32 (ticks s - prev_tickss s) >? 100 then
    set_audit (s32 (ticks s)) (splice (buff s) 0 [0]) 0
      (set_log true (if opened s then logf s else open_log) (logged s ++ [text]) s)
  else s.

(** Writing it out succeeds: the log file is open and the buffer is a string. *)
Definition flush_ok (open_log : Z) (text : list Z) (s : st) : Prop :=
  u32 (ticks s - prev_tickss s) > 100 →
  (if opened s then logf s else open_log) ∉ [-1; 0] ∧ cstring (buff s) = Some text.

Lemma runs_flush open_log text (s : st) Q :
  length (buff s) = 2048%nat → flush_ok open_log text s →
  Q tt (flushed open_log text s) →
  runs (t <- gets ticks ;;; p <- gets prev_tickss ;;;
     if u32 (t - p) >? 100 then
       write_to_logs open_log ;;;
       modify (λ s, set_audit (s32 (ticks s)) (buff s) 0 s) ;;;
       buff_write 0 0
     else ret tt) s Q.
Proof.
  intros Hl Hok HQ. kred. unfold flushed, flush_ok in *. rewrite Z.gtb_ltb in *.
  destruct (Z.ltb_spec 100 (u32 (ticks s - prev_tickss s))) as [Hgt|]; [|by kred].
  destruct (Hok ltac:(lia)) as [Hf Hc]. rewrite !not_elem_of_cons in Hf. destruct Hf as (Hf1 & Hf2 & _).
  unfold write_to_logs. kred. destruct (opened s) eqn:Eo; simpl negb; cbv iota; kred; cbn [logf set_log].
  - destruct (Z.eqb_spec (logf s) (-1)), (Z.eqb_spec (logf s) 0); try done. kred. rewrite Hc. kred.
    apply runs_buff_write; [done|lia|done|]. cbn [opened logf logged set_log buff]. by rewrite Eo.
  - destruct (Z.eqb_spec open_log (-1)), (Z.eqb_spec open_log 0); try done. kred. cbn [buff set_log]. rewrite Hc.
    kred. apply runs_buff_write; [done|lia|done|]. done.
Qed.

Lemma name_bytes num nm : name_from_num !! num = Some nm → Forall isbyte nm ∧ zlen nm <= 7.
Proof.
  intros H. assert (Hall : Forall (λ nm, Forall isbyte nm ∧ zlen nm <= 7) name_from_num).
  { repeat (apply Forall_cons; split; [split; [repeat constructor; done|done]|]). constructor. }
  eapply Forall_lookup_1 in Hall; [|exact H]. done.
Qed.

Lemma wl_read_eq i (s : st) : 0 <= i < 21 → wl_read i s = Ok (whitelisted s !!! Z.to_nat i) s.
Proof. intros. unfold wl_read, NUM_SYS_CALLS. destruct (Z.leb_spec 0 i), (Z.ltb_spec i 21); try lia. done. Qed.

(** Dispatch up to the audit code. *)
Lemma syscall_eq open_log (syscalls : Z → option (K st Z)) num h (s : st) r s1 :
  s32 (a7 (tf s)) = num → 0 < num < NSYSCALLS → syscalls num = Some h → h s = Ok r s1 →
  syscall open_log syscalls s = audit_call open_log num (call_file num s) (set_a0 (u64 r) s1).
Proof.
  intros Hn Hr Hh Hrun. unfold syscall. unfold bind at 1, gets. rewrite Hn.
  rewrite Z.gtb_ltb. destruct (Z.ltb_spec 0 num), (Z.ltb_spec num NSYSCALLS); try lia.
  change (true && true) with true. cbv iota. rewrite Hh, (bind_Ok _ _ _ _ _ (call_file_eq num s)), (bind_Ok _ _ _ _ _ Hrun). done.
Qed.
End Call.

(** ** Properties *)

(** Dispatch: a system call number that is not in the table yields -1
    and changes nothing else; for one of the calls 1 to 21 that is not
    whitelisted, the state after syscall is exactly the state its handler
    left, with the handler's result in a0. *)
Theorem syscall_dispatch {W} (open_log : Z) (syscalls : Z → option (K (sst W) Z)) (s : sst W) (num : Z) :
  s32 (a7 (tf s)) = num →
  (num <= 0 ∨ NSYSCALLS <= num ∨ syscalls num = None →
     syscall open_log syscalls s = Ok tt (set_a0 (2 ^ 64 - 1) s)) ∧
  (∀ h r s1, 1 <= num <= 21 → syscalls num = Some h → h s = Ok r s1 →
     whitelisted s1 !!! Z.to_nat (num - 1) = 0 →
     syscall open_log syscalls s = Ok tt (set_a0 (u64 r) s1)).
Proof.
  intros Hn. split.
  - intros Hbad. unfold syscall, bind, gets. rewrite Hn, Z.gtb_ltb.
    destruct (Z.ltb_spec 0 num), (Z.ltb_spec num NSYSCALLS); simpl andb; cbv iota; try done.
    destruct Hbad as [?|[?| ->]]; [lia|lia|done].
  - intros h r s1 Hr Hh Hrun Hw. rewrite (syscall_eq open_log syscalls num h s r s1); try done; [|unfold NSYSCALLS; lia].
    unfold audit_call, SYS_audit, bind at 1. destruct (Z.eqb_spec num 22); [lia|]. unfold ret at 1.
    unfold bind. rewrite wl_read_eq by lia. simpl. rewrite Hw. done.
Qed.

Lemma syscall_dispatch_witness :
  let s := mkS (mkTf 0 0 0 0 0 0 11) 3 [115] [] [] (replicate 21 0) 0 (replicate 2048 0) 0 false 0 [] 0 tt in
  let table n := if n =? 11 then Some (ret 3 : K (sst unit) Z) else None in
  syscall 1 table s = Ok tt (set_a0 3 s).
Proof.
  intros s table. destruct (syscall_dispatch 1 table s 11 ltac:(by vm_compute)) as [_ H].
  apply (H (ret 3) 3 s); [lia|done|done|by vm_compute].
Defined.

(** The record of a whitelisted call 1 to 21: after the handler, and
    after writing out the log if more than 100 ticks have passed since the
    last time, the buffer holds at the current offset, for a call on an open
    file, the process name, the call's name and the two permissions separated
    by tabs and ended by a newline, and the offset points behind it; for any
    other call the offset advances by the process name's length where the
    length of the call's name is meant, so the newline lands there.  Apart
    from a0 and the log nothing changes. *)
Theorem syscall_record {W} (open_log : Z) (syscalls : Z → option (K (sst W) Z)) (s : sst W)
    (num : Z) h r s1 text nm :
  s32 (a7 (tf s)) = num → 1 <= num <= 21 → syscalls num = Some h → h s = Ok r s1 →
  whitelisted s1 !!! Z.to_nat (num - 1) ≠ 0 →
  length (buff s1) = 2048%nat → 0 <= offset s1 → flush_ok open_log text s1 →
  name_from_num !! Z.to_nat num = Some nm → Forall isbyte (pname s1) → zlen (pname s1) < 16 →
  (∀ f, call_file num s = Some f → is_Some (files s1 !! f)) →
  let s2 := flushed open_log text (set_a0 (u64 r) s1) in
  offset s2 + 34 <= 2048 →
  ∃ s', syscall open_log syscalls s = Ok tt s' ∧
    match call_file num s with
    | Some f => ∃ p, files s1 !! f = Some p ∧ appended s2 (file_record (pname s1) nm p) s'
    | None =>
        s' = set_buff (plain_buff (buff s2) (Z.to_nat (offset s2)) (pname s1) nm)
               (offset s2 + 2 * zlen (pname s1) + 2) s2
    end.
Proof.
  intros Hn Hr Hh Hrun Hw Hl Ho Hfl Hnm Hb Hlen Hfile s2 Hroom.
  assert (Hb2 : Forall isbyte nm ∧ zlen nm <= 7) by by eapply name_bytes. destruct Hb2 as [Hb2 Hlen2].
  assert (Hs2 : pname s2 = pname s1 ∧ files s2 = files s1 ∧ aud_ok s2).
  { subst s2. unfold flushed. destruct (_ >? 100); [|done]. split_and!; [done|done|]. split; [|done].
    cbn [buff set_audit]. rewrite splice_length; simpl; lia. }
  destruct Hs2 as (Hp2 & Hf2 & Hok2).
  assert (H : runs (audit_call open_log num (call_file num s)) (set_a0 (u64 r) s1) (λ _ s',
    match call_file num s with
    | Some f => ∃ p, files s1 !! f = Some p ∧ appended s2 (file_record (pname s1) nm p) s'
    | None => s' = set_buff (plain_buff (buff s2) (Z.to_nat (offset s2)) (pname s1) nm)
                     (offset s2 + 2 * zlen (pname s1) + 2) s2
    end)).
  { unfold audit_call, SYS_audit. destruct (Z.eqb_spec num 22); [lia|]. kred.
    eapply runs_Ok; [apply wl_read_eq; lia|]. cbn [whitelisted set_a0].
    destruct (Z.eqb_spec (whitelisted s1 !!! Z.to_nat (num - 1)) 0); [done|]. simpl negb. simpl orb. cbv iota.
    apply runs_bind, (runs_flush open_log text); [done|done|]. fold s2.
    destruct (call_file num s) as [f|] eqn:Ef.
    - destruct (Hfile f eq_refl) as [p Hp]. rewrite <-Hp2.
      eapply runs_mono; [apply (runs_log_file num f p nm); try done|].
      + by rewrite Hp2.
      + by rewrite Hf2.
      + unfold file_record. rewrite !length_app, Hp2. simpl. lia.
      + intros [] s' Ha. by exists p.
    - rewrite <-Hp2. apply runs_log_plain; try done; rewrite ?Hp2; done || lia. }
  apply runs_elim in H as ([] & s' & Hs' & Hpost). exists s'. split; [|done].
  rewrite (syscall_eq open_log syscalls num h s r s1); try done. unfold NSYSCALLS. lia.
Qed.

Lemma syscall_record_witness :
  let s := mkS (mkTf 0 0 0 0 0 0 11) 3 (str "sh") [] [] (replicate 21 1) 0 (replicate 2048 0) 0 false 0 [] 0 tt in
  let table n := if n =? 11 then Some (ret 3 : K (sst unit) Z) else None in
  ∃ s', syscall 1 table s = Ok tt s' ∧
    s' = set_buff (plain_buff (buff s) 0 (str "sh") (str "getpid")) 6 (set_a0 3 s).
Proof.
  intros s table.
  destruct (syscall_record 1 table s 11 (ret 3) 3 s [] (str "getpid")) as (s' & H1 & H2).
  - by vm_compute.
  - lia.
  - done.
  - done.
  - by vm_compute.
  - by vm_compute.
  - done.
  - by intros ?.
  - done.
  - repeat constructor; done.
  - done.
  - done.
  - by vm_compute.
  - exists s'. split; [exact H1|]. exact H2.
Defined.

(** What an audit call whitelists, for masks whose lowest bit is clear after
    the shift of audit() (with that bit set the loop writes outside of the
    array).  The loop sets the entry of call [j + 1], for 1 <= j <= 10, to bit
    [21 - j], and clears all the others: fork and the calls 12 to 21 cannot
    be whitelisted by such a mask, although the comment in proc.c gives every
    call a bit and xv6test.c means to select fork. *)
Theorem audit_whitelist {W} (a : Z) (s : sst W) :
  Z.testbit a 0 = false → length (whitelisted s) = 21%nat →
  ∃ s', parse_whitelist a s = Ok tt s' ∧ s' = set_whitelisted (whitelisted s') s ∧
    ∀ j, 0 <= j < 21 → whitelisted s' !!! Z.to_nat j =
      if decide (1 <= j <= 10) then Z.b2z (Z.testbit a (21 - j)) else 0.
Proof.
  intros H0 Hl. destruct (runs_elim _ _ _ (runs_parse_whitelist a s H0 Hl)) as ([] & s' & Hrun & w' & -> & Hlen & Hw).
  exists (set_whitelisted w' s). split_and!; [done|done|]. intros j Hj.
  destruct (lookup_lt_is_Some_2 (whitelisted s) (Z.to_nat j) ltac:(lia)) as [old Hold].
  simpl. rewrite (list_lookup_total_correct _ _ _ (Hw j old Hj Hold)). unfold wl_entry.
  repeat case_decide; done || lia.
Qed.

Lemma audit_whitelist_witness :
  let s := mkS (mkTf 0 0 0 0 0 0 22) 3 [] [] [] (replicate 21 1) 0 [] 0 false 0 [] 0 tt in
  ∃ s', parse_whitelist (audit 0xF8000000) s = Ok tt s' ∧ s' = set_whitelisted (whitelisted s') s ∧
    ∀ j, 0 <= j < 21 → whitelisted s' !!! Z.to_nat j =
      if decide (1 <= j <= 10) then Z.b2z (Z.testbit (audit 0xF8000000) (21 - j)) else 0.
Proof. intros s. apply (audit_whitelist (audit 0xF8000000) s); by vm_compute. Defined.

(** Every audit call and every check call that returns from its handler
    goes on to read [whitelisted] outside its 21 entries (the index of a call
    is its number minus one, 21 for audit and 22 for check), and an audit
    call whose mask has bit 10 set writes outside it before that. *)
Theorem audit_out_of_bounds {W} (open_log : Z) (syscalls : Z → option (K (sst W) Z)) (s : sst W) num h r s1 :
  s32 (a7 (tf s)) = num → num = SYS_audit ∨ num = SYS_check →
  syscalls num = Some h → h s = Ok r s1 → length (whitelisted s1) = 21%nat →
  syscall open_log syscalls s = UB "whitelisted: index out of bounds".
Proof.
  intros Hn Hnum Hh Hrun Hl.
  rewrite (syscall_eq open_log syscalls num h s r s1); try done; [|unfold NSYSCALLS, SYS_audit, SYS_check in *; lia].
  unfold audit_call, SYS_audit in *. destruct Hnum as [-> | ->]; [|done].
  destruct (Z.testbit (u32 (u64 r)) 0) eqn:Eb.
  - assert (Hb : negb (Z.land (u32 (u64 r)) 1 =? 0) = true).
    { pose proof (bit0_shift (u32 (u64 r)) 0 ltac:(lia)) as Hb. by rewrite Z.shiftr_0_r, Eb in Hb. }
    unfold parse_whitelist, bind, gets. cbn -[u32 u64 Z.land]. by rewrite Hb.
  - destruct (runs_elim _ _ _ (runs_parse_whitelist (u32 (u64 r)) (set_a0 (u64 r) s1) Eb Hl)) as ([] & s' & Hp & _).
    unfold bind, gets. simpl. by rewrite Hp.
Qed.

Lemma audit_out_of_bounds_witness :
  let s := mkS (mkTf 0xF8000000 0 0 0 0 0 22) 3 [] [] [] (replicate 21 1) 0 [] 0 false 0 [] 0 tt in
  let table n := if n =? 22 then Some (sys_audit : K (sst unit) Z) else None in
  syscall 1 table s = UB "whitelisted: index out of bounds".
Proof.
  intros s table. apply (audit_out_of_bounds 1 table s 22 sys_audit (audit (s32 0xF8000000)) s); try done.
  by left.
Defined.

(** int_to_char does not convert: for a non-negative number it stores as
    many bytes as the number has decimal digits, each of them the last digit. *)
Theorem int_to_char_digits (num : Z) (k : nat) :
  (k < 10)%nat → 10 ^ Z.of_nat k <= Z.max 1 num < 10 ^ (Z.of_nat k + 1) → 0 <= num →
  int_to_char num = replicate (S k) (num mod 10 + 48).
Proof.
  intros Hk Hr Hn. unfold int_to_char. rewrite Z.rem_mod_nonneg by lia.
  rewrite u8_small by zdm. f_equal.
  assert (Hgen : ∀ j fuel x, (j < fuel)%nat → 0 <= x → 10 ^ Z.of_nat j <= Z.max 1 x < 10 ^ (Z.of_nat j + 1) →
    int_len fuel x = S j).
  { induction j as [|j IH]; intros fuel x Hf Hx Hxr; (destruct fuel as [|fuel]; [lia|]); cbn [int_len];
      rewrite Z.quot_div_nonneg, Z.gtb_ltb by lia.
    - destruct (Z.ltb_spec 0 (x / 10)); [|done]. simpl in Hxr. zdm.
    - rewrite Nat2Z.inj_succ, Z.pow_succ_r, Z.pow_add_r, Z.pow_succ_r in Hxr by lia.
      rewrite (IH fuel (x / 10)).
      + destruct (Z.ltb_spec 0 (x / 10)) as [|Hle]; [done|].
        assert (0 < 10 ^ Z.of_nat j) by (apply Z.pow_pos_nonneg; lia). zdm.
      + lia.
      + zdm.
      + assert (0 < 10 ^ Z.of_nat j) by (apply Z.pow_pos_nonneg; lia).
        rewrite Z.pow_add_r by lia. zdm. }
  apply Hgen; done || lia.
Qed.

Lemma int_to_char_digits_witness : int_to_char 427 = [55; 55; 55].
Proof. rewrite (int_to_char_digits 427 2); [done|lia|done|lia]. Defined.
