(* ===== verification/BlockCache.v ===== *)
(** The interface between the buffer cache (bio.c) and its clients (log.c,
    fs.c): what a process may rely on when it reads, writes, pins and releases
    the blocks of the root device.

    The abstract state keeps the disk, the order of the writes to it, and for
    every block in use its buffer, reference count, contents and the holder of
    its sleep lock.  Blocks that are not in use are as they are on the disk,
    whatever the cache still holds of them. *)

From S2P Require Import Prelude Mem Riscv.
Local Open Scope kernel_scope.

Definition BSIZE : Z := 1024.

(** The contents of a block, by offset. *)
Abbreviation block := mem (only parsing).

Definition zero_block : block := ∅.
Definition rd_block (d : gmap Z block) (bno : Z) : block := default zero_block (d !! bno).

Record use := mkUse { uh : Z; uref : Z; udata : block; ulock : option Z }.

Record acache := mkA { adisk : gmap Z block; ause : gmap Z use; atrace : list (Z * block) }.

(** The contents of a block as a reader sees them. *)
Definition aview (a : acache) (bno : Z) : block :=
  match ause a !! bno with Some u => udata u | None => rd_block (adisk a) bno end.

Definition set_use (bno : Z) (u : use) (a : acache) : acache :=
  mkA (adisk a) (<[bno := u]> (ause a)) (atrace a).

(** The block [bno] is available to [me] as the buffer [h]. *)
Definition taken (me bno h : Z) (a : acache) : acache :=
  set_use bno
    match ause a !! bno with
    | Some u => mkUse h (uref u + 1) (udata u) (Some me)
    | None => mkUse h 1 (rd_block (adisk a) bno) (Some me)
    end a.

Definition can_take (bno : Z) (a : acache) : Prop :=
  match ause a !! bno with
  | Some u => ulock u = None ∧ uref u + 1 < 2 ^ 32
  | None => Z.of_nat (size (ause a)) < NBUF
  end.

Definition written (bno : Z) (u : use) (a : acache) : acache :=
  mkA (<[bno := udata u]> (adisk a)) (ause a) (atrace a ++ [(bno, udata u)]).

Definition released (bno : Z) (u : use) (a : acache) : acache :=
  if uref u =? 1 then mkA (adisk a) (delete bno (ause a)) (atrace a)
  else set_use bno (mkUse (uh u) (uref u - 1) (udata u) None) a.

Class BlockCache (S : Type) := {
  c_bread : Z → Z → Z → K S Z;
  c_bwrite : Z → Z → K S unit;
  c_brelse : Z → Z → K S unit;
  c_bpin : Z → K S unit;
  c_bunpin : Z → K S unit;
  c_blockno : Z → K S Z;
  c_data : Z → K S block;
  c_set_data : Z → block → K S unit;
  c_rep : S → acache → Prop;

  (** The writes that the disk has performed so far, in their order. *)
  c_trace : S → list (Z * block);
  c_rep_trace s a : c_rep s a → c_trace s = atrace a;

  c_rep_pos bno u s a : c_rep s a → ause a !! bno = Some u → 1 <= uref u;

  (** A block that nobody has locked can be read, unless every buffer is in
      use by other blocks. *)
  c_bread_law me bno s a :
    c_rep s a → can_take bno a →
    runs (c_bread me ROOTDEV bno) s (λ h s',
      c_rep s' (taken me bno h a) ∧ ∀ u, ause a !! bno = Some u → h = uh u);

  c_blockno_law bno u s a :
    c_rep s a → ause a !! bno = Some u →
    runs (c_blockno (uh u)) s (λ v s', v = bno ∧ s' = s);

  c_data_law bno u s a :
    c_rep s a → ause a !! bno = Some u →
    runs (c_data (uh u)) s (λ d s', d = udata u ∧ s' = s);

  c_set_data_law bno u d s a :
    c_rep s a → ause a !! bno = Some u →
    runs (c_set_data (uh u) d) s (λ _ s',
      c_rep s' (set_use bno (mkUse (uh u) (uref u) d (ulock u)) a));

  c_bwrite_law me bno u s a :
    c_rep s a → ause a !! bno = Some u → ulock u = Some me →
    runs (c_bwrite me (uh u)) s (λ _ s', c_rep s' (written bno u a));

  (** The last reference may be dropped only when the disk has the contents. *)
  c_brelse_law me bno u s a :
    c_rep s a → ause a !! bno = Some u → ulock u = Some me →
    (uref u = 1 → udata u = rd_block (adisk a) bno) →
    runs (c_brelse me (uh u)) s (λ _ s', c_rep s' (released bno u a));

  c_bpin_law bno u s a :
    c_rep s a → ause a !! bno = Some u → uref u + 1 < 2 ^ 32 →
    runs (c_bpin (uh u)) s (λ _ s',
      c_rep s' (set_use bno (mkUse (uh u) (uref u + 1) (udata u) (ulock u)) a));

  c_bunpin_law bno u s a :
    c_rep s a → ause a !! bno = Some u → 1 < uref u →
    runs (c_bunpin (uh u)) s (λ _ s',
      c_rep s' (set_use bno (mkUse (uh u) (uref u - 1) (udata u) (ulock u)) a));
}.
