(* ===== verification/Bio.v ===== *)
(** kernel/bio.c: the buffer cache.

    The thirty buffers are numbered; the address of buffer [i] is [i + 1] and
    [&bcache.head] is 0, so that the LRU list is a circle of DList.v.  The disk
    maps block numbers to blocks, and [wtrace] records the order of writes:
    virtio_disk_rw, which sleeps until the device has answered, transfers one
    block atomically.  Waiting for a sleep lock held by another process is the
    outcome [Blocked]; [me] is the pid of the calling process. *)

From S2P Require Import Prelude Mem Riscv Spinlock DList BlockCache.
Local Open Scope kernel_scope.

Record buf := mkBuf {
  valid : bool; dev : Z; blockno : Z; refcnt : Z; bdata : block; lock : sleeplock
}.

Record bst := mkB {
  bc_lock : bool; links : lheap; bufs : list buf; disk : gmap Z block; wtrace : list (Z * block)
}.

Definition set_bc_lock (b : bool) (s : bst) : bst := mkB b (links s) (bufs s) (disk s) (wtrace s).
Definition set_links (h : lheap) (s : bst) : bst := mkB (bc_lock s) h (bufs s) (disk s) (wtrace s).
Definition set_bufs (l : list buf) (s : bst) : bst := mkB (bc_lock s) (links s) l (disk s) (wtrace s).

Definition on_links {A} (m : K lheap A) : K bst A := zoom links set_links m.

(** The buffer at address [b]. *)
Definition idx (b : Z) : nat := Z.to_nat (b - 1).
Definition getbuf (b : Z) : K bst buf := λ s,
  match bufs s !! idx b with Some x => Ok x s | None => UB "struct buf: bad pointer" end.
Definition setbuf (b : Z) (f : buf → buf) : K bst unit := λ s,
  match bufs s !! idx b with
  | Some x => Ok tt (set_bufs (<[idx b := f x]> (bufs s)) s)
  | None => UB "struct buf: bad pointer"
  end.

Definition with_refcnt (g : Z → Z) (b : buf) : buf :=
  mkBuf (valid b) (dev b) (blockno b) (u32 (g (refcnt b))) (bdata b) (lock b).
Definition with_lock (l : sleeplock) (b : buf) : buf :=
  mkBuf (valid b) (dev b) (blockno b) (refcnt b) (bdata b) l.
Definition with_data (d : block) (b : buf) : buf :=
  mkBuf (valid b) (dev b) (blockno b) (refcnt b) d (lock b).

(** An operation on [b->lock]. *)
Definition on_lock {A} (b : Z) (m : K sleeplock A) : K bst A :=
  x <- getbuf b ;;;
  zoom (λ _, lock x) (λ l s, set_bufs (<[idx b := with_lock l x]> (bufs s)) s) m.

(** [b->next = head.next; b->prev = &head] *)
Definition link_self (b : Z) : K lheap unit :=
  n <- load_next 0 ;;; store_next b n ;;; store_prev b 0.
(** [head.next->prev = b; head.next = b] *)
Definition link_head (b : Z) : K lheap unit :=
  n <- load_next 0 ;;; store_prev n b ;;; store_next 0 b.
(** [b->next->prev = b->prev; b->prev->next = b->next] *)
Definition unlink (b : Z) : K lheap unit :=
  n <- load_next b ;;; p <- load_prev b ;;; store_prev n p ;;;
  p <- load_prev b ;;; n <- load_next b ;;; store_next p n.

Definition binit : K bst unit :=
  modify (set_bc_lock false) ;;;
  on_links (store_prev 0 0) ;;;
  on_links (store_next 0 0) ;;;
  iter (S (Z.to_nat NBUF)) (λ b,
    if b <? 1 + NBUF then
      on_links (link_self b) ;;; setbuf b (with_lock initsleeplock) ;;; on_links (link_head b) ;;;
      ret (inl (b + 1))
    else ret (inr tt)) 1.

Definition virtio_disk_rw (b : Z) (write : bool) : K bst unit :=
  x <- getbuf b ;;;
  if write then
    modify (λ s, mkB (bc_lock s) (links s) (bufs s) (<[blockno x := bdata x]> (disk s))
                   (wtrace s ++ [(blockno x, bdata x)]))
  else d <- gets disk ;;; setbuf b (with_data (rd_block d (blockno x))).

Definition acquire_bc : K bst unit := acquire_flag bc_lock set_bc_lock.
Definition release_bc : K bst unit := release_flag bc_lock set_bc_lock.

(** The two scans of the list end at the head after all the buffers. *)
Definition scan (step : Z → K lheap Z) (found : buf → bool) (first : Z) : K bst (option Z) :=
  iter (S (Z.to_nat NBUF)) (λ b,
    if b =? 0 then ret (inr None)
    else
      x <- getbuf b ;;;
      if found x then ret (inr (Some b)) else (b' <- on_links (step b) ;;; ret (inl b'))) first.

Definition bget (me d bno : Z) : K bst Z :=
  acquire_bc ;;;
  first <- on_links (load_next 0) ;;;
  r <- scan load_next (λ x, (dev x =? d) && (blockno x =? bno)) first ;;;
  match r with
  | Some b =>
      setbuf b (with_refcnt (λ r, r + 1)) ;;; release_bc ;;; on_lock b (acquiresleep b me) ;;; ret b
  | None =>
      last <- on_links (load_prev 0) ;;;
      r <- scan load_prev (λ x, refcnt x =? 0) last ;;;
      match r with
      | Some b =>
          setbuf b (λ x, mkBuf false d bno 1 (bdata x) (lock x)) ;;;
          release_bc ;;; on_lock b (acquiresleep b me) ;;; ret b
      | None => panic "bget: no buffers"
      end
  end.

Definition bread (me d bno : Z) : K bst Z :=
  b <- bget me d bno ;;;
  x <- getbuf b ;;;
  (if negb (valid x) then
     virtio_disk_rw b false ;;;
     setbuf b (λ x, mkBuf true (dev x) (blockno x) (refcnt x) (bdata x) (lock x))
   else ret tt) ;;;
  ret b.

Definition bwrite (me b : Z) : K bst unit :=
  h <- on_lock b (holdingsleep me) ;;;
  if negb h then panic "bwrite" else virtio_disk_rw b true.

Definition brelse (me b : Z) : K bst unit :=
  h <- on_lock b (holdingsleep me) ;;;
  if negb h then panic "brelse"
  else
    on_lock b (releasesleep b) ;;;
    acquire_bc ;;;
    setbuf b (with_refcnt (λ r, r - 1)) ;;;
    x <- getbuf b ;;;
    (if refcnt x =? 0 then
       on_links (unlink b) ;;; on_links (link_self b) ;;; on_links (link_head b)
     else ret tt) ;;;
    release_bc.

Definition bpin (b : Z) : K bst unit :=
  acquire_bc ;;; setbuf b (with_refcnt (λ r, r + 1)) ;;; release_bc.
Definition bunpin (b : Z) : K bst unit :=
  acquire_bc ;;; setbuf b (with_refcnt (λ r, r - 1)) ;;; release_bc.

(** [b->blockno] and [b->data] *)
Definition get_blockno (b : Z) : K bst Z := x <- getbuf b ;;; ret (blockno x).
Definition get_data (b : Z) : K bst block := x <- getbuf b ;;; ret (bdata x).
Definition set_data (b : Z) (d : block) : K bst unit := setbuf b (with_data d).
