(* ===== verification/BioSpec.v ===== *)
(** kernel/bio.c implements the interface of BlockCache.v: every block of the
    root device has at most one buffer, the buffers in use carry the abstract
    contents, and recycling the least recently used buffer never drops data
    that the disk does not have. *)

From S2P Require Import Prelude Mem Riscv Spinlock DList BlockCache Bio.
Local Open Scope kernel_scope.

(** ** The buffers and the blocks in use *)

Definition holder (l : sleeplock) : option Z := if sl_locked l then Some (sl_pid l) else None.

Definition use_of (i : nat) (x : buf) : use :=
  mkUse (Z.of_nat i + 1) (refcnt x) (bdata x) (holder (lock x)).

Record bufs_rep (l : list buf) (d : gmap Z block) (m : gmap Z use) : Prop := {
  br_uniq i j x y :
    l !! i = Some x → l !! j = Some y → dev x = ROOTDEV → dev y = ROOTDEV →
    blockno x = blockno y → i = j;
  br_lk i x : l !! i = Some x → sl_lk (lock x) = false ∧ refcnt x < 2 ^ 32;
  br_used i x :
    l !! i = Some x → 0 < refcnt x →
    dev x = ROOTDEV ∧ valid x = true ∧ m !! blockno x = Some (use_of i x);
  br_free i x :
    l !! i = Some x → ¬ 0 < refcnt x →
    refcnt x = 0 ∧ holder (lock x) = None ∧
    (dev x = ROOTDEV → valid x = true → bdata x = rd_block d (blockno x));
  br_back bno u :
    m !! bno = Some u →
    ∃ i x, l !! i = Some x ∧ blockno x = bno ∧ 0 < refcnt x ∧ u = use_of i x
}.

(** A buffer changes and is then in use for the block [bno]. *)
Lemma upd_used l d m i x x' bno :
  bufs_rep l d m → l !! i = Some x →
  (0 < refcnt x → blockno x = bno) →
  (∀ j y, l !! j = Some y → dev y = ROOTDEV → blockno y = bno → j = i) →
  dev x' = ROOTDEV → blockno x' = bno → 0 < refcnt x' < 2 ^ 32 → valid x' = true → sl_lk (lock x') = false →
  bufs_rep (<[i := x']> l) d (<[bno := use_of i x']> m).
Proof.
  intros R Hi Hx Huq Hd Hb Hr Hv Hl. pose proof (lookup_lt_Some _ _ _ Hi) as Hlt.
  pose proof (list_insert_cases l i x') as Hcase.
  split.
  - intros j k y z [[-> ->]|[Hj Hy]]%Hcase [[-> ->]|[Hk Hz]]%Hcase Hdy Hdz Hbe; try done.
    + symmetry. eapply Huq; [exact Hz|done|congruence].
    + eapply Huq; [exact Hy|done|congruence].
    + by eapply (br_uniq _ _ _ R).
  - intros j y [[-> ->]|[Hj Hy]]%Hcase; [split; [done|lia]|]. by eapply (br_lk _ _ _ R).
  - intros j y [[-> ->]|[Hj Hy]]%Hcase Hpos.
    + subst bno. by rewrite lookup_insert_eq.
    + destruct (br_used _ _ _ R _ _ Hy Hpos) as (Hdy & Hvy & Hm). split_and!; [done|done|].
      rewrite lookup_insert_ne; [done|]. intros ->. apply Hj. by eapply Huq.
  - intros j y [[-> ->]|[Hj Hy]]%Hcase Hpos; [lia|]. by eapply (br_free _ _ _ R).
  - intros bno' u. destruct (decide (bno = bno')) as [<-|Hne].
    + rewrite lookup_insert_eq. intros [= <-]. exists i, x'.
      rewrite list_lookup_insert_eq by done. split_and!; [done..|lia|done].
    + rewrite lookup_insert_ne by done. intros (j & y & Hy & Hyb & Hpos & ->)%(br_back _ _ _ R).
      exists j, y. rewrite list_lookup_insert_ne; [done|]. intros ->.
      apply Hne. rewrite Hi in Hy. injection Hy as ->. rewrite <-Hyb. symmetry. by apply Hx.
Qed.

(** The last reference to a buffer is dropped. *)
Lemma upd_free l d m i x x' :
  bufs_rep l d m → l !! i = Some x → 0 < refcnt x → refcnt x' = 0 →
  dev x' = dev x → blockno x' = blockno x → bdata x' = rd_block d (blockno x) →
  holder (lock x') = None → sl_lk (lock x') = false →
  bufs_rep (<[i := x']> l) d (delete (blockno x) m).
Proof.
  intros R Hi Hx Hr Hd Hb Hdata Hh Hl. pose proof (lookup_lt_Some _ _ _ Hi) as Hlt.
  destruct (br_used _ _ _ R _ _ Hi Hx) as (Hdx & _ & _).
  pose proof (list_insert_cases l i x') as Hcase.
  split.
  - intros j k y z [[-> ->]|[Hj Hy]]%Hcase [[-> ->]|[Hk Hz]]%Hcase Hdy Hdz Hbe; try done.
    + eapply (br_uniq _ _ _ R); [exact Hi|exact Hz|congruence..].
    + eapply (br_uniq _ _ _ R); [exact Hy|exact Hi|congruence..].
    + by eapply (br_uniq _ _ _ R).
  - intros j y [[-> ->]|[Hj Hy]]%Hcase; [split; [done|lia]|]. by eapply (br_lk _ _ _ R).
  - intros j y [[-> ->]|[Hj Hy]]%Hcase Hpos; [lia|].
    destruct (br_used _ _ _ R _ _ Hy Hpos) as (Hdy & Hvy & Hm). split_and!; [done|done|].
    rewrite lookup_delete_ne; [done|]. intros He. apply Hj. by eapply (br_uniq _ _ _ R).
  - intros j y [[-> ->]|[Hj Hy]]%Hcase Hpos; [|by eapply (br_free _ _ _ R)].
    split_and!; [done|done|]. intros _ _. by rewrite Hb.
  - intros bno' u (Hne & (j & y & Hy & Hyb & Hpos & ->)%(br_back _ _ _ R))%lookup_delete_Some.
    exists j, y. rewrite list_lookup_insert_ne; [done|]. intros ->.
    apply Hne. rewrite Hi in Hy. injection Hy as ->. done.
Qed.

(** The disk changes at a block in use. *)
Lemma upd_disk l d m bno u b :
  bufs_rep l d m → m !! bno = Some u → bufs_rep l (<[bno := b]> d) m.
Proof.
  intros R Hm. destruct R as [Hu Hl Hus Hf Hb]. split; [done..| |done].
  intros i x Hi Hr. destruct (Hf _ _ Hi Hr) as (H0 & Hh & Hdata). split_and!; [done|done|].
  intros Hd Hv. rewrite Hdata by done. unfold rd_block. rewrite lookup_insert_ne; [done|].
  intros ->. destruct (Hb _ _ Hm) as (j & y & Hy & Hyb & Hpos & _).
  destruct (Hus _ _ Hy Hpos) as (Hdy & _ & _). assert (i = j) as -> by by eapply Hu. congruence.
Qed.

(** When every buffer is in use there are as many blocks in use. *)
Lemma all_used l d m :
  bufs_rep l d m → (∀ i x, l !! i = Some x → 0 < refcnt x) → (length l <= size m)%nat.
Proof.
  intros R Hall.
  assert (Hnd : NoDup (blockno <$> l)).
  { apply NoDup_alt. intros i j b. rewrite !list_lookup_fmap, !fmap_Some.
    intros (x & Hx & ->) (y & Hy & He).
    destruct (br_used _ _ _ R _ _ Hx (Hall _ _ Hx)) as (? & _), (br_used _ _ _ R _ _ Hy (Hall _ _ Hy)) as (? & _).
    by eapply (br_uniq _ _ _ R). }
  assert (Hsub : list_to_set (blockno <$> l) ⊆ dom m).
  { intros b. rewrite elem_of_list_to_set, list_elem_of_fmap. intros (x & -> & [i Hi]%list_elem_of_lookup).
    destruct (br_used _ _ _ R _ _ Hi (Hall _ _ Hi)) as (_ & _ & Hm). by apply elem_of_dom. }
  apply subseteq_size in Hsub. rewrite size_dom, size_list_to_set, length_fmap in Hsub by done. done.
Qed.

(** ** The LRU list *)

Lemma runs_link h l b (Q : lheap → Prop) :
  dlist h 0 l → is_Some (h !! b) → b ∉ 0 :: l →
  (∀ h', dlist h' 0 (b :: l) → (∀ a, is_Some (h !! a) → is_Some (h' !! a)) → Q h') →
  runs (link_self b) h (λ _ h1, runs (link_head b) h1 (λ _ h', Q h')).
Proof.
  intros Hd Hb Hni HQ. pose proof (dlist_next _ _ _ Hd) as Hn. set (n := default 0 (hd_error l)) in *.
  assert (Hna : is_Some (h !! n)).
  { eapply dlist_alloc; [done|]. unfold n. destruct l; simpl; rewrite !elem_of_cons; tauto. }
  assert (H0a : is_Some (h !! 0)) by by eapply nextof_alloc.
  apply not_elem_of_cons in Hni as Hb0. destruct Hb0 as [Hb0 _].
  unfold link_self, link_head. apply runs_bind. eapply runs_load_next; [done|].
  apply runs_bind, runs_store_next; [done|]. intros h1 N1 P1 _.
  assert (A1 : ∀ a, is_Some (h !! a) → is_Some (h1 !! a)) by (intros; by eapply alloc_prev).
  apply runs_store_prev; [auto|]. intros h2 P2 N2 _.
  assert (A2 : ∀ a, is_Some (h1 !! a) → is_Some (h2 !! a)) by (intros; by eapply alloc_next).
  apply runs_bind. apply (runs_load_next _ n).
  { unfold nextof in *. by rewrite N2, N1, decide_False. }
  apply runs_bind, runs_store_prev; [auto|]. intros h3 P3 N3 _.
  apply runs_store_next; [eapply alloc_next; [done|auto]|]. intros h4 N4 P4 _.
  apply HQ; [|intros a Ha; eapply alloc_prev; [done|]; eapply alloc_next; [done|auto]].
  assert (n ≠ b).
  { intros <-. apply Hni. unfold n. destruct l; simpl; rewrite !elem_of_cons; tauto. }
  eapply (dlist_add h h4 0 l b n); [done..| |]; intros a.
  - by rewrite N4, N3, N2, N1.
  - rewrite P4, P3, P2, P1. repeat case_decide; congruence.
Qed.

Lemma runs_unlink_bio h l1 b l2 (Q : lheap → Prop) :
  dlist h 0 (l1 ++ b :: l2) →
  (∀ h', dlist h' 0 (l1 ++ l2) → is_Some (h' !! b) → b ∉ 0 :: l1 ++ l2 → Q h') →
  runs (unlink b) h (λ _ h', Q h').
Proof.
  intros Hd HQ. destruct (dlist_around _ _ _ _ _ Hd) as (Hb & p & n & Hp & Hn & Hpm & Hnm).
  assert (p ≠ b ∧ n ≠ b) as [Hpb Hnb] by (split; intros ->; apply Hb; mem_norm; tauto).
  assert (Hal : ∀ a, a ∈ 0 :: l1 ++ l2 → is_Some (h !! a)).
  { intros a Ha. eapply dlist_alloc; [exact Hd|]. mem_norm. tauto. }
  unfold unlink. apply runs_bind. eapply runs_load_next; [done|].
  apply runs_bind. eapply runs_load_prev; [done|].
  apply runs_bind, runs_store_prev; [apply Hal; mem_norm; tauto|]. intros h1 P1 N1 _.
  apply runs_bind. apply (runs_load_prev _ p). { unfold prevof in *. by rewrite P1, decide_False. }
  apply runs_bind. apply (runs_load_next _ n). { unfold nextof in *. by rewrite N1. }
  apply runs_store_next; [eapply alloc_next; [done|]; apply Hal; mem_norm; tauto|]. intros h2 N2 P2 _.
  destruct (dlist_del h h2 0 l1 b l2 p n) as [Hd' Ha']; [done..| | |by apply HQ].
  - intros a. by rewrite N2, N1.
  - intros a. by rewrite P2, P1.
Qed.

(** Following one field from [x] visits [l] and ends at the head. *)
Fixpoint visits (R : Z → Z → Prop) (x : Z) (l : list Z) : Prop :=
  match l with [] => x = 0 | z :: l' => x = z ∧ z ≠ 0 ∧ ∃ y, R z y ∧ visits R y l' end.

Lemma seg_visits_next h x l : 0 ∉ l → seg h x l 0 → ∃ y, nextof h x y ∧ visits (nextof h) y l.
Proof.
  revert x. induction l as [|z l IH]; intros x; simpl.
  - intros _ [? _]. by exists 0.
  - intros [Hz Hl]%not_elem_of_cons (Hn & _ & Hs). exists z. split; [done|].
    split_and!; [done|done|]. by apply IH.
Qed.

Lemma seg_visits_prev h y l :
  0 ∉ l → seg h 0 l y → ∃ x, prevof h y x ∧ visits (prevof h) x (reverse l).
Proof.
  revert y. induction l as [|z l IH] using rev_ind; intros y; simpl.
  - intros _ [_ ?]. by exists 0.
  - rewrite elem_of_app, list_elem_of_singleton, seg_app, reverse_snoc.
    intros H0 [Hs [_ Hp]]. exists z. split; [done|].
    split_and!; [done|naive_solver|]. apply IH; [tauto|done].
Qed.

(** A scan finds the first buffer of its path that satisfies the test. *)
Definition test_at (l : list buf) (found : buf → bool) (b : Z) : bool :=
  match l !! idx b with Some x => found x | None => false end.

Lemma runs_scan (R : lheap → Z → Z → Prop) step found first l s :
  (∀ h a b Q, R h a b → Q b h → runs (step a) h Q) →
  visits (R (links s)) first l → (length l <= Z.to_nat NBUF)%nat →
  (∀ b, b ∈ l → is_Some (bufs s !! idx b)) →
  runs (scan step found first) s (λ r s', s' = s ∧ r = List.find (test_at (bufs s) found) l).
Proof.
  intros Hstep Hv Hlen Hal. unfold scan.
  apply (runs_iter _ (λ n a s', s' = s ∧ ∃ l', visits (R (links s)) a l' ∧ n = length l' ∧
      (∀ b, b ∈ l' → is_Some (bufs s !! idx b)) ∧
      List.find (test_at (bufs s) found) l' = List.find (test_at (bufs s) found) l)
    ) with (n := length l); [|split; [done|by exists l]|lia].
  intros n a s' (-> & l' & Hv' & -> & Hal' & Hf). destruct l' as [|z l']; simpl in Hv', Hf.
  - subst a. by apply runs_ret.
  - destruct Hv' as (-> & Hz & y & Hy & Hv'). rewrite (proj2 (Z.eqb_neq z 0)) by done.
    destruct (Hal' z) as [x Hx]; [by left|]. apply runs_bind. eapply runs_Ok; [by unfold getbuf; rewrite Hx|].
    unfold test_at in Hf at 1. rewrite Hx in Hf. destruct (found x); [by kred|].
    apply runs_bind, runs_zoom. eapply Hstep; [done|]. replace (set_links (links s) s) with s by by destruct s.
    kred. exists (length l'). simpl. split; [lia|]. split; [done|]. exists l'.
    by eauto 8 using list_elem_of_further.
Qed.

(** ** The representation *)

Definition addrs : list Z := (λ i, Z.of_nat i + 1) <$> seq 0 (Z.to_nat NBUF).

Definition lru_ok (h : lheap) : Prop := ∃ lru, dlist h 0 lru ∧ lru ≡ₚ addrs.

Record brep (s : bst) (a : acache) : Prop := {
  rep_lock : bc_lock s = false;
  rep_lru : lru_ok (links s);
  rep_len : length (bufs s) = Z.to_nat NBUF;
  rep_disk : disk s = adisk a;
  rep_trace : wtrace s = atrace a;
  rep_bufs : bufs_rep (bufs s) (adisk a) (ause a)
}.

Lemma elem_of_addrs b : b ∈ addrs ↔ 1 <= b <= NBUF.
Proof.
  unfold addrs. rewrite list_elem_of_fmap. setoid_rewrite elem_of_seq. split.
  - intros (i & -> & ?). lia.
  - intros ?. exists (Z.to_nat (b - 1)). lia.
Qed.

Lemma idx_lookup (l : list buf) b :
  length l = Z.to_nat NBUF → b ∈ addrs → is_Some (l !! idx b).
Proof. intros Hl Hb%elem_of_addrs. apply lookup_lt_is_Some. unfold idx. lia. Qed.

Lemma idx_addr i : idx (Z.of_nat i + 1) = i.
Proof. unfold idx. lia. Qed.

Lemma addr_of (l : list buf) i : length l = Z.to_nat NBUF → is_Some (l !! i) → Z.of_nat i + 1 ∈ addrs.
Proof. intros Hl Hi%lookup_lt_is_Some. apply elem_of_addrs. lia. Qed.

Lemma runs_getbuf b x s Q : bufs s !! idx b = Some x → Q x s → runs (getbuf b) s Q.
Proof. unfold runs, getbuf. by intros ->. Qed.

Lemma runs_setbuf b f x s (Q : unit → bst → Prop) :
  bufs s !! idx b = Some x → Q tt (set_bufs (<[idx b := f x]> (bufs s)) s) → runs (setbuf b f) s Q.
Proof. unfold runs, setbuf. by intros ->. Qed.

Lemma runs_on_lock {A} b (m : K sleeplock A) x s (Q : A → bst → Prop) :
  bufs s !! idx b = Some x →
  runs m (lock x) (λ v l, Q v (set_bufs (<[idx b := with_lock l x]> (bufs s)) s)) →
  runs (on_lock b m) s Q.
Proof.
  intros Hx Hm. unfold on_lock. apply runs_bind. eapply runs_getbuf; [done|].
  by apply (runs_zoom (λ _, lock x)).
Qed.

(** The buffer of a block in use. *)
Lemma rep_use s a bno u :
  brep s a → ause a !! bno = Some u →
  ∃ i x, bufs s !! i = Some x ∧ idx (uh u) = i ∧ u = use_of i x ∧ blockno x = bno ∧ dev x = ROOTDEV ∧
    0 < refcnt x < 2 ^ 32 ∧ valid x = true ∧ sl_lk (lock x) = false ∧
    (∀ j y, bufs s !! j = Some y → dev y = ROOTDEV → blockno y = bno → j = i).
Proof.
  intros R Hu. destruct (br_back _ _ _ (rep_bufs _ _ R) _ _ Hu) as (i & x & Hx & Hb & Hpos & ->).
  destruct (br_used _ _ _ (rep_bufs _ _ R) _ _ Hx Hpos) as (Hd & Hv & _).
  destruct (br_lk _ _ _ (rep_bufs _ _ R) _ _ Hx) as [Hlk Hlt].
  exists i, x. split_and!; try done; [apply idx_addr|].
  intros j y Hy Hdy Hby. eapply (br_uniq _ _ _ (rep_bufs _ _ R)); [done..|congruence].
Qed.

(** Changing the buffer of a block in use. *)
Lemma rep_update s a bno i x x' s' :
  brep s a → bufs s !! i = Some x → blockno x = bno →
  (∀ j y, bufs s !! j = Some y → dev y = ROOTDEV → blockno y = bno → j = i) →
  dev x' = ROOTDEV → blockno x' = bno → 0 < refcnt x' < 2 ^ 32 → valid x' = true → sl_lk (lock x') = false →
  s' = set_bufs (<[i := x']> (bufs s)) s →
  brep s' (set_use bno (use_of i x') a).
Proof.
  intros R Hx Hb Hu Hd' Hb' Hr' Hv' Hl' ->. destruct R as [Hl Hlru Hlen Hd Ht Hbufs].
  split; try done; simpl; [by rewrite length_insert|]. by eapply upd_used.
Qed.

Lemma set_bufs_twice l l' s : set_bufs l (set_bufs l' s) = set_bufs l s.
Proof. done. Qed.
Lemma set_bc_bufs l b s : set_bc_lock b (set_bufs l (set_bc_lock true s)) = set_bufs l (set_bc_lock b s).
Proof. done. Qed.
Lemma set_bc_same s : bc_lock s = false → set_bc_lock false s = s.
Proof. destruct s. simpl. by intros ->. Qed.

(** ** The laws *)

Lemma bio_data_law bno u s a :
  brep s a → ause a !! bno = Some u →
  runs (get_data (uh u)) s (λ d s', d = udata u ∧ s' = s).
Proof.
  intros R Hu. destruct (rep_use _ _ _ _ R Hu) as (i & x & Hx & Hi & -> & _).
  unfold get_data. apply runs_bind. eapply runs_getbuf; [by rewrite Hi|]. by kred.
Qed.

Lemma bio_blockno_law bno u s a :
  brep s a → ause a !! bno = Some u →
  runs (get_blockno (uh u)) s (λ v s', v = bno ∧ s' = s).
Proof.
  intros R Hu. destruct (rep_use _ _ _ _ R Hu) as (i & x & Hx & Hi & -> & Hb & _).
  unfold get_blockno. apply runs_bind. eapply runs_getbuf; [by rewrite Hi|]. by kred.
Qed.

Lemma bio_set_data_law bno u d s a :
  brep s a → ause a !! bno = Some u →
  runs (set_data (uh u) d) s (λ _ s', brep s' (set_use bno (mkUse (uh u) (uref u) d (ulock u)) a)).
Proof.
  intros R Hu. destruct (rep_use _ _ _ _ R Hu) as (i & x & Hx & Hi & -> & Hb & Hd & Hr & Hv & Hl & Hq).
  unfold set_data. eapply runs_setbuf; [by rewrite Hi|]. rewrite Hi.
  by eapply (rep_update s a bno i x (with_data d x)).
Qed.

Lemma bio_pin b g bno u s a :
  brep s a → ause a !! bno = Some u → b = uh u → 0 < g (uref u) < 2 ^ 32 →
  runs (acquire_bc ;;; setbuf b (with_refcnt g) ;;; release_bc) s (λ _ s',
    brep s' (set_use bno (mkUse (uh u) (g (uref u)) (udata u) (ulock u)) a)).
Proof.
  intros R Hu -> Hg. destruct (rep_use _ _ _ _ R Hu) as (i & x & Hx & Hi & -> & Hb & Hd & Hr & Hv & Hl & Hq).
  simpl in Hg. apply runs_bind, runs_acquire_flag; [apply R|].
  apply runs_bind. eapply runs_setbuf; [by rewrite Hi|]. rewrite Hi.
  apply runs_release_flag; [done|]. rewrite set_bc_bufs, set_bc_same by apply R.
  assert (Hu32 : u32 (g (refcnt x)) = g (refcnt x)) by (apply u32_small; lia).
  pose proof (rep_update s a bno i x (with_refcnt g x)) as HR. unfold use_of in HR. simpl in HR.
  rewrite Hu32 in HR. by apply HR.
Qed.

Lemma bio_bpin_law bno u s a :
  brep s a → ause a !! bno = Some u → uref u + 1 < 2 ^ 32 →
  runs (bpin (uh u)) s (λ _ s', brep s' (set_use bno (mkUse (uh u) (uref u + 1) (udata u) (ulock u)) a)).
Proof.
  intros R Hu Hr. destruct (rep_use _ _ _ _ R Hu) as (i & x & _ & _ & -> & _ & _ & Hpos & _).
  simpl in Hr. eapply bio_pin; [done|done|done|simpl; lia].
Qed.

Lemma bio_bunpin_law bno u s a :
  brep s a → ause a !! bno = Some u → 1 < uref u →
  runs (bunpin (uh u)) s (λ _ s', brep s' (set_use bno (mkUse (uh u) (uref u - 1) (udata u) (ulock u)) a)).
Proof.
  intros R Hu Hr. destruct (rep_use _ _ _ _ R Hu) as (i & x & _ & _ & -> & _ & _ & Hpos & _).
  simpl in Hr. eapply bio_pin; [done|done|done|simpl; lia].
Qed.

Lemma holder_Some l me : holder l = Some me ↔ sl_locked l = true ∧ sl_pid l = me.
Proof. unfold holder. destruct (sl_locked l); naive_solver. Qed.
Lemma holder_None l : holder l = None ↔ sl_locked l = false.
Proof. unfold holder. by destruct (sl_locked l). Qed.

Lemma runs_holds b me x s (Q : bool → bst → Prop) :
  bufs s !! idx b = Some x → sl_lk (lock x) = false →
  Q (bool_decide (holder (lock x) = Some me)) s →
  runs (on_lock b (holdingsleep me)) s Q.
Proof.
  intros Hx Hl HQ. eapply runs_on_lock; [done|]. apply runs_holdingsleep; [done|].
  replace (with_lock (lock x) x) with x by by destruct x.
  rewrite list_insert_id by done. replace (set_bufs (bufs s) s) with s by by destruct s.
  unfold holder in HQ. destruct (sl_locked (lock x)); simpl; [|done].
  destruct (Z.eqb_spec (sl_pid (lock x)) me); [by rewrite bool_decide_true in HQ by congruence|].
  by rewrite bool_decide_false in HQ by congruence.
Qed.

Lemma bio_bwrite_law me bno u s a :
  brep s a → ause a !! bno = Some u → ulock u = Some me →
  runs (bwrite me (uh u)) s (λ _ s', brep s' (written bno u a)).
Proof.
  intros R Hu Hlk. destruct (rep_use _ _ _ _ R Hu) as (i & x & Hx & Hi & -> & Hb & Hd & Hr & Hv & Hl & Hq).
  unfold bwrite. apply runs_bind. eapply runs_holds; [by rewrite Hi|done|].
  rewrite bool_decide_true by done. unfold virtio_disk_rw. cbn [negb].
  apply runs_bind. eapply runs_getbuf; [by rewrite Hi|]. kred.
  destruct R as [Hl' Hlru Hlen Hdi Ht Hbufs]. split; try done; simpl.
  - by rewrite Hb, Hdi.
  - by rewrite Hb, Ht.
  - by eapply upd_disk.
Qed.

(** Taking the lock of a buffer that nobody holds. *)
Lemma runs_lock_buf b me x s (Q : unit → bst → Prop) :
  bufs s !! idx b = Some x → sl_lk (lock x) = false → holder (lock x) = None →
  Q tt (set_bufs (<[idx b := with_lock (mkSleep true me false (sl_woken (lock x))) x]> (bufs s)) s) →
  runs (on_lock b (acquiresleep b me)) s Q.
Proof.
  intros Hx Hl Hh%holder_None HQ. eapply runs_on_lock; [done|]. by apply runs_acquiresleep.
Qed.

Lemma lru_move h b : lru_ok h → b ∈ addrs → ∃ l1 l2, dlist h 0 (l1 ++ b :: l2) ∧ b :: l1 ++ l2 ≡ₚ addrs.
Proof.
  intros (lru & Hd & Hp) Hb. rewrite <-Hp in Hb. apply list_elem_of_split in Hb as (l1 & l2 & ->).
  exists l1, l2. split; [done|]. by rewrite <-Hp, Permutation_middle.
Qed.

Lemma runs_to_front b s (Q : bst → Prop) :
  lru_ok (links s) → b ∈ addrs → (∀ h, lru_ok h → Q (set_links h s)) →
  runs (on_links (unlink b) ;;; on_links (link_self b) ;;; on_links (link_head b)) s (λ _ s', Q s').
Proof.
  intros Hlru Hb HQ. destruct (lru_move _ _ Hlru Hb) as (l1 & l2 & Hd & Hp).
  apply runs_bind, runs_zoom. eapply runs_unlink_bio; [done|]. intros h1 Hd1 Ha Hni.
  apply runs_bind, runs_zoom. eapply runs_mono.
  { apply (runs_link h1 (l1 ++ l2) b lru_ok); [done..|]. intros h2 Hd2 _. by exists (b :: l1 ++ l2). }
  intros [] h2 Hrest. apply runs_zoom. eapply runs_mono; [exact Hrest|]. intros [] h3 Hd3. by apply HQ.
Qed.

Lemma bio_brelse_law me bno u s a :
  brep s a → ause a !! bno = Some u → ulock u = Some me →
  (uref u = 1 → udata u = rd_block (adisk a) bno) →
  runs (brelse me (uh u)) s (λ _ s', brep s' (released bno u a)).
Proof.
  intros R Hu Hlk Hdisk.
  destruct (rep_use _ _ _ _ R Hu) as (i & x & Hx & Hi & -> & Hb & Hd & Hr & Hv & Hl & Hq).
  simpl in Hdisk, Hlk. assert (Hba : uh (use_of i x) ∈ addrs) by (eapply addr_of; [apply R|by eexists]).
  revert Hi Hba. generalize (uh (use_of i x)). intros b Hi Hba.
  assert (Hlt : (i < length (bufs s))%nat) by by eapply lookup_lt_Some.
  unfold brelse. apply runs_bind. eapply runs_holds; [by rewrite Hi|done|].
  rewrite bool_decide_true by done. cbn [negb].
  apply runs_bind. eapply runs_on_lock; [by rewrite Hi|]. apply runs_releasesleep; [done|].
  apply runs_bind, runs_acquire_flag; [apply R|]. rewrite Hi.
  apply runs_bind. eapply runs_setbuf; [rewrite Hi; simpl; by rewrite list_lookup_insert_eq|].
  rewrite Hi. simpl. rewrite list_insert_insert_eq.
  apply runs_bind. eapply runs_getbuf; [rewrite Hi; simpl; by rewrite list_lookup_insert_eq|].
  set (x' := with_refcnt _ _).
  assert (Hr' : refcnt x' = refcnt x - 1) by (unfold x'; simpl; apply u32_small; lia).
  rewrite Hr'. unfold released. simpl. destruct (Z.eqb_spec (refcnt x - 1) 0) as [E|E].
  - rewrite (proj2 (Z.eqb_eq _ _)) by lia. apply runs_bind.
    apply (runs_to_front b _ (λ s1, runs release_bc s1 _)); [apply R|done|]. intros h Hh.
    apply runs_release_flag; [done|]. destruct R as [Hl' Hlru Hlen Hdi Ht Hbufs].
    split; try done; simpl; [by rewrite length_insert|]. subst bno.
    eapply upd_free; try done; [lia|lia|]. simpl. apply Hdisk. lia.
  - rewrite (proj2 (Z.eqb_neq _ _)) by lia. kred. apply runs_release_flag; [done|].
    pose proof (rep_update s a bno i x x') as HR. unfold use_of in HR. rewrite Hr' in HR. apply HR; try done.
    + lia.
    + unfold set_bc_lock, set_bufs. simpl. by rewrite (rep_lock _ _ R).
Qed.

(** What bget leaves in the buffer it returns. *)
Definition got (me bno : Z) (s : bst) (a : acache) (b : Z) (s' : bst) : Prop :=
  ∃ i x x', bufs s !! i = Some x ∧ b = Z.of_nat i + 1 ∧ (0 < refcnt x → blockno x = bno) ∧
    (∀ j y, bufs s !! j = Some y → dev y = ROOTDEV → blockno y = bno → j = i) ∧
    s' = set_bufs (<[i := x']> (bufs s)) s ∧
    dev x' = ROOTDEV ∧ blockno x' = bno ∧ sl_lk (lock x') = false ∧ holder (lock x') = Some me ∧
    match ause a !! bno with
    | Some u => b = uh u ∧ valid x' = true ∧ bdata x' = udata u ∧ refcnt x' = uref u + 1
    | None => refcnt x' = 1 ∧ (valid x' = true → bdata x' = rd_block (adisk a) bno)
    end.

Lemma find_buf l (found : buf → bool) path :
  match List.find (test_at l found) path with
  | Some b => b ∈ path ∧ ∃ x, l !! idx b = Some x ∧ found x = true
  | None => ∀ b x, b ∈ path → l !! idx b = Some x → found x = false
  end.
Proof.
  destruct (List.find _ _) as [b|] eqn:E.
  - apply List.find_some in E as [Hb%list_elem_of_In Ht]. split; [done|]. unfold test_at in Ht.
    destruct (l !! idx b) as [x|]; [|done]. by exists x.
  - intros b x Hb%list_elem_of_In Hx. pose proof (List.find_none _ _ E b Hb) as Ht. unfold test_at in Ht.
    by rewrite Hx in Ht.
Qed.

Lemma length_lru h lru : dlist h 0 lru → lru ≡ₚ addrs → (length lru <= Z.to_nat NBUF)%nat.
Proof. intros _ ->. unfold addrs. by rewrite length_fmap, length_seq. Qed.

(** The end of both branches of bget. *)
Lemma runs_bget_end me b f x s Q :
  bc_lock s = false → bufs s !! idx b = Some x → sl_lk (lock (f x)) = false → holder (lock (f x)) = None →
  Q b (set_bufs (<[idx b := with_lock (mkSleep true me false (sl_woken (lock (f x)))) (f x)]> (bufs s)) s) →
  runs (setbuf b f ;;; release_bc ;;; on_lock b (acquiresleep b me) ;;; ret b) (set_bc_lock true s) Q.
Proof.
  intros Hbc Hx Hl Hh HQ. assert (Hlt : (idx b < length (bufs s))%nat) by by eapply lookup_lt_Some.
  apply runs_bind. eapply runs_setbuf; [done|].
  apply runs_bind, runs_release_flag; [done|]. rewrite set_bc_bufs, set_bc_same by done.
  apply runs_bind. eapply runs_lock_buf; [simpl; by rewrite list_lookup_insert_eq|done|done|].
  simpl. rewrite list_insert_insert_eq, set_bufs_twice. by apply runs_ret.
Qed.

Lemma bget_hit me bno s a b x :
  brep s a → can_take bno a → b ∈ addrs → bufs s !! idx b = Some x → dev x = ROOTDEV → blockno x = bno →
  runs (setbuf b (with_refcnt (λ r, r + 1)) ;;; release_bc ;;; on_lock b (acquiresleep b me) ;;; ret b)
    (set_bc_lock true s) (got me bno s a).
Proof.
  intros R Hc Hb%elem_of_addrs Hx Hd Hbn. pose proof (rep_bufs _ _ R) as B.
  destruct (br_lk _ _ _ B _ _ Hx) as [Hl Hlt].
  assert (Hu : ∀ j y, bufs s !! j = Some y → dev y = ROOTDEV → blockno y = bno → j = idx b).
  { intros j y Hy Hdy Hby. eapply (br_uniq _ _ _ B); [done..|congruence]. }
  assert (Hbi : b = Z.of_nat (idx b) + 1) by (unfold idx; lia).
  unfold can_take in Hc. destruct (decide (0 < refcnt x)) as [Hpos|Hz].
  - destruct (br_used _ _ _ B _ _ Hx Hpos) as (_ & Hv & Hm). rewrite Hbn in Hm. rewrite Hm in Hc.
    destruct Hc as [Hh Hr]. simpl in Hh, Hr.
    eapply runs_bget_end; [apply R|done|done|done|].
    eexists (idx b), x, _. rewrite Hm. split_and!; try done; simpl. by apply u32_small; lia.
  - destruct (br_free _ _ _ B _ _ Hx Hz) as (H0 & Hh & Hdata).
    eapply runs_bget_end; [apply R|done|done|done|].
    assert (Hm : ause a !! bno = None).
    { destruct (ause a !! bno) as [u|] eqn:Hm; [|done].
      destruct (rep_use _ _ _ _ R Hm) as (i & y & Hy & _ & _ & _ & _ & Hpos & _ & _ & Hq).
      rewrite (Hq _ _ Hx Hd Hbn) in Hx. naive_solver lia. }
    eexists (idx b), x, _. rewrite Hm. split_and!; try done; simpl.
    + by rewrite H0.
    + intros Hv. rewrite <-Hbn. by apply Hdata.
Qed.

Lemma bget_miss me bno s a b x :
  brep s a → b ∈ addrs → bufs s !! idx b = Some x → refcnt x = 0 →
  (∀ j y, bufs s !! j = Some y → ¬ (dev y = ROOTDEV ∧ blockno y = bno)) →
  runs (setbuf b (λ x, mkBuf false ROOTDEV bno 1 (bdata x) (lock x)) ;;; release_bc ;;;
        on_lock b (acquiresleep b me) ;;; ret b) (set_bc_lock true s) (got me bno s a).
Proof.
  intros R Hb%elem_of_addrs Hx H0 Hno. pose proof (rep_bufs _ _ R) as B.
  destruct (br_lk _ _ _ B _ _ Hx) as [Hl Hlt].
  destruct (br_free _ _ _ B _ _ Hx) as (_ & Hh & _); [lia|].
  assert (Hbi : b = Z.of_nat (idx b) + 1) by (unfold idx; lia).
  assert (Hm : ause a !! bno = None).
  { destruct (ause a !! bno) as [u|] eqn:Hm; [|done].
    destruct (rep_use _ _ _ _ R Hm) as (i & y & Hy & _ & _ & Hby & Hdy & _). by destruct (Hno _ _ Hy). }
  eapply runs_bget_end; [apply R|done|done|done|].
  eexists (idx b), x, _. rewrite Hm. split_and!; try done; simpl; [lia|].
  intros j y Hy Hdy Hby. by destruct (Hno _ _ Hy).
Qed.

(** A miss finds a buffer to recycle. *)
Lemma some_free bno s a :
  brep s a → can_take bno a →
  (∀ j y, bufs s !! j = Some y → ¬ (dev y = ROOTDEV ∧ blockno y = bno)) →
  ¬ (∀ j y, bufs s !! j = Some y → refcnt y ≠ 0).
Proof.
  intros R Hc Hno Hall. pose proof (rep_bufs _ _ R) as B. unfold can_take in Hc.
  destruct (ause a !! bno) as [u|] eqn:Hm.
  - destruct (rep_use _ _ _ _ R Hm) as (i & y & Hy & _ & _ & Hby & Hdy & _). by destruct (Hno _ _ Hy).
  - assert (length (bufs s) <= size (ause a))%nat as Hlen.
    { eapply all_used; [done|]. intros i x Hx. destruct (decide (0 < refcnt x)) as [|Hz]; [done|].
      destruct (br_free _ _ _ B _ _ Hx Hz) as [? _]. by destruct (Hall _ _ Hx). }
    rewrite (rep_len _ _ R) in Hlen. lia.
Qed.

(** bget as two searches: the most recently used buffer of the block, or the
    least recently used one that nobody uses. *)
Lemma bget_scans me d bno s a :
  brep s a → ∃ lru, lru ≡ₚ addrs ∧
  bget me d bno s =
    match List.find (test_at (bufs s) (λ x, (dev x =? d) && (blockno x =? bno))) lru with
    | Some b =>
        (setbuf b (with_refcnt (λ r, r + 1)) ;;; release_bc ;;; on_lock b (acquiresleep b me) ;;; ret b)
          (set_bc_lock true s)
    | None =>
        match List.find (test_at (bufs s) (λ x, refcnt x =? 0)) (reverse lru) with
        | Some b =>
            (setbuf b (λ x, mkBuf false d bno 1 (bdata x) (lock x)) ;;;
             release_bc ;;; on_lock b (acquiresleep b me) ;;; ret b) (set_bc_lock true s)
        | None => Panic "bget: no buffers"
        end
    end.
Proof.
  intros R. destruct (rep_lru _ _ R) as (lru & Hd & Hp). pose proof (length_lru _ _ Hd Hp) as Hlen.
  exists lru. split; [done|]. assert (H0 : 0 ∉ lru) by (by destruct Hd as [[? _]%NoDup_cons _]).
  destruct (seg_visits_next _ _ _ H0 (proj2 Hd)) as (f & Hf & Hvf).
  destruct (seg_visits_prev _ _ _ H0 (proj2 Hd)) as (p & Hpv & Hvp).
  assert (Hal : ∀ b, b ∈ lru → is_Some (bufs s !! idx b)).
  { intros b. rewrite Hp. apply idx_lookup, R. }
  set (s1 := set_bc_lock true s).
  assert (Hacq : acquire_bc s = Ok tt s1) by (unfold acquire_bc, acquire_flag; by rewrite (rep_lock _ _ R)).
  assert (Hfirst : on_links (load_next 0) s1 = Ok f s1).
  { destruct (runs_elim (on_links (load_next 0)) s1 (λ v s', v = f ∧ s' = s1)) as (? & ? & E & -> & ->);
      [by eapply runs_zoom, runs_load_next|done]. }
  assert (Hlast : on_links (load_prev 0) s1 = Ok p s1).
  { destruct (runs_elim (on_links (load_prev 0)) s1 (λ v s', v = p ∧ s' = s1)) as (? & ? & E & -> & ->);
      [by eapply runs_zoom, runs_load_prev|done]. }
  assert (Hscan1 : ∀ t, scan load_next t f s1 = Ok (List.find (test_at (bufs s) t) lru) s1).
  { intros t. edestruct (runs_elim _ _ _ (runs_scan nextof load_next t f lru s1
      (λ h x y, runs_load_next x y h) Hvf Hlen Hal)) as (? & ? & E & -> & ->). exact E. }
  assert (Hscan2 : ∀ t, scan load_prev t p s1 = Ok (List.find (test_at (bufs s) t) (reverse lru)) s1).
  { intros t. assert (Hlen' : (length (reverse lru) <= Z.to_nat NBUF)%nat) by by rewrite length_reverse.
    assert (Hal' : ∀ b, b ∈ reverse lru → is_Some (bufs s !! idx b)).
    { intros b. rewrite elem_of_reverse. apply Hal. }
    edestruct (runs_elim _ _ _ (runs_scan prevof load_prev t p (reverse lru) s1
      (λ h x y, runs_load_prev x y h) Hvp Hlen' Hal')) as (? & ? & E & -> & ->). exact E. }
  unfold bget. rewrite (bind_Ok _ _ _ _ _ Hacq), (bind_Ok _ _ _ _ _ Hfirst), (bind_Ok _ _ _ _ _ (Hscan1 _)).
  destruct (List.find _ lru); [done|].
  rewrite (bind_Ok _ _ _ _ _ Hlast), (bind_Ok _ _ _ _ _ (Hscan2 _)). by destruct (List.find _ _).
Qed.

(** The searches miss exactly when no buffer satisfies the test. *)
Lemma find_none_all (l : list buf) found path :
  length l = Z.to_nat NBUF → path ≡ₚ addrs → List.find (test_at l found) path = None →
  ∀ j y, l !! j = Some y → found y = false.
Proof.
  intros Hlen Hp Hf j y Hy. pose proof (find_buf l found path) as Hr. rewrite Hf in Hr.
  apply (Hr (Z.of_nat j + 1)); [|by rewrite idx_addr]. rewrite Hp. eapply addr_of; [done|by eexists].
Qed.

Lemma bget_spec me bno s a :
  brep s a → can_take bno a → runs (bget me ROOTDEV bno) s (got me bno s a).
Proof.
  intros R Hc. destruct (bget_scans me ROOTDEV bno s a R) as (lru & Hp & E). unfold runs. rewrite E. clear E.
  match goal with |- context [List.find (test_at _ ?f) lru] =>
    pose proof (find_buf (bufs s) f lru) as Hr; pose proof (find_none_all (bufs s) f lru) as Hn end.
  destruct (List.find _ lru) as [b|].
  - destruct Hr as (Hb & x & Hx & [Hdx%Z.eqb_eq Hbx%Z.eqb_eq]%andb_true_iff). rewrite Hp in Hb.
    by apply (bget_hit me bno s a b x).
  - assert (Hno : ∀ j y, bufs s !! j = Some y → ¬ (dev y = ROOTDEV ∧ blockno y = bno)).
    { intros j y Hy [E1 E2]. apply Hn in Hy; [|apply R|done|done]. by rewrite E1, E2, !Z.eqb_refl in Hy. }
    clear Hr Hn. pose proof (find_buf (bufs s) (λ x, refcnt x =? 0) (reverse lru)) as Hr.
    pose proof (find_none_all (bufs s) (λ x, refcnt x =? 0) (reverse lru)) as Hn.
    destruct (List.find _ _) as [b|].
    + destruct Hr as (Hb & x & Hx & Hx0%Z.eqb_eq). rewrite elem_of_reverse, Hp in Hb.
      by apply (bget_miss me bno s a b x).
    + destruct (some_free _ _ _ R Hc Hno). intros j y Hy.
      apply Z.eqb_neq. apply (Hn (rep_len _ _ R)) with j; [by rewrite reverse_Permutation|done|done].
Qed.

Lemma bio_bread_law me bno s a :
  brep s a → can_take bno a →
  runs (bread me ROOTDEV bno) s (λ h s',
    brep s' (taken me bno h a) ∧ ∀ u, ause a !! bno = Some u → h = uh u).
Proof.
  intros R Hc. unfold bread. apply runs_bind. eapply runs_mono; [by apply bget_spec|].
  intros b s1 (i & x & x' & Hx & Hb & Hxb & Hu & -> & Hd & Hbn & Hl & Hh & Hm).
  assert (Hi : idx b = i) by (unfold idx; lia).
  assert (Hlt : (i < length (bufs s))%nat) by by eapply lookup_lt_Some.
  apply runs_bind. eapply (runs_getbuf _ x'); [simpl; rewrite Hi; by rewrite list_lookup_insert_eq|].
  set (x'' := mkBuf true ROOTDEV bno (refcnt x') (aview a bno) (lock x')).
  assert (Hend : brep (set_bufs (<[i := x'']> (bufs s)) s) (taken me bno b a) ∧
      ∀ u, ause a !! bno = Some u → b = uh u).
  { split; [|intros u Hu'; rewrite Hu' in Hm; tauto].
    pose proof (rep_use s a bno) as Hru. unfold can_take in Hc. unfold aview in x''.
    destruct R as [Hl' Hlru Hlen Hdi Ht Hbufs]. split; try done; simpl; [by rewrite length_insert|].
    replace (match ause a !! bno with Some u => _ | None => _ end) with (use_of i x'').
    - eapply upd_used; try done. simpl. destruct (ause a !! bno) as [u|]; [|lia].
      destruct (Hru u) as (? & ? & _ & _ & -> & _ & _ & Hpos & _); [done..|]. simpl in *. lia.
    - unfold use_of, x''. simpl. rewrite Hh, <-Hb.
      destruct (ause a !! bno); [|by destruct Hm as [-> _]]. by destruct Hm as (_ & _ & _ & ->). }
  destruct (valid x') eqn:Hv; simpl.
  - kred. replace x' with x'' at 1; [done|]. unfold x'', aview. destruct x'; simpl in *. subst.
    f_equal. destruct (ause a !! bno); [symmetry; tauto|]. symmetry. by apply Hm.
  - apply runs_bind. unfold virtio_disk_rw. apply runs_bind, runs_bind.
    eapply (runs_getbuf _ x'); [simpl; rewrite Hi; by rewrite list_lookup_insert_eq|]. kred.
    eapply (runs_setbuf _ _ x'); [simpl; rewrite Hi; by rewrite list_lookup_insert_eq|]. simpl.
    rewrite Hi, list_insert_insert_eq, set_bufs_twice.
    eapply runs_setbuf; [simpl; rewrite Hi; by rewrite list_lookup_insert_eq|]. kred. simpl.
    rewrite Hi, list_insert_insert_eq, set_bufs_twice.
    replace (mkBuf _ _ _ _ _ _) with x''; [done|]. unfold x'', aview. rewrite Hd, Hbn, (rep_disk _ _ R).
    destruct (ause a !! bno); [|done]. by destruct Hm as (_ & ? & _).
Qed.

(** ** bio.c as an instance of the interface *)

Lemma bio_rep_pos bno u s a : brep s a → ause a !! bno = Some u → 1 <= uref u.
Proof. intros R Hu. destruct (rep_use _ _ _ _ R Hu) as (i & x & _ & _ & -> & _ & _ & Hr & _). simpl. lia. Qed.

#[export] Instance bio_cache : BlockCache bst := {
  c_bread := bread; c_bwrite := bwrite; c_brelse := brelse; c_bpin := bpin; c_bunpin := bunpin;
  c_blockno := get_blockno; c_data := get_data; c_set_data := set_data; c_rep := brep; c_trace := wtrace; c_rep_trace := rep_trace; c_rep_pos := bio_rep_pos;
  c_bread_law := bio_bread_law; c_blockno_law := bio_blockno_law; c_data_law := bio_data_law; c_set_data_law := bio_set_data_law;
  c_bwrite_law := bio_bwrite_law; c_brelse_law := bio_brelse_law;
  c_bpin_law := bio_bpin_law; c_bunpin_law := bio_bunpin_law
}.

(** ** Initialisation *)

Definition zero_buf : buf := mkBuf false 0 0 0 zero_block initsleeplock.

(** The cache before binit: static storage, all zero, and the link fields of
    the head and of every buffer. *)
Definition bss_cache (s : bst) : Prop :=
  bufs s = replicate (Z.to_nat NBUF) zero_buf ∧ ∀ b, 0 <= b <= NBUF → is_Some (links s !! b).

Lemma runs_first_link h (Q : lheap → Prop) :
  is_Some (h !! 0) → (∀ h', dlist h' 0 [] → (∀ b, is_Some (h !! b) → is_Some (h' !! b)) → Q h') →
  runs (store_prev 0 0) h (λ _ h1, runs (store_next 0 0) h1 (λ _ h', Q h')).
Proof.
  intros H0 HQ. apply runs_store_prev; [done|]. intros h1 P1 N1 _.
  apply runs_store_next; [by eapply alloc_next|]. intros h2 N2 P2 _. apply HQ.
  - split; [apply NoDup_singleton|]. simpl. unfold nextof, prevof. by rewrite N2, P2, P1, !decide_True.
  - intros b Hb. eapply alloc_prev; [done|]. by eapply alloc_next.
Qed.

Definition upto (b : Z) : list Z := reverse ((λ i, Z.of_nat i + 1) <$> seq 0 (Z.to_nat (b - 1))).

Lemma upto_step b : 1 <= b → upto (b + 1) = b :: upto b.
Proof.
  intros Hb. unfold upto. replace (Z.to_nat (b + 1 - 1)) with (S (Z.to_nat (b - 1))) by lia.
  rewrite seq_S, fmap_app. simpl. rewrite reverse_snoc. f_equal. lia.
Qed.

Lemma elem_of_upto b x : x ∈ upto b ↔ 1 <= x < b.
Proof.
  unfold upto. rewrite elem_of_reverse, list_elem_of_fmap. setoid_rewrite elem_of_seq. split.
  - intros (i & -> & ?). lia.
  - intros ?. exists (Z.to_nat (x - 1)). lia.
Qed.

Lemma bufs_rep_empty d : bufs_rep (replicate (Z.to_nat NBUF) zero_buf) d ∅.
Proof.
  split.
  - intros i j x y [-> _]%lookup_replicate. done.
  - intros i x [-> _]%lookup_replicate. done.
  - intros i x [-> _]%lookup_replicate. done.
  - intros i x [-> _]%lookup_replicate. done.
  - intros bno u. by rewrite lookup_empty.
Qed.

(** The links after the first [b - 1] rounds of binit's loop. *)
Definition linked (s : bst) (b : Z) (s1 : bst) : Prop :=
  ∃ h, s1 = set_links h (set_bc_lock false s) ∧ dlist h 0 (upto b) ∧
    ∀ c, 0 <= c <= NBUF → is_Some (h !! c).

Lemma binit_round s b s1 :
  bufs s = replicate (Z.to_nat NBUF) zero_buf → linked s b s1 → 1 <= b <= NBUF →
  runs (on_links (link_self b) ;;; setbuf b (with_lock initsleeplock) ;;; on_links (link_head b)) s1
    (λ _ s2, linked s (b + 1) s2).
Proof.
  intros Hbufs (h & -> & Hd & Hal) Hb. apply runs_bind, runs_zoom. eapply runs_mono.
  { apply (runs_link h (upto b) b
      (λ h', dlist h' 0 (upto (b + 1)) ∧ ∀ c, 0 <= c <= NBUF → is_Some (h' !! c))); [done|apply Hal; lia| |].
    - rewrite elem_of_cons, elem_of_upto. lia.
    - intros h' Hd' Ha. rewrite upto_step by lia. split; [done|]. intros c Hc. by apply Ha, Hal. }
  intros [] h1 Hrest. apply runs_bind.
  assert (Hz : bufs s !! idx b = Some zero_buf).
  { rewrite Hbufs, lookup_replicate. split; [done|]. unfold idx. lia. }
  eapply runs_setbuf; [exact Hz|]. apply runs_zoom. eapply runs_mono; [exact Hrest|].
  intros [] h2 [Hd2 Ha2]. exists h2. split; [|done]. simpl.
  rewrite list_insert_id by exact Hz. by destruct s.
Qed.

Lemma bind_assoc3 {S A B} (m1 m2 m3 : K S unit) (k : K S (A + B)) s :
  (m1 ;;; m2 ;;; m3 ;;; k) s = ((m1 ;;; m2 ;;; m3) ;;; k) s.
Proof. unfold bind. destruct (m1 s); try done. by destruct (m2 s0). Qed.

Lemma runs_binit s :
  bss_cache s → runs binit s (λ _ s', brep s' (mkA (disk s) ∅ (wtrace s))).
Proof.
  intros [Hbufs Hal]. unfold binit. apply runs_bind, runs_modify, runs_bind, runs_zoom.
  eapply runs_mono.
  { apply (runs_first_link _ (λ h, linked s 1 (set_links h (set_bc_lock false s)))); [apply Hal; by vm_compute|].
    intros h Hd Ha. exists h. split; [done|]. split; [done|]. intros c Hc. by apply Ha, Hal. }
  intros [] h1 Hrest. apply runs_bind, runs_zoom. eapply runs_mono; [exact Hrest|]. clear Hrest.
  intros [] h2 Hl.
  apply (runs_iter _ (λ n b s1, linked s b s1 ∧ n = Z.to_nat (1 + NBUF - b) ∧ 1 <= b <= 1 + NBUF))
    with (n := Z.to_nat NBUF); [|split; [exact Hl|by vm_compute]|lia].
  intros n b s1 (Hl1 & -> & Hb). destruct (Z.ltb_spec b (1 + NBUF)).
  - unfold runs. rewrite bind_assoc3. apply runs_bind.
    eapply runs_mono; [apply binit_round; [done|done|lia]|]. intros [] s2 Hl2. kred.
    exists (Z.to_nat (1 + NBUF - (b + 1))). split; [lia|]. split; [done|lia].
  - kred. destruct Hl1 as (h & -> & Hd & Hal'). replace b with (1 + NBUF) in Hd by lia. split; try done; simpl.
    + exists (upto (1 + NBUF)). split; [done|]. unfold upto, addrs. by rewrite reverse_Permutation.
    + by rewrite Hbufs, length_replicate.
    + rewrite Hbufs. apply bufs_rep_empty.
Qed.

(** Static storage, as the kernel is loaded. *)
Definition raw_cache (d : gmap Z block) : bst :=
  mkB true (gset_to_gmap (mkHead 0 0) (list_to_set (0 :: addrs))) (replicate (Z.to_nat NBUF) zero_buf) d [].

Lemma raw_cache_bss d : bss_cache (raw_cache d).
Proof.
  split; [done|]. intros b Hb. exists (mkHead 0 0). apply lookup_gset_to_gmap_Some.
  rewrite elem_of_list_to_set, elem_of_cons, elem_of_addrs. split; [lia|done].
Qed.

Lemma booted d : ∃ s, brep s (mkA d ∅ []).
Proof.
  destruct (runs_elim _ _ _ (runs_binit _ (raw_cache_bss d))) as ([] & s & _ & R). by exists s.
Qed.

(** When as many blocks are in use as there are buffers, every buffer is. *)
Lemma all_used_inv l d m :
  bufs_rep l d m → (length l <= size m)%nat → ∀ i x, l !! i = Some x → 0 < refcnt x.
Proof.
  intros R Hsz i x Hx. destruct (decide (0 < refcnt x)) as [|Hz]; [done|exfalso].
  set (used := filter (λ y, 0 < refcnt y) l).
  assert (Hsub : dom m ⊆ list_to_set (blockno <$> used)).
  { intros b [u Hu]%elem_of_dom. destruct (br_back _ _ _ R _ _ Hu) as (j & y & Hy & <- & Hpos & _).
    apply elem_of_list_to_set, list_elem_of_fmap. exists y. split; [done|].
    apply list_elem_of_filter. split; [done|]. by eapply list_elem_of_lookup_2. }
  apply subseteq_size in Hsub. rewrite size_dom in Hsub.
  pose proof (length_filter_lt (λ y, 0 < refcnt y) l x (list_elem_of_lookup_2 _ _ _ Hx) Hz) as Hlt.
  pose proof (size_list_le (blockno <$> used)) as Hle. rewrite length_fmap in Hle. unfold used in *. lia.
Qed.

Lemma taken_size me bno h a :
  ause a !! bno = None → size (ause (taken me bno h a)) = S (size (ause a)).
Proof. intros H. simpl. by rewrite map_size_insert, H. Qed.

(** Reading [k] blocks in a row leaves [k] blocks in use. *)
Lemma fill_cache k :
  (k <= Z.to_nat NBUF)%nat →
  ∃ s a, brep s a ∧ size (ause a) = k ∧ ∀ b, Z.of_nat k <= b → ause a !! b = None.
Proof.
  induction k as [|k IH]; intros Hk.
  - destruct (booted ∅) as [s R]. by exists s, (mkA ∅ ∅ []).
  - destruct IH as (s & a & R & Hs & Hn); [lia|]. specialize (Hn (Z.of_nat k)) as Hnk.
    assert (Hc : can_take (Z.of_nat k) a) by (unfold can_take; rewrite Hnk by lia; lia).
    destruct (runs_elim _ _ _ (bio_bread_law 1 (Z.of_nat k) s a R Hc)) as (h & s' & _ & R' & _).
    exists s', (taken 1 (Z.of_nat k) h a). split_and!; [done| |].
    + rewrite taken_size by (apply Hnk; lia). lia.
    + intros b Hb. simpl. rewrite lookup_insert_ne by lia. apply Hn. lia.
Qed.

(** The state of the blocks in use after a block was read, changed, written
    through and released. *)
Definition updated (bno : Z) (d : block) (a : acache) : acache :=
  mkA (<[bno := d]> (adisk a))
    match ause a !! bno with
    | Some u => <[bno := mkUse (uh u) (uref u) d None]> (ause a)
    | None => ause a
    end
    (atrace a ++ [(bno, d)]).

(** [C25] A client that reads a block, changes its contents, writes it and
    releases it: the read returns what the last writer left (in the buffer
    when the block is in use, on the disk otherwise); afterwards the disk and
    the buffer have the new contents, the references of other users are as
    before, no other block changed, and the cache still has one buffer at most
    per block and all of its buffers on the LRU list. *)
Theorem bio_update me bno d s a :
  brep s a → can_take bno a →
  runs (b <- bread me ROOTDEV bno ;;; x <- get_data b ;;; set_data b d ;;;
        bwrite me b ;;; brelse me b ;;; ret x) s
    (λ x s', x = aview a bno ∧ brep s' (updated bno d a)).
Proof.
  intros R Hc. apply runs_bind. eapply runs_mono; [by apply bio_bread_law|]. intros h s1 [R1 Hh].
  assert (Hu : ∃ r, ause (taken me bno h a) !! bno = Some (mkUse h r (aview a bno) (Some me)) ∧
      r = match ause a !! bno with Some u => uref u + 1 | None => 1 end ∧
      (r = 1 ↔ ause a !! bno = None)).
  { simpl. rewrite lookup_insert_eq. unfold aview. destruct (ause a !! bno) as [u|] eqn:E; [exists (uref u + 1)|by exists 1].
    destruct (rep_use _ _ _ _ R E) as (? & ? & _ & _ & -> & _ & _ & Hpos & _). simpl in *.
    split; [done|]. split; [done|]. split; [lia|done]. }
  destruct Hu as (r & Hu & Hr & Hr1). apply runs_bind.
  eapply runs_mono; [by apply (bio_data_law _ _ _ _ R1 Hu)|]. intros x ? [-> ->]. simpl.
  apply runs_bind. eapply runs_mono; [by apply (bio_set_data_law _ _ d _ _ R1 Hu)|]. intros [] s2 R2.
  set (u2 := mkUse h r d (Some me)).
  assert (Hu2 : ause (set_use bno u2 (taken me bno h a)) !! bno = Some u2) by apply lookup_insert_eq.
  apply runs_bind. eapply runs_mono; [by apply (bio_bwrite_law me _ _ _ _ R2 Hu2)|]. intros [] s3 R3.
  apply runs_bind. eapply runs_mono.
  { apply (bio_brelse_law me bno u2 _ _ R3); [done|done|]. intros _. unfold rd_block. simpl.
    by rewrite lookup_insert_eq. }
  intros [] s4 R4. kred. split; [done|]. replace (updated bno d a) with (released bno u2
    (written bno u2 (set_use bno u2 (taken me bno h a)))); [done|].
  unfold released, updated, written, set_use. simpl. destruct (ause a !! bno) as [u|] eqn:E.
  - rewrite (proj2 (Z.eqb_neq r 1)) by naive_solver. rewrite !insert_insert_eq, Hr, (Hh u) by done.
    by rewrite Z.add_simpl_r.
  - rewrite (proj2 (Z.eqb_eq r 1)) by naive_solver. by rewrite !insert_insert_eq, delete_insert_id.
Qed.

Lemma bio_update_witness :
  ∃ s, brep s (mkA ∅ ∅ []) ∧
    runs (b <- bread 3 ROOTDEV 7 ;;; x <- get_data b ;;; set_data b {[0 := 5]} ;;;
          bwrite 3 b ;;; brelse 3 b ;;; ret x) s
      (λ x s', x = aview (mkA ∅ ∅ []) 7 ∧ brep s' (updated 7 {[0 := 5]} (mkA ∅ ∅ []))).
Proof.
  destruct (booted ∅) as [s R]. exists s. split; [exact R|]. apply (bio_update 3 7 {[0 := 5]} s _ R).
  reflexivity.
Defined.

(** When every buffer is in use for another block, reading a block panics
    instead of taking a buffer away from its users. *)
Theorem bread_no_buffers me bno s a :
  brep s a → ause a !! bno = None → Z.of_nat (size (ause a)) = NBUF →
  bread me ROOTDEV bno s = Panic "bget: no buffers".
Proof.
  intros R Hm Hsz. pose proof (rep_bufs _ _ R) as B.
  assert (Hall : ∀ i x, bufs s !! i = Some x → 0 < refcnt x).
  { eapply all_used_inv; [done|]. rewrite (rep_len _ _ R). lia. }
  destruct (bget_scans me ROOTDEV bno s a R) as (lru & Hp & E). unfold bread.
  assert (E' : bget me ROOTDEV bno s = Panic "bget: no buffers"); [|unfold bind; by rewrite E'].
  rewrite E. clear E.
  match goal with |- context [List.find (test_at _ ?f) lru] => pose proof (find_buf (bufs s) f lru) as Hr end.
  destruct (List.find _ lru) as [b|].
  - destruct Hr as (Hb & x & Hx & [Hdx%Z.eqb_eq Hbx%Z.eqb_eq]%andb_true_iff).
    destruct (br_used _ _ _ B _ _ Hx (Hall _ _ Hx)) as (_ & _ & Hm'). congruence.
  - clear Hr. pose proof (find_buf (bufs s) (λ x, refcnt x =? 0) (reverse lru)) as Hr.
    destruct (List.find _ _) as [b|]; [|done].
    destruct Hr as (Hb & x & Hx & Hx0%Z.eqb_eq). specialize (Hall _ _ Hx). lia.
Qed.

Lemma bread_no_buffers_witness : ∃ s, bread 3 ROOTDEV 99 s = Panic "bget: no buffers".
Proof.
  destruct (fill_cache 30) as (s & a & R & Hs & Hn); [apply le_n|]. exists s.
  apply (bread_no_buffers 3 99 s a R); [apply Hn; discriminate|by rewrite Hs].
Defined.

(** binit turns the zeroed cache into an empty cache in front of the
    disk: the thirty buffers are on the LRU list and no block is in use. *)
Theorem binit_empty s :
  bss_cache s → runs binit s (λ _ s', brep s' (mkA (disk s) ∅ (wtrace s))).
Proof. apply runs_binit. Qed.

Lemma binit_empty_witness :
  bss_cache (raw_cache ∅) ∧ runs binit (raw_cache ∅) (λ _ s', brep s' (mkA ∅ ∅ [])).
Proof. split; [apply raw_cache_bss|apply (binit_empty (raw_cache ∅)), raw_cache_bss]. Defined.
