(* ===== verification/Virtio.v ===== *)
(** kernel/virtio_disk.c: the driver of the virtio disk.

    The structures the driver shares with the device (the descriptor table,
    the ring of available requests and the ring of used ones) are records and
    lists; the physical addresses in them are values of [dma], one constructor
    per object that the driver gives the device the address of.  A struct buf
    is a number; [b_disk] is the set of buffers with b->disk == 1.  Reads of
    device registers take the values of [regs_in] in order, and writes are
    recorded in [regs_out].  A call of virtio_disk_rw runs under vdisk_lock
    except while it sleeps, so it is cut into segments at its sleeps. *)

From S2P Require Import Prelude Mem Riscv Spinlock Kalloc BlockCache.
Local Open Scope kernel_scope.

Definition VIRTIO_MMIO_MAGIC_VALUE : Z := 0x000.
Definition VIRTIO_MMIO_VERSION : Z := 0x004.
Definition VIRTIO_MMIO_DEVICE_ID : Z := 0x008.
Definition VIRTIO_MMIO_VENDOR_ID : Z := 0x00c.
Definition VIRTIO_MMIO_DEVICE_FEATURES : Z := 0x010.
Definition VIRTIO_MMIO_DRIVER_FEATURES : Z := 0x020.
Definition VIRTIO_MMIO_QUEUE_SEL : Z := 0x030.
Definition VIRTIO_MMIO_QUEUE_NUM_MAX : Z := 0x034.
Definition VIRTIO_MMIO_QUEUE_NUM : Z := 0x038.
Definition VIRTIO_MMIO_QUEUE_READY : Z := 0x044.
Definition VIRTIO_MMIO_QUEUE_NOTIFY : Z := 0x050.
Definition VIRTIO_MMIO_INTERRUPT_STATUS : Z := 0x060.
Definition VIRTIO_MMIO_INTERRUPT_ACK : Z := 0x064.
Definition VIRTIO_MMIO_STATUS : Z := 0x070.
Definition VIRTIO_MMIO_QUEUE_DESC_LOW : Z := 0x080.
Definition VIRTIO_MMIO_QUEUE_DESC_HIGH : Z := 0x084.
Definition VIRTIO_MMIO_DRIVER_DESC_LOW : Z := 0x090.
Definition VIRTIO_MMIO_DRIVER_DESC_HIGH : Z := 0x094.
Definition VIRTIO_MMIO_DEVICE_DESC_LOW : Z := 0x0a0.
Definition VIRTIO_MMIO_DEVICE_DESC_HIGH : Z := 0x0a4.

Definition VIRTIO_CONFIG_S_ACKNOWLEDGE : Z := 1.
Definition VIRTIO_CONFIG_S_DRIVER : Z := 2.
Definition VIRTIO_CONFIG_S_DRIVER_OK : Z := 4.
Definition VIRTIO_CONFIG_S_FEATURES_OK : Z := 8.

Definition VIRTIO_BLK_F_RO : Z := 5.
Definition VIRTIO_BLK_F_SCSI : Z := 7.
Definition VIRTIO_BLK_F_CONFIG_WCE : Z := 11.
Definition VIRTIO_BLK_F_MQ : Z := 12.
Definition VIRTIO_F_ANY_LAYOUT : Z := 27.
Definition VIRTIO_RING_F_INDIRECT_DESC : Z := 28.
Definition VIRTIO_RING_F_EVENT_IDX : Z := 29.

Definition NUM : Z := 8.
Definition VRING_DESC_F_NEXT : Z := 1.
Definition VRING_DESC_F_WRITE : Z := 2.
Definition VIRTIO_BLK_T_IN : Z := 0.
Definition VIRTIO_BLK_T_OUT : Z := 1.

(** An address given to the device: 0, [&disk.ops[i]], [b->data] or
    [&disk.info[i].status]. *)
Inductive dma := Null | Op (i : Z) | Data (b : Z) | Status (i : Z).

Record virtq_desc := mkDesc { d_addr : dma; d_len : Z; d_flags : Z; d_next : Z }.
Record virtio_blk_req := mkReq { r_type : Z; r_reserved : Z; r_sector : Z }.
Definition sizeof_virtio_blk_req : Z := 16.

(** The channels the driver sleeps on: [&disk.free[0]] and a buffer. *)
Inductive vchan := VFree | VBuf (b : Z).
#[global] Instance vchan_eq_dec : EqDecision vchan.
Proof. solve_decision. Defined.

Record disk := mkDisk {
  desc : list virtq_desc; av_ring : list Z; av_idx : Z; us_ring : list Z; us_idx : Z;
  dfree : list bool; used_idx : Z; info_b : list Z; info_status : list Z; ops : list virtio_blk_req;
  vdisk_lock : bool; b_disk : gset Z; woken : list vchan; regs_in : list Z; regs_out : list (Z * Z); pages : kst
}.

Definition set_desc (x : list virtq_desc) (s : disk) : disk :=
  mkDisk x (av_ring s) (av_idx s) (us_ring s) (us_idx s) (dfree s) (used_idx s) (info_b s) (info_status s) (ops s) (vdisk_lock s) (b_disk s) (woken s) (regs_in s) (regs_out s) (pages s).
Definition set_avail (r : list Z) (i : Z) (s : disk) : disk :=
  mkDisk (desc s) r i (us_ring s) (us_idx s) (dfree s) (used_idx s) (info_b s) (info_status s) (ops s) (vdisk_lock s) (b_disk s) (woken s) (regs_in s) (regs_out s) (pages s).
Definition set_used (r : list Z) (i : Z) (s : disk) : disk :=
  mkDisk (desc s) (av_ring s) (av_idx s) r i (dfree s) (used_idx s) (info_b s) (info_status s) (ops s) (vdisk_lock s) (b_disk s) (woken s) (regs_in s) (regs_out s) (pages s).
Definition set_dfree (x : list bool) (s : disk) : disk :=
  mkDisk (desc s) (av_ring s) (av_idx s) (us_ring s) (us_idx s) x (used_idx s) (info_b s) (info_status s) (ops s) (vdisk_lock s) (b_disk s) (woken s) (regs_in s) (regs_out s) (pages s).
Definition set_used_idx (x : Z) (s : disk) : disk :=
  mkDisk (desc s) (av_ring s) (av_idx s) (us_ring s) (us_idx s) (dfree s) x (info_b s) (info_status s) (ops s) (vdisk_lock s) (b_disk s) (woken s) (regs_in s) (regs_out s) (pages s).
Definition set_info (b st : list Z) (s : disk) : disk :=
  mkDisk (desc s) (av_ring s) (av_idx s) (us_ring s) (us_idx s) (dfree s) (used_idx s) b st (ops s) (vdisk_lock s) (b_disk s) (woken s) (regs_in s) (regs_out s) (pages s).
Definition set_ops (x : list virtio_blk_req) (s : disk) : disk :=
  mkDisk (desc s) (av_ring s) (av_idx s) (us_ring s) (us_idx s) (dfree s) (used_idx s) (info_b s) (info_status s) x (vdisk_lock s) (b_disk s) (woken s) (regs_in s) (regs_out s) (pages s).
Definition set_vdisk_lock (x : bool) (s : disk) : disk :=
  mkDisk (desc s) (av_ring s) (av_idx s) (us_ring s) (us_idx s) (dfree s) (used_idx s) (info_b s) (info_status s) (ops s) x (b_disk s) (woken s) (regs_in s) (regs_out s) (pages s).
Definition set_b_disk (x : gset Z) (s : disk) : disk :=
  mkDisk (desc s) (av_ring s) (av_idx s) (us_ring s) (us_idx s) (dfree s) (used_idx s) (info_b s) (info_status s) (ops s) (vdisk_lock s) x (woken s) (regs_in s) (regs_out s) (pages s).
Definition set_woken (x : list vchan) (s : disk) : disk :=
  mkDisk (desc s) (av_ring s) (av_idx s) (us_ring s) (us_idx s) (dfree s) (used_idx s) (info_b s) (info_status s) (ops s) (vdisk_lock s) (b_disk s) x (regs_in s) (regs_out s) (pages s).
Definition set_regs (i : list Z) (o : list (Z * Z)) (s : disk) : disk :=
  mkDisk (desc s) (av_ring s) (av_idx s) (us_ring s) (us_idx s) (dfree s) (used_idx s) (info_b s) (info_status s) (ops s) (vdisk_lock s) (b_disk s) (woken s) i o (pages s).
Definition set_pages (x : kst) (s : disk) : disk :=
  mkDisk (desc s) (av_ring s) (av_idx s) (us_ring s) (us_idx s) (dfree s) (used_idx s) (info_b s) (info_status s) (ops s) (vdisk_lock s) (b_disk s) (woken s) (regs_in s) (regs_out s) x.

Definition acquire_vdisk : K disk unit := acquire_flag vdisk_lock set_vdisk_lock.
Definition release_vdisk : K disk unit := release_flag vdisk_lock set_vdisk_lock.
Definition wakeup_chan (c : vchan) : K disk unit := modify (λ s, set_woken (c :: woken s) s).

(** Reading and writing the register at offset [r]. *)
Definition R_read (r : Z) : K disk Z := λ s,
  match regs_in s with
  | x :: l => Ok (u32 x) (set_regs l (regs_out s) s)
  | [] => Ok 0 s
  end.
Definition R_write (r v : Z) : K disk unit := modify (λ s, set_regs (regs_in s) (regs_out s ++ [(r, u32 v)]) s).

(** [arr[i]] for an array of NUM elements. *)
Definition at_index {A} (arr : disk → list A) (i : Z) : K disk A := λ s,
  if i <? 0 then UB "negative index" else
  match arr s !! Z.to_nat i with Some x => Ok x s | None => UB "index out of bounds" end.
Definition put_index {A} (arr : disk → list A) (set : list A → disk → disk) (i : Z) (x : A) : K disk unit :=
  at_index arr i ;;; modify (λ s, set (<[Z.to_nat i := x]> (arr s)) s).

Definition set_info_b (x : list Z) (s : disk) : disk := set_info x (info_status s) s.
Definition set_info_status (x : list Z) (s : disk) : disk := set_info (info_b s) x s.

(** ** virtio_disk_init *)

Definition no_desc : virtq_desc := mkDesc Null 0 0 0.

(** [features &= ~(1 << bit)] *)
Definition clear_feature (bit features : Z) : Z := Z.land features (u64 (Z.lnot (Z.shiftl 1 bit))).

(** All NUM descriptors start out unused. *)
Definition init_free : K disk unit :=
  iter (Z.to_nat NUM + 1) (λ i,
    if i <? NUM then put_index dfree set_dfree i true ;;; ret (inl (i + 1)) else ret (inr tt)) 0.

Definition virtio_disk_init : K disk unit :=
  modify (set_vdisk_lock false) ;;;
  magic <- R_read VIRTIO_MMIO_MAGIC_VALUE ;;;
  if negb (magic =? 0x74726976) then panic "could not find virtio disk" else
  version <- R_read VIRTIO_MMIO_VERSION ;;;
  if negb (version =? 2) then panic "could not find virtio disk" else
  device <- R_read VIRTIO_MMIO_DEVICE_ID ;;;
  if negb (device =? 2) then panic "could not find virtio disk" else
  vendor <- R_read VIRTIO_MMIO_VENDOR_ID ;;;
  if negb (vendor =? 0x554d4551) then panic "could not find virtio disk" else
  let status := 0 in
  R_write VIRTIO_MMIO_STATUS status ;;;
  let status := Z.lor status VIRTIO_CONFIG_S_ACKNOWLEDGE in
  R_write VIRTIO_MMIO_STATUS status ;;;
  let status := Z.lor status VIRTIO_CONFIG_S_DRIVER in
  R_write VIRTIO_MMIO_STATUS status ;;;
  features <- R_read VIRTIO_MMIO_DEVICE_FEATURES ;;;
  let features := clear_feature VIRTIO_BLK_F_RO features in
  let features := clear_feature VIRTIO_BLK_F_SCSI features in
  let features := clear_feature VIRTIO_BLK_F_CONFIG_WCE features in
  let features := clear_feature VIRTIO_BLK_F_MQ features in
  let features := clear_feature VIRTIO_F_ANY_LAYOUT features in
  let features := clear_feature VIRTIO_RING_F_EVENT_IDX features in
  let features := clear_feature VIRTIO_RING_F_INDIRECT_DESC features in
  R_write VIRTIO_MMIO_DRIVER_FEATURES features ;;;
  let status := Z.lor status VIRTIO_CONFIG_S_FEATURES_OK in
  R_write VIRTIO_MMIO_STATUS status ;;;
  status <- R_read VIRTIO_MMIO_STATUS ;;;
  if Z.land status VIRTIO_CONFIG_S_FEATURES_OK =? 0 then panic "virtio disk FEATURES_OK unset" else
  R_write VIRTIO_MMIO_QUEUE_SEL 0 ;;;
  ready <- R_read VIRTIO_MMIO_QUEUE_READY ;;;
  if negb (ready =? 0) then panic "virtio disk should not be ready" else
  max <- R_read VIRTIO_MMIO_QUEUE_NUM_MAX ;;;
  if max =? 0 then panic "virtio disk has no queue 0" else
  if max <? NUM then panic "virtio disk max queue too short" else
  a_desc <- zoom pages set_pages kalloc ;;;
  a_avail <- zoom pages set_pages kalloc ;;;
  a_used <- zoom pages set_pages kalloc ;;;
  if (a_desc =? 0) || (a_avail =? 0) || (a_used =? 0) then panic "virtio disk kalloc" else
  zoom pages set_pages (do_memset a_desc 0 PGSIZE) ;;; modify (set_desc (replicate (Z.to_nat NUM) no_desc)) ;;;
  zoom pages set_pages (do_memset a_avail 0 PGSIZE) ;;; modify (set_avail (replicate (Z.to_nat NUM) 0) 0) ;;;
  zoom pages set_pages (do_memset a_used 0 PGSIZE) ;;; modify (set_used (replicate (Z.to_nat NUM) 0) 0) ;;;
  R_write VIRTIO_MMIO_QUEUE_NUM NUM ;;;
  R_write VIRTIO_MMIO_QUEUE_DESC_LOW a_desc ;;;
  R_write VIRTIO_MMIO_QUEUE_DESC_HIGH (Z.shiftr a_desc 32) ;;;
  R_write VIRTIO_MMIO_DRIVER_DESC_LOW a_avail ;;;
  R_write VIRTIO_MMIO_DRIVER_DESC_HIGH (Z.shiftr a_avail 32) ;;;
  R_write VIRTIO_MMIO_DEVICE_DESC_LOW a_used ;;;
  R_write VIRTIO_MMIO_DEVICE_DESC_HIGH (Z.shiftr a_used 32) ;;;
  R_write VIRTIO_MMIO_QUEUE_READY 0x1 ;;;
  init_free ;;;
  let status := Z.lor status VIRTIO_CONFIG_S_DRIVER_OK in
  R_write VIRTIO_MMIO_STATUS status.

(** ** Descriptors *)

(** Find a free descriptor, mark it non-free, return its index. *)
Definition alloc_desc : K disk Z :=
  iter (Z.to_nat NUM + 1) (λ i,
    if i <? NUM then
      fr <- at_index dfree i ;;;
      if (fr : bool) then put_index dfree set_dfree i false ;;; ret (inr i) else ret (inl (i + 1))
    else ret (inr (-1))) 0.

Definition free_desc (i : Z) : K disk unit :=
  if i >=? NUM then panic "free_desc 1" else
  fr <- at_index dfree i ;;;
  if (fr : bool) then panic "free_desc 2" else
  put_index desc set_desc i no_desc ;;;
  put_index dfree set_dfree i true ;;;
  wakeup_chan VFree.

(** Every round frees a descriptor that was in use or panics, so the loop has
    at most NUM rounds that return. *)
Definition free_chain (i : Z) : K disk unit :=
  iter (Z.to_nat NUM + 1) (λ i,
    d <- at_index desc i ;;;
    let flag := d_flags d in
    let nxt := d_next d in
    free_desc i ;;;
    if negb (Z.land flag VRING_DESC_F_NEXT =? 0) then ret (inl nxt) else ret (inr tt)) i.

(** [for(int j = 0; j < i; j++) free_desc(idx[j])] over the [i] entries that
    alloc3_desc has filled in. *)
Fixpoint free_descs (idx : list Z) : K disk unit :=
  match idx with [] => ret tt | i :: idx' => free_desc i ;;; free_descs idx' end.

Definition alloc3_desc : K disk (option (list Z)) :=
  iter 4 (λ idx,
    if zlen idx <? 3 then
      d <- alloc_desc ;;;
      if d <? 0 then free_descs idx ;;; ret (inr None) else ret (inl (idx ++ [d]))
    else ret (inr (Some idx))) [].

(** ** virtio_disk_rw *)

(** Formats the three descriptors of the request and enters its head in the
    ring of available requests. *)
Definition rw_format (i0 i1 i2 b bno : Z) (write : bool) : K disk unit :=
  let sector := u32 (bno * (BSIZE / 512)) in
  put_index ops set_ops i0 (mkReq (if write then VIRTIO_BLK_T_OUT else VIRTIO_BLK_T_IN) 0 sector) ;;;
  put_index desc set_desc i0 (mkDesc (Op i0) sizeof_virtio_blk_req VRING_DESC_F_NEXT i1) ;;;
  put_index desc set_desc i1
    (mkDesc (Data b) BSIZE (Z.lor (if write then 0 else VRING_DESC_F_WRITE) VRING_DESC_F_NEXT) i2) ;;;
  put_index info_status set_info_status i0 0xff ;;;
  put_index desc set_desc i2 (mkDesc (Status i0) 1 VRING_DESC_F_WRITE 0) ;;;
  modify (λ s, set_b_disk ({[b]} ∪ b_disk s) s) ;;;
  put_index info_b set_info_b i0 b ;;;
  idx <- gets av_idx ;;;
  put_index av_ring (λ r s, set_avail r (av_idx s) s) (idx mod NUM) i0.

(** One round of [while(1) { if(alloc3_desc(idx) == 0) break; sleep(...) }],
    with vdisk_lock held, and what follows it up to the first barrier.
    [None]: the call sleeps on [&disk.free[0]], which releases the lock. *)
Definition rw_submit (b bno : Z) (write : bool) : K disk (option Z) :=
  idx <- alloc3_desc ;;;
  match idx with
  | Some [i0; i1; i2] => rw_format i0 i1 i2 b bno write ;;; ret (Some i0)
  | _ => release_vdisk ;;; ret None
  end.

(** After the barrier: the device may now see the request. *)
Definition rw_publish : K disk unit :=
  modify (λ s, set_avail (av_ring s) (u16 (av_idx s + 1)) s) ;;;
  R_write VIRTIO_MMIO_QUEUE_NOTIFY 0.

(** One test of [while(b->disk == 1)]: the call sleeps on [b], or frees its
    descriptors and returns. *)
Inductive rw_end := AwaitDesc | AwaitBuf (i0 : Z) | RwDone.

Definition rw_wait (b i0 : Z) : K disk rw_end :=
  s <- get ;;;
  if bool_decide (b ∈ b_disk s) then release_vdisk ;;; ret (AwaitBuf i0)
  else
    put_index info_b set_info_b i0 0 ;;;
    free_chain i0 ;;;
    release_vdisk ;;;
    ret RwDone.

Definition virtio_disk_rw (b bno : Z) (write : bool) : K disk rw_end :=
  acquire_vdisk ;;;
  r <- rw_submit b bno write ;;;
  match r with
  | None => ret AwaitDesc
  | Some i0 => rw_publish ;;; rw_wait b i0
  end.

(** When sleep(b, &disk.vdisk_lock) returns. *)
Definition rw_resume (b i0 : Z) : K disk rw_end := acquire_vdisk ;;; rw_wait b i0.

(** ** virtio_disk_intr *)

Definition intr_begin : K disk unit :=
  acquire_vdisk ;;;
  st <- R_read VIRTIO_MMIO_INTERRUPT_STATUS ;;;
  R_write VIRTIO_MMIO_INTERRUPT_ACK (Z.land st 0x3).

(** One test of the loop and one round of it; [false] when it ends. *)
Definition intr_round : K disk bool :=
  s <- get ;;;
  if used_idx s =? us_idx s then ret false
  else
    id <- at_index us_ring (used_idx s mod NUM) ;;;
    st <- at_index info_status id ;;;
    if negb (st =? 0) then panic "virtio_disk_intr status" else
    b <- at_index info_b id ;;;
    modify (λ s, set_b_disk (b_disk s ∖ {[b]}) s) ;;;
    wakeup_chan (VBuf b) ;;;
    modify (λ s, set_used_idx (u16 (used_idx s + 1)) s) ;;;
    ret true.

(** The loop runs once per entry between used_idx and used->idx. *)
Definition virtio_disk_intr : K disk unit :=
  intr_begin ;;;
  s <- get ;;;
  iter (Z.to_nat (u16 (us_idx s - used_idx s)) + 1) (λ _,
    more <- intr_round ;;; if (more : bool) then ret (inl tt) else ret (inr tt)) tt ;;;
  release_vdisk.
