(* ===== verification/VirtioSpec.v ===== *)
(** The disk driver and the device together.

    Any number of calls of virtio_disk_rw, on different buffers, run together
    with the interrupt handler and the device.  The driver's code between two
    points where another process, the handler or the device can act is one
    step.  The device is what the virtio specification says of it: it takes
    the heads of chains from the ring of available requests in order, and may
    complete the requests it has taken in any order, each time performing the
    transfer that the chain describes, storing 0 in the status byte and
    entering the head in the ring of used requests. *)

From S2P Require Import Prelude Mem Riscv Spinlock Kalloc BlockCache Virtio.
Local Open Scope kernel_scope.

(** ** What the device does *)

(** The transfer of a request: [x_len] bytes between the data of buffer [x_b]
    and the disk from [x_sector] on; to the disk when [x_out]. *)
Record xfer := mkXfer { x_b : Z; x_sector : Z; x_len : Z; x_out : bool }.

Definition desc_at (d : disk) (i : Z) : option virtq_desc := if i <? 0 then None else desc d !! Z.to_nat i.
Definition has (flag flags : Z) : bool := negb (Z.land flags flag =? 0).

(** The request described by the chain of descriptors that starts at [id],
    and the place of its status byte: a header the device reads, a buffer that
    it reads or writes as the header says, and one byte it writes. *)
Definition parse_chain (d : disk) (id : Z) : option (xfer * Z) :=
  d0 ← desc_at d id;
  d1 ← desc_at d (d_next d0);
  d2 ← desc_at d (d_next d1);
  match d_addr d0, d_addr d1, d_addr d2 with
  | Op o, Data b, Status k =>
      r ← ops d !! Z.to_nat o;
      if has VRING_DESC_F_NEXT (d_flags d0) && negb (has VRING_DESC_F_WRITE (d_flags d0)) &&
         has VRING_DESC_F_NEXT (d_flags d1) && has VRING_DESC_F_WRITE (d_flags d2) &&
         negb (has VRING_DESC_F_NEXT (d_flags d2)) && (d_len d0 =? sizeof_virtio_blk_req) && (d_len d2 =? 1) &&
         (if r_type r =? VIRTIO_BLK_T_OUT then negb (has VRING_DESC_F_WRITE (d_flags d1))
          else (r_type r =? VIRTIO_BLK_T_IN) && has VRING_DESC_F_WRITE (d_flags d1))
      then Some (mkXfer b (r_sector r) (d_len d1) (r_type r =? VIRTIO_BLK_T_OUT), k)
      else None
  | _, _, _ => None
  end.

(** ** The system *)

(** Where a call of virtio_disk_rw is: asleep (or woken) on [&disk.free[0]],
    between the two barriers with its descriptors formatted, or asleep (or
    woken) on its buffer. *)
Inductive rstate := NeedDesc (awake : bool) | Formatted (i : Z) | InFlight (i : Z) (awake : bool).
Record call := mkCall { c_out : bool; c_bno : Z; c_at : rstate }.

Record sys := mkSys {
  drv : disk; calls : gmap Z call; handling : bool; last_avail : Z; taken : list Z;
  transfers : list xfer; returned : list xfer
}.

Definition wanted (b : Z) (c : call) : xfer := mkXfer b (u32 (c_bno c * (BSIZE / 512))) BSIZE (c_out c).

(** wakeup makes every process that sleeps on the channel ready to run. *)
Definition wake (ws : list vchan) (b : Z) (c : call) : call :=
  mkCall (c_out c) (c_bno c) (
    match c_at c with
    | NeedDesc false => NeedDesc (bool_decide (VFree ∈ ws))
    | InFlight i false => InFlight i (bool_decide (VBuf b ∈ ws))
    | r => r
    end).
Definition wake_all (ws : list vchan) (m : gmap Z call) : gmap Z call := map_imap (λ b c, Some (wake ws b c)) m.

(** The driver with the record of wakeups cleared, to see those of one step. *)
Definition fresh_wakeups (d : disk) : disk := set_woken [] d.

Definition submitted (r : option Z) : rstate := match r with Some i => Formatted i | None => NeedDesc false end.

(** The calls after a test of the wait loop by the call on [b]. *)
Definition waited (b : Z) (c : call) (r : rw_end) (m : gmap Z call) : gmap Z call :=
  match r with
  | AwaitBuf i => <[b := mkCall (c_out c) (c_bno c) (InFlight i false)]> m
  | AwaitDesc => <[b := mkCall (c_out c) (c_bno c) (NeedDesc false)]> m
  | RwDone => delete b m
  end.
Definition finished (b : Z) (c : call) (r : rw_end) : list xfer :=
  match r with RwDone => [wanted b c] | _ => [] end.

(** The steps of the calls that have begun, of the handler and of the device. *)
Inductive work (s : sys) : sys → Prop :=
| w_retry b c r d :
    calls s !! b = Some c → c_at c = NeedDesc true → vdisk_lock (drv s) = false →
    (acquire_vdisk ;;; rw_submit b (c_bno c) (c_out c)) (fresh_wakeups (drv s)) = Ok r d →
    work s (mkSys d (<[b := mkCall (c_out c) (c_bno c) (submitted r)]> (wake_all (woken d) (calls s)))
      (handling s) (last_avail s) (taken s) (transfers s) (returned s))
| w_publish b c i r d :
    calls s !! b = Some c → c_at c = Formatted i →
    (rw_publish ;;; rw_wait b i) (fresh_wakeups (drv s)) = Ok r d →
    work s (mkSys d (waited b c r (wake_all (woken d) (calls s)))
      (handling s) (last_avail s) (taken s) (transfers s) (returned s ++ finished b c r))
| w_resume b c i r d :
    calls s !! b = Some c → c_at c = InFlight i true → vdisk_lock (drv s) = false →
    rw_resume b i (fresh_wakeups (drv s)) = Ok r d →
    work s (mkSys d (waited b c r (wake_all (woken d) (calls s)))
      (handling s) (last_avail s) (taken s) (transfers s) (returned s ++ finished b c r))
| w_intr_begin d :
    vdisk_lock (drv s) = false → intr_begin (fresh_wakeups (drv s)) = Ok tt d →
    work s (mkSys d (calls s) true (last_avail s) (taken s) (transfers s) (returned s))
| w_intr_round d :
    handling s = true → intr_round (fresh_wakeups (drv s)) = Ok true d →
    work s (mkSys d (wake_all (woken d) (calls s)) true (last_avail s) (taken s) (transfers s) (returned s))
| w_intr_end d :
    handling s = true → (intr_round ;;; release_vdisk) (fresh_wakeups (drv s)) = Ok tt d →
    used_idx (drv s) = us_idx (drv s) →
    work s (mkSys d (calls s) false (last_avail s) (taken s) (transfers s) (returned s))
| w_fetch id :
    last_avail s ≠ av_idx (drv s) → av_ring (drv s) !! Z.to_nat (last_avail s mod NUM) = Some id →
    work s (mkSys (drv s) (calls s) (handling s) (u16 (last_avail s + 1)) (taken s ++ [id]) (transfers s) (returned s))
| w_complete l1 id l2 x k :
    taken s = l1 ++ id :: l2 → parse_chain (drv s) id = Some (x, k) →
    work s (mkSys
      (set_used (<[Z.to_nat (us_idx (drv s) mod NUM) := id]> (us_ring (drv s))) (u16 (us_idx (drv s) + 1))
        (set_info_status (<[Z.to_nat k := 0]> (info_status (drv s))) (drv s)))
      (calls s) (handling s) (last_avail s) (l1 ++ l2) (transfers s ++ [x]) (returned s)).

(** A new call, on a buffer that no call is using: bio.c calls virtio_disk_rw
    with the sleep lock of the buffer held. *)
Inductive vstep (s : sys) : sys → Prop :=
| v_work s' : work s s' → vstep s s'
| v_call b bno out r d :
    calls s !! b = None → vdisk_lock (drv s) = false →
    (acquire_vdisk ;;; rw_submit b bno out) (fresh_wakeups (drv s)) = Ok r d →
    vstep s (mkSys d (<[b := mkCall out bno (submitted r)]> (wake_all (woken d) (calls s)))
      (handling s) (last_avail s) (taken s) (transfers s) (returned s)).

(** ** Descriptors *)

(** The free flags when the descriptors [X] are in use. *)
Definition free_map (X : gset Z) : list bool := (λ i, bool_decide (Z.of_nat i ∉ X)) <$> seq 0 8.

Lemma free_map_lookup X i : 0 <= i < 8 → free_map X !! Z.to_nat i = Some (bool_decide (i ∉ X)).
Proof.
  intros. unfold free_map. rewrite list_lookup_fmap, lookup_seq_lt by lia. simpl. by rewrite Z2Nat.id by lia.
Qed.

Lemma free_map_insert X Y i v :
  0 <= i < 8 → (∀ j, j ≠ i → j ∈ X ↔ j ∈ Y) → v = bool_decide (i ∉ Y) → <[Z.to_nat i := v]> (free_map X) = free_map Y.
Proof.
  intros Hi HXY ->. apply list_eq. intros n. destruct (decide (n < 8)%nat) as [Hn|Hn].
  - destruct (decide (n = Z.to_nat i)) as [->|Hne].
    + rewrite list_lookup_insert_eq by (unfold free_map; rewrite length_fmap, length_seq; lia).
      by rewrite free_map_lookup.
    + rewrite list_lookup_insert_ne by done. replace n with (Z.to_nat (Z.of_nat n)) by lia.
      rewrite !free_map_lookup by lia. f_equal. apply bool_decide_ext. rewrite HXY; [done|lia].
  - rewrite !lookup_ge_None_2; unfold free_map; rewrite ?length_insert, ?length_fmap, ?length_seq; lia || done.
Qed.

Lemma free_map_take X i : 0 <= i < 8 → <[Z.to_nat i := false]> (free_map X) = free_map ({[i]} ∪ X).
Proof. intros. apply free_map_insert; [done|set_solver|]. symmetry. apply bool_decide_eq_false. set_solver. Qed.
Lemma free_map_give X i : 0 <= i < 8 → <[Z.to_nat i := true]> (free_map X) = free_map (X ∖ {[i]}).
Proof. intros. apply free_map_insert; [done|set_solver|]. symmetry. apply bool_decide_eq_true. set_solver. Qed.

Lemma runs_at_index {A} (arr : disk → list A) i x s (Q : A → disk → Prop) :
  0 <= i → arr s !! Z.to_nat i = Some x → Q x s → runs (at_index arr i) s Q.
Proof. intros Hi Hx HQ. unfold runs, at_index. rewrite (proj2 (Z.ltb_ge _ _)) by lia. by rewrite Hx. Qed.

Lemma runs_put_index {A} (arr : disk → list A) set i x s (Q : unit → disk → Prop) :
  0 <= i < zlen (arr s) → Q tt (set (<[Z.to_nat i := x]> (arr s)) s) → runs (put_index arr set i x) s Q.
Proof.
  intros Hi HQ. destruct (lookup_lt_is_Some_2 (arr s) (Z.to_nat i)) as [y Hy]; [lia|].
  apply runs_bind. apply (runs_at_index arr i y); [lia|done|]. by apply runs_modify.
Qed.

Lemma free_map_length X : length (free_map X) = 8%nat.
Proof. done. Qed.

Lemma runs_alloc_desc X s :
  dfree s = free_map X →
  runs alloc_desc s (λ i s',
    (0 <= i < 8 ∧ i ∉ X ∧ s' = set_dfree (free_map ({[i]} ∪ X)) s) ∨
    (i = -1 ∧ s' = s ∧ ∀ j, 0 <= j < 8 → j ∈ X)).
Proof.
  intros Hf. apply (runs_iter _ (λ n i s1, s1 = s ∧ 0 <= i <= 8 ∧ n = Z.to_nat (8 - i) ∧
    ∀ j, 0 <= j < i → j ∈ X)) with (n := 8%nat); [|split_and!; done || lia|unfold NUM; lia].
  intros n i s1 (-> & Hi & -> & Hbusy). unfold NUM. bcase; kred.
  - eapply runs_at_index; [lia|rewrite Hf; apply free_map_lookup; lia|]. kred.
    destruct (decide (i ∈ X)) as [Hx|Hx].
    + rewrite bool_decide_eq_false_2 by tauto. kred. exists (Z.to_nat (8 - (i + 1))). split; [lia|].
      split_and!; try done; [lia|lia|]. intros j Hj. destruct (decide (j = i)) as [->|]; [done|]. apply Hbusy. lia.
    + rewrite bool_decide_eq_true_2 by done. kred. apply runs_put_index; [rewrite Hf, free_map_length; lia|]. kred.
      left. split; [lia|]. split; [done|]. rewrite Hf. by rewrite free_map_take by lia.
  - right. split_and!; try done. intros j Hj. apply Hbusy. lia.
Qed.

Lemma runs_free_desc X i s (Q : unit → disk → Prop) :
  dfree s = free_map X → length (desc s) = 8%nat → 0 <= i < 8 → i ∈ X →
  Q tt (set_woken (VFree :: woken s)
    (set_desc (<[Z.to_nat i := no_desc]> (desc s)) (set_dfree (free_map (X ∖ {[i]})) s))) →
  runs (free_desc i) s Q.
Proof.
  intros Hf Hd Hi Hx HQ. unfold free_desc, NUM. rewrite Z.geb_leb. bcase; [lia|]. kred.
  eapply runs_at_index; [lia|rewrite Hf; by apply free_map_lookup|].
  rewrite bool_decide_eq_false_2 by tauto. kred.
  apply runs_put_index; [lia|]. kred. apply runs_put_index; [simpl; rewrite Hf, free_map_length; lia|].
  unfold wakeup_chan. kred. simpl. rewrite Hf, free_map_give by done. exact HQ.
Qed.

(** The state of the driver when descriptors outside of [X] were taken and
    given back: only their contents and the wakeups differ. *)
Definition unchanged_but (X : gset Z) (s s' : disk) : Prop :=
  ∃ D w, s' = set_woken w (set_desc D (set_dfree (free_map X) s)) ∧ length D = length (desc s) ∧
    ∀ i, 0 <= i → i ∈ X → D !! Z.to_nat i = desc s !! Z.to_nat i.

Lemma runs_free_descs X idx s s0 :
  Forall (λ i, 0 <= i < 8) idx → NoDup idx → (∀ i, i ∈ idx → i ∉ X) → length (desc s) = 8%nat →
  dfree s = free_map (list_to_set idx ∪ X) → unchanged_but X s0 (set_dfree (free_map X) s) →
  runs (free_descs idx) s (λ _ s', unchanged_but X s0 s').
Proof.
  revert s. induction idx as [|i idx IH]; intros s Hr Hnd Hx Hd Hf Hu; simpl.
  - kred. replace s with (set_dfree (free_map X) s); [done|]. destruct s. simpl in *. unfold set_dfree. simpl.
    rewrite Hf. do 2 f_equal. set_solver.
  - inversion Hr; inversion Hnd; subst. kred. eapply runs_free_desc; [done|done|done|set_solver|].
    assert (HX : (list_to_set (i :: idx) ∪ X) ∖ {[i]} = list_to_set idx ∪ X).
    { apply leibniz_equiv. intros j. specialize (Hx i ltac:(set_solver)).
      rewrite elem_of_difference, !elem_of_union, !elem_of_list_to_set, elem_of_cons, elem_of_singleton.
      destruct (decide (j = i)) as [->|]; tauto. }
    apply IH; try done; [set_solver|simpl; by rewrite length_insert|by rewrite <-HX|].
    destruct Hu as (D & w & Hs & HD & Hag). exists (<[Z.to_nat i := no_desc]> D), (VFree :: w).
    destruct s, s0. simpl in *. unfold set_dfree, set_woken, set_desc in *. simpl in *. injection Hs as ->; subst.
    split; [reflexivity|]. rewrite length_insert. split; [done|]. intros j Hj HjX.
    rewrite list_lookup_insert_ne; [by apply Hag|]. intros E. assert (j = i) as -> by lia. by apply (Hx i ltac:(set_solver)).
Qed.

Lemma pick3 (a b : Z) : ∃ j, 0 <= j < 3 ∧ j ≠ a ∧ j ≠ b.
Proof.
  destruct (decide (a = 0 ∨ b = 0)); [|exists 0; lia]. destruct (decide (a = 1 ∨ b = 1)); [exists 2|exists 1]; lia.
Qed.

Lemma runs_alloc3_desc X s :
  dfree s = free_map X → length (desc s) = 8%nat →
  runs alloc3_desc s (λ r s',
    match r with
    | Some idx => ∃ i0 i1 i2, idx = [i0; i1; i2] ∧ Forall (λ i, 0 <= i < 8 ∧ i ∉ X) idx ∧ NoDup idx ∧
        s' = set_dfree (free_map (list_to_set idx ∪ X)) s
    | None => unchanged_but X s s' ∧ ∃ j, j ∈ X
    end).
Proof.
  intros Hf Hd. apply (runs_iter _ (λ n idx s1, n = (3 - length idx)%nat ∧ (length idx <= 3)%nat ∧
    Forall (λ i, 0 <= i < 8 ∧ i ∉ X) idx ∧ NoDup idx ∧ s1 = set_dfree (free_map (list_to_set idx ∪ X)) s))
    with (n := 3%nat); [| |lia].
  2:{ split_and!; try done; [simpl; lia|apply NoDup_nil_2|]. destruct s. unfold set_dfree. simpl in *. rewrite Hf.
      f_equal. f_equal. set_solver. }
  intros n idx s1 (-> & Hl & Hr & Hnd & ->). bcase.
  - kred. eapply runs_mono; [by apply (runs_alloc_desc (list_to_set idx ∪ X))|].
    intros i s2 [(Hi & Hx & ->)|(-> & -> & Hfull)]; (bcase; [|lia || exfalso; lia]) || (bcase; [lia|]); kred.
    + exists (2 - length idx)%nat. split; [lia|]. rewrite length_app. simpl. split_and!; [lia|lia| | |].
      * apply Forall_app_2; [done|]. apply Forall_singleton. set_solver.
      * apply NoDup_app. split_and!; [done|set_solver|apply NoDup_singleton].
      * unfold set_dfree. simpl. f_equal. f_equal. rewrite list_to_set_app_L. set_solver.
    + eapply runs_mono; [apply (runs_free_descs X idx _ s)|].
      * eapply Forall_impl; [exact Hr|]. by intros ? [? _].
      * done.
      * rewrite Forall_forall in Hr. intros. by apply Hr.
      * done.
      * done.
      * exists (desc s), (woken s). split; [by destruct s|]. by split.
      * intros [] s' Hu. kred. split; [done|].
        assert (∃ j, 0 <= j < 3 ∧ j ∉ idx) as (j & Hj & Hn).
        { destruct idx as [|a [|b [|]]]; [|destruct (pick3 a a) as (j & ? & ? & _)|destruct (pick3 a b) as (j & ? & ? & ?)|simpl in *; lia].
          - exists 0. split; [lia|apply not_elem_of_nil].
          - exists j. split; [lia|]. by rewrite list_elem_of_singleton.
          - exists j. split; [lia|]. rewrite !not_elem_of_cons. split_and!; [done..|apply not_elem_of_nil]. }
        exists j. specialize (Hfull j ltac:(lia)). set_solver.
  - kred. destruct idx as [|i0 [|i1 [|i2 [|]]]]; simpl in *; try lia. by exists i0, i1, i2.
Qed.

Ltac ins := rewrite ?length_insert.

(** ** Rings *)

(** The entries of [ring] from index [from] up to [to] are [q]; the indices
    are 16-bit counters that wrap around. *)
Definition window (ring : list Z) (from to : Z) (q : list Z) : Prop :=
  0 <= from < 2 ^ 16 ∧ to = u16 (from + zlen q) ∧
  ∀ k id, q !! k = Some id → ring !! Z.to_nat ((from + Z.of_nat k) mod 8) = Some id.

Lemma u16_mod8 x : u16 x mod 8 = x mod 8.
Proof. unfold u16. rewrite <-Znumtheory.Zmod_div_mod; try lia. by exists (2 ^ 13). Qed.

Lemma window_nil ring from : 0 <= from < 2 ^ 16 → window ring from from [].
Proof. intros. split; [done|]. split; [|by intros k id; rewrite lookup_nil]. simpl. rewrite Z.add_0_r. symmetry. by apply Z.mod_small. Qed.

Lemma window_empty ring from to q : window ring from to q → zlen q <= 8 → from = to ↔ q = [].
Proof.
  intros (Hf & -> & _) Hq. unfold u16. split.
  - intros E. destruct q; [done|]. exfalso. simpl in *. zdm.
  - intros ->. simpl. rewrite Z.mod_small; lia.
Qed.

Lemma window_write ring from to q id :
  window ring from to q → zlen q < 8 → window (<[Z.to_nat (to mod 8) := id]> ring) from to q.
Proof.
  intros (Hf & -> & Hw) Hq. split_and!; [lia..|done|]. intros k x Hk. rewrite list_lookup_insert_ne; [by apply Hw|].
  apply lookup_lt_Some in Hk. rewrite u16_mod8. zdm.
Qed.

Lemma window_push ring from to q id :
  window ring from to q → ring !! Z.to_nat (to mod 8) = Some id → window ring from (u16 (to + 1)) (q ++ [id]).
Proof.
  intros (Hf & -> & Hw) Hi. rewrite u16_mod8 in Hi. split_and!; [lia..| |].
  - rewrite length_app. simpl. unfold u16. rewrite Zplus_mod_idemp_l. f_equal. lia.
  - intros k x. rewrite lookup_app_Some, list_lookup_singleton_Some. intros [Hk|(Hk & Hk' & <-)]; [by apply Hw|].
    by replace (Z.of_nat k) with (zlen q) by lia.
Qed.

Lemma window_pop ring from to q id :
  window ring from to (id :: q) → ring !! Z.to_nat (from mod 8) = Some id ∧ window ring (u16 (from + 1)) to q.
Proof.
  intros (Hf & -> & Hw). split; [specialize (Hw 0%nat id eq_refl); by rewrite Z.add_0_r in Hw|].
  split_and!; [by apply Z.mod_pos_bound..| |].
  - unfold u16. rewrite Zplus_mod_idemp_l. f_equal. simpl. lia.
  - intros k x Hk. specialize (Hw (S k) x Hk). rewrite <-Zplus_mod_idemp_l, u16_mod8, Zplus_mod_idemp_l.
    by replace (from + 1 + Z.of_nat k) with (from + Z.of_nat (S k)) by lia.
Qed.

(** ** Requests in flight *)

Record flight := mkFl { f_b : Z; f_out : bool; f_bno : Z; f0 : Z; f1 : Z; f2 : Z }.
Definition fidx (f : flight) : list Z := [f0 f; f1 f; f2 f].
Definition f_xfer (f : flight) : xfer := mkXfer (f_b f) (u32 (f_bno f * (BSIZE / 512))) BSIZE (f_out f).

(** The descriptors, header and book-keeping of a request, as rw_format
    leaves them. *)
Record fmt (d : disk) (f : flight) : Prop := mkFmt {
  fmt_0 : desc d !! Z.to_nat (f0 f) = Some (mkDesc (Op (f0 f)) sizeof_virtio_blk_req VRING_DESC_F_NEXT (f1 f));
  fmt_1 : desc d !! Z.to_nat (f1 f) = Some (mkDesc (Data (f_b f)) BSIZE
    (Z.lor (if f_out f then 0 else VRING_DESC_F_WRITE) VRING_DESC_F_NEXT) (f2 f));
  fmt_2 : desc d !! Z.to_nat (f2 f) = Some (mkDesc (Status (f0 f)) 1 VRING_DESC_F_WRITE 0);
  fmt_op : ops d !! Z.to_nat (f0 f) =
    Some (mkReq (if f_out f then VIRTIO_BLK_T_OUT else VIRTIO_BLK_T_IN) 0 (x_sector (f_xfer f)));
  fmt_b : info_b d !! Z.to_nat (f0 f) = Some (f_b f)
}.

Lemma fmt_frame d d' f :
  fmt d f → (∀ i, i ∈ fidx f → desc d' !! Z.to_nat i = desc d !! Z.to_nat i) →
  ops d' !! Z.to_nat (f0 f) = ops d !! Z.to_nat (f0 f) → info_b d' !! Z.to_nat (f0 f) = info_b d !! Z.to_nat (f0 f) →
  fmt d' f.
Proof. intros [] Hd Ho Hb. split; rewrite ?Hd, ?Ho, ?Hb; try done; unfold fidx; set_solver. Qed.

Lemma fmt_same d d' fls :
  Forall (fmt d) fls → desc d' = desc d → ops d' = ops d → info_b d' = info_b d → Forall (fmt d') fls.
Proof. intros F Hd Ho Hb. eapply Forall_impl; [exact F|]. intros f Hf. eapply fmt_frame; [exact Hf|congruence..]. Qed.

Lemma fmt_parse d f : Forall (λ i, 0 <= i < 8) (fidx f) → fmt d f → parse_chain d (f0 f) = Some (f_xfer f, f0 f).
Proof.
  intros Hr [H0 H1 H2 Ho _]. unfold fidx in Hr. rewrite !Forall_cons in Hr. destruct Hr as (R0 & R1 & R2 & _).
  unfold parse_chain, desc_at. rewrite (proj2 (Z.ltb_ge (f0 f) 0)) by lia. rewrite H0. simpl.
  rewrite (proj2 (Z.ltb_ge (f1 f) 0)) by lia. rewrite H1. simpl.
  rewrite (proj2 (Z.ltb_ge (f2 f) 0)) by lia. rewrite H2. simpl. rewrite Ho. simpl.
  by destruct f as [b [] bno i0 i1 i2].
Qed.
