(* ===== verification/VirtioInv.v ===== *)
(** The invariant of the disk driver together with the device, kept by every
    step of the system of VirtioSpec, and what follows from it. *)

From S2P Require Import Prelude Mem Riscv Spinlock Kalloc BlockCache Virtio VirtioSpec.
Local Open Scope kernel_scope.

(** ** The invariant

    [fls] are the requests that own descriptors.  Their heads are between the
    two barriers of rw ([qf]), in the ring of available requests ([qa]), in
    the hands of the device ([taken]), in the ring of used requests ([qu]) or
    seen by the handler ([qd]). *)

Definition busy (fls : list flight) : gset Z := list_to_set (fls ≫= fidx).

(** What is known of a call from where it is. *)
Definition call_ok (fls : list flight) (qf qd : list Z) (b : Z) (c : call) : Prop :=
  match c_at c with
  | NeedDesc aw => (∀ f, f ∈ fls → f_b f ≠ b) ∧ (aw = false → fls ≠ [])
  | Formatted i => (∃ i1 i2, mkFl b (c_out c) (c_bno c) i i1 i2 ∈ fls) ∧ i ∈ qf
  | InFlight i aw => (∃ i1 i2, mkFl b (c_out c) (c_bno c) i i1 i2 ∈ fls) ∧ i ∉ qf ∧ (aw = false → i ∉ qd)
  end.

Definition owner_of (m : gmap Z call) (f : flight) : Prop :=
  ∃ c, m !! f_b f = Some c ∧ c_out c = f_out f ∧ c_bno c = f_bno f ∧
    (c_at c = Formatted (f0 f) ∨ ∃ aw, c_at c = InFlight (f0 f) aw).

Record vinv (fls : list flight) (qf qa qu qd : list Z) (s : sys) : Prop := mkVinv {
  vi_desc : length (desc (drv s)) = 8%nat;
  vi_av : length (av_ring (drv s)) = 8%nat;
  vi_us : length (us_ring (drv s)) = 8%nat;
  vi_b : length (info_b (drv s)) = 8%nat;
  vi_st : length (info_status (drv s)) = 8%nat;
  vi_ops : length (ops (drv s)) = 8%nat;
  vi_free : dfree (drv s) = free_map (busy fls);
  vi_nodup : NoDup (fls ≫= fidx);
  vi_range : Forall (λ i, 0 <= i < 8) (fls ≫= fidx);
  vi_fmt : Forall (fmt (drv s)) fls;
  vi_heads : f0 <$> fls ≡ₚ qf ++ qa ++ taken s ++ qu ++ qd;
  vi_avail : window (av_ring (drv s)) (last_avail s) (av_idx (drv s)) qa;
  vi_next : ∀ i, i ∈ qf → av_ring (drv s) !! Z.to_nat (av_idx (drv s) mod 8) = Some i;
  vi_used : window (us_ring (drv s)) (used_idx (drv s)) (us_idx (drv s)) qu;
  vi_status : ∀ i, i ∈ qu → info_status (drv s) !! Z.to_nat i = Some 0;
  vi_bufs : NoDup (f_b <$> fls);
  vi_disk : ∀ f, f ∈ fls → f_b f ∈ b_disk (drv s) ↔ f0 f ∉ qd;
  vi_calls : ∀ b c, calls s !! b = Some c → call_ok fls qf qd b c;
  vi_owner : Forall (owner_of (calls s)) fls;
  vi_lock : vdisk_lock (drv s) = handling s || bool_decide (qf ≠ []);
  vi_excl : handling s = true → qf = [];
  vi_one : (length qf <= 1)%nat;
  vi_xfer : transfers s ≡ₚ returned s ++ (f_xfer <$> filter (λ f, f0 f ∈ qu ++ qd) fls)
}.

Lemma wake_all_Some ws m b c' : wake_all ws m !! b = Some c' ↔ ∃ c, m !! b = Some c ∧ c' = wake ws b c.
Proof. unfold wake_all. rewrite map_lookup_imap. destruct (m !! b); simpl; naive_solver. Qed.

Lemma wake_all_calls ws m fls qf qd :
  (∀ b c, m !! b = Some c → call_ok fls qf qd b c) → ∀ b c, wake_all ws m !! b = Some c → call_ok fls qf qd b c.
Proof.
  intros H b c' (c & Hc & ->)%wake_all_Some. specialize (H _ _ Hc). destruct c as [o n r]. unfold call_ok, wake in *.
  simpl in *. destruct r as [[]|i|i []]; naive_solver.
Qed.

Lemma wake_all_owner ws m f : owner_of m f → owner_of (wake_all ws m) f.
Proof.
  intros (c & Hc & Ho & Hn & Hat). exists (wake ws (f_b f) c). split; [apply wake_all_Some; eauto|].
  split_and!; try done. unfold wake. simpl. destruct Hat as [->|[[] ->]]; eauto.
Qed.

Lemma owner_insert m f b c : f_b f ≠ b → owner_of m f → owner_of (<[b := c]> m) f.
Proof. intros Hne (c' & Hc & H). exists c'. by rewrite lookup_insert_ne by done. Qed.

Lemma heads_in fls f : f ∈ fls → f0 f ∈ fls ≫= fidx.
Proof. intros. apply list_elem_of_bind. exists f. split; [|done]. unfold fidx. set_solver. Qed.

Lemma busy_in fls f i : f ∈ fls → i ∈ fidx f → i ∈ busy fls.
Proof. intros. unfold busy. rewrite elem_of_list_to_set, list_elem_of_bind. eauto. Qed.

Lemma busy_cons f fls : busy (f :: fls) = list_to_set (fidx f) ∪ busy fls.
Proof. unfold busy. by rewrite bind_cons, list_to_set_app_L. Qed.

Lemma flight_range fls qf qa qu qd s f : vinv fls qf qa qu qd s → f ∈ fls → Forall (λ i, 0 <= i < 8) (fidx f).
Proof.
  intros I Hf. apply Forall_forall. intros i Hi. pose proof (vi_range _ _ _ _ _ _ I) as R. rewrite Forall_forall in R.
  apply R, list_elem_of_bind. eauto.
Qed.

(** Two requests of the system are the same if they share a descriptor or the
    buffer. *)
Lemma nodup_bind_eq (fls : list flight) f g i :
  NoDup (fls ≫= fidx) → f ∈ fls → g ∈ fls → i ∈ fidx f → i ∈ fidx g → f = g.
Proof.
  induction fls as [|h fls IH]; [set_solver|]. rewrite bind_cons. intros (_ & Hd & Hnd)%NoDup_app.
  rewrite !elem_of_cons. intros [->|Hf] [->|Hg] Hi Hj; [done| | |by apply IH];
    exfalso; (eapply Hd; [|apply list_elem_of_bind]; eauto).
Qed.

Lemma nodup_fmap_eq (fls : list flight) f g :
  NoDup (f_b <$> fls) → f ∈ fls → g ∈ fls → f_b f = f_b g → f = g.
Proof.
  intros Hnd [i Hi]%list_elem_of_lookup [j Hj]%list_elem_of_lookup E.
  assert (i = j); [|congruence]. apply (NoDup_lookup (f_b <$> fls) i j (f_b f) Hnd); rewrite list_lookup_fmap.
  - by rewrite Hi.
  - rewrite Hj. simpl. by rewrite E.
Qed.

Lemma few_flights fls : NoDup (fls ≫= fidx) → Forall (λ i, 0 <= i < 8) (fls ≫= fidx) → (length fls <= 2)%nat.
Proof.
  intros Hnd Hr.
  assert (Hl : (length (fls ≫= fidx) <= length (seqZ 0 8))%nat).
  { apply submseteq_length, NoDup_submseteq; [done|]. intros i Hi. rewrite Forall_forall in Hr.
    apply elem_of_seqZ. specialize (Hr i Hi). lia. }
  assert (length (fls ≫= fidx) = 3 * length fls)%nat as E.
  { clear. induction fls; [done|]. rewrite bind_cons, length_app, IHfls. simpl. lia. }
  rewrite E in Hl. simpl in Hl. lia.
Qed.

Lemma heads_nodup fls : NoDup (fls ≫= fidx) → NoDup (f0 <$> fls).
Proof.
  induction fls as [|f fls IH]; [by intros; apply NoDup_nil_2|]. rewrite bind_cons. intros (_ & Hd & Hnd)%NoDup_app.
  rewrite fmap_cons. apply NoDup_cons_2; [|by apply IH]. intros (g & E & Hg)%list_elem_of_fmap.
  apply (Hd (f0 f)); [unfold fidx; set_solver|]. rewrite E. by apply heads_in.
Qed.

(** The request of the call on [b], when it owns descriptors. *)
Lemma calls_none fls qf qa qu qd s b :
  vinv fls qf qa qu qd s → calls s !! b = None → ∀ f, f ∈ fls → f_b f ≠ b.
Proof.
  intros I Hb f Hf <-. pose proof (vi_owner _ _ _ _ _ _ I) as O. rewrite Forall_forall in O.
  destruct (O f Hf) as (c & Hc & _). congruence.
Qed.

Lemma submit_fails fls qf qa qu qd s b bno out d :
  vinv fls qf qa qu qd s → vdisk_lock (drv s) = false → (∀ f, f ∈ fls → f_b f ≠ b) → fls ≠ [] →
  unchanged_but (busy fls) (set_vdisk_lock true (fresh_wakeups (drv s))) d →
  vinv fls qf qa qu qd (mkSys (set_vdisk_lock false d)
    (<[b := mkCall out bno (NeedDesc false)]> (wake_all (woken d) (calls s)))
    (handling s) (last_avail s) (taken s) (transfers s) (returned s)).
Proof.
  intros I Hl Hb Hne (D & w & -> & HD & Hag). simpl in HD. pose proof I as []. split; simpl; try done; try congruence.
  - rewrite Forall_forall in vi_fmt0 |- *. intros f Hf. eapply fmt_frame; [by apply vi_fmt0| |done|done].
    intros i Hi. simpl. apply Hag; [|by eapply busy_in].
    pose proof (flight_range _ _ _ _ _ _ _ I Hf) as R. rewrite Forall_forall in R. by apply R.
  - intros b' c [(<- & <-)|(? & Hc)]%lookup_insert_Some; [by split|]. by eapply wake_all_calls.
  - rewrite Forall_forall in vi_owner0 |- *. intros f Hf. apply owner_insert; [by apply Hb|]. apply wake_all_owner, vi_owner0, Hf.
Qed.

(** The driver after rw_format. *)
Definition formatted (i0 i1 i2 b bno : Z) (out : bool) (s : disk) : disk :=
  let f := mkFl b out bno i0 i1 i2 in
  mkDisk
    (<[Z.to_nat i2 := mkDesc (Status i0) 1 VRING_DESC_F_WRITE 0]>
      (<[Z.to_nat i1 := mkDesc (Data b) BSIZE (Z.lor (if out then 0 else VRING_DESC_F_WRITE) VRING_DESC_F_NEXT) i2]>
        (<[Z.to_nat i0 := mkDesc (Op i0) sizeof_virtio_blk_req VRING_DESC_F_NEXT i1]> (desc s))))
    (<[Z.to_nat (av_idx s mod 8) := i0]> (av_ring s)) (av_idx s) (us_ring s) (us_idx s) (dfree s) (used_idx s)
    (<[Z.to_nat i0 := b]> (info_b s)) (<[Z.to_nat i0 := 0xff]> (info_status s))
    (<[Z.to_nat i0 := mkReq (if out then VIRTIO_BLK_T_OUT else VIRTIO_BLK_T_IN) 0 (x_sector (f_xfer f))]> (ops s))
    (vdisk_lock s) ({[b]} ∪ b_disk s) (woken s) (regs_in s) (regs_out s) (pages s).

Lemma runs_rw_format i0 i1 i2 b bno out s (Q : unit → disk → Prop) :
  Forall (λ i, 0 <= i < 8) [i0; i1; i2] → length (desc s) = 8%nat → length (av_ring s) = 8%nat →
  length (info_b s) = 8%nat → length (info_status s) = 8%nat → length (ops s) = 8%nat →
  Q tt (formatted i0 i1 i2 b bno out s) → runs (rw_format i0 i1 i2 b bno out) s Q.
Proof.
  intros Hr Hd Ha Hb Hs Ho HQ. rewrite !Forall_cons in Hr. destruct Hr as (R0 & R1 & R2 & _). unfold rw_format.
  pose proof (Z.mod_pos_bound (av_idx s) 8 ltac:(lia)) as Hm.
  do 9 (kred; try (apply runs_put_index; [simpl; unfold NUM; ins; lia|]); simpl). exact HQ.
Qed.

Lemma fmt_formatted i0 i1 i2 b bno out s :
  Forall (λ i, 0 <= i < 8) [i0; i1; i2] → NoDup [i0; i1; i2] → length (desc s) = 8%nat →
  length (info_b s) = 8%nat → length (ops s) = 8%nat →
  fmt (formatted i0 i1 i2 b bno out s) (mkFl b out bno i0 i1 i2).
Proof.
  intros Hr Hnd Hd Hb Ho. rewrite !Forall_cons in Hr. destruct Hr as (R0 & R1 & R2 & _).
  rewrite !NoDup_cons, !not_elem_of_cons in Hnd. destruct Hnd as ((? & ? & _) & (? & _) & _).
  split; simpl.
  - rewrite !list_lookup_insert_ne by lia. by rewrite list_lookup_insert_eq by lia.
  - rewrite list_lookup_insert_ne by lia. by rewrite list_lookup_insert_eq by (ins; lia).
  - by rewrite list_lookup_insert_eq by (ins; lia).
  - by rewrite list_lookup_insert_eq by (ins; lia).
  - by rewrite list_lookup_insert_eq by (ins; lia).
Qed.

Lemma fmt_formatted_ne i0 i1 i2 b bno out s f :
  Forall (λ i, 0 <= i < 8) [i0; i1; i2] → Forall (λ i, 0 <= i < 8) (fidx f) → (∀ i, i ∈ fidx f → i ∉ [i0; i1; i2]) →
  fmt s f → fmt (formatted i0 i1 i2 b bno out s) f.
Proof.
  intros Hr Hf Hne F. rewrite !Forall_cons in Hr. destruct Hr as (R0 & R1 & R2 & _). rewrite Forall_forall in Hf.
  assert (H : ∀ i, i ∈ fidx f → Z.to_nat i ≠ Z.to_nat i0 ∧ Z.to_nat i ≠ Z.to_nat i1 ∧ Z.to_nat i ≠ Z.to_nat i2).
  { intros i Hi. specialize (Hf i Hi). specialize (Hne i Hi). rewrite !not_elem_of_cons in Hne.
    destruct Hne as (? & ? & ? & _). lia. }
  eapply fmt_frame; [exact F|..]; simpl.
  - intros i (? & ? & ?)%H. by rewrite !list_lookup_insert_ne by lia.
  - destruct (H (f0 f)) as (? & ? & ?); [unfold fidx; set_solver|]. by rewrite list_lookup_insert_ne by lia.
  - destruct (H (f0 f)) as (? & ? & ?); [unfold fidx; set_solver|]. by rewrite list_lookup_insert_ne by lia.
Qed.

Lemma qf_nil fls qf qa qu qd s : vinv fls qf qa qu qd s → vdisk_lock (drv s) = false → qf = [].
Proof.
  intros I Hl. pose proof (vi_lock _ _ _ _ _ _ I) as L. rewrite Hl in L. symmetry in L.
  apply orb_false_elim in L as [_ L]. apply bool_decide_eq_false in L. destruct qf; [done|]. by destruct L.
Qed.

Lemma qa_short fls qf qa qu qd s : vinv fls qf qa qu qd s → zlen qa <= 2 ∧ zlen qu <= 2.
Proof.
  intros I. pose proof (few_flights fls (vi_nodup _ _ _ _ _ _ I) (vi_range _ _ _ _ _ _ I)) as Hf.
  pose proof (Permutation_length (vi_heads _ _ _ _ _ _ I)) as E. rewrite length_fmap, !length_app in E. lia.
Qed.

Lemma submit_succeeds fls qf qa qu qd s b bno out i0 i1 i2 :
  vinv fls qf qa qu qd s → vdisk_lock (drv s) = false → (∀ f, f ∈ fls → f_b f ≠ b) →
  Forall (λ i, 0 <= i < 8 ∧ i ∉ busy fls) [i0; i1; i2] → NoDup [i0; i1; i2] →
  let d := formatted i0 i1 i2 b bno out
    (set_dfree (free_map (list_to_set [i0; i1; i2] ∪ busy fls)) (set_vdisk_lock true (fresh_wakeups (drv s)))) in
  vinv (mkFl b out bno i0 i1 i2 :: fls) [i0] qa qu qd
    (mkSys d (<[b := mkCall out bno (Formatted i0)]> (wake_all (woken d) (calls s)))
    (handling s) (last_avail s) (taken s) (transfers s) (returned s)).
Proof.
  intros I Hl Hb Hi Hnd d. pose proof (qf_nil _ _ _ _ _ _ I Hl) as ->. destruct (qa_short _ _ _ _ _ _ I) as [Hqa Hqu].
  assert (Hr : Forall (λ i, 0 <= i < 8) [i0; i1; i2]) by (eapply Forall_impl; [exact Hi|]; by intros ? [? _]).
  assert (Hfresh : ∀ f i, f ∈ fls → i ∈ fidx f → i ∉ [i0; i1; i2]).
  { intros f i Hf Hif Hin. rewrite Forall_forall in Hi. destruct (Hi i Hin) as [_ Hn]. apply Hn. by eapply busy_in. }
  assert (Hi0 : ∀ f, f ∈ fls → f0 f ≠ i0).
  { intros f Hf E. apply (Hfresh f (f0 f) Hf); [unfold fidx; set_solver|]. rewrite E. set_solver. }
  pose proof (few_flights fls (vi_nodup _ _ _ _ _ _ I) (vi_range _ _ _ _ _ _ I)) as Hfew.
  assert (Hmem : ∀ i, i ∈ qa ++ taken s ++ qu ++ qd → ∃ f, f ∈ fls ∧ f0 f = i).
  { intros i Hin. pose proof (vi_heads _ _ _ _ _ _ I) as E. rewrite <-E in Hin.
    apply list_elem_of_fmap in Hin as (f & -> & Hf). eauto. }
  pose proof I as []. assert (Hh : handling s = false) by (rewrite Hl in vi_lock0; by destruct (handling s)).
  split; simpl; ins; try done.
  - by rewrite busy_cons.
  - change (NoDup ([i0; i1; i2] ++ (fls ≫= fidx))). apply NoDup_app. split_and!; [done| |done]. intros i Hin (f & Hif & Hf)%list_elem_of_bind. by eapply Hfresh.
  - change (Forall (λ i, 0 <= i < 8) ([i0; i1; i2] ++ (fls ≫= fidx))). by apply Forall_app_2.
  - apply Forall_cons_2; [by apply fmt_formatted|]. rewrite Forall_forall in vi_fmt0 |- *. intros f Hf.
    apply fmt_formatted_ne; [done|by eapply flight_range|intros i; by apply Hfresh|].
    eapply fmt_frame; [by apply vi_fmt0|done..].
  - by rewrite vi_heads0.
  - apply window_write; [done|lia].
  - intros i ->%list_elem_of_singleton. apply list_lookup_insert_eq.
    pose proof (Z.mod_pos_bound (av_idx (drv s)) 8 ltac:(lia)). lia.
  - intros i Hin. rewrite list_lookup_insert_ne; [by apply vi_status0|].
    destruct (Hmem i) as (f & Hf & <-); [set_solver|]. specialize (Hi0 f Hf).
    pose proof (flight_range _ _ _ _ _ _ _ I Hf) as R. unfold fidx in R. rewrite !Forall_cons in R, Hr. lia.
  - apply NoDup_cons_2; [|done]. intros (f & E & Hf)%list_elem_of_fmap. by apply (Hb f Hf).
  - intros f [->|Hf]%elem_of_cons; simpl.
    + split; [|set_solver]. intros _ Hin. destruct (Hmem i0) as (f & Hf & E); [set_solver|]. by apply (Hi0 f Hf).
    + rewrite elem_of_union, elem_of_singleton. rewrite <-vi_disk0 by done. specialize (Hb f Hf). tauto.
  - intros b' c [(<- & <-)|(Hne & Hc)]%lookup_insert_Some.
    { split; [exists i1, i2; set_solver|set_solver]. }
    pose proof (wake_all_calls _ _ _ _ _ vi_calls0 _ _ Hc) as K. unfold call_ok in *.
    destruct (c_at c) as [aw|i|i aw].
    + destruct K as [K1 K2]. split; [|done]. intros f [->|Hf]%elem_of_cons; [done|by apply K1].
    + destruct K as [_ K]. set_solver.
    + destruct K as [(j1 & j2 & K1) [K2 K3]]. split_and!; [exists j1, j2; set_solver| |done].
      rewrite list_elem_of_singleton. apply (Hi0 _ K1).
  - apply Forall_cons_2.
    + exists (mkCall out bno (Formatted i0)). simpl. rewrite lookup_insert_eq. split_and!; try done. by left.
    + rewrite Forall_forall in vi_owner0 |- *. intros f Hf. apply owner_insert; [by apply Hb|].
      by apply wake_all_owner, vi_owner0.
  - by rewrite Hh.
  - by rewrite Hh.
  - rewrite filter_cons_False; [done|]. simpl. intros Hin. destruct (Hmem i0) as (f & Hf & E); [set_solver|].
    by apply (Hi0 f Hf).
Qed.

Lemma submit_inv fls qf qa qu qd s b bno out :
  vinv fls qf qa qu qd s → vdisk_lock (drv s) = false → (∀ f, f ∈ fls → f_b f ≠ b) →
  runs (acquire_vdisk ;;; rw_submit b bno out) (fresh_wakeups (drv s)) (λ r d, ∃ fls' qf',
    match r with Some i => length fls' = S (length fls) ∧ qf' = [i] | None => fls ≠ [] ∧ qf' = [] end ∧
    vinv fls' qf' qa qu qd (mkSys d (<[b := mkCall out bno (submitted r)]> (wake_all (woken d) (calls s)))
      (handling s) (last_avail s) (taken s) (transfers s) (returned s))).
Proof.
  intros I Hl Hb. apply runs_bind, runs_acquire_flag; [done|]. unfold rw_submit. kred.
  eapply runs_mono; [apply (runs_alloc3_desc (busy fls)); apply I|]. intros [idx|] d; simpl.
  - intros (i0 & i1 & i2 & -> & Hi & Hnd & ->). kred. apply runs_rw_format.
    { eapply Forall_impl; [exact Hi|]. by intros ? [? _]. }
    1-5: apply I.
    kred. do 2 eexists. split; [|by apply (submit_succeeds _ _ _ _ _ _ _ _ _ _ _ _ I)]. done.
  - intros [Hu [j Hj]]. kred. apply runs_release_flag.
    { destruct Hu as (? & ? & -> & _). done. }
    kred. assert (fls ≠ []) as Hne by (intros ->; set_solver). exists fls, qf.
    split; [split; [done|exact (qf_nil _ _ _ _ _ _ I Hl)]|]. exact (submit_fails fls qf qa qu qd s b bno out d I Hl Hb Hne Hu).
Qed.

Lemma publish_inv w fls qf qa qu qd s b c i :
  vinv fls qf qa qu qd s → calls s !! b = Some c → c_at c = Formatted i →
  runs (rw_publish ;;; rw_wait b i) (set_woken w (drv s)) (λ r d, r = AwaitBuf i ∧
    vinv fls [] (qa ++ [i]) qu qd (mkSys d (waited b c r (wake_all (woken d) (calls s)))
      (handling s) (last_avail s) (taken s) (transfers s) (returned s ++ finished b c r))).
Proof.
  intros I Hc Hat. pose proof (vi_calls _ _ _ _ _ _ I _ _ Hc) as K. unfold call_ok in K. rewrite Hat in K.
  destruct K as [(i1 & i2 & Hf) Hi].
  assert (qf = [i]) as ->.
  { pose proof (vi_one _ _ _ _ _ _ I) as H1. destruct qf as [|x [|]]; [set_solver| |simpl in H1; lia].
    apply list_elem_of_singleton in Hi. by subst. }
  pose proof (heads_nodup fls (vi_nodup _ _ _ _ _ _ I)) as Hnd. rewrite (vi_heads _ _ _ _ _ _ I) in Hnd.
  simpl in Hnd. apply NoDup_cons in Hnd as [Hnew _].
  pose proof I as []. assert (Hh : handling s = false).
  { destruct (handling s); [|done]. by specialize (vi_excl0 eq_refl). }
  unfold rw_publish, R_write, rw_wait. kred. simpl. rewrite bool_decide_eq_true_2.
  2:{ apply (vi_disk0 _ Hf). simpl. set_solver. }
  apply runs_bind, runs_release_flag; [simpl; by rewrite vi_lock0, Hh|]. kred. split; [done|].
  split; simpl; try done.
  - by eapply fmt_same.
  - etrans; [exact vi_heads0|]. rewrite <-app_assoc. simpl. apply Permutation_middle.
  - apply window_push; [done|]. apply vi_next0. set_solver.
  - set_solver.
  - intros b' c' [(<- & <-)|(Hne & Hc')]%lookup_insert_Some.
    + split_and!; [by exists i1, i2|set_solver|]. intros _. set_solver.
    + pose proof (wake_all_calls _ _ _ _ _ vi_calls0 _ _ Hc') as K. unfold call_ok in *.
      destruct (c_at c') as [aw|j|j aw]; [done| |split_and!; [apply K|set_solver|apply K]].
      destruct K as [(j1 & j2 & K1) ->%list_elem_of_singleton]. exfalso. apply Hne.
      by pose proof (nodup_bind_eq fls _ _ i vi_nodup0 K1 Hf ltac:(unfold fidx; set_solver)
        ltac:(unfold fidx; set_solver)) as [=].
  - rewrite Forall_forall in vi_owner0 |- *. intros f Hff. destruct (decide (f_b f = b)) as [Eb|Hne].
    + assert (f = mkFl b (c_out c) (c_bno c) i i1 i2) as -> by by apply (nodup_fmap_eq fls).
      exists (mkCall (c_out c) (c_bno c) (InFlight i false)). simpl. rewrite lookup_insert_eq. eauto 6.
    + apply owner_insert; [done|]. by apply wake_all_owner, vi_owner0.
  - by rewrite Hh.
  - lia.
  - by rewrite app_nil_r.
Qed.

Lemma runs_free_chain X f s0 s (Q : unit → disk → Prop) :
  fmt s0 f → desc s = desc s0 → Forall (λ i, 0 <= i < 8) (fidx f) → NoDup (fidx f) → (∀ i, i ∈ fidx f → i ∈ X) →
  length (desc s) = 8%nat → dfree s = free_map X →
  (∀ D w, length D = 8%nat → (∀ i, i ∉ fidx f → 0 <= i → D !! Z.to_nat i = desc s !! Z.to_nat i) → VFree ∈ w →
     Q tt (set_woken w (set_desc D (set_dfree (free_map (X ∖ list_to_set (fidx f))) s)))) →
  runs (free_chain (f0 f)) s Q.
Proof.
  intros [H0 H1 H2 _ _] E Hr Hnd HX Hd Hf HQ. rewrite <-E in H0, H1, H2. unfold fidx in Hr, Hnd. rewrite !Forall_cons in Hr.
  destruct Hr as (R0 & R1 & R2 & _). rewrite !NoDup_cons, !not_elem_of_cons in Hnd.
  destruct Hnd as ((N01 & N02 & _) & (N12 & _) & _).
  assert (X0 : f0 f ∈ X) by (apply HX; unfold fidx; set_solver).
  assert (X1 : f1 f ∈ X) by (apply HX; unfold fidx; set_solver).
  assert (X2 : f2 f ∈ X) by (apply HX; unfold fidx; set_solver).
  unfold free_chain. change (Z.to_nat NUM + 1)%nat with 9%nat. cbn [iter]. kred.
  eapply runs_at_index; [lia|exact H0|]. kred. eapply (runs_free_desc X); [done..|]. simpl. kred.
  eapply runs_at_index; [lia|simpl; rewrite list_lookup_insert_ne by lia; exact H1|]. kred.
  eapply (runs_free_desc (X ∖ {[f0 f]})); [done|simpl; by ins|done|set_solver|]. simpl.
  replace (Z.land _ VRING_DESC_F_NEXT =? 0) with false by by destruct (f_out f). kred. simpl. kred.
  eapply runs_at_index; [lia|simpl; rewrite !list_lookup_insert_ne by lia; exact H2|]. kred.
  eapply (runs_free_desc (X ∖ {[f0 f]} ∖ {[f1 f]})); [done|simpl; by ins|done|set_solver|]. simpl. kred.
  assert (EX : X ∖ {[f0 f]} ∖ {[f1 f]} ∖ {[f2 f]} = X ∖ list_to_set (fidx f)) by (unfold fidx; set_solver).
  rewrite EX. pose (D := <[Z.to_nat (f2 f) := no_desc]> (<[Z.to_nat (f1 f) := no_desc]>
    (<[Z.to_nat (f0 f) := no_desc]> (desc s)))). apply (HQ D (VFree :: VFree :: VFree :: woken s)); unfold D.
  { by ins. }
  2: set_solver.
  intros i Hi Hpos. unfold fidx in Hi. rewrite !not_elem_of_cons in Hi. destruct Hi as (? & ? & ? & _).
  by rewrite !list_lookup_insert_ne by lia.
Qed.

Lemma filter_ext_in {A} (P Q : A → Prop) `{∀ x, Decision (P x)} `{∀ x, Decision (Q x)} (l : list A) :
  (∀ x, x ∈ l → P x ↔ Q x) → filter P l = filter Q l.
Proof.
  induction l as [|x l IH]; intros HPQ; [done|]. rewrite !filter_cons.
  rewrite IH by (intros; apply HPQ; by right). specialize (HPQ x (list_elem_of_here _ _)). by repeat case_decide; tauto || done.
Qed.

Lemma vinv_perm fls fls' qf qa qu qd qd' s :
  fls ≡ₚ fls' → qd ≡ₚ qd' → vinv fls qf qa qu qd s → vinv fls' qf qa qu qd' s.
Proof.
  intros Hf Hd [].
  assert (Hin : ∀ f, f ∈ fls ↔ f ∈ fls') by (intros; by rewrite Hf).
  assert (Hinq : ∀ i, i ∈ qd ↔ i ∈ qd') by (intros; by rewrite Hd).
  assert (Hnil : fls ≠ [] → fls' ≠ []).
  { intros Hne ->. apply Permutation_nil_r in Hf. done. }
  split; try done.
  - rewrite vi_free0. f_equal. unfold busy. by rewrite Hf.
  - by rewrite <-Hf.
  - by rewrite <-Hf.
  - by rewrite <-Hf.
  - by rewrite <-Hf, <-Hd.
  - by rewrite <-Hf.
  - intros f Hff. rewrite <-Hinq. by apply vi_disk0, Hin.
  - intros b c Hc. specialize (vi_calls0 b c Hc). unfold call_ok in *. destruct (c_at c) as [aw|i|i aw].
    + destruct vi_calls0 as [K1 K2]. split; [|naive_solver]. intros f Hff. by apply K1, Hin.
    + destruct vi_calls0 as [(i1 & i2 & K1) K2]. split; [|done]. exists i1, i2. by apply Hin.
    + destruct vi_calls0 as [(i1 & i2 & K1) K2]. split; [exists i1, i2; by apply Hin|]. by rewrite <-Hinq.
  - by rewrite <-Hf.
  - rewrite vi_xfer0. f_equiv. rewrite Hf. apply Permutation_map.
    erewrite list_filter_iff; [done|]. intros f. by rewrite Hd.
Qed.

(** The call on [b] that finds its request not completed goes back to sleep. *)
Lemma resume_waits fls qf qa qu qd s b c i aw :
  vinv fls qf qa qu qd s → calls s !! b = Some c → c_at c = InFlight i aw → i ∉ qd → vdisk_lock (drv s) = false →
  vinv fls qf qa qu qd (mkSys (set_vdisk_lock false (set_vdisk_lock true (fresh_wakeups (drv s))))
    (<[b := mkCall (c_out c) (c_bno c) (InFlight i false)]> (wake_all [] (calls s)))
    (handling s) (last_avail s) (taken s) (transfers s) (returned s)).
Proof.
  intros I Hc Hat Hi Hl. pose proof (vi_calls _ _ _ _ _ _ I _ _ Hc) as K. unfold call_ok in K. rewrite Hat in K.
  destruct K as ((i1 & i2 & Hf) & Hq & _). pose proof I as []. split; simpl; try done; try congruence.
  - by eapply fmt_same.
  - intros b' c' [(<- & <-)|(Hne & Hc')]%lookup_insert_Some; [|by eapply wake_all_calls].
    split_and!; [by exists i1, i2|done..].
  - rewrite Forall_forall in vi_owner0 |- *. intros f Hff. destruct (decide (f_b f = b)) as [Eb|Hne].
    + assert (f = mkFl b (c_out c) (c_bno c) i i1 i2) as -> by by apply (nodup_fmap_eq fls).
      exists (mkCall (c_out c) (c_bno c) (InFlight i false)). simpl. rewrite lookup_insert_eq. eauto 6.
    + apply owner_insert; [done|]. by apply wake_all_owner, vi_owner0.
Qed.

(** The call on [b] that finds its request completed frees its descriptors,
    which wakes the calls that need some, and returns. *)
Lemma resume_returns f fls qf qa qu qd s c aw D w :
  vinv (f :: fls) qf qa qu (f0 f :: qd) s → calls s !! f_b f = Some c → c_at c = InFlight (f0 f) aw →
  c_out c = f_out f → c_bno c = f_bno f → vdisk_lock (drv s) = false →
  length D = 8%nat → (∀ j, j ∉ fidx f → 0 <= j → D !! Z.to_nat j = desc (drv s) !! Z.to_nat j) → VFree ∈ w →
  vinv fls qf qa qu qd (mkSys
    (set_vdisk_lock false (set_woken w (set_desc D (set_dfree (free_map (busy (f :: fls) ∖ list_to_set (fidx f)))
      (set_info_b (<[Z.to_nat (f0 f) := 0]> (info_b (drv s))) (drv s))))))
    (delete (f_b f) (wake_all w (calls s))) (handling s) (last_avail s) (taken s) (transfers s)
    (returned s ++ [wanted (f_b f) c])).
Proof.
  intros I Hc Hat Ho Hn Hl HD Hag Hw. pose proof I as [].
  rewrite bind_cons in vi_nodup0, vi_range0. apply NoDup_app in vi_nodup0 as (Hnd & Hdis & Hnds).
  rewrite Forall_app in vi_range0. destruct vi_range0 as [Hrf Hrs].
  rewrite Forall_cons in vi_fmt0. destruct vi_fmt0 as [_ Hfmt].
  rewrite fmap_cons, NoDup_cons in vi_bufs0. destruct vi_bufs0 as [Hb Hbs].
  rewrite Forall_cons in vi_owner0. destruct vi_owner0 as [_ Hown].
  pose proof (qf_nil _ _ _ _ _ _ I Hl) as ->.
  assert (Hin : ∀ g, g ∈ fls → f_b g ≠ f_b f ∧ f0 g ≠ f0 f).
  { intros g Hg. split; intros E.
    - apply Hb. rewrite <-E. by apply list_elem_of_fmap_2.
    - apply (Hdis (f0 f)); [unfold fidx; set_solver|]. rewrite <-E. by apply heads_in. }
  assert (HB : busy (f :: fls) ∖ list_to_set (fidx f) = busy fls).
  { rewrite busy_cons. apply leibniz_equiv. intros j.
    rewrite elem_of_difference, elem_of_union, elem_of_list_to_set. unfold busy. rewrite elem_of_list_to_set.
    split; [tauto|]. intros Hj. split; [by right|]. intros Hj'. by apply (Hdis j). }
  rewrite HB.
  split; simpl; ins; try done; try congruence.
  - rewrite Forall_forall in Hfmt |- *. intros g Hg. rewrite Forall_forall in Hrs, Hrf.
    assert (Hri : 0 <= f0 f < 8) by (apply Hrf; unfold fidx; set_solver).
    assert (Hrg : 0 <= f0 g < 8) by (apply Hrs; by apply heads_in).
    eapply fmt_frame; [by apply Hfmt| |done|]; simpl.
    + intros j Hj. assert (Hjb : j ∈ fls ≫= fidx) by (apply list_elem_of_bind; eauto).
      apply Hag; [intros Hj'; by apply (Hdis j)|]. specialize (Hrs j Hjb). lia.
    + destruct (Hin g Hg) as [_ Hne]. by rewrite list_lookup_insert_ne by lia.
  - apply (Permutation_cons_inv (a := f0 f)). change (f0 f :: (f0 <$> fls)) with (f0 <$> f :: fls).
    rewrite vi_heads0. simpl. solve_Permutation.
  - intros g Hg. rewrite vi_disk0 by set_solver. destruct (Hin g Hg) as [_ Hne]. set_solver.
  - intros b' c' [Hne Hc']%lookup_delete_Some. apply wake_all_Some in Hc' as (c1 & Hc1 & ->).
    specialize (vi_calls0 _ _ Hc1). unfold call_ok, wake in *. simpl.
    assert (Hsub : ∀ j, (∃ j1 j2, mkFl b' (c_out c1) (c_bno c1) j j1 j2 ∈ f :: fls) →
      ∃ j1 j2, mkFl b' (c_out c1) (c_bno c1) j j1 j2 ∈ fls).
    { intros j (j1 & j2 & [E|Hj]%elem_of_cons); [|by exists j1, j2]. exfalso. apply Hne. by rewrite <-E. }
    destruct (c_at c1) as [[]|j|j []].
    + split; [|done]. intros g Hg. apply vi_calls0. set_solver.
    + rewrite bool_decide_eq_true_2 by done. split; [|done]. intros g Hg. apply vi_calls0. set_solver.
    + destruct vi_calls0 as [_ H]. set_solver.
    + destruct vi_calls0 as (K1 & K2 & _). split_and!; [by apply Hsub|done|done].
    + destruct vi_calls0 as (K1 & K2 & K3). split_and!; [by apply Hsub|done|].
      intros _ Hj. specialize (K3 eq_refl). set_solver.
  - rewrite Forall_forall in Hown |- *. intros g Hg. destruct (Hin g Hg) as [Hne _].
    destruct (wake_all_owner w _ _ (Hown g Hg)) as (c1 & Hc1 & H). exists c1. by rewrite lookup_delete_ne.
  - rewrite Hl in vi_lock0. exact vi_lock0.
  - rewrite vi_xfer0. rewrite filter_cons_True by (simpl; set_solver). rewrite <-app_assoc. f_equiv. rewrite fmap_cons.
    unfold wanted. rewrite Ho, Hn. simpl. apply Permutation_skip, Permutation_map.
    erewrite filter_ext_in; [done|]. intros g Hg. destruct (Hin g Hg) as [_ Hne]. set_solver.
Qed.

Lemma resume_inv fls qf qa qu qd s b c i aw :
  vinv fls qf qa qu qd s → calls s !! b = Some c → c_at c = InFlight i aw → vdisk_lock (drv s) = false →
  runs (rw_resume b i) (fresh_wakeups (drv s)) (λ r d, ∃ fls' qd',
    (i ∈ qd → r = RwDone) ∧
    vinv fls' qf qa qu qd' (mkSys d (waited b c r (wake_all (woken d) (calls s)))
      (handling s) (last_avail s) (taken s) (transfers s) (returned s ++ finished b c r))).
Proof.
  intros I Hc Hat Hl. pose proof (vi_calls _ _ _ _ _ _ I _ _ Hc) as K. unfold call_ok in K. rewrite Hat in K.
  destruct K as ((i1 & i2 & Hf) & Hq & _). apply runs_bind, runs_acquire_flag; [done|]. unfold rw_wait. kred. simpl.
  pose proof (vi_disk _ _ _ _ _ _ I _ Hf) as Hd. simpl in Hd. destruct (decide (i ∈ qd)) as [Hi|Hi].
  - rewrite bool_decide_eq_false_2 by (rewrite Hd; tauto).
    apply list_elem_of_split in Hf as (l1 & l2 & ->). apply list_elem_of_split in Hi as (q1 & q2 & ->).
    pose (f := mkFl b (c_out c) (c_bno c) i i1 i2). fold f in I.
    apply (vinv_perm _ (f :: l1 ++ l2) _ _ _ _ (i :: q1 ++ q2)) in I; [|symmetry; apply Permutation_middle..].
    assert (Hrf : Forall (λ i, 0 <= i < 8) (fidx f)) by (eapply flight_range; [exact I|set_solver]).
    pose proof (vi_nodup _ _ _ _ _ _ I) as Hnd. rewrite bind_cons, NoDup_app in Hnd. destruct Hnd as (Hnd & Hdis & _).
    kred. apply runs_put_index.
    { simpl. rewrite (vi_b _ _ _ _ _ _ I). unfold fidx in Hrf. rewrite Forall_cons in Hrf. simpl in Hrf. lia. }
    kred. eapply (runs_free_chain (busy (f :: l1 ++ l2)) f (drv s)).
    + pose proof (vi_fmt _ _ _ _ _ _ I) as H. rewrite Forall_cons in H. apply H.
    + done.
    + done.
    + done.
    + intros j Hj. apply (busy_in _ f); [set_solver|done].
    + apply I.
    + apply I.
    + intros D w HD Hag Hw. kred. apply runs_release_flag; [done|]. kred. simpl. exists (l1 ++ l2), (q1 ++ q2). split; [done|].
      refine (resume_returns f (l1 ++ l2) qf qa qu (q1 ++ q2) s c aw D w I Hc Hat eq_refl eq_refl Hl HD Hag Hw).
  - rewrite bool_decide_eq_true_2 by tauto. apply runs_bind, runs_release_flag; [done|]. kred. simpl.
    exists fls, qd. split; [done|]. rewrite app_nil_r. exact (resume_waits _ _ _ _ _ _ _ _ _ _ I Hc Hat Hi Hl).
Qed.

Lemma intr_begin_inv w fls qf qa qu qd s :
  vinv fls qf qa qu qd s → vdisk_lock (drv s) = false →
  runs intr_begin (set_woken w (drv s)) (λ _ d,
    vinv fls qf qa qu qd (mkSys d (calls s) true (last_avail s) (taken s) (transfers s) (returned s))).
Proof.
  intros I Hl. pose proof (qf_nil _ _ _ _ _ _ I Hl) as ->. apply runs_bind, runs_acquire_flag; [done|].
  apply runs_bind. unfold R_read, R_write, runs. simpl.
  assert (H : ∀ i o, vinv fls [] qa qu qd (mkSys (set_regs i o (set_vdisk_lock true (set_woken w (drv s))))
    (calls s) true (last_avail s) (taken s) (transfers s) (returned s))).
  { intros i o. pose proof I as []. split; simpl; try done. by eapply fmt_same. }
  destruct (regs_in (drv s)) eqn:E; simpl; apply H.
Qed.

Lemma intr_seen w f fls qf qa qu qd s :
  vinv fls qf qa (f0 f :: qu) qd s → f ∈ fls → handling s = true →
  window (us_ring (drv s)) (u16 (used_idx (drv s) + 1)) (us_idx (drv s)) qu →
  vinv fls qf qa qu (f0 f :: qd) (mkSys
    (set_used_idx (u16 (used_idx (drv s) + 1))
      (set_woken (VBuf (f_b f) :: w) (set_b_disk (b_disk (drv s) ∖ {[f_b f]}) (drv s))))
    (wake_all (VBuf (f_b f) :: w) (calls s)) true (last_avail s) (taken s) (transfers s) (returned s)).
Proof.
  intros I Hf Hh Hpop.
  pose proof (heads_nodup fls (vi_nodup _ _ _ _ _ _ I)) as Hnd. rewrite (vi_heads _ _ _ _ _ _ I) in Hnd.
  pose proof I as []. split; simpl; try done.
  - by eapply fmt_same.
  - etrans; [exact vi_heads0|]. solve_Permutation.
  - intros i Hi. apply vi_status0. set_solver.
  - intros g Hg. rewrite elem_of_difference, elem_of_singleton, vi_disk0, not_elem_of_cons by done.
    split; [|intros [Hne ?]; split; [done|]; intros E; apply Hne; by rewrite (nodup_fmap_eq fls g f) by done].
    intros [Hg' Hne]. split; [|done]. intros E. apply Hne.
    by rewrite (nodup_bind_eq fls g f (f0 g)) by (done || (unfold fidx; rewrite ?E; set_solver)).
  - intros b c' (c & Hc & ->)%wake_all_Some. specialize (vi_calls0 b c Hc). unfold call_ok, wake in *. simpl.
    destruct (c_at c) as [[]|i|i []]; simpl; [exact vi_calls0| |exact vi_calls0| |].
    { destruct vi_calls0 as [K1 K2]. split; [exact K1|]. intros _. by apply K2. }
    { destruct vi_calls0 as (K1 & K2 & _). by split_and!. }
    destruct vi_calls0 as ((i1 & i2 & K1) & K2 & K3). split_and!; [by exists i1, i2|done|].
    intros Hw%bool_decide_eq_false. rewrite not_elem_of_cons. split; [|by apply K3]. intros ->. apply Hw.
    pose proof (nodup_bind_eq fls _ f (f0 f) vi_nodup0 K1 Hf ltac:(unfold fidx; set_solver)
      ltac:(unfold fidx; set_solver)) as E. rewrite <-E. set_solver.
  - eapply Forall_impl; [exact vi_owner0|]. intros. by apply wake_all_owner.
  - by rewrite vi_lock0, Hh.
  - intros _. by apply vi_excl0.
  - rewrite vi_xfer0. erewrite filter_ext_in; [done|]. intros g _. set_solver.
Qed.

(** One completed request is seen: its buffer is released and its call woken. *)
Lemma intr_round_inv w fls qf qa qu qd s :
  vinv fls qf qa qu qd s → handling s = true →
  runs intr_round (set_woken w (drv s)) (λ more d, ∃ qu' qd',
    match qu with [] => more = false ∧ qu' = [] ∧ qd' = qd | i :: q => more = true ∧ qu' = q ∧ qd' = i :: qd end ∧
    vinv fls qf qa qu' qd' (mkSys d (wake_all (woken d) (calls s))
      true (last_avail s) (taken s) (transfers s) (returned s))).
Proof.
  intros I Hh. destruct (qa_short _ _ _ _ _ _ I) as [_ Hqu].
  pose proof (window_empty _ _ _ _ (vi_used _ _ _ _ _ _ I) ltac:(lia)) as He.
  unfold intr_round. kred. simpl. destruct qu as [|i qu].
  - rewrite (proj2 (Z.eqb_eq _ _) (proj2 He eq_refl)). kred. exists [], qd. split; [done|].
    pose proof I as []. split; simpl; try done.
    + by eapply fmt_same.
    + by apply wake_all_calls.
    + eapply Forall_impl; [exact vi_owner0|]. intros. by apply wake_all_owner.
    + by rewrite vi_lock0, Hh.
    + intros _. by apply vi_excl0.
  - rewrite (proj2 (Z.eqb_neq _ _)) by (intros E; by apply He in E).
    destruct (window_pop _ _ _ _ _ (vi_used _ _ _ _ _ _ I)) as [Hi Hpop].
    assert (Hf : i ∈ f0 <$> fls) by (rewrite (vi_heads _ _ _ _ _ _ I); set_solver).
    apply list_elem_of_fmap in Hf as (f & -> & Hf).
    pose proof (flight_range _ _ _ _ _ _ _ I Hf) as Hr. unfold fidx in Hr. rewrite Forall_cons in Hr. destruct Hr as [Hr _].
    kred. eapply runs_at_index; [apply Z.mod_pos_bound; done|exact Hi|]. kred.
    eapply runs_at_index; [lia|apply (vi_status _ _ _ _ _ _ I); set_solver|]. simpl. kred.
    pose proof (vi_fmt _ _ _ _ _ _ I) as F. rewrite Forall_forall in F.
    eapply runs_at_index; [lia|apply (fmt_b _ _ (F f Hf))|]. unfold wakeup_chan. kred.
    exists qu, (f0 f :: qd). split; [done|]. by apply (intr_seen w f fls qf qa qu qd s).
Qed.

Lemma intr_end_inv fls qf qa qu qd s :
  vinv fls qf qa qu qd s → handling s = true → used_idx (drv s) = us_idx (drv s) →
  runs (intr_round ;;; release_vdisk) (fresh_wakeups (drv s)) (λ _ d,
    vinv fls qf qa qu qd (mkSys d (calls s) false (last_avail s) (taken s) (transfers s) (returned s))).
Proof.
  intros I Hh E. unfold intr_round. kred. simpl. rewrite (proj2 (Z.eqb_eq _ _) E). kred.
  pose proof I as []. apply runs_release_flag; [simpl; by rewrite vi_lock0, Hh|].
  rewrite (vi_excl0 Hh) in *. split; simpl; try done. by eapply fmt_same.
Qed.

Lemma fetch_inv fls qf qa qu qd s id :
  vinv fls qf qa qu qd s → last_avail s ≠ av_idx (drv s) →
  av_ring (drv s) !! Z.to_nat (last_avail s mod NUM) = Some id →
  ∃ qa', qa = id :: qa' ∧ vinv fls qf qa' qu qd (mkSys (drv s) (calls s) (handling s) (u16 (last_avail s + 1)) (taken s ++ [id])
    (transfers s) (returned s)).
Proof.
  intros I Hne Hid. destruct (qa_short _ _ _ _ _ _ I) as [Hqa _].
  pose proof (window_empty _ _ _ _ (vi_avail _ _ _ _ _ _ I) ltac:(lia)) as He.
  destruct qa as [|i qa]; [by destruct Hne; apply He|]. exists qa.
  destruct (window_pop _ _ _ _ _ (vi_avail _ _ _ _ _ _ I)) as [Hi Hpop].
  assert (i = id) as -> by (change NUM with 8 in Hid; congruence).
  split; [done|]. pose proof I as []. split; simpl; try done. etrans; [exact vi_heads0|]. solve_Permutation.
Qed.

Lemma complete_inv fls qf qa qu qd s l1 id l2 x k :
  vinv fls qf qa qu qd s → taken s = l1 ++ id :: l2 → parse_chain (drv s) id = Some (x, k) →
  vinv fls qf qa (qu ++ [id]) qd (mkSys
    (set_used (<[Z.to_nat (us_idx (drv s) mod NUM) := id]> (us_ring (drv s))) (u16 (us_idx (drv s) + 1))
      (set_info_status (<[Z.to_nat k := 0]> (info_status (drv s))) (drv s)))
    (calls s) (handling s) (last_avail s) (l1 ++ l2) (transfers s ++ [x]) (returned s)).
Proof.
  intros I Ht Hp. destruct (qa_short _ _ _ _ _ _ I) as [_ Hqu].
  pose proof (heads_nodup fls (vi_nodup _ _ _ _ _ _ I)) as Hnd.
  assert (Hf : id ∈ f0 <$> fls) by (rewrite (vi_heads _ _ _ _ _ _ I), Ht; set_solver).
  apply list_elem_of_fmap in Hf as (f & -> & Hf).
  pose proof (flight_range _ _ _ _ _ _ _ I Hf) as Hr.
  pose proof (vi_fmt _ _ _ _ _ _ I) as F. rewrite Forall_forall in F.
  rewrite (fmt_parse _ _ Hr (F f Hf)) in Hp. injection Hp as <- <-.
  unfold fidx in Hr. rewrite Forall_cons in Hr. destruct Hr as [Hr _].
  pose proof I as []. pose proof (Z.mod_pos_bound (us_idx (drv s)) 8 ltac:(lia)) as Hm. change NUM with 8.
  assert (Hfresh : f0 f ∉ qu ++ qd).
  { rewrite vi_heads0, Ht in Hnd. intros Hin.
    assert (P : qf ++ qa ++ (l1 ++ f0 f :: l2) ++ qu ++ qd ≡ₚ f0 f :: (qf ++ qa ++ l1 ++ l2 ++ qu ++ qd))
      by solve_Permutation.
    rewrite P in Hnd. apply NoDup_cons in Hnd as [Hn _]. set_solver. }
  split; simpl; ins; try done.
  - by eapply fmt_same.
  - etrans; [exact vi_heads0|]. rewrite Ht. solve_Permutation.
  - apply window_push; [apply window_write; [done|lia]|]. apply list_lookup_insert_eq. lia.
  - intros i [Hi|Hi]%elem_of_app; [|apply list_elem_of_singleton in Hi as ->].
    + destruct (decide (Z.to_nat i = Z.to_nat (f0 f))) as [->|Hne]; [apply list_lookup_insert_eq; lia|].
      rewrite list_lookup_insert_ne by done. by apply vi_status0.
    + apply list_lookup_insert_eq. lia.
  - rewrite vi_xfer0, <-app_assoc. f_equiv. apply list_elem_of_split in Hf as (m1 & m2 & ->).
    rewrite bind_app, bind_cons in vi_nodup0.
    assert (Hm12 : ∀ g, g ∈ m1 ++ m2 → f0 g ≠ f0 f).
    { intros g Hg E. rewrite fmap_app, fmap_cons in Hnd. apply NoDup_app in Hnd as (_ & H1 & [H2 _]%NoDup_cons).
      apply elem_of_app in Hg as [Hg|Hg].
      - apply (H1 (f0 g)); [by apply list_elem_of_fmap_2|]. rewrite E. set_solver.
      - apply H2. rewrite <-E. by apply list_elem_of_fmap_2. }
    rewrite !filter_app, (filter_cons_False _ f), (filter_cons_True _ f) by set_solver.
    assert (Ef : ∀ m : list flight, (∀ g, g ∈ m → f0 g ≠ f0 f) →
      filter (λ g, f0 g ∈ (qu ++ [f0 f]) ++ qd) m = filter (λ g, f0 g ∈ qu ++ qd) m).
    { intros m Hne. apply filter_ext_in. intros g Hg. specialize (Hne g Hg). set_solver. }
    rewrite !Ef by (intros; apply Hm12; set_solver). rewrite !fmap_app, fmap_cons. solve_Permutation.
Qed.

(** ** The system from start to end *)

(** The driver as virtio_disk_init leaves it. *)
Record ready (d : disk) : Prop := mkReady {
  rd_desc : desc d = replicate 8 no_desc; rd_av : av_ring d = replicate 8 0; rd_us : us_ring d = replicate 8 0;
  rd_ai : av_idx d = 0; rd_ui : us_idx d = 0; rd_used : used_idx d = 0;
  rd_b : length (info_b d) = 8%nat; rd_st : length (info_status d) = 8%nat; rd_ops : length (ops d) = 8%nat;
  rd_free : dfree d = free_map ∅; rd_lock : vdisk_lock d = false
}.

Definition start_sys (d : disk) : sys := mkSys d ∅ false 0 [] [] [].

Lemma start_sys_inv d : ready d → vinv [] [] [] [] [] (start_sys d).
Proof.
  intros []. split; simpl; rewrite ?rd_desc0, ?rd_av0, ?rd_us0, ?rd_ai0, ?rd_ui0, ?rd_used0;
    done || lia || (by apply window_nil) || apply NoDup_nil_2 || (by intros ? ?%elem_of_nil).
Qed.

Definition inv (s : sys) : Prop := ∃ fls qf qa qu qd, vinv fls qf qa qu qd s.

Lemma work_inv s s' : inv s → work s s' → inv s'.
Proof.
  intros (fls & qf & qa & qu & qd & I) W. inversion W; subst; clear W.
  - pose proof (vi_calls _ _ _ _ _ _ I _ _ H) as K. unfold call_ok in K. rewrite H0 in K. destruct K as [K _].
    destruct (okays_Ok _ _ _ _ _ (runs_okays _ _ _ (submit_inv _ _ _ _ _ _ b (c_bno c) (c_out c) I H1 K)) H2)
      as (? & ? & _ & ?). by do 5 eexists.
  - destruct (okays_Ok _ _ _ _ _ (runs_okays _ _ _ (publish_inv [] _ _ _ _ _ _ _ _ _ I H H0)) H1) as [_ ?].
    by do 5 eexists.
  - destruct (okays_Ok _ _ _ _ _ (runs_okays _ _ _ (resume_inv _ _ _ _ _ _ _ _ _ _ I H H0 H1)) H2) as (? & ? & _ & ?).
    by do 5 eexists.
  - pose proof (okays_Ok _ _ _ _ _ (runs_okays _ _ _ (intr_begin_inv [] _ _ _ _ _ _ I H)) H0) as V.
    do 5 eexists. exact V.
  - destruct (okays_Ok _ _ _ _ _ (runs_okays _ _ _ (intr_round_inv [] _ _ _ _ _ _ I H)) H0) as (? & ? & _ & ?).
    by do 5 eexists.
  - pose proof (okays_Ok _ _ _ _ _ (runs_okays _ _ _ (intr_end_inv _ _ _ _ _ _ I H H1)) H0) as V.
    do 5 eexists. exact V.
  - destruct (fetch_inv _ _ _ _ _ _ _ I H H0) as (? & _ & ?). by do 5 eexists.
  - pose proof (complete_inv _ _ _ _ _ _ _ _ _ _ _ I H H0) as V. do 5 eexists. exact V.
Qed.

Lemma vstep_inv s s' : inv s → vstep s s' → inv s'.
Proof.
  intros Hi [s1 W|b bno out r d Hb Hl E]; [by eapply work_inv|]. destruct Hi as (fls & qf & qa & qu & qd & I).
  pose proof (calls_none _ _ _ _ _ _ _ I Hb) as K.
  destruct (okays_Ok _ _ _ _ _ (runs_okays _ _ _ (submit_inv _ _ _ _ _ _ b bno out I Hl K)) E) as (? & ? & _ & ?).
  by do 5 eexists.
Qed.

Lemma reachable_inv d s : ready d → rtc vstep (start_sys d) s → inv s.
Proof.
  intros R Hs. assert (H0 : inv (start_sys d)) by (do 5 eexists; by apply start_sys_inv).
  revert H0. induction Hs; [done|]. intros. by apply IHHs, (vstep_inv x).
Qed.
