(* ===== verification/VirtioSafe.v ===== *)
(** What the disk driver promises bio.c: every call of virtio_disk_rw makes
    the device perform exactly the transfer it asks for, exactly once, before
    it returns; no panic of the driver is reachable; and every call that has
    begun can complete. *)

From S2P Require Import Prelude Mem CString Riscv Spinlock Kalloc BlockCache Virtio VirtioSpec VirtioInv.
Local Open Scope kernel_scope.

(** ** Every call performs its transfer once *)

Lemma head_call fls qf qa qu qd s id :
  vinv fls qf qa qu qd s → id ∈ qf ++ qa ++ taken s ++ qu ++ qd →
  ∃ f c, f ∈ fls ∧ f0 f = id ∧ calls s !! f_b f = Some c ∧ f_xfer f = wanted (f_b f) c ∧
    (c_at c = Formatted (f0 f) ∨ ∃ aw, c_at c = InFlight (f0 f) aw) ∧
    parse_chain (drv s) id = Some (f_xfer f, id).
Proof.
  intros I Hid. rewrite <-(vi_heads _ _ _ _ _ _ I) in Hid. apply list_elem_of_fmap in Hid as (f & -> & Hf).
  pose proof (vi_owner _ _ _ _ _ _ I) as O. rewrite Forall_forall in O. destruct (O f Hf) as (c & Hc & Ho & Hn & Hat).
  pose proof (vi_fmt _ _ _ _ _ _ I) as F. rewrite Forall_forall in F.
  exists f, c. split_and!; try done.
  - unfold wanted, f_xfer. by rewrite Ho, Hn.
  - apply fmt_parse; [by eapply flight_range|by apply F].
Qed.

(** [C8] Every call of virtio_disk_rw transfers its block exactly once.  In
    every state that any interleaving of calls, interrupts and the device can
    reach, the device has performed one transfer for each call that has
    returned, of the block, buffer and direction the call was made with, and
    at most one for each call in progress; and the chain of descriptors at
    each place where the device will look describes the transfer of a call in
    progress. *)
Theorem virtio_exactly_once d s :
  ready d → rtc vstep (start_sys d) s →
  (∃ l, transfers s ≡ₚ returned s ++ l ∧ NoDup (x_b <$> l) ∧
     ∀ x, x ∈ l → ∃ c, calls s !! x_b x = Some c ∧ x = wanted (x_b x) c) ∧
  ∀ id, id ∈ taken s ∨
      last_avail s ≠ av_idx (drv s) ∧ av_ring (drv s) !! Z.to_nat (last_avail s mod NUM) = Some id →
    ∃ b c, calls s !! b = Some c ∧ parse_chain (drv s) id = Some (wanted b c, id).
Proof.
  intros R Hs. destruct (reachable_inv d s R Hs) as (fls & qf & qa & qu & qd & I). split.
  - exists (f_xfer <$> filter (λ f, f0 f ∈ qu ++ qd) fls). split; [apply I|]. split.
    + rewrite <-list_fmap_compose. change (x_b ∘ f_xfer) with f_b.
      eapply sublist_NoDup; [exact (vi_bufs _ _ _ _ _ _ I)|].
      apply fmap_sublist, sublist_filter.
    + intros x (f & -> & [_ Hf]%list_elem_of_filter)%list_elem_of_fmap.
      pose proof (vi_owner _ _ _ _ _ _ I) as O. rewrite Forall_forall in O.
      destruct (O f Hf) as (c & Hc & Ho & Hn & _). exists c. split; [done|]. unfold wanted, f_xfer. by rewrite Ho, Hn.
  - intros id Hid. assert (Hin : id ∈ qf ++ qa ++ taken s ++ qu ++ qd).
    { destruct Hid as [Hid|[Hne Hid]]; [set_solver|].
      destruct (fetch_inv _ _ _ _ _ _ _ I Hne Hid) as (qa' & -> & _). set_solver. }
    destruct (head_call _ _ _ _ _ _ _ I Hin) as (f & c & _ & <- & Hc & Hx & _ & Hp).
    exists (f_b f), c. split; [done|]. by rewrite <-Hx.
Qed.

(** ** The whole functions never panic *)

Lemma set_woken_id d : set_woken (woken d) d = d.
Proof. by destruct d. Qed.

Lemma runs_intr_rounds fls qf qa qu qd s fuel :
  vinv fls qf qa qu qd s → handling s = true → (length qu < fuel)%nat →
  runs (iter fuel (λ _ : unit, more <- intr_round ;;; if (more : bool) then ret (inl tt) else ret (inr tt)) tt) (drv s)
    (λ _ d, used_idx d = us_idx d ∧ vdisk_lock d = true).
Proof.
  revert qd s fuel. induction qu as [|i qu IH]; intros qd s fuel I Hh Hfuel;
    (destruct fuel as [|fuel]; [simpl in Hfuel; lia|]); simpl; apply runs_bind, runs_bind;
    rewrite <-(set_woken_id (drv s)); (eapply runs_mono; [by apply (intr_round_inv _ _ _ _ _ _ _ I Hh)|]).
  - intros more d' (qu' & qd' & (-> & -> & ->) & I'). kred. split.
    + apply (window_empty _ _ _ _ (vi_used _ _ _ _ _ _ I')); [simpl; lia|done].
    + exact (vi_lock _ _ _ _ _ _ I').
  - intros more d' (qu' & qd' & (-> & -> & ->) & I'). kred. apply (IH _ _ _ I'); [done|]. simpl in Hfuel. lia.
Qed.

(** A call asleep on its buffer has given the buffer to the disk. *)
Lemma asleep_disk fls qf qa qu qd s b c i :
  vinv fls qf qa qu qd s → calls s !! b = Some c → c_at c = InFlight i false → b ∈ b_disk (drv s).
Proof.
  intros I Hc Hat. pose proof (vi_calls _ _ _ _ _ _ I _ _ Hc) as K. unfold call_ok in K. rewrite Hat in K.
  destruct K as ((i1 & i2 & Hf) & _ & Hi). apply (vi_disk _ _ _ _ _ _ I _ Hf). by apply Hi.
Qed.

Lemma flights_calls fls qf qa qu qd s : vinv fls qf qa qu qd s → fls ≠ [] → calls s ≠ ∅.
Proof.
  intros I Hne E. destruct fls as [|f fls]; [done|]. pose proof (vi_owner _ _ _ _ _ _ I) as O.
  apply Forall_cons in O as [(c & Hc & _) _]. rewrite E, lookup_empty in Hc. done.
Qed.

Lemma unlocked fls qf qa qu qd s : vinv fls qf qa qu qd s → vdisk_lock (drv s) = false → handling s = false.
Proof. intros I Hl. pose proof (vi_lock _ _ _ _ _ _ I) as L. rewrite Hl in L. by destruct (handling s). Qed.

(** No panic of the driver is reachable.  In every reachable state in
    which vdisk_lock is free, virtio_disk_intr returns with every completed
    request seen, and virtio_disk_rw on a buffer not in use runs until it
    sleeps: for descriptors only when all but two are in use, or else for its
    buffer, which the driver marks as owned by the disk. *)
Theorem virtio_no_panic d s :
  ready d → rtc vstep (start_sys d) s → vdisk_lock (drv s) = false →
  runs virtio_disk_intr (drv s) (λ _ d', used_idx d' = us_idx d' ∧ vdisk_lock d' = false) ∧
  ∀ b bno out, calls s !! b = None → runs (virtio_disk_rw b bno out) (fresh_wakeups (drv s)) (λ r d',
    vdisk_lock d' = false ∧ (r = AwaitDesc ∧ calls s ≠ ∅ ∨ ∃ i, r = AwaitBuf i ∧ b ∈ b_disk d')).
Proof.
  intros R Hs Hl. destruct (reachable_inv d s R Hs) as (fls & qf & qa & qu & qd & I). split.
  - unfold virtio_disk_intr. rewrite <-(set_woken_id (drv s)). apply runs_bind.
    eapply runs_mono; [by apply (intr_begin_inv _ _ _ _ _ _ _ I)|]. intros [] d1 I1. cbv beta in I1. kred.
    eapply runs_mono; [apply (runs_intr_rounds _ _ _ _ _ _ _ I1 eq_refl)|].
    + pose proof (vi_used _ _ _ _ _ _ I1) as (Hu & Eu & _). simpl in Hu, Eu. destruct (qa_short _ _ _ _ _ _ I1) as [_ Hq].
      rewrite Eu. unfold u16. rewrite Zminus_mod_idemp_l, Z.mod_small; lia.
    + intros [] d2 [E Hl2]. apply runs_release_flag; [done|]. by split.
  - intros b bno out Hb. pose proof (calls_none _ _ _ _ _ _ _ I Hb) as K. unfold virtio_disk_rw.
    pose proof (submit_inv _ _ _ _ _ _ b bno out I Hl K) as H. apply runs_bind_inv in H. apply runs_bind.
    eapply runs_mono; [exact H|]. clear H. intros [] d1 H. apply runs_bind. eapply runs_mono; [exact H|]. clear H.
    intros r d2 (fls' & qf' & Hr & I'). pose proof (unlocked _ _ _ _ _ _ I Hl) as Hh. destruct r as [i|]; kred.
    + rewrite <-(set_woken_id d2).
      pose proof (publish_inv (woken d2) _ _ _ _ _ _ b _ i I' (lookup_insert_eq _ _ _) eq_refl) as H.
      apply runs_bind_inv in H. eapply runs_mono; [exact H|]. clear H. intros [] d3 H. eapply runs_mono; [exact H|].
      intros r d4 [-> I4]. split.
      * rewrite (vi_lock _ _ _ _ _ _ I4 : vdisk_lock d4 = _). simpl. by rewrite Hh.
      * right. exists i. split; [done|]. exact (asleep_disk _ _ _ _ _ _ b _ i I4 (lookup_insert_eq _ _ _) eq_refl).
    + destruct Hr as [Hne ->]. split; [|left; split; [done|by apply (flights_calls _ _ _ _ _ _ I)]].
      rewrite (vi_lock _ _ _ _ _ _ I' : vdisk_lock d2 = _). simpl. by rewrite Hh.
Qed.

(** ** Every call can complete *)

(** The transfers of the calls in progress. *)
Definition wants (m : gmap Z call) : gmap Z xfer := map_imap (λ b c, Some (wanted b c)) m.
Definition owed (s : sys) : list xfer := returned s ++ (map_to_list (wants (calls s))).*2.

Lemma wants_wake ws m : wants (wake_all ws m) = wants m.
Proof.
  apply map_eq. intros b. unfold wants, wake_all. rewrite !map_lookup_imap. by destruct (m !! b).
Qed.

Lemma wants_insert m b c c' : m !! b = Some c → wanted b c' = wanted b c → wants (<[b := c']> m) = wants m.
Proof.
  intros Hb E. apply map_eq. intros b'. unfold wants. rewrite !map_lookup_imap.
  destruct (decide (b' = b)) as [->|Hne]; [rewrite lookup_insert_eq, Hb; simpl; by rewrite E|by rewrite lookup_insert_ne].
Qed.

Lemma wants_delete m b c :
  m !! b = Some c → (map_to_list (wants m)).*2 ≡ₚ wanted b c :: (map_to_list (wants (delete b m))).*2.
Proof.
  intros Hb. assert (E : wants (delete b m) = delete b (wants m)).
  { apply map_eq. intros b'. unfold wants. rewrite map_lookup_imap.
    destruct (decide (b' = b)) as [->|Hne]; [by rewrite !lookup_delete_eq|].
    by rewrite !lookup_delete_ne, map_lookup_imap by done. }
  rewrite E, <-(map_to_list_delete (wants m) b (wanted b c)); [done|].
  unfold wants. by rewrite map_lookup_imap, Hb.
Qed.

Lemma waited_owed s b c r m :
  calls s !! b = Some c → wants m = wants (calls s) → (∃ c', m !! b = Some c' ∧ wanted b c' = wanted b c) →
  (returned s ++ finished b c r) ++ (map_to_list (wants (waited b c r m))).*2 ≡ₚ owed s.
Proof.
  intros Hb Em (c' & Hm & E). unfold owed. rewrite <-app_assoc. f_equiv. rewrite <-Em.
  destruct r; simpl.
  - rewrite (wants_insert m b c'); [done..|]. rewrite E. done.
  - rewrite (wants_insert m b c'); [done..|]. rewrite E. done.
  - rewrite <-E. symmetry. by apply wants_delete.
Qed.

(** A step of work neither loses nor invents a call. *)
Lemma work_owed s s' : work s s' → owed s' ≡ₚ owed s.
Proof.
  intros W. destruct W as [b c r d Hb _ _ _|b c i r d Hb _ _|b c i r d Hb _ _ _| | | | |]; try done.
  - unfold owed. simpl. rewrite (wants_insert _ b (wake (woken d) b c)), wants_wake; [done| |done].
    apply wake_all_Some. eauto.
  - apply waited_owed; [done|apply wants_wake|]. exists (wake (woken d) b c). split; [apply wake_all_Some; eauto|done].
  - apply waited_owed; [done|apply wants_wake|]. exists (wake (woken d) b c). split; [apply wake_all_Some; eauto|done].
  - unfold owed. simpl. by rewrite wants_wake.
Qed.

(** How far the calls in progress are from their ends: [todo] counts them and
    [rank] what is left to do for the requests in flight. *)
Definition todo (s : sys) : nat := length (map_to_list (wants (calls s))).
Definition rank (fls : list flight) (qf qa tk qu qd : list Z) (h : bool) : nat :=
  10 * (2 - length fls) + 8 * length qf + 7 * length qa + 6 * length tk + 5 * length qu + length qd +
  (if h then 2 else 0).

Definition nearer (fls : list flight) (qf qa qu qd : list Z) (s : sys) : Prop :=
  ∃ s' fls' qf' qa' qu' qd', rtc work s s' ∧ vinv fls' qf' qa' qu' qd' s' ∧
    ((todo s' < todo s)%nat ∨ todo s' = todo s ∧
     (rank fls' qf' qa' (taken s') qu' qd' (handling s') < rank fls qf qa (taken s) qu qd (handling s))%nat).

Lemma todo_wants s s' : wants (calls s') = wants (calls s) → todo s' = todo s.
Proof. unfold todo. by intros ->. Qed.

Lemma nearer_handling fls qf qa qu qd s :
  vinv fls qf qa qu qd s → handling s = true → nearer fls qf qa qu qd s.
Proof.
  intros I Hh. destruct qu as [|i qu].
  - assert (E : used_idx (drv s) = us_idx (drv s))
      by (apply (window_empty _ _ _ _ (vi_used _ _ _ _ _ _ I)); [simpl; lia|done]).
    destruct (runs_elim _ _ _ (intr_end_inv _ _ _ _ _ _ I Hh E)) as ([] & d & Hd & I').
    eexists _, fls, qf, qa, [], qd. split; [apply rtc_once; by apply w_intr_end|]. split; [exact I'|].
    right. split; [done|]. unfold rank. rewrite Hh. simpl. lia.
  - destruct (runs_elim _ _ _ (intr_round_inv [] _ _ _ _ _ _ I Hh)) as (more & d & Hd & qu' & qd' & (-> & -> & ->) & I').
    eexists _, fls, qf, qa, qu, (i :: qd). split; [apply rtc_once; by apply w_intr_round|]. split; [exact I'|].
    right. split; [apply todo_wants, wants_wake|]. unfold rank. rewrite Hh. simpl. lia.
Qed.

Lemma nearer_publish fls i qf qa qu qd s :
  vinv fls (i :: qf) qa qu qd s → nearer fls (i :: qf) qa qu qd s.
Proof.
  intros I. destruct (head_call _ _ _ _ _ _ i I) as (f & c & Hf & Ei & Hc & _ & Hat & _); [set_solver|].
  assert (Hat' : c_at c = Formatted i).
  { rewrite <-Ei. destruct Hat as [Hat|[aw Hat]]; [done|]. pose proof (vi_calls _ _ _ _ _ _ I _ _ Hc) as K.
    unfold call_ok in K. rewrite Hat in K. destruct K as (_ & K & _). set_solver. }
  destruct (runs_elim _ _ _ (publish_inv [] _ _ _ _ _ _ _ _ _ I Hc Hat')) as (r & d & Hd & -> & I').
  eexists _, fls, [], (qa ++ [i]), qu, qd. split; [apply rtc_once; by eapply w_publish|]. split; [exact I'|].
  right. split.
  - apply todo_wants. simpl. rewrite (wants_insert _ _ (wake (woken d) (f_b f) c)), wants_wake; [done| |done].
    apply wake_all_Some. eauto.
  - unfold rank. rewrite length_app. simpl. lia.
Qed.

Lemma nearer_resume fls qa qu i qd s :
  vinv fls [] qa qu (i :: qd) s → vdisk_lock (drv s) = false → nearer fls [] qa qu (i :: qd) s.
Proof.
  intros I Hl. destruct (head_call _ _ _ _ _ _ i I) as (f & c & Hf & Ei & Hc & _ & Hat & _); [set_solver|].
  pose proof (vi_calls _ _ _ _ _ _ I _ _ Hc) as K. unfold call_ok in K.
  assert (Hat' : c_at c = InFlight i true).
  { rewrite Ei in Hat. destruct Hat as [Hat|[[] Hat]]; [|done|]; rewrite Hat in K.
    - destruct K as [_ K]. set_solver.
    - destruct K as (_ & _ & K). specialize (K eq_refl). set_solver. }
  destruct (runs_elim _ _ _ (resume_inv _ _ _ _ _ _ _ _ _ _ I Hc Hat' Hl)) as (r & d & Hd & fls' & qd' & Hr & I').
  assert (r = RwDone) as -> by (apply Hr; set_solver).
  eexists _, fls', [], qa, qu, qd'. split; [apply rtc_once; by eapply w_resume|]. split; [exact I'|]. left.
  assert (Hm : wake_all (woken d) (calls s) !! f_b f = Some (wake (woken d) (f_b f) c)) by (apply wake_all_Some; eauto).
  pose proof (Permutation_length (wants_delete _ _ _ Hm)) as P. simpl in P. rewrite wants_wake, !length_fmap in P.
  unfold todo. simpl. lia.
Qed.

Lemma nearer_device fls qa qu s :
  vinv fls [] qa qu [] s → vdisk_lock (drv s) = false → qa ++ taken s ++ qu ≠ [] → nearer fls [] qa qu [] s.
Proof.
  intros I Hl Hne. pose proof (unlocked _ _ _ _ _ _ I Hl) as Hh. destruct qu as [|i qu].
  - destruct (taken s) as [|id l] eqn:Et.
    + destruct qa as [|i qa]; [done|]. destruct (window_pop _ _ _ _ _ (vi_avail _ _ _ _ _ _ I)) as [Hi _].
      assert (Hav : last_avail s ≠ av_idx (drv s)).
      { destruct (qa_short _ _ _ _ _ _ I) as [Hq _].
        rewrite (window_empty _ _ _ _ (vi_avail _ _ _ _ _ _ I)) by lia. done. }
      destruct (fetch_inv _ _ _ _ _ _ _ I Hav Hi) as (qa' & [= <-] & I').
      eexists _, fls, [], qa, [], []. split; [apply rtc_once; by apply w_fetch|]. split; [exact I'|].
      right. split; [done|]. unfold rank. simpl. rewrite Et. simpl. lia.
    + destruct (head_call _ _ _ _ _ _ id I) as (f & c & _ & _ & _ & _ & _ & Hp); [rewrite Et; set_solver|].
      pose proof (complete_inv _ _ _ _ _ _ [] id l _ _ I Et Hp) as I'.
      eexists _, fls, [], qa, [id], []. split; [apply rtc_once; by apply (w_complete s [] id l _ _ Et Hp)|].
      split; [exact I'|]. right. split; [done|]. unfold rank. simpl. rewrite Et. simpl. lia.
  - destruct (runs_elim _ _ _ (intr_begin_inv [] _ _ _ _ _ _ I Hl)) as ([] & d & Hd & I1). cbv beta in I1.
    destruct (runs_elim _ _ _ (intr_round_inv [] _ _ _ _ _ _ I1 eq_refl))
      as (more & d2 & Hd2 & qu' & qd' & (-> & -> & ->) & I2).
    eexists _, fls, [], qa, qu, [i]. split.
    { eapply rtc_l; [by apply w_intr_begin|]. apply rtc_once. by apply w_intr_round. }
    split; [exact I2|]. right. split; [apply todo_wants, wants_wake|]. unfold rank. simpl. rewrite Hh. lia.
Qed.

Lemma nearer_retry s :
  vinv [] [] [] [] [] s → vdisk_lock (drv s) = false → calls s ≠ ∅ → nearer [] [] [] [] [] s.
Proof.
  intros I Hl (b & c & Hc)%map_choose. pose proof (vi_calls _ _ _ _ _ _ I _ _ Hc) as K. unfold call_ok in K.
  destruct (c_at c) as [aw|i|i aw] eqn:Hat; [|destruct K as [_ K]; set_solver|destruct K as [(? & ? & K) _]; set_solver].
  destruct K as [Hb Haw]. destruct aw; [|by destruct (Haw eq_refl)].
  destruct (runs_elim _ _ _ (submit_inv _ _ _ _ _ _ b (c_bno c) (c_out c) I Hl Hb)) as (r & d & Hd & fls' & qf' & Hr & I').
  eexists _, fls', qf', [], [], []. split; [apply rtc_once; by eapply w_retry|]. split; [exact I'|]. right. split.
  - apply todo_wants. simpl. rewrite (wants_insert _ _ (wake (woken d) b c)), wants_wake; [done| |done].
    apply wake_all_Some. eauto.
  - destruct r as [i|]; [|by destruct Hr]. destruct Hr as [Hfl ->]. unfold rank. rewrite Hfl. simpl.
    destruct (taken s), (handling s); simpl; lia.
Qed.

Lemma nearer_all fls qf qa qu qd s : vinv fls qf qa qu qd s → calls s ≠ ∅ → nearer fls qf qa qu qd s.
Proof.
  intros I Hc. destruct (handling s) eqn:Hh; [by apply nearer_handling|].
  destruct qf as [|i qf]; [|by apply nearer_publish].
  assert (Hl : vdisk_lock (drv s) = false) by (by rewrite (vi_lock _ _ _ _ _ _ I), Hh).
  destruct qd as [|i qd]; [|by apply nearer_resume].
  destruct (decide (qa ++ taken s ++ qu = [])) as [E|Hne]; [|by apply nearer_device].
  apply app_eq_nil in E as [-> [Et ->]%app_eq_nil].
  pose proof (vi_heads _ _ _ _ _ _ I) as P. rewrite Et in P. apply Permutation_nil_r in P.
  apply fmap_nil_inv in P as ->. by apply nearer_retry.
Qed.

Lemma completes n m fls qf qa qu qd s :
  vinv fls qf qa qu qd s → (todo s < n)%nat → (rank fls qf qa (taken s) qu qd (handling s) < m)%nat →
  ∃ s', rtc work s s' ∧ calls s' = ∅ ∧ inv s'.
Proof.
  revert m fls qf qa qu qd s. induction n as [|n IHn]; [lia|]. intros m.
  induction m as [|m IHm]; [lia|]. intros fls qf qa qu qd s I Hn Hm.
  destruct (decide (calls s = ∅)) as [E|Hne]; [exists s; split; [done|]; split; [done|]; by do 5 eexists|].
  destruct (nearer_all _ _ _ _ _ _ I Hne) as (s1 & fls1 & qf1 & qa1 & qu1 & qd1 & H1 & I1 & Hlt).
  assert (∃ s', rtc work s1 s' ∧ calls s' = ∅ ∧ inv s') as (s' & Hs' & H').
  { destruct Hlt as [Hlt|[E Hlt]].
    - apply (IHn (S (rank fls1 qf1 qa1 (taken s1) qu1 qd1 (handling s1))) _ _ _ _ _ _ I1); lia.
    - apply (IHm _ _ _ _ _ _ I1); lia. }
  exists s'. split; [by transitivity s1|done].
Qed.

(** [C12] The driver never deadlocks: from every reachable state, steps of the
    calls in progress, of the interrupt handler and of the device alone lead
    to a state in which every call has returned, and then the device has
    performed exactly the transfers of the calls that returned: those that had
    returned before and those that were in progress. *)
Theorem virtio_completes d s :
  ready d → rtc vstep (start_sys d) s →
  ∃ s', rtc work s s' ∧ calls s' = ∅ ∧ transfers s' ≡ₚ returned s' ∧ returned s' ≡ₚ owed s.
Proof.
  intros R Hs. destruct (reachable_inv d s R Hs) as (fls & qf & qa & qu & qd & I).
  destruct (completes (S (todo s)) (S (rank fls qf qa (taken s) qu qd (handling s))) _ _ _ _ _ _ I) as (s' & Hw & Hc & I');
    [lia..|]. exists s'. split; [done|]. split; [done|]. split.
  - destruct I' as (fls' & qf' & qa' & qu' & qd' & I'). destruct fls' as [|f fls'].
    + pose proof (vi_xfer _ _ _ _ _ _ I') as P. by rewrite app_nil_r in P.
    + by destruct (flights_calls _ _ _ _ _ _ I').
  - assert (Ho : owed s' ≡ₚ owed s).
    { clear -Hw. induction Hw as [|x y z Hxy _ IH]; [done|]. by rewrite IH, (work_owed x y). }
    rewrite <-Ho. unfold owed. by rewrite Hc, app_nil_r.
Qed.

(** ** virtio_disk_init *)

(** The state during virtio_disk_init: the registers and the pages change. *)
Definition booting (i : list Z) (o : list (Z * Z)) (k : kst) (s : disk) : disk := set_regs i o (set_pages k s).

Lemma runs_R_read r v i o k s (Q : Z → disk → Prop) :
  0 <= v < 2 ^ 32 → Q v (booting i o k s) → runs (R_read r) (booting (v :: i) o k s) Q.
Proof. intros Hv HQ. unfold runs, R_read. simpl. by rewrite (u32_small v Hv). Qed.

Lemma runs_R_write r v i o k s (Q : unit → disk → Prop) :
  (∀ o', Q tt (booting i o' k s)) → runs (R_write r v) (booting i o k s) Q.
Proof. intros HQ. apply runs_modify, HQ. Qed.

Lemma runs_set_boot (f : disk → disk) i o k s (Q : unit → disk → Prop) :
  f (booting i o k s) = booting i o k (f s) → Q tt (booting i o k (f s)) → runs (modify f) (booting i o k s) Q.
Proof. intros E HQ. apply runs_modify. by rewrite E. Qed.

Lemma runs_free_all s (Q : unit → disk → Prop) :
  length (dfree s) = 8%nat → Q tt (set_dfree (free_map ∅) s) →
  runs init_free s Q.
Proof.
  intros Hl HQ. apply (runs_iter _ (λ n i s1, n = Z.to_nat (8 - i) ∧ 0 <= i <= 8 ∧ s1 = set_dfree (dfree s1) s ∧
    length (dfree s1) = 8%nat ∧ ∀ j, (j < Z.to_nat i)%nat → dfree s1 !! j = Some true)) with (n := 8%nat).
  - intros n i s1 (-> & Hi & E & Hl1 & Ht). unfold NUM. bcase.
    + kred. apply runs_put_index; [lia|]. kred. exists (Z.to_nat (8 - (i + 1))). split; [lia|].
      split_and!; [done|lia|lia| |simpl; by ins|]; simpl.
      { generalize (<[Z.to_nat i:=true]> (dfree s1)). intros x. by rewrite E. }
      intros j Hj.
      destruct (decide (j = Z.to_nat i)) as [->|Hne]; [apply list_lookup_insert_eq; lia|].
      rewrite list_lookup_insert_ne by done. apply Ht. lia.
    + kred. assert (Ef : dfree s1 = free_map ∅); [|by rewrite E, Ef].
      apply list_eq. intros j. destruct (decide (j < 8)%nat) as [Hj|Hj].
      * rewrite Ht by lia. replace j with (Z.to_nat (Z.of_nat j)) by lia. rewrite free_map_lookup by lia.
        by rewrite bool_decide_eq_true_2 by set_solver.
      * rewrite !lookup_ge_None_2; [done|rewrite free_map_length; lia|lia].
  - split_and!; try done; [by destruct s|]. intros j Hj. simpl in Hj. lia.
  - unfold NUM. lia.
Qed.

Section Init.
Context (kend : Z) (kend_pos : 0 < kend).

Lemma kinv_memset k l p c :
  kinv kend k l → page_ok kend p → p ∉ l → kinv kend (set_kmem (memset (kmem k) p c PGSIZE) k) l.
Proof.
  intros Hk Hp Hn. apply (kinv_frame kend kend_pos); [done|]. intros q Hq. eapply agree_out_agree; [apply memset_agree_out|].
  pose proof (kinv_page _ _ _ _ Hk Hq). destruct (pages_disjoint p q) as [?|?]; [apply Hp|apply H|set_solver|unfold PGSIZE; lia..].
Qed.

Lemma runs_vkalloc p l i o k s (Q : Z → disk → Prop) :
  kinv kend k (p :: l) → (∀ k', kinv kend k' l → page_ok kend p → p ∉ l → Q p (booting i o k' s)) →
  runs (zoom pages set_pages kalloc) (booting i o k s) Q.
Proof.
  intros Hk HQ. apply runs_zoom. eapply (runs_kalloc kend kend_pos); [exact Hk|done|].
  intros p' l' k' [= <- <-] Hk' Hp _. apply (HQ k'); [done..|]. destruct Hk as (_ & Hnd & _). by apply NoDup_cons in Hnd as [? _].
Qed.

Lemma runs_vmemset p c l i o k s (Q : unit → disk → Prop) :
  kinv kend k l → page_ok kend p → p ∉ l → (∀ k', kinv kend k' l → Q tt (booting i o k' s)) →
  runs (zoom pages set_pages (do_memset p c PGSIZE)) (booting i o k s) Q.
Proof. intros Hk Hp Hn HQ. apply runs_zoom, runs_modify.
  exact (HQ _ (kinv_memset k l p c Hk Hp Hn)).
Qed.

(** A device that identifies itself, accepts the features and has a queue that
    is long enough is taken into use: three pages become the rings, and the
    driver starts with every descriptor free. *)
Lemma init_ready s o k feat st max p1 p2 p3 l :
  0 <= feat < 2 ^ 32 → 0 <= st < 2 ^ 32 → NUM <= max < 2 ^ 32 → Z.land st VIRTIO_CONFIG_S_FEATURES_OK ≠ 0 →
  kinv kend k (p1 :: p2 :: p3 :: l) →
  length (dfree s) = 8%nat → length (info_b s) = 8%nat → length (info_status s) = 8%nat → length (ops s) = 8%nat →
  used_idx s = 0 →
  runs virtio_disk_init (booting [0x74726976; 2; 2; 0x554d4551; feat; st; 0; max] o k s)
    (λ _ d, ready d ∧ kinv kend (pages d) l).
Proof.
  intros Hf Hs [Hm1 Hm2] Hok Hk L1 L2 L3 L4 Hu. unfold virtio_disk_init.
  apply runs_bind, runs_set_boot; [done|].
  do 4 (apply runs_bind, runs_R_read; [lia|]; cbn [negb Z.eqb Pos.eqb]).
  do 3 (apply runs_bind, runs_R_write; intros ?). apply runs_bind, runs_R_read; [lia|]. cbv zeta.
  do 2 (apply runs_bind, runs_R_write; intros ?). apply runs_bind, runs_R_read; [lia|].
  rewrite (proj2 (Z.eqb_neq _ _)) by done. apply runs_bind, runs_R_write. intros ?.
  apply runs_bind, runs_R_read; [lia|]. cbn [negb Z.eqb]. apply runs_bind, runs_R_read; [unfold NUM in *; lia|].
  rewrite (proj2 (Z.eqb_neq max 0)), (proj2 (Z.ltb_ge max NUM)) by (unfold NUM in *; lia).
  apply runs_bind. eapply (runs_vkalloc p1); [exact Hk|]. intros k1 Hk1 Hp1 Hn1.
  apply runs_bind. eapply (runs_vkalloc p2); [exact Hk1|]. intros k2 Hk2 Hp2 Hn2.
  apply runs_bind. eapply (runs_vkalloc p3); [exact Hk2|]. intros k3 Hk3 Hp3 Hn3.
  pose proof (page_ok_range _ kend_pos _ Hp1). pose proof (page_ok_range _ kend_pos _ Hp2).
  pose proof (page_ok_range _ kend_pos _ Hp3).
  rewrite (proj2 (Z.eqb_neq p1 0)), (proj2 (Z.eqb_neq p2 0)), (proj2 (Z.eqb_neq p3 0)) by lia. cbn [orb].
  apply runs_bind. eapply (runs_vmemset p1); [exact Hk3|done|set_solver|]. intros k4 Hk4.
  apply runs_bind, runs_set_boot; [done|].
  apply runs_bind. eapply (runs_vmemset p2); [exact Hk4|done|set_solver|]. intros k5 Hk5.
  apply runs_bind, runs_set_boot; [done|].
  apply runs_bind. eapply (runs_vmemset p3); [exact Hk5|done|set_solver|]. intros k6 Hk6.
  apply runs_bind, runs_set_boot; [done|].
  do 8 (apply runs_bind, runs_R_write; intros ?). apply runs_bind, runs_free_all; [done|].
  apply runs_modify. split; [by split|done].
Qed.
End Init.

(** ** Witnesses *)

Definition small_driver : disk :=
  mkDisk (replicate 8 no_desc) (replicate 8 0) 0 (replicate 8 0) 0 (replicate 8 true) 0 (replicate 8 0) (replicate 8 0)
    (replicate 8 (mkReq 0 0 0)) false ∅ [] [] [] (mkK false 0 ∅).

Lemma small_driver_ready : ready small_driver.
Proof. by split. Qed.

(** A write of buffer 1 to block 7 has its descriptors, and then sleeps. *)
Definition small_submit : disk :=
  Eval vm_compute in match (acquire_vdisk ;;; rw_submit 1 7 true) small_driver with Ok _ d => d | _ => small_driver end.
Definition small_publish : disk :=
  Eval vm_compute in match (rw_publish ;;; rw_wait 1 0) small_submit with Ok _ d => d | _ => small_driver end.
Definition small_busy : sys := mkSys small_publish {[1 := mkCall true 7 (InFlight 0 false)]} false 0 [] [] [].

Lemma small_busy_reachable : rtc vstep (start_sys small_driver) small_busy.
Proof.
  apply (rtc_l _ _ (mkSys small_submit {[1 := mkCall true 7 (Formatted 0)]} false 0 [] [] [])).
  - exact (v_call (start_sys small_driver) 1 7 true (Some 0) small_submit eq_refl eq_refl eq_refl).
  - apply rtc_once, v_work.
    exact (w_publish (mkSys small_submit {[1 := mkCall true 7 (Formatted 0)]} false 0 [] [] []) 1
      (mkCall true 7 (Formatted 0)) 0 (AwaitBuf 0) small_publish eq_refl eq_refl eq_refl).
Qed.

Lemma virtio_exactly_once_witness :
  calls small_busy !! 1 = Some (mkCall true 7 (InFlight 0 false)) ∧
  ∃ b c, calls small_busy !! b = Some c ∧ parse_chain (drv small_busy) 0 = Some (wanted b c, 0).
Proof.
  split; [reflexivity|].
  apply (virtio_exactly_once small_driver small_busy small_driver_ready small_busy_reachable). right.
  split; [discriminate|reflexivity].
Defined.

Lemma virtio_no_panic_witness :
  runs virtio_disk_intr (drv small_busy) (λ _ d', used_idx d' = us_idx d' ∧ vdisk_lock d' = false).
Proof. exact (proj1 (virtio_no_panic small_driver small_busy small_driver_ready small_busy_reachable eq_refl)). Defined.

Lemma virtio_completes_witness :
  calls small_busy ≠ ∅ ∧
  ∃ s', rtc work small_busy s' ∧ calls s' = ∅ ∧ transfers s' ≡ₚ returned s' ∧ returned s' ≡ₚ owed small_busy.
Proof.
  split; [discriminate|]. apply (virtio_completes small_driver small_busy small_driver_ready small_busy_reachable).
Defined.
