(* ===== verification/Log.v ===== *)
(** kernel/log.c: the write-ahead log, over any block cache (BlockCache.v).

    [struct log] is the record [log]; the buffer cache below it is the [cache]
    component of the state.  sleep() on the log is the outcome [Blocked], with
    the log's lock released; [log_woken] counts the calls of wakeup(&log). *)

From S2P Require Import Prelude Mem Riscv Spinlock BlockCache.
Local Open Scope kernel_scope.

Record superblock := mkSb {
  sb_magic : Z; sb_size : Z; sb_nblocks : Z; sb_ninodes : Z; sb_nlog : Z; sb_logstart : Z;
  sb_inodestart : Z; sb_bmapstart : Z
}.

Record log := mkLog {
  llock : bool; start : Z; lsize : Z; outstanding : Z; committing : bool; ldev : Z;
  lh_n : Z; lh_block : list Z
}.

(** sizeof(struct logheader) *)
Definition sizeof_logheader : Z := 4 + 4 * LOGSIZE.

(** The address of [struct log], as a sleep channel. *)
Definition LOG_CHAN : Z := 0.

Section Log.
Context {S : Type} `{BC : !BlockCache S}.

Record lst := mkL { cache : S; lg : log; log_woken : nat }.

Definition set_cache (c : S) (s : lst) : lst := mkL c (lg s) (log_woken s).
Definition upd_log (f : log → log) (s : lst) : lst := mkL (cache s) (f (lg s)) (log_woken s).
Definition set_llock (b : bool) (s : lst) : lst :=
  upd_log (λ l, mkLog b (start l) (lsize l) (outstanding l) (committing l) (ldev l) (lh_n l) (lh_block l)) s.
Definition set_lh_n (n : Z) (l : log) : log :=
  mkLog (llock l) (start l) (lsize l) (outstanding l) (committing l) (ldev l) n (lh_block l).
Definition set_lh_block (b : list Z) (l : log) : log :=
  mkLog (llock l) (start l) (lsize l) (outstanding l) (committing l) (ldev l) (lh_n l) b.
Definition set_outstanding (n : Z) (l : log) : log :=
  mkLog (llock l) (start l) (lsize l) (s32 n) (committing l) (ldev l) (lh_n l) (lh_block l).
Definition set_committing (b : bool) (l : log) : log :=
  mkLog (llock l) (start l) (lsize l) (outstanding l) b (ldev l) (lh_n l) (lh_block l).

Definition on_cache {A} (m : K S A) : K lst A := zoom cache set_cache m.
Definition acquire_log : K lst unit := acquire_flag (λ s, llock (lg s)) set_llock.
Definition release_log : K lst unit := release_flag (λ s, llock (lg s)) set_llock.
Definition wakeup_log : K lst unit := modify (λ s, mkL (cache s) (lg s) (Datatypes.S (log_woken s))).

(** [log.lh.block[i]] *)
Definition get_block (i : Z) : K lst Z := λ s,
  match lh_block (lg s) !! Z.to_nat i with
  | Some b => if 0 <=? i then Ok b s else UB "log.lh.block[i]"
  | None => UB "log.lh.block[i]"
  end.
Definition put_block (i v : Z) : K lst unit := λ s,
  if (0 <=? i) && (i <? zlen (lh_block (lg s))) then
    Ok tt (upd_log (set_lh_block (<[Z.to_nat i := s32 v]> (lh_block (lg s)))) s)
  else UB "log.lh.block[i]".

(** for(tail = 0; tail < log.lh.n; tail++) body *)
Definition for_tail (body : Z → K lst unit) : K lst unit :=
  iter (Z.to_nat (LOGSIZE + 2)) (λ tail,
    n <- gets (λ s, lh_n (lg s)) ;;;
    if tail <? n then body tail ;;; ret (inl (tail + 1)) else ret (inr tt)) 0.

Section Me.
(** The pid of the calling process. *)
Variable me : Z.

Definition lbread (bno : Z) : K lst Z :=
  d <- gets (λ s, ldev (lg s)) ;;; on_cache (c_bread me (u32 d) (u32 bno)).

Definition install_trans (recovering : bool) : K lst unit :=
  for_tail (λ tail,
    st <- gets (λ s, start (lg s)) ;;;
    lbuf <- lbread (st + tail + 1) ;;;
    b <- get_block tail ;;;
    dbuf <- lbread b ;;;
    d <- on_cache (c_data lbuf) ;;;
    on_cache (c_set_data dbuf d) ;;;
    on_cache (c_bwrite me dbuf) ;;;
    (if recovering then ret tt else on_cache (c_bunpin dbuf)) ;;;
    on_cache (c_brelse me lbuf) ;;;
    on_cache (c_brelse me dbuf)).

(** lh->n and lh->block[i] of the header in a block *)
Definition hd_n (d : block) : Z := s32 (rd32 d 0).
Definition hd_block (d : block) (i : Z) : Z := s32 (rd32 d (4 + 4 * i)).

Definition read_head : K lst unit :=
  st <- gets (λ s, start (lg s)) ;;;
  buf <- lbread st ;;;
  d <- on_cache (c_data buf) ;;;
  modify (upd_log (set_lh_n (hd_n d))) ;;;
  for_tail (λ i, d <- on_cache (c_data buf) ;;; put_block i (hd_block d i)) ;;;
  on_cache (c_brelse me buf).

Definition write_head : K lst unit :=
  st <- gets (λ s, start (lg s)) ;;;
  buf <- lbread st ;;;
  n <- gets (λ s, lh_n (lg s)) ;;;
  d <- on_cache (c_data buf) ;;;
  on_cache (c_set_data buf (wr32 d 0 n)) ;;;
  for_tail (λ i,
    b <- get_block i ;;;
    d <- on_cache (c_data buf) ;;;
    on_cache (c_set_data buf (wr32 d (4 + 4 * i) b))) ;;;
  on_cache (c_bwrite me buf) ;;;
  on_cache (c_brelse me buf).

Definition recover_from_log : K lst unit :=
  read_head ;;;
  install_trans true ;;;
  modify (upd_log (set_lh_n 0)) ;;;
  write_head.

Definition initlog (dev : Z) (sb : superblock) : K lst unit :=
  (if sizeof_logheader >=? BSIZE then panic "initlog: too big logheader" else ret tt) ;;;
  modify (set_llock false) ;;;
  modify (upd_log (λ l, mkLog (llock l) (s32 (sb_logstart sb)) (s32 (sb_nlog sb)) (outstanding l)
                          (committing l) dev (lh_n l) (lh_block l))) ;;;
  recover_from_log.

(** One attempt of begin_op: it reserves space, or sleeps. *)
Definition begin_op : K lst unit :=
  acquire_log ;;;
  l <- gets lg ;;;
  if committing l then release_log ;;; sleep_on LOG_CHAN
  else if lh_n l + (outstanding l + 1) * MAXOPBLOCKS >? LOGSIZE then
    release_log ;;; sleep_on LOG_CHAN
  else
    modify (upd_log (set_outstanding (outstanding l + 1))) ;;;
    release_log.

Definition write_log : K lst unit :=
  for_tail (λ tail,
    st <- gets (λ s, start (lg s)) ;;;
    to <- lbread (st + tail + 1) ;;;
    b <- get_block tail ;;;
    from <- lbread b ;;;
    d <- on_cache (c_data from) ;;;
    on_cache (c_set_data to d) ;;;
    on_cache (c_bwrite me to) ;;;
    on_cache (c_brelse me from) ;;;
    on_cache (c_brelse me to)).

Definition commit : K lst unit :=
  n <- gets (λ s, lh_n (lg s)) ;;;
  if n >? 0 then
    write_log ;;;
    write_head ;;;
    install_trans false ;;;
    modify (upd_log (set_lh_n 0)) ;;;
    write_head
  else ret tt.

Definition end_op : K lst unit :=
  acquire_log ;;;
  l <- gets lg ;;;
  modify (upd_log (set_outstanding (outstanding l - 1))) ;;;
  l <- gets lg ;;;
  (if committing l then panic "log.committing" else ret tt) ;;;
  let do_commit := outstanding l =? 0 in
  (if do_commit then modify (upd_log (set_committing true)) else wakeup_log) ;;;
  release_log ;;;
  if do_commit then
    commit ;;;
    acquire_log ;;;
    modify (upd_log (set_committing false)) ;;;
    wakeup_log ;;;
    release_log
  else ret tt.

Definition log_write (b : Z) : K lst unit :=
  acquire_log ;;;
  l <- gets lg ;;;
  (if (lh_n l >=? LOGSIZE) || (lh_n l >=? lsize l - 1) then panic "too big a transaction" else ret tt) ;;;
  (if outstanding l <? 1 then panic "log_write outside of trans" else ret tt) ;;;
  i <- iter (Z.to_nat (LOGSIZE + 2)) (λ i,
    if i <? lh_n l then
      x <- get_block i ;;; bno <- on_cache (c_blockno b) ;;;
      if u32 x =? bno then ret (inr i) else ret (inl (i + 1))
    else ret (inr i)) 0 ;;;
  bno <- on_cache (c_blockno b) ;;;
  put_block i bno ;;;
  (if i =? lh_n l then
     on_cache (c_bpin b) ;;; modify (upd_log (set_lh_n (s32 (lh_n l + 1))))
   else ret tt) ;;;
  release_log.
End Me.
End Log.
Arguments lst : clear implicits.
