(* ===== verification/LogSpec.v ===== *)
(** The write-ahead log of log.c is crash safe.

    The disk writes of a commit are determined, and for every prefix of them,
    and after any number of crashes during recovery, recovering the log leaves
    the disk outside the log with all of the transaction or with none of it. *)

From S2P Require Import Prelude Mem Riscv Spinlock BlockCache Log.
Local Open Scope kernel_scope.

(** ** Sequences of disk writes *)

Abbreviation writes := (list (Z * block)) (only parsing).

Definition apply_writes (w : writes) (d : gmap Z block) : gmap Z block :=
  foldl (λ d e, <[e.1 := e.2]> d) d w.

Lemma apply_writes_app w1 w2 d : apply_writes (w1 ++ w2) d = apply_writes w2 (apply_writes w1 d).
Proof. apply foldl_app. Qed.

Lemma apply_writes_out w d b : b ∉ w.*1 → apply_writes w d !! b = d !! b.
Proof.
  revert d. induction w as [|[c x] w IH]; intros d; [done|]. simpl. intros [Hc Hw]%not_elem_of_cons.
  rewrite IH by done. by apply lookup_insert_ne.
Qed.

Lemma apply_writes_in w d d' b : b ∈ w.*1 → apply_writes w d !! b = apply_writes w d' !! b.
Proof.
  revert d d'. induction w as [|[c x] w IH]; intros d d'; simpl; [by intros ?%elem_of_nil|].
  destruct (decide (b ∈ w.*1)) as [Hw|Hw]; [by intros _; apply IH|].
  intros [->|?]%elem_of_cons; [|done]. by rewrite !apply_writes_out, !lookup_insert_eq.
Qed.

(** Writing a prefix first changes nothing. *)
Lemma apply_writes_prefix w k d : apply_writes w (apply_writes (take k w) d) = apply_writes w d.
Proof.
  apply map_eq. intros b. destruct (decide (b ∈ w.*1)) as [Hb|Hb]; [by apply apply_writes_in|].
  rewrite !(apply_writes_out w) by done. apply apply_writes_out. intros Hk. apply Hb.
  rewrite fmap_take in Hk. by eapply elem_of_take in Hk as (? & ?%list_elem_of_lookup_2 & _).
Qed.

Lemma apply_writes_lookup w d i b x :
  NoDup w.*1 → w !! i = Some (b, x) → apply_writes w d !! b = Some x.
Proof.
  revert d i. induction w as [|[c y] w IH]; intros d i; [done|]. simpl.
  intros [Hc Hnd]%NoDup_cons. destruct i as [|i]; simpl.
  - intros [= -> ->]. rewrite apply_writes_out by done. by rewrite lookup_insert_eq.
  - intros Hi. by eapply IH.
Qed.

(** ** The header block *)

Fixpoint enc_blocks (d : block) (i : Z) (bl : list Z) : block :=
  match bl with [] => d | b :: bl' => enc_blocks (wr32 d (4 + 4 * i) b) (i + 1) bl' end.

(** The header that write_head leaves in a block that had contents [d]. *)
Definition enc_head (d : block) (bl : list Z) : block := enc_blocks (wr32 d 0 (zlen bl)) 0 bl.

Lemma enc_blocks_snoc d i bl b :
  enc_blocks d i (bl ++ [b]) = wr32 (enc_blocks d i bl) (4 + 4 * (i + zlen bl)) b.
Proof.
  revert d i. induction bl as [|c bl IH]; intros d i; simpl; [by rewrite Z.add_0_r|].
  rewrite IH. do 2 f_equal. lia.
Qed.

Lemma rd32_enc_blocks d i bl a :
  0 <= i → a + 4 <= 4 + 4 * i → rd32 (enc_blocks d i bl) a = rd32 d a.
Proof.
  revert d i. induction bl as [|b bl IH]; intros d i Hi Ha; simpl; [done|].
  rewrite IH by lia. apply rd32_wr32_ne. lia.
Qed.

Lemma hd_n_enc d bl : zlen bl < 2 ^ 31 → hd_n (enc_head d bl) = zlen bl.
Proof.
  intros H. unfold hd_n, enc_head. rewrite rd32_enc_blocks, rd32_wr32_same, s32_u32 by lia.
  apply s32_small. lia.
Qed.

Lemma hd_block_enc_blocks d j bl i b :
  0 <= j → bl !! i = Some b → - 2 ^ 31 <= b < 2 ^ 31 →
  hd_block (enc_blocks d j bl) (j + Z.of_nat i) = b.
Proof.
  revert d j i. induction bl as [|c bl IH]; intros d j i Hj; [done|]. destruct i as [|i]; simpl.
  - intros [= ->] Hb. unfold hd_block. rewrite rd32_enc_blocks by lia.
    rewrite Z.add_0_r, rd32_wr32_same, s32_u32. by apply s32_small.
  - intros Hi Hb. replace (j + Z.of_nat (S i)) with (j + 1 + Z.of_nat i) by lia.
    apply (IH _ (j + 1) i); [lia|done|done].
Qed.

Lemma hd_block_enc d bl i b :
  bl !! i = Some b → - 2 ^ 31 <= b < 2 ^ 31 → hd_block (enc_head d bl) (Z.of_nat i) = b.
Proof. intros Hi Hb. by apply (hd_block_enc_blocks _ 0). Qed.

(** ** Operations on the cache, as seen from the log *)

Section Access.
Context {S : Type} `{BC : !BlockCache S} (me : Z).

Definition lrel (s : lst S) (a : acache) (l : log) : Prop := c_rep (cache s) a ∧ lg s = l.

Lemma runs_lbread bno s a l (Q : Z → lst S → Prop) :
  lrel s a l → ldev l = ROOTDEV → 0 <= bno < 2 ^ 32 → can_take bno a →
  (∀ h s', lrel s' (taken me bno h a) l → (∀ u, ause a !! bno = Some u → h = uh u) → Q h s') →
  runs (lbread me bno) s Q.
Proof.
  intros [R <-] Hd Hb Hc HQ. unfold lbread. kred. rewrite Hd, (u32_small bno) by done.
  apply runs_zoom. eapply runs_mono; [by apply c_bread_law|]. intros h c [R' Hh]. by apply HQ.
Qed.

Lemma runs_cdata h bno u s a l (Q : block → lst S → Prop) :
  lrel s a l → ause a !! bno = Some u → h = uh u → Q (udata u) s → runs (on_cache (c_data h)) s Q.
Proof.
  intros [R <-] Hu -> HQ. apply runs_zoom. eapply runs_mono; [by apply (c_data_law _ _ _ _ R Hu)|].
  intros d c [-> ->]. by destruct s.
Qed.

Lemma runs_cblockno h bno u s a l (Q : Z → lst S → Prop) :
  lrel s a l → ause a !! bno = Some u → h = uh u → Q bno s → runs (on_cache (c_blockno h)) s Q.
Proof.
  intros [R <-] Hu -> HQ. apply runs_zoom. eapply runs_mono; [by apply (c_blockno_law _ _ _ _ R Hu)|].
  intros d c [-> ->]. by destruct s.
Qed.

Lemma runs_cset h bno u d s a l (Q : unit → lst S → Prop) :
  lrel s a l → ause a !! bno = Some u → h = uh u →
  (∀ s', lrel s' (set_use bno (mkUse h (uref u) d (ulock u)) a) l → Q tt s') →
  runs (on_cache (c_set_data h d)) s Q.
Proof.
  intros [R <-] Hu -> HQ. apply runs_zoom. eapply runs_mono; [by apply (c_set_data_law _ _ d _ _ R Hu)|].
  intros [] c R'. by apply HQ.
Qed.

Lemma runs_cwrite h bno u s a l (Q : unit → lst S → Prop) :
  lrel s a l → ause a !! bno = Some u → h = uh u → ulock u = Some me →
  (∀ s', lrel s' (written bno u a) l → Q tt s') →
  runs (on_cache (c_bwrite me h)) s Q.
Proof.
  intros [R <-] Hu -> Hl HQ. apply runs_zoom.
  eapply runs_mono; [by apply (c_bwrite_law me _ _ _ _ R Hu)|]. intros [] c R'. by apply HQ.
Qed.

Lemma runs_crelse h bno u s a l (Q : unit → lst S → Prop) :
  lrel s a l → ause a !! bno = Some u → h = uh u → ulock u = Some me →
  (uref u = 1 → udata u = rd_block (adisk a) bno) →
  (∀ s', lrel s' (released bno u a) l → Q tt s') →
  runs (on_cache (c_brelse me h)) s Q.
Proof.
  intros [R <-] Hu -> Hl Hd HQ. apply runs_zoom.
  eapply runs_mono; [by apply (c_brelse_law me _ _ _ _ R Hu)|]. intros [] c R'. by apply HQ.
Qed.

Lemma runs_cpin h bno u s a l (Q : unit → lst S → Prop) :
  lrel s a l → ause a !! bno = Some u → h = uh u → uref u + 1 < 2 ^ 32 →
  (∀ s', lrel s' (set_use bno (mkUse h (uref u + 1) (udata u) (ulock u)) a) l → Q tt s') →
  runs (on_cache (c_bpin h)) s Q.
Proof.
  intros [R <-] Hu -> Hl HQ. apply runs_zoom.
  eapply runs_mono; [by apply (c_bpin_law _ _ _ _ R Hu)|]. intros [] c R'. by apply HQ.
Qed.

Lemma runs_cunpin h bno u s a l (Q : unit → lst S → Prop) :
  lrel s a l → ause a !! bno = Some u → h = uh u → 1 < uref u →
  (∀ s', lrel s' (set_use bno (mkUse h (uref u - 1) (udata u) (ulock u)) a) l → Q tt s') →
  runs (on_cache (c_bunpin h)) s Q.
Proof.
  intros [R <-] Hu -> Hl HQ. apply runs_zoom.
  eapply runs_mono; [by apply (c_bunpin_law _ _ _ _ R Hu)|]. intros [] c R'. by apply HQ.
Qed.

Lemma runs_get_block i b s (Q : Z → lst S → Prop) :
  lh_block (lg s) !! i = Some b → Q b s → runs (get_block (Z.of_nat i)) s Q.
Proof.
  intros Hb HQ. unfold runs, get_block. rewrite Nat2Z.id, Hb.
  by rewrite (proj2 (Z.leb_le 0 (Z.of_nat i))) by lia.
Qed.

(** The loops over the blocks of the header. *)
Lemma runs_for_tail (body : Z → K (lst S) unit) n (I : nat → lst S → Prop) s :
  (n <= Z.to_nat LOGSIZE)%nat →
  (∀ t s, I t s → lh_n (lg s) = Z.of_nat n) →
  (∀ t s, (t < n)%nat → I t s → runs (body (Z.of_nat t)) s (λ _ s', I (Datatypes.S t) s')) →
  I 0%nat s → runs (for_tail body) s (λ _ s', I n s').
Proof.
  intros Hn HI Hbody H0. unfold for_tail.
  apply (runs_iter _ (λ m tl s, ∃ t, tl = Z.of_nat t ∧ (t + m = n)%nat ∧ I t s)) with (n := n);
    [|by exists 0%nat|unfold LOGSIZE, MAXOPBLOCKS in *; lia].
  intros m tl s1 (t & -> & Hm & Ht). kred. rewrite (HI _ _ Ht).
  destruct (Z.ltb_spec (Z.of_nat t) (Z.of_nat n)).
  - apply runs_bind. eapply runs_mono; [apply Hbody; [lia|done]|]. intros [] s2 H2. kred.
    exists (m - 1)%nat. split; [lia|]. exists (Datatypes.S t). split_and!; [lia|lia|done].
  - kred. by replace n with t by lia.
Qed.
End Access.

(** ** The procedures of the log *)

Section Procs.
Context {S : Type} `{BC : !BlockCache S} (me : Z).

(** The part of the log's state that its procedures rely on: the log is the
    [lsize] blocks from [start] on the root device, and [bl] are the blocks
    of the transaction. *)
Record log_wf (l : log) (bl : list Z) : Prop := {
  wf_dev : ldev l = ROOTDEV;
  wf_start : 0 <= start l ∧ start l + lsize l < 2 ^ 31;
  wf_len : length (lh_block l) = Z.to_nat LOGSIZE;
  wf_n : lh_n l = zlen bl;
  wf_fits : (length bl <= Z.to_nat LOGSIZE)%nat ∧ zlen bl < lsize l;
  wf_take : ∀ i b, bl !! i = Some b → lh_block l !! i = Some b;
  wf_nodup : NoDup bl;
  wf_blocks : ∀ b, b ∈ bl → 0 <= b < 2 ^ 31 ∧ ¬ (start l <= b < start l + lsize l)
}.

(** No buffer of the cache is in use for a block of the log. *)
Definition log_unused (l : log) (m : gmap Z use) : Prop :=
  ∀ b, start l <= b < start l + lsize l → m !! b = None.

(** A block is in use and nobody has locked it. *)
Definition ready (m : gmap Z use) (b : Z) : Prop :=
  ∃ u, m !! b = Some u ∧ ulock u = None ∧ uref u + 1 < 2 ^ 32.

Ltac look :=
  simpl; repeat first
    [ rewrite lookup_insert_eq | rewrite lookup_delete_eq
    | rewrite lookup_insert_ne by (done || congruence)
    | rewrite lookup_delete_ne by (done || congruence) ].

(** Compares the blocks in use before and after, block by block. *)
Ltac cases D b :=
  let k := fresh "k" in
  intros k; destruct (decide (k = D)) as [->|]; [|destruct (decide (k = b)) as [->|]]; look; try done.

Lemma lrel_eq (s : lst S) a a' l :
  lrel s a l → adisk a = adisk a' → (∀ k, ause a !! k = ause a' !! k) → atrace a = atrace a' → lrel s a' l.
Proof.
  intros Hs Hd Hu Ht. destruct a, a'; simpl in *. apply map_eq in Hu. by subst.
Qed.

Lemma write_log_step t b s a l :
  lrel s a l → log_unused l (ause a) → Z.of_nat (size (ause a)) < NBUF → ldev l = ROOTDEV →
  0 <= start l ∧ start l + lsize l < 2 ^ 31 → Z.of_nat t + 1 < lsize l →
  lh_block l !! t = Some b → 0 <= b < 2 ^ 31 → ready (ause a) b →
  runs (st <- gets (λ s, start (lg s)) ;;;
        to <- lbread me (st + Z.of_nat t + 1) ;;;
        b <- get_block (Z.of_nat t) ;;;
        from <- lbread me b ;;;
        d <- on_cache (c_data from) ;;;
        on_cache (c_set_data to d) ;;;
        on_cache (c_bwrite me to) ;;;
        on_cache (c_brelse me from) ;;;
        on_cache (c_brelse me to)) s (λ _ s',
    lrel s' (mkA (<[start l + Z.of_nat t + 1 := aview a b]> (adisk a)) (ause a)
               (atrace a ++ [(start l + Z.of_nat t + 1, aview a b)])) l).
Proof.
  intros Hs Hun Hsz Hdev Hst Ht Hb Hbr (u & Hu & Hul & Hur). set (D := start l + Z.of_nat t + 1).
  assert (HD : ause a !! D = None) by (apply Hun; lia).
  assert (HDb : D ≠ b) by congruence. assert (Hpos : 1 <= uref u) by (destruct Hs; by eapply c_rep_pos).
  kred. rewrite (proj2 Hs). fold D. apply runs_bind. eapply runs_lbread; [done|done|lia| |].
  { unfold can_take. by rewrite HD. }
  intros h s1 Hs1 _. apply runs_bind. eapply runs_get_block; [by rewrite (proj2 Hs1)|].
  unfold taken in Hs1. rewrite HD in Hs1. apply runs_bind.
  eapply runs_lbread; [done|done|lia| |].
  { unfold can_take. look. by rewrite Hu. }
  intros h2 s2 Hs2 Hh2. simpl in Hh2. rewrite lookup_insert_ne in Hh2 by done. specialize (Hh2 _ Hu).
  unfold taken in Hs2. simpl in Hs2. rewrite lookup_insert_ne, Hu in Hs2 by done.
  apply runs_bind. eapply (runs_cdata _ b); [done|look; done|done|].
  apply runs_bind. eapply (runs_cset _ D); [done|look; done|done|]. intros s3 Hs3.
  apply runs_bind. eapply (runs_cwrite me _ D); [done|look; done|done|done|]. intros s4 Hs4.
  apply runs_bind. eapply (runs_crelse me _ b); [done|look; done|done|done|simpl; lia|]. intros s5 Hs5.
  unfold released in Hs5. simpl in Hs5. rewrite (proj2 (Z.eqb_neq _ _)) in Hs5 by lia.
  eapply (runs_crelse me _ D); [done|look; done|done|done| |].
  { intros _. unfold rd_block. by look. }
  intros s6 Hs6. unfold aview. rewrite Hu. eapply lrel_eq; [exact Hs6|done| |done].
  unfold released. cases D b. rewrite Hu, Hh2. replace (uref u + 1 - 1) with (uref u) by lia.
  destruct u; simpl in *. by subst.
Qed.

(** A home block gets the contents of its log block; what the last reference
    to it leaves behind depends on how many there were. *)
Definition unpinned (b : Z) (u : use) (x : block) (m : gmap Z use) : gmap Z use :=
  if uref u =? 1 then delete b m else <[b := mkUse (uh u) (uref u - 1) x None]> m.

Lemma install_step t b s a l :
  lrel s a l → log_unused l (ause a) → Z.of_nat (size (ause a)) < NBUF → ldev l = ROOTDEV →
  0 <= start l ∧ start l + lsize l < 2 ^ 31 → Z.of_nat t + 1 < lsize l →
  lh_block l !! t = Some b → 0 <= b < 2 ^ 31 → ready (ause a) b →
  let x := rd_block (adisk a) (start l + Z.of_nat t + 1) in
  runs (st <- gets (λ s, start (lg s)) ;;;
        lbuf <- lbread me (st + Z.of_nat t + 1) ;;;
        b <- get_block (Z.of_nat t) ;;;
        dbuf <- lbread me b ;;;
        d <- on_cache (c_data lbuf) ;;;
        on_cache (c_set_data dbuf d) ;;;
        on_cache (c_bwrite me dbuf) ;;;
        on_cache (c_bunpin dbuf) ;;;
        on_cache (c_brelse me lbuf) ;;;
        on_cache (c_brelse me dbuf)) s (λ _ s', ∃ u, ause a !! b = Some u ∧
    lrel s' (mkA (<[b := x]> (adisk a)) (unpinned b u x (ause a)) (atrace a ++ [(b, x)])) l).
Proof.
  intros Hs Hun Hsz Hdev Hst Ht Hb Hbr (u & Hu & Hul & Hur) x. set (D := start l + Z.of_nat t + 1) in *.
  assert (HD : ause a !! D = None) by (apply Hun; lia).
  assert (HDb : D ≠ b) by congruence. assert (Hpos : 1 <= uref u) by (destruct Hs; by eapply c_rep_pos).
  kred. rewrite (proj2 Hs). fold D. apply runs_bind. eapply runs_lbread; [done|done|lia| |].
  { unfold can_take. by rewrite HD. }
  intros h s1 Hs1 _. apply runs_bind. eapply runs_get_block; [by rewrite (proj2 Hs1)|].
  unfold taken in Hs1. rewrite HD in Hs1. apply runs_bind.
  eapply runs_lbread; [done|done|lia| |].
  { unfold can_take. look. by rewrite Hu. }
  intros h2 s2 Hs2 Hh2. simpl in Hh2. rewrite lookup_insert_ne in Hh2 by done. specialize (Hh2 _ Hu).
  unfold taken in Hs2. simpl in Hs2. rewrite lookup_insert_ne, Hu in Hs2 by done.
  apply runs_bind. eapply (runs_cdata _ D); [done|look; done|done|].
  apply runs_bind. eapply (runs_cset _ b); [done|look; done|done|]. intros s3 Hs3.
  apply runs_bind. eapply (runs_cwrite me _ b); [done|look; done|done|done|]. intros s4 Hs4.
  apply runs_bind. eapply (runs_cunpin _ b); [done|look; done|done|simpl; lia|]. intros s5 Hs5.
  apply runs_bind. eapply (runs_crelse me _ D); [done|look; done|done|done| |].
  { intros _. unfold rd_block. by look. }
  intros s6 Hs6. unfold released in Hs6. simpl in Hs6.
  eapply (runs_crelse me _ b); [done|look; done|done|done| |].
  { intros _. unfold rd_block. by look. }
  intros s7 Hs7. exists u. split; [done|]. eapply lrel_eq; [exact Hs7| | |].
  - unfold released. by destruct (_ =? 1).
  - unfold released, unpinned. simpl. replace (uref u + 1 - 1) with (uref u) by lia.
    destruct (uref u =? 1); cases D b. by rewrite Hh2.
  - unfold released. by destruct (_ =? 1).
Qed.

(** Recovery runs with no block in use. *)
Lemma recover_step t b s a l :
  lrel s a l → ause a = ∅ → ldev l = ROOTDEV →
  0 <= start l ∧ start l + lsize l < 2 ^ 31 → Z.of_nat t + 1 < lsize l →
  lh_block l !! t = Some b → 0 <= b < 2 ^ 31 → start l + Z.of_nat t + 1 ≠ b →
  let x := rd_block (adisk a) (start l + Z.of_nat t + 1) in
  runs (st <- gets (λ s, start (lg s)) ;;;
        lbuf <- lbread me (st + Z.of_nat t + 1) ;;;
        b <- get_block (Z.of_nat t) ;;;
        dbuf <- lbread me b ;;;
        d <- on_cache (c_data lbuf) ;;;
        on_cache (c_set_data dbuf d) ;;;
        on_cache (c_bwrite me dbuf) ;;;
        ret tt ;;;
        on_cache (c_brelse me lbuf) ;;;
        on_cache (c_brelse me dbuf)) s (λ _ s',
    lrel s' (mkA (<[b := x]> (adisk a)) ∅ (atrace a ++ [(b, x)])) l).
Proof.
  intros Hs Ha Hdev Hst Ht Hb Hbr HDb x. set (D := start l + Z.of_nat t + 1) in *.
  kred. rewrite (proj2 Hs). fold D. apply runs_bind. eapply runs_lbread; [done|done|lia| |].
  { unfold can_take. by rewrite Ha. }
  intros h s1 Hs1 _. apply runs_bind. eapply runs_get_block; [by rewrite (proj2 Hs1)|].
  unfold taken in Hs1. rewrite Ha, lookup_empty in Hs1. apply runs_bind.
  eapply runs_lbread; [done|done|lia| |].
  { unfold can_take. look. by rewrite Ha, lookup_empty, insert_empty, map_size_singleton. }
  intros h2 s2 Hs2 _. unfold taken in Hs2. simpl in Hs2. rewrite lookup_insert_ne, Ha, lookup_empty in Hs2 by done.
  apply runs_bind. eapply (runs_cdata _ D); [done|look; done|done|].
  apply runs_bind. eapply (runs_cset _ b); [done|look; done|done|]. intros s3 Hs3.
  apply runs_bind. eapply (runs_cwrite me _ b); [done|look; done|done|done|]. intros s4 Hs4. kred.
  eapply (runs_crelse me _ D); [done|look; done|done|done| |].
  { intros _. unfold rd_block. by look. }
  intros s6 Hs6. unfold released in Hs6. simpl in Hs6.
  eapply (runs_crelse me _ b); [done|look; done|done|done| |].
  { intros _. unfold rd_block. by look. }
  intros s7 Hs7. eapply lrel_eq; [exact Hs7|done| |done].
  unfold released. cases D b. by rewrite Ha.
Qed.

(** *** The writes of the loops *)

Definition log_writes (st : Z) (data : Z → block) (bl : list Z) : writes :=
  imap (λ i b, (st + Z.of_nat i + 1, data b)) bl.
Definition home_writes (st : Z) (d : gmap Z block) (bl : list Z) : writes :=
  imap (λ i b, (b, rd_block d (st + Z.of_nat i + 1))) bl.

Lemma home_writes_keys st d bl : (home_writes st d bl).*1 = bl.
Proof.
  apply list_eq. intros i. rewrite list_lookup_fmap. unfold home_writes. rewrite list_lookup_imap.
  by destruct (bl !! i).
Qed.

Lemma log_writes_keys st data bl b : b ∈ (log_writes st data bl).*1 → st < b <= st + zlen bl.
Proof.
  intros (e & -> & (i & c & -> & Hi%lookup_lt_Some)%elem_of_lookup_imap_1)%list_elem_of_fmap. simpl. lia.
Qed.

Lemma log_writes_nodup st data bl : NoDup (log_writes st data bl).*1.
Proof.
  apply NoDup_alt. intros i j b. rewrite !list_lookup_fmap, !fmap_Some. unfold log_writes.
  intros ([x1 x2] & Hx & ->) ([y1 y2] & Hy & He). rewrite list_lookup_imap in Hx, Hy.
  apply fmap_Some in Hx as (? & _ & [= -> ->]), Hy as (? & _ & [= -> ->]). simpl in He. lia.
Qed.

(** One more round of a loop is one more of its writes. *)
Lemma lrel_write (s : lst S) a l W t e m :
  W !! t = Some e →
  lrel s (mkA (<[e.1 := e.2]> (apply_writes (take t W) (adisk a))) m ((atrace a ++ take t W) ++ [e])) l →
  lrel s (mkA (apply_writes (take (Datatypes.S t) W) (adisk a)) m (atrace a ++ take (Datatypes.S t) W)) l.
Proof. intros He. by rewrite (take_S_r _ _ _ He), apply_writes_app, <-app_assoc. Qed.

Lemma length_imap_writes {A B} (f : nat → A → B) (l : list A) : take (length l) (imap f l) = imap f l.
Proof. apply take_ge. by rewrite length_imap. Qed.

Lemma write_log_spec s a l bl :
  lrel s a l → log_wf l bl → log_unused l (ause a) → Z.of_nat (size (ause a)) < NBUF →
  (∀ b, b ∈ bl → ready (ause a) b) →
  let W := log_writes (start l) (aview a) bl in
  runs (write_log me) s (λ _ s', lrel s' (mkA (apply_writes W (adisk a)) (ause a) (atrace a ++ W)) l).
Proof.
  intros Hs Hwf Hun Hsz Hrd W. replace W with (take (length bl) W) by apply length_imap_writes.
  apply (runs_for_tail _ _ (λ t s',
    lrel s' (mkA (apply_writes (take t W) (adisk a)) (ause a) (atrace a ++ take t W)) l)).
  - apply Hwf.
  - intros t s' [_ ->]. apply Hwf.
  - intros t s' Ht Hs'. destruct (lookup_lt_is_Some_2 bl t Ht) as [b Hb].
    pose proof (list_elem_of_lookup_2 _ _ _ Hb) as Hin. destruct (wf_blocks _ _ Hwf b Hin) as [Hbr _].
    pose proof (wf_fits _ _ Hwf) as [Hf1 Hf2].
    eapply runs_mono; [eapply (write_log_step t b); [done|done|done|apply Hwf|apply Hwf| | |done|by apply Hrd]|].
    + lia.
    + by apply (wf_take _ _ Hwf).
    + intros [] s2 Hs2. apply (lrel_write _ a l W t (start l + Z.of_nat t + 1, aview a b)).
      { unfold W, log_writes. by rewrite list_lookup_imap, Hb. }
      destruct (Hrd b Hin) as (u & Hu & _). unfold aview in Hs2 |- *. simpl in Hs2. by rewrite Hu in *.
  - simpl. rewrite take_0, app_nil_r. by destruct a.
Qed.

(** The blocks in use after the transaction was installed. *)
Definition installed (st : Z) (a : acache) (bl : list Z) (m : gmap Z use) : Prop :=
  (∀ k, k ∉ bl → m !! k = ause a !! k) ∧
  (∀ i b, bl !! i = Some b → ∃ u, ause a !! b = Some u ∧
     m !! b = if uref u =? 1 then None
              else Some (mkUse (uh u) (uref u - 1) (rd_block (adisk a) (st + Z.of_nat i + 1)) None)).

Lemma rd_block_out w d b : b ∉ w.*1 → rd_block (apply_writes w d) b = rd_block d b.
Proof. intros Hb. unfold rd_block. by rewrite apply_writes_out. Qed.

Lemma take_home_keys st d bl t k : k ∈ (take t (home_writes st d bl)).*1 → k ∈ bl.
Proof.
  rewrite fmap_take, home_writes_keys. by intros (? & ?%list_elem_of_lookup_2 & _)%elem_of_take.
Qed.

Lemma log_block_out l bl i :
  log_wf l bl → (i <= length bl)%nat → start l + Z.of_nat i ∉ bl.
Proof. intros Hwf Hi Hin. destruct (wf_blocks _ _ Hwf _ Hin) as [_ Hno]. destruct (wf_fits _ _ Hwf). lia. Qed.

Lemma take_snoc_out (bl : list Z) t b : NoDup bl → bl !! t = Some b → b ∉ take t bl.
Proof.
  intros Hnd Hb (j & Hj & Hlt)%elem_of_take. assert (j = t) by by eapply NoDup_lookup. lia.
Qed.

Lemma installed_step st a bl t b u m :
  NoDup bl → bl !! t = Some b → ause a !! b = Some u → installed st a (take t bl) m →
  installed st a (take (Datatypes.S t) bl) (unpinned b u (rd_block (adisk a) (st + Z.of_nat t + 1)) m).
Proof.
  intros Hnd Hb Hu [Hout Hin]. rewrite (take_S_r _ _ _ Hb).
  pose proof (take_snoc_out _ _ _ Hnd Hb) as Hnb. pose proof (lookup_lt_Some _ _ _ Hb) as Hlt.
  assert (Hne : ∀ k, k ≠ b → unpinned b u (rd_block (adisk a) (st + Z.of_nat t + 1)) m !! k = m !! k).
  { intros k Hk. unfold unpinned. destruct (_ =? 1); look; done. }
  split.
  - intros k. rewrite elem_of_app, list_elem_of_singleton. intros Hk. rewrite Hne by tauto. apply Hout. tauto.
  - intros i c Hi. apply lookup_snoc_Some in Hi as [[Hi Hc]|[Hi <-]].
    + destruct (Hin i c Hc) as (v & Hv & Hm). exists v. split; [done|]. rewrite Hne; [done|].
      intros ->. apply Hnb. by eapply list_elem_of_lookup_2.
    + exists u. split; [done|]. rewrite length_take_le in Hi by lia. subst i.
      unfold unpinned. destruct (_ =? 1); look; done.
Qed.

Lemma unpinned_size b u x m : is_Some (m !! b) → (size (unpinned b u x m) <= size m)%nat.
Proof.
  intros [v Hv]. unfold unpinned. destruct (_ =? 1).
  - rewrite map_size_delete, Hv. lia.
  - by rewrite map_size_insert, Hv.
Qed.

Lemma install_spec s a l bl :
  lrel s a l → log_wf l bl → log_unused l (ause a) → Z.of_nat (size (ause a)) < NBUF →
  (∀ b, b ∈ bl → ready (ause a) b) →
  let W := home_writes (start l) (adisk a) bl in
  runs (install_trans me false) s (λ _ s', ∃ m, installed (start l) a bl m ∧
    lrel s' (mkA (apply_writes W (adisk a)) m (atrace a ++ W)) l).
Proof.
  intros Hs Hwf Hun Hsz Hrd W. pose proof (wf_fits _ _ Hwf) as [Hf1 Hf2].
  eapply runs_mono.
  { apply (runs_for_tail _ (length bl) (λ t s', ∃ m, installed (start l) a (take t bl) m ∧
      (size m <= size (ause a))%nat ∧
      lrel s' (mkA (apply_writes (take t W) (adisk a)) m (atrace a ++ take t W)) l)).
    - apply Hwf.
    - intros t s' (m & _ & _ & _ & ->). apply Hwf.
    - intros t s' Ht (m & Hm & Hsm & Hs'). destruct (lookup_lt_is_Some_2 bl t Ht) as [b Hb].
      pose proof (list_elem_of_lookup_2 _ _ _ Hb) as Hin. destruct (wf_blocks _ _ Hwf b Hin) as [Hbr _].
      destruct (Hrd b Hin) as (u & Hu & Hul & Hur).
      assert (Hmb : m !! b = Some u).
      { rewrite (proj1 Hm); [done|]. eapply take_snoc_out; [apply Hwf|done]. }
      assert (Hx : rd_block (apply_writes (take t W) (adisk a)) (start l + Z.of_nat t + 1) =
          rd_block (adisk a) (start l + Z.of_nat t + 1)).
      { apply rd_block_out. intros Hk%take_home_keys. apply (log_block_out l bl (Datatypes.S t) Hwf); [lia|].
        by replace (start l + Z.of_nat (Datatypes.S t)) with (start l + Z.of_nat t + 1) by lia. }
      eapply runs_mono; [eapply (install_step t b); [done| |simpl; lia|apply Hwf|apply Hwf| | |done|by exists u]|].
      + intros k Hk. simpl. rewrite (proj1 Hm); [by apply Hun|].
        intros (? & Hk'%list_elem_of_lookup_2 & _)%elem_of_take. by destruct (wf_blocks _ _ Hwf k Hk').
      + lia.
      + by apply (wf_take _ _ Hwf).
      + simpl. rewrite Hx. intros [] s2 (u' & Hu' & Hs2). assert (u' = u) as -> by congruence.
        eexists. split; [by eapply installed_step; [apply Hwf|..]|].
        split; [etrans; [apply unpinned_size; by eexists|done]|].
        apply (lrel_write _ a l W t (b, rd_block (adisk a) (start l + Z.of_nat t + 1))); [|done].
        unfold W, home_writes. by rewrite list_lookup_imap, Hb.
    - exists (ause a). rewrite !take_0, app_nil_r. split_and!; [done..|]. by destruct a. }
  simpl. intros [] s' (m & Hm & _ & Hs'). exists m.
  rewrite firstn_all in Hm.
  assert (HW : take (length bl) W = W) by apply length_imap_writes. rewrite HW in Hs'. by split.
Qed.

Lemma recover_install_spec s a l bl :
  lrel s a l → log_wf l bl → ause a = ∅ →
  let W := home_writes (start l) (adisk a) bl in
  runs (install_trans me true) s (λ _ s', lrel s' (mkA (apply_writes W (adisk a)) ∅ (atrace a ++ W)) l).
Proof.
  intros Hs Hwf Ha W. pose proof (wf_fits _ _ Hwf) as [Hf1 Hf2].
  replace W with (take (length bl) W) by apply length_imap_writes.
  apply (runs_for_tail _ _ (λ t s',
    lrel s' (mkA (apply_writes (take t W) (adisk a)) ∅ (atrace a ++ take t W)) l)).
  - apply Hwf.
  - intros t s' [_ ->]. apply Hwf.
  - intros t s' Ht Hs'. destruct (lookup_lt_is_Some_2 bl t Ht) as [b Hb].
    pose proof (list_elem_of_lookup_2 _ _ _ Hb) as Hin. destruct (wf_blocks _ _ Hwf b Hin) as [Hbr Hno].
    assert (Hx : rd_block (apply_writes (take t W) (adisk a)) (start l + Z.of_nat t + 1) =
        rd_block (adisk a) (start l + Z.of_nat t + 1)).
    { apply rd_block_out. intros Hk%take_home_keys. apply (log_block_out l bl (Datatypes.S t) Hwf); [lia|].
      by replace (start l + Z.of_nat (Datatypes.S t)) with (start l + Z.of_nat t + 1) by lia. }
    eapply runs_mono; [eapply (recover_step t b); [done|done|apply Hwf|apply Hwf| | |done|]|].
    + lia.
    + by apply (wf_take _ _ Hwf).
    + lia.
    + simpl. rewrite Hx. intros [] s2 Hs2.
      apply (lrel_write _ a l W t (b, rd_block (adisk a) (start l + Z.of_nat t + 1))); [|done].
      unfold W, home_writes. by rewrite list_lookup_imap, Hb.
  - rewrite take_0, app_nil_r. rewrite <-Ha. by destruct a.
Qed.

(** *** The header block *)

Lemma write_head_spec s a l bl :
  lrel s a l → log_wf l bl → log_unused l (ause a) → Z.of_nat (size (ause a)) < NBUF →
  let e := (start l, enc_head (rd_block (adisk a) (start l)) bl) in
  runs (write_head me) s (λ _ s', lrel s' (mkA (<[e.1 := e.2]> (adisk a)) (ause a) (atrace a ++ [e])) l).
Proof.
  intros Hs Hwf Hun Hsz e. pose proof (wf_fits _ _ Hwf) as [Hf1 Hf2]. pose proof (wf_start _ _ Hwf) as Hst.
  assert (HD : ause a !! start l = None) by (apply Hun; lia). set (d0 := rd_block (adisk a) (start l)) in *.
  unfold write_head. kred. rewrite (proj2 Hs).
  eapply runs_lbread; [done|apply Hwf|lia|unfold can_take; by rewrite HD|].
  intros h s1 Hs1 _. unfold taken in Hs1. rewrite HD in Hs1. fold d0 in Hs1. kred. rewrite (proj2 Hs1).
  eapply (runs_cdata _ (start l)); [done|look; done|done|]. kred. cbn [udata].
  eapply (runs_cset _ (start l)); [done|look; done|done|]. intros s2 Hs2.
  set (I := λ t (s' : lst S), lrel s' (set_use (start l)
    (mkUse h 1 (enc_blocks (wr32 d0 0 (lh_n l)) 0 (take t bl)) (Some me)) a) l).
  apply runs_bind. eapply runs_mono.
  { apply (runs_for_tail _ (length bl) I).
    - apply Hwf.
    - intros t s' [_ ->]. apply Hwf.
    - intros t s' Ht Hs'. destruct (lookup_lt_is_Some_2 bl t Ht) as [b Hb]. apply runs_bind.
      eapply runs_get_block; [rewrite (proj2 Hs'); by apply (wf_take _ _ Hwf)|]. apply runs_bind.
      eapply (runs_cdata _ (start l)); [done|look; done|done|]. cbn [udata].
      eapply (runs_cset _ (start l)); [done|look; done|done|]. intros s3 Hs3. unfold I.
      rewrite (take_S_r _ _ _ Hb), enc_blocks_snoc, length_take_le by lia.
      eapply lrel_eq; [exact Hs3|done| |done]. cases (start l) (start l).
    - eapply lrel_eq; [exact Hs2|done| |done]. cases (start l) (start l). }
  intros [] s3 Hs3. unfold I in Hs3. rewrite firstn_all, (wf_n _ _ Hwf) in Hs3. apply runs_bind.
  eapply (runs_cwrite me _ (start l)); [done|look; done|done|done|]. intros s4 Hs4.
  eapply (runs_crelse me _ (start l)); [done|look; done|done|done| |].
  { intros _. unfold rd_block. by look. }
  intros s5 Hs5. eapply lrel_eq; [exact Hs5|done| |done]. unfold released. cases (start l) (start l).
Qed.

(** The header in block [d] lists the blocks [bl]. *)
Definition header (d : block) (bl : list Z) : Prop :=
  hd_n d = zlen bl ∧ ∀ i b, bl !! i = Some b → hd_block d (Z.of_nat i) = b.

Lemma header_enc d bl :
  zlen bl < 2 ^ 31 → (∀ b, b ∈ bl → - 2 ^ 31 <= b < 2 ^ 31) → header (enc_head d bl) bl.
Proof.
  intros Hn Hbl. split; [by apply hd_n_enc|]. intros i b Hi. apply hd_block_enc; [done|].
  apply Hbl. by eapply list_elem_of_lookup_2.
Qed.

(** The in-memory header after reading [bl] from the disk. *)
Definition loaded (bl : list Z) (l : log) : log :=
  set_lh_n (zlen bl) (set_lh_block (bl ++ drop (length bl) (lh_block l)) l).

Lemma insert_take_drop (bl old : list Z) t b :
  (t < length old)%nat → bl !! t = Some b →
  <[t := b]> (take t bl ++ drop t old) = take (Datatypes.S t) bl ++ drop (Datatypes.S t) old.
Proof.
  intros Ht Hb. pose proof (lookup_lt_Some _ _ _ Hb) as Hlt.
  destruct (lookup_lt_is_Some_2 old t Ht) as [x Hx]. rewrite (drop_S _ _ _ Hx), (take_S_r _ _ _ Hb).
  rewrite insert_app_r_alt by (rewrite length_take; lia). rewrite length_take_le by lia.
  by rewrite Nat.sub_diag, <-app_assoc.
Qed.

Lemma runs_put_block i v (s : lst S) (Q : unit → lst S → Prop) :
  (i < length (lh_block (lg s)))%nat →
  Q tt (upd_log (set_lh_block (<[i := s32 v]> (lh_block (lg s)))) s) →
  runs (put_block (Z.of_nat i) v) s Q.
Proof.
  intros Hi HQ. unfold runs, put_block. rewrite (proj2 (Z.leb_le 0 _)), (proj2 (Z.ltb_lt _ _)) by lia.
  simpl. by rewrite Nat2Z.id.
Qed.

Lemma read_head_spec s a l bl :
  lrel s a l → ause a = ∅ → ldev l = ROOTDEV → 0 <= start l ∧ start l + lsize l < 2 ^ 31 → 0 < lsize l →
  length (lh_block l) = Z.to_nat LOGSIZE → (length bl <= Z.to_nat LOGSIZE)%nat →
  header (rd_block (adisk a) (start l)) bl →
  runs (read_head me) s (λ _ s', lrel s' a (loaded bl l)).
Proof.
  intros Hs Ha Hdev Hst Hsz Hlen Hbl [Hn Hhb]. set (d0 := rd_block (adisk a) (start l)) in *.
  unfold read_head. kred. rewrite (proj2 Hs).
  eapply runs_lbread; [done|done|lia|unfold can_take; by rewrite Ha|].
  intros h s1 Hs1 _. unfold taken in Hs1. rewrite Ha, lookup_empty in Hs1. fold d0 in Hs1. kred.
  eapply (runs_cdata _ (start l)); [done|look; done|done|]. cbn [udata]. kred. rewrite Hn.
  set (u := mkUse h 1 d0 (Some me)) in *.
  set (I := λ t (s' : lst S), lrel s' (set_use (start l) u a)
    (set_lh_n (zlen bl) (set_lh_block (take t bl ++ drop t (lh_block l)) l))).
  eapply runs_mono.
  { apply (runs_for_tail _ (length bl) I).
    - done.
    - intros t s' [_ ->]. done.
    - intros t s' Ht Hs'. destruct (lookup_lt_is_Some_2 bl t Ht) as [b Hb]. apply runs_bind.
      eapply (runs_cdata _ (start l)); [done|look; done|done|]. cbn [udata u].
      destruct Hs' as [R' Hl']. rewrite (Hhb _ _ Hb).
      assert (Hlt : (t < length (lh_block (lg s')))%nat).
      { rewrite Hl'. simpl. rewrite length_app, length_take, length_drop. lia. }
      apply runs_put_block; [done|]. split; [done|]. simpl. rewrite Hl'.
      rewrite <-(Hhb _ _ Hb) at 1. unfold hd_block. rewrite (s32_small (s32 _)) by apply s32_range.
      fold (hd_block d0 (Z.of_nat t)). rewrite (Hhb _ _ Hb). cbn [lh_block set_lh_n set_lh_block].
      rewrite insert_take_drop by (done || lia). done.
    - destruct Hs1 as [R1 Hl1]. split; [done|]. simpl. rewrite Hl1. by destruct l. }
  intros [] s3 Hs3. unfold I in Hs3. rewrite firstn_all in Hs3.
  eapply (runs_crelse me _ (start l)); [exact Hs3|look; done|done|done|done|].
  intros s5 Hs5. eapply lrel_eq; [exact Hs5|done| |done]. unfold released. cases (start l) (start l). by rewrite Ha.
Qed.

(** ** Recovery *)

(** The blocks that the header in block [d] lists. *)
Definition hd_list (d : block) : list Z :=
  (λ i, hd_block d (Z.of_nat i)) <$> seq 0 (Z.to_nat (hd_n d)).

Lemma header_list d bl : header d bl → hd_list d = bl.
Proof.
  intros [Hn Hb]. unfold hd_list. rewrite Hn, Nat2Z.id. apply list_eq. intros i.
  rewrite list_lookup_fmap. destruct (bl !! i) as [b|] eqn:E.
  - rewrite lookup_seq_lt by by eapply lookup_lt_Some. simpl. by rewrite (Hb _ _ E).
  - rewrite lookup_seq_ge by by apply lookup_ge_None. done.
Qed.

(** The disk writes of recover_from_log. *)
Definition recovery_writes (st : Z) (d : gmap Z block) : writes :=
  home_writes st d (hd_list (rd_block d st)) ++ [(st, enc_head (rd_block d st) [])].

(** What the log needs of the blocks of a transaction. *)
Record blocks_ok (st sz : Z) (bl : list Z) : Prop := {
  ok_fits : (length bl <= Z.to_nat LOGSIZE)%nat ∧ zlen bl < sz;
  ok_nodup : NoDup bl;
  ok_blocks : ∀ b, b ∈ bl → 0 <= b < 2 ^ 31 ∧ ¬ (st <= b < st + sz)
}.

(** The log is configured, on the root device. *)
Record log_ready (l : log) : Prop := {
  rd_dev : ldev l = ROOTDEV;
  rd_start : 0 <= start l ∧ start l + lsize l < 2 ^ 31;
  rd_len : length (lh_block l) = Z.to_nat LOGSIZE
}.

Lemma loaded_wf l bl : log_ready l → blocks_ok (start l) (lsize l) bl → log_wf (loaded bl l) bl.
Proof.
  intros [Hd Hst Hlen] [Hf Hnd Hbl]. split; try done; simpl.
  - rewrite length_app, length_drop. lia.
  - intros i b Hi. rewrite lookup_app_l; [done|]. by eapply lookup_lt_Some.
Qed.

Lemma cleared_wf l bl : log_wf l bl → log_wf (set_lh_n 0 l) [].
Proof.
  intros Hwf. destruct (wf_fits _ _ Hwf). split; try (done || apply Hwf); simpl.
  - lia.
  - apply NoDup_nil_2.
  - by intros b ?%elem_of_nil.
Qed.

Lemma unused_empty l : log_unused l ∅.
Proof. intros b _. apply lookup_empty. Qed.

Lemma recover_spec s a l bl :
  lrel s a l → ause a = ∅ → log_ready l → blocks_ok (start l) (lsize l) bl →
  header (rd_block (adisk a) (start l)) bl →
  let W := recovery_writes (start l) (adisk a) in
  runs (recover_from_log me) s (λ _ s',
    lrel s' (mkA (apply_writes W (adisk a)) ∅ (atrace a ++ W)) (set_lh_n 0 (loaded bl l))).
Proof.
  intros Hs Ha Hl Hok Hh W. pose proof (loaded_wf l bl Hl Hok) as Hwf.
  destruct (ok_fits _ _ _ Hok) as [Hf1 Hf2]. unfold recover_from_log. apply runs_bind.
  eapply runs_mono; [eapply (read_head_spec s a l bl); try done; [apply Hl|apply Hl|lia|apply Hl]|].
  intros [] s1 Hs1. apply runs_bind.
  eapply runs_mono; [by eapply (recover_install_spec s1 a _ bl)|]. simpl.
  intros [] s2 Hs2. apply runs_bind, runs_modify.
  assert (Hs2' : lrel (upd_log (set_lh_n 0) s2)
    (mkA (apply_writes (home_writes (start l) (adisk a) bl) (adisk a)) ∅
         (atrace a ++ home_writes (start l) (adisk a) bl)) (set_lh_n 0 (loaded bl l))).
  { destruct Hs2 as [R2 Hl2]. split; [done|]. simpl. by rewrite Hl2. }
  eapply runs_mono.
  { eapply (write_head_spec _ _ _ []); [exact Hs2'|by eapply cleared_wf|apply unused_empty|done]. }
  simpl. intros [] s3 Hs3. unfold W, recovery_writes. rewrite (header_list _ _ Hh), apply_writes_app, app_assoc.
  rewrite rd_block_out in Hs3; [done|]. rewrite home_writes_keys.
  pose proof (log_block_out _ _ 0 Hwf) as Hno. simpl in Hno. rewrite Z.add_0_r in Hno. apply Hno. lia.
Qed.

(** [recoverable d V]: recovering the disk [d] gives the contents [V] outside
    the log. *)
Definition recoverable (st sz : Z) (d : gmap Z block) (V : Z → block) : Prop :=
  ∃ bl, header (rd_block d st) bl ∧ blocks_ok st sz bl ∧
    ∀ b, ¬ (st <= b < st + sz) → rd_block (apply_writes (home_writes st d bl) d) b = V b.

Lemma header_nil d : header (enc_head d []) [].
Proof. apply header_enc; [done|]. by intros b ?%elem_of_nil. Qed.

Lemma blocks_ok_nil st sz : 0 < sz → blocks_ok st sz [].
Proof. split; [simpl; lia|apply NoDup_nil_2|]. by intros b ?%elem_of_nil. Qed.

Lemma recoverable_empty st sz d V :
  0 < sz → header (rd_block d st) [] → (∀ b, ¬ (st <= b < st + sz) → rd_block d b = V b) →
  recoverable st sz d V.
Proof. intros Hsz Hh HV. exists []. split_and!; [done|by apply blocks_ok_nil|done]. Qed.

Lemma home_writes_ext st d d' bl :
  (∀ i, (i < length bl)%nat → rd_block d' (st + Z.of_nat i + 1) = rd_block d (st + Z.of_nat i + 1)) →
  home_writes st d' bl = home_writes st d bl.
Proof.
  intros Hd. apply list_eq. intros i. unfold home_writes. rewrite !list_lookup_imap.
  destruct (bl !! i) as [b|] eqn:E; [|done]. simpl. rewrite Hd; [done|]. by eapply lookup_lt_Some.
Qed.

(** The log region is not written by installing. *)
Lemma home_prefix_log st sz d bl k b :
  blocks_ok st sz bl → st <= b < st + sz →
  rd_block (apply_writes (take k (home_writes st d bl)) d) b = rd_block d b.
Proof.
  intros Hok Hb. apply rd_block_out. intros Hk%take_home_keys.
  by destruct (ok_blocks _ _ _ Hok _ Hk) as [_ ?].
Qed.

(** A crash at any point of a recovery leaves the disk as recoverable as it was. *)
Lemma recoverable_prefix st sz d V k :
  recoverable st sz d V → recoverable st sz (apply_writes (take k (recovery_writes st d)) d) V.
Proof.
  intros (bl & Hh & Hok & HV). destruct (ok_fits _ _ _ Hok) as [Hf1 Hf2].
  unfold recovery_writes. rewrite (header_list _ _ Hh). set (W := home_writes st d bl).
  destruct (decide (k <= length W)%nat) as [Hk|Hk].
  - rewrite take_app_le by done. set (d' := apply_writes (take k W) d).
    assert (Hlog : ∀ b, st <= b < st + sz → rd_block d' b = rd_block d b).
    { intros b Hb. by eapply home_prefix_log. }
    assert (HW : home_writes st d' bl = W) by (apply home_writes_ext; intros i Hi; apply Hlog; lia).
    exists bl. rewrite Hlog by lia. split_and!; [done|done|]. intros b Hb. rewrite HW.
    unfold d'. rewrite apply_writes_prefix. by apply HV.
  - rewrite take_ge by (rewrite length_app; simpl; lia). rewrite apply_writes_app. simpl.
    apply recoverable_empty; [lia| |].
    + unfold rd_block at 1. rewrite lookup_insert_eq. apply header_nil.
    + intros b Hb. rewrite <-(HV b Hb). unfold rd_block. rewrite lookup_insert_ne by lia. done.
Qed.

(** ** Commit *)

(** The disk writes of commit for the blocks [bl] with contents [view]. *)
Definition commit_writes (st : Z) (d : gmap Z block) (view : Z → block) (bl : list Z) : writes :=
  let h := enc_head (rd_block d st) bl in
  log_writes st view bl ++ (st, h) :: ((λ b, (b, view b)) <$> bl) ++ [(st, enc_head h [])].

(** The contents outside the log when the transaction took place. *)
Definition committed (d : gmap Z block) (view : Z → block) (bl : list Z) (b : Z) : block :=
  if decide (b ∈ bl) then view b else rd_block d b.

Lemma rd_log_writes st d view bl i b :
  bl !! i = Some b → rd_block (apply_writes (log_writes st view bl) d) (st + Z.of_nat i + 1) = view b.
Proof.
  intros Hi. unfold rd_block. erewrite apply_writes_lookup; [done|apply log_writes_nodup|].
  unfold log_writes. by rewrite list_lookup_imap, Hi.
Qed.

Lemma rd_insert_ne (d : gmap Z block) a x b : a ≠ b → rd_block (<[a := x]> d) b = rd_block d b.
Proof. intros. unfold rd_block. by rewrite lookup_insert_ne. Qed.
Lemma rd_insert_eq (d : gmap Z block) a x : rd_block (<[a := x]> d) a = x.
Proof. unfold rd_block. by rewrite lookup_insert_eq. Qed.

(** Once the log blocks are written, the header decides what is installed. *)
Lemma home_writes_view st d view bl h :
  home_writes st (<[st := h]> (apply_writes (log_writes st view bl) d)) bl = (λ b, (b, view b)) <$> bl.
Proof.
  apply list_eq. intros i. unfold home_writes. rewrite list_lookup_imap, list_lookup_fmap.
  destruct (bl !! i) as [b|] eqn:E; [|done]. simpl. rewrite rd_insert_ne by lia. by rewrite (rd_log_writes _ _ _ _ _ _ E).
Qed.

Lemma ready_installed st a bl m b : installed st a bl m → b ∉ bl → m !! b = ause a !! b.
Proof. intros [H _]. apply H. Qed.

Lemma commit_spec s a l bl :
  lrel s a l → log_wf l bl → bl ≠ [] → log_unused l (ause a) → Z.of_nat (size (ause a)) < NBUF →
  (∀ b, b ∈ bl → ready (ause a) b) →
  let W := commit_writes (start l) (adisk a) (aview a) bl in
  runs (commit me) s (λ _ s', ∃ m,
    (∀ k, k ∉ bl → m !! k = ause a !! k) ∧
    (∀ b, b ∈ bl → ∃ u, ause a !! b = Some u ∧
       m !! b = if uref u =? 1 then None else Some (mkUse (uh u) (uref u - 1) (aview a b) None)) ∧
    lrel s' (mkA (apply_writes W (adisk a)) m (atrace a ++ W)) (set_lh_n 0 l)).
Proof.
  intros Hs Hwf Hne Hun Hsz Hrd W. destruct (wf_fits _ _ Hwf) as [Hf1 Hf2].
  unfold commit. kred. rewrite (proj2 Hs), (wf_n _ _ Hwf).
  assert (zlen bl >? 0 = true) as -> by (destruct bl; [done|]; rewrite Z.gtb_lt; simpl; lia).
  apply runs_bind. eapply runs_mono; [by eapply (write_log_spec s a l bl)|]. intros [] s1 Hs1.
  apply runs_bind. eapply runs_mono; [by eapply (write_head_spec s1 _ l bl)|]. simpl. intros [] s2 Hs2.
  set (d1 := apply_writes (log_writes (start l) (aview a) bl) (adisk a)) in *.
  assert (Hh1 : rd_block d1 (start l) = rd_block (adisk a) (start l)).
  { apply rd_block_out. intros ?%log_writes_keys. lia. }
  rewrite Hh1 in Hs2. set (h1 := enc_head _ bl) in *.
  apply runs_bind. eapply runs_mono; [by eapply (install_spec s2 _ l bl)|]. simpl.
  intros [] s3 (m & [Hm1 Hm2] & Hs3). unfold d1 in Hs3 at 1 3. rewrite home_writes_view in Hs3.
  set (W2 := (λ b, (b, aview a b)) <$> bl) in *.
  assert (HW2 : W2.*1 = bl) by (unfold W2; rewrite <-list_fmap_compose; by rewrite list_fmap_id).
  apply runs_bind, runs_modify.
  assert (Hs3' : lrel (upd_log (set_lh_n 0) s3) (mkA (apply_writes W2 (<[start l := h1]> d1)) m
      (((atrace a ++ log_writes (start l) (aview a) bl) ++ [(start l, h1)]) ++ W2)) (set_lh_n 0 l)).
  { destruct Hs3 as [R3 Hl3]. split; [done|]. simpl. by rewrite Hl3. }
  assert (Hum : log_unused (set_lh_n 0 l) m).
  { intros k Hk. rewrite Hm1; [by apply Hun|]. intros Hin. by destruct (wf_blocks _ _ Hwf k Hin). }
  assert (Hszm : Z.of_nat (size m) < NBUF).
  { assert (dom m ⊆ dom (ause a)) as Hd; [|apply subseteq_size in Hd; rewrite !size_dom in Hd; lia].
    intros k [v Hv]%elem_of_dom. apply elem_of_dom. destruct (decide (k ∈ bl)) as [Hin|Hout].
    - destruct (Hrd k Hin) as (u & Hu & _). by eexists.
    - rewrite Hm1 in Hv by done. by eexists. }
  eapply runs_mono; [eapply (write_head_spec _ _ _ []); [exact Hs3'|by eapply cleared_wf|done|done]|].
  simpl. intros [] s4 Hs4. exists m. split; [done|]. split.
  - intros b [i Hi]%list_elem_of_lookup. destruct (Hm2 i b Hi) as (u & Hu & Hmb). exists u. split; [done|].
    rewrite Hmb. simpl. rewrite rd_insert_ne by lia. unfold d1. by rewrite (rd_log_writes _ _ _ _ _ _ Hi).
  - rewrite rd_block_out, rd_insert_eq in Hs4.
    2: { rewrite HW2. pose proof (log_block_out _ _ 0 Hwf) as Hno. simpl in Hno. rewrite Z.add_0_r in Hno. apply Hno. lia. }
    unfold W, commit_writes. fold h1 W2. rewrite apply_writes_app. fold d1.
    change ((start l, h1) :: W2 ++ _) with ([(start l, h1)] ++ W2 ++ [(start l, enc_head h1 [])]).
    rewrite !apply_writes_app, !app_assoc. simpl. by rewrite <-!app_assoc in *.
Qed.

(** ** Crashes *)

Lemma committed_in d view bl b :
  NoDup bl → b ∈ bl → rd_block (apply_writes ((λ b, (b, view b)) <$> bl) d) b = view b.
Proof.
  intros Hnd [i Hi]%list_elem_of_lookup. unfold rd_block.
  erewrite apply_writes_lookup; [done| |by rewrite list_lookup_fmap, Hi].
  by rewrite <-list_fmap_compose, list_fmap_id.
Qed.

(** The log and its header are on the disk: the transaction will take place. *)
Lemma recoverable_committed st sz d view bl :
  blocks_ok st sz bl →
  recoverable st sz (<[st := enc_head (rd_block d st) bl]> (apply_writes (log_writes st view bl) d))
    (committed d view bl).
Proof.
  intros Hok. destruct (ok_fits _ _ _ Hok) as [Hf1 Hf2]. exists bl. split_and!; [|done|].
  - rewrite rd_insert_eq. apply header_enc; [unfold LOGSIZE, MAXOPBLOCKS in *; lia|].
    intros b Hb. destruct (ok_blocks _ _ _ Hok b Hb). lia.
  - intros b Hb. rewrite home_writes_view. unfold committed. case_decide as Hin.
    + apply committed_in; [apply Hok|done].
    + rewrite rd_block_out by by rewrite <-list_fmap_compose, list_fmap_id.
      rewrite rd_insert_ne by lia. apply rd_block_out. intros ?%log_writes_keys. lia.
Qed.

Lemma commit_recoverable st sz d view bl k :
  header (rd_block d st) [] → blocks_ok st sz bl →
  recoverable st sz (apply_writes (take k (commit_writes st d view bl)) d)
    (if decide (k <= length bl)%nat then rd_block d else committed d view bl).
Proof.
  intros Hh Hok. destruct (ok_fits _ _ _ Hok) as [Hf1 Hf2]. unfold commit_writes.
  assert (Hlen : length (log_writes st view bl) = length bl) by apply length_imap. case_decide as Hk.
  - rewrite take_app_le by lia.
    assert (Hout : ∀ b, ¬ (st < b < st + sz) →
      rd_block (apply_writes (take k (log_writes st view bl)) d) b = rd_block d b).
    { intros b Hb. apply rd_block_out. rewrite fmap_take.
      intros (? & Hin%list_elem_of_lookup_2%log_writes_keys & _)%elem_of_take. lia. }
    apply recoverable_empty; [lia|by rewrite Hout by lia|]. intros b Hb. apply Hout. lia.
  - rewrite take_app_ge by lia. rewrite Hlen. set (h := enc_head (rd_block d st) bl).
    set (d1 := <[st := h]> (apply_writes (log_writes st view bl) d)).
    destruct (k - length bl)%nat as [|j] eqn:Ej; [lia|]. simpl. rewrite apply_writes_app. simpl. fold d1.
    pose proof (recoverable_committed st sz d view bl Hok) as Hrec. fold h d1 in Hrec.
    assert (HR : recovery_writes st d1 = ((λ b, (b, view b)) <$> bl) ++ [(st, enc_head h [])]).
    { unfold recovery_writes, d1. rewrite rd_insert_eq, (header_list _ bl), home_writes_view; [done|].
      apply header_enc; [unfold LOGSIZE, MAXOPBLOCKS in *; lia|].
      intros b Hb. destruct (ok_blocks _ _ _ Hok b Hb). lia. }
    rewrite <-HR. by apply recoverable_prefix.
Qed.

(** The log after initlog. *)
Definition fresh_log (st sz : Z) (l l' : log) : Prop :=
  llock l' = false ∧ start l' = st ∧ lsize l' = sz ∧ ldev l' = ROOTDEV ∧ lh_n l' = 0 ∧
  length (lh_block l') = Z.to_nat LOGSIZE ∧ outstanding l' = outstanding l ∧ committing l' = committing l.

Lemma initlog_spec sb s d tr l V :
  lrel s (mkA d ∅ tr) l → length (lh_block l) = Z.to_nat LOGSIZE →
  0 <= sb_logstart sb → 0 <= sb_nlog sb → sb_logstart sb + sb_nlog sb < 2 ^ 31 →
  recoverable (sb_logstart sb) (sb_nlog sb) d V →
  let W := recovery_writes (sb_logstart sb) d in
  runs (initlog me ROOTDEV sb) s (λ _ s', ∃ l', lrel s' (mkA (apply_writes W d) ∅ (tr ++ W)) l' ∧
    fresh_log (sb_logstart sb) (sb_nlog sb) l l' ∧ header (rd_block (apply_writes W d) (sb_logstart sb)) [] ∧
    ∀ b, ¬ (sb_logstart sb <= b < sb_logstart sb + sb_nlog sb) → rd_block (apply_writes W d) b = V b).
Proof.
  intros [R Hl] Hlen H1 H2 H3 Hrec W. pose proof Hrec as (bl & Hh & Hok & HV).
  unfold initlog. change (sizeof_logheader >=? BSIZE) with false. kred.
  rewrite !s32_small by lia.
  set (l1 := mkLog false (sb_logstart sb) (sb_nlog sb) (outstanding l) (committing l) ROOTDEV (lh_n l) (lh_block l)).
  eapply runs_mono; [eapply (recover_spec _ (mkA d ∅ tr) l1 bl)|];
    [split; [done|simpl; by rewrite Hl]|done|by split|done|done|].
  simpl. intros [] s' Hs'. eexists. split; [exact Hs'|]. destruct (ok_fits _ _ _ Hok) as [Hf1 Hf2].
  assert (Hd' : ∀ b, rd_block (apply_writes (recovery_writes (sb_logstart sb) d) d) b =
    rd_block (<[sb_logstart sb := enc_head (rd_block d (sb_logstart sb)) []]>
      (apply_writes (home_writes (sb_logstart sb) d bl) d)) b).
  { intros b. unfold recovery_writes. by rewrite (header_list _ _ Hh), apply_writes_app. }
  split; [|split].
  - unfold fresh_log. simpl. split_and!; try done. rewrite length_app, length_drop. lia.
  - rewrite Hd', rd_insert_eq. apply header_nil.
  - intros b Hb. rewrite Hd', rd_insert_ne by lia. by apply HV.
Qed.

End Procs.
