(* ===== verification/LogTxn.v ===== *)
(** Transactions on the log of log.c: begin_op, log_write and end_op.

    A system call brackets its updates with begin_op and end_op and records
    each changed block with log_write; the theorems say that such a bracket is
    atomic with respect to crashes and that the log's bookkeeping absorbs
    repeated writes and never loses a pinned block. *)

From S2P Require Import Prelude Mem Riscv Spinlock BlockCache Log LogSpec DList Bio BioSpec.
Local Open Scope kernel_scope.

Section Txn.
Context {S : Type} `{BC : !BlockCache S} (me : Z).

(** [l] after log_write added [b]. *)
Definition logged (b : Z) (l : log) : log :=
  set_lh_n (lh_n l + 1) (set_lh_block (<[Z.to_nat (lh_n l) := b]> (lh_block l)) l).

Lemma logged_wf l bl b :
  log_wf l bl → b ∉ bl → zlen bl < LOGSIZE → zlen bl < lsize l - 1 →
  0 <= b < 2 ^ 31 → ¬ (start l <= b < start l + lsize l) → log_wf (logged b l) (bl ++ [b]).
Proof.
  intros Hwf Hb H1 H2 Hr Hout. pose proof (wf_n _ _ Hwf) as Hn. split; try apply Hwf; simpl.
  - rewrite length_insert. apply Hwf.
  - rewrite length_app. simpl. lia.
  - rewrite length_app. simpl. lia.
  - intros i c [[Hi Hc]|[-> <-]]%lookup_snoc_Some.
    + rewrite list_lookup_insert_ne by lia. by apply Hwf.
    + rewrite Hn, Nat2Z.id, list_lookup_insert_eq; [done|]. rewrite (wf_len _ _ Hwf). lia.
  - apply NoDup_app. split_and!; [apply Hwf| |apply NoDup_singleton].
    by intros c Hc ->%list_elem_of_singleton.
  - intros c [Hc| ->%list_elem_of_singleton]%elem_of_app; [by apply (wf_blocks _ _ Hwf)|done].
Qed.

(** The search for the block in the header. *)
Lemma log_search_spec h b u s a l bl :
  lrel s a l → log_wf l bl → ause a !! b = Some u → h = uh u →
  runs (iter (Z.to_nat (LOGSIZE + 2)) (λ i,
    if i <? lh_n l then
      x <- get_block i ;;; bno <- on_cache (c_blockno h) ;;;
      if u32 x =? bno then ret (inr i) else ret (inl (i + 1))
    else ret (inr i)) 0) s (λ i s', s' = s ∧ ∃ k, i = Z.of_nat k ∧
      ((b ∉ bl ∧ k = length bl) ∨ bl !! k = Some b)).
Proof.
  intros Hs Hwf Hu ->. pose proof (wf_n _ _ Hwf) as Hn. destruct (wf_fits _ _ Hwf) as [Hf _].
  apply (runs_iter _ (λ m i s', s' = s ∧ ∃ k, i = Z.of_nat k ∧ (k + m = length bl)%nat ∧ b ∉ take k bl))
    with (n := length bl).
  - intros m i s' (-> & k & -> & Hk & Hnb). rewrite Hn.
    destruct (Z.ltb_spec (Z.of_nat k) (zlen bl)).
    + destruct (lookup_lt_is_Some_2 bl k ltac:(lia)) as [x Hx]. apply runs_bind.
      eapply runs_get_block; [rewrite (proj2 Hs); by apply (wf_take _ _ Hwf)|].
      apply runs_bind. eapply runs_cblockno; [done|done|done|].
      destruct (wf_blocks _ _ Hwf x (list_elem_of_lookup_2 _ _ _ Hx)) as [Hxr _].
      rewrite u32_small by lia. destruct (Z.eqb_spec x b) as [->|Hne]; kred.
      * split; [done|]. exists k. by split; [|right].
      * exists (m - 1)%nat. split; [lia|]. split; [done|]. exists (Datatypes.S k). split_and!; [lia|lia|].
        rewrite (take_S_r _ _ _ Hx), elem_of_app, list_elem_of_singleton. naive_solver.
    + kred. split; [done|]. exists k. split; [done|]. left. assert (k = length bl) as -> by lia.
      by rewrite firstn_all in Hnb.
  - split; [done|]. exists 0%nat. rewrite take_0, elem_of_nil. split_and!; [done|done|tauto].
  - unfold LOGSIZE, MAXOPBLOCKS in *. lia.
Qed.

Lemma log_write_spec b u s a l bl :
  lrel s a l → log_wf l bl → llock l = false → ause a !! b = Some u → uref u + 1 < 2 ^ 32 →
  1 <= outstanding l → zlen bl < LOGSIZE → zlen bl < lsize l - 1 → 0 <= b < 2 ^ 31 →
  runs (log_write (uh u)) s (λ _ s',
    if decide (b ∈ bl) then lrel s' a l
    else lrel s' (set_use b (mkUse (uh u) (uref u + 1) (udata u) (ulock u)) a) (logged b l)).
Proof.
  intros Hs Hwf Hlk Hu Hur Ho H1 H2 Hb. pose proof (wf_n _ _ Hwf) as Hn. pose proof (wf_len _ _ Hwf) as Hlen.
  destruct Hs as [R Hl]. unfold log_write.
  apply runs_bind, runs_acquire_flag; [by rewrite Hl|]. kred.
  set (s1 := set_llock true s). set (l1 := lg s1).
  assert (Hl1 : l1 = mkLog true (start l) (lsize l) (outstanding l) (committing l) (ldev l) (lh_n l) (lh_block l)).
  { unfold l1. simpl. by rewrite Hl. }
  assert (Hs1 : lrel s1 a l1) by by split.
  assert (Hwf1 : log_wf l1 bl) by (rewrite Hl1; destruct Hwf; by split).
  assert (Hg : (lh_n l1 >=? LOGSIZE) || (lh_n l1 >=? lsize l1 - 1) = false).
  { rewrite Hl1, !Z.geb_leb. apply orb_false_iff. simpl. split; apply Z.leb_gt; lia. }
  assert (Ho1 : outstanding l1 <? 1 = false) by (rewrite Hl1; apply Z.ltb_ge; simpl; lia).
  rewrite Hg. kred. rewrite Ho1. kred.
  eapply runs_mono; [by eapply (log_search_spec (uh u) b u s1 a l1 bl)|].
  intros i s2 (-> & k & -> & Hk). kred. eapply runs_cblockno; [done|done|done|].
  assert (Hkn : (k < length (lh_block (lg s1)))%nat).
  { simpl. rewrite Hl, Hlen. destruct Hk as [[_ ->]|Hk%lookup_lt_Some]; [lia|].
    destruct (wf_fits _ _ Hwf). lia. }
  apply runs_bind. apply (runs_put_block k b); [done|]. rewrite (s32_small b) by lia.
  assert (Hlb : lh_block (lg s1) = lh_block l) by (simpl; by rewrite Hl). rewrite Hlb.
  destruct Hk as [[Hnb ->]|Hk].
  - destruct (decide (b ∈ bl)) as [?|_]; [done|]. assert (zlen bl =? lh_n l1 = true) as ->.
    { apply Z.eqb_eq. by rewrite Hl1. }
    kred. eapply (runs_cpin (uh u) b u _ a); [by split|done|done|done|]. intros s3 Hs3. kred.
    apply runs_release_flag; [simpl; by rewrite (proj2 Hs3)|].
    destruct Hs3 as [R3 Hl3]. split; [done|]. simpl. rewrite Hl3. simpl. rewrite Hl. unfold logged.
    rewrite Hn, s32_small by (unfold LOGSIZE, MAXOPBLOCKS in *; lia). rewrite Nat2Z.id. destruct l; simpl in *. by subst.
  - destruct (decide (b ∈ bl)) as [_|Hno]; [|by destruct Hno; eapply list_elem_of_lookup_2].
    assert (Z.of_nat k =? lh_n l1 = false) as ->.
    { apply Z.eqb_neq. rewrite Hl1. simpl. apply lookup_lt_Some in Hk. lia. }
    kred. apply runs_release_flag; [done|]. split; [done|]. simpl.
    rewrite list_insert_id by by apply (wf_take _ _ Hwf). rewrite Hl. destruct l; simpl in *. by subst.
Qed.

(** ** A transaction *)

(** What a system call does with one block. *)
Definition update (b : Z) (d : block) : K (lst S) unit :=
  h <- lbread me b ;;; on_cache (c_set_data h d) ;;; log_write h ;;; on_cache (c_brelse me h).

Fixpoint updates (ups : list (Z * block)) : K (lst S) unit :=
  match ups with [] => ret tt | e :: ups' => update e.1 e.2 ;;; updates ups' end.

Definition transaction (ups : list (Z * block)) : K (lst S) unit :=
  begin_op ;;; updates ups ;;; end_op me.

(** The contents after the updates. *)
Definition overlay (ups : list (Z * block)) (V : Z → block) : Z → block :=
  foldl (λ V e b, if decide (b = e.1) then e.2 else V b) V ups.

(** In a transaction: the blocks [bl] are pinned, [V] is what a reader sees,
    and the disk has not changed. *)
Record txn_inv (d0 : gmap Z block) (tr : writes) (V : Z → block) (bl : list Z)
    (s : lst S) (a : acache) (l : log) : Prop := {
  ti_rel : lrel s a l;
  ti_wf : log_wf l bl;
  ti_lock : llock l = false;
  ti_committing : committing l = false;
  ti_outstanding : outstanding l = 1;
  ti_disk : adisk a = d0;
  ti_trace : atrace a = tr;
  ti_view : ∀ b, aview a b = V b;
  ti_free : ∀ b, b ∉ bl → ause a !! b = None;
  ti_pinned : ∀ b, b ∈ bl → ∃ u, ause a !! b = Some u ∧ uref u = 1 ∧ ulock u = None
}.

Lemma txn_size d0 tr V bl s a l : txn_inv d0 tr V bl s a l → (size (ause a) <= length bl)%nat.
Proof.
  intros I. assert (Hd : dom (ause a) ⊆ list_to_set bl).
  { intros b [u Hu]%elem_of_dom. apply elem_of_list_to_set. destruct (decide (b ∈ bl)) as [|Hb]; [done|].
    by rewrite (ti_free _ _ _ _ _ _ _ I b Hb) in Hu. }
  apply subseteq_size in Hd. rewrite size_dom in Hd. pose proof (size_list_le bl). lia.
Qed.

Lemma txn_can_take d0 tr V bl s a l b :
  txn_inv d0 tr V bl s a l → zlen bl < NBUF → can_take b a.
Proof.
  intros I Hlen. unfold can_take. destruct (decide (b ∈ bl)) as [Hb|Hb].
  - destruct (ti_pinned _ _ _ _ _ _ _ I b Hb) as (u & -> & -> & ->). done.
  - rewrite (ti_free _ _ _ _ _ _ _ I b Hb). pose proof (txn_size _ _ _ _ _ _ _ I). lia.
Qed.

Lemma update_spec d0 tr V bl s a l b d :
  txn_inv d0 tr V bl s a l → zlen bl < LOGSIZE → zlen bl < lsize l - 1 → 0 <= b < 2 ^ 31 →
  ¬ (start l <= b < start l + lsize l) →
  runs (update b d) s (λ _ s', ∃ a' l',
    txn_inv d0 tr (λ x, if decide (x = b) then d else V x)
      (if decide (b ∈ bl) then bl else bl ++ [b]) s' a' l' ∧
    start l' = start l ∧ lsize l' = lsize l).
Proof.
  intros I H1 H2 Hb Hout. pose proof (ti_rel _ _ _ _ _ _ _ I) as Hs. pose proof (ti_wf _ _ _ _ _ _ _ I) as Hwf.
  unfold update. apply runs_bind. eapply runs_lbread; [done|apply Hwf|lia|by eapply txn_can_take|].
  intros h s1 Hs1 _. unfold taken in Hs1.
  set (r := match ause a !! b with Some u => 2 | None => 1 end).
  assert (Hu1 : lrel s1 (set_use b (mkUse h r (V b) (Some me)) a) l).
  { eapply lrel_eq; [exact Hs1|done| |done]. intros k. simpl. f_equal. f_equal. unfold r.
    rewrite <-(ti_view _ _ _ _ _ _ _ I b). unfold aview. destruct (decide (b ∈ bl)) as [Hin|Hno].
    - destruct (ti_pinned _ _ _ _ _ _ _ I b Hin) as (u & -> & -> & _). done.
    - by rewrite (ti_free _ _ _ _ _ _ _ I b Hno). }
  clear Hs1. apply runs_bind. eapply (runs_cset _ b); [exact Hu1|apply lookup_insert_eq|done|].
  cbn [uref ulock]. intros s2 Hs2. set (u2 := mkUse h r d (Some me)) in *.
  assert (Hu2 : lrel s2 (set_use b u2 a) l).
  { eapply lrel_eq; [exact Hs2|done| |done]. intros k. simpl. by rewrite insert_insert_eq. }
  clear Hs2 Hu1. apply runs_bind. eapply runs_mono.
  { eapply (log_write_spec b u2 s2 _ l bl); try done; [apply I|apply lookup_insert_eq| |].
    - unfold u2, r. simpl. by destruct (ause a !! b).
    - by rewrite (ti_outstanding _ _ _ _ _ _ _ I). }
  intros [] s3 Hs3. set (u3 := mkUse h 2 d (Some me)).
  assert (Hs3' : lrel s3 (set_use b u3 a) (if decide (b ∈ bl) then l else logged b l)).
  { destruct (decide (b ∈ bl)) as [Hin|Hno].
    - destruct (ti_pinned _ _ _ _ _ _ _ I b Hin) as (u & Hu & _). unfold u2, r in Hs3. by rewrite Hu in Hs3.
    - eapply lrel_eq; [exact Hs3|done| |done]. intros k. simpl. unfold u2, r.
      rewrite insert_insert_eq. by rewrite (ti_free _ _ _ _ _ _ _ I b Hno). }
  clear Hs3. eapply (runs_crelse me _ b); [exact Hs3'|apply lookup_insert_eq|done|done|done|].
  intros s4 Hs4. set (l' := if decide (b ∈ bl) then l else logged b l) in *.
  exists (set_use b (mkUse h 1 d None) a), l'.
  assert (Hl' : start l' = start l ∧ lsize l' = lsize l ∧ llock l' = false ∧ committing l' = false ∧ outstanding l' = 1).
  { destruct I. unfold l'. by destruct (decide _). }
  destruct Hl' as (E1 & E2 & E3 & E4 & E5). split; [|done].
  split; try (done || apply I).
  - eapply lrel_eq; [exact Hs4|done| |done]. intros k. simpl. by rewrite insert_insert_eq.
  - unfold l'. destruct (decide _); [done|]. by apply logged_wf.
  - intros x. unfold aview. simpl. case_decide as Hx.
    + subst x. by rewrite lookup_insert_eq.
    + rewrite lookup_insert_ne by done. apply I.
  - intros x Hx. simpl. assert (x ≠ b ∧ x ∉ bl) as [Hxb Hxl].
    { destruct (decide (b ∈ bl)); [split; congruence|]. rewrite elem_of_app, list_elem_of_singleton in Hx. tauto. }
    rewrite lookup_insert_ne by done. by apply I.
  - intros x Hx. simpl. destruct (decide (x = b)) as [->|Hne].
    + rewrite lookup_insert_eq. by eexists.
    + rewrite lookup_insert_ne by done. apply I. destruct (decide (b ∈ bl)); [done|].
      rewrite elem_of_app, list_elem_of_singleton in Hx. tauto.
Qed.

Definition touched (ups : list (Z * block)) (bl : list Z) : list Z :=
  foldl (λ bl e, if decide (e.1 ∈ bl) then bl else bl ++ [e.1]) bl ups.

Lemma touched_length ups bl : (length (touched ups bl) <= length bl + length ups)%nat.
Proof.
  revert bl. induction ups as [|e ups IH]; intros bl; simpl; [lia|]. etrans; [apply IH|].
  destruct (decide _); rewrite ?length_app; simpl; lia.
Qed.

Lemma updates_spec d0 tr V bl s a l ups :
  txn_inv d0 tr V bl s a l → zlen bl + zlen ups <= LOGSIZE → zlen bl + zlen ups <= lsize l - 1 →
  (∀ e, e ∈ ups → 0 <= e.1 < 2 ^ 31 ∧ ¬ (start l <= e.1 < start l + lsize l)) →
  runs (updates ups) s (λ _ s', ∃ a' l',
    txn_inv d0 tr (overlay ups V) (touched ups bl) s' a' l' ∧ start l' = start l ∧ lsize l' = lsize l).
Proof.
  revert V bl s a l. induction ups as [|e ups IH]; intros V bl s a l I H1 H2 Hups; simpl in *.
  - kred. by exists a, l.
  - apply runs_bind. destruct (Hups e) as [He1 He2]; [by left|].
    eapply runs_mono; [eapply (update_spec d0 tr V bl s a l e.1 e.2); [done|lia|lia|done|done]|].
    intros [] s1 (a1 & l1 & I1 & E1 & E2).
    assert (length (if decide (e.1 ∈ bl) then bl else bl ++ [e.1]) <= Datatypes.S (length bl))%nat as Hlen.
    { destruct (decide _); rewrite ?length_app; simpl; lia. }
    eapply runs_mono; [eapply IH; [exact I1|lia|lia|]|].
    + intros e' He'. rewrite E1, E2. apply Hups. by right.
    + intros [] s2 (a2 & l2 & I2 & E3 & E4). exists a2, l2. split; [done|]. split; congruence.
Qed.

(** Between transactions. *)
Record idle (s : lst S) (d : gmap Z block) (tr : writes) (l : log) : Prop := {
  id_rel : lrel s (mkA d ∅ tr) l;
  id_wf : log_wf l [];
  id_lock : llock l = false;
  id_committing : committing l = false;
  id_outstanding : outstanding l = 0
}.

Lemma begin_op_spec s d tr l :
  idle s d tr l → runs begin_op s (λ _ s',
    txn_inv d tr (rd_block d) [] s' (mkA d ∅ tr) (set_outstanding 1 l)).
Proof.
  intros [[R Hl] Hwf Hlk Hc Ho]. unfold begin_op. apply runs_bind, runs_acquire_flag; [by rewrite Hl|]. kred.
  simpl. rewrite Hl, Hc, (wf_n _ _ Hwf), Ho. change (zlen _ + _ >? LOGSIZE) with false. kred.
  apply runs_release_flag; [done|]. split; try done; simpl.
  - split; [done|]. simpl. rewrite Hl. destruct l; simpl in *. by subst.
  - destruct Hwf. by split.
  - by intros b ?%elem_of_nil.
Qed.

(** Nothing is pinned any more when every pin was the only reference. *)
Lemma all_unpinned d0 tr V bl s a l (m : gmap Z use) :
  txn_inv d0 tr V bl s a l → (∀ k, k ∉ bl → m !! k = ause a !! k) →
  (∀ b, b ∈ bl → ∃ u, ause a !! b = Some u ∧
     m !! b = if uref u =? 1 then None else Some (mkUse (uh u) (uref u - 1) (aview a b) None)) → m = ∅.
Proof.
  intros I Hout Hin. apply map_eq. intros b. rewrite lookup_empty. destruct (decide (b ∈ bl)) as [Hb|Hb].
  - destruct (Hin b Hb) as (u & Hu & ->). destruct (ti_pinned _ _ _ _ _ _ _ I b Hb) as (u' & Hu' & Hr & _).
    assert (u' = u) as -> by congruence. by rewrite Hr.
  - rewrite Hout by done. by apply I.
Qed.

(** The disk writes of the end of a transaction on the blocks [bl]. *)
Definition txn_writes (st : Z) (d : gmap Z block) (V : Z → block) (bl : list Z) : writes :=
  if decide (bl = []) then [] else commit_writes st d V bl.

Lemma commit_writes_ext st d V V' bl :
  (∀ b, V b = V' b) → commit_writes st d V bl = commit_writes st d V' bl.
Proof.
  intros HV. unfold commit_writes, log_writes. f_equal.
  - apply imap_ext. intros i b _. by rewrite HV.
  - do 2 f_equal. apply list_fmap_ext. intros i b _. by rewrite HV.
Qed.

Lemma end_op_spec d0 tr V bl s a l :
  txn_inv d0 tr V bl s a l → zlen bl < NBUF →
  let W := txn_writes (start l) d0 V bl in
  runs (end_op me) s (λ _ s', ∃ l', idle s' (apply_writes W d0) (tr ++ W) l' ∧
    start l' = start l ∧ lsize l' = lsize l).
Proof.
  intros I Hlen W. pose proof (txn_size _ _ _ _ _ _ _ I) as Hsz. pose proof (ti_rel _ _ _ _ _ _ _ I) as [R Hl].
  pose proof (ti_wf _ _ _ _ _ _ _ I) as Hwf. unfold end_op.
  apply runs_bind, runs_acquire_flag; [rewrite Hl; apply I|]. kred. simpl.
  rewrite Hl, (ti_committing _ _ _ _ _ _ _ I), (ti_outstanding _ _ _ _ _ _ _ I). kred. simpl.
  kred. apply runs_release_flag; [done|]. apply runs_bind.
  set (s1 := set_llock false _).
  set (l1 := mkLog false (start l) (lsize l) 0 true (ldev l) (lh_n l) (lh_block l)).
  assert (Hs1 : lrel s1 a l1) by (split; [done|]; simpl; by rewrite Hl).
  assert (Hwf1 : log_wf l1 bl) by (destruct Hwf; by split).
  assert (Hun : log_unused l1 (ause a)).
  { intros b Hb. apply I. intros Hin. by destruct (wf_blocks _ _ Hwf b Hin). }
  assert (Hend : ∀ s2 d tr' l2, lrel s2 (mkA d ∅ tr') l2 → log_wf l2 [] → llock l2 = false → outstanding l2 = 0 →
    start l2 = start l → lsize l2 = lsize l →
    runs (acquire_log ;;; modify (upd_log (set_committing false)) ;;; wakeup_log ;;; release_log) s2
      (λ _ s', ∃ l', idle s' d tr' l' ∧ start l' = start l ∧ lsize l' = lsize l)).
  { intros s2 d tr' l2 [R2 Hl2] Hwf2 Hk2 Ho2 E1 E2. apply runs_bind, runs_acquire_flag; [by rewrite Hl2|].
    unfold wakeup_log. kred. apply runs_release_flag; [done|].
    exists (set_committing false l2). split; [|done]. split; try done.
    - split; [done|]. simpl. rewrite Hl2. destruct l2; simpl in *. by subst.
    - destruct Hwf2. by split. }
  destruct (decide (bl = [])) as [->|Hne].
  - unfold commit. kred. rewrite (proj2 Hs1). rewrite (wf_n _ _ Hwf1). change (zlen [] >? 0) with false. 
    apply runs_ret. apply (Hend _ _ _ l1); try done. subst W. unfold txn_writes. simpl.
    rewrite app_nil_r. assert (Ha : ause a = ∅).
    { apply map_eq. intros b. rewrite lookup_empty. apply I. by intros ?%elem_of_nil. }
    eapply lrel_eq; [exact Hs1|apply I|by rewrite Ha|apply I].
  - eapply runs_mono.
    { eapply (commit_spec me s1 a l1 bl); try done; [lia|]. intros b Hb.
      destruct (ti_pinned _ _ _ _ _ _ _ I b Hb) as (u & Hu & Hr & Hlk). exists u. by rewrite Hr. }
    intros [] s2 (m & Hm1 & Hm2 & Hs2). simpl in Hs2. apply (Hend _ _ _ (set_lh_n 0 l1)); try done.
    + rewrite (all_unpinned _ _ _ _ _ _ _ m I Hm1 Hm2) in Hs2. unfold W, txn_writes.
      rewrite decide_False by done. rewrite (commit_writes_ext _ _ _ (aview a)).
      * by rewrite <-(ti_disk _ _ _ _ _ _ _ I), <-(ti_trace _ _ _ _ _ _ _ I).
      * intros b. symmetry. apply I.
    + by eapply cleared_wf.
Qed.

(** ** Atomicity *)

(** Booting from the disk [d]: the caches are empty, and initlog finds the log
    at the place the superblock gives. *)
Definition boots (sb : superblock) (d : gmap Z block) (P : gmap Z block → Prop) : Prop :=
  ∀ (s : lst S) tr l, lrel s (mkA d ∅ tr) l → length (lh_block l) = Z.to_nat LOGSIZE →
  runs (initlog me ROOTDEV sb) s (λ _ s', ∃ d' tr' l', lrel s' (mkA d' ∅ tr') l' ∧
    fresh_log (sb_logstart sb) (sb_nlog sb) l l' ∧ header (rd_block d' (sb_logstart sb)) [] ∧ P d').

(** [V] are the contents of the disk [d] outside the log. *)
Definition outside (st sz : Z) (V : Z → block) (d : gmap Z block) : Prop :=
  ∀ b, ¬ (st <= b < st + sz) → rd_block d b = V b.

Lemma recoverable_boots sb d V :
  0 <= sb_logstart sb → 0 <= sb_nlog sb → sb_logstart sb + sb_nlog sb < 2 ^ 31 →
  recoverable (sb_logstart sb) (sb_nlog sb) d V →
  boots sb d (outside (sb_logstart sb) (sb_nlog sb) V).
Proof.
  intros H1 H2 H3 Hrec s tr l Hs Hlen. eapply runs_mono; [by eapply initlog_spec|].
  intros [] s' (l' & Hs' & Hf & Hh & HV). by eexists _, _, l'.
Qed.

(** The disks that any number of crashes during recovery can leave: each time
    the machine boots and runs initlog, and the power fails after some of the
    writes that the disk performs in that run. *)
Inductive crashes (sb : superblock) (d : gmap Z block) : gmap Z block → Prop :=
| crash_none : crashes sb d d
| crash_again d' pid s tr l s' W k :
    crashes sb d d' → lrel s (mkA d' ∅ tr) l → length (lh_block l) = Z.to_nat LOGSIZE →
    initlog pid ROOTDEV sb s = Ok tt s' → c_trace (cache s') = c_trace (cache s) ++ W →
    crashes sb d (apply_writes (take k W) d').

(** A crash of the recovery leaves the disk as recoverable as it was. *)
Lemma recoverable_crashes sb d d' V :
  0 <= sb_logstart sb → 0 <= sb_nlog sb → sb_logstart sb + sb_nlog sb < 2 ^ 31 →
  crashes sb d d' → recoverable (sb_logstart sb) (sb_nlog sb) d V → recoverable (sb_logstart sb) (sb_nlog sb) d' V.
Proof.
  intros H1 H2 H3 Hcr Hrec. induction Hcr as [|d' pid s tr l s' W k _ IH Hs Hlen Hrun HW]; [done|].
  destruct (runs_elim _ _ _ (initlog_spec pid sb s d' tr l V Hs Hlen H1 H2 H3 IH)) as ([] & s2 & E & l2 & Hs2 & _).
  assert (s2 = s') as -> by congruence. rewrite (c_rep_trace _ _ (proj1 Hs)), (c_rep_trace _ _ (proj1 Hs2)) in HW.
  apply app_inv_head in HW as <-. by apply recoverable_prefix.
Qed.

Lemma recoverable_writes sb l bl d V k d' :
  sb_logstart sb = start l → sb_nlog sb = lsize l → log_wf l bl → header (rd_block d (start l)) [] →
  crashes sb (apply_writes (take k (commit_writes (start l) d V bl)) d) d' →
  boots sb d' (outside (start l) (lsize l)
    (if decide (k <= length bl)%nat then rd_block d else committed d V bl)).
Proof.
  intros E1 E2 Hwf Hh Hcr. rewrite <-E1, <-E2 in *. destruct (wf_start _ _ Hwf), (wf_fits _ _ Hwf).
  apply recoverable_boots; [lia|lia|lia|]. eapply recoverable_crashes; [lia|lia|lia|exact Hcr|].
  apply commit_recoverable; [done|]. split; [|apply Hwf|].
  - rewrite E2. apply Hwf.
  - intros b Hb. rewrite E1, E2. by apply (wf_blocks _ _ Hwf).
Qed.

Lemma apply_commit st sz d V bl b :
  blocks_ok st sz bl → ¬ (st <= b < st + sz) →
  rd_block (apply_writes (commit_writes st d V bl) d) b = committed d V bl b.
Proof.
  intros Hok Hb. destruct (ok_fits _ _ _ Hok). unfold commit_writes. rewrite apply_writes_app. simpl.
  rewrite apply_writes_app. simpl. rewrite rd_insert_ne by lia. unfold committed. case_decide.
  - apply committed_in; [apply Hok|done].
  - rewrite rd_block_out by by rewrite <-list_fmap_compose, list_fmap_id.
    rewrite rd_insert_ne by lia. apply rd_block_out. intros ?%log_writes_keys. lia.
Qed.
End Txn.

(** The end of a transaction is atomic, whatever it did to reach its view. *)
(** The log is where it was and empty on the disk, so that the next transaction
    can begin. *)
Definition again (l : log) (d : gmap Z block) (l' : log) : Prop :=
  start l' = start l ∧ lsize l' = lsize l ∧ header (rd_block d (start l)) [].

Lemma commit_header st d V bl : header (rd_block (apply_writes (commit_writes st d V bl) d) st) [].
Proof.
  unfold commit_writes. cbv zeta. rewrite app_comm_cons, app_assoc, apply_writes_app. simpl.
  rewrite rd_insert_eq. apply header_enc; [done|]. by intros b ?%elem_of_nil.
Qed.

Lemma end_op_atomic {S} `{BC : !BlockCache S} me me' sb d tr V bl (s : lst S) a l :
  txn_inv d tr V bl s a l → zlen bl < NBUF → header (rd_block d (start l)) [] →
  sb_logstart sb = start l → sb_nlog sb = lsize l →
  let old := outside (start l) (lsize l) (rd_block d) in
  let new := outside (start l) (lsize l) V in
  runs (end_op me) s (λ _ s', ∃ W l',
    idle s' (apply_writes W d) (tr ++ W) l' ∧ again l (apply_writes W d) l' ∧ new (apply_writes W d) ∧
    ∀ k d', crashes (S := S) sb (apply_writes (take k W) d) d' →
      boots (S := S) me' sb d' (λ d2, old d2 ∨ new d2)).
Proof.
  intros I Hlen Hh E1 E2 old new. pose proof (ti_wf _ _ _ _ _ _ _ I) as Hwf.
  eapply runs_mono; [by eapply end_op_spec|]. intros [] s3 (l3 & I3 & E5 & E6). eexists _, l3. split; [exact I3|].
  assert (Hok : blocks_ok (start l) (lsize l) bl) by (split; apply Hwf).
  assert (HV : ∀ b, committed d V bl b = V b).
  { intros b. unfold committed. case_decide as Hb; [done|]. rewrite <-(ti_view _ _ _ _ _ _ _ I).
    unfold aview. by rewrite (ti_free _ _ _ _ _ _ _ I b Hb), (ti_disk _ _ _ _ _ _ _ I). }
  unfold txn_writes. destruct (decide (bl = [])) as [Hnil|Hne]; simpl.
  - assert (Hsame : ∀ b, rd_block d b = V b).
    { intros b. rewrite <-HV. unfold committed. rewrite decide_False; [done|]. subst bl. apply not_elem_of_nil. }
    split; [done|]. split; [intros b _; apply Hsame|]. intros k d'. rewrite take_nil. simpl. intros Hcr s4 tr4 l4 Hs4 Hl4.
    destruct (wf_start _ _ Hwf) as [? ?], (wf_fits _ _ Hwf) as [? ?]. eapply runs_mono.
    { eapply (recoverable_boots me' sb d' (rd_block d)); [lia|lia|lia| |exact Hs4|done].
      eapply recoverable_crashes; [lia|lia|lia|exact Hcr|]. rewrite E1, E2. by apply recoverable_empty; [lia|..]. }
    intros [] s5 (d5 & tr5 & l5 & Q1 & Q2 & Q3 & Q4). exists d5, tr5, l5. rewrite E1, E2 in *.
    split_and!; [done|done|done|by left].
  - split; [split_and!; [done|done|apply commit_header]|].
    split; [intros b Hb; by rewrite (apply_commit _ (lsize l)) by done|]. intros k d' Hcr s4 tr4 l4 Hs4 Hl4.
    eapply runs_mono; [by eapply (recoverable_writes me' sb l bl d V k d')|].
    intros [] s5 (d5 & tr5 & l5 & H1 & H2 & H3 & H4). exists d5, tr5, l5. split_and!; [done|done|done|].
    case_decide; [by left|right]. intros b Hb. by rewrite (H4 b Hb).
Qed.

(** The write-ahead log is crash safe.  commit performs a determined
    sequence of disk writes: the log blocks, the header, the home blocks, the
    cleared header.  If the machine stops after any number [k] of them, and
    then any number of times in the middle of a recovery, the next boot leaves
    an empty log and, outside the log, exactly the contents of before the
    commit when [k] does not reach the header write, and exactly the contents
    of the transaction when it does. *)
Theorem commit_crash_atomic {S} `{BC : !BlockCache S} me me' sb (s : lst S) a l bl :
  lrel s a l → log_wf l bl → bl ≠ [] → log_unused l (ause a) → Z.of_nat (size (ause a)) < NBUF →
  (∀ b, b ∈ bl → ready (ause a) b) → header (rd_block (adisk a) (start l)) [] →
  sb_logstart sb = start l → sb_nlog sb = lsize l →
  runs (commit me) s (λ _ s', ∃ W m,
    lrel s' (mkA (apply_writes W (adisk a)) m (atrace a ++ W)) (set_lh_n 0 l) ∧
    ∀ k d', crashes (S := S) sb (apply_writes (take k W) (adisk a)) d' →
      boots (S := S) me' sb d' (outside (start l) (lsize l)
        (if decide (k <= length bl)%nat then rd_block (adisk a) else committed (adisk a) (aview a) bl))).
Proof.
  intros Hs Hwf Hne Hun Hsz Hrd Hh E1 E2.
  eapply runs_mono; [by eapply (commit_spec me s a l bl)|]. intros [] s' (m & _ & _ & Hs').
  exists (commit_writes (start l) (adisk a) (aview a) bl), m. split; [done|]. intros k d' Hcr.
  by eapply recoverable_writes.
Qed.

(** [C7] A system call that updates at most MAXOPBLOCKS blocks between begin_op
    and end_op is atomic: it completes without panic or sleep, leaves all of
    its updates on the disk outside the log, and after a crash at any point of
    its disk writes (and of later recoveries) the next boot finds either none
    or all of them. *)
Theorem transaction_atomic {S} `{BC : !BlockCache S} me me' sb (s : lst S) d tr l ups :
  idle s d tr l → header (rd_block d (start l)) [] →
  zlen ups <= MAXOPBLOCKS → MAXOPBLOCKS < lsize l →
  (∀ e, e ∈ ups → 0 <= e.1 < 2 ^ 31 ∧ ¬ (start l <= e.1 < start l + lsize l)) →
  sb_logstart sb = start l → sb_nlog sb = lsize l →
  let old := outside (start l) (lsize l) (rd_block d) in
  let new := outside (start l) (lsize l) (overlay ups (rd_block d)) in
  runs (transaction me ups) s (λ _ s', ∃ W l',
    idle s' (apply_writes W d) (tr ++ W) l' ∧ again l (apply_writes W d) l' ∧ new (apply_writes W d) ∧
    ∀ k d', crashes (S := S) sb (apply_writes (take k W) d) d' →
      boots (S := S) me' sb d' (λ d2, old d2 ∨ new d2)).
Proof.
  intros I Hh Hups Hsz Hblk E1 E2 old new. unfold transaction. apply runs_bind.
  eapply runs_mono; [by apply begin_op_spec|]. intros [] s1 I1. apply runs_bind.
  assert (10 = MAXOPBLOCKS ∧ LOGSIZE = 30 ∧ NBUF = 30) as (HM & HL & HN) by done.
  eapply runs_mono; [eapply (updates_spec me _ _ _ [] _ _ _ ups I1); simpl; [lia|lia|done]|].
  simpl. intros [] s2 (a2 & l2 & I2 & E3 & E4). pose proof (touched_length ups []) as Hlen. simpl in Hlen.
  unfold old, new, again. rewrite <-E3, <-E4 in *.
  eapply (end_op_atomic me me' sb); [exact I2|lia|done|done|done].
Qed.

(** ** Reservations *)

(** begin_op: a system call is admitted exactly when no commit is running
    and the log has room for MAXOPBLOCKS more blocks for it and for every
    system call admitted before; otherwise it sleeps on the log with the state
    unchanged and the lock released. *)
Theorem begin_op_admits {S} (s : lst S) :
  llock (lg s) = false → 0 <= outstanding (lg s) < 2 ^ 30 →
  begin_op s =
    if committing (lg s) || (LOGSIZE <? lh_n (lg s) + (outstanding (lg s) + 1) * MAXOPBLOCKS)
    then Blocked LOG_CHAN s
    else Ok tt (upd_log (set_outstanding (outstanding (lg s) + 1)) s).
Proof.
  destruct s as [c [lk st sz o cm dv n b] w]. simpl. intros -> Ho.
  unfold begin_op, acquire_log, acquire_flag, bind, gets, modify, release_log, release_flag, sleep_on, set_llock, upd_log.
  simpl. destruct cm; [done|]. simpl. rewrite Z.gtb_ltb. by destruct (LOGSIZE <? _).
Qed.

Lemma begin_op_admits_witness :
  let s := mkL tt (mkLog false 2 30 2 false 1 0 []) 0 in
  llock (lg s) = false ∧ 0 <= outstanding (lg s) < 2 ^ 30 ∧
  begin_op s = Ok tt (upd_log (set_outstanding 3) s).
Proof. intros s. split; [done|split; [by vm_compute|]]. apply (begin_op_admits s); by vm_compute. Defined.

(** log_write panics when the header or the log is full, and outside of a
    transaction.  In particular a log of LOGSIZE blocks, the size mkfs gives
    it, is full with LOGSIZE - 1 logged blocks, although begin_op admits three
    system calls of MAXOPBLOCKS blocks each. *)
Theorem log_write_limits {S} `{BC : !BlockCache S} (s : lst S) h :
  llock (lg s) = false →
  (LOGSIZE <= lh_n (lg s) ∨ lsize (lg s) - 1 <= lh_n (lg s) → log_write h s = Panic "too big a transaction") ∧
  (lh_n (lg s) < LOGSIZE → lh_n (lg s) < lsize (lg s) - 1 → outstanding (lg s) < 1 →
     log_write h s = Panic "log_write outside of trans").
Proof.
  destruct s as [c [lk st sz o cm dv n b] w]. simpl. intros ->.
  unfold log_write, acquire_log, acquire_flag, bind, gets, set_llock, upd_log. simpl. rewrite !Z.geb_leb. split.
  - intros Hn. assert ((LOGSIZE <=? n) || (sz - 1 <=? n) = true) as ->; [|done].
    apply orb_true_iff. rewrite !Z.leb_le. done.
  - intros H1 H2 Ho. rewrite (proj2 (Z.leb_gt _ _) H1), (proj2 (Z.leb_gt _ _) H2), (proj2 (Z.ltb_lt _ _) Ho). done.
Qed.

Lemma log_write_limits_witness :
  let s := mkL (raw_cache ∅) (mkLog false 2 LOGSIZE 3 false 1 29 []) 0 in
  llock (lg s) = false ∧ lh_n (lg s) < outstanding (lg s) * MAXOPBLOCKS ∧
  log_write 1 s = Panic "too big a transaction".
Proof.
  intros s. split; [done|split; [done|]]. apply (log_write_limits s 1); [done|]. right. by vm_compute.
Defined.

(** ** A disk with an empty log *)

Definition demo_log : log := mkLog false 2 30 0 false ROOTDEV 0 (replicate (Z.to_nat LOGSIZE) 0).
Definition demo_sb : superblock := mkSb 0 2000 1954 200 30 2 32 45.
Definition demo_ups : list (Z * block) := [(46, {[0 := 7]}); (47, {[3 := 9]}); (46, {[1 := 8]})].

Lemma demo_idle : ∃ s, idle s ∅ [] demo_log.
Proof.
  destruct (booted ∅) as [c R]. exists (mkL c demo_log 0).
  split; [by split| |done..]. split; try done.
  - simpl. lia.
  - apply NoDup_nil_2.
  - by intros b ?%elem_of_nil.
Qed.

Lemma demo_header : header (rd_block ∅ (start demo_log)) [].
Proof. split; [done|]. intros i b. by rewrite lookup_nil. Qed.

Lemma transaction_atomic_witness :
  ∃ s, idle s ∅ [] demo_log ∧
    runs (transaction 3 demo_ups) s (λ _ s', ∃ W l', idle s' (apply_writes W ∅) ([] ++ W) l' ∧
      again demo_log (apply_writes W ∅) l' ∧ outside 2 30 (overlay demo_ups (rd_block ∅)) (apply_writes W ∅) ∧
      ∀ k d', crashes (S := bst) demo_sb (apply_writes (take k W) ∅) d' →
        boots (S := bst) 1 demo_sb d' (λ d2, outside 2 30 (rd_block ∅) d2 ∨
                                        outside 2 30 (overlay demo_ups (rd_block ∅)) d2)).
Proof.
  destruct demo_idle as [s I]. exists s. split; [exact I|].
  apply (transaction_atomic 3 1 demo_sb s ∅ [] demo_log demo_ups I demo_header); [by vm_compute|by vm_compute| |done|done].
  intros e He. unfold demo_ups in He. rewrite !elem_of_cons, elem_of_nil in He.
  destruct He as [->|[->|[->|[]]]]; simpl; lia.
Defined.

(** The same transaction, just before its end_op. *)
Lemma demo_txn :
  ∃ (s : lst bst) a l, txn_inv ∅ [] (overlay demo_ups (rd_block ∅)) [46; 47] s a l ∧ start l = 2 ∧ lsize l = 30.
Proof.
  destruct demo_idle as [s I].
  destruct (runs_elim _ _ _ (begin_op_spec s ∅ [] demo_log I)) as ([] & s1 & _ & I1).
  assert (Hups : ∀ e, e ∈ demo_ups → 0 <= e.1 < 2 ^ 31 ∧ ¬ (2 <= e.1 < 2 + 30)).
  { intros e He. unfold demo_ups in He. rewrite !elem_of_cons, elem_of_nil in He.
    destruct He as [->|[->|[->|[]]]]; simpl; lia. }
  assert (Hrun : runs (updates 3 demo_ups) s1 (λ _ s', ∃ a' l',
    txn_inv ∅ [] (overlay demo_ups (rd_block ∅)) (touched demo_ups []) s' a' l' ∧ start l' = 2 ∧ lsize l' = 30)).
  { by apply (updates_spec 3 ∅ [] (rd_block ∅) [] s1 _ _ demo_ups I1). }
  destruct (runs_elim _ _ _ Hrun) as ([] & s2 & _ & a & l & H). by exists s2, a, l.
Qed.

Lemma commit_crash_atomic_witness :
  ∃ (s : lst bst) a l, lrel s a l ∧
    runs (commit 3) s (λ _ s', ∃ W m,
      lrel s' (mkA (apply_writes W (adisk a)) m (atrace a ++ W)) (set_lh_n 0 l) ∧
      ∀ k d', crashes (S := bst) demo_sb (apply_writes (take k W) (adisk a)) d' →
        boots (S := bst) 1 demo_sb d' (outside (start l) (lsize l)
          (if decide (k <= 2)%nat then rd_block (adisk a) else committed (adisk a) (aview a) [46; 47]))).
Proof.
  destruct demo_txn as (s & a & l & I & E1 & E2). exists s, a, l. split; [apply I|].
  apply (commit_crash_atomic 3 1 demo_sb s a l [46; 47]).
  - apply I.
  - apply I.
  - done.
  - intros b Hb. apply I. rewrite !elem_of_cons, elem_of_nil. lia.
  - pose proof (txn_size _ _ _ _ _ _ _ I) as Hs. change NBUF with 30. simpl in Hs. lia.
  - intros b Hb. destruct (ti_pinned _ _ _ _ _ _ _ I b Hb) as (u & Hu & Hr & Hlk). exists u. by rewrite Hr.
  - rewrite (ti_disk _ _ _ _ _ _ _ I), E1. apply demo_header.
  - by rewrite E1.
  - by rewrite E2.
Defined.
