(* ===== verification/TxnStore.v ===== *)
(** The interface between the log (log.c over bio.c) and the file system
    (fs.c): blocks inside a transaction.

    A transaction sees the contents [tview] of every block, which were [tbase]
    when it began.  It may hold the buffers [theld] of some blocks (block
    number to buffer) and has recorded the blocks [tlogged] with log_write.
    [tlimit] bounds how many blocks the log can record, and [tlo], [thi]
    delimit the log itself. *)

From S2P Require Import Prelude Mem Riscv BlockCache.
Local Open Scope kernel_scope.

Record tstate := mkT {
  tview : Z → block; tbase : Z → block; theld : gmap Z Z; tlogged : gset Z;
  tlimit : Z; tlo : Z; thi : Z
}.

Definition hold (b h : Z) (t : tstate) : tstate :=
  mkT (tview t) (tbase t) (<[b := h]> (theld t)) (tlogged t) (tlimit t) (tlo t) (thi t).
Definition put_view (b : Z) (d : block) (V : Z → block) : Z → block :=
  λ x, if decide (x = b) then d else V x.
Definition change (b : Z) (d : block) (t : tstate) : tstate :=
  mkT (put_view b d (tview t)) (tbase t) (theld t) (tlogged t) (tlimit t) (tlo t) (thi t).
Definition record (b : Z) (t : tstate) : tstate :=
  mkT (tview t) (tbase t) (theld t) ({[b]} ∪ tlogged t) (tlimit t) (tlo t) (thi t).
Definition unhold (b : Z) (t : tstate) : tstate :=
  mkT (tview t) (tbase t) (delete b (theld t)) (tlogged t) (tlimit t) (tlo t) (thi t).

(** A block number outside of the log. *)
Definition home (t : tstate) (b : Z) : Prop := 0 <= b < 2 ^ 31 ∧ ¬ (tlo t <= b < thi t).

(** The buffers in use leave room for one more. *)
Definition room (t : tstate) : Prop := Z.of_nat (size (tlogged t ∪ dom (theld t))) < NBUF.

Class TxnStore (S : Type) := {
  t_bread : Z → Z → K S Z;
  t_data : Z → K S block;
  t_set_data : Z → block → K S unit;
  t_log_write : Z → K S unit;
  t_brelse : Z → K S unit;
  t_rep : S → tstate → Prop;

  (** Only a held buffer can have changes that are not recorded. *)
  t_clean_law b s t : t_rep s t → theld t !! b = None → b ∈ tlogged t ∨ tview t b = tbase t b;

  t_bread_law b s t :
    t_rep s t → theld t !! b = None → 0 <= b < 2 ^ 31 → b ∈ tlogged t ∨ room t →
    runs (t_bread ROOTDEV b) s (λ h s', t_rep s' (hold b h t));

  t_data_law b h s t :
    t_rep s t → theld t !! b = Some h → runs (t_data h) s (λ d s', d = tview t b ∧ s' = s);

  t_set_data_law b h d s t :
    t_rep s t → theld t !! b = Some h → runs (t_set_data h d) s (λ _ s', t_rep s' (change b d t));

  (** log_write wants room in the log even for a block it has recorded. *)
  t_log_write_law b h s t :
    t_rep s t → theld t !! b = Some h → home t b → Z.of_nat (size (tlogged t)) < tlimit t →
    runs (t_log_write h) s (λ _ s', t_rep s' (record b t));

  (** A buffer may be released when its changes are recorded. *)
  t_brelse_law b h s t :
    t_rep s t → theld t !! b = Some h → b ∈ tlogged t ∨ tview t b = tbase t b →
    runs (t_brelse h) s (λ _ s', t_rep s' (unhold b t));
}.

(** ** The reference store

    The transaction itself as a store, with block numbers as buffers: the
    executable specification of the interface, on which programs over a store
    can be run. *)

Definition guarded {A} (P : tstate → Prop) `{∀ t, Decision (P t)} (m : K tstate A) : K tstate A :=
  λ t, if decide (P t) then m t else UB "misuse of the store".

Definition ref_held (h : Z) (t : tstate) : Prop := theld t !! h = Some h.
#[global] Instance ref_held_dec h t : Decision (ref_held h t).
Proof. unfold ref_held. apply _. Defined.
#[global] Instance home_dec t b : Decision (home t b).
Proof. unfold home. apply _. Defined.
#[global] Instance room_dec t : Decision (room t).
Proof. unfold room. apply _. Defined.

Definition ref_bread (dev b : Z) : K tstate Z :=
  guarded (λ t, theld t !! b = None ∧ (b ∈ tlogged t ∨ room t)) (λ t, Ok b (hold b b t)).
Definition ref_data (h : Z) : K tstate block := guarded (ref_held h) (λ t, Ok (tview t h) t).
Definition ref_set_data (h : Z) (d : block) : K tstate unit := guarded (ref_held h) (λ t, Ok tt (change h d t)).
Definition ref_log_write (h : Z) : K tstate unit :=
  guarded (λ t, ref_held h t ∧ Z.of_nat (size (tlogged t)) < tlimit t) (λ t, Ok tt (record h t)).
Definition ref_brelse (h : Z) : K tstate unit := guarded (ref_held h) (λ t, Ok tt (unhold h t)).

Definition ref_rep (s t : tstate) : Prop :=
  s = t ∧ (∀ b h, theld t !! b = Some h → h = b) ∧
  ∀ b, theld t !! b = None → b ∈ tlogged t ∨ tview t b = tbase t b.

Lemma runs_guarded {A} (P : tstate → Prop) `{∀ t, Decision (P t)} (m : K tstate A) t Q :
  P t → runs m t Q → runs (guarded P m) t Q.
Proof. intros. unfold guarded, runs. by rewrite decide_True. Qed.

#[global, refine] Instance ref_store : TxnStore tstate := {
  t_bread := ref_bread; t_data := ref_data; t_set_data := ref_set_data;
  t_log_write := ref_log_write; t_brelse := ref_brelse; t_rep := ref_rep
}.
Proof.
  - intros b s t (_ & _ & H). apply H.
  - intros b s t (-> & Hh & Hc) Hb _ Hr. apply runs_guarded; [done|]. split; [done|]. split; simpl.
    + intros b' h. rewrite lookup_insert_Some. intros [[-> <-]|[_ ?]]; eauto.
    + intros b'. rewrite lookup_insert_None. intros [? _]. by apply Hc.
  - intros b h s t (-> & Hh & _) Hb. pose proof (Hh _ _ Hb) as ->. by apply runs_guarded.
  - intros b h d s t (-> & Hh & Hc) Hb. pose proof (Hh _ _ Hb) as ->. apply runs_guarded; [done|].
    split; [done|]. split; simpl; [done|]. intros b' Hb'. unfold put_view. rewrite decide_False by congruence. by apply Hc.
  - intros b h s t (-> & Hh & Hc) Hb _ Hl. pose proof (Hh _ _ Hb) as ->. apply runs_guarded; [done|].
    split; [done|]. split; simpl; [done|]. intros b' Hb'. destruct (Hc _ Hb'); [left; set_solver|by right].
  - intros b h s t (-> & Hh & Hc) Hb Hd. pose proof (Hh _ _ Hb) as ->. apply runs_guarded; [done|].
    split; [done|]. split; simpl.
    + intros b' h'. rewrite lookup_delete_Some. intros [_ ?]. eauto.
    + intros b'. rewrite lookup_delete_None. intros [<-|?]; [done|by apply Hc].
Defined.

(** The transaction that starts on the blocks [V]. *)
Definition ref_start (V : Z → block) (limit lo hi : Z) : tstate := mkT V V ∅ ∅ limit lo hi.

Lemma ref_start_rep V limit lo hi : ref_rep (ref_start V limit lo hi) (ref_start V limit lo hi).
Proof. split; [done|]. split; [done|]. by right. Qed.
