(* ===== verification/LogStore.v ===== *)
(** log.c over bio.c implements the interface of TxnStore.v, and any
    computation on that interface that ends with its buffers released is
    atomic when it is bracketed by begin_op and end_op. *)

From S2P Require Import Prelude Mem Riscv Spinlock BlockCache TxnStore Log LogSpec LogTxn DList Bio BioSpec.
Local Open Scope kernel_scope.

Section Store.
Context {S : Type} `{BC : !BlockCache S} (me : Z).

(** The buffer of block [b]: held by the transaction, pinned by the log, both,
    or not in use. *)
Definition use_ok (t : tstate) (b : Z) (u : option use) : Prop :=
  match theld t !! b with
  | Some h => u = Some (mkUse h (if decide (b ∈ tlogged t) then 2 else 1) (tview t b) (Some me))
  | None => if decide (b ∈ tlogged t) then ∃ h, u = Some (mkUse h 1 (tview t b) None) else u = None
  end.

Record store_inv (d0 : gmap Z block) (tr : writes) (k : Z) (bl : list Z)
    (s : lst S) (a : acache) (l : log) (t : tstate) : Prop := {
  si_rel : lrel s a l;
  si_wf : log_wf l bl;
  si_lock : llock l = false;
  si_committing : committing l = false;
  si_outstanding : outstanding l = k ∧ 1 <= k;
  si_disk : adisk a = d0;
  si_trace : atrace a = tr;
  si_logged : tlogged t = list_to_set bl;
  si_use b : use_ok t b (ause a !! b);
  si_base b : tbase t b = rd_block d0 b;
  si_clean b : b ∉ tlogged t → theld t !! b = None → tview t b = rd_block d0 b;
  si_limit : tlimit t <= Z.min LOGSIZE (lsize l - 1);
  si_region : tlo t = start l ∧ thi t = start l + lsize l
}.

Definition store_rep d0 tr k st sz (s : lst S) (t : tstate) : Prop :=
  ∃ bl a l, store_inv d0 tr k bl s a l t ∧ start l = st ∧ lsize l = sz.

Definition s_bread (dev b : Z) : K (lst S) Z := on_cache (c_bread me (u32 dev) (u32 b)).

Context (d0 : gmap Z block) (tr : writes) (k st sz : Z).
Abbreviation rep := (store_rep d0 tr k st sz).

(** Membership in the buffers in use. *)
Lemma use_dom bl s a l t :
  store_inv d0 tr k bl s a l t → dom (ause a) = tlogged t ∪ dom (theld t).
Proof.
  intros I. apply set_eq. intros b. rewrite elem_of_union, !elem_of_dom.
  pose proof (si_use _ _ _ _ _ _ _ _ I b) as Hu. unfold use_ok in Hu.
  destruct (theld t !! b) as [h|]; [rewrite Hu; by split; [right|]|].
  destruct (decide (b ∈ tlogged t)).
  - destruct Hu as [h ->]. split; [by left|by eexists].
  - rewrite Hu. split; [by intros []|]. by intros [?|[]].
Qed.

Lemma s_bread_law b s t :
  rep s t → theld t !! b = None → 0 <= b < 2 ^ 31 → b ∈ tlogged t ∨ room t →
  runs (s_bread ROOTDEV b) s (λ h s', rep s' (hold b h t)).
Proof.
  intros (bl & a & l & I & E1 & E2) Hh Hb Hroom. pose proof (si_rel _ _ _ _ _ _ _ _ I) as [R Hl].
  pose proof (si_use _ _ _ _ _ _ _ _ I b) as Hu. unfold use_ok in Hu. rewrite Hh in Hu.
  unfold s_bread. rewrite (u32_small b) by lia. apply runs_zoom. eapply runs_mono.
  { apply (c_bread_law me b (cache s) a R). unfold can_take. destruct (decide (b ∈ tlogged t)) as [Hin|Hin].
    - destruct Hu as [h ->]. done.
    - rewrite Hu. destruct Hroom as [?|Hroom]; [done|]. unfold room in Hroom.
      by rewrite <-(use_dom _ _ _ _ _ I), size_dom in Hroom. }
  intros h c [R' _]. exists bl, (taken me b h a), l. split; [|done]. destruct I. split; try done.
  - intros x. unfold use_ok. simpl. destruct (decide (b = x)) as [<-|Hne].
    + rewrite !lookup_insert_eq. destruct (decide (b ∈ tlogged t)) as [Hin|Hin].
      * by destruct Hu as [h' ->].
      * by rewrite Hu, si_clean0, si_disk0.
    + rewrite !lookup_insert_ne by done. apply si_use0.
  - intros x Hx. simpl. intros [Hn Hxb]%lookup_insert_None. by apply si_clean0.
Qed.

(** The buffer of a held block. *)
Lemma held_use b h bl s a l t :
  store_inv d0 tr k bl s a l t → theld t !! b = Some h →
  ause a !! b = Some (mkUse h (if decide (b ∈ tlogged t) then 2 else 1) (tview t b) (Some me)).
Proof. intros I Hh. pose proof (si_use _ _ _ _ _ _ _ _ I b) as Hu. unfold use_ok in Hu. by rewrite Hh in Hu. Qed.

Lemma s_data_law b h s t :
  rep s t → theld t !! b = Some h →
  runs (on_cache (c_data h)) s (λ d s', d = tview t b ∧ s' = s).
Proof.
  intros (bl & a & l & I & _) Hh. eapply runs_cdata; [apply I|by eapply held_use|done|]. done.
Qed.

Lemma s_set_data_law b h d s t :
  rep s t → theld t !! b = Some h →
  runs (on_cache (c_set_data h d)) s (λ _ s', rep s' (change b d t)).
Proof.
  intros (bl & a & l & I & E1 & E2) Hh. eapply runs_cset; [apply I|by eapply held_use|done|].
  intros s' Hs'. eexists bl, _, l. split; [|done]. destruct I. split; try exact Hs'; try done.
  - intros x. unfold use_ok. simpl. unfold put_view. destruct (decide (x = b)) as [->|Hne].
    + by rewrite lookup_insert_eq, Hh.
    + rewrite lookup_insert_ne by done. apply si_use0.
  - intros x Hx Hd. simpl in *. unfold put_view. rewrite decide_False by congruence. by apply si_clean0.
Qed.

Lemma s_log_write_law b h s t :
  rep s t → theld t !! b = Some h → home t b → Z.of_nat (size (tlogged t)) < tlimit t →
  runs (log_write h) s (λ _ s', rep s' (record b t)).
Proof.
  intros (bl & a & l & I & E1 & E2) Hh [Hb Hout] Hlim. pose proof (held_use _ _ _ _ _ _ _ I Hh) as Hu.
  assert (Hsz : zlen bl < tlimit t).
  { rewrite (si_logged _ _ _ _ _ _ _ _ I), size_list_to_set in Hlim; [done|]. apply I. }
  pose proof (Z.lt_le_trans _ _ _ Hsz (si_limit _ _ _ _ _ _ _ _ I)) as Hsz2. clear Hsz. rename Hsz2 into Hsz. destruct (si_region _ _ _ _ _ _ _ _ I) as [Elo Ehi].
  assert (Hin : b ∈ tlogged t ↔ b ∈ bl) by (rewrite (si_logged _ _ _ _ _ _ _ _ I); apply elem_of_list_to_set).
  pose proof (log_write_spec b _ s a l bl (si_rel _ _ _ _ _ _ _ _ I) (si_wf _ _ _ _ _ _ _ _ I)
    (si_lock _ _ _ _ _ _ _ _ I) Hu) as Hw. simpl in Hw.
  eapply runs_mono; [apply Hw; clear Hw|].
  - by destruct (decide _).
  - destruct (si_outstanding _ _ _ _ _ _ _ _ I). lia.
  - lia.
  - lia.
  - done.
  - clear Hw. intros [] s' Hs'. destruct (decide (b ∈ bl)) as [Hbl|Hbl].
    + exists bl, a, l. split; [|done]. destruct I. split; try done; simpl.
      * rewrite <-si_logged0. set_solver.
      * intros x. specialize (si_use0 x). unfold use_ok in *. simpl.
        destruct (theld t !! x); repeat case_decide; set_solver.
      * intros x Hx Hd. apply si_clean0; [set_solver|done].
    + rewrite decide_False in Hs' by tauto.
      eexists (bl ++ [b]), _, (logged b l). split; [|done]. destruct I. split; try exact Hs'; try done; simpl.
      * apply logged_wf; [done|done|lia|lia|done|lia].
      * rewrite list_to_set_app_L, si_logged0. set_solver.
      * intros x. specialize (si_use0 x). unfold use_ok in *. simpl. destruct (decide (b = x)) as [<-|Hne].
        -- rewrite lookup_insert_eq, Hh. by rewrite decide_True by set_solver.
        -- rewrite lookup_insert_ne by done. destruct (theld t !! x); repeat case_decide; set_solver.
      * intros x Hx Hd. apply si_clean0; [set_solver|done].
Qed.

Lemma s_brelse_law b h s t :
  rep s t → theld t !! b = Some h → b ∈ tlogged t ∨ tview t b = tbase t b →
  runs (on_cache (c_brelse me h)) s (λ _ s', rep s' (unhold b t)).
Proof.
  intros (bl & a & l & I & E1 & E2) Hh Hd. pose proof (held_use _ _ _ _ _ _ _ I Hh) as Hu.
  eapply runs_crelse; [apply I|exact Hu|done|done| |].
  { simpl. case_decide; [done|]. intros _. rewrite (si_disk _ _ _ _ _ _ _ _ I). destruct Hd as [?| ->]; [done|]. apply I. }
  intros s' Hs'. eexists bl, _, l. split; [|done]. destruct I. split; try exact Hs'; try done; simpl.
  - unfold released. simpl. by destruct (decide _).
  - unfold released. simpl. by destruct (decide _).
  - intros x. specialize (si_use0 x). unfold use_ok, released in *. simpl. destruct (decide (b = x)) as [<-|Hne].
    + rewrite lookup_delete_eq. destruct (decide (b ∈ tlogged t)); simpl.
      * rewrite lookup_insert_eq. by eexists.
      * by rewrite lookup_delete_eq.
    + rewrite lookup_delete_ne by done. destruct (decide (b ∈ tlogged t)); simpl.
      * by rewrite lookup_insert_ne.
      * by rewrite lookup_delete_ne.
  - intros x Hx. destruct (decide (b = x)) as [<-|Hne].
    + intros _. destruct Hd as [?| ->]; [done|apply si_base0].
    + rewrite lookup_delete_ne by done. by apply si_clean0.
Qed.

Lemma s_clean_law b s t : rep s t → theld t !! b = None → b ∈ tlogged t ∨ tview t b = tbase t b.
Proof.
  intros (bl & a & l & I & _) Hh. destruct (decide (b ∈ tlogged t)) as [|Hb]; [by left|right].
  rewrite (si_base _ _ _ _ _ _ _ _ I). by apply (si_clean _ _ _ _ _ _ _ _ I).
Qed.

Definition log_store : TxnStore (lst S) := {|
  t_bread := s_bread; t_data h := on_cache (c_data h); t_set_data h d := on_cache (c_set_data h d);
  t_log_write := log_write; t_brelse h := on_cache (c_brelse me h); t_rep := rep;
  t_clean_law := s_clean_law; t_bread_law := s_bread_law; t_data_law := s_data_law; t_set_data_law := s_set_data_law;
  t_log_write_law := s_log_write_law; t_brelse_law := s_brelse_law
|}.
End Store.

(** The transaction at its begin_op: it may record as many blocks as begin_op
    reserves for it. *)
Definition txn_start (d : gmap Z block) (st sz : Z) : tstate :=
  mkT (rd_block d) (rd_block d) ∅ ∅ (Z.min MAXOPBLOCKS (sz - 1)) st (st + sz).

Lemma begin_op_store {S} `{BC : !BlockCache S} me (s : lst S) d tr l :
  idle s d tr l →
  runs begin_op s (λ _ s', store_rep me d tr 1 (start l) (lsize l) s' (txn_start d (start l) (lsize l))).
Proof.
  intros I. eapply runs_mono; [by apply begin_op_spec|]. intros [] s1 I1.
  exists [], (mkA d ∅ tr), (set_outstanding 1 l). split; [|done]. destruct I1. split; try done.
  simpl. unfold LOGSIZE, MAXOPBLOCKS. lia.
Qed.

(** A transaction that holds no buffer is ready for end_op. *)
Lemma store_txn {S} `{BC : !BlockCache S} me d tr bl (s : lst S) a l t :
  store_inv me d tr 1 bl s a l t → theld t = ∅ → txn_inv d tr (tview t) bl s a l.
Proof.
  intros I Hh. pose proof (si_use _ _ _ _ _ _ _ _ _ I) as Hu.
  assert (Hin : ∀ b, b ∈ tlogged t ↔ b ∈ bl).
  { intros b. rewrite (si_logged _ _ _ _ _ _ _ _ _ I). apply elem_of_list_to_set. }
  assert (Hub : ∀ b, if decide (b ∈ bl) then ∃ h, ause a !! b = Some (mkUse h 1 (tview t b) None)
                    else ause a !! b = None).
  { intros b. specialize (Hu b). unfold use_ok in Hu. rewrite Hh, lookup_empty in Hu.
    specialize (Hin b). repeat case_decide; tauto. }
  destruct I. split; try done.
  - apply si_outstanding0.
  - intros b. specialize (Hub b). unfold aview. case_decide as Hb.
    + by destruct Hub as [h ->].
    + rewrite Hub, si_disk0. symmetry. apply si_clean0; [by rewrite Hin|by rewrite Hh].
  - intros b Hb. specialize (Hub b). by rewrite decide_False in Hub.
  - intros b Hb. specialize (Hub b). rewrite decide_True in Hub by done. destruct Hub as [h ->]. by eexists.
Qed.

(** A program that uses the log's store and releases every block it reads is
    atomic between begin_op and end_op: the blocks after it, or after a crash
    at any point and recovery, are those before it or those it left.  The
    program may have state of its own around the store. *)
Lemma txn_atomic {S X A} `{BC : !BlockCache S} (get : X → lst S) (set : lst S → X → X)
    me me' sb (x : X) d tr l (prog : K X A) (Q : A → (Z → block) → X → Prop) :
  (∀ c y, get (set c y) = c) →
  idle (get x) d tr l → header (rd_block d (start l)) [] → lsize l <= NBUF →
  sb_logstart sb = start l → sb_nlog sb = lsize l →
  let st := log_store me d tr 1 (start l) (lsize l) in
  (∀ c, t_rep c (txn_start d (start l) (lsize l)) →
     runs prog (set c x) (λ r y, ∃ t, t_rep (get y) t ∧ theld t = ∅ ∧ Q r (tview t) y)) →
  let old := outside (start l) (lsize l) (rd_block d) in
  runs (zoom get set begin_op ;;; r <- prog ;;; zoom get set (end_op me) ;;; ret r) x (λ r y', ∃ y V W l' c',
    y' = set c' y ∧ Q r V y ∧ idle c' (apply_writes W d) (tr ++ W) l' ∧ again l (apply_writes W d) l' ∧
    outside (start l) (lsize l) V (apply_writes W d) ∧
    ∀ k d', crashes (S := S) sb (apply_writes (take k W) d) d' →
      boots (S := S) me' sb d' (λ d2, old d2 ∨ outside (start l) (lsize l) V d2)).
Proof.
  intros Hgs I Hh Hsz E1 E2 st Hprog old. apply runs_bind, runs_zoom.
  eapply runs_mono; [by apply (begin_op_store me)|]. intros [] s1 R1. apply runs_bind.
  eapply runs_mono; [by apply Hprog|]. intros r y (t & (bl & a & l2 & I2 & E3 & E4) & Ht & HQ).
  pose proof (store_txn _ _ _ _ _ _ _ _ I2 Ht) as I3. destruct (wf_fits _ _ (ti_wf _ _ _ _ _ _ _ I3)).
  apply runs_bind, runs_zoom. unfold old, again. rewrite <-E3, <-E4 in *.
  eapply runs_mono; [eapply (end_op_atomic me me' sb); [exact I3|lia|done|done|done]|].
  intros [] s3 (W & l' & H1 & H2 & H3 & H4). kred. by exists y, (tview t), W, l', s3.
Qed.
