(* ===== verification/Fs.v ===== *)
(** kernel/fs.c: blocks, inodes, file contents, directories and path names,
    over any transactional block store (TxnStore.v).

    Pointers to in-memory inodes are numbered from 1, 0 is the null pointer.
    [kmem] is kernel memory (path strings, name buffers, the local [struct
    dirent de], at address [de_at]); [umem] is the memory of the calling
    process, with a cell for every mapped byte.  [printed] lists the kernel's
    messages, [me] is the pid of the caller and [cwd] its current directory. *)

From S2P Require Import Prelude Mem CString Riscv Spinlock BlockCache TxnStore Log.
Local Open Scope kernel_scope.

(** ** fs.h, stat.h *)

Definition ROOTINO : Z := 1.
Definition FSMAGIC : Z := 0x10203040.
Definition NDIRECT : Z := 12.
Definition NINDIRECT : Z := BSIZE / 4.
Definition MAXFILE : Z := NDIRECT + NINDIRECT.
Definition sizeof_dinode : Z := 64.
Definition IPB : Z := BSIZE / sizeof_dinode.
Definition BPB : Z := BSIZE * 8.
Definition DIRSIZ : Z := 14.
Definition sizeof_dirent : Z := 16.
Definition T_DIR : Z := 1.
Definition T_FILE : Z := 2.
Definition T_DEVICE : Z := 3.

Definition IBLOCK (i : Z) (sb : superblock) : Z := u32 (i / IPB + sb_inodestart sb).
Definition BBLOCK (b : Z) (sb : superblock) : Z := u32 (b / BPB + sb_bmapstart sb).

Record inode := mkInode {
  i_dev : Z; i_inum : Z; i_ref : Z; i_lock : sleeplock; i_valid : bool;
  i_type : Z; i_major : Z; i_minor : Z; i_nlink : Z; i_size : Z; i_addrs : list Z
}.

Definition set_id (dev inum ref : Z) (v : bool) (i : inode) : inode :=
  mkInode dev inum ref (i_lock i) v (i_type i) (i_major i) (i_minor i) (i_nlink i) (i_size i) (i_addrs i).
Definition set_ref (r : Z) (i : inode) : inode := set_id (i_dev i) (i_inum i) r (i_valid i) i.
Definition set_valid (v : bool) (i : inode) : inode := set_id (i_dev i) (i_inum i) (i_ref i) v i.
Definition set_lock (l : sleeplock) (i : inode) : inode :=
  mkInode (i_dev i) (i_inum i) (i_ref i) l (i_valid i) (i_type i) (i_major i) (i_minor i) (i_nlink i) (i_size i) (i_addrs i).
Definition set_meta (ty ma mi nl sz : Z) (i : inode) : inode :=
  mkInode (i_dev i) (i_inum i) (i_ref i) (i_lock i) (i_valid i) ty ma mi nl sz (i_addrs i).
Definition set_type (ty : Z) (i : inode) : inode := set_meta ty (i_major i) (i_minor i) (i_nlink i) (i_size i) i.
Definition set_nlink (n : Z) (i : inode) : inode := set_meta (i_type i) (i_major i) (i_minor i) n (i_size i) i.
Definition set_size (n : Z) (i : inode) : inode := set_meta (i_type i) (i_major i) (i_minor i) (i_nlink i) n i.
Definition set_addrs (l : list Z) (i : inode) : inode :=
  mkInode (i_dev i) (i_inum i) (i_ref i) (i_lock i) (i_valid i) (i_type i) (i_major i) (i_minor i) (i_nlink i) (i_size i) l.

(** *** The on-disk inode at offset [o] of a block *)

Definition rd_addrs (d : block) (a : Z) (n : nat) : list Z := (λ i, rd32 d (a + 4 * Z.of_nat i)) <$> seq 0 n.
Fixpoint wr_addrs (d : block) (a : Z) (l : list Z) : block :=
  match l with [] => d | x :: l' => wr_addrs (wr32 d a x) (a + 4) l' end.

(** dip->type = ip->type; ... memmove(dip->addrs, ip->addrs, sizeof(ip->addrs)) *)
Definition put_dinode (d : block) (o : Z) (i : inode) : block :=
  let d := wr16 d o (i_type i) in
  let d := wr16 d (o + 2) (i_major i) in
  let d := wr16 d (o + 4) (i_minor i) in
  let d := wr16 d (o + 6) (i_nlink i) in
  let d := wr32 d (o + 8) (i_size i) in
  wr_addrs d (o + 12) (i_addrs i).

(** ip->type = dip->type; ... memmove(ip->addrs, dip->addrs, sizeof(ip->addrs)) *)
Definition get_dinode (d : block) (o : Z) (i : inode) : inode :=
  set_addrs (rd_addrs d (o + 12) (Z.to_nat (NDIRECT + 1)))
    (set_meta (s16 (rd16 d o)) (s16 (rd16 d (o + 2))) (s16 (rd16 d (o + 4))) (s16 (rd16 d (o + 6)))
       (rd32 d (o + 8)) i).

Record fsst (S : Type) := mkF {
  store : S; sb : superblock; it_lock : bool; inodes : list inode;
  kmem : mem; umem : gmap Z Z; printed : list string; cwd : Z
}.
Arguments mkF {S} _ _ _ _ _ _ _ _.
Arguments store {S} _.
Arguments sb {S} _.
Arguments it_lock {S} _.
Arguments inodes {S} _.
Arguments kmem {S} _.
Arguments umem {S} _.
Arguments printed {S} _.
Arguments cwd {S} _.

Section Fs.
Context {S : Type} `{TS : !TxnStore S} (me de_at : Z).
Abbreviation st := (fsst S).

Definition set_store (x : S) (s : st) : st :=
  mkF x (sb s) (it_lock s) (inodes s) (kmem s) (umem s) (printed s) (cwd s).
Definition set_sb (x : superblock) (s : st) : st :=
  mkF (store s) x (it_lock s) (inodes s) (kmem s) (umem s) (printed s) (cwd s).
Definition set_it_lock (x : bool) (s : st) : st :=
  mkF (store s) (sb s) x (inodes s) (kmem s) (umem s) (printed s) (cwd s).
Definition set_inodes (x : list inode) (s : st) : st :=
  mkF (store s) (sb s) (it_lock s) x (kmem s) (umem s) (printed s) (cwd s).
Definition set_kmem (x : mem) (s : st) : st :=
  mkF (store s) (sb s) (it_lock s) (inodes s) x (umem s) (printed s) (cwd s).
Definition set_umem (x : gmap Z Z) (s : st) : st :=
  mkF (store s) (sb s) (it_lock s) (inodes s) (kmem s) x (printed s) (cwd s).

Definition on_store {A} (m : K S A) : K st A := zoom store set_store m.
Definition bread (dev b : Z) : K st Z := on_store (t_bread dev (u32 b)).
Definition data (bp : Z) : K st block := on_store (t_data bp).
Definition put_data (bp : Z) (d : block) : K st unit := on_store (t_set_data bp d).
Definition log_write (bp : Z) : K st unit := on_store (t_log_write bp).
Definition brelse (bp : Z) : K st unit := on_store (t_brelse bp).
Definition printf (msg : string) : K st unit := modify (λ s,
  mkF (store s) (sb s) (it_lock s) (inodes s) (kmem s) (umem s) (printed s ++ [msg]) (cwd s)).

(** ** Super block and block allocator *)

Definition readsb (dev : Z) : K st unit :=
  bp <- bread dev 1 ;;;
  d <- data bp ;;;
  modify (set_sb (mkSb (rd32 d 0) (rd32 d 4) (rd32 d 8) (rd32 d 12) (rd32 d 16) (rd32 d 20) (rd32 d 24) (rd32 d 28))) ;;;
  brelse bp.

(** [initlog] is the log's, on the store. *)
Definition fsinit (initlog : Z → superblock → K S unit) (dev : Z) : K st unit :=
  readsb dev ;;;
  sb <- gets sb ;;;
  if negb (sb_magic sb =? FSMAGIC) then panic "invalid file system"
  else on_store (initlog dev sb).

Definition bzero (dev bno : Z) : K st unit :=
  bp <- bread dev bno ;;;
  d <- data bp ;;; put_data bp (memset d 0 0 BSIZE) ;;;
  log_write bp ;;;
  brelse bp.

Definition bit_of (bi : Z) : Z := Z.shiftl 1 (bi mod 8).

(** The inner loop: the bits of the free-map block in [bp]. *)
Definition balloc_bits (dev size b bp : Z) : K st (option Z) :=
  iter (Datatypes.S (Z.to_nat BPB)) (λ bi,
    if (bi <? BPB) && (b + bi <? size) then
      let m := bit_of bi in
      d <- data bp ;;;
      if Z.land (rd8 d (bi / 8)) m =? 0 then
        put_data bp (wr8 d (bi / 8) (Z.lor (rd8 d (bi / 8)) m)) ;;;
        log_write bp ;;;
        brelse bp ;;;
        bzero dev (b + bi) ;;;
        ret (inr (Some (b + bi)))
      else ret (inl (bi + 1))
    else ret (inr None)) 0.

Definition balloc (dev : Z) : K st Z :=
  size <- gets (λ s, sb_size (sb s)) ;;;
  r <- iter (Datatypes.S (Z.to_nat (size / BPB + 1))) (λ b,
    if b <? size then
      sb <- gets sb ;;;
      bp <- bread dev (BBLOCK b sb) ;;;
      r <- balloc_bits dev size b bp ;;;
      match r with
      | Some x => ret (inr (Some x))
      | None => brelse bp ;;; ret (inl (b + BPB))
      end
    else ret (inr None)) 0 ;;;
  match r with
  | Some x => ret x
  | None => printf "balloc: out of blocks" ;;; ret 0
  end.

Definition bfree (dev b : Z) : K st unit :=
  sb <- gets sb ;;;
  bp <- bread dev (BBLOCK b sb) ;;;
  let bi := b mod BPB in
  let m := bit_of bi in
  d <- data bp ;;;
  if Z.land (rd8 d (bi / 8)) m =? 0 then panic "freeing free block"
  else
    put_data bp (wr8 d (bi / 8) (Z.land (rd8 d (bi / 8)) (Z.lnot m))) ;;;
    log_write bp ;;;
    brelse bp.

(** ** The inode table *)

Definition iidx (ip : Z) : nat := Z.to_nat (ip - 1).
Definition geti (ip : Z) : K st inode := λ s,
  match inodes s !! iidx ip with
  | Some i => if 1 <=? ip then Ok i s else UB "struct inode: null pointer"
  | None => UB "struct inode: bad pointer"
  end.
Definition seti (ip : Z) (f : inode → inode) : K st unit := λ s,
  match inodes s !! iidx ip with
  | Some i => if 1 <=? ip then Ok tt (set_inodes (<[iidx ip := f i]> (inodes s)) s)
              else UB "struct inode: null pointer"
  | None => UB "struct inode: bad pointer"
  end.

Definition acquire_it : K st unit := acquire_flag it_lock set_it_lock.
Definition release_it : K st unit := release_flag it_lock set_it_lock.

(** An operation on [ip->lock]. *)
Definition on_ilock {A} (ip : Z) (m : K sleeplock A) : K st A :=
  i <- geti ip ;;;
  zoom (λ _, i_lock i) (λ l s, set_inodes (<[iidx ip := set_lock l i]> (inodes s)) s) m.

Definition iinit : K st unit :=
  modify (set_it_lock false) ;;;
  iter (Datatypes.S (Z.to_nat NINODE)) (λ i,
    if i <? NINODE then seti (i + 1) (set_lock initsleeplock) ;;; ret (inl (i + 1)) else ret (inr tt)) 0.

Definition iget (dev inum : Z) : K st Z :=
  acquire_it ;;;
  r <- iter (Datatypes.S (Z.to_nat NINODE)) (λ '(ip, empty),
    if ip <? 1 + NINODE then
      i <- geti ip ;;;
      if (i_ref i >? 0) && (i_dev i =? dev) && (i_inum i =? inum) then
        seti ip (λ i, set_ref (s32 (i_ref i + 1)) i) ;;; release_it ;;; ret (inr (inl ip))
      else
        let empty := if (empty =? 0) && (i_ref i =? 0) then ip else empty in
        ret (inl (ip + 1, empty))
    else ret (inr (inr empty))) (1, 0) ;;;
  match r with
  | inl ip => ret ip
  | inr empty =>
      if empty =? 0 then panic "iget: no inodes"
      else seti empty (set_id dev inum 1 false) ;;; release_it ;;; ret empty
  end.

Definition dip_off (inum : Z) : Z := (inum mod IPB) * sizeof_dinode.

Definition ialloc (dev type : Z) : K st Z :=
  ninodes <- gets (λ s, sb_ninodes (sb s)) ;;;
  r <- iter (Datatypes.S (Z.to_nat ninodes)) (λ inum,
    if inum <? ninodes then
      sb <- gets sb ;;;
      bp <- bread dev (IBLOCK inum sb) ;;;
      d <- data bp ;;;
      if s16 (rd16 d (dip_off inum)) =? 0 then
        put_data bp (wr16 (memset d (dip_off inum) 0 sizeof_dinode) (dip_off inum) type) ;;;
        log_write bp ;;;
        brelse bp ;;;
        ret (inr inum)
      else brelse bp ;;; ret (inl (inum + 1))
    else ret (inr 0)) 1 ;;;
  if r =? 0 then printf "ialloc: no inodes" ;;; ret 0 else iget dev r.

Definition iupdate (ip : Z) : K st unit :=
  i <- geti ip ;;;
  sb <- gets sb ;;;
  bp <- bread (i_dev i) (IBLOCK (i_inum i) sb) ;;;
  d <- data bp ;;;
  put_data bp (put_dinode d (dip_off (i_inum i)) i) ;;;
  log_write bp ;;;
  brelse bp.

Definition idup (ip : Z) : K st Z :=
  acquire_it ;;; seti ip (λ i, set_ref (s32 (i_ref i + 1)) i) ;;; release_it ;;; ret ip.

Definition ilock (ip : Z) : K st unit :=
  if ip =? 0 then panic "ilock"
  else
    i <- geti ip ;;;
    if i_ref i <? 1 then panic "ilock"
    else
      on_ilock ip (acquiresleep ip me) ;;;
      i <- geti ip ;;;
      if negb (i_valid i) then
        sb <- gets sb ;;;
        bp <- bread (i_dev i) (IBLOCK (i_inum i) sb) ;;;
        d <- data bp ;;;
        seti ip (get_dinode d (dip_off (i_inum i))) ;;;
        brelse bp ;;;
        seti ip (set_valid true) ;;;
        i <- geti ip ;;;
        if i_type i =? 0 then panic "ilock: no type" else ret tt
      else ret tt.

Definition iunlock (ip : Z) : K st unit :=
  if ip =? 0 then panic "iunlock"
  else
    h <- on_ilock ip (holdingsleep me) ;;;
    i <- geti ip ;;;
    if negb h || (i_ref i <? 1) then panic "iunlock"
    else on_ilock ip (releasesleep ip).

(** ** Contents of inodes *)

(** ip->addrs[n] *)
Definition addr_at (i : inode) (n : Z) : Z := default 0 (i_addrs i !! Z.to_nat n).
Definition set_addr (n x : Z) (i : inode) : inode := set_addrs (<[Z.to_nat n := x]> (i_addrs i)) i.

Definition itrunc (ip : Z) : K st unit :=
  iter (Datatypes.S (Z.to_nat NDIRECT)) (λ k,
    if k <? NDIRECT then
      i <- geti ip ;;;
      (if negb (addr_at i k =? 0) then
         bfree (i_dev i) (addr_at i k) ;;; seti ip (set_addr k 0)
       else ret tt) ;;;
      ret (inl (k + 1))
    else ret (inr tt)) 0 ;;;
  i <- geti ip ;;;
  (if negb (addr_at i NDIRECT =? 0) then
     bp <- bread (i_dev i) (addr_at i NDIRECT) ;;;
     iter (Datatypes.S (Z.to_nat NINDIRECT)) (λ j,
       if j <? NINDIRECT then
         d <- data bp ;;;
         (if negb (rd32 d (4 * j) =? 0) then bfree (i_dev i) (rd32 d (4 * j)) else ret tt) ;;;
         ret (inl (j + 1))
       else ret (inr tt)) 0 ;;;
     brelse bp ;;;
     bfree (i_dev i) (addr_at i NDIRECT) ;;;
     seti ip (set_addr NDIRECT 0)
   else ret tt) ;;;
  seti ip (set_size 0) ;;;
  iupdate ip.

Definition iput (ip : Z) : K st unit :=
  acquire_it ;;;
  i <- geti ip ;;;
  (if (i_ref i =? 1) && i_valid i && (i_nlink i =? 0) then
     on_ilock ip (acquiresleep ip me) ;;;
     release_it ;;;
     itrunc ip ;;;
     seti ip (set_type 0) ;;;
     iupdate ip ;;;
     seti ip (set_valid false) ;;;
     on_ilock ip (releasesleep ip) ;;;
     acquire_it
   else ret tt) ;;;
  seti ip (λ i, set_ref (s32 (i_ref i - 1)) i) ;;;
  release_it.

Definition iunlockput (ip : Z) : K st unit := iunlock ip ;;; iput ip.

(** "Load indirect block, allocating if necessary": its address. *)
Definition bmap_indirect (ip : Z) : K st Z :=
  i <- geti ip ;;;
  if addr_at i NDIRECT =? 0 then
    addr <- balloc (i_dev i) ;;;
    if addr =? 0 then ret 0 else seti ip (set_addr NDIRECT addr) ;;; ret addr
  else ret (addr_at i NDIRECT).

(** Entry [bn] of the indirect block [addr]. *)
Definition bmap_entry (ip addr bn : Z) : K st Z :=
  i <- geti ip ;;;
  bp <- bread (i_dev i) addr ;;;
  a <- data bp ;;;
  addr <- (if rd32 a (4 * bn) =? 0 then
             addr <- balloc (i_dev i) ;;;
             (if negb (addr =? 0) then
                a <- data bp ;;; put_data bp (wr32 a (4 * bn) addr) ;;; log_write bp
              else ret tt) ;;;
             ret addr
           else ret (rd32 a (4 * bn))) ;;;
  brelse bp ;;;
  ret addr.

Definition bmap (ip bn : Z) : K st Z :=
  if bn <? NDIRECT then
    i <- geti ip ;;;
    if addr_at i bn =? 0 then
      addr <- balloc (i_dev i) ;;;
      if addr =? 0 then ret 0 else seti ip (set_addr bn addr) ;;; ret addr
    else ret (addr_at i bn)
  else
    let bn := bn - NDIRECT in
    if bn <? NINDIRECT then
      addr <- bmap_indirect ip ;;;
      if addr =? 0 then ret 0 else bmap_entry ip addr bn
    else panic "bmap: out of range".

Record stat := mkStat { st_dev : Z; st_ino : Z; st_type : Z; st_nlink : Z; st_size : Z }.

Definition stati (ip : Z) : K st stat :=
  i <- geti ip ;;; ret (mkStat (s32 (i_dev i)) (i_inum i) (i_type i) (i_nlink i) (i_size i)).

(** copyout and copyin (vm.c) copy up to the first byte that is not mapped. *)
Fixpoint copy_prefix (um : gmap Z Z) (dst : Z) (l : list Z) : gmap Z Z * bool :=
  match l with
  | [] => (um, true)
  | c :: l' =>
      match um !! u64 dst with
      | Some _ => copy_prefix (<[u64 dst := c]> um) (dst + 1) l'
      | None => (um, false)
      end
  end.
Fixpoint fetch_prefix (um : gmap Z Z) (src : Z) (n : nat) : list Z * bool :=
  match n with
  | O => ([], true)
  | Datatypes.S n' =>
      match um !! u64 src with
      | Some c => let '(l, ok) := fetch_prefix um (src + 1) n' in (c :: l, ok)
      | None => ([], false)
      end
  end.

(** proc.c: the bytes [l] go to a user or a kernel address. *)
Definition either_copyout (user_dst : bool) (dst : Z) (l : list Z) : K st Z :=
  if user_dst then
    um <- gets umem ;;;
    let '(um', ok) := copy_prefix um dst l in
    modify (set_umem um') ;;; ret (if ok then 0 else -1)
  else m <- gets kmem ;;; modify (set_kmem (wr_bytes m dst l)) ;;; ret 0.

(** proc.c: the bytes that arrive, and whether all of them did. *)
Definition either_copyin (user_src : bool) (src : Z) (n : nat) : K st (list Z * Z) :=
  if user_src then
    um <- gets umem ;;;
    let '(l, ok) := fetch_prefix um src n in ret (l, if ok then 0 else -1)
  else m <- gets kmem ;;; ret (rd_bytes m src n, 0).

(** One round of the loop of readi: at most one block. *)
Definition readi_block (ip : Z) (user_dst : bool) (n : Z) (p : Z * Z * Z) : K st (Z * Z * Z + Z) :=
  let '(tot, off, dst) := p in
  if tot <? n then
    addr <- bmap ip (off / BSIZE) ;;;
    if addr =? 0 then ret (inr tot)
    else
      i <- geti ip ;;;
      bp <- bread (i_dev i) addr ;;;
      let m := Z.min (n - tot) (BSIZE - off mod BSIZE) in
      d <- data bp ;;;
      r <- either_copyout user_dst dst (rd_bytes d (off mod BSIZE) (Z.to_nat m)) ;;;
      if r =? -1 then brelse bp ;;; ret (inr (-1))
      else brelse bp ;;; ret (inl (tot + m, off + m, u64 (dst + m)))
  else ret (inr tot).

Definition readi (ip : Z) (user_dst : bool) (dst off n : Z) : K st Z :=
  i <- geti ip ;;;
  if (i_size i <? off) || (u32 (off + n) <? off) then ret 0
  else
    let n := if i_size i <? u32 (off + n) then i_size i - off else n in
    iter (Datatypes.S (Z.to_nat n)) (readi_block ip user_dst n) (0, off, dst).

(** One round of the loop of writei: the number of bytes written and the
    offset when it ends. *)
Definition writei_block (ip : Z) (user_src : bool) (n : Z) (p : Z * Z * Z) : K st (Z * Z * Z + Z * Z) :=
  let '(tot, off, src) := p in
  if tot <? n then
    addr <- bmap ip (off / BSIZE) ;;;
    if addr =? 0 then ret (inr (tot, off))
    else
      i <- geti ip ;;;
      bp <- bread (i_dev i) addr ;;;
      let m := Z.min (n - tot) (BSIZE - off mod BSIZE) in
      lr <- either_copyin user_src src (Z.to_nat m) ;;;
      let '(l, r) := lr in
      d <- data bp ;;;
      put_data bp (wr_bytes d (off mod BSIZE) l) ;;;
      if r =? -1 then brelse bp ;;; ret (inr (tot, off))
      else
        log_write bp ;;;
        brelse bp ;;;
        ret (inl (tot + m, off + m, u64 (src + m)))
  else ret (inr (tot, off)).

Definition writei (ip : Z) (user_src : bool) (src off n : Z) : K st Z :=
  i <- geti ip ;;;
  if (i_size i <? off) || (u32 (off + n) <? off) then ret (-1)
  else if MAXFILE * BSIZE <? u32 (off + n) then ret (-1)
  else
    r <- iter (Datatypes.S (Z.to_nat n)) (writei_block ip user_src n) (0, off, src) ;;;
    let '(tot, off) := r in
    i <- geti ip ;;;
    (if i_size i <? off then seti ip (set_size off) else ret tt) ;;;
    iupdate ip ;;;
    ret tot.

(** ** Directories *)

Definition namecmp (m : mem) (s t : Z) : Z := strncmp m s t DIRSIZ.

(** The result is the inode and the value of *poff. *)
Definition dirlookup (dp name : Z) : K st (Z * Z) :=
  i <- geti dp ;;;
  if negb (i_type i =? T_DIR) then panic "dirlookup not DIR"
  else
    iter (Datatypes.S (Z.to_nat (i_size i / sizeof_dirent + 1))) (λ off,
      i <- geti dp ;;;
      if off <? i_size i then
        r <- readi dp false de_at off sizeof_dirent ;;;
        if negb (r =? sizeof_dirent) then panic "dirlookup read"
        else
          m <- gets kmem ;;;
          let inum := rd16 m de_at in
          if inum =? 0 then ret (inl (u32 (off + sizeof_dirent)))
          else if namecmp m name (de_at + 2) =? 0 then
            ip <- iget (i_dev i) inum ;;; ret (inr (ip, off))
          else ret (inl (u32 (off + sizeof_dirent)))
      else ret (inr (0, 0))) 0.

Definition dirlink (dp name inum : Z) : K st Z :=
  r <- dirlookup dp name ;;;
  if negb (r.1 =? 0) then iput r.1 ;;; ret (-1)
  else
    i <- geti dp ;;;
    off <- iter (Datatypes.S (Z.to_nat (i_size i / sizeof_dirent + 1))) (λ off,
      i <- geti dp ;;;
      if off <? i_size i then
        r <- readi dp false de_at off sizeof_dirent ;;;
        if negb (r =? sizeof_dirent) then panic "dirlink read"
        else
          m <- gets kmem ;;;
          if rd16 m de_at =? 0 then ret (inr off) else ret (inl (off + sizeof_dirent))
      else ret (inr off)) 0 ;;;
    m <- gets kmem ;;;
    modify (set_kmem (wr16 (strncpy m (de_at + 2) name DIRSIZ) de_at inum)) ;;;
    r <- writei dp false de_at off sizeof_dirent ;;;
    if negb (r =? sizeof_dirent) then ret (-1) else ret 0.

(** ** Path names *)

Definition SLASH : Z := 47.

(** A path is at most MAXPATH bytes long. *)
Definition path_fuel : nat := Z.to_nat (MAXPATH + 1).
Definition scan_while (cond : Z → bool) (path : Z) : K st Z :=
  iter path_fuel (λ p,
    m <- gets kmem ;;; if cond (rd8 m p) then ret (inl (p + 1)) else ret (inr p)) path.

Definition skipelem (path name : Z) : K st Z :=
  path <- scan_while (λ c, c =? SLASH) path ;;;
  m <- gets kmem ;;;
  if rd8 m path =? 0 then ret 0
  else
    let s := path in
    path <- scan_while (λ c, negb (c =? SLASH) && negb (c =? 0)) path ;;;
    let len := path - s in
    m <- gets kmem ;;;
    modify (set_kmem (if len >=? DIRSIZ then memmove m name s DIRSIZ
                      else wr8 (memmove m name s len) (name + len) 0)) ;;;
    scan_while (λ c, c =? SLASH) path.

Definition namex (path : Z) (nameiparent : bool) (name : Z) : K st Z :=
  m <- gets kmem ;;;
  ip <- (if rd8 m path =? SLASH then iget ROOTDEV ROOTINO else (c <- gets cwd ;;; idup c)) ;;;
  r <- iter path_fuel (λ '(path, ip),
    path <- skipelem path name ;;;
    if path =? 0 then ret (inr (inr ip))
    else
      ilock ip ;;;
      i <- geti ip ;;;
      if negb (i_type i =? T_DIR) then iunlockput ip ;;; ret (inr (inl 0))
      else
        m <- gets kmem ;;;
        if nameiparent && (rd8 m path =? 0) then iunlock ip ;;; ret (inr (inl ip))
        else
          next <- dirlookup ip name ;;;
          if next.1 =? 0 then iunlockput ip ;;; ret (inr (inl 0))
          else iunlockput ip ;;; ret (inl (path, next.1))) (path, ip) ;;;
  match r with
  | inl res => ret res
  | inr ip => if nameiparent then iput ip ;;; ret 0 else ret ip
  end.

(** [name_at] is the address of the local name buffer. *)
Definition namei (name_at path : Z) : K st Z := namex path false name_at.
Definition nameiparent (path name : Z) : K st Z := namex path true name.
End Fs.
