(* ===== verification/FsBlock.v ===== *)
(** The block allocator of fs.c: balloc finds the first free block, marks it
    and zeroes it; bfree is its inverse.  The lemmas here are also the access
    rules by which the rest of the file system uses the block store. *)

From S2P Require Import Prelude Mem CString Riscv Spinlock BlockCache TxnStore Log Fs.
Local Open Scope kernel_scope.

(** ** Access to the store *)

(** The transaction after a block was read, changed, recorded and released. *)
Definition wrote (b : Z) (d : block) (t : tstate) : tstate :=
  mkT (put_view b d (tview t)) (tbase t) (theld t) ({[b]} ∪ tlogged t) (tlimit t) (tlo t) (thi t).

Lemma unhold_hold b h t : theld t !! b = None → unhold b (hold b h t) = t.
Proof. intros Hb. unfold unhold, hold. simpl. rewrite delete_insert_id by done. by destruct t. Qed.

Lemma unhold_record b h d t :
  theld t !! b = None → unhold b (record b (change b d (hold b h t))) = wrote b d t.
Proof. intros Hb. unfold unhold, record, change, hold, wrote. simpl. by rewrite delete_insert_id. Qed.

Lemma put_view_eq b d V : put_view b d V b = d.
Proof. unfold put_view. by rewrite decide_True. Qed.
Lemma put_view_ne b d V x : x ≠ b → put_view b d V x = V x.
Proof. intros. unfold put_view. by rewrite decide_False. Qed.

Section Access.
Context {S : Type} `{TS : !TxnStore S}.

(** The file system's state with its store in the transaction [t]. *)
Definition in_txn (s : fsst S) (t : tstate) : Prop := t_rep (store s) t.

Lemma runs_bread b s t (Q : Z → fsst S → Prop) :
  in_txn s t → theld t !! b = None → 0 <= b < 2 ^ 31 → b ∈ tlogged t ∨ room t →
  (∀ h c, in_txn (set_store c s) (hold b h t) → Q h (set_store c s)) →
  runs (bread ROOTDEV b) s Q.
Proof.
  intros R Hh Hb Hr HQ. unfold bread. rewrite u32_small by lia. apply runs_zoom.
  eapply runs_mono; [by apply t_bread_law|]. intros h c Hc. by apply HQ.
Qed.

Lemma runs_data b h s t (Q : block → fsst S → Prop) :
  in_txn s t → theld t !! b = Some h → Q (tview t b) s → runs (data h) s Q.
Proof.
  intros R Hh HQ. apply runs_zoom. eapply runs_mono; [by apply (t_data_law b h _ t)|].
  intros d c [-> ->]. by destruct s.
Qed.

Lemma runs_put_data b h d s t (Q : unit → fsst S → Prop) :
  in_txn s t → theld t !! b = Some h →
  (∀ c, in_txn (set_store c s) (change b d t) → Q tt (set_store c s)) →
  runs (put_data h d) s Q.
Proof.
  intros R Hh HQ. apply runs_zoom. eapply runs_mono; [by apply (t_set_data_law b h d _ t)|].
  intros [] c Hc. by apply HQ.
Qed.

Lemma runs_log_write b h s t (Q : unit → fsst S → Prop) :
  in_txn s t → theld t !! b = Some h → home t b → Z.of_nat (size (tlogged t)) < tlimit t →
  (∀ c, in_txn (set_store c s) (record b t) → Q tt (set_store c s)) →
  runs (log_write h) s Q.
Proof.
  intros R Hh Ho Hl HQ. apply runs_zoom. eapply runs_mono; [by apply (t_log_write_law b h _ t)|].
  intros [] c Hc. by apply HQ.
Qed.

Lemma runs_brelse b h s t (Q : unit → fsst S → Prop) :
  in_txn s t → theld t !! b = Some h → b ∈ tlogged t ∨ tview t b = tbase t b →
  (∀ c, in_txn (set_store c s) (unhold b t) → Q tt (set_store c s)) →
  runs (brelse h) s Q.
Proof.
  intros R Hh Hd HQ. apply runs_zoom. eapply runs_mono; [by apply (t_brelse_law b h _ t)|].
  intros [] c Hc. by apply HQ.
Qed.

Lemma set_store_twice (c c' : S) s : set_store c (set_store c' s) = set_store c s.
Proof. done. Qed.

(** bread, change, log_write, brelse on one block. *)
Lemma runs_update_block b (f : block → block) s t (Q : unit → fsst S → Prop) :
  in_txn s t → theld t !! b = None → home t b → b ∈ tlogged t ∨ room t →
  Z.of_nat (size (tlogged t)) < tlimit t →
  (∀ c, in_txn (set_store c s) (wrote b (f (tview t b)) t) → Q tt (set_store c s)) →
  runs (bp <- bread ROOTDEV b ;;; d <- data bp ;;; put_data bp (f d) ;;; log_write bp ;;; brelse bp) s Q.
Proof.
  intros R Hh Ho Hr Hl HQ. apply runs_bind. eapply runs_bread; [done|done|apply Ho|done|]. intros h c1 R1.
  assert (Hb : theld (hold b h t) !! b = Some h) by apply lookup_insert_eq.
  apply runs_bind. eapply runs_data; [done|done|]. simpl.
  apply runs_bind. eapply runs_put_data; [done|done|]. intros c2 R2.
  apply runs_bind. eapply runs_log_write; [done|done|done|done|]. intros c3 R3.
  eapply runs_brelse; [done|done|left; simpl; set_solver|]. intros c4 R4.
  rewrite unhold_record in R4 by done. rewrite !set_store_twice in *. by apply HQ.
Qed.
End Access.

(** ** The free map *)

(** The bit of block [b] in the free map. *)
Definition used (sb : superblock) (V : Z → block) (b : Z) : bool :=
  Z.testbit (rd8 (V (BBLOCK b sb)) (b mod BPB / 8)) (b mod 8).

(** The disk layout that mkfs produces:
    [ boot | super | log | inodes | free map | data ], with the data from [dstart]. *)
Record layout (sb : superblock) (lo hi dstart : Z) : Prop := {
  ly_log : 1 < lo ∧ lo <= hi ∧ hi <= sb_inodestart sb;
  ly_inodes : 0 <= sb_ninodes sb ∧ sb_inodestart sb + sb_ninodes sb / IPB < sb_bmapstart sb;
  ly_bmap : sb_bmapstart sb + sb_size sb / BPB < dstart;
  ly_size : 0 <= dstart <= sb_size sb ∧ sb_size sb < 2 ^ 31 - 2 ^ 16
}.

Section Bits.
Context (sb : superblock) (lo hi dstart : Z) (L : layout sb lo hi dstart).

Lemma BPB_val : BPB = 8192. Proof. done. Qed.
Lemma IPB_val : IPB = 16. Proof. done. Qed.

Lemma bblock_eq b : 0 <= b < sb_size sb → BBLOCK b sb = b / BPB + sb_bmapstart sb.
Proof.
  intros Hb. destruct L as [? [? ?] ? ?]. unfold BBLOCK. apply u32_small.
  rewrite BPB_val in *. change IPB with 16 in *. Z.div_mod_to_equations. lia.
Qed.

Lemma bblock_range b :
  0 <= b < sb_size sb → sb_bmapstart sb <= BBLOCK b sb < dstart ∧ hi <= BBLOCK b sb.
Proof.
  intros Hb. rewrite bblock_eq by done. destruct L as [? [? ?] ? ?]. rewrite BPB_val in *.
  change IPB with 16 in *. Z.div_mod_to_equations. lia.
Qed.

Lemma bit_mod b : b mod BPB mod 8 = b mod 8.
Proof. rewrite BPB_val. Z.div_mod_to_equations. lia. Qed.

Lemma test_bit x bi : 0 <= bi → (Z.land x (bit_of bi) =? 0) = negb (Z.testbit x (bi mod 8)).
Proof.
  intros Hbi. unfold bit_of. pose proof (Z.mod_pos_bound bi 8 ltac:(lia)) as Hk.
  rewrite Z.shiftl_1_l. destruct (Z.testbit x (bi mod 8)) eqn:E; simpl.
  - apply Z.eqb_neq. intros H. assert (Z.testbit (Z.land x (2 ^ (bi mod 8))) (bi mod 8) = false) as Hf.
    { rewrite H. apply Z.bits_0. }
    rewrite Z.land_spec, E, Z.pow2_bits_true in Hf by lia. done.
  - apply Z.eqb_eq. apply Z.bits_inj'. intros n Hn. rewrite Z.land_spec, Z.bits_0.
    rewrite Z.pow2_bits_eqb by lia. destruct (Z.eqb_spec (bi mod 8) n) as [<-|]; [by rewrite E|apply andb_false_r].
Qed.

Lemma used_free b bno bi :
  0 <= bno → bno mod BPB = 0 → 0 <= bi < BPB → b = bno + bi → 0 <= b < sb_size sb → ∀ V,
  (Z.land (rd8 (V (BBLOCK bno sb)) (bi / 8)) (bit_of bi) =? 0) = negb (used sb V b).
Proof.
  intros H0 Hm Hbi -> Hb V. rewrite test_bit by lia. unfold used. do 2 f_equal.
  - f_equal.
    + f_equal. rewrite !bblock_eq by lia. f_equal. rewrite BPB_val in *. Z.div_mod_to_equations. lia.
    + f_equal. rewrite BPB_val in *. Z.div_mod_to_equations. lia.
  - rewrite BPB_val in *. Z.div_mod_to_equations. lia.
Qed.

(** The free map with the bit of [b] set or cleared. *)
Definition map_byte (b : Z) (f : Z → Z) (d : block) : block :=
  wr8 d (b mod BPB / 8) (f (rd8 d (b mod BPB / 8))).
Definition marked (b : Z) (d : block) : block := map_byte b (λ x, Z.lor x (bit_of (b mod BPB))) d.
Definition cleared (b : Z) (d : block) : block := map_byte b (λ x, Z.land x (Z.lnot (bit_of (b mod BPB)))) d.

Lemma testbit_u8 v k : 0 <= k < 8 → Z.testbit (u8 v) k = Z.testbit v k.
Proof. intros. unfold u8. by rewrite Z.mod_pow2_bits_low by lia. Qed.

Lemma used_map_byte b f V x :
  0 <= b < sb_size sb → 0 <= x < sb_size sb →
  used sb (put_view (BBLOCK b sb) (map_byte b f (V (BBLOCK b sb))) V) x =
    if decide (x / 8 = b / 8) then Z.testbit (f (rd8 (V (BBLOCK b sb)) (b mod BPB / 8))) (x mod 8)
    else used sb V x.
Proof.
  intros Hb Hx. unfold used, put_view, map_byte. pose proof (Z.mod_pos_bound x 8 ltac:(lia)).
  rewrite !bblock_eq, BPB_val by done. destruct (decide (x / 8 = b / 8)) as [E|E].
  - assert (x / 8192 = b / 8192 ∧ x mod 8192 / 8 = b mod 8192 / 8) as [E1 E2] by (Z.div_mod_to_equations; lia).
    rewrite E1, E2, decide_True, rd8_wr8, decide_True by done. by apply testbit_u8.
  - destruct (decide (x / 8192 = b / 8192)) as [E1|E1].
    + rewrite E1, decide_True, rd8_wr8 by done. rewrite decide_False; [done|]. Z.div_mod_to_equations. lia.
    + rewrite decide_False; [done|]. lia.
Qed.

Lemma testbit_bit_of k b : 0 <= k → Z.testbit (bit_of b) k = bool_decide (b mod 8 = k).
Proof.
  intros Hk. unfold bit_of. pose proof (Z.mod_pos_bound b 8 ltac:(lia)).
  rewrite Z.shiftl_1_l, Z.pow2_bits_eqb by lia. by destruct (Z.eqb_spec (b mod 8) k); case_bool_decide.
Qed.

Lemma used_same_byte V x b :
  0 <= b < sb_size sb → 0 <= x < sb_size sb → x / 8 = b / 8 →
  Z.testbit (rd8 (V (BBLOCK b sb)) (b mod BPB / 8)) (x mod 8) = used sb V x.
Proof.
  intros Hb Hx E. unfold used. rewrite !bblock_eq, BPB_val by done.
  assert (x / 8192 = b / 8192 ∧ x mod 8192 / 8 = b mod 8192 / 8) as [E1 E2] by (Z.div_mod_to_equations; lia).
  by rewrite E1, E2.
Qed.

Lemma used_marked b V x :
  0 <= b < sb_size sb → 0 <= x < sb_size sb →
  used sb (put_view (BBLOCK b sb) (marked b (V (BBLOCK b sb))) V) x = if decide (x = b) then true else used sb V x.
Proof.
  intros Hb Hx. pose proof (Z.mod_pos_bound x 8 ltac:(lia)). unfold marked. rewrite used_map_byte by done.
  destruct (decide (x = b)) as [->|Hne].
  - rewrite decide_True by done. rewrite Z.lor_spec, testbit_bit_of, bit_mod by lia.
    rewrite bool_decide_true by done. apply orb_true_r.
  - case_decide as E; [|done]. rewrite Z.lor_spec, testbit_bit_of, bit_mod, used_same_byte by (done || lia).
    rewrite bool_decide_false by (Z.div_mod_to_equations; lia). apply orb_false_r.
Qed.

Lemma used_cleared b V x :
  0 <= b < sb_size sb → 0 <= x < sb_size sb →
  used sb (put_view (BBLOCK b sb) (cleared b (V (BBLOCK b sb))) V) x = if decide (x = b) then false else used sb V x.
Proof.
  intros Hb Hx. pose proof (Z.mod_pos_bound x 8 ltac:(lia)). unfold cleared. rewrite used_map_byte by done.
  destruct (decide (x = b)) as [->|Hne].
  - rewrite decide_True by done. rewrite Z.land_spec, Z.lnot_spec, testbit_bit_of, bit_mod by lia.
    rewrite bool_decide_true by done. apply andb_false_r.
  - case_decide as E; [|done]. rewrite Z.land_spec, Z.lnot_spec, testbit_bit_of, bit_mod, used_same_byte by (done || lia).
    rewrite bool_decide_false by (Z.div_mod_to_equations; lia). apply andb_true_r.
Qed.

(** Blocks that are not in the free map do not change it. *)
Lemma used_data V b d x :
  dstart <= b → 0 <= x < sb_size sb → used sb (put_view b d V) x = used sb V x.
Proof.
  intros Hb Hx. unfold used. rewrite put_view_ne; [done|]. pose proof (bblock_range x Hx). lia.
Qed.
End Bits.

(** ** balloc and bfree *)

(** The file system's invariant on the blocks of a transaction: the layout is
    that of mkfs, and every block before the data is marked in use. *)
Record fs_blocks (sb : superblock) (dstart : Z) (t : tstate) : Prop := {
  fb_layout : layout sb (tlo t) (thi t) dstart;
  fb_meta b : 0 <= b < dstart → used sb (tview t) b = true
}.

(** The buffers held while blocks are allocated are those of blocks in use. *)
Definition held_ok (sb : superblock) (dstart : Z) (t : tstate) : Prop :=
  ∀ b, is_Some (theld t !! b) → dstart <= b < sb_size sb ∧ used sb (tview t) b = true.

(** Room in the cache and in the log for [n] more blocks. *)
Definition space (n : Z) (t : tstate) : Prop :=
  Z.of_nat (size (tlogged t ∪ dom (theld t))) + n < NBUF ∧ Z.of_nat (size (tlogged t)) + n <= tlimit t.

(** Room for what balloc writes: a block of the free map and a data block. *)
Definition alloc_space (sb : superblock) (t : tstate) : Prop :=
  space 1 t ∧ ∀ b d, 0 <= b < sb_size sb → space 1 (wrote (BBLOCK b sb) d t).

(** The transaction after [b] was allocated. *)
Definition allocated (sb : superblock) (b : Z) (t : tstate) : tstate :=
  let t1 := wrote (BBLOCK b sb) (marked b (tview t (BBLOCK b sb))) t in
  wrote b (memset (tview t1 b) 0 0 BSIZE) t1.

(** [b] is the first block that is not in use. *)
Definition first_free (sb : superblock) (V : Z → block) (b : Z) : Prop :=
  0 <= b < sb_size sb ∧ used sb V b = false ∧ ∀ x, 0 <= x < b → used sb V x = true.

Section Alloc.
Context {S : Type} `{TS : !TxnStore S} (dstart : Z).

Lemma size_union_step (b : Z) (A B : gset Z) : (size ({[b]} ∪ A ∪ B) <= Datatypes.S (size (A ∪ B)))%nat.
Proof.
  rewrite <-(assoc_L (∪)), size_union_alt, size_singleton. simpl. apply le_n_S.
  apply subseteq_size. set_solver.
Qed.

Lemma space_room n t : 0 <= n → space n t → room t.
Proof. intros Hn [H _]. unfold room. lia. Qed.

Lemma space_wrote n b d t : 1 <= n → space n t → space (n - 1) (wrote b d t).
Proof.
  intros Hn [H1 H2]. split; simpl.
  - pose proof (size_union_step b (tlogged t) (dom (theld t))). lia.
  - pose proof (size_union_step b (tlogged t) ∅). rewrite !(right_id_L ∅ (∪)) in *. lia.
Qed.

Lemma space_alloc sb t : space 2 t → alloc_space sb t.
Proof. intros H. split; [destruct H; split; lia|]. intros b d _. by apply (space_wrote 2). Qed.

Lemma space_le n m t : m <= n → space n t → space m t.
Proof. intros ? [? ?]. split; lia. Qed.

Lemma bzero_spec b s t (Q : unit → fsst S → Prop) :
  in_txn s t → theld t !! b = None → home t b → space 1 t →
  (∀ c, in_txn (set_store c s) (wrote b (memset (tview t b) 0 0 BSIZE) t) → Q tt (set_store c s)) →
  runs (bzero ROOTDEV b) s Q.
Proof.
  intros R Hh Ho Hsp HQ. unfold bzero.
  apply (runs_update_block b (λ d, memset d 0 0 BSIZE) s t); [done..| | |done].
  - right. by eapply space_room; [|exact Hsp].
  - destruct Hsp. lia.
Qed.

(** A free block is a data block, not held and outside the log. *)
Lemma free_block sb t b :
  fs_blocks sb dstart t → held_ok sb dstart t → 0 <= b < sb_size sb → used sb (tview t) b = false →
  dstart <= b ∧ theld t !! b = None ∧ home t b.
Proof.
  intros F Hh Hb Hf. assert (dstart <= b) as Hd.
  { destruct (decide (dstart <= b)) as [|Hlt]; [done|]. rewrite (fb_meta _ _ _ F) in Hf by lia. done. }
  split_and!; [done| |].
  - destruct (theld t !! b) eqn:E; [|done]. destruct (Hh b) as [_ ?]; [by eexists|]. congruence.
  - destruct (fb_layout _ _ _ F) as [? [? ?] ? ?]. change IPB with 16 in *. change BPB with 8192 in *.
    split; [lia|]. Z.div_mod_to_equations. lia.
Qed.

Lemma bblock_free sb t b :
  fs_blocks sb dstart t → held_ok sb dstart t → 0 <= b < sb_size sb →
  theld t !! BBLOCK b sb = None ∧ home t (BBLOCK b sb) ∧ BBLOCK b sb < dstart.
Proof.
  intros F Hh Hb. pose proof (bblock_range sb _ _ _ (fb_layout _ _ _ F) b Hb) as Hr.
  pose proof (fb_layout _ _ _ F) as [? [? ?] ? ?]. split_and!; [|split|lia].
  - destruct (theld t !! BBLOCK b sb) eqn:E; [|done]. destruct (Hh (BBLOCK b sb)) as [? _]; [by eexists|]. lia.
  - change IPB with 16 in *. change BPB with 8192 in *. Z.div_mod_to_equations. lia.
  - lia.
Qed.

Lemma used_wrote_map sb t b x :
  fs_blocks sb dstart t → 0 <= b < sb_size sb → 0 <= x < sb_size sb →
  used sb (tview (wrote (BBLOCK b sb) (marked b (tview t (BBLOCK b sb))) t)) x =
    if decide (x = b) then true else used sb (tview t) x.
Proof. intros F Hb Hx. eapply used_marked; [apply F|done|done]. Qed.

Lemma balloc_bits_spec s t b h :
  in_txn s (hold (BBLOCK b (sb s)) h t) → fs_blocks (sb s) dstart t → held_ok (sb s) dstart t → alloc_space (sb s) t →
  0 <= b < sb_size (sb s) → b mod BPB = 0 →
  runs (balloc_bits ROOTDEV (sb_size (sb s)) b h) s (λ r s',
    match r with
    | Some x => b <= x < sb_size (sb s) ∧ used (sb s) (tview t) x = false ∧
                (∀ y, b <= y < x → used (sb s) (tview t) y = true) ∧
                ∃ c, s' = set_store c s ∧ in_txn s' (allocated (sb s) x t)
    | None => s' = s ∧ ∀ y, b <= y < Z.min (b + BPB) (sb_size (sb s)) → used (sb s) (tview t) y = true
    end).
Proof.
  intros R F Hh Hsp Hb Hm. set (bm := BBLOCK b (sb s)) in *.
  destruct (bblock_free _ _ _ F Hh Hb) as (Hbh & Hbo & Hbd). fold bm in Hbh, Hbo, Hbd.
  unfold balloc_bits.
  apply (runs_iter _ (λ n bi s', s' = s ∧ 0 <= bi <= BPB ∧ n = Z.to_nat (BPB - bi) ∧
      ∀ y, b <= y < b + bi → y < sb_size (sb s) → used (sb s) (tview t) y = true))
    with (n := Z.to_nat BPB); [|split_and!; [done|done|done|done|lia]|lia].
  intros n bi s' (-> & Hbi & -> & Hu).
  destruct ((bi <? BPB) && (b + bi <? sb_size (sb s))) eqn:Hg.
  2: { kred. split; [done|]. intros y Hy. apply andb_false_iff in Hg as [Hg%Z.ltb_ge|Hg%Z.ltb_ge]; apply Hu; lia. }
  apply andb_true_iff in Hg as [H1%Z.ltb_lt H2%Z.ltb_lt].
  apply runs_bind. eapply (runs_data bm); [done|apply lookup_insert_eq|]. simpl.
  unfold bm. rewrite (used_free (sb s) _ _ _ (fb_layout _ _ _ F) (b + bi)) by (done || lia). fold bm.
  destruct (used (sb s) (tview t) (b + bi)) eqn:Hub; simpl.
  { kred. exists (Z.to_nat (BPB - (bi + 1))). split; [lia|]. split_and!; [done|lia|lia|done|].
    intros y Hy1 Hy2. destruct (decide (y = b + bi)) as [->|]; [done|]. apply Hu; lia. }
  destruct (free_block _ _ _ F Hh (conj (Z.add_nonneg_nonneg b bi ltac:(lia) ltac:(lia)) H2) Hub) as (Hxd & Hxh & Hxo).
  assert (Ebm : BBLOCK (b + bi) (sb s) = bm).
  { unfold bm. rewrite !(bblock_eq (sb s) _ _ _ (fb_layout _ _ _ F)) by lia. f_equal.
    change BPB with 8192 in *. Z.div_mod_to_equations. lia. }
  assert (Emark : wr8 (tview t bm) (bi / 8) (Z.lor (rd8 (tview t bm) (bi / 8)) (bit_of bi)) = marked (b + bi) (tview t bm)).
  { unfold marked, map_byte. replace ((b + bi) mod BPB) with bi; [done|].
    change BPB with 8192 in *. Z.div_mod_to_equations. lia. }
  rewrite Emark. apply runs_bind. eapply (runs_put_data bm); [done|apply lookup_insert_eq|]. intros c1 R1.
  apply runs_bind. eapply (runs_log_write bm); [done|apply lookup_insert_eq|done|simpl; destruct Hsp as [[_ ?] _]; lia|]. intros c2 R2.
  apply runs_bind. eapply (runs_brelse bm); [done|apply lookup_insert_eq|left; simpl; set_solver|]. intros c3 R3.
  rewrite unhold_record in R3 by done. apply runs_bind.
  eapply (bzero_spec (b + bi)); [exact R3|done|done|by apply (proj2 Hsp)|]. intros c4 R4. kred.
  split_and!; [lia|lia|done|intros y Hy; apply Hu; lia|]. exists c4. split; [done|].
  unfold allocated. by rewrite Ebm.
Qed.

Definition out_of_blocks (s : fsst S) : fsst S :=
  mkF (store s) (sb s) (it_lock s) (inodes s) (kmem s) (umem s) (printed s ++ ["balloc: out of blocks"]) (cwd s).

Lemma balloc_spec s t :
  in_txn s t → fs_blocks (sb s) dstart t → held_ok (sb s) dstart t → alloc_space (sb s) t →
  runs (balloc ROOTDEV) s (λ r s', ∃ c,
    (first_free (sb s) (tview t) r ∧ dstart <= r ∧ s' = set_store c s ∧ in_txn s' (allocated (sb s) r t)) ∨
    (r = 0 ∧ (∀ x, 0 <= x < sb_size (sb s) → used (sb s) (tview t) x = true) ∧
     s' = out_of_blocks (set_store c s) ∧ in_txn s' t)).
Proof.
  intros R F Hh Hsp. unfold balloc. kred. set (size := sb_size (sb s)) in *.
  pose proof (ly_size _ _ _ _ (fb_layout _ _ _ F)) as Hsize. fold size in Hsize.
  eapply (runs_mono _ _ (λ (r : option Z) s', ∃ c, s' = set_store c s ∧
      match r with
      | Some x => first_free (sb s) (tview t) x ∧ in_txn s' (allocated (sb s) x t)
      | None => (∀ x, 0 <= x < size → used (sb s) (tview t) x = true) ∧ in_txn s' t
      end)).
  - apply (runs_iter _ (λ n b s', ∃ c, s' = set_store c s ∧ in_txn s' t ∧ 0 <= b ∧ b mod BPB = 0 ∧
        b <= size + BPB ∧ n = Z.to_nat ((size + BPB - b) / BPB) ∧
        ∀ y, 0 <= y < b → y < size → used (sb s) (tview t) y = true))
      with (n := Z.to_nat ((size + BPB) / BPB)).
    + intros n b s' (c & -> & R' & Hb0 & Hbm & Hbs & -> & Hu).
      destruct (Z.ltb_spec b size) as [Hlt|Hge].
      2: { kred. exists c. split; [done|]. split; [|done]. intros x Hx. apply Hu; lia. }
      destruct (bblock_free _ _ _ F Hh (conj Hb0 Hlt)) as (Hbh & Hbo & _). kred.
      eapply (runs_bread (BBLOCK b (sb s))); [exact R'|done|apply Hbo|right; eapply (space_room 1); [lia|apply Hsp]|].
      intros h c1 R1. rewrite set_store_twice in *.
      apply runs_bind. eapply runs_mono; [eapply (balloc_bits_spec (set_store c1 s) t b h); done|].
      intros [x|] s2; simpl.
      * intros (Hx & Hxu & Hxp & c2 & -> & R2). kred. exists c2. split; [done|]. split; [|done].
        split_and!; [lia|fold size; lia|done|]. intros y Hy. destruct (decide (y < b)); [apply Hu; lia|apply Hxp; lia].
      * intros (-> & Hall). kred. eapply (runs_brelse (BBLOCK b (sb s))); [done|apply lookup_insert_eq| |].
        { by apply (t_clean_law _ (store (set_store c s)) t). }
        intros c2 R2. rewrite unhold_hold in R2 by done. kred.
        exists (Z.to_nat ((size + BPB - (b + BPB)) / BPB)).
        split; [change BPB with 8192 in *; Z.div_mod_to_equations; lia|]. exists c2.
        split_and!; try done; try (change BPB with 8192 in *; Z.div_mod_to_equations; lia).
        intros y Hy Hys. destruct (decide (y < b)); [apply Hu; lia|apply Hall; simpl; fold size; lia].
    + exists (store s). split_and!; try done; try lia; [by destruct s| |by rewrite Z.sub_0_r].
      change BPB with 8192. lia.
    + change BPB with 8192. Z.div_mod_to_equations. lia.
  - intros r s' (c & -> & Hr). destruct r as [x|]; kred; exists c.
    + left. destruct Hr as [Hr1 Hr2]. split_and!; try done.
      destruct Hr1 as (Hx & Hxu & _). by destruct (free_block _ _ _ F Hh Hx Hxu) as [? _].
    + right. by destruct Hr.
Qed.

(** The transaction after [b] was freed. *)
Definition freed (sb : superblock) (b : Z) (t : tstate) : tstate :=
  wrote (BBLOCK b sb) (cleared b (tview t (BBLOCK b sb))) t.

(** bfree clears the bit of a block in use, and panics on a free one. *)
Lemma bfree_spec s t b :
  in_txn s t → fs_blocks (sb s) dstart t → held_ok (sb s) dstart t → space 1 t → 0 <= b < sb_size (sb s) →
  if used (sb s) (tview t) b
  then runs (bfree ROOTDEV b) s (λ _ s', ∃ c, s' = set_store c s ∧ in_txn s' (freed (sb s) b t))
  else bfree ROOTDEV b s = Panic "freeing free block".
Proof.
  intros R F Hh Hsp Hb. destruct (bblock_free _ _ _ F Hh Hb) as (Hbh & Hbo & _).
  assert (Hread : runs (bread ROOTDEV (BBLOCK b (sb s))) s (λ h s',
    ∃ c, s' = set_store c s ∧ in_txn s' (hold (BBLOCK b (sb s)) h t))).
  { eapply (runs_bread (BBLOCK b (sb s))); [exact R|done|apply Hbo|right; by eapply (space_room 1)|]. eauto. }
  apply runs_elim in Hread as (h & s1 & E1 & c1 & -> & R1).
  pose proof (used_free (sb s) _ _ _ (fb_layout _ _ _ F) b (b - b mod BPB) (b mod BPB)) as Hbit.
  assert (Eb : BBLOCK (b - b mod BPB) (sb s) = BBLOCK b (sb s)).
  { rewrite !(bblock_eq (sb s) _ _ _ (fb_layout _ _ _ F)); [f_equal| |];
      change BPB with 8192; Z.div_mod_to_equations; lia. }
  specialize (Hbit ltac:(change BPB with 8192; Z.div_mod_to_equations; lia)
    ltac:(change BPB with 8192; Z.div_mod_to_equations; lia)
    ltac:(change BPB with 8192; Z.div_mod_to_equations; lia) ltac:(lia) Hb (tview t)).
  rewrite Eb in Hbit.
  assert (Hdata : runs (data h) (set_store c1 s) (λ d s', d = tview t (BBLOCK b (sb s)) ∧ s' = set_store c1 s)).
  { eapply (runs_data (BBLOCK b (sb s))); [exact R1|apply lookup_insert_eq|done]. }
  apply runs_elim in Hdata as (d & s2 & E2 & -> & ->).
  destruct (used (sb s) (tview t) b) eqn:Hu; unfold bfree.
  - kred. eapply runs_Ok; [exact E1|]. kred. eapply runs_Ok; [exact E2|]. rewrite Hbit. simpl.
    kred. eapply (runs_put_data (BBLOCK b (sb s))); [exact R1|apply lookup_insert_eq|]. intros c2 R2. kred.
    eapply (runs_log_write (BBLOCK b (sb s))); [done|apply lookup_insert_eq|done|simpl; destruct Hsp; lia|]. intros c3 R3.
    eapply (runs_brelse (BBLOCK b (sb s))); [done|apply lookup_insert_eq|left; simpl; set_solver|]. intros c4 R4.
    rewrite unhold_record in R4 by done. exists c4. split; [done|]. exact R4.
  - unfold bind at 1. simpl. rewrite (bind_Ok _ _ _ _ _ E1), (bind_Ok _ _ _ _ _ E2), Hbit. done.
Qed.
(** Allocation and freeing keep the file system's invariant. *)
Lemma used_allocated sb t b x :
  fs_blocks sb dstart t → dstart <= b < sb_size sb → 0 <= x < sb_size sb →
  used sb (tview (allocated sb b t)) x = if decide (x = b) then true else used sb (tview t) x.
Proof.
  intros F Hb Hx. pose proof (ly_size _ _ _ _ (fb_layout _ _ _ F)). unfold allocated. simpl.
  erewrite used_data; [|apply F|lia|done]. eapply used_marked; [apply F|lia|done].
Qed.

Lemma used_freed sb t b x :
  fs_blocks sb dstart t → 0 <= b < sb_size sb → 0 <= x < sb_size sb →
  used sb (tview (freed sb b t)) x = if decide (x = b) then false else used sb (tview t) x.
Proof. intros F Hb Hx. eapply used_cleared; [apply F|done|done]. Qed.

Lemma allocated_blocks sb t b :
  fs_blocks sb dstart t → dstart <= b < sb_size sb → fs_blocks sb dstart (allocated sb b t).
Proof.
  intros F Hb. split; [apply F|]. intros x Hx. rewrite used_allocated by (done || lia).
  case_decide; [done|]. by apply F.
Qed.

Lemma freed_blocks sb t b :
  fs_blocks sb dstart t → dstart <= b < sb_size sb → fs_blocks sb dstart (freed sb b t).
Proof.
  intros F Hb. pose proof (ly_size _ _ _ _ (fb_layout _ _ _ F)).
  split; [apply F|]. intros x Hx. rewrite used_freed by (done || lia).
  case_decide; [lia|]. by apply F.
Qed.

Lemma held_allocated sb t b :
  fs_blocks sb dstart t → dstart <= b < sb_size sb → held_ok sb dstart t → held_ok sb dstart (allocated sb b t).
Proof.
  intros F Hb Hh x Hx. destruct (Hh x Hx) as [? ?]. pose proof (ly_size _ _ _ _ (fb_layout _ _ _ F)).
  split; [done|]. rewrite used_allocated by (done || lia). by case_decide.
Qed.

Lemma allocated_zero sb t b i : 0 <= i < BSIZE → rd8 (tview (allocated sb b t) b) i = 0.
Proof. intros Hi. unfold allocated. simpl. rewrite put_view_eq. rewrite rd8_memset by (unfold BSIZE in *; lia).
  rewrite decide_True by lia. done.
Qed.

Lemma allocated_other sb t b x :
  fs_blocks sb dstart t → dstart <= b < sb_size sb → dstart <= x → x ≠ b →
  tview (allocated sb b t) x = tview t x.
Proof.
  intros F Hb Hx Hne. pose proof (ly_size _ _ _ _ (fb_layout _ _ _ F)).
  pose proof (bblock_range _ _ _ _ (fb_layout _ _ _ F) b ltac:(lia)). unfold allocated. simpl.
  rewrite !put_view_ne by lia. done.
Qed.

(** *** A budget for a transaction

    [B] are blocks that the transaction may write, whose share of the log is
    set aside, and [n] more blocks have room. *)

Definition budget (B : gset Z) (n : Z) (t : tstate) : Prop :=
  Z.of_nat (size (tlogged t ∪ dom (theld t) ∪ B)) + n < NBUF ∧ Z.of_nat (size (tlogged t ∪ B)) + n <= tlimit t.

Lemma size_le (X Y : gset Z) : X ⊆ Y → (size X <= size Y)%nat.
Proof. apply subseteq_size. Qed.
Lemma size_le_1 (b : Z) (X Y : gset Z) : X ⊆ {[b]} ∪ Y → (size X <= Datatypes.S (size Y))%nat.
Proof.
  intros H. etrans; [by apply subseteq_size|]. rewrite size_union_alt, size_singleton. simpl. apply le_n_S.
  apply subseteq_size. set_solver.
Qed.

Lemma budget_space B n t : budget B n t → space n t.
Proof.
  intros [H1 H2]. pose proof (size_le (tlogged t ∪ dom (theld t)) (tlogged t ∪ dom (theld t) ∪ B) ltac:(set_solver)).
  pose proof (size_le (tlogged t) (tlogged t ∪ B) ltac:(set_solver)). split; lia.
Qed.

Lemma budget_le B n m t : m <= n → budget B n t → budget B m t.
Proof. intros ? [? ?]. split; lia. Qed.

(** The budget only depends on which blocks are recorded and held. *)
Lemma budget_sub B B' n t t' :
  tlimit t' = tlimit t → tlogged t' ∪ dom (theld t') ∪ B' ⊆ tlogged t ∪ dom (theld t) ∪ B →
  tlogged t' ∪ B' ⊆ tlogged t ∪ B → budget B n t → budget B' n t'.
Proof. intros E H1%size_le H2%size_le [H3 H4]. split; rewrite ?E; lia. Qed.

Lemma budget_sub_1 b B B' n t t' :
  tlimit t' = tlimit t → tlogged t' ∪ dom (theld t') ∪ B' ⊆ {[b]} ∪ (tlogged t ∪ dom (theld t) ∪ B) →
  tlogged t' ∪ B' ⊆ {[b]} ∪ (tlogged t ∪ B) → budget B n t → budget B' (n - 1) t'.
Proof. intros E H1%size_le_1 H2%size_le_1 [H3 H4]. split; rewrite ?E; lia. Qed.

Lemma budget_in B n b d t : b ∈ tlogged t ∪ B → budget B n t → budget B n (wrote b d t).
Proof. intros Hb. apply budget_sub; simpl; [done|set_solver..]. Qed.
Lemma budget_pay B n b t : budget B n t → budget ({[b]} ∪ B) (n - 1) t.
Proof. apply (budget_sub_1 b); [done|set_solver..]. Qed.
Lemma budget_paid B n b t : b ∈ tlogged t → budget B n t → budget ({[b]} ∪ B) n t.
Proof. intros Hb. apply budget_sub; [done|set_solver..]. Qed.
Lemma budget_drop B n b t : budget ({[b]} ∪ B) n t → budget B n t.
Proof. apply budget_sub; [done|set_solver..]. Qed.
Lemma budget_hold B n b h t : b ∈ tlogged t ∪ B → budget B n t → budget B n (hold b h t).
Proof. intros Hb. apply budget_sub; simpl; [done|rewrite dom_insert_L; set_solver|done]. Qed.

(** [B] has all blocks of the free map. *)
Definition has_map (sb : superblock) (B : gset Z) : Prop := ∀ b, 0 <= b < sb_size sb → BBLOCK b sb ∈ B.

Lemma budget_alloc B n sb t : has_map sb B → 1 <= n → budget B n t → alloc_space sb t.
Proof.
  intros HB Hn Hb. split; [by eapply space_le, budget_space|]. intros b d H. apply (space_le n); [lia|].
  apply (budget_space B). apply budget_in; [|done]. specialize (HB b H). set_solver.
Qed.

Lemma budget_allocated B n sb b t :
  has_map sb B → 0 <= b < sb_size sb → budget B n t → budget B (n - 1) (allocated sb b t).
Proof.
  intros HB Hb. specialize (HB b Hb). apply (budget_sub_1 b); simpl; [done|set_solver..].
Qed.

Lemma allocated_logged sb b t : b ∈ tlogged (allocated sb b t).
Proof. simpl. set_solver. Qed.

Lemma space_allocated n sb b t : 2 <= n → space n t → space (n - 2) (allocated sb b t).
Proof.
  intros Hn Hs. replace (n - 2) with (n - 1 - 1) by lia. unfold allocated.
  apply space_wrote; [lia|]. apply space_wrote; [lia|done].
Qed.

(** [C26] balloc returns the first block that the free map has as free, sets
    its bit and no other, fills the block with zeroes and changes no other
    data block; when every block is in use it returns 0 and changes nothing. *)
Theorem balloc_first_free s t :
  in_txn s t → fs_blocks (sb s) dstart t → held_ok (sb s) dstart t → space 2 t →
  runs (balloc ROOTDEV) s (λ b s', ∃ t',
    in_txn s' t' ∧ fs_blocks (sb s) dstart t' ∧ sb s' = sb s ∧ theld t' = theld t ∧
    ((first_free (sb s) (tview t) b ∧ dstart <= b ∧ printed s' = printed s ∧
      (∀ x, 0 <= x < sb_size (sb s) →
         used (sb s) (tview t') x = if decide (x = b) then true else used (sb s) (tview t) x) ∧
      (∀ i, 0 <= i < BSIZE → rd8 (tview t' b) i = 0) ∧
      (∀ x, dstart <= x → x ≠ b → tview t' x = tview t x)) ∨
     (b = 0 ∧ t' = t ∧ printed s' = printed s ++ ["balloc: out of blocks"] ∧
      ∀ x, 0 <= x < sb_size (sb s) → used (sb s) (tview t) x = true))).
Proof.
  intros R F Hh Hsp. eapply runs_mono; [apply balloc_spec; try done; by apply space_alloc|].
  intros b s' (c & [(Hf & Hd & -> & R')|(-> & Ha & -> & R')]).
  - assert (dstart <= b < sb_size (sb s)) as Hb by (destruct Hf; lia).
    exists (allocated (sb s) b t). split_and!; try done; [by apply allocated_blocks|]. left. split_and!; try done.
    + intros x Hx. by apply used_allocated.
    + intros i Hi. by apply allocated_zero.
    + intros x Hx Hne. by apply allocated_other.
  - exists t. split_and!; try done. by right.
Qed.

(** Freeing the block that balloc returned gives back the free map as it
    was, and freeing it a second time panics. *)
Theorem balloc_bfree s t :
  in_txn s t → fs_blocks (sb s) dstart t → held_ok (sb s) dstart t → space 4 t →
  (∃ x, 0 <= x < sb_size (sb s) ∧ used (sb s) (tview t) x = false) →
  runs (b <- balloc ROOTDEV ;;; bfree ROOTDEV b ;;; ret b) s (λ b s', ∃ t',
    in_txn s' t' ∧ fs_blocks (sb s) dstart t' ∧ theld t' = theld t ∧
    (∀ x, 0 <= x < sb_size (sb s) → used (sb s) (tview t') x = used (sb s) (tview t) x) ∧
    bfree ROOTDEV b s' = Panic "freeing free block").
Proof.
  intros R F Hh Hsp (y & Hy & Hyf). kred. eapply runs_mono; [eapply balloc_spec; [done..|by apply space_alloc, (space_le 4)]|].
  intros b s' (c & [(Hf & Hd & -> & R')|(-> & Ha & _)]); [|by rewrite Ha in Hyf].
  assert (dstart <= b < sb_size (sb s)) as Hb by (destruct Hf; lia).
  pose proof (ly_size _ _ _ _ (fb_layout _ _ _ F)).
  pose proof (allocated_blocks _ _ _ F Hb) as F'. pose proof (held_allocated _ _ _ F Hb Hh) as Hh'.
  pose proof (space_allocated 4 (sb s) b t ltac:(lia) Hsp) as Hsp'.
  pose proof (bfree_spec (set_store c s) _ b R' F' Hh' (space_le 2 1 _ ltac:(lia) Hsp') ltac:(simpl; lia)) as Hfree.
  change (sb (set_store c s)) with (sb s) in Hfree. rewrite used_allocated, decide_True in Hfree by (done || lia).
  kred. eapply runs_mono; [exact Hfree|]. intros [] s' (c' & -> & R2). kred. rewrite set_store_twice in *.
  exists (freed (sb s) b (allocated (sb s) b t)).
  assert (F2 : fs_blocks (sb s) dstart (freed (sb s) b (allocated (sb s) b t))) by by apply freed_blocks.
  split_and!; [done|done|done| |].
  - intros x Hx. rewrite used_freed, used_allocated by (done || lia). case_decide as E; [|done].
    subst x. symmetry. apply Hf.
  - assert (held_ok (sb s) dstart (freed (sb s) b (allocated (sb s) b t))) as Hh2.
    { intros x Hx. destruct (Hh x Hx) as [? Hu]. split; [done|]. rewrite used_freed, used_allocated by (done || lia).
      rewrite !decide_False; [done| |]; intros ->; destruct Hf as (_ & Hf & _); congruence. }
    pose proof (bfree_spec (set_store c' s) _ b R2 F2 Hh2) as Hdbl. change (sb (set_store c' s)) with (sb s) in Hdbl.
    rewrite used_freed, decide_True in Hdbl by (done || lia). apply Hdbl; [|lia].
    by apply (space_wrote 2).
Qed.
End Alloc.


(** ** A small file system, for the witnesses

    Forty blocks: boot and super block, 30 blocks of log, one of inodes at 32,
    the free map at 33, six data blocks of which one is in use. *)

Definition small_sb : superblock := mkSb FSMAGIC 40 6 15 30 2 32 33.
Definition small_map : block := wr_bytes ∅ 0 [255; 255; 255; 255; 7].
Definition small_view : Z → block := put_view 33 small_map (λ _, ∅).
Definition small_txn : tstate := ref_start small_view 10 2 32.
Definition small_fs : fsst tstate :=
  mkF small_txn small_sb false (replicate (Z.to_nat NINODE) (mkInode 0 0 0 initsleeplock false 0 0 0 0 0 (replicate 13 0)))
    ∅ ∅ [] 0.

Lemma small_blocks : fs_blocks small_sb 34 small_txn.
Proof.
  split; [split; vm_compute; repeat split; discriminate|]. intros b Hb.
  assert (forallb (λ n, used small_sb (tview small_txn) (Z.of_nat n)) (seq 0 34) = true) as H by reflexivity.
  rewrite forallb_forall in H. specialize (H (Z.to_nat b)). rewrite Z2Nat.id in H by lia.
  apply H, in_seq. lia.
Qed.

Lemma small_held : held_ok small_sb 34 small_txn.
Proof. intros b [? Hb]. change ((∅ : gmap Z Z) !! b = Some x) in Hb. by rewrite lookup_empty in Hb. Qed.

Lemma small_space n : n <= 10 → space n small_txn.
Proof. intros. split; [change (0 + n < 30); lia|change (0 + n <= 10); lia]. Qed.

Lemma balloc_first_free_witness :
  runs (balloc ROOTDEV) small_fs (λ b s', b = 35 ∧ used small_sb small_view 35 = false).
Proof.
  eapply runs_mono.
  - apply (balloc_first_free 34 small_fs small_txn); [apply ref_start_rep|exact small_blocks|exact small_held|].
    apply small_space. lia.
  - intros b s' (t' & _ & _ & _ & _ & [((? & Hu & Hb) & _)|(_ & _ & _ & Ha)]).
    + split; [|reflexivity]. destruct (Z.lt_trichotomy b 35) as [Hlt|[?|Hgt]]; [|done|].
      * destruct (decide (b < 34)) as [|]; [by rewrite (fb_meta _ _ _ small_blocks) in Hu by lia|].
        replace b with 34 in Hu by lia. discriminate Hu.
      * specialize (Hb 35 ltac:(lia)). discriminate Hb.
    + specialize (Ha 35 ltac:(vm_compute; split; congruence)). discriminate Ha.
Defined.

Lemma balloc_bfree_witness :
  runs (b <- balloc ROOTDEV ;;; bfree ROOTDEV b ;;; ret b) small_fs (λ b s',
    bfree ROOTDEV b s' = Panic "freeing free block").
Proof.
  eapply runs_mono.
  - apply (balloc_bfree 34 small_fs small_txn); [apply ref_start_rep|exact small_blocks|exact small_held| |].
    + apply small_space. lia.
    + exists 35. split; [vm_compute; split; congruence|reflexivity].
  - by intros b s' (t' & _ & _ & _ & _ & ?).
Defined.
