(* ===== verification/FsInode.v ===== *)
(** Inodes of fs.c on disk and in the inode table: the on-disk layout of an
    inode round-trips through iupdate and ilock, and iget keeps at most one
    entry of the table per inode. *)

From S2P Require Import Prelude Mem CString Riscv Spinlock BlockCache TxnStore Log Fs FsBlock.
Local Open Scope kernel_scope.

(** ** The on-disk inode *)

Lemma rd8_wr_addrs d a l x :
  ¬ (a <= x < a + 4 * zlen l) → rd8 (wr_addrs d a l) x = rd8 d x.
Proof.
  revert d a. induction l as [|v l IH]; intros d a Hx; [done|]. cbn [wr_addrs length] in *.
  rewrite IH by lia. unfold wr32. by rewrite rd8_wr_le, decide_False by lia.
Qed.

Lemma rd32_wr_addrs d a l k :
  (k < length l)%nat → rd32 (wr_addrs d a l) (a + 4 * Z.of_nat k) = u32 (default 0 (l !! k)).
Proof.
  revert d a k. induction l as [|v l IH]; intros d a k Hk; [simpl in Hk; lia|]. cbn [wr_addrs length] in *.
  destruct k as [|k]; simpl.
  - rewrite Z.add_0_r. rewrite <-(rd32_wr32_same d a v). apply rd_le_ext. intros b Hb. apply rd8_wr_addrs. lia.
  - replace (a + 4 * Z.of_nat (Datatypes.S k)) with (a + 4 + 4 * Z.of_nat k) by lia. apply IH. lia.
Qed.

Lemma rd_addrs_wr_addrs d a l :
  Forall (λ x, 0 <= x < 2 ^ 32) l → rd_addrs (wr_addrs d a l) a (length l) = l.
Proof.
  intros Hl. apply list_eq. intros k. unfold rd_addrs. rewrite list_lookup_fmap.
  destruct (decide (k < length l)%nat) as [Hk|Hk].
  - rewrite lookup_seq_lt by done. simpl. rewrite rd32_wr_addrs by done.
    destruct (lookup_lt_is_Some_2 l k Hk) as [x Hx]. rewrite Hx. simpl. f_equal. apply u32_small.
    by eapply Forall_lookup_1 in Hl.
  - rewrite lookup_seq_ge, (lookup_ge_None_2 l k) by lia. done.
Qed.

(** The fields of an inode that are on disk, at their C types. *)
Record dinode_ok (i : inode) : Prop := {
  do_type : - 2 ^ 15 <= i_type i < 2 ^ 15;
  do_major : - 2 ^ 15 <= i_major i < 2 ^ 15;
  do_minor : - 2 ^ 15 <= i_minor i < 2 ^ 15;
  do_nlink : - 2 ^ 15 <= i_nlink i < 2 ^ 15;
  do_size : 0 <= i_size i < 2 ^ 32;
  do_length : length (i_addrs i) = Z.to_nat (NDIRECT + 1);
  do_addrs : Forall (λ x, 0 <= x < 2 ^ 32) (i_addrs i)
}.

(** [j] with the on-disk fields of [i]. *)
Definition load (i j : inode) : inode :=
  set_addrs (i_addrs i) (set_meta (i_type i) (i_major i) (i_minor i) (i_nlink i) (i_size i) j).

Lemma rd8_put_dinode d o i x :
  length (i_addrs i) = 13%nat → ¬ (o <= x < o + sizeof_dinode) → rd8 (put_dinode d o i) x = rd8 d x.
Proof.
  intros Hl Hx. change sizeof_dinode with 64 in Hx. unfold put_dinode. rewrite rd8_wr_addrs by lia.
  unfold wr32, wr16. rewrite !rd8_wr_le, !decide_False by lia. done.
Qed.

Lemma rd16_wr_addrs d a l x : x + 2 <= a → rd16 (wr_addrs d a l) x = rd16 d x.
Proof. intros. apply rd_le_ext. intros b ?. apply rd8_wr_addrs. lia. Qed.

Lemma get_put_dinode d o i j : dinode_ok i → get_dinode (put_dinode d o i) o j = load i j.
Proof.
  intros [? ? ? ? ? Hl Ha]. unfold get_dinode, put_dinode, load.
  rewrite !rd16_wr_addrs by lia.
  assert (E : ∀ d v, rd32 (wr_addrs (wr32 d (o + 8) v) (o + 12) (i_addrs i)) (o + 8) = u32 v).
  { intros d' v. rewrite <-(rd32_wr32_same d' (o + 8) v). apply rd_le_ext. intros b ?. apply rd8_wr_addrs. lia. }
  rewrite E, u32_small by done. rewrite <-Hl, rd_addrs_wr_addrs by done.
  rewrite !rd16_wr32_ne by lia.
  repeat first [rewrite rd16_wr16_same | rewrite rd16_wr16_ne by lia].
  rewrite !s16_u16, !s16_small by done. done.
Qed.

Lemma get_dinode_ext d d' o j :
  (∀ x, o <= x < o + sizeof_dinode → rd8 d' x = rd8 d x) → get_dinode d' o j = get_dinode d o j.
Proof.
  intros H. change sizeof_dinode with 64 in H.
  assert (E : ∀ a n, o <= a → a + Z.of_nat n <= o + 64 → rd_le d' a n = rd_le d a n).
  { intros a n ? ?. apply rd_le_ext. intros b ?. apply H. lia. }
  unfold get_dinode, rd16, rd32. rewrite !E by lia. f_equal.
  unfold rd_addrs. apply list_fmap_ext. intros k x Hk. apply lookup_seq in Hk as [-> Hk].
  change (Z.to_nat (NDIRECT + 1)) with 13%nat in Hk. apply E; lia.
Qed.

(** ** Access to the inode table *)

Section Inodes.
Context {S : Type} `{TS : !TxnStore S} (me dstart : Z).

(** [ip] points to the entry [i] of the table. *)
Definition slot (s : fsst S) (ip : Z) (i : inode) : Prop := 1 <= ip ∧ inodes s !! iidx ip = Some i.

Lemma slot_insert s ip i j : slot s ip i → slot (set_inodes (<[iidx ip := j]> (inodes s)) s) ip j.
Proof.
  intros [? H]. split; [done|]. simpl. rewrite list_lookup_insert, decide_True; [done|].
  split; [done|]. by eapply lookup_lt_Some.
Qed.

Lemma slot_insert_ne s ip jp i j :
  slot s ip i → 1 <= jp → jp ≠ ip → slot (set_inodes (<[iidx jp := j]> (inodes s)) s) ip i.
Proof.
  intros [? H] ? ?. split; [done|]. simpl. rewrite list_lookup_insert_ne; [done|]. unfold iidx. lia.
Qed.

Lemma runs_geti ip i s (Q : inode → fsst S → Prop) : slot s ip i → Q i s → runs (geti ip) s Q.
Proof.
  intros [H1 H2] HQ. unfold geti, runs. rewrite H2. destruct (Z.leb_spec 1 ip); [done|lia].
Qed.

Lemma runs_seti ip i f s (Q : unit → fsst S → Prop) :
  slot s ip i → Q tt (set_inodes (<[iidx ip := f i]> (inodes s)) s) → runs (seti ip f) s Q.
Proof.
  intros [H1 H2] HQ. unfold seti, runs. rewrite H2. destruct (Z.leb_spec 1 ip); [done|lia].
Qed.

Lemma runs_on_ilock {A} ip i (m : K sleeplock A) s (Q : A → fsst S → Prop) :
  slot s ip i →
  runs m (i_lock i) (λ a l, Q a (set_inodes (<[iidx ip := set_lock l i]> (inodes s)) s)) →
  runs (on_ilock ip m) s Q.
Proof.
  intros H HQ. unfold on_ilock. apply runs_bind. eapply runs_geti; [exact H|]. by apply runs_zoom.
Qed.

(** ** iupdate and ilock *)

(** The block of inode [n]. *)
Lemma iblock_range sb t n :
  fs_blocks sb dstart t → 0 <= n < sb_ninodes sb →
  IBLOCK n sb = n / IPB + sb_inodestart sb ∧ thi t <= IBLOCK n sb < sb_bmapstart sb.
Proof.
  intros F Hn. destruct (fb_layout _ _ _ F) as [? [? ?] ? ?]. unfold IBLOCK. change BPB with 8192 in *.
  change IPB with 16 in *. rewrite u32_small by (Z.div_mod_to_equations; lia). Z.div_mod_to_equations. lia.
Qed.

Lemma iblock_home sb t n : fs_blocks sb dstart t → 0 <= n < sb_ninodes sb → home t (IBLOCK n sb).
Proof.
  intros F Hn. destruct (iblock_range _ _ _ F Hn) as [E ?]. destruct (fb_layout _ _ _ F) as [? [? ?] ? ?].
  change BPB with 8192 in *. split; [|lia]. Z.div_mod_to_equations. lia.
Qed.

(** Writing a block before the free map does not change it. *)
Lemma blocks_wrote_meta sb t b d :
  fs_blocks sb dstart t → b < sb_bmapstart sb → fs_blocks sb dstart (wrote b d t).
Proof.
  intros F Hb. split; [apply F|]. intros x Hx. unfold used. simpl. rewrite put_view_ne; [by apply F|].
  pose proof (ly_size _ _ _ _ (fb_layout _ _ _ F)).
  pose proof (bblock_range _ _ _ _ (fb_layout _ _ _ F) x ltac:(lia)). lia.
Qed.

(** Inode [n] as it is on disk, read into [j]. *)
Definition on_disk (sb : superblock) (V : Z → block) (n : Z) (j : inode) : inode :=
  get_dinode (V (IBLOCK n sb)) (dip_off n) j.

(** The transaction after inode [i] was written to its block. *)
Definition updated (sb : superblock) (i : inode) (t : tstate) : tstate :=
  let b := IBLOCK (i_inum i) sb in wrote b (put_dinode (tview t b) (dip_off (i_inum i)) i) t.

Lemma on_disk_updated sb t i n j :
  fs_blocks sb dstart t → dinode_ok i → 0 <= i_inum i < sb_ninodes sb → 0 <= n < sb_ninodes sb →
  on_disk sb (tview (updated sb i t)) n j =
    if decide (n = i_inum i) then load i j else on_disk sb (tview t) n j.
Proof.
  intros F Hi Hm Hn. unfold on_disk, updated. simpl.
  destruct (iblock_range _ _ _ F Hm) as [Em _], (iblock_range _ _ _ F Hn) as [En _].
  case_decide as E; [subst n; by rewrite put_view_eq, get_put_dinode|].
  destruct (decide (IBLOCK n sb = IBLOCK (i_inum i) sb)) as [Eb|Eb]; [|by rewrite put_view_ne].
  rewrite Eb, put_view_eq. apply get_dinode_ext. intros x Hx.
  apply rd8_put_dinode; [apply Hi|]. rewrite Em, En in Eb. unfold dip_off in *.
  change IPB with 16 in *. change sizeof_dinode with 64 in *. Z.div_mod_to_equations. lia.
Qed.

Lemma iupdate_spec s t ip i (Q : unit → fsst S → Prop) :
  in_txn s t → fs_blocks (sb s) dstart t → slot s ip i → i_dev i = ROOTDEV →
  0 <= i_inum i < sb_ninodes (sb s) → theld t !! IBLOCK (i_inum i) (sb s) = None → space 1 t →
  (∀ c, in_txn (set_store c s) (updated (sb s) i t) → Q tt (set_store c s)) →
  runs (iupdate ip) s Q.
Proof.
  intros R F Hs Hd Hn Hh Hsp HQ. unfold iupdate. apply runs_bind. eapply runs_geti; [done|].
  apply runs_bind, runs_gets. rewrite Hd.
  eapply (runs_update_block (IBLOCK (i_inum i) (sb s)) (λ d, put_dinode d (dip_off (i_inum i)) i)); try done.
  - by apply iblock_home.
  - right. by eapply (space_room 1).
  - destruct Hsp. lia.
Qed.

(** ilock reads an inode that is not valid yet from its block. *)
Lemma ilock_load s t ip i (Q : unit → fsst S → Prop) :
  in_txn s t → fs_blocks (sb s) dstart t → slot s ip i → i_dev i = ROOTDEV →
  0 <= i_inum i < sb_ninodes (sb s) → theld t !! IBLOCK (i_inum i) (sb s) = None → room t →
  1 <= i_ref i → sl_lk (i_lock i) = false → sl_locked (i_lock i) = false → i_valid i = false →
  let i' := set_valid true (on_disk (sb s) (tview t) (i_inum i)
              (set_lock (mkSleep true me false (sl_woken (i_lock i))) i)) in
  i_type i' ≠ 0 →
  (∀ c, in_txn (set_store c s) t →
     Q tt (set_inodes (<[iidx ip := i']> (inodes s)) (set_store c s))) →
  runs (ilock me ip) s Q.
Proof.
  intros R F Hs Hd Hn Hh Hr Href Hl1 Hl2 Hv i' Hty HQ. unfold ilock. destruct (Z.eqb_spec ip 0); [destruct Hs; lia|].
  kred. eapply runs_geti; [done|]. destruct (Z.ltb_spec (i_ref i) 1); [lia|].
  kred. eapply runs_on_ilock; [done|]. apply runs_acquiresleep; [done..|].
  set (i1 := set_lock _ i). kred. eapply (runs_geti _ i1); [by eapply slot_insert|].
  change (i_valid i1) with (i_valid i). rewrite Hv. simpl.
  kred. change (i_dev i1) with (i_dev i). rewrite Hd. change (i_inum i1) with (i_inum i).
  set (b := IBLOCK (i_inum i) (sb s)) in *. simpl. fold b.
  eapply (runs_bread b _ t); [exact R|done|apply (iblock_home _ _ _ F Hn)|by right|]. intros h c R1. kred.
  eapply (runs_data b); [exact R1|apply lookup_insert_eq|]. kred.
  eapply (runs_seti _ i1); [by eapply slot_insert|]. kred. simpl.
  eapply (runs_brelse b); [exact R1|apply lookup_insert_eq|by apply (t_clean_law b _ _ R)|]. intros c2 R2.
  rewrite unhold_hold in R2 by done. kred. rewrite list_insert_insert_eq.
  set (i2 := get_dinode _ _ i1).
  eapply (runs_seti _ i2); [split; [apply Hs|]; simpl|]. 
  { rewrite list_lookup_insert, decide_True; [done|]. split; [done|]. eapply lookup_lt_Some, Hs. }
  simpl. rewrite list_insert_insert_eq. kred. change (set_valid true i2) with i'.
  eapply (runs_geti _ i'); [split; [apply Hs|]; simpl|].
  { rewrite list_lookup_insert, decide_True; [done|]. split; [done|]. eapply lookup_lt_Some, Hs. }
  destruct (Z.eqb_spec (i_type i') 0); [done|]. kred. by apply HQ.
Qed.
(** What iupdate writes is what ilock reads back: after iupdate of one
    entry of the table, locking an invalid entry for the same inode makes it
    valid with the same type, device numbers, link count, size and block
    addresses, and every other inode on disk is as it was. *)
Theorem iupdate_ilock s t ip jp i j :
  in_txn s t → fs_blocks (sb s) dstart t → theld t = ∅ → space 1 t →
  slot s ip i → dinode_ok i → i_type i ≠ 0 → i_dev i = ROOTDEV → 0 <= i_inum i < sb_ninodes (sb s) →
  slot s jp j → i_dev j = ROOTDEV → i_inum j = i_inum i → i_valid j = false → 1 <= i_ref j →
  sl_lk (i_lock j) = false → sl_locked (i_lock j) = false →
  runs (iupdate ip ;;; ilock me jp) s (λ _ s', ∃ j' t',
    in_txn s' t' ∧ fs_blocks (sb s) dstart t' ∧ theld t' = ∅ ∧ slot s' jp j' ∧
    i_valid j' = true ∧ sl_locked (i_lock j') = true ∧ sl_pid (i_lock j') = me ∧
    i_inum j' = i_inum i ∧ i_ref j' = i_ref j ∧
    i_type j' = i_type i ∧ i_major j' = i_major i ∧ i_minor j' = i_minor i ∧
    i_nlink j' = i_nlink i ∧ i_size j' = i_size i ∧ i_addrs j' = i_addrs i ∧
    ∀ n k, 0 <= n < sb_ninodes (sb s) → n ≠ i_inum i →
      on_disk (sb s) (tview t') n k = on_disk (sb s) (tview t) n k).
Proof.
  intros R F Hh Hsp Hi Hok Hty Hid Hin Hj Hjd Hjn Hjv Hjr Hl1 Hl2. apply runs_bind.
  eapply iupdate_spec; try done; [by rewrite Hh|]. intros c R1.
  set (t1 := updated (sb s) i t) in *.
  assert (F1 : fs_blocks (sb s) dstart t1).
  { apply blocks_wrote_meta; [done|]. by destruct (iblock_range _ _ _ F Hin) as [_ [_ ?]]. }
  assert (Hr1 : room t1) by (apply (space_room 0); [lia|]; by apply (space_wrote 1)).
  assert (Ed : ∀ k, on_disk (sb s) (tview t1) (i_inum j) k = load i k).
  { intros k. unfold t1. rewrite on_disk_updated, decide_True; try done. by rewrite Hjn. }
  eapply (ilock_load (set_store c s) t1 jp j); try done; cbv zeta; change (sb (set_store c s)) with (sb s).
  - by rewrite Hjn.
  - change (theld t1) with (theld t). by rewrite Hh.
  - by rewrite Ed.
  - intros c2 R2. rewrite Ed. set (j' := set_valid true _). exists j', t1.
    split_and!; try done; [|intros n k Hn Hne].
    + by apply (slot_insert (set_store c2 s) jp j).
    + unfold t1. by rewrite on_disk_updated, decide_False.
Qed.

(** ** The inode table *)

Definition names (dev inum : Z) (i : inode) : Prop := 0 < i_ref i ∧ i_dev i = dev ∧ i_inum i = inum.

(** At most one entry of the table is in use for an inode. *)
Record itable_ok (l : list inode) : Prop := {
  it_length : length l = Z.to_nat NINODE;
  it_refs k i : l !! k = Some i → 0 <= i_ref i < 2 ^ 31;
  it_unique k1 k2 i1 i2 dev inum :
    l !! k1 = Some i1 → l !! k2 = Some i2 → names dev inum i1 → names dev inum i2 → k1 = k2
}.

(** The number of references to an inode. *)
Definition refs (dev inum : Z) (l : list inode) : Z :=
  foldr Z.add 0 ((λ i, if (i_ref i >? 0) && (i_dev i =? dev) && (i_inum i =? inum) then i_ref i else 0) <$> l).

Lemma names_test dev inum i :
  (i_ref i >? 0) && (i_dev i =? dev) && (i_inum i =? inum) = true ↔ names dev inum i.
Proof. unfold names. rewrite !andb_true_iff, Z.gtb_lt, !Z.eqb_eq. tauto. Qed.

Lemma refs_cons dev inum i l :
  refs dev inum (i :: l) =
    (if (i_ref i >? 0) && (i_dev i =? dev) && (i_inum i =? inum) then i_ref i else 0) + refs dev inum l.
Proof. done. Qed.

Lemma refs_0 dev inum l : (∀ k i, l !! k = Some i → ¬ names dev inum i) → refs dev inum l = 0.
Proof.
  induction l as [|i l IH]; intros H; [done|]. rewrite refs_cons.
  destruct (_ && _ && _) eqn:E; [by apply names_test, (H 0%nat) in E|].
  rewrite IH; [done|]. intros k. apply (H (Datatypes.S k)).
Qed.

Lemma refs_one dev inum l k i :
  l !! k = Some i → names dev inum i →
  (∀ k' i', l !! k' = Some i' → names dev inum i' → k' = k) → refs dev inum l = i_ref i.
Proof.
  revert k. induction l as [|x l IH]; intros [|k] Hk Hn Hu; try done; rewrite refs_cons.
  - simplify_eq/=. apply names_test in Hn. rewrite Hn. rewrite refs_0; [lia|].
    intros k' i' Hk' Hn'. by specialize (Hu (Datatypes.S k') i' Hk' Hn').
  - destruct (_ && _ && _) eqn:E.
    { apply names_test in E. by specialize (Hu 0%nat x eq_refl E). }
    rewrite (IH k); [done|done|done|]. intros k' i' Hk' Hn'. by specialize (Hu (Datatypes.S k') i' Hk' Hn') as [=].
Qed.
Lemma itable_insert l k i i' :
  itable_ok l → l !! k = Some i → 0 <= i_ref i' < 2 ^ 31 →
  (∀ k2 i2 dev inum, k2 ≠ k → l !! k2 = Some i2 → names dev inum i2 → ¬ names dev inum i') →
  itable_ok (<[k := i']> l).
Proof.
  intros [H1 H2 H3] Hk Hr Hn. split.
  - by rewrite length_insert.
  - intros k' x [[-> ->]|[? ?]]%list_insert_cases; eauto.
  - intros k1 k2 i1 i2 dev inum [[-> ->]|[? ?]]%list_insert_cases [[-> ->]|[? ?]]%list_insert_cases N1 N2;
      [done|by edestruct Hn|by edestruct Hn|by eapply H3].
Qed.

(** The search of iget: the entry of the inode, or the first free one. *)
Definition iget_search (dev inum : Z) : K (fsst S) (Z + Z) :=
  iter (Datatypes.S (Z.to_nat NINODE)) (λ '(ip, empty),
    if ip <? 1 + NINODE then
      i <- geti ip ;;;
      if (i_ref i >? 0) && (i_dev i =? dev) && (i_inum i =? inum) then
        seti ip (λ i, set_ref (s32 (i_ref i + 1)) i) ;;; release_it ;;; ret (inr (inl ip))
      else
        let empty := if (empty =? 0) && (i_ref i =? 0) then ip else empty in
        ret (inl (ip + 1, empty))
    else ret (inr (inr empty))) (1, 0).

Lemma iget_search_spec dev inum s :
  itable_ok (inodes s) → it_lock s = true →
  runs (iget_search dev inum) s (λ r s',
    match r with
    | inl ip => ∃ i, slot s ip i ∧ names dev inum i ∧
        s' = set_it_lock false (set_inodes (<[iidx ip := set_ref (s32 (i_ref i + 1)) i]> (inodes s)) s)
    | inr e => s' = s ∧ (∀ k i, inodes s !! k = Some i → ¬ names dev inum i) ∧
        if e =? 0 then ∀ k i, inodes s !! k = Some i → 0 < i_ref i
        else ∃ i, slot s e i ∧ i_ref i = 0
    end).
Proof.
  intros I Hlk. pose proof (it_length _ I) as Hlen. unfold iget_search.
  apply (runs_iter _ (λ n '(ip, e) s', s' = s ∧ 1 <= ip <= 1 + NINODE ∧ n = Z.to_nat (1 + NINODE - ip) ∧
      (∀ k i, (k < iidx ip)%nat → inodes s !! k = Some i → ¬ names dev inum i) ∧
      if e =? 0 then ∀ k i, (k < iidx ip)%nat → inodes s !! k = Some i → 0 < i_ref i
      else ∃ i, slot s e i ∧ i_ref i = 0)) with (n := Z.to_nat NINODE); [|split_and!; try done; simpl|].
  - intros n [ip e] s' (-> & Hip & -> & Hno & He). unfold NINODE in *. destruct (Z.ltb_spec ip (1 + 50)).
    2: { kred. assert (∀ k i, inodes s !! k = Some i → (k < iidx ip)%nat) as Hk.
         { intros k i Hk%lookup_lt_Some. unfold iidx. lia. }
         split; [done|]. split; [eauto|]. destruct (e =? 0); [eauto|done]. }
    destruct (lookup_lt_is_Some_2 (inodes s) (iidx ip)) as [i Hi]; [unfold iidx; lia|].
    assert (Hsl : slot s ip i) by (split; [lia|done]).
    kred. eapply (runs_geti _ i); [done|]. destruct (_ && _ && _) eqn:E.
    + kred. eapply (runs_seti _ i); [done|]. kred. apply runs_release_flag; [done|]. kred. exists i.
      split; [done|]. split; [by apply names_test|done].
    + kred. exists (Z.to_nat (1 + 50 - (ip + 1))). split; [lia|]. split_and!; try done; try lia.
      * intros k j Hk Hj Hn. destruct (decide (k = iidx ip)) as [->|].
        -- rewrite Hi in Hj. simplify_eq. apply names_test in Hn. congruence.
        -- eapply Hno; [|done..]. unfold iidx in *. lia.
      * destruct (Z.eqb_spec e 0) as [->|Hne]; simpl.
        -- destruct (Z.eqb_spec (i_ref i) 0) as [Er|Er].
           ++ destruct (Z.eqb_spec ip 0); [lia|]. by exists i.
           ++ simpl. intros k j Hk Hj. destruct (decide (k = iidx ip)) as [->|].
              ** rewrite Hi in Hj. simplify_eq. pose proof (it_refs _ I _ _ Hi). lia.
              ** apply (He k); [|done]. unfold iidx in *. lia.
        -- destruct (Z.eqb_spec e 0); done.
  - intros k i Hk. unfold iidx in Hk. lia.
  - intros k i Hk. unfold iidx in Hk. lia.
  - lia.
Qed.

Lemma iget_search_eq dev inum :
  iget dev inum = (acquire_it ;;; r <- iget_search dev inum ;;;
    match r with
    | inl ip => ret ip
    | inr empty =>
        if empty =? 0 then panic "iget: no inodes"
        else seti empty (set_id dev inum 1 false) ;;; release_it ;;; ret empty
    end).
Proof. done. Qed.

(** iget returns the table's entry for an inode, with one more reference
    to it; the entry is the only one for that inode, other entries do not
    change, and a new entry is not valid.  It panics only when every entry is
    in use for another inode. *)
Theorem iget_unique dev inum s :
  itable_ok (inodes s) → it_lock s = false → refs dev inum (inodes s) < 2 ^ 31 - 1 →
  if bool_decide (refs dev inum (inodes s) = 0 ∧ Forall (λ i, 0 < i_ref i) (inodes s))
  then iget dev inum s = Panic "iget: no inodes"
  else runs (iget dev inum) s (λ ip s', ∃ i,
    slot s' ip i ∧ names dev inum i ∧ itable_ok (inodes s') ∧ it_lock s' = false ∧ store s' = store s ∧
    i_ref i = refs dev inum (inodes s) + 1 ∧ refs dev inum (inodes s') = refs dev inum (inodes s) + 1 ∧
    (refs dev inum (inodes s) = 0 → i_valid i = false) ∧
    ∀ k, k ≠ iidx ip → inodes s' !! k = inodes s !! k).
Proof.
  intros I Hlk Hmax. rewrite iget_search_eq.
  pose proof (iget_search_spec dev inum (set_it_lock true s) I eq_refl) as Hs.
  apply runs_elim in Hs as (r & s1 & E & Hr).
  assert (Eacq : acquire_it s = Ok tt (set_it_lock true s)) by (unfold acquire_it, acquire_flag; by rewrite Hlk).
  destruct r as [ip|e].
  - destruct Hr as (i & Hsl & Hn & ->). destruct Hsl as [Hip Hi]. simpl in Hi.
    assert (Erefs : refs dev inum (inodes s) = i_ref i).
    { eapply refs_one; [exact Hi|done|]. intros k' i' Hk' Hn'. by eapply (it_unique _ I). }
    rewrite Erefs in *. pose proof (it_refs _ I _ _ Hi) as Hri.
    rewrite bool_decide_false by (destruct Hn; lia).
    eapply runs_bind, runs_Ok; [exact Eacq|]. eapply runs_bind, runs_Ok; [exact E|].
    kred. rewrite s32_small by lia.
    set (i' := set_ref (i_ref i + 1) i). exists i'.
    assert (Hn' : names dev inum i') by (destruct Hn as (? & ? & ?); split_and!; [simpl; lia|done|done]).
    assert (I' : itable_ok (<[iidx ip := i']> (inodes s))).
    { eapply itable_insert; [done|exact Hi|simpl; lia|]. intros k2 i2 dv nm Hne Hk2 N2 N'.
      apply Hne. eapply (it_unique _ I); [exact Hk2|exact Hi|exact N2|].
      destruct N' as (? & ? & ?). destruct Hn as (? & _). by split_and!. }
    assert (Hsl' : <[iidx ip := i']> (inodes s) !! iidx ip = Some i').
    { rewrite list_lookup_insert, decide_True; [done|]. split; [done|]. by eapply lookup_lt_Some. }
    split_and!; try done.
    + simpl. rewrite (refs_one dev inum _ _ _ Hsl' Hn'); [done|]. intros k' j' Hk' Nj. by eapply (it_unique _ I').
    + intros. destruct Hn. lia.
    + intros k Hk. simpl. by rewrite list_lookup_insert_ne.
  - destruct Hr as (-> & Hno & He). rewrite (refs_0 dev inum (inodes s)) by exact Hno.
    destruct (Z.eqb_spec e 0) as [->|Hne].
    + rewrite bool_decide_true.
      * erewrite bind_Ok by exact Eacq. erewrite bind_Ok by exact E. done.
      * split; [done|]. apply Forall_lookup. exact He.
    + destruct He as (i & [Hip Hi] & Hr0). simpl in Hi. rewrite bool_decide_false.
      2: { intros [_ Hall]. eapply Forall_lookup_1 in Hall; [|exact Hi]. simpl in Hall. lia. }
      set (i' := set_id dev inum 1 false i).
      assert (Hn' : names dev inum i') by by split_and!.
      assert (I' : itable_ok (<[iidx e := i']> (inodes s))).
      { eapply itable_insert; [done|exact Hi|simpl; lia|]. intros k2 i2 dv nm _ Hk2 N2 (_ & E1 & E2).
        simpl in E1, E2. subst. by eapply Hno. }
      assert (Hsl' : <[iidx e := i']> (inodes s) !! iidx e = Some i').
      { rewrite list_lookup_insert, decide_True; [done|]. split; [done|]. by eapply lookup_lt_Some. }
      eapply runs_bind, runs_Ok; [exact Eacq|]. eapply runs_bind, runs_Ok; [exact E|].
      cbv beta iota. rewrite (proj2 (Z.eqb_neq e 0)) by done. kred. eapply (runs_seti _ i); [by split|].
      kred. apply runs_release_flag; [done|]. kred. exists i'. split_and!; try done.
      * simpl. fold i'. rewrite (refs_one dev inum _ _ _ Hsl' Hn'); [done|].
        intros k' j' Hk' Nj. by eapply (it_unique _ I').
      * intros k Hk. simpl. by rewrite list_lookup_insert_ne.
Qed.
End Inodes.

(** ** Witnesses *)

Definition file_inode (valid : bool) : inode :=
  mkInode ROOTDEV 1 1 initsleeplock valid T_FILE 0 0 1 5 (34 :: replicate 12 0).
Definition blank_inode : inode := mkInode ROOTDEV 1 1 initsleeplock false 0 0 0 0 0 (replicate 13 0).

Lemma file_inode_ok v : dinode_ok (file_inode v).
Proof. split; try done. repeat constructor; done. Qed.

Lemma iupdate_ilock_witness :
  runs (iupdate 1 ;;; ilock 7 2) (set_inodes [file_inode true; blank_inode] small_fs)
    (λ _ s', ∃ j', slot s' 2 j' ∧ i_type j' = T_FILE ∧ i_size j' = 5 ∧ addr_at j' 0 = 34).
Proof.
  eapply runs_mono.
  - apply (iupdate_ilock 7 34 (set_inodes [file_inode true; blank_inode] small_fs) small_txn 1 2
      (file_inode true) blank_inode);
      [apply ref_start_rep|exact small_blocks|reflexivity|apply small_space; lia|split; [lia|reflexivity]
      |apply file_inode_ok|discriminate|reflexivity|split; reflexivity || discriminate
      |split; [lia|reflexivity]|reflexivity..|discriminate|reflexivity|reflexivity].
  - intros _ s' (j' & t' & _ & _ & _ & Hs & _ & _ & _ & _ & _ & Ht & _ & _ & _ & Hz & Ha & _).
    exists j'. split_and!; [done|done|done|]. unfold addr_at. by rewrite Ha.
Defined.

Lemma small_itable : itable_ok (inodes small_fs).
Proof.
  split; [done| |].
  - intros k i [-> _]%lookup_replicate. simpl. lia.
  - intros k1 k2 i1 i2 dev inum [-> _]%lookup_replicate _ [? _]. simpl in *. lia.
Qed.

Lemma iget_unique_witness :
  runs (iget ROOTDEV ROOTINO) small_fs (λ ip s', ∃ i, slot s' ip i ∧ i_inum i = ROOTINO ∧ i_ref i = 1).
Proof.
  pose proof (iget_unique ROOTDEV ROOTINO small_fs small_itable eq_refl) as H.
  assert (E : refs ROOTDEV ROOTINO (inodes small_fs) = 0) by reflexivity.
  rewrite E in H. specialize (H ltac:(lia)). rewrite bool_decide_false in H.
  - eapply runs_mono; [exact H|]. intros ip s' (i & Hs & (_ & _ & Hn) & _ & _ & _ & Hr & _). exists i. exact (conj Hs (conj Hn Hr)).
  - intros [_ Hall]. apply (Forall_lookup_1 _ _ 0%nat (mkInode 0 0 0 initsleeplock false 0 0 0 0 0 (replicate 13 0))) in Hall; [|reflexivity]. discriminate Hall.
Defined.
