(* ===== verification/FsFile.v ===== *)
(** The contents of files in fs.c: bmap gives every block of a file a disk
    block of its own, readi returns the bytes of a file and writei changes
    exactly the bytes it is given. *)

From S2P Require Import Prelude Mem CString Riscv Spinlock BlockCache TxnStore Log Fs FsBlock FsInode.
Local Open Scope kernel_scope.

(** ** The blocks of a file *)

Lemma MAXFILE_val : MAXFILE = 268. Proof. done. Qed.

(** The disk block of block [bn] of the file with inode [i], 0 for none. *)
Definition block_of (V : Z → block) (i : inode) (bn : Z) : Z :=
  if bn <? NDIRECT then addr_at i bn
  else if addr_at i NDIRECT =? 0 then 0
  else rd32 (V (addr_at i NDIRECT)) (4 * (bn - NDIRECT)).

(** A data block that the free map has in use. *)
Definition in_use (sb : superblock) (dstart : Z) (V : Z → block) (b : Z) : Prop :=
  dstart <= b < sb_size sb ∧ used sb V b = true.

(** No block is used twice by a file, and all of them are in use. *)
Record file_ok (sb : superblock) (dstart : Z) (V : Z → block) (i : inode) : Prop := {
  fo_length : length (i_addrs i) = 13%nat;
  fo_ind : addr_at i NDIRECT ≠ 0 → in_use sb dstart V (addr_at i NDIRECT);
  fo_data k : 0 <= k < MAXFILE → block_of V i k ≠ 0 →
    in_use sb dstart V (block_of V i k) ∧ block_of V i k ≠ addr_at i NDIRECT;
  fo_inj k k' : 0 <= k < MAXFILE → 0 <= k' < MAXFILE → block_of V i k ≠ 0 →
    block_of V i k = block_of V i k' → k = k'
}.

Lemma addr_at_set i n m x :
  length (i_addrs i) = 13%nat → 0 <= n < 13 → 0 <= m →
  addr_at (set_addr n x i) m = if decide (m = n) then x else addr_at i m.
Proof.
  intros Hl Hn Hm. unfold addr_at, set_addr. simpl. rewrite list_lookup_insert.
  case_decide as E; case_decide as E'; try done; subst; exfalso.
  - apply E'. destruct E. lia.
  - apply E. lia.
Qed.

Lemma block_of_direct V i bn : bn < NDIRECT → block_of V i bn = addr_at i bn.
Proof. intros. unfold block_of. by destruct (Z.ltb_spec bn NDIRECT); [|lia]. Qed.

Lemma block_of_indirect V i bn :
  NDIRECT <= bn → addr_at i NDIRECT ≠ 0 →
  block_of V i bn = rd32 (V (addr_at i NDIRECT)) (4 * (bn - NDIRECT)).
Proof.
  intros. unfold block_of. destruct (Z.ltb_spec bn NDIRECT); [lia|].
  by destruct (Z.eqb_spec (addr_at i NDIRECT) 0).
Qed.

Lemma block_of_ext V V' i bn :
  (addr_at i NDIRECT ≠ 0 → V' (addr_at i NDIRECT) = V (addr_at i NDIRECT)) → block_of V' i bn = block_of V i bn.
Proof.
  intros H. unfold block_of. destruct (bn <? NDIRECT); [done|].
  destruct (Z.eqb_spec (addr_at i NDIRECT) 0); [done|]. by rewrite H.
Qed.

Section Files.
Context (sb : superblock) (dstart : Z) (t : tstate) (F : fs_blocks sb dstart t).

Lemma dstart_pos : 0 < dstart.
Proof.
  destruct (fb_layout _ _ _ F) as [? [? ?] ? ?]. change IPB with 16 in *. change BPB with 8192 in *.
  Z.div_mod_to_equations. lia.
Qed.

(** Allocating a block changes neither the file nor its contents. *)
Lemma in_use_allocated r b :
  dstart <= r < sb_size sb → in_use sb dstart (tview t) b → in_use sb dstart (tview (allocated sb r t)) b.
Proof.
  intros Hr [Hb Hu]. pose proof dstart_pos. split; [done|]. rewrite (used_allocated dstart) by (done || lia).
  by case_decide.
Qed.

Lemma view_allocated r b :
  dstart <= r < sb_size sb → used sb (tview t) r = false → in_use sb dstart (tview t) b →
  tview (allocated sb r t) b = tview t b.
Proof. intros Hr Hu [? ?]. eapply allocated_other; [done|done|lia|]. intros ->. congruence. Qed.

Lemma block_of_allocated r i bn :
  dstart <= r < sb_size sb → used sb (tview t) r = false → file_ok sb dstart (tview t) i →
  block_of (tview (allocated sb r t)) i bn = block_of (tview t) i bn.
Proof.
  intros Hr Hu Hi. apply block_of_ext. intros H. apply view_allocated; [done|done|]. by apply Hi.
Qed.

Lemma file_allocated r i :
  dstart <= r < sb_size sb → used sb (tview t) r = false → file_ok sb dstart (tview t) i →
  file_ok sb dstart (tview (allocated sb r t)) i.
Proof.
  intros Hr Hu Hi. assert (E := λ k, block_of_allocated r i k Hr Hu Hi). split.
  - apply Hi.
  - intros H. apply in_use_allocated; [done|]. by apply Hi.
  - intros k Hk Hb. rewrite E in *. destruct (fo_data _ _ _ _ Hi k Hk Hb).
    split; [by apply in_use_allocated|done].
  - intros k k' Hk Hk'. rewrite !E. by apply Hi.
Qed.

(** A free block is not one of the file. *)
Lemma free_not_in_file r i k :
  used sb (tview t) r = false → file_ok sb dstart (tview t) i → 0 <= k < MAXFILE → 0 < r → block_of (tview t) i k ≠ r.
Proof.
  intros Hu Hi Hk Hr <-. destruct (fo_data _ _ _ _ Hi k Hk) as [[_ ?] _]; [lia|]. congruence.
Qed.

Lemma free_not_indirect r i :
  used sb (tview t) r = false → file_ok sb dstart (tview t) i → 0 < r → addr_at i NDIRECT ≠ r.
Proof. intros Hu Hi Hr E. destruct (fo_ind _ _ _ _ Hi) as [_ ?]; [lia|]. congruence. Qed.
End Files.

Lemma file_extend sb dstart V V' i i' bn r :
  file_ok sb dstart V i → length (i_addrs i') = 13%nat →
  (∀ b, in_use sb dstart V b → in_use sb dstart V' b) →
  (r ≠ 0 → in_use sb dstart V' r ∧ r ≠ addr_at i' NDIRECT ∧ ∀ k, 0 <= k < MAXFILE → k ≠ bn → block_of V i k ≠ r) →
  (addr_at i' NDIRECT ≠ 0 → in_use sb dstart V' (addr_at i' NDIRECT)) →
  (∀ k, 0 <= k < MAXFILE → block_of V i k ≠ 0 → block_of V i k ≠ addr_at i' NDIRECT) →
  (∀ k, 0 <= k < MAXFILE → block_of V' i' k = if decide (k = bn) then r else block_of V i k) →
  file_ok sb dstart V' i'.
Proof.
  intros Hi Hl Hu Hr Hind Hne E. split; [done|done| |].
  - intros k Hk. rewrite E by done. case_decide; intros Hb; [by destruct (Hr Hb) as (? & ? & _)|].
    split; [|by apply Hne]. by apply Hu, Hi.
  - intros k k' Hk Hk'. rewrite !E by done. repeat case_decide; subst; intros Hb Heq; try done.
    + destruct (Hr Hb) as (_ & _ & Hk2). exfalso. by apply (Hk2 k').
    + rewrite Heq in Hb. destruct (Hr Hb) as (_ & _ & Hk2). exfalso. by apply (Hk2 k).
    + by apply (fo_inj _ _ _ _ Hi).
Qed.

(** How a call of bmap for block [bn] may change the file: [r] is the block
    of [bn] afterwards, and only that one may be new. *)
Record grown (sb : superblock) (dstart : Z) (t : tstate) (i : inode) (bn r : Z) (t' : tstate) (i' : inode) : Prop := {
  gr_file : file_ok sb dstart (tview t') i';
  gr_blocks : fs_blocks sb dstart t';
  gr_inode : i' = set_addrs (i_addrs i') i;
  gr_held : theld t' = theld t;
  gr_use b : in_use sb dstart (tview t) b → in_use sb dstart (tview t') b;
  gr_map k : 0 <= k < MAXFILE → block_of (tview t') i' k = if decide (k = bn) then r else block_of (tview t) i k;
  gr_old : block_of (tview t) i bn ≠ 0 → r = block_of (tview t) i bn;
  gr_new : block_of (tview t) i bn = 0 → r ≠ 0 →
    used sb (tview t) r = false ∧ ∀ x, 0 <= x < BSIZE → rd8 (tview t' r) x = 0;
  gr_frame b : in_use sb dstart (tview t) b → b ≠ addr_at i NDIRECT → tview t' b = tview t b;
  gr_meta b : b < sb_bmapstart sb → tview t' b = tview t b;
  gr_ind : addr_at i' NDIRECT = addr_at i NDIRECT ∨
    addr_at i NDIRECT = 0 ∧ used sb (tview t) (addr_at i' NDIRECT) = false
}.

Arguments gr_file {_ _ _ _ _ _ _ _} _.
Arguments gr_blocks {_ _ _ _ _ _ _ _} _.
Arguments gr_inode {_ _ _ _ _ _ _ _} _.
Arguments gr_held {_ _ _ _ _ _ _ _} _.
Arguments gr_use {_ _ _ _ _ _ _ _} _.
Arguments gr_map {_ _ _ _ _ _ _ _} _.
Arguments gr_old {_ _ _ _ _ _ _ _} _.
Arguments gr_new {_ _ _ _ _ _ _ _} _.
Arguments gr_frame {_ _ _ _ _ _ _ _} _.
Arguments gr_meta {_ _ _ _ _ _ _ _} _.
Arguments gr_ind {_ _ _ _ _ _ _ _} _.

Lemma set_addrs_id i : i = set_addrs (i_addrs i) i.
Proof. by destruct i. Qed.

Lemma grown_refl sb dstart t i bn :
  fs_blocks sb dstart t → file_ok sb dstart (tview t) i → grown sb dstart t i bn (block_of (tview t) i bn) t i.
Proof.
  intros F Hi. split; try done; [apply set_addrs_id|intros k Hk; by case_decide; subst|by left].
Qed.

Lemma used_grown sb dstart t i bn r t' i' b :
  grown sb dstart t i bn r t' i' → dstart <= b < sb_size sb → used sb (tview t') b = false → used sb (tview t) b = false.
Proof.
  intros G Hb Hf. destruct (used sb (tview t) b) eqn:E; [|done].
  destruct (gr_use G b) as [_ ?]; [done|congruence].
Qed.

Lemma grown_trans sb dstart t i bn t1 i1 r t2 i2 :
  grown sb dstart t i bn (block_of (tview t) i bn) t1 i1 → 0 <= bn < MAXFILE →
  grown sb dstart t1 i1 bn r t2 i2 → grown sb dstart t i bn r t2 i2.
Proof.
  intros G1 Hbn G2. assert (E1 : ∀ k, 0 <= k < MAXFILE → block_of (tview t1) i1 k = block_of (tview t) i k).
  { intros k Hk. rewrite (gr_map G1) by done. by case_decide; subst. }
  split.
  - apply G2.
  - apply G2.
  - rewrite (gr_inode G2) at 1. by rewrite (gr_inode G1).
  - by rewrite (gr_held G2), (gr_held G1).
  - intros b Hb. by apply G2, G1.
  - intros k Hk. rewrite (gr_map G2) by done. case_decide; [done|by apply E1].
  - intros H. rewrite <-(E1 bn Hbn) in H |- *. by apply (gr_old G2).
  - intros H Hr. rewrite <-(E1 bn Hbn) in H. destruct (gr_new G2 H Hr) as [Hu Hz]. split; [|done].
    eapply used_grown; [exact G1| |done].
    destruct (gr_file G2) as [_ _ Hd _]. specialize (Hd bn Hbn).
    rewrite (gr_map G2), decide_True in Hd by done. by destruct (Hd Hr) as [[? _] _].
  - intros b Hb Hne. rewrite (gr_frame G2); [by apply (gr_frame G1)|by apply G1|].
    destruct (gr_ind G1) as [->|[_ Hf]]; [done|]. intros ->. destruct Hb. congruence.
  - intros b Hb. by rewrite (gr_meta G2), (gr_meta G1).
  - assert (used sb (tview t1) (addr_at i2 NDIRECT) = false → used sb (tview t) (addr_at i2 NDIRECT) = false) as Hback.
    { intros Hf. eapply used_grown; [exact G1| |done].
      destruct (decide (addr_at i2 NDIRECT = 0)) as [E0|Hne].
      - rewrite E0, (fb_meta _ _ _ (gr_blocks G1)) in Hf; [done|].
        pose proof (dstart_pos _ _ _ (gr_blocks G1)). lia.
      - by destruct (fo_ind _ _ _ _ (gr_file G2) Hne). }
    destruct (gr_ind G1) as [E|[E Hf]], (gr_ind G2) as [E'|[E' Hf']].
    + left. congruence.
    + right. split; [congruence|]. by apply Hback.
    + right. by rewrite E'.
    + right. split; [done|]. by apply Hback.
Qed.

Section Grow.
Context (sb : superblock) (dstart : Z) (t : tstate) (i : inode) (bn r : Z).
Context (F : fs_blocks sb dstart t) (Hi : file_ok sb dstart (tview t) i) (Hbn : 0 <= bn < MAXFILE).
Context (Hr : dstart <= r < sb_size sb) (Hf : used sb (tview t) r = false).

Lemma meta_allocated b : b < sb_bmapstart sb → tview (allocated sb r t) b = tview t b.
Proof.
  intros Hb. pose proof (dstart_pos _ _ _ F). unfold allocated. simpl.
  pose proof (bblock_range _ _ _ _ (fb_layout _ _ _ F) r ltac:(lia)). rewrite !put_view_ne by lia. done.
Qed.

Lemma fresh_in_use : in_use sb dstart (tview (allocated sb r t)) r.
Proof. pose proof (dstart_pos _ _ _ F). split; [done|]. rewrite (used_allocated dstart), decide_True by (done || lia). done. Qed.

Lemma grown_direct :
  bn < NDIRECT → addr_at i bn = 0 → grown sb dstart t i bn r (allocated sb r t) (set_addr bn r i).
Proof.
  intros Hd H0. pose proof (dstart_pos _ _ _ F). pose proof (fo_length _ _ _ _ Hi) as Hl.
  unfold NDIRECT in *.
  assert (Ei : addr_at (set_addr bn r i) 12 = addr_at i 12) by (rewrite addr_at_set by lia; by case_decide; [lia|]).
  assert (Emap : ∀ k, 0 <= k < MAXFILE → block_of (tview (allocated sb r t)) (set_addr bn r i) k =
    if decide (k = bn) then r else block_of (tview t) i k).
  { intros k Hk. rewrite <-(block_of_allocated _ _ _ F r i k) by done. unfold block_of, NDIRECT. rewrite Ei.
    destruct (Z.ltb_spec k 12); [|by rewrite decide_False by lia].
    rewrite addr_at_set by lia. done. }
  split; try done; simpl.
  - eapply (file_extend _ _ (tview t) _ i _ bn r); try done.
    + unfold set_addr. simpl. by rewrite length_insert.
    + intros b Hb. by apply (in_use_allocated _ _ _ F).
    + intros _. split; [apply fresh_in_use|]. unfold NDIRECT. rewrite Ei. split.
      * apply not_eq_sym. by eapply (free_not_indirect sb dstart t); [..|lia].
      * intros k Hk _. by eapply (free_not_in_file sb dstart t); [..|lia].
    + unfold NDIRECT. rewrite Ei. intros Hne. apply (in_use_allocated _ _ _ F); [done|]. by apply Hi.
    + intros k Hk Hb. unfold NDIRECT. rewrite Ei. by apply Hi.
  - by eapply allocated_blocks.
  - intros b Hb. by apply (in_use_allocated _ _ _ F).
  - rewrite block_of_direct by (unfold NDIRECT; lia). done.
  - intros _ _. split; [done|]. intros x Hx. by apply allocated_zero.
  - intros b Hb _. by apply (view_allocated sb dstart).
  - apply meta_allocated.
  - left. done.
Qed.

Lemma grown_pointer :
  NDIRECT <= bn → addr_at i NDIRECT = 0 →
  grown sb dstart t i bn (block_of (tview t) i bn) (allocated sb r t) (set_addr NDIRECT r i).
Proof.
  intros Hd H0. pose proof (dstart_pos _ _ _ F). pose proof (fo_length _ _ _ _ Hi) as Hl.
  unfold NDIRECT in *.
  assert (Ei : addr_at (set_addr 12 r i) 12 = r) by (rewrite addr_at_set by lia; by case_decide).
  assert (Emap : ∀ k, 0 <= k < MAXFILE → block_of (tview (allocated sb r t)) (set_addr 12 r i) k = block_of (tview t) i k).
  { intros k Hk. unfold block_of, NDIRECT. rewrite Ei, H0. destruct (Z.ltb_spec k 12).
    - rewrite addr_at_set by lia. by case_decide; [lia|].
    - destruct (Z.eqb_spec r 0); [lia|]. simpl. apply rd_le_zero. intros b Hb. apply allocated_zero.
      unfold MAXFILE, NINDIRECT, NDIRECT, BSIZE in *. change (1024 / 4) with 256 in Hk. lia. }
  split; try done; simpl.
  - eapply (file_extend _ _ (tview t) _ i _ bn (block_of (tview t) i bn)); try done.
    + unfold set_addr. simpl. by rewrite length_insert.
    + intros b Hb. by apply (in_use_allocated _ _ _ F).
    + unfold NDIRECT. rewrite Ei. intros Hb. split_and!.
      * apply (in_use_allocated _ _ _ F); [done|]. by apply Hi.
      * by eapply (free_not_in_file sb dstart t); [..|lia].
      * intros k Hk Hne E. by apply Hne, (fo_inj _ _ _ _ Hi); [..|congruence|].
    + unfold NDIRECT. rewrite Ei. intros _. apply fresh_in_use.
    + intros k Hk Hb. unfold NDIRECT. rewrite Ei. by eapply (free_not_in_file sb dstart t); [..|lia].
    + intros k Hk. rewrite Emap by done. by case_decide; subst.
  - by eapply allocated_blocks.
  - intros b Hb. by apply (in_use_allocated _ _ _ F).
  - intros k Hk. rewrite Emap by done. by case_decide; subst.
  - intros b Hb _. by apply (view_allocated sb dstart).
  - apply meta_allocated.
  - right. unfold NDIRECT. by rewrite Ei.
Qed.

(** The transaction after [r] was entered in the indirect block. *)
Definition entered : tstate :=
  let a := addr_at i NDIRECT in
  wrote a (wr32 (tview (allocated sb r t) a) (4 * (bn - NDIRECT)) r) (allocated sb r t).

Lemma grown_entry :
  NDIRECT <= bn → addr_at i NDIRECT ≠ 0 → block_of (tview t) i bn = 0 → grown sb dstart t i bn r entered i.
Proof.
  intros Hd H0 Hb0. pose proof (dstart_pos _ _ _ F). pose proof (fo_length _ _ _ _ Hi) as Hl.
  destruct (fo_ind _ _ _ _ Hi H0) as [Ha Hau]. set (a := addr_at i NDIRECT) in *.
  pose proof (ly_size _ _ _ _ (fb_layout _ _ _ F)) as Hsz.
  assert (Hra : r ≠ a) by congruence.
  assert (Eu : ∀ b, 0 <= b < sb_size sb → used sb (tview entered) b = used sb (tview (allocated sb r t)) b).
  { intros b Hb. unfold entered. simpl. eapply used_data; [apply F|fold a; lia|done]. }
  assert (Euse : ∀ b, in_use sb dstart (tview t) b → in_use sb dstart (tview entered) b).
  { intros b Hb. destruct (in_use_allocated _ _ _ F r b Hr Hb). split; [done|]. by rewrite Eu by lia. }
  assert (Emap : ∀ k, 0 <= k < MAXFILE → block_of (tview entered) i k = if decide (k = bn) then r else block_of (tview t) i k).
  { intros k Hk. destruct (Z.ltb_spec k NDIRECT).
    - rewrite !block_of_direct by done. by rewrite decide_False by lia.
    - rewrite !block_of_indirect by done. fold a. unfold entered. simpl. fold a. rewrite put_view_eq.
      case_decide; subst.
      + rewrite rd32_wr32_same, u32_small by lia. done.
      + rewrite rd32_wr32_ne by lia. f_equal. by apply (view_allocated sb dstart). }
  split; try done.
  - eapply (file_extend _ _ (tview t) _ i _ bn r); try done.
    + intros _. split.
      * destruct fresh_in_use. split; [done|]. by rewrite Eu by lia.
      * split; [done|]. intros k Hk _. by eapply (free_not_in_file sb dstart t); [..|lia].
    + intros _. by apply Euse.
    + intros k Hk Hb. by apply Hi.
  - pose proof (allocated_blocks dstart _ _ _ F Hr) as F'. split; [apply F'|]. intros b Hb. rewrite Eu by lia. by apply F'.
  - apply set_addrs_id.
  - intros _ _. split; [done|]. intros x Hx. unfold entered. simpl. fold a. rewrite put_view_ne by done.
    by apply allocated_zero.
  - intros b Hb Hne. unfold entered. simpl. rewrite put_view_ne by done. by apply (view_allocated sb dstart).
  - intros b Hb. pose proof (bblock_range _ _ _ _ (fb_layout _ _ _ F) r ltac:(lia)).
    unfold entered. simpl. fold a. rewrite put_view_ne by lia. by apply meta_allocated.
  - by left.
Qed.
End Grow.
(** ** bmap *)

(** The free map has no free block. *)
Definition full (sb : superblock) (t : tstate) : Prop := ∀ x, 0 <= x < sb_size sb → used sb (tview t) x = true.

Section Bmap.
Context {S : Type} `{TS : !TxnStore S} (dstart : Z).

(** [s] with another store, other messages and another entry [ip]. *)
Definition moved (c : S) (p : list string) (ip : Z) (i : inode) (s : fsst S) : fsst S :=
  mkF c (sb s) (it_lock s) (<[iidx ip := i]> (inodes s)) (kmem s) (umem s) p (cwd s).

Lemma moved_id s ip i : slot s ip i → ∀ c p, mkF c (sb s) (it_lock s) (inodes s) (kmem s) (umem s) p (cwd s) = moved c p ip i s.
Proof. intros [_ H] c p. unfold moved. by rewrite list_insert_id. Qed.

Lemma moved_moved c p ip i c' p' i' s : moved c' p' ip i' (moved c p ip i s) = moved c' p' ip i' s.
Proof. unfold moved. simpl. by rewrite list_insert_insert_eq. Qed.

Lemma slot_moved s c p ip i i' : slot s ip i → slot (moved c p ip i' s) ip i'.
Proof. intros H. apply (slot_insert s ip i i' H). Qed.

Lemma runs_balloc s t (Q : Z → fsst S → Prop) :
  in_txn s t → fs_blocks (sb s) dstart t → held_ok (sb s) dstart t → alloc_space (sb s) t →
  (∀ c r, dstart <= r < sb_size (sb s) → used (sb s) (tview t) r = false →
     in_txn (set_store c s) (allocated (sb s) r t) → Q r (set_store c s)) →
  (∀ c p, full (sb s) t → in_txn (set_store c s) t →
     Q 0 (mkF c (sb s) (it_lock s) (inodes s) (kmem s) (umem s) p (cwd s))) →
  runs (balloc ROOTDEV) s Q.
Proof.
  intros R F Hh Hsp H1 H2. eapply runs_mono; [by eapply balloc_spec|].
  intros r s' (c & [(Hf & Hd & -> & R')|(-> & Ha & -> & R')]).
  - destruct Hf as (? & ? & _). apply H1; [lia|done..].
  - by apply H2.
Qed.

(** The block of the inode's indirect addresses is in the budget once there is
    one; until then a block is set aside for it. *)
Definition paid (B : gset Z) (t : tstate) (i : inode) : Prop :=
  addr_at i NDIRECT ≠ 0 → addr_at i NDIRECT ∈ tlogged t ∪ B.
Definition pot (i : inode) : Z := if addr_at i NDIRECT =? 0 then 1 else 0.

Lemma pot_range i : 0 <= pot i <= 1.
Proof. unfold pot. bcase; lia. Qed.

Section Budget.
Context (B : gset Z).

(** What bmap and its parts leave behind: at most one block of the budget is
    spent, and that pays for writing the block [r] as well. *)
Definition bmap_post (m bn : Z) (s : fsst S) (t : tstate) (ip : Z) (i : inode) (r : Z) (s' : fsst S) : Prop :=
  ∃ c p t' i', s' = moved c p ip i' s ∧ in_txn s' t' ∧ grown (sb s) dstart t i bn r t' i' ∧
    paid B t' i' ∧ budget ({[r]} ∪ B) (m - 1 + pot i') t' ∧ (r = 0 → full (sb s) t').

Lemma bmap_direct_spec m s t ip i bn :
  in_txn s t → fs_blocks (sb s) dstart t → held_ok (sb s) dstart t →
  has_map (sb s) B → paid B t i → budget B (m + pot i) t → 2 <= m →
  slot s ip i → i_dev i = ROOTDEV → file_ok (sb s) dstart (tview t) i → 0 <= bn < NDIRECT →
  runs (bmap ip bn) s (bmap_post m bn s t ip i).
Proof.
  intros R F Hh HB Hpd Hbd Hm Hs Hd Hi Hbn. unfold bmap. destruct (Z.ltb_spec bn NDIRECT); [|lia].
  assert (0 <= bn < MAXFILE) as Hbm by (unfold MAXFILE, NINDIRECT, NDIRECT, BSIZE in *; change (1024 / 4) with 256; lia).
  assert (Eb : block_of (tview t) i bn = addr_at i bn) by (apply block_of_direct; lia).
  pose proof (pot_range i) as Hpot. pose proof (ly_size _ _ _ _ (fb_layout _ _ _ F)) as Hsize.
  kred. eapply runs_geti; [done|]. destruct (Z.eqb_spec (addr_at i bn) 0) as [E|E].
  - kred. rewrite Hd. eapply runs_balloc; try done.
    + by eapply (budget_alloc B (m + pot i)); [|lia|].
    + intros c r Hr Hf R'. pose proof (dstart_pos _ _ _ F). destruct (Z.eqb_spec r 0); [lia|].
      kred. eapply (runs_seti _ i); [done|]. kred.
      assert (Ei : addr_at (set_addr bn r i) NDIRECT = addr_at i NDIRECT).
      { rewrite addr_at_set; [by rewrite decide_False by lia|apply Hi|unfold NDIRECT in *; lia..]. }
      exists c, (printed s), (allocated (sb s) r t), (set_addr bn r i).
      split_and!; [done|done|by apply grown_direct| | |lia].
      * unfold paid. rewrite Ei. intros Ha. specialize (Hpd Ha). simpl. set_solver.
      * unfold pot. rewrite Ei. fold (pot i). apply budget_paid; [apply allocated_logged|].
        replace (m - 1 + pot i) with (m + pot i - 1) by lia. by apply budget_allocated; [|lia|].
    + intros c p Hfull R'. simpl. kred. rewrite (moved_id s ip i) by done. exists c, p, t, i.
      split_and!; try done.
      * rewrite <-E, <-Eb. by apply grown_refl.
      * replace (m - 1 + pot i) with (m + pot i - 1) by lia. by apply budget_pay.
  - kred. exists (store s), (printed s), t, i. rewrite <-(moved_id s ip i) by done.
    split_and!; try done; [by destruct s|rewrite <-Eb; by apply grown_refl|].
    replace (m - 1 + pot i) with (m + pot i - 1) by lia. by apply budget_pay.
Qed.

Lemma bmap_indirect_spec m s t ip i bn :
  in_txn s t → fs_blocks (sb s) dstart t → held_ok (sb s) dstart t →
  has_map (sb s) B → paid B t i → budget B (m + pot i) t → 2 <= m →
  slot s ip i → i_dev i = ROOTDEV → file_ok (sb s) dstart (tview t) i → NDIRECT <= bn < MAXFILE →
  runs (bmap_indirect ip) s (λ a s', ∃ i', a = addr_at i' NDIRECT ∧
    ∃ c p t', s' = moved c p ip i' s ∧ in_txn s' t' ∧ grown (sb s) dstart t i bn (block_of (tview t) i bn) t' i' ∧
      paid B t' i' ∧ budget B (m + pot i') t' ∧ (a = 0 → full (sb s) t')).
Proof.
  intros R F Hh HB Hpd Hbd Hm Hs Hd Hi Hbn. unfold bmap_indirect.
  assert (0 <= bn < MAXFILE) as Hbm by (unfold NDIRECT in *; lia).
  pose proof (pot_range i) as Hpot. pose proof (ly_size _ _ _ _ (fb_layout _ _ _ F)) as Hsize.
  kred. eapply runs_geti; [done|]. destruct (Z.eqb_spec (addr_at i NDIRECT) 0) as [E|E].
  - kred. rewrite Hd. eapply runs_balloc; try done.
    + by eapply (budget_alloc B (m + pot i)); [|lia|].
    + intros c r Hr Hf R'. pose proof (dstart_pos _ _ _ F). destruct (Z.eqb_spec r 0); [lia|].
      kred. eapply (runs_seti _ i); [done|]. kred. exists (set_addr NDIRECT r i).
      assert (Ei : addr_at (set_addr NDIRECT r i) NDIRECT = r).
      { rewrite addr_at_set, decide_True; [done|done|apply Hi|done|done]. }
      split; [done|]. exists c, (printed s), (allocated (sb s) r t).
      split_and!; [done|done|apply grown_pointer; done || lia| | |lia].
      * intros _. rewrite Ei. pose proof (allocated_logged (sb s) r t). set_solver.
      * unfold pot. rewrite Ei, (proj2 (Z.eqb_neq r 0)) by lia. unfold pot in Hbd. rewrite E in Hbd. simpl in Hbd.
        replace (m + 0) with (m + 1 - 1) by lia. by apply budget_allocated; [|lia|].
    + intros c p Hfull R'. simpl. kred. rewrite (moved_id s ip i) by done. exists i. split; [done|]. exists c, p, t.
      split_and!; try done. by apply grown_refl.
  - kred. exists i. split; [done|]. exists (store s), (printed s), t. rewrite <-(moved_id s ip i) by done.
    split_and!; try done; [by destruct s|by apply grown_refl].
Qed.

Lemma held_hold sb t b h :
  held_ok sb dstart t → in_use sb dstart (tview t) b → held_ok sb dstart (hold b h t).
Proof.
  intros Hh [Hb Hu] x [v Hx]. simpl in Hx. apply lookup_insert_Some in Hx as [[<- _]|[_ Hx]]; [done|].
  apply Hh. by eexists.
Qed.

Lemma data_home sb t b : fs_blocks sb dstart t → dstart <= b < sb_size sb → home t b.
Proof.
  intros F Hb. destruct (fb_layout _ _ _ F) as [? [? ?] ? ?]. change IPB with 16 in *. change BPB with 8192 in *.
  split; [|Z.div_mod_to_equations; lia]. Z.div_mod_to_equations. lia.
Qed.

Lemma bmap_entry_spec m s t ip i bn :
  in_txn s t → fs_blocks (sb s) dstart t → held_ok (sb s) dstart t →
  has_map (sb s) B → paid B t i → budget B (m + pot i) t → 2 <= m →
  slot s ip i → i_dev i = ROOTDEV → file_ok (sb s) dstart (tview t) i → NDIRECT <= bn < MAXFILE →
  addr_at i NDIRECT ≠ 0 → theld t !! addr_at i NDIRECT = None →
  runs (bmap_entry ip (addr_at i NDIRECT) (bn - NDIRECT)) s (bmap_post m bn s t ip i).
Proof.
  intros R F Hh HB Hpd Hbd Hm Hs Hd Hi Hbn Ha Hah. unfold bmap_entry. set (a := addr_at i NDIRECT) in *.
  assert (0 <= bn < MAXFILE) as Hbm by (unfold NDIRECT in *; lia).
  pose proof (fo_ind _ _ _ _ Hi Ha) as Hau. fold a in Hau. specialize (Hpd Ha). fold a in Hpd.
  assert (Ep : pot i = 0) by (unfold pot; fold a; by rewrite (proj2 (Z.eqb_neq _ _) Ha)). rewrite Ep, Z.add_0_r in Hbd.
  pose proof (ly_size _ _ _ _ (fb_layout _ _ _ F)) as Hsize.
  assert (Hpay : budget ({[block_of (tview t) i bn]} ∪ B) (m - 1 + pot i) t)
    by (rewrite Ep, Z.add_0_r; by apply budget_pay).
  assert (Hho : home t a) by by apply (data_home (sb s) t a F), Hau.
  kred. eapply runs_geti; [done|]. kred. rewrite Hd.
  eapply (runs_bread a _ t); [done|done|apply Hho|right; eapply (space_room m); [lia|by eapply budget_space]|]. intros h c R1. kred.
  eapply (runs_data a); [exact R1|apply lookup_insert_eq|]. simpl.
  assert (Eb : block_of (tview t) i bn = rd32 (tview t a) (4 * (bn - NDIRECT))) by (apply block_of_indirect; [lia|done]).
  rewrite <-Eb. destruct (Z.eqb_spec (block_of (tview t) i bn) 0) as [E|E].
  - kred. eapply (runs_balloc _ (hold a h t)); try done; [by destruct F|by apply held_hold|eapply (budget_alloc B m); [done|lia|by apply budget_hold]| |].
    + intros c1 r Hr Hf R2. pose proof (dstart_pos _ _ _ F). simpl in Hr, Hf. destruct (Z.eqb_spec r 0); [lia|]. simpl.
      change (in_txn (set_store c1 s) (hold a h (allocated (sb s) r t))) in R2.
      kred. eapply (runs_data a); [exact R2|apply lookup_insert_eq|]. kred.
      eapply (runs_put_data a); [exact R2|apply lookup_insert_eq|]. intros c2 R3. kred.
      eapply (runs_log_write a); [exact R3|apply lookup_insert_eq|exact Hho| |].
      { destruct (budget_space B (m - 1) (allocated (sb s) r t)) as [_ ?]; [by apply budget_allocated; [|lia|]|].
        simpl. simpl in *. lia. }
      intros c3 R4. kred. eapply (runs_brelse a); [exact R4|apply lookup_insert_eq|left; simpl; set_solver|].
      intros c4 R5. rewrite unhold_record in R5 by done. kred.
      exists c4, (printed s), (entered (sb s) t i bn r), i. rewrite <-(moved_id s ip i) by done.
      split_and!; [done|exact R5|apply grown_entry; done || lia| | |lia].
      * intros _. fold a. simpl. set_solver.
      * rewrite Ep, Z.add_0_r. apply budget_paid; [pose proof (allocated_logged (sb s) r t); simpl in *; set_solver|].
        apply budget_in; [simpl; set_solver|]. by apply budget_allocated; [|lia|].
    + intros c1 p Hfull R2. simpl. kred.
      eapply (runs_brelse a _ _ (hold a h t)); [exact R2|apply lookup_insert_eq| |].
      { by apply (t_clean_law a _ _ R). }
      intros c2 R3. rewrite unhold_hold in R3 by done. kred. unfold set_store. simpl. rewrite (moved_id s ip i) by done.
      exists c2, p, t, i. split_and!; try done; [rewrite <-E; by apply grown_refl|by intros _|by rewrite <-E].
  - kred. eapply (runs_brelse a); [exact R1|apply lookup_insert_eq|by apply (t_clean_law a _ _ R)|].
    intros c2 R3. rewrite unhold_hold in R3 by done. kred. exists c2, (printed s), t, i.
    rewrite <-(moved_id s ip i) by done.
    split_and!; try done; [by apply grown_refl|by intros _].
Qed.

Lemma bmap_spec m s t ip i bn :
  in_txn s t → fs_blocks (sb s) dstart t → theld t = ∅ →
  has_map (sb s) B → paid B t i → budget B (m + pot i) t → 2 <= m →
  slot s ip i → i_dev i = ROOTDEV → file_ok (sb s) dstart (tview t) i → 0 <= bn < MAXFILE →
  runs (bmap ip bn) s (bmap_post m bn s t ip i).
Proof.
  intros R F Hh HB Hpd Hbd Hm Hs Hd Hi Hbn.
  assert (Hok : held_ok (sb s) dstart t) by (intros b; rewrite Hh, lookup_empty; by intros [? ?]).
  destruct (Z.lt_ge_cases bn NDIRECT) as [Hlt|Hge]; [by apply bmap_direct_spec; try done; lia|].
  unfold bmap. destruct (Z.ltb_spec bn NDIRECT); [lia|]. cbv zeta.
  destruct (Z.ltb_spec (bn - NDIRECT) NINDIRECT); [|unfold MAXFILE in *; lia].
  apply runs_bind. eapply runs_mono; [by apply (bmap_indirect_spec m s t ip i bn); try done; lia|].
  intros a s1 (i1 & Ea & c & p & t1 & -> & R1 & G1 & Hpd1 & Hbd1 & Hz).
  destruct (Z.eqb_spec a 0) as [Ea0|Hne].
  - assert (addr_at i NDIRECT = 0) as E0.
    { destruct (gr_ind G1) as [?|[? _]]; congruence. }
    assert (block_of (tview t) i bn = 0) as Eb.
    { unfold block_of. destruct (Z.ltb_spec bn NDIRECT); [lia|]. by rewrite E0. }
    rewrite Eb in G1. kred. exists c, p, t1, i1. split_and!; try done; [|by intros; apply Hz].
    replace (m - 1 + pot i1) with (m + pot i1 - 1) by lia. by apply budget_pay.
  - rewrite Ea in Hne. rewrite Ea. eapply runs_mono.
    + apply (bmap_entry_spec m (moved c p ip i1 s) t1 ip i1 bn); try done; try exact (gr_blocks G1); try exact (gr_file G1); try lia.
      * intros b. rewrite (gr_held G1), Hh, lookup_empty. by intros [? ?].
      * by eapply slot_moved.
      * by rewrite (gr_inode G1).
      * by rewrite (gr_held G1), Hh.
    + intros r s2 (c2 & p2 & t2 & i2 & -> & R2 & G2 & Hpd2 & Hbd2 & Hz2). exists c2, p2, t2, i2.
      rewrite moved_moved in *. split_and!; try done. by eapply grown_trans.
Qed.
End Budget.
End Bmap.

(** ** readi *)

Definition file_byte (V : Z → block) (i : inode) (p : Z) : Z :=
  rd8 (V (block_of V i (p / BSIZE))) (p mod BSIZE).
Definition file_bytes (V : Z → block) (i : inode) (off : Z) (n : nat) : list Z :=
  (λ k, file_byte V i (off + Z.of_nat k)) <$> seq 0 n.

(** Every block up to the size of the file is there. *)
Definition mapped (V : Z → block) (i : inode) : Prop :=
  0 <= i_size i <= MAXFILE * BSIZE ∧ ∀ bn, 0 <= bn → bn * BSIZE < i_size i → block_of V i bn ≠ 0.

Lemma length_file_bytes V i off n : length (file_bytes V i off n) = n.
Proof. unfold file_bytes. by rewrite length_fmap, length_seq. Qed.

Lemma file_bytes_app V i off n m :
  file_bytes V i off (n + m) = file_bytes V i off n ++ file_bytes V i (off + Z.of_nat n) m.
Proof.
  unfold file_bytes. rewrite seq_app, fmap_app. f_equal. simpl. apply list_eq. intros k.
  rewrite !list_lookup_fmap. destruct (decide (k < m)%nat).
  - rewrite !lookup_seq_lt by done. simpl. do 2 f_equal. lia.
  - by rewrite !lookup_seq_ge by lia.
Qed.

(** The bytes of one block are consecutive bytes of the file. *)
Lemma file_bytes_block V i off n :
  0 <= off → off mod BSIZE + Z.of_nat n <= BSIZE →
  rd_bytes (V (block_of V i (off / BSIZE))) (off mod BSIZE) n = file_bytes V i off n.
Proof.
  intros Ho Hn. apply list_eq. intros k. destruct (decide (k < n)%nat) as [Hk|Hk].
  - rewrite lookup_rd_bytes by done. unfold file_bytes. rewrite list_lookup_fmap, lookup_seq_lt by done. simpl.
    unfold file_byte. unfold BSIZE in *. f_equal. f_equal; [do 2 f_equal|]; Z.div_mod_to_equations; lia.
  - rewrite !lookup_ge_None_2; [done|rewrite length_file_bytes; lia|rewrite length_rd_bytes; lia].
Qed.

Section Readi.
Context {S : Type} `{TS : !TxnStore S} (dstart : Z).

Lemma bmap_mapped s t ip i bn :
  in_txn s t → fs_blocks (sb s) dstart t → theld t = ∅ → room t →
  slot s ip i → i_dev i = ROOTDEV → file_ok (sb s) dstart (tview t) i → 0 <= bn < MAXFILE →
  block_of (tview t) i bn ≠ 0 →
  runs (bmap ip bn) s (λ r s', r = block_of (tview t) i bn ∧ ∃ c, s' = set_store c s ∧ in_txn s' t).
Proof.
  intros R F Hh Hr Hs Hd Hi Hbn Hb. unfold bmap. destruct (Z.ltb_spec bn NDIRECT).
  - rewrite block_of_direct in * by done. kred. eapply runs_geti; [done|].
    destruct (Z.eqb_spec (addr_at i bn) 0); [done|]. kred. split; [done|]. exists (store s). by destruct s.
  - destruct (Z.ltb_spec (bn - NDIRECT) NINDIRECT); [|unfold MAXFILE in *; lia].
    assert (Ha : addr_at i NDIRECT ≠ 0).
    { intros E. apply Hb. unfold block_of. rewrite E. destruct (Z.ltb_spec bn NDIRECT); [lia|done]. }
    rewrite block_of_indirect in * by done. set (a := addr_at i NDIRECT) in *.
    unfold bmap_indirect, bmap_entry. kred. eapply runs_geti; [done|]. fold a. destruct (Z.eqb_spec a 0); [done|]. kred.
    destruct (Z.eqb_spec a 0); [done|]. kred. eapply runs_geti; [done|]. kred. rewrite Hd.
    pose proof (fo_ind _ _ _ _ Hi Ha) as Hau. fold a in Hau.
    assert (Hah : theld t !! a = None) by by rewrite Hh.
    eapply (runs_bread a _ t); [done|done|apply (data_home dstart (sb s) t a F), Hau|by right|]. intros h c R1. kred.
    eapply (runs_data a); [exact R1|apply lookup_insert_eq|]. simpl. destruct (Z.eqb_spec (rd32 (tview t a) (4 * (bn - NDIRECT))) 0); [done|].
    kred. eapply (runs_brelse a); [exact R1|apply lookup_insert_eq|by apply (t_clean_law a _ _ R)|]. intros c2 R3.
    rewrite unhold_hold in R3 by done. kred. split; [done|]. by exists c2.
Qed.

(** The bytes [l] arrive at [dst]. *)
Definition deliver (user : bool) (dst : Z) (l : list Z) (s : fsst S) : fsst S :=
  if user then set_umem (copy_prefix (umem s) dst l).1 s else set_kmem (wr_bytes (kmem s) dst l) s.

(** [n] bytes may be written at [dst]. *)
Definition writable (user : bool) (um : gmap Z Z) (dst n : Z) : Prop :=
  if user then ∀ k, 0 <= k < n → is_Some (um !! u64 (dst + k)) else 0 <= dst ∧ dst + n < 2 ^ 64.

Lemma copy_prefix_ok um dst l : writable true um dst (zlen l) → (copy_prefix um dst l).2 = true.
Proof.
  revert um dst. induction l as [|x l IH]; intros um dst H; [done|]. cbn [copy_prefix length] in *.
  destruct (H 0 ltac:(lia)) as [y Hy]. rewrite Z.add_0_r in Hy. rewrite Hy. apply IH.
  intros k Hk. destruct (H (k + 1) ltac:(lia)) as [z Hz]. replace (dst + 1 + k) with (dst + (k + 1)) by lia.
  rewrite lookup_insert. case_decide; eauto.
Qed.

Lemma copy_prefix_dom um dst l k : is_Some ((copy_prefix um dst l).1 !! k) ↔ is_Some (um !! k).
Proof.
  revert um dst. induction l as [|x l IH]; intros um dst; [done|]. cbn [copy_prefix].
  destruct (um !! u64 dst) eqn:E; [|done]. rewrite IH, lookup_insert. case_decide; subst; [|done].
  rewrite E. split; eauto.
Qed.

Lemma copy_prefix_app um dst l l' :
  writable true um dst (zlen l) →
  copy_prefix um dst (l ++ l') = copy_prefix (copy_prefix um dst l).1 (dst + zlen l) l'.
Proof.
  revert um dst. induction l as [|x l IH]; intros um dst H; [by cbn; rewrite Z.add_0_r|].
  cbn [copy_prefix length app] in *. destruct (H 0 ltac:(lia)) as [y Hy]. rewrite Z.add_0_r in Hy. rewrite Hy.
  rewrite IH.
  - f_equal. lia.
  - intros k Hk. destruct (H (k + 1) ltac:(lia)) as [z Hz]. replace (dst + 1 + k) with (dst + (k + 1)) by lia.
    rewrite lookup_insert. case_decide; eauto.
Qed.

Lemma copy_prefix_u64 um dst l : copy_prefix um (u64 dst) l = copy_prefix um dst l.
Proof.
  revert um dst. induction l as [|x l IH]; intros um dst; [done|]. cbn [copy_prefix].
  assert (E : u64 (u64 dst) = u64 dst) by apply u64_small, u64_range. rewrite E.
  destruct (um !! u64 dst); [|done]. rewrite <-(IH _ (u64 dst + 1)), <-(IH _ (dst + 1)). f_equal.
  unfold u64. by rewrite Zplus_mod_idemp_l.
Qed.

Lemma copy_prefix_fail um dst l : (copy_prefix um dst l).2 = false → ∃ k, 0 <= k < zlen l ∧ um !! u64 (dst + k) = None.
Proof.
  revert um dst. induction l as [|x l IH]; intros um dst; [done|]. cbn [copy_prefix length]. destruct (um !! u64 dst) as [y|] eqn:E.
  - intros (k & Hk & Hn)%IH. exists (k + 1). split; [lia|]. apply lookup_insert_None in Hn as [Hn _]. by replace (dst + (k + 1)) with (dst + 1 + k) by lia.
  - intros _. exists 0. rewrite Z.add_0_r. split; [lia|done].
Qed.

(** The bytes are there after a copy that succeeds, and nothing else changed. *)
Lemma copy_prefix_get um dst l : (copy_prefix um dst l).2 = true → zlen l <= 2 ^ 64 →
  (∀ i c, l !! i = Some c → (copy_prefix um dst l).1 !! u64 (dst + Z.of_nat i) = Some c) ∧
  ∀ k, (∀ i, 0 <= i < zlen l → k ≠ u64 (dst + i)) → (copy_prefix um dst l).1 !! k = um !! k.
Proof.
  revert um dst. induction l as [|x l IH]; intros um dst; [by split; [intros i c; rewrite lookup_nil|]|]. cbn [copy_prefix length].
  destruct (um !! u64 dst) as [y|] eqn:E; [|done]. intros Hok Hl. destruct (IH _ _ Hok ltac:(lia)) as [H1 H2]. split.
  - intros [|i] c Hc.
    + injection Hc as <-. rewrite Z.add_0_r, H2; [apply lookup_insert_eq|]. intros i Hi. unfold u64. zdm.
    + replace (dst + Z.of_nat (Datatypes.S i)) with (dst + 1 + Z.of_nat i) by lia. by apply H1.
  - intros k Hk. rewrite H2, lookup_insert_ne; [done| |].
    + intros <-. apply (Hk 0); [lia|]. by rewrite Z.add_0_r.
    + intros i Hi. replace (dst + 1 + i) with (dst + (i + 1)) by lia. apply Hk. lia.
Qed.

Lemma wr_bytes_app m a l l' : wr_bytes m a (l ++ l') = wr_bytes (wr_bytes m a l) (a + zlen l) l'.
Proof.
  revert m a. induction l as [|x l IH]; intros m a; [by cbn; rewrite Z.add_0_r|]. cbn [wr_bytes length app].
  rewrite IH. f_equal. lia.
Qed.

Lemma deliver_app user dst l l' s :
  writable user (umem s) dst (zlen (l ++ l')) →
  deliver user (u64 (dst + zlen l)) l' (deliver user dst l s) = deliver user dst (l ++ l') s.
Proof.
  rewrite length_app. unfold deliver, writable. destruct user; intros H.
  - unfold set_umem. simpl. rewrite copy_prefix_u64, copy_prefix_app; [done|]. intros k ?. apply H. lia.
  - unfold set_kmem. simpl. rewrite u64_small by lia. by rewrite wr_bytes_app.
Qed.

Lemma runs_either_copyout user dst l s (Q : Z → fsst S → Prop) :
  writable user (umem s) dst (zlen l) → Q 0 (deliver user dst l s) → runs (either_copyout user dst l) s Q.
Proof.
  intros Hw HQ. unfold either_copyout, deliver in *. destruct user; kred; [|done].
  pose proof (copy_prefix_ok _ _ _ Hw) as Hok. destruct (copy_prefix (umem s) dst l) as [um' ok]. simpl in *. subst ok.
  by kred.
Qed.
Lemma store_deliver user dst l c s : set_store c (deliver user dst l s) = deliver user dst l (set_store c s).
Proof. by destruct user. Qed.

Lemma umem_deliver user dst l s k : is_Some (umem (deliver user dst l s) !! k) ↔ is_Some (umem s !! k).
Proof. destruct user; [|done]. apply copy_prefix_dom. Qed.

Lemma writable_sub user um um' dst n k m :
  writable user um dst n → 0 <= k → 0 <= m → k + m <= n → (∀ a, is_Some (um !! a) → is_Some (um' !! a)) →
  writable user um' (u64 (dst + k)) m.
Proof.
  unfold writable. destruct user; intros H ??? Hum.
  - intros j Hj. apply Hum. specialize (H (k + j) ltac:(lia)).
    replace (u64 (u64 (dst + k) + j)) with (u64 (dst + (k + j))); [done|].
    unfold u64. rewrite Zplus_mod_idemp_l. f_equal. lia.
  - rewrite u64_small by lia. lia.
Qed.

(** How many bytes readi returns. *)
Definition read_count (i : inode) (off n : Z) : Z :=
  if off + n <? 2 ^ 32 then Z.max 0 (Z.min n (i_size i - off)) else 0.

(** The state of the loop of readi after [tot] bytes. *)
Definition read_inv (s : fsst S) (t : tstate) (i : inode) (user : bool) (dst off tot : Z) (s' : fsst S) : Prop :=
  ∃ c, s' = deliver user dst (file_bytes (tview t) i off (Z.to_nat tot)) (set_store c s) ∧ in_txn s' t.

Section ReadLoop.
Context (s : fsst S) (t : tstate) (ip : Z) (i : inode) (user : bool) (dst off n : Z).
Context (F : fs_blocks (sb s) dstart t) (Hh : theld t = ∅) (Hr : room t) (Hs : slot s ip i).
Context (Hd : i_dev i = ROOTDEV) (Hi : file_ok (sb s) dstart (tview t) i) (Hm : mapped (tview t) i).
Context (Hoff : 0 <= off) (Hn : off + n <= i_size i) (Hw : writable user (umem s) dst n).

Lemma readi_block_spec tot s' :
  0 <= tot < n → read_inv s t i user dst off tot s' →
  runs (readi_block ip user n (tot, off + tot, u64 (dst + tot))) s' (λ r s'',
    ∃ m, 0 < m <= n - tot ∧ r = inl (tot + m, off + (tot + m), u64 (dst + (tot + m))) ∧
      read_inv s t i user dst off (tot + m) s'').
Proof.
  intros Htot (c & -> & R'). unfold readi_block. destruct (Z.ltb_spec tot n) as [_|]; [|lia].
  set (l := file_bytes (tview t) i off (Z.to_nat tot)) in *. set (s1 := deliver user dst l (set_store c s)) in *.
  set (bn := (off + tot) / BSIZE). destruct Hm as [Hsz Hmap].
  assert (Hms : MAXFILE * BSIZE = 274432) by done. rewrite Hms in Hsz.
  assert (Hs1 : slot s1 ip i) by by destruct user.
  assert (0 <= bn ∧ bn * BSIZE < i_size i) as [Hbn1 Hbn2] by (unfold bn, BSIZE; Z.div_mod_to_equations; lia).
  assert (bn < MAXFILE) by (change MAXFILE with 268; unfold BSIZE in *; lia).
  assert (Hsb1 : sb s1 = sb s) by by destruct user.
  apply runs_bind. eapply runs_mono.
  { apply (bmap_mapped s1 t ip i bn); try done; [by rewrite Hsb1|by rewrite Hsb1|by apply Hmap]. }
  intros r s2 (-> & c2 & -> & R2). set (b := block_of (tview t) i bn) in *.
  assert (Hb : b ≠ 0) by by apply Hmap.
  destruct (fo_data _ _ _ _ Hi bn ltac:(lia) Hb) as [Hbu _]. fold b in Hbu.
  destruct (Z.eqb_spec b 0); [done|]. kred. eapply (runs_geti _ i); [by destruct user|]. kred. rewrite Hd.
  eapply (runs_bread b _ t); [done|by rewrite Hh|apply (data_home dstart (sb s) t b F), Hbu|by right|]. intros h c3 R3. kred.
  eapply (runs_data b); [exact R3|apply lookup_insert_eq|]. kred. set (m := Z.min _ _).
  assert (Hm1 : 0 < m ∧ tot + m <= n ∧ (off + tot) mod BSIZE + m <= BSIZE).
  { unfold m. pose proof (Z.mod_pos_bound (off + tot) BSIZE eq_refl). lia. }
  change (tview (hold b h t)) with (tview t). unfold b, bn. rewrite file_bytes_block by lia. fold bn. fold b.
  set (l2 := file_bytes (tview t) i (off + tot) (Z.to_nat m)).
  assert (El : zlen l = tot) by (unfold l; rewrite length_file_bytes; lia).
  assert (El2 : zlen l2 = m) by (unfold l2; rewrite length_file_bytes; lia).
  eapply runs_either_copyout.
  { rewrite El2. eapply writable_sub; [exact Hw|lia|lia|lia|]. intros a Ha. by apply umem_deliver. }
  destruct (Z.eqb_spec 0 (-1)); [done|]. kred.
  eapply (runs_brelse b _ _ (hold b h t)); [by destruct user|apply lookup_insert_eq|apply (t_clean_law b _ _ R'); by rewrite Hh|].
  intros c4 R4. rewrite unhold_hold in R4 by by rewrite Hh. kred. exists m. split; [lia|]. split.
  { unfold u64. rewrite Zplus_mod_idemp_l. do 3 f_equal; lia. }
  exists c4. replace (Z.to_nat (tot + m)) with (Z.to_nat tot + Z.to_nat m)%nat by lia.
  rewrite file_bytes_app. fold l. replace (off + Z.of_nat (Z.to_nat tot)) with (off + tot) by lia. fold l2.
  split; [|done]. rewrite <-(deliver_app user dst l l2).
  - rewrite El, !store_deliver. unfold s1. by rewrite !store_deliver.
  - rewrite length_app. replace (Z.of_nat (length l + length l2)) with (tot + m) by lia.
    destruct user; simpl in *; [|lia]. intros k Hk. apply Hw. lia.
Qed.

Lemma readi_loop_spec :
  in_txn s t → 0 <= n → 0 <= dst < 2 ^ 64 →
  runs (iter (Datatypes.S (Z.to_nat n)) (readi_block ip user n) (0, off, dst)) s (λ r s',
    r = n ∧ read_inv s t i user dst off n s').
Proof.
  intros R Hn0 Hdst.
  apply (runs_iter _ (λ m '(tot, o, d) s', 0 <= tot <= n ∧ m = Z.to_nat (n - tot) ∧ o = off + tot ∧ d = u64 (dst + tot) ∧
      read_inv s t i user dst off tot s')) with (n := Z.to_nat n); [|split_and!; try lia|lia].
  - intros m [[tot o] d] s' (Htot & -> & -> & -> & I). destruct (Z.lt_ge_cases tot n) as [Hlt|Hge].
    + eapply runs_mono; [apply readi_block_spec; [lia|done]|].
      intros r s'' (m & Hm1 & -> & I'). exists (Z.to_nat (n - (tot + m))). split; [lia|]. split_and!; try done; lia.
    + assert (tot = n) as -> by lia. unfold readi_block. rewrite Z.ltb_irrefl. by kred.
  - rewrite Z.add_0_r, u64_small by done. done.
  - exists (store s). change (file_bytes _ _ _ _) with (@nil Z). by destruct s, user.
Qed.
End ReadLoop.

Lemma u32_sum off n : 0 <= off < 2 ^ 32 → 0 <= n < 2 ^ 32 → off <= u32 (off + n) ↔ off + n < 2 ^ 32.
Proof.
  intros Hoff Hn. destruct (Z.lt_ge_cases (off + n) (2 ^ 32)).
  - rewrite u32_small by lia. lia.
  - unfold u32. assert ((off + n) mod 2 ^ 32 = off + n - 2 ^ 32) as ->; [|lia].
    symmetry. apply (Z.mod_unique_pos _ _ 1); lia.
Qed.

Lemma readi_spec s t ip i user dst off n :
  in_txn s t → fs_blocks (sb s) dstart t → theld t = ∅ → room t →
  slot s ip i → i_dev i = ROOTDEV → file_ok (sb s) dstart (tview t) i → mapped (tview t) i →
  0 <= off < 2 ^ 32 → 0 <= n < 2 ^ 32 → 0 <= dst < 2 ^ 64 → writable user (umem s) dst (read_count i off n) →
  runs (readi ip user dst off n) s (λ r s', r = read_count i off n ∧ read_inv s t i user dst off r s').
Proof.
  intros R F Hh Hr Hs Hd Hi Hm Hoff Hn Hdst Hw. unfold readi. kred. eapply runs_geti; [done|].
  pose proof (u32_sum off n Hoff Hn) as Hsum.
  destruct ((i_size i <? off) || (u32 (off + n) <? off)) eqn:Hg.
  { kred. assert (read_count i off n = 0) as ->.
    - unfold read_count. destruct (Z.ltb_spec (off + n) (2 ^ 32)); [|done].
      apply orb_true_iff in Hg as [?%Z.ltb_lt|?%Z.ltb_lt]; lia.
    - split; [done|]. exists (store s). change (file_bytes _ _ _ _) with (@nil Z). by destruct s, user. }
  apply orb_false_iff in Hg as [Hg1%Z.ltb_ge Hg2%Z.ltb_ge]. apply Hsum in Hg2. rewrite u32_small by lia.
  assert (En : (if i_size i <? off + n then i_size i - off else n) = read_count i off n).
  { unfold read_count. destruct (Z.ltb_spec (off + n) (2 ^ 32)); [|lia]. destruct (Z.ltb_spec (i_size i) (off + n)); lia. }
  rewrite En. assert (0 <= read_count i off n ∧ off + read_count i off n <= i_size i) as [? ?].
  { unfold read_count. destruct (Z.ltb_spec (off + n) (2 ^ 32)); lia. }
  eapply runs_mono; [by apply readi_loop_spec; try done; lia|]. by intros r s' [-> ?].
Qed.
End Readi.
