(* ===== verification/Mkfs.v ===== *)
(** mkfs/mkfs.c: the program that builds the initial file system image.

    The image is a file of the host with [dlen] sectors; reading behind its
    end fails, which ends the program, as does a failed assertion.  The reads
    and writes of the host succeed otherwise.  The host is little-endian like
    the disk, so xint and xshort change nothing, and an inode or a directory
    entry is written by the functions of Fs.v that the kernel reads it with.
    A file given on the command line is its name and the pieces in which read
    returns its contents. *)

From S2P Require Import Prelude Mem CString Riscv Spinlock BlockCache TxnStore Log Fs.
Local Open Scope kernel_scope.

Definition NINODES : Z := 200.
Definition nbitmap : Z := FSSIZE / (BSIZE * 8) + 1.
Definition ninodeblocks : Z := NINODES / IPB + 1.
Definition nlog : Z := LOGSIZE.
Definition nmeta : Z := 2 + nlog + ninodeblocks + nbitmap.
Definition nblocks : Z := FSSIZE - nmeta.
Definition mksb : superblock :=
  mkSb FSMAGIC FSSIZE nblocks NINODES nlog 2 (2 + nlog) (2 + nlog + ninodeblocks).

Record mkst := mkM { disk : Z → block; dlen : Z; freeinode : Z; freeblock : Z }.
Definition set_disk (x : Z → block) (n : Z) (s : mkst) : mkst := mkM x n (freeinode s) (freeblock s).
Definition set_freeinode (x : Z) (s : mkst) : mkst := mkM (disk s) (dlen s) x (freeblock s).
Definition set_freeblock (x : Z) (s : mkst) : mkst := mkM (disk s) (dlen s) (freeinode s) x.

Definition assert (b : bool) (msg : string) : K mkst unit := if b then ret tt else panic msg.

Definition wsect (sec : Z) (d : block) : K mkst unit :=
  modify (λ s, set_disk (put_view sec d (disk s)) (Z.max (dlen s) (sec + 1)) s).
Definition rsect (sec : Z) : K mkst block := λ s,
  if sec <? dlen s then Ok (disk s sec) s else Panic "read".

Definition winode (inum : Z) (ip : inode) : K mkst unit :=
  let bn := IBLOCK inum mksb in
  buf <- rsect bn ;;;
  wsect bn (put_dinode buf (dip_off inum) ip).

(** The fields of struct dinode in a struct inode. *)
Definition blank : inode := mkInode 0 0 0 initsleeplock false 0 0 0 0 0 (replicate 13 0).

Definition rinode (inum : Z) : K mkst inode :=
  let bn := IBLOCK inum mksb in
  buf <- rsect bn ;;;
  ret (get_dinode buf (dip_off inum) blank).

Definition ialloc (type : Z) : K mkst Z :=
  inum <- gets freeinode ;;;
  modify (set_freeinode (u32 (inum + 1))) ;;;
  winode inum (set_nlink 1 (set_type type blank)) ;;;
  ret inum.

(** buf[i/8] = buf[i/8] | (0x1 << (i%8)), for i below [n] *)
Fixpoint mark_used (n : nat) (buf : block) : block :=
  match n with
  | O => buf
  | S n' =>
      let buf := mark_used n' buf in
      let i := Z.of_nat n' in
      wr8 buf (i / 8) (Z.lor (rd8 buf (i / 8)) (Z.shiftl 1 (i mod 8)))
  end.

Definition balloc (used : Z) : K mkst unit :=
  assert (used <? BSIZE * 8) "used < BSIZE*8" ;;;
  wsect (sb_bmapstart mksb) (mark_used (Z.to_nat used) ∅).

Definition new_block : K mkst Z :=
  b <- gets freeblock ;;;
  modify (set_freeblock (u32 (b + 1))) ;;;
  ret b.

(** The sector of block [fbn] of the file, which may be new. *)
Definition block_sector (din : inode) (fbn : Z) : K mkst (Z * inode) :=
  if fbn <? NDIRECT then
    din <- (if addr_at din fbn =? 0 then b <- new_block ;;; ret (set_addr fbn b din) else ret din) ;;;
    ret (addr_at din fbn, din)
  else
    din <- (if addr_at din NDIRECT =? 0 then b <- new_block ;;; ret (set_addr NDIRECT b din) else ret din) ;;;
    indirect <- rsect (addr_at din NDIRECT) ;;;
    let a := 4 * (fbn - NDIRECT) in
    indirect <- (if rd32 indirect a =? 0 then
                   b <- new_block ;;;
                   wsect (addr_at din NDIRECT) (wr32 indirect a b) ;;;
                   ret (wr32 indirect a b)
                 else ret indirect) ;;;
    ret (rd32 indirect a, din).

(** A round of the loop of iappend. *)
Definition append_step (x : Z * list Z * inode) : K mkst (Z * list Z * inode + Z * inode) :=
  let '(off, p, din) := x in
  let n := zlen p in
  if n >? 0 then
    let fbn := off / BSIZE in
    assert (fbn <? MAXFILE) "fbn < MAXFILE" ;;;
    let* (x, din) := block_sector din fbn in
    let n1 := Z.min n ((fbn + 1) * BSIZE - off) in
    buf <- rsect x ;;;
    wsect x (wr_bytes buf (off - fbn * BSIZE) (take (Z.to_nat n1) p)) ;;;
    ret (inl (off + n1, drop (Z.to_nat n1) p, din))
  else ret (inr (off, din)).

Definition iappend (inum : Z) (p : list Z) : K mkst unit :=
  din <- rinode inum ;;;
  let* (off, din) := iter (S (length p)) append_step (i_size din, p, din) in
  winode inum (set_size off din).

(** ** main *)

(** struct dirent with the name cut or padded to DIRSIZ bytes *)
Definition dirent (inum : Z) (name : list Z) : list Z :=
  [u8 inum; u8 (inum / 256)] ++ take (Z.to_nat DIRSIZ) (name ++ replicate (Z.to_nat DIRSIZ) 0).

Definition user_prefix : list Z := [117; 115; 101; 114; 47].
Definition shortname (name : list Z) : list Z :=
  if decide (take 5 name = user_prefix) then drop 5 name else name.
(** Without the leading underscore. *)
Definition filename (name : list Z) : list Z :=
  match shortname name with 95 :: r => r | r => r end.

(** The super block as it is on disk. *)
Definition put_sb (d : block) (sb : superblock) : block :=
  wr_addrs d 0 [sb_magic sb; sb_size sb; sb_nblocks sb; sb_ninodes sb; sb_nlog sb; sb_logstart sb; sb_inodestart sb; sb_bmapstart sb].

Fixpoint wzeroes (n : nat) : K mkst unit :=
  match n with
  | O => ret tt
  | S n' => wzeroes n' ;;; wsect (Z.of_nat n') ∅
  end.

Fixpoint append_all (inum : Z) (pieces : list (list Z)) : K mkst unit :=
  match pieces with
  | [] => ret tt
  | p :: pieces => iappend inum p ;;; append_all inum pieces
  end.

Definition add_file (rootino : Z) (f : list Z * list (list Z)) : K mkst unit :=
  assert (negb (existsb (Z.eqb 47) (shortname f.1))) "index(shortname, '/') == 0" ;;;
  inum <- ialloc T_FILE ;;;
  iappend rootino (dirent inum (filename f.1)) ;;;
  append_all inum f.2.

Fixpoint add_files (rootino : Z) (files : list (list Z * list (list Z))) : K mkst unit :=
  match files with
  | [] => ret tt
  | f :: files => add_file rootino f ;;; add_files rootino files
  end.

(** The size of the root directory becomes a multiple of the block size. *)
Definition fix_root (rootino : Z) : K mkst unit :=
  din <- rinode rootino ;;;
  winode rootino (set_size ((i_size din / BSIZE + 1) * BSIZE) din).

Definition mkfs (files : list (list Z * list (list Z))) : K mkst unit :=
  modify (set_freeblock nmeta) ;;;
  wzeroes (Z.to_nat FSSIZE) ;;;
  wsect 1 (put_sb ∅ mksb) ;;;
  rootino <- ialloc T_DIR ;;;
  assert (rootino =? ROOTINO) "rootino == ROOTINO" ;;;
  iappend rootino (dirent rootino [46]) ;;;
  iappend rootino (dirent rootino [46; 46]) ;;;
  add_files rootino files ;;;
  fix_root rootino ;;;
  used <- gets freeblock ;;;
  balloc used.

(** The state in which the program starts. *)
Definition mkfs_start : mkst := mkM (λ _, ∅) 0 1 0.
