(* ===== verification/MkfsSpec.v ===== *)
(** iappend of mkfs: the blocks it gives to a file, and the bytes in them. *)

From S2P Require Import Prelude Mem CString Riscv Spinlock BlockCache TxnStore Log Fs FsBlock FsInode FsFile Mkfs.
Local Open Scope kernel_scope.

(** ** The blocks of one file *)

Definition owns (V : Z → block) (i : inode) (b : Z) : Prop :=
  b ≠ 0 ∧ (b = addr_at i NDIRECT ∨ ∃ k, 0 <= k < MAXFILE ∧ block_of V i k = b).

(** The file with inode [i] has the blocks for exactly [L] bytes, all of them
    below [fb]. *)
Record ftab (V : Z → block) (i : inode) (L fb : Z) : Prop := {
  ft_len : length (i_addrs i) = 13%nat;
  ft_u32 : Forall (λ x, 0 <= x < 2 ^ 32) (i_addrs i);
  ft_some k : 0 <= k < MAXFILE → block_of V i k ≠ 0 ↔ k * BSIZE < L;
  ft_ind : addr_at i NDIRECT ≠ 0 ↔ NDIRECT * BSIZE < L;
  ft_range b : owns V i b → nmeta <= b < fb;
  ft_inj k k' : 0 <= k < MAXFILE → 0 <= k' < MAXFILE → block_of V i k ≠ 0 → block_of V i k = block_of V i k' → k = k';
  ft_ne k : 0 <= k < MAXFILE → block_of V i k ≠ 0 → block_of V i k ≠ addr_at i NDIRECT
}.

(** Its bytes are [l], with zeros up to the end of its last block. *)
Definition holds (V : Z → block) (i : inode) (l : list Z) : Prop :=
  ∀ k a, 0 <= k < MAXFILE → block_of V i k ≠ 0 → 0 <= a < BSIZE →
    rd8 (V (block_of V i k)) a = default 0 (l !! Z.to_nat (k * BSIZE + a)).

Definition zero_block (d : block) : Prop := ∀ a, rd8 d a = 0.

(** The number of blocks of a file of [L] bytes. *)
Definition blocks_for (L : Z) : Z := (L + (BSIZE - 1)) / BSIZE + (if NDIRECT * BSIZE <? L then 1 else 0).

Lemma BSIZE_val : BSIZE = 1024. Proof. done. Qed.
Lemma NDIRECT_val : NDIRECT = 12. Proof. done. Qed.
Lemma nmeta_val : nmeta = 46. Proof. done. Qed.
Lemma FSSIZE_val : FSSIZE = 2000. Proof. done. Qed.
Ltac consts := rewrite ?BSIZE_val, ?NDIRECT_val, ?MAXFILE_val, ?nmeta_val, ?FSSIZE_val in *.

Lemma owns_block V i k : 0 <= k < MAXFILE → block_of V i k ≠ 0 → owns V i (block_of V i k).
Proof. intros Hk H. split; [done|]. right. by exists k. Qed.
Lemma owns_ind V i : addr_at i NDIRECT ≠ 0 → owns V i (addr_at i NDIRECT).
Proof. intros H. split; [done|by left]. Qed.

(** Changing blocks that the file does not own. *)
Lemma block_of_frame V V' i k : (∀ b, owns V i b → V' b = V b) → block_of V' i k = block_of V i k.
Proof. intros H. apply block_of_ext. intros Hn. by apply H, owns_ind. Qed.
Lemma owns_frame V V' i b : (∀ b, owns V i b → V' b = V b) → owns V' i b ↔ owns V i b.
Proof.
  intros H. unfold owns. split; intros [H0 [->|(k & Hk & E)]]; (split; [done|]); [by left| |by left|]; right; exists k; (split; [done|]);
    rewrite <-E; [symmetry|]; by apply block_of_frame.
Qed.

Lemma ftab_frame V V' i L fb fb' : ftab V i L fb → (∀ b, owns V i b → V' b = V b) → fb <= fb' → ftab V' i L fb'.
Proof.
  intros F H Hle. assert (E : ∀ k, block_of V' i k = block_of V i k) by (intros k; by apply block_of_frame).
  destruct F as [H1 H2 H3 H4 H5 H6 H7]. split; [done|done| |done| | |].
  - intros k Hk. rewrite E. by apply H3.
  - intros b Hb. apply (owns_frame V V') in Hb; [|done]. apply H5 in Hb. lia.
  - intros k k' ? ?. rewrite !E. by apply H6.
  - intros k ?. rewrite !E. by apply H7.
Qed.

Lemma holds_frame V V' i l : holds V i l → (∀ b, owns V i b → V' b = V b) → holds V' i l.
Proof.
  intros Hh H k a Hk Hn Ha. assert (E : block_of V' i k = block_of V i k) by by apply block_of_frame. rewrite E in *.
  rewrite H by by apply owns_block. by apply Hh.
Qed.

(** ** Finding the block of an offset *)

(** What block_sector leaves: the same file with one more block, [x], which
    is new and zero unless the file had it. *)
Record sector_post (s : mkst) (i : inode) (L : Z) (x : Z) (i' : inode) (s' : mkst) : Prop := {
  sp_tab L' : L < L' → L' <= (L / BSIZE + 1) * BSIZE → ftab (disk s') i' L' (freeblock s');
  sp_cost L' : L < L' → L' <= (L / BSIZE + 1) * BSIZE → freeblock s' = freeblock s + (blocks_for L' - blocks_for L);
  sp_x : block_of (disk s') i' (L / BSIZE) = x;
  sp_old k : 0 <= k < MAXFILE → k ≠ L / BSIZE → block_of (disk s') i' k = block_of (disk s) i k;
  sp_new : block_of (disk s) i (L / BSIZE) = x ∨ (block_of (disk s) i (L / BSIZE) = 0 ∧ freeblock s <= x < freeblock s');
  sp_ind : addr_at i' NDIRECT = addr_at i NDIRECT ∨ (addr_at i NDIRECT = 0 ∧ freeblock s <= addr_at i' NDIRECT < freeblock s');
  sp_disk b : b ≠ addr_at i' NDIRECT → disk s' b = disk s b;
  sp_cover b : freeblock s <= b < freeblock s' → owns (disk s') i' b;
  sp_frame : dlen s' = dlen s ∧ freeinode s' = freeinode s ∧ freeblock s <= freeblock s';
  sp_meta : i_size i' = i_size i ∧ i_type i' = i_type i ∧ i_nlink i' = i_nlink i ∧ i_major i' = i_major i ∧ i_minor i' = i_minor i
}.

Lemma blocks_for_within L L' :
  0 <= L → L < L' → L' <= (L / BSIZE + 1) * BSIZE →
  blocks_for L' = L / BSIZE + 1 + (if NDIRECT <=? L / BSIZE then 1 else 0).
Proof.
  intros H0 H1 H2. unfold blocks_for. consts. destruct (Z.ltb_spec (12 * 1024) L'), (Z.leb_spec 12 (L / 1024)); zdm.
Qed.

Lemma blocks_for_at L :
  0 <= L → blocks_for L =
    if L mod BSIZE =? 0 then L / BSIZE + (if NDIRECT <? L / BSIZE then 1 else 0)
    else L / BSIZE + 1 + (if NDIRECT <=? L / BSIZE then 1 else 0).
Proof.
  intros H0. unfold blocks_for. consts. destruct (Z.eqb_spec (L mod 1024) 0), (Z.ltb_spec (12 * 1024) L);
    destruct (Z.ltb_spec 12 (L / 1024)), (Z.leb_spec 12 (L / 1024)); zdm.
Qed.

(** A file with one more block. *)
Lemma ftab_extend V i L fb V' i' x fb' L' :
  ftab V i L fb → 0 <= L → L mod BSIZE = 0 → L / BSIZE < MAXFILE → nmeta <= fb <= fb' →
  length (i_addrs i') = 13%nat → Forall (λ x, 0 <= x < 2 ^ 32) (i_addrs i') →
  block_of V' i' (L / BSIZE) = x → fb <= x < fb' →
  (∀ k, 0 <= k < MAXFILE → k ≠ L / BSIZE → block_of V' i' k = block_of V i k) →
  (addr_at i' NDIRECT = addr_at i NDIRECT ∧ L / BSIZE ≠ NDIRECT ∨
   L / BSIZE = NDIRECT ∧ fb <= addr_at i' NDIRECT < fb' ∧ addr_at i' NDIRECT ≠ x) →
  L < L' → L' <= (L / BSIZE + 1) * BSIZE → ftab V' i' L' fb'.
Proof.
  intros F H0 Hm Hmax Hfb Hl Hu Hx Hxr Hold Hind HL HL'. pose proof F as [_ _ F3 F4 F5 F6 F7]. consts.
  assert (Hk : 0 <= L / 1024) by zdm.
  assert (Hrange : ∀ k, 0 <= k < 268 → block_of V i k ≠ 0 → 46 <= block_of V i k < fb) by (intros k ? ?; by apply F5, owns_block).
  assert (Hnone : ∀ k, 0 <= k < 268 → block_of V i k ≠ 0 → k ≠ L / 1024) by (intros k ? Hn ->; apply F3 in Hn; [zdm|done]).
  assert (Hri : addr_at i 12 ≠ 0 → 46 <= addr_at i 12 < fb) by (intros Hn; by apply F5, owns_ind).
  split; [done|done| | | | |]; consts.
  - intros k Hkr. destruct (decide (k = L / 1024)) as [->|Hne]; [rewrite Hx; zdm|]. rewrite (Hold k) by done. rewrite F3 by done. zdm.
  - destruct Hind as [[-> ?]|(? & ? & ?)]; [rewrite F4; zdm|zdm].
  - intros b [Hb0 [->|(k & Hkr & <-)]]; consts.
    + destruct Hind as [[E ?]|(? & ? & ?)]; [|lia]. rewrite E in *. specialize (Hri Hb0). lia.
    + destruct (decide (k = L / 1024)) as [->|Hne]; [lia|]. rewrite (Hold k) in * by done. specialize (Hrange k Hkr Hb0). lia.
  - intros k k' Hkr Hkr'. destruct (decide (k = L / 1024)) as [->|Hne], (decide (k' = L / 1024)) as [->|Hne']; [done| | |].
    + rewrite Hx, (Hold k') by done. intros Hn E. pose proof (Hrange k' Hkr' ltac:(lia)). lia.
    + rewrite Hx, (Hold k) by done. intros Hn E. pose proof (Hrange k Hkr Hn). lia.
    + rewrite (Hold k), (Hold k') by done. by apply F6.
  - intros k Hkr. destruct (decide (k = L / 1024)) as [->|Hne].
    + rewrite Hx. intros _. destruct Hind as [[-> ?]|(? & ? & ?)]; [|lia]. intros E. rewrite E in Hxr. specialize (Hri ltac:(lia)). lia.
    + rewrite (Hold k) by done. intros Hn. destruct Hind as [[-> ?]|(? & ? & ?)]; [by apply F7|]. pose proof (Hrange k Hkr Hn). lia.
Qed.

(** The file has the block already. *)
Lemma ftab_within V i L fb L' :
  ftab V i L fb → 0 <= L → L mod BSIZE ≠ 0 → L < L' → L' <= (L / BSIZE + 1) * BSIZE → ftab V i L' fb.
Proof.
  intros [F1 F2 F3 F4 F5 F6 F7] H0 Hm HL HL'. consts. split; [done|done| | |done|done|done]; consts.
  - intros k Hk. rewrite F3 by done. zdm.
  - rewrite F4. zdm.
Qed.

Definition fresh_zero (s : mkst) : Prop := ∀ b, freeblock s <= b → zero_block (disk s b).

Lemma runs_new_block s (Q : Z → mkst → Prop) :
  0 <= freeblock s < 2 ^ 31 → Q (freeblock s) (set_freeblock (freeblock s + 1) s) → runs new_block s Q.
Proof. intros Hb HQ. unfold new_block. kred. rewrite u32_small by lia. done. Qed.

Lemma runs_rsect sec s (Q : block → mkst → Prop) : sec < dlen s → Q (disk s sec) s → runs (rsect sec) s Q.
Proof. intros H HQ. unfold runs, rsect. by destruct (Z.ltb_spec sec (dlen s)); [|lia]. Qed.

Lemma runs_wsect sec d s (Q : unit → mkst → Prop) :
  sec < dlen s → Q tt (set_disk (put_view sec d (disk s)) (dlen s) s) → runs (wsect sec d) s Q.
Proof. intros H HQ. unfold wsect. kred. by rewrite Z.max_l by lia. Qed.

Lemma zero_rd32 d a : zero_block d → rd32 d a = 0.
Proof. intros H. apply rd_le_zero. intros b _. apply H. Qed.

Lemma block_of_set_direct V i k n x :
  length (i_addrs i) = 13%nat → 0 <= n < NDIRECT → 0 <= k →
  block_of V (set_addr n x i) k = if decide (k = n) then x else block_of V i k.
Proof.
  intros Hl Hn Hk. unfold block_of. consts. destruct (Z.ltb_spec k 12).
  - by rewrite addr_at_set by lia.
  - rewrite addr_at_set, decide_False by lia. by rewrite decide_False by lia.
Qed.

Lemma u32_set_addr n x i :
  Forall (λ x, 0 <= x < 2 ^ 32) (i_addrs i) → 0 <= x < 2 ^ 32 → Forall (λ x, 0 <= x < 2 ^ 32) (i_addrs (set_addr n x i)).
Proof. intros H Hx. simpl. by apply Forall_insert. Qed.

Lemma sector_fits L L' : 0 <= L → L < L' → L' <= (L / BSIZE + 1) * BSIZE → blocks_for L' = blocks_for (L + 1).
Proof.
  intros HL H1 H2. rewrite (blocks_for_within L L'), (blocks_for_within L (L + 1)); [done|done|lia| |done|lia|done]. consts. zdm.
Qed.

Lemma sector_cost L : 0 <= L → L mod BSIZE = 0 →
  blocks_for (L + 1) - blocks_for L = 1 + (if L / BSIZE =? NDIRECT then 1 else 0).
Proof.
  intros HL Hm. rewrite (blocks_for_within L (L + 1)), (blocks_for_at L); [|done|done|lia|consts; zdm]. consts.
  destruct (Z.eqb_spec (L mod 1024) 0); [|done]. destruct (Z.ltb_spec 12 (L / 1024)), (Z.leb_spec 12 (L / 1024)), (Z.eqb_spec (L / 1024) 12); lia.
Qed.

(** The table of indirect blocks with one more entry. *)
Lemma block_of_entry V i i' ia d n b k :
  addr_at i' NDIRECT = ia → ia ≠ 0 → NDIRECT <= n < MAXFILE → 0 <= b < 2 ^ 32 → 0 <= k < MAXFILE →
  (∀ k, 0 <= k < NDIRECT → addr_at i' k = addr_at i k) →
  (∀ k, NDIRECT <= k < MAXFILE → rd32 d (4 * (k - NDIRECT)) = block_of V i k) →
  block_of (put_view ia (wr32 d (4 * (n - NDIRECT)) b) V) i' k = if decide (k = n) then b else block_of V i k.
Proof.
  intros Ei H0 Hn Hb Hk Hd Hi. consts. destruct (decide (k < 12)).
  - rewrite !block_of_direct by (consts; lia). rewrite decide_False by lia. apply Hd. lia.
  - rewrite block_of_indirect by (consts; lia). consts. rewrite Ei, put_view_eq. case_decide as E.
    + subst k. rewrite rd32_wr32_same. by apply u32_small.
    + rewrite <-Hi by lia. unfold rd32, wr32. rewrite rd_le_wr_le_ne; [done|]. lia.
Qed.

Section Sector.
Context (s : mkst) (i : inode) (L : Z).
Hypothesis (F : ftab (disk s) i L (freeblock s)) (HL : 0 <= L) (Hmax : L / BSIZE < MAXFILE) (Hfb : nmeta <= freeblock s)
  (Hlen : dlen s = FSSIZE) (Hfit : freeblock s + (blocks_for (L + 1) - blocks_for L) <= FSSIZE) (Hz : fresh_zero s).

(** The block is there. *)
Lemma sector_same : L mod BSIZE ≠ 0 → sector_post s i L (block_of (disk s) i (L / BSIZE)) i s.
Proof.
  intros Hm. split; try done; [intros; by eapply ftab_within| |by left|by left|intros; lia].
  intros L' H1 H2. rewrite (blocks_for_at L), (blocks_for_within L L') by done.
  destruct (Z.eqb_spec (L mod BSIZE) 0); [done|]. lia.
Qed.

Lemma sector_absent : L mod BSIZE = 0 → block_of (disk s) i (L / BSIZE) = 0.
Proof.
  intros Hm. destruct (decide (block_of (disk s) i (L / BSIZE) = 0)) as [|Hn]; [done|]. apply (ft_some _ _ _ _ F) in Hn; consts; zdm.
Qed.

Lemma runs_sector_direct :
  L / BSIZE < NDIRECT → runs (block_sector i (L / BSIZE)) s (λ '(x, i') s', sector_post s i L x i' s').
Proof.
  intros Hd. unfold block_sector. destruct (Z.ltb_spec (L / BSIZE) NDIRECT); [|lia]. apply runs_bind.
  assert (Hk : 0 <= L / BSIZE) by (consts; zdm). assert (Eb : block_of (disk s) i (L / BSIZE) = addr_at i (L / BSIZE)) by by apply block_of_direct.
  destruct (Z.eqb_spec (addr_at i (L / BSIZE)) 0) as [E|E].
  - assert (Hm : L mod BSIZE = 0).
    { rewrite <-Eb in E. assert (Hn : ¬ (L / BSIZE * BSIZE < L)) by (intros Hn; by apply (ft_some _ _ _ _ F) in Hn). consts. zdm. }
    rewrite sector_cost in Hfit by done. destruct (Z.eqb_spec (L / BSIZE) NDIRECT); [lia|]. pose proof (ft_len _ _ _ _ F) as Hl. consts.
    apply runs_bind, runs_new_block; [lia|]. kred. set (i' := set_addr (L / 1024) (freeblock s) i).
    assert (Ex : addr_at i' (L / 1024) = freeblock s) by (unfold i'; rewrite addr_at_set, decide_True by lia; done).
    assert (Ei : addr_at i' 12 = addr_at i 12) by (unfold i'; by rewrite addr_at_set, decide_False by lia).
    assert (Eo : ∀ k, 0 <= k → block_of (disk s) i' k = if decide (k = L / 1024) then freeblock s else block_of (disk s) i k).
    { intros k Hk'. apply block_of_set_direct; consts; lia. }
    rewrite Ex. split; consts; cbn [disk freeblock set_freeblock dlen freeinode]; try done.
    + intros L' H1 H2. eapply (ftab_extend _ _ L (freeblock s) _ _ (freeblock s)); consts; try done; try lia.
      * unfold i'. simpl. by rewrite length_insert.
      * apply u32_set_addr; [apply F|lia].
      * rewrite Eo, decide_True by lia. done.
      * intros k Hk' Hne. rewrite Eo, decide_False by lia. done.
    + intros L' H1 H2. rewrite (sector_fits L L') by (consts; lia). rewrite sector_cost by (consts; lia). consts. destruct (Z.eqb_spec (L / 1024) 12); lia.
    + rewrite Eo, decide_True by lia. done.
    + intros k Hk' Hne. rewrite Eo, decide_False by lia. done.
    + right. rewrite Eb. split; [done|lia].
    + by left.
    + intros b Hb. replace b with (block_of (disk s) i' (L / 1024)) by (rewrite Eo, decide_True by lia; lia).
      apply owns_block; [consts; lia|]. rewrite Eo, decide_True by lia. lia.
    + split_and!; [done|done|lia].
  - kred. rewrite <-Eb in *. assert (Hm : L mod BSIZE ≠ 0) by (apply (ft_some _ _ _ _ F) in E; consts; zdm).
    by apply sector_same.
Qed.

Lemma runs_sector_entry s1 i1 :
  L mod BSIZE = 0 → NDIRECT <= L / BSIZE → dlen s1 = FSSIZE → freeinode s1 = freeinode s → disk s1 = disk s →
  nmeta <= freeblock s1 < FSSIZE → freeblock s1 + 1 = freeblock s + (blocks_for (L + 1) - blocks_for L) →
  nmeta <= addr_at i1 NDIRECT < freeblock s1 → length (i_addrs i1) = 13%nat → Forall (λ x, 0 <= x < 2 ^ 32) (i_addrs i1) →
  (∀ k, 0 <= k < NDIRECT → addr_at i1 k = addr_at i k) →
  (∀ k, NDIRECT <= k < MAXFILE → rd32 (disk s (addr_at i1 NDIRECT)) (4 * (k - NDIRECT)) = block_of (disk s) i k) →
  (addr_at i1 NDIRECT = addr_at i NDIRECT ∧ L / BSIZE ≠ NDIRECT ∨
   L / BSIZE = NDIRECT ∧ addr_at i NDIRECT = 0 ∧ freeblock s <= addr_at i1 NDIRECT < freeblock s1) →
  freeblock s <= freeblock s1 →
  (i_size i1 = i_size i ∧ i_type i1 = i_type i ∧ i_nlink i1 = i_nlink i ∧ i_major i1 = i_major i ∧ i_minor i1 = i_minor i) →
  runs (
    indirect <- rsect (addr_at i1 NDIRECT) ;;;
    indirect <- (if rd32 indirect (4 * (L / BSIZE - NDIRECT)) =? 0 then
                   b <- new_block ;;;
                   wsect (addr_at i1 NDIRECT) (wr32 indirect (4 * (L / BSIZE - NDIRECT)) b) ;;;
                   ret (wr32 indirect (4 * (L / BSIZE - NDIRECT)) b)
                 else ret indirect) ;;;
    ret (rd32 indirect (4 * (L / BSIZE - NDIRECT)), i1)) s1 (λ '(x, i') s', sector_post s i L x i' s').
Proof.
  intros Hm Hd Hlen1 Hfi Hdisk Hfb1 Hcost Hia Hl1 Hu1 Hdir Hind Hnew Hle Hmeta.
  pose proof (sector_absent Hm) as Habs.
  assert (Hent := Hind (L / BSIZE) ltac:(consts; zdm)). rewrite Habs in Hent.
  apply runs_bind, runs_rsect; [consts; lia|]. rewrite Hdisk, Hent. simpl. apply runs_bind, runs_bind, runs_new_block; [consts; lia|].
  apply runs_bind, runs_wsect; [simpl; consts; lia|]. kred. rewrite rd32_wr32_same. set (ia := addr_at i1 NDIRECT) in *. set (b := freeblock s1) in *.
  rewrite u32_small by (consts; lia).
  assert (Eo : ∀ k, 0 <= k < MAXFILE → block_of (put_view ia (wr32 (disk s ia) (4 * (L / BSIZE - NDIRECT)) b) (disk s)) i1 k =
    if decide (k = L / BSIZE) then b else block_of (disk s) i k).
  { intros k Hk. apply block_of_entry; try done; consts; lia. }
  split; cbn [disk freeblock set_freeblock set_disk dlen freeinode]; rewrite ?Hdisk.
  - intros L' H1 H2. eapply (ftab_extend _ _ L (freeblock s) _ _ b); try done; try (consts; lia).
    + rewrite Eo, decide_True by (consts; zdm). done.
    + intros k Hk Hne. by rewrite Eo, decide_False by done.
    + destruct Hnew as [[? ?]|(? & ? & ?)]; [left; done|right]. split_and!; [done|lia|lia|lia].
  - intros L' H1 H2. rewrite (sector_fits L L') by done. lia.
  - rewrite Eo, decide_True by (consts; zdm). done.
  - intros k Hk Hne. by rewrite Eo, decide_False by done.
  - right. split; [done|]. lia.
  - destruct Hnew as [[? ?]|(? & ? & ?)]; [by left|right]. split; [done|lia].
  - intros x Hx. by rewrite put_view_ne.
  - intros x Hx. rewrite (sector_cost L HL Hm) in Hcost. destruct (decide (x = b)) as [->|Hxb].
    + replace b with (block_of (put_view ia (wr32 (disk s ia) (4 * (L / BSIZE - NDIRECT)) b) (disk s)) i1 (L / BSIZE)) at 2 by (rewrite Eo, decide_True by (consts; zdm); done).
      apply owns_block; [consts; zdm|]. rewrite Eo, decide_True by (consts; zdm). consts. lia.
    + destruct Hnew as [[? ?]|(? & ? & ?)]; (destruct (Z.eqb_spec (L / BSIZE) NDIRECT); [|lia]); [done|].
      replace x with (addr_at i1 NDIRECT) by lia. apply owns_ind. change (ia ≠ 0). consts. lia.
  - split_and!; [congruence|done|lia].
  - done.
Qed.

Lemma runs_sector_indirect :
  NDIRECT <= L / BSIZE → runs (block_sector i (L / BSIZE)) s (λ '(x, i') s', sector_post s i L x i' s').
Proof.
  intros Hd. unfold block_sector. destruct (Z.ltb_spec (L / BSIZE) NDIRECT); [lia|].
  pose proof (ft_len _ _ _ _ F) as Hl. pose proof (ft_u32 _ _ _ _ F) as Hu. pose proof (ft_ind _ _ _ _ F) as Hi.
  assert (Hir : addr_at i NDIRECT ≠ 0 → nmeta <= addr_at i NDIRECT < freeblock s) by (intros Hn; by apply (ft_range _ _ _ _ F), owns_ind).
  destruct (decide (L mod BSIZE = 0)) as [Hm|Hm].
  - pose proof (sector_cost L HL Hm) as Hc. pose proof Hfit as Hfit1. rewrite Hc in Hfit1. apply runs_bind. destruct (Z.eqb_spec (L / BSIZE) NDIRECT) as [En|En].
    + assert (E0 : addr_at i NDIRECT = 0).
      { destruct (decide (addr_at i NDIRECT = 0)) as [|Hn]; [done|]. apply Hi in Hn. consts. zdm. }
      rewrite E0. simpl. apply runs_bind, runs_new_block; [consts; lia|]. apply runs_ret. cbv beta.
      assert (Ea : ∀ m, 0 <= m → addr_at (set_addr NDIRECT (freeblock s) i) m = if decide (m = NDIRECT) then freeblock s else addr_at i m).
      { intros m Hm'. apply addr_at_set; [done|done|done]. }
      assert (Ei : addr_at (set_addr NDIRECT (freeblock s) i) NDIRECT = freeblock s) by (rewrite Ea by done; by rewrite decide_True).
      apply runs_sector_entry; cbn [dlen freeinode disk freeblock set_freeblock]; rewrite ?Ei; try done; try (consts; lia).
      * simpl. by rewrite length_insert.
      * apply u32_set_addr; [done|consts; lia].
      * intros k Hk. rewrite Ea by lia. by rewrite decide_False by lia.
      * intros k Hk. rewrite zero_rd32 by (apply Hz; lia). unfold block_of. destruct (Z.ltb_spec k NDIRECT); [lia|]. by rewrite E0.
    + assert (E0 : addr_at i NDIRECT ≠ 0) by (apply Hi; consts; zdm). specialize (Hir E0).
      destruct (Z.eqb_spec (addr_at i NDIRECT) 0); [done|]. apply runs_ret. cbv beta.
      apply runs_sector_entry; try done; try (consts; lia).
      intros k Hk. symmetry. apply block_of_indirect; [lia|done].
  - assert (Hb : block_of (disk s) i (L / BSIZE) ≠ 0) by (apply (ft_some _ _ _ _ F); consts; zdm).
    assert (E0 : addr_at i NDIRECT ≠ 0) by (apply Hi; consts; zdm). specialize (Hir E0).
    rewrite block_of_indirect in Hb by done.
    assert (Hfs : freeblock s <= FSSIZE).
    { pose proof Hfit as Hfit1. rewrite (blocks_for_at L), (blocks_for_within L (L + 1)) in Hfit1; [|done|lia|consts; zdm|done].
      destruct (Z.eqb_spec (L mod BSIZE) 0); [done|]. lia. }
    apply runs_bind. destruct (Z.eqb_spec (addr_at i NDIRECT) 0); [done|]. kred. apply runs_rsect; [consts; lia|].
    destruct (Z.eqb_spec (rd32 (disk s (addr_at i NDIRECT)) (4 * (L / BSIZE - NDIRECT))) 0); [done|]. kred.
    rewrite <-block_of_indirect by done. by apply sector_same.
Qed.

Lemma runs_block_sector : runs (block_sector i (L / BSIZE)) s (λ '(x, i') s', sector_post s i L x i' s').
Proof. destruct (decide (L / BSIZE < NDIRECT)); [by apply runs_sector_direct|apply runs_sector_indirect; lia]. Qed.
End Sector.

(** ** Appending *)

Lemma sp_owns_new s i L x i' s' b :
  0 <= L → L / BSIZE < MAXFILE → sector_post s i L x i' s' → owns (disk s') i' b → owns (disk s) i b ∨ freeblock s <= b.
Proof.
  intros HL Hmax [_ _ Hx Hold Hnew Hind _ _ _ _] [H0 [->|(k & Hk & <-)]].
  - destruct Hind as [E|[? ?]]; [|right; lia]. rewrite E in *. left. by apply owns_ind.
  - destruct (decide (k = L / BSIZE)) as [->|Hne].
    + rewrite Hx in *. destruct Hnew as [E|[? ?]]; [left|right; lia]. rewrite <-E in *. by apply owns_block.
    + rewrite (Hold k) in * by done. left. by apply owns_block.
Qed.

Lemma sp_owns_old s i L x i' s' b :
  0 <= L → L / BSIZE < MAXFILE → sector_post s i L x i' s' → owns (disk s) i b → owns (disk s') i' b.
Proof.
  intros HL Hmax [_ _ Hx Hold Hnew Hind _ _ _ _] [H0 [->|(k & Hk & <-)]].
  - destruct Hind as [E|[? ?]]; [|done]. rewrite <-E in *. by apply owns_ind.
  - destruct (decide (k = L / BSIZE)) as [->|Hne].
    + destruct Hnew as [E|[? ?]]; [|done]. rewrite E, <-Hx in *. by apply owns_block.
    + rewrite <-(Hold k) in * by done. by apply owns_block.
Qed.

(** Writing a data block. *)
Lemma block_of_poke V i x d k : x ≠ addr_at i NDIRECT → block_of (put_view x d V) i k = block_of V i k.
Proof. intros Hx. apply block_of_ext. intros _. by apply put_view_ne. Qed.

Lemma owns_poke V i x d b : x ≠ addr_at i NDIRECT → owns (put_view x d V) i b ↔ owns V i b.
Proof.
  intros Hx. unfold owns. split; intros [H0 [->|(k & Hk & E)]]; (split; [done|]); [by left| |by left|]; right; exists k; (split; [done|]);
    rewrite <-E; [symmetry|]; by apply block_of_poke.
Qed.

Lemma ftab_poke V i x d L fb : x ≠ addr_at i NDIRECT → ftab V i L fb → ftab (put_view x d V) i L fb.
Proof.
  intros Hx [H1 H2 H3 H4 H5 H6 H7]. split; [done|done| |done| | |].
  - intros k Hk. rewrite block_of_poke by done. by apply H3.
  - intros b Hb%owns_poke; [by apply H5|done].
  - intros k k' ? ?. rewrite !block_of_poke by done. by apply H6.
  - intros k ?. rewrite !block_of_poke by done. by apply H7.
Qed.

(** The contents after [c] was written at the end of [l]. *)
Lemma holds_append s i l x i' s' c :
  zlen l / BSIZE < MAXFILE → ftab (disk s) i (zlen l) (freeblock s) → holds (disk s) i l → fresh_zero s →
  sector_post s i (zlen l) x i' s' → (0 < length c)%nat → zlen l + zlen c <= (zlen l / BSIZE + 1) * BSIZE → Forall (λ x, 0 <= x < 256) c →
  holds (put_view x (wr_bytes (disk s' x) (zlen l - zlen l / BSIZE * BSIZE) c) (disk s')) i' (l ++ c).
Proof.
  intros Hmax F Hh Hz P Hc Hfit Hb k a Hk Hn Ha. set (L := zlen l) in *.
  pose proof (sp_tab _ _ _ _ _ _ P (L + zlen c) ltac:(lia) Hfit) as F'. pose proof (sp_x _ _ _ _ _ _ P) as Ex.
  assert (HLk : 0 <= L / BSIZE) by (consts; zdm).
  assert (Hx0 : block_of (disk s') i' (L / BSIZE) ≠ 0) by (apply (ft_some _ _ _ _ F'); consts; zdm).
  assert (Hxn : x ≠ addr_at i' NDIRECT) by (rewrite <-Ex; by apply (ft_ne _ _ _ _ F'); [consts; lia|]).
  rewrite block_of_poke in Hn |- * by done. destruct (decide (k = L / BSIZE)) as [->|Hne].
  - rewrite Ex, put_view_eq, rd8_wr_bytes.
    assert (Hold : rd8 (disk s' x) a = default 0 (l !! Z.to_nat (L / BSIZE * BSIZE + a))).
    { rewrite (sp_disk _ _ _ _ _ _ P) by done. destruct (sp_new _ _ _ _ _ _ P) as [E|[E ?]].
      - rewrite <-E. apply Hh; [consts; lia|by rewrite E, <-Ex|done].
      - rewrite (Hz x ltac:(lia) a), lookup_ge_None_2; [done|].
        assert (¬ (L / BSIZE * BSIZE < L)) by (intros Hx; by apply (ft_some _ _ _ _ F) in Hx; [|consts; lia]). unfold L in *. consts. zdm. }
    unfold L in *. case_decide.
    + rewrite lookup_app_r by (consts; zdm). replace (Z.to_nat (zlen l / BSIZE * BSIZE + a) - length l)%nat
        with (Z.to_nat (a - (zlen l - zlen l / BSIZE * BSIZE))) by (consts; zdm).
      destruct (lookup_lt_is_Some_2 c (Z.to_nat (a - (zlen l - zlen l / BSIZE * BSIZE)))) as [v Hv]; [lia|].
      rewrite Hv. simpl. apply u8_small. by eapply Forall_lookup_1 in Hb.
    + rewrite Hold. destruct (decide (a < zlen l - zlen l / BSIZE * BSIZE)).
      * rewrite lookup_app_l by (consts; zdm). done.
      * rewrite !lookup_ge_None_2; [done|rewrite length_app; consts; zdm|consts; zdm].
  - assert (Hlt : k * BSIZE < L + zlen c) by by apply (ft_some _ _ _ _ F').
    assert (Hxk : x ≠ block_of (disk s') i' k).
    { rewrite <-Ex. intros E. apply Hne. symmetry. apply (ft_inj _ _ _ _ F'); [consts; lia|done|done|done]. }
    rewrite put_view_ne by done. rewrite (sp_disk _ _ _ _ _ _ P) by by apply (ft_ne _ _ _ _ F').
    rewrite (sp_old _ _ _ _ _ _ P k) in * by done. rewrite Hh by done. rewrite lookup_app_l; [done|]. unfold L in *. consts. zdm.
Qed.

(** The inode and the state while [l] is appended, started with [s0], [i0]
    and the contents [l0]. *)
Record appending (s0 : mkst) (i0 : inode) (l0 : list Z) (i : inode) (l : list Z) (s : mkst) : Prop := {
  ap_tab : ftab (disk s) i (zlen l) (freeblock s);
  ap_holds : holds (disk s) i l;
  ap_zero : fresh_zero s;
  ap_dlen : dlen s = FSSIZE;
  ap_inode : freeinode s = freeinode s0;
  ap_free : nmeta <= freeblock s0 <= freeblock s;
  ap_cost : freeblock s = freeblock s0 + (blocks_for (zlen l) - blocks_for (zlen l0));
  ap_frame b : 0 < b → ¬ owns (disk s) i b → disk s b = disk s0 b;
  ap_owns b : owns (disk s) i b → owns (disk s0) i0 b ∨ freeblock s0 <= b;
  ap_cover b : freeblock s0 <= b < freeblock s ∨ owns (disk s0) i0 b → owns (disk s) i b;
  ap_meta : i_size i = i_size i0 ∧ i_type i = i_type i0 ∧ i_nlink i = i_nlink i0 ∧ i_major i = i_major i0 ∧ i_minor i = i_minor i0
}.

Lemma blocks_for_mono L L' : 0 <= L → L <= L' → blocks_for L <= blocks_for L'.
Proof. intros. unfold blocks_for. consts. destruct (Z.ltb_spec (12 * 1024) L), (Z.ltb_spec (12 * 1024) L'); zdm. Qed.

Lemma appending_step s0 i0 l0 i l s p :
  appending s0 i0 l0 i l s → p ≠ [] → Forall (λ x, 0 <= x < 256) p → zlen l + zlen p <= MAXFILE * BSIZE →
  freeblock s0 + (blocks_for (zlen l + zlen p) - blocks_for (zlen l0)) <= FSSIZE →
  runs (append_step (zlen l, p, i)) s (λ r s', ∃ i' n, r = inl (zlen (l ++ take n p), drop n p, i') ∧ (0 < n <= length p)%nat ∧
    appending s0 i0 l0 i' (l ++ take n p) s').
Proof.
  intros [F Hh Hz Hd Hfi Hfb Hcost Hfr Hown Hcov Hmeta] Hp Hb Hmax Hfit. unfold append_step.
  assert (Hpos : 0 < zlen p) by (destruct p; simpl; [done|lia]). destruct (Z.gtb_spec (zlen p) 0); [|lia].
  assert (Hk : zlen l / BSIZE < MAXFILE) by (consts; zdm). unfold assert. destruct (Z.ltb_spec (zlen l / BSIZE) MAXFILE); [|lia]. kred.
  pose proof (blocks_for_mono (zlen l + 1) (zlen l + zlen p) ltac:(lia) ltac:(lia)) as Hmono.
  eapply runs_mono; [apply (runs_block_sector s i (zlen l)); try done; try lia|]. intros [x i'] s1 P.
  set (n1 := Z.min (zlen p) ((zlen l / BSIZE + 1) * BSIZE - zlen l)). assert (Hn1 : 0 < n1 <= zlen p) by (unfold n1; consts; zdm).
  set (c := take (Z.to_nat n1) p). assert (Hc : zlen c = n1) by (unfold c; rewrite length_take; lia).
  assert (Hcf : zlen l + zlen c <= (zlen l / BSIZE + 1) * BSIZE) by (unfold n1 in Hc; lia).
  pose proof (sp_tab _ _ _ _ _ _ P (zlen l + zlen c) ltac:(lia) Hcf) as F'. pose proof (sp_x _ _ _ _ _ _ P) as Ex.
  pose proof (sp_cost _ _ _ _ _ _ P (zlen l + zlen c) ltac:(lia) Hcf) as Hcost'. destruct (sp_frame _ _ _ _ _ _ P) as (Ed & Ei & Hle).
  assert (HLk : 0 <= zlen l / BSIZE) by (consts; zdm).
  assert (Hx0 : block_of (disk s1) i' (zlen l / BSIZE) ≠ 0) by (apply (ft_some _ _ _ _ F'); consts; zdm).
  assert (Hxn : x ≠ addr_at i' NDIRECT) by (rewrite <-Ex; by apply (ft_ne _ _ _ _ F'); [consts; lia|]).
  assert (Hxo : owns (disk s1) i' x) by (rewrite <-Ex; apply owns_block; [consts; lia|done]).
  pose proof (ft_range _ _ _ _ F' x Hxo) as Hxr. pose proof (blocks_for_mono (zlen l + zlen c) (zlen l + zlen p) ltac:(lia) ltac:(lia)).
  apply runs_bind, runs_rsect; [lia|]. apply runs_bind, runs_wsect; [lia|]. kred. fold c. exists i', (Z.to_nat n1). fold c. split_and!; [|lia|lia|].
  { f_equal. f_equal. f_equal. rewrite length_app. lia. }
  split; cbn [disk dlen freeinode freeblock set_disk].
  - rewrite length_app, Nat2Z.inj_add. by apply ftab_poke.
  - apply (holds_append s i l x i' s1 c); try done; [lia|]. by apply Forall_take.
  - intros b Hb' a. cbn [disk freeblock set_disk] in *. rewrite put_view_ne by lia. destruct (decide (b = addr_at i' NDIRECT)) as [->|Hne].
    + destruct (decide (addr_at i' NDIRECT = 0)) as [E0|E0]; [rewrite E0 in *; consts; lia|].
      pose proof (ft_range _ _ _ _ F' _ (owns_ind (disk s1) i' E0)). lia.
    + rewrite (sp_disk _ _ _ _ _ _ P) by done. apply Hz. lia.
  - lia.
  - congruence.
  - lia.
  - rewrite length_app, Nat2Z.inj_add. lia.
  - intros b Hb0 Hb'. rewrite owns_poke in Hb' by done. destruct (decide (b = x)) as [->|]; [done|]. rewrite put_view_ne by done.
    destruct (decide (b = addr_at i' NDIRECT)) as [->|Hne].
    + destruct Hb'. apply owns_ind. lia.
    + rewrite (sp_disk _ _ _ _ _ _ P) by done. apply Hfr; [done|]. intros Ho. apply Hb'. eapply (sp_owns_old s i (zlen l)); [lia|done|exact P|done].
  - intros b Hb'. rewrite owns_poke in Hb' by done. eapply (sp_owns_new s i (zlen l)) in Hb'; [|lia|done|exact P].
    destruct Hb' as [Hb'|]; [by apply Hown|right; lia].
  - intros b Hb'. rewrite owns_poke by done. destruct (decide (freeblock s <= b < freeblock s1)); [by apply (sp_cover _ _ _ _ _ _ P)|].
    eapply (sp_owns_old s i (zlen l)); [lia|done|exact P|]. apply Hcov. destruct Hb'; [left; lia|by right].
  - pose proof (sp_meta _ _ _ _ _ _ P). destruct_and!. split_and!; congruence.
Qed.

Lemma appending_loop s0 i0 l0 p :
  ftab (disk s0) i0 (zlen l0) (freeblock s0) → holds (disk s0) i0 l0 → fresh_zero s0 → dlen s0 = FSSIZE → nmeta <= freeblock s0 →
  Forall (λ x, 0 <= x < 256) p → zlen l0 + zlen p <= MAXFILE * BSIZE →
  freeblock s0 + (blocks_for (zlen l0 + zlen p) - blocks_for (zlen l0)) <= FSSIZE →
  runs (iter (S (length p)) append_step (zlen l0, p, i0)) s0 (λ r s, ∃ i, r = (zlen (l0 ++ p), i) ∧ appending s0 i0 l0 i (l0 ++ p) s).
Proof.
  intros F Hh Hz Hd Hfb Hp Hmax Hfit.
  eapply (runs_iter _ (λ n a s, ∃ c q i, p = c ++ q ∧ n = length q ∧ a = (zlen (l0 ++ c), q, i) ∧ appending s0 i0 l0 i (l0 ++ c) s)); [|exists [], p, i0|apply Nat.lt_succ_diag_r].
  - intros n a s (c & q & i & -> & -> & -> & A). apply Forall_app in Hp as [Hc Hq]. destruct (decide (q = [])) as [->|Hne].
    + unfold append_step. simpl. kred. exists i. by rewrite app_nil_r.
    + rewrite length_app, Nat2Z.inj_add in Hmax, Hfit.
      eapply runs_mono; [apply (appending_step s0 i0 l0 i (l0 ++ c) s q); try done|].
      * rewrite length_app. lia.
      * rewrite length_app, Nat2Z.inj_add, <-Z.add_assoc. done.
      * intros r s' (i' & m & -> & Hm & A'). exists (length (drop m q)). rewrite length_drop. split; [lia|].
        exists (c ++ take m q), (drop m q), i'. rewrite <-!app_assoc, take_drop, length_drop. rewrite <-app_assoc in A'. done.
  - rewrite app_nil_r. split_and!; [done|done|done|]. split; try done; try lia; [by left|]. intros b [?|?]; [lia|done].
Qed.
