(* ===== verification/MkfsImage.v ===== *)
(** The image that mkfs builds is a file system: the kernel finds in it the
    super block, the inodes, the directory and the files that were given, and
    the invariants that the theorems on fs.c start from hold. *)

From S2P Require Import Prelude Mem CString Riscv Spinlock BlockCache TxnStore Log Fs FsBlock FsInode FsFile Mkfs MkfsSpec.
Local Open Scope kernel_scope.

(** ** The image *)

(** Inode [n] of the image. *)
Definition node (V : Z → block) (n : Z) : inode := on_disk mksb V n blank.

Lemma iblock_eq n : 0 <= n < NINODES → IBLOCK n mksb = n / IPB + 32.
Proof. intros Hn. unfold IBLOCK. apply u32_small. change (sb_inodestart mksb) with 32. unfold NINODES in Hn. rewrite IPB_val. zdm. Qed.

Lemma iblock_below n : 0 <= n < NINODES → 32 <= IBLOCK n mksb < nmeta - 1.
Proof. intros Hn. rewrite iblock_eq by done. unfold NINODES in Hn. rewrite IPB_val. consts. zdm. Qed.

Definition put_node (n : Z) (i : inode) (V : Z → block) : Z → block :=
  put_view (IBLOCK n mksb) (put_dinode (V (IBLOCK n mksb)) (dip_off n) i) V.

Lemma node_put V m i n :
  dinode_ok i → 0 <= m < NINODES → 0 <= n < NINODES → node (put_node m i V) n = if decide (n = m) then load i blank else node V n.
Proof.
  intros Hi Hm Hn. unfold node, on_disk, put_node. case_decide as E; [subst n; by rewrite put_view_eq, get_put_dinode|].
  destruct (decide (IBLOCK n mksb = IBLOCK m mksb)) as [Eb|Eb]; [|by rewrite put_view_ne].
  rewrite Eb, put_view_eq. apply get_dinode_ext. intros x Hx. apply rd8_put_dinode; [apply Hi|].
  rewrite !iblock_eq in Eb by done. unfold dip_off in *. rewrite IPB_val in *. change sizeof_dinode with 64 in *. zdm.
Qed.

Lemma node_below V V' n : 0 <= n < NINODES → (∀ b, 0 < b < nmeta → V' b = V b) → node V' n = node V n.
Proof. intros Hn H. unfold node, on_disk. rewrite H; [done|]. pose proof (iblock_below n Hn). lia. Qed.

Lemma runs_rinode n s (Q : inode → mkst → Prop) :
  0 <= n < NINODES → dlen s = FSSIZE → Q (node (disk s) n) s → runs (rinode n) s Q.
Proof.
  intros Hn Hd HQ. unfold rinode. apply runs_bind, runs_rsect; [pose proof (iblock_below n Hn); consts; lia|]. by apply runs_ret.
Qed.

Lemma runs_winode n i s (Q : unit → mkst → Prop) :
  0 <= n < NINODES → dlen s = FSSIZE → Q tt (set_disk (put_node n i (disk s)) (dlen s) s) → runs (winode n i) s Q.
Proof.
  intros Hn Hd HQ. pose proof (iblock_below n Hn). unfold winode.
  apply runs_bind, runs_rsect; [consts; lia|]. apply runs_wsect; [consts; lia|]. done.
Qed.

(** An inode of the image: its type, its size and the bytes of its blocks. *)
Record desc := mkD { d_type : Z; d_size : Z; d_data : list Z }.

Record described (V : Z → block) (fb n : Z) (d : desc) : Prop := {
  de_type : i_type (node V n) = d_type d;
  de_dev : i_major (node V n) = 0 ∧ i_minor (node V n) = 0;
  de_nlink : i_nlink (node V n) = 1;
  de_size : i_size (node V n) = d_size d;
  de_tab : ftab V (node V n) (zlen (d_data d)) fb;
  de_holds : holds V (node V n) (d_data d)
}.

Definition total (C : list desc) : Z := foldr (λ d a, blocks_for (zlen (d_data d)) + a) 0 C.

(** The image with the inodes [C] from number 1 on. *)
Record image (C : list desc) (s : mkst) : Prop := {
  im_dlen : dlen s = FSSIZE;
  im_inodes : freeinode s = 1 + zlen C ∧ 1 + zlen C <= NINODES;
  im_free : freeblock s = nmeta + total C;
  im_node k d : C !! k = Some d → described (disk s) (freeblock s) (1 + Z.of_nat k) d;
  im_disjoint k k' b : (k < length C)%nat → (k' < length C)%nat → k ≠ k' →
    owns (disk s) (node (disk s) (1 + Z.of_nat k)) b → ¬ owns (disk s) (node (disk s) (1 + Z.of_nat k')) b;
  im_cover b : nmeta <= b < freeblock s → ∃ k, (k < length C)%nat ∧ owns (disk s) (node (disk s) (1 + Z.of_nat k)) b;
  im_rest n : 0 <= n < NINODES → n = 0 ∨ zlen C < n → node (disk s) n = blank;
  im_zero : fresh_zero s;
  im_sb : disk s 1 = put_sb ∅ mksb;
  im_log b : 2 <= b < 32 → zero_block (disk s b)
}.

Lemma blocks_for_0 : blocks_for 0 = 0. Proof. done. Qed.
Lemma blocks_for_nonneg L : 0 <= L → 0 <= blocks_for L.
Proof. intros. rewrite <-blocks_for_0. by apply blocks_for_mono. Qed.
Lemma total_nonneg C : 0 <= total C.
Proof. induction C as [|d C IH]; simpl; [lia|]. pose proof (blocks_for_nonneg (zlen (d_data d)) ltac:(lia)). lia. Qed.
Lemma total_app C C' : total (C ++ C') = total C + total C'.
Proof. induction C as [|d C IH]; simpl; lia. Qed.
Lemma total_insert C k d d' :
  C !! k = Some d → total (<[k := d']> C) = total C + (blocks_for (zlen (d_data d')) - blocks_for (zlen (d_data d))).
Proof.
  revert k. induction C as [|x C IH]; intros [|k] H; simplify_eq/=; [lia|]. rewrite (IH k) by done. lia.
Qed.

(** Only the table of addresses matters. *)
Lemma block_of_addrs V i j k : i_addrs j = i_addrs i → block_of V j k = block_of V i k.
Proof. intros E. unfold block_of, addr_at. by rewrite E. Qed.
Lemma owns_addrs V i j b : i_addrs j = i_addrs i → owns V j b ↔ owns V i b.
Proof. intros E. unfold owns, block_of, addr_at. by rewrite E. Qed.
Lemma ftab_addrs V i j L fb : i_addrs j = i_addrs i → ftab V i L fb → ftab V j L fb.
Proof.
  intros E [H1 H2 H3 H4 H5 H6 H7]. assert (Ei : addr_at j NDIRECT = addr_at i NDIRECT) by (unfold addr_at; by rewrite E).
  assert (Eb : ∀ k, block_of V j k = block_of V i k) by (intros; by apply block_of_addrs).
  split; rewrite ?E, ?Ei; [done|done| |done| | |].
  - intros k. rewrite Eb. apply H3.
  - intros b Hb. eapply H5, owns_addrs, Hb. done.
  - intros k k'. rewrite !Eb. apply H6.
  - intros k. rewrite Eb. apply H7.
Qed.
Lemma holds_addrs V i j l : i_addrs j = i_addrs i → holds V i l → holds V j l.
Proof. intros E H k a. rewrite (block_of_addrs V i j) by done. apply H. Qed.

(** An inode whose blocks and whose dinode did not change. *)
Lemma described_frame V V' fb fb' n d :
  node V' n = node V n → (∀ b, owns V (node V n) b → V' b = V b) → fb <= fb' → described V fb n d → described V' fb' n d.
Proof.
  intros E Ho Hle [H1 H2 H3 H4 H5 H6]. split; rewrite ?E; try done; [by eapply ftab_frame|by eapply holds_frame].
Qed.

(** Inode [1 + k] is changed, with blocks that were its own or free. *)
Lemma image_update C k d d' s s' :
  image C s → C !! k = Some d → dlen s' = dlen s → freeinode s' = freeinode s →
  freeblock s' = freeblock s + (blocks_for (zlen (d_data d')) - blocks_for (zlen (d_data d))) → freeblock s <= freeblock s' →
  fresh_zero s' → described (disk s') (freeblock s') (1 + Z.of_nat k) d' →
  (∀ n, 0 <= n < NINODES → n ≠ 1 + Z.of_nat k → node (disk s') n = node (disk s) n) →
  (∀ b, 0 < b → ¬ 32 <= b < nmeta - 1 → ¬ owns (disk s') (node (disk s') (1 + Z.of_nat k)) b → disk s' b = disk s b) →
  (∀ b, freeblock s <= b < freeblock s' ∨ owns (disk s) (node (disk s) (1 + Z.of_nat k)) b → owns (disk s') (node (disk s') (1 + Z.of_nat k)) b) →
  (∀ b, owns (disk s') (node (disk s') (1 + Z.of_nat k)) b → owns (disk s) (node (disk s) (1 + Z.of_nat k)) b ∨ freeblock s <= b) →
  image (<[k := d']> C) s'.
Proof.
  intros [I1 [I2 I2'] I3 I4 I5 Ic I6 I7 I8 I9] Hk Hd Hfi Hfb Hle Hz Hde Hnode Hfr Hcov Hown.
  assert (Hlk : (k < length C)%nat) by by apply lookup_lt_Some in Hk.
  assert (Hrange : ∀ j, (j < length C)%nat → 0 <= 1 + Z.of_nat j < NINODES) by (intros; lia).
  assert (Hkeep : ∀ j b, (j < length C)%nat → j ≠ k → owns (disk s) (node (disk s) (1 + Z.of_nat j)) b → disk s' b = disk s b).
  { intros j b Hj Hne Ho. destruct (lookup_lt_is_Some_2 C j Hj) as [dj Ej]. pose proof (ft_range _ _ _ _ (de_tab _ _ _ _ (I4 _ _ Ej)) b Ho).
    apply Hfr; [consts; lia|lia|]. intros Ho'. destruct (Hown b Ho') as [Ho2|]; [|lia]. by apply (I5 j k b). }
  assert (Hmeta : ∀ b, 0 < b < nmeta → ¬ 32 <= b < nmeta - 1 → disk s' b = disk s b).
  { intros b Hb Hn. apply Hfr; [lia|done|]. intros Ho. pose proof (ft_range _ _ _ _ (de_tab _ _ _ _ Hde) b Ho). lia. }
  assert (Hnj : ∀ j, (j < length C)%nat → j ≠ k → node (disk s') (1 + Z.of_nat j) = node (disk s) (1 + Z.of_nat j)) by (intros; apply Hnode; [auto|lia]).
  assert (Hoj : ∀ j b, (j < length C)%nat → j ≠ k →
    owns (disk s') (node (disk s') (1 + Z.of_nat j)) b → owns (disk s) (node (disk s) (1 + Z.of_nat j)) b ∧ b < freeblock s).
  { intros j b Hj Hne Ho. rewrite Hnj in Ho by done. apply (owns_frame (disk s) (disk s')) in Ho; [|intros; by apply (Hkeep j)]. split; [done|].
    destruct (lookup_lt_is_Some_2 C j Hj) as [dj Ej]. pose proof (ft_range _ _ _ _ (de_tab _ _ _ _ (I4 _ _ Ej)) b Ho). lia. }
  split; rewrite ?length_insert.
  - congruence.
  - by rewrite Hfi.
  - rewrite (total_insert C k d d') by done. lia.
  - intros j dj Hj. destruct (decide (j = k)) as [->|Hne]; [rewrite list_lookup_insert_eq in Hj by done; by simplify_eq|].
    rewrite list_lookup_insert_ne in Hj by done. assert (Hlj : (j < length C)%nat) by by apply lookup_lt_Some in Hj.
    eapply described_frame; [by apply Hnj|intros; by apply (Hkeep j)|done|by apply I4].
  - intros j j' b Hj Hj' Hne Ho Ho'. destruct (decide (j = k)) as [->|Hjk].
    + destruct (Hoj j' b Hj') as [Ho2 ?]; [done|done|]. destruct (Hown b Ho); [|lia]. by apply (I5 k j' b).
    + destruct (Hoj j b Hj) as [Ho2 ?]; [done|done|]. destruct (decide (j' = k)) as [->|Hjk'].
      * destruct (Hown b Ho'); [|lia]. by apply (I5 j k b).
      * destruct (Hoj j' b Hj') as [Ho2' ?]; [done|done|]. by apply (I5 j j' b).
  - intros b Hb. destruct (decide (b < freeblock s)); [|exists k; split; [done|]; apply Hcov; left; lia].
    destruct (Ic b) as (j & Hj & Ho); [lia|]. exists j. split; [done|]. destruct (decide (j = k)) as [->|Hne]; [apply Hcov; by right|].
    rewrite Hnj by done. apply (owns_frame (disk s) (disk s')); [|done]. intros. by apply (Hkeep j).
  - intros n Hn Hr. rewrite Hnode; [by apply I6|done|lia].
  - done.
  - rewrite Hmeta; [done|consts; lia|consts; lia].
  - intros b Hb. rewrite Hmeta; [by apply I9|consts; lia|consts; lia].
Qed.

Lemma put_node_other n i V b : 0 <= n < NINODES → ¬ 32 <= b < nmeta - 1 → put_node n i V b = V b.
Proof. intros Hn Hb. apply put_view_ne. pose proof (iblock_below n Hn). lia. Qed.

(** [i] is written as inode [n]. *)
Lemma described_put V fb n i d :
  dinode_ok i → 0 <= n < NINODES → i_type i = d_type d → i_major i = 0 → i_minor i = 0 → i_nlink i = 1 → i_size i = d_size d →
  ftab V i (zlen (d_data d)) fb → holds V i (d_data d) → described (put_node n i V) fb n d.
Proof.
  intros Hi Hn H1 H2 H3 H4 H5 F Hh. assert (E : node (put_node n i V) n = load i blank) by (rewrite node_put by done; by rewrite decide_True).
  assert (Ho : ∀ b, owns V (load i blank) b → put_node n i V b = V b).
  { intros b Hb. apply put_node_other; [done|]. assert (Hb' : owns V i b) by (eapply owns_addrs, Hb; done). apply (ft_range _ _ _ _ F) in Hb'. lia. }
  split; rewrite E; try done.
  - eapply ftab_frame; [|apply Ho|done]. by apply (ftab_addrs V i).
  - eapply holds_frame; [|apply Ho]. by apply (holds_addrs V i).
Qed.

Lemma node_ok V n : dinode_ok (node V n).
Proof.
  split; simpl; try apply s16_range; [apply rd32_range|done|].
  apply Forall_forall. intros x Hx. apply list_elem_of_fmap in Hx as (k & -> & _). apply rd32_range.
Qed.

(** iappend puts [p] at the end of the file. *)
Lemma image_iappend C k d p s :
  image C s → C !! k = Some d → d_size d = zlen (d_data d) → Forall (λ x, 0 <= x < 256) p → zlen (d_data d) + zlen p <= MAXFILE * BSIZE →
  nmeta + total C + (blocks_for (zlen (d_data d) + zlen p) - blocks_for (zlen (d_data d))) <= FSSIZE →
  runs (iappend (1 + Z.of_nat k) p) s (λ _ s', image (<[k := mkD (d_type d) (zlen (d_data d ++ p)) (d_data d ++ p)]> C) s').
Proof.
  intros I Hk Hsz Hp Hmax Hfit. pose proof (im_node _ _ I k d Hk) as D. pose proof (im_inodes _ _ I) as [Hi1 Hi2]. pose proof (im_dlen _ _ I) as Hd.
  pose proof (im_free _ _ I) as Hfb. pose proof (lookup_lt_Some _ _ _ Hk) as Hlk. pose proof (total_nonneg C) as Htot.
  assert (Hn : 0 <= 1 + Z.of_nat k < NINODES) by lia. unfold iappend. apply runs_bind, runs_rinode; [done|done|]. set (i := node (disk s) _) in *.
  apply runs_bind. rewrite (de_size _ _ _ _ D : i_size i = _), Hsz.
  eapply runs_mono; [apply appending_loop; try done; [by apply (de_tab _ _ _ _ D)|by apply (de_holds _ _ _ _ D)|by apply (im_zero _ _ I)|lia|lia]|].
  intros r s1 (i' & -> & A). pose proof A as [F Hh Hz Hd1 Hfi [Hfb0 Hfb1] Hcost Hfr Hown Hcov (M1 & M2 & M3 & M4 & M5)].
  apply runs_winode; [done|done|]. set (i2 := set_size _ i').
  assert (Ok2 : dinode_ok i2).
  { destruct (node_ok (disk s) (1 + Z.of_nat k)) as [O1 O2 O3 O4 O5 O6 O7]. fold i in O1, O2, O3, O4. split; unfold i2; cbn [set_size set_meta i_type i_major i_minor i_nlink i_size i_addrs]; try congruence.
    - rewrite length_app, Nat2Z.inj_add. consts. lia.
    - apply F.
    - apply F. }
  assert (Hmeta : ∀ b, 0 < b < nmeta → disk s1 b = disk s b).
  { intros b Hb. apply Hfr; [lia|]. intros Ho. apply (ft_range _ _ _ _ F) in Ho. lia. }
  assert (Enode : node (put_node (1 + Z.of_nat k) i2 (disk s1)) (1 + Z.of_nat k) = load i2 blank) by (rewrite node_put by done; by rewrite decide_True).
  assert (Hown2 : ∀ b, owns (put_node (1 + Z.of_nat k) i2 (disk s1)) (node (put_node (1 + Z.of_nat k) i2 (disk s1)) (1 + Z.of_nat k)) b ↔ owns (disk s1) i' b).
  { intros b. rewrite Enode, (owns_frame (disk s1)); [by apply owns_addrs|]. intros b' Hb'. apply put_node_other; [done|].
    apply (owns_addrs _ i') in Hb'; [|done]. apply (ft_range _ _ _ _ F) in Hb'. lia. }
  eapply image_update; try done; cbn [dlen freeinode freeblock disk set_disk]; try congruence.
  - intros b Hb a. cbn [disk set_disk freeblock] in *. rewrite put_node_other; [by apply Hz|done|lia].
  - destruct D as [D1 [D2 D2'] D3 D4 _ _]. fold i in D1, D2, D2', D3, D4. apply described_put; try done; unfold i2; cbn [set_size set_meta i_type i_major i_minor i_nlink i_size d_type d_size]; try congruence.
    by apply (ftab_addrs _ i').
  - intros n Hn' Hne. rewrite node_put by done. rewrite decide_False by done. by apply node_below.
  - intros b Hb Hb' Ho. rewrite put_node_other by done. apply Hfr; [done|]. by rewrite <-Hown2.
  - intros b Ho. rewrite Hown2. by apply Hcov.
  - intros b Ho. rewrite Hown2 in Ho. by apply Hown.
Qed.

Lemma block_of_blank V i k : i_addrs i = replicate 13 0 → block_of V i k = 0.
Proof.
  intros E. assert (Ea : ∀ n, addr_at i n = 0) by (intros n; unfold addr_at; rewrite E; destruct (Z.to_nat n) as [|[|[|[|[|[|[|[|[|[|[|[|[|]]]]]]]]]]]]]; done).
  unfold block_of. rewrite !Ea. by destruct (k <? NDIRECT).
Qed.

Lemma owns_blank V i b : i_addrs i = replicate 13 0 → ¬ owns V i b.
Proof. intros E [H [->|(k & _ & <-)]]; apply H; [|by apply block_of_blank]. unfold addr_at. by rewrite E. Qed.

Lemma ftab_blank V i fb : i_addrs i = replicate 13 0 → ftab V i 0 fb.
Proof.
  intros E. pose proof (block_of_blank V i) as Eb. split; rewrite ?E; try done.
  - apply Forall_replicate. lia.
  - intros k Hk. rewrite Eb by done. consts. lia.
  - unfold addr_at. rewrite E. done.
  - intros b Hb. by apply owns_blank in Hb.
  - intros k k' _ _. by rewrite Eb.
  - intros k _. by rewrite Eb.
Qed.

(** ialloc takes the next inode. *)
Lemma image_ialloc C ty s :
  image C s → 1 + zlen C < NINODES → - 2 ^ 15 <= ty < 2 ^ 15 →
  runs (ialloc ty) s (λ n s', n = 1 + zlen C ∧ image (C ++ [mkD ty 0 []]) s').
Proof.
  intros I Hn Hty. pose proof I as [I1 [I2 I2'] I3 I4 I5 Ic I6 I7 I8 I9]. unfold ialloc. kred. rewrite I2, u32_small by (unfold NINODES in *; lia).
  set (n := 1 + zlen C) in *. assert (Hn0 : 0 <= n < NINODES) by lia. set (i := set_nlink 1 (set_type ty blank)).
  assert (Hi : dinode_ok i) by (split; try done; apply Forall_replicate; lia).
  apply runs_winode; [done|done|]. kred. split; [done|].
  assert (Eo : node (put_node n i (disk s)) n = load i blank) by (rewrite node_put by done; by rewrite decide_True).
  assert (En : ∀ m, 0 <= m < NINODES → m ≠ n → node (put_node n i (disk s)) m = node (disk s) m) by (intros m ? ?; rewrite node_put by done; by rewrite decide_False).
  assert (Hown : ∀ k b, (k < length C)%nat → owns (disk s) (node (disk s) (1 + Z.of_nat k)) b → put_node n i (disk s) b = disk s b).
  { intros k b Hk Ho. apply put_node_other; [done|]. destruct (lookup_lt_is_Some_2 C k Hk) as [d Ed].
    pose proof (ft_range _ _ _ _ (de_tab _ _ _ _ (I4 _ _ Ed)) b Ho). lia. }
  assert (Hlast : ∀ b, ¬ owns (put_node n i (disk s)) (node (put_node n i (disk s)) n) b) by (intros b; rewrite Eo; by apply owns_blank).
  split; cbn [dlen freeinode freeblock disk set_disk set_freeinode]; rewrite ?length_app; cbn [length].
  - done.
  - lia.
  - rewrite total_app. change (total [mkD ty 0 []]) with 0. lia.
  - intros k d Hk. apply lookup_snoc_Some in Hk as [[Hk Ek]|[-> <-]].
    + eapply described_frame; [apply En; lia|intros; by apply (Hown k)|done|by apply I4].
    + apply described_put; try done; [by apply ftab_blank|]. intros k a _ []. by apply block_of_blank.
  - intros k k' b Hk Hk' Hne Ho Ho'. destruct (decide (k = length C)) as [->|Hc]; [by apply (Hlast b)|].
    destruct (decide (k' = length C)) as [->|Hc']; [by apply (Hlast b)|].
    rewrite En in Ho, Ho' by lia. apply (owns_frame (disk s)) in Ho; [|intros; apply (Hown k); [lia|done]].
    apply (owns_frame (disk s)) in Ho'; [|intros; apply (Hown k'); [lia|done]]. by apply (I5 k k' b); [lia|lia| | |].
  - intros b Hb. destruct (Ic b Hb) as (k & Hk & Ho). exists k. split; [lia|]. rewrite En by lia.
    apply (owns_frame (disk s)); [|done]. intros. by apply (Hown k).
  - intros m Hm Hr. rewrite En by lia. apply I6; lia.
  - intros b Hb a. cbn [disk set_disk set_freeinode freeblock] in *. pose proof (total_nonneg C). rewrite put_node_other; [by apply I7|done|lia].
  - rewrite put_node_other; [done|done|lia].
  - intros b Hb. rewrite put_node_other; [by apply I9|done|lia].
Qed.

(** append_all: a file is given piece by piece. *)
Lemma image_append_all C k d ps s :
  image C s → C !! k = Some d → d_size d = zlen (d_data d) → Forall (λ x, 0 <= x < 256) (concat ps) →
  zlen (d_data d ++ concat ps) <= MAXFILE * BSIZE →
  nmeta + total C + (blocks_for (zlen (d_data d ++ concat ps)) - blocks_for (zlen (d_data d))) <= FSSIZE →
  runs (append_all (1 + Z.of_nat k) ps) s
    (λ _ s', image (<[k := mkD (d_type d) (zlen (d_data d ++ concat ps)) (d_data d ++ concat ps)]> C) s').
Proof.
  revert C d s. induction ps as [|p ps IH]; intros C d s I Hk Hsz Hb Hmax Hfit; cbn [append_all concat].
  - kred. rewrite app_nil_r, <-Hsz, list_insert_id; [done|]. rewrite Hk. by destruct d.
  - cbn [concat] in *. apply Forall_app in Hb as [Hp Hps]. rewrite !length_app, !Nat2Z.inj_add in Hmax, Hfit.
    pose proof (blocks_for_mono (zlen (d_data d) + zlen p) (zlen (d_data d) + (zlen p + zlen (concat ps))) ltac:(lia) ltac:(lia)).
    apply runs_bind. eapply runs_mono; [apply (image_iappend C k d p s); try done; lia|].
    intros [] s' I'. set (d' := mkD _ _ _) in I'. pose proof (lookup_lt_Some _ _ _ Hk).
    assert (Hk' : <[k := d']> C !! k = Some d') by by apply list_lookup_insert_eq.
    eapply runs_mono; [apply (IH _ d' s' I' Hk' eq_refl Hps)|].
    + cbn [d' d_data]. rewrite !length_app, !Nat2Z.inj_add. lia.
    + rewrite (total_insert C k d d') by done. cbn [d' d_data]. rewrite !length_app, !Nat2Z.inj_add, Z.add_assoc in *. lia.
    + intros [] s2 I2. rewrite list_insert_insert_eq in I2. cbn [d' d_data d_type] in I2. by rewrite <-app_assoc in I2.
Qed.

(** ** The files given *)

Definition file_desc (f : list Z * list (list Z)) : desc := mkD T_FILE (zlen (concat f.2)) (concat f.2).

(** The directory entries of the files from inode [m] on. *)
Fixpoint entries (m : Z) (files : list (list Z * list (list Z))) : list Z :=
  match files with [] => [] | f :: files => dirent m (filename f.1) ++ entries (m + 1) files end.

Definition dir_desc (d : list Z) : desc := mkD T_DIR (zlen d) d.

Record given_ok (f : list Z * list (list Z)) : Prop := {
  gi_name : 47 ∉ shortname f.1;
  gi_bytes : Forall (λ x, 0 < x < 256) f.1 ∧ Forall (λ x, 0 <= x < 256) (concat f.2);
  gi_size : zlen (concat f.2) <= MAXFILE * BSIZE
}.

Lemma length_dirent m n : zlen (dirent m n) = 16.
Proof. unfold dirent. rewrite length_app, length_take, length_app, length_replicate. cbn [length]. change (Z.to_nat DIRSIZ) with 14%nat. lia. Qed.

Lemma dirent_bytes m n : Forall (λ x, 0 <= x < 256) n → Forall (λ x, 0 <= x < 256) (dirent m n).
Proof.
  intros H. unfold dirent. apply Forall_app. split; [repeat constructor; apply u8_range|].
  apply Forall_take, Forall_app. split; [done|]. apply Forall_replicate. lia.
Qed.

Lemma filename_cases n : filename n = shortname n ∨ shortname n = 95 :: filename n.
Proof.
  unfold filename. destruct (shortname n) as [|c r]; [by left|]. destruct c as [|p|p]; [by left| |by left].
  do 7 (destruct p as [p|p|]; try by left). by right.
Qed.

Lemma filename_bytes n : Forall (λ x, 0 <= x < 256) n → Forall (λ x, 0 <= x < 256) (filename n).
Proof.
  intros H. assert (Hs : Forall (λ x, 0 <= x < 256) (shortname n)) by (unfold shortname; case_decide; [by apply Forall_drop|done]).
  destruct (filename_cases n) as [->|E]; [done|]. rewrite E in Hs. by apply Forall_cons_1 in Hs as [_ ?].
Qed.

Lemma image_add_file d F f s :
  image (dir_desc d :: F) s → given_ok f → zlen F <= 197 →
  zlen d <= 16 * (2 + zlen F) → blocks_for (zlen d + 16) + total F + total [file_desc f] <= FSSIZE - nmeta →
  runs (add_file 1 f) s (λ _ s', image (dir_desc (d ++ dirent (2 + zlen F) (filename f.1)) :: F ++ [file_desc f]) s').
Proof.
  intros I [Hname [Hnb Hb] Hsz] HF Hd Hfit. unfold add_file, assert.
  assert (Hidx : existsb (Z.eqb 47) (shortname f.1) = false).
  { apply not_true_is_false. intros (x & Hx & Ex%Z.eqb_eq)%existsb_exists. subst x. apply Hname. by apply list_elem_of_In. }
  rewrite Hidx. simpl negb. cbv iota. apply runs_bind, runs_ret. cbv beta. apply runs_bind.
  assert (0 <= blocks_for (zlen (concat f.2))) by (apply blocks_for_nonneg; lia). cbn [total foldr file_desc d_data] in Hfit.
  pose proof (blocks_for_mono (zlen d) (zlen d + 16) ltac:(lia) ltac:(lia)).
  eapply runs_mono; [apply (image_ialloc _ T_FILE s I); [simpl; unfold NINODES; lia|done]|]. intros n s1 [-> I1]. cbn [length app] in *.
  assert (Hdb : zlen (dirent (2 + zlen F) (filename f.1)) = 16) by apply length_dirent.
  replace (1 + Z.of_nat (S (length F))) with (2 + zlen F) by lia. apply runs_bind.
  eapply runs_mono; [apply (image_iappend _ 0 (dir_desc d) (dirent (2 + zlen F) (filename f.1)) s1 I1 eq_refl eq_refl)|].
  - apply dirent_bytes, filename_bytes. eapply Forall_impl; [done|]. simpl. intros x Hx. lia.
  - rewrite Hdb. cbn [dir_desc d_data]. consts. lia.
  - rewrite Hdb. cbn [total foldr dir_desc d_data]. fold (total (F ++ [mkD T_FILE 0 []])). rewrite total_app. change (total [mkD T_FILE 0 []]) with 0. lia.
  - intros [] s2 I2. cbn [list_insert insert dir_desc d_type d_data] in I2. fold (dir_desc (d ++ dirent (2 + zlen F) (filename f.1))) in I2.
    replace (2 + zlen F) with (1 + Z.of_nat (S (length F))) at 1 by lia.
    eapply runs_mono; [apply (image_append_all _ (S (length F)) (mkD T_FILE 0 []) f.2 s2 I2)|]; cbn [d_data d_size]; try done.
    + simpl. by rewrite list_lookup_middle.
    + cbn [total foldr dir_desc d_data]. fold (total (F ++ [mkD T_FILE 0 []])). rewrite total_app, length_app, Nat2Z.inj_add, Hdb.
      change (total [mkD T_FILE 0 []]) with 0. cbn [app length]. change (blocks_for (Z.of_nat 0)) with 0. lia.
    + intros [] s3 I3. cbn [app d_type] in I3. simpl in I3. by rewrite insert_app_r_alt, Nat.sub_diag in I3.
Qed.

Lemma image_add_files files d F s :
  image (dir_desc d :: F) s → Forall given_ok files → zlen F + zlen files <= 198 → zlen d <= 16 * (2 + zlen F) →
  blocks_for (zlen (d ++ entries (2 + zlen F) files)) + total (F ++ (file_desc <$> files)) <= FSSIZE - nmeta →
  runs (add_files 1 files) s (λ _ s', image (dir_desc (d ++ entries (2 + zlen F) files) :: F ++ (file_desc <$> files)) s').
Proof.
  revert d F s. induction files as [|f files IH]; intros d F s I Hok Hlen Hd Hfit; cbn [add_files entries fmap list_fmap] in *.
  - kred. by rewrite !app_nil_r.
  - apply Forall_cons_1 in Hok as [Hf Hok]. cbn [length] in Hlen. set (e := dirent (2 + zlen F) (filename f.1)) in *.
    assert (He : zlen e = 16) by apply length_dirent. rewrite total_app in Hfit. change (file_desc f :: ?l) with ([file_desc f] ++ l) in Hfit.
    rewrite total_app in Hfit. pose proof (total_nonneg (file_desc <$> files)).
    pose proof (blocks_for_mono (zlen d + 16) (zlen (d ++ e ++ entries (2 + zlen F + 1) files)) ltac:(lia) ltac:(rewrite !length_app; lia)).
    apply runs_bind. eapply runs_mono; [apply (image_add_file d F f s I Hf); lia|]. intros [] s1 I1. fold e in I1.
    assert (EF : zlen (F ++ [file_desc f]) = zlen F + 1) by (rewrite length_app; simpl; lia).
    replace (d ++ e ++ entries (2 + zlen F + 1) files) with ((d ++ e) ++ entries (2 + zlen (F ++ [file_desc f])) files)
      by (rewrite <-app_assoc, EF; do 3 f_equal; lia).
    rewrite (cons_middle _ F (file_desc <$> files)), (app_assoc F [file_desc f]). apply IH; try done; [lia|rewrite length_app; lia|].
    rewrite <-!app_assoc, !total_app, EF. replace (2 + (zlen F + 1)) with (2 + zlen F + 1) by lia. lia.
Qed.

(** The disk before the first inode is made. *)
Lemma runs_wzeroes n s (Q : unit → mkst → Prop) :
  (∀ b, disk s b = ∅) → (∀ V, (∀ b, V b = ∅) → Q tt (set_disk V (Z.max (dlen s) (Z.of_nat n)) s)) → 0 <= dlen s → runs (wzeroes n) s Q.
Proof.
  revert Q. induction n as [|n IH]; intros Q Hz HQ Hd; cbn [wzeroes].
  - kred. replace s with (set_disk (disk s) (Z.max (dlen s) (Z.of_nat 0)) s) by (rewrite Z.max_l by lia; by destruct s). by apply HQ.
  - apply runs_bind. apply IH; [done| |done]. intros V HV. unfold wsect. kred. cbn [set_disk disk dlen].
    replace (Z.max (Z.max (dlen s) (Z.of_nat n)) (Z.of_nat n + 1)) with (Z.max (dlen s) (Z.of_nat (S n))) by lia.
    apply (HQ (put_view (Z.of_nat n) ∅ V)). intros b. unfold put_view. by case_decide.
Qed.

Lemma node_empty V n : V (IBLOCK n mksb) = ∅ → node V n = blank.
Proof.
  intros E. unfold node, on_disk, get_dinode. rewrite E. unfold rd_addrs. rewrite !rd32_empty.
  assert (E16 : ∀ a, rd16 (∅ : mem) a = 0) by (intros a; by apply rd_le_zero).
  rewrite !E16. unfold blank, set_addrs, set_meta. f_equal.
Qed.

Lemma image_start V : (∀ b, V b = ∅) → image [] (mkM (put_view 1 (put_sb ∅ mksb) V) FSSIZE 1 nmeta).
Proof.
  intros HV. split; cbn [disk dlen freeinode freeblock length]; try done; try lia.
  - intros n Hn _. apply node_empty. pose proof (iblock_below n Hn). by rewrite put_view_ne by lia.
  - intros b Hb a. cbn [disk freeblock] in *. rewrite put_view_ne by (consts; lia). by rewrite HV.
  - intros b Hb a. rewrite put_view_ne by lia. by rewrite HV.
Qed.

(** ** The free map *)

Lemma mark_used_bit n b :
  0 <= b → Z.testbit (rd8 (mark_used n ∅) (b / 8)) (b mod 8) = bool_decide (b < Z.of_nat n).
Proof.
  intros Hb. pose proof (Z.mod_pos_bound b 8 ltac:(lia)) as Hm. induction n as [|n IH]; cbn [mark_used].
  - rewrite bool_decide_false by lia. apply Z.testbit_0_l.
  - rewrite rd8_wr8. destruct (decide (Z.of_nat n / 8 = b / 8)) as [E|E].
    + rewrite E, testbit_u8, Z.lor_spec, IH by lia. rewrite Z.shiftl_1_l, Z.pow2_bits_eqb by zdm.
      destruct (Z.eqb_spec (Z.of_nat n mod 8) (b mod 8)); repeat case_bool_decide; try done; zdm.
    + rewrite IH. repeat case_bool_decide; try done; zdm.
Qed.

Lemma used_balloc V n b :
  0 <= b < FSSIZE → used mksb (put_view (sb_bmapstart mksb) (mark_used (Z.to_nat n) ∅) V) b = bool_decide (b < n).
Proof.
  intros Hb. consts. unfold used. assert (E : BBLOCK b mksb = sb_bmapstart mksb).
  { unfold BBLOCK. change BPB with 8192. change (sb_bmapstart mksb) with 45. rewrite u32_small; zdm. }
  rewrite E, put_view_eq. replace (b mod BPB) with b by (change BPB with 8192; zdm). rewrite mark_used_bit by lia.
  apply bool_decide_ext. lia.
Qed.

(** ** Files as the kernel sees them *)

Lemma ftab_file_ok V i L fb : ftab V i L fb → (∀ b, 0 <= b < FSSIZE → used mksb V b = bool_decide (b < fb)) → fb <= FSSIZE → file_ok mksb nmeta V i.
Proof.
  intros F Hu Hle. assert (Hin : ∀ b, owns V i b → in_use mksb nmeta V b).
  { intros b Ho. pose proof (ft_range _ _ _ _ F b Ho) as Hb. split; [change (sb_size mksb) with FSSIZE; lia|].
    rewrite Hu by (consts; lia). apply bool_decide_true. lia. }
  split; [apply F| | |apply F].
  - intros Hn. by apply Hin, owns_ind.
  - intros k Hk Hn. split; [by apply Hin, owns_block|by apply (ft_ne _ _ _ _ F)].
Qed.

Lemma holds_bytes V i l fb n :
  ftab V i (zlen l) fb → holds V i l → Z.of_nat n <= (zlen l + (BSIZE - 1)) / BSIZE * BSIZE → zlen l <= MAXFILE * BSIZE →
  file_bytes V i 0 n = take n (l ++ replicate n 0).
Proof.
  intros F Hh Hn Hmax. apply list_eq. intros k. destruct (decide (k < n)%nat) as [Hk|Hk].
  - unfold file_bytes. rewrite list_lookup_fmap, lookup_seq_lt by done. cbn [fmap option_fmap option_map]. rewrite !Z.add_0_l, Nat.add_0_l.
    rewrite lookup_take_lt by done. unfold file_byte. rewrite Hh.
    + replace (Z.of_nat k / BSIZE * BSIZE + Z.of_nat k mod BSIZE) with (Z.of_nat k) by (consts; zdm). rewrite Nat2Z.id.
      destruct (decide (k < length l)%nat).
      * rewrite lookup_app_l by done. by destruct (lookup_lt_is_Some_2 l k) as [x ->].
      * rewrite lookup_app_r by lia. rewrite lookup_replicate_2 by lia. by rewrite lookup_ge_None_2 by lia.
    + consts. zdm.
    + apply (ft_some _ _ _ _ F); consts; zdm.
    + consts. zdm.
  - rewrite !lookup_ge_None_2; [done|rewrite length_take; lia|rewrite length_file_bytes; lia].
Qed.

Lemma ftab_mapped V i L fb : ftab V i L fb → 0 <= L <= MAXFILE * BSIZE → 0 <= i_size i <= MAXFILE * BSIZE →
  mapped V i ↔ i_size i <= (L + (BSIZE - 1)) / BSIZE * BSIZE.
Proof.
  intros F HL Hs. split.
  - intros [_ Hm]. destruct (decide (i_size i = 0)) as [E|E]; [consts; zdm|].
    specialize (Hm ((i_size i - 1) / BSIZE) ltac:(consts; zdm) ltac:(consts; zdm)). apply (ft_some _ _ _ _ F) in Hm; consts; zdm.
  - intros Hle. split; [done|]. intros bn Hb Hlt. apply (ft_some _ _ _ _ F); consts; zdm.
Qed.

(** ** The whole program *)

Definition root_data (files : list (list Z * list (list Z))) : list Z :=
  (dirent 1 [46] ++ dirent 1 [46; 46]) ++ entries 2 files.

(** The image has room for the files. *)
Definition fits (files : list (list Z * list (list Z))) : Prop :=
  zlen files <= 198 ∧ nmeta + total (dir_desc (root_data files) :: (file_desc <$> files)) <= FSSIZE.

Definition root_size (files : list (list Z * list (list Z))) : Z := 16 * (2 + zlen files).
Definition rounded (L : Z) : Z := (L / BSIZE + 1) * BSIZE.

Lemma length_entries m files : zlen (entries m files) = 16 * zlen files.
Proof.
  revert m. induction files as [|f files IH]; intros m; cbn [entries length]; [done|].
  rewrite length_app, Nat2Z.inj_add, length_dirent, IH. lia.
Qed.

Lemma length_root_data files : zlen (root_data files) = root_size files.
Proof. unfold root_data, root_size. rewrite !length_app, !Nat2Z.inj_add, !length_dirent, length_entries. lia. Qed.

(** The root directory before the files, and the rest [m] of the program. *)
Lemma image_root (m : Z → K mkst unit) s (Q : unit → mkst → Prop) :
  image [] s → (∀ s', image [dir_desc (dirent 1 [46] ++ dirent 1 [46; 46])] s' → runs (m 1) s' Q) →
  runs (
    rootino <- ialloc T_DIR ;;;
    assert (rootino =? ROOTINO) "rootino == ROOTINO" ;;;
    iappend rootino (dirent rootino [46]) ;;;
    iappend rootino (dirent rootino [46; 46]) ;;;
    m rootino) s Q.
Proof.
  intros I HQ. apply runs_bind. eapply runs_mono; [by apply (image_ialloc [] T_DIR s I)|]. intros n s1 [-> I1]. cbn [app length] in *.
  apply runs_bind. change (1 + Z.of_nat 0 =? ROOTINO) with true. apply runs_ret. cbv beta.
  assert (E1 : zlen (dirent 1 [46]) = 16) by apply length_dirent. assert (E2 : zlen (dirent 1 [46; 46]) = 16) by apply length_dirent.
  apply runs_bind. eapply runs_mono; [apply (image_iappend _ 0 (mkD T_DIR 0 []) (dirent 1 [46]) s1 I1 eq_refl eq_refl); [|done|done]|].
  { apply dirent_bytes. repeat constructor; lia. }
  intros [] s2 I2. cbn [app insert list_insert d_data d_type] in I2. apply runs_bind.
  eapply runs_mono; [apply (image_iappend _ 0 _ (dirent 1 [46; 46]) s2 I2 eq_refl eq_refl); [|done|done]|].
  { apply dirent_bytes. repeat constructor; lia. }
  intros [] s3 I3. by apply HQ.
Qed.

Lemma image_fix_root d F s :
  image (dir_desc d :: F) s → zlen d <= 3200 →
  runs (fix_root 1) s (λ _ s', image (mkD T_DIR (rounded (zlen d)) d :: F) s').
Proof.
  intros I Hd. pose proof (im_node _ _ I 0 _ eq_refl) as D. change (1 + Z.of_nat 0) with 1 in D. pose proof (im_inodes _ _ I) as [_ Hi].
  assert (Hn : 0 <= 1 < NINODES) by done. unfold fix_root. apply runs_bind, runs_rinode; [done|apply I|]. set (i := node (disk s) 1) in *.
  apply runs_winode; [done|apply I|]. destruct D as [D1 [D2 D2'] D3 D4 F1 Hh]. fold i in D1, D2, D2', D3, D4, F1, Hh. set (i2 := set_size _ i).
  cbn [dir_desc d_size d_data d_type] in *.
  assert (Ok2 : dinode_ok i2).
  { destruct (node_ok (disk s) 1 : dinode_ok i). split; try done. unfold i2. cbn [set_size set_meta i_size]. rewrite D4. consts. zdm. }
  assert (Enode : node (put_node 1 i2 (disk s)) 1 = load i2 blank) by (rewrite node_put by done; by rewrite decide_True).
  assert (Hown : ∀ b, owns (put_node 1 i2 (disk s)) (node (put_node 1 i2 (disk s)) 1) b ↔ owns (disk s) i b).
  { intros b. rewrite Enode, (owns_frame (disk s)); [by apply owns_addrs|]. intros b' Hb'. apply put_node_other; [done|].
    apply (owns_addrs _ i) in Hb'; [|done]. apply (ft_range _ _ _ _ F1) in Hb'. lia. }
  change (mkD T_DIR (rounded (zlen d)) d :: F) with (<[0%nat := mkD T_DIR (rounded (zlen d)) d]> (dir_desc d :: F)).
  apply (image_update _ 0 (dir_desc d) _ s); cbn [dlen freeinode freeblock disk set_disk d_data dir_desc]; change (1 + Z.of_nat 0) with 1;
    [exact I|reflexivity|reflexivity|reflexivity|lia|lia|..].
  - intros b Hb a. cbn [disk set_disk freeblock] in *. pose proof (im_free _ _ I). pose proof (total_nonneg (dir_desc d :: F)).
    rewrite put_node_other; [by apply (im_zero _ _ I)|done|lia].
  - apply described_put; [exact Ok2|exact Hn|exact D1|exact D2|exact D2'|exact D3| |by apply (ftab_addrs _ i)|exact Hh].
    unfold i2; cbn [set_size set_meta i_size d_size]. by rewrite D4.
  - intros n Hn' Hne. rewrite node_put by done. by rewrite decide_False.
  - intros b Hb Hb' Ho. by rewrite put_node_other.
  - intros b [?|?]; [lia|]. by rewrite Hown.
  - intros b Ho. rewrite Hown in Ho. by left.
Qed.

(** The super block in [d], as readsb reads it. *)
Definition get_sb (d : block) : superblock :=
  mkSb (rd32 d 0) (rd32 d 4) (rd32 d 8) (rd32 d 12) (rd32 d 16) (rd32 d 20) (rd32 d 24) (rd32 d 28).

(** [V] is a file system with the given files in its root directory. *)
Record fs_image (files : list (list Z * list (list Z))) (V : Z → block) : Prop := {
  fi_sb : get_sb (V 1) = mksb ∧ layout mksb 2 (2 + nlog) nmeta;
  fi_log : hd_n (V (sb_logstart mksb)) = 0;
  fi_map b : 0 <= b < FSSIZE →
    used mksb V b = true ↔ b < nmeta ∨ ∃ n, 1 <= n <= 1 + zlen files ∧ owns V (node V n) b;
  fi_disjoint n n' b : 1 <= n <= 1 + zlen files → 1 <= n' <= 1 + zlen files → n ≠ n' → owns V (node V n) b → ¬ owns V (node V n') b;
  fi_root : i_type (node V ROOTINO) = T_DIR ∧ i_nlink (node V ROOTINO) = 1 ∧ i_size (node V ROOTINO) = rounded (root_size files) ∧
    file_ok mksb nmeta V (node V ROOTINO) ∧
    (∀ n, root_size files <= Z.of_nat n <= (root_size files + (BSIZE - 1)) / BSIZE * BSIZE →
       file_bytes V (node V ROOTINO) 0 n = root_data files ++ replicate (n - length (root_data files)) 0) ∧
    (mapped V (node V ROOTINO) ↔ root_size files mod BSIZE ≠ 0);
  fi_file k f : files !! k = Some f → let i := node V (2 + Z.of_nat k) in
    i_type i = T_FILE ∧ i_nlink i = 1 ∧ i_size i = zlen (concat f.2) ∧ file_ok mksb nmeta V i ∧ mapped V i ∧
    file_bytes V i 0 (length (concat f.2)) = concat f.2;
  fi_unused n : 1 + zlen files < n < NINODES → i_type (node V n) = 0
}.

Lemma get_put_sb : get_sb (put_sb ∅ mksb) = mksb.
Proof. vm_compute. reflexivity. Qed.

Lemma mksb_layout : layout mksb 2 (2 + nlog) nmeta.
Proof. split; vm_compute; repeat split; congruence. Qed.

(** The inodes of the finished image. *)
Definition all_descs (files : list (list Z * list (list Z))) : list desc :=
  mkD T_DIR (rounded (root_size files)) (root_data files) :: (file_desc <$> files).

(** The free map is written last. *)
Section Balloc.
Context (files : list (list Z * list (list Z))) (s : mkst) (V : Z → block).
Hypothesis (I : image (all_descs files) s) (Hfits : fits files) (Hok : Forall given_ok files)
  (EV : V = put_view (sb_bmapstart mksb) (mark_used (Z.to_nat (freeblock s)) ∅) (disk s)).

Lemma all_length : length (all_descs files) = S (length files).
Proof. unfold all_descs. cbn [length]. by rewrite length_fmap. Qed.

Lemma end_free : nmeta <= freeblock s <= FSSIZE.
Proof using I Hfits. destruct Hfits as [_ Hf]. rewrite (im_free _ _ I). pose proof (total_nonneg (all_descs files)). unfold all_descs, dir_desc in *. simpl in *. lia. Qed.

Lemma end_files : zlen files <= 198. Proof using Hfits. apply Hfits. Qed.

Lemma end_view b : b ≠ 45 → V b = disk s b.
Proof using EV. intros Hb. rewrite EV. by apply put_view_ne. Qed.

Lemma end_node n : 0 <= n < NINODES → node V n = node (disk s) n.
Proof using EV. intros Hn. unfold node, on_disk. rewrite end_view; [done|]. pose proof (iblock_below n Hn). consts. lia. Qed.

Lemma end_inode k : (k < S (length files))%nat → 0 <= 1 + Z.of_nat k < NINODES.
Proof using Hfits. pose proof end_files. unfold NINODES. lia. Qed.

Lemma end_used b : 0 <= b < FSSIZE → used mksb V b = bool_decide (b < freeblock s).
Proof using EV. intros Hb. rewrite EV. by apply used_balloc. Qed.

Lemma end_keep k d b : all_descs files !! k = Some d → owns (disk s) (node (disk s) (1 + Z.of_nat k)) b → V b = disk s b.
Proof using I EV. intros Hk Ho. apply end_view. pose proof (ft_range _ _ _ _ (de_tab _ _ _ _ (im_node _ _ I _ _ Hk)) b Ho). consts. lia. Qed.

Lemma end_described k d : all_descs files !! k = Some d → described V (freeblock s) (1 + Z.of_nat k) d.
Proof using All.
  intros Hk. pose proof (lookup_lt_Some _ _ _ Hk) as Hlk. rewrite all_length in Hlk.
  eapply described_frame; [by apply end_node, end_inode|intros; by apply (end_keep k d)|done|by apply I].
Qed.

Lemma end_desc k : (k < S (length files))%nat → ∃ d, all_descs files !! k = Some d.
Proof. rewrite <-all_length. apply lookup_lt_is_Some_2. Qed.

Lemma end_owns k b : (k < S (length files))%nat → owns V (node V (1 + Z.of_nat k)) b ↔ owns (disk s) (node (disk s) (1 + Z.of_nat k)) b.
Proof using All.
  intros Hk. rewrite end_node by by apply end_inode. apply owns_frame. intros b' Ho. destruct (end_desc k Hk) as [d Hd]. by apply (end_keep k d).
Qed.

Lemma end_map b :
  0 <= b < FSSIZE → used mksb V b = true ↔ b < nmeta ∨ ∃ n, 1 <= n <= 1 + zlen files ∧ owns V (node V n) b.
Proof using All.
  intros Hb. pose proof end_free. rewrite end_used by done. rewrite bool_decide_eq_true. split.
  - intros Hlt. destruct (decide (b < nmeta)); [by left|right]. destruct (im_cover _ _ I b) as (k & Hk & Ho); [lia|]. rewrite all_length in Hk.
    exists (1 + Z.of_nat k). split; [lia|]. by apply end_owns.
  - intros [?|(n & Hn & Ho)]; [lia|]. destruct (end_desc (Z.to_nat (n - 1))) as [d Hd]; [lia|]. pose proof (end_described _ _ Hd) as D.
    replace (1 + Z.of_nat (Z.to_nat (n - 1))) with n in D by lia. pose proof (ft_range _ _ _ _ (de_tab _ _ _ _ D) b Ho). lia.
Qed.

Lemma end_disjoint n n' b :
  1 <= n <= 1 + zlen files → 1 <= n' <= 1 + zlen files → n ≠ n' → owns V (node V n) b → ¬ owns V (node V n') b.
Proof using All.
  intros Hn Hn' Hne. replace n with (1 + Z.of_nat (Z.to_nat (n - 1))) by lia. replace n' with (1 + Z.of_nat (Z.to_nat (n' - 1))) by lia.
  rewrite !end_owns by lia. apply (im_disjoint _ _ I); rewrite ?all_length; lia.
Qed.

Lemma end_root :
  i_type (node V ROOTINO) = T_DIR ∧ i_nlink (node V ROOTINO) = 1 ∧ i_size (node V ROOTINO) = rounded (root_size files) ∧
  file_ok mksb nmeta V (node V ROOTINO) ∧
  (∀ n, root_size files <= Z.of_nat n <= (root_size files + (BSIZE - 1)) / BSIZE * BSIZE →
     file_bytes V (node V ROOTINO) 0 n = root_data files ++ replicate (n - length (root_data files)) 0) ∧
  (mapped V (node V ROOTINO) ↔ root_size files mod BSIZE ≠ 0).
Proof using All.
  destruct (end_described 0 _ eq_refl) as [D1 [D2 D2'] D3 D4 F1 Hh]. change (1 + Z.of_nat 0) with ROOTINO in *. cbn [d_type d_size d_data] in *.
  pose proof (length_root_data files) as El. pose proof end_files. pose proof end_free. assert (Hrs : 32 <= root_size files <= 3200) by (unfold root_size; lia).
  split_and!; [done|done|done| | |].
  - eapply ftab_file_ok; [done|by apply end_used|lia].
  - intros n Hn. rewrite (holds_bytes V _ (root_data files) (freeblock s)); [|done|done|rewrite El; apply Hn|rewrite El, MAXFILE_val, BSIZE_val; lia].
    rewrite take_app_ge by lia. f_equal. rewrite take_replicate. f_equal. lia.
  - rewrite (ftab_mapped V _ _ _ F1); rewrite ?D4, ?El; unfold rounded; rewrite ?MAXFILE_val, BSIZE_val; zdm.
Qed.

Lemma end_file k f :
  files !! k = Some f → let i := node V (2 + Z.of_nat k) in
  i_type i = T_FILE ∧ i_nlink i = 1 ∧ i_size i = zlen (concat f.2) ∧ file_ok mksb nmeta V i ∧ mapped V i ∧
  file_bytes V i 0 (length (concat f.2)) = concat f.2.
Proof using All.
  intros Hk. assert (Hd : all_descs files !! S k = Some (file_desc f)) by (unfold all_descs; simpl; by rewrite list_lookup_fmap, Hk).
  destruct (end_described _ _ Hd) as [D1 [D2 D2'] D3 D4 F1 Hh]. replace (1 + Z.of_nat (S k)) with (2 + Z.of_nat k) in * by lia. cbn [file_desc d_type d_size d_data] in *.
  assert (Hsz : zlen (concat f.2) <= MAXFILE * BSIZE) by (eapply Forall_lookup_1 in Hok as Hf; [apply Hf|done]). pose proof end_free.
  cbv zeta. split_and!; [done|done|done| | |].
  - eapply ftab_file_ok; [done|by apply end_used|lia].
  - apply (ftab_mapped V _ _ _ F1); rewrite ?D4; rewrite ?MAXFILE_val, ?BSIZE_val in *; zdm.
  - rewrite (holds_bytes V _ (concat f.2) (freeblock s)); [|done|done|rewrite BSIZE_val; zdm|done]. by rewrite take_app_length.
Qed.

Lemma end_image : fs_image files V.
Proof using All.
  split; [| |apply end_map|apply end_disjoint|apply end_root|apply end_file|].
  - rewrite end_view, (im_sb _ _ I) by done. split; [apply get_put_sb|apply mksb_layout].
  - unfold hd_n. rewrite end_view by done. rewrite zero_rd32; [done|]. by apply (im_log _ _ I).
  - intros n Hn. rewrite end_node by lia. rewrite (im_rest _ _ I); [done|lia|rewrite all_length; lia].
Qed.
End Balloc.

Lemma image_balloc files s :
  image (all_descs files) s → fits files → Forall given_ok files →
  runs (balloc (freeblock s)) s (λ _ s', dlen s' = FSSIZE ∧ fs_image files (disk s')).
Proof.
  intros I Hfits Hok. pose proof (end_free files s I Hfits). unfold balloc, assert. destruct (Z.ltb_spec (freeblock s) (BSIZE * 8)); [|consts; lia].
  apply runs_bind, runs_ret. cbv beta. apply runs_wsect; [by rewrite (im_dlen _ _ I)|]. split; [apply I|]. by apply (end_image files s).
Qed.

Lemma mkfs_builds files :
  Forall given_ok files → fits files → runs (mkfs files) mkfs_start (λ _ s, dlen s = FSSIZE ∧ fs_image files (disk s)).
Proof.
  intros Hok Hfits. pose proof Hfits as [Hlen Hfit]. unfold mkfs. apply runs_bind, runs_modify. apply runs_bind, runs_wzeroes; [done| |done].
  intros V HV. apply runs_bind, runs_wsect; [done|]. apply image_start in HV. set (s0 := mkM _ _ _ _) in HV.
  apply (image_root (λ rootino, add_files rootino files ;;; fix_root rootino ;;; used <- gets freeblock ;;; balloc used) s0); [exact HV|].
  intros s1 I1.
  apply runs_bind. eapply runs_mono; [apply (image_add_files files _ [] s1 I1 Hok)|].
  - simpl. lia.
  - rewrite length_app, Nat2Z.inj_add, !length_dirent. simpl. lia.
  - change (2 + zlen []) with 2. cbn [total foldr dir_desc d_data] in Hfit. fold (root_data files). cbn [app]. fold (total (file_desc <$> files)) in Hfit. lia.
  - intros [] s2 I2. change (2 + zlen []) with 2 in I2. fold (root_data files) in I2. cbn [app] in I2.
    apply runs_bind. eapply runs_mono; [apply (image_fix_root _ _ s2 I2)|].
    + rewrite length_root_data. unfold root_size. lia.
    + intros [] s3 I3. rewrite length_root_data in I3. apply runs_bind, runs_gets. by apply image_balloc.
Qed.

(** [C19] mkfs ends, and what it writes is a file system with the given files
    in its root directory: the super block describes a valid layout and the
    log is empty; a block is marked in the free map exactly when it is
    metadata or belongs to an inode, and to no other one; each given file has
    an inode with its size and its bytes; the root directory lists the files
    in their order, behind . and .., and nothing else, though its last block
    is missing when the list fills whole blocks; all other inodes are free. *)
Theorem mkfs_image files :
  Forall given_ok files → fits files → runs (mkfs files) mkfs_start (λ _ s, dlen s = FSSIZE ∧ fs_image files (disk s)).
Proof. apply mkfs_builds. Qed.

(** ** The kernel reads the image *)

Section Kernel.
Context {S : Type} `{TS : !TxnStore S}.

Lemma readsb_spec (s : fsst S) t (Q : unit → fsst S → Prop) :
  in_txn s t → theld t = ∅ → room t → (∀ c, in_txn (set_store c s) t → Q tt (set_sb (get_sb (tview t 1)) (set_store c s))) →
  runs (readsb ROOTDEV) s Q.
Proof.
  intros R Hh Hr HQ. unfold readsb. apply runs_bind. eapply runs_bread; [done|by rewrite Hh|done|by right|]. intros h c R1.
  apply runs_bind. eapply runs_data; [done|apply lookup_insert_eq|]. apply runs_bind, runs_modify.
  eapply runs_brelse; [exact R1|apply lookup_insert_eq| |].
  - cbn [tlogged hold tview tbase]. eapply (t_clean_law 1 _ t); [exact R|by rewrite Hh].
  - intros c2 R2. rewrite unhold_hold in R2 by by rewrite Hh. exact (HQ c2 R2).
Qed.

Lemma image_blocks files t :
  fs_image files (tview t) → tlo t = 2 → thi t = 2 + nlog → fs_blocks mksb nmeta t.
Proof.
  intros F H1 H2. split; [rewrite H1, H2; apply F|]. intros b Hb. apply (fi_map _ _ F); [consts; lia|left; lia].
Qed.

Lemma file_ok_addrs sb d V i j : i_addrs j = i_addrs i → file_ok sb d V i → file_ok sb d V j.
Proof.
  intros E. assert (Ei : addr_at j NDIRECT = addr_at i NDIRECT) by (unfold addr_at; by rewrite E).
  assert (Eb : ∀ k, block_of V j k = block_of V i k) by (intros; by apply block_of_addrs). intros [H1 H2 H3 H4].
  split; rewrite ?E, ?Ei; [done|done| |].
  - intros k. rewrite Eb. apply H3.
  - intros k k'. rewrite !Eb. apply H4.
Qed.

Lemma file_bytes_addrs V i j off n : i_addrs j = i_addrs i → file_bytes V j off n = file_bytes V i off n.
Proof.
  intros E. unfold file_bytes, file_byte. apply list_fmap_ext. intros k x _. by rewrite (block_of_addrs V i j).
Qed.

(** [C20] What mkfs writes, the kernel reads: on the image, readsb, ilock of
    the inode of a given file and readi from its start deliver the bytes of
    that file. *)
Theorem mkfs_readable me files k f :
  Forall given_ok files → fits files → files !! k = Some f →
  runs (mkfs files) mkfs_start (λ _ m, ∀ (s : fsst S) t ip j user dst,
    in_txn s t → tview t = disk m → tlo t = 2 → thi t = 2 + nlog → theld t = ∅ → room t →
    slot s ip j → i_dev j = ROOTDEV → i_inum j = 2 + Z.of_nat k → i_valid j = false → 1 <= i_ref j →
    sl_lk (i_lock j) = false → sl_locked (i_lock j) = false →
    0 <= dst < 2 ^ 64 → writable user (umem s) dst (zlen (concat f.2)) →
    runs (readsb ROOTDEV ;;; ilock me ip ;;; readi ip user dst 0 (zlen (concat f.2))) s
      (λ r s', r = zlen (concat f.2) ∧ ∃ s1, s' = deliver user dst (concat f.2) s1 ∧ umem s1 = umem s ∧ kmem s1 = kmem s)).
Proof.
  intros Hok Hfits Hk. eapply runs_mono; [by apply mkfs_builds|]. intros _ m [_ F] s t ip j user dst R EV Hlo Hhi Hh Hr Hs Hd Hn Hv Href Hl1 Hl2 Hdst Hw.
  pose proof (fi_file _ _ F k f Hk) as (T1 & _ & T3 & T4 & T5 & T6). pose proof (lookup_lt_Some _ _ _ Hk) as Hlk. destruct Hfits as [Hlen _].
  rewrite <-EV in *. pose proof (image_blocks _ _ F Hlo Hhi) as FB. assert (Hsz : zlen (concat f.2) < 2 ^ 32) by (destruct T5 as [? _]; consts; lia).
  apply runs_bind. eapply readsb_spec; [done|done|done|]. intros c R1. destruct (fi_sb _ _ F) as [-> _].
  apply runs_bind. eapply (ilock_load me nmeta _ t ip j); try done; cbn [sb set_sb set_store] in *.
  - rewrite Hn. change (sb_ninodes mksb) with 200. lia.
  - by rewrite Hh.
  - cbv zeta. rewrite Hn. change (i_type (node (tview t) (2 + Z.of_nat k)) ≠ 0). by rewrite T1.
  - intros c2 R2. rewrite Hn. set (i := set_valid true _). set (s2 := set_inodes _ _).
    assert (Ei : i_addrs i = i_addrs (node (tview t) (2 + Z.of_nat k))) by done.
    assert (Es : i_size i = zlen (concat f.2)) by exact T3. assert (Ec : read_count i 0 (zlen (concat f.2)) = zlen (concat f.2)).
    { unfold read_count. rewrite Es. destruct (Z.ltb_spec (0 + zlen (concat f.2)) (2 ^ 32)); lia. }
    eapply runs_mono; [apply (readi_spec nmeta s2 t ip i user dst 0); try done|].
    + by apply (slot_insert (set_store c2 s) ip j).
    + by apply (file_ok_addrs _ _ _ _ i Ei).
    + lia.
    + by rewrite Ec.
    + intros r s' [-> (c3 & -> & _)]. rewrite Ec, Nat2Z.id, (file_bytes_addrs _ _ i _ _ Ei), T6. split; [done|]. by eexists.
Qed.
End Kernel.

(** Two files: user/_cat in two pieces, and an empty README. *)
Definition two_files : list (list Z * list (list Z)) :=
  [([117; 115; 101; 114; 47; 95; 99; 97; 116], [[127; 69]; [76; 70; 2]]); ([82; 69; 65; 68; 77; 69], [])].

Lemma two_given : Forall given_ok two_files.
Proof.
  repeat apply Forall_cons_2; [| |constructor]; (split; [|split|discriminate]); apply (bool_decide_unpack _); vm_compute; exact I.
Qed.

Lemma two_fit : fits two_files.
Proof. split; vm_compute; congruence. Qed.

Lemma mkfs_image_witness : runs (mkfs two_files) mkfs_start (λ _ s, dlen s = FSSIZE ∧ fs_image two_files (disk s)).
Proof. apply (mkfs_image two_files); [exact two_given|exact two_fit]. Defined.

Lemma mkfs_readable_witness :
  runs (mkfs two_files) mkfs_start (λ _ m, ∃ s : fsst tstate,
    runs (readsb ROOTDEV ;;; ilock 7 1 ;;; readi 1 false 100 0 5) s (λ r s', r = 5 ∧ rd_bytes (kmem s') 100 5 = [127; 69; 76; 70; 2])).
Proof.
  eapply runs_mono; [apply (mkfs_readable (S := tstate) 7 two_files 0 _ two_given two_fit eq_refl)|].
  intros [] m Hm. set (j := mkInode ROOTDEV 2 1 initsleeplock false 0 0 0 0 0 (replicate 13 0)).
  exists (mkF (ref_start (disk m) 10 2 (2 + nlog)) mksb false [j] ∅ ∅ [] 0).
  eapply runs_mono; [apply (Hm _ (ref_start (disk m) 10 2 (2 + nlog)) 1 j false 100)|]; try reflexivity; try lia; try done.
  - apply ref_start_rep.
  - intros r s' [-> (s1 & -> & _ & Ek)]. split; [reflexivity|]. simpl kmem. rewrite Ek. reflexivity.
Defined.
