(* ===== verification/FsWrite.v ===== *)
(** writei of fs.c: it changes exactly the bytes it is given, keeps the blocks
    of the file apart from all others, and what it writes readi returns. *)

From S2P Require Import Prelude Mem CString Riscv Spinlock BlockCache TxnStore Log Fs FsBlock FsInode FsFile.
Local Open Scope kernel_scope.

(** [t'] and [i'] are [t] and [i] after the first [tot] bytes of [l] were
    written at [off], possibly with some blocks added to the file. *)
Record written (sb : superblock) (dstart : Z) (t : tstate) (i : inode) (off : Z) (l : list Z) (tot : Z)
    (t' : tstate) (i' : inode) : Prop := {
  wt_file : file_ok sb dstart (tview t') i';
  wt_blocks : fs_blocks sb dstart t';
  wt_held : theld t' = theld t;
  wt_inode : i' = set_addrs (i_addrs i') i;
  wt_use b : in_use sb dstart (tview t) b → in_use sb dstart (tview t') b;
  wt_kept k : 0 <= k < MAXFILE → block_of (tview t) i k ≠ 0 → block_of (tview t') i' k = block_of (tview t) i k;
  wt_new k : 0 <= k < MAXFILE → block_of (tview t) i k = 0 → block_of (tview t') i' k ≠ 0 →
    used sb (tview t) (block_of (tview t') i' k) = false;
  wt_there k : 0 < tot → off / BSIZE <= k → k * BSIZE < off + tot → block_of (tview t') i' k ≠ 0;
  wt_byte p : off <= p < off + tot → file_byte (tview t') i' p = default 0 (l !! Z.to_nat (p - off));
  wt_other p : 0 <= p < MAXFILE * BSIZE → ¬ (off <= p < off + tot) → block_of (tview t) i (p / BSIZE) ≠ 0 →
    file_byte (tview t') i' p = file_byte (tview t) i p;
  wt_frame b : in_use sb dstart (tview t) b → b ≠ addr_at i NDIRECT →
    (∀ k, 0 <= k < MAXFILE → block_of (tview t) i k ≠ b) → tview t' b = tview t b;
  wt_meta b : b < sb_bmapstart sb → tview t' b = tview t b;
  wt_ind : addr_at i' NDIRECT = addr_at i NDIRECT ∨
    addr_at i NDIRECT = 0 ∧ used sb (tview t) (addr_at i' NDIRECT) = false
}.
Arguments wt_file {_ _ _ _ _ _ _ _ _} _.
Arguments wt_blocks {_ _ _ _ _ _ _ _ _} _.
Arguments wt_held {_ _ _ _ _ _ _ _ _} _.
Arguments wt_inode {_ _ _ _ _ _ _ _ _} _.
Arguments wt_use {_ _ _ _ _ _ _ _ _} _.
Arguments wt_kept {_ _ _ _ _ _ _ _ _} _.
Arguments wt_new {_ _ _ _ _ _ _ _ _} _.
Arguments wt_there {_ _ _ _ _ _ _ _ _} _.
Arguments wt_byte {_ _ _ _ _ _ _ _ _} _.
Arguments wt_other {_ _ _ _ _ _ _ _ _} _.
Arguments wt_frame {_ _ _ _ _ _ _ _ _} _.
Arguments wt_meta {_ _ _ _ _ _ _ _ _} _.
Arguments wt_ind {_ _ _ _ _ _ _ _ _} _.

Section Written.
Context (sb : superblock) (dstart : Z) (t : tstate) (i : inode) (off : Z) (l : list Z).
Context (Hoff : 0 <= off) (Hmax : off + zlen l <= MAXFILE * BSIZE).

Lemma written_refl : fs_blocks sb dstart t → file_ok sb dstart (tview t) i → written sb dstart t i off l 0 t i.
Proof.
  intros F Hi. split; try done.
  - apply set_addrs_id.
  - intros p ?. lia.
  - by left.
Qed.

(** A block that is there stays there with its bytes when the file grows. *)
Lemma grown_byte t1 i1 bn r t2 i2 p :
  grown sb dstart t1 i1 bn r t2 i2 → file_ok sb dstart (tview t1) i1 → 0 <= p < MAXFILE * BSIZE →
  block_of (tview t1) i1 (p / BSIZE) ≠ 0 → file_byte (tview t2) i2 p = file_byte (tview t1) i1 p.
Proof.
  intros G Hi Hp Hb. rewrite MAXFILE_val in Hp. assert (0 <= p / BSIZE < MAXFILE) as Hk.
  { rewrite MAXFILE_val. unfold BSIZE in *. Z.div_mod_to_equations. lia. }
  assert (E : block_of (tview t2) i2 (p / BSIZE) = block_of (tview t1) i1 (p / BSIZE)).
  { rewrite (gr_map G) by done. case_decide as Ek; [|done]. rewrite Ek in *. by apply (gr_old G). }
  unfold file_byte. rewrite E. destruct (fo_data _ _ _ _ Hi _ Hk Hb). by rewrite (gr_frame G).
Qed.

Lemma written_grown tot t1 i1 bn r t2 i2 :
  0 <= tot <= zlen l → written sb dstart t i off l tot t1 i1 → grown sb dstart t1 i1 bn r t2 i2 → 0 <= bn < MAXFILE →
  written sb dstart t i off l tot t2 i2.
Proof.
  intros Htot W G Hbn.
  assert (Ek : ∀ k, 0 <= k < MAXFILE → block_of (tview t1) i1 k ≠ 0 → block_of (tview t2) i2 k = block_of (tview t1) i1 k).
  { intros k Hk Hb. rewrite (gr_map G) by done. case_decide; [subst k|done]. by apply (gr_old G). }
  assert (Hr : ∀ k, off / BSIZE <= k → k * BSIZE < off + tot → 0 <= k < MAXFILE).
  { intros k H1 H2. rewrite MAXFILE_val in *. unfold BSIZE in *. Z.div_mod_to_equations. lia. }
  split.
  - apply G.
  - apply G.
  - by rewrite (gr_held G), (wt_held W).
  - rewrite (gr_inode G) at 1. by rewrite (wt_inode W).
  - intros b Hb. by apply (gr_use G), (wt_use W).
  - intros k Hk Hb. pose proof (wt_kept W k Hk Hb) as E. rewrite <-E. apply Ek; [done|]. by rewrite E.
  - intros k Hk H0 Hne. destruct (decide (block_of (tview t1) i1 k = 0)) as [E|E].
    + pose proof (gr_map G k Hk) as Em. case_decide; [subst k|congruence]. rewrite Em in *.
      destruct (gr_new G E Hne) as [Hu _].
      destruct (fo_data _ _ _ _ (gr_file G) bn Hk) as [[Hrng _] _]; [by rewrite Em|]. rewrite Em in Hrng.
      destruct (used sb (tview t) r) eqn:Eu; [|done]. destruct (wt_use W r) as [_ ?]; [done|congruence].
    + rewrite Ek in * by done. by apply (wt_new W).
  - intros k H0 H1 H2. pose proof (wt_there W k H0 H1 H2) as Hb. rewrite Ek; [done|by apply Hr|done].
  - intros p Hp. rewrite (grown_byte t1 i1 bn r t2 i2); [by apply (wt_byte W)|done|apply W|lia|].
    apply (wt_there W); [lia|..]; unfold BSIZE; Z.div_mod_to_equations; lia.
  - intros p Hp Hn Hb. rewrite (grown_byte t1 i1 bn r t2 i2); [by apply (wt_other W)|done|apply W|done|].
    assert (0 <= p / BSIZE < MAXFILE) by (rewrite MAXFILE_val in *; unfold BSIZE in *; Z.div_mod_to_equations; lia).
    by rewrite (wt_kept W).
  - intros b Hb H1 H2. rewrite (gr_frame G); [by apply (wt_frame W)|by apply (wt_use W)|].
    destruct (wt_ind W) as [->|[_ Hf]]; [done|]. intros ->. destruct Hb. congruence.
  - intros b Hb. by rewrite (gr_meta G), (wt_meta W).
  - assert (used sb (tview t1) (addr_at i2 NDIRECT) = false → used sb (tview t) (addr_at i2 NDIRECT) = false) as Hback.
    { intros Hf. destruct (used sb (tview t) (addr_at i2 NDIRECT)) eqn:Eu; [|done].
      destruct (decide (addr_at i2 NDIRECT = 0)) as [E0|Hne].
      - rewrite E0, (fb_meta _ _ _ (wt_blocks W)) in Hf; [done|]. pose proof (dstart_pos _ _ _ (wt_blocks W)). lia.
      - destruct (fo_ind _ _ _ _ (gr_file G) Hne) as [? _]. destruct (wt_use W (addr_at i2 NDIRECT)); [done|congruence]. }
    destruct (wt_ind W) as [E|[E Hf]], (gr_ind G) as [E'|[E' Hf']].
    + left. congruence.
    + right. split; [congruence|]. by apply Hback.
    + right. by rewrite E'.
    + right. split; [done|]. by apply Hback.
Qed.

(** Writing [m] bytes into one block of the file. *)
Definition poked (b o : Z) (c : list Z) (t1 : tstate) : tstate := wrote b (wr_bytes (tview t1 b) o c) t1.

Lemma block_of_poked t1 i1 b o c k :
  b ≠ addr_at i1 NDIRECT → block_of (tview (poked b o c t1)) i1 k = block_of (tview t1) i1 k.
Proof. intros H. apply block_of_ext. intros _. simpl. by rewrite put_view_ne. Qed.

Lemma used_poked t1 b o c x :
  fs_blocks sb dstart t1 → dstart <= b → 0 <= x < sb_size sb →
  used sb (tview (poked b o c t1)) x = used sb (tview t1) x.
Proof. intros F Hb Hx. eapply used_data; [apply F|done|done]. Qed.

Lemma poked_byte t1 i1 bn o c p :
  file_ok sb dstart (tview t1) i1 → 0 <= bn < MAXFILE → block_of (tview t1) i1 bn ≠ 0 →
  0 <= p < MAXFILE * BSIZE → block_of (tview t1) i1 (p / BSIZE) ≠ 0 →
  file_byte (tview (poked (block_of (tview t1) i1 bn) o c t1)) i1 p =
    if decide (p / BSIZE = bn ∧ o <= p mod BSIZE < o + zlen c)
    then u8 (default 0 (c !! Z.to_nat (p mod BSIZE - o))) else file_byte (tview t1) i1 p.
Proof.
  intros Hi Hbn Hb Hp Hpb. set (b := block_of (tview t1) i1 bn) in *.
  destruct (fo_data _ _ _ _ Hi bn Hbn Hb) as [_ Hne]. fold b in Hne.
  unfold file_byte. rewrite block_of_poked by done. simpl.
  assert (0 <= p / BSIZE < MAXFILE) by (rewrite MAXFILE_val in *; unfold BSIZE in *; Z.div_mod_to_equations; lia).
  destruct (decide (p / BSIZE = bn)) as [E|E].
  - rewrite E. fold b. rewrite put_view_eq, rd8_wr_bytes. repeat case_decide; tauto.
  - rewrite decide_False by tauto. rewrite put_view_ne; [done|]. intros Eb. apply E.
    apply (fo_inj _ _ _ _ Hi); [done|done|done|exact Eb].
Qed.

Lemma written_poked tot m t1 i1 :
  let bn := (off + tot) / BSIZE in let o := (off + tot) mod BSIZE in
  written sb dstart t i off l tot t1 i1 → block_of (tview t1) i1 bn ≠ 0 →
  Forall (λ x, 0 <= x < 256) l → 0 <= tot → 0 < m → tot + m <= zlen l → o + m <= BSIZE →
  written sb dstart t i off l (tot + m)
    (poked (block_of (tview t1) i1 bn) o (take (Z.to_nat m) (drop (Z.to_nat tot) l)) t1) i1.
Proof.
  intros bn o W Hb Hl Htot Hm Hle Hom. set (c := take _ _). set (b := block_of (tview t1) i1 bn) in *.
  assert (Hc : zlen c = m) by (unfold c; rewrite length_take, length_drop; lia).
  assert (Hbn : 0 <= bn < MAXFILE) by (unfold bn; rewrite MAXFILE_val in *; unfold BSIZE in *; Z.div_mod_to_equations; lia).
  destruct (fo_data _ _ _ _ (wt_file W) bn Hbn Hb) as [[Hbr Hbu] Hne]. fold b in Hbr, Hbu, Hne.
  pose proof (dstart_pos _ _ _ (wt_blocks W)) as Hpos.
  assert (Euse : ∀ x, in_use sb dstart (tview t1) x → in_use sb dstart (tview (poked b o c t1)) x).
  { intros x [? Hx]. split; [done|]. rewrite used_poked; [done|apply W|lia|lia]. }
  assert (Emap := λ k, block_of_poked t1 i1 b o c k Hne).
  split; try (intros *; rewrite ?Emap); try apply W.
  - eapply (file_extend sb dstart (tview t1) _ i1 i1 bn b); [apply W..|done| | |apply W|].
    + intros _. split; [by apply Euse|]. split; [done|]. intros k Hk Hkn E. apply Hkn.
      apply (fo_inj _ _ _ _ (wt_file W)); [done|done|by rewrite E|by rewrite E].
    + intros Ha. by apply Euse, W.
    + intros k Hk. rewrite Emap. case_decide as E; [by rewrite E|done].
  - split; [apply W|]. intros x Hx. rewrite used_poked; [apply W; lia|apply W|lia|].
    pose proof (ly_size _ _ _ _ (fb_layout _ _ _ (wt_blocks W))). lia.
  - intros Hx. by apply Euse, (wt_use W).
  - intros _ H1 H2. destruct (decide (k = bn)) as [->|Hk]; [done|]. apply (wt_there W); [|done|];
      unfold bn, o, BSIZE in *; Z.div_mod_to_equations; lia.
  - intros Hp. assert (Hpb : block_of (tview t1) i1 (p / BSIZE) ≠ 0).
    { destruct (decide (p / BSIZE = bn)) as [->|Hk]; [done|]. apply (wt_there W); unfold bn, o, BSIZE in *; Z.div_mod_to_equations; lia. }
    unfold b. rewrite poked_byte; [|apply W|done|done|lia|done]. case_decide as E.
    + unfold c. rewrite lookup_take_lt, lookup_drop by lia. 
      assert (E2 : p - off = tot + (p mod BSIZE - o)).
      { destruct E as [E _]. unfold bn, o, BSIZE in *. Z.div_mod_to_equations. lia. }
      replace (Z.to_nat (p - off)) with (Z.to_nat tot + Z.to_nat (p mod BSIZE - o))%nat by lia.
      destruct (l !! _) as [x|] eqn:Ex; [|done]. simpl. apply u8_small. by eapply Forall_lookup_1 in Hl.
    + apply (wt_byte W). split; [lia|]. destruct (Z.lt_ge_cases p (off + tot)); [done|]. exfalso. apply E.
      unfold bn, o, BSIZE in *. Z.div_mod_to_equations. lia.
  - intros Hp Hn H0.
    assert (0 <= p / BSIZE < MAXFILE) by (rewrite MAXFILE_val in *; unfold BSIZE in *; Z.div_mod_to_equations; lia).
    unfold b. rewrite poked_byte; [|apply W|done|done|done|by rewrite (wt_kept W)]. rewrite decide_False.
    + apply (wt_other W); [done|lia|done].
    + intros [E1 E2]. apply Hn. rewrite Hc in E2. unfold bn, o, BSIZE in *. Z.div_mod_to_equations. lia.
  - intros Hx H1 H2. simpl. rewrite put_view_ne; [by apply (wt_frame W)|]. intros ->.
    destruct (decide (block_of (tview t) i bn = 0)) as [E|E].
    + destruct Hx as [_ Hx]. unfold b in Hx. rewrite (wt_new W) in Hx; done.
    + apply (H2 bn); [done|]. unfold b. by rewrite (wt_kept W).
  - intros Hx. simpl. rewrite put_view_ne; [by apply (wt_meta W)|].
    pose proof (bblock_range _ _ _ _ (fb_layout _ _ _ (wt_blocks W)) b ltac:(lia)). lia.
Qed.
End Written.

(** ** The loop of writei *)

(** The bytes [l] are at [src], in user or in kernel memory. *)
Definition supplied (user : bool) (um : gmap Z Z) (km : mem) (src : Z) (l : list Z) : Prop :=
  if user then ∀ k x, l !! k = Some x → um !! u64 (src + Z.of_nat k) = Some x
  else (∀ k x, l !! k = Some x → rd8 km (src + Z.of_nat k) = x) ∧ 0 <= src ∧ src + zlen l < 2 ^ 64.

Lemma fetch_prefix_ok um src l :
  (∀ k x, l !! k = Some x → um !! u64 (src + Z.of_nat k) = Some x) → fetch_prefix um src (length l) = (l, true).
Proof.
  revert src. induction l as [|x l IH]; intros src H; [done|]. cbn [length fetch_prefix].
  pose proof (H 0%nat x eq_refl) as H0. rewrite Z.add_0_r in H0. rewrite H0, IH; [done|].
  intros k y Hk. replace (src + 1 + Z.of_nat k) with (src + Z.of_nat (Datatypes.S k)) by lia. by apply H.
Qed.

Lemma rd_bytes_ok m a l : (∀ k x, l !! k = Some x → rd8 m (a + Z.of_nat k) = x) → rd_bytes m a (length l) = l.
Proof.
  intros H. apply list_eq. intros k. destruct (l !! k) as [x|] eqn:E.
  - rewrite lookup_rd_bytes by by eapply lookup_lt_Some. by rewrite (H k x E).
  - apply lookup_ge_None. rewrite length_rd_bytes. by apply lookup_ge_None.
Qed.

Lemma supplied_sub user um km src l k m :
  supplied user um km src l → 0 <= k → 0 <= m → k + m <= zlen l →
  supplied user um km (u64 (src + k)) (take (Z.to_nat m) (drop (Z.to_nat k) l)).
Proof.
  intros H Hk Hm Hl.
  assert (∀ j x, take (Z.to_nat m) (drop (Z.to_nat k) l) !! j = Some x → l !! (Z.to_nat k + j)%nat = Some x) as Hsub.
  { intros j x [Hx _]%lookup_take_Some. by rewrite lookup_drop in Hx. }
  destruct user; simpl in *.
  - intros j x Hx%Hsub%H. replace (u64 (u64 (src + k) + Z.of_nat j)) with (u64 (src + Z.of_nat (Z.to_nat k + j))); [done|].
    unfold u64. rewrite Zplus_mod_idemp_l. f_equal. lia.
  - destruct H as (H & ? & ?). rewrite u64_small by lia. split; [|rewrite length_take, length_drop; lia].
    intros j x Hx%Hsub%H. rewrite <-Hx. f_equal. lia.
Qed.

(** The blocks that the bytes from [tot] to [n] of a write at [off] fall into. *)
Definition blocks_left (off n tot : Z) : Z :=
  if tot <? n then (off + n - 1) / BSIZE - (off + tot) / BSIZE + 1 else 0.

Lemma blocks_left_step off n tot :
  let m := Z.min (n - tot) (BSIZE - (off + tot) mod BSIZE) in
  0 <= off → 0 <= tot < n → blocks_left off n tot = blocks_left off n (tot + m) + 1 ∧ 1 <= blocks_left off n tot.
Proof.
  intros m Ho Ht. unfold blocks_left, m, BSIZE in *. destruct (Z.ltb_spec tot n); [|lia].
  destruct (Z.ltb_spec (tot + Z.min (n - tot) (1024 - (off + tot) mod 1024)) n); Z.div_mod_to_equations; lia.
Qed.

(** Three blocks' worth of bytes fall into at most four blocks. *)
Lemma blocks_left_bound off n : 0 <= off → n <= 3 * BSIZE → blocks_left off n 0 <= 4.
Proof. intros. unfold blocks_left, BSIZE in *. destruct (Z.ltb_spec 0 n); [|lia]. Z.div_mod_to_equations. lia. Qed.

(** The blocks that a write may change besides the data blocks and the block
    of the inode: the free map and the block of the indirect addresses. *)
Definition bitmap_blocks (sb : superblock) : gset Z :=
  list_to_set ((λ k, sb_bmapstart sb + k) <$> seqZ 0 (sb_size sb / BPB + 1)).
Definition write_set (sb : superblock) (i : inode) : gset Z :=
  bitmap_blocks sb ∪ (if addr_at i NDIRECT =? 0 then ∅ else {[addr_at i NDIRECT]}).

(** What a write of [n] bytes at [off] needs of the transaction. *)
Definition write_budget (sb : superblock) (i : inode) (off n : Z) (t : tstate) : Prop :=
  budget (write_set sb i) (blocks_left off n 0 + pot i + 1) t.

Lemma write_set_map sb lo hi dstart i : layout sb lo hi dstart → has_map sb (write_set sb i).
Proof.
  intros L b Hb. unfold write_set, bitmap_blocks. apply elem_of_union_l, elem_of_list_to_set, list_elem_of_fmap.
  exists (b / BPB). split; [rewrite (bblock_eq _ _ _ _ L b Hb); lia|]. apply elem_of_seqZ.
  assert (b / BPB <= sb_size sb / BPB) by (apply Z.div_le_mono; [done|lia]).
  assert (0 <= b / BPB) by (apply Z.div_pos; [lia|done]). lia.
Qed.

Lemma write_set_paid sb i t : paid (write_set sb i) t i.
Proof.
  intros Ha. unfold write_set. rewrite (proj2 (Z.eqb_neq _ _) Ha). set_solver.
Qed.

(** On a file system whose free map is one block, a transaction that has not
    written anything yet has room for the blocks of the data, the free map, the
    indirect addresses and the inode. *)
Lemma write_budget_fresh sb i off n t :
  sb_size sb < BPB → tlogged t = ∅ → theld t = ∅ → blocks_left off n 0 + 3 <= tlimit t → tlimit t < NBUF →
  0 <= sb_size sb → write_budget sb i off n t.
Proof.
  intros Hsz Hl Hh Hn Hb H0.
  assert (Hs : Z.of_nat (size (write_set sb i)) + pot i <= 2).
  { unfold write_set, pot, bitmap_blocks. rewrite Z.div_small by lia. change (seqZ 0 (0 + 1)) with [0]. simpl.
    rewrite (right_id_L ∅ (∪)). destruct (addr_at i NDIRECT =? 0).
    - rewrite (right_id_L ∅ (∪)), size_singleton. lia.
    - rewrite size_union_alt, size_singleton.
      pose proof (size_le ({[addr_at i NDIRECT]} ∖ {[sb_bmapstart sb + 0]}) {[addr_at i NDIRECT]} ltac:(set_solver)) as H.
      rewrite size_singleton in H. lia. }
  unfold write_budget, budget. rewrite Hl, Hh, dom_empty_L, !(left_id_L ∅ (∪)). lia.
Qed.

Section Writei.
Context {S : Type} `{TS : !TxnStore S} (dstart : Z).

Lemma runs_either_copyin user src l s (Q : list Z * Z → fsst S → Prop) :
  supplied user (umem s) (kmem s) src l → Q (l, 0) s → runs (either_copyin user src (length l)) s Q.
Proof.
  intros H HQ. unfold either_copyin. destruct user; simpl in H.
  - kred. rewrite fetch_prefix_ok by done. by kred.
  - kred. destruct H as [H _]. by rewrite rd_bytes_ok.
Qed.

Section WriteLoop.
Context (s : fsst S) (t : tstate) (ip : Z) (i : inode) (user : bool) (src off : Z) (l : list Z).
Context (F : fs_blocks (sb s) dstart t) (Hh : theld t = ∅) (Hs : slot s ip i) (Hd : i_dev i = ROOTDEV).
Context (Hi : file_ok (sb s) dstart (tview t) i) (Hoff : 0 <= off) (Hmax : off + zlen l <= MAXFILE * BSIZE).
Context (Hl : Forall (λ x, 0 <= x < 256) l) (Hsrc : supplied user (umem s) (kmem s) src l).
Context (B : gset Z) (HB : has_map (sb s) B).
Abbreviation n := (zlen l).

(** The state of the loop of writei after [tot] bytes. *)
Definition write_inv (P : tstate → inode → Prop) (k tot : Z) (s' : fsst S) : Prop :=
  ∃ c p t' i', s' = moved c p ip i' s ∧ in_txn s' t' ∧ written (sb s) dstart t i off l tot t' i' ∧
    paid B t' i' ∧ budget B (k + pot i' + 1) t' ∧ P t' i'.
Abbreviation going := (write_inv (λ _ _, True)).

(** The disk is full, and the block for the byte at [p] is not there. *)
Definition stopped (p : Z) (t' : tstate) (i' : inode) : Prop := full (sb s) t' ∧ block_of (tview t') i' (p / BSIZE) = 0.

Lemma writei_block_spec tot s' :
  0 <= tot < n → going (blocks_left off n tot) tot s' →
  runs (writei_block ip user n (tot, off + tot, u64 (src + tot))) s' (λ r s'',
    (∃ m, 0 < m <= n - tot ∧ r = inl (tot + m, off + (tot + m), u64 (src + (tot + m))) ∧
       going (blocks_left off n (tot + m)) (tot + m) s'') ∨
    (r = inr (tot, off + tot) ∧ write_inv (stopped (off + tot)) 0 tot s'')).
Proof.
  intros Htot (c & p & t1 & i1 & -> & R1 & W & Hpd & Hbd & _). unfold writei_block. destruct (Z.ltb_spec tot n) as [_|]; [|lia].
  set (bn := (off + tot) / BSIZE). destruct (blocks_left_step off n tot Hoff Htot) as [Hbl1 Hbl2].
  set (k := blocks_left off n tot) in *. set (m := Z.min _ _) in *.
  assert (Hbn : 0 <= bn < MAXFILE) by (unfold bn; rewrite MAXFILE_val in *; unfold BSIZE in *; Z.div_mod_to_equations; lia).
  assert (Hd1 : i_dev i1 = ROOTDEV) by by rewrite (wt_inode W).
  assert (Hh1 : theld t1 = ∅) by by rewrite (wt_held W).
  apply runs_bind. eapply runs_mono.
  { apply (bmap_spec dstart B (k + 1) (moved c p ip i1 s) t1 ip i1 bn); try done;
      [apply W|eapply budget_le; [|exact Hbd]; lia|lia|by eapply slot_moved|apply W]. }
  intros r s2 (c2 & p2 & t2 & i2 & -> & R2 & G & Hpd2 & Hbd2 & Hfull).
  replace (k + 1 - 1 + pot i2) with (k + pot i2) in Hbd2 by lia. pose proof (pot_range i2) as Hpot. rewrite moved_moved in *.
  pose proof (written_grown _ _ _ _ _ _ Hoff Hmax tot _ _ _ _ _ _ ltac:(lia) W G Hbn) as W2.
  destruct (Z.eqb_spec r 0) as [E|E].
  { kred. right. split; [done|]. exists c2, p2, t2, i2. split_and!; try done; [|split; [by apply Hfull|]; fold bn; by rewrite (gr_map G), decide_True].
    apply (budget_drop _ _ r). eapply budget_le; [|exact Hbd2]. lia. }
  assert (Hm : 0 < m <= n - tot ∧ (off + tot) mod BSIZE + m <= BSIZE).
  { unfold m. pose proof (Z.mod_pos_bound (off + tot) BSIZE eq_refl). lia. }
  assert (Er : r = block_of (tview t2) i2 bn) by (rewrite (gr_map G), decide_True; done).
  destruct (fo_data _ _ _ _ (wt_file W2) bn Hbn) as [Hru _]; [by rewrite <-Er|]. rewrite <-Er in Hru.
  assert (Hd2 : i_dev i2 = ROOTDEV) by by rewrite (wt_inode W2).
  assert (Hh2 : theld t2 !! r = None) by by rewrite (gr_held G), Hh1.
  assert (Ho2 : home t2 r) by by apply (data_home dstart (sb s)), Hru; apply W2.
  set (ch := take (Z.to_nat m) (drop (Z.to_nat tot) l)).
  assert (Hch : length ch = Z.to_nat m) by (unfold ch; rewrite length_take, length_drop; lia).
  kred. eapply (runs_geti _ i2); [by eapply slot_moved|]. kred. rewrite Hd2.
  eapply (runs_bread r _ t2); [done|done|apply Ho2|right; apply (space_room (k + pot i2)); [lia|by eapply budget_space]|]. intros h c3 R3. kred.
  fold m. rewrite <-Hch. eapply runs_either_copyin; [by apply supplied_sub; [..|lia|lia|lia]|]. kred.
  eapply (runs_data r); [exact R3|apply lookup_insert_eq|]. kred.
  eapply (runs_put_data r); [exact R3|apply lookup_insert_eq|]. intros c4 R4. kred.
  destruct (Z.eqb_spec 0 (-1)); [done|]. kred.
  eapply (runs_log_write r); [exact R4|apply lookup_insert_eq|exact Ho2|simpl; destruct (budget_space _ _ _ Hbd2); lia|]. intros c5 R5. kred.
  eapply (runs_brelse r); [exact R5|apply lookup_insert_eq|left; simpl; set_solver|]. intros c6 R6.
  rewrite unhold_record in R6 by done. kred. left. exists m. split; [lia|]. split.
  { unfold u64. rewrite Zplus_mod_idemp_l. do 3 f_equal; lia. }
  exists c6, p2, (poked r ((off + tot) mod BSIZE) ch t2), i2. split_and!; [done|exact R6| | | |done].
  - rewrite Er. apply written_poked; try done; [by fold bn; rewrite <-Er|lia..].
  - intros Ha. specialize (Hpd2 Ha). simpl. set_solver.
  - apply (budget_drop _ _ r). apply budget_in; [set_solver|]. eapply budget_le; [|exact Hbd2]. lia.
Qed.

Lemma writei_loop_spec :
  in_txn s t → paid B t i → budget B (blocks_left off n 0 + pot i + 1) t → 0 <= src < 2 ^ 64 →
  runs (iter (Datatypes.S (Z.to_nat n)) (writei_block ip user n) (0, off, src)) s (λ r s', ∃ tot,
    r = (tot, off + tot) ∧ 0 <= tot <= n ∧ write_inv (λ t' i', tot < n → stopped (off + tot) t' i') 0 tot s').
Proof.
  intros R Hpd Hbd Hsr.
  apply (runs_iter _ (λ m '(tot, o, d) s', 0 <= tot <= n ∧ m = Z.to_nat (n - tot) ∧ o = off + tot ∧ d = u64 (src + tot) ∧
      going (blocks_left off n tot) tot s')) with (n := Z.to_nat n); [|split_and!; try lia|lia].
  - intros m [[tot o] d] s' (Htot & -> & -> & -> & I). destruct (Z.lt_ge_cases tot n) as [Hlt|Hge].
    + eapply runs_mono; [apply writei_block_spec; [lia|done]|].
      intros r s'' [(m & Hm1 & -> & I')|(-> & c & p & t1 & i1 & ? & ? & ? & ? & ? & ?)].
      * exists (Z.to_nat (n - (tot + m))). split; [lia|]. split_and!; try done; lia.
      * exists tot. split; [done|]. split; [lia|]. exists c, p, t1, i1. by split_and!.
    + assert (tot = n) as -> by lia. unfold writei_block. rewrite Z.ltb_irrefl. kred. exists n. split; [done|].
      split; [lia|]. destruct I as (c & p & t1 & i1 & ? & ? & ? & ? & Hbd1 & _). exists c, p, t1, i1. split_and!; try done; [|lia].
      unfold blocks_left in Hbd1. by rewrite Z.ltb_irrefl in Hbd1.
  - rewrite Z.add_0_r, u64_small by done. done.
  - exists (store s), (printed s), t, i. rewrite <-(moved_id s ip i) by done. split_and!; try done; [by destruct s|].
    by apply written_refl.
Qed.
End WriteLoop.
(** ** writei *)

(** The inode after [tot] bytes were written at [off]. *)
Definition resized (off tot : Z) (i1 : inode) : inode :=
  if i_size i1 <? off + tot then set_size (off + tot) i1 else i1.

Lemma block_of_resized V i1 off tot k : block_of V (resized off tot i1) k = block_of V i1 k.
Proof. unfold resized. by destruct (i_size i1 <? off + tot). Qed.

Lemma addr_at_resized i1 off tot k : addr_at (resized off tot i1) k = addr_at i1 k.
Proof. unfold resized. by destruct (i_size i1 <? off + tot). Qed.

Lemma file_resized sb V i1 off tot : file_ok sb dstart V i1 → file_ok sb dstart V (resized off tot i1).
Proof. intros []. unfold resized. destruct (i_size i1 <? off + tot); by split. Qed.

(** A change of a block before the free map does not touch files. *)
Lemma view_updated sb t i b : dstart <= b → IBLOCK (i_inum i) sb < dstart → tview (updated sb i t) b = tview t b.
Proof. intros. unfold updated. simpl. by rewrite put_view_ne by lia. Qed.

Lemma block_of_updated sb t i i1 k :
  file_ok sb dstart (tview t) i1 → IBLOCK (i_inum i) sb < dstart →
  block_of (tview (updated sb i t)) i1 k = block_of (tview t) i1 k.
Proof.
  intros Hi Hb. apply block_of_ext. intros Ha. apply view_updated; [|done].
  destruct (fo_ind _ _ _ _ Hi Ha). lia.
Qed.

Lemma file_byte_updated sb t i i1 p :
  file_ok sb dstart (tview t) i1 → IBLOCK (i_inum i) sb < dstart → 0 <= p < MAXFILE * BSIZE →
  block_of (tview t) i1 (p / BSIZE) ≠ 0 → file_byte (tview (updated sb i t)) i1 p = file_byte (tview t) i1 p.
Proof.
  intros Hi Hb Hp Hne. unfold file_byte. rewrite block_of_updated by done. rewrite view_updated; [done| |done].
  destruct (fo_data _ _ _ _ Hi (p / BSIZE)) as [[? _] _]; [|done|lia].
  rewrite MAXFILE_val in *. unfold BSIZE in *. Z.div_mod_to_equations. lia.
Qed.

Lemma used_updated sb t i x :
  fs_blocks sb dstart t → IBLOCK (i_inum i) sb < sb_bmapstart sb → 0 <= x < sb_size sb →
  used sb (tview (updated sb i t)) x = used sb (tview t) x.
Proof.
  intros F Hb Hx. unfold used, updated. simpl. rewrite put_view_ne; [done|].
  pose proof (bblock_range _ _ _ _ (fb_layout _ _ _ F) x Hx). lia.
Qed.

Lemma file_updated sb t i i1 :
  fs_blocks sb dstart t → file_ok sb dstart (tview t) i1 → 0 <= i_inum i < sb_ninodes sb →
  file_ok sb dstart (tview (updated sb i t)) i1.
Proof.
  intros F Hi Hn. destruct (iblock_range dstart _ _ _ F Hn) as [_ Hb]. pose proof (dstart_pos _ _ _ F).
  assert (sb_bmapstart sb < dstart) by (destruct (fb_layout _ _ _ F) as [_ _ ? [? _]]; change BPB with 8192 in *; Z.div_mod_to_equations; lia).
  assert (∀ b, in_use sb dstart (tview t) b → in_use sb dstart (tview (updated sb i t)) b) as Hu.
  { intros b [? ?]. split; [done|]. by rewrite used_updated by (done || lia). }
  eapply (file_extend _ _ (tview t) _ i1 i1 0 (block_of (tview t) i1 0)); try done; [apply Hi| | |apply Hi|].
  - intros Hz. destruct (fo_data _ _ _ _ Hi 0 ltac:(rewrite MAXFILE_val; lia) Hz). split; [by apply Hu|]. split; [done|].
    intros k Hk Hne E. apply Hne. apply (fo_inj _ _ _ _ Hi); [done|rewrite MAXFILE_val; lia|by rewrite E|done].
  - intros Ha. by apply Hu, Hi.
  - intros k Hk. rewrite block_of_updated by (done || lia). by case_decide; subst.
Qed.

Lemma file_dinode_ok sb t i i1 :
  fs_blocks sb dstart t → file_ok sb dstart (tview t) i1 → dinode_ok i → i1 = set_addrs (i_addrs i1) i → dinode_ok i1.
Proof.
  intros F Hi [? ? ? ? ? ? ?] E. pose proof (ly_size _ _ _ _ (fb_layout _ _ _ F)) as Hsz.
  split; try (rewrite E; done); [apply Hi|]. apply Forall_lookup. intros k x Hk.
  assert (Hx : addr_at i1 (Z.of_nat k) = x) by (unfold addr_at; by rewrite Nat2Z.id, Hk).
  destruct (decide (x = 0)) as [->|Hne]; [lia|].
  pose proof (lookup_lt_Some _ _ _ Hk) as Hlt. rewrite (fo_length _ _ _ _ Hi) in Hlt.
  destruct (decide (Z.of_nat k = NDIRECT)) as [En|En].
  - rewrite En in Hx. destruct (fo_ind _ _ _ _ Hi) as [? _]; [congruence|]. rewrite Hx in *. lia.
  - destruct (fo_data _ _ _ _ Hi (Z.of_nat k)) as [[? _] _].
    + rewrite MAXFILE_val. lia.
    + rewrite block_of_direct by (unfold NDIRECT in *; lia). congruence.
    + rewrite block_of_direct, Hx in * by (unfold NDIRECT in *; lia). lia.
Qed.
(** What a write of the first [r] bytes of [l] at [off] leaves behind. *)
Record write_post (s : fsst S) (t : tstate) (ip : Z) (i : inode) (off : Z) (l : list Z) (r : Z)
    (s' : fsst S) (t' : tstate) (i' : inode) : Prop := {
  wp_txn : in_txn s' t';
  wp_slot : slot s' ip i';
  wp_same : sb s' = sb s ∧ kmem s' = kmem s ∧ umem s' = umem s;
  wp_blocks : fs_blocks (sb s) dstart t';
  wp_held : theld t' = ∅;
  wp_space : space 0 t';
  wp_file : file_ok (sb s) dstart (tview t') i';
  wp_mapped : mapped (tview t') i';
  wp_dev : i_dev i' = i_dev i ∧ i_inum i' = i_inum i;
  wp_size : i_size i' = Z.max (i_size i) (off + r);
  wp_bytes p : 0 <= p < i_size i' →
    file_byte (tview t') i' p = if decide (off <= p < off + r) then default 0 (l !! Z.to_nat (p - off))
                                else file_byte (tview t) i p;
  wp_frame b : in_use (sb s) dstart (tview t) b → b ≠ addr_at i NDIRECT →
    (∀ k, 0 <= k < MAXFILE → block_of (tview t) i k ≠ b) → tview t' b = tview t b;
  wp_disk n j : 0 <= n < sb_ninodes (sb s) → on_disk (sb s) (tview t') n j =
    if decide (n = i_inum i) then load i' j else on_disk (sb s) (tview t) n j
}.

#[local] Arguments wp_txn {_ _ _ _ _ _ _ _ _ _} _.
#[local] Arguments wp_slot {_ _ _ _ _ _ _ _ _ _} _.
#[local] Arguments wp_same {_ _ _ _ _ _ _ _ _ _} _.
#[local] Arguments wp_blocks {_ _ _ _ _ _ _ _ _ _} _.
#[local] Arguments wp_held {_ _ _ _ _ _ _ _ _ _} _.
#[local] Arguments wp_space {_ _ _ _ _ _ _ _ _ _} _.
#[local] Arguments wp_file {_ _ _ _ _ _ _ _ _ _} _.
#[local] Arguments wp_mapped {_ _ _ _ _ _ _ _ _ _} _.
#[local] Arguments wp_dev {_ _ _ _ _ _ _ _ _ _} _.
#[local] Arguments wp_size {_ _ _ _ _ _ _ _ _ _} _.
#[local] Arguments wp_bytes {_ _ _ _ _ _ _ _ _ _} _.
#[local] Arguments wp_frame {_ _ _ _ _ _ _ _ _ _} _.
#[local] Arguments wp_disk {_ _ _ _ _ _ _ _ _ _} _.

Section WriteEnd.
Context (s : fsst S) (t : tstate) (ip : Z) (i : inode) (off : Z) (l : list Z).
Context (F : fs_blocks (sb s) dstart t) (Hh : theld t = ∅) (Hs : slot s ip i).
Context (Hi : file_ok (sb s) dstart (tview t) i) (Hm : mapped (tview t) i) (Hok : dinode_ok i).
Context (Hn : 0 <= i_inum i < sb_ninodes (sb s)).
Context (Hoff : 0 <= off <= i_size i) (Hmax : off + zlen l <= MAXFILE * BSIZE).

Lemma written_mapped tot t1 i1 :
  0 <= tot <= zlen l → written (sb s) dstart t i off l tot t1 i1 → mapped (tview t1) (resized off tot i1).
Proof.
  intros Htot W. destruct Hm as [Hsz Hmap].
  assert (Es : i_size (resized off tot i1) = Z.max (i_size i) (off + tot)).
  { unfold resized. rewrite (wt_inode W). simpl. destruct (Z.ltb_spec (i_size i) (off + tot)); simpl; lia. }
  split; rewrite Es; [lia|]. intros bn Hbn Hlt. rewrite block_of_resized.
  destruct (Z.lt_ge_cases (bn * BSIZE) (i_size i)) as [H|H].
  - rewrite (wt_kept W); [by apply Hmap| |by apply Hmap].
    rewrite MAXFILE_val in *. unfold BSIZE in *. lia.
  - apply (wt_there W); unfold BSIZE in *; Z.div_mod_to_equations; lia.
Qed.

Lemma write_end tot c c' p t1 i1 :
  0 <= tot <= zlen l → written (sb s) dstart t i off l tot t1 i1 → space 1 t1 →
  in_txn (set_store c' (moved c p ip (resized off tot i1) s)) (updated (sb s) (resized off tot i1) t1) →
  write_post s t ip i off l tot (set_store c' (moved c p ip (resized off tot i1) s))
    (updated (sb s) (resized off tot i1) t1) (resized off tot i1).
Proof.
  intros Htot W Hsp R. set (i2 := resized off tot i1) in *.
  assert (i_inum i2 = i_inum i ∧ i_dev i2 = i_dev i ∧ i_size i2 = Z.max (i_size i) (off + tot)) as (En & Ed & Es).
  { unfold i2, resized. rewrite (wt_inode W). simpl. destruct (Z.ltb_spec (i_size i) (off + tot)); simpl; lia. }
  pose proof (written_mapped tot t1 i1 Htot W) as Hm1. fold i2 in Hm1.
  destruct (iblock_range dstart _ _ _ (wt_blocks W) Hn) as [_ Hb].
  assert (IBLOCK (i_inum i2) (sb s) < dstart) as Hbd.
  { rewrite En. destruct (fb_layout _ _ _ F) as [_ _ ? [? _]]. change BPB with 8192 in *.
    assert (0 <= sb_size (sb s) / 8192) by (apply Z.div_pos; lia). lia. }
  pose proof (file_resized (sb s) (tview t1) i1 off tot (wt_file W)) as Hi2. fold i2 in Hi2.
  assert (F2 : fs_blocks (sb s) dstart (updated (sb s) i2 t1)) by (apply blocks_wrote_meta; [apply W|rewrite En; lia]).
  assert (Hok2 : dinode_ok i2).
  { pose proof (file_dinode_ok _ _ i i1 (wt_blocks W) (wt_file W) Hok (wt_inode W)) as [? ? ? ? ? ? ?].
    destruct Hm as [? _]. change (MAXFILE * BSIZE) with 274432 in *.
    unfold i2, resized. destruct (i_size i1 <? off + tot); split; simpl; try done; lia. }
  split; try done.
  - by apply (slot_moved s c' p ip i).
  - change (theld t1 = ∅). by rewrite (wt_held W).
  - by apply (space_wrote 1).
  - apply file_updated; [apply W|done|by rewrite En].
  - destruct Hm1 as [? Hm1]. split; [done|]. intros bn H1 H2. rewrite block_of_updated by done. by apply Hm1.
  - intros q Hq. destruct Hm1 as [Hsz Hm1].
    rewrite file_byte_updated; [|done|done|lia|apply Hm1; unfold BSIZE; Z.div_mod_to_equations; lia].
    unfold file_byte, i2. rewrite block_of_resized. fold (file_byte (tview t1) i1 q).
    case_decide; [by apply (wt_byte W)|]. apply (wt_other W); [lia|done|].
    apply Hm; unfold BSIZE; Z.div_mod_to_equations; lia.
  - intros b Hbu H1 H2. rewrite view_updated; [by apply (wt_frame W)|apply Hbu|done].
  - intros n j Hnn. rewrite (on_disk_updated dstart); [|apply W|done|by rewrite En|done]. rewrite En. case_decide; [done|].
    unfold on_disk. rewrite (wt_meta W); [done|]. by destruct (iblock_range dstart _ _ _ F Hnn) as [_ [_ ?]].
Qed.
End WriteEnd.

Lemma writei_spec s t ip i user src off l :
  in_txn s t → fs_blocks (sb s) dstart t → theld t = ∅ → write_budget (sb s) i off (zlen l) t →
  slot s ip i → i_dev i = ROOTDEV → 0 <= i_inum i < sb_ninodes (sb s) → dinode_ok i →
  file_ok (sb s) dstart (tview t) i → mapped (tview t) i →
  0 <= off <= i_size i → off + zlen l <= MAXFILE * BSIZE → Forall (λ x, 0 <= x < 256) l →
  0 <= src < 2 ^ 64 → supplied user (umem s) (kmem s) src l →
  runs (writei ip user src off (zlen l)) s (λ r s', ∃ t' i', 0 <= r <= zlen l ∧
    write_post s t ip i off l r s' t' i' ∧ (r < zlen l → full (sb s) t' ∧ block_of (tview t') i' ((off + r) / BSIZE) = 0)).
Proof.
  intros R F Hh Hsp Hs Hd Hn Hok Hi Hm Hoff Hmax Hl Hsr Hsup. pose proof (proj1 Hm) as Hsz.
  change (MAXFILE * BSIZE) with 274432 in Hmax, Hsz.
  unfold writei. apply runs_bind. eapply runs_geti; [done|]. rewrite u32_small by lia.
  destruct (Z.ltb_spec (i_size i) off), (Z.ltb_spec (off + zlen l) off); try lia. simpl.
  change (MAXFILE * BSIZE) with 274432. destruct (Z.ltb_spec 274432 (off + zlen l)); [lia|].
  apply runs_bind. eapply runs_mono.
  { eapply (writei_loop_spec s t ip i user src off l F Hh Hs Hd Hi) with (B := write_set (sb s) i); try done; try lia.
    - eapply write_set_map. apply F.
    - apply write_set_paid. }
  intros r s1 (tot & -> & Htot & c & p & t1 & i1 & -> & R1 & W & _ & Hbd1 & Hfull). pose proof (pot_range i1) as Hpot.
  assert (Hsp1 : space 1 t1) by (eapply space_le, budget_space, Hbd1; lia).
  apply runs_bind. eapply runs_geti; [by eapply slot_moved|]. apply runs_bind.
  assert (Hend : ∀ i2, i2 = resized off tot i1 → 
    runs (iupdate ip ;;; ret tot) (moved c p ip i2 s) (λ r s', ∃ t' i', 0 <= r <= zlen l ∧
      write_post s t ip i off l r s' t' i' ∧ (r < zlen l → full (sb s) t' ∧ block_of (tview t') i' ((off + r) / BSIZE) = 0))).
  { intros i2 ->. apply runs_bind.
    assert (i_dev (resized off tot i1) = ROOTDEV ∧ i_inum (resized off tot i1) = i_inum i) as [Ed En].
    { unfold resized. rewrite (wt_inode W). simpl. destruct (Z.ltb_spec (i_size i) (off + tot)); simpl; done. }
    eapply (iupdate_spec dstart _ t1); try done; [apply W|by eapply slot_moved|by rewrite En| |].
    - by rewrite (wt_held W), Hh.
    - intros c' R'. apply runs_ret. exists (updated (sb s) (resized off tot i1) t1), (resized off tot i1).
      split; [done|]. split; [by apply write_end|]. intros Hlt. destruct (Hfull Hlt) as [Hfull' Hno].
      destruct (iblock_range dstart _ _ _ F Hn) as [_ [_ Hib]]. split.
      + intros x Hx. rewrite used_updated; [by apply Hfull'|apply W|by rewrite En|done].
      + rewrite block_of_updated, block_of_resized; [done|apply file_resized, W|rewrite En].
        destruct (fb_layout _ _ _ F) as [_ _ ? [? _]]. change BPB with 8192 in *.
        assert (0 <= sb_size (sb s) / 8192) by (apply Z.div_pos; lia). lia. }
  unfold resized in Hend. destruct (i_size i1 <? off + tot).
  - eapply (runs_seti _ i1); [by eapply slot_moved|].
    change (set_inodes _ _) with (moved c p ip (set_size (off + tot) i1) (moved c p ip i1 s)).
    rewrite moved_moved. by apply Hend.
  - apply runs_ret. by apply Hend.
Qed.
Lemma rd_bytes_wr_bytes m a l : Forall (λ x, 0 <= x < 256) l → rd_bytes (wr_bytes m a l) a (length l) = l.
Proof.
  intros Hl. apply rd_bytes_ok. intros k x Hx. pose proof (lookup_lt_Some _ _ _ Hx).
  rewrite rd8_wr_bytes, decide_True by lia. replace (Z.to_nat (a + Z.of_nat k - a)) with k by lia.
  rewrite Hx. simpl. apply u8_small. by eapply Forall_lookup_1 in Hl.
Qed.

Lemma post_file_bytes s t ip i off l r s' t' i' :
  write_post s t ip i off l r s' t' i' → 0 <= off → 0 <= r <= zlen l →
  file_bytes (tview t') i' off (Z.to_nat r) = take (Z.to_nat r) l.
Proof.
  intros W Hoff Hr. apply list_eq. intros k. unfold file_bytes. rewrite list_lookup_fmap.
  destruct (decide (k < Z.to_nat r)%nat) as [Hk|Hk].
  - rewrite lookup_seq_lt, lookup_take_lt by done. simpl.
    rewrite (wp_bytes W) by (rewrite (wp_size W); lia).
    rewrite decide_True by lia. replace (Z.to_nat (off + Z.of_nat k - off)) with k by lia.
    destruct (lookup_lt_is_Some_2 l k) as [x ->]; [lia|done].
  - rewrite lookup_seq_ge, lookup_take_ge by lia. done.
Qed.

(** [C4] What writei writes is what readi reads.  writei changes the bytes of
    the file that it returns the count of to those it was given and no others,
    grows the file to hold them, leaves the blocks of all other files and the
    other inodes on disk alone, records the inode on disk, and writes less
    than it was asked only when no block is free; a readi of the same range
    then returns the bytes that were written. *)
Theorem writei_readi s t ip i user src off l dst :
  in_txn s t → fs_blocks (sb s) dstart t → theld t = ∅ → write_budget (sb s) i off (zlen l) t →
  slot s ip i → i_dev i = ROOTDEV → 0 <= i_inum i < sb_ninodes (sb s) → dinode_ok i →
  file_ok (sb s) dstart (tview t) i → mapped (tview t) i →
  0 <= off <= i_size i → off + zlen l <= MAXFILE * BSIZE → Forall (λ x, 0 <= x < 256) l →
  0 <= src < 2 ^ 64 → supplied user (umem s) (kmem s) src l → 0 <= dst → dst + zlen l < 2 ^ 64 →
  runs (r <- writei ip user src off (zlen l) ;;; n <- readi ip false dst off r ;;; ret (r, n)) s
    (λ rn s', ∃ s1 t' i', let '(r, n) := rn in
      0 <= r <= zlen l ∧ (r < zlen l → full (sb s) t') ∧ write_post s t ip i off l r s1 t' i' ∧
      n = r ∧ rd_bytes (kmem s') dst (Z.to_nat n) = take (Z.to_nat r) l ∧ in_txn s' t').
Proof.
  intros R F Hh Hsp Hs Hd Hn Hok Hi Hm Hoff Hmax Hl Hsr Hsup Hdst1 Hdst2. apply runs_bind.
  eapply runs_mono; [by eapply writei_spec|]. intros r s1 (t' & i' & Hr & W & Hshort).
  assert (Hfull : r < zlen l → full (sb s) t') by (intros Hlt; apply (Hshort Hlt)).
  destruct (wp_same W) as (Esb & _ & _). destruct (wp_dev W) as [Ed _].
  change (MAXFILE * BSIZE) with 274432 in Hmax. destruct (proj1 Hm) as [? Hsz]. change (MAXFILE * BSIZE) with 274432 in Hsz.
  assert (Ec : read_count i' off r = r).
  { unfold read_count. rewrite (wp_size W). destruct (Z.ltb_spec (off + r) (2 ^ 32)); lia. }
  apply runs_bind. eapply runs_mono.
  { apply (readi_spec dstart s1 t' ip i' false dst off r); try rewrite Esb; try exact (wp_txn W); try exact (wp_blocks W); try exact (wp_held W);
      try exact (wp_slot W); try exact (wp_file W); try exact (wp_mapped W); try lia.
    - apply (space_room 0); [lia|exact (wp_space W)].
    - rewrite Ec. simpl. lia. }
  intros n s' [-> (c & -> & R')]. rewrite Ec in *. kred. exists s1, t', i'. split_and!; try done; try lia.
  rewrite (post_file_bytes _ _ _ _ _ _ _ _ _ _ W) by lia. simpl.
  assert (El : Z.to_nat r = length (take (Z.to_nat r) l)) by (rewrite length_take; lia). rewrite El at 2.
  apply rd_bytes_wr_bytes. by apply Forall_take.
Qed.

(** writei refuses, with -1 and without any change, an offset beyond the
    end of the file, a range that overflows 32 bits, and a range that ends
    beyond the largest file. *)
Theorem writei_refuses s ip i user src off n :
  slot s ip i → 0 <= off < 2 ^ 32 → 0 <= n < 2 ^ 32 →
  i_size i < off ∨ 2 ^ 32 <= off + n ∨ MAXFILE * BSIZE < off + n →
  writei ip user src off n s = Ok (-1) s.
Proof.
  intros [H1 H2] Hoff Hn Hbad. unfold writei, bind, geti. rewrite H2. destruct (Z.leb_spec 1 ip); [|lia].
  pose proof (u32_sum off n Hoff Hn).
  destruct (Z.ltb_spec (i_size i) off); [done|]. destruct (Z.ltb_spec (u32 (off + n)) off); [done|].
  rewrite u32_small by lia. destruct (Z.ltb_spec (MAXFILE * BSIZE) (off + n)); [done|]. lia.
Qed.
End Writei.

(** ** Witnesses *)

Definition small_file_fs : fsst tstate :=
  set_kmem (wr_bytes ∅ 100 [1; 2; 3]) (set_inodes [file_inode true] small_fs).

Lemma small_block_of V k : 0 <= k → block_of V (file_inode true) k = if decide (k = 0) then 34 else 0.
Proof.
  intros Hk. unfold block_of. change (addr_at (file_inode true) NDIRECT) with 0. change (0 =? 0) with true.
  cbv iota. unfold addr_at. change (i_addrs (file_inode true)) with (34 :: replicate 12 0).
  case_decide as E; [by subst|]. destruct (k <? NDIRECT); [|done].
  rewrite lookup_cons_ne_0 by lia. destruct (replicate 12 0 !! _) as [x|] eqn:Ex; [|done].
  by apply lookup_replicate in Ex as [-> _].
Qed.

Lemma small_file_ok : file_ok small_sb 34 small_view (file_inode true).
Proof.
  split; [done|done| |].
  - intros k Hk. rewrite small_block_of by lia. case_decide; [|done]. intros _. split; [|done]. split; [|reflexivity].
    change (34 <= 34 < 40). lia.
  - intros k k' Hk Hk'. rewrite !small_block_of by lia. repeat case_decide; lia.
Qed.

Lemma small_file_mapped : mapped small_view (file_inode true).
Proof.
  split; [split; discriminate|]. intros bn H1 H2. change (bn * 1024 < 5) in H2.
  assert (bn = 0) as -> by lia. discriminate.
Qed.

Lemma writei_readi_witness :
  runs (r <- writei 1 false 100 5 3 ;;; n <- readi 1 false 200 5 r ;;; ret (r, n)) small_file_fs
    (λ rn s', rn.1 = rn.2 ∧ rd_bytes (kmem s') 200 (Z.to_nat rn.2) = take (Z.to_nat rn.1) [1; 2; 3]).
Proof.
  eapply runs_mono.
  - apply (writei_readi 34 small_file_fs small_txn 1 (file_inode true) false 100 5 [1; 2; 3] 200);
      [apply ref_start_rep|exact small_blocks|reflexivity|apply write_budget_fresh; reflexivity || discriminate|split; [lia|reflexivity]
      |reflexivity|split; discriminate || reflexivity|apply file_inode_ok|exact small_file_ok|exact small_file_mapped
      |split; discriminate|discriminate|repeat constructor; discriminate|lia| |lia|reflexivity].
    split; [|split; [lia|reflexivity]].
    intros [|[|[|k]]] x [= <-]; reflexivity.
  - intros [r n] s' (s1 & t' & i' & _ & _ & _ & -> & E & _). split; [reflexivity|exact E].
Defined.

Lemma writei_refuses_witness : writei 1 false 100 6 3 small_file_fs = Ok (-1) small_file_fs.
Proof.
  apply (writei_refuses small_file_fs 1 (file_inode true) false 100 6 3);
    [split; [lia|reflexivity]|lia|lia|left; reflexivity].
Defined.
