(* ===== verification/FsPath.v ===== *)
(** Path names in fs.c: skipelem splits a path the way a list of characters is
    split at its slashes. *)

From S2P Require Import Prelude Mem CString Riscv Spinlock BlockCache TxnStore Log Fs FsBlock FsInode FsFile FsWrite.
Local Open Scope kernel_scope.

(** ** The reference *)

Fixpoint skip_while (cond : Z → bool) (l : list Z) : list Z :=
  match l with [] => [] | c :: l' => if cond c then skip_while cond l' else l end.
Fixpoint take_while (cond : Z → bool) (l : list Z) : list Z :=
  match l with [] => [] | c :: l' => if cond c then c :: take_while cond l' else [] end.

Definition is_slash (c : Z) : bool := c =? SLASH.
Definition in_elem (c : Z) : bool := negb (c =? SLASH) && negb (c =? 0).

(** The first element of a path and what follows it. *)
Definition path_split (l : list Z) : option (list Z * list Z) :=
  match skip_while is_slash l with
  | [] => None
  | l1 => Some (take_while in_elem l1, skip_while is_slash (skip_while in_elem l1))
  end.

Lemma while_app cond l : take_while cond l ++ skip_while cond l = l.
Proof. induction l as [|c l IH]; [done|]. simpl. destruct (cond c); [|done]. simpl. by rewrite IH. Qed.

Lemma skip_while_length cond l : zlen (take_while cond l) + zlen (skip_while cond l) = zlen l.
Proof. rewrite <-(while_app cond l) at 3. rewrite length_app. lia. Qed.

Lemma cstr_suffix m a l l' : cstr m a (l ++ l') → cstr m (a + zlen l) l'.
Proof.
  revert a. induction l as [|c l IH]; intros a; cbn [app length].
  - by rewrite Z.add_0_r.
  - intros (_ & _ & H)%(λ x, x). replace (a + Z.of_nat (Datatypes.S (length l))) with (a + 1 + zlen l) by lia. by apply IH.
Qed.

Section Path.
Context {S : Type} `{TS : !TxnStore S}.

Lemma scan_while_spec cond p l s (Q : Z → fsst S → Prop) :
  cond 0 = false → cstr (kmem s) p l → zlen l < MAXPATH →
  Q (p + zlen (take_while cond l)) s → runs (scan_while cond p) s Q.
Proof.
  intros H0 Hs Hl HQ. unfold scan_while, path_fuel.
  apply (runs_iter _ (λ n q s', s' = s ∧ ∃ l1 l2, l = l1 ++ l2 ∧ q = p + zlen l1 ∧ n = length l2 ∧
     take_while cond l = l1 ++ take_while cond l2)) with (n := length l); [|split; [done|]; by exists [], l; rewrite Z.add_0_r|lia].
  intros n q s' (-> & l1 & l2 & El & -> & -> & Et). kred. rewrite El in Hs. apply cstr_suffix in Hs.
  destruct l2 as [|c l2]; cbn [cstr] in Hs.
  - rewrite Hs, H0. kred. rewrite Et, app_nil_r in HQ. done.
  - destruct Hs as (-> & Hc & _). simpl in Et. destruct (cond c).
    + kred. exists (length l2). split; [simpl; lia|]. split; [done|]. exists (l1 ++ [c]), l2.
      rewrite length_app, <-!(assoc_L (++)). simpl. split_and!; [done|lia|done|done].
    + kred. by rewrite Et, app_nil_r in HQ.
Qed.

(** What skipelem leaves in the name buffer: the element, cut off at DIRSIZ
    bytes, and terminated when it is shorter. *)
Definition holds_name (m : mem) (name : Z) (e : list Z) : Prop :=
  rd_bytes m name (length (take 14 e)) = take 14 e ∧ (zlen e < DIRSIZ → rd8 m (name + zlen e) = 0).

Lemma cstr_prefix m a l l' : cstr m a (l ++ l') → rd_bytes m a (length l) = l.
Proof.
  revert a. induction l as [|c l IH]; intros a; [done|]. cbn [app cstr length rd_bytes].
  intros (-> & _ & H). f_equal. by apply IH.
Qed.

Lemma skipelem_copy m name p e l :
  cstr m p (e ++ l) → name + DIRSIZ <= p ∨ p + zlen (e ++ l) < name →
  let m' := if zlen e >=? DIRSIZ then memmove m name p DIRSIZ else wr8 (memmove m name p (zlen e)) (name + zlen e) 0 in
  holds_name m' name e ∧ agree_out m m' name DIRSIZ.
Proof.
  intros Hs Hd m'. pose proof (cstr_prefix _ _ _ _ Hs) as Hp. rewrite length_app in Hd.
  assert (Hrd : ∀ k, (k < length e)%nat → rd8 m (p + Z.of_nat k) = default 0 (e !! k)).
  { intros k Hk. pose proof (lookup_rd_bytes m p (length e) k Hk) as Hk'. rewrite Hp in Hk'. by rewrite Hk'. }
  unfold m', holds_name, DIRSIZ in *. destruct (Z.geb_spec (zlen e) 14) as [Hlen|Hlen].
  - split; [split; [|lia]|by apply memmove_agree_out].
    apply rd_bytes_ok. intros k x Hx. pose proof Hx as [Hx' Hk]%lookup_take_Some.
    rewrite rd8_memmove, decide_True by lia. replace (p + (name + Z.of_nat k - name)) with (p + Z.of_nat k) by lia.
    rewrite Hrd by lia. by rewrite Hx'.
  - split; [split|].
    + rewrite take_ge by lia. apply rd_bytes_ok. intros k x Hx. pose proof (lookup_lt_Some _ _ _ Hx).
      rewrite rd8_wr8, decide_False, rd8_memmove, decide_True by lia.
      replace (p + (name + Z.of_nat k - name)) with (p + Z.of_nat k) by lia. rewrite Hrd by lia. by rewrite Hx.
    + intros _. by rewrite rd8_wr8, decide_True.
    + intros b Hb. rewrite rd8_wr8, decide_False, rd8_memmove, decide_False by lia. done.
Qed.

(** skipelem splits off the first element of a path as [path_split]
    does: it returns 0 when the path has no element, and otherwise a pointer
    to what follows the element and its slashes, with the element in the name
    buffer (cut off at DIRSIZ bytes); it writes nothing else. *)
Theorem skipelem_split (s : fsst S) path name l :
  cstr (kmem s) path l → zlen l < MAXPATH → 0 < path → name + DIRSIZ <= path ∨ path + zlen l < name →
  runs (skipelem path name) s (λ r s',
    match path_split l with
    | None => r = 0 ∧ s' = s
    | Some (e, rest) =>
        r = path + (zlen l - zlen rest) ∧ 0 < r ∧ cstr (kmem s') r rest ∧ holds_name (kmem s') name e ∧
        s' = set_kmem (kmem s') s ∧ agree_out (kmem s) (kmem s') name DIRSIZ
    end).
Proof.
  intros Hs Hl Hp Hd. unfold skipelem, path_split. kred. eapply (scan_while_spec is_slash); [done..|]. kred.
  set (l1 := skip_while is_slash l). set (p1 := path + zlen (take_while is_slash l)).
  pose proof (skip_while_length is_slash l) as Hlen1. fold l1 in Hlen1.
  assert (Hs1 : cstr (kmem s) p1 l1) by (apply cstr_suffix; by rewrite while_app).
  destruct l1 as [|c l1'] eqn:El1.
  { simpl in Hs1. rewrite Hs1. simpl. by kred. }
  pose proof Hs1 as (Hc & Hc0 & _). destruct (Z.eqb_spec (rd8 (kmem s) p1) 0); [congruence|]. rewrite <-El1 in *. clear Hc Hc0 El1 c l1'.
  kred. eapply (scan_while_spec in_elem); [done|exact Hs1|lia|]. kred.
  set (e := take_while in_elem l1). set (l2 := skip_while in_elem l1).
  pose proof (skip_while_length in_elem l1) as Hlen2. fold e l2 in Hlen2.
  assert (El1 : l1 = e ++ l2) by by rewrite <-(while_app in_elem l1).
  replace (p1 + zlen e - p1) with (zlen e) by lia.
  destruct (skipelem_copy (kmem s) name p1 e l2) as [Hname Hout].
  { by rewrite <-El1. }
  { rewrite <-El1. lia. }
  set (m' := if zlen e >=? DIRSIZ then _ else _) in *.
  assert (Hs2 : cstr m' (p1 + zlen e) l2).
  { eapply cstr_ext; [apply cstr_suffix; by rewrite <-El1|]. eapply agree_out_agree; [exact Hout|]. unfold DIRSIZ in *. lia. }
  set (s2 := set_kmem m' s). eapply (scan_while_spec is_slash _ l2 s2); [done|exact Hs2|lia|].
  pose proof (skip_while_length is_slash l2) as Hlen3. set (rest := skip_while is_slash l2) in *.
  split_and!; try done; [lia|lia|]. apply cstr_suffix. by rewrite while_app.
Qed.
End Path.

Lemma skipelem_split_witness :
  runs (skipelem 100 50) (set_kmem (wr_bytes ∅ 100 [97; 47; 98; 98; 47; 99; 0]) small_fs) (λ r s',
    r = 102 ∧ cstr (kmem s') 102 [98; 98; 47; 99] ∧ rd8 (kmem s') 50 = 97 ∧ rd8 (kmem s') 51 = 0).
Proof.
  eapply runs_mono.
  - apply (skipelem_split (set_kmem (wr_bytes ∅ 100 [97; 47; 98; 98; 47; 99; 0]) small_fs) 100 50 [97; 47; 98; 98; 47; 99]);
      [repeat (split; [reflexivity || discriminate|])..| | |].
    + reflexivity.
    + reflexivity.
    + lia.
    + left. discriminate.
  - intros r s'. cbn. intros (-> & _ & H1 & (H2 & H3) & _). split; [reflexivity|]. split; [exact H1|].
    split; [by injection H2|]. apply H3. reflexivity.
Defined.
