(* ===== verification/FsCrash.v ===== *)
(** The file system over the log over the buffer cache: what a call of fs.c
    does between begin_op and end_op happens as a whole or, after a crash, not
    at all. *)

From S2P Require Import Prelude Mem CString Riscv Spinlock BlockCache Bio BioSpec Log LogSpec LogTxn TxnStore LogStore.
From S2P Require Import Fs FsBlock FsInode FsFile FsWrite.
Local Open Scope kernel_scope.

Section Crash.
Context {S : Type} `{BC : !BlockCache S} (me me' dstart : Z).

(** begin_op and end_op on the file system's state. *)
Definition fs_begin_op : K (fsst (lst S)) unit := zoom store set_store begin_op.
Definition fs_end_op : K (fsst (lst S)) unit := zoom store set_store (end_op me).

Context (s : fsst (lst S)) (d : gmap Z block) (tr : writes) (l : log).
Context (I : idle (store s) d tr l) (Hhd : header (rd_block d (start l)) []) (Hsz : lsize l <= NBUF).
Context (E1 : sb_logstart (sb s) = start l) (E2 : sb_nlog (sb s) = lsize l).
#[local] Instance the_store : TxnStore (lst S) := log_store me d tr 1 (start l) (lsize l).
Abbreviation t0 := (txn_start d (start l) (lsize l)).
Abbreviation V0 := (rd_block d).

(** [C6] Any computation of the file system is crash safe: if, on the store
    of a transaction, it ends with no buffer held, then between begin_op and
    end_op it leaves its blocks on the disk, and a crash after any number of
    the disk writes, followed by any number of crashes during recovery, leaves
    a disk that boots with all blocks as before or all as it left them. *)
Theorem program_atomic {A} (prog : K (fsst (lst S)) A) (Q : A → (Z → block) → fsst (lst S) → Prop) :
  (∀ c, t_rep c t0 → runs prog (set_store c s) (λ r y, ∃ t, in_txn y t ∧ theld t = ∅ ∧ Q r (tview t) y)) →
  runs (fs_begin_op ;;; r <- prog ;;; fs_end_op ;;; ret r) s (λ r s', ∃ y V W l' c',
    s' = set_store c' y ∧ Q r V y ∧ idle c' (apply_writes W d) (tr ++ W) l' ∧ again l (apply_writes W d) l' ∧
    outside (start l) (lsize l) V (apply_writes W d) ∧
    ∀ k d', crashes (S := S) (sb s) (apply_writes (take k W) d) d' →
      boots (S := S) me' (sb s) d' (λ d2, outside (start l) (lsize l) V0 d2 ∨ outside (start l) (lsize l) V d2)).
Proof. intros Hprog. by apply (txn_atomic store set_store me me' (sb s) s d tr l). Qed.

(** [C1] A write to a file is crash safe.  One writei of at most three blocks'
    worth of bytes, the most that filewrite gives it, fits in what begin_op
    reserves; between begin_op and end_op it leaves a disk with the new
    contents, size and inode of the file and with the other files and inodes
    as they were, and it writes less than it was given only when no block of
    the disk is free and the next byte needs one.  After a crash at any of its
    disk writes, and any number of crashes at the writes of the recoveries that
    follow, the system boots with exactly that disk, or with exactly the blocks
    of before. *)
Theorem writei_crash_atomic ip i user src off bs :
  fs_blocks (sb s) dstart t0 → sb_size (sb s) < BPB → zlen bs <= 3 * BSIZE → MAXOPBLOCKS < lsize l →
  slot s ip i → i_dev i = ROOTDEV → 0 <= i_inum i < sb_ninodes (sb s) → dinode_ok i →
  file_ok (sb s) dstart V0 i → mapped V0 i →
  0 <= off <= i_size i → off + zlen bs <= MAXFILE * BSIZE → Forall (λ x, 0 <= x < 256) bs →
  0 <= src < 2 ^ 64 → supplied user (umem s) (kmem s) src bs →
  runs (fs_begin_op ;;; r <- writei ip user src off (zlen bs) ;;; fs_end_op ;;; ret r) s (λ r s', ∃ V i' W l',
    0 <= r <= zlen bs ∧ slot s' ip i' ∧ i_size i' = Z.max (i_size i) (off + r) ∧
    (r < zlen bs → (∀ b, 0 <= b < sb_size (sb s) → used (sb s) V b = true) ∧ block_of V i' ((off + r) / BSIZE) = 0) ∧
    file_ok (sb s) dstart V i' ∧ mapped V i' ∧
    (∀ p, 0 <= p < i_size i' → file_byte V i' p =
       if decide (off <= p < off + r) then default 0 (bs !! Z.to_nat (p - off)) else file_byte V0 i p) ∧
    (∀ b, in_use (sb s) dstart V0 b → b ≠ addr_at i NDIRECT →
       (∀ k, 0 <= k < MAXFILE → block_of V0 i k ≠ b) → V b = V0 b) ∧
    (∀ n j, 0 <= n < sb_ninodes (sb s) → on_disk (sb s) V n j =
       if decide (n = i_inum i) then load i' j else on_disk (sb s) V0 n j) ∧
    idle (store s') (apply_writes W d) (tr ++ W) l' ∧ again l (apply_writes W d) l' ∧
    outside (start l) (lsize l) V (apply_writes W d) ∧
    ∀ k d', crashes (S := S) (sb s) (apply_writes (take k W) d) d' →
      boots (S := S) me' (sb s) d' (λ d2, outside (start l) (lsize l) V0 d2 ∨ outside (start l) (lsize l) V d2)).
Proof.
  intros F Hsz1 Hlen Hlog Hs Hd Hn Hok Hi Hm Hoff Hmax Hbs Hsr Hsup.
  assert (Hbud : write_budget (sb s) i off (zlen bs) t0).
  { apply write_budget_fresh; try done; [| |pose proof (ly_size _ _ _ _ (fb_layout _ _ _ F)); lia].
    - pose proof (blocks_left_bound off (zlen bs) ltac:(lia) Hlen). simpl. unfold MAXOPBLOCKS in *. lia.
    - simpl. unfold NBUF, MAXOPBLOCKS. lia. }
  eapply runs_mono.
  - apply (txn_atomic store set_store me me' (sb s) s d tr l _
      (λ r V y, ∃ c t' i', V = tview t' ∧ 0 <= r <= zlen bs ∧
         (r < zlen bs → full (sb s) t' ∧ block_of (tview t') i' ((off + r) / BSIZE) = 0) ∧ write_post dstart (set_store c s) t0 ip i off bs r y t' i'));
      try done.
    intros c R. eapply runs_mono; [by eapply (writei_spec dstart (set_store c s) t0)|].
    intros r y (t' & i' & Hr & W & Hshort). exists t'. split; [apply W|]. split; [apply W|]. by exists c, t', i'.
  - intros r s' (y & V & W & l' & c' & -> & (c & t' & i' & -> & Hr & Hshort & P) & Hidle & Hag & Hout & Hcrash).
    exists (tview t'), i', W, l'. destruct P. split_and!; done || lia.
Qed.
End Crash.

(** ** Witnesses *)

Definition small_disk : gmap Z block := {[33 := small_map]}.
Abbreviation small_start := (txn_start small_disk 2 30).

Lemma small_boot : ∃ c : bst, idle (mkL c demo_log 0) small_disk [] demo_log.
Proof.
  destruct (booted small_disk) as [c R]. exists c. split; [by split| |done..]. split; try done.
  - simpl. lia.
  - apply NoDup_nil_2.
  - by intros b ?%elem_of_nil.
Qed.

Definition small_boot_fs (c : bst) : fsst (lst bst) :=
  mkF (mkL c demo_log 0) small_sb false [file_inode true] (wr_bytes ∅ 100 [1; 2; 3]) ∅ [] 0.

Lemma small_disk_header : header (rd_block small_disk 2) [].
Proof. split; [done|]. intros i b. by rewrite lookup_nil. Qed.

Lemma small_start_blocks : fs_blocks small_sb 34 small_start.
Proof.
  split; [split; vm_compute; repeat split; discriminate|]. intros b Hb.
  assert (forallb (λ n, used small_sb (rd_block small_disk) (Z.of_nat n)) (seq 0 34) = true) as H by reflexivity.
  rewrite forallb_forall in H. specialize (H (Z.to_nat b)). rewrite Z2Nat.id in H by lia.
  apply H, in_seq. lia.
Qed.

Lemma small_start_file : file_ok small_sb 34 (rd_block small_disk) (file_inode true).
Proof.
  split; [done|done| |].
  - intros k Hk. rewrite small_block_of by lia. case_decide; [|done]. intros _. split; [|done]. split; [|reflexivity].
    change (34 <= 34 < 40). lia.
  - intros k k' Hk Hk'. rewrite !small_block_of by lia. repeat case_decide; lia.
Qed.

Lemma program_atomic_witness :
  ∃ c : bst, runs (fs_begin_op ;;; r <- @balloc _ (log_store 3 small_disk [] 1 2 30) ROOTDEV ;;; fs_end_op 3 ;;; ret r)
    (small_boot_fs c) (λ b s', ∃ V W, used small_sb V b = true ∧ ∀ k d',
      crashes (S := bst) small_sb (apply_writes (take k W) small_disk) d' →
      boots (S := bst) 1 small_sb d' (λ d2, outside 2 30 (rd_block small_disk) d2 ∨ outside 2 30 V d2)).
Proof.
  destruct small_boot as [c I]. exists c. eapply runs_mono.
  - apply (program_atomic 3 1 (small_boot_fs c) small_disk [] demo_log I small_disk_header)
      with (Q := λ b V _, used small_sb V b = true); [discriminate|reflexivity..|].
    intros c' R. eapply runs_mono.
    + apply (balloc_spec 34 (set_store c' (small_boot_fs c)) small_start);
        [exact R|exact small_start_blocks|intros b [x Hx]; discriminate Hx|apply space_alloc; split; reflexivity || discriminate].
    + intros b y (cc & [(Hf & Hd & -> & R')|(-> & Ha & _)]).
      * exists (allocated small_sb b small_start). split; [exact R'|]. split; [reflexivity|].
        assert (Hu : used small_sb (tview (allocated small_sb b small_start)) b = true); [|exact Hu].
        rewrite (used_allocated 34) by (apply small_start_blocks || (destruct Hf; simpl in *; lia)).
        by rewrite decide_True.
      * specialize (Ha 35 ltac:(simpl; lia)). discriminate Ha.
  - intros b s' (y & V & W & l' & c' & _ & HQ & _ & _ & _ & Hc). exists V, W. split; [exact HQ|exact Hc].
Defined.

Lemma writei_crash_atomic_witness :
  ∃ c : bst, runs (fs_begin_op ;;; r <- @writei _ (log_store 3 small_disk [] 1 2 30) 1 false 100 5 3 ;;; fs_end_op 3 ;;; ret r)
    (small_boot_fs c) (λ r s', ∃ V i' W, r = 3 ∧ slot s' 1 i' ∧ i_size i' = 8 ∧
      file_byte V i' 5 = 1 ∧ file_byte V i' 6 = 2 ∧ file_byte V i' 7 = 3 ∧
      ∀ k d', crashes (S := bst) small_sb (apply_writes (take k W) small_disk) d' →
        boots (S := bst) 1 small_sb d' (λ d2, outside 2 30 (rd_block small_disk) d2 ∨ outside 2 30 V d2)).
Proof.
  destruct small_boot as [c I]. exists c. eapply runs_mono.
  - apply (writei_crash_atomic 3 1 34 (small_boot_fs c) small_disk [] demo_log I small_disk_header)
      with (bs := [1; 2; 3]) (i := file_inode true);
      [discriminate|reflexivity..|exact small_start_blocks|reflexivity|discriminate|reflexivity|split; [lia|reflexivity]
      |reflexivity|split; discriminate || reflexivity|apply file_inode_ok|exact small_start_file|
      |split; discriminate|discriminate|repeat constructor; discriminate|lia|].
    + split; [split; discriminate|]. intros bn H1 H2. change (bn * 1024 < 5) in H2.
      assert (bn = 0) as -> by lia. discriminate.
    + split; [|split; [lia|reflexivity]]. intros [|[|[|k]]] x [= <-]; reflexivity.
  - intros r s' (V & i' & W & l' & Hr & Hs & Hz & Hshort & _ & Hm & Hb & _ & _ & _ & _ & _ & Hcr). exists V, i', W.
    change (i_size (file_inode true)) with 5 in Hz. change (zlen [1; 2; 3]) with 3 in *.
    assert (r = 3) as ->.
    { destruct (Z.lt_ge_cases r 3) as [Hlt|]; [|lia]. destruct (Hshort Hlt) as [_ Hno]. exfalso.
      apply (proj2 Hm 0); [lia|change BSIZE with 1024; lia|]. by replace ((5 + r) / BSIZE) with 0 in Hno by (change BSIZE with 1024; symmetry; apply Z.div_small; lia). }
    change (i_size i' = 8) in Hz. rewrite !Hb by lia. split_and!; [done|exact Hs|exact Hz|done..|exact Hcr].
Defined.
