(* ===== verification/Grep.v ===== *)
(** user/grep.c: the regular expression matcher and the loop over a file.

    A pointer into a NUL-terminated string is the list of the bytes from it up
    to the NUL.  The input file is the list of its bytes, and the sizes of the
    pieces in which read returns them are arbitrary. *)

From S2P Require Import Prelude.

Definition STAR : Z := 42.
Definition DOLLAR : Z := 36.
Definition DOT : Z := 46.
Definition CARET : Z := 94.
Definition NEWLINE : Z := 10.

(** ** The matcher *)

(** [matchstar c re text], with [here] for [matchhere re]. *)
Fixpoint matchstar (here : list Z → bool) (c : Z) (text : list Z) : bool :=
  if here text then true
  else match text with
  | [] => false
  | t :: text' => if (t =? c) || (c =? DOT) then matchstar here c text' else false
  end.

Fixpoint matchhere (re text : list Z) : bool :=
  match re with
  | [] => true
  | c :: re1 =>
      match re1 with
      | c1 :: re2 =>
          if c1 =? STAR then matchstar (matchhere re2) c text
          else match text with
          | t :: text' => if (c =? DOT) || (c =? t) then matchhere re1 text' else false
          | [] => false
          end
      | [] =>
          if c =? DOLLAR then match text with [] => true | _ :: _ => false end
          else match text with
          | t :: text' => if (c =? DOT) || (c =? t) then matchhere re1 text' else false
          | [] => false
          end
      end
  end.

(** The do loop of match, which tries every suffix, the empty one included. *)
Fixpoint match_anywhere (re text : list Z) : bool :=
  if matchhere re text then true
  else match text with [] => false | _ :: text' => match_anywhere re text' end.

Definition grep_match (re text : list Z) : bool :=
  match re with
  | c :: re1 => if c =? CARET then matchhere re1 text else match_anywhere re text
  | [] => match_anywhere re text
  end.

(** ** The loop over a file *)

(** [strchr(p, '\n')]: the bytes before the first newline and those after it,
    unless the string ends first. *)
Fixpoint strchr_nl (p : list Z) : option (list Z * list Z) :=
  match p with
  | [] => None
  | c :: p' =>
      if c =? NEWLINE then Some ([], p')
      else if c =? 0 then None
      else match strchr_nl p' with Some (l, r) => Some (c :: l, r) | None => None end
  end.

(** The inner loop from [p] on: what is written, and the bytes it leaves, or
    [None] if [fuel] rounds do not end it.  Every round consumes a newline of
    the buffer. *)
Fixpoint grep_lines (fuel : nat) (pattern p : list Z) : option (list Z * list Z) :=
  match fuel with
  | O => None
  | S fuel' =>
      match strchr_nl p with
      | None => Some ([], p)
      | Some (line, rest) =>
          '(out, kept) ← grep_lines fuel' pattern rest;
          Some ((if grep_match pattern line then line ++ [NEWLINE] else []) ++ out, kept)
      end
  end.

Definition sizeof_buf : Z := 1024.

(** [read(fd, buf, n)]: some of the bytes left, at least one unless none are
    left or [n] is 0; [k] bounds how many this call returns. *)
Definition read_some (k n : nat) (input : list Z) : list Z * list Z :=
  (take (Nat.min (S k) n) input, drop (Nat.min (S k) n) input).

(** grep(pattern, fd): [pend] is what the buffer holds, [m] bytes; the result
    is what it writes until it returns, or [None] if it has not returned after
    [fuel] rounds.  Every round but the last consumes input. *)
Fixpoint grep_loop (fuel : nat) (ks : nat → nat) (pattern pend input : list Z) : option (list Z) :=
  match fuel with
  | O => None
  | S fuel' =>
      let m := zlen pend in
      let '(got, input') := read_some (ks fuel') (Z.to_nat (sizeof_buf - m - 1)) input in
      match got with
      | [] => Some []
      | _ :: _ =>
          let buf := pend ++ got in
          '(out, kept) ← grep_lines (S (length buf)) pattern buf;
          out' ← grep_loop fuel' ks pattern kept input';
          Some (out ++ out')
      end
  end.

Definition grep (ks : nat → nat) (pattern input : list Z) : option (list Z) :=
  grep_loop (S (length input)) ks pattern [] input.

(** ** What a pattern means *)

(** One character, or any number of them. *)
Inductive atom := One (c : Z) | Many (c : Z).

(** The atoms of a pattern without its caret, and whether it ends in a
    dollar sign that anchors it. *)
Fixpoint parse (re : list Z) : list atom * bool :=
  match re with
  | [] => ([], false)
  | c :: re1 =>
      match re1 with
      | c1 :: re2 =>
          if c1 =? STAR then let '(a, e) := parse re2 in (Many c :: a, e)
          else let '(a, e) := parse re1 in (One c :: a, e)
      | [] => if c =? DOLLAR then ([], true) else ([One c], false)
      end
  end.

Definition fits (c t : Z) : Prop := c = DOT ∨ c = t.

(** The strings that a sequence of atoms denotes. *)
Inductive denotes : list atom → list Z → Prop :=
| d_nil : denotes [] []
| d_one c l t ts : fits c t → denotes l ts → denotes (One c :: l) (t :: ts)
| d_many c l us ts : Forall (fits c) us → denotes l ts → denotes (Many c :: l) (us ++ ts).

(** [re] matches a prefix of [text]: all of it if it is anchored. *)
Definition matches_prefix (re text : list Z) : Prop :=
  ∃ ts rest, text = ts ++ rest ∧ denotes (parse re).1 ts ∧ ((parse re).2 = true → rest = []).

Lemma matchstar_true here c text :
  matchstar here c text = true ↔ ∃ us rest, text = us ++ rest ∧ Forall (fits c) us ∧ here rest = true.
Proof.
  induction text as [|t text IH]; simpl; destruct (here _) eqn:E.
  - split; [|done]. intros _. exists [], []. by split_and!.
  - split; [done|]. intros (us & rest & Ht & _ & Hr). symmetry in Ht. apply app_eq_nil in Ht as [-> ->]. congruence.
  - split; [|done]. intros _. exists [], (t :: text). by split_and!.
  - assert (Hf : (t =? c) || (c =? DOT) = true ↔ fits c t).
    { unfold fits. rewrite orb_true_iff, !Z.eqb_eq. naive_solver. }
    split.
    + destruct ((t =? c) || (c =? DOT)); [|done]. intros (us & rest & -> & Hus & Hr)%IH.
      exists (t :: us), rest. split_and!; [done| |done]. apply Forall_cons_2; [by apply Hf|done].
    + intros ([|u us] & rest & Ht & Hus & Hr); simplify_eq/=; [congruence|].
      apply Forall_cons in Hus as [Hu Hus]. rewrite (proj2 Hf Hu). apply IH. eauto.
Qed.

Lemma char_true c t (b : bool) : (if (c =? DOT) || (c =? t) then b else false) = true ↔ fits c t ∧ b = true.
Proof.
  unfold fits. destruct (Z.eqb_spec c DOT), (Z.eqb_spec c t); simpl; naive_solver.
Qed.

Lemma matches_one c re text :
  (∀ a e, parse re = (a, e) → parse (c :: re) = (One c :: a, e)) →
  matches_prefix (c :: re) text ↔ ∃ t ts, text = t :: ts ∧ fits c t ∧ matches_prefix re ts.
Proof.
  intros Hp. destruct (parse re) as [a e] eqn:E. specialize (Hp _ _ eq_refl). unfold matches_prefix. rewrite Hp, E. simpl. split.
  - intros (ts & rest & -> & Hd & He). inversion Hd; subst. eauto 10.
  - intros (t & ts & -> & Hf & ts' & rest & -> & Hd & He). exists (t :: ts'), rest. split_and!; try done. by constructor.
Qed.

Lemma matches_many c re text :
  matches_prefix (c :: STAR :: re) text ↔ ∃ us rest, text = us ++ rest ∧ Forall (fits c) us ∧ matches_prefix re rest.
Proof.
  unfold matches_prefix. simpl. destruct (parse re) as [a e]. simpl. split.
  - intros (ts & rest & -> & Hd & He). inversion Hd as [| |? ? us ts' Hus Hd']; subst.
    exists us, (ts' ++ rest). rewrite app_assoc. split_and!; try done. by exists ts', rest.
  - intros (us & ? & -> & Hus & ts & rest & -> & Hd & He). exists (us ++ ts), rest. rewrite app_assoc.
    split_and!; try done. by constructor.
Qed.

Lemma matches_nil text : matches_prefix [] text.
Proof. exists [], text. split_and!; try done. constructor. Qed.

(** A character of the pattern that neither a star follows nor anchors it. *)
Lemma matchhere_char c re text :
  (∀ text, matchhere re text = true ↔ matches_prefix re text) →
  (∀ a e, parse re = (a, e) → parse (c :: re) = (One c :: a, e)) →
  match text with
  | t :: text' => if (c =? DOT) || (c =? t) then matchhere re text' else false
  | [] => false
  end = true ↔ matches_prefix (c :: re) text.
Proof.
  intros IH Hp. rewrite (matches_one c re text Hp). destruct text as [|t text']; [naive_solver|].
  rewrite char_true, IH. naive_solver.
Qed.

Lemma matchhere_true re : ∀ text, matchhere re text = true ↔ matches_prefix re text.
Proof.
  remember (length re) as n eqn:Hn. revert re Hn. induction (lt_wf n) as [n _ IH]. intros [|c [|c1 re]] -> text.
  - split; [intros _; apply matches_nil|done].
  - destruct (Z.eq_dec c DOLLAR) as [->|Hc].
    + unfold matches_prefix. simpl. split.
      * destruct text; [|done]. intros _. exists [], []. split_and!; try done. constructor.
      * intros (ts & rest & -> & Hd & ->); [|done]. by inversion Hd.
    + cbn [matchhere]. rewrite (proj2 (Z.eqb_neq _ _) Hc). apply (matchhere_char c [] text).
      * intros text'. split; [intros _; apply matches_nil|done].
      * intros a e [= <- <-]. simpl. by rewrite (proj2 (Z.eqb_neq _ _) Hc).
  - cbn [matchhere]. destruct (Z.eqb_spec c1 STAR) as [->|Hs].
    + rewrite matchstar_true, matches_many. f_equiv. intros us. f_equiv. intros rest.
      rewrite (IH (length re)) by (simpl; lia). done.
    + apply (matchhere_char c (c1 :: re) text).
      * intros text'. apply (IH (length (c1 :: re))); [simpl; lia|done].
      * intros a e E. cbn [parse]. rewrite (proj2 (Z.eqb_neq _ _) Hs). cbn [parse] in E. by rewrite E.
Qed.

Lemma match_anywhere_true re text :
  match_anywhere re text = true ↔ ∃ skipped rest, text = skipped ++ rest ∧ matches_prefix re rest.
Proof.
  induction text as [|t text IH]; simpl; destruct (matchhere re _) eqn:E.
  - apply matchhere_true in E. split; [|done]. intros _. exists [], []. by split.
  - split; [done|]. intros (us & rest & Ht & Hr). symmetry in Ht. apply app_eq_nil in Ht as [-> ->].
    apply matchhere_true in Hr. congruence.
  - apply matchhere_true in E. split; [|done]. intros _. exists [], (t :: text). by split.
  - rewrite IH. split.
    + intros (us & rest & -> & Hr). by exists (t :: us), rest.
    + intros ([|u us] & rest & Ht & Hr); simplify_eq/=; [|eauto]. apply matchhere_true in Hr. congruence.
Qed.

(** [C34] The matcher of grep decides what the pattern denotes: with a caret,
    that the text begins with a string the atoms of the pattern denote, else
    that some suffix of it does; and all of the text from there on must be
    that string when the pattern ends in a dollar sign. *)
Theorem match_denotes re text :
  grep_match re text = true ↔
  match re with
  | c :: re1 => if decide (c = CARET) then matches_prefix re1 text
      else ∃ skipped rest, text = skipped ++ rest ∧ matches_prefix re rest
  | [] => True
  end.
Proof.
  unfold grep_match. destruct re as [|c re]; [by destruct text|].
  destruct (Z.eqb_spec c CARET), (decide (c = CARET)); try done; [apply matchhere_true|apply match_anywhere_true].
Qed.

(** ** The lines of a file *)

(** The lines that a newline ends, and the rest. *)
Fixpoint complete (input : list Z) : list (list Z) * list Z :=
  match input with
  | [] => ([], [])
  | c :: r =>
      let '(ls, p) := complete r in
      if c =? NEWLINE then ([] :: ls, p)
      else match ls with [] => ([], c :: p) | l :: ls' => ((c :: l) :: ls', p) end
  end.

Definition selected (pattern : list Z) (ls : list (list Z)) : list Z :=
  ls ≫= (λ l, if grep_match pattern l then l ++ [NEWLINE] else []).

Lemma strchr_complete p :
  0 ∉ p →
  match strchr_nl p with
  | Some (l, r) => complete p = (l :: (complete r).1, (complete r).2) ∧ p = l ++ NEWLINE :: r
  | None => complete p = ([], p)
  end.
Proof.
  induction p as [|c p IH]; intros Hn; [done|]. simpl. apply not_elem_of_cons in Hn as [Hc Hn]. specialize (IH Hn).
  destruct (Z.eqb_spec c NEWLINE) as [->|Hne]; [split; [by destruct (complete p)|done]|].
  rewrite (proj2 (Z.eqb_neq c 0)) by done. destruct (strchr_nl p) as [[l r]|].
  - destruct IH as [-> ->]. by split.
  - by rewrite IH.
Qed.

Lemma complete_app p q :
  complete (p ++ q) =
    let '(ls, kept) := complete p in ((ls ++ (complete (kept ++ q)).1), (complete (kept ++ q)).2).
Proof.
  induction p as [|c p IH]; simpl; [by destruct (complete q)|]. rewrite IH.
  destruct (complete p) as [ls kept] eqn:E. destruct (c =? NEWLINE) eqn:Ec; [done|].
  destruct ls as [|l ls]; simpl; [|done]. rewrite Ec. by destruct (complete (kept ++ q)) as [[|]].
Qed.

Lemma complete_kept p : ∃ u, p = u ++ (complete p).2 ∧ complete (complete p).2 = ([], (complete p).2).
Proof.
  induction p as [|c p (u & E & Hk)]; [by exists []|]. simpl. destruct (complete p) as [ls kept] eqn:Ep. simpl in *.
  destruct (c =? NEWLINE) eqn:Ec; [exists (c :: u); simpl; by rewrite <-E|].
  destruct ls as [|l ls]; simpl; [|exists (c :: u); simpl; by rewrite <-E].
  exists []. split; [|by rewrite Hk, Ec]. simpl. f_equal.
  clear -Ep. revert kept Ep. induction p as [|x p IH]; simpl; intros kept Ep; [by simplify_eq|].
  destruct (complete p) as [ls2 k2]. destruct (x =? NEWLINE); [done|]. destruct ls2; simplify_eq. f_equal. by apply IH.
Qed.

Lemma grep_lines_complete fuel pattern p :
  0 ∉ p → (length p < fuel)%nat → grep_lines fuel pattern p = Some (selected pattern (complete p).1, (complete p).2).
Proof.
  revert p. induction fuel as [|fuel IH]; intros p Hn Hl; simpl; [lia|].
  pose proof (strchr_complete p Hn) as H. destruct (strchr_nl p) as [[l r]|]; [|by rewrite H].
  destruct H as [E ->]. rewrite IH; [by rewrite E|set_solver|]. rewrite length_app in Hl. simpl in Hl. lia.
Qed.

(** A line that starts with [pend], which has no newline, is as long. *)
Lemma complete_long pend input l ls :
  complete pend = ([], pend) → (complete (pend ++ input)).1 = l :: ls → (length pend <= length l)%nat.
Proof.
  revert l. induction pend as [|c pend IH]; intros l Hp Hc; simpl; [lia|]. simpl in Hp, Hc.
  destruct (complete pend) as [ls1 k1]. destruct (c =? NEWLINE); [done|].
  destruct ls1; [|done]. injection Hp as ->. destruct (complete (pend ++ input)) as [[|l2 ls2] k2]; [done|].
  injection Hc as <- <-. simpl. specialize (IH l2 eq_refl eq_refl). lia.
Qed.

Lemma grep_loop_complete fuel ks pattern pend input :
  0 ∉ pend ++ input → complete pend = ([], pend) → (length pend <= 1023)%nat → (length input < fuel)%nat →
  Forall (λ l, (length l <= 1022)%nat) (complete (pend ++ input)).1 →
  grep_loop fuel ks pattern pend input = Some (selected pattern (complete (pend ++ input)).1).
Proof.
  revert pend input. induction fuel as [|fuel IH]; intros pend input Hn Hp Hlp Hf Hl; [lia|].
  cbn [grep_loop]. unfold read_some, sizeof_buf. cbv zeta. destruct (take _ input) as [|x got] eqn:Et.
  - destruct (complete (pend ++ input)) as [[|l ls] k] eqn:E; [done|]. exfalso. simpl in Hl.
    apply Forall_cons in Hl as [Hl _].
    pose proof (complete_long pend input l ls Hp ltac:(by rewrite E)) as Hlong.
    assert (length pend = 1023%nat ∨ input = []) as [?| ->]; [|lia|].
    { destruct input; [by right|left]. destruct (Z.to_nat (1024 - zlen pend - 1)) eqn:E2; [lia|done]. }
    rewrite app_nil_r, Hp in E. done.
  - rewrite <-Et. set (n := Nat.min _ _) in *. assert (Hgot : (0 < length (take n input))%nat) by (rewrite Et; simpl; lia).
    rewrite grep_lines_complete; [| |lia].
    2:{ intros Hin. apply Hn. rewrite <-(take_drop n input), app_assoc. set_solver. }
    pose proof (complete_kept (pend ++ take n input)) as (u & Eu & Hk).
    destruct (complete (pend ++ take n input)) as [ls kept] eqn:Ec. cbn [fst snd] in *.
    assert (E : complete (pend ++ input) = (ls ++ (complete (kept ++ drop n input)).1, (complete (kept ++ drop n input)).2)).
    { rewrite <-(take_drop n input) at 1. by rewrite app_assoc, complete_app, Ec. }
    rewrite E in Hl |- *. cbn [fst] in *. apply Forall_app in Hl as [_ Hl]. unfold selected. rewrite bind_app. cbn [mbind option_bind].
    rewrite (IH kept (drop n input)); try done.
    + intros Hin. apply Hn. rewrite <-(take_drop n input), app_assoc, Eu. set_solver.
    + pose proof (f_equal length Eu) as El. rewrite !length_app, length_take in El. unfold n in El. lia.
    + rewrite length_drop. rewrite length_take in Hgot. lia.
Qed.

(** [C35] grep writes the lines of its input that match, in order, and nothing
    else, however read cuts the input into pieces: for any input without NUL
    bytes whose lines fit in the buffer, it returns, having written exactly the
    lines (those that end in a newline) that the pattern matches. *)
Theorem grep_selects ks pattern input :
  0 ∉ input → Forall (λ l, (length l <= 1022)%nat) (complete input).1 →
  grep ks pattern input = Some (selected pattern (complete input).1).
Proof. intros. apply (grep_loop_complete _ ks pattern [] input); simpl; lia || done. Qed.

(** Two lines, the second of which matches ^b, read byte by byte. *)
Lemma grep_selects_witness : grep (λ _, O) [CARET; 98] [97; 98; 10; 98; 97; 10; 98] = Some [98; 97; 10].
Proof.
  rewrite (grep_selects (λ _, O) [CARET; 98] [97; 98; 10; 98; 97; 10; 98]); [reflexivity| |].
  - rewrite !not_elem_of_cons. split_and!; [discriminate..|apply not_elem_of_nil].
  - repeat constructor.
Defined.
