(* ===== verification/Umalloc.v ===== *)
(** user/umalloc.c: malloc and free of user programs.

    The state is the memory of the process, the variable [freep] and the
    program break.  A header is 16 bytes: the pointer at offset 0, the size in
    units of headers at offset 8.  The static header [base] is at address
    [base_at].  sbrk grants memory as [grant] says, which is a parameter; the
    searches in the ring of free blocks carry a bound, and the theorems show
    that a bound in the size of the heap is enough. *)

From S2P Require Import Prelude Mem.
Local Open Scope kernel_scope.

Definition sizeof_Header : Z := 16.

Record ust := mkU { um : mem; freep : Z; brk : Z }.
Definition set_um (m : mem) (s : ust) : ust := mkU m (freep s) (brk s).
Definition set_freep (p : Z) (s : ust) : ust := mkU (um s) p (brk s).
Definition set_brk (b : Z) (s : ust) : ust := mkU (um s) (freep s) b.

(** p->s.ptr and p->s.size *)
Definition ptr (p : Z) : K ust Z := gets (λ s, rd64 (um s) p).
Definition size_at (p : Z) : K ust Z := gets (λ s, rd32 (um s) (p + 8)).
Definition set_ptr (p v : Z) : K ust unit := modify (λ s, set_um (wr64 (um s) p v) s).
Definition set_size (p v : Z) : K ust unit := modify (λ s, set_um (wr32 (um s) (p + 8) v) s).
(** p + n for a pointer to headers *)
Definition hdr_add (p n : Z) : Z := u64 (p + n * sizeof_Header).

Section Umalloc.
Context (base_at : Z) (grant : Z → Z → bool).

(** sys_sbrk seen by the process: growing is up to the kernel; shrinking moves
    the break down unless the difference wraps around. *)
Definition sbrk (n : Z) : K ust Z := λ s,
  if 0 <? n then
    if grant (brk s) n then Ok (brk s) (set_brk (brk s + n) s) else Ok (u64 (-1)) s
  else
    let nb := u64 (brk s + n) in
    Ok (brk s) (if nb <? brk s then set_brk nb s else s).

Section Fuel.
Context (fuel : nat).

Definition free (ap : Z) : K ust unit :=
  let bp := hdr_add ap (-1) in
  fp <- gets freep ;;;
  p <- iter fuel (λ p,
    nx <- ptr p ;;;
    if (bp >? p) && (bp <? nx) then ret (inr p)
    else if (p >=? nx) && ((bp >? p) || (bp <? nx)) then ret (inr p)
    else ret (inl nx)) fp ;;;
  nx <- ptr p ;;;
  bsz <- size_at bp ;;;
  (if hdr_add bp bsz =? nx then
     nsz <- size_at nx ;;;
     set_size bp (u32 (bsz + nsz)) ;;;
     (nx <- ptr p ;;; nn <- ptr nx ;;; set_ptr bp nn)
   else set_ptr bp nx) ;;;
  psz <- size_at p ;;;
  (if hdr_add p psz =? bp then
     bsz <- size_at bp ;;;
     set_size p (u32 (psz + bsz)) ;;;
     (bn <- ptr bp ;;; set_ptr p bn)
   else set_ptr p bp) ;;;
  modify (set_freep p).

Definition morecore (nu : Z) : K ust Z :=
  let nu := if nu <? 4096 then 4096 else nu in
  p <- sbrk (s32 (nu * sizeof_Header)) ;;;
  if p =? u64 (-1) then ret 0
  else
    set_size p nu ;;;
    free (hdr_add p 1) ;;;
    gets freep.

Definition units (nbytes : Z) : Z := u32 ((nbytes + sizeof_Header - 1) / sizeof_Header + 1).

(** The block [p] is big enough: all of it, or its tail. *)
Definition take_block (nunits prevp p sz : Z) : K ust Z :=
  p <- (if sz =? nunits then (pn <- ptr p ;;; set_ptr prevp pn) ;;; ret p
        else
          set_size p (u32 (sz - nunits)) ;;;
          sz <- size_at p ;;;
          let p := hdr_add p sz in
          set_size p nunits ;;; ret p) ;;;
  modify (set_freep prevp) ;;;
  ret (hdr_add p 1).

(** One round of malloc's loop. *)
Definition malloc_round (nunits : Z) (x : Z * Z) : K ust (Z * Z + Z) :=
  let '(prevp, p) := x in
  sz <- size_at p ;;;
  if sz >=? nunits then r <- take_block nunits prevp p sz ;;; ret (inr r)
  else
    fp <- gets freep ;;;
    if p =? fp then
      q <- morecore nunits ;;;
      if q =? 0 then ret (inr 0) else nx <- ptr q ;;; ret (inl (q, nx))
    else nx <- ptr p ;;; ret (inl (p, nx)).

Definition malloc (nbytes : Z) : K ust Z :=
  let nunits := units nbytes in
  fp <- gets freep ;;;
  prevp <- (if fp =? 0 then
              set_ptr base_at base_at ;;; modify (set_freep base_at) ;;; set_size base_at 0 ;;; ret base_at
            else ret fp) ;;;
  p <- ptr prevp ;;;
  iter fuel (malloc_round nunits) (prevp, p).
End Fuel.

(** ** The heap as a row of blocks

    [(n, true)] is an allocated block of [n] units, its header included;
    [(n, false)] is a free one.  The blocks follow each other from [a]. *)

Fixpoint row_end (a : Z) (B : list (Z * bool)) : Z :=
  match B with [] => a | (n, _) :: B' => row_end (a + 16 * n) B' end.
Fixpoint row (u : bool) (a : Z) (B : list (Z * bool)) : list (Z * Z) :=
  match B with
  | [] => []
  | (n, v) :: B' => if eqb u v then (a, n) :: row u (a + 16 * n) B' else row u (a + 16 * n) B'
  end.
Abbreviation frees := (row false).
Abbreviation useds := (row true).

(** No two free blocks are neighbours. *)
Fixpoint coalesced (B : list (Z * bool)) : Prop :=
  match B with
  | (_, false) :: (((_, false) :: _) as B') => False
  | _ :: B' => coalesced B'
  | [] => True
  end.

(** The pointers lead from [x] through the blocks [l] to [y]. *)
Fixpoint lseg (m : mem) (x : Z) (l : list (Z * Z)) (y : Z) : Prop :=
  match l with
  | [] => x = y
  | (a, n) :: l' => x = a ∧ rd32 m (a + 8) = n ∧ lseg m (rd64 m a) l' y
  end.

Lemma row_end_app a B1 B2 : row_end a (B1 ++ B2) = row_end (row_end a B1) B2.
Proof. revert a. induction B1 as [|[n u] B1 IH]; intros a; [done|]. simpl. apply IH. Qed.
Lemma row_app u a B1 B2 : row u a (B1 ++ B2) = row u a B1 ++ row u (row_end a B1) B2.
Proof.
  revert a. induction B1 as [|[n v] B1 IH]; intros a; [done|]. simpl. destruct (eqb u v); simpl; by rewrite IH.
Qed.

Definition sizes_ok (B : list (Z * bool)) : Prop := Forall (λ b, 1 <= fst b) B.

Lemma row_end_le a B : sizes_ok B → a <= row_end a B.
Proof.
  intros H. revert a. induction H as [|[n u] B Hn _ IH]; intros a; simpl in *; [lia|]. specialize (IH (a + 16 * n)). lia.
Qed.
(** The blocks of a row lie between its ends. *)
Lemma row_bounds u a B b n : sizes_ok B → (b, n) ∈ row u a B → 1 <= n ∧ a <= b ∧ b + 16 * n <= row_end a B.
Proof.
  intros H. revert a. induction H as [|[k v] B Hk Hs IH]; intros a; simpl in *; [by intros ?%not_elem_of_nil|].
  pose proof (row_end_le (a + 16 * k) B Hs). destruct (eqb u v); [intros [[= -> ->]|Hin]%elem_of_cons|intros Hin].
  - lia.
  - specialize (IH _ Hin). lia.
  - specialize (IH _ Hin). lia.
Qed.

Lemma lseg_app m x l1 l2 y : lseg m x (l1 ++ l2) y ↔ ∃ z, lseg m x l1 z ∧ lseg m z l2 y.
Proof.
  revert x. induction l1 as [|[a n] l1 IH]; intros x; simpl; [naive_solver|]. rewrite IH. naive_solver.
Qed.
Lemma lseg_ext m m' x l y : (∀ a n, (a, n) ∈ l → agree m m' a 16) → lseg m x l y → lseg m' x l y.
Proof.
  revert x. induction l as [|[a n] l IH]; intros x Hag; simpl; [done|]. intros (-> & Hn & Hl).
  assert (H : agree m m' a 16) by (apply (Hag a n); set_solver). split_and!; [done| |].
  - rewrite <-Hn. apply rd_le_ext. intros b ?. apply H. lia.
  - rewrite (rd64_ext m m') by (intros b ?; apply H; lia). apply IH; [|done]. intros b k ?. apply (Hag b k). set_solver.
Qed.

(** The successor of position [i] in a list of blocks that ends at [y]. *)
Definition succ_of (l : list (Z * Z)) (i : nat) (y : Z) : Z :=
  match l !! S i with Some (b, _) => b | None => y end.

Lemma lseg_lookup m x l y i a n :
  lseg m x l y → l !! i = Some (a, n) → rd32 m (a + 8) = n ∧ rd64 m a = succ_of l i y.
Proof.
  revert x i. induction l as [|[b k] l IH]; intros x i; [done|]. simpl. intros (-> & Hk & Hl) Hi.
  destruct i as [|i]; simpl in Hi.
  - injection Hi as <- <-. split; [done|]. unfold succ_of. simpl. destruct l as [|[c j] l]; [done|]. simpl in Hl. by destruct Hl.
  - destruct (IH _ _ Hl Hi) as [? ?]. by split.
Qed.

(** ** The search for the place of a block *)

Section Search.
Context (s : ust) (L : list (Z * Z)) (t : nat) (bp : Z) (pp : Z * Z).
Context (Hring : lseg (um s) base_at L base_at) (Hhead : fst <$> L !! O = Some base_at) (Ht : L !! t = Some pp).
Context (Hlow : ∀ i a n, L !! i = Some (a, n) → (i <= t)%nat → base_at <= a < bp).
Context (Hhigh : ∀ i a n, L !! i = Some (a, n) → (t < i)%nat → bp < a).
Context (Hsort : ∀ i a n b k, L !! i = Some (a, n) → L !! S i = Some (b, k) → a < b).

Definition steps_to (i : nat) : nat := if decide (i <= t)%nat then t - i else length L - i + t.

Definition search_body (p : Z) : K ust (Z + Z) :=
  nx <- ptr p ;;;
  if (bp >? p) && (bp <? nx) then ret (inr p)
  else if (p >=? nx) && ((bp >? p) || (bp <? nx)) then ret (inr p)
  else ret (inl nx).

Lemma search_spec fuel fp :
  fp ∈ L.*1 → (length L <= fuel)%nat →
  runs (iter fuel search_body fp) s (λ p s', p = fst pp ∧ s' = s).
Proof.
  intros Hfp Hfuel. apply list_elem_of_lookup in Hfp as [i0 Hi0]. rewrite list_lookup_fmap in Hi0.
  destruct (L !! i0) as [[a0 n0]|] eqn:E0; [|done]. simpl in Hi0. injection Hi0 as ->.
  pose proof (lookup_lt_Some _ _ _ E0) as Hlt0. pose proof (lookup_lt_Some _ _ _ Ht) as Hltt.
  apply (runs_iter _ (λ k p s', s' = s ∧ ∃ i n, L !! i = Some (p, n) ∧ k = steps_to i)) with (n := steps_to i0).
  2: { split; [done|]. by exists i0, n0. }
  2: { unfold steps_to. case_decide; lia. }
  intros k p s' (-> & i & n & Hi & ->). pose proof (lookup_lt_Some _ _ _ Hi) as Hlt.
  destruct (lseg_lookup _ _ _ _ _ _ _ Hring Hi) as [_ Hnx]. unfold search_body, ptr. kred. rewrite Hnx.
  rewrite !Z.gtb_ltb, Z.geb_leb. unfold succ_of.
  destruct (L !! 0%nat) as [[b0 k0]|] eqn:EL0; [|done]. injection Hhead as ->.
  destruct (decide (i = t)) as [->|Hne].
  { (* the place *)
    rewrite Ht in Hi. injection Hi as ->. pose proof (Hlow _ _ _ Ht ltac:(lia)).
    destruct (L !! S t) as [[b j]|] eqn:En.
    - pose proof (Hhigh _ _ _ En ltac:(lia)). destruct (Z.ltb_spec p bp), (Z.ltb_spec bp b); [|lia..]. by kred.
    - destruct (Z.ltb_spec p bp), (Z.ltb_spec bp base_at), (Z.leb_spec base_at p); try lia. simpl. by kred. }
  destruct (decide (i < t)%nat) as [Hit|Hit].
  - (* below *)
    pose proof (Hlow _ _ _ Hi ltac:(lia)). destruct (lookup_lt_is_Some_2 L (S i)) as [[b j] En]; [lia|]. rewrite En.
    pose proof (Hlow _ _ _ En ltac:(lia)). pose proof (Hsort _ _ _ _ _ Hi En).
    destruct (Z.ltb_spec p bp), (Z.ltb_spec bp b), (Z.leb_spec b p); try lia. simpl. kred.
    exists (steps_to (S i)). split; [unfold steps_to; rewrite !decide_True by lia; lia|]. split; [done|]. by exists (S i), j.
  - (* above: on to the end and around *)
    pose proof (Hhigh _ _ _ Hi ltac:(lia)). pose proof (Hlow _ _ _ EL0 ltac:(lia)) as Hb.
    destruct (L !! S i) as [[b j]|] eqn:En.
    + pose proof (Hsort _ _ _ _ _ Hi En). pose proof (lookup_lt_Some _ _ _ En).
      destruct (Z.ltb_spec p bp), (Z.ltb_spec bp b), (Z.leb_spec b p); try lia. simpl. kred.
      exists (steps_to (S i)). split; [unfold steps_to; rewrite !decide_False by lia; lia|]. split; [done|]. by exists (S i), j.
    + destruct (Z.ltb_spec p bp), (Z.ltb_spec bp base_at), (Z.leb_spec base_at p); try lia. simpl. kred.
      exists (steps_to 0). split; [|split; [done|by exists O, k0]]. unfold steps_to.
      rewrite decide_True, decide_False by lia. lia.
Qed.
End Search.

(** ** The invariant of the heap *)

Context (lo : Z) (Hbase : 0 < base_at) (Hlo : base_at + 16 <= lo).

(** The ring of free blocks, from [base] on. *)
Definition ring (B : list (Z * bool)) : list (Z * Z) := (base_at, 0) :: frees lo B.

Record heap (s : ust) (B : list (Z * bool)) : Prop := mkHeap {
  h_brk : brk s = row_end lo B;
  h_max : brk s < 2 ^ 32;
  h_sizes : sizes_ok B;
  h_coal : coalesced B;
  h_ring : lseg (um s) base_at (ring B) base_at;
  h_freep : freep s ∈ (ring B).*1;
  h_used : ∀ a n, (a, n) ∈ useds lo B → rd32 (um s) (a + 8) = n
}.

Lemma row_pairs u a B X b n Y c k :
  sizes_ok B → row u a B = X ++ (b, n) :: Y → (c, k) ∈ Y → b + 16 * n <= c.
Proof.
  intros H. revert a X. induction H as [|[j v] B Hj Hs IH]; intros a X; simpl; [by destruct X|].
  destruct (eqb u v); [|by apply IH]. destruct X as [|x X]; intros [= <- E]; [|by eapply IH].
  subst. simpl in *. intros Hin. by destruct (row_bounds _ _ _ _ _ Hs Hin) as (_ & ? & _).
Qed.

Lemma ring_pairs B X b n Y c k :
  sizes_ok B → ring B = X ++ (b, n) :: Y → (c, k) ∈ Y → b + 16 <= c ∧ b + 16 * n <= c.
Proof.
  intros Hs E Hin. destruct X as [|x X].
  - injection E as <- <- <-. destruct (row_bounds _ _ _ _ _ Hs Hin) as (_ & ? & _). lia.
  - injection E as <- E. assert (1 <= n) by (eapply (row_bounds false lo B b n Hs); rewrite E; set_solver).
    pose proof (row_pairs _ _ _ _ _ _ _ _ _ Hs E Hin). lia.
Qed.

Lemma ring_before B pre p np Y b j :
  sizes_ok B → ring B = pre ++ (p, np) :: Y → (b, j) ∈ pre → b + 16 <= p.
Proof.
  intros Hs E (X & W & ->)%list_elem_of_split. rewrite <-app_assoc in E. cbn [app] in E.
  eapply (ring_pairs B X b j (W ++ (p, np) :: Y) p np); [done|done|]. set_solver.
Qed.

Lemma ring_bounds B b n : sizes_ok B → (b, n) ∈ ring B → base_at <= b ∧ b + 16 <= Z.max lo (row_end lo B) ∧ b + 16 * n <= Z.max lo (row_end lo B) ∧ 0 <= n.
Proof.
  intros Hs [[= -> ->]|Hin]%elem_of_cons; [lia|]. destruct (row_bounds _ _ _ _ _ Hs Hin) as (? & ? & ?). lia.
Qed.

(** A prefix of a ring, up to the block at [a], in a changed memory. *)
Lemma lseg_replace m m' x pre a n Y Y' y :
  lseg m x (pre ++ (a, n) :: Y) y → (∀ b k, (b, k) ∈ pre → agree m m' b 16) → lseg m' a Y' y →
  lseg m' x (pre ++ Y') y.
Proof.
  rewrite !lseg_app. intros (z & H1 & H2) Hag H3. simpl in H2. destruct H2 as (-> & _). exists a. split; [|done].
  by eapply lseg_ext.
Qed.

(** The blocks before and after an allocated block. *)
Lemma ring_split B1 n B2 : ring (B1 ++ (n, true) :: B2) = ring B1 ++ frees (row_end lo B1 + 16 * n) B2.
Proof. unfold ring. rewrite row_app. done. Qed.
Lemma ring_split_free B1 n B2 :
  ring (B1 ++ (n, false) :: B2) = ring B1 ++ (row_end lo B1, n) :: frees (row_end lo B1 + 16 * n) B2.
Proof. unfold ring. rewrite row_app. done. Qed.
Lemma useds_split B1 n B2 :
  useds lo (B1 ++ (n, true) :: B2) = useds lo B1 ++ (row_end lo B1, n) :: useds (row_end lo B1 + 16 * n) B2.
Proof. by rewrite row_app. Qed.

(** The last block of the ring before position [row_end lo B]: it touches that
    position exactly when the row ends with a free block. *)
Lemma ring_last B :
  sizes_ok B →
  (∃ B' k, B = B' ++ [(k, false)] ∧ ring B = ring B' ++ [(row_end lo B', k)] ∧ row_end lo B' + 16 * k = row_end lo B) ∨
  (∃ pre p np, ring B = pre ++ [(p, np)] ∧ p + 16 * np < row_end lo B ∧ ¬ (∃ B' k, B = B' ++ [(k, false)])).
Proof.
  intros Hs. destruct B as [|b B' _] using rev_ind.
  - right. exists [], base_at, 0. split_and!; [done|simpl; lia|]. intros (B' & k & E). by destruct B'.
  - destruct b as [k u]. apply Forall_app in Hs as [Hs Hk]. apply Forall_cons in Hk as [Hk _]. simpl in Hk. destruct u.
    + right. assert (E : ring (B' ++ [(k, true)]) = ring B') by (unfold ring; rewrite row_app; simpl; by rewrite app_nil_r).
      destruct (exists_last (l := ring B')) as (pre & [p np] & El); [done|].
      exists pre, p, np. rewrite E. split_and!; [done| |].
      * assert (Hin : (p, np) ∈ ring B') by (rewrite El; set_solver). apply ring_bounds in Hin as (_ & _ & Hin & _); [|done].
        rewrite row_end_app. cbn [row_end]. pose proof (row_end_le lo B' Hs). lia.
      * intros (B2 & j & E2). by apply app_inj_tail in E2 as [_ [=]].
    + left. exists B', k. split_and!; [done| |by rewrite row_end_app]. unfold ring. rewrite row_app. done.
Qed.

(** *** Neighbours *)

Definition starts_free (B : list (Z * bool)) : Prop := match B with (_, false) :: _ => True | _ => False end.
Definition ends_free (B : list (Z * bool)) : Prop := ∃ B' k, B = B' ++ [(k, false)].

Lemma coal_cons n u B : coalesced ((n, u) :: B) ↔ (u = false → ¬ starts_free B) ∧ coalesced B.
Proof. destruct u, B as [|[k []] B]; simpl; naive_solver. Qed.
Lemma ends_free_cons b B : B ≠ [] → ends_free (b :: B) ↔ ends_free B.
Proof.
  intros Hne. split.
  - intros (B' & k & E). destruct B' as [|b' B']; [by injection E as _ ->|]. injection E as -> ->. by exists B', k.
  - intros (B' & k & ->). by exists (b :: B'), k.
Qed.
Lemma starts_free_app B1 B2 : B1 ≠ [] → starts_free (B1 ++ B2) ↔ starts_free B1.
Proof. by destruct B1 as [|[n []] B1]. Qed.

Lemma coal_app B1 B2 : coalesced (B1 ++ B2) ↔ coalesced B1 ∧ coalesced B2 ∧ (ends_free B1 → ¬ starts_free B2).
Proof.
  induction B1 as [|[n u] B1 IH].
  - split; [|by intros (_ & ? & _)]. intros H. split_and!; [done|done|]. intros (B' & k & E). by destruct B'.
  - cbn [app]. rewrite !coal_cons, IH. destruct B1 as [|b B1].
    + cbn [app starts_free coalesced]. split.
      * intros (H1 & _ & H2 & _). split_and!; [naive_solver|done|done|]. intros (B' & k & E). apply H1.
        destruct B' as [|? B']; [by injection E as _ ->|by destruct B'].
      * intros (_ & H2 & H3). split_and!; [|done|done|by intros (B' & k & E); destruct B'].
        intros ->. apply H3. by exists [], n.
    + rewrite starts_free_app by done. rewrite (ends_free_cons (n, u) (b :: B1)) by done. naive_solver.
Qed.

(** A free block takes the free block after it. *)
Definition join_next (n : Z) (B : list (Z * bool)) : Z * list (Z * bool) :=
  match B with (k, false) :: B' => (n + k, B') | _ => (n, B) end.

Lemma join_next_ok n B :
  sizes_ok B → coalesced B → 1 <= n →
  let '(n', B') := join_next n B in
  n <= n' ∧ sizes_ok B' ∧ coalesced B' ∧ ¬ starts_free B' ∧ (∀ a, row_end (a + 16 * n') B' = row_end (a + 16 * n) B) ∧
  (∀ a, useds (a + 16 * n') B' = useds (a + 16 * n) B).
Proof.
  intros Hs Hc Hn. destruct B as [|[k []] B]; simpl join_next.
  - split_and!; [lia|done|done|by intros []|done|done].
  - split_and!; [lia|done|done|by intros []|done|done].
  - apply Forall_cons in Hs as [Hk Hs]. simpl in Hk. apply coal_cons in Hc as [H1 Hc].
    split_and!; [lia|done|done|by apply H1| |]; intros a; cbn [row_end row eqb]; f_equal; lia.
Qed.

(** *** Linking a block to its successor *)

Lemma hdr_add_small p n : 0 <= p → 0 <= n → p + 16 * n < 2 ^ 64 → hdr_add p n = p + 16 * n.
Proof. intros. unfold hdr_add, sizeof_Header. rewrite Z.mul_comm. apply u64_small. lia. Qed.

Lemma rd64_agree_out m m' a n b : agree_out m m' a n → b + 8 <= a ∨ a + n <= b → rd64 m' b = rd64 m b.
Proof. intros H ?. apply rd64_ext. by eapply agree_out_agree. Qed.
Lemma rd32_agree_out m m' a n b : agree_out m m' a n → b + 4 <= a ∨ a + n <= b → rd32 m' b = rd32 m b.
Proof. intros H ?. apply rd_le_ext. intros c Hc. apply H. lia. Qed.

Lemma link_agree m bp x y : agree_out m (wr64 (wr32 m (bp + 8) x) bp y) bp 16.
Proof. intros b Hb. rewrite (wr64_agree_out _ bp) by lia. unfold wr32. by rewrite rd8_wr_le, decide_False by lia. Qed.
Lemma link_size m bp x y : 0 <= x < 2 ^ 32 → rd32 (wr64 (wr32 m (bp + 8) x) bp y) (bp + 8) = x.
Proof.
  intros. rewrite (rd32_agree_out _ _ _ _ _ (wr64_agree_out _ bp _)) by lia. rewrite rd32_wr32_same. by apply u32_small.
Qed.

Lemma frees_above B a b k : sizes_ok B → (b, k) ∈ frees a B → a <= b ∧ b < row_end a B ∧ (¬ starts_free B → a < b).
Proof.
  intros Hs Hin. destruct (row_bounds _ _ _ _ _ Hs Hin) as (? & ? & ?). split_and!; [done|lia|]. intros Hnf.
  destruct B as [|[n []] B]; [by apply not_elem_of_nil in Hin| |by destruct Hnf].
  apply Forall_cons in Hs as [Hn Hs]. simpl in Hn. cbn [row eqb] in Hin.
  destruct (row_bounds _ _ _ _ _ Hs Hin) as (? & ? & ?). lia.
Qed.

Lemma runs_link_block s bp n B p nx (Q : unit → ust → Prop) :
  lseg (um s) nx (frees (bp + 16 * n) B) base_at → rd64 (um s) p = nx → sizes_ok B → 1 <= n →
  base_at + 16 <= bp → p + 16 <= bp → row_end (bp + 16 * n) B < 2 ^ 32 →
  (∀ m1, agree_out (um s) m1 bp 16 → (rd32 (um s) (bp + 8) = n → rd32 m1 (bp + 8) = fst (join_next n B)) →
     lseg m1 (rd64 m1 bp) (frees (bp + 16 * fst (join_next n B)) (snd (join_next n B))) base_at → Q tt (set_um m1 s)) →
  runs (if hdr_add bp n =? nx then
          nsz <- size_at nx ;;;
          set_size bp (u32 (n + nsz)) ;;;
          (nx <- ptr p ;;; nn <- ptr nx ;;; set_ptr bp nn)
        else set_ptr bp nx) s Q.
Proof.
  intros Hl Hp Hs Hn Hb Hpb Hend HQ. pose proof (row_end_le (bp + 16 * n) B Hs) as Hle.
  rewrite hdr_add_small by lia. destruct (Z.eqb_spec (bp + 16 * n) nx) as [E|E].
  - destruct B as [|[k []] B]; cbn [row eqb] in Hl.
    + simpl in Hl. lia.
    + exfalso. apply Forall_cons in Hs as [Hk Hs]. simpl in Hk. destruct (frees _ B) as [|[b j] l] eqn:Ef; [simpl in Hl; lia|].
      destruct Hl as (-> & _). assert (Hin : (b, j) ∈ frees (bp + 16 * n + 16 * k) B) by (rewrite Ef; set_solver).
      apply (row_bounds _ _ _ _ _ Hs) in Hin. lia.
    + apply Forall_cons in Hs as [Hk Hs]. simpl in Hk. destruct Hl as (-> & Hnk & Hl). cbn [row_end] in Hend.
      pose proof (row_end_le (bp + 16 * n + 16 * k) B Hs) as Hle2.
      unfold size_at, ptr, set_size, set_ptr. kred. cbn [um set_um] in *. rewrite Hnk, (u32_small (n + k)) by lia.
      assert (Ep : rd64 (wr32 (um s) (bp + 8) (n + k)) p = bp + 16 * n) by (rewrite <-Hp; unfold rd64, wr32; apply rd_le_wr_le_ne; lia).
      rewrite Ep. assert (En : rd64 (wr32 (um s) (bp + 8) (n + k)) (bp + 16 * n) = rd64 (um s) (bp + 16 * n))
        by (unfold rd64, wr32; apply rd_le_wr_le_ne; lia).
      rewrite En. apply (HQ (wr64 (wr32 (um s) (bp + 8) (n + k)) bp (rd64 (um s) (bp + 16 * n)))); cbn [join_next fst snd].
      * apply link_agree.
      * intros _. apply link_size. lia.
      * rewrite rd64_wr64_same, u64_small by apply rd64_range. replace (bp + 16 * (n + k)) with (bp + 16 * n + 16 * k) by lia.
        eapply lseg_ext; [|exact Hl]. intros b j Hin. destruct (row_bounds _ _ _ _ _ Hs Hin) as (? & ? & ?).
        eapply agree_out_agree; [apply link_agree|lia].
  - unfold set_ptr. kred. assert (Hnf : ¬ starts_free B).
    { destruct B as [|[k []] B]; [by intros []|by intros []|]. intros _. apply E. simpl in Hl. by destruct Hl. }
    assert (Ej : join_next n B = (n, B)) by (destruct B as [|[k []] B]; [done|done|by destruct Hnf]).
    assert (Hnx : 0 <= nx < 2 ^ 64) by (rewrite <-Hp; apply rd64_range).
    apply HQ; rewrite ?Ej; cbn [fst snd].
    + eapply agree_out_sub; [apply wr64_agree_out|lia|lia].
    + intros Hz. rewrite (rd32_agree_out _ _ _ _ _ (wr64_agree_out _ bp _)) by lia. done.
    + rewrite rd64_wr64_same, u64_small by done. eapply lseg_ext; [|exact Hl]. intros b j Hin.
      destruct (row_bounds _ _ _ _ _ Hs Hin) as (? & ? & ?). eapply agree_out_agree; [apply wr64_agree_out|lia].
Qed.

(** *** free *)

(** Memory changed in the headers at [p] and [q] only. *)
Definition headers_only (m m' : mem) (p q : Z) : Prop :=
  ∀ b, ¬ (p <= b < p + 16) → ¬ (q <= b < q + 16) → rd8 m' b = rd8 m b.

Lemma headers_agree m m' p q a n :
  headers_only m m' p q → (a + n <= p ∨ p + 16 <= a) → (a + n <= q ∨ q + 16 <= a) → agree m m' a n.
Proof. intros H ?? b ?. apply H; lia. Qed.

Lemma row_disjoint a0 B a j b k :
  sizes_ok B → (a, j) ∈ useds a0 B → (b, k) ∈ frees a0 B → a + 16 * j <= b ∨ b + 16 * k <= a.
Proof.
  intros H. revert a0. induction H as [|[n u] B Hn Hs IH]; intros a0; [by intros ?%not_elem_of_nil|].
  destruct u; cbn [row eqb]; intros Ha Hb.
  - apply elem_of_cons in Ha as [[= -> ->]|Ha]; [|by eapply IH]. destruct (row_bounds _ _ _ _ _ Hs Hb). lia.
  - apply elem_of_cons in Hb as [[= -> ->]|Hb]; [|by eapply IH]. destruct (row_bounds _ _ _ _ _ Hs Ha). lia.
Qed.

(** An allocated block is away from every header of the ring. *)
Lemma used_away B a j b k :
  sizes_ok B → (a, j) ∈ useds lo B → (b, k) ∈ ring B → a + 16 * j <= b ∨ b + 16 <= a.
Proof.
  intros Hs Ha Hb. destruct (row_bounds _ _ _ _ _ Hs Ha) as (? & ? & ?). apply elem_of_cons in Hb as [[= -> ->]|Hb]; [lia|].
  destruct (row_bounds _ _ _ _ _ Hs Hb) as (? & ? & ?). destruct (row_disjoint _ _ _ _ _ _ Hs Ha Hb); lia.
Qed.

Section Free.
Context (s : ust) (B1 : list (Z * bool)) (n : Z) (B2 : list (Z * bool)).
Context (Hh : heap s (B1 ++ (n, true) :: B2)).
Let bp := row_end lo B1.
Let n' := fst (join_next n B2).
Let B2' := snd (join_next n B2).
Let F2 := frees (bp + 16 * n) B2.
Let F2' := frees (bp + 16 * n') B2'.

(** What free leaves: the heap without the block, the memory of the other
    blocks unchanged. *)
Definition freed_to (s' : ust) : Prop :=
  ∃ B', heap s' B' ∧ useds lo B' = useds lo B1 ++ useds (bp + 16 * n) B2 ∧ brk s' = brk s ∧
    (∃ a k, (a, k) ∈ frees lo B' ∧ n <= k) ∧
    (∀ a j, (a, j) ∈ useds lo B1 ++ useds (bp + 16 * n) B2 → agree (um s) (um s') a (16 * j)) ∧
    (length B' <= length (B1 ++ (n, true) :: B2))%nat.

Lemma free_facts :
  sizes_ok B1 ∧ 1 <= n ∧ sizes_ok B2 ∧ coalesced B1 ∧ coalesced B2 ∧ lo <= bp ∧
  row_end (bp + 16 * n) B2 < 2 ^ 32 ∧ bp + 16 * n <= row_end (bp + 16 * n) B2 ∧
  rd32 (um s) (bp + 8) = n ∧ brk s = row_end (bp + 16 * n) B2.
Proof.
  destruct Hh as [Hb Hm Hs Hc _ _ Hu]. apply Forall_app in Hs as [Hs1 [Hn Hs2]%Forall_cons]. simpl in Hn.
  apply coal_app in Hc as (Hc1 & [_ Hc2]%coal_cons & _). rewrite row_end_app in Hb. cbn [row_end] in Hb.
  pose proof (row_end_le lo B1 Hs1). pose proof (row_end_le (bp + 16 * n) B2 Hs2).
  split_and!; try done; [unfold bp; lia|]. apply Hu. rewrite useds_split. set_solver.
Qed.

Lemma used_cases a j : (a, j) ∈ useds lo B1 ++ useds (bp + 16 * n) B2 → a + 16 * j <= bp ∨ bp + 16 * n <= a.
Proof.
  destruct free_facts as (Hs1 & _ & Hs2 & _). intros [H|H]%elem_of_app.
  - apply (row_bounds _ _ _ _ _ Hs1) in H. left. by destruct H as (_ & _ & ?).
  - apply (row_bounds _ _ _ _ _ Hs2) in H. lia.
Qed.

Lemma used_sizes a j : (a, j) ∈ useds lo B1 ++ useds (bp + 16 * n) B2 → rd32 (um s) (a + 8) = j ∧ 1 <= j.
Proof.
  intros Hin. assert (H : (a, j) ∈ useds lo (B1 ++ (n, true) :: B2)) by (rewrite useds_split; set_solver).
  split; [by apply (h_used _ _ Hh)|]. by apply (row_bounds _ _ _ _ _ (h_sizes _ _ Hh)) in H as [? _].
Qed.

(** The final heap, from what the ring looks like in the final memory. *)
Lemma free_done B' p m2 :
  sizes_ok B' → coalesced B' → row_end lo B' = row_end (bp + 16 * n) B2 →
  useds lo B' = useds lo B1 ++ useds (bp + 16 * n) B2 → (∃ a k, (a, k) ∈ frees lo B' ∧ n <= k) →
  (length B' <= length (B1 ++ (n, true) :: B2))%nat →
  headers_only (um s) m2 p bp → p ∈ (ring B').*1 → (∃ k, (p, k) ∈ ring B1) →
  lseg m2 base_at (ring B') base_at → freed_to (set_freep p (set_um m2 s)).
Proof.
  intros Hs Hc He Hu Hbig Hlen Hag Hp [kp Hpin] Hl. destruct free_facts as (Hs1 & Hn & Hs2 & _ & _ & Hlob & Hmax & _ & _ & Hbrk).
  assert (Hagu : ∀ a j, (a, j) ∈ useds lo B1 ++ useds (bp + 16 * n) B2 → agree (um s) m2 a (16 * j)).
  { intros a j Hin. destruct (used_sizes a j Hin) as [_ Hj]. eapply headers_agree; [exact Hag| |].
    - apply elem_of_app in Hin as [Hin|Hin]; [by destruct (used_away _ _ _ _ _ Hs1 Hin Hpin); [left|right]|].
      apply (row_bounds _ _ _ _ _ Hs2) in Hin. apply (ring_bounds _ _ _ Hs1) in Hpin. right.
      rewrite Z.max_r in Hpin by done. change (row_end lo B1) with bp in Hpin. lia.
    - destruct (used_cases a j Hin); lia. }
  exists B'. split_and!; try done.
  constructor; cbn [brk um freep set_freep set_um]; try done; [by rewrite He|by rewrite Hbrk|].
  rewrite Hu. intros a j Hin. destruct (used_sizes a j Hin) as [Hz Hj]. rewrite <-Hz. apply rd_le_ext. intros b ?.
  apply (Hagu a j Hin). lia.
Qed.

(** The step that attaches the block to the one before it. *)
Definition attach (p : Z) : K ust unit :=
  psz <- size_at p ;;;
  (if hdr_add p psz =? bp then
     bsz <- size_at bp ;;;
     set_size p (u32 (psz + bsz)) ;;;
     (bn <- ptr bp ;;; set_ptr p bn)
   else set_ptr p bp) ;;;
  modify (set_freep p).

Context (m1 : mem) (H1 : agree_out (um s) m1 bp 16) (Hn1 : rd32 m1 (bp + 8) = n')
  (Hl1 : lseg m1 (rd64 m1 bp) F2' base_at).

Lemma join_facts : n <= n' ∧ sizes_ok B2' ∧ coalesced B2' ∧ ¬ starts_free B2' ∧
  row_end (bp + 16 * n') B2' = row_end (bp + 16 * n) B2 ∧ useds (bp + 16 * n') B2' = useds (bp + 16 * n) B2 ∧
  (length B2' <= length B2)%nat.
Proof.
  destruct free_facts as (_ & Hn & Hs2 & _ & Hc2 & _). pose proof (join_next_ok n B2 Hs2 Hc2 Hn) as H.
  unfold n', B2'. destruct (join_next n B2) as [x Y] eqn:E. destruct H as (? & ? & ? & ? & He & Hu). cbn [fst snd].
  split_and!; try done. destruct B2 as [|[k []] B]; simpl in E; injection E as _ <-; simpl; lia.
Qed.

(** A header below [bp] is as it was before. *)
Lemma below_same a : a + 16 <= bp → agree (um s) m1 a 16.
Proof. intros. eapply agree_out_agree; [exact H1|lia]. Qed.

Lemma tail_lseg m2 p :
  agree_out m1 m2 p 16 → p + 16 <= bp → lseg m2 (rd64 m1 bp) F2' base_at.
Proof.
  intros Hag Hp. destruct join_facts as (Hnn & Hs2' & _). destruct free_facts as (_ & Hn & _).
  eapply lseg_ext; [|exact Hl1]. intros b k Hin. destruct (row_bounds _ _ _ _ _ Hs2' Hin) as (? & ? & ?).
  eapply agree_out_agree; [exact Hag|lia].
Qed.

Lemma runs_attach_prev B0 k :
  B1 = B0 ++ [(k, false)] → runs (attach (row_end lo B0)) (set_um m1 s) (λ _ s', freed_to s').
Proof.
  intros EB. destruct free_facts as (Hs1 & Hn & Hs2 & Hc1 & Hc2 & Hlob & Hmax & Hle & Hsz & Hbrk).
  destruct join_facts as (Hnn & Hs2' & Hc2' & Hnf & He' & Hu' & Hlen'). pose proof Hs1 as Hs1'. rewrite EB in Hs1', Hc1.
  apply Forall_app in Hs1' as [Hs0 [Hk _]%Forall_cons]. simpl in Hk. apply coal_app in Hc1 as (Hc0 & _ & Hef).
  set (p := row_end lo B0). assert (Ebp : bp = p + 16 * k) by (unfold bp; rewrite EB, row_end_app; done).
  assert (Hlop : lo <= p) by by apply row_end_le. pose proof (row_end_le (bp + 16 * n') B2' Hs2') as Hle'.
  assert (Hrg : ring B1 = ring B0 ++ [(p, k)]) by (rewrite EB; unfold ring; rewrite row_app; done).
  assert (Hring : lseg (um s) base_at (ring B0 ++ (p, k) :: F2) base_at).
  { pose proof (h_ring _ _ Hh) as H. by rewrite ring_split, Hrg, <-app_assoc in H. }
  assert (Hpk : rd32 m1 (p + 8) = k).
  { apply lseg_app in Hring as (z & _ & Hz & Hk' & _). rewrite <-Hk'. apply (rd32_agree_out _ _ _ _ _ H1). lia. }
  unfold attach, size_at, ptr, set_size, set_ptr. kred. cbn [um set_um]. rewrite Hpk, hdr_add_small by lia.
  rewrite <-Ebp, Z.eqb_refl. kred. cbn [um set_um]. rewrite Hn1, u32_small by lia.
  assert (Eb : rd64 (wr32 m1 (p + 8) (k + n')) bp = rd64 m1 bp) by (unfold rd64, wr32; apply rd_le_wr_le_ne; lia).
  rewrite Eb. set (m2 := wr64 _ p _). assert (Hag2 : agree_out m1 m2 p 16) by apply link_agree.
  apply (free_done (B0 ++ (k + n', false) :: B2')).
  - apply Forall_app. split; [done|]. constructor; [simpl; lia|done].
  - apply coal_app. split_and!; [done|by apply coal_cons|]. intros Hef'. by destruct (Hef Hef').
  - rewrite row_end_app. cbn [row_end]. rewrite <-He', Ebp. f_equal. unfold p. lia.
  - rewrite EB, !row_app. cbn [row eqb]. rewrite app_nil_r, <-Hu', Ebp. do 2 f_equal. unfold p. lia.
  - exists p, (k + n'). split; [|lia]. rewrite row_app. cbn [row eqb]. set_solver.
  - rewrite EB, !length_app. simpl. lia.
  - intros b Hb1 Hb2. rewrite Hag2 by done. by apply H1.
  - rewrite ring_split_free, fmap_app. cbn [fmap list_fmap fst]. set_solver.
  - exists k. rewrite Hrg. set_solver.
  - rewrite ring_split_free. eapply (lseg_replace (um s) m2 base_at (ring B0) p k F2); [exact Hring| |].
    + intros b j Hin. apply (ring_bounds _ _ _ Hs0) in Hin. rewrite Z.max_r in Hin by done.
      eapply agree_trans; [apply below_same; fold p in Hin; lia|]. eapply agree_out_agree; [exact Hag2|fold p in Hin; lia].
    + split_and!; [done|apply link_size; lia|]. assert (E2 : rd64 m2 p = rd64 m1 bp) by (unfold m2; rewrite rd64_wr64_same; apply u64_small, rd64_range).
      fold p. rewrite E2. replace (p + 16 * (k + n')) with (bp + 16 * n') by lia. apply (tail_lseg m2 p Hag2). lia.
Qed.

Lemma runs_attach_link pre p np :
  ring B1 = pre ++ [(p, np)] → p + 16 * np < bp → ¬ ends_free B1 →
  runs (attach p) (set_um m1 s) (λ _ s', freed_to s').
Proof.
  intros Hrg Hp Hef. destruct free_facts as (Hs1 & Hn & Hs2 & Hc1 & Hc2 & Hlob & Hmax & Hle & Hsz & Hbrk).
  destruct join_facts as (Hnn & Hs2' & Hc2' & Hnf & He' & Hu' & Hlen'). pose proof (row_end_le (bp + 16 * n') B2' Hs2') as Hle'.
  assert (Hpin : (p, np) ∈ ring B1) by (rewrite Hrg; set_solver).
  destruct (ring_bounds _ _ _ Hs1 Hpin) as (Hpb & Hp16 & _ & Hnp). rewrite Z.max_r in Hp16 by done. fold bp in Hp16.
  assert (Hring : lseg (um s) base_at (pre ++ (p, np) :: F2) base_at).
  { pose proof (h_ring _ _ Hh) as H. by rewrite ring_split, Hrg, <-app_assoc in H. }
  assert (Hpk : rd32 m1 (p + 8) = np).
  { apply lseg_app in Hring as (z & _ & Hz & Hk' & _). rewrite <-Hk'. apply (rd32_agree_out _ _ _ _ _ H1). lia. }
  unfold attach, size_at, ptr, set_size, set_ptr. kred. cbn [um set_um]. rewrite Hpk, hdr_add_small by lia.
  destruct (Z.eqb_spec (p + 16 * np) bp); [lia|]. kred. cbn [um set_um].
  set (m2 := wr64 m1 p bp). assert (Hag2 : agree_out m1 m2 p 16) by (eapply agree_out_sub; [apply wr64_agree_out|lia|lia]).
  assert (Erg : ring (B1 ++ (n', false) :: B2') = pre ++ (p, np) :: (bp, n') :: F2').
  { rewrite ring_split_free, Hrg, <-app_assoc. done. }
  apply (free_done (B1 ++ (n', false) :: B2')).
  - apply Forall_app. split; [done|]. constructor; [simpl; lia|done].
  - apply coal_app. split_and!; [done|by apply coal_cons|done].
  - rewrite row_end_app. cbn [row_end]. by rewrite <-He'.
  - rewrite !row_app. cbn [row eqb]. by rewrite <-Hu'.
  - exists bp, n'. split; [|lia]. rewrite row_app. cbn [row eqb]. fold bp. set_solver.
  - rewrite !length_app. simpl. lia.
  - intros b Hb1 Hb2. rewrite Hag2 by done. by apply H1.
  - rewrite Erg, fmap_app. cbn [fmap list_fmap fst]. set_solver.
  - by exists np.
  - rewrite Erg. eapply (lseg_replace (um s) m2 base_at pre p np F2); [exact Hring| |].
    + intros b j Hin. assert (Hbp : b + 16 <= p) by exact (ring_before _ _ _ _ [] _ _ Hs1 Hrg Hin).
      eapply agree_trans; [apply below_same; lia|]. eapply agree_out_agree; [exact Hag2|lia].
    + assert (E2 : rd64 m2 p = bp) by (unfold m2; rewrite rd64_wr64_same; apply u64_small; lia).
      assert (E3 : rd64 m2 bp = rd64 m1 bp) by (apply (rd64_agree_out _ _ _ _ _ Hag2); lia).
      split_and!; [done|rewrite <-Hpk; apply (rd32_agree_out _ _ _ _ _ (wr64_agree_out m1 p bp)); lia|].
      rewrite E2. split_and!; [done|rewrite <-Hn1; apply (rd32_agree_out _ _ _ _ _ Hag2); lia|].
      rewrite E3. apply (tail_lseg m2 p Hag2). lia.
Qed.
End Free.

Lemma runs_free fuel s B1 n B2 :
  heap s (B1 ++ (n, true) :: B2) → (length (ring (B1 ++ (n, true) :: B2)) <= fuel)%nat →
  runs (free fuel (row_end lo B1 + 16)) s (λ _ s', freed_to s B1 n B2 s').
Proof.
  intros Hh Hfuel. destruct (free_facts s B1 n B2 Hh) as (Hs1 & Hn & Hs2 & Hc1 & Hc2 & Hlob & Hmax & Hle & Hsz & Hbrk).
  set (bp := row_end lo B1) in *. unfold free. assert (Ebp : hdr_add (bp + 16) (-1) = bp).
  { unfold hdr_add, sizeof_Header. replace (bp + 16 + -1 * 16) with bp by lia. apply u64_small. lia. }
  rewrite Ebp. kred.
  destruct (exists_last (l := ring B1)) as (pre & [p np] & Hrg); [done|].
  assert (Hpin : (p, np) ∈ ring B1) by (rewrite Hrg; set_solver).
  set (F2 := frees (bp + 16 * n) B2).
  assert (HL : ring (B1 ++ (n, true) :: B2) = pre ++ (p, np) :: F2) by (rewrite ring_split, Hrg, <-app_assoc; done).
  pose proof (h_ring _ _ Hh) as Hring. pose proof (h_sizes _ _ Hh) as Hs. rewrite HL in Hfuel, Hring.
  assert (Hlow : ∀ b k, (b, k) ∈ pre ++ [(p, np)] → base_at <= b ∧ b + 16 <= bp).
  { intros b k Hin. rewrite <-Hrg in Hin. apply (ring_bounds _ _ _ Hs1) in Hin. rewrite Z.max_r in Hin by done. fold bp in Hin. lia. }
  eapply runs_mono.
  { apply (search_spec s (pre ++ (p, np) :: F2) (length pre) bp (p, np)); [done| | | | | | |done].
    - rewrite <-HL. done.
    - by apply list_lookup_middle.
    - intros i a k Hi Hle'. assert (Hin : (a, k) ∈ pre ++ [(p, np)]).
      { apply (list_elem_of_lookup_2 _ i). rewrite (cons_middle (p, np)), app_assoc in Hi. rewrite lookup_app_l in Hi; [done|]. rewrite length_app. simpl. lia. }
      apply Hlow in Hin. lia.
    - intros i a k Hi Hlt. rewrite (cons_middle (p, np)), app_assoc, lookup_app_r in Hi by (rewrite length_app; simpl; lia).
      apply list_elem_of_lookup_2 in Hi. apply (row_bounds _ _ _ _ _ Hs2) in Hi. lia.
    - intros i a k b j Hi Hi'. rewrite <-HL in Hi, Hi'. assert (Hd : drop (S i) (ring (B1 ++ (n, true) :: B2)) !! 0%nat = Some (b, j)).
      { rewrite lookup_drop, Nat.add_0_r. done. }
      pose proof (take_drop_middle _ _ _ Hi) as Esp. symmetry in Esp.
      destruct (ring_pairs _ _ _ _ _ b j Hs Esp); [|lia]. by eapply list_elem_of_lookup_2.
    - rewrite <-HL. apply (h_freep _ _ Hh). }
  intros r s' [-> ->]. cbn [fst]. apply runs_bind, runs_gets, runs_bind, runs_gets. rewrite Hsz.
  assert (Hseg : lseg (um s) (rd64 (um s) p) F2 base_at) by (apply lseg_app in Hring as (z & _ & _ & _ & H); exact H).
  assert (Hp16 : base_at <= p ∧ p + 16 <= bp) by (apply (Hlow p np); set_solver).
  apply runs_bind. apply (runs_link_block s bp n B2 p (rd64 (um s) p)); [done|done|done|done|lia|lia|done|].
  intros m1 Hag1 Hn1 Hl1. specialize (Hn1 Hsz).
  destruct (ring_last B1 Hs1) as [(B0 & k & EB & Er & _)|(pre' & p' & np' & Er & Hlt & Hef)].
  - assert (p = row_end lo B0) as ->.
    { rewrite Hrg in Er. apply app_inj_tail in Er as [_ [= -> _]]. done. }
    by apply (runs_attach_prev s B1 n B2 Hh m1 Hag1 Hn1 Hl1 B0 k).
  - rewrite Hrg in Er. apply app_inj_tail in Er as [<- [= <- <-]].
    by apply (runs_attach_link s B1 n B2 Hh m1 Hag1 Hn1 Hl1 pre p np).
Qed.

(** ** More memory *)

Context (Hgrant : ∀ b n, grant b n = true → b + n < 2 ^ 32).

(** The same allocated blocks, with their contents, and room for [n] units. *)
Definition grown_to (s : ust) (B : list (Z * bool)) (n : Z) (s' : ust) : Prop :=
  ∃ B', heap s' B' ∧ useds lo B' = useds lo B ∧ (∃ a k, (a, k) ∈ frees lo B' ∧ n <= k) ∧
    (∀ a j, (a, j) ∈ useds lo B → agree (um s) (um s') a (16 * j)) ∧ (length B' <= length B + 1)%nat.

Lemma ring_length B : (length (ring B) <= length B + 1)%nat.
Proof.
  unfold ring. generalize lo. simpl. enough (H : ∀ a, (length (frees a B) <= length B)%nat) by (intros a; specialize (H a); lia).
  induction B as [|[n []] B IH]; intros a; simpl; [lia|specialize (IH (a + 16 * n)); lia|specialize (IH (a + 16 * n)); lia].
Qed.

Lemma heap_extend s B nu :
  heap s B → 1 <= nu → brk s + 16 * nu < 2 ^ 32 →
  heap (set_um (wr32 (um s) (brk s + 8) nu) (set_brk (brk s + 16 * nu) s)) (B ++ [(nu, true)]).
Proof.
  intros [Hb Hm Hs Hc Hr Hf Hu] Hn Hmax. assert (Hag : agree_out (um s) (wr32 (um s) (brk s + 8) nu) (brk s) 16).
  { intros b Hb'. unfold wr32. by rewrite rd8_wr_le, decide_False by lia. }
  pose proof (row_end_le lo B Hs) as Hle.
  assert (Erg : ring (B ++ [(nu, true)]) = ring B) by (unfold ring; rewrite row_app; simpl; by rewrite app_nil_r).
  constructor; cbn [brk um freep set_um set_brk].
  - rewrite row_end_app, <-Hb. done.
  - done.
  - apply Forall_app. split; [done|]. by repeat constructor.
  - apply coal_app. split_and!; [done|done|by intros _ []].
  - rewrite Erg. eapply lseg_ext; [|exact Hr]. intros a n Hin. apply (ring_bounds _ _ _ Hs) in Hin.
    rewrite Z.max_r in Hin by done. eapply agree_out_agree; [exact Hag|lia].
  - by rewrite Erg.
  - rewrite row_app. cbn [row eqb]. intros a n [Hin|Hin]%elem_of_app.
    + rewrite <-(Hu a n Hin). apply (row_bounds _ _ _ _ _ Hs) in Hin. apply (rd32_agree_out _ _ _ _ _ Hag). lia.
    + apply elem_of_cons in Hin as [[= -> ->]|Hin]; [|by apply not_elem_of_nil in Hin]. rewrite <-Hb, rd32_wr32_same.
      apply u32_small. lia.
Qed.

Lemma runs_morecore fuel s B nu :
  heap s B → 1 <= nu → 16 * Z.max nu 4096 < 2 ^ 31 → (length B + 2 <= fuel)%nat → 0 < brk s →
  runs (morecore fuel nu) s (λ q s',
    (q = 0 ∧ s' = s ∧ grant (brk s) (16 * Z.max nu 4096) = false) ∨
    (q ≠ 0 ∧ q = freep s' ∧ grown_to s B nu s')).
Proof.
  intros Hh Hn Hmax Hfuel Hpos. unfold morecore. set (n := Z.max nu 4096).
  assert (En : (if nu <? 4096 then 4096 else nu) = n) by (unfold n; destruct (Z.ltb_spec nu 4096); lia). rewrite En.
  unfold sizeof_Header. rewrite s32_small by lia. apply runs_bind. unfold runs at 1, sbrk.
  destruct (Z.ltb_spec 0 (n * 16)); [|lia]. replace (n * 16) with (16 * n) by lia.
  pose proof (h_max _ _ Hh) as Hm. pose proof (h_brk _ _ Hh) as Hb.
  destruct (grant (brk s) (16 * n)) eqn:Eg; [|rewrite Z.eqb_refl; kred; left; done].
  pose proof (Hgrant _ _ Eg) as Hlt. destruct (Z.eqb_spec (brk s) (u64 (-1))) as [E|_]; [rewrite E in Hm; by vm_compute in Hm|].
  unfold set_size. kred. cbn [um set_brk].
  pose proof (heap_extend s B n Hh ltac:(lia) Hlt) as Hh1. set (s1 := set_um _ _) in *.
  assert (E1 : hdr_add (brk s) 1 = row_end lo B + 16).
  { unfold hdr_add, sizeof_Header. rewrite <-Hb. apply u64_small. lia. }
  rewrite E1. eapply runs_mono.
  { apply (runs_free fuel s1 B n []); [exact Hh1|]. etrans; [apply ring_length|]. rewrite length_app. simpl. lia. }
  intros _ s2 (B' & Hh2 & Hu2 & Hb2 & (a & k & Hin & Hk) & Hag2 & Hlen2). apply runs_gets. right. split_and!; [|done|].
  - pose proof (h_freep _ _ Hh2) as Hf. apply list_elem_of_fmap in Hf as ([b j] & -> & Hf).
    apply (ring_bounds _ _ _ (h_sizes _ _ Hh2)) in Hf. simpl. lia.
  - cbn [row] in Hu2, Hag2. rewrite app_nil_r in Hu2, Hag2. exists B'. split_and!; [done|done|exists a, k; split; [done|lia]| |].
    + intros b j Hbj. eapply agree_trans; [|by apply Hag2]. apply (row_bounds _ _ _ _ _ (h_sizes _ _ Hh)) in Hbj.
      intros c Hc. cbn [um s1 set_um]. unfold wr32. rewrite rd8_wr_le, decide_False; [done|]. rewrite Hb. lia.
    + rewrite length_app in Hlen2. simpl in Hlen2. lia.
Qed.

(** ** Taking a block *)

(** The allocated blocks are those of [B] and one of [k] units, whose address
    is [r]. *)
Definition taken_to (s : ust) (B : list (Z * bool)) (k r : Z) (s' : ust) : Prop :=
  ∃ B' U1 U2, heap s' B' ∧ useds lo B = U1 ++ U2 ∧ useds lo B' = U1 ++ (r - 16, k) :: U2 ∧
    (∀ a j, (a, j) ∈ useds lo B → agree (um s) (um s') a (16 * j)).

Lemma row_lookup u B i p n a :
  row u a B !! i = Some (p, n) → ∃ B1 B2, B = B1 ++ (n, u) :: B2 ∧ p = row_end a B1 ∧ length (row u a B1) = i.
Proof.
  revert a i. induction B as [|[k v] B IH]; intros a i; [done|]. cbn [row]. destruct (eqb u v) eqn:E.
  - apply eqb_prop in E as ->. destruct i as [|i]; cbn [lookup list_lookup].
    + intros [= <- <-]. by exists [], B.
    + intros (B1 & B2 & -> & -> & <-)%IH. exists ((k, v) :: B1), B2. cbn [row]. by rewrite eqb_reflx.
  - intros (B1 & B2 & -> & -> & <-)%IH. exists ((k, v) :: B1), B2. cbn [row]. by rewrite E.
Qed.

Section Take.
Context (s : ust) (B1 : list (Z * bool)) (n : Z) (B2 : list (Z * bool)) (k : Z).
Context (Hh : heap s (B1 ++ (n, false) :: B2)) (Hk : 1 <= k <= n).
Let p := row_end lo B1.
Let F2 := frees (p + 16 * n) B2.

Lemma take_facts :
  sizes_ok B1 ∧ sizes_ok B2 ∧ coalesced B1 ∧ coalesced B2 ∧ ¬ starts_free B2 ∧ ¬ ends_free B1 ∧ lo <= p ∧
  p + 16 * n <= row_end (p + 16 * n) B2 ∧ row_end (p + 16 * n) B2 < 2 ^ 32 ∧ brk s = row_end (p + 16 * n) B2.
Proof.
  destruct Hh as [Hb Hm Hs Hc _ _ _]. apply Forall_app in Hs as [Hs1 [Hn Hs2]%Forall_cons]. simpl in Hn.
  apply coal_app in Hc as (Hc1 & [Hnf Hc2]%coal_cons & Hef). rewrite row_end_app in Hb. cbn [row_end] in Hb.
  pose proof (row_end_le lo B1 Hs1). pose proof (row_end_le (p + 16 * n) B2 Hs2).
  split_and!; try done; [by apply Hnf| |unfold p; lia]. intros Hx. by destruct (Hef Hx).
Qed.

Lemma take_useds u : row u lo (B1 ++ (n, false) :: B2) = row u lo B1 ++ row u p ((n, false) :: B2).
Proof. by rewrite row_app. Qed.

Lemma take_cases a j : (a, j) ∈ useds lo B1 ++ useds (p + 16 * n) B2 → (a + 16 * j <= p ∨ p + 16 * n <= a) ∧ 1 <= j.
Proof.
  destruct take_facts as (Hs1 & Hs2 & _). intros [H|H]%elem_of_app.
  - apply (row_bounds _ _ _ _ _ Hs1) in H. fold p in H. lia.
  - apply (row_bounds _ _ _ _ _ Hs2) in H. lia.
Qed.

(** The final heap, from its row of blocks and its ring. *)
Lemma take_done B' fp m' r :
  sizes_ok B' → coalesced B' → row_end lo B' = row_end (p + 16 * n) B2 →
  useds lo B' = useds lo B1 ++ (r - 16, k) :: useds (p + 16 * n) B2 → rd32 m' (r - 16 + 8) = k →
  (∀ a j, (a, j) ∈ useds lo B1 ++ useds (p + 16 * n) B2 → agree (um s) m' a (16 * j)) →
  fp ∈ (ring B').*1 → lseg m' base_at (ring B') base_at →
  taken_to s (B1 ++ (n, false) :: B2) k r (set_freep fp (set_um m' s)).
Proof.
  intros Hs Hc He Hu Hrk Hag Hf Hl. destruct take_facts as (_ & _ & _ & _ & _ & _ & _ & _ & Hmax & Hbrk).
  assert (Eu : useds lo (B1 ++ (n, false) :: B2) = useds lo B1 ++ useds (p + 16 * n) B2) by by rewrite row_app.
  exists B', (useds lo B1), (useds (p + 16 * n) B2). split_and!; [|done|done|by rewrite Eu].
  constructor; cbn [brk um freep set_freep set_um]; try done; [by rewrite He|by rewrite Hbrk|].
  rewrite Hu. intros a j Hin. assert ((a, j) = (r - 16, k) ∨ (a, j) ∈ useds lo B1 ++ useds (p + 16 * n) B2) as [[= -> ->]|Hin'].
  { rewrite elem_of_app, elem_of_cons in Hin. rewrite elem_of_app. naive_solver. }
  - done.
  - destruct (take_cases a j Hin') as [_ Hj]. rewrite <-(h_used _ _ Hh a j) by by rewrite Eu.
    apply rd_le_ext. intros b ?. apply (Hag a j Hin'). lia.
Qed.

Context (pre : list (Z * Z)) (prevp kp : Z) (Hpre : ring B1 = pre ++ [(prevp, kp)]).

Lemma take_ring : lseg (um s) base_at (pre ++ (prevp, kp) :: (p, n) :: F2) base_at.
Proof. pose proof (h_ring _ _ Hh) as H. by rewrite ring_split_free, Hpre, <-app_assoc in H. Qed.

Lemma prev_bounds : base_at <= prevp ∧ prevp + 16 <= p ∧ (prevp, kp) ∈ ring B1.
Proof.
  destruct take_facts as (Hs1 & _ & _ & _ & _ & _ & Hlop & _).
  assert (Hin : (prevp, kp) ∈ ring B1) by (rewrite Hpre; set_solver). split_and!; [..|done].
  - by apply (ring_bounds _ _ _ Hs1) in Hin as [? _].
  - apply (ring_bounds _ _ _ Hs1) in Hin. rewrite Z.max_r in Hin by done. fold p in Hin. lia.
Qed.

Lemma runs_take_all : k = n → runs (take_block k prevp p n) s (λ r s', taken_to s (B1 ++ (n, false) :: B2) k r s').
Proof.
  intros Ek. destruct take_facts as (Hs1 & Hs2 & Hc1 & Hc2 & Hnf & Hef & Hlop & Hle & Hmax & Hbrk).
  destruct prev_bounds as (Hpb & Hpp & Hpin). pose proof take_ring as Hring.
  apply lseg_app in Hring as Hsp. destruct Hsp as (z & _ & -> & Hkp & Hpn & Hsz & Htl).
  unfold take_block. destruct (Z.eqb_spec n k); [|lia]. unfold ptr, set_ptr. kred.
  set (m' := wr64 (um s) prevp (rd64 (um s) p)).
  assert (Hag : agree_out (um s) m' prevp 8) by apply wr64_agree_out.
  assert (Er : hdr_add p 1 = p + 16) by (unfold hdr_add, sizeof_Header; rewrite Z.mul_1_l; apply u64_small; lia).
  rewrite Er. change (mkU m' (freep s) (brk s)) with (set_um m' s).
  assert (Erg : ring (B1 ++ (n, true) :: B2) = pre ++ (prevp, kp) :: F2) by (rewrite ring_split, Hpre, <-app_assoc; done).
  apply (take_done (B1 ++ (n, true) :: B2)).
  - apply Forall_app. split; [done|]. constructor; [simpl; lia|done].
  - apply coal_app. split_and!; [done|by apply coal_cons|by intros _ []].
  - by rewrite row_end_app.
  - rewrite useds_split, Ek. by replace (p + 16 - 16) with p by lia.
  - replace (p + 16 - 16) with p by lia. rewrite Ek, <-Hsz. apply (rd32_agree_out _ _ _ _ _ Hag). lia.
  - intros a j Hin. destruct (take_cases a j Hin) as [Hc Hj]. eapply agree_out_agree; [exact Hag|].
    apply elem_of_app in Hin as [Hin|Hin]; [destruct (used_away _ _ _ _ _ Hs1 Hin Hpin); lia|].
    apply (row_bounds _ _ _ _ _ Hs2) in Hin. lia.
  - rewrite Erg, fmap_app. cbn [fmap list_fmap fst]. set_solver.
  - rewrite Erg. eapply (lseg_replace (um s) m' base_at pre prevp kp ((p, n) :: F2)); [exact Hring| |].
    + intros b j Hin. pose proof (ring_before _ _ _ _ [] _ _ Hs1 Hpre Hin). eapply agree_out_agree; [exact Hag|lia].
    + split_and!; [done|rewrite <-Hkp; apply (rd32_agree_out _ _ _ _ _ Hag); lia|].
      assert (E2 : rd64 m' prevp = rd64 (um s) p) by (unfold m'; rewrite rd64_wr64_same; apply u64_small, rd64_range).
      rewrite E2. eapply lseg_ext; [|exact Htl]. intros b j Hin. apply (row_bounds _ _ _ _ _ Hs2) in Hin.
      eapply agree_out_agree; [exact Hag|lia].
Qed.

Lemma runs_take_part : k < n → runs (take_block k prevp p n) s (λ r s', taken_to s (B1 ++ (n, false) :: B2) k r s').
Proof.
  intros Hlt. destruct take_facts as (Hs1 & Hs2 & Hc1 & Hc2 & Hnf & Hef & Hlop & Hle & Hmax & Hbrk).
  destruct prev_bounds as (Hpb & Hpp & Hpin). pose proof take_ring as Hring.
  apply lseg_app in Hring as Hsp. destruct Hsp as (z & Hseg & -> & Hkp & Hpn & Hsz & Htl).
  unfold take_block. destruct (Z.eqb_spec n k); [lia|]. unfold size_at, set_size. kred. cbn [um set_um].
  rewrite rd32_wr32_same, !u32_small by (rewrite ?u32_small; lia).
  assert (Eq : hdr_add p (n - k) = p + 16 * (n - k)) by (apply hdr_add_small; lia). rewrite Eq.
  set (q := p + 16 * (n - k)). set (m' := wr32 (wr32 (um s) (p + 8) (n - k)) (q + 8) k).
  assert (Er : hdr_add q 1 = q + 16) by (unfold hdr_add, sizeof_Header; rewrite Z.mul_1_l; apply u64_small; unfold q; lia).
  rewrite Er. change (mkU m' (freep s) (brk s)) with (set_um m' s).
  assert (Hag : agree_out (um s) m' p (16 * n)).
  { intros b Hb. unfold m', wr32. rewrite !rd8_wr_le, !decide_False by (unfold q in *; lia). done. }
  assert (Hag' : headers_only (um s) m' (p + 8) (q + 8)).
  { intros b Hb Hb2. unfold m', wr32. rewrite !rd8_wr_le, !decide_False by lia. done. }
  assert (Erg : ring (B1 ++ (n - k, false) :: (k, true) :: B2) = pre ++ (prevp, kp) :: (p, n - k) :: F2).
  { rewrite ring_split_free, Hpre, <-app_assoc. cbn [row eqb app]. fold p. unfold F2.
    by replace (p + 16 * (n - k) + 16 * k) with (p + 16 * n) by lia. }
  apply (take_done (B1 ++ (n - k, false) :: (k, true) :: B2)).
  - apply Forall_app. split; [done|]. repeat constructor; simpl; [lia|lia|done].
  - apply coal_app. split_and!; [done| |by intros ?%Hef]. apply coal_cons. split; [by intros _ []|by apply coal_cons].
  - rewrite row_end_app. cbn [row_end]. fold p. f_equal. lia.
  - rewrite row_app. cbn [row eqb]. fold p. replace (q + 16 - 16) with (p + 16 * (n - k)) by (unfold q; lia).
    by replace (p + 16 * (n - k) + 16 * k) with (p + 16 * n) by lia.
  - replace (q + 16 - 16 + 8) with (q + 8) by lia. unfold m'. rewrite rd32_wr32_same. apply u32_small. lia.
  - intros a j Hin. destruct (take_cases a j Hin) as [Hc Hj]. eapply agree_out_agree; [exact Hag|lia].
  - rewrite Erg, fmap_app. cbn [fmap list_fmap fst]. set_solver.
  - rewrite Erg. eapply (lseg_replace (um s) m' base_at pre prevp kp ((p, n) :: F2)); [exact Hring| |].
    + intros b j Hin. pose proof (ring_before _ _ _ _ [] _ _ Hs1 Hpre Hin). eapply agree_out_agree; [exact Hag|lia].
    + split_and!; [done|rewrite <-Hkp; apply (rd32_agree_out _ _ _ _ _ Hag); lia|].
      assert (E2 : rd64 m' prevp = p) by (rewrite (rd64_agree_out _ _ _ _ _ Hag) by lia; done). rewrite E2.
      split_and!; [done| |].
      * unfold m'. rewrite rd32_wr32_ne by (unfold q; lia). rewrite rd32_wr32_same. apply u32_small. lia.
      * assert (E3 : rd64 m' p = rd64 (um s) p).
        { unfold m', rd64, wr32. rewrite !rd_le_wr_le_ne by (unfold q; lia). done. }
        rewrite E3. eapply lseg_ext; [|exact Htl]. intros b j Hin. apply (row_bounds _ _ _ _ _ Hs2) in Hin.
        eapply agree_out_agree; [exact Hag|lia].
Qed.
End Take.

(** The block at position [i + 1] of the ring is taken. *)
Lemma runs_take s B i prevp kp p n k :
  heap s B → ring B !! i = Some (prevp, kp) → ring B !! S i = Some (p, n) → 1 <= k <= n →
  runs (take_block k prevp p n) s (λ r s', taken_to s B k r s').
Proof.
  intros Hh Hi Hp Hk. cbn [ring lookup list_lookup] in Hp. change (frees lo B !! i = Some (p, n)) in Hp.
  apply row_lookup in Hp as (B1 & B2 & -> & -> & Hlen).
  rewrite ring_split_free in Hi. assert (Hi1 : ring B1 !! i = Some (prevp, kp)).
  { rewrite lookup_app_l in Hi; [done|]. unfold ring. simpl. lia. }
  assert (Hpre : ring B1 = take i (ring B1) ++ [(prevp, kp)]).
  { rewrite <-(take_drop_middle _ _ _ Hi1) at 1. f_equal. f_equal. apply drop_ge. unfold ring. simpl. lia. }
  destruct (decide (k = n)) as [E|E].
  - by eapply runs_take_all.
  - eapply runs_take_part; [done|done|done|lia].
Qed.

(** ** malloc *)

(** Either the block is there, or nothing changed: no free block is big enough
    and the kernel refused to grant more memory. *)
Definition malloc_post (s : ust) (B : list (Z * bool)) (k r : Z) (s' : ust) : Prop :=
  (r = 0 ∧ s' = s ∧ (∀ a j, (a, j) ∈ frees lo B → j < k) ∧ grant (brk s) (16 * Z.max k 4096) = false) ∨
  taken_to s B k r s'.

(** The position after [i] in the ring. *)
Lemma ring_next s B i p n :
  heap s B → ring B !! i = Some (p, n) →
  ∃ i' m, ring B !! i' = Some (rd64 (um s) p, m) ∧ (i' = S i ∨ i' = O ∧ S i = length (ring B)).
Proof.
  intros Hh Hi. destruct (lseg_lookup _ _ _ _ _ _ _ (h_ring _ _ Hh) Hi) as [_ ->]. unfold succ_of.
  destruct (ring B !! S i) as [[b m]|] eqn:E; [by exists (S i), m; auto|].
  exists O, 0. split; [done|]. right. split; [done|]. apply lookup_ge_None in E. apply lookup_lt_Some in Hi. lia.
Qed.

Lemma taken_trans s B s2 B2 k r s' :
  useds lo B2 = useds lo B → (∀ a j, (a, j) ∈ useds lo B → agree (um s) (um s2) a (16 * j)) →
  taken_to s2 B2 k r s' → taken_to s B k r s'.
Proof.
  intros Hu Hag (B' & U1 & U2 & Hh & E1 & E2 & Hag2). exists B', U1, U2. rewrite Hu in E1, Hag2. split_and!; [done..|].
  intros a j Hin. eapply agree_trans; [by apply Hag|by apply Hag2].
Qed.

Section Loop.
Context (k : Z).

(** The state of the loop: in the ring of [B], at position [i], with [fi] the
    position of [freep]; the blocks passed are too small. *)
Definition at_pos (s : ust) (B : list (Z * bool)) (fi i : nat) (prevp p : Z) : Prop :=
  heap s B ∧ (∃ m, ring B !! fi = Some (freep s, m)) ∧ (∃ m, ring B !! i = Some (p, m)) ∧
  (∀ j, i = S j → ∃ m, ring B !! j = Some (prevp, m)) ∧
  (∀ j b m, ring B !! j = Some (b, m) → (steps_to (ring B) fi i < steps_to (ring B) fi j)%nat → m < k).

Lemma steps_next L fi i i' :
  (fi < length L)%nat → (i < length L)%nat → i ≠ fi → (i' = S i ∨ i' = O ∧ S i = length L) →
  steps_to L fi i = S (steps_to L fi i').
Proof. intros. unfold steps_to. repeat case_decide; lia. Qed.
Lemma steps_first L fi i' :
  (fi < length L)%nat → (i' = S fi ∨ i' = O ∧ S fi = length L) → steps_to L fi i' = (length L - 1)%nat.
Proof. intros. unfold steps_to. repeat case_decide; lia. Qed.
Lemma steps_max L fi j : (fi < length L)%nat → (j < length L)%nat → (steps_to L fi j <= length L - 1)%nat.
Proof. intros. unfold steps_to. repeat case_decide; lia. Qed.
Lemma steps_inj L fi i j :
  (fi < length L)%nat → (i < length L)%nat → (j < length L)%nat → steps_to L fi i = steps_to L fi j → i = j.
Proof. unfold steps_to. repeat case_decide; lia. Qed.

(** Where the loop starts, from [freep]. *)
Lemma at_pos_start s B fi m :
  heap s B → ring B !! fi = Some (freep s, m) →
  ∃ i, at_pos s B fi i (freep s) (rd64 (um s) (freep s)) ∧ (steps_to (ring B) fi i < length (ring B))%nat.
Proof.
  intros Hh Hf. destruct (ring_next _ _ _ _ _ Hh Hf) as (i & n & Hi & Hn). pose proof (lookup_lt_Some _ _ _ Hf) as Hlt.
  pose proof (lookup_lt_Some _ _ _ Hi) as Hlti. pose proof (steps_first _ _ _ Hlt Hn) as Es. exists i. split; [|lia].
  split_and!; [done|by eexists|by eexists| |].
  - intros j ->. destruct Hn as [[= ->]|[? _]]; [by eexists|done].
  - intros j b x Hj Hst. pose proof (steps_max _ fi _ Hlt (lookup_lt_Some _ _ _ Hj)). lia.
Qed.

(** A block that is too small is passed. *)
Lemma at_pos_next s B fi i prevp p m :
  at_pos s B fi i prevp p → ring B !! i = Some (p, m) → m < k → i ≠ fi →
  ∃ i', at_pos s B fi i' p (rd64 (um s) p) ∧ steps_to (ring B) fi i = S (steps_to (ring B) fi i').
Proof.
  intros (Hh & [mf Hf] & _ & _ & Hvis) Hi Hm Hne. destruct (ring_next _ _ _ _ _ Hh Hi) as (i' & n & Hi' & Hn).
  pose proof (lookup_lt_Some _ _ _ Hf) as Hlt. pose proof (lookup_lt_Some _ _ _ Hi) as Hlti.
  pose proof (steps_next _ _ _ _ Hlt Hlti Hne Hn) as Es. exists i'. split; [|done].
  split_and!; [done|by eexists|by eexists| |].
  - intros j ->. destruct Hn as [[= ->]|[? _]]; [by eexists|done].
  - intros j b x Hj Hst. destruct (decide (steps_to (ring B) fi i < steps_to (ring B) fi j)%nat) as [Hd|Hd]; [by eapply Hvis|].
    assert (j = i) as -> by (eapply (steps_inj (ring B) fi); [done|by eapply lookup_lt_Some|done|lia]). congruence.
Qed.

Context (fuel : nat) (s0 : ust) (B0 : list (Z * bool)).
Context (Hh0 : heap s0 B0) (Hk : 1 <= k) (Hkmax : 16 * Z.max k 4096 < 2 ^ 31).
Context (Hfuel : (length B0 + 2 <= fuel)%nat) (Hpos : 0 < brk s0).

(** Before morecore was called, and after. *)
Definition loop_inv (n : nat) (x : Z * Z) (s : ust) : Prop :=
  ∃ B fi i, at_pos s B fi i x.1 x.2 ∧
    ((s = s0 ∧ B = B0 ∧ n = (steps_to (ring B) fi i + length B0 + 3)%nat) ∨
     (useds lo B = useds lo B0 ∧ (∀ a j, (a, j) ∈ useds lo B0 → agree (um s0) (um s) a (16 * j)) ∧
      (∃ a m, (a, m) ∈ ring B ∧ k <= m) ∧ n = steps_to (ring B) fi i)).

Lemma runs_round n x s :
  loop_inv n x s →
  runs (malloc_round fuel k x) s (λ r s', match r with
    | inl x' => ∃ n', (n' < n)%nat ∧ loop_inv n' x' s'
    | inr r => malloc_post s0 B0 k r s'
    end).
Proof.
  destruct x as [prevp p]. intros (B & fi & i & Hat & Hph). cbn [fst snd] in Hat.
  pose proof Hat as (Hh & [mf Hf] & [m Hi] & Hprev & Hvis).
  destruct (lseg_lookup _ _ _ _ _ _ _ (h_ring _ _ Hh) Hi) as [Hsz _].
  unfold malloc_round, size_at, ptr. kred. rewrite Hsz, Z.geb_leb. destruct (Z.leb_spec k m) as [Hbig|Hsmall].
  - (* take *)
    destruct i as [|j]; [injection Hi as _ <-; lia|]. destruct (Hprev j eq_refl) as [mp Hj].
    apply runs_bind. eapply runs_mono; [by eapply (runs_take s B j prevp mp p m k)|].
    intros r s' Ht. kred. right. destruct Hph as [(-> & -> & _)|(Hu & Hag & _)]; [done|by eapply taken_trans].
  - kred. pose proof (lookup_lt_Some _ _ _ Hf) as Hltf. pose proof (lookup_lt_Some _ _ _ Hi) as Hlti.
    destruct (Z.eqb_spec p (freep s)) as [E|E].
    + (* all the way around *)
      assert (i = fi) as ->.
      { destruct (decide (i = fi)) as [|Hne]; [done|]. exfalso. rewrite E in Hi.
        destruct (decide (i < fi)%nat) as [Hlt|Hlt].
        - pose proof (take_drop_middle _ _ _ Hi) as Esp. symmetry in Esp.
          destruct (ring_pairs _ _ _ _ _ (freep s) mf (h_sizes _ _ Hh) Esp) as [? _]; [|lia].
          apply (list_elem_of_lookup_2 _ (fi - S i)). rewrite lookup_drop. by replace (S i + (fi - S i))%nat with fi by lia.
        - pose proof (take_drop_middle _ _ _ Hf) as Esp. symmetry in Esp.
          destruct (ring_pairs _ _ _ _ _ (freep s) m (h_sizes _ _ Hh) Esp) as [? _]; [|lia].
          apply (list_elem_of_lookup_2 _ (i - S fi)). rewrite lookup_drop. by replace (S fi + (i - S fi))%nat with i by lia. }
      assert (Hall : ∀ b x, (b, x) ∈ ring B → x < k).
      { intros b x [j Hj]%list_elem_of_lookup. destruct (decide (j = fi)) as [->|Hne]; [congruence|].
        apply (Hvis j b x Hj). pose proof (lookup_lt_Some _ _ _ Hj). unfold steps_to. repeat case_decide; lia. }
      destruct Hph as [(-> & -> & ->)|(_ & _ & (a & x & Hin & Hbig) & _)]; [|specialize (Hall a x Hin); lia].
      apply runs_bind. eapply runs_mono; [apply (runs_morecore fuel s0 B0 k); done|].
      intros q s' [(-> & -> & Hg)|(Hq & -> & B' & Hh' & Hu' & (a & x & Hin & Hx) & Hag' & Hlen')].
      * change (0 =? 0) with true. kred. left. split_and!; [done|done| |done]. intros a j Hin. apply (Hall a j). by right.
      * destruct (Z.eqb_spec (freep s') 0); [done|]. kred.
        pose proof (h_freep _ _ Hh') as Hf'. apply list_elem_of_fmap in Hf' as ([b mb] & Eb & Hb). simpl in Eb.
        apply list_elem_of_lookup in Hb as [fi' Hfi']. rewrite <-Eb in Hfi'.
        destruct (at_pos_start s' B' fi' mb Hh' Hfi') as (i' & Hat' & Hst').
        exists (steps_to (ring B') fi' i'). split; [pose proof (ring_length B'); lia|].
        exists B', fi', i'. split; [exact Hat'|]. right. split_and!; [done|done| |done]. exists a, x. split; [by right|done].
    + kred. assert (Hne : i ≠ fi) by (intros ->; congruence).
      destruct (at_pos_next _ _ _ _ _ _ _ Hat Hi Hsmall Hne) as (i' & Hat' & Es).
      destruct Hph as [(-> & -> & ->)|(Hu & Hag & Hbg & ->)].
      * exists (steps_to (ring B0) fi i' + length B0 + 3)%nat. split; [lia|]. exists B0, fi, i'. split; [done|]. by left.
      * exists (steps_to (ring B) fi i'). split; [lia|]. exists B, fi, i'. split; [done|]. by right.
Qed.
End Loop.

Lemma runs_malloc_loop fuel s B k :
  heap s B → 1 <= k → 16 * Z.max k 4096 < 2 ^ 31 → (2 * length B + 5 <= fuel)%nat → 0 < brk s →
  runs (iter fuel (malloc_round fuel k) (freep s, rd64 (um s) (freep s))) s (malloc_post s B k).
Proof.
  intros Hh Hk Hkm Hfuel Hpos. pose proof (h_freep _ _ Hh) as Hf. apply list_elem_of_fmap in Hf as ([b mb] & Eb & Hb).
  simpl in Eb. apply list_elem_of_lookup in Hb as [fi Hfi]. rewrite <-Eb in Hfi.
  destruct (at_pos_start k s B fi mb Hh Hfi) as (i & Hat & Hst). pose proof (ring_length B).
  eapply (runs_iter _ (loop_inv k s B)) with (n := (steps_to (ring B) fi i + length B + 3)%nat); [| |lia].
  - intros n x t Hinv. apply (runs_round k fuel s B); done || lia.
  - exists B, fi, i. split; [done|]. by left.
Qed.

Lemma runs_malloc fuel nb s B :
  heap s B → 1 <= units nb → 16 * Z.max (units nb) 4096 < 2 ^ 31 → (2 * length B + 5 <= fuel)%nat → 0 < brk s →
  runs (malloc fuel nb) s (malloc_post s B (units nb)).
Proof.
  intros Hh Hk Hkm Hfuel Hpos. unfold malloc, ptr. kred.
  pose proof (h_freep _ _ Hh) as Hf. apply list_elem_of_fmap in Hf as ([b mb] & Eb & Hb).
  apply (ring_bounds _ _ _ (h_sizes _ _ Hh)) in Hb. simpl in Eb. destruct (Z.eqb_spec (freep s) 0); [lia|]. kred.
  by apply runs_malloc_loop.
Qed.

(** The first call sets up the ring. *)
Definition first_ring (s : ust) : ust :=
  mkU (wr32 (wr64 (um s) base_at base_at) (base_at + 8) 0) base_at (brk s).

Lemma first_heap s : brk s = lo → lo < 2 ^ 32 → heap (first_ring s) [].
Proof.
  intros Hb Hl. constructor; try done; cbn [brk um freep first_ring]; [by rewrite Hb|by constructor| |apply list_elem_of_here|by intros ?? ?%not_elem_of_nil].
  cbn [ring row lseg]. split_and!; [done|by rewrite rd32_wr32_same|].
  unfold rd64, wr32. rewrite rd_le_wr_le_ne by lia. fold (rd64 (wr64 (um s) base_at base_at) base_at).
  rewrite rd64_wr64_same. apply u64_small. lia.
Qed.

Lemma malloc_first fuel nb s : freep s = 0 → malloc fuel nb s = malloc fuel nb (first_ring s).
Proof.
  intros Hf. unfold malloc, bind, gets at 1 2, ptr, gets. rewrite Hf. change (0 =? 0) with true. cbv iota.
  cbn [freep first_ring]. destruct (Z.eqb_spec base_at 0); [lia|]. done.
Qed.

(** ** Programs that use the allocator

    A program knows the blocks it was given and not yet freed, and what it
    stored in them; it writes only into them. *)

Definition usys : Type := ust * gmap Z (list Z).

(** The largest request for which the argument of sbrk, an int, is not
    negative; malloc of one byte more is wrong, as shown below. *)
Definition max_request : Z := 2 ^ 31 - 32.

Definition contents (m : mem) (r n : Z) : list Z := (λ i, rd8 m (r + i)) <$> seqZ 0 n.

(** Enough rounds for every search: two per 16 bytes of the heap. *)
Definition enough (fuel : nat) (s : ust) : Prop := 2 * ((brk s - lo) / 16) + 5 <= Z.of_nat fuel.

(** A program whose requests are of at most [limit] bytes. *)
Inductive ustep (limit : Z) : usys → usys → Prop :=
| u_malloc fuel nb r s s' own :
    0 <= nb <= limit → enough fuel s → malloc fuel nb s = Ok r s' → r ≠ 0 →
    ustep limit (s, own) (s', <[r := contents (um s') r nb]> own)
| u_refused fuel nb s s' own :
    0 <= nb <= limit → enough fuel s → malloc fuel nb s = Ok 0 s' → ustep limit (s, own) (s', own)
| u_free fuel r l s s' own :
    own !! r = Some l → enough fuel s → free fuel r s = Ok tt s' → ustep limit (s, own) (s', delete r own)
| u_write r l i v s own :
    own !! r = Some l → 0 <= i < zlen l →
    ustep limit (s, own) (set_um (wr8 (um s) (r + i) v) s, <[r := <[Z.to_nat i := u8 v]> l]> own).

(** The block of [r] in the heap, with its contents. *)
Definition block_of (s : ust) (B : list (Z * bool)) (r : Z) (l : list Z) : Prop :=
  ∃ n, (r - 16, n) ∈ useds lo B ∧ zlen l <= 16 * (n - 1) ∧
    ∀ i v, l !! i = Some v → rd8 (um s) (r + Z.of_nat i) = v.

Definition uinv (x : usys) : Prop :=
  (freep x.1 = 0 ∧ brk x.1 = lo ∧ x.2 = ∅) ∨
  ∃ B, heap x.1 B ∧ (∀ r l, x.2 !! r = Some l → block_of x.1 B r l) ∧
    (∀ a n, (a, n) ∈ useds lo B → is_Some (x.2 !! (a + 16))).

Lemma useds_apart B a n b k :
  sizes_ok B → (a, n) ∈ useds lo B → (b, k) ∈ useds lo B → a ≠ b → a + 16 * n <= b ∨ b + 16 * k <= a.
Proof.
  intros Hs Ha Hb Hne. apply list_elem_of_split in Ha as (X & Y & E). rewrite E in Hb.
  apply elem_of_app in Hb as [Hb|[[= -> ->]|Hb]%elem_of_cons]; [|done|].
  - right. apply list_elem_of_split in Hb as (X1 & X2 & ->). rewrite <-app_assoc in E. cbn [app] in E.
    eapply (row_pairs _ _ _ _ _ _ _ a n Hs E). set_solver.
  - left. by eapply (row_pairs _ _ _ _ _ _ _ _ _ Hs E).
Qed.

Lemma units_eq nb : 0 <= nb <= max_request → units nb = (nb + 15) / 16 + 1.
Proof. unfold units, sizeof_Header, max_request. intros. replace (nb + 16 - 1) with (nb + 15) by lia. apply u32_small. zdm. Qed.
Lemma units_ok nb : 0 <= nb <= max_request →
  1 <= units nb ∧ 16 * Z.max (units nb) 4096 < 2 ^ 31 ∧ nb <= 16 * (units nb - 1).
Proof. intros H. rewrite (units_eq nb H). unfold max_request in H. zdm. Qed.

Lemma rows_short B a : sizes_ok B → 16 * zlen B <= row_end a B - a.
Proof.
  intros H. revert a. induction H as [|[n u] B Hn _ IH]; intros a; simpl in *; [lia|]. specialize (IH (a + 16 * n)). lia.
Qed.

(** Blocks whose bytes did not change keep their contents. *)
Lemma block_of_agree s B s' B' r l :
  block_of s B r l → (∀ a j, (a, j) ∈ useds lo B → a = r - 16 → agree (um s) (um s') a (16 * j)) →
  (∀ n, (r - 16, n) ∈ useds lo B → (r - 16, n) ∈ useds lo B') → block_of s' B' r l.
Proof.
  intros (n & Hin & Hl & Hc) Hag Hsub. exists n. split_and!; [by apply Hsub|done|]. intros i v Hi.
  rewrite <-(Hc i v Hi). apply (Hag (r - 16) n Hin eq_refl). apply lookup_lt_Some in Hi. lia.
Qed.

Lemma contents_lookup m r n i v : contents m r n !! i = Some v → rd8 m (r + Z.of_nat i) = v ∧ Z.of_nat i < n.
Proof.
  unfold contents. rewrite list_lookup_fmap. destruct (seqZ 0 n !! i) as [j|] eqn:E; [|done]. simpl. intros [= <-].
  apply lookup_seqZ in E as [-> ?]. split; [by rewrite Z.add_0_l|lia].
Qed.

Lemma uinv_malloc s own s' B k r nb :
  heap s B → (∀ r l, own !! r = Some l → block_of s B r l) → (∀ a n, (a, n) ∈ useds lo B → is_Some (own !! (a + 16))) →
  taken_to s B k r s' → 0 <= nb <= 16 * (k - 1) → uinv (s', <[r := contents (um s') r nb]> own).
Proof.
  intros Hh Hown Hall (B' & U1 & U2 & Hh' & E1 & E2 & Hag) Hnb. right. exists B'. cbn [fst snd].
  assert (Hsub : ∀ x, x ∈ useds lo B → x ∈ useds lo B') by (intros x; rewrite E1, E2; set_solver).
  split_and!; [done| |].
  - intros r' l. intros [[<- <-]|[Hne Hl]]%lookup_insert_Some.
    + exists k. split_and!; [rewrite E2; set_solver|unfold contents; rewrite length_fmap, length_seqZ; lia|].
      intros i v Hi. by apply contents_lookup in Hi as [? _].
    + eapply block_of_agree; [by apply Hown| |by intros n; apply Hsub]. intros a j Hin _. by apply Hag.
  - intros a n Hin. destruct (decide (a + 16 = r)) as [<-|Hne]; [by rewrite lookup_insert_eq; eexists|].
    rewrite lookup_insert_ne by done. rewrite E2 in Hin. apply (Hall a n). rewrite E1.
    apply elem_of_app. apply elem_of_app in Hin as [Hin|[[= -> _]|Hin]%elem_of_cons]; [by left|lia|by right].
Qed.

(** malloc does not hand out a block twice. *)
Lemma taken_fresh s (own : gmap Z (list Z)) s' B k r :
  (∀ r l, own !! r = Some l → block_of s B r l) → taken_to s B k r s' → own !! r = None.
Proof.
  intros Hown (B' & U1 & U2 & Hh' & E1 & E2 & _). destruct (own !! r) as [l|] eqn:E; [|done]. exfalso.
  destruct (Hown r l E) as (n & Hin & _). pose proof (h_sizes _ _ Hh') as Hs.
  assert (Hk : (r - 16, k) ∈ useds lo B') by (rewrite E2; set_solver). apply (row_bounds _ _ _ _ _ Hs) in Hk as (? & ? & _).
  assert (Hn : (r - 16, n) ∈ useds lo B') by (rewrite E2; rewrite E1 in Hin; set_solver). apply (row_bounds _ _ _ _ _ Hs) in Hn as (? & ? & _).
  rewrite E1 in Hin. apply elem_of_app in Hin as [(X & Y & ->)%list_elem_of_split|Hin].
  - rewrite <-app_assoc in E2. cbn [app] in E2. pose proof (row_pairs _ _ _ _ _ _ _ (r - 16) k Hs E2 ltac:(set_solver)). lia.
  - pose proof (row_pairs _ _ _ _ _ _ _ _ _ Hs E2 Hin). lia.
Qed.

Lemma useds_split_at B a n : (a, n) ∈ useds lo B → ∃ B1 B2, B = B1 ++ (n, true) :: B2 ∧ a = row_end lo B1.
Proof. intros [i Hi]%list_elem_of_lookup. apply row_lookup in Hi as (B1 & B2 & -> & -> & _). by exists B1, B2. Qed.

Lemma uinv_free s own s' B r l n B1 B2 :
  heap s B → (∀ r l, own !! r = Some l → block_of s B r l) → (∀ a n, (a, n) ∈ useds lo B → is_Some (own !! (a + 16))) →
  own !! r = Some l → B = B1 ++ (n, true) :: B2 → r - 16 = row_end lo B1 → freed_to s B1 n B2 s' → uinv (s', delete r own).
Proof.
  intros Hh Hown Hall Hr EB Er (B' & Hh' & Hu & _ & _ & Hag & _). right. exists B'. cbn [fst snd].
  assert (EU : useds lo B = useds lo B1 ++ (r - 16, n) :: useds (row_end lo B1 + 16 * n) B2) by (rewrite EB, useds_split, Er; done).
  pose proof (h_sizes _ _ Hh) as Hs.
  assert (Hother : ∀ a j, (a, j) ∈ useds lo B → a ≠ r - 16 → (a, j) ∈ useds lo B').
  { intros a j Hin Hne. rewrite Hu. rewrite EU in Hin. apply elem_of_app.
    apply elem_of_app in Hin as [?|[[= -> _]|?]%elem_of_cons]; [by left|done|by right]. }
  split_and!; [done| |].
  - intros r' l' [Hne Hl]%lookup_delete_Some. eapply block_of_agree; [by apply Hown| |intros j Hj; apply Hother; [done|lia]].
    intros a j Hin ->. apply Hag. rewrite <-Hu. apply Hother; [done|lia].
  - intros a j Hin. rewrite Hu in Hin.
    assert (Hin' : (a, j) ∈ useds lo B) by (rewrite EU; apply elem_of_app; apply elem_of_app in Hin as [?|?]; [by left|right; by right]).
    rewrite lookup_delete_ne; [by apply (Hall a j)|]. intros Era.
    apply elem_of_app in Hin as [Hin|Hin].
    + assert (Hs1 : sizes_ok B1) by (rewrite EB in Hs; by apply Forall_app in Hs as [? _]).
      apply (row_bounds _ _ _ _ _ Hs1) in Hin. lia.
    + rewrite EB in Hs. apply Forall_app in Hs as [_ [Hn Hs2]%Forall_cons]. simpl in Hn.
      apply (row_bounds _ _ _ _ _ Hs2) in Hin. lia.
Qed.

Lemma enough_rows fuel s B : enough fuel s → heap s B → (2 * length B + 5 <= fuel)%nat.
Proof.
  intros He Hh. pose proof (rows_short B lo (h_sizes _ _ Hh)) as Hr. rewrite <-(h_brk _ _ Hh) in Hr. unfold enough in He. zdm.
Qed.

Context (Hlomax : lo < 2 ^ 32).

Lemma heap_brk s B : heap s B → 0 < brk s.
Proof. intros Hh. rewrite (h_brk _ _ Hh). pose proof (row_end_le lo B (h_sizes _ _ Hh)). lia. Qed.

(** malloc in a state that a program can reach. *)
Lemma uinv_runs_malloc s own fuel nb :
  uinv (s, own) → 0 <= nb <= max_request → enough fuel s →
  runs (malloc fuel nb) s (λ r s', r = 0 ∧ uinv (s', own) ∧ grant (brk s) (16 * Z.max (units nb) 4096) = false ∨
    r ≠ 0 ∧ own !! r = None ∧ uinv (s', <[r := contents (um s') r nb]> own)).
Proof.
  intros Hinv Hnb Hf. destruct (units_ok nb Hnb) as (Hu1 & Hu2 & Hu3). unfold runs.
  assert (H : ∀ t B, heap t B → brk t = brk s → (∀ r l, own !! r = Some l → block_of t B r l) →
    (∀ a n, (a, n) ∈ useds lo B → is_Some (own !! (a + 16))) → runs (malloc fuel nb) t (λ r s', r = 0 ∧ uinv (s', own) ∧
      grant (brk s) (16 * Z.max (units nb) 4096) = false ∨ r ≠ 0 ∧ own !! r = None ∧ uinv (s', <[r := contents (um s') r nb]> own))).
  { intros t B Hh Hbt Hown Hall. eapply runs_mono.
    - apply (runs_malloc fuel nb t B); [done|done|done| |by eapply heap_brk]. eapply enough_rows; [|done]. unfold enough. by rewrite Hbt.
    - intros r s' [(-> & -> & _ & Hg)|Ht]; [left; split_and!; [done|by right; exists B|by rewrite <-Hbt]|].
      right. split; [|split; [by eapply taken_fresh|by eapply uinv_malloc; [done|done|done|done|lia]]].
      destruct Ht as (B' & U1 & U2 & Hh' & _ & E2 & _). assert (Hin : (r - 16, units nb) ∈ useds lo B') by (rewrite E2; set_solver).
      apply (row_bounds _ _ _ _ _ (h_sizes _ _ Hh')) in Hin. lia. }
  unfold uinv in Hinv. cbn [fst snd] in Hinv. destruct Hinv as [(Hfp & Hb & ->)|(B & Hh & Hown & Hall)]; [|by apply (H s B)].
  rewrite (malloc_first fuel nb s Hfp). apply (H (first_ring s) []); [by apply first_heap|done| |].
  - intros r l Hr. by rewrite lookup_empty in Hr.
  - by intros a n ?%not_elem_of_nil.
Qed.

Lemma uinv_runs_free s own fuel r l :
  uinv (s, own) → own !! r = Some l → enough fuel s → runs (free fuel r) s (λ _ s', uinv (s', delete r own) ∧ brk s' = brk s).
Proof.
  unfold uinv at 1. cbn [fst snd]. intros [(_ & _ & ->)|(B & Hh & Hown & Hall)] Hr Hf; [by rewrite lookup_empty in Hr|].
  destruct (Hown r l Hr) as (n & Hin & _). destruct (useds_split_at _ _ _ Hin) as (B1 & B2 & EB & Er).
  replace r with (row_end lo B1 + 16) at 1 by lia. pose proof (enough_rows _ _ _ Hf Hh) as He. pose proof (ring_length B).
  rewrite EB in Hh. eapply runs_mono; [apply (runs_free fuel s B1 n B2); [done|rewrite <-EB; lia]|].
  intros u s' Hfr. rewrite <-EB in Hh. split; [by eapply uinv_free|]. by destruct Hfr as (? & _ & _ & ? & _).
Qed.

Lemma ustep_inv limit x y : limit <= max_request → ustep limit x y → uinv x → uinv y.
Proof.
  intros Hlim Hst Hinv. destruct Hst as [fuel nb r s s' own Hnb Hf Hm Hr|fuel nb s s' own Hnb Hf Hm|fuel r l s s' own Hr Hf Hfr|r l i v s own Hr Hi].
  - pose proof (uinv_runs_malloc s own fuel nb Hinv ltac:(lia) Hf) as H. unfold runs in H. rewrite Hm in H. naive_solver.
  - pose proof (uinv_runs_malloc s own fuel nb Hinv ltac:(lia) Hf) as H. unfold runs in H. rewrite Hm in H. naive_solver.
  - pose proof (uinv_runs_free s own fuel r l Hinv Hr Hf) as H. unfold runs in H. rewrite Hfr in H. by destruct H.
  - unfold uinv in Hinv. cbn [fst snd] in Hinv. destruct Hinv as [(_ & _ & ->)|(B & Hh & Hown & Hall)]; [by rewrite lookup_empty in Hr|].
    right. exists B.
    destruct (Hown r l Hr) as (n & Hin & Hl & Hc). pose proof (h_sizes _ _ Hh) as Hs.
    assert (Hag : agree_out (um s) (wr8 (um s) (r + i) v) (r + i) 1).
    { intros b Hb. rewrite rd8_wr8. case_decide; [lia|done]. }
    cbn [fst snd]. split_and!.
    + destruct Hh. constructor; try done; cbn [um set_um].
      * eapply lseg_ext; [|done]. intros a j Haj. destruct (used_away _ _ _ _ _ Hs Hin Haj); (eapply agree_out_agree; [exact Hag|lia]).
      * intros a j Haj. rewrite <-(h_used0 a j Haj). apply (rd32_agree_out _ _ _ _ _ Hag).
        destruct (decide (a = r - 16)) as [->|Hne]; [lia|]. destruct (useds_apart _ _ _ _ _ Hs Hin Haj); [lia|lia|].
        apply (row_bounds _ _ _ _ _ Hs) in Haj. lia.
    + intros r' l' [[<- <-]|[Hne Hl']]%lookup_insert_Some.
      * exists n. split_and!; [done|by rewrite length_insert|]. intros j w Hj. cbn [um set_um].
        apply list_lookup_insert_Some in Hj as [(<- & <- & _)|[Hne Hj]].
        -- rewrite Z2Nat.id by lia. rewrite rd8_wr8, decide_True by lia. done.
        -- rewrite rd8_wr8, decide_False by lia. by apply Hc.
      * eapply block_of_agree; [by apply Hown| |done]. intros a j Haj ->. eapply agree_out_agree; [exact Hag|].
        destruct (useds_apart _ _ _ _ _ Hs Hin Haj); lia.
    + intros a j Haj. destruct (decide (r = a + 16)) as [->|]; [by rewrite lookup_insert_eq; eexists|].
      rewrite lookup_insert_ne by done. by eapply Hall.
Qed.

Lemma usteps_inv limit x y : limit <= max_request → rtc (ustep limit) x y → uinv x → uinv y.
Proof. intros Hlim. induction 1; [done|]. intros. by eapply IHrtc, ustep_inv. Qed.

Lemma uinv_block s own r l :
  uinv (s, own) → own !! r = Some l → lo + 16 <= r ∧ r + zlen l <= brk s ∧ ∀ i v, l !! i = Some v → rd8 (um s) (r + Z.of_nat i) = v.
Proof.
  unfold uinv. cbn [fst snd]. intros [(_ & _ & ->)|(B & Hh & Hown & _)] Hx; [by rewrite lookup_empty in Hx|].
  destruct (Hown r l Hx) as (n & Hin & Hn & Hc). rewrite (h_brk _ _ Hh).
  apply (row_bounds _ _ _ _ _ (h_sizes _ _ Hh)) in Hin. split_and!; [lia|lia|done].
Qed.
End Umalloc.

(** ** Properties *)

(** [C21] malloc and free of user programs, for a program that asks for at most
    2^31 - 32 bytes at a time (for larger requests malloc is wrong, as is shown
    below): however it allocates, frees and writes into the
    blocks it holds, every block it holds lies in its heap and has the size asked for, two blocks never overlap, malloc never
    returns a block that is still held, and a block's contents are what the program last stored there, whatever other blocks
    were allocated or freed meanwhile.  No memory is lost: when the program
    has freed everything, the heap is one free block. *)
Theorem malloc_exclusive (base_at lo : Z) (grant : Z → Z → bool) (limit : Z) (s0 s : ust) (own : gmap Z (list Z)) :
  0 < base_at → base_at + 16 <= lo → lo < 2 ^ 32 → (∀ b n, grant b n = true → b + n < 2 ^ 32) → limit <= 2 ^ 31 - 32 →
  freep s0 = 0 → brk s0 = lo → rtc (ustep base_at grant lo limit) (s0, ∅) (s, own) →
  (∀ r l, own !! r = Some l → lo + 16 <= r ∧ r + zlen l <= brk s ∧
     ∀ i v, l !! i = Some v → rd8 (um s) (r + Z.of_nat i) = v) ∧
  (∀ r r' l l', own !! r = Some l → own !! r' = Some l' → r ≠ r' → r + zlen l <= r' ∨ r' + zlen l' <= r) ∧
  (∀ fuel nb r s', 0 <= nb <= limit → enough lo fuel s → malloc base_at grant fuel nb s = Ok r s' → r ≠ 0 → own !! r = None) ∧
  (own = ∅ → freep s = 0 ∨ ∃ B, heap base_at lo s B ∧ (B = [] ∨ ∃ n, B = [(n, false)] ∧ brk s = lo + 16 * n)).
Proof.
  intros Hb Hl Hm Hg Hlim Hf Hbrk Hr. apply (usteps_inv base_at grant lo Hb Hl Hg Hm limit) in Hr; [|done|by left].
  assert (Hfr : ∀ fuel nb r s', 0 <= nb <= limit → enough lo fuel s → malloc base_at grant fuel nb s = Ok r s' → r ≠ 0 → own !! r = None).
  { intros fuel nb r s' Hnb He E Hr0. pose proof (uinv_runs_malloc base_at grant lo Hb Hl Hg Hm s own fuel nb Hr ltac:(unfold max_request; lia) He) as H.
    unfold runs in H. rewrite E in H. naive_solver. }
  unfold uinv in Hr. cbn [fst snd] in Hr. destruct Hr as [(H1 & H2 & ->)|(B & Hh & Hown & Hall)].
  { split_and!; [by intros r l Hx; rewrite lookup_empty in Hx|by intros r r' l l' Hx; rewrite lookup_empty in Hx|done|by left]. }
  pose proof (h_sizes _ _ _ _ Hh) as Hs. split_and!; [| |done|].
  - intros r l. apply (uinv_block base_at lo). right. by exists B.
  - intros r r' l l' Hx Hx' Hne. destruct (Hown r l Hx) as (n & Hin & Hn & _), (Hown r' l' Hx') as (n' & Hin' & Hn' & _).
    assert (r - 16 + 16 * n <= r' - 16 ∨ r' - 16 + 16 * n' <= r - 16) by (eapply useds_apart; [done..|lia]). lia.
  - intros ->. right. exists B. split; [done|]. destruct B as [|[n u] B]; [by left|right]. exists n.
    destruct u; [by destruct (Hall lo n) as [? Hx]; [apply list_elem_of_here|rewrite lookup_empty in Hx]|].
    destruct B as [|[k []] B].
    + split; [done|]. by rewrite (h_brk _ _ _ _ Hh).
    + exfalso. destruct (Hall (lo + 16 * n) k) as [? Hx]; [apply list_elem_of_here|by rewrite lookup_empty in Hx].
    + by pose proof (h_coal _ _ _ _ Hh).
Qed.

(** A program on a kernel that grants a megabyte. *)
Definition demo_grant (b n : Z) : bool := b + n <? 2 ^ 20.
Definition demo_ust : ust := mkU ∅ 0 4096.

Lemma demo_grant_ok b n : demo_grant b n = true → b + n < 2 ^ 32.
Proof. unfold demo_grant. intros ?%Z.ltb_lt. lia. Qed.

Lemma demo_program : ∃ s r l, rtc (ustep 16 demo_grant 4096 max_request) (demo_ust, ∅) (s, {[r := l]}) ∧ zlen l = 100.
Proof.
  assert (I0 : uinv 16 4096 (demo_ust, ∅)) by by left.
  destruct (runs_elim _ _ _ (uinv_runs_malloc 16 demo_grant 4096 eq_refl ltac:(lia) demo_grant_ok ltac:(lia) demo_ust ∅ 10 100 I0
    ltac:(unfold max_request; lia) ltac:(unfold enough; done))) as (r & s & E & [(_ & _ & Hg)|[Hr _]]); [done|].
  exists s, r, (contents (um s) r 100). split; [|done]. rewrite <-insert_empty. eapply rtc_once, (u_malloc _ _ _ _ 10); [|done|done|done].
  unfold max_request. lia.
Qed.





Lemma malloc_exclusive_witness : ∃ s r l, rtc (ustep 16 demo_grant 4096 max_request) (demo_ust, ∅) (s, {[r := l]}) ∧
  4096 + 16 <= r ∧ r + 100 <= brk s.
Proof.
  destruct demo_program as (s & r & l & Hr & Hl). exists s, r, l. split; [exact Hr|].
  pose proof (malloc_exclusive 16 4096 demo_grant max_request demo_ust s {[r := l]} eq_refl ltac:(lia) ltac:(lia) demo_grant_ok ltac:(done) eq_refl eq_refl Hr) as (H & _).
  destruct (H r l) as (H1 & H2 & _); [apply lookup_singleton_eq|]. rewrite Hl in H2. split; [exact H1|exact H2].
Defined.

(** [C37] malloc and free return, and malloc fails only for want of memory, for
    programs that ask for at most 2^31 - 32 bytes at a time: in every state
    such a program can reach, and for every such request, with a bound on the
    searches that is linear in the size of the heap, malloc returns a block in
    the heap that the program does not hold yet, or returns 0, which it does
    only if the kernel refuses the memory it asks for; and freeing any block
    the program holds returns and leaves the program break where it is. *)
Theorem malloc_returns (base_at lo : Z) (grant : Z → Z → bool) (limit : Z) (s0 s : ust) (own : gmap Z (list Z)) (fuel : nat) :
  0 < base_at → base_at + 16 <= lo → lo < 2 ^ 32 → (∀ b n, grant b n = true → b + n < 2 ^ 32) → limit <= 2 ^ 31 - 32 →
  freep s0 = 0 → brk s0 = lo → rtc (ustep base_at grant lo limit) (s0, ∅) (s, own) → enough lo fuel s →
  (∀ nb, 0 <= nb <= 2 ^ 31 - 32 →
     runs (malloc base_at grant fuel nb) s (λ r s',
       r = 0 ∧ grant (brk s) (16 * Z.max (units nb) 4096) = false ∨ lo + 16 <= r ∧ r + nb <= brk s' ∧ own !! r = None)) ∧
  (∀ r l, own !! r = Some l → runs (free fuel r) s (λ _ s', brk s' = brk s)).
Proof.
  intros Hb Hl Hm Hg Hlim Hf Hbrk Hr He. apply (usteps_inv base_at grant lo Hb Hl Hg Hm limit) in Hr; [|done|by left]. split.
  - intros nb Hnb. eapply runs_mono; [by apply (uinv_runs_malloc base_at grant lo Hb Hl Hg Hm s own)|].
    intros r s' [(-> & _ & H)|(_ & Hn & I)]; [by left|right].
    destruct (uinv_block base_at lo _ _ r _ I (lookup_insert_eq _ _ _)) as (? & Hz & _).
    unfold contents in Hz. rewrite length_fmap, length_seqZ, Z2Nat.id in Hz by lia. by split_and!.
  - intros r l Hx. eapply runs_mono; [by apply (uinv_runs_free base_at grant lo Hb Hl s own fuel r l)|]. by intros u s' [_ ?].
Qed.

Lemma malloc_returns_witness : ∃ s r l fuel, rtc (ustep 16 demo_grant 4096 max_request) (demo_ust, ∅) (s, {[r := l]}) ∧
  runs (free fuel r) s (λ _ s', brk s' = brk s) ∧
  runs (malloc 16 demo_grant fuel 50) s (λ q s', q = 0 ∧ demo_grant (brk s) 65536 = false ∨ 4112 <= q ∧ q + 50 <= brk s' ∧ q ≠ r).
Proof.
  destruct demo_program as (s & r & l & Hr & Hl). exists s, r, l, (Z.to_nat (2 * ((brk s - 4096) / 16) + 5)). split; [exact Hr|].
  pose proof (malloc_returns 16 4096 demo_grant max_request demo_ust s {[r := l]} (Z.to_nat (2 * ((brk s - 4096) / 16) + 5)) eq_refl
    ltac:(lia) ltac:(lia) demo_grant_ok ltac:(done) eq_refl eq_refl Hr ltac:(unfold enough; lia)) as (Hm & H).
  split; [exact (H r l (lookup_singleton_eq r l))|]. eapply runs_mono; [exact (Hm 50 ltac:(lia))|].
  intros q s' [Hq|(H1 & H2 & H3)]; [by left|right]. split_and!; [done|done|]. intros ->. by rewrite lookup_singleton_eq in H3.
Defined.
