(* ===== verification/File.v ===== *)
(** kernel/file.c, pipealloc of kernel/pipe.c and kernel/file_helper.c: open
    files.

    A pointer to a struct file is its place in the table, from 1 on, and 0 is
    the null pointer.  A pipe is known by the address of its page.  The file
    system runs over the log and the buffer cache; what a call does between
    begin_op and end_op is a transaction.  A read or write of a pipe ends with
    the segment of piperead or pipewrite in which it sleeps ([FSleep]).  The
    functions of the device switch are parameters, and so are the addresses of
    the local variables that hold a directory entry and a name. *)

From S2P Require Import Prelude Mem CString Riscv Spinlock Kalloc Ring Pipe BlockCache Log TxnStore LogStore Fs.
Local Open Scope kernel_scope.

Definition O_RDONLY : Z := 0x000.
Definition O_WRONLY : Z := 0x001.
Definition O_RDWR : Z := 0x002.
Definition O_CREATE : Z := 0x200.
Definition O_TRUNC : Z := 0x400.

Inductive ftype := FD_NONE | FD_PIPE | FD_INODE | FD_DEVICE.
#[global] Instance ftype_eq_dec : EqDecision ftype.
Proof. solve_decision. Defined.

Record file := mkFile {
  f_type : ftype; f_ref : Z; f_readable : bool; f_writable : bool; f_pipe : Z; f_ip : Z; f_off : Z; f_major : Z
}.
Definition set_f_type (x : ftype) (f : file) : file :=
  mkFile x (f_ref f) (f_readable f) (f_writable f) (f_pipe f) (f_ip f) (f_off f) (f_major f).
Definition set_f_ref (x : Z) (f : file) : file :=
  mkFile (f_type f) x (f_readable f) (f_writable f) (f_pipe f) (f_ip f) (f_off f) (f_major f).
Definition set_f_mode (r w : bool) (f : file) : file :=
  mkFile (f_type f) (f_ref f) r w (f_pipe f) (f_ip f) (f_off f) (f_major f).
Definition set_f_pipe (x : Z) (f : file) : file :=
  mkFile (f_type f) (f_ref f) (f_readable f) (f_writable f) x (f_ip f) (f_off f) (f_major f).
Definition set_f_ip (x : Z) (f : file) : file :=
  mkFile (f_type f) (f_ref f) (f_readable f) (f_writable f) (f_pipe f) x (f_off f) (f_major f).
Definition set_f_off (x : Z) (f : file) : file :=
  mkFile (f_type f) (f_ref f) (f_readable f) (f_writable f) (f_pipe f) (f_ip f) x (f_major f).
Definition set_f_major (x : Z) (f : file) : file :=
  mkFile (f_type f) (f_ref f) (f_readable f) (f_writable f) (f_pipe f) (f_ip f) (f_off f) x.

(** The table of open files, the open files of the running process, the file
    system, the pipes with the wakeups they made, and physical memory. *)
Record ofst (S : Type) := mkO {
  ft_lock : bool; ftable : list file; ofile : list Z; fsys : fsst (lst S);
  pipes : gmap Z pipe; pwoken : list (Z * pipe_chan); pages : kst
}.
Arguments mkO {S} _ _ _ _ _ _ _.
Arguments ft_lock {S} _.
Arguments ftable {S} _.
Arguments ofile {S} _.
Arguments fsys {S} _.
Arguments pipes {S} _.
Arguments pwoken {S} _.
Arguments pages {S} _.

(** How a read or write ends. *)
Inductive fend := FDone (r : Z) | FSleep (pi : Z) (chan : pipe_chan) (i : Z).

Section File.
Context {S : Type} `{BC : !BlockCache S} (me kend : Z) (dev_read dev_write : Z → option (Z → Z → K (fsst (lst S)) Z)).
Abbreviation st := (ofst S).

(** The blocks that fs.c sees are those of the log; the parameters of the
    store other than the process do not concern its operations. *)
#[local] Instance the_log : TxnStore (lst S) := log_store me ∅ [] 1 0 0.

Definition set_ft_lock (x : bool) (s : st) : st := mkO x (ftable s) (ofile s) (fsys s) (pipes s) (pwoken s) (pages s).
Definition set_ftable (x : list file) (s : st) : st := mkO (ft_lock s) x (ofile s) (fsys s) (pipes s) (pwoken s) (pages s).
Definition set_ofile (x : list Z) (s : st) : st := mkO (ft_lock s) (ftable s) x (fsys s) (pipes s) (pwoken s) (pages s).
Definition set_fsys (x : fsst (lst S)) (s : st) : st := mkO (ft_lock s) (ftable s) (ofile s) x (pipes s) (pwoken s) (pages s).
Definition set_pipes (x : gmap Z pipe) (w : list (Z * pipe_chan)) (s : st) : st :=
  mkO (ft_lock s) (ftable s) (ofile s) (fsys s) x w (pages s).
Definition set_pages (x : kst) (s : st) : st := mkO (ft_lock s) (ftable s) (ofile s) (fsys s) (pipes s) (pwoken s) x.

Definition on_fs {A} (m : K (fsst (lst S)) A) : K st A := zoom fsys set_fsys m.
Definition on_pages {A} (m : K kst A) : K st A := zoom pages set_pages m.
Definition begin_op_fs : K st unit := on_fs (zoom store set_store begin_op).
Definition end_op_fs : K st unit := on_fs (zoom store set_store (end_op me)).

Definition acquire_ft : K st unit := acquire_flag ft_lock set_ft_lock.
Definition release_ft : K st unit := release_flag ft_lock set_ft_lock.

Definition fidx (f : Z) : nat := Z.to_nat (f - 1).
Definition getf (f : Z) : K st file := λ s,
  match ftable s !! fidx f with
  | Some x => if 1 <=? f then Ok x s else UB "struct file: null pointer"
  | None => UB "struct file: bad pointer"
  end.
Definition setf (f : Z) (g : file → file) : K st unit := λ s,
  match ftable s !! fidx f with
  | Some x => if 1 <=? f then Ok tt (set_ftable (<[fidx f := g x]> (ftable s)) s) else UB "struct file: null pointer"
  | None => UB "struct file: bad pointer"
  end.

(** ** file.c *)

Definition fileinit : K st unit := modify (set_ft_lock false).

Definition filealloc : K st Z :=
  acquire_ft ;;;
  iter (Datatypes.S (Z.to_nat NFILE)) (λ f,
    if f <=? NFILE then
      x <- getf f ;;;
      if f_ref x =? 0 then setf f (set_f_ref 1) ;;; release_ft ;;; ret (inr f) else ret (inl (f + 1))
    else release_ft ;;; ret (inr 0)) 1.

Definition filedup (f : Z) : K st Z :=
  acquire_ft ;;;
  x <- getf f ;;;
  if f_ref x <? 1 then panic "filedup"
  else setf f (set_f_ref (s32 (f_ref x + 1))) ;;; release_ft ;;; ret f.

(** An operation of pipe.c on the pipe at [pi], in the memory of the running
    process; when both ends are closed it frees the page. *)
Definition on_pipe {A} (pi : Z) (m : K pst A) : K st A := λ s,
  match pipes s !! pi with
  | None => UB "struct pipe: bad pointer"
  | Some p =>
      match m (mkPst p (umem (fsys s)) [] false) with
      | Ok a t =>
          let s1 := set_fsys (set_umem (Pipe.umem t) (fsys s)) s in
          let w := ((λ c, (pi, c)) <$> Pipe.woken t) ++ pwoken s in
          if Pipe.freed t then (on_pages (kfree kend pi) ;;; ret a) (set_pipes (delete pi (pipes s)) w s1)
          else Ok a (set_pipes (<[pi := Pipe.pi t]> (pipes s)) w s1)
      | Panic msg => Panic msg
      | Blocked c t => UB "a segment of a pipe does not block"
      | UB w => UB w
      | NoFuel => NoFuel
      end
  end.

Definition fileclose (f : Z) : K st unit :=
  acquire_ft ;;;
  x <- getf f ;;;
  if f_ref x <? 1 then panic "fileclose"
  else
    let r := f_ref x - 1 in
    setf f (set_f_ref r) ;;;
    if 0 <? r then release_ft
    else
      ff <- getf f ;;;
      setf f (set_f_ref 0) ;;;
      setf f (set_f_type FD_NONE) ;;;
      release_ft ;;;
      match f_type ff with
      | FD_PIPE => on_pipe (f_pipe ff) (pipeclose (f_writable ff))
      | FD_INODE | FD_DEVICE => begin_op_fs ;;; on_fs (iput me (f_ip ff)) ;;; end_op_fs
      | FD_NONE => ret tt
      end.

(** The bytes of a struct stat: dev, ino, type, nlink, four bytes of padding,
    size. *)
Definition stat_bytes (pad : list Z) (x : stat) : list Z :=
  rd_bytes (wr32 ∅ 0 (st_dev x)) 0 4 ++ rd_bytes (wr32 ∅ 0 (st_ino x)) 0 4 ++
  rd_bytes (wr16 ∅ 0 (st_type x)) 0 2 ++ rd_bytes (wr16 ∅ 0 (st_nlink x)) 0 2 ++ pad ++
  rd_bytes (wr64 ∅ 0 (st_size x)) 0 8.

Definition filestat (pad : list Z) (f addr : Z) : K st Z :=
  x <- getf f ;;;
  match f_type x with
  | FD_INODE | FD_DEVICE =>
      on_fs (ilock me (f_ip x)) ;;;
      sta <- on_fs (stati (f_ip x)) ;;;
      on_fs (iunlock me (f_ip x)) ;;;
      r <- on_fs (either_copyout true addr (stat_bytes pad sta)) ;;;
      if r <? 0 then ret (-1) else ret 0
  | _ => ret (-1)
  end.

(** devsw[major] when it is a device with that operation. *)
Definition device (table : Z → option (Z → Z → K (fsst (lst S)) Z)) (major : Z) : option (Z → Z → K (fsst (lst S)) Z) :=
  if (major <? 0) || (major >=? NDEV) then None else table major.

Definition pipe_end (pi : Z) (e : ending) : fend :=
  match e with Done r => FDone r | Sleep c i => FSleep pi c i end.

Definition fileread (killed : bool) (f addr n : Z) : K st fend :=
  x <- getf f ;;;
  if negb (f_readable x) then ret (FDone (-1))
  else match f_type x with
  | FD_PIPE => e <- on_pipe (f_pipe x) (piperead killed addr n) ;;; ret (pipe_end (f_pipe x) e)
  | FD_DEVICE =>
      match device dev_read (f_major x) with
      | None => ret (FDone (-1))
      | Some rd => r <- on_fs (rd addr n) ;;; ret (FDone r)
      end
  | FD_INODE =>
      on_fs (ilock me (f_ip x)) ;;;
      r <- on_fs (readi (f_ip x) true addr (f_off x) (u32 n)) ;;;
      (if 0 <? r then setf f (set_f_off (u32 (f_off x + r))) else ret tt) ;;;
      on_fs (iunlock me (f_ip x)) ;;;
      ret (FDone r)
  | FD_NONE => panic "fileread"
  end.

(** [((MAXOPBLOCKS-1-1-2) / 2) * BSIZE] *)
Definition max_write : Z := ((MAXOPBLOCKS - 1 - 1 - 2) / 2) * BSIZE.

(** One transaction of filewrite: [n1] bytes from [addr]. *)
Definition write_chunk (user : bool) (f addr n1 : Z) : K st Z :=
  x <- getf f ;;;
  begin_op_fs ;;;
  on_fs (ilock me (f_ip x)) ;;;
  r <- on_fs (writei (f_ip x) user addr (f_off x) n1) ;;;
  (if 0 <? r then setf f (set_f_off (u32 (f_off x + r))) else ret tt) ;;;
  on_fs (iunlock me (f_ip x)) ;;;
  end_op_fs ;;;
  ret r.

(** The loop over the transactions; every round but the last writes [n1] > 0
    bytes. *)
Definition write_chunks (user : bool) (f addr n : Z) : K st Z :=
  i <- iter (Datatypes.S (Z.to_nat n)) (λ i,
    if i <? n then
      let n1 := n - i in
      let n1 := if n1 >? max_write then max_write else n1 in
      r <- write_chunk user f (u64 (addr + i)) n1 ;;;
      if negb (r =? n1) then ret (inr i) else ret (inl (i + r))
    else ret (inr i)) 0 ;;;
  ret (if i =? n then n else -1).

(** filewrite and, with [user] false, kfilewrite: the two differ in where the
    bytes come from and in what kfilewrite prints. *)
Definition filewrite_from (user : bool) (say : string → K st unit) (killed : Z → bool) (f addr n : Z) : K st fend :=
  x <- getf f ;;;
  if negb (f_writable x) then say "First" ;;; ret (FDone (-1))
  else match f_type x with
  | FD_PIPE => e <- on_pipe (f_pipe x) (pipewrite killed addr n 0) ;;; ret (pipe_end (f_pipe x) e)
  | FD_DEVICE =>
      match device dev_write (f_major x) with
      | None => ret (FDone (-1))
      | Some wr => r <- on_fs (wr addr n) ;;; ret (FDone r)
      end
  | FD_INODE => r <- write_chunks user f addr n ;;; ret (FDone r)
  | FD_NONE => panic "filewrite"
  end.

Definition quiet (msg : string) : K st unit := ret tt.
Definition say (msg : string) : K st unit := on_fs (Fs.printf msg).

Definition filewrite : (Z → bool) → Z → Z → Z → K st fend := filewrite_from true quiet.
Definition kfilewrite : (Z → bool) → Z → Z → Z → K st fend := filewrite_from false say.

(** ** pipealloc *)

Definition pipealloc : K st (option (Z * Z)) :=
  let bad f0 f1 :=
    (if negb (f0 =? 0) then fileclose f0 else ret tt) ;;;
    (if negb (f1 =? 0) then fileclose f1 else ret tt) ;;;
    ret None in
  f0 <- filealloc ;;;
  if f0 =? 0 then bad 0 0
  else
    f1 <- filealloc ;;;
    if f1 =? 0 then bad f0 0
    else
      pi <- on_pages kalloc ;;;
      if pi =? 0 then bad f0 f1
      else
        modify (λ s, set_pipes (<[pi := pipe_init (replicate (Z.to_nat PIPESIZE) 5)]> (pipes s)) (pwoken s) s) ;;;
        setf f0 (λ f, set_f_pipe pi (set_f_mode true false (set_f_type FD_PIPE f))) ;;;
        setf f1 (λ f, set_f_pipe pi (set_f_mode false true (set_f_type FD_PIPE f))) ;;;
        ret (Some (f0, f1)).

(** ** The descriptors of the running process *)

Definition fdalloc (f : Z) : K st Z :=
  iter (Datatypes.S (Z.to_nat NOFILE)) (λ fd,
    if fd <? NOFILE then
      l <- gets ofile ;;;
      match l !! Z.to_nat fd with
      | None => ub "ofile: index out of bounds"
      | Some x =>
          if x =? 0 then modify (set_ofile (<[Z.to_nat fd := f]> l)) ;;; ret (inr fd) else ret (inl (fd + 1))
      end
    else ret (inr (-1))) 0.

(** ** create and open *)

(** The local variables [struct dirent de] and [char name[DIRSIZ]] of the
    functions called, and the strings "." and "..". *)
Context (de_at name_at dot_at dotdot_at : Z).

(** [ip->major = major; ip->minor = minor; ip->nlink = 1] *)
Definition init_node (major minor : Z) (i : inode) : inode :=
  set_meta (i_type i) major minor 1 (i_size i) i.

(** The create of sysfile.c and of file_helper.c, which prints. *)
Definition create_saying (say : string → K (fsst (lst S)) unit) (path type major minor : Z) : K (fsst (lst S)) Z :=
  dp <- nameiparent me de_at path name_at ;;;
  if dp =? 0 then ret 0
  else
    ilock me dp ;;;
    found <- dirlookup de_at dp name_at ;;;
    let ip := found.1 in
    if negb (ip =? 0) then
      iunlockput me dp ;;;
      ilock me ip ;;;
      i <- geti ip ;;;
      if (type =? T_FILE) && ((i_type i =? T_FILE) || (i_type i =? T_DEVICE)) then ret ip
      else iunlockput me ip ;;; ret 0
    else
      d <- geti dp ;;;
      ip <- ialloc (i_dev d) type ;;;
      if ip =? 0 then iunlockput me dp ;;; ret 0
      else
        ilock me ip ;;;
        seti ip (init_node major minor) ;;;
        iupdate ip ;;;
        let fail :=
          say "actually fails" ;;;
          seti ip (set_nlink 0) ;;;
          iupdate ip ;;;
          iunlockput me ip ;;;
          iunlockput me dp ;;;
          ret 0 in
        bad <- (if type =? T_DIR then
                  i <- geti ip ;;;
                  r <- dirlink me de_at ip dot_at (i_inum i) ;;;
                  if r <? 0 then ret true
                  else
                    d <- geti dp ;;;
                    r <- dirlink me de_at ip dotdot_at (i_inum d) ;;;
                    ret (r <? 0)
                else ret false) ;;;
        if bad : bool then fail
        else
          i <- geti ip ;;;
          r <- dirlink me de_at dp name_at (i_inum i) ;;;
          if r <? 0 then fail
          else
            (if type =? T_DIR then seti dp (λ d, set_nlink (s16 (i_nlink d + 1)) d) ;;; iupdate dp else ret tt) ;;;
            iunlockput me dp ;;;
            say "Successfully Created" ;;;
            ret ip.

(** create of file_helper.c. *)
Definition create : Z → Z → Z → Z → K (fsst (lst S)) Z := create_saying Fs.printf.

(** [if(f) fileclose(f); iunlockput(ip); end_op();] *)
Definition open_undo (f ip : Z) : K st unit :=
  (if negb (f =? 0) then fileclose f else ret tt) ;;;
  on_fs (iunlockput me ip) ;;;
  end_op_fs.

(** filealloc and fdalloc of an open: the file and its descriptor, [None]
    when either is not to be had and what was taken has been given back. *)
Definition open_slot (ip : Z) : K st (option (Z * Z)) :=
  f <- filealloc ;;;
  if f =? 0 then open_undo f ip ;;; ret None
  else
    fd <- fdalloc f ;;;
    if fd <? 0 then open_undo f ip ;;; ret None else ret (Some (f, fd)).

(** open of file_helper.c: the kernel's own open, -1 for an error. *)
Definition open (filename omode : Z) : K st Z :=
  m <- gets (λ s, kmem (fsys s)) ;;;
  match strlen path_fuel m filename with
  | None => ub "strlen: no terminating NUL"
  | Some n =>
    if n <? 0 then ret (-1)
    else
      begin_op_fs ;;;
      ip <- (if negb (Z.land omode O_CREATE =? 0) then
               say "CREATING" ;;;
               ip <- on_fs (create filename T_FILE 0 0) ;;;
               if ip =? 0 then say "Create Broke" ;;; end_op_fs ;;; ret 0 else ret ip
             else
               say "EXSITS ALREADY" ;;;
               ip <- on_fs (namei me de_at name_at filename) ;;;
               if ip =? 0 then end_op_fs ;;; say "OOPs" ;;; ret 0
               else
                 on_fs (ilock me ip) ;;;
                 i <- on_fs (geti ip) ;;;
                 if (i_type i =? T_DIR) && negb (omode =? O_RDONLY) then
                   on_fs (iunlockput me ip) ;;; end_op_fs ;;; ret 0
                 else ret ip) ;;;
      if ip =? 0 then ret (-1)
      else
        say "1" ;;;
        i <- on_fs (geti ip) ;;;
        if (i_type i =? T_DEVICE) && ((i_major i <? 0) || (i_major i >=? NDEV)) then
          on_fs (iunlockput me ip) ;;; end_op_fs ;;; ret (-1)
        else
          say "2" ;;;
          slot <- open_slot ip ;;;
          match slot with
          | None => ret (-1)
          | Some (f, _) =>
              say "3" ;;;
              setf f (λ x, set_f_mode (Z.land omode O_WRONLY =? 0) (negb (O_WRONLY =? 0))
                             (set_f_ip ip (set_f_off 0 (set_f_type FD_INODE x)))) ;;;
              i <- on_fs (geti ip) ;;;
              (if negb (Z.land omode O_TRUNC =? 0) && (i_type i =? T_FILE) then on_fs (itrunc ip) else ret tt) ;;;
              say "4" ;;;
              on_fs (iunlock me ip) ;;;
              end_op_fs ;;;
              say "5" ;;;
              ret f
          end
  end.
End File.
