(* ===== verification/SysFile.v ===== *)
(** kernel/sysfile.c: the system calls on files, with fetchstr and argstr of
    kernel/syscall.c, and write_to_logs of kernel/audit_source.c with the
    kernel's own open.

    [tf] holds the arguments of the call.  The path and name buffers and the
    directory entries on the kernel stack are addresses in kernel memory,
    collected in [frame].  sys_exec is not here. *)

From S2P Require Import Prelude Mem CString Riscv Spinlock Kalloc Ring Pipe BlockCache Log TxnStore LogStore Fs File Syscall.
Local Open Scope kernel_scope.

(** The addresses of the local variables of a call, and of the constant
    strings "." and "..". *)
Record frame := mkFrame {
  path_at : Z; old_at : Z; new_at : Z; name_at : Z; nm_at : Z; de_at : Z; ude_at : Z; ede_at : Z;
  dot_at : Z; dotdot_at : Z
}.

Section SysFile.
Context {S : Type} `{BC : !BlockCache S} (me kend : Z) (dev_read dev_write : Z → option (Z → Z → K (fsst (lst S)) Z)).
Context (fr : frame) (tf : trapframe).
Abbreviation st := (ofst S).
Abbreviation fst_ := (fsst (lst S)).
#[local] Instance sys_log : TxnStore (lst S) := log_store me ∅ [] 1 0 0.

(** ** Arguments *)

(** argraw for the arguments that the calls have. *)
Definition arg (n : Z) : Z := if n =? 0 then a0 tf else if n =? 1 then a1 tf else a2 tf.
Definition arg_int (n : Z) : Z := s32 (arg n).

(** The descriptor and its file. *)
Definition arg_fd (n : Z) : K st (option (Z * Z)) :=
  let fd := arg_int n in
  if (fd <? 0) || (fd >=? NOFILE) then ret None
  else
    l <- gets File.ofile ;;;
    match l !! Z.to_nat fd with
    | None => ub "ofile: index out of bounds"
    | Some f => if f =? 0 then ret None else ret (Some (fd, f))
    end.

(** copyinstr on the bytes of user memory: the kernel memory after, and
    whether a NUL was found among the first [max] bytes. *)
Fixpoint copyinstr_bytes (um : gmap Z Z) (m : mem) (dst src : Z) (max : nat) : mem * bool :=
  match max with
  | O => (m, false)
  | Datatypes.S max' =>
      match um !! u64 src with
      | None => (m, false)
      | Some c =>
          if c =? 0 then (wr8 m dst 0, true) else copyinstr_bytes um (wr8 m dst c) (dst + 1) (src + 1) max'
      end
  end.

Definition fetchstr (addr buf max : Z) : K fst_ Z :=
  um <- gets umem ;;;
  m <- gets kmem ;;;
  let '(m', ok) := copyinstr_bytes um m buf addr (Z.to_nat max) in
  modify (set_kmem m') ;;;
  if negb ok then ret (-1)
  else match strlen (Z.to_nat max) m' buf with
       | Some n => ret n
       | None => ub "strlen: no terminating NUL"
       end.

Definition argstr (n buf max : Z) : K st Z := on_fs (fetchstr (arg n) buf max).

(** ** Calls on descriptors *)

Definition sys_dup : K st Z :=
  r <- arg_fd 0 ;;;
  match r with
  | None => ret (-1)
  | Some (_, f) =>
      fd <- fdalloc f ;;;
      if fd <? 0 then ret (-1) else filedup f ;;; ret fd
  end.

Definition sys_read (killed : bool) : K st fend :=
  r <- arg_fd 0 ;;;
  match r with
  | None => ret (FDone (-1))
  | Some (_, f) => fileread me kend dev_read killed f (arg 1) (arg_int 2)
  end.

Definition sys_write (killed : Z → bool) : K st fend :=
  r <- arg_fd 0 ;;;
  match r with
  | None => ret (FDone (-1))
  | Some (_, f) => filewrite me kend dev_write killed f (arg 1) (arg_int 2)
  end.

Definition sys_close : K st Z :=
  r <- arg_fd 0 ;;;
  match r with
  | None => ret (-1)
  | Some (fd, f) =>
      modify (λ s, set_ofile (<[Z.to_nat fd := 0]> (File.ofile s)) s) ;;;
      fileclose me kend f ;;;
      ret 0
  end.

Definition sys_fstat (pad : list Z) : K st Z :=
  r <- arg_fd 0 ;;;
  match r with
  | None => ret (-1)
  | Some (_, f) => filestat me pad f (arg 1)
  end.

(** ** Links *)

Definition sys_link : K st Z :=
  r <- argstr 0 (old_at fr) MAXPATH ;;;
  if r <? 0 then ret (-1)
  else
    r <- argstr 1 (new_at fr) MAXPATH ;;;
    if r <? 0 then ret (-1)
    else
      begin_op_fs ;;;
      ip <- on_fs (namei me (de_at fr) (nm_at fr) (old_at fr)) ;;;
      if ip =? 0 then end_op_fs me ;;; ret (-1)
      else
        on_fs (ilock me ip) ;;;
        i <- on_fs (geti ip) ;;;
        if i_type i =? T_DIR then on_fs (iunlockput me ip) ;;; end_op_fs me ;;; ret (-1)
        else
          on_fs (seti ip (λ i, set_nlink (s16 (i_nlink i + 1)) i) ;;; iupdate ip ;;; iunlock me ip) ;;;
          let bad :=
            on_fs (ilock me ip ;;; seti ip (λ i, set_nlink (s16 (i_nlink i - 1)) i) ;;; iupdate ip ;;; iunlockput me ip) ;;;
            end_op_fs me ;;;
            ret (-1) in
          dp <- on_fs (nameiparent me (de_at fr) (new_at fr) (name_at fr)) ;;;
          if dp =? 0 then bad
          else
            on_fs (ilock me dp) ;;;
            d <- on_fs (geti dp) ;;;
            i <- on_fs (geti ip) ;;;
            r <- (if negb (i_dev d =? i_dev i) then ret (-1)
                  else on_fs (dirlink me (de_at fr) dp (name_at fr) (i_inum i))) ;;;
            if r <? 0 then on_fs (iunlockput me dp) ;;; bad
            else
              on_fs (iunlockput me dp) ;;;
              on_fs (iput me ip) ;;;
              end_op_fs me ;;;
              ret 0.

(** [off] is an int compared with the unsigned size. *)
Definition isdirempty (dp : Z) : K fst_ bool :=
  i <- geti dp ;;;
  iter (Datatypes.S (Z.to_nat (i_size i / sizeof_dirent + 1))) (λ off,
    i <- geti dp ;;;
    if off <? i_size i then
      r <- readi dp false (ede_at fr) off sizeof_dirent ;;;
      if negb (r =? sizeof_dirent) then panic "isdirempty: readi"
      else
        m <- gets kmem ;;;
        if negb (rd16 m (ede_at fr) =? 0) then ret (inr false) else ret (inl (off + sizeof_dirent))
    else ret (inr true)) (2 * sizeof_dirent).

Definition sys_unlink : K st Z :=
  r <- argstr 0 (path_at fr) MAXPATH ;;;
  if r <? 0 then ret (-1)
  else
    begin_op_fs ;;;
    dp <- on_fs (nameiparent me (de_at fr) (path_at fr) (name_at fr)) ;;;
    if dp =? 0 then end_op_fs me ;;; ret (-1)
    else
      let bad := on_fs (iunlockput me dp) ;;; end_op_fs me ;;; ret (-1) in
      on_fs (ilock me dp) ;;;
      m <- gets (λ s, kmem (fsys s)) ;;;
      if (namecmp m (name_at fr) (dot_at fr) =? 0) || (namecmp m (name_at fr) (dotdot_at fr) =? 0) then bad
      else
        found <- on_fs (dirlookup (de_at fr) dp (name_at fr)) ;;;
        let '(ip, off) := found in
        if ip =? 0 then bad
        else
          on_fs (ilock me ip) ;;;
          i <- on_fs (geti ip) ;;;
          if i_nlink i <? 1 then panic "unlink: nlink < 1"
          else
            full <- (if i_type i =? T_DIR then e <- on_fs (isdirempty ip) ;;; ret (negb e) else ret false) ;;;
            if full : bool then on_fs (iunlockput me ip) ;;; bad
            else
              r <- on_fs (modify (λ s, set_kmem (memset (kmem s) (ude_at fr) 0 sizeof_dirent) s) ;;;
                          writei dp false (ude_at fr) off sizeof_dirent) ;;;
              if negb (r =? sizeof_dirent) then panic "unlink: writei"
              else
                i <- on_fs (geti ip) ;;;
                on_fs (if i_type i =? T_DIR then
                         seti dp (λ d, set_nlink (s16 (i_nlink d - 1)) d) ;;; iupdate dp
                       else ret tt) ;;;
                on_fs (iunlockput me dp) ;;;
                on_fs (seti ip (λ i, set_nlink (s16 (i_nlink i - 1)) i) ;;; iupdate ip ;;; iunlockput me ip) ;;;
                end_op_fs me ;;;
                ret 0.

(** ** Open, mkdir, mknod, chdir *)

(** create of sysfile.c. *)
Definition create_quiet : Z → Z → Z → Z → K fst_ Z :=
  create_saying me (de_at fr) (name_at fr) (dot_at fr) (dotdot_at fr) (λ _, ret tt).

Definition sys_open : K st Z :=
  let omode := arg_int 1 in
  n <- argstr 0 (path_at fr) MAXPATH ;;;
  if n <? 0 then ret (-1)
  else
    begin_op_fs ;;;
    ip <- (if negb (Z.land omode O_CREATE =? 0) then
             ip <- on_fs (create_quiet (path_at fr) T_FILE 0 0) ;;;
             if ip =? 0 then end_op_fs me ;;; ret 0 else ret ip
           else
             ip <- on_fs (namei me (de_at fr) (nm_at fr) (path_at fr)) ;;;
             if ip =? 0 then end_op_fs me ;;; ret 0
             else
               on_fs (ilock me ip) ;;;
               i <- on_fs (geti ip) ;;;
               if (i_type i =? T_DIR) && negb (omode =? O_RDONLY) then
                 on_fs (iunlockput me ip) ;;; end_op_fs me ;;; ret 0
               else ret ip) ;;;
    if ip =? 0 then ret (-1)
    else
      i <- on_fs (geti ip) ;;;
      if (i_type i =? T_DEVICE) && ((i_major i <? 0) || (i_major i >=? NDEV)) then
        on_fs (iunlockput me ip) ;;; end_op_fs me ;;; ret (-1)
      else
        slot <- open_slot me kend ip ;;;
        match slot with
        | None => ret (-1)
        | Some (f, fd) =>
            i <- on_fs (geti ip) ;;;
            setf f (λ x, if i_type i =? T_DEVICE then set_f_major (i_major i) (set_f_type FD_DEVICE x)
                         else set_f_off 0 (set_f_type FD_INODE x)) ;;;
            setf f (λ x, set_f_mode (Z.land omode O_WRONLY =? 0)
                           (negb (Z.land omode O_WRONLY =? 0) || negb (Z.land omode O_RDWR =? 0)) (set_f_ip ip x)) ;;;
            (if negb (Z.land omode O_TRUNC =? 0) && (i_type i =? T_FILE) then on_fs (itrunc ip) else ret tt) ;;;
            on_fs (iunlock me ip) ;;;
            end_op_fs me ;;;
            ret fd
        end.

(** sys_mkdir and sys_mknod. *)
Definition make_node (type major minor : Z) : K st Z :=
  begin_op_fs ;;;
  n <- argstr 0 (path_at fr) MAXPATH ;;;
  ip <- (if n <? 0 then ret 0 else on_fs (create_quiet (path_at fr) type major minor)) ;;;
  if ip =? 0 then end_op_fs me ;;; ret (-1)
  else on_fs (iunlockput me ip) ;;; end_op_fs me ;;; ret 0.

Definition sys_mkdir : K st Z := make_node T_DIR 0 0.
Definition sys_mknod : K st Z := make_node T_DEVICE (s16 (arg_int 1)) (s16 (arg_int 2)).

Definition set_cwd (x : Z) (s : fst_) : fst_ :=
  mkF (store s) (sb s) (it_lock s) (inodes s) (kmem s) (umem s) (printed s) x.

Definition sys_chdir : K st Z :=
  begin_op_fs ;;;
  n <- argstr 0 (path_at fr) MAXPATH ;;;
  ip <- (if n <? 0 then ret 0 else on_fs (namei me (de_at fr) (nm_at fr) (path_at fr))) ;;;
  if ip =? 0 then end_op_fs me ;;; ret (-1)
  else
    on_fs (ilock me ip) ;;;
    i <- on_fs (geti ip) ;;;
    if negb (i_type i =? T_DIR) then on_fs (iunlockput me ip) ;;; end_op_fs me ;;; ret (-1)
    else
      on_fs (iunlock me ip) ;;;
      on_fs (c <- gets cwd ;;; iput me c) ;;;
      end_op_fs me ;;;
      on_fs (modify (set_cwd ip)) ;;;
      ret 0.

(** ** Pipes *)

(** [p->ofile[fd] = 0] *)
Definition drop_fd (fd : Z) : K st unit :=
  modify (λ s, set_ofile (<[Z.to_nat fd := 0]> (File.ofile s)) s).

(** The four bytes of an int. *)
Definition int_bytes (x : Z) : list Z := rd_bytes (wr32 ∅ 0 (u32 x)) 0 4.

Definition sys_pipe : K st Z :=
  let fdarray := arg 0 in
  p <- pipealloc me kend ;;;
  match p with
  | None => ret (-1)
  | Some (rf, wf) =>
      let close := fileclose me kend rf ;;; fileclose me kend wf ;;; ret (-1) in
      fd0 <- fdalloc rf ;;;
      if fd0 <? 0 then close
      else
        fd1 <- fdalloc wf ;;;
        if fd1 <? 0 then drop_fd fd0 ;;; close
        else
          r <- on_fs (either_copyout true fdarray (int_bytes fd0)) ;;;
          r <- (if r <? 0 then ret r else on_fs (either_copyout true (u64 (fdarray + 4)) (int_bytes fd1))) ;;;
          if r <? 0 then drop_fd fd0 ;;; drop_fd fd1 ;;; close else ret 0
  end.

(** ** fork and exit: the descriptors *)

(** [if(p->ofile[i]) np->ofile[i] = filedup(p->ofile[i])] for every [i]: the
    child's table. *)
Definition fork_ofile : K st (list Z) :=
  l <- gets File.ofile ;;;
  iter (Datatypes.S (length l)) (λ '(i, nl),
    match l !! i with
    | None => ret (inr nl)
    | Some f =>
        f' <- (if negb (f =? 0) then filedup f else ret 0) ;;;
        ret (inl (Datatypes.S i, nl ++ [f']))
    end) (O, []).

(** The loop of exit over the descriptors. *)
Definition exit_ofile : K st unit :=
  iter (Datatypes.S (Z.to_nat NOFILE)) (λ fd,
    if fd <? NOFILE then
      l <- gets File.ofile ;;;
      (match l !! Z.to_nat fd with
       | None => ub "ofile: index out of bounds"
       | Some f => if negb (f =? 0) then fileclose me kend f ;;; drop_fd fd else ret tt
       end) ;;;
      ret (inl (fd + 1))
    else ret (inr tt)) 0.

(** ** The audit log's file *)

(** The static variables of audit_source.c. *)
Record alog := mkAlog { a_opened : bool; a_file : Z; a_kernel : st }.

Definition on_kernel {A} (m : K st A) : K alog A :=
  zoom a_kernel (λ k a, mkAlog (a_opened a) (a_file a) k) m.

(** [filename] is the address of "/AuditLogs.txt". *)
Definition log_to_file (filename : Z) (killed : Z → bool) (buf : Z) : K alog unit :=
  op <- gets a_opened ;;;
  (if negb op then
     f <- on_kernel (open me kend (de_at fr) (name_at fr) (dot_at fr) (dotdot_at fr) filename O_CREATE) ;;;
     modify (λ a, mkAlog true f (a_kernel a))
   else ret tt) ;;;
  f <- gets a_file ;;;
  if f =? -1 then panic "ERROR FILE"
  else if f =? 0 then panic "No File"
  else
    on_kernel (say "6") ;;;
    m <- gets (λ a, kmem (fsys (a_kernel a))) ;;;
    match strlen (Z.to_nat BUFF_SIZE) m buf with
    | None => ub "strlen: no terminating NUL"
    | Some n => on_kernel (kfilewrite me kend dev_write killed f buf n) ;;; ret tt
    end.
End SysFile.
