(* ===== verification/FileSpec.v ===== *)
(** Open files, descriptors and pipes stay consistent.

    The invariant [finv] counts, for every open file, the descriptors that
    refer to it, and ties the pipes to the files that are their ends.  It is
    preserved by every system call of sysfile.c, fork and exit, for any number
    of processes. *)

From S2P Require Import Prelude Mem CString Riscv Spinlock Kalloc Ring Pipe BlockCache Log TxnStore LogStore Fs File Syscall SysFile.
Local Open Scope kernel_scope.

(** ** Counting *)

(** How often [f] occurs in a descriptor table. *)
Definition cnt (f : Z) (l : list Z) : Z := zlen (filter (.= f) l).

Lemma cnt_cons f x l : cnt f (x :: l) = (if decide (x = f) then 1 else 0) + cnt f l.
Proof. unfold cnt. rewrite filter_cons. case_decide; simpl length; lia. Qed.
Lemma cnt_app f l k : cnt f (l ++ k) = cnt f l + cnt f k.
Proof. unfold cnt. rewrite filter_app, length_app. lia. Qed.
Lemma cnt_nonneg f l : 0 <= cnt f l.
Proof. unfold cnt. lia. Qed.
Lemma cnt_le f l : cnt f l <= zlen l.
Proof. unfold cnt. pose proof (length_filter (.= f) l). lia. Qed.
Lemma cnt_insert f l i x y :
  l !! i = Some x →
  cnt f (<[i := y]> l) = cnt f l - (if decide (x = f) then 1 else 0) + (if decide (y = f) then 1 else 0).
Proof.
  intros H. rewrite <-(take_drop_middle l i x H) at 2.
  rewrite (insert_take_drop _ _ _ (lookup_lt_Some _ _ _ H)), !cnt_app, !cnt_cons. lia.
Qed.
Lemma cnt_pos f l i : l !! i = Some f → 1 <= cnt f l.
Proof.
  intros H. rewrite <-(take_drop_middle l i f H), cnt_app, cnt_cons, decide_True by done.
  pose proof (cnt_nonneg f (take i l)). pose proof (cnt_nonneg f (drop (S i) l)). lia.
Qed.
Lemma cnt_replicate f n : f ≠ 0 → cnt f (replicate n 0) = 0.
Proof. intros. induction n as [|n IH]; [done|]. simpl. rewrite cnt_cons, IH, decide_False by congruence. done. Qed.

(** One reference more or less to [f]. *)
Definition add_ref (f d : Z) (ext : Z → Z) (g : Z) : Z := ext g + (if decide (g = f) then d else 0).

(** ** The invariant *)

Definition pipe_end_open (w : bool) (p : pipe) : bool := if w then writeopen p else readopen p.

(** [x] is the entry of the file [f]. *)
Definition is_file (ft : list file) (f : Z) (x : file) : Prop := 1 <= f ∧ ft !! fidx f = Some x.

(** [ext f] is the number of references to [f] held outside of [ofl]; the
    files in [fresh] have been allocated and not yet been given a type. *)
Record finv (kend : Z) (ext : Z → Z) (fresh : gset Z) (lk : bool) (ft : list file) (ofl : list Z)
    (pp : gmap Z pipe) (pg : kst) : Prop := mkFinv {
  fi_lock : lk = false;
  fi_len : zlen ft = NFILE;
  fi_ofile : zlen ofl = NOFILE ∧ Forall (λ f, 0 <= f <= NFILE) ofl;
  fi_ext : ∀ f, 0 <= ext f;
  fi_ref : ∀ f x, is_file ft f x → f_ref x = ext f + cnt f ofl;
  fi_none : ∀ f x, is_file ft f x → f_type x = FD_NONE ↔ (f_ref x = 0 ∨ f ∈ fresh);
  fi_pipe : ∀ f x, is_file ft f x → f_type x = FD_PIPE →
    f_readable x = negb (f_writable x) ∧
    ∃ p, pp !! f_pipe x = Some p ∧ pipe_end_open (f_writable x) p = true;
  fi_uniq : ∀ f g x y, is_file ft f x → is_file ft g y → f_type x = FD_PIPE → f_type y = FD_PIPE →
    f_pipe x = f_pipe y → f_writable x = f_writable y → f = g;
  fi_held : ∀ a p w, pp !! a = Some p → pipe_end_open w p = true →
    ∃ f x, is_file ft f x ∧ f_type x = FD_PIPE ∧ f_pipe x = a ∧ f_writable x = w;
  fi_live : ∀ a p, pp !! a = Some p →
    (readopen p = true ∨ writeopen p = true) ∧ plock p = false ∧ ∃ q, pring p q;
  fi_pages : ∃ l, kinv kend pg l ∧ ∀ a, is_Some (pp !! a) → page_ok kend a ∧ a ∉ l
}.

Section FileSpec.
Context {S : Type} `{BC : !BlockCache S} (kend : Z).
Abbreviation st := (ofst S).

Definition FI (ext : Z → Z) (fresh : gset Z) (s : st) : Prop :=
  finv kend ext fresh (ft_lock s) (ftable s) (File.ofile s) (pipes s) (pages s).

Lemma fidx_inj f g : 1 <= f → 1 <= g → fidx f = fidx g → f = g.
Proof. unfold fidx. lia. Qed.

Lemma is_file_range ext fresh s f x : FI ext fresh s → is_file (ftable s) f x → 1 <= f <= NFILE.
Proof.
  intros H [? Hx]. pose proof (fi_len _ _ _ _ _ _ _ _ H). apply lookup_lt_Some in Hx. unfold fidx in Hx. lia.
Qed.
Lemma is_file_ex ext fresh s f : FI ext fresh s → 1 <= f <= NFILE → ∃ x, is_file (ftable s) f x.
Proof.
  intros H Hf. pose proof (fi_len _ _ _ _ _ _ _ _ H).
  destruct (lookup_lt_is_Some_2 (ftable s) (fidx f)) as [x Hx]; [unfold fidx; lia|].
  exists x. split; [lia|done].
Qed.

(** The entry of a file after an update of the table. *)
Lemma is_file_insert ft f g x y :
  is_file (<[fidx f := y]> ft) g x → 1 <= f → (g = f ∧ x = y) ∨ (g ≠ f ∧ is_file ft g x).
Proof.
  intros [Hg Hx] Hf. apply list_insert_cases in Hx as [[E ->]|[E Hx]].
  - left. split; [|done]. by apply fidx_inj.
  - right. split; [by intros ->|done].
Qed.
Lemma is_file_insert_ne ft f g x y : is_file ft g x → 1 <= f → g ≠ f → is_file (<[fidx f := y]> ft) g x.
Proof.
  intros [Hg Hx] Hf Hne. split; [done|]. rewrite list_lookup_insert_ne; [done|].
  intros E. apply Hne. by apply fidx_inj.
Qed.
Lemma is_file_insert_eq ft f x y : is_file ft f x → is_file (<[fidx f := y]> ft) f y.
Proof. intros [Hf Hx]. split; [done|]. apply list_lookup_insert_eq. by eapply lookup_lt_Some. Qed.
Lemma is_file_fun ft f x y : is_file ft f x → is_file ft f y → x = y.
Proof. intros [_ H1] [_ H2]. congruence. Qed.

(** ** Updates that preserve the invariant *)

(** References move between [ofl] and the other holders. *)
Lemma finv_move ext ext' fresh lk ft ofl ofl' pp pg :
  finv kend ext fresh lk ft ofl pp pg →
  (∀ g, 1 <= g <= NFILE → ext' g + cnt g ofl' = ext g + cnt g ofl) → (∀ g, 0 <= ext' g) →
  zlen ofl' = NOFILE → Forall (λ f, 0 <= f <= NFILE) ofl' →
  finv kend ext' fresh lk ft ofl' pp pg.
Proof.
  intros [] He H0 Hl Hr. constructor; try done. intros f x Hx. rewrite He; [auto|].
  destruct Hx as [? Hx]. apply lookup_lt_Some in Hx. unfold fidx in Hx. lia.
Qed.

(** The entry of [f] changes, but not as an end of a pipe. *)
Lemma finv_update ext ext' fresh fresh' lk ft ofl pp pg f x y :
  finv kend ext fresh lk ft ofl pp pg → is_file ft f x →
  (∀ g, g ≠ f → ext' g = ext g) → 0 <= ext' f → f_ref y = ext' f + cnt f ofl →
  (∀ g, g ≠ f → g ∈ fresh' ↔ g ∈ fresh) → (f_type y = FD_NONE ↔ (f_ref y = 0 ∨ f ∈ fresh')) →
  (f_type y = FD_PIPE ↔ f_type x = FD_PIPE) →
  (f_type x = FD_PIPE → f_pipe y = f_pipe x ∧ f_writable y = f_writable x ∧ f_readable y = f_readable x) →
  finv kend ext' fresh' lk (<[fidx f := y]> ft) ofl pp pg.
Proof.
  intros I Hf He H0 Hr Hfr Hn Ht Hp. pose proof Hf as [Hf1 _]. destruct I as [? Hlen ? Hext Href Hnone Hpipe Huniq Hheld Hlive Hpg].
  (* an end of a pipe after the update is one before *)
  assert (Hback : ∀ g z, is_file (<[fidx f := y]> ft) g z → f_type z = FD_PIPE →
    ∃ z', is_file ft g z' ∧ f_type z' = FD_PIPE ∧ f_pipe z' = f_pipe z ∧ f_writable z' = f_writable z ∧ f_readable z' = f_readable z).
  { intros g z Hz Hzp. apply is_file_insert in Hz as [[-> ->]|[_ Hz]]; [|by exists z|done].
    apply Ht in Hzp as Hxp. destruct (Hp Hxp) as (? & ? & ?). exists x. by split_and!. }
  constructor; try done.
  - by rewrite length_insert.
  - intros g. destruct (decide (g = f)) as [->|]; [done|]. rewrite He by done. apply Hext.
  - intros g z Hz. apply is_file_insert in Hz as [[-> ->]|[Hne Hz]]; [done| |done]. rewrite He by done. auto.
  - intros g z Hz. apply is_file_insert in Hz as [[-> ->]|[Hne Hz]]; [done| |done]. rewrite Hfr by done. auto.
  - intros g z Hz Hzp. destruct (Hback g z Hz Hzp) as (z' & Hz' & Hzp' & <- & <- & <-). by eapply Hpipe.
  - intros g h z w Hz Hw Hzp Hwp E1 E2. destruct (Hback g z Hz Hzp) as (z' & Hz' & ? & ? & ? & ?).
    destruct (Hback h w Hw Hwp) as (w' & Hw' & ? & ? & ? & ?). eapply (Huniq g h z' w'); congruence.
  - intros a p w Ha Hw. destruct (Hheld a p w Ha Hw) as (g & z & Hz & Hzp & <- & <-).
    destruct (decide (g = f)) as [->|Hne].
    + assert (z = x) as -> by by eapply is_file_fun. destruct (Hp Hzp) as (? & ? & ?).
      exists f, y. split_and!; [by eapply is_file_insert_eq|by apply Ht|done|done].
    + exists g, z. split_and!; [by apply is_file_insert_ne|done|done|done].
Qed.

(** The last reference to an end of a pipe goes: the other end stays. *)
Lemma finv_close_end ext ext' fresh lk ft ofl pp pg f x y p p' :
  finv kend ext fresh lk ft ofl pp pg → is_file ft f x → f_type x = FD_PIPE →
  (∀ g, g ≠ f → ext' g = ext g) → ext' f = 0 → cnt f ofl = 0 → f_ref y = 0 → f_type y = FD_NONE →
  pp !! f_pipe x = Some p → pipe_end_open (f_writable x) p' = false →
  pipe_end_open (negb (f_writable x)) p' = pipe_end_open (negb (f_writable x)) p →
  pipe_end_open (negb (f_writable x)) p' = true → plock p' = false → (∃ q, pring p' q) →
  finv kend ext' fresh lk (<[fidx f := y]> ft) ofl (<[f_pipe x := p']> pp) pg.
Proof.
  intros I Hf Hxp He H0 Hc Hr Ht Hpp Hcl Hsame Hop Hlk Hq. pose proof Hf as [Hf1 _].
  destruct I as [? Hlen ? Hext Href Hnone Hpipe Huniq Hheld Hlive Hpg].
  assert (Hback : ∀ g z, is_file (<[fidx f := y]> ft) g z → f_type z = FD_PIPE → g ≠ f ∧ is_file ft g z).
  { intros g z Hz Hzp. apply is_file_insert in Hz as [[-> ->]|Hz]; [congruence|done|done]. }
  constructor; try done.
  - by rewrite length_insert.
  - intros g. destruct (decide (g = f)) as [->|]; [lia|]. rewrite He by done. apply Hext.
  - intros g z Hz. apply is_file_insert in Hz as [[-> ->]|[Hne Hz]]; [lia| |done]. rewrite He by done. auto.
  - intros g z Hz. apply is_file_insert in Hz as [[-> ->]|[Hne Hz]]; [by rewrite Ht, Hr; naive_solver|by auto|done].
  - intros g z Hz Hzp. destruct (Hback g z Hz Hzp) as [Hne Hz']. destruct (Hpipe g z Hz' Hzp) as (? & q & Hq1 & Hq2).
    split; [done|]. destruct (decide (f_pipe z = f_pipe x)) as [E|E].
    + exists p'. rewrite E, lookup_insert_eq. split; [done|].
      destruct (decide (f_writable z = f_writable x)) as [Ew|Ew]; [by destruct Hne; eapply Huniq|].
      replace (f_writable z) with (negb (f_writable x)); [done|]. by destruct (f_writable z), (f_writable x).
    + exists q. by rewrite lookup_insert_ne.
  - intros g h z w Hz Hw Hzp Hwp. destruct (Hback g z Hz Hzp), (Hback h w Hw Hwp). by eapply Huniq.
  - intros a q w Ha Hw. assert (∃ q0, pp !! a = Some q0 ∧ pipe_end_open w q0 = true ∧ (a = f_pipe x → w = negb (f_writable x))) as (q0 & Ha0 & Hw0 & Hwx).
    { apply lookup_insert_Some in Ha as [[<- <-]|[Hne Ha]]; [|by exists q; split_and!].
      assert (w = negb (f_writable x)) as -> by (destruct w, (f_writable x); simpl in *; congruence).
      exists p. by rewrite <-Hsame. }
    destruct (Hheld a q0 w Ha0 Hw0) as (g & z & Hz & Hzp & Ez & Ew). exists g, z. split_and!; [|done|done|done].
    apply is_file_insert_ne; [done|done|]. intros ->. assert (z = x) as -> by by eapply is_file_fun.
    rewrite Hwx in Ew by done. by destruct (f_writable x).
  - intros a q Ha. apply lookup_insert_Some in Ha as [[<- <-]|[Hne Ha]]; [|by eapply Hlive].
    split_and!; [|done|done]. destruct (f_writable x); simpl in *; auto.
  - destruct Hpg as (l & Hk & Hl). exists l. split; [done|]. intros a Ha. apply Hl.
    destruct (decide (a = f_pipe x)) as [->|]; [by rewrite Hpp|]. by rewrite lookup_insert_ne in Ha.
Qed.

(** The last reference to the last end of a pipe goes, and its page with it. *)
Lemma finv_free_pipe ext ext' fresh lk ft ofl pp pg pg' f x y p :
  finv kend ext fresh lk ft ofl pp pg → is_file ft f x → f_type x = FD_PIPE →
  (∀ g, g ≠ f → ext' g = ext g) → ext' f = 0 → cnt f ofl = 0 → f_ref y = 0 → f_type y = FD_NONE →
  pp !! f_pipe x = Some p → pipe_end_open (negb (f_writable x)) p = false →
  (∀ l, kinv kend pg l → page_ok kend (f_pipe x) → f_pipe x ∉ l → kinv kend pg' (f_pipe x :: l)) →
  finv kend ext' fresh lk (<[fidx f := y]> ft) ofl (delete (f_pipe x) pp) pg'.
Proof.
  intros I Hf Hxp He H0 Hc Hr Ht Hpp Hcl Hfree. pose proof Hf as [Hf1 _].
  destruct I as [? Hlen ? Hext Href Hnone Hpipe Huniq Hheld Hlive Hpg].
  assert (Hback : ∀ g z, is_file (<[fidx f := y]> ft) g z → f_type z = FD_PIPE → f_pipe z ≠ f_pipe x ∧ is_file ft g z).
  { intros g z Hz Hzp. apply is_file_insert in Hz as [[-> ->]|[Hne Hz]]; [congruence| |done]. split; [|done].
    intros E. destruct (Hpipe g z Hz Hzp) as (_ & q & Hq & Hop). rewrite E, Hpp in Hq. injection Hq as <-.
    destruct (decide (f_writable z = f_writable x)); [by destruct Hne; eapply Huniq|].
    replace (f_writable z) with (negb (f_writable x)) in Hop by by destruct (f_writable z), (f_writable x).
    congruence. }
  constructor; try done.
  - by rewrite length_insert.
  - intros g. destruct (decide (g = f)) as [->|]; [lia|]. rewrite He by done. apply Hext.
  - intros g z Hz. apply is_file_insert in Hz as [[-> ->]|[Hne Hz]]; [lia| |done]. rewrite He by done. auto.
  - intros g z Hz. apply is_file_insert in Hz as [[-> ->]|[Hne Hz]]; [by rewrite Ht, Hr; naive_solver|by auto|done].
  - intros g z Hz Hzp. destruct (Hback g z Hz Hzp) as [Hne Hz']. destruct (Hpipe g z Hz' Hzp) as (? & q & Hq).
    split; [done|]. exists q. by rewrite lookup_delete_ne.
  - intros g h z w Hz Hw Hzp Hwp. destruct (Hback g z Hz Hzp), (Hback h w Hw Hwp). by eapply Huniq.
  - intros a q w Ha Hw. apply lookup_delete_Some in Ha as [Hne Ha].
    destruct (Hheld a q w Ha Hw) as (g & z & Hz & Hzp & Ez & Ew). exists g, z. split_and!; [|done|done|done].
    apply is_file_insert_ne; [done|done|]. intros ->. apply Hne. rewrite <-Ez. f_equal. by eapply is_file_fun.
  - intros a q [_ Ha]%lookup_delete_Some. by eapply Hlive.
  - destruct Hpg as (l & Hk & Hl). destruct (Hl (f_pipe x)) as [Hok Hnin]; [by rewrite Hpp|].
    exists (f_pipe x :: l). split; [by apply Hfree|]. intros a [q Ha]. apply lookup_delete_Some in Ha as [Hne Ha].
    destruct (Hl a) as [? ?]; [by rewrite Ha|]. split; [done|]. by rewrite not_elem_of_cons.
Qed.

Lemma fresh_minus (fresh : gset Z) f0 f1 g : g ∈ fresh ∖ {[f0; f1]} ↔ g ∈ fresh ∧ g ≠ f0 ∧ g ≠ f1.
Proof. set_solver. Qed.

(** Two new files become the ends of a new pipe. *)
Lemma finv_new_pipe ext fresh lk ft ofl pp pg f0 f1 x0 x1 y0 y1 a p l :
  finv kend ext fresh lk ft ofl pp pg → is_file ft f0 x0 → is_file ft f1 x1 → f0 ≠ f1 →
  f_type x0 = FD_NONE → f_type x1 = FD_NONE → f0 ∈ fresh → f1 ∈ fresh →
  y0 = set_f_pipe a (set_f_mode true false (set_f_type FD_PIPE x0)) →
  y1 = set_f_pipe a (set_f_mode false true (set_f_type FD_PIPE x1)) →
  pp !! a = None → readopen p = true → writeopen p = true → plock p = false → (∃ q, pring p q) →
  kinv kend pg l → page_ok kend a → a ∉ l → (∀ b, is_Some (pp !! b) → page_ok kend b ∧ b ∉ l) →
  0 < ext f0 + cnt f0 ofl → 0 < ext f1 + cnt f1 ofl →
  finv kend ext (fresh ∖ {[f0; f1]}) lk (<[fidx f1 := y1]> (<[fidx f0 := y0]> ft)) ofl (<[a := p]> pp) pg.
Proof.
  intros I Hf0 Hf1 Hne Ht0 Ht1 Hfr0 Hfr1 -> -> Ha Hro Hwo Hlk Hq Hk Hok Hnin Hl Hc0 Hc1.
  pose proof Hf0 as [H01 _]. pose proof Hf1 as [H11 _].
  destruct I as [? Hlen ? Hext Href Hnone Hpipe Huniq Hheld Hlive Hpg].
  set (y0 := set_f_pipe a (set_f_mode true false (set_f_type FD_PIPE x0))).
  set (y1 := set_f_pipe a (set_f_mode false true (set_f_type FD_PIPE x1))).
  assert (Hcase : ∀ g z, is_file (<[fidx f1 := y1]> (<[fidx f0 := y0]> ft)) g z →
    (g = f1 ∧ z = y1) ∨ (g = f0 ∧ z = y0) ∨ (g ≠ f1 ∧ g ≠ f0 ∧ is_file ft g z)).
  { intros g z Hz. apply is_file_insert in Hz as [?|[? Hz]]; [by left| |done].
    apply is_file_insert in Hz as [?|[? Hz]]; [by right; left|by right; right|done]. }
  assert (Hold : ∀ g z, is_file ft g z → f_type z = FD_PIPE → f_pipe z ≠ a).
  { intros g z Hz Hzp E. destruct (Hpipe g z Hz Hzp) as (_ & q & Hq1 & _). congruence. }
  pose proof (Href _ _ Hf0) as Hr0. pose proof (Href _ _ Hf1) as Hr1.
  constructor; try done.
  - by rewrite !length_insert.
  - intros g z Hz. destruct (Hcase g z Hz) as [[-> ->]|[[-> ->]|(_ & _ & Hz')]]; [done|done|auto].
  - intros g z Hz. destruct (Hcase g z Hz) as [[-> ->]|[[-> ->]|(? & ? & Hz')]].
    + rewrite fresh_minus. simpl. split; [done|]. intros [E|(_ & _ & E)]; [lia|done].
    + rewrite fresh_minus. simpl. split; [done|]. intros [E|(_ & E & _)]; [lia|done].
    + rewrite fresh_minus, (Hnone g z Hz'). naive_solver.
  - intros g z Hz Hzp. destruct (Hcase g z Hz) as [[-> ->]|[[-> ->]|(? & ? & Hz')]].
    + split; [done|]. exists p. simpl. by rewrite lookup_insert_eq.
    + split; [done|]. exists p. simpl. by rewrite lookup_insert_eq.
    + destruct (Hpipe g z Hz' Hzp) as (? & q & Hq1 & ?). split; [done|]. exists q.
      rewrite lookup_insert_ne; [done|]. by apply not_eq_sym, (Hold g).
  - intros g h z w Hz Hw Hzp Hwp E1 E2.
    destruct (Hcase g z Hz) as [[-> ->]|[[-> ->]|(? & ? & Hz')]], (Hcase h w Hw) as [[-> ->]|[[-> ->]|(? & ? & Hw')]];
      try done; [by destruct (Hold h w)|by destruct (Hold h w)|by destruct (Hold g z)|by destruct (Hold g z)|by eapply Huniq].
  - intros b q w Hb Hw. apply lookup_insert_Some in Hb as [[<- <-]|[Hnb Hb]].
    + destruct w.
      * exists f1, y1. split_and!; [|done|done|done]. eapply is_file_insert_eq, is_file_insert_ne; [exact Hf1|done|done].
      * exists f0, y0. split_and!; [|done|done|done]. apply is_file_insert_ne; [by eapply is_file_insert_eq|done|done].
    + destruct (Hheld b q w Hb Hw) as (g & z & Hz & Hzp & ? & ?). exists g, z. split_and!; [|done|done|done].
      apply is_file_insert_ne; [apply is_file_insert_ne; [done|done|]|done|].
      * intros ->. assert (z = x0) as -> by (by eapply is_file_fun). congruence.
      * intros ->. assert (z = x1) as -> by (by eapply is_file_fun). congruence.
  - intros b q [[<- <-]|[Hnb Hb]]%lookup_insert_Some; [split_and!; auto|by eapply Hlive].
  - exists l. split; [done|]. intros b Hb. destruct (decide (b = a)) as [->|]; [done|].
    apply Hl. by rewrite lookup_insert_ne in Hb.
Qed.

(** ** The operations of file.c *)

Lemma runs_getf s f x (Q : file → st → Prop) : is_file (ftable s) f x → Q x s → runs (getf f) s Q.
Proof. intros [Hf Hx] HQ. unfold runs, getf. rewrite Hx. by destruct (Z.leb_spec 1 f); [|lia]. Qed.
Lemma runs_setf s f x g (Q : unit → st → Prop) :
  is_file (ftable s) f x → Q tt (set_ftable (<[fidx f := g x]> (ftable s)) s) → runs (setf f g) s Q.
Proof. intros [Hf Hx] HQ. unfold runs, setf. rewrite Hx. by destruct (Z.leb_spec 1 f); [|lia]. Qed.

Lemma FI_lock ext fresh s : FI ext fresh s → ft_lock s = false.
Proof. intros H. apply H. Qed.

(** A critical section of the table's lock that changes only the table. *)
Lemma runs_setf_locked s ft f x g (Q : unit → st → Prop) :
  is_file ft f x → Q tt (set_ftable (<[fidx f := g x]> ft) (set_ft_lock true s)) →
  runs (setf f g) (set_ftable ft (set_ft_lock true s)) Q.
Proof. intros Hx HQ. eapply runs_setf; [exact Hx|exact HQ]. Qed.
Lemma runs_acquire_ft s (Q : unit → st → Prop) : ft_lock s = false → Q tt (set_ft_lock true s) → runs acquire_ft s Q.
Proof. apply runs_acquire_flag. Qed.
Lemma runs_release_ft s ft (Q : unit → st → Prop) :
  ft_lock s = false → Q tt (set_ftable ft s) → runs release_ft (set_ftable ft (set_ft_lock true s)) Q.
Proof. intros Hl HQ. apply runs_release_flag; [done|]. destruct s. simpl in *. by subst. Qed.

Lemma FI_alloc ext fresh s f x :
  FI ext fresh s → is_file (ftable s) f x → f_ref x = 0 →
  FI (add_ref f 1 ext) ({[f]} ∪ fresh) (set_ftable (<[fidx f := set_f_ref 1 x]> (ftable s)) s).
Proof.
  intros I Hx Hr. pose proof (fi_ref _ _ _ _ _ _ _ _ I f x Hx) as E. pose proof (fi_ext _ _ _ _ _ _ _ _ I f).
  pose proof (cnt_nonneg f (File.ofile s)).
  assert (Ht : f_type x = FD_NONE) by (apply (fi_none _ _ _ _ _ _ _ _ I f x Hx); by left).
  unfold FI. cbn [ft_lock ftable File.ofile pipes pages set_ftable]. eapply finv_update; [exact I|exact Hx|..]; simpl.
  - intros g Hg. unfold add_ref. rewrite decide_False by done. lia.
  - unfold add_ref. rewrite decide_True by done. lia.
  - unfold add_ref. rewrite decide_True by done. lia.
  - intros g Hg. rewrite elem_of_union, elem_of_singleton. naive_solver.
  - rewrite Ht. split; [|done]. intros _. right. set_solver.
  - done.
  - by rewrite Ht.
Qed.

(** filealloc takes the first file without references, if there is one. *)
Lemma runs_filealloc ext fresh s (Q : Z → st → Prop) :
  FI ext fresh s →
  ((∀ f x, is_file (ftable s) f x → f_ref x ≠ 0) → Q 0 s) →
  (∀ f x, is_file (ftable s) f x → f_ref x = 0 →
     Q f (set_ftable (<[fidx f := set_f_ref 1 x]> (ftable s)) s)) →
  runs filealloc s Q.
Proof.
  intros I H0 H1. pose proof (FI_lock _ _ _ I) as Hlk. unfold filealloc.
  apply runs_bind, runs_acquire_ft; [done|].
  apply (runs_iter _ (λ n f t, n = Z.to_nat (NFILE + 1 - f) ∧ 1 <= f <= NFILE + 1 ∧ t = set_ft_lock true s ∧
    ∀ g x, is_file (ftable s) g x → g < f → f_ref x ≠ 0) Q) with (n := Z.to_nat NFILE).
  - intros n f t (-> & Hf & -> & Hlow). destruct (Z.leb_spec f NFILE) as [Hle|Hgt].
    + destruct (is_file_ex _ _ _ f I) as [x Hx]; [lia|]. apply runs_bind. eapply runs_getf; [exact Hx|].
      destruct (Z.eqb_spec (f_ref x) 0) as [E|E].
      * apply runs_bind. change (set_ft_lock true s) with (set_ftable (ftable s) (set_ft_lock true s)).
        eapply runs_setf_locked; [exact Hx|].
        apply runs_bind, runs_release_ft; [done|]. apply runs_ret. by apply H1.
      * apply runs_ret. exists (Z.to_nat (NFILE + 1 - (f + 1))). split; [lia|]. split_and!; [done|lia|lia|done|].
        intros g y Hy Hg. destruct (decide (g = f)) as [->|]; [|apply (Hlow g); [done|lia]].
        by rewrite (is_file_fun _ _ _ _ Hy Hx).
    + apply runs_bind. change (set_ft_lock true s) with (set_ftable (ftable s) (set_ft_lock true s)).
      apply runs_release_ft; [done|]. apply runs_ret.
      replace (set_ftable (ftable s) s) with s by by destruct s.
      apply H0. intros g x Hx. apply (Hlow g); [done|]. pose proof (is_file_range _ _ _ _ _ I Hx). lia.
  - split_and!; [unfold NFILE; lia|unfold NFILE; lia|unfold NFILE; lia|done|]. intros g x [? _]. lia.
  - lia.
Qed.

Lemma FI_dup ext fresh s f x :
  FI ext fresh s → is_file (ftable s) f x → 1 <= f_ref x →
  FI (add_ref f 1 ext) fresh (set_ftable (<[fidx f := set_f_ref (f_ref x + 1) x]> (ftable s)) s).
Proof.
  intros I Hx Hr. pose proof (fi_ref _ _ _ _ _ _ _ _ I f x Hx) as E. pose proof (fi_ext _ _ _ _ _ _ _ _ I f).
  pose proof (fi_none _ _ _ _ _ _ _ _ I f x Hx) as En.
  unfold FI. cbn [ft_lock ftable File.ofile pipes pages set_ftable]. eapply finv_update; [exact I|exact Hx|..]; simpl.
  - intros g Hg. unfold add_ref. rewrite decide_False by done. lia.
  - unfold add_ref. rewrite decide_True by done. lia.
  - unfold add_ref. rewrite decide_True by done. lia.
  - done.
  - rewrite En. split; (intros [?|?]; [lia|by right]).
  - done.
  - done.
Qed.

Lemma runs_filedup s f x (Q : Z → st → Prop) :
  ft_lock s = false → is_file (ftable s) f x → 1 <= f_ref x < 2 ^ 31 - 1 →
  Q f (set_ftable (<[fidx f := set_f_ref (f_ref x + 1) x]> (ftable s)) s) → runs (filedup f) s Q.
Proof.
  intros Hlk Hx Hr HQ. unfold filedup.
  apply runs_bind, runs_acquire_ft; [done|]. apply runs_bind. eapply runs_getf; [exact Hx|].
  destruct (Z.ltb_spec (f_ref x) 1); [lia|]. rewrite s32_small by lia. apply runs_bind.
  change (set_ft_lock true s) with (set_ftable (ftable s) (set_ft_lock true s)). eapply runs_setf_locked; [exact Hx|].
  apply runs_bind, runs_release_ft; [done|]. by apply runs_ret.
Qed.

(** What fileclose does after it released the table's lock. *)
Definition close_tail (me : Z) (x : file) : K st unit :=
  match f_type x with
  | FD_PIPE => on_pipe kend (f_pipe x) (pipeclose (f_writable x))
  | FD_INODE | FD_DEVICE => begin_op_fs ;;; on_fs (iput (TS := log_store me ∅ [] 1 0 0) me (f_ip x)) ;;; end_op_fs me
  | FD_NONE => ret tt
  end.

Lemma fileclose_eq me ext fresh s f x :
  FI ext fresh s → is_file (ftable s) f x → 1 <= f_ref x →
  fileclose me kend f s =
    if f_ref x =? 1 then close_tail me x (set_ftable (<[fidx f := set_f_type FD_NONE (set_f_ref 0 x)]> (ftable s)) s)
    else Ok tt (set_ftable (<[fidx f := set_f_ref (f_ref x - 1) x]> (ftable s)) s).
Proof.
  intros I [Hf Hx] Hr. pose proof (FI_lock _ _ _ I) as Hlk. pose proof (lookup_lt_Some _ _ _ Hx) as Hlt.
  assert (Hf' : (1 <=? f) = true) by lia.
  unfold fileclose, acquire_ft, acquire_flag, bind at 1. rewrite Hlk.
  unfold bind at 1, getf at 1. cbn [ftable set_ft_lock]. rewrite Hx, Hf'. cbv beta zeta.
  destruct (Z.ltb_spec (f_ref x) 1); [lia|]. unfold bind at 1, setf at 1. cbn [ftable set_ft_lock]. rewrite Hx, Hf'.
  destruct (Z.eqb_spec (f_ref x) 1) as [E|E].
  - rewrite E. change (0 <? 1 - 1) with false. cbv iota. change (1 - 1) with 0.
    unfold bind at 1, getf at 1. cbn [ftable set_ft_lock set_ftable]. rewrite list_lookup_insert_eq, Hf' by done.
    unfold bind at 1, setf at 1. cbn [ftable set_ft_lock set_ftable]. rewrite list_lookup_insert_eq, Hf' by done.
    unfold bind at 1, setf at 1. cbn [ftable set_ft_lock set_ftable].
    rewrite list_insert_insert_eq, list_lookup_insert_eq, Hf' by done. rewrite list_insert_insert_eq.
    unfold bind at 1, release_ft, release_flag. cbn [ft_lock set_ftable set_ft_lock negb]. unfold close_tail. cbn [f_type set_f_ref set_f_type].
    destruct s. simpl in *. subst. reflexivity.
  - destruct (Z.ltb_spec 0 (f_ref x - 1)); [|lia]. unfold release_ft, release_flag. cbn [ft_lock set_ftable set_ft_lock negb].
    destruct s. simpl in *. subst. reflexivity.
Qed.

(** pipeclose on a pipe whose lock is free. *)
Definition closed_end (w : bool) (p : pipe) : pipe :=
  if w then mkPipe (Pipe.data p) (nread p) (nwrite p) (readopen p) false false
  else mkPipe (Pipe.data p) (nread p) (nwrite p) false (writeopen p) false.

Lemma pipeclose_eq w p um :
  plock p = false →
  pipeclose w (mkPst p um [] false) =
    Ok tt (mkPst (closed_end w p) um [if w then ChRead else ChWrite] (negb (pipe_end_open (negb w) p))).
Proof.
  intros Hlk. destruct p as [d nr nw ro wo lk]. simpl in Hlk. subst lk. destruct w, ro, wo; reflexivity.
Qed.

Lemma pring_closed w p q : pring p q → pring (closed_end w p) q.
Proof. by destruct w. Qed.

Lemma fresh_drop (fresh : gset Z) f g : g ≠ f → g ∈ fresh ∖ {[f]} ↔ g ∈ fresh.
Proof. set_solver. Qed.
Lemma fresh_same (fresh : gset Z) f : f ∉ fresh → fresh ∖ {[f]} = fresh.
Proof. set_solver. Qed.
Lemma fresh_gone (fresh : gset Z) f : f ∉ fresh ∖ {[f]}.
Proof. set_solver. Qed.

(** A reference that is not the last goes. *)
Lemma FI_unref ext fresh s f x :
  FI ext fresh s → is_file (ftable s) f x → 1 <= ext f → f_ref x ≠ 1 → f ∉ fresh →
  FI (add_ref f (-1) ext) (fresh ∖ {[f]}) (set_ftable (<[fidx f := set_f_ref (f_ref x - 1) x]> (ftable s)) s).
Proof.
  intros I Hx He Hr Hfr. pose proof (fi_ref _ _ _ _ _ _ _ _ I f x Hx) as E. pose proof (cnt_nonneg f (File.ofile s)).
  pose proof (fi_none _ _ _ _ _ _ _ _ I f x Hx) as En. rewrite fresh_same by done.
  unfold FI. cbn [ft_lock ftable File.ofile pipes pages set_ftable]. eapply finv_update; [exact I|exact Hx|..]; simpl.
  - intros g Hg. unfold add_ref. rewrite decide_False by done. lia.
  - unfold add_ref. rewrite decide_True by done. lia.
  - unfold add_ref. rewrite decide_True by done. lia.
  - done.
  - rewrite En. split; (intros [?|?]; [lia|by right]).
  - done.
  - done.
Qed.

(** The last reference to a file that is not a pipe goes. *)
Lemma FI_last ext fresh s f x :
  FI ext fresh s → is_file (ftable s) f x → 1 <= ext f → f_ref x = 1 → f_type x ≠ FD_PIPE →
  FI (add_ref f (-1) ext) (fresh ∖ {[f]}) (set_ftable (<[fidx f := set_f_type FD_NONE (set_f_ref 0 x)]> (ftable s)) s).
Proof.
  intros I Hx He Hr Ht. pose proof (fi_ref _ _ _ _ _ _ _ _ I f x Hx) as E. pose proof (cnt_nonneg f (File.ofile s)).
  unfold FI. cbn [ft_lock ftable File.ofile pipes pages set_ftable]. eapply finv_update; [exact I|exact Hx|..]; simpl.
  - intros g Hg. unfold add_ref. rewrite decide_False by done. lia.
  - unfold add_ref. rewrite decide_True by done. lia.
  - unfold add_ref. rewrite decide_True by done. lia.
  - intros g Hg. by apply fresh_drop.
  - split; [by left|done].
  - split; [done|congruence].
  - congruence.
Qed.

(** The descriptors and the other files are as before. *)
Definition others_same (f : Z) (s s' : st) : Prop :=
  File.ofile s' = File.ofile s ∧ ∀ g y, g ≠ f → is_file (ftable s) g y → is_file (ftable s') g y.

Lemma others_same_insert f x y s s' :
  is_file (ftable s) f x → File.ofile s' = File.ofile s → ftable s' = <[fidx f := y]> (ftable s) → others_same f s s'.
Proof. intros [Hf _] Ho Ht. split; [done|]. intros g z Hg Hz. rewrite Ht. by apply is_file_insert_ne. Qed.

Hypothesis kend_pos : 0 < kend.

(** The last reference to an end of a pipe goes. *)
Lemma runs_close_pipe me ext fresh s f x :
  FI ext fresh s → is_file (ftable s) f x → 1 <= ext f → f_ref x = 1 → f_type x = FD_PIPE →
  runs (close_tail me x) (set_ftable (<[fidx f := set_f_type FD_NONE (set_f_ref 0 x)]> (ftable s)) s)
    (λ _ s', FI (add_ref f (-1) ext) (fresh ∖ {[f]}) s' ∧ others_same f s s').
Proof.
  intros I Hx He Hr Ht. pose proof (fi_ref _ _ _ _ _ _ _ _ I f x Hx) as E. pose proof (cnt_nonneg f (File.ofile s)).
  assert (Hfr : f ∉ fresh).
  { intros Hin. assert (f_type x = FD_NONE) by (apply (fi_none _ _ _ _ _ _ _ _ I f x Hx); by right). congruence. }
  rewrite fresh_same by done.
  destruct (fi_pipe _ _ _ _ _ _ _ _ I f x Hx Ht) as (_ & p & Hp & Hop).
  destruct (fi_live _ _ _ _ _ _ _ _ I _ _ Hp) as (_ & Hlk & q & Hq).
  assert (Hadd : ∀ g, g ≠ f → add_ref f (-1) ext g = ext g) by (intros; unfold add_ref; rewrite decide_False by done; lia).
  assert (Hadd0 : add_ref f (-1) ext f = 0) by (unfold add_ref; rewrite decide_True by done; lia).
  unfold close_tail. rewrite Ht. unfold on_pipe, runs. cbn [pipes set_ftable]. rewrite Hp, pipeclose_eq by done.
  cbn [Pipe.freed Pipe.umem Pipe.pi]. destruct (pipe_end_open (negb (f_writable x)) p) eqn:Eo; cbn [negb].
  - split_and!.
    + unfold FI. cbn. eapply finv_close_end; try done; [lia|..].
      5: { exists q. by apply pring_closed. }
      all: by destruct (f_writable x).
    + by eapply others_same_insert.
  - destruct (fi_pages _ _ _ _ _ _ _ _ I) as (l & Hk & Hl). destruct (Hl (f_pipe x)) as [Hok Hnin]; [by rewrite Hp|].
    pose proof (kfree_eq kend _ _ _ Hk Hok) as Ef.
    unfold bind, on_pages, zoom. cbn [pages set_pipes set_fsys set_ftable]. rewrite Ef. split_and!.
    + unfold FI. cbn. eapply finv_free_pipe; try done; [lia|]. intros l' Hk' _ Hn'. by apply kinv_free.
    + by eapply others_same_insert.
Qed.

(** What becomes of the file is up to the file system's own code, which does
    not touch open files. *)
Lemma okays_on_fs {A} (m : K (fsst (lst S)) A) s (Q : A → st → Prop) :
  (∀ a x, Q a (set_fsys x s)) → okays (on_fs m) s Q.
Proof. intros HQ. unfold okays, on_fs, zoom. by destruct (m (fsys s)). Qed.

Lemma okays_close_tail me x s (Q : unit → st → Prop) :
  f_type x ≠ FD_PIPE → (∀ y, Q tt (set_fsys y s)) → okays (close_tail me x) s Q.
Proof.
  intros Ht HQ. unfold close_tail. destruct (f_type x); [|done|..].
  - apply okays_ret. specialize (HQ (fsys s)). by destruct s.
  - apply okays_bind, okays_on_fs. intros ? ?. apply okays_bind, okays_on_fs. intros ? ?. apply okays_on_fs. by intros [].
  - apply okays_bind, okays_on_fs. intros ? ?. apply okays_bind, okays_on_fs. intros ? ?. apply okays_on_fs. by intros [].
Qed.

(** The caller's reference goes; [fresh f → f_ref x = 1] as nobody else knows
    a file that is being opened. *)
Lemma runs_fileclose me ext fresh s f x :
  FI ext fresh s → is_file (ftable s) f x → 1 <= ext f → (f ∈ fresh → f_ref x = 1) →
  (f_ref x = 1 → f_type x = FD_PIPE ∨ f_type x = FD_NONE) →
  runs (fileclose me kend f) s
    (λ _ s', FI (add_ref f (-1) ext) (fresh ∖ {[f]}) s' ∧ others_same f s s').
Proof.
  intros I Hx He Hfr Ht. pose proof (fi_ref _ _ _ _ _ _ _ _ I f x Hx) as E. pose proof (cnt_nonneg f (File.ofile s)).
  unfold runs. rewrite (fileclose_eq me _ _ _ _ _ I Hx) by lia. destruct (Z.eqb_spec (f_ref x) 1) as [E1|E1].
  - destruct (Ht E1) as [T|T]; [by apply (runs_close_pipe me)|]. unfold close_tail. rewrite T.
    split; [|by eapply others_same_insert]. apply FI_last; [done|done|done|done|by rewrite T].
  - split; [|by eapply others_same_insert]. apply FI_unref; [done|done|done|done|]. naive_solver.
Qed.

Lemma okays_fileclose me ext fresh s f x :
  FI ext fresh s → is_file (ftable s) f x → 1 <= ext f → (f ∈ fresh → f_ref x = 1) →
  okays (fileclose me kend f) s
    (λ _ s', FI (add_ref f (-1) ext) (fresh ∖ {[f]}) s' ∧ others_same f s s').
Proof.
  intros I Hx He Hfr. pose proof (fi_ref _ _ _ _ _ _ _ _ I f x Hx) as E. pose proof (cnt_nonneg f (File.ofile s)).
  destruct (decide (f_ref x = 1 → f_type x = FD_PIPE ∨ f_type x = FD_NONE)) as [Hc|Hc];
    [by apply runs_okays, (runs_fileclose me _ _ _ _ x)|].
  unfold okays. rewrite (fileclose_eq me _ _ _ _ _ I Hx) by lia. destruct (Z.eqb_spec (f_ref x) 1) as [E1|E1]; [|by destruct Hc].
  apply okays_close_tail; [naive_solver|]. intros y. split; [|by eapply others_same_insert].
  apply (FI_last ext fresh s f x); [done|done|done|done|naive_solver].
Qed.

(** ** Descriptors *)

(** fdalloc takes the first free slot, and the reference with it. *)
Lemma runs_fdalloc ext fresh s f (Q : Z → st → Prop) :
  FI ext fresh s →
  ((∀ i x, File.ofile s !! i = Some x → x ≠ 0) → Q (-1) s) →
  (∀ fd, 0 <= fd < NOFILE → File.ofile s !! Z.to_nat fd = Some 0 →
     (∀ i x, (i < Z.to_nat fd)%nat → File.ofile s !! i = Some x → x ≠ 0) →
     Q fd (set_ofile (<[Z.to_nat fd := f]> (File.ofile s)) s)) →
  runs (fdalloc f) s Q.
Proof.
  intros I H0 H1. destruct (fi_ofile _ _ _ _ _ _ _ _ I) as [Hlen _]. unfold fdalloc.
  apply (runs_iter _ (λ n fd t, n = Z.to_nat (NOFILE - fd) ∧ 0 <= fd <= NOFILE ∧ t = s ∧
    ∀ i x, (i < Z.to_nat fd)%nat → File.ofile s !! i = Some x → x ≠ 0) Q) with (n := Z.to_nat NOFILE).
  - intros n fd t (-> & Hfd & -> & Hlow). destruct (Z.ltb_spec fd NOFILE) as [Hlt|Hge].
    + kred. destruct (lookup_lt_is_Some_2 (File.ofile s) (Z.to_nat fd)) as [x Hx]; [lia|]. rewrite Hx.
      destruct (Z.eqb_spec x 0) as [->|Hne].
      * kred. by apply H1; [lia|..].
      * kred. exists (Z.to_nat (NOFILE - (fd + 1))). split; [lia|]. split_and!; [done|lia|lia|done|].
        intros i y Hi Hy. destruct (decide (i = Z.to_nat fd)) as [->|]; [congruence|]. apply (Hlow i); [lia|done].
    + kred. apply H0. intros i x Hx. apply (Hlow i); [|done]. apply lookup_lt_Some in Hx. lia.
  - split_and!; [unfold NOFILE; lia|unfold NOFILE; lia|unfold NOFILE; lia|done|]. intros i x ?. lia.
  - lia.
Qed.

Lemma FI_take_fd ext fresh s f fd :
  FI ext fresh s → 1 <= f <= NFILE → 1 <= ext f → File.ofile s !! Z.to_nat fd = Some 0 →
  FI (add_ref f (-1) ext) fresh (set_ofile (<[Z.to_nat fd := f]> (File.ofile s)) s).
Proof.
  intros I Hf He Hfd. destruct (fi_ofile _ _ _ _ _ _ _ _ I) as [Hlen Hall]. unfold FI. cbn.
  eapply finv_move; [exact I|..].
  - intros g Hg. rewrite (cnt_insert _ _ _ _ _ Hfd), (decide_False (P := 0 = g)) by lia. unfold add_ref.
    destruct (decide (g = f)) as [->|]; [rewrite !decide_True by done; lia|].
    rewrite !decide_False by congruence. lia.
  - intros g. pose proof (fi_ext _ _ _ _ _ _ _ _ I g). unfold add_ref. case_decide; subst; lia.
  - by rewrite length_insert.
  - apply Forall_insert; [done|lia].
Qed.

Lemma FI_drop_fd ext fresh s f fd :
  FI ext fresh s → File.ofile s !! Z.to_nat fd = Some f → f ≠ 0 →
  FI (add_ref f 1 ext) fresh (set_ofile (<[Z.to_nat fd := 0]> (File.ofile s)) s).
Proof.
  intros I Hfd Hf. destruct (fi_ofile _ _ _ _ _ _ _ _ I) as [Hlen Hall]. unfold FI. cbn.
  eapply finv_move; [exact I|..].
  - intros g Hg. rewrite (cnt_insert _ _ _ _ _ Hfd), (decide_False (P := 0 = g)) by lia. unfold add_ref.
    destruct (decide (g = f)) as [->|]; [rewrite !decide_True by done; lia|].
    rewrite !decide_False by congruence. lia.
  - intros g. pose proof (fi_ext _ _ _ _ _ _ _ _ I g). unfold add_ref. case_decide; subst; lia.
  - by rewrite length_insert.
  - apply Forall_insert; [done|]. unfold NFILE. lia.
Qed.
End FileSpec.
