(* ===== verification/FdSpec.v ===== *)
(** The system calls on files, fork and exit preserve the invariant of open
    files (FileSpec.v), for any number of processes: every reference count is
    the number of descriptors, and a pipe exists exactly as long as one of its
    ends is open. *)

From S2P Require Import Prelude Mem CString Riscv Spinlock Kalloc Ring Pipe BlockCache Log TxnStore LogStore Fs FsFile File Syscall SysFile FileSpec.
Local Open Scope kernel_scope.

Section FdSpec.
Context {S : Type} `{BC : !BlockCache S} (kend : Z) (kend_pos : 0 < kend).
Abbreviation st := (ofst S).
Abbreviation FI := (FI kend).

Lemma FI_ext ext ext' fresh (s : st) : FI ext fresh s → (∀ g, ext' g = ext g) → FI ext' fresh s.
Proof.
  intros I E. destruct (fi_ofile _ _ _ _ _ _ _ _ I) as [? ?].
  eapply finv_move; [exact I| | |done|done]; intros g; rewrite E; [done|]. apply (fi_ext _ _ _ _ _ _ _ _ I).
Qed.

Lemma add_ref_undo f ext g : add_ref f (-1) (add_ref f 1 ext) g = ext g.
Proof. unfold add_ref. case_decide; lia. Qed.
Lemma add_ref_swap f d g e ext h : add_ref f d (add_ref g e ext) h = add_ref g e (add_ref f d ext) h.
Proof. unfold add_ref. lia. Qed.
Lemma add_ref_same f d ext : add_ref f d ext f = ext f + d.
Proof. unfold add_ref. by rewrite decide_True. Qed.
Lemma add_ref_ne f d ext g : g ≠ f → add_ref f d ext g = ext g.
Proof. intros. unfold add_ref. rewrite decide_False by done. lia. Qed.

(** A file with a reference that the caller holds. *)
Lemma FI_ref ext fresh (s : st) f x :
  FI ext fresh s → is_file (ftable s) f x → f_ref x = ext f + cnt f (File.ofile s).
Proof. intros I. apply (fi_ref _ _ _ _ _ _ _ _ I). Qed.

(** A new file goes back at once. *)
Lemma runs_close_fresh me ext fresh (s : st) f x :
  FI (add_ref f 1 ext) fresh s → is_file (ftable s) f x → f ∈ fresh → f_ref x = 1 → 0 <= ext f →
  runs (fileclose me kend f) s (λ _ s', FI ext (fresh ∖ {[f]}) s' ∧ others_same f s s').
Proof.
  intros I Hx Hfr Hr He. eapply runs_mono.
  - apply (runs_fileclose kend kend_pos me (add_ref f 1 ext) fresh s f x); [done|done|rewrite add_ref_same; lia|done|].
    intros _. right. apply (fi_none _ _ _ _ _ _ _ _ I f x Hx). by right.
  - intros _ s' [I' Ho]. split; [|done]. eapply FI_ext; [exact I'|]. intros g. by rewrite add_ref_undo.
Qed.

(** ** pipealloc *)

(** The pages after kalloc: one page less on the free list. *)
Lemma FI_kalloc ext fresh (s : st) (Q : Z → st → Prop) :
  FI ext fresh s → (kinv kend (pages s) [] → Q 0 s) →
  (∀ a pg l, a ≠ 0 → FI ext fresh (set_pages pg s) → pipes s !! a = None → kinv kend pg l →
     page_ok kend a → a ∉ l → (∀ b, is_Some (pipes s !! b) → page_ok kend b ∧ b ∉ l) → Q a (set_pages pg s)) →
  runs (on_pages kalloc) s Q.
Proof.
  intros I H0 H1. destruct (fi_pages _ _ _ _ _ _ _ _ I) as (l & Hk & Hl). apply runs_zoom.
  eapply runs_kalloc; [done|done|..].
  - intros ->. replace (set_pages (pages s) s) with s by by destruct s. by apply H0.
  - intros a l' pg -> Hk' Hok _. assert (Hnd : a ∉ l') by (destruct Hk as (_ & Hnd & _); by apply NoDup_cons in Hnd as []).
    assert (Hl' : ∀ b, is_Some (pipes s !! b) → page_ok kend b ∧ b ∉ l').
    { intros b Hb. destruct (Hl b Hb) as [? Hn]. split; [done|]. by apply not_elem_of_cons in Hn as []. }
    apply (H1 a pg l'); try done.
    + apply (page_ok_range kend kend_pos) in Hok. lia.
    + unfold FileSpec.FI. cbn. destruct I. constructor; try done. by exists l'.
    + destruct (pipes s !! a) as [p|] eqn:E; [|done]. destruct (Hl a) as [_ Hn]; [by rewrite E|]. set_solver.
Qed.

Lemma pring_new : pring (pipe_init (replicate (Z.to_nat PIPESIZE) 5)) [].
Proof. apply (ring_init _ _ PIPE_ok). by vm_compute. Qed.

(** [f] is an end of the pipe [a]: the one to write to when [w] holds, else
    the one to read from. *)
Definition is_end (ft : list file) (f a : Z) (w : bool) : Prop :=
  ∃ x, is_file ft f x ∧ f_type x = FD_PIPE ∧ f_pipe x = a ∧ f_readable x = negb w ∧ f_writable x = w.

Definition free_file (s : st) (f : Z) : Prop := ∃ x, is_file (ftable s) f x ∧ f_ref x = 0.

(** [s'] is [s] with a new pipe [a], whose ends are the files [f0] and [f1]. *)
Record new_pipe (s : st) (f0 f1 a : Z) (s' : st) : Prop := {
  np_ne : f0 ≠ f1;
  np_free0 : free_file s f0;
  np_free1 : free_file s f1;
  np_read : is_end (ftable s') f0 a false;
  np_write : is_end (ftable s') f1 a true;
  np_others f x : f ≠ f0 → f ≠ f1 → is_file (ftable s) f x → is_file (ftable s') f x;
  np_fresh : pipes s !! a = None;
  np_pipes : pipes s' = <[a := pipe_init (replicate (Z.to_nat PIPESIZE) 5)]> (pipes s)
}.

Lemma fresh_two (f g : Z) : ({[g]} ∪ ({[f]} ∪ ∅) : gset Z) ∖ {[f; g]} = ∅.
Proof. set_solver. Qed.
Lemma fresh_one (f : Z) : ({[f]} ∪ ∅ : gset Z) ∖ {[f]} = ∅.
Proof. set_solver. Qed.

Lemma runs_pipealloc me ext (s : st) :
  FI ext ∅ s →
  runs (pipealloc me kend) s (λ r s', match r with
    | None => FI ext ∅ s' ∧ File.ofile s' = File.ofile s ∧
        ((∀ f g, free_file s f → free_file s g → f = g) ∨ kinv kend (pages s) [])
    | Some (f0, f1) => 1 <= f0 <= NFILE ∧ 1 <= f1 <= NFILE ∧
        FI (add_ref f0 1 (add_ref f1 1 ext)) ∅ s' ∧ File.ofile s' = File.ofile s ∧ fsys s' = fsys s ∧
        ∃ a, new_pipe s f0 f1 a s'
    end).
Proof.
  intros I. unfold pipealloc. apply runs_bind. eapply runs_filealloc; [exact I|..].
  { intros Hno. change (0 =? 0) with true. cbv iota. change (negb true) with false. kred. split_and!; [done|done|]. left.
    intros f g (x & Hx & Hr). by destruct (Hno f x Hx). }
  intros f0 x0 Hx0 Hr0. pose proof (FI_alloc _ _ _ _ _ _ I Hx0 Hr0) as I0. set (s0 := set_ftable _ s) in *.
  pose proof (is_file_range _ _ _ _ _ _ I Hx0) as Hf0. destruct (Z.eqb_spec f0 0) as [?|Hn0]; [lia|].
  pose proof (fi_ext _ _ _ _ _ _ _ _ I) as He.
  assert (Hy0 : is_file (ftable s0) f0 (set_f_ref 1 x0)) by by eapply is_file_insert_eq.
  apply runs_bind. eapply runs_filealloc; [exact I0|..].
  { intros Hno. change (0 =? 0) with true. destruct (Z.eqb_spec f0 0); [lia|]. cbn [negb]. apply runs_bind.
    eapply runs_mono; [apply (runs_close_fresh me ext ({[f0]} ∪ ∅) s0 f0 (set_f_ref 1 x0)); [done|done|set_solver|done|done]|].
    intros _ s' [I' [Ho _]]. rewrite fresh_one in I'. kred. split_and!; [done|by rewrite Ho|]. left.
    assert (Honly : ∀ f, free_file s f → f = f0).
    { intros f (x & Hx & Hr). destruct (decide (f = f0)) as [|Hne]; [done|]. destruct (Hno f x); [|done].
      apply is_file_insert_ne; [done|lia|done]. }
    intros f g Hf Hg. by rewrite (Honly f Hf), (Honly g Hg). }
  intros f1 x1 Hx1 Hr1. pose proof (FI_alloc _ _ _ _ _ _ I0 Hx1 Hr1) as I1. set (s1 := set_ftable _ s0) in *.
  pose proof (is_file_range _ _ _ _ _ _ I0 Hx1) as Hf1. destruct (Z.eqb_spec f1 0) as [?|Hn1]; [lia|].
  assert (Hne : f0 ≠ f1). { intros <-. rewrite (is_file_fun _ _ _ _ Hx1 Hy0) in Hr1. done. }
  assert (Hz0 : is_file (ftable s1) f0 (set_f_ref 1 x0)) by (apply is_file_insert_ne; [done|lia|done]).
  assert (Hz1 : is_file (ftable s1) f1 (set_f_ref 1 x1)) by by eapply is_file_insert_eq.
  assert (I1' : FI (add_ref f0 1 (add_ref f1 1 ext)) ({[f1]} ∪ ({[f0]} ∪ ∅)) s1)
    by (eapply FI_ext; [exact I1|]; intros g; apply add_ref_swap).
  apply runs_bind. eapply FI_kalloc; [exact I1'|..].
  - intros Hpg. change (0 =? 0) with true. destruct (Z.eqb_spec f0 0), (Z.eqb_spec f1 0); [lia|lia|lia|]. cbn [negb].
    apply runs_bind. eapply runs_mono.
    { apply (runs_close_fresh me (add_ref f1 1 ext) ({[f1]} ∪ ({[f0]} ∪ ∅)) s1 f0 (set_f_ref 1 x0)); [done|done|set_solver|done|].
      rewrite add_ref_ne by done. apply He. }
    intros _ s2 [I2 [Ho2 Hs2]]. apply runs_bind. eapply runs_mono.
    { apply (runs_close_fresh me ext ({[f1]} ∪ ({[f0]} ∪ ∅) ∖ {[f0]}) s2 f1 (set_f_ref 1 x1)); [|by apply Hs2|set_solver|done|done].
      replace ({[f1]} ∪ ({[f0]} ∪ ∅) ∖ {[f0]}) with (({[f1]} ∪ ({[f0]} ∪ ∅) : gset Z) ∖ {[f0]}) by set_solver. done. }
    intros _ s3 [I3 [Ho3 _]]. kred.
    replace (({[f1]} ∪ ({[f0]} ∪ ∅) ∖ {[f0]}) ∖ {[f1]}) with (∅ : gset Z) in I3 by set_solver.
    split_and!; [done|by rewrite Ho3, Ho2|by right].
  - intros a pg l Ha I2 Hpa Hk Hok Hnin Hl. destruct (Z.eqb_spec a 0); [done|]. kred.
    eapply runs_setf; [exact Hz0|]. apply runs_bind. eapply runs_setf; [apply is_file_insert_ne; [exact Hz1|lia|done]|].
    kred. split_and!; [lia|lia|lia|lia| |done|done|].
    + rewrite <-(fresh_two f0 f1). unfold FileSpec.FI. cbn -[s1 fidx].
      pose proof (fi_ref _ _ _ _ _ _ _ _ I1' _ _ Hz0) as E0. pose proof (fi_ref _ _ _ _ _ _ _ _ I1' _ _ Hz1) as E1.
      cbn [f_ref set_f_ref] in E0, E1.
      eapply (finv_new_pipe kend _ _ _ (ftable s1) _ (pipes s) pg f0 f1 (set_f_ref 1 x0) (set_f_ref 1 x1)); try done.
      * apply (fi_none _ _ _ _ _ _ _ _ I1' _ _ Hz0). right. set_solver.
      * apply (fi_none _ _ _ _ _ _ _ _ I1' _ _ Hz1). right. set_solver.
      * set_solver.
      * set_solver.
      * exists []. apply pring_new.
      * change (File.ofile s) with (File.ofile s1). lia.
      * change (File.ofile s) with (File.ofile s1). lia.
    + exists a. split; try done.
      * by exists x0.
      * exists x1. split; [|done]. destruct Hx1 as [H1 H2]. split; [done|]. cbn [ftable s0 set_ftable] in H2.
        rewrite list_lookup_insert_ne in H2; [done|]. intros E. apply Hne. unfold fidx in E. lia.
      * eexists. split; [apply is_file_insert_ne; [eapply is_file_insert_eq; exact Hz0|lia|done]|done].
      * eexists. split; [eapply is_file_insert_eq, is_file_insert_ne; [exact Hz1|lia|done]|done].
      * intros f x H1 H2 Hx. do 2 (apply is_file_insert_ne; [|lia|done]). do 2 (apply is_file_insert_ne; [|lia|done]). done.
Qed.

(** ** sys_pipe *)

Lemma runs_copyout_fs a l (s : st) (Q : Z → st → Prop) :
  (let c := copy_prefix (umem (fsys s)) a l in Q (if c.2 then 0 else -1) (set_fsys (set_umem c.1 (fsys s)) s)) →
  runs (on_fs (either_copyout true a l)) s Q.
Proof.
  intros HQ. unfold runs, on_fs, zoom, either_copyout, bind, gets. destruct (copy_prefix _ _ _) as [um ok]. apply HQ.
Qed.

Lemma runs_close_ends me ext (s : st) f0 f1 a :
  FI (add_ref f0 1 (add_ref f1 1 ext)) ∅ s → f0 ≠ f1 → is_end (ftable s) f0 a false → is_end (ftable s) f1 a true → (∀ g, 0 <= ext g) →
  runs (fileclose me kend f0 ;;; fileclose me kend f1 ;;; ret (-1)) s
    (λ r s', r = -1 ∧ FI ext ∅ s' ∧ File.ofile s' = File.ofile s).
Proof.
  intros I Hne (x0 & Hx0 & T0 & _) (x1 & Hx1 & T1 & _) He. apply runs_bind. eapply runs_mono.
  { apply (runs_fileclose kend kend_pos me (add_ref f0 1 (add_ref f1 1 ext)) ∅ s f0 x0); [exact I|done| |done|by left].
    rewrite add_ref_same, add_ref_ne by done. specialize (He f0). lia. }
  intros _ s2 [I2 [Ho2 Hs2]]. apply runs_bind. eapply runs_mono.
  { apply (runs_fileclose kend kend_pos me (add_ref f1 1 ext) ∅ s2 f1 x1); [|by apply Hs2| |done|by left].
    - rewrite fresh_same in I2 by done. eapply FI_ext; [exact I2|]. intros g. by rewrite add_ref_undo.
    - rewrite add_ref_same. specialize (He f1). lia. }
  intros _ s3 [I3 [Ho3 _]]. kred. rewrite fresh_same in I3 by done. split_and!; [done| |by rewrite Ho3].
  eapply FI_ext; [exact I3|]. intros g. by rewrite add_ref_undo.
Qed.

(** [fd] is the lowest free descriptor. *)
Definition lowest_fd (l : list Z) (fd : Z) : Prop :=
  0 <= fd < NOFILE ∧ l !! Z.to_nat fd = Some 0 ∧ ∀ i x, (i < Z.to_nat fd)%nat → l !! i = Some x → x ≠ 0.

(** The int [v] is in user memory at [a]. *)
Definition user_int (um : gmap Z Z) (a v : Z) : Prop := ∀ i c, int_bytes v !! i = Some c → um !! u64 (a + Z.of_nat i) = Some c.

(** sys_pipe(dst) has given the two lowest free descriptors to the read end
    and the write end of a new pipe, and has stored their numbers. *)
Definition pipe_made (dst : Z) (s s' : st) : Prop := ∃ fd0 fd1 f0 f1 a,
  lowest_fd (File.ofile s) fd0 ∧ lowest_fd (<[Z.to_nat fd0 := f0]> (File.ofile s)) fd1 ∧ new_pipe s f0 f1 a s' ∧
  File.ofile s' = <[Z.to_nat fd1 := f1]> (<[Z.to_nat fd0 := f0]> (File.ofile s)) ∧
  user_int (umem (fsys s')) dst fd0 ∧ user_int (umem (fsys s')) (dst + 4) fd1 ∧
  ∀ k, (∀ i, 0 <= i < 8 → k ≠ u64 (dst + i)) → umem (fsys s') !! k = umem (fsys s) !! k.

(** Why there may be no pipe: not two free files, no free page, not two free
    descriptors, or no memory at [dst] to store their numbers. *)
Definition no_pipe (dst : Z) (s : st) : Prop :=
  (∀ f g, free_file s f → free_file s g → f = g) ∨ kinv kend (pages s) [] ∨
  (∀ i j, File.ofile s !! i = Some 0 → File.ofile s !! j = Some 0 → i = j) ∨
  ∃ k, 0 <= k < 8 ∧ umem (fsys s) !! u64 (dst + k) = None.

Lemma length_int_bytes v : length (int_bytes v) = 4%nat.
Proof. done. Qed.

(** Both numbers are stored, or memory is missing for them. *)
Lemma store_two um dst v w :
  let c0 := copy_prefix um dst (int_bytes v) in
  let c1 := copy_prefix c0.1 (u64 (dst + 4)) (int_bytes w) in
  (c0.2 = false ∨ c1.2 = false → ∃ k, 0 <= k < 8 ∧ um !! u64 (dst + k) = None) ∧
  (c0.2 = true → c1.2 = true → user_int c1.1 dst v ∧ user_int c1.1 (dst + 4) w ∧
     ∀ k, (∀ i, 0 <= i < 8 → k ≠ u64 (dst + i)) → c1.1 !! k = um !! k).
Proof.
  intros c0 c1. unfold c1. rewrite copy_prefix_u64. pose proof (length_int_bytes v) as Lv. pose proof (length_int_bytes w) as Lw. split.
  - intros [(k & Hk & Hn)%copy_prefix_fail|(k & Hk & Hn)%copy_prefix_fail].
    + exists k. split; [lia|done].
    + exists (4 + k). split; [lia|]. rewrite Z.add_assoc. destruct (um !! u64 (dst + 4 + k)) as [y|] eqn:E; [|done].
      destruct (proj2 (copy_prefix_dom um dst (int_bytes v) (u64 (dst + 4 + k)))) as [z Hz]; [by rewrite E|]. unfold c0 in Hn. congruence.
  - intros H0 H1. destruct (copy_prefix_get um dst (int_bytes v) H0 ltac:(lia)) as [G0 K0].
    destruct (copy_prefix_get c0.1 (dst + 4) (int_bytes w)) as [G1 K1]; [done|lia|]. split_and!; [|done|].
    + intros i c Hc. rewrite K1; [by apply G0|]. apply lookup_lt_Some in Hc. intros j Hj. unfold u64. zdm.
    + intros k Hk. rewrite K1, K0; [done| |].
      * intros i Hi. apply Hk. lia.
      * intros i Hi. rewrite <-Z.add_assoc. apply Hk. lia.
Qed.

Lemma runs_sys_pipe me tf ext (s : st) :
  FI ext ∅ s →
  runs (sys_pipe me kend tf) s (λ r s', FI ext ∅ s' ∧
    (r = -1 ∧ File.ofile s' = File.ofile s ∧ no_pipe (arg tf 0) s ∨ r = 0 ∧ pipe_made (arg tf 0) s s')).
Proof.
  intros I. pose proof (fi_ext _ _ _ _ _ _ _ _ I) as He. unfold sys_pipe. set (dst := arg tf 0). apply runs_bind.
  eapply runs_mono; [by apply runs_pipealloc|]. intros [[f0 f1]|] s1.
  2:{ intros (I1 & Ho1 & Hno). kred. split; [done|]. left. split_and!; [done|done|]. destruct Hno; [by left|by right; left]. }
  intros (Hf0 & Hf1 & I1 & Ho1 & Hfs & a & NP). pose proof (np_ne _ _ _ _ _ NP) as Hne. pose proof (np_read _ _ _ _ _ NP) as He0. pose proof (np_write _ _ _ _ _ NP) as He1.
  assert (Hclose : ∀ t, FI (add_ref f0 1 (add_ref f1 1 ext)) ∅ t → ftable t = ftable s1 → File.ofile t = File.ofile s → no_pipe dst s →
    runs (fileclose me kend f0 ;;; fileclose me kend f1 ;;; ret (-1)) t (λ r s', FI ext ∅ s' ∧
      (r = -1 ∧ File.ofile s' = File.ofile s ∧ no_pipe dst s ∨ r = 0 ∧ pipe_made dst s s'))).
  { intros t It Ht Hot Hwhy. eapply runs_mono; [apply (runs_close_ends me ext t f0 f1 a); [done|done|by rewrite Ht|by rewrite Ht|done]|].
    intros r s' (-> & I' & Ho'). split; [done|]. left. by rewrite Ho'. }
  apply runs_bind. eapply runs_fdalloc; [exact I1|..].
  { intros Hnone. apply Hclose; [done|done|done|]. right. right. left. intros i j Hi. rewrite <-Ho1 in Hi. by destruct (Hnone _ _ Hi). }
  intros fd0 Hfd0 Hl0 Hlow0. destruct (Z.ltb_spec fd0 0); [lia|].
  assert (I2 : FI (add_ref f1 1 ext) ∅ (set_ofile (<[Z.to_nat fd0 := f0]> (File.ofile s1)) s1)).
  { eapply FI_ext; [apply (FI_take_fd kend (add_ref f0 1 (add_ref f1 1 ext)) ∅ s1); [done|done| |done]|intros g; by rewrite add_ref_undo].
    rewrite add_ref_same, add_ref_ne by done. specialize (He f0). lia. }
  rewrite Ho1 in *. set (s2 := set_ofile _ s1) in *.
  assert (Hback : <[Z.to_nat fd0 := 0]> (<[Z.to_nat fd0 := f0]> (File.ofile s)) = File.ofile s)
    by (rewrite list_insert_insert_eq; by apply list_insert_id).
  apply runs_bind. eapply runs_fdalloc; [exact I2|..].
  { intros Hnone. change (File.ofile s2) with (<[Z.to_nat fd0 := f0]> (File.ofile s)) in Hnone. apply runs_bind, runs_modify. apply Hclose; [|done|exact Hback|].
    - apply (FI_drop_fd kend (add_ref f1 1 ext) ∅ s2); [done| |lia].
      change (<[Z.to_nat fd0 := f0]> (File.ofile s) !! Z.to_nat fd0 = Some f0). apply list_lookup_insert_eq. by eapply lookup_lt_Some.
    - right. right. left. assert (Honly : ∀ i, File.ofile s !! i = Some 0 → i = Z.to_nat fd0).
      { intros i Hi. destruct (decide (i = Z.to_nat fd0)) as [|Hn]; [done|]. destruct (Hnone i 0); [|done]. by rewrite list_lookup_insert_ne. }
      intros i j Hi Hj. by rewrite (Honly i Hi), (Honly j Hj). }
  intros fd1 Hfd1 Hl1 Hlow1. destruct (Z.ltb_spec fd1 0); [lia|]. change (File.ofile s2) with (<[Z.to_nat fd0 := f0]> (File.ofile s)) in *.
  assert (Hfd : Z.to_nat fd0 ≠ Z.to_nat fd1).
  { intros E. rewrite <-E, list_lookup_insert_eq in Hl1; [injection Hl1; lia|]. by eapply lookup_lt_Some. }
  assert (I3 : FI ext ∅ (set_ofile (<[Z.to_nat fd1 := f1]> (<[Z.to_nat fd0 := f0]> (File.ofile s))) s2)).
  { eapply FI_ext; [apply (FI_take_fd kend (add_ref f1 1 ext) ∅ s2 f1 fd1); [done|done| |done]|intros g; by rewrite add_ref_undo].
    rewrite add_ref_same. specialize (He f1). lia. }
  assert (Hl1' : File.ofile s !! Z.to_nat fd1 = Some 0) by by rewrite list_lookup_insert_ne in Hl1.
  set (s3 := set_ofile _ s2) in *. change (fsys s3) with (fsys s1).
  assert (Hundo : ∀ y, no_pipe dst s → runs (drop_fd fd0 ;;; drop_fd fd1 ;;; fileclose me kend f0 ;;; fileclose me kend f1 ;;; ret (-1)) (set_fsys y s3)
    (λ r s', FI ext ∅ s' ∧ (r = -1 ∧ File.ofile s' = File.ofile s ∧ no_pipe dst s ∨ r = 0 ∧ pipe_made dst s s'))).
  { intros y Hwhy. apply runs_bind, runs_modify, runs_bind, runs_modify. apply Hclose; [|done| |done].
    + cbn [set_ofile set_fsys File.ofile]. eapply FI_ext; [|intros g; apply add_ref_swap].
      apply (FI_drop_fd kend (add_ref f0 1 ext) ∅ (set_ofile (<[Z.to_nat fd0 := 0]> (<[Z.to_nat fd1 := f1]> (<[Z.to_nat fd0 := f0]> (File.ofile s))))
        (set_fsys y s2))); [| |lia].
      * apply (FI_drop_fd kend ext ∅ (set_fsys y s3)); [done| |lia].
        change (<[Z.to_nat fd1 := f1]> (<[Z.to_nat fd0 := f0]> (File.ofile s)) !! Z.to_nat fd0 = Some f0).
        rewrite list_lookup_insert_ne by done. apply list_lookup_insert_eq. by eapply lookup_lt_Some.
      * change (<[Z.to_nat fd0 := 0]> (<[Z.to_nat fd1 := f1]> (<[Z.to_nat fd0 := f0]> (File.ofile s))) !! Z.to_nat fd1 = Some f1).
        rewrite list_lookup_insert_ne by done. apply list_lookup_insert_eq. rewrite length_insert. by eapply lookup_lt_Some.
    + change (<[Z.to_nat fd1 := 0]> (<[Z.to_nat fd0 := 0]> (<[Z.to_nat fd1 := f1]> (<[Z.to_nat fd0 := f0]> (File.ofile s)))) = File.ofile s).
      rewrite (list_insert_insert_ne _ (Z.to_nat fd0)), list_insert_insert_eq, Hback by done.
      by apply list_insert_id. }
  destruct (store_two (umem (fsys s)) dst fd0 fd1) as [Hbad Hgood]. cbv zeta in Hbad, Hgood.
  apply runs_bind, runs_copyout_fs. cbv zeta. change (fsys s3) with (fsys s1). rewrite Hfs.
  destruct (copy_prefix (umem (fsys s)) dst (int_bytes fd0)) as [um0 [|]] eqn:E0; cbn [fst snd] in *; cycle 1.
  { cbn [Z.ltb Z.compare Z.opp]. apply runs_bind, runs_ret. cbv beta. cbn [Z.ltb Z.compare]. apply Hundo. right. right. right. apply Hbad. by left. }
  cbn [Z.ltb Z.compare]. apply runs_bind, runs_copyout_fs. cbv zeta. cbn [fsys set_fsys umem set_umem].
  destruct (copy_prefix um0 (u64 (dst + 4)) (int_bytes fd1)) as [um1 [|]] eqn:E1; cbn [fst snd] in *; cbn [Z.ltb Z.compare].
  - apply runs_ret. split; [done|]. right. split; [done|]. destruct (Hgood eq_refl eq_refl) as (G1 & G2 & G3).
    exists fd0, fd1, f0, f1, a. split; [by split_and!; try lia|]. split; [by split_and!; try lia|]. split; [by destruct NP|]. by split_and!.
  - apply (Hundo (set_umem um1 (set_umem um0 (fsys s)))). right. right. right. apply Hbad. by right.
Qed.

(** ** sys_dup and sys_close *)

(** A descriptor refers to an open file. *)
Lemma fd_file ext fresh (s : st) i f :
  FI ext fresh s → File.ofile s !! i = Some f → f ≠ 0 → ∃ x, is_file (ftable s) f x ∧ 1 <= f_ref x.
Proof.
  intros I Hi Hf. destruct (fi_ofile _ _ _ _ _ _ _ _ I) as [_ Hall].
  assert (0 <= f <= NFILE) by (eapply Forall_lookup_1 in Hall; done).
  destruct (is_file_ex _ _ _ _ f I) as [x Hx]; [lia|]. exists x. split; [done|].
  rewrite (FI_ref _ _ _ _ _ I Hx). pose proof (fi_ext _ _ _ _ _ _ _ _ I f). pose proof (cnt_pos _ _ _ Hi). lia.
Qed.

(** The file that the descriptor [fd] names, in a table of descriptors. *)
Definition open_fd (l : list Z) (fd : Z) : option Z :=
  if decide (0 <= fd < NOFILE) then match l !! Z.to_nat fd with Some f => if f =? 0 then None else Some f | None => None end else None.

Lemma arg_fd_eq tf n ext fresh (s : st) :
  FI ext fresh s → arg_fd tf n s = Ok ((λ f, (arg_int tf n, f)) <$> open_fd (File.ofile s) (arg_int tf n)) s.
Proof.
  intros I. unfold arg_fd, open_fd. rewrite Z.geb_leb. destruct (Z.ltb_spec (arg_int tf n) 0), (Z.leb_spec NOFILE (arg_int tf n));
    [by rewrite decide_False by lia..|]. rewrite decide_True by lia. cbn [orb]. unfold bind, gets.
  destruct (fi_ofile _ _ _ _ _ _ _ _ I) as [Hlen _].
  destruct (lookup_lt_is_Some_2 (File.ofile s) (Z.to_nat (arg_int tf n))) as [f Hf]; [lia|]. rewrite Hf. by destruct (f =? 0).
Qed.

Lemma open_fd_Some l fd f : open_fd l fd = Some f → 0 <= fd < NOFILE ∧ l !! Z.to_nat fd = Some f ∧ f ≠ 0.
Proof.
  unfold open_fd. case_decide; [|done]. destruct (l !! Z.to_nat fd) as [g|]; [|done]. destruct (Z.eqb_spec g 0); [done|]. by intros [= ->].
Qed.

(** The descriptor in argument [n] names an open file. *)
Lemma runs_arg_fd tf n ext fresh (s : st) (Q : option (Z * Z) → st → Prop) :
  FI ext fresh s → Q None s →
  (∀ fd f x, 0 <= fd < NOFILE → File.ofile s !! Z.to_nat fd = Some f → f ≠ 0 → is_file (ftable s) f x → 1 <= f_ref x →
     Q (Some (fd, f)) s) →
  runs (arg_fd tf n) s Q.
Proof.
  intros I H0 H1. eapply runs_Ok; [by eapply arg_fd_eq|]. destruct (open_fd _ _) as [f|] eqn:E; [|done].
  apply open_fd_Some in E as (Hfd & Hl & Hf). destruct (fd_file _ _ _ _ _ I Hl Hf) as (x & Hx & Hr). by eapply H1.
Qed.

(** What sys_dup on the descriptor [fd] does: it fails without an open file or
    without a free descriptor, and else makes the lowest free one name the
    same file, which has one more reference then. *)
Definition dup_post (fd : Z) (s : st) (r : Z) (s' : st) : Prop :=
  match open_fd (File.ofile s) fd with
  | None => r = -1 ∧ s' = s
  | Some f =>
      (r = -1 ∧ s' = s ∧ ∀ i x, File.ofile s !! i = Some x → x ≠ 0) ∨
      lowest_fd (File.ofile s) r ∧ ∃ x, is_file (ftable s) f x ∧
        s' = set_ofile (<[Z.to_nat r := f]> (File.ofile s)) (set_ftable (<[fidx f := set_f_ref (f_ref x + 1) x]> (ftable s)) s)
  end.

Lemma runs_sys_dup tf ext (s : st) :
  FI ext ∅ s → (∀ g, ext g < 2 ^ 30) →
  runs (sys_dup tf) s (λ r s', FI ext ∅ s' ∧ dup_post (arg_int tf 0) s r s').
Proof.
  intros I Hb. unfold sys_dup, dup_post. apply runs_bind. eapply runs_Ok; [by eapply arg_fd_eq|].
  destruct (open_fd (File.ofile s) (arg_int tf 0)) as [f|] eqn:Eo; cbn [fmap option_fmap option_map]; [|by apply runs_ret].
  apply open_fd_Some in Eo as (Hfd & Hl & Hf). destruct (fd_file _ _ _ _ _ I Hl Hf) as (x & Hx & Hr).
  apply runs_bind. eapply runs_fdalloc; [exact I|intros Hno; kred; split; [done|by left]|].
  intros fd' Hfd' Hl' Hlow. destruct (Z.ltb_spec fd' 0); [lia|]. apply runs_bind.
  pose proof (FI_ref _ _ _ _ _ I Hx) as E. pose proof (cnt_le f (File.ofile s)).
  destruct (fi_ofile _ _ _ _ _ _ _ _ I) as [Hlen _]. specialize (Hb f). unfold NOFILE in Hlen.
  eapply runs_filedup; [apply (FI_lock _ _ _ _ I)|exact Hx|lia|]. kred. split.
  - eapply FI_ext; [apply (FI_take_fd kend (add_ref f 1 ext) ∅ (set_ftable (<[fidx f := set_f_ref (f_ref x + 1) x]> (ftable s)) s) f fd')|].
    + by apply FI_dup.
    + by eapply is_file_range.
    + rewrite add_ref_same. pose proof (fi_ext _ _ _ _ _ _ _ _ I f). lia.
    + done.
    + intros g. by rewrite add_ref_undo.
  - right. split; [by split_and!; try lia|]. by exists x.
Qed.

(** The state in which sys_close calls fileclose. *)
Lemma FI_unhook ext (s : st) fd f x :
  FI ext ∅ s → File.ofile s !! Z.to_nat fd = Some f → f ≠ 0 → is_file (ftable s) f x →
  let s1 := set_ofile (<[Z.to_nat fd := 0]> (File.ofile s)) s in
  FI (add_ref f 1 ext) ∅ s1 ∧ is_file (ftable s1) f x ∧ 1 <= add_ref f 1 ext f.
Proof.
  intros I Hl Hf Hx s1. split_and!; [by apply FI_drop_fd|done|].
  rewrite add_ref_same. pose proof (fi_ext _ _ _ _ _ _ _ _ I f). lia.
Qed.

Lemma okays_sys_close me tf ext (s : st) : FI ext ∅ s → okays (sys_close me kend tf) s (λ _ s', FI ext ∅ s').
Proof.
  intros I. unfold sys_close. apply okays_bind, runs_okays. eapply runs_arg_fd; [exact I|done|].
  intros fd f x Hfd Hl Hf Hx Hr. apply okays_bind, okays_modify, okays_bind.
  destruct (FI_unhook _ _ _ _ _ I Hl Hf Hx) as (I1 & Hx1 & He1).
  eapply okays_mono; [by apply (okays_fileclose kend kend_pos me _ _ _ _ x I1)|].
  intros _ s' [I' _]. apply okays_ret. rewrite fresh_same in I' by done.
  eapply FI_ext; [exact I'|]. intros g. by rewrite add_ref_undo.
Qed.

(** Closing a descriptor always returns, unless the file system has to put
    the inode away. *)
Lemma runs_sys_close me tf ext (s : st) f x :
  FI ext ∅ s → open_fd (File.ofile s) (arg_int tf 0) = Some f → is_file (ftable s) f x →
  (f_ref x = 1 → f_type x = FD_PIPE ∨ f_type x = FD_NONE) →
  runs (sys_close me kend tf) s (λ r s', FI ext ∅ s' ∧ r = 0 ∧
    File.ofile s' = <[Z.to_nat (arg_int tf 0) := 0]> (File.ofile s) ∧ ∀ y, is_file (ftable s') f y → f_ref y = f_ref x - 1).
Proof.
  intros I Eo Hx Ht. unfold sys_close. apply runs_bind. eapply runs_Ok; [by eapply arg_fd_eq|]. rewrite Eo. cbn [fmap option_fmap option_map].
  apply open_fd_Some in Eo as (Hfd & Hl & Hf). apply runs_bind, runs_modify, runs_bind.
  destruct (FI_unhook _ _ _ _ _ I Hl Hf Hx) as (I1 & Hx1 & He1).
  eapply runs_mono; [apply (runs_fileclose kend kend_pos me _ _ _ _ x I1); [done|done|done|done]|].
  intros _ s' [I' [Ho _]]. apply runs_ret. rewrite fresh_same in I' by done.
  assert (I2 : FI ext ∅ s') by (eapply FI_ext; [exact I'|]; intros g; by rewrite add_ref_undo). split; [done|]. split; [done|]. split; [by rewrite Ho|].
  intros y Hy. rewrite (FI_ref _ _ _ _ _ I2 Hy), (FI_ref _ _ _ _ _ I Hx), Ho. cbn [set_ofile File.ofile].
  rewrite (cnt_insert f _ _ f) by done. rewrite decide_True, decide_False by done. lia.
Qed.

(** ** Reading and writing *)

(** A pipe operation that leaves the ends as they are. *)
Definition quiet_pipe {A} (m : K pst A) : Prop := ∀ p um q,
  pring p q → plock p = false →
  runs m (mkPst p um [] false) (λ _ t, ∃ q', pring (Pipe.pi t) q' ∧ plock (Pipe.pi t) = false ∧ Pipe.freed t = false ∧
    readopen (Pipe.pi t) = readopen p ∧ writeopen (Pipe.pi t) = writeopen p).

Lemma FI_pipe_data ext fresh (s : st) a p p' w um :
  FI ext fresh s → pipes s !! a = Some p → readopen p' = readopen p → writeopen p' = writeopen p →
  plock p' = false → (∃ q, pring p' q) →
  FI ext fresh (set_pipes (<[a := p']> (pipes s)) w (set_fsys um s)).
Proof.
  intros I Ha Er Ew Hlk Hq. unfold FileSpec.FI. cbn.
  destruct I as [? ? ? ? ? ? Hpipe ? Hheld Hlive Hpg]. constructor; try done.
  - intros f x Hx Ht. destruct (Hpipe f x Hx Ht) as (? & q & Hq1 & Hq2). split; [done|].
    destruct (decide (f_pipe x = a)) as [E|E]; [|exists q; by rewrite lookup_insert_ne].
    exists p'. rewrite E, lookup_insert_eq. split; [done|]. rewrite E, Ha in Hq1. injection Hq1 as <-.
    destruct (f_writable x); simpl in *; congruence.
  - intros b q wr [[<- <-]|[Hne Hb]]%lookup_insert_Some Ho; [|by apply (Hheld b q)].
    apply (Hheld a p); [done|]. destruct wr; simpl in *; congruence.
  - intros b q [[<- <-]|[Hne Hb]]%lookup_insert_Some; [|by apply (Hlive b)].
    destruct (Hlive _ _ Ha) as (? & _). rewrite Er, Ew. by split_and!.
  - destruct Hpg as (l & Hk & Hl). exists l. split; [done|]. intros b Hb. apply Hl.
    destruct (decide (b = a)) as [->|]; [by rewrite Ha|]. by rewrite lookup_insert_ne in Hb.
Qed.

Lemma runs_on_pipe {A} (m : K pst A) ext fresh (s : st) f x :
  FI ext fresh s → is_file (ftable s) f x → f_type x = FD_PIPE → quiet_pipe m →
  runs (on_pipe kend (f_pipe x) m) s (λ _ s', FI ext fresh s').
Proof.
  intros I Hx Ht Hm. destruct (fi_pipe _ _ _ _ _ _ _ _ I f x Hx Ht) as (_ & p & Hp & _).
  destruct (fi_live _ _ _ _ _ _ _ _ I _ _ Hp) as (_ & Hlk & q & Hq).
  unfold runs, on_pipe. rewrite Hp. specialize (Hm p (umem (fsys s)) q Hq Hlk).
  apply runs_elim in Hm as (a & t & -> & q' & Hq' & Hlk' & Hfr & Hr & Hw). rewrite Hfr.
  eapply FI_pipe_data; [done|done|done|done|done|by exists q'].
Qed.

Lemma quiet_write killed addr n : quiet_pipe (pipewrite killed addr n 0).
Proof.
  intros p um q Hq Hlk. destruct (Z.ltb_spec n 0) as [Hn|Hn].
  - unfold pipewrite. rewrite (Z2Nat.nonpos (n - 0)) by lia. apply runs_bind, runs_acquire_pipe; [done|].
    cbn [iter]. destruct (Z.ltb_spec 0 n); [lia|]. apply runs_bind, runs_bind, runs_modify, runs_bind, runs_release_pipe; [done|].
    kred. by exists q.
  - eapply runs_mono; [by apply (runs_pipewrite killed addr n 0 _ q)|].
    intros e t (bs & [Hq' Hlk'] & _ & _ & Hfr & _ & Hr & Hw & _). by exists (q ++ bs).
Qed.

Lemma quiet_read killed addr n : n < 2 ^ 31 → quiet_pipe (piperead killed addr n).
Proof.
  intros Hn p um q Hq Hlk. eapply runs_mono; [by apply (runs_piperead killed addr n _ q)|].
  intros e t (ds & ls & q' & _ & [Hq' Hlk'] & _ & _ & Hfr & _ & Hr & Hw & _). by exists q'.
Qed.

(** ** Calls that do not touch the table *)

Definition fkeeps {A} (P : st → Prop) (m : K st A) : Prop := ∀ s, P s → okays m s (λ _ s', P s').

Lemma fkeeps_bind {A B} P (m : K st A) (f : A → K st B) : fkeeps P m → (∀ a, fkeeps P (f a)) → fkeeps P (bind m f).
Proof. intros Hm Hf s Hs. apply okays_bind. eapply okays_mono; [by apply Hm|]. intros a s' Hs'. by apply Hf. Qed.
Lemma fkeeps_ret {A} P (a : A) : fkeeps P (ret a).
Proof. by intros s Hs. Qed.
Lemma fkeeps_gets {A} P (f : st → A) : fkeeps P (gets f).
Proof. by intros s Hs. Qed.
Lemma fkeeps_panic {A} P msg : fkeeps (A := A) P (panic msg).
Proof. by intros s Hs. Qed.
Lemma fkeeps_on_fs {A} ext fresh (m : K (fsst (lst S)) A) : fkeeps (FI ext fresh) (on_fs m).
Proof. intros s Hs. by apply okays_on_fs. Qed.

(** A change of the offset. *)
Lemma fkeeps_set_off ext fresh f o : fkeeps (FI ext fresh) (setf f (set_f_off o)).
Proof.
  intros s I. unfold okays, setf. destruct (ftable s !! fidx f) as [x|] eqn:E; [|done].
  destruct (Z.leb_spec 1 f); [|done]. assert (Hx : is_file (ftable s) f x) by done.
  unfold FileSpec.FI. cbn [ft_lock ftable File.ofile pipes pages set_ftable].
  eapply finv_update; [exact I|exact Hx|..]; simpl; try done.
  - apply (fi_ext _ _ _ _ _ _ _ _ I).
  - by apply (FI_ref ext fresh).
  - by apply (fi_none _ _ _ _ _ _ _ _ I).
Qed.

Lemma okays_getf (s : st) f (Q : file → st → Prop) :
  (∀ x, is_file (ftable s) f x → Q x s) → okays (getf f) s Q.
Proof.
  intros HQ. unfold okays, getf. destruct (ftable s !! fidx f) as [x|] eqn:E; [|done].
  destruct (Z.leb_spec 1 f); [|done]. by apply HQ.
Qed.

Create HintDb fkeep.
#[local] Hint Resolve fkeeps_ret fkeeps_gets fkeeps_panic fkeeps_on_fs fkeeps_set_off : fkeep.
Ltac fkeep :=
  repeat (cbv beta zeta;
    match goal with
    | |- fkeeps _ (bind _ _) => apply fkeeps_bind; [|intros ?]
    | |- fkeeps _ (match ?x with _ => _ end) => destruct x
    | |- fkeeps _ (begin_op_fs) => apply fkeeps_on_fs
    | |- fkeeps _ (end_op_fs _) => apply fkeeps_on_fs
    | |- fkeeps _ (argstr _ _ _ _) => apply fkeeps_on_fs
    | _ => solve [auto with fkeep]
    end).

Ltac to_fkeeps :=
  match goal with |- ∀ s, FI ?e ?f s → okays ?m s _ => change (fkeeps (FI e f) m) end.

Lemma fkeeps_link me fr tf ext fresh : fkeeps (FI ext fresh) (sys_link me fr tf).
Proof. unfold sys_link. fkeep. Qed.
Lemma fkeeps_unlink me fr tf ext fresh : fkeeps (FI ext fresh) (sys_unlink me fr tf).
Proof. unfold sys_unlink. fkeep. Qed.
Lemma fkeeps_make_node me fr tf ty ma mi ext fresh : fkeeps (FI ext fresh) (make_node me fr tf ty ma mi).
Proof. unfold make_node. fkeep. Qed.
Lemma fkeeps_chdir me fr tf ext fresh : fkeeps (FI ext fresh) (sys_chdir me fr tf).
Proof. unfold sys_chdir. fkeep. Qed.

Context (dev_read dev_write : Z → option (Z → Z → K (fsst (lst S)) Z)).

Lemma fkeeps_fileread me killed f addr n ext :
  n < 2 ^ 31 → fkeeps (FI ext ∅) (fileread me kend dev_read killed f addr n).
Proof.
  intros Hn s I. unfold fileread. apply okays_bind, okays_getf. intros x Hx.
  destruct (negb (f_readable x)); [done|]. destruct (f_type x) eqn:Ht; [done|..].
  - apply okays_bind. eapply okays_mono; [by eapply runs_okays, runs_on_pipe, quiet_read|]. by intros e s' I'.
  - clear Hx. revert s I. to_fkeeps. fkeep.
  - destruct (device dev_read (f_major x)) as [rd|]; [|done]. apply okays_bind, okays_on_fs. intros r y. by apply okays_ret.
Qed.

Lemma fkeeps_iter {A B} P fuel (body : A → K st (A + B)) a : (∀ a, fkeeps P (body a)) → fkeeps P (iter fuel body a).
Proof.
  intros Hb s Hs. apply (okays_iter _ _ (λ _ s, P s)); [|done]. intros a' s' Hs'.
  eapply okays_mono; [by apply Hb|]. by intros [?|?] s2 ?.
Qed.

Lemma fkeeps_write_chunks me f addr n ext : fkeeps (FI ext ∅) (write_chunks me true f addr n).
Proof.
  assert (Hc : ∀ a n1, fkeeps (FI ext ∅) (write_chunk me true f a n1)).
  { intros a n1 s I. unfold write_chunk. apply okays_bind, okays_getf. intros x _. revert s I.
    to_fkeeps. fkeep. }
  unfold write_chunks. apply fkeeps_bind; [|intros i; fkeep]. apply fkeeps_iter. intros i.
  destruct (i <? n); [|fkeep]. apply fkeeps_bind; [apply Hc|intros r; fkeep].
Qed.

Lemma fkeeps_filewrite me killed f addr n ext :
  fkeeps (FI ext ∅) (filewrite me kend dev_write killed f addr n).
Proof.
  intros s I. unfold filewrite, filewrite_from. apply okays_bind, okays_getf. intros x Hx.
  destruct (negb (f_writable x)); [done|]. destruct (f_type x) eqn:Ht; [done|..].
  - apply okays_bind. eapply okays_mono; [by eapply runs_okays, runs_on_pipe, quiet_write|]. by intros e s' I'.
  - apply okays_bind. eapply okays_mono; [by apply fkeeps_write_chunks|]. by intros r s' I'.
  - destruct (device dev_write (f_major x)) as [wr|]; [|done]. apply okays_bind, okays_on_fs. intros r y. by apply okays_ret.
Qed.

Lemma fkeeps_filestat me pad f addr ext : fkeeps (FI ext ∅) (filestat me pad f addr).
Proof.
  intros s I. unfold filestat. apply okays_bind, okays_getf. intros x _. revert s I.
  to_fkeeps. fkeep.
Qed.

Lemma fkeeps_arg_fd tf n ext : fkeeps (FI ext ∅) (arg_fd tf n).
Proof. intros s I. by eapply runs_okays, runs_arg_fd. Qed.

(** ** sys_open *)

(** A file that is being opened gets its type. *)
Lemma FI_typed ext fresh (s : st) f x y :
  FI ext fresh s → is_file (ftable s) f x → f_type x ≠ FD_PIPE → 1 <= f_ref x →
  f_ref y = f_ref x → f_type y ≠ FD_PIPE → f_type y ≠ FD_NONE →
  FI ext (fresh ∖ {[f]}) (set_ftable (<[fidx f := y]> (ftable s)) s).
Proof.
  intros I Hx Ht Hr Er Hp Hn. unfold FileSpec.FI. cbn [ft_lock ftable File.ofile pipes pages set_ftable].
  eapply finv_update; [exact I|exact Hx|..]; try done.
  - apply (fi_ext _ _ _ _ _ _ _ _ I).
  - rewrite Er. by apply (FI_ref ext fresh).
  - intros g Hg. by apply fresh_drop.
  - split; [done|]. intros [?|?%fresh_gone]; [lia|done].
Qed.

Definition slot_post (ext : Z → Z) (r : option (Z * Z)) (s' : st) : Prop :=
  match r with
  | None => FI ext ∅ s'
  | Some (f, fd) => FI ext {[f]} s' ∧ ∃ x, is_file (ftable s') f x ∧ f_type x = FD_NONE ∧ f_ref x = 1
  end.

Lemma okays_open_slot me ip ext (s : st) :
  FI ext ∅ s → okays (open_slot me kend ip) s (slot_post ext).
Proof.
  intros I. pose proof (fi_ext _ _ _ _ _ _ _ _ I) as He. unfold open_slot. apply okays_bind, runs_okays.
  assert (Hundo : ∀ f t, okays (if negb (f =? 0) then fileclose me kend f else ret tt) t (λ _ s', FI ext ∅ s') →
    okays (open_undo me kend f ip ;;; ret None) t (slot_post ext)).
  { intros f t Ht. apply okays_bind. unfold open_undo. apply okays_bind. eapply okays_mono; [exact Ht|].
    intros u s' I'. apply okays_bind, okays_on_fs. intros _ y. apply okays_on_fs. intros _ z. by apply okays_ret. }
  eapply runs_filealloc; [exact I|..].
  - intros _. change (0 =? 0) with true. cbv iota. by apply Hundo.
  - intros f x Hx Hr. pose proof (FI_alloc _ _ _ _ _ _ I Hx Hr) as I1. pose proof (is_file_range _ _ _ _ _ _ I Hx).
    destruct (Z.eqb_spec f 0); [lia|]. set (s1 := set_ftable _ s) in *.
    assert (Hy : is_file (ftable s1) f (set_f_ref 1 x)) by by eapply is_file_insert_eq.
    apply okays_bind, runs_okays. eapply runs_fdalloc; [exact I1|..].
    + intros _. change (-1 <? 0) with true. apply Hundo. destruct (Z.eqb_spec f 0); [lia|].
      apply runs_okays. eapply runs_mono.
      { apply (runs_close_fresh me ext ({[f]} ∪ ∅) s1 f (set_f_ref 1 x)); [done|done|set_solver|done|done]. }
      intros _ s' [I' _]. by rewrite fresh_one in I'.
    + intros fd Hfd Hl _. destruct (Z.ltb_spec fd 0); [lia|]. apply okays_ret. split.
      * replace ({[f]} : gset Z) with ({[f]} ∪ ∅ : gset Z) by set_solver.
        eapply FI_ext; [apply (FI_take_fd kend (add_ref f 1 ext)); [exact I1|done| |exact Hl]|intros g; by rewrite add_ref_undo].
        rewrite add_ref_same. specialize (He f). lia.
      * exists (set_f_ref 1 x). split_and!; [done| |done]. apply (fi_none _ _ _ _ _ _ _ _ I1 _ _ Hy). right. set_solver.
Qed.

(** The rest of sys_open once the inode is known. *)
Lemma okays_open_node me fr tf ext (s : st) : FI ext ∅ s → okays (sys_open me kend fr tf) s (λ _ s', FI ext ∅ s').
Proof.
  revert s. to_fkeeps. unfold sys_open. cbv zeta.
  apply fkeeps_bind; [apply fkeeps_on_fs|]. intros n. destruct (n <? 0); [fkeep|].
  apply fkeeps_bind; [apply fkeeps_on_fs|]. intros _.
  apply fkeeps_bind; [fkeep|]. intros ip. destruct (ip =? 0); [fkeep|].
  apply fkeeps_bind; [apply fkeeps_on_fs|]. intros i. destruct (_ && _); [fkeep|].
  intros s I. apply okays_bind. eapply okays_mono; [by apply okays_open_slot|].
  intros [[f fd]|] s1; [|intros I1; by apply okays_ret]. intros (I1 & x & Hx & Ht & Hr).
  apply okays_bind, okays_on_fs. intros i' y. apply okays_bind, runs_okays. eapply runs_setf; [exact Hx|].
  set (s2 := set_ftable _ _). set (z := if i_type i' =? T_DEVICE then _ else _) in s2.
  assert (Hz : is_file (ftable s2) f z) by by eapply is_file_insert_eq.
  assert (Hzt : f_ref z = f_ref x ∧ f_type z ≠ FD_PIPE ∧ f_type z ≠ FD_NONE) by (unfold z; by destruct (i_type i' =? T_DEVICE)).
  destruct Hzt as (Hzr & Hzp & Hzn).
  assert (I2 : FI ext ∅ s2).
  { replace (∅ : gset Z) with ({[f]} ∖ {[f]} : gset Z) by set_solver.
    apply (FI_typed ext {[f]} (set_fsys y s1) f x); [exact I1|exact Hx|by rewrite Ht|lia|done|done|done]. }
  apply okays_bind, runs_okays. eapply runs_setf; [exact Hz|].
  match goal with |- okays _ ?s _ => set (s3 := s) end.
  assert (I3 : FI ext ∅ s3).
  { replace (∅ : gset Z) with (∅ ∖ {[f]} : gset Z) by set_solver. apply (FI_typed ext ∅ s2 f z); [done|done|done|lia|done|done|done]. }
  revert I3. generalize s3. to_fkeeps. fkeep.
Qed.
End FdSpec.
