(* ===== verification/FdSafe.v ===== *)
(** Every reference count is the number of descriptors: the system calls on
    files, fork, exit and the switch between processes, in any order. *)

From S2P Require Import Prelude Mem CString Riscv Spinlock Kalloc Ring Pipe BlockCache Bio BioSpec Log LogSpec LogTxn TxnStore LogStore Fs File Syscall SysFile FileSpec FdSpec.
Local Open Scope kernel_scope.

Section FdSafe.
Context {S : Type} `{BC : !BlockCache S} (kend : Z) (kend_pos : 0 < kend).
Context (dev_read dev_write : Z → option (Z → Z → K (fsst (lst S)) Z)).
Abbreviation st := (ofst S).
Abbreviation FI := (FI kend).

(** ** fork *)

Lemma FI_ext_files ext ext' fresh (s : st) :
  FI ext fresh s → (∀ g, 1 <= g <= NFILE → ext' g = ext g) → (∀ g, 0 <= ext' g) → FI ext' fresh s.
Proof.
  intros I E E0. destruct (fi_ofile _ _ _ _ _ _ _ _ I) as [? ?].
  eapply finv_move; [exact I| |done|done|done]. intros g Hg. by rewrite E.
Qed.

(** The child's table is the parent's, and counts. *)
Lemma runs_fork_ofile ext (s : st) :
  FI ext ∅ s → (∀ g, ext g < 2 ^ 30) →
  runs fork_ofile s (λ nl s', nl = File.ofile s ∧ File.ofile s' = File.ofile s ∧ FI (λ g, ext g + cnt g nl) ∅ s').
Proof.
  intros I Hb. destruct (fi_ofile _ _ _ _ _ _ _ _ I) as [Hlen Hall]. pose proof (fi_ext _ _ _ _ _ _ _ _ I) as He.
  unfold fork_ofile. kred. set (l := File.ofile s) in *. unfold NOFILE in Hlen.
  apply (runs_iter _ (λ n '(i, nl) t, n = (length l - i)%nat ∧ (i <= length l)%nat ∧ nl = take i l ∧ File.ofile t = l ∧
    FI (λ g, ext g + cnt g (take i l)) ∅ t) _) with (n := length l); [| |lia].
  2: { split_and!; [lia|lia|done|done|]. eapply FI_ext; [exact I|]. intros g. simpl. unfold cnt. simpl. lia. }
  intros n [i nl] t (-> & Hi & -> & Hot & It). destruct (l !! i) as [f|] eqn:El.
  - assert (Hlt : (i < length l)%nat) by by eapply lookup_lt_Some.
    assert (Htk : take (Datatypes.S i) l = take i l ++ [f]) by by apply take_S_r.
    assert (Hcnt : ∀ g, cnt g (take (Datatypes.S i) l) = cnt g (take i l) + (if decide (f = g) then 1 else 0)).
    { intros g. rewrite Htk, cnt_app, cnt_cons. change (cnt g []) with 0. lia. }
    destruct (Z.eqb_spec f 0) as [->|Hf]; cbn [negb].
    + kred. exists (length l - Datatypes.S i)%nat. split; [lia|]. split_and!; [done|lia|by rewrite Htk|done|].
      eapply FI_ext_files; [exact It| |].
      * intros g Hg. simpl. rewrite Hcnt, decide_False by lia. lia.
      * intros g. simpl. specialize (He g). pose proof (cnt_nonneg g (take (Datatypes.S i) l)). lia.
    + rewrite <-Hot in El. destruct (fd_file _ _ _ _ _ _ It El Hf) as (x & Hx & Hr).
      pose proof (FI_ref _ _ _ _ _ _ It Hx) as Er. cbv beta in Er. pose proof (cnt_le f (File.ofile t)) as Hc1.
      pose proof (cnt_le f (take i l)) as Hc2. rewrite length_take in Hc2. rewrite Hot in Hc1, Er. specialize (Hb f).
      apply runs_bind. eapply runs_filedup; [apply (FI_lock _ _ _ _ It)|exact Hx|lia|]. kred.
      exists (length l - Datatypes.S i)%nat. split; [lia|]. split_and!; [done|lia|by rewrite Htk|done|].
      eapply FI_ext; [apply FI_dup; [exact It|exact Hx|exact Hr]|]. intros g. unfold add_ref. rewrite Hcnt.
      destruct (decide (g = f)), (decide (f = g)); congruence || lia.
  - kred. apply lookup_ge_None in El. assert (i = length l) as -> by lia. rewrite firstn_all in It |- *. done.
Qed.

(** ** exit *)

(** A computation that does not look at the descriptors. *)
Definition blind {A} (m : K st A) : Prop := ∀ l s,
  m (set_ofile l s) =
    match m s with
    | Ok a s' => Ok a (set_ofile l s')
    | Panic msg => Panic msg
    | Blocked c s' => Blocked c (set_ofile l s')
    | UB w => UB w
    | NoFuel => NoFuel
    end.

Lemma blind_ret {A} (a : A) : blind (ret a).
Proof. done. Qed.
Lemma blind_bind {A B} (m : K st A) (f : A → K st B) : blind m → (∀ a, blind (f a)) → blind (bind m f).
Proof. intros Hm Hf l s. unfold bind. rewrite Hm. destruct (m s); try done. apply Hf. Qed.
Lemma blind_getf f : blind (getf f).
Proof. intros l s. unfold getf. simpl. by destruct (_ !! _), (1 <=? f). Qed.
Lemma blind_setf f g : blind (setf f g).
Proof. intros l s. unfold setf. simpl. by destruct (_ !! _), (1 <=? f). Qed.
Lemma blind_lock b : blind (if b : bool then acquire_ft else release_ft).
Proof. intros l s. destruct b; unfold acquire_ft, release_ft, acquire_flag, release_flag; simpl; by destruct (ft_lock s). Qed.
Lemma blind_on_fs {A} (m : K (fsst (lst S)) A) : blind (on_fs m).
Proof. intros l s. unfold on_fs, zoom. simpl. by destruct (m (fsys s)). Qed.
Lemma blind_on_pipe {A} a (m : K pst A) : blind (on_pipe kend a m).
Proof.
  intros l s. unfold on_pipe. simpl. destruct (pipes s !! a) as [p|]; [|done].
  destruct (m _) as [r t| | | |]; try done. destruct (Pipe.freed t); [|done].
  unfold bind, on_pages, zoom. simpl. by destruct (kfree kend a (pages s)).
Qed.

Lemma blind_fileclose me f : blind (fileclose me kend f).
Proof.
  unfold fileclose. apply blind_bind; [apply (blind_lock true)|]. intros _. apply blind_bind; [apply blind_getf|].
  intros x. destruct (f_ref x <? 1); [done|]. apply blind_bind; [apply blind_setf|]. intros _.
  destruct (0 <? f_ref x - 1); [apply (blind_lock false)|]. apply blind_bind; [apply blind_getf|]. intros y.
  do 2 (apply blind_bind; [apply blind_setf|]; intros _). apply blind_bind; [apply (blind_lock false)|]. intros _.
  destruct (f_type y); [done|apply blind_on_pipe|..]; do 2 (apply blind_bind; [apply blind_on_fs|]; intros _); apply blind_on_fs.
Qed.

(** Closing the file and clearing the slot, in exit's order. *)
Lemma okays_close_slot me ext (s : st) fd f :
  FI ext ∅ s → File.ofile s !! Z.to_nat fd = Some f → f ≠ 0 →
  okays (fileclose me kend f ;;; drop_fd fd) s
    (λ _ s', FI ext ∅ s' ∧ File.ofile s' = <[Z.to_nat fd := 0]> (File.ofile s)).
Proof.
  intros I Hl Hf. destruct (fd_file _ _ _ _ _ _ I Hl Hf) as (x & Hx & Hr).
  destruct (FI_unhook _ _ _ _ _ _ I Hl Hf Hx) as (I1 & Hx1 & He1).
  pose proof (okays_fileclose kend kend_pos me _ _ _ _ x I1 Hx1 He1) as H. specialize (H ltac:(set_solver)).
  unfold okays in *. rewrite blind_fileclose in H. unfold bind.
  destruct (fileclose me kend f s) as [[] s'| | | |] eqn:E; try done. destruct H as [I' [Ho _]].
  rewrite fresh_same in I' by done. pose proof (blind_fileclose me f (File.ofile s) s) as Hbl.
  replace (set_ofile (File.ofile s) s) with s in Hbl by by destruct s. rewrite E in Hbl. injection Hbl as Hs'.
  assert (Hos : File.ofile s' = File.ofile s) by by rewrite Hs'.
  unfold drop_fd, modify. rewrite Hos. split; [|done]. eapply FI_ext; [exact I'|]. intros g. by rewrite add_ref_undo.
Qed.

Lemma okays_exit_ofile me ext (s : st) :
  FI ext ∅ s → okays (exit_ofile me kend) s (λ _ s', FI ext ∅ s' ∧ Forall (.= 0) (File.ofile s')).
Proof.
  intros I. unfold exit_ofile.
  apply (okays_iter _ _ (λ fd t, 0 <= fd ∧ FI ext ∅ t ∧ ∀ i f, File.ofile t !! i = Some f → (i < Z.to_nat fd)%nat → f = 0)).
  2: { split_and!; [lia|done|]. lia. }
  intros fd t (Hfd & It & Hz). destruct (Z.ltb_spec fd NOFILE) as [Hlt|Hge].
  - apply okays_bind, okays_gets, okays_bind. destruct (File.ofile t !! Z.to_nat fd) as [f|] eqn:El; [|done].
    destruct (Z.eqb_spec f 0) as [->|Hf]; cbn [negb].
    + do 2 apply okays_ret. split_and!; [lia|done|]. intros i f Hi Hlt'.
      destruct (decide (i = Z.to_nat fd)) as [->|]; [congruence|]. apply (Hz i); [done|lia].
    + eapply okays_mono; [by apply (okays_close_slot me ext t)|]. intros [] t' [It' Ho']. apply okays_ret.
      split_and!; [lia|done|]. intros i g Hi Hlt'. rewrite Ho' in Hi.
      apply list_insert_cases in Hi as [[_ ->]|[Hne Hi]]; [done|]. apply (Hz i); [done|lia].
  - apply okays_ret. split; [done|]. apply Forall_lookup. intros i f Hi. apply (Hz i f Hi).
    destruct (fi_ofile _ _ _ _ _ _ _ _ It) as [Hlen _]. apply lookup_lt_Some in Hi. lia.
Qed.

(** ** All processes *)

(** The system calls on files, with what they read besides their arguments. *)
Inductive fcall :=
| CDup | CClose | CPipe | CLink | CUnlink | COpen | CMkdir | CMknod | CChdir
| CRead (killed : bool) | CWrite (killed : Z → bool) | CFstat (pad : list Z).

Definition run_call (me : Z) (fr : frame) (tf : trapframe) (c : fcall) : K st unit :=
  match c with
  | CDup => sys_dup tf ;;; ret tt
  | CClose => sys_close me kend tf ;;; ret tt
  | CPipe => sys_pipe me kend tf ;;; ret tt
  | CLink => sys_link me fr tf ;;; ret tt
  | CUnlink => sys_unlink me fr tf ;;; ret tt
  | COpen => sys_open me kend fr tf ;;; ret tt
  | CMkdir => sys_mkdir me fr tf ;;; ret tt
  | CMknod => sys_mknod me fr tf ;;; ret tt
  | CChdir => sys_chdir me fr tf ;;; ret tt
  | CRead killed => sys_read me kend dev_read tf killed ;;; ret tt
  | CWrite killed => sys_write me kend dev_write tf killed ;;; ret tt
  | CFstat pad => sys_fstat me tf pad ;;; ret tt
  end.

(** The kernel and the descriptor tables of the processes that do not run. *)
Definition ksys : Type := st * list (list Z).

(** A call of the running process, fork (which found a free process), the
    closing of all files in exit, the end of a process that has no open
    files, the switch to another process, and whatever else changes the file
    system and the memory of the running process. *)
Inductive fstep : ksys → ksys → Prop :=
| do_call me fr tf c s s' T : run_call me fr tf c s = Ok tt s' → fstep (s, T) (s', T)
| do_fork nl s s' T : zlen T + 1 < NPROC → fork_ofile s = Ok nl s' → fstep (s, T) (s', nl :: T)
| do_exit me s s' T : exit_ofile me kend s = Ok tt s' → fstep (s, T) (s', T)
| do_reap s T t T' : Forall (.= 0) t → fstep (s, T ++ t :: T') (s, T ++ T')
| do_switch s T t T' : fstep (s, T ++ t :: T') (set_ofile t s, T ++ File.ofile s :: T')
| do_other s x T : fstep (s, T) (set_fsys x s, T).

Definition others (T : list (list Z)) (f : Z) : Z := cnt f (concat T).

Definition kinv_fd (k : ksys) : Prop :=
  FI (others k.2) ∅ k.1 ∧ zlen k.2 < NPROC ∧ Forall (λ t, zlen t = NOFILE ∧ Forall (λ f, 0 <= f <= NFILE) t) k.2.

Lemma others_bound T : zlen T < NPROC → Forall (λ t, zlen t = NOFILE ∧ Forall (λ f, 0 <= f <= NFILE) t) T →
  ∀ g, others T g < 2 ^ 30.
Proof.
  intros HT Hall g. unfold others. eapply Z.le_lt_trans; [apply cnt_le|].
  assert (zlen (concat T) = NOFILE * zlen T) as ->.
  { clear HT. induction Hall as [|t T [Ht _] _ IH]; [done|]. cbn [concat length]. rewrite length_app. lia. }
  unfold NOFILE, NPROC in *. lia.
Qed.

Lemma others_mid T t T' g : others (T ++ t :: T') g = cnt g t + others (T ++ T') g.
Proof. unfold others. rewrite !concat_app. cbn [concat]. rewrite !cnt_app. lia. Qed.

Lemma okays_read me tf killed ext (s : st) : FI ext ∅ s → okays (sys_read me kend dev_read tf killed) s (λ _ s', FI ext ∅ s').
Proof.
  revert s. change (fkeeps (FI ext ∅) (sys_read me kend dev_read tf killed)). unfold sys_read.
  apply fkeeps_bind; [by apply fkeeps_arg_fd|]. intros [[fd f]|]; [|apply fkeeps_ret].
  apply fkeeps_fileread. unfold arg_int. pose proof (s32_range (arg tf 2)). lia.
Qed.
Lemma okays_write me tf killed ext (s : st) : FI ext ∅ s → okays (sys_write me kend dev_write tf killed) s (λ _ s', FI ext ∅ s').
Proof.
  revert s. change (fkeeps (FI ext ∅) (sys_write me kend dev_write tf killed)). unfold sys_write.
  apply fkeeps_bind; [by apply fkeeps_arg_fd|]. intros [[fd f]|]; [|apply fkeeps_ret]. by apply fkeeps_filewrite.
Qed.
Lemma okays_fstat me tf pad ext (s : st) : FI ext ∅ s → okays (sys_fstat me tf pad) s (λ _ s', FI ext ∅ s').
Proof.
  revert s. change (fkeeps (FI ext ∅) (sys_fstat me tf pad)). unfold sys_fstat.
  apply fkeeps_bind; [by apply fkeeps_arg_fd|]. intros [[fd f]|]; [|apply fkeeps_ret]. apply fkeeps_filestat.
Qed.

Lemma okays_call me fr tf c ext (s : st) :
  FI ext ∅ s → (∀ g, ext g < 2 ^ 30) → okays (run_call me fr tf c) s (λ _ s', FI ext ∅ s').
Proof.
  intros I Hb. destruct c; cbn [run_call]; apply okays_bind; (eapply okays_mono; [|intros ? s' I'; apply okays_ret; exact I']).
  - eapply okays_mono; [by apply runs_okays, (runs_sys_dup kend tf ext)|]. by intros r s' [I' _].
  - by apply okays_sys_close.
  - eapply okays_mono; [by apply runs_okays, (runs_sys_pipe kend kend_pos me tf ext)|]. by intros r s' [I' _].
  - by apply fkeeps_link.
  - by apply fkeeps_unlink.
  - by apply okays_open_node.
  - by apply fkeeps_make_node.
  - by apply fkeeps_make_node.
  - by apply fkeeps_chdir.
  - by apply okays_read.
  - by apply okays_write.
  - by apply okays_fstat.
Qed.

Lemma fstep_inv k k' : fstep k k' → kinv_fd k → kinv_fd k'.
Proof.
  intros Hstep (I & HT & Hall). pose proof (others_bound _ HT Hall) as Hb.
  pose proof (fi_ofile _ _ _ _ _ _ _ _ I) as Hof.
  destruct Hstep as [me fr tf c s s' T Hr|nl s s' T HT' Hr|me s s' T Hr|s T t T' Hz|s T t T'|s x T]; cbn [fst snd] in *.
  - split_and!; [|done|done]. by apply (okays_Ok _ _ _ _ _ (okays_call me fr tf c _ _ I Hb) Hr).
  - pose proof (runs_okays _ _ _ (runs_fork_ofile _ _ I Hb)) as H. destruct (okays_Ok _ _ _ _ _ H Hr) as (-> & _ & I').
    split_and!; [|cbn [length snd]; lia|by constructor]. eapply FI_ext; [exact I'|]. intros g. cbn [snd]. unfold others.
    cbn [concat]. rewrite cnt_app. lia.
  - split_and!; [|done|done]. by apply (okays_Ok _ _ _ _ _ (okays_exit_ofile me _ _ I) Hr).
  - apply Forall_app in Hall as [H1 [_ H2]%Forall_cons]. split_and!; cbn [fst snd].
    + eapply FI_ext_files; [exact I| |intros g; apply cnt_nonneg]. intros g Hg. rewrite others_mid.
      enough (cnt g t = 0) by lia. clear -Hz Hg. induction Hz as [|x t -> _ IH]; [done|]. rewrite cnt_cons, IH, decide_False by lia. done.
    + rewrite length_app in HT |- *. cbn [length] in HT. lia.
    + by apply Forall_app.
  - apply Forall_app in Hall as [H1 [[Ht1 Ht2] H2]%Forall_cons]. split_and!; cbn [fst snd].
    + unfold FileSpec.FI. cbn [ft_lock ftable File.ofile pipes pages set_ofile].
      eapply finv_move; [exact I| |intros g; apply cnt_nonneg|done|done]. intros g Hg. rewrite !others_mid. lia.
    + rewrite length_app in HT |- *. done.
    + apply Forall_app. split; [done|]. by constructor.
  - by split_and!.
Qed.

Lemma fsteps_inv k k' : rtc fstep k k' → kinv_fd k → kinv_fd k'.
Proof. induction 1; [done|]. intros. by eapply IHrtc, fstep_inv. Qed.

(** The table of open files when the first process starts. *)
Definition no_file : file := mkFile FD_NONE 0 false false 0 0 0 0.
Definition at_boot (s : st) : Prop :=
  ft_lock s = false ∧ ftable s = replicate (Z.to_nat NFILE) no_file ∧
  File.ofile s = replicate (Z.to_nat NOFILE) 0 ∧ pipes s = ∅ ∧ ∃ l, kinv kend (pages s) l.

Lemma at_boot_inv s : at_boot s → kinv_fd (s, []).
Proof.
  intros (Hlk & Hft & Hof & Hpp & l & Hk). split_and!; [|done|done]. unfold FileSpec.FI. cbn [fst snd].
  rewrite Hlk, Hft, Hof, Hpp.
  assert (Hno : ∀ f x, is_file (replicate (Z.to_nat NFILE) no_file) f x → x = no_file).
  { intros f x [_ Hx]. by apply lookup_replicate in Hx as [-> _]. }
  constructor; try done.
  - split; [done|]. apply Forall_replicate. unfold NFILE. lia.
  - intros f x Hx. rewrite (Hno f x Hx). destruct Hx as [Hf _]. rewrite cnt_replicate by lia. done.
  - intros f x Hx. rewrite (Hno f x Hx). split; [by left|done].
  - intros f x Hx. by rewrite (Hno f x Hx).
  - intros f g x y Hx _ Ht. by rewrite (Hno f x Hx) in Ht.
  - exists l. split; [done|]. intros a Ha. rewrite lookup_empty in Ha. by destruct Ha.
Qed.

(** ** Reading and writing a pipe always returns *)

Lemma runs_sys_read_pipe me tf killed ext (s : st) fd f x :
  FI ext ∅ s → fd = arg_int tf 0 → 0 <= fd < NOFILE → File.ofile s !! Z.to_nat fd = Some f → f ≠ 0 →
  is_file (ftable s) f x → f_type x = FD_PIPE →
  runs (sys_read me kend dev_read tf killed) s (λ _ s', FI ext ∅ s').
Proof.
  intros I -> Hfd Hl Hf Hx Ht. unfold sys_read, arg_fd. destruct (Z.ltb_spec (arg_int tf 0) 0); [lia|].
  rewrite Z.geb_leb. destruct (Z.leb_spec NOFILE (arg_int tf 0)); [lia|]. cbn [orb]. kred. rewrite Hl.
  destruct (Z.eqb_spec f 0); [done|]. kred. unfold fileread. apply runs_bind. eapply runs_getf; [exact Hx|].
  destruct (negb (f_readable x)); [by kred|]. rewrite Ht. apply runs_bind. eapply runs_mono.
  - eapply runs_on_pipe; [exact I|exact Hx|exact Ht|]. apply quiet_read. unfold arg_int.
    pose proof (s32_range (arg tf 2)). lia.
  - intros e s' I'. by kred.
Qed.

Lemma runs_sys_write_pipe me tf killed ext (s : st) fd f x :
  FI ext ∅ s → fd = arg_int tf 0 → 0 <= fd < NOFILE → File.ofile s !! Z.to_nat fd = Some f → f ≠ 0 →
  is_file (ftable s) f x → f_type x = FD_PIPE →
  runs (sys_write me kend dev_write tf killed) s (λ _ s', FI ext ∅ s').
Proof.
  intros I -> Hfd Hl Hf Hx Ht. unfold sys_write, arg_fd. destruct (Z.ltb_spec (arg_int tf 0) 0); [lia|].
  rewrite Z.geb_leb. destruct (Z.leb_spec NOFILE (arg_int tf 0)); [lia|]. cbn [orb]. kred. rewrite Hl.
  destruct (Z.eqb_spec f 0); [done|]. kred. unfold filewrite, filewrite_from. apply runs_bind. eapply runs_getf; [exact Hx|].
  destruct (negb (f_writable x)); [unfold quiet; by kred|]. rewrite Ht. apply runs_bind. eapply runs_mono.
  - eapply runs_on_pipe; [exact I|exact Hx|exact Ht|]. apply quiet_write.
  - intros e s' I'. by kred.
Qed.

(** ** The audit log's file *)

Lemma close_clears me ext (s : st) tf f x s' r :
  FI ext ∅ s → File.ofile s !! Z.to_nat (arg_int tf 0) = Some f → 0 <= arg_int tf 0 < NOFILE → is_file (ftable s) f x →
  f ≠ 0 → f_ref x = 1 → sys_close me kend tf s = Ok r s' →
  is_file (ftable s') f (set_f_type FD_NONE (set_f_ref 0 x)).
Proof.
  intros I Hl Hfd Hx Hf Hr Hrun. destruct (FI_unhook _ _ _ _ _ _ I Hl Hf Hx) as (I1 & Hx1 & _).
  revert Hrun. unfold sys_close, arg_fd. destruct (Z.ltb_spec (arg_int tf 0) 0); [lia|]. rewrite Z.geb_leb.
  destruct (Z.leb_spec NOFILE (arg_int tf 0)); [lia|]. cbn [orb]. unfold bind at 1 2, gets at 1. rewrite Hl.
  destruct (Z.eqb_spec f 0); [done|]. unfold ret at 1, bind at 1, modify. unfold bind.
  rewrite (fileclose_eq kend me _ _ _ _ _ I1 Hx1) by lia. rewrite Hr. change (1 =? 1) with true. cbv iota.
  match goal with |- context [close_tail kend me x ?t] => set (s2 := t) end.
  assert (Htl : okays (close_tail kend me x) s2 (λ _ s', ftable s' = ftable s2)).
  { destruct (decide (f_type x = FD_PIPE)) as [Ht|Ht]; [|by apply okays_close_tail].
    unfold close_tail. rewrite Ht. unfold okays, on_pipe. destruct (pipes s2 !! f_pipe x); [|done].
    destruct (pipeclose _ _) as [[] t| | | |]; try done. destruct (Pipe.freed t); [|done].
    unfold bind, on_pages, zoom. by destruct (kfree _ _ _). }
  unfold okays in Htl. destruct (close_tail kend me x s2) as [[] s3| | | |]; try done. intros [= _ <-].
  rewrite Htl. by eapply is_file_insert_eq.
Qed.
End FdSafe.

(** ** Properties *)

(** [C3] Open files are counted right, whatever the processes do: however the
    system calls on files, fork, exit, the end of processes and the switches
    between them follow each other, the reference count of every open file is
    the number of descriptors of all processes that name it, a file is free
    exactly when that number is zero, every descriptor names a file of the
    table, an end of a pipe is open exactly when an open file is that end, a
    pipe has an open end, and its page is allocated. *)
Theorem descriptors_counted {S} `{BC : !BlockCache S} (kend : Z)
    (dev_read dev_write : Z → option (Z → Z → K (fsst (lst S)) Z)) (s0 s : ofst S) (T : list (list Z)) :
  0 < kend → at_boot kend s0 → rtc (fstep kend dev_read dev_write) (s0, []) (s, T) →
  (∀ f, 1 <= f <= NFILE → ∃ x, ftable s !! fidx f = Some x ∧ f_ref x = cnt f (concat (File.ofile s :: T)) ∧
     (f_type x = FD_NONE ↔ f_ref x = 0)) ∧
  (∀ f, f ∈ concat (File.ofile s :: T) → 0 <= f <= NFILE) ∧
  (∀ a w, (∃ p, pipes s !! a = Some p ∧ pipe_end_open w p = true) ↔
     (∃ f x, is_file (ftable s) f x ∧ f_type x = FD_PIPE ∧ f_pipe x = a ∧ f_writable x = w)) ∧
  (∃ l, kinv kend (pages s) l ∧ ∀ a p, pipes s !! a = Some p →
     (readopen p = true ∨ writeopen p = true) ∧ page_ok kend a ∧ a ∉ l).
Proof.
  intros Hk Hb Hr. apply (fsteps_inv kend Hk) in Hr as (I & HT & Hall); [|by apply at_boot_inv]. cbn [fst snd] in *.
  split_and!.
  - intros f Hf. destruct (is_file_ex _ _ _ _ f I Hf) as [x Hx]. exists x. split; [apply Hx|].
    pose proof (FI_ref _ _ _ _ _ _ I Hx) as E. split.
    + rewrite E. cbn [concat]. rewrite cnt_app. unfold others. lia.
    + rewrite (fi_none _ _ _ _ _ _ _ _ I f x Hx). set_solver.
  - intros f Hf. cbn [concat] in Hf. apply elem_of_app in Hf as [Hf|Hf].
    + destruct (fi_ofile _ _ _ _ _ _ _ _ I) as [_ Ho]. by eapply Forall_forall in Ho.
    + apply list_elem_of_In, in_concat in Hf as (t & Ht & Hft). apply list_elem_of_In in Ht, Hft.
      eapply Forall_forall in Hall as [_ Ho]; [|exact Ht]. by eapply Forall_forall in Ho.
  - intros a w. split.
    + intros (p & Hp & Ho). by apply (fi_held _ _ _ _ _ _ _ _ I a p w).
    + intros (f & x & Hx & Ht & <- & <-). destruct (fi_pipe _ _ _ _ _ _ _ _ I f x Hx Ht) as (_ & p & Hp). by exists p.
  - destruct (fi_pages _ _ _ _ _ _ _ _ I) as (l & Hl & Hp). exists l. split; [done|]. intros a p Ha.
    destruct (fi_live _ _ _ _ _ _ _ _ I a p Ha) as (? & _). destruct (Hp a) as [? ?]; [by rewrite Ha|]. done.
Qed.

(** A kernel with one free page. *)
Definition demo_kend : Z := PHYSTOP - 4096.
Definition demo_files (x : lst bst) : ofst bst :=
  mkO false (replicate (Z.to_nat NFILE) no_file) (replicate (Z.to_nat NOFILE) 0)
    (mkF x demo_sb false [] ∅ ∅ [] 0) ∅ [] (mkK false demo_kend ∅).
Definition demo_tf : trapframe := mkTf 0 0 0 0 0 0 0.
Definition no_dev (major : Z) : option (Z → Z → K (fsst (lst bst)) Z) := None.

Lemma demo_kend_pos : 0 < demo_kend.
Proof. done. Qed.
Lemma demo_at_boot x : at_boot demo_kend (demo_files x).
Proof.
  split_and!; [done..|]. exists [demo_kend]. split_and!; [done|apply NoDup_singleton|].
  cbn. split_and!; [done|split; [done|unfold demo_kend; lia]|done].
Qed.

(** The first process makes a pipe and forks. *)
Lemma demo_run : ∃ (s0 s : ofst bst) T, at_boot demo_kend s0 ∧ T ≠ [] ∧
  rtc (fstep demo_kend no_dev no_dev) (s0, []) (s, T).
Proof.
  destruct demo_idle as [x _]. pose proof (at_boot_inv _ _ (demo_at_boot x)) as (I0 & _ & _).
  destruct (runs_elim _ _ _ (runs_sys_pipe _ demo_kend_pos 1 demo_tf _ _ I0)) as (r & s1 & E1 & I1 & _).
  destruct (runs_elim _ _ _ (runs_fork_ofile _ _ _ I1 ltac:(intros; unfold others; simpl; done))) as (nl & s2 & E2 & _).
  exists (demo_files x), s2, [nl]. split_and!; [apply demo_at_boot|done|].
  eapply rtc_l; [apply (do_call _ _ _ 1 (mkFrame 0 0 0 0 0 0 0 0 0 0) demo_tf CPipe _ s1)|].
  - cbn [run_call fst]. cbn [fst] in E1. unfold bind. by rewrite E1.
  - eapply rtc_once, do_fork; [done|exact E2].
Qed.

Lemma descriptors_counted_witness : ∃ (s0 s : ofst bst) T,
  rtc (fstep demo_kend no_dev no_dev) (s0, []) (s, T) ∧ T ≠ [] ∧
  ∀ f, 1 <= f <= NFILE → ∃ x, ftable s !! fidx f = Some x ∧ f_ref x = cnt f (concat (File.ofile s :: T)) ∧
     (f_type x = FD_NONE ↔ f_ref x = 0).
Proof.
  destruct demo_run as (s0 & s & T & Hb & HT & Hr). exists s0, s, T. split_and!; [exact Hr|exact HT|].
  exact (proj1 (descriptors_counted demo_kend no_dev no_dev s0 s T demo_kend_pos Hb Hr)).
Defined.

(** [C33] The calls on descriptors do what they promise, in every state that
    the processes can reach.  sys_pipe gives the two lowest free descriptors to
    the read end and the write end of a new, empty pipe and stores their numbers
    in this order, or leaves the descriptors as they were because files, a
    page, descriptors or the memory for the numbers are missing.  sys_dup makes
    the lowest free descriptor name the file of its argument, with one more
    reference and nothing else changed, or fails because the argument names no
    file or no descriptor is free.  fork's copy of the descriptors is equal to
    them.  A descriptor that names no file makes sys_read, sys_write, sys_close
    and sys_fstat return -1 and change nothing, and so does a file not open for
    reading or writing for sys_read or sys_write.  sys_close of an end of a pipe
    frees the descriptor and drops one reference. *)
Theorem descriptor_calls_return {S} `{BC : !BlockCache S} (kend : Z)
    (dev_read dev_write : Z → option (Z → Z → K (fsst (lst S)) Z)) (s0 s : ofst S) (T : list (list Z)) :
  0 < kend → at_boot kend s0 → rtc (fstep kend dev_read dev_write) (s0, []) (s, T) →
  ∀ me tf, let fd := arg_int tf 0 in
  runs (sys_pipe me kend tf) s (λ r s',
    r = -1 ∧ File.ofile s' = File.ofile s ∧ no_pipe kend (arg tf 0) s ∨ r = 0 ∧ pipe_made (arg tf 0) s s') ∧
  runs (sys_dup tf) s (dup_post fd s) ∧
  runs fork_ofile s (λ nl s', nl = File.ofile s ∧ File.ofile s' = File.ofile s) ∧
  (open_fd (File.ofile s) fd = None → ∀ kr kw pad,
     sys_read me kend dev_read tf kr s = Ok (FDone (-1)) s ∧ sys_write me kend dev_write tf kw s = Ok (FDone (-1)) s ∧
     sys_close me kend tf s = Ok (-1) s ∧ sys_fstat me tf pad s = Ok (-1) s) ∧
  (∀ f, open_fd (File.ofile s) fd = Some f → ∃ x, is_file (ftable s) f x ∧
     (f_readable x = false → ∀ kr, sys_read me kend dev_read tf kr s = Ok (FDone (-1)) s) ∧
     (f_writable x = false → ∀ kw, sys_write me kend dev_write tf kw s = Ok (FDone (-1)) s) ∧
     (f_type x = FD_PIPE → runs (sys_close me kend tf) s (λ r s', r = 0 ∧
        File.ofile s' = <[Z.to_nat fd := 0]> (File.ofile s) ∧ ∀ y, is_file (ftable s') f y → f_ref y = f_ref x - 1))).
Proof.
  intros Hk Hb Hr me tf fd. apply (fsteps_inv kend Hk) in Hr as (I & HT & Hall); [|by apply at_boot_inv]. cbn [fst snd] in *.
  pose proof (others_bound _ HT Hall) as Hbd. pose proof (arg_fd_eq kend tf 0 _ _ _ I) as Ea. fold fd in Ea. split_and!.
  - eapply runs_mono; [by apply (runs_sys_pipe kend Hk me tf (others T))|]. by intros r s' [_ H].
  - eapply runs_mono; [by apply (runs_sys_dup kend tf (others T))|]. by intros r s' [_ H].
  - eapply runs_mono; [by apply (runs_fork_ofile kend (others T))|]. by intros nl s' (? & ? & _).
  - intros E kr kw pad. rewrite E in Ea. unfold sys_read, sys_write, sys_close, sys_fstat, bind. by rewrite !Ea.
  - intros f E. rewrite E in Ea. destruct (open_fd_Some _ _ _ E) as (_ & Hl & Hf). destruct (fd_file kend _ _ _ _ _ I Hl Hf) as (x & Hx & _).
    exists x. split; [done|]. pose proof Hx as [H1 H2].
    assert (Eg : getf f s = Ok x s) by (unfold getf; rewrite H2; by destruct (Z.leb_spec 1 f); [|lia]). split_and!.
    + intros Hn kr. unfold sys_read, bind. rewrite Ea. cbn. unfold fileread, bind. rewrite Eg. by rewrite Hn.
    + intros Hn kw. unfold sys_write, bind. rewrite Ea. cbn. unfold filewrite, filewrite_from, bind. rewrite Eg. by rewrite Hn.
    + intros Ht. eapply runs_mono; [apply (runs_sys_close kend Hk me tf (others T) s f x); [done|done|done|by left]|]. by intros r s' [_ H].
Qed.

Lemma descriptor_calls_return_witness : ∃ (s0 s : ofst bst) T,
  rtc (fstep demo_kend no_dev no_dev) (s0, []) (s, T) ∧ T ≠ [] ∧
  runs (sys_dup demo_tf) s (dup_post 0 s) ∧
  runs fork_ofile s (λ nl s', nl = File.ofile s ∧ File.ofile s' = File.ofile s).
Proof.
  destruct demo_run as (s0 & s & T & Hb & HT & Hr). exists s0, s, T. split_and!; [exact Hr|exact HT|..];
    apply (descriptor_calls_return demo_kend no_dev no_dev s0 s T demo_kend_pos Hb Hr 1 demo_tf).
Defined.

(** The audit log does not hold a reference to its file: the file is counted
    for the descriptor that open took from the process that happened to write
    the log first.  Once that process closes the descriptor, the next flush of
    the log panics. *)
Theorem audit_log_dangles {S} `{BC : !BlockCache S} (kend : Z) dev_write (me me' : Z) (fr : frame) (tf : trapframe)
    (ext : Z → Z) (s s' : ofst S) (f r n : Z) (x : file) filename killed buf :
  FI kend ext ∅ s → 0 <= arg_int tf 0 < NOFILE → File.ofile s !! Z.to_nat (arg_int tf 0) = Some f → f ≠ 0 →
  is_file (ftable s) f x → f_ref x = 1 → f_writable x = true →
  sys_close me kend tf s = Ok r s' → strlen (Z.to_nat BUFF_SIZE) (kmem (fsys s')) buf = Some n →
  log_to_file me' kend dev_write fr filename killed buf (mkAlog true f s') = Panic "filewrite".
Proof.
  intros I Hfd Hl Hf Hx Hr Hw Hrun Hs. pose proof (close_clears _ _ _ _ _ _ _ _ _ I Hl Hfd Hx Hf Hr Hrun) as Hc.
  pose proof Hx as [Hf1 _]. unfold log_to_file, bind, gets, a_opened, negb, ret, a_file.
  destruct (Z.eqb_spec f (-1)); [lia|]. destruct (Z.eqb_spec f 0); [done|].
  unfold on_kernel at 1, zoom at 1, say, on_fs, zoom, Fs.printf, modify. cbn [a_kernel fsys set_fsys kmem]. rewrite Hs.
  unfold on_kernel, zoom, kfilewrite, filewrite_from, bind, getf. cbn [a_kernel ftable set_fsys].
  destruct Hc as [_ ->]. destruct (Z.leb_spec 1 f); [|lia]. cbn [f_writable f_type set_f_type set_f_ref]. by rewrite Hw.
Qed.
